(* ===== verification/_CoqProject ===== *)
-Q . S2P
Prelude.v
PyStr.v
PyVal.v
Types.v
Facts.v
Predicate.v
Kinds.v
OpSpec.v
Registry.v
Policy.v
Selector.v
SelectorSpec.v
Parallel.v
ProcessGroups.v
Collectives.v
CollectiveProps.v
Deployment.v
Supervisor.v
SupervisorInv.v
SupervisorProps.v
WorkerProtocol.v
Bootstrap.v
Dispatch.v
Executor.v
Gateway.v
CallSite.v
CallSiteProps.v
Ops.v
OpsProps.v
Tensor.v
Weights.v
Linear.v
LinearProps.v
Loader.v
LoaderProps.v
KvCache.v
KvProps.v
Encoding.v
EncodingProps.v
Graph.v
GraphProps.v
Ipc.v
IpcProps.v
VisualTokens.v
VisualProps.v
UnisScheduler.v
UnisProps.v
Attention.v
AttentionProps.v
AttentionRow.v
Paged.v
PagedProps.v
PiConfig.v
Pi05Runners.v
Pi05Scheduler.v
Pi05Props.v
Pi05Steps.v
Pi05Updates.v
Pi05Rollout.v
PyFloat.v
Transition.v
ProcessorSteps.v
Pipeline.v
Processors.v
PipelineProps.v
StepProps.v
ImageProps.v
ProcessorProps.v
