(* ===== verification/Prelude.v ===== *)
(** * PhyAI: the verification library (root file)

    PhyAI serves robot policies and generative models from several GPUs.
    This development models the parts of it that decide and keep state, in
    [src/phyai/src/phyai] unless another path is named, and proves what they
    promise to each other.  Each definition names the function or method it
    translates in its comment; a file without the suffix [Props] holds the
    definitions of one component, and its theorems where they are few.

    ** How the parts interact

    A launcher makes a deployment plan ([Deployment.v]), starts one process
    per rank ([WorkerProtocol.v]) and supervises them ([Supervisor.v]).  A
    worker joins its replica ([Bootstrap.v]): it resolves the parallel
    configuration into rank groups ([Parallel.v]), makes the process groups
    ([ProcessGroups.v]) and attaches the backends of its collectives
    ([Collectives.v]).  It builds layers that hold a shard of each weight
    ([Weights.v], [Linear.v]) and fills them from checkpoint files
    ([Loader.v]).  A layer finds its kernel through a call site
    ([CallSite.v]), which asks the process-wide selector ([Selector.v]) for
    the best row of the catalog ([Registry.v], [Ops.v]) that accepts the facts
    of the call ([Facts.v], [Predicate.v]) under the policy ([Policy.v]).
    Attention layers ([Attention.v], [Paged.v]) lower one declared mask to
    whichever backend was selected.  A
    model step reads and writes cached keys and values ([KvCache.v]), found by
    the bytes of a prompt ([Encoding.v]), and may be captured as a graph
    ([Graph.v]); image generation drives two such caches
    ([VisualTokens.v], [UnisScheduler.v]), and a policy step plans two paged
    runners over one pool ([Pi05Scheduler.v]) on inputs that a pipeline of
    steps prepared ([Pipeline.v], [Processors.v]).  Requests reach a replica through
    the gateway ([Gateway.v]), the dispatcher ([Dispatch.v]) and an executor
    ([Executor.v]); processes on one host share buffers ([Ipc.v]).

    ** Foundations

    - [Prelude.v] (this file): exceptions and the result monad [res]; the
      monad [act] of a state and exceptions; Python dictionaries in insertion
      order; sorting; sums over maps; the tactic [inv_bind], which opens a
      computation that succeeded.
    - [PyStr.v], [PyVal.v]: Python strings, decimal text and dynamic values.
    - [Tensor.v]: the operations of [torch] the layers use, with the laws the
      code relies on as type classes, and a model of those laws.

    ** Kernel selection ([kernel/])

    - [Types.v] ([kernel/types.py], [utils/vendors.py]), [Facts.v]
      ([kernel/facts.py]), [Predicate.v] and [Kinds.v]
      ([kernel/predicate.py]): evaluation with reported failures refines the
      boolean reading of a predicate and partial evaluation is sound.
    - [OpSpec.v], [Registry.v], [Policy.v]: schemas, the catalog and the
      decision of a policy.
    - [Selector.v], [SelectorSpec.v]: the state is the cache of choices.  A
      selection is a row that accepts the call; it is stable; an explanation
      predicts it.
    - [CallSite.v], [CallSiteProps.v]: a remembered selection is one a cold
      selector makes, when the rows of the operation keep the contract of the
      memo.
    - [Ops.v], [OpsProps.v] ([kernel/ops/*.py]): the built-in catalog builds;
      which of its operations keep that contract, and what goes wrong for the
      others.

    ** Parallel execution ([parallel/], [engine.py])

    - [Parallel.v]: every resolved configuration partitions the ranks.
    - [ProcessGroups.v]: all ranks make the same groups by the same calls.
    - [Collectives.v], [CollectiveProps.v]: which backend serves a collective.
    - [Bootstrap.v]: composition of plan, environment, world and mesh.

    ** Weights and layers ([weights/], [layers/], [utils/checkpoint.py])

    - [Weights.v], [Linear.v], [LinearProps.v]: what a rank loads, and that a
      group of ranks computes the function of the unsharded layer, in exact
      arithmetic.
    - [Loader.v], [LoaderProps.v]: loading from files and from a session
      agree, and what a strict load has done.
    - [Attention.v], [AttentionProps.v] ([layers/attention/]): the eager,
      SDPA and FlashInfer backends compute the rows the declared mask asks
      for, on padded and on packed input.  [AttentionRow.v]: a call that the
      catalog row of FlashInfer accepts, by the call site's facts, is computed
      by that backend, but for one kind of call.
    - [Paged.v], [PagedProps.v] ([layers/attention/paged/]): index builders
      and the two backends over the pool of [KvCache.v]; a step sees exactly
      the slots it names, of which FlashInfer counts those that the last page
      is filled with.

    ** Runtime and caches ([cache/], [runtime/])

    - [KvCache.v], [KvProps.v]: reads give the last write of the same cache.
    - [Encoding.v], [EncodingProps.v]: the bytes of a prompt give it back.
    - [Graph.v], [GraphProps.v]: a captured graph is the captured function.
    - [Ipc.v], [IpcProps.v]: the state is the names, blocks, mappings and
      registrations of the host; they are those of the open buffers and of
      closes that failed in part.

    ** Image generation ([models/xiaomi_u0/])

    - [VisualTokens.v], [VisualProps.v] ([logits_processor_unis.py]): every
      image that is started is finished.
    - [UnisScheduler.v], [UnisProps.v] ([scheduler_unis.py],
      [model_runner_unis.py], [requests_unis.py]): what a generation returns
      and leaves in the caches, and that a failed one does no harm.

    ** Robot policies ([models/pi05/], [models/pi0/])

    - [PiConfig.v]: the configurations and their checks.
    - [Pi05Runners.v] ([model_runner_pi05.py]): the language and the expert
      runner.  A runner's state is its planned backend, its buffers and what
      its graphs have baked in; the networks are parameters that receive the
      backend, the plan and the pool, so what they may see is visible.  A
      graph replay is the captured call on the current buffers, which is what
      [Graph.v] proves of a captured graph.
    - [Pi05Scheduler.v] ([scheduler_pi05.py]): set-up, one inference, one
      rollout, the layouts they remember, and the refresh after an update.
    - [Pi05Props.v]: the layout of a batch.  [Pi05Steps.v]: remembering
      layouts and skipping plans changes no answer.  [Pi05Rollout.v]: a
      rollout without noise is the Euler flow.  [Pi05Updates.v]: what a
      weight update leaves behind, and which set-ups have their graphs.

    ** Processing ([src/phyai-utils-tools/src/phyai_utils_tools])

    What happens before and after the model: raw images, states and tasks
    become model inputs, model outputs become actions.

    - [PyFloat.v]: the float nearest to a number, and the error of a quotient
      of floats.
    - [Transition.v] ([processing/transition.py], [types.py],
      [ops/image_ops.py]): the dictionary that steps pass on and its tensors,
      each a shape, an element type, a device and the number at every index,
      with broadcasting and the devices an operation may combine.
    - [ProcessorSteps.v] ([processing/steps/], [pi0/steps_pi0.py],
      [pi05/steps_pi05.py], [pi05/ops_pi05.py]): every registered step.
    - [Pipeline.v] ([processing/pipeline.py]): the registry, running, and the
      files of a saved pipeline.  [PipelineProps.v]: a saved pipeline that is
      loaded again answers every input as before, when what its files do not
      hold is given again.
    - [StepProps.v]: unnormalizing undoes normalizing, for features that do
      not share a field.  [ImageProps.v]: resizing fits an image, up to one
      pixel that float rounding takes, and centres it; the bins of a state.
    - [Processors.v], [ProcessorProps.v] ([models/pi0], [models/pi05]): the
      processors of both policies come back from their files; the order of
      slicing and unnormalizing decides which statistics they take.

    The tokenizer, the interpolation of images, the hub and the order in which
    a tensor file lists its tensors are parameters.  A conversion of the
    element type changes the label of a tensor and not its numbers, and a
    keyword argument of another type than its field is refused when the step
    is made, where the code would keep it until the step uses it.

    ** Serving ([server/], [src/phyai-gateway/phyai_gateway/])

    - [Deployment.v]: every rank of every replica has a device slot.
    - [Supervisor.v], [SupervisorInv.v], [SupervisorProps.v]: a labelled step
      relation whose steps are the regions the code runs under its lock; the
      counters are exact, each future is resolved once, every accepted request
      is resolved.  A parameter says whether [close] may overlap [start], which
      the executors exclude; the theorems hold for both and say what differs.
    - [WorkerProtocol.v]: the worker process and its messages.
    - [Dispatch.v], [Executor.v]: routing, and the life of the executors.
    - [Gateway.v]: registrations, leases, channels and calls, interleaved.

    ** Reading conventions

    A function that may raise returns [res]; one that also mutates returns the
    state it leaves behind together with the outcome, so that the effects made
    before an exception are visible.  Message texts, log lines and progress
    bars are left out.  Python integers are [Z]; the machine words of the
    encodings are masked as the code masks them. The quotients that size an
    image are rounded to 53 bits, ties to even. Elsewhere floats occur only as
    elements of tensors and of action chunks, where arithmetic is exact, in
    the configuration of steps, and as times, where only order is used. The
    rows of attention (scores, soft-max, weighted sums) are those of a class
    of numbers, and fused kernels are parameters with their documented rows,
    so the theorems say which keys each query sees, under which scale, and in
    which head group. A region under a lock is one step; steps of different
    threads interleave in any order. Library code ([torch],
    [torch.distributed], the CUDA driver, gRPC, file parsing) is a parameter;
    what the code relies on is stated as a class of laws or a hypothesis, with
    a concrete instance in the witnesses.

    Recursion is structural except where a loop of the code has a bound of its
    own, which is then the fuel: the length of a span in [fill_segment], the
    number of requested tokens in [predict_loop], the number of replicas in
    [rotate], the number of ranks in [chunks] ([chunks_join] proves that it is
    enough).  Loops without such a bound (the
    supervisor, image generation under an arbitrary sampler) are relations or
    runs of [n] steps, with a theorem that enough steps finish.

    ** Not modelled

    The tensor programs of [models/] and [layers/] beyond those named above:
    their control flow is that of the formulas they compute.  The prefix tree
    behind [cache/radix_cache], which is C++.  The workspaces and static
    buffers of kernel libraries, compilation by [torch.compile], SDPA kernel
    priorities and the gated-delta-net attention.  The processors of the
    models other than pi0 and pi0.5, and the loader of tokenizers.  gRPC and HTTP transports,
    argument parsing, and the construction of engines: their libraries own the
    control flow.  Time-outs are steps that may happen, without durations. *)

From stdpp Require Export base gmap strings list sorting fin_maps.
From Stdlib Require Export ZArith Lia.

(** ** Exceptions

    One constructor per exception class the modelled code raises or catches.
    Message texts are not modelled. *)
Inductive exn : Type :=
  | ValueError
  | TypeError
  | KeyError
  | IndexError
  | ZeroDivisionError
  | RuntimeError
  | AssertionError
  | NotImplementedError
  | TimeoutError
  | PolicyError
  | UnknownOperationError
  | UnknownKernelError
  | NoKernelError
  | FrozenChoiceError
  | EngineUnavailableError
  | NoBackendError
  | FileNotFoundError
  | NotADirectoryError
  | CudaGraphError
  | StaticCacheError
  | VGPURuntimeError
  | BackendCapabilityError
  | StructError
  | ProcessorStepError
  | OtherError.

#[export] Instance exn_eq_dec : EqDecision exn.
Proof. solve_decision. Defined.

(** The subclass tests of the [except] clauses that occur in the code:
    [PolicyError] is a [ValueError]; the two unknown-name errors are
    [KeyError]s; [NoKernelError], [FrozenChoiceError],
    [NotImplementedError] and [EngineUnavailableError] are [RuntimeError]s. *)
Definition is_value_error (e : exn) : bool :=
  match e with ValueError | PolicyError => true | _ => false end.

Definition is_type_or_value_error (e : exn) : bool :=
  match e with TypeError => true | _ => is_value_error e end.

(** ** The result monad *)
Inductive res (A : Type) : Type :=
  | Ok (a : A)
  | Err (e : exn).
Arguments Ok {A} a.
Arguments Err {A} e.

#[export] Instance res_ret : MRet res := λ A a, Ok a.
#[export] Instance res_bind : MBind res := λ A B f m,
  match m with Ok a => f a | Err e => Err e end.
#[export] Instance res_fmap : FMap res := λ A B f m,
  match m with Ok a => Ok (f a) | Err e => Err e end.

#[export] Instance res_eq_dec {A} `{EqDecision A} : EqDecision (res A).
Proof. solve_decision. Defined.

Definition is_ok {A} (m : res A) : bool :=
  match m with Ok _ => true | Err _ => false end.

(** [guard_err b e]: raise [e] unless [b] holds. *)
Definition ensure (b : bool) (e : exn) : res unit :=
  if b then Ok () else Err e.

Definition of_option {A} (e : exn) (o : option A) : res A :=
  match o with Some a => Ok a | None => Err e end.

Lemma bind_ok {A B} (f : A → res B) (m : res A) (b : B) :
  m ≫= f = Ok b ↔ ∃ a, m = Ok a ∧ f a = Ok b.
Proof. destruct m; split; [eauto|by intros (? & [= <-] & ?)|done|by intros (? & ? & ?)]. Qed.

Lemma ensure_ok b e : ensure b e = Ok () ↔ b = true.
Proof. by destruct b. Qed.

(** Invert a monadic computation that is known to have succeeded. *)
Ltac inv_bind :=
  repeat match goal with
  | H : (_ ≫= _) = Ok _ |- _ =>
      apply bind_ok in H; destruct H as (? & ? & ?)
  | H : ensure ?b _ = Ok _ |- _ =>
      match b with true => fail 1 | _ => idtac end;
      let E := fresh "Hens" in
      destruct b eqn:E; simpl in H; [clear H | discriminate H]
  | H : Ok _ = Ok _ |- _ => injection H; clear H; intros; subst
  | H : mret _ = Ok _ |- _ => unfold mret, res_ret in H
  | H : Err _ = Ok _ |- _ => discriminate H
  end.

Section res_list.
Context {A B : Type}.

Fixpoint rmap (f : A → res B) (l : list A) : res (list B) :=
  match l with
  | [] => Ok []
  | x :: l' => y ← f x; ys ← rmap f l'; Ok (y :: ys)
  end.

Lemma rmap_ok (f : A → res B) l k :
  rmap f l = Ok k ↔ Forall2 (λ x y, f x = Ok y) l k.
Proof.
  revert k; induction l as [|x l IH]; intros k; simpl.
  - split; [intros [= <-]; constructor | by inversion 1].
  - split.
    + intros ?; inv_bind. constructor; [done|]. by apply IH.
    + inversion 1 as [|? y ? ys Hy Hys]; subst. rewrite Hy; simpl.
      apply IH in Hys. by rewrite Hys.
Qed.

Lemma rmap_length (f : A → res B) l k : rmap f l = Ok k → length k = length l.
Proof. intros H%rmap_ok. symmetry. by eapply Forall2_length. Qed.

Lemma rmap_err (f : A → res B) l e :
  rmap f l = Err e → ∃ x, x ∈ l ∧ f x = Err e.
Proof.
  induction l as [|x l IH]; simpl; [done|].
  destruct (f x) eqn:Hx; simpl.
  - destruct (rmap f l) eqn:Hl; simpl; [done|intros [= <-]].
    destruct IH as (y & ? & ?); [done|]. exists y; split; [by right|done].
  - intros [= <-]. exists x; split; [by left|done].
Qed.


End res_list.

(** ** Computations on a state

    An [act] is the state it leaves behind and its outcome: the effects made
    before an exception stay. *)
Definition act (St A : Type) : Type := St → St * res A.

#[export] Instance act_ret {St} : MRet (act St) := λ A a s, (s, Ok a).
#[export] Instance act_bind {St} : MBind (act St) := λ A B f m s,
  match m s with (s', Ok a) => f a s' | (s', Err e) => (s', Err e) end.

(** An outcome without effect, a change of the state, two reads of it, and an
    [act] on a part of the state. *)
Definition lift {St A} (r : res A) : act St A := λ s, (s, r).
Definition modify {St} (f : St → St) : act St unit := λ s, (f s, Ok ()).
Definition gets {St A} (f : St → A) : act St A := λ s, (s, Ok (f s)).
Definition peek {St A} (f : St → res A) : act St A := λ s, (s, f s).
Definition zoom {St C A} (get : St → C) (set : C → St → St) (m : act C A) : act St A :=
  λ s, let '(c, r) := m (get s) in (set c s, r).

(** A loop that stops at the first exception. *)
Fixpoint repeat_act {St A} (n : nat) (m : act St A) : act St unit :=
  match n with O => mret () | S n' => _ ← m; repeat_act n' m end.
Fixpoint each_act {St A} (f : A → act St unit) (l : list A) : act St unit :=
  match l with [] => mret () | x :: l' => _ ← f x; each_act f l' end.

Lemma act_bind_ok {St A B} (f : A → act St B) (m : act St A) s s' b :
  (m ≫= f) s = (s', Ok b) ↔ ∃ s1 a, m s = (s1, Ok a) ∧ f a s1 = (s', Ok b).
Proof.
  unfold mbind, act_bind. destruct (m s) as [s1 [a|e]]; split; [eauto|by intros (? & ? & [= <- <-] & ?)|done|].
  by intros (? & ? & [=] & ?).
Qed.

Lemma lift_ok {St A} (r : res A) (s s' : St) a : lift r s = (s', Ok a) ↔ s' = s ∧ r = Ok a.
Proof. unfold lift. split; [by intros [= <- <-]|by intros [-> ->]]. Qed.

Lemma zoom_ok {St C A} (get : St → C) set (m : act C A) s s' a :
  zoom get set m s = (s', Ok a) ↔ ∃ c, m (get s) = (c, Ok a) ∧ s' = set c s.
Proof. unfold zoom. destruct (m (get s)) as [c r]. split; [intros [= <- ->]; eauto|by intros (? & [= <- ->] & ->)]. Qed.

(** ** Insertion-ordered dictionaries

    A Python [dict] whose iteration order the code observes: an association
    list with at most one pair per key, a new key going to the end. *)
Abbreviation dict K V := (list (K * V)%type) (only parsing).

Section dict.
Context {K V : Type} `{EqDecision K}.

Fixpoint dget (d : dict K V) (k : K) : option V :=
  match d with
  | [] => None
  | (k', v) :: d' => if decide (k = k') then Some v else dget d' k
  end.

Fixpoint dset (d : dict K V) (k : K) (v : V) : dict K V :=
  match d with
  | [] => [(k, v)]
  | (k', v') :: d' =>
      if decide (k = k') then (k', v) :: d' else (k', v') :: dset d' k v
  end.

Definition ddel (d : dict K V) (k : K) : dict K V :=
  filter (λ p, p.1 ≠ k) d.

Definition dkeys (d : dict K V) : list K := d.*1.
Definition dvals (d : dict K V) : list V := d.*2.

Lemma dget_dset_eq d k v : dget (dset d k v) k = Some v.
Proof.
  induction d as [|[k' v'] d IH]; simpl; [by rewrite decide_True|].
  destruct (decide (k = k')) eqn:E; simpl; rewrite E; done.
Qed.

Lemma dget_dset_ne d k k' v : k ≠ k' → dget (dset d k v) k' = dget d k'.
Proof.
  intros Hne. induction d as [|[k1 v1] d IH]; simpl; [by rewrite decide_False|].
  destruct (decide (k = k1)) as [->|]; simpl; [by rewrite !decide_False by done|].
  by rewrite IH.
Qed.

Lemma dget_dset d k k' v :
  dget (dset d k v) k' = if decide (k = k') then Some v else dget d k'.
Proof. case_decide as E; [subst; apply dget_dset_eq | by apply dget_dset_ne]. Qed.

Lemma dget_ddel d k k' :
  dget (ddel d k) k' = if decide (k = k') then None else dget d k'.
Proof.
  unfold ddel. induction d as [|[k1 v1] d IH]; [by case_decide|].
  rewrite filter_cons; simpl. destruct (decide (k1 ≠ k)) as [Hne|Heq].
  - simpl. rewrite IH. repeat case_decide; congruence.
  - apply dec_stable in Heq as ->. rewrite IH. repeat case_decide; congruence.
Qed.

Lemma dget_elem d k v : dget d k = Some v → (k, v) ∈ d.
Proof.
  induction d as [|[k1 v1] d IH]; simpl; [done|].
  case_decide; [intros [= <-]; subst; by left|]. intros; right; auto.
Qed.

Lemma elem_dget d k v : NoDup (dkeys d) → (k, v) ∈ d → dget d k = Some v.
Proof.
  unfold dkeys. induction d as [|[k1 v1] d IH]; simpl; [by intros _ ?%elem_of_nil|].
  rewrite NoDup_cons, elem_of_cons. intros [Hn Hd] [[= -> ->]|Hin].
  - by rewrite decide_True.
  - rewrite decide_False; [by apply IH|]. intros ->. apply Hn.
    apply list_elem_of_fmap. by exists (k1, v).
Qed.

Lemma dget_None d k : dget d k = None ↔ k ∉ dkeys d.
Proof.
  unfold dkeys. induction d as [|[k1 v1] d IH]; simpl; [split; [intros _; apply not_elem_of_nil|done]|].
  rewrite not_elem_of_cons. case_decide; subst; naive_solver.
Qed.

Lemma dget_is_Some d k : is_Some (dget d k) ↔ k ∈ dkeys d.
Proof.
  rewrite <-not_eq_None_Some, dget_None. split; [apply dec_stable|naive_solver].
Qed.

Lemma dset_keys d k v :
  dkeys (dset d k v) = if decide (k ∈ dkeys d) then dkeys d else dkeys d ++ [k].
Proof.
  unfold dkeys. induction d as [|[k1 v1] d IH];
    [by rewrite decide_False by apply not_elem_of_nil | simpl].
  destruct (decide (k = k1)) as [->|Hne]; simpl.
  { rewrite decide_True; [done|by left]. }
  destruct (decide (k ∈ d.*1)).
  - rewrite decide_True by (by right). f_equal. exact IH.
  - rewrite decide_False by set_solver. f_equal. exact IH.
Qed.

Lemma dset_NoDup d k v : NoDup (dkeys d) → NoDup (dkeys (dset d k v)).
Proof.
  intros Hd. rewrite dset_keys. case_decide; [done|].
  apply NoDup_app; repeat split; [done|set_solver|apply NoDup_singleton].
Qed.

Lemma ddel_NoDup d k : NoDup (dkeys d) → NoDup (dkeys (ddel d k)).
Proof.
  unfold ddel, dkeys. induction d as [|[k1 v1] d IH]; simpl; [done|].
  rewrite NoDup_cons. intros [Hn Hd]. rewrite filter_cons. case_decide; [|auto].
  simpl. apply NoDup_cons; split; [|auto].
  intros ([k2 v2] & -> & Hin)%list_elem_of_fmap.
  apply list_elem_of_filter in Hin as [_ Hin]. apply Hn.
  apply list_elem_of_fmap. by exists (k2, v2).
Qed.
Lemma dkeys_filter_NoDup (P : K * V → Prop) `{∀ p, Decision (P p)} d :
  NoDup (dkeys d) → NoDup (dkeys (filter P d)).
Proof.
  unfold dkeys. induction d as [|p d IH]; [done|]. rewrite filter_cons. simpl.
  rewrite NoDup_cons. intros [Hn Hd]. case_decide; [|auto]. simpl.
  apply NoDup_cons; split; [|auto]. intros (q & Hq & Hin)%list_elem_of_fmap.
  apply list_elem_of_filter in Hin as [_ Hin]. apply Hn. rewrite Hq.
  apply list_elem_of_fmap. by exists q.
Qed.

Lemma dget_filter (P : K * V → Prop) `{∀ p, Decision (P p)} d k v :
  NoDup (dkeys d) → dget (filter P d) k = Some v ↔ dget d k = Some v ∧ P (k, v).
Proof.
  intros Hd. split.
  - intros Hg%dget_elem. apply list_elem_of_filter in Hg as [HP Hg]. split; [|done].
    by apply elem_dget.
  - intros [Hg HP]. apply elem_dget; [by apply dkeys_filter_NoDup|].
    apply list_elem_of_filter. split; [done|by apply dget_elem].
Qed.
End dict.

(** ** Stable sorting

    Python's [sorted] is stable: [py_sorted R] inserts from the right, an
    element going before the equal ones that follow it in the input. *)
Section sorting.
Context {A : Type} (R : A → A → Prop) `{!RelDecision R}.

Fixpoint insert_sorted (x : A) (l : list A) : list A :=
  match l with
  | [] => [x]
  | y :: l' => if decide (R x y) then x :: y :: l' else y :: insert_sorted x l'
  end.

Definition py_sorted (l : list A) : list A := foldr insert_sorted [] l.

Lemma insert_sorted_perm x l : insert_sorted x l ≡ₚ x :: l.
Proof.
  induction l as [|y l IH]; simpl; [done|]. case_decide; [done|].
  rewrite IH. apply Permutation_swap.
Qed.

Lemma py_sorted_perm l : py_sorted l ≡ₚ l.
Proof. induction l as [|x l IH]; simpl; [done|]. by rewrite insert_sorted_perm, IH. Qed.

Lemma py_sorted_elem l x : x ∈ py_sorted l ↔ x ∈ l.
Proof. by rewrite py_sorted_perm. Qed.

Lemma py_sorted_length l : length (py_sorted l) = length l.
Proof. by rewrite py_sorted_perm. Qed.

Lemma py_sorted_id l : StronglySorted R l → py_sorted l = l.
Proof.
  induction 1 as [|x l _ IH Hx]; simpl; [done|]. rewrite IH.
  destruct l as [|y l]; simpl; [done|]. apply Forall_cons in Hx as [Hxy _].
  by rewrite decide_True.
Qed.

Context `{!Transitive R, !Total R}.

Lemma insert_sorted_sorted x l :
  StronglySorted R l → StronglySorted R (insert_sorted x l).
Proof.
  induction 1 as [|y l Hl IH Hy]; simpl; [by repeat constructor|].
  case_decide as Hxy.
  - constructor; [by constructor|]. constructor; [done|].
    eapply Forall_impl; [exact Hy|]. intros z. by apply transitivity.
  - constructor; [done|]. rewrite insert_sorted_perm. constructor; [|done].
    by destruct (total R x y).
Qed.

Lemma py_sorted_sorted l : StronglySorted R (py_sorted l).
Proof.
  unfold py_sorted. induction l; simpl; [apply SSorted_nil|by apply insert_sorted_sorted].
Qed.

Lemma py_sorted_idemp l : py_sorted (py_sorted l) = py_sorted l.
Proof. apply py_sorted_id, py_sorted_sorted. Qed.

(** With an antisymmetric order the result depends on the multiset only. *)
Lemma py_sorted_unique `{!AntiSymm (=) R} l k :
  l ≡ₚ k → py_sorted l = py_sorted k.
Proof.
  intros Hlk. apply (StronglySorted_unique R); [apply py_sorted_sorted..|].
  by rewrite !py_sorted_perm.
Qed.
End sorting.

Section sorting_map.
Context {A B : Type} (R : A → A → Prop) (S : B → B → Prop)
  `{!RelDecision R, !RelDecision S} (f : A → B).
Hypothesis Hf : ∀ x y, R x y ↔ S (f x) (f y).

(** A map that preserves and reflects the order commutes with sorting. *)
Lemma py_sorted_fmap l : py_sorted S (f <$> l) = f <$> py_sorted R l.
Proof using Hf.
  assert (∀ x l, insert_sorted S (f x) (f <$> l) = f <$> insert_sorted R x l) as Hi.
  { intros x k. induction k as [|y k IH]; simpl; [done|].
    destruct (decide (R x y)) as [H|H].
    - by rewrite decide_True by by apply Hf.
    - rewrite decide_False by by rewrite <-Hf. rewrite fmap_cons. f_equal. exact IH. }
  induction l as [|x l IH]; [done|]. cbn [py_sorted foldr fmap list_fmap].
  change (insert_sorted S (f x) (py_sorted S (f <$> l)) = f <$> insert_sorted R x (py_sorted R l)).
  by rewrite IH, Hi.
Qed.
End sorting_map.

Lemma filter_all {A} (P : A → Prop) `{!∀ x, Decision (P x)} l : Forall P l → filter P l = l.
Proof.
  induction 1 as [|x l Hx _ IH]; [done|]. rewrite filter_cons_True by done. by f_equal.
Qed.

Lemma filter_none {A} (P : A → Prop) `{∀ x, Decision (P x)} l :
  (∀ y, y ∈ l → ¬ P y) → filter P l = [].
Proof.
  induction l as [|y l IH]; intros H'; [done|]. rewrite filter_cons_False by (apply H'; by left).
  apply IH. intros z Hz. apply H'. by right.
Qed.

Lemma StronglySorted_sublist {A} (R : A → A → Prop) l k :
  StronglySorted R k → l `sublist_of` k → StronglySorted R l.
Proof.
  intros Hk. revert l. induction Hk as [|x k _ IH Hx]; intros l Hl.
  - apply sublist_nil_r in Hl as ->. constructor.
  - apply sublist_cons_r in Hl as [Hl|(l' & -> & Hl)]; [by apply IH|].
    constructor; [by apply IH|]. apply Forall_forall. intros y Hy.
    rewrite Forall_forall in Hx. apply Hx. by eapply elem_of_sublist.
Qed.

(** ** Sums over a list of pending actions *)
Section sums.
Context {A : Type}.
Implicit Types (f g : A → nat) (l : list A).

Lemma sum_app f l k : sum_list_with f (l ++ k) = (sum_list_with f l + sum_list_with f k)%nat.
Proof. induction l as [|x l IH]; [done|]. simpl. rewrite IH. lia. Qed.

Lemma sum_delete f l i x : l !! i = Some x →
  sum_list_with f l = (f x + sum_list_with f (delete i l))%nat.
Proof.
  revert i. induction l as [|y l IH]; intros [|i] H; try done; simpl in *.
  - by injection H as ->.
  - rewrite (IH i H). lia.
Qed.

Lemma sum_zero f l : (∀ x, x ∈ l → f x = 0%nat) → sum_list_with f l = 0%nat.
Proof.
  induction l as [|x l IH]; intros H; [done|]. simpl. rewrite (H x), IH by set_solver. done.
Qed.

Lemma sum_pos f l x : x ∈ l → (f x ≤ sum_list_with f l)%nat.
Proof. induction 1 as [|y l ? IH]; simpl; lia. Qed.

Lemma sum_fmap {B} (h : B → A) f (l : list B) :
  sum_list_with f (h <$> l) = sum_list_with (λ x, f (h x)) l.
Proof. induction l as [|x l IH]; [done|]. simpl. by rewrite <-IH. Qed.

Lemma sum_insert f l i x y : l !! i = Some x →
  (sum_list_with f (<[i := y]> l) + f x = sum_list_with f l + f y)%nat.
Proof.
  revert i. induction l as [|z l IH]; intros [|i] H; try done; simpl in *.
  - injection H as ->. lia.
  - specialize (IH i H). lia.
Qed.

Lemma elem_delete l i x : x ∈ delete i l → x ∈ l.
Proof.
  revert i. induction l as [|y l IH]; intros [|i] H; simpl in *; [done|done|by right|].
  apply elem_of_cons in H as [->|H]; [by left|right; by eapply IH].
Qed.
End sums.

(** The indicator of a decidable proposition. *)
Definition one (P : Prop) `{Decision P} : nat := if decide P then 1%nat else 0%nat.

Lemma one_true (P : Prop) `{Decision P} : P → one P = 1%nat.
Proof. intros. unfold one. by rewrite decide_True. Qed.
Lemma one_false (P : Prop) `{Decision P} : ¬ P → one P = 0%nat.
Proof. intros. unfold one. by rewrite decide_False. Qed.
Lemma one_le (P : Prop) `{Decision P} : (one P ≤ 1)%nat.
Proof. unfold one. case_decide; lia. Qed.
Lemma one_iff (P Q : Prop) `{Decision P, Decision Q} : (P ↔ Q) → one P = one Q.
Proof. intros. unfold one. repeat case_decide; tauto. Qed.
