(* ===== verification/PyStr.v ===== *)
(** * Python strings and decimal integers

    The string operations the modelled modules use ([str.lower], [str.strip],
    [str.partition], slices by a character class, [int(text)], [str(int)],
    [repr(str)]), on Rocq's [string], whose characters are read as the ASCII
    code points 0..127.  The regular expressions of [kernel/types.py] and
    [kernel/predicate.py] are written with [sspan]: each of them is a sequence
    of maximal runs of disjoint character classes, for which the greedy match
    of Python's [re] is the only match. *)

From S2P Require Export Prelude.
From Stdlib Require Import Ascii String DecimalString DecimalZ DecimalPos Decimal.
From stdpp Require Import options.

Local Open Scope N_scope.

(** ** Characters *)
Definition is_upper (c : ascii) : bool := (65 <=? N_of_ascii c) && (N_of_ascii c <=? 90).
Definition is_lower (c : ascii) : bool := (97 <=? N_of_ascii c) && (N_of_ascii c <=? 122).
Definition is_digit (c : ascii) : bool := (48 <=? N_of_ascii c) && (N_of_ascii c <=? 57).

(** [str.isspace] / the whitespace [str.strip] removes: 9..13, 28..31, 32. *)
Definition is_space (c : ascii) : bool :=
  let n := N_of_ascii c in
  ((9 <=? n) && (n <=? 13)) || ((28 <=? n) && (n <=? 32)).

Definition to_lower (c : ascii) : ascii :=
  if is_upper c then ascii_of_N (N_of_ascii c + 32) else c.

Definition newline : ascii := ascii_of_N 10.
Definition squote : ascii := ascii_of_N 39.
Definition dquote : ascii := ascii_of_N 34.
Definition backslash : ascii := ascii_of_N 92.

Lemma to_lower_idemp c : to_lower (to_lower c) = to_lower c.
Proof. by destruct c as [[] [] [] [] [] [] [] []]. Qed.

Local Close Scope N_scope.

(** ** Whole-string functions *)
Fixpoint smap (f : ascii → ascii) (s : string) : string :=
  match s with EmptyString => EmptyString | String c s' => String (f c) (smap f s') end.

Definition lower (s : string) : string := smap to_lower s.

Lemma lower_idemp s : lower (lower s) = lower s.
Proof.
  unfold lower. induction s as [|c s IH]; simpl; [done|].
  by rewrite to_lower_idemp, IH.
Qed.

Fixpoint sforall (P : ascii → bool) (s : string) : bool :=
  match s with EmptyString => true | String c s' => P c && sforall P s' end.

Fixpoint sexists (P : ascii → bool) (s : string) : bool :=
  match s with EmptyString => false | String c s' => P c || sexists P s' end.

Definition sempty (s : string) : bool :=
  match s with EmptyString => true | _ => false end.

(** The longest prefix of [s] whose characters satisfy [P], and the rest. *)
Fixpoint sspan (P : ascii → bool) (s : string) : string * string :=
  match s with
  | EmptyString => (EmptyString, EmptyString)
  | String c s' =>
      if P c then let r := sspan P s' in (String c r.1, r.2) else (EmptyString, s)
  end.

Definition lstrip (s : string) : string := (sspan is_space s).2.
Definition rstrip (s : string) : string := String.rev (lstrip (String.rev s)).
Definition strip (s : string) : string := rstrip (lstrip s).

Definition startswith (s p : string) : bool := String.prefix p s.

(** [s.partition(sep)] for a one-character separator: the part before the
    first separator, whether there is one, the part after it. *)
Fixpoint partition (sep : ascii) (s : string) : string * bool * string :=
  match s with
  | EmptyString => (EmptyString, false, EmptyString)
  | String c s' =>
      if Ascii.eqb c sep then (EmptyString, true, s')
      else let '(a, b, r) := partition sep s' in (String c a, b, r)
  end.

(** [sub in s] *)
Fixpoint contains (sub s : string) : bool :=
  String.prefix sub s ||
  match s with EmptyString => false | String _ s' => contains sub s' end.

(** The regular-expression anchor [$]: the end, or just before a final
    newline. *)
Definition at_end (s : string) : bool :=
  match s with
  | EmptyString => true
  | String c EmptyString => Ascii.eqb c newline
  | _ => false
  end.

(** [s[n:]] *)
Fixpoint sdrop (n : nat) (s : string) : string :=
  match n, s with
  | S n', String _ s' => sdrop n' s'
  | _, _ => s
  end.

(** [s[:-1]] and [s[-1]]. *)
Fixpoint butlast (s : string) : string :=
  match s with
  | EmptyString => EmptyString
  | String _ EmptyString => EmptyString
  | String c s' => String c (butlast s')
  end.

Fixpoint slast (s : string) : string :=
  match s with
  | EmptyString => EmptyString
  | String c EmptyString => String c EmptyString
  | String _ s' => slast s'
  end.

Definition join (sep : string) (l : list string) : string := String.concat sep l.

(** ** Integers *)
Definition z_to_string (z : Z) : string := NilZero.string_of_int (Z.to_int z).

(** A nonempty run of digits, no sign. *)
Definition digits_to_Z (s : string) : option Z :=
  Z.of_uint <$> NilZero.uint_of_string s.

(** Remove the underscores [int()] accepts: single, between two digits.
    [prev] says whether the previous character was a digit. *)
Fixpoint drop_underscores (prev : bool) (s : string) : option string :=
  match s with
  | EmptyString => Some EmptyString
  | String c s' =>
      if Ascii.eqb c "_" then
        match s' with
        | String d _ => if prev && is_digit d then drop_underscores false s' else None
        | EmptyString => None
        end
      else String c <$> drop_underscores (is_digit c) s'
  end.

(** [int(text)]: optional surrounding whitespace, an optional sign, digits
    with single underscores between them. *)
Definition py_int_of_string (text : string) : option Z :=
  match strip text with
  | String c s =>
      if Ascii.eqb c "-" then Z.opp <$> (drop_underscores false s ≫= digits_to_Z)
      else if Ascii.eqb c "+" then drop_underscores false s ≫= digits_to_Z
      else drop_underscores false (String c s) ≫= digits_to_Z
  | EmptyString => None
  end.

(** ** [repr] of a string *)
Definition hex_digit (n : N) : ascii :=
  if (n <? 10)%N then ascii_of_N (48 + n) else ascii_of_N (87 + n).

Definition repr_char (q c : ascii) : string :=
  let n := N_of_ascii c in
  if Ascii.eqb c backslash || Ascii.eqb c q then String backslash (String c EmptyString)
  else if (n =? 9)%N then String backslash "t"
  else if (n =? 10)%N then String backslash "n"
  else if (n =? 13)%N then String backslash "r"
  else if (n <? 32)%N || (126 <? n)%N
  then String backslash (String "x" (String (hex_digit (n / 16)%N) (String (hex_digit (n mod 16)%N) EmptyString)))
  else String c EmptyString.

Fixpoint repr_body (q : ascii) (s : string) : string :=
  match s with
  | EmptyString => String q EmptyString
  | String c s' => repr_char q c +:+ repr_body q s'
  end.

Definition repr_str (s : string) : string :=
  let q := if sexists (Ascii.eqb squote) s && negb (sexists (Ascii.eqb dquote) s)
           then dquote else squote in
  String q (repr_body q s).

(** ** Lemmas *)
Lemma sspan_app P s t c r :
  sforall P s = true → t = String c r → P c = false →
  sspan P (s +:+ t) = (s, t).
Proof.
  intros Hs -> Hc. induction s as [|d s IH]; simpl in *; [by rewrite Hc|].
  apply andb_prop in Hs as [-> Hs]. by rewrite (IH Hs).
Qed.

Lemma sspan_all P s : sforall P s = true → sspan P s = (s, EmptyString).
Proof.
  induction s as [|d s IH]; simpl; [done|].
  intros [-> Hs]%andb_prop. by rewrite (IH Hs).
Qed.

Lemma sapp_nil (s : string) : s +:+ "" = s.
Proof. induction s as [|c s IH]; [done|]. change (String c (s +:+ "") = String c s). by rewrite IH. Qed.

Lemma sapp_assoc (s t u : string) : (s +:+ t) +:+ u = s +:+ (t +:+ u).
Proof.
  induction s as [|c s IH]; [done|].
  change (String c ((s +:+ t) +:+ u) = String c (s +:+ (t +:+ u))). by rewrite IH.
Qed.

Lemma sforall_app P (s t : string) : sforall P (s +:+ t) = sforall P s && sforall P t.
Proof.
  induction s as [|c s IH]; [done|].
  change (P c && sforall P (s +:+ t) = P c && sforall P s && sforall P t).
  by rewrite IH, andb_assoc.
Qed.

Lemma sforall_impl (P Q : ascii → bool) s :
  (∀ c, P c = true → Q c = true) → sforall P s = true → sforall Q s = true.
Proof.
  intros HPQ. induction s as [|c s IH]; simpl; [done|].
  intros [Hc Hs]%andb_prop. by rewrite (HPQ _ Hc), (IH Hs).
Qed.

(** Decimal digits of an unsigned number. *)
Lemma string_of_uint_digits d : sforall is_digit (NilEmpty.string_of_uint d) = true.
Proof. induction d; simpl; done. Qed.

Lemma digits_to_Z_uint (d : Decimal.uint) :
  d ≠ Decimal.Nil → digits_to_Z (NilEmpty.string_of_uint d) = Some (Z.of_uint d).
Proof.
  intros Hd. unfold digits_to_Z. destruct d; try done;
    unfold NilZero.uint_of_string; by rewrite DecimalString.NilEmpty.usu.
Qed.

(** Stripping text without whitespace does nothing. *)
Lemma rev_app_spec s t : String.rev_app s t = String.rev s +:+ t.
Proof.
  unfold String.rev. revert t. induction s as [|c s IH]; intros t; simpl; [done|].
  rewrite IH, (IH (String c "")), sapp_assoc. done.
Qed.

Lemma rev_app_distr s t : String.rev (s +:+ t) = String.rev t +:+ String.rev s.
Proof.
  induction s as [|c s IH]; [by rewrite sapp_nil|].
  change (String.rev_app (s +:+ t) (String c "") = String.rev t +:+ String.rev_app s (String c "")).
  rewrite !rev_app_spec, IH, sapp_assoc. done.
Qed.

Lemma rev_involutive s : String.rev (String.rev s) = s.
Proof.
  induction s as [|c s IH]; [done|].
  change (String.rev (String.rev_app s (String c "")) = String c s).
  rewrite rev_app_spec, rev_app_distr, IH. done.
Qed.

Lemma sforall_rev P s : sforall P (String.rev s) = sforall P s.
Proof.
  induction s as [|c s IH]; [done|].
  change (sforall P (String.rev_app s (String c "")) = P c && sforall P s).
  rewrite rev_app_spec, sforall_app, IH. simpl. by rewrite andb_true_r, andb_comm.
Qed.

Definition nonspace (c : ascii) : bool := negb (is_space c).

Lemma lstrip_nonspace s : sforall nonspace s = true → lstrip s = s.
Proof.
  unfold lstrip. destruct s as [|c s]; [done|]; simpl.
  intros [Hc _]%andb_prop. unfold nonspace in Hc. by destruct (is_space c).
Qed.

Lemma strip_nonspace s : sforall nonspace s = true → strip s = s.
Proof.
  intros Hs. unfold strip, rstrip. rewrite (lstrip_nonspace _ Hs).
  rewrite lstrip_nonspace by by rewrite sforall_rev. apply rev_involutive.
Qed.

Lemma digit_nonspace c : is_digit c = true → nonspace c = true.
Proof. by destruct c as [[] [] [] [] [] [] [] []]. Qed.

Lemma drop_underscores_digits b s :
  sforall is_digit s = true → drop_underscores b s = Some s.
Proof.
  revert b. induction s as [|c s IH]; intros b; simpl; [done|].
  intros [Hc Hs]%andb_prop. destruct (Ascii.eqb_spec c "_") as [->|_]; [done|].
  by rewrite (IH _ Hs).
Qed.

(** The magnitude part of a printed integer. *)
Definition uint_text (d : Decimal.uint) : string := NilZero.string_of_uint d.

Lemma uint_text_digits d : sforall is_digit (uint_text d) = true.
Proof. destruct d; try done; apply string_of_uint_digits. Qed.

Lemma uint_text_to_Z d : digits_to_Z (uint_text d) = Some (Z.of_uint d).
Proof. destruct d; [done|apply digits_to_Z_uint; done..]. Qed.

Lemma digits_head s c : sforall is_digit (String c s) = true →
  Ascii.eqb c "-" = false ∧ Ascii.eqb c "+" = false.
Proof.
  simpl. intros [Hc _]%andb_prop.
  split; [by destruct (Ascii.eqb_spec c "-") as [->|_] | by destruct (Ascii.eqb_spec c "+") as [->|_]].
Qed.

(** [int(str(z)) == z]. *)
Lemma py_int_z_to_string z : py_int_of_string (z_to_string z) = Some z.
Proof.
  unfold z_to_string, py_int_of_string.
  assert (∀ d, ∃ c s, uint_text d = String c s) as Hne.
  { intros d. destruct d; simpl; eauto. }
  pose proof (DecimalZ.of_to z) as Hz. destruct (Z.to_int z) as [d|d].
  - change (NilZero.string_of_int (Decimal.Pos d)) with (uint_text d).
    pose proof (uint_text_digits d) as Hd.
    rewrite strip_nonspace by by eapply sforall_impl; [apply digit_nonspace|].
    pose proof (uint_text_to_Z d) as Hv.
    destruct (Hne d) as (c & s & Hcs). rewrite Hcs in *.
    destruct (digits_head _ _ Hd) as [-> ->].
    rewrite (drop_underscores_digits _ _ Hd); simpl. rewrite Hv. by f_equal.
  - change (NilZero.string_of_int (Decimal.Neg d)) with (String "-" (uint_text d)).
    pose proof (uint_text_digits d) as Hd.
    rewrite strip_nonspace.
    2:{ simpl. eapply sforall_impl; [apply digit_nonspace|done]. }
    simpl. rewrite (drop_underscores_digits _ _ Hd); simpl.
    rewrite uint_text_to_Z; simpl. f_equal. by rewrite <-Hz.
Qed.

Lemma z_to_string_inj z1 z2 : z_to_string z1 = z_to_string z2 → z1 = z2.
Proof.
  intros H. pose proof (py_int_z_to_string z1) as H1. rewrite H in H1.
  rewrite py_int_z_to_string in H1. by injection H1.
Qed.

(** A nonnegative integer prints as digits only. *)
Lemma z_to_string_nonneg z : (0 ≤ z)%Z →
  ∃ d, z_to_string z = uint_text d ∧ Z.of_uint d = z.
Proof.
  intros Hz. unfold z_to_string. pose proof (DecimalZ.of_to z) as H.
  destruct z as [|p|p]; simpl in *; [by exists (Decimal.D0 Decimal.Nil)| |lia].
  exists (Pos.to_uint p). split; [done|exact H].
Qed.

Create HintDb pystr.
Create Rewrite HintDb pystr.
#[export] Hint Rewrite lower_idemp sapp_nil py_int_z_to_string : pystr.
#[export] Hint Resolve uint_text_digits digit_nonspace : pystr.

(** ** Further string functions *)

(** [s.replace(pat, "")]: delete the non-overlapping occurrences of a nonempty
    [pat], left to right.  [skip] counts the characters of the current
    occurrence still to be dropped. *)
Fixpoint delete_all (pat : string) (skip : nat) (s : string) : string :=
  match s with
  | EmptyString => EmptyString
  | String c s' =>
      match skip with
      | S n => delete_all pat n s'
      | O => if String.prefix pat s then delete_all pat (String.length pat - 1) s'
             else String c (delete_all pat O s')
      end
  end.

(** [s.replace(a, b)] for single characters. *)
Definition replace_char (a b : ascii) (s : string) : string :=
  smap (λ c, if Ascii.eqb c a then b else c) s.

(** [s.isdigit()] *)
Definition isdigit (s : string) : bool := negb (sempty s) && sforall is_digit s.

Definition lstrip_char (a : ascii) (s : string) : string := (sspan (Ascii.eqb a) s).2.

Lemma delete_all_absent pat s :
  pat ≠ "" → contains pat s = false → delete_all pat 0 s = s.
Proof.
  intros Hp. induction s as [|c s IH]; [done|].
  cbn [delete_all contains]. intros [-> Hs]%orb_false_elim. by rewrite (IH Hs).
Qed.

(** Letters, digits and lower-case text. *)
Definition is_arch_char (c : ascii) : bool := is_lower c || is_digit c.

Lemma lower_id s : sforall (λ c, negb (is_upper c)) s = true → lower s = s.
Proof.
  unfold lower. induction s as [|c s IH]; simpl; [done|].
  intros [Hc Hs]%andb_prop. rewrite (IH Hs). unfold to_lower.
  by destruct (is_upper c).
Qed.

Lemma digit_not_upper c : is_digit c = true → negb (is_upper c) = true.
Proof. by destruct c as [[] [] [] [] [] [] [] []]. Qed.

Lemma digit_not_lower c : is_digit c = true → is_lower c = false.
Proof. by destruct c as [[] [] [] [] [] [] [] []]. Qed.

Lemma lower_app s t : lower (s +:+ t) = lower s +:+ lower t.
Proof.
  induction s as [|c s IH]; [done|].
  change (String (to_lower c) (lower (s +:+ t)) = String (to_lower c) (lower s +:+ lower t)).
  by rewrite IH.
Qed.

(** Stripping text that starts and ends outside whitespace. *)
Lemma lstrip_head c s : nonspace c = true → lstrip (String c s) = String c s.
Proof. unfold lstrip, nonspace. simpl. by destruct (is_space c). Qed.

Lemma rstrip_app s t : sforall nonspace t = true → sempty t = false → rstrip (s +:+ t) = s +:+ t.
Proof.
  intros Ht Hne. unfold rstrip. rewrite rev_app_distr.
  assert (sforall nonspace (String.rev t) = true) as Hr by by rewrite sforall_rev.
  assert (sempty (String.rev t) = false) as He.
  { destruct (String.rev t) eqn:E; [|done]. exfalso.
    pose proof (rev_involutive t) as Hi. rewrite E in Hi. by subst t. }
  destruct (String.rev t) as [|c u] eqn:E; [done|]. simpl in Hr.
  apply andb_prop in Hr as [Hc _].
  change (String c u +:+ String.rev s) with (String c (u +:+ String.rev s)).
  rewrite lstrip_head by done.
  change (String c (u +:+ String.rev s)) with (String c u +:+ String.rev s).
  by rewrite <-E, rev_app_distr, !rev_involutive.
Qed.

Lemma strip_app c s t : nonspace c = true → sforall nonspace t = true → sempty t = false →
  strip (String c s +:+ t) = String c s +:+ t.
Proof.
  intros Hc Ht Hne. unfold strip.
  change (String c s +:+ t) with (String c (s +:+ t)). rewrite lstrip_head by done.
  change (String c (s +:+ t)) with (String c s +:+ t). by apply rstrip_app.
Qed.

(** A printed integer is a sign and digits. *)
Definition sign_text (neg : bool) : string := if neg then "-" else "".

Lemma z_to_string_parts z : ∃ neg d,
  z_to_string z = sign_text neg +:+ uint_text d
  ∧ z = (if neg then - Z.of_uint d else Z.of_uint d)%Z.
Proof.
  unfold z_to_string. pose proof (DecimalZ.of_to z) as Hz. destruct (Z.to_int z) as [d|d].
  - by exists false, d.
  - exists true, d. by rewrite <-Hz.
Qed.

Lemma uint_text_cons d : ∃ c s, uint_text d = String c s ∧ is_digit c = true.
Proof.
  pose proof (uint_text_digits d) as H.
  destruct (uint_text d) as [|c s] eqn:E; [by destruct d|].
  simpl in H. apply andb_prop in H as [Hc _]. eauto.
Qed.

Lemma uint_text_nonspace d : sforall nonspace (uint_text d) = true.
Proof. eapply sforall_impl; [apply digit_nonspace|apply uint_text_digits]. Qed.

Lemma z_to_string_nonspace z :
  sforall nonspace (z_to_string z) = true ∧ sempty (z_to_string z) = false.
Proof.
  destruct (z_to_string_parts z) as (neg & d & -> & _).
  destruct (uint_text_cons d) as (c & s & Hc & _). rewrite sforall_app, uint_text_nonspace, Hc.
  by destruct neg.
Qed.
