(* ===== verification/PyVal.v ===== *)
(** * Python values

    The values that flow through kernel facts: [None], booleans, integers,
    strings, tuples and frozensets of strings.  Floats and other objects do
    not occur as fact values in the modelled configurations and have no
    constructor.  A frozenset prints its members in the canonical order of
    [gset]; Python's order is unspecified. *)

From S2P Require Export PyStr.
From Stdlib Require Import Ascii String.
From stdpp Require Import options.

Inductive value : Type :=
  | VNone
  | VBool (b : bool)
  | VInt (z : Z)
  | VStr (s : string)
  | VTup (l : list value)
  | VSet (s : gset string).

#[export] Instance value_eq_dec : EqDecision value.
Proof.
  refine (fix go (v w : value) {struct v} : Decision (v = w) :=
    match v, w with
    | VNone, VNone => left eq_refl
    | VBool a, VBool b => cast_if (decide (a = b))
    | VInt a, VInt b => cast_if (decide (a = b))
    | VStr a, VStr b => cast_if (decide (a = b))
    | VTup l, VTup k => cast_if (@list_eq_dec _ go l k)
    | VSet a, VSet b => cast_if (decide (a = b))
    | _, _ => right _
    end); clear go; try discriminate; congruence.
Defined.

(** ** Equality, truth, conversion *)

(** [a == b]: booleans are integers. *)
Fixpoint py_eq (a b : value) {struct a} : bool :=
  match a, b with
  | VNone, VNone => true
  | VBool x, VBool y => Bool.eqb x y
  | VBool x, VInt y => Z.eqb (Z.b2z x) y
  | VInt x, VBool y => Z.eqb x (Z.b2z y)
  | VInt x, VInt y => Z.eqb x y
  | VStr x, VStr y => String.eqb x y
  | VTup l, VTup k =>
      (fix go (l k : list value) : bool :=
         match l, k with
         | [], [] => true
         | x :: l', y :: k' => py_eq x y && go l' k'
         | _, _ => false
         end) l k
  | VSet x, VSet y => bool_decide (x = y)
  | _, _ => false
  end.

(** [v in values] for a frozenset of hashable values. *)
Definition py_in (v : value) (vs : list value) : bool := existsb (py_eq v) vs.

(** [frozenset(vs)]: the first of several equal members is kept. *)
Fixpoint py_frozenset (vs : list value) : list value :=
  match vs with
  | [] => []
  | v :: vs' => v :: filter (λ w, py_eq v w = false) (py_frozenset vs')
  end.

(** [bool(v)] *)
Definition py_bool (v : value) : bool :=
  match v with
  | VNone => false
  | VBool b => b
  | VInt z => negb (Z.eqb z 0)
  | VStr s => negb (sempty s)
  | VTup l => match l with [] => false | _ => true end
  | VSet s => negb (bool_decide (s = ∅))
  end.

(** [int(v)] *)
Definition py_int (v : value) : res Z :=
  match v with
  | VBool b => Ok (Z.b2z b)
  | VInt z => Ok z
  | VStr s => of_option ValueError (py_int_of_string s)
  | VNone | VTup _ | VSet _ => Err TypeError
  end.

(** [repr(v)] and [str(v)] *)
Fixpoint repr (v : value) : string :=
  match v with
  | VNone => "None"
  | VBool b => if b then "True" else "False"
  | VInt z => z_to_string z
  | VStr s => repr_str s
  | VTup l =>
      match l with
      | [x] => "(" +:+ repr x +:+ ",)"
      | _ => "(" +:+ join ", " (map repr l) +:+ ")"
      end
  | VSet s =>
      if bool_decide (s = ∅) then "frozenset()"
      else "frozenset({" +:+ join ", " (map repr_str (elements s)) +:+ "})"
  end.

Definition py_str (v : value) : string :=
  match v with VStr s => s | _ => repr v end.

(** [a < b]; [None] when Python raises [TypeError].  Ordered comparisons only
    reach it with an integer or [None] on the left (see
    [Predicate.mk_cmp]); containers have no case. *)
Definition py_lt (a b : value) : option bool :=
  match a, b with
  | VBool x, VBool y => Some (Z.ltb (Z.b2z x) (Z.b2z y))
  | VBool x, VInt y => Some (Z.ltb (Z.b2z x) y)
  | VInt x, VBool y => Some (Z.ltb x (Z.b2z y))
  | VInt x, VInt y => Some (Z.ltb x y)
  | VStr x, VStr y => Some (String.ltb x y)
  | _, _ => None
  end.

(** ** Sorting of strings: [sorted(...)] on a set or list of [str]. *)
Definition sort_str (l : list string) : list string := py_sorted String.le l.

Lemma sort_str_perm l : sort_str l ≡ₚ l.
Proof. apply py_sorted_perm. Qed.

Lemma sort_str_elem l x : x ∈ sort_str l ↔ x ∈ l.
Proof. by rewrite sort_str_perm. Qed.

(** Sorting erases the order in which the members were given. *)
Lemma sort_str_proper l k : l ≡ₚ k → sort_str l = sort_str k.
Proof. apply py_sorted_unique; apply _. Qed.

#[export] Instance sort_str_permutation_proper : Proper ((≡ₚ) ==> (=)) sort_str.
Proof. intros l k. apply sort_str_proper. Qed.

(** ** Lemmas on equality *)
Lemma value_ind' (P : value → Prop) :
  P VNone → (∀ b, P (VBool b)) → (∀ z, P (VInt z)) → (∀ s, P (VStr s)) →
  (∀ l, Forall P l → P (VTup l)) → (∀ s, P (VSet s)) → ∀ v, P v.
Proof.
  intros HN HB HI HS HT HF. fix IH 1.
  intros [|b|z|s|l|s]; [exact HN|apply HB|apply HI|apply HS| |apply HF].
  apply HT. induction l as [|x l IHl]; constructor; [apply IH|exact IHl].
Qed.

Lemma py_eq_refl v : py_eq v v = true.
Proof.
  induction v as [|b|z|s|l IH|s] using value_ind'; simpl; try done.
  - by destruct b.
  - apply Z.eqb_refl.
  - apply String.eqb_refl.
  - induction IH as [|x l Hx _ IH]; [done|]. by rewrite Hx, IH.
  - by apply bool_decide_eq_true.
Qed.

Lemma py_eq_sym v w : py_eq v w = py_eq w v.
Proof.
  revert w. induction v as [|b|z|s|l IH|s] using value_ind'; intros w;
    destruct w as [|b'|z'|s'|l'|s']; simpl; try done.
  - by destruct b, b'.
  - apply Z.eqb_sym.
  - apply Z.eqb_sym.
  - apply Z.eqb_sym.
  - apply String.eqb_sym.
  - revert l'. induction IH as [|x l Hx _ IH]; intros [|y l']; try done.
    by rewrite Hx, IH.
  - by apply bool_decide_ext; split.
Qed.

Lemma py_in_elem v vs : v ∈ vs → py_in v vs = true.
Proof.
  intros H. unfold py_in. apply existsb_exists. exists v.
  split; [by apply list_elem_of_In|apply py_eq_refl].
Qed.

#[export] Hint Resolve py_eq_refl : pystr.

(** ** Canonical representatives of [==]

    Python's [==] identifies [True] with [1] and [False] with [0], so a
    dictionary keyed by values does too.  [canon] picks the integer, and two
    values are [==] exactly when their representatives coincide. *)
Fixpoint canon (v : value) : value :=
  match v with
  | VBool b => VInt (Z.b2z b)
  | VTup l => VTup (map canon l)
  | _ => v
  end.

Lemma py_eq_canon v w : py_eq v w = true ↔ canon v = canon w.
Proof.
  revert w. induction v as [|b|z|s|l IH|s] using value_ind'; intros w;
    destruct w as [|b'|z'|s'|l'|s']; simpl; try done.
  - destruct b, b'; simpl; split; congruence.
  - rewrite Z.eqb_eq. split; congruence.
  - rewrite Z.eqb_eq. split; congruence.
  - rewrite Z.eqb_eq. split; congruence.
  - rewrite String.eqb_eq. split; congruence.
  - revert l'. induction IH as [|x l Hx _ IH]; intros [|y l']; simpl; try done.
    rewrite andb_true_iff, Hx. split.
    + intros [Hxy H]. apply IH in H. congruence.
    + intros [= Hxy H]. split; [done|]. apply IH. congruence.
  - rewrite bool_decide_eq_true. split; congruence.
Qed.

Lemma canon_idemp v : canon (canon v) = canon v.
Proof.
  induction v as [|b|z|s|l IH|s] using value_ind'; simpl; try done.
  f_equal. rewrite map_map. by apply Forall_fmap_ext_1.
Qed.

Lemma py_eq_canon_l v w : py_eq (canon v) w = py_eq v w.
Proof. apply eq_true_iff_eq. by rewrite !py_eq_canon, canon_idemp. Qed.

Lemma py_eq_congr v v' w : canon v = canon v' → py_eq v w = py_eq v' w.
Proof. intros H. by rewrite <-(py_eq_canon_l v), H, py_eq_canon_l. Qed.

Lemma py_in_congr v v' ws : canon v = canon v' → py_in v ws = py_in v' ws.
Proof.
  intros H. unfold py_in. induction ws as [|w ws IH]; simpl; [done|].
  by rewrite (py_eq_congr v v') by done; rewrite IH.
Qed.

Lemma py_bool_congr v w : canon v = canon w → py_bool v = py_bool w.
Proof.
  destruct v as [|[]|z|s|[]|s], w as [|[]|z'|s'|[]|s']; simpl;
    solve [congruence | intros [= ->]; done | intros [= <-]; done].
Qed.

Lemma py_int_congr v w : canon v = canon w → py_int v = py_int w.
Proof.
  destruct v as [|[]|z|s|l|s], w as [|[]|z'|s'|l'|s']; simpl; congruence.
Qed.
