(* ===== verification/Types.v ===== *)
(** * Kernel value types

    Models [utils/vendors.py] (the vendor records and their version
    splitters) and [kernel/types.py] (architecture names, device profiles,
    model contexts, physical signatures, shape facts and kernel queries). *)

From S2P Require Export PyVal.
From Stdlib Require Import Ascii String.
From stdpp Require Import options.

Local Open Scope Z_scope.

(** ** Vendors *)

(** A version splitter returns [None] when the digits name a generation, and
    raises where Python's [int] does. *)
Definition splitter : Type := string → string → res (option (Z * Z)).

Definition int_of_digits (s : string) : res Z := of_option ValueError (py_int_of_string s).

Definition split_sm_version : splitter := λ digits _,
  if (String.length digits <? 2)%nat then Ok None
  else major ← int_of_digits (butlast digits);
       minor ← int_of_digits (slast digits);
       Ok (Some (major, minor)).

Definition split_gfx_version : splitter := λ digits suffix,
  let combined := digits +:+ suffix in
  if (String.length combined <? 3)%nat then Ok None
  else major ← int_of_digits (butlast (butlast combined));
       minor ← int_of_digits (slast (butlast combined));
       Ok (Some (major, minor)).

Record vendor : Type := Vendor {
  v_name : string;
  v_series : string;
  v_example_arch : string;
  v_ordered : bool;
  v_split_version : option splitter;
  v_plausible_majors : option (Z * Z);   (* range(lo, hi) *)
  v_products : dict string string;
}.

Definition NVIDIA : vendor := {|
  v_name := "nvidia"; v_series := "sm"; v_example_arch := "sm90";
  v_ordered := true; v_split_version := Some split_sm_version;
  v_plausible_majors := Some (5, 20);
  v_products := [("a100", "sm80"); ("a800", "sm80"); ("l40", "sm89");
    ("l40s", "sm89"); ("h100", "sm90"); ("h200", "sm90"); ("h800", "sm90");
    ("h20", "sm90"); ("gh200", "sm90"); ("b100", "sm100"); ("b200", "sm100");
    ("gb200", "sm100"); ("b300", "sm103"); ("gb300", "sm103");
    ("orin", "sm87"); ("orin-nx", "sm87"); ("orin-nano", "sm87");
    ("agx-orin", "sm87"); ("thor", "sm110"); ("agx-thor", "sm110");
    ("rtx4090", "sm89"); ("rtx5090", "sm120"); ("rtxpro6000", "sm120");
    ("gb10", "sm121"); ("dgx-spark", "sm121")]
|}.

Definition AMD : vendor := {|
  v_name := "amd"; v_series := "gfx"; v_example_arch := "gfx942";
  v_ordered := false; v_split_version := Some split_gfx_version;
  v_plausible_majors := None;
  v_products := [("mi250", "gfx90a"); ("mi300", "gfx942"); ("mi300x", "gfx942");
    ("mi325x", "gfx942"); ("mi355x", "gfx950")]
|}.

Definition ASCEND : vendor := {|
  v_name := "ascend"; v_series := "ascend"; v_example_arch := "ascend910b";
  v_ordered := false; v_split_version := None; v_plausible_majors := None;
  v_products := []
|}.

Definition VENDORS : dict string vendor :=
  (λ v, (v_name v, v)) <$> [NVIDIA; AMD; ASCEND].

(** ** Architectures *)
Definition ARCH_SERIES_GRAMMAR : dict string splitter :=
  omap (λ v, pair (v_series v) <$> v_split_version v) (dvals VENDORS).

Definition ORDERED_ARCH_SERIES : list string :=
  v_series <$> filter (λ v, v_ordered v = true) (dvals VENDORS).

Definition SERIES_MAJOR_RANGES : dict string (Z * Z) :=
  omap (λ v, pair (v_series v) <$> v_plausible_majors v) (dvals VENDORS).

Definition in_range (z : Z) (r : Z * Z) : bool := (r.1 <=? z) && (z <? r.2).

(** [_ARCH_RE]: a nonempty run of lower-case letters, a nonempty run of digits,
    a run of lower-case letters and digits, then [$]. *)
Definition arch_re_match (s : string) : option (string * string * string) :=
  let '(series, r1) := sspan is_lower s in
  let '(digits, r2) := sspan is_digit r1 in
  let '(suffix, r3) := sspan is_arch_char r2 in
  if negb (sempty series) && negb (sempty digits) && at_end r3
  then Some (series, digits, suffix) else None.

Module Arch.
Record t : Type := Mk {
  name : string;
  series : string;
  major : option Z;
  minor : option Z;
}.

#[export] Instance eq_dec : EqDecision t.
Proof. solve_decision. Defined.

Definition family (a : t) : option string :=
  (λ m, series a +:+ z_to_string m) <$> major a.

Definition ordered (a : t) : bool :=
  bool_decide (series a ∈ ORDERED_ARCH_SERIES) && bool_decide (is_Some (major a)).

(** Lexicographic [>=] on [(major, minor or 0)]; [None] where comparing
    [None] with an integer raises. *)
Definition version_ge (a b : t) : option bool :=
  let mina := default 0 (minor a) in
  let minb := default 0 (minor b) in
  match major a, major b with
  | Some x, Some y => Some ((y <? x) || ((x =? y) && (minb <=? mina)))
  | None, None => Some (minb <=? mina)
  | _, _ => None
  end.

Definition at_least (a other : t) : res bool :=
  if negb (ordered a) || negb (String.eqb (series a) (series other)) then Ok false
  else of_option TypeError (version_ge a other).

Definition parse (v : value) : res t :=
  let name := lower (py_str v) in
  match arch_re_match name with
  | None => Ok (Mk name "" None None)
  | Some (series, digits, suffix) =>
      match dget ARCH_SERIES_GRAMMAR series with
      | None => Ok (Mk name series None None)
      | Some split =>
          parts ← split digits suffix;
          match parts with
          | None => Ok (Mk name series None None)
          | Some (major, minor) => Ok (Mk name series (Some major) (Some minor))
          end
      end
  end.

Definition parse_bound (v : value) : res t :=
  let text := strip (lower (py_str v)) in
  if sempty text then Err ValueError
  else if isdigit text || isdigit (lstrip_char "-" text) then Err ValueError
  else
    arch ← parse (VStr text);
    if negb (bool_decide (series arch ∈ ORDERED_ARCH_SERIES)) then Err ValueError
    else match major arch with
         | None => Err ValueError
         | Some m =>
             match dget SERIES_MAJOR_RANGES (series arch) with
             | Some r => if in_range m r then Ok arch else Err ValueError
             | None => Ok arch
             end
         end.

Definition parse_family (v : value) : res string :=
  let text := strip (lower (py_str v)) in
  match arch_re_match text with
  | None => Err ValueError
  | Some (series, digits, suffix) =>
      if negb (sempty suffix) then Err ValueError
      else match dget ARCH_SERIES_GRAMMAR series with
           | None => Err ValueError
           | Some _ =>
               major ← int_of_digits digits;
               match dget SERIES_MAJOR_RANGES series with
               | Some r =>
                   if in_range major r then Ok (series +:+ z_to_string major)
                   else Err ValueError
               | None => Ok (series +:+ z_to_string major)
               end
           end
  end.
End Arch.
Export (hints) Arch.

Example parse_h100 : Arch.parse (VStr "SM90a") = Ok (Arch.Mk "sm90a" "sm" (Some 9) (Some 0)).
Proof. vm_compute. reflexivity. Qed.
Example parse_gfx : Arch.parse (VStr "gfx90a") = Ok (Arch.Mk "gfx90a" "gfx" (Some 9) (Some 0)).
Proof. vm_compute. reflexivity. Qed.

(** [arch_at_least(profile, bound)] is below, after [DeviceProfile]. *)

(** ** Execution modes *)
Inductive kernel_mode : Type := EAGER | CAPTURE | REPLAY.

#[export] Instance kernel_mode_eq_dec : EqDecision kernel_mode.
Proof. solve_decision. Defined.

Definition mode_value (m : kernel_mode) : string :=
  match m with EAGER => "eager" | CAPTURE => "capture" | REPLAY => "replay" end.

(** [KernelMode.normalize] on a string spelling (an enum member is passed by
    its [value]). *)
Definition normalize_mode (value : string) : kernel_mode :=
  let text := replace_char "_" "-" (lower value) in
  if bool_decide (text ∈ ["graph-capturing"; "capture"]) then CAPTURE
  else if String.eqb text "replay" then REPLAY
  else EAGER.

(** ** Dtype names *)
Definition DTYPE_ALIASES : dict string string := [
  ("bfloat16", "bf16"); ("float16", "fp16"); ("half", "fp16");
  ("float32", "fp32"); ("float", "fp32"); ("float64", "fp64");
  ("float8_e4m3", "fp8_e4m3"); ("float8_e4m3fn", "fp8_e4m3");
  ("float8_e4m3fnuz", "fp8_e4m3fnuz"); ("float8_e5m2", "fp8_e5m2");
  ("float8_e5m2fnuz", "fp8_e5m2fnuz"); ("fp8", "fp8_e4m3");
  ("float8", "fp8_e4m3")].

(** [dtype_name] on a string; a [torch.dtype] prints as ["torch.<name>"]. *)
Definition dtype_name (text : string) : string :=
  let text := delete_all "torch." 0 (lower text) in
  default text (dget DTYPE_ALIASES text).

(** ** Configuration objects and [_freeze] *)

(** What callers and YAML documents supply: plain values, lists and mappings
    (with the keys already passed through [str]). *)
Inductive obj : Type :=
  | OVal (v : value)
  | OList (l : list obj)
  | OMap (d : list (string * obj)).

Definition key_le {A} (p q : string * A) : Prop := String.le p.1 q.1.
#[export] Instance key_le_dec {A} : RelDecision (@key_le A).
Proof. intros p q. unfold key_le. apply _. Defined.
#[export] Instance key_le_trans {A} : Transitive (@key_le A).
Proof. intros p q r. unfold key_le. apply transitivity. Qed.
#[export] Instance key_le_total {A} : Total (@key_le A).
Proof. intros p q. apply (total String.le). Qed.

(** [sorted(items)] for pairs with distinct string keys. *)
Definition sort_pairs {A} (l : list (string * A)) : list (string * A) :=
  py_sorted key_le l.

Definition str_pair_le (p q : string * string) : Prop :=
  String.le p.1 q.1 ∧ (p.1 = q.1 → String.le p.2 q.2).
#[export] Instance str_pair_le_dec : RelDecision str_pair_le.
Proof. intros p q. unfold str_pair_le. apply _. Defined.
#[export] Instance str_pair_le_total : Total str_pair_le.
Proof.
  intros [a b] [c d]. unfold str_pair_le; simpl.
  destruct (decide (a = c)) as [->|Hne].
  - destruct (total String.le b d); [left|right]; (split; [reflexivity|done]).
  - destruct (total String.le a c); [left|right]; (split; [done|congruence]).
Qed.
#[export] Instance str_pair_le_trans : Transitive str_pair_le.
Proof.
  intros [a b] [c d] [e f] [H1 H2] [H3 H4]; unfold str_pair_le in *; simpl in *.
  split; [by etrans|]. intros <-. assert (a = c) as <- by by apply (anti_symm String.le).
  etrans; [by apply H2|by apply H4].
Qed.
#[export] Instance str_pair_le_antisymm : AntiSymm (=) str_pair_le.
Proof.
  intros [a b] [c d] [H1 H2] [H3 H4]; simpl in *.
  assert (a = c) as <- by by apply (anti_symm String.le).
  f_equal. apply (anti_symm String.le); auto.
Qed.

(** [sorted(pairs)] for pairs of strings. *)
Definition sort_str_pairs (l : list (string * string)) : list (string * string) :=
  py_sorted str_pair_le l.

Definition repr_le (a b : string) : Prop := String.le (repr_str a) (repr_str b).
#[export] Instance repr_le_dec : RelDecision repr_le.
Proof. intros a b. unfold repr_le. apply _. Defined.

Fixpoint freeze_value (v : value) : value :=
  match v with
  | VTup l => VTup (map freeze_value l)
  | VSet s => VTup (VStr <$> py_sorted repr_le (elements s))
  | _ => v
  end.

Fixpoint freeze (o : obj) : value :=
  match o with
  | OVal v => freeze_value v
  | OList l => VTup (map freeze l)
  | OMap d =>
      VTup ((λ p, VTup [VStr p.1; p.2])
            <$> sort_pairs (map (λ p, (p.1, freeze p.2)) d))
  end.

(** [int(o)] and [isinstance(o, bool)] on a configuration object. *)
Definition obj_int (o : obj) : res Z :=
  match o with OVal v => py_int v | _ => Err TypeError end.

Definition obj_is_bool (o : obj) : bool :=
  match o with OVal (VBool _) => true | _ => false end.

Definition freeze_pairs (l : list (string * obj)) : list (string * value) :=
  sort_pairs (map (λ p, (p.1, freeze p.2)) l).

(** ** Device profiles *)
Record device_profile : Type := DeviceProfile {
  d_vendor : string;
  d_arch : option string;
  d_index : option Z;
}.
#[export] Instance device_profile_eq_dec : EqDecision device_profile.
Proof. solve_decision. Defined.

Definition mk_device (vendor : option string) (arch : option string) (index : option Z)
    : res device_profile :=
  let vendor := default "cpu" (lower <$> vendor) in
  match arch with
  | None => Ok (DeviceProfile vendor None index)
  | Some arch =>
      let arch := lower arch in
      if isdigit arch then Err ValueError
      else Ok (DeviceProfile vendor (Some arch) index)
  end.

Definition default_device : device_profile := DeviceProfile "cpu" None None.

Definition device_fingerprint (d : device_profile) : string * option string * option Z :=
  (d_vendor d, d_arch d, d_index d).

Definition arch_parts (d : device_profile) : res (option Arch.t) :=
  match d_arch d with
  | None => Ok None
  | Some a => a ← Arch.parse (VStr a); Ok (Some a)
  end.

(** [arch_at_least(profile, bound)] *)
Definition arch_at_least (profile : device_profile) (bound : string) : res bool :=
  parts ← arch_parts profile;
  match parts with
  | None => Ok false
  | Some a => b ← Arch.parse_bound (VStr bound); Arch.at_least a b
  end.

(** [_synthetic_profile] of [kernel/device.py]: a ["vendor:arch"] string. *)
Definition synthetic_profile (value : string) : res device_profile :=
  let text := lower (strip value) in
  let '(vendor_name, colon, arch) := partition ":" text in
  if negb colon then Err ValueError
  else match dget VENDORS vendor_name with
       | None => Err ValueError
       | Some v =>
           match dget (v_products v) arch with
           | Some _ => Err ValueError
           | None =>
               if startswith arch (v_series v)
               then mk_device (Some (v_name v)) (Some arch) None
               else Err ValueError
           end
       end.

(** ** Model contexts *)
Record model_context : Type := ModelContext {
  m_family : string;
  m_tags : gset string;
}.
#[export] Instance model_context_eq_dec : EqDecision model_context.
Proof. solve_decision. Defined.

Definition mk_model (family : option string) (tags : option (list string)) : model_context := {|
  m_family := lower (default "unknown" family);
  m_tags := list_to_set (lower <$> default [] tags)
|}.

Definition default_model : model_context := mk_model (Some "unknown") (Some []).

Definition model_fingerprint (m : model_context) : string * list string :=
  (m_family m, sort_str (elements (m_tags m))).

(** ** Physical signatures *)
Record physical_signature : Type := PhysicalSignature {
  s_format : string;
  s_layout : option string;
  s_block_shape : option (list Z);
  s_scale_dtype : option string;
  s_granularity : option string;
  s_storage_dtype : option string;
  s_fields : list (string * value);
}.
#[export] Instance physical_signature_eq_dec : EqDecision physical_signature.
Proof. solve_decision. Defined.

Definition mk_signature (format : string) (layout : option string)
    (block_shape : option (list obj)) (scale_dtype granularity storage_dtype : option string)
    (fields : list (string * obj)) : res physical_signature :=
  block ← match block_shape with
          | None => Ok None
          | Some l => zs ← rmap obj_int l; Ok (Some zs)
          end;
  Ok {| s_format := dtype_name format;
        s_layout := lower <$> layout;
        s_block_shape := block;
        s_scale_dtype := dtype_name <$> scale_dtype;
        s_granularity := lower <$> granularity;
        s_storage_dtype := dtype_name <$> storage_dtype;
        s_fields := freeze_pairs fields |}.

(** ** Shape facts *)
Record shape_facts : Type := ShapeFacts {
  sh_dims : list (string * Z);
  sh_attrs : list (string * value);
}.
#[export] Instance shape_facts_eq_dec : EqDecision shape_facts.
Proof. solve_decision. Defined.

Definition mk_shape (dims : list (string * obj)) (attrs : list (string * obj))
    : res shape_facts :=
  zs ← rmap (λ p : string * obj, z ← obj_int p.2; Ok (p.1, z)) dims;
  Ok {| sh_dims := sort_pairs zs; sh_attrs := freeze_pairs attrs |}.

(** [d.setdefault(k, v)] *)
Definition dsetdefault {V} (d : dict string V) (k : string) (v : V) : dict string V :=
  match dget d k with Some _ => d | None => dset d k v end.

(** The loop of [ShapeFacts.from_mapping]: booleans and values [int] rejects
    become attributes, the others dimensions.  [int] only raises the two
    exceptions the loop catches. *)
Fixpoint split_dims (items : list (string * obj))
    (dims : dict string obj) (attrs : dict string obj)
    : dict string obj * dict string obj :=
  match items with
  | [] => (dims, attrs)
  | (key, value) :: items' =>
      if obj_is_bool value then split_dims items' dims (dsetdefault attrs key value)
      else match obj_int value with
           | Err _ => split_dims items' dims (dsetdefault attrs key value)
           | Ok _ => split_dims items' (dset dims key value) attrs
           end
  end.

Definition shape_from_mapping (dims : dict string obj) (attrs : dict string obj)
    : res shape_facts :=
  let '(nd, na) := split_dims dims [] attrs in
  mk_shape nd na.

(** ** Kernel queries *)
Record kernel_query : Type := KernelQuery {
  q_op : string;
  q_role : string;
  q_device : device_profile;
  q_model : model_context;
  q_dtype : list (string * string);
  q_quant : option physical_signature;
  q_shape : shape_facts;
  q_mode : kernel_mode;
  q_attrs : list (string * value);
  q_device_explicit : bool;
}.

(** [KernelQuery.__post_init__] on a device that is absent or a profile, a
    [ModelContext], a [PhysicalSignature] and a [ShapeFacts]. *)
Definition mk_query (op role : string) (device : option device_profile)
    (model : model_context) (dtype : list (string * string))
    (quant : option physical_signature) (shape : shape_facts)
    (mode : kernel_mode) (attrs : list (string * obj)) : kernel_query := {|
  q_op := lower op;
  q_role := lower role;
  q_device := default default_device device;
  q_model := model;
  q_dtype := sort_str_pairs ((λ p, (lower p.1, dtype_name p.2)) <$> dtype);
  q_quant := quant;
  q_shape := shape;
  q_mode := mode;
  q_attrs := freeze_pairs attrs;
  q_device_explicit := bool_decide (is_Some device)
|}.

(** [KernelQuery.build] with a flat shape mapping. *)
Definition build_query (op role : string) (device : option device_profile)
    (model : option model_context) (dtype : dict string string)
    (quant : option physical_signature) (shape : dict string obj)
    (mode : string) (attrs : dict string obj) : res kernel_query :=
  sh ← shape_from_mapping shape [];
  Ok (mk_query op role device (default default_model model) dtype quant sh
        (normalize_mode mode) attrs).

(** [dataclasses.replace(query, model=..., device=...)]: the constructor runs
    again on the stored fields, and the device is now explicit. *)
Definition replace_query (q : kernel_query) (model : option model_context)
    (device : option device_profile) : kernel_query :=
  mk_query (q_op q) (q_role q) (Some (default (q_device q) device))
    (default (q_model q) model) (q_dtype q) (q_quant q) (q_shape q) (q_mode q)
    ((λ p, (p.1, OVal p.2)) <$> q_attrs q).

(** [KernelQuery.cache_key].  Dictionary keys are compared with [==], so the
    values inside are replaced by their [canon] representatives: two model keys
    are equal exactly when Python's keys are. *)
Definition canon_pairs (l : list (string * value)) : list (string * value) :=
  (λ p, (p.1, canon p.2)) <$> l.

Definition canon_signature (s : physical_signature) : physical_signature :=
  PhysicalSignature (s_format s) (s_layout s) (s_block_shape s) (s_scale_dtype s)
    (s_granularity s) (s_storage_dtype s) (canon_pairs (s_fields s)).

Definition cache_key_t : Type :=
  string * string * (string * option string * option Z) * (string * list string)
  * list (string * string) * option physical_signature
  * (list (string * Z) * list (string * value)) * string * list (string * value).

Definition cache_key (q : kernel_query) : cache_key_t :=
  (q_op q, q_role q, device_fingerprint (q_device q), model_fingerprint (q_model q),
   q_dtype q, canon_signature <$> q_quant q,
   (sh_dims (q_shape q), canon_pairs (sh_attrs (q_shape q))),
   mode_value (q_mode q), canon_pairs (q_attrs q)).

#[export] Instance cache_key_eq_dec : EqDecision cache_key_t.
Proof. unfold cache_key_t. apply _. Defined.

(** ** Theorems on architectures *)

Definition digit_text (z : Z) : string := z_to_string z.

Lemma slast_snoc s c : slast (s +:+ String c "") = String c "".
Proof.
  induction s as [|d s IH]; [done|].
  change (slast (String d (s +:+ String c "")) = String c "").
  destruct s as [|e s]; [done|exact IH].
Qed.

Lemma butlast_snoc s c : butlast (s +:+ String c "") = s.
Proof.
  induction s as [|d s IH]; [done|].
  change (butlast (String d (s +:+ String c "")) = String d s).
  destruct s as [|e s]; [done|].
  change (String d (butlast (String e s +:+ String c "")) = String d (String e s)).
  by rewrite IH.
Qed.

Lemma length_snoc s c : String.length (s +:+ String c "") = S (String.length s).
Proof.
  induction s as [|d s IH]; [done|].
  change (S (String.length (s +:+ String c "")) = S (S (String.length s))).
  by rewrite IH.
Qed.

Lemma one_digit z : 0 ≤ z ≤ 9 →
  ∃ c, z_to_string z = String c "" ∧ is_digit c = true.
Proof.
  intros Hz.
  assert (z = 0 ∨ z = 1 ∨ z = 2 ∨ z = 3 ∨ z = 4 ∨ z = 5 ∨ z = 6 ∨ z = 7 ∨ z = 8 ∨ z = 9)
    as Hc by lia.
  repeat destruct Hc as [->|Hc]; subst; by eexists.
Qed.

Lemma int_of_digits_z z : int_of_digits (z_to_string z) = Ok z.
Proof. unfold int_of_digits. by rewrite py_int_z_to_string. Qed.

Lemma nonneg_text z : 0 ≤ z →
  sforall is_digit (z_to_string z) = true ∧ z_to_string z ≠ "".
Proof.
  intros Hz. destruct (z_to_string_nonneg z Hz) as (d & -> & _).
  split; [apply uint_text_digits|]. by destruct d.
Qed.

(** The [arch_re] match of a series followed by digits. *)
Lemma arch_re_series_digits s d :
  sforall is_lower s = true → s ≠ "" → sforall is_digit d = true → d ≠ "" →
  arch_re_match (s +:+ d) = Some (s, d, "").
Proof.
  intros Hs Hs0 Hd Hd0. unfold arch_re_match.
  destruct d as [|c d]; [done|]. assert (Hd' := Hd).
  simpl in Hd'. apply andb_prop in Hd' as [Hc _].
  rewrite (sspan_app _ s _ c d Hs eq_refl) by by apply digit_not_lower.
  rewrite (sspan_all _ _ Hd). simpl. by destruct s.
Qed.

Lemma sm_major_minor major minor : 0 ≤ major → 0 ≤ minor ≤ 9 →
  split_sm_version (z_to_string major +:+ z_to_string minor) ""
  = Ok (Some (major, minor)).
Proof.
  intros Hma Hmi. destruct (nonneg_text major Hma) as [_ Hne].
  destruct (one_digit minor Hmi) as (c & Hc & _). unfold split_sm_version.
  rewrite Hc, length_snoc, butlast_snoc, slast_snoc, int_of_digits_z, <-Hc, int_of_digits_z.
  by destruct (z_to_string major).
Qed.

(** The name the device probe builds for an NVIDIA device of compute
    capability [major.minor] parses back to that capability. *)
Theorem arch_parse_sm_roundtrip (major minor : Z) :
  0 ≤ major → 0 ≤ minor ≤ 9 →
  Arch.parse (VStr ("sm" +:+ z_to_string major +:+ z_to_string minor))
  = Ok (Arch.Mk ("sm" +:+ z_to_string major +:+ z_to_string minor) "sm"
          (Some major) (Some minor)).
Proof.
  intros Hma Hmi. destruct (nonneg_text major Hma) as [Hd1 Hne].
  destruct (nonneg_text minor ltac:(lia)) as [Hd2 _].
  set (d := z_to_string major +:+ z_to_string minor).
  assert (sforall is_digit d = true) as Hd by (subst d; by rewrite sforall_app, Hd1, Hd2).
  assert (d ≠ "") as Hd0 by (subst d; by destruct (z_to_string major)).
  unfold Arch.parse. cbn [py_str].
  rewrite lower_id by (rewrite sforall_app; eapply sforall_impl; [apply digit_not_upper|exact Hd]).
  rewrite arch_re_series_digits by done.
  change (dget ARCH_SERIES_GRAMMAR "sm") with (Some split_sm_version).
  cbv beta iota. unfold d. rewrite sm_major_minor by done. done.
Qed.

Lemma arch_parse_sm_roundtrip_witness :
  0 ≤ 10 ∧ 0 ≤ 3 ≤ 9 ∧
  Arch.parse (VStr ("sm" +:+ z_to_string 10 +:+ z_to_string 3))
  = Ok (Arch.Mk ("sm" +:+ z_to_string 10 +:+ z_to_string 3) "sm" (Some 10) (Some 3)).
Proof. split; [lia|]. split; [lia|]. apply (arch_parse_sm_roundtrip 10 3); lia. Defined.

(** The bounds [parse_bound] lets through. *)
Lemma parse_series_ordered (v : value) a :
  Arch.parse v = Ok a → Arch.series a ∈ ORDERED_ARCH_SERIES → Arch.series a = "sm".
Proof. intros _ H. by apply list_elem_of_singleton in H. Qed.

(** A validated architecture bound is an SM version whose major lies in the
    plausible range, and it is what [parse] reads from the stripped text. *)
Theorem parse_bound_plausible (v : value) (a : Arch.t) :
  Arch.parse_bound v = Ok a →
  Arch.parse (VStr (strip (lower (py_str v)))) = Ok a ∧
  Arch.series a = "sm" ∧ ∃ m, Arch.major a = Some m ∧ 5 ≤ m < 20.
Proof.
  unfold Arch.parse_bound. intros H.
  repeat (case_match; try discriminate). apply bind_ok in H as (b & Hb & H).
  destruct (bool_decide (Arch.series b ∈ ORDERED_ARCH_SERIES)) eqn:Hs; [|discriminate].
  apply bool_decide_eq_true in Hs. pose proof (parse_series_ordered _ _ Hb Hs) as Hsm.
  simpl in H. destruct (Arch.major b) as [m|] eqn:Hm; [|discriminate].
  rewrite Hsm in H. change (dget SERIES_MAJOR_RANGES "sm") with (Some (5, 20)) in H.
  simpl in H. destruct (in_range m (5, 20)) eqn:Hr; [|discriminate].
  injection H as <-. split; [done|]. split; [done|]. exists m. split; [done|].
  unfold in_range in Hr; simpl in Hr. lia.
Qed.

Lemma parse_bound_plausible_witness :
  ∃ a, Arch.parse_bound (VStr " SM100a ") = Ok a ∧
    Arch.parse (VStr (strip (lower (py_str (VStr " SM100a "))))) = Ok a ∧
    Arch.series a = "sm" ∧ ∃ m, Arch.major a = Some m ∧ 5 ≤ m < 20.
Proof.
  eexists. split; [vm_compute; reflexivity|].
  apply parse_bound_plausible. vm_compute. reflexivity.
Defined.

Lemma ordered_true a : Arch.ordered a = true ↔
  Arch.series a ∈ ORDERED_ARCH_SERIES ∧ is_Some (Arch.major a).
Proof. unfold Arch.ordered. by rewrite andb_true_iff, !bool_decide_eq_true. Qed.

(** What [at_least] returns when it returns [true]. *)
Lemma at_least_true a b : Arch.at_least a b = Ok true ↔
  Arch.ordered a = true ∧ Arch.series a = Arch.series b ∧
  ∃ x y, Arch.major a = Some x ∧ Arch.major b = Some y ∧
    (y < x ∨ x = y ∧ default 0 (Arch.minor b) ≤ default 0 (Arch.minor a)).
Proof.
  unfold Arch.at_least. destruct (Arch.ordered a) eqn:Ho; simpl; [|split; [done|by intros [? _]]].
  destruct (String.eqb_spec (Arch.series a) (Arch.series b)) as [Hs|Hs]; simpl;
    [|split; [done|by intros (_ & ? & _)]].
  apply ordered_true in Ho as [_ [x Hx]]. unfold Arch.version_ge. rewrite Hx.
  destruct (Arch.major b) as [y|]; simpl; [|split; [done|by intros (_ & _ & ? & ? & _ & ? & _)]].
  split.
  - intros [= H]. split; [done|]. split; [done|]. exists x, y. repeat split; lia.
  - intros (_ & _ & x' & y' & [= <-] & [= <-] & H). f_equal. lia.
Qed.

(** [at_least] is a total preorder on the ordered architectures of one series,
    and it never raises on a bound that [parse_bound] accepted. *)
Theorem at_least_order :
  (∀ a, Arch.ordered a = true → Arch.at_least a a = Ok true) ∧
  (∀ a b c, Arch.at_least a b = Ok true → Arch.at_least b c = Ok true →
     Arch.at_least a c = Ok true) ∧
  (∀ a b, Arch.ordered a = true → Arch.ordered b = true →
     Arch.series a = Arch.series b →
     Arch.at_least a b = Ok true ∨ Arch.at_least b a = Ok true) ∧
  (∀ v a b, Arch.parse_bound v = Ok b → ∃ r, Arch.at_least a b = Ok r).
Proof.
  split; [|split; [|split]].
  - intros a Ha. apply at_least_true. pose proof (proj1 (ordered_true a) Ha) as [_ [x Hx]].
    split; [done|]. split; [done|]. exists x, x. repeat split; try done. right. lia.
  - intros a b c H1 H2. apply at_least_true in H1 as (Ho & Hs & x & y & Hx & Hy & H).
    apply at_least_true in H2 as (_ & Hs' & y' & z & Hy' & Hz & H').
    apply at_least_true. split; [done|]. split; [congruence|]. exists x, z.
    simplify_eq. repeat split; [done..|]. lia.
  - intros a b Ha Hb Hs.
    pose proof (proj1 (ordered_true a) Ha) as [_ [x Hx]].
    pose proof (proj1 (ordered_true b) Hb) as [_ [y Hy]].
    rewrite !at_least_true.
    destruct (decide (y < x ∨ x = y ∧ default 0 (Arch.minor b) ≤ default 0 (Arch.minor a))).
    + left. split; [done|]. split; [done|]. by exists x, y.
    + right. split; [done|]. split; [done|]. exists y, x. repeat split; [done..|]. lia.
  - intros v a b Hb. apply parse_bound_plausible in Hb as (_ & _ & m & Hm & _).
    unfold Arch.at_least. destruct (Arch.ordered a) eqn:Ho; simpl; [|by eexists].
    destruct (String.eqb _ _); simpl; [|by eexists].
    apply ordered_true in Ho as [_ [x Hx]]. unfold Arch.version_ge. rewrite Hx, Hm.
    by eexists.
Qed.

(** ** Normal forms *)

Lemma obj_ind' (P : obj → Prop) :
  (∀ v, P (OVal v)) → (∀ l, Forall P l → P (OList l)) →
  (∀ d, Forall (λ p, P p.2) d → P (OMap d)) → ∀ o, P o.
Proof.
  intros HV HL HM. fix IH 1. intros [v|l|d]; [apply HV|apply HL|apply HM].
  - induction l as [|x l IHl]; constructor; [apply IH|exact IHl].
  - induction d as [|[k x] d IHd]; constructor; [apply IH|exact IHd].
Qed.

Lemma freeze_value_idemp v : freeze_value (freeze_value v) = freeze_value v.
Proof.
  induction v as [|b|z|s|l IH|s] using value_ind'; simpl; try done.
  - f_equal. rewrite map_map. by apply Forall_fmap_ext_1.
  - f_equal. generalize (py_sorted repr_le (elements s)). intros l.
    induction l as [|x l IH]; simpl; [done|]. f_equal. exact IH.
Qed.

(** [_freeze] is idempotent. *)
Lemma freeze_idemp o : freeze_value (freeze o) = freeze o.
Proof.
  induction o as [v|l IH|d IH] using obj_ind'; simpl.
  - apply freeze_value_idemp.
  - f_equal. rewrite map_map. by apply Forall_fmap_ext_1.
  - f_equal. change (map freeze_value) with (fmap (M:=list) freeze_value).
    rewrite <-list_fmap_compose. apply list_fmap_ext.
    intros i [k w] Hi. apply list_elem_of_lookup_2 in Hi.
    unfold sort_pairs in Hi. rewrite py_sorted_elem in Hi.
    apply list_elem_of_fmap in Hi as ([k' o'] & [= -> ->] & Ho). simpl.
    rewrite Forall_forall in IH. specialize (IH _ Ho); simpl in IH. by rewrite IH.
Qed.

Lemma freeze_pairs_idemp l :
  freeze_pairs ((λ p, (p.1, OVal p.2)) <$> freeze_pairs l) = freeze_pairs l.
Proof.
  set (k := freeze_pairs l). unfold freeze_pairs.
  assert (map (λ p : string * obj, (p.1, freeze p.2)) ((λ p, (p.1, OVal p.2)) <$> k) = k) as ->.
  { change (@map (string * obj) (string * value)) with (@fmap list _ (string * obj) (string * value)).
    rewrite <-list_fmap_compose. trans (id <$> k); [|apply list_fmap_id]. apply list_fmap_ext.
    intros i [a w] Hi. apply list_elem_of_lookup_2 in Hi. unfold k, freeze_pairs, sort_pairs in Hi.
    rewrite py_sorted_elem in Hi.
    apply list_elem_of_fmap in Hi as ([a' o'] & [= -> ->] & _). simpl.
    by rewrite freeze_idemp. }
  apply py_sorted_idemp; apply _.
Qed.

Definition no_upper (c : ascii) : bool := negb (is_upper c).

Lemma lower_no_upper s : sforall no_upper (lower s) = true.
Proof.
  unfold lower. induction s as [|c s IH]; simpl; [done|]. rewrite IH, andb_true_r.
  by destruct c as [[] [] [] [] [] [] [] []].
Qed.

Lemma delete_all_sforall P pat n s :
  sforall P s = true → sforall P (delete_all pat n s) = true.
Proof.
  revert n. induction s as [|c s IH]; intros n; [done|]. cbn [sforall delete_all].
  intros [Hc Hs]%andb_prop. destruct n as [|n]; [|by apply IH].
  destruct (String.prefix pat (String c s)); [by apply IH|].
  cbn [sforall]. by rewrite Hc, IH.
Qed.

Lemma aliases_image k v : dget DTYPE_ALIASES k = Some v →
  dget DTYPE_ALIASES v = None ∧ sforall no_upper v = true.
Proof.
  intros H%dget_elem.
  assert (Forall (λ p : string * string,
    dget DTYPE_ALIASES p.2 = None ∧ sforall no_upper p.2 = true) DTYPE_ALIASES) as HF.
  { unfold DTYPE_ALIASES at 2. repeat constructor. }
  rewrite Forall_forall in HF. exact (HF _ H).
Qed.

Lemma dtype_name_shape s :
  sforall no_upper (dtype_name s) = true ∧ dget DTYPE_ALIASES (dtype_name s) = None.
Proof.
  unfold dtype_name. set (t := delete_all "torch." 0 (lower s)).
  destruct (dget DTYPE_ALIASES t) as [v|] eqn:Hv; cbn [default].
  - by destruct (aliases_image _ _ Hv).
  - split; [|done]. apply delete_all_sforall, lower_no_upper.
Qed.

(** [dtype_name] is idempotent on every name from which all occurrences of
    ["torch."] are gone; deleting one can create another. *)
Lemma dtype_name_idemp s :
  contains "torch." (dtype_name s) = false → dtype_name (dtype_name s) = dtype_name s.
Proof.
  intros Hc. destruct (dtype_name_shape s) as [Hu Ha].
  unfold dtype_name at 1. rewrite (lower_id _ Hu), (delete_all_absent "torch." _ ltac:(done) Hc), Ha.
  done.
Qed.

(** [dataclasses.replace] without changes returns the query itself, its device
    now explicit: a constructed query is in normal form. *)
Theorem query_normal_form (op role : string) device model dtype quant shape mode attrs :
  let q := mk_query op role device model dtype quant shape mode attrs in
  Forall (λ p, contains "torch." p.2 = false) (q_dtype q) →
  replace_query q None None
  = KernelQuery (q_op q) (q_role q) (q_device q) (q_model q) (q_dtype q) (q_quant q)
      (q_shape q) (q_mode q) (q_attrs q) true.
Proof.
  intros q Hdt. unfold replace_query, mk_query. cbn [default]. f_equal.
  - apply lower_idemp.
  - apply lower_idemp.
  - change (q_dtype q) with (sort_str_pairs ((λ p, (lower p.1, dtype_name p.2)) <$> dtype)) in *.
    set (k := (λ p : string * string, (lower p.1, dtype_name p.2)) <$> dtype) in *.
    assert ((λ p : string * string, (lower p.1, dtype_name p.2)) <$> sort_str_pairs k
            = sort_str_pairs k) as ->; [|apply py_sorted_idemp; apply _].
    rewrite <-(list_fmap_id (sort_str_pairs k)) at 2. apply list_fmap_ext.
    intros i [a b] Hi. apply list_elem_of_lookup_2 in Hi.
    rewrite Forall_forall in Hdt. pose proof (Hdt _ Hi) as Hb; simpl in Hb.
    unfold sort_str_pairs in Hi. rewrite py_sorted_elem in Hi.
    apply list_elem_of_fmap in Hi as ([a' b'] & [= -> ->] & _). simpl.
    by rewrite lower_idemp, dtype_name_idemp.
  - apply freeze_pairs_idemp.
Qed.

Lemma query_normal_form_witness :
  let q := mk_query "GEMM" "Q_Proj" None default_model [("input", "torch.bfloat16")] None
             (ShapeFacts [] []) EAGER [("causal", OVal (VBool true))] in
  replace_query q None None
  = KernelQuery (q_op q) (q_role q) (q_device q) (q_model q) (q_dtype q) (q_quant q)
      (q_shape q) (q_mode q) (q_attrs q) true.
Proof. apply query_normal_form. vm_compute. by repeat constructor. Defined.

(** ** Splitting a flat shape mapping *)

Definition dim_item (p : string * obj) : bool :=
  negb (obj_is_bool p.2) && is_ok (obj_int p.2).

Lemma split_dims_spec items dims attrs nd na :
  NoDup (dkeys items) →
  (∀ k, k ∈ dkeys items → dget dims k = None) →
  split_dims items dims attrs = (nd, na) →
  ∀ k, dget nd k =
         match dget items k with
         | Some o => if dim_item (k, o) then Some o else None
         | None => dget dims k
         end
     ∧ dget na k =
         match dget attrs k with
         | Some o => Some o
         | None => match dget items k with
                   | Some o => if dim_item (k, o) then None else Some o
                   | None => None
                   end
         end.
Proof.
  revert dims attrs. induction items as [|[key o] items IH]; intros dims attrs Hnd Hfresh H k.
  { injection H as <- <-. simpl. by destruct (dget attrs k). }
  unfold dkeys in *; simpl in *. apply NoDup_cons in Hnd as [Hkey Hnd].
  assert (dget dims key = None) as Hdk by (apply Hfresh; by left).
  assert (dget items key = None) as Hik by by apply dget_None.
  assert (∀ k', dget (dsetdefault attrs key o) k' = match dget attrs k' with
    | Some o' => Some o' | None => if decide (key = k') then Some o else None end) as Hsd.
  { intros k'. unfold dsetdefault. destruct (dget attrs key) eqn:E.
    - destruct (dget attrs k') eqn:E'; [done|]. rewrite decide_False; [done|congruence].
    - rewrite dget_dset. case_decide; [by subst; rewrite E|]. by destruct (dget attrs k'). }
  unfold dim_item in *; simpl in *.
  destruct (obj_is_bool o) eqn:Hb; [|destruct (obj_int o) as [z|e] eqn:Hz].
  - destruct (IH _ _ Hnd ltac:(intros; apply Hfresh; by right) H k) as [-> ->].
    rewrite Hsd. split; repeat case_decide; subst; rewrite ?Hik, ?Hb; simpl; try done;
      destruct (dget attrs k); done.
  - assert (∀ k', k' ∈ items.*1 → dget (dset dims key o) k' = None) as Hf'.
    { intros k' Hk'. rewrite dget_dset_ne by (intros ->; done). apply Hfresh. by right. }
    destruct (IH _ _ Hnd Hf' H k) as [-> ->]. rewrite dget_dset.
    split; repeat case_decide; subst; rewrite ?Hik, ?Hb, ?Hz; simpl; try congruence; done.
  - destruct (IH _ _ Hnd ltac:(intros; apply Hfresh; by right) H k) as [-> ->].
    rewrite Hsd. split; repeat case_decide; subst; rewrite ?Hik, ?Hb, ?Hz; simpl; try done;
      destruct (dget attrs k); done.
Qed.

Lemma dsetdefault_NoDup {V} (d : dict string V) k v :
  NoDup (dkeys d) → NoDup (dkeys (dsetdefault d k v)).
Proof. unfold dsetdefault. case_match; [done|apply dset_NoDup]. Qed.

Lemma split_dims_NoDup items dims attrs :
  NoDup (dkeys dims) → NoDup (dkeys attrs) →
  NoDup (dkeys (split_dims items dims attrs).1)
  ∧ NoDup (dkeys (split_dims items dims attrs).2).
Proof.
  revert dims attrs. induction items as [|[k o] items IH]; intros dims attrs Hd Ha; [done|].
  simpl. destruct (obj_is_bool o); [by apply IH; [|apply dsetdefault_NoDup]|].
  destruct (obj_int o); apply IH; try done; [by apply dset_NoDup|by apply dsetdefault_NoDup].
Qed.

Lemma dict_elem_iff {V} (d : dict string V) k v :
  NoDup (dkeys d) → (k, v) ∈ d ↔ dget d k = Some v.
Proof. intros Hd. split; [by apply elem_dget|apply dget_elem]. Qed.

(** Splitting a flat shape mapping never raises: the dimensions are exactly
    the non-boolean items [int] accepts, the attributes are the explicit ones
    and, where no explicit one has the name, the remaining items. *)
Theorem shape_from_mapping_spec (dims attrs : dict string obj) :
  NoDup (dkeys dims) → NoDup (dkeys attrs) →
  ∃ sh, shape_from_mapping dims attrs = Ok sh ∧
    (∀ k z, (k, z) ∈ sh_dims sh ↔
       ∃ o, dget dims k = Some o ∧ obj_is_bool o = false ∧ obj_int o = Ok z) ∧
    (∀ k v, (k, v) ∈ sh_attrs sh ↔
       ∃ o, v = freeze o ∧
         (dget attrs k = Some o ∨
          dget attrs k = None ∧ dget dims k = Some o ∧ dim_item (k, o) = false)).
Proof.
  intros Hd Ha. unfold shape_from_mapping.
  destruct (split_dims dims [] attrs) as [nd na] eqn:Hs.
  pose proof (split_dims_spec dims [] attrs nd na Hd ltac:(done) Hs) as Hspec.
  destruct (split_dims_NoDup dims [] attrs ltac:(by apply NoDup_nil_2) Ha) as [Hnd Hna].
  rewrite Hs in Hnd, Hna; simpl in Hnd, Hna. unfold mk_shape.
  assert (∀ p, p ∈ nd → dim_item p = true) as Hdim.
  { intros [k o] Hp%dict_elem_iff; [|done]. destruct (Hspec k) as [Hk _].
    rewrite Hp in Hk. destruct (dget dims k); [|done]. by case_match; simplify_eq. }
  destruct (rmap _ nd) as [zs|e] eqn:Hzs.
  2:{ apply rmap_err in Hzs as ([k o] & Hp & He). apply Hdim in Hp. exfalso.
      unfold dim_item in Hp; simpl in Hp, He. destruct (obj_int o); [done|].
      by rewrite andb_false_r in Hp. }
  eexists. split; [done|]. simpl. apply rmap_ok in Hzs. split.
  - intros k z. unfold sort_pairs. rewrite py_sorted_elem. split.
    + intros Hkz. apply list_elem_of_lookup in Hkz as [i Hi].
      destruct (Forall2_lookup_r _ _ _ _ _ Hzs Hi) as ([k' o] & Hno & Hko).
      simpl in Hko. inv_bind. simplify_eq. exists o.
      apply list_elem_of_lookup_2 in Hno. pose proof (Hdim _ Hno) as Hi'.
      apply dict_elem_iff in Hno; [|done]. destruct (Hspec k) as [Hk _].
      rewrite Hno in Hk. destruct (dget dims k) as [o'|]; [|done].
      unfold dim_item in Hk, Hi'; simpl in Hk, Hi'.
      apply andb_prop in Hi' as [Hb _]. apply negb_true_iff in Hb.
      case_match; simplify_eq. done.
    + intros (o & Hk & Hb & Hz). destruct (Hspec k) as [Hn _]. rewrite Hk in Hn.
      unfold dim_item in Hn; simpl in Hn. rewrite Hb, Hz in Hn; simpl in Hn.
      apply dget_elem, list_elem_of_lookup in Hn as [i Hi].
      destruct (Forall2_lookup_l _ _ _ _ _ Hzs Hi) as ([k' z'] & Hz' & Hkz).
      simpl in Hkz. rewrite Hz in Hkz. simpl in Hkz. simplify_eq.
      by apply list_elem_of_lookup_2 in Hz'.
  - intros k v. unfold freeze_pairs, sort_pairs. rewrite py_sorted_elem.
    destruct (Hspec k) as [_ Hk]. split.
    + intros ([k' o] & [= <- ->] & Hin)%list_elem_of_fmap. exists o. split; [done|].
      apply dict_elem_iff in Hin; [|done]. rewrite Hin in Hk.
      destruct (dget attrs k); [left; congruence|right]. split; [done|].
      destruct (dget dims k); [|done]. case_match; simplify_eq. done.
    + intros (o & -> & Ho). apply list_elem_of_fmap. exists (k, o). split; [done|].
      apply dict_elem_iff; [done|]. rewrite Hk.
      destruct Ho as [->|(-> & -> & ->)]; done.
Qed.

Lemma shape_from_mapping_spec_witness :
  ∃ sh, shape_from_mapping [("K", OVal (VInt 64)); ("flag", OVal (VBool true))] [] = Ok sh ∧
    (∀ k z, (k, z) ∈ sh_dims sh ↔
       ∃ o, dget [("K", OVal (VInt 64)); ("flag", OVal (VBool true))] k = Some o
            ∧ obj_is_bool o = false ∧ obj_int o = Ok z) ∧
    (∀ k v, (k, v) ∈ sh_attrs sh ↔
       ∃ o, v = freeze o ∧
         (dget ([] : dict string obj) k = Some o ∨
          dget ([] : dict string obj) k = None
          ∧ dget [("K", OVal (VInt 64)); ("flag", OVal (VBool true))] k = Some o
          ∧ dim_item (k, o) = false)).
Proof.
  apply (shape_from_mapping_spec [("K", OVal (VInt 64)); ("flag", OVal (VBool true))] []);
    apply (bool_decide_unpack _); vm_compute; exact I.
Defined.
