(* ===== verification/Facts.v ===== *)
(** * The fact vocabulary

    Models [kernel/facts.py]: the kinds of facts and how a value is
    normalised for comparison, facts as named typed paths, the values known
    about one kernel call, and how a query is flattened into them. *)

From S2P Require Export Types.
From Stdlib Require Import Ascii String.
From stdpp Require Import options.

Local Open Scope Z_scope.

(** ** Kinds *)
Inductive fact_kind : Type := INT | STR | ARCH | DTYPE | BOOL | STRSET | ANY.

#[export] Instance fact_kind_eq_dec : EqDecision fact_kind.
Proof. solve_decision. Defined.

Definition kind_ordered (k : fact_kind) : bool := bool_decide (k = INT).

Definition false_texts : list string := ["0"; "false"; "no"; "off"; ""].

(** [FactKind.normalize] *)
Definition normalize (k : fact_kind) (v : value) : res value :=
  match v with
  | VNone => Ok VNone
  | _ =>
      match k with
      | INT => z ← py_int v; Ok (VInt z)
      | BOOL =>
          match v with
          | VStr s => Ok (VBool (negb (bool_decide (lower (strip s) ∈ false_texts))))
          | _ => Ok (VBool (py_bool v))
          end
      | DTYPE => Ok (VStr (dtype_name (py_str v)))
      | ARCH => a ← Arch.parse v; Ok (VStr (Arch.name a))
      | STR => Ok (VStr (lower (py_str v)))
      | STRSET =>
          match v with
          | VStr s => Ok (VSet {[ lower s ]})
          | VTup l => Ok (VSet (list_to_set ((λ x, lower (py_str x)) <$> l)))
          | VSet s => Ok (VSet (set_map lower s))
          | _ => Err TypeError
          end
      | ANY => Ok v
      end
  end.

(** ** Facts *)
Record fact : Type := Fact { f_path : string; f_kind : fact_kind }.

#[export] Instance fact_eq_dec : EqDecision fact.
Proof. solve_decision. Defined.

(** [fact % modulus]: the intermediate expression checks its modulus. *)
Record mod_expr : Type := ModExpr { me_fact : fact; me_modulus : Z }.

Definition mk_mod_expr (f : fact) (modulus : Z) : res mod_expr :=
  if modulus <=? 0 then Err ValueError else Ok (ModExpr f modulus).

(** The global facts: the three namespaces and the two top-level names. *)
Definition fact_device_vendor := Fact "device.vendor" STR.
Definition fact_device_arch := Fact "device.arch" ARCH.
Definition fact_quant_format := Fact "quant.format" STR.
Definition fact_quant_layout := Fact "quant.layout" STR.
Definition fact_quant_granularity := Fact "quant.granularity" STR.
Definition fact_quant_block_k := Fact "quant.block_k" INT.
Definition fact_model_family := Fact "model.family" STR.
Definition fact_model_tags := Fact "model.tags" STRSET.
Definition fact_op := Fact "op" STR.
Definition fact_role := Fact "role" STR.

Definition GLOBAL_FACTS : list fact :=
  [fact_op; fact_role; fact_device_vendor; fact_device_arch; fact_quant_format;
   fact_quant_layout; fact_quant_granularity; fact_quant_block_k;
   fact_model_family; fact_model_tags].

Definition GLOBAL_FACT_PATHS : list string := f_path <$> GLOBAL_FACTS.

Definition fact_shape (name : string) : fact := Fact ("shape." +:+ name) INT.
Definition fact_dtype (name : string) : fact := Fact ("dtype." +:+ name) DTYPE.
Definition fact_attrs (name : string) : fact := Fact ("attrs." +:+ name) ANY.
Definition fact_quant_field (name : string) : fact := Fact ("quant.fields." +:+ name) ANY.
Definition fact_lib (name : string) : fact := Fact ("lib." +:+ name) BOOL.

Definition OP_SCOPED_PREFIXES : list string := ["shape"; "dtype"; "attrs"].

(** [path.partition(".")[0]] and [path.partition(".")[2]] *)
Definition path_prefix (path : string) : string := (partition "." path).1.1.
Definition path_name (path : string) : string := (partition "." path).2.

Definition op_scoped (path : string) : bool :=
  bool_decide (path_prefix path ∈ OP_SCOPED_PREFIXES).

(** ** The values of one call *)
Record facts : Type := Facts {
  values : gmap string value;
  optional : gset string;
}.

(** [facts.lookup(path)]; [None] is the [MISSING] sentinel. *)
Definition lookup_fact (fs : facts) (path : string) : option value := values fs !! path.

Definition is_optional (fs : facts) (path : string) : bool :=
  bool_decide (path ∈ optional fs).

(** [dict.update] with a sequence of items: later items win. *)
Definition update (m : gmap string value) (items : list (string * value)) : gmap string value :=
  foldl (λ m p, <[p.1 := p.2]> m) m items.

Definition opt_str (o : option string) : value :=
  match o with Some s => VStr s | None => VNone end.

Definition device_facts (profile : device_profile) : list (string * value) :=
  [("device.vendor", VStr (d_vendor profile)); ("device.arch", opt_str (d_arch profile))].

(** [block[1] if len(block) > 1 else None] *)
Definition block_k (block : option (list Z)) : value :=
  match block with
  | Some (_ :: k :: _) => VInt k
  | _ => VNone
  end.

(** The items of [facts_from_query] in the order they are stored: the query's
    own names, the device, the signature, its fields, the dimensions, the
    dtypes, the attributes of the shape and then of the query, the
    libraries. *)
Definition query_items (q : kernel_query) : list (string * value) :=
  [("op", VStr (q_op q)); ("role", VStr (q_role q)); ("mode", VStr (mode_value (q_mode q)));
   ("model.family", VStr (m_family (q_model q))); ("model.tags", VSet (m_tags (q_model q)))]
  ++ device_facts (q_device q).

Definition quant_items (s : option physical_signature) : list (string * value) :=
  [("quant.format", opt_str (s_format <$> s));
   ("quant.layout", opt_str (s ≫= s_layout));
   ("quant.granularity", opt_str (s ≫= s_granularity));
   ("quant.block_k", block_k (s ≫= s_block_shape))].

Definition prefixed {A} (prefix : string) (f : A → value) (l : list (string * A))
    : list (string * value) :=
  (λ p, (prefix +:+ p.1, f p.2)) <$> l.

Definition field_items (s : option physical_signature) : list (string * value) :=
  match s with
  | Some s => prefixed "quant.fields." id (s_fields s)
  | None => []
  end.

Definition dim_items (q : kernel_query) : list (string * value) :=
  prefixed "shape." VInt (sh_dims (q_shape q)) ++ prefixed "dtype." VStr (q_dtype q).

Definition attr_items (q : kernel_query) : list (string * value) :=
  prefixed "attrs." id (sh_attrs (q_shape q) ++ q_attrs q).

Definition facts_from_query (q : kernel_query) (optional_paths : gset string)
    (libraries : list (string * bool)) : facts := {|
  values := update ∅
    (query_items q ++ quant_items (q_quant q) ++ field_items (q_quant q) ++ dim_items q
     ++ attr_items q ++ ((λ p, (p.1, VBool p.2)) <$> libraries));
  optional := optional_paths
|}.

(** ** Normalisation is idempotent *)

Lemma arch_parse_name v a : Arch.parse v = Ok a → Arch.name a = lower (py_str v).
Proof.
  unfold Arch.parse. destruct (arch_re_match _) as [[[s d] x]|]; [|by intros [= <-]].
  destruct (dget _ s) as [split|]; [|by intros [= <-]]. intros ?; inv_bind.
  case_match; [destruct p|]; by simplify_eq.
Qed.

Lemma arch_parse_lower v a : Arch.parse v = Ok a → Arch.parse (VStr (Arch.name a)) = Ok a.
Proof.
  intros H. rewrite (arch_parse_name _ _ H). rewrite <-H. unfold Arch.parse.
  cbn [py_str]. by rewrite lower_idemp.
Qed.

Lemma set_map_lower_id (X : gset string) :
  (∀ x, x ∈ X → lower x = x) → set_map lower X = X.
Proof.
  intros HX. apply set_eq. intros y. rewrite elem_of_map. split.
  - intros (x & -> & Hx). by rewrite HX.
  - intros Hy. exists y. by rewrite HX.
Qed.

(** Normalising a normalised value changes nothing, so a fact value and a
    literal are compared in one canonical form.  Dtype names are the exception
    [dtype_name_idemp] describes. *)
Theorem normalize_idemp (k : fact_kind) (v w : value) :
  normalize k v = Ok w →
  (k = DTYPE → ∀ s, w = VStr s → contains "torch." s = false) →
  normalize k w = Ok w.
Proof.
  intros H Hdt. destruct v as [|b|z|s|l|s], k; simpl in H; inv_bind; simplify_eq; try done;
    cbn [normalize py_str];
    try (rewrite dtype_name_idemp; [done|by apply Hdt]);
    try (rewrite lower_idemp; done);
    try (erewrite arch_parse_lower by done; done);
    do 2 f_equal; apply set_map_lower_id; intros x Hx.
  - apply elem_of_singleton in Hx as ->. apply lower_idemp.
  - apply elem_of_list_to_set, list_elem_of_fmap in Hx as (y & -> & _). apply lower_idemp.
  - apply elem_of_map in Hx as (y & -> & _). apply lower_idemp.
Qed.

Lemma normalize_idemp_witness :
  normalize DTYPE (VStr "torch.BFloat16") = Ok (VStr "bf16")
  ∧ normalize DTYPE (VStr "bf16") = Ok (VStr "bf16").
Proof.
  split; [vm_compute; reflexivity|].
  apply (normalize_idemp DTYPE (VStr "torch.BFloat16")); [vm_compute; reflexivity|].
  intros _ s [= <-]. reflexivity.
Defined.

(** ** The facts of a query *)

Lemma update_app m l k : update m (l ++ k) = update (update m l) k.
Proof. apply foldl_app. Qed.

Lemma update_lookup_ne m l p :
  (∀ q, q ∈ l → q.1 ≠ p) → update m l !! p = m !! p.
Proof.
  revert m. induction l as [|[k v] l IH]; intros m Hl; [done|].
  change (update (<[k:=v]> m) l !! p = m !! p). rewrite IH.
  - rewrite lookup_insert_ne; [done|]. by apply (Hl (k, v)); left.
  - intros q Hq. apply Hl. by right.
Qed.

Lemma update_canon m l :
  canon <$> update m l = update (canon <$> m) (canon_pairs l).
Proof.
  revert m. induction l as [|[k v] l IH]; intros m; [done|].
  change (canon <$> update (<[k:=v]> m) l
          = update (<[k:=canon v]> (canon <$> m)) (canon_pairs l)).
  by rewrite IH, fmap_insert.
Qed.

Lemma canon_pairs_app l k : canon_pairs (l ++ k) = canon_pairs l ++ canon_pairs k.
Proof. apply fmap_app. Qed.

Lemma canon_pairs_prefixed pre l :
  canon_pairs (prefixed pre id l) = prefixed pre id (canon_pairs l).
Proof. unfold canon_pairs, prefixed. by rewrite <-!list_fmap_compose. Qed.

Lemma sort_elements_inj (X Y : gset string) :
  sort_str (elements X) = sort_str (elements Y) → X = Y.
Proof.
  intros H. apply set_eq. intros x.
  by rewrite <-(elem_of_elements X), <-(elem_of_elements Y),
    <-(sort_str_elem (elements X)), <-(sort_str_elem (elements Y)), H.
Qed.

Lemma mode_value_inj m n : mode_value m = mode_value n → m = n.
Proof. by destruct m, n. Qed.

(** What equal cache keys say about two queries. *)
Lemma cache_key_eq q1 q2 : cache_key q1 = cache_key q2 →
  query_items q1 = query_items q2
  ∧ quant_items (q_quant q1) = quant_items (q_quant q2)
  ∧ dim_items q1 = dim_items q2
  ∧ canon_pairs (field_items (q_quant q1)) = canon_pairs (field_items (q_quant q2))
  ∧ canon_pairs (attr_items q1) = canon_pairs (attr_items q2)
  ∧ q_mode q1 = q_mode q2.
Proof.
  unfold cache_key, device_fingerprint, model_fingerprint. intros H.
  injection H as Hop Hrole Hdv Hda Hdi Hmf Htags Hdt Hq Hdims Hsa Hmode Hattrs.
  apply sort_elements_inj in Htags. apply mode_value_inj in Hmode.
  unfold query_items, device_facts, dim_items, attr_items.
  rewrite Hop, Hrole, Hdv, Hda, Hmf, Htags, Hdt, Hdims, Hmode.
  rewrite !canon_pairs_prefixed, !canon_pairs_app, Hsa, Hattrs.
  destruct (q_quant q1) as [s1|], (q_quant q2) as [s2|]; try done.
  injection Hq as Hf Hl Hb _ Hg _ Hfields.
  unfold quant_items, field_items; simpl.
  by rewrite !canon_pairs_prefixed, Hf, Hl, Hb, Hg, Hfields.
Qed.

(** The paths whose values may be booleans or tuples. *)
Definition loose_path (path : string) : bool :=
  startswith path "attrs." || startswith path "quant.fields.".

Lemma prefix_app a b : String.prefix a (a +:+ b) = true.
Proof.
  induction a as [|c a IH]; [by destruct b|].
  change (String.prefix (String c a) (String c (a +:+ b)) = true). simpl.
  destruct (ascii_dec c c); [exact IH|done].
Qed.

Lemma prefixed_ne {A} pre (f : A → value) l p q :
  startswith p pre = false → q ∈ prefixed pre f l → q.1 ≠ p.
Proof.
  intros Hp (x & -> & _)%list_elem_of_fmap. simpl. intros <-.
  unfold startswith in Hp. by rewrite prefix_app in Hp.
Qed.

Lemma field_items_ne s p q :
  startswith p "quant.fields." = false → q ∈ field_items s → q.1 ≠ p.
Proof.
  destruct s as [s|]; [apply prefixed_ne|]. intros _ ?%elem_of_nil. done.
Qed.

(** The values outside the loose paths do not depend on the loose items. *)
Lemma facts_strict_lookup q opt libs p : loose_path p = false →
  values (facts_from_query q opt libs) !! p
  = update (update (update ∅ (query_items q ++ quant_items (q_quant q))) (dim_items q))
      ((λ x, (x.1, VBool x.2)) <$> libs) !! p.
Proof.
  unfold loose_path. intros [Ha Hf]%orb_false_elim.
  unfold facts_from_query; cbn [values]. rewrite !update_app.
  assert (∀ m m' : gmap string value, (m !! p = m' !! p) → ∀ l, update m l !! p = update m' l !! p)
    as Hcong.
  { intros m m' Hm l. revert m m' Hm. induction l as [|[k v] l IH]; intros m m' Hm; [done|].
    change (update (<[k:=v]> m) l !! p = update (<[k:=v]> m') l !! p). apply IH.
    rewrite !lookup_insert. by case_decide. }
  apply Hcong. rewrite (update_lookup_ne _ (attr_items q)) by by intros ?; apply prefixed_ne.
  apply Hcong. by rewrite (update_lookup_ne _ (field_items _)) by by intros ?; apply field_items_ne.
Qed.

(** Two queries with one cache key have the same facts: equal outside the
    attributes and the signature fields, [==] everywhere.  A cached selection
    is therefore looked up only for calls with the facts it was made for. *)
Lemma cache_key_determines_facts (q1 q2 : kernel_query) (opt : gset string)
    (libs : list (string * bool)) (p : string) :
  cache_key q1 = cache_key q2 →
  canon <$> lookup_fact (facts_from_query q1 opt libs) p
    = canon <$> lookup_fact (facts_from_query q2 opt libs) p
  ∧ (loose_path p = false →
     lookup_fact (facts_from_query q1 opt libs) p
     = lookup_fact (facts_from_query q2 opt libs) p).
Proof.
  intros H. apply cache_key_eq in H as (Hq & Hs & Hd & Hf & Ha & _).
  split.
  - unfold lookup_fact. rewrite <-!lookup_fmap. unfold facts_from_query; cbn [values].
    by rewrite !update_canon, !canon_pairs_app, Hq, Hs, Hd, Hf, Ha.
  - intros Hp. unfold lookup_fact. by rewrite !facts_strict_lookup, Hq, Hs, Hd by done.
Qed.

Definition demo_query (causal : value) : kernel_query :=
  mk_query "attention" "" None default_model [] None (ShapeFacts [] []) EAGER
    [("causal", OVal causal)].

Lemma cache_key_determines_facts_witness :
  cache_key (demo_query (VBool true)) = cache_key (demo_query (VInt 1))
  ∧ canon <$> lookup_fact (facts_from_query (demo_query (VBool true)) ∅ []) "attrs.causal"
    = canon <$> lookup_fact (facts_from_query (demo_query (VInt 1)) ∅ []) "attrs.causal".
Proof.
  assert (cache_key (demo_query (VBool true)) = cache_key (demo_query (VInt 1))) as H
    by (vm_compute; reflexivity).
  split; [exact H|]. apply (cache_key_determines_facts _ _ ∅ [] "attrs.causal" H).
Defined.
