(* ===== verification/Predicate.v ===== *)
(** * Predicates over kernel facts

    Models [kernel/predicate.py]: the predicate classes with their
    constructors, evaluation with the reported failure, rendering, the facts
    read, partial evaluation, and the compilation of policy literals. *)

From S2P Require Export Facts.
From Stdlib Require Import Ascii String.
From stdpp Require Import options.

Local Open Scope Z_scope.

(** ** Data *)
Record failure : Type := Failure { fl_predicate : string; fl_detail : string }.
Record skip : Type := Skipped { sk_predicate : string }.

(** [str(failure)] *)
Definition failure_text (f : failure) : string :=
  fl_predicate f +:+ " failed: " +:+ fl_detail f.

Inductive cmp_op : Type := OEq | ONe | OLt | OLe | OGt | OGe.

#[export] Instance cmp_op_eq_dec : EqDecision cmp_op.
Proof. solve_decision. Defined.

Definition op_text (o : cmp_op) : string :=
  match o with OEq => "==" | ONe => "!=" | OLt => "<" | OLe => "<=" | OGt => ">" | OGe => ">=" end.

Definition op_ordered (o : cmp_op) : bool :=
  match o with OEq | ONe => false | _ => true end.

(** [Cmp._OPS]; [None] where Python raises [TypeError]. *)
Definition apply_op (o : cmp_op) (a b : value) : option bool :=
  match o with
  | OEq => Some (py_eq a b)
  | ONe => Some (negb (py_eq a b))
  | OLt => py_lt a b
  | OLe => negb <$> py_lt b a
  | OGt => py_lt b a
  | OGe => negb <$> py_lt a b
  end.

(** The single-fact predicates: the subclasses of [Leaf], [Cmp] with a
    literal operand among them. *)
Inductive leaf : Type :=
  | LCmp (op : cmp_op) (other : value)
  | LIn (vs : list value)
  | LArchAtLeast (bound : Arch.t)
  | LArchFamilyIn (families : list string)
  | LMod (modulus remainder : Z)
  | LIsNone
  | LIsSet
  | LIsTruthy
  | LSetHas (v : string)
  | LSetIntersects (vs : gset string).

(** [CmpFact] is [Cmp] with a fact operand, which overrides [eval] and
    [restrict]. *)
Inductive predicate : Type :=
  | Const (b : bool)
  | Leaf (f : fact) (l : leaf)
  | CmpFact (f : fact) (op : cmp_op) (other : fact)
  | And (children : list predicate)
  | Or (children : list predicate)
  | Not (child : predicate)
  | Implies (condition requirement : predicate).

Definition TRUE : predicate := Const true.
Definition FALSE : predicate := Const false.

Definition is_false (p : predicate) : bool :=
  match p with Const b => negb b | _ => false end.

(** ** Leaf tests *)

(** [Cmp.test] *)
Definition cmp_test (op : cmp_op) (other v : value) : bool :=
  match v with
  | VNone => bool_decide (op = ONe) && negb (bool_decide (other = VNone))
  | _ => default false (apply_op op v other)
  end.

Definition arch_test (v : value) (k : Arch.t → res bool) : res bool :=
  match v with VNone => Ok false | _ => a ← Arch.parse v; k a end.

(** [Leaf.test] of each subclass on a normalised value. *)
Definition leaf_test (l : leaf) (v : value) : res bool :=
  match l with
  | LCmp op other => Ok (cmp_test op other v)
  | LIn vs => Ok (py_in v vs)
  | LArchAtLeast bound => arch_test v (λ a, Arch.at_least a bound)
  | LArchFamilyIn families =>
      arch_test v (λ a, Ok (match Arch.family a with
                            | Some f => bool_decide (f ∈ families)
                            | None => false
                            end))
  | LMod modulus remainder =>
      match v with
      | VNone => Ok false
      | _ => z ← py_int v;
             if modulus =? 0 then Err ZeroDivisionError
             else Ok (z mod modulus =? remainder)
      end
  | LIsNone => Ok (bool_decide (v = VNone))
  | LIsSet => Ok (negb (bool_decide (v = VNone)))
  | LIsTruthy => Ok (py_bool v)
  | LSetHas x =>
      if negb (py_bool v) then Ok false
      else match v with
           | VSet s => Ok (bool_decide (x ∈ s))
           | VTup l => Ok (py_in (VStr x) l)
           | VStr s => Ok (contains x s)
           | _ => Err TypeError
           end
  | LSetIntersects xs =>
      if negb (py_bool v) then Ok false
      else match v with
           | VSet s => Ok (negb (bool_decide (xs ∩ s = ∅)))
           | _ => Err TypeError
           end
  end.

(** ** Rendering *)
Definition literal_text (v : value) : string :=
  match v with
  | VNone => "none"
  | VBool b => if b then "true" else "false"
  | _ => py_str v
  end.

Definition as_number (v : value) : option Z :=
  match v with VInt z => Some z | _ => None end.

(** [_render_set] *)
Definition render_set (vs : list value) : string :=
  let numbers := py_sorted Z.le (omap as_number vs) in
  let rest := sort_str (literal_text <$> filter (λ v, py_in v (VInt <$> numbers) = false) vs) in
  join ", " ((z_to_string <$> numbers) ++ rest).

(** [_family_sort_key]: series, then numeric major version. *)
Definition family_key (family : string) : string * Z :=
  let '(s, r) := sspan is_lower family in
  let '(d, r') := sspan is_digit r in
  if negb (sempty s) && negb (sempty d) && at_end r' then
    match digits_to_Z d with Some z => (s, z) | None => (family, 0) end
  else (family, 0).

Definition family_le (a b : string) : Prop :=
  let ka := family_key a in
  let kb := family_key b in
  (ka.1 ≠ kb.1 ∧ String.le ka.1 kb.1) ∨ (ka.1 = kb.1 ∧ ka.2 ≤ kb.2).
#[export] Instance family_le_dec : RelDecision family_le.
Proof. intros a b. unfold family_le. apply _. Defined.

Definition render_leaf (f : fact) (l : leaf) : string :=
  match l with
  | LCmp op other => f_path f +:+ " " +:+ op_text op +:+ " " +:+ literal_text other
  | LIn vs => f_path f +:+ " in {" +:+ render_set vs +:+ "}"
  | LArchAtLeast bound => f_path f +:+ " >= " +:+ Arch.name bound
  | LArchFamilyIn families =>
      f_path f +:+ " family in {" +:+ join ", " (py_sorted family_le families) +:+ "}"
  | LMod m r => f_path f +:+ " % " +:+ z_to_string m +:+ " == " +:+ z_to_string r
  | LIsNone => f_path f +:+ " is none"
  | LIsSet => f_path f +:+ " is set"
  | LIsTruthy => f_path f
  | LSetHas x => repr_str x +:+ " in " +:+ f_path f
  | LSetIntersects xs =>
      f_path f +:+ " intersects {" +:+ join ", " (sort_str (repr_str <$> elements xs)) +:+ "}"
  end.

Fixpoint render (p : predicate) : string :=
  match p with
  | Const b => if b then "true" else "false"
  | Leaf f l => render_leaf f l
  | CmpFact f op g => f_path f +:+ " " +:+ op_text op +:+ " " +:+ f_path g
  | And cs =>
      join " & " (map (λ c, match c with
                            | Or _ | Implies _ _ => "(" +:+ render c +:+ ")"
                            | _ => render c
                            end) cs)
  | Or cs => join " | " (map render cs)
  | Not c => "!(" +:+ render c +:+ ")"
  | Implies a b => render a +:+ " -> " +:+ render b
  end.

(** ** Evaluation *)

Definition vowels : list string := ["a"; "e"; "i"; "o"; "u"].

Definition first_char (s : string) : string :=
  match s with EmptyString => EmptyString | String c _ => String c EmptyString end.

(** [Leaf.describe_actual] and its overrides. *)
Definition describe_actual (f : fact) (l : leaf) (v : value) : res string :=
  let unknown := f_path f +:+ " is unknown" in
  match l, v with
  | LIsNone, _ => Ok ("got " +:+ repr v)
  | LIsSet, _ => Ok unknown
  | _, VNone => Ok unknown
  | LArchAtLeast bound, _ =>
      a ← Arch.parse v;
      if String.eqb (Arch.series a) (Arch.series bound)
      then Ok ("got " +:+ repr_str (Arch.name a))
      else Ok ("got " +:+ repr_str (Arch.name a) +:+ ", which is not "
               +:+ (if bool_decide (first_char (Arch.series bound) ∈ vowels) then "an" else "a")
               +:+ " " +:+ repr_str (Arch.series bound) +:+ " architecture")
  | LArchFamilyIn _, _ =>
      a ← Arch.parse v;
      match Arch.family a with
      | None => Ok ("got " +:+ repr_str (Arch.name a) +:+ ", which has no generation")
      | Some fam => Ok ("got " +:+ repr_str (Arch.name a) +:+ " (generation " +:+ fam +:+ ")")
      end
  | _, _ => Ok ("got " +:+ repr v)
  end.

(** [Leaf.eval] *)
Definition eval_leaf (f : fact) (l : leaf) (fs : facts) : res (option failure) :=
  match lookup_fact fs (f_path f) with
  | None =>
      if is_optional fs (f_path f) then Ok None
      else Ok (Some (Failure (render_leaf f l) (f_path f +:+ " was not provided")))
  | Some raw =>
      v ← normalize (f_kind f) raw;
      b ← leaf_test l v;
      if (b : bool) then Ok None
      else d ← describe_actual f l v; Ok (Some (Failure (render_leaf f l) d))
  end.

(** The early exits of the two-fact [Cmp.eval]: the first fact that is
    missing decides. *)
Definition missing_exit (text : string) (f : fact) (fs : facts) : option (option failure) :=
  match lookup_fact fs (f_path f) with
  | Some _ => None
  | None =>
      Some (if is_optional fs (f_path f) then None
            else Some (Failure text (f_path f +:+ " was not provided")))
  end.

(** [Cmp.eval] with a fact operand *)
Definition eval_cmp_fact (f : fact) (op : cmp_op) (g : fact) (fs : facts)
    : res (option failure) :=
  let text := render (CmpFact f op g) in
  match missing_exit text f fs, missing_exit text g fs with
  | Some r, _ => Ok r
  | None, Some r => Ok r
  | None, None =>
      left ← normalize (f_kind f) (default VNone (lookup_fact fs (f_path f)));
      right ← normalize (f_kind g) (default VNone (lookup_fact fs (f_path g)));
      match left, right with
      | VNone, _ => Ok (Some (Failure text (f_path f +:+ " is unknown")))
      | _, VNone => Ok (Some (Failure text (f_path g +:+ " is unknown")))
      | _, _ =>
          if default false (apply_op op left right) then Ok None
          else Ok (Some (Failure text ("got " +:+ repr left +:+ " vs " +:+ repr right)))
      end
  end.

(** The loops of [And.eval] and [Or.eval] over the children's results, in
    order; the results after the deciding one are not consulted. *)
Fixpoint eval_and (rs : list (res (option failure))) : res (option failure) :=
  match rs with
  | [] => Ok None
  | m :: rs' => r ← m; match r with Some x => Ok (Some x) | None => eval_and rs' end
  end.

Fixpoint eval_or (text : string) (rs : list (res (option failure))) (failures : list failure)
    : res (option failure) :=
  match rs with
  | [] =>
      let details := join "; " (fl_detail <$> failures) in
      Ok (Some (Failure text (if sempty details then "no alternative held" else details)))
  | m :: rs' =>
      r ← m;
      match r with None => Ok None | Some x => eval_or text rs' (failures ++ [x]) end
  end.

(** [Predicate.eval] *)
Fixpoint eval (p : predicate) (fs : facts) : res (option failure) :=
  match p with
  | Const b => Ok (if b then None else Some (Failure (render p) "always false"))
  | Leaf f l => eval_leaf f l fs
  | CmpFact f op g => eval_cmp_fact f op g fs
  | And cs => eval_and (map (λ c, eval c fs) cs)
  | Or cs => eval_or (render p) (map (λ c, eval c fs) cs) []
  | Not c =>
      r ← eval c fs;
      match r with
      | None => Ok (Some (Failure (render p) (render c +:+ " held")))
      | Some _ => Ok None
      end
  | Implies a b =>
      r ← eval a fs;
      match r with
      | Some _ => Ok None
      | None =>
          s ← eval b fs;
          match s with
          | None => Ok None
          | Some x => Ok (Some (Failure (render p) (fl_detail x)))
          end
      end
  end.

(** [Predicate.skipped]: leaves satisfied only because an optional fact is
    absent.  [Or] and [Not] keep the base class's empty tuple. *)
Definition skipped_fact (text : string) (f : fact) (fs : facts) : list skip :=
  match lookup_fact fs (f_path f) with
  | None => if is_optional fs (f_path f) then [Skipped text] else []
  | Some _ => []
  end.

Fixpoint skipped (p : predicate) (fs : facts) : res (list skip) :=
  match p with
  | Leaf f l => Ok (skipped_fact (render_leaf f l) f fs)
  | CmpFact f op g => Ok (skipped_fact (render (CmpFact f op g)) f fs)
  | And cs =>
      (fix go (cs : list predicate) : res (list skip) :=
         match cs with
         | [] => Ok []
         | c :: cs' => x ← skipped c fs; xs ← go cs'; Ok (x ++ xs)
         end) cs
  | Implies a b =>
      r ← eval a fs;
      match r with Some _ => Ok [] | None => skipped b fs end
  | Const _ | Or _ | Not _ => Ok []
  end.

(** [Predicate.facts_used] *)
Fixpoint facts_used (p : predicate) : gset string :=
  match p with
  | Const _ => ∅
  | Leaf f _ => {[ f_path f ]}
  | CmpFact f _ g => {[ f_path f; f_path g ]}
  | And cs | Or cs => ⋃ map facts_used cs
  | Not c => facts_used c
  | Implies a b => facts_used a ∪ facts_used b
  end.

(** ** Constructors *)

(** [And(children)] and [Or(children)] flatten nested nodes of their own
    class (one level: the children were built the same way). *)
Definition and_parts (c : predicate) : list predicate :=
  match c with And ds => ds | _ => [c] end.
Definition or_parts (c : predicate) : list predicate :=
  match c with Or ds => ds | _ => [c] end.

Definition mk_and (cs : list predicate) : predicate := And (mjoin (and_parts <$> cs)).
Definition mk_or (cs : list predicate) : predicate := Or (mjoin (or_parts <$> cs)).

(** [Cmp(fact, op, other)] with a literal and with a fact operand. *)
Definition mk_cmp (f : fact) (op : cmp_op) (other : value) : res predicate :=
  if op_ordered op && negb (kind_ordered (f_kind f)) then Err TypeError
  else v ← normalize (f_kind f) other; Ok (Leaf f (LCmp op v)).

Definition mk_cmp_fact (f : fact) (op : cmp_op) (g : fact) : res predicate :=
  if op_ordered op && negb (kind_ordered (f_kind f)) then Err TypeError
  else Ok (CmpFact f op g).

Definition mk_in (f : fact) (vs : list value) : res predicate :=
  ns ← rmap (normalize (f_kind f)) vs;
  Ok (Leaf f (LIn (py_frozenset ns))).

Definition mk_arch_at_least (f : fact) (bound : value) : res predicate :=
  if negb (bool_decide (f_kind f = ARCH)) then Err TypeError
  else b ← Arch.parse_bound bound; Ok (Leaf f (LArchAtLeast b)).

Definition mk_arch_family_in (f : fact) (families : list value) : res predicate :=
  if negb (bool_decide (f_kind f = ARCH)) then Err TypeError
  else
    fams ← rmap Arch.parse_family families;
    match fams with
    | [] => Err ValueError
    | _ => Ok (Leaf f (LArchFamilyIn (remove_dups fams)))
    end.

Definition mk_mod (f : fact) (modulus remainder : Z) : res predicate :=
  if negb (kind_ordered (f_kind f)) then Err TypeError
  else Ok (Leaf f (LMod modulus remainder)).

(** [(fact % modulus) == remainder] *)
Definition mod_expr_eq (e : mod_expr) (remainder : Z) : res predicate :=
  mk_mod (me_fact e) (me_modulus e) remainder.

Definition mk_set_has (f : fact) (v : value) : predicate :=
  Leaf f (LSetHas (lower (py_str v))).

Definition mk_set_intersects (f : fact) (vs : list value) : predicate :=
  Leaf f (LSetIntersects (list_to_set ((λ v, lower (py_str v)) <$> vs))).

(** [all_of], [any_of], [none_of], [implies], [same], [between] *)
Definition all_of (parts : list predicate) : predicate :=
  match parts with [] => TRUE | _ => mk_and parts end.

Definition any_of (parts : list predicate) : predicate :=
  match parts with [] => FALSE | _ => mk_or parts end.

Definition none_of (parts : list predicate) : predicate := Not (any_of parts).

Definition implies (condition requirement : predicate) : predicate :=
  Implies condition requirement.

Definition same (fs : list fact) : res predicate :=
  match fs with
  | first :: _ :: _ => cs ← rmap (mk_cmp_fact first OEq) (tail fs); Ok (mk_and cs)
  | _ => Err ValueError
  end.

Definition between (f : fact) (low high : Z) : res predicate :=
  a ← mk_cmp f OGe (VInt low);
  b ← mk_cmp f OLe (VInt high);
  Ok (mk_and [a; b]).

(** ** Partial evaluation *)

(** [Leaf.restrict] *)
Definition restrict_leaf (f : fact) (l : leaf) (known : gmap string value) : res predicate :=
  match known !! f_path f with
  | None => Ok (Leaf f l)
  | Some raw =>
      v ← normalize (f_kind f) raw;
      b ← leaf_test l v;
      Ok (Const b)
  end.

(** [Cmp.restrict] with a fact operand *)
Definition restrict_cmp_fact (f : fact) (op : cmp_op) (g : fact) (known : gmap string value)
    : res predicate :=
  match known !! f_path f, known !! f_path g with
  | Some l, Some r =>
      left ← normalize (f_kind f) l;
      right ← normalize (f_kind g) r;
      match left, right with
      | VNone, _ | _, VNone => Ok FALSE
      | _, _ => Ok (Const (default false (apply_op op left right)))
      end
  | _, _ => Ok (CmpFact f op g)
  end.

(** Assemble what is left of a conjunction or a disjunction. *)
Definition rebuild (unit_ : predicate) (mk : list predicate → predicate)
    (kept : list predicate) : predicate :=
  match kept with [] => unit_ | [c] => c | _ => mk kept end.

(** The loops of [And.restrict] and [Or.restrict] over the restricted
    children. *)
Fixpoint restrict_and (rs : list (res predicate)) (kept : list predicate) : res predicate :=
  match rs with
  | [] => Ok (rebuild TRUE mk_and kept)
  | m :: rs' =>
      reduced ← m;
      match reduced with
      | Const b => if b then restrict_and rs' kept else Ok FALSE
      | r => restrict_and rs' (kept ++ [r])
      end
  end.

Fixpoint restrict_or (rs : list (res predicate)) (kept : list predicate) : res predicate :=
  match rs with
  | [] => Ok (rebuild FALSE mk_or kept)
  | m :: rs' =>
      reduced ← m;
      match reduced with
      | Const b => if b then Ok TRUE else restrict_or rs' kept
      | r => restrict_or rs' (kept ++ [r])
      end
  end.

(** The last lines of [Implies.restrict]. *)
Definition reduce_implies (condition requirement : predicate) : predicate :=
  match condition with
  | Const c => if c then requirement else TRUE
  | _ => match requirement with
         | Const true => TRUE
         | _ => Implies condition requirement
         end
  end.

(** [Predicate.restrict] *)
Fixpoint restrict (known : gmap string value) (p : predicate) : res predicate :=
  match p with
  | Const b => Ok (Const b)
  | Leaf f l => restrict_leaf f l known
  | CmpFact f op g => restrict_cmp_fact f op g known
  | And cs => restrict_and (map (restrict known) cs) []
  | Or cs => restrict_or (map (restrict known) cs) []
  | Not c =>
      reduced ← restrict known c;
      match reduced with Const b => Ok (Const (negb b)) | r => Ok (Not r) end
  | Implies a b =>
      condition ← restrict known a;
      requirement ← restrict known b;
      Ok (reduce_implies condition requirement)
  end.

(** ** Policy literals *)

(** A YAML literal: a scalar, or a flat sequence of scalars. *)
Inductive literal : Type := LitVal (v : value) | LitSeq (vs : list value).

(** [_MODULO_RE] on stripped text: ["%"], spaces, digits, and optionally
    ["=="] and digits. *)
Definition modulo_match (text : string) : option (Z * Z) :=
  match text with
  | String c r =>
      if Ascii.eqb c "%" then
        let '(d, r1) := sspan is_digit (lstrip r) in
        let r2 := lstrip r1 in
        m ← digits_to_Z d;
        if at_end r2 then Some (m, 0)
        else if startswith r2 "==" then
          let '(d2, r3) := sspan is_digit (lstrip (sdrop 2 r2)) in
          n ← digits_to_Z d2;
          if at_end r3 then Some (m, n) else None
        else None
      else None
  | EmptyString => None
  end.

(** The operator alternatives of [_COMPARATOR_RE], in the order tried. *)
Definition split_op (text : string) : option cmp_op * string :=
  if startswith text "<=" then (Some OLe, sdrop 2 text)
  else if startswith text ">=" then (Some OGe, sdrop 2 text)
  else if startswith text "==" then (Some OEq, sdrop 2 text)
  else if startswith text "!=" then (Some ONe, sdrop 2 text)
  else if startswith text "<" then (Some OLt, sdrop 1 text)
  else if startswith text ">" then (Some OGt, sdrop 1 text)
  else (None, text).

(** [_COMPARATOR_RE]: an optional operator, spaces, an optional minus sign,
    digits. *)
Definition comparator_match (text : string) : option (option cmp_op * Z) :=
  let '(op, r) := split_op text in
  let r := lstrip r in
  let '(neg, r) := match r with
                   | String c r' => if Ascii.eqb c "-" then (true, r') else (false, r)
                   | EmptyString => (false, r)
                   end in
  let '(d, r') := sspan is_digit r in
  z ← digits_to_Z d;
  if at_end r' then Some (op, if (neg : bool) then - z else z) else None.

Definition is_glob (v : value) : bool :=
  match v with
  | VStr s => sexists (λ c, Ascii.eqb c "*" || Ascii.eqb c "?" || Ascii.eqb c "[") s
  | _ => false
  end.

(** [_arch_comparator] *)
Definition arch_comparator (f : fact) (text : string) : res predicate :=
  if startswith text ">=" then
    let body := strip (sdrop 2 text) in
    if sempty body then Err ValueError else mk_arch_at_least f (VStr body)
  else Err ValueError.

Definition comparison_start (text : string) : bool :=
  startswith text ">" || startswith text "<" || startswith text "=" || startswith text "!".

(** The branches of [predicate_from_literal] that a string literal takes
    before the final equality; [None] falls through to it. *)
Definition string_literal (f : fact) (literal : string) : res (option predicate) :=
  let text := strip literal in
  if bool_decide (f_kind f = ARCH) && comparison_start text then
    p ← arch_comparator f text; Ok (Some p)
  else if kind_ordered (f_kind f) then
    match modulo_match text with
    | Some (m, r) => p ← mk_mod f m r; Ok (Some p)
    | None =>
        match comparator_match text with
        | Some (op, z) => p ← mk_cmp f (default OEq op) (VInt z); Ok (Some p)
        | None => Ok None
        end
    end
  else if is_glob (VStr text) then Err ValueError
  else Ok None.

Definition is_number (v : value) : bool :=
  match v with VBool _ | VInt _ => true | _ => false end.

(** [predicate_from_literal] *)
Definition predicate_from_literal (f : fact) (lit : literal) : res predicate :=
  let sequence (vs : list value) :=
    if bool_decide (f_kind f = STRSET) then Ok (mk_set_intersects f vs)
    else if existsb is_glob vs then Err ValueError
    else mk_in f vs in
  match lit with
  | LitSeq vs => sequence vs
  | LitVal VNone => Ok (Leaf f LIsNone)
  | LitVal (VTup vs) => sequence vs
  | LitVal (VSet s) => sequence (VStr <$> elements s)
  | LitVal v =>
      if bool_decide (f_kind f = STRSET) then Ok (mk_set_has f v)
      else
        special ← match v with VStr s => string_literal f s | _ => Ok None end;
        match special with
        | Some p => Ok p
        | None =>
            if bool_decide (f_kind f = ARCH) && is_number v then Err ValueError
            else mk_cmp f OEq v
        end
  end.

(** ** The boolean meaning of a predicate

    [sat] forgets the failure texts: [Ok true] when the call is accepted,
    [Ok false] when it is rejected, [Err] when evaluation raises.  [outcome_eval]
    shows that [eval] refines it. *)

Lemma predicate_ind' (P : predicate → Prop) :
  (∀ b, P (Const b)) → (∀ f l, P (Leaf f l)) → (∀ f o g, P (CmpFact f o g)) →
  (∀ cs, Forall P cs → P (And cs)) → (∀ cs, Forall P cs → P (Or cs)) →
  (∀ c, P c → P (Not c)) → (∀ a b, P a → P b → P (Implies a b)) → ∀ p, P p.
Proof.
  intros HC HL HF HA HO HN HI. fix IH 1. intros [b|f l|f o g|cs|cs|c|a b].
  - apply HC.
  - apply HL.
  - apply HF.
  - apply HA. induction cs as [|c cs IHcs]; constructor; [apply IH|exact IHcs].
  - apply HO. induction cs as [|c cs IHcs]; constructor; [apply IH|exact IHcs].
  - apply HN, IH.
  - apply HI; apply IH.
Qed.

Definition outcome (r : res (option failure)) : res bool :=
  match r with Ok None => Ok true | Ok (Some _) => Ok false | Err e => Err e end.

Definition sat_leaf (f : fact) (l : leaf) (fs : facts) : res bool :=
  match lookup_fact fs (f_path f) with
  | None => Ok (is_optional fs (f_path f))
  | Some raw => v ← normalize (f_kind f) raw; leaf_test l v
  end.

(** Two known values; [None] compares as a failure. *)
Definition cmp_values (op : cmp_op) (left right : value) : bool :=
  match left, right with
  | VNone, _ | _, VNone => false
  | _, _ => default false (apply_op op left right)
  end.

Definition sat_cmp_fact (f : fact) (op : cmp_op) (g : fact) (fs : facts) : res bool :=
  match lookup_fact fs (f_path f), lookup_fact fs (f_path g) with
  | None, _ => Ok (is_optional fs (f_path f))
  | Some _, None => Ok (is_optional fs (f_path g))
  | Some l, Some r =>
      left ← normalize (f_kind f) l;
      right ← normalize (f_kind g) r;
      Ok (cmp_values op left right)
  end.

(** Short-circuit conjunction and disjunction of a list of tests. *)
Fixpoint sat_all (tests : list (res bool)) : res bool :=
  match tests with
  | [] => Ok true
  | t :: ts => b ← t; if (b : bool) then sat_all ts else Ok false
  end.

Fixpoint sat_any (tests : list (res bool)) : res bool :=
  match tests with
  | [] => Ok false
  | t :: ts => b ← t; if (b : bool) then Ok true else sat_any ts
  end.

Fixpoint sat (p : predicate) (fs : facts) : res bool :=
  match p with
  | Const b => Ok b
  | Leaf f l => sat_leaf f l fs
  | CmpFact f op g => sat_cmp_fact f op g fs
  | And cs => sat_all (map (λ c, sat c fs) cs)
  | Or cs => sat_any (map (λ c, sat c fs) cs)
  | Not c => b ← sat c fs; Ok (negb b)
  | Implies a b => x ← sat a fs; if (x : bool) then sat b fs else Ok true
  end.

Lemma describe_ok f l v : leaf_test l v = Ok false → ∃ d, describe_actual f l v = Ok d.
Proof.
  destruct l, v; simpl; eauto; unfold arch_test; destruct (Arch.parse _) as [a|]; simpl; try done;
    intros _; repeat case_match; eauto.
Qed.

Lemma outcome_eval_leaf f l fs : outcome (eval_leaf f l fs) = sat_leaf f l fs.
Proof.
  unfold eval_leaf, sat_leaf. destruct (lookup_fact fs (f_path f)) as [raw|].
  - destruct (normalize (f_kind f) raw) as [v|]; simpl; [|done].
    destruct (leaf_test l v) as [[]|] eqn:Ht; simpl; [done| |done].
    by destruct (describe_ok f l v Ht) as [d ->].
  - by destruct (is_optional fs (f_path f)).
Qed.

Lemma outcome_eval_cmp_fact f op g fs :
  outcome (eval_cmp_fact f op g fs) = sat_cmp_fact f op g fs.
Proof.
  unfold eval_cmp_fact, sat_cmp_fact, missing_exit.
  destruct (lookup_fact fs (f_path f)) as [l|]; [|by destruct (is_optional fs (f_path f))].
  destruct (lookup_fact fs (f_path g)) as [r|]; [|by destruct (is_optional fs (f_path g))].
  cbn [default from_option id]. destruct (normalize (f_kind f) l) as [left|]; simpl; [|done].
  destruct (normalize (f_kind g) r) as [right|]; simpl; [|done].
  unfold cmp_values. destruct left, right; simpl; try done;
    by destruct (default false _).
Qed.

(** [eval] accepts, rejects and raises exactly as [sat] says. *)
Lemma outcome_eval (p : predicate) (fs : facts) : outcome (eval p fs) = sat p fs.
Proof.
  induction p as [b|f l|f o g|cs IH|cs IH|c IH|a b IHa IHb] using predicate_ind'.
  - by destruct b.
  - apply outcome_eval_leaf.
  - apply outcome_eval_cmp_fact.
  - simpl. induction IH as [|c cs Hc _ IH]; simpl; [done|]. rewrite <-Hc.
    by destruct (eval c fs) as [[x|]|]; simpl; [|exact IH|].
  - cbn [eval sat]. generalize (render (Or cs)) (@nil failure). intros text failures.
    revert failures. induction IH as [|c cs Hc _ IH]; intros failures; simpl; [done|].
    rewrite <-Hc. by destruct (eval c fs) as [[x|]|]; simpl; [apply IH|..].
  - simpl. rewrite <-IH. by destruct (eval c fs) as [[x|]|].
  - simpl. rewrite <-IHa, <-IHb. destruct (eval a fs) as [[x|]|]; simpl; [done| |done].
    by destruct (eval b fs) as [[x|]|].
Qed.

Lemma eval_none_sat p fs : eval p fs = Ok None ↔ sat p fs = Ok true.
Proof.
  rewrite <-outcome_eval. destruct (eval p fs) as [[x|]|]; simpl; split; congruence.
Qed.

(** C25: evaluation with reported failures refines the boolean reading of a
    predicate: it accepts exactly where [sat] is true, reports a failure
    exactly where [sat] is false, and raises exactly the exceptions [sat]
    raises, short circuits included. *)
Theorem eval_refines_sat (p : predicate) (fs : facts) :
  (eval p fs = Ok None ↔ sat p fs = Ok true)
  ∧ ((∃ x, eval p fs = Ok (Some x)) ↔ sat p fs = Ok false)
  ∧ (∀ e, eval p fs = Err e ↔ sat p fs = Err e).
Proof.
  rewrite <-outcome_eval. destruct (eval p fs) as [[x|]|e]; simpl; naive_solver.
Qed.

(** ** Only the facts used matter *)

Lemma facts_used_child c cs : c ∈ cs → facts_used c ⊆ ⋃ map facts_used cs.
Proof.
  intros Hc x Hx. apply elem_of_union_list. exists (facts_used c). split; [|done].
  apply list_elem_of_fmap. by exists c.
Qed.

Definition same_fact (fs1 fs2 : facts) (path : string) : Prop :=
  lookup_fact fs1 path = lookup_fact fs2 path
  ∧ is_optional fs1 path = is_optional fs2 path.

Lemma map_children {A} (h : predicate → facts → A) (cs : list predicate) fs1 fs2 :
  Forall (λ c, (∀ path, path ∈ facts_used c → same_fact fs1 fs2 path) →
               h c fs1 = h c fs2) cs →
  (∀ path, path ∈ ⋃ map facts_used cs → same_fact fs1 fs2 path) →
  map (λ c, h c fs1) cs = map (λ c, h c fs2) cs.
Proof.
  intros IH H. apply Forall_fmap_ext_1. apply Forall_forall. intros c Hc.
  rewrite Forall_forall in IH. apply IH; [done|]. intros path Hp.
  apply H. by apply (facts_used_child c cs).
Qed.

Lemma eval_agree (p : predicate) (fs1 fs2 : facts) :
  (∀ path, path ∈ facts_used p → same_fact fs1 fs2 path) →
  eval p fs1 = eval p fs2.
Proof.
  induction p as [b|f l|f o g|cs IH|cs IH|c IH|a b IHa IHb] using predicate_ind'; intros H.
  - done.
  - destruct (H (f_path f) ltac:(set_solver)) as [Hl Ho]. simpl. unfold eval_leaf.
    by rewrite Hl, Ho.
  - destruct (H (f_path f) ltac:(set_solver)) as [Hl Ho].
    destruct (H (f_path g) ltac:(set_solver)) as [Hl' Ho']. simpl.
    unfold eval_cmp_fact, missing_exit. by rewrite Hl, Ho, Hl', Ho'.
  - simpl. f_equal. by apply (map_children eval).
  - cbn [eval]. f_equal. by apply (map_children eval).
  - simpl. by rewrite IH.
  - simpl in *. rewrite IHa by set_solver. destruct (eval a fs2) as [[x|]|]; simpl; try done.
    by rewrite IHb by set_solver.
Qed.

Lemma skipped_agree (p : predicate) (fs1 fs2 : facts) :
  (∀ path, path ∈ facts_used p → same_fact fs1 fs2 path) →
  skipped p fs1 = skipped p fs2.
Proof.
  induction p as [b|f l|f o g|cs IH|cs IH|c IH|a b IHa IHb] using predicate_ind'; intros H;
    simpl; try done.
  - destruct (H (f_path f) ltac:(set_solver)) as [Hl Ho]. unfold skipped_fact. by rewrite Hl, Ho.
  - destruct (H (f_path f) ltac:(set_solver)) as [Hl Ho]. unfold skipped_fact. by rewrite Hl, Ho.
  - induction IH as [|c cs Hc _ IH]; [done|]. simpl in H.
    rewrite Hc by set_solver. destruct (skipped c fs2); [|done]. simpl.
    rewrite IH; [done|]. intros path Hp. apply H. simpl. set_solver.
  - simpl in H. rewrite (eval_agree a fs1 fs2) by set_solver. by rewrite IHb by set_solver.
Qed.

(** The full evaluation, failure texts and skipped leaves included,
    reads nothing but [facts_used]: two calls that agree on those paths get
    the same verdict.  The memo keys of call sites rest on this set. *)
Theorem eval_facts_used (p : predicate) (fs1 fs2 : facts) :
  (∀ path, path ∈ facts_used p → same_fact fs1 fs2 path) →
  eval p fs1 = eval p fs2 ∧ skipped p fs1 = skipped p fs2.
Proof. intros H. split; [by apply eval_agree|by apply skipped_agree]. Qed.

(** ** Partial evaluation is sound *)

Lemma sat_all_app l k :
  sat_all (l ++ k) = b ← sat_all l; if (b : bool) then sat_all k else Ok false.
Proof. induction l as [|[[]|] l IH]; simpl; done. Qed.

Lemma sat_any_app l k :
  sat_any (l ++ k) = b ← sat_any l; if (b : bool) then Ok true else sat_any k.
Proof. induction l as [|[[]|] l IH]; simpl; done. Qed.

(** Replacing one test by another that has the same result whenever the first
    has one. *)
Lemma sat_all_replace l t t' k r :
  (∀ b, t = Ok b → t' = Ok b) → sat_all (l ++ t :: k) = Ok r → sat_all (l ++ t' :: k) = Ok r.
Proof.
  intros Ht. rewrite !sat_all_app. destruct (sat_all l) as [[]|]; simpl; try done.
  intros H. inv_bind. by rewrite (Ht _ H).
Qed.

Lemma sat_any_replace l t t' k r :
  (∀ b, t = Ok b → t' = Ok b) → sat_any (l ++ t :: k) = Ok r → sat_any (l ++ t' :: k) = Ok r.
Proof.
  intros Ht. rewrite !sat_any_app. destruct (sat_any l) as [[]|]; simpl; try done.
  intros H. inv_bind. by rewrite (Ht _ H).
Qed.

Lemma sat_all_cases l k r b :
  sat_all (l ++ Ok b :: k) = Ok r →
  if (b : bool) then sat_all (l ++ k) = Ok r else r = false.
Proof.
  rewrite sat_all_app. destruct b; rewrite ?sat_all_app; destruct (sat_all l) as [[]|]; simpl;
    congruence.
Qed.

Lemma sat_any_cases l k r b :
  sat_any (l ++ Ok b :: k) = Ok r →
  if (b : bool) then r = true else sat_any (l ++ k) = Ok r.
Proof.
  rewrite sat_any_app. destruct b; rewrite ?sat_any_app; destruct (sat_any l) as [[]|]; simpl;
    congruence.
Qed.

Abbreviation sats cs fs := (map (λ c, sat c fs) cs).

Lemma sat_all_one t : sat_all [t] = t.
Proof. by destruct t as [[]|]. Qed.

Lemma sat_any_one t : sat_any [t] = t.
Proof. by destruct t as [[]|]. Qed.

Lemma sat_all_parts c fs : sat_all (sats (and_parts c) fs) = sat c fs.
Proof. destruct c; try apply sat_all_one. done. Qed.

Lemma sat_any_parts c fs : sat_any (sats (or_parts c) fs) = sat c fs.
Proof. destruct c; try apply sat_any_one. done. Qed.

Lemma sat_mk_and cs fs : sat (mk_and cs) fs = sat_all (sats cs fs).
Proof.
  change (sat_all (sats (mjoin (and_parts <$> cs)) fs) = sat_all (sats cs fs)).
  induction cs as [|c cs IH]; [done|].
  change (mjoin (and_parts <$> c :: cs)) with (and_parts c ++ mjoin (and_parts <$> cs)).
  by rewrite map_app, sat_all_app, sat_all_parts, IH.
Qed.

Lemma sat_mk_or cs fs : sat (mk_or cs) fs = sat_any (sats cs fs).
Proof.
  change (sat_any (sats (mjoin (or_parts <$> cs)) fs) = sat_any (sats cs fs)).
  induction cs as [|c cs IH]; [done|].
  change (mjoin (or_parts <$> c :: cs)) with (or_parts c ++ mjoin (or_parts <$> cs)).
  by rewrite map_app, sat_any_app, sat_any_parts, IH.
Qed.

Lemma sat_rebuild_and cs fs : sat (rebuild TRUE mk_and cs) fs = sat_all (sats cs fs).
Proof.
  destruct cs as [|c [|d cs]]; [done| |apply sat_mk_and].
  symmetry. apply sat_all_one.
Qed.

Lemma sat_rebuild_or cs fs : sat (rebuild FALSE mk_or cs) fs = sat_any (sats cs fs).
Proof.
  destruct cs as [|c [|d cs]]; [done| |apply sat_mk_or].
  symmetry. apply sat_any_one.
Qed.

(** What is known agrees with what the call supplies. *)
Definition agrees (known : gmap string value) (fs : facts) : Prop :=
  ∀ path v, known !! path = Some v → lookup_fact fs path = Some v.

(** [q] stands for [p] on [fs]. *)
Definition stands_for (fs : facts) (p q : predicate) : Prop :=
  ∀ r, sat p fs = Ok r → sat q fs = Ok r.

Lemma restrict_and_sound known fs cs kept q r :
  Forall (λ c, ∀ q, restrict known c = Ok q → stands_for fs c q) cs →
  restrict_and (map (restrict known) cs) kept = Ok q →
  sat_all (sats (kept ++ cs) fs) = Ok r → sat q fs = Ok r.
Proof.
  intros IH. revert kept. induction IH as [|c cs Hc _ IH]; intros kept; simpl.
  { intros [= <-]. by rewrite app_nil_r, sat_rebuild_and. }
  intros H Hr. destruct (restrict known c) as [x|] eqn:Hx; simpl in H; [|done].
  rewrite map_app in Hr; simpl in Hr. specialize (Hc _ eq_refl).
  apply (sat_all_replace _ _ _ _ _ Hc) in Hr.
  destruct x as [b|f l|f o g|ds|ds|d|d1 d2];
    try (apply (IH _ H); rewrite <-app_assoc, map_app; exact Hr).
  simpl in Hr. apply sat_all_cases in Hr. destruct b.
  - apply (IH _ H). rewrite map_app. exact Hr.
  - by injection H as <-; subst.
Qed.

Lemma restrict_or_sound known fs cs kept q r :
  Forall (λ c, ∀ q, restrict known c = Ok q → stands_for fs c q) cs →
  restrict_or (map (restrict known) cs) kept = Ok q →
  sat_any (sats (kept ++ cs) fs) = Ok r → sat q fs = Ok r.
Proof.
  intros IH. revert kept. induction IH as [|c cs Hc _ IH]; intros kept; simpl.
  { intros [= <-]. by rewrite app_nil_r, sat_rebuild_or. }
  intros H Hr. destruct (restrict known c) as [x|] eqn:Hx; simpl in H; [|done].
  rewrite map_app in Hr; simpl in Hr. specialize (Hc _ eq_refl).
  apply (sat_any_replace _ _ _ _ _ Hc) in Hr.
  destruct x as [b|f l|f o g|ds|ds|d|d1 d2];
    try (apply (IH _ H); rewrite <-app_assoc, map_app; exact Hr).
  simpl in Hr. apply sat_any_cases in Hr. destruct b.
  - by injection H as <-; subst.
  - apply (IH _ H). rewrite map_app. exact Hr.
Qed.

Lemma restrict_leaf_sound known fs f l q : agrees known fs →
  restrict_leaf f l known = Ok q → stands_for fs (Leaf f l) q.
Proof.
  unfold restrict_leaf. intros Hag H r. destruct (known !! f_path f) as [raw|] eqn:Hk;
    [|by injection H as <-].
  simpl. unfold sat_leaf. rewrite (Hag _ _ Hk).
  destruct (normalize (f_kind f) raw) as [v|]; simpl in *; [|done].
  by destruct (leaf_test l v) as [b|]; simpl in *; [injection H as <-|].
Qed.

Lemma restrict_cmp_fact_sound known fs f op g q : agrees known fs →
  restrict_cmp_fact f op g known = Ok q → stands_for fs (CmpFact f op g) q.
Proof.
  unfold restrict_cmp_fact. intros Hag H r.
  destruct (known !! f_path f) as [l|] eqn:Hl; [|by injection H as <-].
  destruct (known !! f_path g) as [m|] eqn:Hm; [|by injection H as <-].
  simpl. unfold sat_cmp_fact. rewrite (Hag _ _ Hl), (Hag _ _ Hm).
  destruct (normalize (f_kind f) l) as [left|]; simpl in *; [|done].
  destruct (normalize (f_kind g) m) as [right|]; simpl in *; [|done].
  unfold cmp_values. intros [= <-].
  by destruct left, right; simpl in *; injection H as <-.
Qed.

Lemma reduce_implies_sat x y fs u r :
  sat x fs = Ok u → (if u then sat y fs = Ok r else r = true) →
  sat (reduce_implies x y) fs = Ok r.
Proof.
  intros Hx Hy. assert (Himp : sat (Implies x y) fs = Ok r).
  { simpl. rewrite Hx; simpl. destruct u; congruence. }
  destruct x as [c| | | | | |]; [simpl in *; injection Hx as ->; by destruct u; simplify_eq|..].
  all: destruct y as [[]| | | | | |]; try exact Himp; destruct u; simpl in *; congruence.
Qed.

Lemma restrict_stands_for known fs p q : agrees known fs →
  restrict known p = Ok q → stands_for fs p q.
Proof.
  intros Hag. revert q.
  induction p as [b|f l|f o g|cs IH|cs IH|c IH|a b IHa IHb] using predicate_ind'; intros q H.
  - simpl in H. injection H as <-. by intros r.
  - by apply (restrict_leaf_sound known).
  - by apply (restrict_cmp_fact_sound known).
  - intros r. by apply (restrict_and_sound known fs cs [] q r IH).
  - intros r. by apply (restrict_or_sound known fs cs [] q r IH).
  - simpl in H. destruct (restrict known c) as [x|]; simpl in H; [|done].
    assert (Hc := IH _ eq_refl). intros r Hr. simpl in Hr.
    destruct (sat c fs) as [y|] eqn:Hy; simpl in Hr; [|done]. injection Hr as <-.
    specialize (Hc _ Hy). destruct x; injection H as <-; simpl in *;
      try injection Hc as ->; rewrite ?Hc; done.
  - simpl in H. destruct (restrict known a) as [x|]; simpl in H; [|done].
    destruct (restrict known b) as [y|]; simpl in H; [|done]. injection H as <-.
    assert (Ha := IHa _ eq_refl). assert (Hb := IHb _ eq_refl).
    intros r Hr. simpl in Hr. destruct (sat a fs) as [u|] eqn:Hu; simpl in Hr; [|done].
    apply (reduce_implies_sat _ _ _ u); [by apply Ha|].
    destruct u; [by apply Hb|congruence].
Qed.

(** Nothing new is read by what is left. *)
Lemma facts_used_mk_and cs : facts_used (mk_and cs) ⊆ ⋃ map facts_used cs.
Proof.
  unfold mk_and. simpl. induction cs as [|c cs IH]; [done|].
  change (mjoin (and_parts <$> c :: cs)) with (and_parts c ++ mjoin (and_parts <$> cs)).
  rewrite map_app, union_list_app. simpl. apply union_mono; [|done].
  destruct c; simpl; set_solver.
Qed.

Lemma facts_used_mk_or cs : facts_used (mk_or cs) ⊆ ⋃ map facts_used cs.
Proof.
  unfold mk_or. simpl. induction cs as [|c cs IH]; [done|].
  change (mjoin (or_parts <$> c :: cs)) with (or_parts c ++ mjoin (or_parts <$> cs)).
  rewrite map_app, union_list_app. simpl. apply union_mono; [|done].
  destruct c; simpl; set_solver.
Qed.

Lemma facts_used_rebuild u mk cs :
  facts_used u = ∅ → (∀ ds, facts_used (mk ds) ⊆ ⋃ map facts_used ds) →
  facts_used (rebuild u mk cs) ⊆ ⋃ map facts_used cs.
Proof.
  intros Hu Hmk. destruct cs as [|c [|d cs]]; simpl; [by rewrite Hu|set_solver|apply Hmk].
Qed.

Lemma restrict_and_used rs (X : gset string) kept q :
  Forall (λ m, ∀ c, m = Ok c → facts_used c ⊆ X) rs →
  restrict_and rs kept = Ok q → facts_used q ⊆ X ∪ ⋃ map facts_used kept.
Proof.
  intros H. revert kept. induction H as [|m rs Hm _ IH]; intros kept; simpl.
  { intros [= <-]. etrans; [by apply facts_used_rebuild, facts_used_mk_and|set_solver]. }
  destruct m as [c|]; simpl; [|done]. specialize (Hm _ eq_refl). intros Hq.
  destruct c as [[]| | | | | |]; try (apply IH in Hq; [done|exact H]).
  2: { injection Hq as <-. simpl. set_solver. }
  all: first [by apply IH in Hq
             |apply IH in Hq; rewrite map_app, union_list_app in Hq; cbn [map foldr] in Hq;
              etrans; [exact Hq|]; simpl in *; set_solver].
Qed.

Lemma restrict_or_used rs (X : gset string) kept q :
  Forall (λ m, ∀ c, m = Ok c → facts_used c ⊆ X) rs →
  restrict_or rs kept = Ok q → facts_used q ⊆ X ∪ ⋃ map facts_used kept.
Proof.
  intros H. revert kept. induction H as [|m rs Hm _ IH]; intros kept; simpl.
  { intros [= <-]. etrans; [by apply facts_used_rebuild, facts_used_mk_or|set_solver]. }
  destruct m as [c|]; simpl; [|done]. specialize (Hm _ eq_refl). intros Hq.
  destruct c as [[]| | | | | |].
  1: { injection Hq as <-. simpl. set_solver. }
  all: first [by apply IH in Hq
             |apply IH in Hq; rewrite map_app, union_list_app in Hq; cbn [map foldr] in Hq;
              etrans; [exact Hq|]; simpl in *; set_solver].
Qed.

Lemma restrict_used known p q :
  restrict known p = Ok q → facts_used q ⊆ facts_used p.
Proof.
  revert q.
  induction p as [b|f l|f o g|cs IH|cs IH|c IH|a b IHa IHb] using predicate_ind'; intros q H.
  - simpl in H. by injection H as <-.
  - simpl in H. unfold restrict_leaf in H. destruct (known !! f_path f) as [v|].
    + inv_bind. set_solver.
    + by injection H as <-.
  - simpl in H. unfold restrict_cmp_fact in H.
    destruct (known !! f_path f); [|by injection H as <-].
    destruct (known !! f_path g); [|by injection H as <-].
    destruct (normalize (f_kind f) v) as [x|]; simpl in H; [|done].
    destruct (normalize (f_kind g) v0) as [y|]; simpl in H; [|done].
    destruct x, y; injection H as <-; set_solver.
  - simpl in H. apply (restrict_and_used _ (facts_used (And cs))) in H; [set_solver|].
    apply Forall_forall. intros m (c & -> & Hc)%list_elem_of_fmap d Hd.
    rewrite Forall_forall in IH. etrans; [by apply (IH c Hc)|]. by apply facts_used_child.
  - simpl in H. apply (restrict_or_used _ (facts_used (Or cs))) in H; [set_solver|].
    apply Forall_forall. intros m (c & -> & Hc)%list_elem_of_fmap d Hd.
    rewrite Forall_forall in IH. etrans; [by apply (IH c Hc)|]. by apply facts_used_child.
  - simpl in H. destruct (restrict known c) as [x|]; simpl in H; [|done].
    specialize (IH _ eq_refl). destruct x; injection H as <-; simpl in *; set_solver.
  - simpl in H. destruct (restrict known a) as [x|]; simpl in H; [|done].
    destruct (restrict known b) as [y|]; simpl in H; [|done]. injection H as <-.
    specialize (IHa _ eq_refl). specialize (IHb _ eq_refl). unfold reduce_implies.
    destruct x as [[]| | | | | |]; simpl in *; try destruct y as [[]| | | | | |]; simpl in *;
      set_solver.
Qed.

(** C26: partial evaluation is sound.  When the known values agree with the
    call, whatever verdict the predicate reaches on the call (accept or
    reject), the restricted predicate reaches too, and it reads no new fact;
    in particular a predicate that restricts to FALSE rejects every such call
    it can evaluate. *)
Theorem restrict_sound known fs p q :
  agrees known fs → restrict known p = Ok q →
  (∀ r, outcome (eval p fs) = Ok r → outcome (eval q fs) = Ok r)
  ∧ facts_used q ⊆ facts_used p
  ∧ (is_false q = true → eval p fs ≠ Ok None).
Proof.
  intros Hag H. pose proof (restrict_stands_for _ _ _ _ Hag H) as Hs.
  split_and!; [intros r; rewrite !outcome_eval; apply Hs|by apply restrict_used with known|].
  intros Hf Hn%eval_none_sat. apply Hs in Hn. by destruct q as [[]| | | | | |].
Qed.

Definition known_vendor : gmap string value := {[ "device.vendor" := VStr "AMD" ]}.
Definition amd_call : facts :=
  Facts (<["shape.m" := VInt 24]> known_vendor) {[ "dtype.bias" ]}.
Definition nvidia_or_aligned : predicate :=
  mk_or [Leaf fact_device_vendor (LCmp OEq (VStr "nvidia"));
         mk_and [Leaf (fact_shape "m") (LMod 8 0);
                 Leaf fact_device_vendor (LIn [VStr "amd"])]].

Lemma restrict_sound_witness :
  restrict known_vendor nvidia_or_aligned = Ok (Leaf (fact_shape "m") (LMod 8 0))
  ∧ ∀ r, outcome (eval nvidia_or_aligned amd_call) = Ok r →
         outcome (eval (Leaf (fact_shape "m") (LMod 8 0)) amd_call) = Ok r.
Proof.
  split; [by vm_compute|].
  refine (proj1 (restrict_sound known_vendor amd_call nvidia_or_aligned _ _ _)); [|by vm_compute].
  intros path v H. unfold known_vendor in H. apply lookup_singleton_Some in H as [<- <-].
  by vm_compute.
Defined.

Lemma eval_facts_used_witness :
  eval nvidia_or_aligned amd_call
    = eval nvidia_or_aligned (Facts (<["shape.n" := VInt 5]> (values amd_call)) ∅)
  ∧ skipped nvidia_or_aligned amd_call
    = skipped nvidia_or_aligned (Facts (<["shape.n" := VInt 5]> (values amd_call)) ∅).
Proof.
  apply eval_facts_used. intros path Hp.
  assert (path = "device.vendor" ∨ path = "shape.m") as [->| ->].
  { revert Hp. unfold nvidia_or_aligned. simpl. set_solver. }
  all: split; by vm_compute.
Defined.

(** ** Literals and rendering *)

Lemma split_op_text o (t : string) :
  split_op (op_text o +:+ " " +:+ t) = (Some o, " " +:+ t).
Proof. by destruct o. Qed.

Lemma lstrip_space t : sforall nonspace t = true → lstrip (" " +:+ t) = t.
Proof. intros H. by apply (lstrip_nonspace t) in H. Qed.

Lemma comparator_text o z :
  comparator_match (op_text o +:+ " " +:+ z_to_string z) = Some (Some o, z).
Proof.
  unfold comparator_match. rewrite split_op_text.
  rewrite lstrip_space by apply z_to_string_nonspace.
  destruct (z_to_string_parts z) as (neg & d & -> & ->).
  pose proof (sspan_all _ _ (uint_text_digits d)) as Hs.
  pose proof (uint_text_to_Z d) as Hz.
  destruct neg.
  - change (sign_text true +:+ uint_text d) with (String "-" (uint_text d)).
    cbv iota beta. change (Ascii.eqb "-" "-") with true. cbv iota. rewrite Hs. cbv iota.
    by rewrite Hz.
  - change (sign_text false +:+ uint_text d) with (uint_text d).
    pose proof (uint_text_digits d) as Hd.
    destruct (uint_text_cons d) as (c & s & Hc & _). rewrite Hc in *.
    cbv iota beta. destruct (digits_head _ _ Hd) as [-> _]. cbv iota. rewrite Hs. cbv iota.
    by rewrite Hz.
Qed.

Lemma modulo_comparator o z : modulo_match (op_text o +:+ " " +:+ z_to_string z) = None.
Proof. by destruct o. Qed.

Lemma strip_comparator o z :
  strip (op_text o +:+ " " +:+ z_to_string z) = op_text o +:+ " " +:+ z_to_string z.
Proof.
  destruct (z_to_string_nonspace z) as [Hs He].
  by destruct o; rewrite <-(sapp_assoc _ " "); apply strip_app.
Qed.

Lemma modulo_text m r : 0 ≤ m → 0 ≤ r →
  modulo_match ("% " +:+ z_to_string m +:+ " == " +:+ z_to_string r) = Some (m, r).
Proof.
  intros (dm & -> & Hm)%z_to_string_nonneg (dr & -> & Hr)%z_to_string_nonneg.
  change ("% " +:+ uint_text dm +:+ " == " +:+ uint_text dr)
    with (String "%" (" " +:+ (uint_text dm +:+ " == " +:+ uint_text dr))).
  unfold modulo_match. change (Ascii.eqb "%" "%") with true. cbv iota.
  destruct (uint_text_cons dm) as (c & s & Hc & Hd).
  replace (lstrip (" " +:+ (uint_text dm +:+ " == " +:+ uint_text dr)))
    with (uint_text dm +:+ " == " +:+ uint_text dr).
  2: { rewrite Hc. symmetry. change (lstrip (String c (s +:+ " == " +:+ uint_text dr)) =
         String c (s +:+ " == " +:+ uint_text dr)). by apply lstrip_head, digit_nonspace. }
  rewrite (sspan_app _ _ _ " " ("== " +:+ uint_text dr)); [|apply uint_text_digits|done|done].
  cbv iota. rewrite uint_text_to_Z. cbn [mbind option_bind]. 
  change (lstrip (" == " +:+ uint_text dr)) with ("== " +:+ uint_text dr).
  change (at_end ("== " +:+ uint_text dr)) with false.
  change (startswith ("== " +:+ uint_text dr) "==") with true. cbv iota.
  change (sdrop 2 ("== " +:+ uint_text dr)) with (" " +:+ uint_text dr).
  rewrite lstrip_space by apply uint_text_nonspace.
  rewrite sspan_all by apply uint_text_digits. cbv iota. rewrite uint_text_to_Z.
  by rewrite Hm, Hr.
Qed.

(** What a comparison prints after its fact's path. *)
Definition cmp_literal (op : cmp_op) (z : Z) : string := op_text op +:+ " " +:+ z_to_string z.
Definition mod_literal (m r : Z) : string :=
  "% " +:+ z_to_string m +:+ " == " +:+ z_to_string r.

Lemma cmp_literal_compiles f op z : f_kind f = INT →
  predicate_from_literal f (LitVal (VStr (cmp_literal op z))) = Ok (Leaf f (LCmp op (VInt z))).
Proof.
  intros Hk. unfold predicate_from_literal. rewrite Hk. cbn [bool_decide decide_rel].
  rewrite bool_decide_eq_false_2 by done. unfold string_literal, cmp_literal.
  rewrite strip_comparator, Hk. rewrite (bool_decide_eq_false_2 (INT = ARCH)) by done.
  cbn [andb]. change (kind_ordered INT) with true. cbv iota.
  rewrite modulo_comparator, comparator_text. unfold mk_cmp. rewrite Hk.
  by destruct op.
Qed.

Lemma mod_literal_compiles f m r : f_kind f = INT → 0 ≤ m → 0 ≤ r →
  predicate_from_literal f (LitVal (VStr (mod_literal m r))) = Ok (Leaf f (LMod m r)).
Proof.
  intros Hk Hm Hr. unfold predicate_from_literal. rewrite Hk.
  rewrite bool_decide_eq_false_2 by done. unfold string_literal.
  replace (strip (mod_literal m r)) with (mod_literal m r).
  2: { destruct (z_to_string_nonspace r) as [Hs He]. symmetry. unfold mod_literal.
       change ("% " +:+ z_to_string m +:+ " == " +:+ z_to_string r)
         with (String "%" (String " " (z_to_string m +:+ (" == " +:+ z_to_string r)))).
       rewrite <-sapp_assoc.
       exact (strip_app "%" (" " +:+ z_to_string m +:+ " == ") _ eq_refl Hs He). }
  rewrite Hk. rewrite (bool_decide_eq_false_2 (INT = ARCH)) by done.
  cbn [andb]. change (kind_ordered INT) with true. cbv iota.
  unfold mod_literal. rewrite (modulo_text _ _ Hm Hr). unfold mk_mod. by rewrite Hk.
Qed.

(** The policy notation for integer facts inverts the rendering: a
    comparison or a divisibility test renders as its fact's path, a space and
    a text which, given back as a policy literal for that fact, compiles to
    the same predicate. *)
Theorem literal_roundtrip f op z m r :
  f_kind f = INT → 0 ≤ m → 0 ≤ r →
  (render (Leaf f (LCmp op (VInt z))) = f_path f +:+ " " +:+ cmp_literal op z
   ∧ predicate_from_literal f (LitVal (VStr (cmp_literal op z))) = Ok (Leaf f (LCmp op (VInt z))))
  ∧ (render (Leaf f (LMod m r)) = f_path f +:+ " " +:+ mod_literal m r
     ∧ predicate_from_literal f (LitVal (VStr (mod_literal m r))) = Ok (Leaf f (LMod m r))).
Proof.
  intros Hk Hm Hr.
  split; (split; [done|by first [apply cmp_literal_compiles|apply mod_literal_compiles]]).
Qed.

Lemma literal_roundtrip_witness :
  predicate_from_literal (fact_shape "m") (LitVal (VStr ">= -16"))
    = Ok (Leaf (fact_shape "m") (LCmp OGe (VInt (-16))))
  ∧ predicate_from_literal (fact_shape "m") (LitVal (VStr "% 8 == 0"))
    = Ok (Leaf (fact_shape "m") (LMod 8 0)).
Proof.
  destruct (literal_roundtrip (fact_shape "m") OGe (-16) 8 0 eq_refl) as [[_ H1] [_ H2]];
    [lia|lia|]. exact (conj H1 H2).
Defined.

(** The policy notation has no guard on the modulus, while the
    expression [fact % modulus] has one: the literal ["% 0"] compiles on an
    integer fact, and every call that supplies the fact then raises
    [ZeroDivisionError] where a rejection is meant. *)
Theorem zero_modulus_literal f v z :
  f_kind f = INT → normalize INT v = Ok (VInt z) →
  ∃ p, predicate_from_literal f (LitVal (VStr "% 0")) = Ok p
       ∧ mk_mod_expr f 0 = Err ValueError
       ∧ ∀ fs, lookup_fact fs (f_path f) = Some v → eval p fs = Err ZeroDivisionError.
Proof.
  intros Hk Hv. exists (Leaf f (LMod 0 0)). split_and!; [|done|].
  - unfold predicate_from_literal, string_literal, mk_mod. rewrite Hk. by vm_compute.
  - intros fs Hl. simpl. unfold eval_leaf. by rewrite Hl, Hk, Hv.
Qed.

Lemma zero_modulus_literal_witness :
  ∃ p, predicate_from_literal (fact_shape "k") (LitVal (VStr "% 0")) = Ok p
       ∧ mk_mod_expr (fact_shape "k") 0 = Err ValueError
       ∧ ∀ fs, lookup_fact fs "shape.k" = Some (VInt 64) → eval p fs = Err ZeroDivisionError.
Proof. exact (zero_modulus_literal (fact_shape "k") (VInt 64) 64 eq_refl eq_refl). Defined.
