(* ===== verification/Kinds.v ===== *)
(** * Predicates that respect Python's equality

    A cached selection is found by a key compared with [==], for which [True]
    is [1] and [False] is [0].  This file isolates the predicates whose verdict
    cannot tell such values apart: those that read attributes and signature
    fields with the kind [ANY] and without an order.  Every capability built
    from the namespaces of [kernel/facts.py] and every compiled policy
    condition has this shape. *)

From S2P Require Export Predicate.
From Stdlib Require Import Ascii String.
From stdpp Require Import options.

(** A leaf that may read a value known only up to [==]. *)
Definition loose_leaf (l : leaf) : bool :=
  match l with
  | LCmp op _ => negb (op_ordered op)
  | LIn _ | LIsNone | LIsSet | LIsTruthy | LSetHas _ | LSetIntersects _ => true
  | LArchAtLeast _ | LArchFamilyIn _ | LMod _ _ => false
  end.

Definition strict_or_any (f : fact) : bool :=
  negb (loose_path (f_path f)) || bool_decide (f_kind f = ANY).

Fixpoint well_kinded (p : predicate) : bool :=
  match p with
  | Const _ => true
  | Leaf f l => negb (loose_path (f_path f)) || (bool_decide (f_kind f = ANY) && loose_leaf l)
  | CmpFact f op g => strict_or_any f && strict_or_any g
                      && (negb (op_ordered op)
                          || negb (loose_path (f_path f) || loose_path (f_path g)))
  | And cs | Or cs => forallb well_kinded cs
  | Not c => well_kinded c
  | Implies a b => well_kinded a && well_kinded b
  end.

(** Two calls whose facts are [==], and equal where only equality will do. *)
Record similar (fs1 fs2 : facts) : Prop := {
  sim_canon : ∀ p, canon <$> lookup_fact fs1 p = canon <$> lookup_fact fs2 p;
  sim_strict : ∀ p, loose_path p = false → lookup_fact fs1 p = lookup_fact fs2 p;
  sim_optional : ∀ p, is_optional fs1 p = is_optional fs2 p;
}.

Lemma canon_none v : canon v = VNone ↔ v = VNone.
Proof. by destruct v. Qed.

Lemma none_congr v w : canon v = canon w → bool_decide (v = VNone) = bool_decide (w = VNone).
Proof. intros H. apply bool_decide_ext. destruct v, w; simpl in H; try done; congruence. Qed.

Lemma py_eq_congr_r v w w' : canon w = canon w' → py_eq v w = py_eq v w'.
Proof. intros H. rewrite (py_eq_sym v w), (py_eq_sym v w'). by apply py_eq_congr. Qed.

Lemma py_in_canon_list x l k : map canon l = map canon k → py_in x l = py_in x k.
Proof.
  unfold py_in. revert k. induction l as [|v l IH]; intros [|w k]; simpl; try done.
  intros [= Hv Hl]. by rewrite (py_eq_congr_r x v w), (IH k).
Qed.

Lemma apply_eq_congr op v v' w w' : op_ordered op = false →
  canon v = canon v' → canon w = canon w' → apply_op op v w = apply_op op v' w'.
Proof.
  intros Ho Hv Hw. destruct op; try done; simpl;
    by rewrite (py_eq_congr v v' w), (py_eq_congr_r v' w w').
Qed.

Lemma cmp_values_congr op v v' w w' : op_ordered op = false →
  canon v = canon v' → canon w = canon w' → cmp_values op v w = cmp_values op v' w'.
Proof.
  intros Ho Hv Hw.
  assert (Hcase : ∀ a b, cmp_values op a b
            = if bool_decide (a = VNone) || bool_decide (b = VNone) then false
              else default false (apply_op op a b)).
  { intros a b. destruct a, b; try done; unfold cmp_values; simpl;
      by rewrite ?bool_decide_eq_false_2 by done. }
  rewrite !Hcase, (apply_eq_congr op v v' w w') by done.
  by rewrite (none_congr v v'), (none_congr w w') by done.
Qed.

Lemma cmp_test_congr op other v v' : op_ordered op = false →
  canon v = canon v' → cmp_test op other v = cmp_test op other v'.
Proof.
  intros Ho Hv.
  assert (Hcase : ∀ a, cmp_test op other a
            = if bool_decide (a = VNone)
              then bool_decide (op = ONe) && negb (bool_decide (other = VNone))
              else default false (apply_op op a other)).
  { intros a. by destruct a. }
  rewrite !Hcase, (apply_eq_congr op v v' other other) by done.
  by rewrite (none_congr v v').
Qed.

Lemma leaf_test_congr l v v' : loose_leaf l = true → canon v = canon v' →
  leaf_test l v = leaf_test l v'.
Proof.
  intros Hl Hv. assert (Hb := py_bool_congr v v' Hv).
  destruct l as [op o|vs|b|fs|m r| | | |x|xs]; try done; simpl.
  - f_equal. apply cmp_test_congr; [by destruct op|done].
  - f_equal. by apply py_in_congr.
  - f_equal. by apply none_congr.
  - do 2 f_equal. by apply none_congr.
  - by f_equal.
  - rewrite Hb. destruct (negb (py_bool v')); [done|].
    destruct v, v'; simpl in Hv; try done; simplify_eq; try done.
    f_equal. by apply py_in_canon_list.
  - rewrite Hb. destruct (negb (py_bool v')); [done|].
    destruct v, v'; simpl in Hv; try done; by simplify_eq.
Qed.

Lemma normalize_any v : normalize ANY v = Ok v.
Proof. by destruct v. Qed.

Lemma sat_leaf_congr f l fs1 fs2 : similar fs1 fs2 → well_kinded (Leaf f l) = true →
  sat_leaf f l fs1 = sat_leaf f l fs2.
Proof.
  intros [Hc Hs Ho] Hw. unfold sat_leaf. rewrite Ho. simpl in Hw.
  apply orb_prop in Hw as [Hw|Hw]; [apply negb_true_iff in Hw; by rewrite Hs|].
  apply andb_prop in Hw as [Hk%bool_decide_eq_true Hl]. specialize (Hc (f_path f)).
  rewrite Hk. destruct (lookup_fact fs1 (f_path f)) as [v|], (lookup_fact fs2 (f_path f)) as [w|];
    try done. rewrite !normalize_any. simpl. apply leaf_test_congr; [done|].
  simpl in Hc. congruence.
Qed.

(** One operand of a comparison of two facts. *)
Lemma operand_congr f fs1 fs2 v w : similar fs1 fs2 → strict_or_any f = true →
  lookup_fact fs1 (f_path f) = Some v → lookup_fact fs2 (f_path f) = Some w →
  canon <$> normalize (f_kind f) v = canon <$> normalize (f_kind f) w
  ∧ (loose_path (f_path f) = false → v = w).
Proof.
  intros [Hc Hs _] Hf Hv Hw. split.
  - apply orb_prop in Hf as [Hf|Hf].
    + apply negb_true_iff in Hf. specialize (Hs _ Hf). congruence.
    + apply bool_decide_eq_true in Hf. rewrite Hf, !normalize_any.
      specialize (Hc (f_path f)). rewrite Hv, Hw in Hc. simpl in *. congruence.
  - intros Hl. specialize (Hs _ Hl). congruence.
Qed.

Lemma sat_cmp_fact_congr f op g fs1 fs2 : similar fs1 fs2 →
  well_kinded (CmpFact f op g) = true → sat_cmp_fact f op g fs1 = sat_cmp_fact f op g fs2.
Proof.
  intros Hsim Hw. simpl in Hw. apply andb_prop in Hw as [[Hf Hg]%andb_prop Ho].
  pose proof (sim_canon _ _ Hsim (f_path f)) as Hcf. pose proof (sim_canon _ _ Hsim (f_path g)) as Hcg.
  unfold sat_cmp_fact. rewrite !(sim_optional _ _ Hsim).
  destruct (lookup_fact fs1 (f_path f)) as [v|] eqn:Hv, (lookup_fact fs2 (f_path f)) as [v'|] eqn:Hv';
    try done.
  destruct (lookup_fact fs1 (f_path g)) as [w|] eqn:Hw1, (lookup_fact fs2 (f_path g)) as [w'|] eqn:Hw2;
    try done.
  destruct (operand_congr f fs1 fs2 v v' Hsim Hf Hv Hv') as [Hnf Hsf].
  destruct (operand_congr g fs1 fs2 w w' Hsim Hg Hw1 Hw2) as [Hng Hsg].
  apply orb_prop in Ho as [Ho|Ho]; apply negb_true_iff in Ho.
  2: { apply orb_false_iff in Ho as [Hlf Hlg]. by rewrite (Hsf Hlf), (Hsg Hlg). }
  destruct (normalize (f_kind f) v), (normalize (f_kind f) v'); simpl in *; try congruence.
  destruct (normalize (f_kind g) w), (normalize (f_kind g) w'); simpl in *; try congruence.
  f_equal. apply cmp_values_congr; congruence.
Qed.

(** Well-kinded predicates cannot tell similar calls apart. *)
Lemma sat_similar p fs1 fs2 : similar fs1 fs2 → well_kinded p = true → sat p fs1 = sat p fs2.
Proof.
  intros Hsim. induction p as [b|f l|f o g|cs IH|cs IH|c IH|a b IHa IHb] using predicate_ind';
    intros Hw.
  - done.
  - by apply sat_leaf_congr.
  - by apply sat_cmp_fact_congr.
  - simpl in *. f_equal. induction IH as [|c cs Hc _ IH]; [done|]. simpl in *.
    apply andb_prop in Hw as [Hw1 Hw2]. by rewrite Hc, IH.
  - simpl in *. f_equal. induction IH as [|c cs Hc _ IH]; [done|]. simpl in *.
    apply andb_prop in Hw as [Hw1 Hw2]. by rewrite Hc, IH.
  - simpl in *. by rewrite IH.
  - simpl in *. apply andb_prop in Hw as [Hw1 Hw2]. by rewrite IHa, IHb.
Qed.

Lemma eval_accepts_similar p fs1 fs2 : similar fs1 fs2 → well_kinded p = true →
  eval p fs1 = Ok None ↔ eval p fs2 = Ok None.
Proof. intros Hsim Hw. by rewrite !eval_none_sat, (sat_similar p fs1 fs2). Qed.

(** Queries with one cache key have similar facts. *)
Lemma cache_key_similar q1 q2 opt libs : cache_key q1 = cache_key q2 →
  similar (facts_from_query q1 opt libs) (facts_from_query q2 opt libs).
Proof.
  intros H. split; [..|done]; intros p.
  - by apply cache_key_determines_facts.
  - by apply cache_key_determines_facts.
Qed.
