(* ===== verification/OpSpec.v ===== *)
(** * Operation schemas and implementation contracts

    Models [kernel/opspec.py]: parameter contracts, the schema of an
    operation with its fact paths, the priority bands, implementation rows
    with their checks against a schema, and the choice of parameter dtypes. *)

From S2P Require Export Predicate.
From Stdlib Require Import Ascii String.
From stdpp Require Import options.

Local Open Scope Z_scope.

(** ** Parameter contracts *)
Inductive param_rule : Type := ANY_FLOAT | MATCHES_ACTIVATION | FIXED.

#[export] Instance param_rule_eq_dec : EqDecision param_rule.
Proof. solve_decision. Defined.

Record param_contract : Type := ParamContract { pc_rule : param_rule; pc_dtype : option string }.

#[export] Instance param_contract_eq_dec : EqDecision param_contract.
Proof. solve_decision. Defined.

(** [ParamContract.__post_init__] *)
Definition mk_contract (rule : param_rule) (dtype : option string) : res param_contract :=
  let named := match dtype with Some d => negb (sempty d) | None => false end in
  if bool_decide (rule = FIXED) && negb named then Err ValueError
  else if negb (bool_decide (rule = FIXED)) && bool_decide (is_Some dtype) then Err ValueError
  else Ok (ParamContract rule dtype).

Definition any_float_dtypes : list string := ["bf16"; "fp16"; "fp32"; "fp64"].

(** [ParamContract.allows] *)
Definition allows (c : param_contract) (candidate activation : string) : bool :=
  match pc_rule c with
  | ANY_FLOAT => bool_decide (candidate ∈ any_float_dtypes)
  | MATCHES_ACTIVATION => bool_decide (candidate = activation)
  | FIXED => bool_decide (Some candidate = pc_dtype c)
  end.

Definition fixed (dtype : string) : res param_contract := mk_contract FIXED (Some dtype).
Definition matches_activation : res param_contract := mk_contract MATCHES_ACTIVATION None.
Definition any_float : res param_contract := mk_contract ANY_FLOAT None.

(** ** What [prepare] returns.  A protocol class is its name. *)
Record returns : Type := Returns {
  rt_kind : string;
  rt_protocol : option string;
  rt_constructed_with : list string;
}.

#[export] Instance returns_eq_dec : EqDecision returns.
Proof. solve_decision. Defined.

Definition mk_returns (kind : string) (protocol : option string) (cw : list string) : res returns :=
  if bool_decide (kind ∈ ["callable"; "instance"]) then Ok (Returns kind protocol cw)
  else Err ValueError.

Definition is_instance (r : returns) : bool := String.eqb (rt_kind r) "instance".
Definition returns_callable : res returns := mk_returns "callable" None [].
Definition returns_instance (protocol : string) (cw : list string) : res returns :=
  mk_returns "instance" (Some protocol) cw.

(** ** Operation schemas.  [bench_args] is the identity of the builder. *)
Record op_spec : Type := OpSpec {
  os_name : string;
  os_dims : list string;
  os_dtypes : list string;
  os_optional_dtypes : list string;
  os_attributes : list string;
  os_optional_attributes : list string;
  os_signature : string;
  os_returns : returns;
  os_params : list string;
  os_requires_reference : bool;
  os_bench_args : option Z;
  os_doc : string;
}.

#[export] Instance op_spec_eq_dec : EqDecision op_spec.
Proof. solve_decision. Defined.

Definition disjoint_names (l k : list string) : bool := forallb (λ x, bool_decide (x ∉ k)) l.

(** [OpSpec.__post_init__] *)
Definition mk_spec (s : op_spec) : res op_spec :=
  let name := lower (strip (os_name s)) in
  if sempty name then Err ValueError
  else if negb (disjoint_names (os_dtypes s) (os_optional_dtypes s)) then Err ValueError
  else if negb (disjoint_names (os_attributes s) (os_optional_attributes s)) then Err ValueError
  else Ok (OpSpec name (os_dims s) (os_dtypes s) (os_optional_dtypes s) (os_attributes s)
             (os_optional_attributes s) (os_signature s) (os_returns s) (os_params s)
             (os_requires_reference s) (os_bench_args s) (os_doc s)).

Definition paths_under (p : string) (names : list string) : list string := (λ n, p +:+ n) <$> names.

(** [OpSpec.optional_paths] *)
Definition optional_paths (s : op_spec) : gset string :=
  list_to_set (paths_under "dtype." (os_optional_dtypes s)
               ++ paths_under "attrs." (os_optional_attributes s)).

(** [OpSpec.known_paths] *)
Definition known_paths (s : op_spec) : gset string :=
  list_to_set (paths_under "shape." (os_dims s)
               ++ paths_under "dtype." (os_dtypes s ++ os_optional_dtypes s)
               ++ paths_under "attrs." (os_attributes s ++ os_optional_attributes s)).

(** [OpSpec.kind_of] *)
Definition kind_of (path : string) : fact_kind :=
  if String.eqb (path_prefix path) "shape" then INT
  else if String.eqb (path_prefix path) "dtype" then DTYPE
  else ANY.

(** One turn of the loop of [OpSpec.validate_paths]. *)
Definition validate_path (s : op_spec) (path : string) : res unit :=
  if negb (op_scoped path) then Ok ()
  else if bool_decide (path ∈ known_paths s) then Ok ()
  else Err ValueError.

(** [OpSpec.validate_paths] *)
Definition validate_paths (s : op_spec) (paths : list string) : res unit :=
  _ ← rmap (validate_path s) (sort_str paths); Ok ().

(** ** Priorities *)
Inductive priority_band : Type := REFERENCE | GENERAL | OPTIMIZED | SPECIALIZED | PLUGIN.

Definition band_value (b : priority_band) : Z :=
  match b with REFERENCE => 0 | GENERAL => 4 | OPTIMIZED => 8 | SPECIALIZED => 12 | PLUGIN => 16 end.

Definition BANDS : list priority_band := [REFERENCE; GENERAL; OPTIMIZED; SPECIALIZED; PLUGIN].
Definition PRIORITY_LIMIT : Z := 20.

(** [max(..., key=int)]: the first of the greatest. *)
Fixpoint max_band (bs : list priority_band) : option priority_band :=
  match bs with
  | [] => None
  | b :: bs' =>
      match max_band bs' with
      | Some c => Some (if band_value b <? band_value c then c else b)
      | None => Some b
      end
  end.

Definition band_for (value : Z) : res priority_band :=
  of_option ValueError (max_band (filter (λ b, band_value b ≤ value) BANDS)).

Definition validate_priority (value : Z) : res Z :=
  if negb ((0 <=? value) && (value <? PRIORITY_LIMIT)) then Err ValueError else Ok value.

(** ** Implementations

    [im_object] is the identity of the Python object, which carries the
    [prepare] function the row was built with. *)
Record impl : Type := Impl {
  im_object : Z;
  im_kernel_id : string;
  im_op : string;
  im_when : predicate;
  im_priority : Z;
  im_reference : bool;
  im_capture_safe : bool;
  im_params : dict string param_contract;
  im_metadata : dict string value;
}.

(** [Impl.__post_init__] *)
Definition mk_impl (i : impl) : res impl :=
  let kernel_id := lower (strip (im_kernel_id i)) in
  let op := lower (strip (im_op i)) in
  if sempty kernel_id then Err ValueError
  else
    p ← validate_priority (im_priority i);
    Ok (Impl (im_object i) kernel_id op (im_when i) p (im_reference i) (im_capture_safe i)
          (im_params i) (im_metadata i)).

(** [Impl.libraries] *)
Definition libraries_of (i : impl) : gset string :=
  set_map path_name (filter (λ p, startswith p "lib." = true) (facts_used (im_when i))).

(** [Impl._reject_vacuous_capability] *)
Definition reject_vacuous (i : impl) (s : op_spec) : res unit :=
  let used := filter (λ p, op_scoped p = true) (facts_used (im_when i)) in
  if bool_decide (used = ∅) then Ok ()
  else if bool_decide (used ⊆ optional_paths s) then Err ValueError
  else Ok ().

(** [Impl.check_against] *)
Definition check_against (i : impl) (s : op_spec) : res unit :=
  if negb (String.eqb (im_op i) (os_name s)) then Err ValueError
  else
    _ ← validate_paths s (elements (facts_used (im_when i)));
    if negb (forallb (λ n, bool_decide (n ∈ os_params s)) (dkeys (im_params i))) then Err ValueError
    else reject_vacuous i s.

(** ** Parameter dtypes *)

(** [name not in impl.params or impl.params[name].allows(...)] *)
Definition viable_for (name candidate activation : string) (i : impl) : bool :=
  match dget (im_params i) name with
  | None => true
  | Some c => allows c candidate activation
  end.

Definition rank_of (boost : list string) (i : impl) : Z :=
  im_priority i + if bool_decide (im_kernel_id i ∈ boost) then PRIORITY_LIMIT else 0.

(** [max(...)] of a nonempty list. *)
Fixpoint max_Z (l : list Z) : option Z :=
  match l with
  | [] => None
  | x :: l' => Some (match max_Z l' with Some y => Z.max x y | None => x end)
  end.

(** [score > best] on pairs *)
Definition score_gt (a b : Z * Z) : bool :=
  (b.1 <? a.1) || ((b.1 =? a.1) && (b.2 <? a.2)).

(** The rank of the best implementation that a dtype leaves viable. *)
Definition top_rank (name activation : string) (boost : list string) (impls : list impl)
    (candidate : string) : option Z :=
  max_Z (rank_of boost <$> filter (λ i, viable_for name candidate activation i = true) impls).

(** The loop over the enumerated candidates: the best score with its dtype. *)
Fixpoint best_dtype (name activation : string) (boost : list string) (impls : list impl)
    (order : list (option string)) (index : Z) (best : option ((Z * Z) * string))
    : option ((Z * Z) * string) :=
  match order with
  | [] => best
  | None :: order' => best_dtype name activation boost impls order' (index + 1) best
  | Some candidate :: order' =>
      let best' :=
        match top_rank name activation boost impls candidate with
        | None => best
        | Some rank =>
            let score := (rank, - index) in
            match best with
            | Some (b, _) => if score_gt score b then Some (score, candidate) else best
            | None => Some (score, candidate)
            end
        end in
      best_dtype name activation boost impls order' (index + 1) best'
  end.

(** The candidates for one parameter: the explicit request, the activation
    dtype, then the supported floats. *)
Definition param_order (preferred : dict string string) (activation name : string)
    : list (option string) :=
  [dget preferred name; Some activation; Some "bf16"; Some "fp16"; Some "fp32"].

Definition resolve_one (impls : list impl) (activation : string)
    (preferred : dict string string) (boost : list string) (name : string) : res string :=
  of_option ValueError
    (snd <$> best_dtype name activation boost impls (param_order preferred activation name) 0 None).

(** [resolve_param_dtypes] *)
Definition resolve_param_dtypes (s : op_spec) (impls : list impl) (activation : string)
    (preferred : dict string string) (prefer : list string) : res (dict string string) :=
  let boost := lower <$> prefer in
  foldl (λ acc name, chosen ← acc;
                     d ← resolve_one impls activation preferred boost name;
                     Ok (dset chosen name d))
        (Ok []) (os_params s).

(** ** Lemmas *)
Lemma max_Z_spec l m : max_Z l = Some m → m ∈ l ∧ ∀ x, x ∈ l → x ≤ m.
Proof.
  revert m. induction l as [|x l IH]; intros m; simpl; [done|]. intros [= <-].
  destruct (max_Z l) as [y|] eqn:E.
  - destruct (IH _ eq_refl) as [Hy Hle]. split.
    + destruct (Z.max_spec x y) as [[_ ->]|[_ ->]]; set_solver.
    + intros z [->|Hz]%elem_of_cons; [lia|]. specialize (Hle z Hz). lia.
  - destruct l as [|z l]; [|done]. split; [set_solver|]. intros z ->%list_elem_of_singleton. lia.
Qed.

Lemma max_Z_none l : max_Z l = None ↔ l = [].
Proof. by destruct l. Qed.

Section ranking.
Context (name activation : string) (boost : list string) (impls : list impl).

Notation top := (top_rank name activation boost impls).

Lemma top_rank_some d r : top d = Some r →
  (∃ i, i ∈ impls ∧ viable_for name d activation i = true ∧ rank_of boost i = r)
  ∧ ∀ i, i ∈ impls → viable_for name d activation i = true → rank_of boost i ≤ r.
Proof.
  intros [Hin Hle]%max_Z_spec. split.
  - apply list_elem_of_fmap in Hin as (i & -> & [Hv Hi]%list_elem_of_filter). eauto.
  - intros i Hi Hv. apply Hle, list_elem_of_fmap. exists i. split; [done|].
    by apply list_elem_of_filter.
Qed.

Lemma top_rank_viable d i : i ∈ impls → viable_for name d activation i = true →
  ∃ r, top d = Some r ∧ rank_of boost i ≤ r.
Proof.
  intros Hi Hv. destruct (top d) as [r|] eqn:E.
  - exists r. split; [done|]. by apply top_rank_some in E as [_ Hle]; apply Hle.
  - apply max_Z_none, fmap_nil_inv in E.
    assert (i ∈ filter (λ i, viable_for name d activation i = true) impls) as H
      by by apply list_elem_of_filter.
    rewrite E in H. by apply elem_of_nil in H.
Qed.

(** The position [k] of [order] holds a viable dtype with this rank. *)
Definition option_at (order : list (option string)) (k : nat) (d : string) (r : Z) : Prop :=
  order !! k = Some (Some d) ∧ top d = Some r.

(** Rank first, then the earlier position. *)
Definition beaten (r' : Z) (i' : Z) (r i : Z) : Prop := r' < r ∨ (r' = r ∧ i ≤ i').

Lemma best_dtype_none order idx best :
  best_dtype name activation boost impls order idx best = None →
  best = None ∧ ∀ k d r, ¬ option_at order k d r.
Proof.
  revert idx best. induction order as [|o order IH]; intros idx best; simpl.
  { intros ->. split; [done|]. by intros k d r []. }
  destruct o as [c|]; intros H; apply IH in H as [Hb Hn].
  - destruct (top c) as [rk|] eqn:Ht; [destruct best as [[b ?]|]; [destruct (score_gt _ _)|]|];
      try done; subst.
    split; [done|]. intros [|k] d r [Ho Hd]; simpl in *; [congruence|by eapply Hn].
  - split; [done|]. intros [|k] d r [Ho Hd]; simpl in *; [done|by eapply Hn].
Qed.

Lemma best_dtype_some order idx best sc d :
  best_dtype name activation boost impls order idx best = Some (sc, d) →
  (best = Some (sc, d) ∨ ∃ k, option_at order k d sc.1 ∧ sc.2 = - (idx + Z.of_nat k))
  ∧ (∀ k d' r, option_at order k d' r → beaten r (idx + Z.of_nat k) sc.1 (- sc.2))
  ∧ (∀ b, best = Some b → beaten b.1.1 (- b.1.2) sc.1 (- sc.2)).
Proof.
  revert idx best. induction order as [|o order IH]; intros idx best; simpl.
  { intros ->. split_and!; [by left|by intros k d' r []|].
    intros b [= <-]. right. simpl. lia. }
  destruct o as [c|]; intros H; apply IH in H as (Hd & Hall & Hbest); clear IH.
  2: { split_and!; [|intros [|k] d' r [Ho Ht]; simpl in *|done].
       - destruct Hd as [Hd|(k & [Ho Ht] & Hi)]; [by left|]. right. exists (S k).
         split; [done|]. lia.
       - done.
       - replace (idx + Z.of_nat (S k)) with (idx + 1 + Z.of_nat k) by lia.
         by eapply Hall. }
  set (best' := match top c with Some _ => _ | None => _ end) in *.
  assert (Hkeep : ∀ b, best = Some b → ∃ b', best' = Some b' ∧ beaten b.1.1 (- b.1.2) b'.1.1 (- b'.1.2)).
  { intros [b e] ->. unfold best'. destruct (top c) as [rk|].
    - destruct (score_gt (rk, - idx) b) eqn:Hg; eexists; (split; [done|]);
        unfold beaten, score_gt in *; simpl in *; lia.
    - eexists. split; [done|]. unfold beaten; simpl; lia. }
  assert (Hnew : ∀ r, top c = Some r → ∃ b', best' = Some b' ∧ beaten r idx b'.1.1 (- b'.1.2)).
  { intros r Hr. unfold best'. rewrite Hr. destruct best as [[b e]|].
    - destruct (score_gt (r, - idx) b) eqn:Hg; eexists; (split; [done|]);
        unfold beaten, score_gt in *; simpl in *; lia.
    - eexists. split; [done|]. unfold beaten; simpl; lia. }
  assert (Htrans : ∀ r i b', best' = Some b' → beaten r i b'.1.1 (- b'.1.2) →
                   beaten r i sc.1 (- sc.2)).
  { intros r i b' Hb Hr. apply Hbest in Hb. unfold beaten in *. lia. }
  split_and!.
  - destruct Hd as [Hd|(k & Hk & Hi)].
    + unfold best' in Hd. destruct (top c) as [rk|] eqn:Ht; [|by left].
      assert (option_at (Some c :: order) 0 c rk) as H0 by done.
      destruct best as [[b e]|]; [destruct (score_gt _ _); [|by left]|];
        injection Hd as <- <-; right; exists 0%nat; (split; [done|simpl; lia]).
    + right. exists (S k). split; [exact Hk|]. lia.
  - intros [|k] d' r [Ho Ht]; simpl in *.
    + injection Ho as ->. destruct (Hnew _ Ht) as (b' & Hb' & Hbt).
      rewrite Z.add_0_r. by eapply Htrans.
    + replace (idx + Z.of_nat (S k)) with (idx + 1 + Z.of_nat k) by lia.
      by eapply Hall.
  - intros b Hb. destruct (Hkeep _ Hb) as (b' & Hb' & Hbt). by eapply Htrans.
Qed.
End ranking.

Section resolution.
Context (impls : list impl) (activation : string) (preferred : dict string string)
  (boost : list string).

Notation one := (resolve_one impls activation preferred boost).
Notation step := (λ (acc : res (dict string string)) name,
  chosen ← acc; d ← one name; Ok (dset chosen name d)).

Lemma resolve_fold_err names e : foldl step (Err e) names = Err e.
Proof. by induction names. Qed.

Lemma resolve_fold_ok names d0 chosen : foldl step (Ok d0) names = Ok chosen →
  (∀ name, name ∈ names → ∃ d, one name = Ok d ∧ dget chosen name = Some d)
  ∧ (∀ name, name ∉ names → dget chosen name = dget d0 name).
Proof.
  revert d0. induction names as [|n names IH]; intros d0; simpl.
  { intros [= <-]. split; [|done]. by intros name ?%elem_of_nil. }
  destruct (one n) as [d|e] eqn:Hn; simpl; [|by rewrite resolve_fold_err].
  intros [Hin Hout]%IH. split.
  - intros name [->|Hname]%elem_of_cons; [|by apply Hin].
    destruct (decide (n ∈ names)) as [Hd|Hd]; [by apply Hin|].
    exists d. split; [done|]. by rewrite (Hout _ Hd), dget_dset_eq.
  - intros name [Hne Hname]%not_elem_of_cons. rewrite (Hout _ Hname). by apply dget_dset_ne.
Qed.

Lemma resolve_fold_total names d0 :
  (∀ name, name ∈ names → ∃ d, one name = Ok d) → ∃ chosen, foldl step (Ok d0) names = Ok chosen.
Proof.
  revert d0. induction names as [|n names IH]; intros d0 H; simpl; [eauto|].
  destruct (H n) as [d ->]; [by left|]. simpl. apply IH. intros name Hn. apply H. by right.
Qed.

Lemma resolve_one_ok name d : one name = Ok d ↔
  ∃ sc, best_dtype name activation boost impls (param_order preferred activation name) 0 None
        = Some (sc, d).
Proof.
  unfold resolve_one. destruct (best_dtype _ _ _ _ _ _ _) as [[sc d']|]; simpl; naive_solver.
Qed.

(** The dtype of one parameter is an optimum over the candidates. *)
Lemma resolve_one_optimal name d : one name = Ok d →
  ∃ k r, option_at name activation boost impls (param_order preferred activation name) k d r
  ∧ ∀ k' d' r', option_at name activation boost impls (param_order preferred activation name) k' d' r' →
                r' < r ∨ (r' = r ∧ (k ≤ k')%nat).
Proof.
  intros [sc H]%resolve_one_ok. apply best_dtype_some in H as ([?|(k & Hk & Hi)] & Hall & _);
    [done|].
  exists k, sc.1. split; [done|]. intros k' d' r' Hk'. specialize (Hall _ _ _ Hk').
  unfold beaten in Hall. lia.
Qed.

Lemma resolve_one_total name i d : i ∈ impls → viable_for name d activation i = true →
  Some d ∈ param_order preferred activation name → ∃ d', one name = Ok d'.
Proof.
  intros Hi Hv [k Hk]%list_elem_of_lookup.
  destruct (one name) as [d'|e] eqn:H; [eauto|]. exfalso.
  unfold resolve_one in H.
  destruct (best_dtype name activation boost impls (param_order preferred activation name) 0 None)
    as [[sc d']|] eqn:Hb; [done|].
  apply best_dtype_none in Hb as [_ Hn].
  destruct (top_rank_viable name activation boost impls d i Hi Hv) as (r & Hr & _).
  by apply (Hn k d r).
Qed.
End resolution.

(** [resolve_param_dtypes] gives every declared parameter a dtype that
    some implementation accepts, taken from the candidates (the request, the
    activation dtype, bf16, fp16, fp32), such that no candidate leaves a
    higher-ranked implementation viable, and none of the same rank comes
    earlier in that order. *)
Theorem resolve_param_dtypes_optimal s impls activation preferred prefer chosen name :
  resolve_param_dtypes s impls activation preferred prefer = Ok chosen →
  name ∈ os_params s →
  ∃ d k r,
    dget chosen name = Some d
    ∧ param_order preferred activation name !! k = Some (Some d)
    ∧ (∃ i, i ∈ impls ∧ viable_for name d activation i = true ∧ rank_of (lower <$> prefer) i = r)
    ∧ ∀ k' d' i, param_order preferred activation name !! k' = Some (Some d') → i ∈ impls →
        viable_for name d' activation i = true →
        rank_of (lower <$> prefer) i < r
        ∨ (rank_of (lower <$> prefer) i ≤ r ∧ (k ≤ k')%nat).
Proof.
  intros H Hn. apply resolve_fold_ok in H as [H _]. destruct (H _ Hn) as (d & Ho & Hd).
  apply resolve_one_optimal in Ho as (k & r & [Hk Hr] & Hall). exists d, k, r.
  split_and!; [done|done|by apply top_rank_some in Hr as [? _]|].
  intros k' d' i Hk' Hi Hv.
  destruct (top_rank_viable name activation (lower <$> prefer) impls d' i Hi Hv) as (r' & Hr' & Hle).
  destruct (Hall k' d' r' (conj Hk' Hr')) as [?|[? ?]]; [left|right]; lia.
Qed.

Lemma resolve_keeps s impls activation preferred prefer i :
  i ∈ impls →
  (∀ j, j ∈ impls → j = i ∨ rank_of (lower <$> prefer) j < rank_of (lower <$> prefer) i) →
  (∀ name, name ∈ os_params s →
     ∃ d, Some d ∈ param_order preferred activation name ∧ viable_for name d activation i = true) →
  ∃ chosen, resolve_param_dtypes s impls activation preferred prefer = Ok chosen
    ∧ ∀ name, name ∈ os_params s →
        ∃ d, dget chosen name = Some d ∧ viable_for name d activation i = true.
Proof.
  intros Hi Hbest Hacc.
  destruct (resolve_fold_total impls activation preferred (lower <$> prefer) (os_params s) [])
    as [chosen Hc].
  { intros name Hn. destruct (Hacc _ Hn) as (d & Hd & Hv). by eapply resolve_one_total. }
  exists chosen. split; [exact Hc|]. intros name Hn.
  apply resolve_fold_ok in Hc as [Hc _]. destruct (Hc _ Hn) as (d & Ho & Hd).
  exists d. split; [done|]. apply resolve_one_optimal in Ho as (k & r & [Hk Hr] & Hall).
  destruct (Hacc _ Hn) as (d' & [k' Hk']%list_elem_of_lookup & Hv).
  destruct (top_rank_viable name activation (lower <$> prefer) impls d' i Hi Hv) as (r' & Hr' & Hle).
  assert (r' ≤ r) as Hrr by (destruct (Hall k' d' r' (conj Hk' Hr')) as [?|[? ?]]; lia).
  apply top_rank_some in Hr as [(j & Hj & Hvj & Hrj) _].
  destruct (Hbest _ Hj) as [->|Hlt]; [done|lia].
Qed.

(** The choice keeps the highest-ranked implementation viable: when one
    implementation outranks all others (a preferred kernel always outranks
    the priority bands) and accepts some candidate for each parameter, the
    resolution succeeds and that implementation accepts every chosen dtype. *)
Theorem resolve_keeps_best s impls activation preferred prefer i :
  i ∈ impls →
  (∀ j, j ∈ impls → j = i ∨ rank_of (lower <$> prefer) j < rank_of (lower <$> prefer) i) →
  (∀ name, name ∈ os_params s →
     ∃ d, Some d ∈ param_order preferred activation name ∧ viable_for name d activation i = true) →
  ∃ chosen, resolve_param_dtypes s impls activation preferred prefer = Ok chosen
    ∧ ∀ name, name ∈ os_params s →
        ∃ d, dget chosen name = Some d ∧ viable_for name d activation i = true.
Proof. apply resolve_keeps. Qed.

(** ** Checks of a row against its schema *)

Lemma rmap_unit_ok {A} (f : A → res unit) l :
  (_ ← rmap f l; Ok ()) = Ok () ↔ ∀ x, x ∈ l → f x = Ok ().
Proof.
  rewrite bind_ok. setoid_rewrite rmap_ok. split.
  - intros (us & H & _) x Hx. induction H as [|y [] l us Hy _ IH]; [by apply elem_of_nil in Hx|].
    apply elem_of_cons in Hx as [->|Hx]; [done|by apply IH].
  - intros H. induction l as [|x l IH]; [by exists []|].
    destruct IH as (us & Hus & _); [intros y Hy; apply H; by right|].
    exists (() :: us). split; [|done]. constructor; [apply H; by left|done].
Qed.

Lemma validate_path_ok s path :
  validate_path s path = Ok () ↔ (op_scoped path = true → path ∈ known_paths s).
Proof.
  unfold validate_path. destruct (op_scoped path); simpl; [|naive_solver].
  case_bool_decide; naive_solver.
Qed.

Lemma validate_paths_ok s paths :
  validate_paths s paths = Ok ()
  ↔ ∀ path, path ∈ paths → op_scoped path = true → path ∈ known_paths s.
Proof.
  unfold validate_paths. rewrite rmap_unit_ok. setoid_rewrite sort_str_elem.
  by setoid_rewrite validate_path_ok.
Qed.

Lemma validate_paths_cases s paths :
  validate_paths s paths = Ok () ∨ validate_paths s paths = Err ValueError.
Proof.
  unfold validate_paths. destruct (rmap _ _) as [us|e] eqn:H; simpl; [by left|right].
  apply rmap_err in H as (path & _ & H). unfold validate_path in H. repeat case_match; congruence.
Qed.

Lemma reject_vacuous_ok i s :
  reject_vacuous i s = Ok () ↔
  ((∃ path, path ∈ facts_used (im_when i) ∧ op_scoped path = true) →
   ∃ path, path ∈ facts_used (im_when i) ∧ op_scoped path = true ∧ path ∉ optional_paths s).
Proof.
  unfold reject_vacuous.
  set (used := filter (λ p, op_scoped p = true) (facts_used (im_when i))).
  assert (Hu : ∀ p, p ∈ used ↔ p ∈ facts_used (im_when i) ∧ op_scoped p = true).
  { intros p. unfold used. rewrite elem_of_filter. naive_solver. }
  case_bool_decide as He.
  { split; [|done]. intros _ (p & Hp). exfalso. apply Hu in Hp. set_solver. }
  apply set_choose_L in He as [q Hq]. case_bool_decide as Hs.
  - split; [done|]. intros H. exfalso.
    destruct H as (p & Hp & Hp' & Ho); [exists q; by apply Hu|].
    apply Ho, Hs, Hu. done.
  - split; [|done]. intros _ _.
    destruct (decide (set_Exists (λ p, p ∉ optional_paths s) used)) as [(p & Hp & Ho)|Hn].
    + apply Hu in Hp as []. eauto.
    + exfalso. apply Hs. intros p Hp. apply dec_stable. intros Ho. apply Hn. by exists p.
Qed.

Lemma params_declared i s :
  forallb (λ n, bool_decide (n ∈ os_params s)) (dkeys (im_params i)) = true
  ↔ ∀ name, name ∈ dkeys (im_params i) → name ∈ os_params s.
Proof.
  rewrite forallb_forall. setoid_rewrite bool_decide_eq_true.
  by setoid_rewrite <-list_elem_of_In.
Qed.

(** [check_against] accepts a row exactly when it targets the
    operation, reads only declared op-scoped facts, constrains only declared
    parameters, and does not rest on optional facts alone; otherwise it
    raises [ValueError]. *)
Theorem check_against_spec i s :
  (check_against i s = Ok () ↔
     im_op i = os_name s
     ∧ (∀ path, path ∈ facts_used (im_when i) → op_scoped path = true → path ∈ known_paths s)
     ∧ (∀ name, name ∈ dkeys (im_params i) → name ∈ os_params s)
     ∧ ((∃ path, path ∈ facts_used (im_when i) ∧ op_scoped path = true) →
        ∃ path, path ∈ facts_used (im_when i) ∧ op_scoped path = true
                ∧ path ∉ optional_paths s))
  ∧ (check_against i s = Ok () ∨ check_against i s = Err ValueError).
Proof.
  unfold check_against. destruct (String.eqb_spec (im_op i) (os_name s)) as [Hop|Hop]; simpl;
    [|naive_solver].
  pose proof (validate_paths_ok s (elements (facts_used (im_when i)))) as Hv.
  setoid_rewrite elem_of_elements in Hv.
  destruct (validate_paths_cases s (elements (facts_used (im_when i)))) as [E|E];
    rewrite E in *; simpl; [|naive_solver].
  pose proof (params_declared i s) as Hp. destruct (forallb _ _); simpl; [|naive_solver].
  split; [rewrite reject_vacuous_ok; naive_solver|].
  unfold reject_vacuous. repeat case_match; auto.
Qed.

(** Every valid priority lies in exactly the band with the greatest
    start not above it, and no other value is accepted as a priority. *)
Theorem band_for_valid value :
  (validate_priority value = Ok value ↔ 0 ≤ value < 20)
  ∧ (validate_priority value ≠ Ok value → validate_priority value = Err ValueError)
  ∧ (0 ≤ value → ∃ b, band_for value = Ok b ∧ band_value b ≤ value
       ∧ ∀ c, band_value c ≤ value → band_value c ≤ band_value b)
  ∧ (value < 0 → band_for value = Err ValueError).
Proof.
  split_and!.
  - unfold validate_priority. destruct ((0 <=? value) && (value <? PRIORITY_LIMIT)) eqn:E;
      unfold PRIORITY_LIMIT in *; simpl; split; try done; lia.
  - unfold validate_priority. by case_match.
  - intros H. unfold band_for, BANDS. rewrite !filter_cons, filter_nil.
    repeat case_decide; simpl in *; try lia; eexists; (split; [reflexivity|]); simpl;
      (split; [lia|]); intros []; simpl; lia.
  - intros H. unfold band_for, BANDS. rewrite !filter_cons, filter_nil.
    by repeat case_decide; simpl in *; try lia.
Qed.

(** ** Concrete inputs *)
Definition norm_spec : op_spec :=
  OpSpec "norm.rms" ["m"; "hidden"] ["activation"] ["weight"] [] [] "" (Returns "callable" None [])
    ["weight"] true None "".

Definition row (id : string) (when : predicate) (priority : Z) (params : dict string param_contract)
    : impl := Impl 0 id "norm.rms" when priority false true params [].

Definition norm_rows : list impl :=
  [row "cuda.norm" TRUE 8 [("weight", ParamContract FIXED (Some "fp32"))];
   row "torch.norm" TRUE 0 [("weight", ParamContract ANY_FLOAT None)];
   row "triton.norm" TRUE 4 [("weight", ParamContract MATCHES_ACTIVATION None)]].

Lemma resolve_keeps_best_witness :
  ∃ chosen, resolve_param_dtypes norm_spec norm_rows "bf16" [] ["Triton.norm"] = Ok chosen
    ∧ ∀ name, name ∈ os_params norm_spec →
        ∃ d, dget chosen name = Some d
             ∧ viable_for name d "bf16"
                 (row "triton.norm" TRUE 4 [("weight", ParamContract MATCHES_ACTIVATION None)]) = true.
Proof.
  apply resolve_keeps_best.
  - unfold norm_rows. set_solver.
  - intros j. unfold norm_rows. rewrite !elem_of_cons, elem_of_nil.
    intros [->|[->|[->|[]]]]; [right; by vm_compute|right; by vm_compute|by left].
  - simpl. intros name ->%list_elem_of_singleton. exists "bf16". split; [|by vm_compute].
    unfold param_order. simpl. set_solver.
Defined.

Lemma resolve_param_dtypes_optimal_witness :
  ∃ d k r,
    dget [("weight", "fp32")] "weight" = Some d
    ∧ param_order [] "bf16" "weight" !! k = Some (Some d)
    ∧ (∃ i, i ∈ norm_rows ∧ viable_for "weight" d "bf16" i = true
            ∧ rank_of (lower <$> []) i = r)
    ∧ ∀ k' d' i, param_order [] "bf16" "weight" !! k' = Some (Some d') → i ∈ norm_rows →
        viable_for "weight" d' "bf16" i = true →
        rank_of (lower <$> []) i < r ∨ (rank_of (lower <$> []) i ≤ r ∧ (k ≤ k')%nat).
Proof.
  apply (resolve_param_dtypes_optimal norm_spec norm_rows "bf16" [] []);
    [by vm_compute|set_solver].
Defined.
