(* ===== verification/Registry.v ===== *)
(** * The kernel catalog

    Models [kernel/registry.py]: registration of operations and
    implementations, the lookups, the deterministic listings, the glob
    expansion of kernel ids (Python's [fnmatch.fnmatchcase]) and the cached
    fingerprint. *)

From S2P Require Export OpSpec.
From Stdlib Require Import Ascii String.
From stdpp Require Import options.

Local Open Scope Z_scope.

(** ** [fnmatchcase] *)
Inductive set_item : Type := SChar (c : ascii) | SRange (a b : ascii).
Inductive glob_token : Type :=
  | GStar | GAny | GLit (c : ascii) | GSet (negated : bool) (items : list set_item).

Definition code (c : ascii) : Z := Z.of_N (N_of_ascii c).

Definition in_item (c : ascii) (i : set_item) : bool :=
  match i with
  | SChar d => Ascii.eqb c d
  | SRange a b => (code a <=? code c) && (code c <=? code b)
  end.

(** The members of a set: ["x-y"] is a range when something follows the
    dash. *)
Fixpoint set_items (s : string) : list set_item :=
  match s with
  | EmptyString => []
  | String a s1 =>
      match s1 with
      | String d (String b s2) =>
          if Ascii.eqb d "-" then SRange a b :: set_items s2 else SChar a :: set_items s1
      | _ => SChar a :: set_items s1
      end
  end.

Definition take_head (c : ascii) (s : string) : string * string :=
  match s with
  | String d s' => if Ascii.eqb d c then (String d EmptyString, s') else (EmptyString, s)
  | EmptyString => (EmptyString, s)
  end.

(** What follows an opening bracket: the set and the rest of the pattern, or
    [None] when the bracket is never closed. *)
Definition split_set (s : string) : option (bool * string * string) :=
  let '(bang, s1) := take_head "!" s in
  let '(close, s2) := take_head "]" s1 in
  let '(body, r) := sspan (λ c, negb (Ascii.eqb c "]")) s2 in
  match r with
  | String _ r' => Some (negb (sempty bang), close +:+ body, r')
  | EmptyString => None
  end.

(** One token per turn; the length of the pattern is enough fuel. *)
Fixpoint parse_glob (fuel : nat) (s : string) : list glob_token :=
  match fuel, s with
  | S fuel', String c s' =>
      if Ascii.eqb c "*" then GStar :: parse_glob fuel' s'
      else if Ascii.eqb c "?" then GAny :: parse_glob fuel' s'
      else if Ascii.eqb c "[" then
        match split_set s' with
        | Some (neg, body, r) => GSet neg (set_items body) :: parse_glob fuel' r
        | None => GLit c :: parse_glob fuel' s'
        end
      else GLit c :: parse_glob fuel' s'
  | _, _ => []
  end.

Fixpoint glob_match (ts : list glob_token) (s : string) : bool :=
  match ts with
  | [] => sempty s
  | GStar :: ts' =>
      (fix star (s : string) : bool :=
         glob_match ts' s || match s with String _ s' => star s' | EmptyString => false end) s
  | t :: ts' =>
      match s with
      | EmptyString => false
      | String c s' =>
          match t with
          | GLit d => Ascii.eqb c d
          | GSet neg items => xorb neg (existsb (in_item c) items)
          | _ => true
          end && glob_match ts' s'
      end
  end.

Definition fnmatchcase (name pat : string) : bool :=
  glob_match (parse_glob (String.length pat) pat) name.

(** ** State *)
Record catalog : Type := Catalog {
  cat_ops : dict string op_spec;
  cat_impls : dict string impl;
  cat_version : option string;
}.

(** [Catalog.__init__] *)
Definition empty_catalog : catalog := Catalog [] [] None.

(** [Catalog.register_op] *)
Definition register_op (s : op_spec) (c : catalog) : res catalog :=
  let ok := match dget (cat_ops c) (os_name s) with
            | Some existing => bool_decide (existing = s)
            | None => true
            end in
  if ok then Ok (Catalog (dset (cat_ops c) (os_name s) s) (cat_impls c) None)
  else Err ValueError.

(** [Catalog.register] *)
Definition register (i : impl) (c : catalog) : res catalog :=
  s ← of_option UnknownOperationError (dget (cat_ops c) (im_op i));
  let ok := match dget (cat_impls c) (im_kernel_id i) with
            | Some existing => im_object existing =? im_object i
            | None => true
            end in
  if negb ok then Err ValueError
  else
    _ ← check_against i s;
    Ok (Catalog (cat_ops c) (dset (cat_impls c) (im_kernel_id i) i) None).

(** [Catalog.register_many]: the rows before a failing one stay registered. *)
Fixpoint register_many (is_ : list impl) (c : catalog) : catalog * res unit :=
  match is_ with
  | [] => (c, Ok ())
  | i :: is' =>
      match register i c with
      | Ok c' => register_many is' c'
      | Err e => (c, Err e)
      end
  end.

(** ** Lookups *)
Definition op (c : catalog) (name : string) : res op_spec :=
  of_option UnknownOperationError (dget (cat_ops c) (lower name)).

Definition maybe_op (c : catalog) (name : string) : option op_spec :=
  dget (cat_ops c) (lower name).

Definition ops (c : catalog) : list op_spec :=
  omap (dget (cat_ops c)) (sort_str (dkeys (cat_ops c))).

Definition get (c : catalog) (kernel_id : string) : res impl :=
  of_option UnknownKernelError (dget (cat_impls c) (lower kernel_id)).

Definition maybe_get (c : catalog) (kernel_id : string) : option impl :=
  dget (cat_impls c) (lower kernel_id).

(** The key [(-priority, kernel_id)]. *)
Definition impl_le (a b : impl) : Prop :=
  im_priority b < im_priority a
  ∨ (im_priority a = im_priority b ∧ String.le (im_kernel_id a) (im_kernel_id b)).

#[export] Instance impl_le_dec : RelDecision impl_le.
Proof. intros a b. unfold impl_le. apply _. Defined.

(** [Catalog.impls] *)
Definition impls (c : catalog) (op_name : option string) : list impl :=
  py_sorted impl_le
    match op_name with
    | Some o => filter (λ i, im_op i = lower o) (dvals (cat_impls c))
    | None => dvals (cat_impls c)
    end.

Definition kernel_ids (c : catalog) : list string := sort_str (dkeys (cat_impls c)).

(** [Catalog.match_ids] *)
Definition match_ids (c : catalog) (pattern : string) : list string :=
  filter (λ k, fnmatchcase k (lower pattern) = true) (kernel_ids c).

Definition backend_of (i : impl) : string := (partition "." (im_kernel_id i)).1.1.

(** [Catalog.backends] *)
Definition backends (c : catalog) (op_name : option string) : list string :=
  sort_str (remove_dups (backend_of <$> impls c op_name)).

(** [Catalog.ids_for_backend] *)
Definition ids_for_backend (c : catalog) (op_name backend : string) : list string :=
  let wanted := replace_char "-" "_" (lower (strip backend)) in
  im_kernel_id <$> filter (λ i, backend_of i = wanted) (impls c (Some op_name)).

(** [Catalog.libraries] *)
Definition libraries (c : catalog) (op_name : option string) : gset string :=
  ⋃ (libraries_of <$> impls c op_name).

(** [Catalog.coverage_gaps] *)
Definition coverage_gap (c : catalog) (s : op_spec) : option string :=
  match impls c (Some (os_name s)) with
  | [] => Some "no implementations registered"
  | rows =>
      if os_requires_reference s && negb (existsb im_reference rows)
      then Some ("no reference implementation; candidates are "
                 +:+ join ", " (im_kernel_id <$> rows))
      else None
  end.

Definition coverage_gaps (c : catalog) : dict string string :=
  foldl (λ gaps s, match coverage_gap c s with
                   | Some text => dset gaps (os_name s) text
                   | None => gaps
                   end) [] (ops c).

(** ** The fingerprint *)
Record row_payload : Type := RowPayload {
  rp_id : string;
  rp_op : string;
  rp_priority : Z;
  rp_reference : bool;
  rp_capture_safe : bool;
  rp_when : string;
  rp_params : list (string * (param_rule * option string));
}.

Definition name_le {A} (a b : string * A) : Prop := String.le a.1 b.1.
#[export] Instance name_le_dec {A} : RelDecision (@name_le A).
Proof. intros a b. unfold name_le. apply _. Defined.

Definition payload_of (i : impl) : row_payload :=
  RowPayload (im_kernel_id i) (im_op i) (im_priority i) (im_reference i) (im_capture_safe i)
    (render (im_when i))
    ((λ p, (p.1, (pc_rule p.2, pc_dtype p.2))) <$> py_sorted name_le (im_params i)).

(** [Catalog.version]; [digest] is the hash of the JSON encoding.  Reading it
    fills the cache. *)
Definition version (digest : list row_payload → string) (c : catalog) : catalog * string :=
  match cat_version c with
  | Some v => (c, v)
  | None =>
      let v := digest (payload_of <$> impls c None) in
      (Catalog (cat_ops c) (cat_impls c) (Some v), v)
  end.

(** [Catalog.describe] *)
Fixpoint spaces (n : nat) : string :=
  match n with O => EmptyString | S n' => String " " (spaces n') end.
Definition ljust (s : string) (width : nat) : string :=
  s +:+ spaces (width - String.length s).

Definition describe (c : catalog) : string :=
  let rows := impls c None in
  let width := list_max (String.length ∘ im_kernel_id <$> rows) in
  join (String newline EmptyString)
    ((λ i, ljust (im_kernel_id i) width +:+ "  " +:+ ljust (im_op i) 22 +:+ "  "
           +:+ render (im_when i)) <$> rows).

(** ** The invariant of a catalog *)
Record catalog_wf (digest : list row_payload → string) (c : catalog) : Prop := {
  wf_ops_nodup : NoDup (dkeys (cat_ops c));
  wf_ops_key : ∀ k s, dget (cat_ops c) k = Some s → os_name s = k;
  wf_impls_nodup : NoDup (dkeys (cat_impls c));
  wf_impls_key : ∀ k i, dget (cat_impls c) k = Some i → im_kernel_id i = k;
  wf_checked : ∀ k i, dget (cat_impls c) k = Some i →
    ∃ s, dget (cat_ops c) (im_op i) = Some s ∧ check_against i s = Ok ();
  wf_version : ∀ v, cat_version c = Some v → v = digest (payload_of <$> impls c None);
}.

Section wf.
Context (digest : list row_payload → string).
Notation wf := (catalog_wf digest).

Lemma empty_catalog_wf : wf empty_catalog.
Proof. split; try done; constructor. Qed.

Lemma register_op_wf s c c' : wf c → register_op s c = Ok c' → wf c'.
Proof.
  intros [Hn Hk Hin Hik Hc Hv] Hr.
  assert (c' = Catalog (dset (cat_ops c) (os_name s) s) (cat_impls c) None
          ∧ ∀ t, dget (cat_ops c) (os_name s) = Some t → t = s) as [-> Hsame].
  { unfold register_op in Hr. destruct (dget (cat_ops c) (os_name s)) as [t|].
    - case_bool_decide; [|done]. injection Hr as <-. split; [done|]. by intros ? [= <-].
    - by injection Hr as <-. }
  assert (Hkeep : ∀ k t, dget (cat_ops c) k = Some t →
                         dget (dset (cat_ops c) (os_name s) s) k = Some t).
  { intros k t Ht. rewrite dget_dset. case_decide as Hd; [subst k|done].
    by rewrite (Hsame _ Ht). }
  split; simpl; try done.
  - by apply dset_NoDup.
  - intros k t. rewrite dget_dset. case_decide; [naive_solver|apply Hk].
  - intros k i Hi. destruct (Hc _ _ Hi) as (t & Ht & Hok). eauto.
Qed.

Lemma register_inv i c c' : register i c = Ok c' →
  ∃ s, dget (cat_ops c) (im_op i) = Some s ∧ check_against i s = Ok ()
       ∧ c' = Catalog (cat_ops c) (dset (cat_impls c) (im_kernel_id i) i) None
       ∧ (∀ e, dget (cat_impls c) (im_kernel_id i) = Some e → im_object e = im_object i).
Proof.
  unfold register. destruct (dget (cat_ops c) (im_op i)) as [s|]; simpl; [|done].
  intros H. exists s. split; [done|]. case_match eqn:Hb; [done|].
  destruct (check_against i s) as [[]|]; simpl in H; [|done]. injection H as <-.
  split_and!; [done|done|]. intros e He. rewrite He in Hb. lia.
Qed.

Lemma register_wf i c c' : wf c → register i c = Ok c' → wf c'.
Proof.
  intros [Hn Hk Hin Hik Hc Hv] (s & Hs & Hok & -> & _)%register_inv.
  split; simpl; try done.
  - by apply dset_NoDup.
  - intros k j. rewrite dget_dset. case_decide; [naive_solver|apply Hik].
  - intros k j. rewrite dget_dset. case_decide; [|by apply Hc].
    intros [= <-]. eauto.
Qed.

Lemma register_many_wf is_ c : wf c → wf (register_many is_ c).1.
Proof.
  revert c. induction is_ as [|i is_ IH]; intros c H; simpl; [done|].
  destruct (register i c) as [c'|e] eqn:E; simpl; [|done].
  by apply IH, (register_wf i c).
Qed.

Lemma version_wf c : wf c → wf (version digest c).1.
Proof.
  intros Hwf. unfold version. destruct (cat_version c) eqn:E; simpl; [done|].
  destruct Hwf. split; simpl; try done. by intros v [= <-].
Qed.
End wf.

(** ** Listings *)
#[export] Instance impl_le_trans : Transitive impl_le.
Proof.
  intros a b c [H|[H1 H2]] [K|[K1 K2]]; unfold impl_le; [left; lia|left; lia|left; lia|right].
  split; [congruence|by etrans].
Qed.

#[export] Instance impl_le_total : Total impl_le.
Proof.
  intros a b. unfold impl_le.
  destruct (Z.lt_trichotomy (im_priority a) (im_priority b)) as [?|[He|?]]; [by right; left| |by left; left].
  destruct (total String.le (im_kernel_id a) (im_kernel_id b)); [left|right]; auto.
Qed.

Lemma impl_le_ids a b : impl_le a b → impl_le b a → im_kernel_id a = im_kernel_id b.
Proof.
  intros [H|[H1 H2]] [K|[K1 K2]]; try lia. by apply (anti_symm String.le).
Qed.

(** The rows listed for an operation ([None]: for every operation). *)
Definition listed (op_name : option string) (i : impl) : Prop :=
  match op_name with Some o => im_op i = lower o | None => True end.

Lemma impls_elem c o i : i ∈ impls c o ↔ i ∈ dvals (cat_impls c) ∧ listed o i.
Proof.
  unfold impls. rewrite py_sorted_elem. destruct o; simpl; [|tauto].
  rewrite list_elem_of_filter. tauto.
Qed.

Lemma dvals_dget {K V} `{EqDecision K} (d : dict K V) v :
  NoDup (dkeys d) → v ∈ dvals d ↔ ∃ k, dget d k = Some v.
Proof.
  intros Hn. unfold dvals. rewrite list_elem_of_fmap. split.
  - intros ([k w] & -> & Hin). exists k. by apply elem_dget.
  - intros [k Hk%dget_elem]. by exists (k, v).
Qed.

Lemma impls_registered digest c o i : catalog_wf digest c →
  i ∈ impls c o ↔ dget (cat_impls c) (im_kernel_id i) = Some i ∧ listed o i.
Proof.
  intros Hwf. rewrite impls_elem, dvals_dget by apply Hwf. split.
  - intros [[k Hk] Hl]. split; [|done]. by rewrite (wf_impls_key _ _ Hwf _ _ Hk).
  - intros [Hk Hl]. split; [by eexists|done].
Qed.

Lemma same_id digest c i j : catalog_wf digest c →
  i ∈ dvals (cat_impls c) → j ∈ dvals (cat_impls c) → im_kernel_id i = im_kernel_id j → i = j.
Proof.
  intros Hwf. rewrite !dvals_dget by apply Hwf. intros [k Hk] [l Hl] Hid.
  rewrite <-(wf_impls_key _ _ Hwf _ _ Hk), Hid, (wf_impls_key _ _ Hwf _ _ Hl) in Hk. congruence.
Qed.

Lemma dict_ids (d : dict string impl) : (∀ k i, (k, i) ∈ d → im_kernel_id i = k) →
  im_kernel_id <$> dvals d = dkeys d.
Proof.
  unfold dvals, dkeys. induction d as [|[k i] d IH]; intros H; [done|]. simpl. f_equal.
  - apply H. by left.
  - apply IH. intros k' j Hj. apply H. by right.
Qed.

Lemma NoDup_fmap_sublist {A B} (f : A → B) l k :
  l `sublist_of` k → NoDup (f <$> k) → NoDup (f <$> l).
Proof. intros Hs Hn. eapply sublist_NoDup; [exact Hn|by apply fmap_sublist]. Qed.

Lemma impls_ids_nodup digest c o : catalog_wf digest c → NoDup (im_kernel_id <$> impls c o).
Proof.
  intros Hwf. assert (NoDup (im_kernel_id <$> dvals (cat_impls c))) as Hn.
  { rewrite dict_ids; [apply Hwf|]. intros k i Hin. apply (wf_impls_key _ _ Hwf).
    apply elem_dget; [apply Hwf|done]. }
  unfold impls. rewrite py_sorted_perm. destruct o as [o|]; [|done].
  eapply NoDup_fmap_sublist; [apply (sublist_filter (λ i, im_op i = lower o))|done].
Qed.

Lemma dvals_wf_perm digest c1 c2 :
  catalog_wf digest c1 → catalog_wf digest c2 →
  (∀ k, dget (cat_impls c1) k = dget (cat_impls c2) k) →
  dvals (cat_impls c1) ≡ₚ dvals (cat_impls c2).
Proof.
  intros H1 H2 He. unfold dvals. apply fmap_Permutation.
  apply NoDup_Permutation.
  - by eapply NoDup_fmap_1, H1.
  - by eapply NoDup_fmap_1, H2.
  - intros [k v]. split; intros Hin.
    + apply dget_elem. rewrite <-He. apply elem_dget; [apply H1|done].
    + apply dget_elem. rewrite He. apply elem_dget; [apply H2|done].
Qed.

Lemma impls_perm digest c1 c2 o :
  catalog_wf digest c1 → catalog_wf digest c2 →
  (∀ k, dget (cat_impls c1) k = dget (cat_impls c2) k) →
  impls c1 o = impls c2 o.
Proof.
  intros H1 H2 He. pose proof (dvals_wf_perm _ _ _ H1 H2 He) as Hp.
  apply (StronglySorted_unique_strong impl_le).
  - intros x y Hx%impls_elem Hy%impls_elem Hxy Hyx. destruct Hx as [Hx _], Hy as [Hy _].
    rewrite <-Hp in Hy. eapply same_id; [exact H1|done|done|by apply impl_le_ids].
  - unfold impls. apply py_sorted_sorted; apply _.
  - unfold impls. apply py_sorted_sorted; apply _.
  - unfold impls. rewrite !py_sorted_perm. destruct o; [|done]. by rewrite Hp.
Qed.

(** ** Reachable catalogs *)
Inductive catalog_step (digest : list row_payload → string) : catalog → catalog → Prop :=
  | step_register_op s c c' : register_op s c = Ok c' → catalog_step digest c c'
  | step_register i c c' : register i c = Ok c' → catalog_step digest c c'
  | step_register_many is_ c : catalog_step digest c (register_many is_ c).1
  | step_version c : catalog_step digest c (version digest c).1.

Definition reachable_catalog (digest : list row_payload → string) (c : catalog) : Prop :=
  rtc (catalog_step digest) empty_catalog c.

Lemma reachable_wf digest c : reachable_catalog digest c → catalog_wf digest c.
Proof.
  revert c. apply rtc_ind_r; [apply empty_catalog_wf|].
  intros c1 c2 _ Hs Hwf. destruct Hs.
  - by eapply register_op_wf.
  - by eapply register_wf.
  - by apply register_many_wf.
  - by apply version_wf.
Qed.

(** In every catalog reached by registrations (accepted or refused, one
    by one or in bulk) and fingerprint reads, ids are unique, every row sits
    under its own id, its operation is registered and the row still passes
    that schema's checks, and the cached fingerprint is the one of the
    current rows. *)
Theorem reachable_catalog_wf digest c :
  reachable_catalog digest c →
  NoDup (dkeys (cat_impls c))
  ∧ (∀ k i, dget (cat_impls c) k = Some i →
       im_kernel_id i = k
       ∧ ∃ s, dget (cat_ops c) (im_op i) = Some s ∧ os_name s = im_op i
              ∧ check_against i s = Ok ())
  ∧ (version digest c).2 = digest (payload_of <$> impls c None).
Proof.
  intros Hwf%reachable_wf. split_and!; [apply Hwf| |].
  - intros k i Hi. split; [by apply (wf_impls_key _ _ Hwf)|].
    destruct (wf_checked _ _ Hwf _ _ Hi) as (s & Hs & Hok). exists s.
    split_and!; [done|by apply (wf_ops_key _ _ Hwf)|done].
  - unfold version. destruct (cat_version c) as [v|] eqn:E; [|done].
    by apply (wf_version _ _ Hwf).
Qed.

(** A listing is a function of the registered rows: for reachable
    catalogs that hold the same rows, however they were registered, [impls]
    is the same list; it holds exactly the operation's rows, once each, by
    descending priority and then by id. *)
Theorem impls_deterministic digest c1 c2 o :
  reachable_catalog digest c1 → reachable_catalog digest c2 →
  (∀ k, dget (cat_impls c1) k = dget (cat_impls c2) k) →
  impls c1 o = impls c2 o
  ∧ StronglySorted impl_le (impls c1 o)
  ∧ NoDup (im_kernel_id <$> impls c1 o)
  ∧ ∀ i, i ∈ impls c1 o ↔ dget (cat_impls c1) (im_kernel_id i) = Some i ∧ listed o i.
Proof.
  intros H1%reachable_wf H2%reachable_wf He. split_and!.
  - by eapply impls_perm.
  - unfold impls. apply py_sorted_sorted; apply _.
  - by apply (impls_ids_nodup digest).
  - intros i. by apply (impls_registered digest).
Qed.

(** ** Globs *)
Definition plain_char (c : ascii) : bool :=
  negb (Ascii.eqb c "*" || Ascii.eqb c "?" || Ascii.eqb c "[").

Lemma parse_plain n p q : sforall plain_char p = true → (String.length p ≤ n)%nat →
  parse_glob n (p +:+ q)
  = (GLit <$> list_ascii_of_string p) ++ parse_glob (n - String.length p) q.
Proof.
  revert n. induction p as [|c p IH]; intros n; simpl.
  { intros _ _. by rewrite Nat.sub_0_r. }
  intros [Hc Hp]%andb_prop Hn. destruct n as [|n]; [lia|]. simpl.
  unfold plain_char in Hc. apply negb_true_iff in Hc.
  apply orb_false_iff in Hc as [[-> ->]%orb_false_iff ->]. f_equal. apply IH; [done|lia].
Qed.

Lemma glob_match_lits p ts s :
  glob_match ((GLit <$> list_ascii_of_string p) ++ ts) s = true
  ↔ ∃ r, s = p +:+ r ∧ glob_match ts r = true.
Proof.
  revert s. induction p as [|c p IH]; intros s.
  { simpl. split; [eauto|by intros (r & -> & H)]. }
  simpl. destruct s as [|d s]; [split; [done|by intros (r & ? & _)]|].
  rewrite andb_true_iff, IH. split.
  - intros [Hd (r & -> & H)]. apply Ascii.eqb_eq in Hd as ->. by exists r.
  - intros (r & [= -> ->] & H). split; [apply Ascii.eqb_refl|by exists r].
Qed.

Lemma glob_star s : glob_match [GStar] s = true.
Proof. induction s as [|c s IH]; [done|]. exact IH. Qed.

Lemma string_length_app s t : String.length (s +:+ t) = (String.length s + String.length t)%nat.
Proof. induction s as [|c s IH]; simpl; [done|]. by rewrite <-IH. Qed.

(** [fnmatchcase] on the two shapes of pattern that policies use: a
    pattern without wildcards matches only itself, and a prefix followed by
    ["*"] matches exactly the names with that prefix. *)
Theorem fnmatch_plain_and_prefix p name :
  sforall plain_char p = true →
  (fnmatchcase name p = true ↔ name = p)
  ∧ (fnmatchcase name (p +:+ "*") = true ↔ ∃ rest, name = p +:+ rest).
Proof.
  intros Hp. unfold fnmatchcase. split.
  - rewrite <-(sapp_nil p) at 2. rewrite parse_plain by done. rewrite Nat.sub_diag. simpl.
    rewrite glob_match_lits. simpl. split.
    + intros (r & -> & Hr). destruct r; [by rewrite sapp_nil|done].
    + intros ->. exists "". by rewrite sapp_nil.
  - rewrite parse_plain by (done || rewrite string_length_app; lia).
    rewrite string_length_app. replace (_ + _ - _)%nat with 1%nat by (simpl; lia).
    rewrite glob_match_lits. simpl parse_glob. setoid_rewrite glob_star. naive_solver.
Qed.

(** ** Coverage *)
Lemma ops_elem digest c s : catalog_wf digest c →
  s ∈ ops c ↔ dget (cat_ops c) (os_name s) = Some s.
Proof.
  intros Hwf. unfold ops. rewrite list_elem_of_omap. setoid_rewrite sort_str_elem.
  setoid_rewrite <-dget_is_Some. split.
  - intros (k & _ & Hk). by rewrite (wf_ops_key _ _ Hwf _ _ Hk).
  - intros H. exists (os_name s). split; [by eexists|done].
Qed.

Lemma coverage_gap_some c s :
  is_Some (coverage_gap c s) ↔
  impls c (Some (os_name s)) = []
  ∨ (os_requires_reference s = true
     ∧ ∀ i, i ∈ impls c (Some (os_name s)) → im_reference i = false).
Proof.
  unfold coverage_gap. destruct (impls c (Some (os_name s))) as [|i l]; [split; eauto|].
  destruct (os_requires_reference s); cbn [andb].
  2: { split; [by intros [? ?]|by intros [?|[? _]]]. }
  destruct (existsb im_reference (i :: l)) eqn:E; cbn [andb negb].
  - split; [by intros [? ?]|]. intros [?|[_ H]]; [done|].
    apply existsb_exists in E as (j & Hj & Hr). apply list_elem_of_In in Hj.
    rewrite (H _ Hj) in Hr. done.
  - split; [|by eexists]. intros _. right. split; [done|]. intros j Hj.
    apply not_true_is_false. intros Hr. apply not_true_iff_false in E. apply E.
    apply existsb_exists. exists j. split; [by apply list_elem_of_In|done].
Qed.

Lemma coverage_fold c ss gaps n :
  is_Some (dget (foldl (λ gaps s, match coverage_gap c s with
                                  | Some text => dset gaps (os_name s) text
                                  | None => gaps
                                  end) gaps ss) n)
  ↔ is_Some (dget gaps n) ∨ ∃ s, s ∈ ss ∧ os_name s = n ∧ is_Some (coverage_gap c s).
Proof.
  revert gaps. induction ss as [|s ss IH]; intros gaps; simpl.
  { split; [by left|]. intros [?|(s & ?%elem_of_nil & _)]; done. }
  rewrite IH. setoid_rewrite elem_of_cons. destruct (coverage_gap c s) as [t|] eqn:E.
  - rewrite dget_dset. case_decide as Hd; split; naive_solver.
  - split; [naive_solver|]. intros [?|(t & [->|?] & ? & Hg)]; [by left| |right; eauto].
    rewrite E in Hg. by destruct Hg.
Qed.

(** The reported coverage gaps are exactly the registered operations
    that have no implementation, or that require a reference implementation
    and have none. *)
Theorem coverage_gaps_exact digest c name :
  reachable_catalog digest c →
  is_Some (dget (coverage_gaps c) name) ↔
  ∃ s, dget (cat_ops c) name = Some s
    ∧ (impls c (Some name) = []
       ∨ (os_requires_reference s = true
          ∧ ∀ i, i ∈ impls c (Some name) → im_reference i = false)).
Proof.
  intros Hwf%reachable_wf. unfold coverage_gaps. rewrite coverage_fold. simpl. split.
  - intros [[? ?]|(s & Hs%(ops_elem digest) & <- & Hg)]; [done| |done].
    exists s. split; [done|]. by apply coverage_gap_some.
  - intros (s & Hs & Hg). right. exists s.
    pose proof (wf_ops_key _ _ Hwf _ _ Hs) as Hn. rewrite <-Hn in Hs, Hg.
    split_and!; [by apply (ops_elem digest)|done|by apply coverage_gap_some].
Qed.

(** ** A concrete catalog *)
Definition sample_digest (rows : list row_payload) : string := join ";" (rp_id <$> rows).

Definition norm_catalog : catalog :=
  Catalog [(os_name norm_spec, norm_spec)] [] None.

Definition sample_catalog : catalog := (register_many norm_rows norm_catalog).1.

Definition sample_catalog_rev : catalog := (register_many (rev norm_rows) norm_catalog).1.

Lemma sample_reachable : reachable_catalog sample_digest sample_catalog.
Proof.
  eapply rtc_l; [by apply (step_register_op _ norm_spec)|].
  apply rtc_once, step_register_many.
Qed.

Lemma sample_rev_reachable : reachable_catalog sample_digest sample_catalog_rev.
Proof.
  eapply rtc_l; [by apply (step_register_op _ norm_spec)|].
  apply rtc_once, step_register_many.
Qed.

Lemma reachable_catalog_wf_witness :
  version sample_digest sample_catalog
    = (Catalog (cat_ops sample_catalog) (cat_impls sample_catalog)
         (Some "cuda.norm;triton.norm;torch.norm"), "cuda.norm;triton.norm;torch.norm")
  ∧ (version sample_digest sample_catalog).2
    = sample_digest (payload_of <$> impls sample_catalog None).
Proof.
  split; [by vm_compute|]. apply (reachable_catalog_wf sample_digest). apply sample_reachable.
Defined.

Lemma impls_deterministic_witness :
  dkeys (cat_impls sample_catalog) ≠ dkeys (cat_impls sample_catalog_rev)
  ∧ impls sample_catalog (Some "Norm.RMS") = impls sample_catalog_rev (Some "Norm.RMS").
Proof.
  split; [by vm_compute|].
  apply (impls_deterministic sample_digest); [apply sample_reachable|apply sample_rev_reachable|].
  intros k. change (cat_impls sample_catalog) with
    [("cuda.norm", nth 0 norm_rows (row "" TRUE 0 []));
     ("torch.norm", nth 1 norm_rows (row "" TRUE 0 []));
     ("triton.norm", nth 2 norm_rows (row "" TRUE 0 []))].
  change (cat_impls sample_catalog_rev) with
    [("triton.norm", nth 2 norm_rows (row "" TRUE 0 []));
     ("torch.norm", nth 1 norm_rows (row "" TRUE 0 []));
     ("cuda.norm", nth 0 norm_rows (row "" TRUE 0 []))].
  simpl. repeat case_decide; congruence.
Defined.

Lemma fnmatch_plain_and_prefix_witness :
  fnmatchcase "triton.norm" ("triton." +:+ "*") = true.
Proof.
  apply (fnmatch_plain_and_prefix "triton." "triton.norm"); [by vm_compute|]. by exists "norm".
Defined.

Lemma coverage_gaps_exact_witness : is_Some (dget (coverage_gaps sample_catalog) "norm.rms").
Proof.
  apply (coverage_gaps_exact sample_digest _ _ sample_reachable).
  exists norm_spec. split; [by vm_compute|]. right. split; [done|].
  intros i Hi. apply impls_elem in Hi as [Hi _]. revert i Hi. apply Forall_forall.
  by repeat constructor.
Defined.
