(* ===== verification/Policy.v ===== *)
(** * Kernel policies

    Models [kernel/policy.py]: the compilation of matchers into predicates,
    rules, the decision of a policy for one call, and the validation of a
    whole policy document against a catalog.

    A document is an [obj]; the members of a sequence literal are scalars.
    [quant_plan_from_mapping] (the quantisation section, another component)
    and the hash behind [Policy.version] are arguments. *)

From S2P Require Export Registry.
From Stdlib Require Import Ascii String.
From stdpp Require Import options.

Local Open Scope Z_scope.

(** ** Objects as Python values *)
Fixpoint obj_repr (o : obj) : string :=
  match o with
  | OVal v => repr v
  | OList l => "[" +:+ join ", " (map obj_repr l) +:+ "]"
  | OMap d => "{" +:+ join ", " (map (λ p, repr_str p.1 +:+ ": " +:+ obj_repr p.2) d) +:+ "}"
  end.

Definition obj_str (o : obj) : string :=
  match o with OVal v => py_str v | _ => obj_repr o end.

Definition obj_bool (o : obj) : bool :=
  match o with
  | OVal v => py_bool v
  | OList l => match l with [] => false | _ => true end
  | OMap d => match d with [] => false | _ => true end
  end.

(** [o or default] *)
Definition obj_or (o : option obj) (dflt : obj) : obj :=
  match o with Some x => if obj_bool x then x else dflt | None => dflt end.

Definition opt_bool (o : option obj) : bool :=
  match o with Some x => obj_bool x | None => false end.

(** [value.get(key)], where an explicit null reads like an absent key. *)
Definition not_none (o : option obj) : option obj :=
  match o with Some (OVal VNone) => None | _ => o end.

(** ** Constants *)
Definition SCHEMA : string := "phyai.kernel/v1".
Definition SCHEMA_VALUES : list value := [VStr SCHEMA; VStr "v1"; VInt 1; VStr "1"].
Definition COMBINATORS : list string := ["any_of"; "all_of"; "none_of"; "when"].
Definition RULE_FIELDS : list string := ["id"; "priority"; "match"; "prefer"; "restrict_to"; "params"].
Definition OVERRIDE_FIELDS : list string := ["id"; "priority"; "match"; "use"; "restrict_to"; "params"].
Definition NAMESPACES : list string := ["device"; "quant"; "model"; "shape"; "dtype"; "attrs"; "lib"].
Definition TOP_FIELDS : list string :=
  ["schema"; "profile"; "defaults"; "rules"; "overrides"; "quantization"].

Definition subset_of (l k : list string) : bool := forallb (λ x, bool_decide (x ∈ k)) l.

(** ** Matchers *)

(** The op-scoped paths of the rule's operation, when the rule names one. *)
Definition spec_paths_t : Type := option (dict string fact_kind).

Definition default_op_scoped_kind (prefix : string) : fact_kind :=
  if String.eqb prefix "shape" then INT
  else if String.eqb prefix "dtype" then DTYPE
  else ANY.

(** [_global_fact] *)
Definition global_fact (path : string) : option fact :=
  list_find (λ f, f_path f = path) GLOBAL_FACTS ≫= λ p, Some p.2.

(** [_fact_for] *)
Definition fact_for (path : string) (spec_paths : spec_paths_t) : res fact :=
  let prefix := path_prefix path in
  let name := path_name path in
  if bool_decide (prefix ∈ OP_SCOPED_PREFIXES) then
    match spec_paths with
    | Some paths =>
        match dget paths path with
        | Some kind => Ok (Fact (prefix +:+ "." +:+ name) kind)
        | None => Err PolicyError
        end
    | None => Ok (Fact (prefix +:+ "." +:+ name) (default_op_scoped_kind prefix))
    end
  else if bool_decide (path ∈ GLOBAL_FACT_PATHS) then of_option PolicyError (global_fact path)
  else if String.eqb prefix "lib" && negb (sempty name) then Ok (Fact path BOOL)
  else if String.eqb prefix "quant" && startswith path "quant.fields." then Ok (Fact path ANY)
  else Err PolicyError.

(** A YAML scalar or sequence of scalars. *)
Definition as_scalar (o : obj) : option value :=
  match o with OVal v => Some v | _ => None end.

Definition as_literal (o : obj) : option literal :=
  match o with
  | OVal v => Some (LitVal v)
  | OList l => LitSeq <$> mapM as_scalar l
  | OMap _ => None
  end.

(** [except (TypeError, ValueError) as exc: raise PolicyError(...)] *)
Definition as_policy_error {A} (m : res A) : res A :=
  match m with
  | Err e => if is_type_or_value_error e then Err PolicyError else Err e
  | Ok a => Ok a
  end.

(** [_literal_predicate] *)
Definition literal_predicate (f : fact) (o : obj) : res predicate :=
  lit ← of_option PolicyError (as_literal o);
  as_policy_error (predicate_from_literal f lit).

(** The last line of [compile_matcher]. *)
Definition conjoin (parts : list predicate) : predicate :=
  match parts with [] => TRUE | [p] => p | _ => all_of parts end.

Definition same_keys (l k : list string) : bool := subset_of l k && subset_of k l.

(** The combinators over compiled clauses. *)
Definition combine (key : string) (clauses : list predicate) : res predicate :=
  match clauses with
  | [] => Err PolicyError
  | _ => Ok (if String.eqb key "all_of" then all_of clauses
             else if String.eqb key "any_of" then any_of clauses
             else none_of clauses)
  end.

(** [compile_matcher] and [_compile_combinator].  [None] for [spec_paths]
    leaves op-scoped facts unchecked. *)
Section compile.
Context (spec_paths : spec_paths_t).

Fixpoint compile_matcher (prefix : string) (matcher : obj) {struct matcher} : res predicate :=
  match matcher with
  | OMap d =>
      parts ←
        (fix items (d : list (string * obj)) : res (list predicate) :=
           match d with
           | [] => Ok []
           | (key, value) :: d' =>
               p ←
                 (if bool_decide (key ∈ COMBINATORS) then
                    if negb (sempty prefix) then Err PolicyError
                    else if String.eqb key "when" then
                      match value with
                      | OMap w =>
                          if negb (same_keys (dkeys w) ["if"; "then"]) then Err PolicyError
                          else
                            let clause :=
                              (fix clause (name : string) (w : list (string * obj)) : res predicate :=
                                 match w with
                                 | [] => Err KeyError
                                 | (k, o) :: w' =>
                                     if String.eqb k name then compile_matcher "" o
                                     else clause name w'
                                 end) in
                            c ← clause "if" w;
                            r ← clause "then" w;
                            Ok (implies c r)
                      | _ => Err PolicyError
                      end
                    else
                      match value with
                      | OList l =>
                          cs ← (fix each (l : list obj) : res (list predicate) :=
                                  match l with
                                  | [] => Ok []
                                  | o :: l' => c ← compile_matcher "" o; cs ← each l'; Ok (c :: cs)
                                  end) l;
                          combine key cs
                      | _ => Err PolicyError
                      end
                  else
                    let path := if sempty prefix then key else prefix +:+ "." +:+ key in
                    match value with
                    | OMap _ =>
                        if sempty prefix && negb (bool_decide (key ∈ NAMESPACES))
                        then Err PolicyError
                        else compile_matcher path value
                    | _ => f ← fact_for path spec_paths; literal_predicate f value
                    end);
               ps ← items d';
               Ok (p :: ps)
           end) d;
      Ok (conjoin parts)
  | _ => Err PolicyError
  end.
End compile.

(** ** Rules *)
Record rule : Type := Rule {
  r_id : string;
  r_priority : Z;
  r_when : predicate;
  r_prefer : list string;
  r_restrict_to : option string;
  r_use : option string;
  r_params : dict string obj;
  r_strict : bool;
  r_source_match : dict string obj;
}.

(** [Rule.__post_init__] *)
Definition mk_rule (r : rule) : rule :=
  Rule (r_id r) (r_priority r) (r_when r) (lower <$> r_prefer r) (lower <$> r_restrict_to r)
    (lower <$> r_use r) (r_params r) (r_strict r) (r_source_match r).

(** [Rule.matches] *)
Definition matches (r : rule) (fs : facts) : res bool :=
  f ← eval (r_when r) fs; Ok (match f with None => true | Some _ => false end).

Record decision : Type := PolicyDecision {
  dc_candidates : list string;
  dc_strict : bool;
  dc_params : dict string obj;
  dc_matched_rules : list string;
}.

(** [Decision.__post_init__] *)
Definition mk_decision (candidates : list string) (strict : bool) (params : dict string obj)
    (matched : list string) : decision :=
  PolicyDecision (lower <$> candidates) strict params matched.

(** [_highest] *)
Definition with_match (fs : facts) (r : rule) : res (rule * bool) :=
  b ← matches r fs; Ok (r, b).

Definition highest (rules : list rule) (fs : facts) : res (option rule) :=
  tested ← rmap (with_match fs) rules;
  let matching := (filter (λ p, p.2 = true) tested).*1 in
  match max_Z (r_priority <$> matching) with
  | None => Ok None
  | Some top =>
      match filter (λ r, r_priority r = top) matching with
      | [w] => Ok (Some w)
      | _ => Err PolicyError
      end
  end.

(** [_expand] *)
Definition expand (r : rule) (c : catalog) : list string :=
  match r_use r, r_restrict_to r with
  | Some u, _ => [u]
  | None, Some g => match_ids c g
  | None, None => r_prefer r
  end.

(** ** Policies *)
Section policy.
Context {plan : Type} (quant_plan_from_mapping : obj → res plan).

Record policy : Type := Policy {
  p_profile : string;
  p_fallback : string;
  p_rules : list rule;
  p_overrides : list rule;
  p_source : option string;
  p_quant_plan : option plan;
}.

(** [Policy.__post_init__] *)
Definition mk_policy (profile fallback : string) (rules overrides : list rule)
    (source : option string) (quant_plan : option plan) : res policy :=
  let profile := lower profile in
  let fallback := lower fallback in
  if negb (bool_decide (profile ∈ ["static"; "autotune"])) then Err PolicyError
  else if negb (bool_decide (fallback ∈ ["reference"; "error"])) then Err PolicyError
  else Ok (Policy profile fallback rules overrides source quant_plan).

(** [Policy.decide] *)
Definition decide_policy (p : policy) (fs : facts) (c : catalog) : res decision :=
  override ← highest (p_overrides p) fs;
  match override with
  | Some o => Ok (mk_decision (expand o c) true (r_params o) [r_id o])
  | None =>
      r ← highest (p_rules p) fs;
      match r with
      | None => Ok (mk_decision [] false [] [])
      | Some r => Ok (mk_decision (expand r c) false (r_params r) [r_id r])
      end
  end.

(** [Policy.facts_used] *)
Definition policy_facts_used (p : policy) : gset string :=
  ⋃ ((λ r, facts_used (r_when r)) <$> p_rules p ++ p_overrides p).

(** [Policy.compute_version]; [digest] hashes the payload. *)
Definition rule_payload_t : Type :=
  string * Z * string * list string * option string * option string * list (string * string).

Definition rule_payload (r : rule) : rule_payload_t :=
  (r_id r, r_priority r, render (r_when r), r_prefer r, r_restrict_to r, r_use r,
   (λ x, (x.1, obj_repr x.2)) <$> r_params r).

Definition compute_version
    (digest : string → string → list rule_payload_t → list rule_payload_t → option plan → string)
    (p : policy) : string :=
  digest (p_profile p) (p_fallback p) (rule_payload <$> p_rules p)
    (rule_payload <$> p_overrides p) (p_quant_plan p).

(** ** Documents *)

(** Iterate [raw.get(key) or ()]; [None] where the value is not iterable. *)
Definition obj_items (o : option obj) : res (list obj) :=
  match obj_or o (OList []) with
  | OList l => Ok l
  | OMap d => Ok ((λ k, OVal (VStr k)) <$> dkeys d)
  | OVal (VStr s) => Ok ((λ a, OVal (VStr (String a EmptyString))) <$> list_ascii_of_string s)
  | OVal (VTup l) => Ok (OVal <$> l)
  | OVal (VSet X) => Ok ((λ x, OVal (VStr x)) <$> elements X)
  | OVal _ => Err TypeError
  end.

(** [prefer = raw.get("prefer") or ()]; a string is one id.  The items as
    the ids they print. *)
Definition prefer_items (o : option obj) : res (list string) :=
  match obj_or o (OList []) with
  | OVal (VStr s) => Ok [s]
  | _ => l ← obj_items o; Ok (map obj_str l)
  end.

(** [dict(o)]: a mapping, or a sequence of pairs. *)
Definition pair_of (o : obj) : res (string * obj) :=
  match o with
  | OList [OVal (VStr k); v] => Ok (k, v)
  | OVal (VTup [VStr k; v]) => Ok (k, OVal v)
  | _ => Err ValueError
  end.

Definition dict_of (o : obj) : res (dict string obj) :=
  match o with
  | OMap d => Ok d
  | OVal (VNone | VBool _ | VInt _) => Err TypeError
  | _ =>
      l ← obj_items (Some o);
      ps ← rmap pair_of l;
      Ok (foldl (λ d p, dset d p.1 p.2) [] ps)
  end.

Definition kind_text (strict : bool) : string := if strict then "override" else "rule".

(** The schema of the operation a matcher names, as [spec_paths]. *)
Definition matcher_paths (m : dict string obj) (c : catalog) : res spec_paths_t :=
  match dget m "op" with
  | Some (OVal (VStr name)) =>
      match maybe_op c name with
      | None => Err PolicyError
      | Some s => Ok (Some ((λ path, (path, kind_of path)) <$> elements (known_paths s)))
      end
  | _ => Ok None
  end.

Definition registered (c : catalog) (kernel_id : string) : bool :=
  bool_decide (is_Some (maybe_get c kernel_id)).

(** [_compile_rule] *)
Definition compile_rule (raw : obj) (index : Z) (c : catalog) (strict : bool) : res rule :=
  match raw with
  | OMap d =>
      _ ← ensure (subset_of (dkeys d) (if strict then OVERRIDE_FIELDS else RULE_FIELDS)) PolicyError;
      let rule_id :=
        match dget d "id" with
        | Some o => obj_str o
        | None => kind_text strict +:+ "-" +:+ z_to_string index
        end in
      match obj_or (dget d "match") (OMap []) with
      | OMap m =>
          paths ← matcher_paths m c;
          when ← compile_matcher paths "" (OMap m);
          let prefer_truth := opt_bool (dget d "prefer") in
          let use := not_none (dget d "use") in
          let restrict_to := not_none (dget d "restrict_to") in
          _ ← ensure (negb (if strict then Bool.eqb (opt_bool use) (opt_bool restrict_to)
                            else Bool.eqb prefer_truth (opt_bool restrict_to))) PolicyError;
          prefer ← prefer_items (dget d "prefer");
          let named := prefer ++ (if opt_bool use then from_option (λ o, [obj_str o]) [] use else []) in
          _ ← ensure (forallb (registered c) named) PolicyError;
          _ ← ensure (negb (opt_bool restrict_to)
                      || negb (bool_decide (from_option (λ o, match_ids c (obj_str o)) [] restrict_to = [])))
                PolicyError;
          priority ← from_option obj_int (Ok 0) (dget d "priority");
          params ← dict_of (obj_or (dget d "params") (OMap []));
          Ok (mk_rule (Rule rule_id priority when prefer (obj_str <$> restrict_to)
                         (obj_str <$> use) params strict m))
      | _ => Err PolicyError
      end
  | _ => Err PolicyError
  end.

Fixpoint compile_rules (raws : list obj) (index : Z) (c : catalog) (strict : bool) : res (list rule) :=
  match raws with
  | [] => Ok []
  | raw :: raws' =>
      r ← compile_rule raw index c strict;
      rs ← compile_rules raws' (index + 1) c strict;
      Ok (r :: rs)
  end.

Definition schema_ok (o : option obj) : res bool :=
  match o with
  | None => Ok true
  | Some (OVal v) => Ok (py_in v SCHEMA_VALUES)
  | Some _ => Err TypeError
  end.

(** [policy_from_mapping] *)
Definition policy_from_mapping (value : obj) (c : catalog) (source : option string) : res policy :=
  match value with
  | OMap d =>
      _ ← ensure (subset_of (dkeys d) TOP_FIELDS) PolicyError;
      ok ← schema_ok (dget d "schema");
      _ ← ensure ok PolicyError;
      match obj_or (dget d "defaults") (OMap []) with
      | OMap defaults =>
          _ ← ensure (subset_of (dkeys defaults) ["fallback"]) PolicyError;
          raw_rules ← obj_items (dget d "rules");
          rules ← compile_rules raw_rules 0 c false;
          raw_overrides ← obj_items (dget d "overrides");
          overrides ← compile_rules raw_overrides 0 c true;
          plan_ ← match not_none (dget d "quantization") with
                  | Some o =>
                      match quant_plan_from_mapping o with
                      | Ok p => Ok (Some p)
                      | Err e => if is_value_error e then Err PolicyError else Err e
                      end
                  | None => Ok None
                  end;
          mk_policy (from_option obj_str "static" (dget d "profile"))
            (from_option obj_str "reference" (dget defaults "fallback"))
            rules overrides source plan_
      | _ => Err PolicyError
      end
  | _ => Err PolicyError
  end.
End policy.
Arguments policy : clear implicits.

(** ** The rule that decides *)

Definition matching_rules (fs : facts) (rules : list rule) : list rule :=
  filter (λ r, matches r fs = Ok true) rules.

Lemma with_match_ok fs rules tested :
  rmap (with_match fs) rules = Ok tested →
  (filter (λ p, p.2 = true) tested).*1 = matching_rules fs rules
  ∧ ∀ r, r ∈ rules → ∃ b, matches r fs = Ok b.
Proof.
  rewrite rmap_ok. unfold matching_rules.
  induction 1 as [|r [r' b] rules tested H _ [IH1 IH2]].
  { split; [done|]. by intros r ?%elem_of_nil. }
  unfold with_match in H. destruct (matches r fs) as [b'|] eqn:E; simpl in H; [|done].
  injection H as <- <-. rewrite !filter_cons, E. simpl. split.
  - destruct b'; [rewrite !decide_True by done|rewrite !decide_False by done]; [|done].
    simpl. by f_equal.
  - intros r0 [->|H]%elem_of_cons; [eauto|by apply IH2].
Qed.

Lemma matching_elem fs rules r :
  r ∈ matching_rules fs rules ↔ r ∈ rules ∧ matches r fs = Ok true.
Proof. unfold matching_rules. rewrite list_elem_of_filter. tauto. Qed.

(** [r] is the only matching rule of its priority, at one position, and all
    other matching rules have a lower one. *)
Definition wins (fs : facts) (rules : list rule) (r : rule) : Prop :=
  ∃ before after, rules = before ++ r :: after ∧ matches r fs = Ok true
    ∧ ∀ r', r' ∈ before ++ after → matches r' fs = Ok true → r_priority r' < r_priority r.

Lemma filter_one {A} (P : A → Prop) `{∀ x, Decision (P x)} l x :
  filter P l = [x] → ∃ l1 l2, l = l1 ++ x :: l2 ∧ P x ∧ (∀ y, y ∈ l1 ++ l2 → ¬ P y).
Proof.
  induction l as [|y l IH]; [done|]. rewrite filter_cons. case_decide as Hy.
  - intros [= -> Hl]. exists [], l. split_and!; [done|done|]. simpl. intros z Hz HP.
    assert (z ∈ filter P l) as Hin by by apply list_elem_of_filter. rewrite Hl in Hin.
    by apply elem_of_nil in Hin.
  - intros (l1 & l2 & -> & Hx & Hall)%IH. exists (y :: l1), l2. split_and!; [done|done|].
    intros z [->|Hz]%elem_of_cons; [done|by apply Hall].
Qed.

(** What [highest] returns on rules that all evaluate. *)
Definition decides (fs : facts) (rules : list rule) (o : option rule) : Prop :=
  match o with
  | None => ∀ r, r ∈ rules → matches r fs = Ok false
  | Some r => (∀ r', r' ∈ rules → ∃ b, matches r' fs = Ok b) ∧ wins fs rules r
  end.

Lemma tested_rules fs rules : (∀ r, r ∈ rules → ∃ b, matches r fs = Ok b) →
  ∃ tested, rmap (with_match fs) rules = Ok tested.
Proof.
  induction rules as [|r rules IH]; intros H; [by exists []|].
  destruct (H r) as [b Hb]; [by left|].
  destruct IH as [tested Ht]; [intros r' Hr'; apply H; by right|].
  exists ((r, b) :: tested). simpl. replace (with_match fs r) with (Ok (r, b) : res (rule * bool)) by (unfold with_match; by rewrite Hb). simpl. by rewrite Ht.
Qed.

Lemma top_filter_wins fs rules top w :
  max_Z (r_priority <$> matching_rules fs rules) = Some top →
  filter (λ r, r_priority r = top) (matching_rules fs rules) = [w] → wins fs rules w.
Proof.
  intros [_ Hmax]%max_Z_spec. unfold matching_rules. rewrite list_filter_filter.
  intros (l1 & l2 & -> & [Htop Hw] & Hne)%filter_one. exists l1, l2. split_and!; [done|done|].
  intros r Hr Hm. assert (r_priority r ≤ top) as Hle.
  { apply Hmax, list_elem_of_fmap. exists r. split; [done|]. apply matching_elem. set_solver. }
  specialize (Hne _ Hr). assert (r_priority r ≠ top) by naive_solver. lia.
Qed.

Lemma wins_top_filter fs rules w : wins fs rules w →
  max_Z (r_priority <$> matching_rules fs rules) = Some (r_priority w)
  ∧ filter (λ r, r_priority r = r_priority w) (matching_rules fs rules) = [w].
Proof.
  intros (l1 & l2 & -> & Hw & Hlt). split.
  - destruct (max_Z _) as [m|] eqn:E.
    + apply max_Z_spec in E as [(r & -> & [Hr Hm]%matching_elem)%list_elem_of_fmap Hmax].
      assert (r_priority w ≤ r_priority r).
      { apply Hmax, list_elem_of_fmap. exists w. split; [done|]. apply matching_elem. set_solver. }
      apply elem_of_app in Hr as [Hr|[->|Hr]%elem_of_cons]; [|done|];
        specialize (Hlt r ltac:(set_solver) Hm); lia.
    + apply max_Z_none, fmap_nil_inv in E. exfalso.
      assert (w ∈ matching_rules fs (l1 ++ w :: l2)) as Hin by (apply matching_elem; set_solver).
      rewrite E in Hin. by apply elem_of_nil in Hin.
  - unfold matching_rules. rewrite list_filter_filter, filter_app, filter_cons_True by done.
    rewrite !filter_none; [done|..]; intros r Hr [He Hm];
      specialize (Hlt r ltac:(set_solver) Hm); lia.
Qed.

Lemma highest_decides fs rules o : highest rules fs = Ok o ↔ decides fs rules o.
Proof.
  unfold highest. split.
  - destruct (rmap (with_match fs) rules) as [tested|] eqn:Ht; simpl; [|done].
    apply with_match_ok in Ht as [-> Hall].
    destruct (max_Z _) as [top|] eqn:Htop.
    + destruct (filter _ _) as [|w [|? ?]] eqn:Hf; [done| |done]. intros [= <-].
      split; [done|]. by eapply top_filter_wins.
    + intros [= <-] r Hr. apply max_Z_none, fmap_nil_inv in Htop.
      destruct (Hall _ Hr) as [[] Hb]; [|done]. exfalso.
      assert (r ∈ matching_rules fs rules) as Hin by by apply matching_elem.
      rewrite Htop in Hin. by apply elem_of_nil in Hin.
  - intros H. assert (∀ r, r ∈ rules → ∃ b, matches r fs = Ok b) as Hall.
    { destruct o as [w|]; [apply H|]. intros r Hr. exists false. by apply H. }
    destruct (tested_rules _ _ Hall) as [tested Ht]. rewrite Ht. simpl.
    apply with_match_ok in Ht as [-> _]. destruct o as [w|].
    + destruct H as [_ [-> ->]%wins_top_filter]. done.
    + replace (matching_rules fs rules) with ([] : list rule); [done|]. symmetry.
      apply filter_none. intros r Hr. by rewrite (H _ Hr).
Qed.

(** The decision of a policy.  Overrides are consulted first: when one
    override matches the call with a priority above every other matching
    override, the decision is strict and names it; when no override matches,
    the rules decide in the same way without strictness; when nothing matches
    the decision is empty.  Nothing else is a decision: a tie at the top
    priority, or a condition that cannot be evaluated, raises. *)
Theorem decide_policy_spec {plan} (p : policy plan) fs c d :
  decide_policy p fs c = Ok d ↔
  (∃ o, decides fs (p_overrides p) (Some o)
        ∧ d = mk_decision (expand o c) true (r_params o) [r_id o])
  ∨ (decides fs (p_overrides p) None
     ∧ ((∃ r, decides fs (p_rules p) (Some r)
              ∧ d = mk_decision (expand r c) false (r_params r) [r_id r])
        ∨ (decides fs (p_rules p) None ∧ d = mk_decision [] false [] []))).
Proof.
  unfold decide_policy. setoid_rewrite <-highest_decides.
  destruct (highest (p_overrides p) fs) as [[o|]|]; simpl; [naive_solver| |naive_solver].
  destruct (highest (p_rules p) fs) as [[r|]|]; simpl; naive_solver.
Qed.

(** ** Compiled conditions read declared facts only *)

Lemma facts_used_all_of ps : facts_used (all_of ps) ⊆ ⋃ map facts_used ps.
Proof. destruct ps; [done|]. apply facts_used_mk_and. Qed.

Lemma facts_used_any_of ps : facts_used (any_of ps) ⊆ ⋃ map facts_used ps.
Proof. destruct ps; [done|]. apply facts_used_mk_or. Qed.

Lemma facts_used_conjoin ps : facts_used (conjoin ps) ⊆ ⋃ map facts_used ps.
Proof.
  destruct ps as [|p [|q ps]]; [done|simpl; set_solver|]. apply (facts_used_all_of (p :: q :: ps)).
Qed.

Lemma literal_facts f lit p :
  predicate_from_literal f lit = Ok p → facts_used p ⊆ {[ f_path f ]}.
Proof.
  assert (Hin : ∀ vs q, mk_in f vs = Ok q → facts_used q ⊆ {[ f_path f ]}).
  { unfold mk_in. intros vs q H. inv_bind. done. }
  assert (Hcmp : ∀ o v q, mk_cmp f o v = Ok q → facts_used q ⊆ {[ f_path f ]}).
  { unfold mk_cmp. intros o v q H. case_match; [done|]. inv_bind. done. }
  assert (Hstr : ∀ s q, string_literal f s = Ok (Some q) → facts_used q ⊆ {[ f_path f ]}).
  { unfold string_literal, arch_comparator, mk_arch_at_least, mk_mod. intros s q H.
    repeat case_match; inv_bind; simplify_eq; try done;
      repeat case_match; inv_bind; simplify_eq; try done; by eapply Hcmp. }
  assert (Hseq : ∀ vs q,
    (if bool_decide (f_kind f = STRSET) then Ok (mk_set_intersects f vs)
     else if existsb is_glob vs then Err ValueError else mk_in f vs) = Ok q →
    facts_used q ⊆ {[ f_path f ]}).
  { intros vs q H. repeat case_match; try done; [by injection H as <-|by eapply Hin]. }
  unfold predicate_from_literal. destruct lit as [v|vs]; [|apply Hseq].
  assert (Hscalar : ∀ v q,
    (if bool_decide (f_kind f = STRSET) then Ok (mk_set_has f v)
     else special ← match v with VStr s => string_literal f s | _ => Ok None end;
          match special with
          | Some p => Ok p
          | None => if bool_decide (f_kind f = ARCH) && is_number v then Err ValueError
                    else mk_cmp f OEq v
          end) = Ok q → facts_used q ⊆ {[ f_path f ]}).
  { intros u q H. case_match; [by injection H as <-|].
    destruct (match u with VStr s => string_literal f s | _ => Ok None end) as [[x|]|] eqn:E;
      simpl in H; [|case_match; [done|by eapply Hcmp]|done].
    injection H as <-. destruct u; try done. by eapply Hstr. }
  destruct v; try apply Hscalar; try apply Hseq. intros [= <-]. done.
Qed.

(** A path a policy may read: declared by the operation, or global. *)
Definition valid_path (known : gset string) (path : string) : Prop :=
  op_scoped path = true → path ∈ known.

(** What the schema of a rule's operation gives [fact_for]. *)
Definition paths_of (s : op_spec) : spec_paths_t :=
  Some ((λ path, (path, kind_of path)) <$> elements (known_paths s)).

Lemma paths_of_keys s path :
  is_Some (dget ((λ path, (path, kind_of path)) <$> elements (known_paths s)) path) →
  path ∈ known_paths s.
Proof.
  intros [k Hk%dget_elem]. apply list_elem_of_fmap in Hk as (q & [= -> ->] & Hq).
  by apply elem_of_elements.
Qed.

Lemma partition_join sep s a b r : partition sep s = (a, b, r) →
  if b then s = a +:+ String sep r else s = a ∧ r = EmptyString.
Proof.
  revert a b r. induction s as [|c s IH]; intros a b r; simpl.
  { by intros [= <- <- <-]. }
  destruct (Ascii.eqb_spec c sep) as [->|Hc]; [by intros [= <- <- <-]|].
  destruct (partition sep s) as [[a' b'] r'] eqn:E. intros [= <- <- <-].
  specialize (IH _ _ _ eq_refl). destruct b'; [by rewrite IH|]. destruct IH as [-> ->]. done.
Qed.

(** Declared paths have a dot, so a fact keeps the path it was found under. *)
Lemma known_path_dot s path : path ∈ known_paths s →
  path_prefix path +:+ "." +:+ path_name path = path.
Proof.
  intros Hp. unfold path_prefix, path_name.
  destruct (partition "." path) as [[a b] r] eqn:E. simpl.
  apply partition_join in E as Hj. destruct b; [by rewrite Hj|].
  destruct Hj as [-> ->]. exfalso.
  unfold known_paths, paths_under in Hp.
  rewrite elem_of_list_to_set, !elem_of_app, !list_elem_of_fmap in Hp.
  destruct Hp as [(x & -> & _)|[(x & -> & _)|(x & -> & _)]]; simpl in E;
    by destruct (partition "." x) as [[? ?] ?].
Qed.

Lemma fact_for_valid s path f : fact_for path (paths_of s) = Ok f →
  valid_path (known_paths s) (f_path f).
Proof.
  unfold fact_for, valid_path. case_bool_decide as Hp.
  - simpl. destruct (dget _ path) as [k|] eqn:Hk; [|done]. intros [= <-]. simpl. intros _.
    assert (path ∈ known_paths s) as Hin by by apply paths_of_keys.
    by rewrite (known_path_dot s).
  - case_bool_decide as Hg.
    + destruct (global_fact path) as [g|] eqn:E; simpl; [|done]. intros [= <-].
      unfold global_fact in E. destruct (list_find _ _) as [[i x]|] eqn:Hf; simpl in E; [|done].
      injection E as <-. apply list_find_Some in Hf as (_ & <- & _).
      unfold op_scoped. by rewrite bool_decide_eq_false_2.
    + repeat case_match; try done; intros [= <-]; simpl; unfold op_scoped;
        by rewrite bool_decide_eq_false_2.
Qed.

Section compiled.
Context (s : op_spec).
Notation valid p := (∀ path, path ∈ facts_used p → valid_path (known_paths s) path).

Lemma valid_union ps q : facts_used q ⊆ ⋃ map facts_used ps → Forall (λ p, valid p) ps → valid q.
Proof.
  intros Hq Hps path Hp%Hq. apply elem_of_union_list in Hp as (X & (p & -> & Hin)%list_elem_of_fmap & Hx).
  rewrite Forall_forall in Hps. by eapply Hps.
Qed.

Definition compiles_valid (o : obj) : Prop :=
  ∀ prefix p, compile_matcher (paths_of s) prefix o = Ok p → valid p.

(** The statement with the members of a sequence or mapping included. *)
Definition compiles_valid_deep (o : obj) : Prop :=
  compiles_valid o
  ∧ match o with
    | OVal _ => True
    | OList l => Forall compiles_valid l
    | OMap d => Forall (λ p, compiles_valid p.2) d
    end.

Lemma combine_valid key cs q : combine key cs = Ok q → Forall (λ p, valid p) cs → valid q.
Proof.
  unfold combine. destruct cs as [|c cs]; [done|]. intros [= <-] H.
  eapply valid_union; [|exact H].
  destruct (String.eqb key "all_of"); [apply (facts_used_mk_and (c :: cs))|].
  destruct (String.eqb key "any_of"); apply (facts_used_mk_or (c :: cs)).
Qed.

Lemma literal_predicate_valid f o p :
  literal_predicate f o = Ok p → valid_path (known_paths s) (f_path f) → valid p.
Proof.
  unfold literal_predicate, as_policy_error. intros H Hf.
  apply bind_ok in H as (x & _ & H).
  destruct (predicate_from_literal f x) as [q|e] eqn:E; [|by destruct (is_type_or_value_error e)].
  injection H as <-. intros path0 Hp%(literal_facts _ _ _ E).
  apply elem_of_singleton in Hp as ->. by apply Hf.
Qed.

(** One entry of a mapping, as [compile_matcher] compiles it. *)
Lemma compile_items_valid prefix d p :
  Forall (λ q, compiles_valid_deep q.2) d →
  compile_matcher (paths_of s) prefix (OMap d) = Ok p → valid p.
Proof.
  intros Hd H. simpl in H. apply bind_ok in H as (parts & Hparts & [= <-]).
  eapply valid_union; [apply facts_used_conjoin|]. revert parts Hparts.
  induction Hd as [|[key value] d [Hv Hdeep] _ IH]; intros parts Hparts.
  { by injection Hparts as <-. }
  apply bind_ok in Hparts as (q & Hq & Hparts). apply bind_ok in Hparts as (qs & Hqs & [= <-]).
  constructor; [|by apply IH]. clear IH Hqs. simpl in Hv, Hdeep.
  case_bool_decide as Hk; [destruct (sempty prefix); [simpl in Hq|done]; destruct (String.eqb key "when")|].
  - destruct value as [v|l|w]; [done|done|]. case_match; [done|].
    apply bind_ok in Hq as (a & Ha & Hq). apply bind_ok in Hq as (b & Hb & [= <-]).
    assert (Hc : ∀ name x,
      (fix clause (name : string) (w : list (string * obj)) : res predicate :=
         match w with
         | [] => Err KeyError
         | (k, o) :: w' => if String.eqb k name then compile_matcher (paths_of s) "" o
                           else clause name w'
         end) name w = Ok x → valid x).
    { intros name x. clear -Hdeep. induction Hdeep as [|[k o] w Ho _ IH]; [done|].
      destruct (String.eqb k name); [apply Ho|apply IH]. }
    intros path [Hp|Hp]%elem_of_union; [by eapply (Hc "if")|by eapply (Hc "then")].
  - destruct value as [v|l|w]; [done| |done].
    apply bind_ok in Hq as (cs & Hcs & Hq). eapply combine_valid; [exact Hq|].
    clear -Hdeep Hcs. revert cs Hcs. induction Hdeep as [|o l Ho _ IH]; intros cs Hcs.
    { by injection Hcs as <-. }
    apply bind_ok in Hcs as (c & Hc & Hcs). apply bind_ok in Hcs as (cs' & Hcs' & [= <-]).
    constructor; [by eapply Ho|by apply IH].
  - destruct value as [v|l|w].
    3: { case_match; [done|]. by eapply Hv. }
    all: apply bind_ok in Hq as (f & Hf & Hq);
      eapply literal_predicate_valid; [exact Hq|by eapply fact_for_valid].
Qed.

Lemma compile_matcher_valid o : compiles_valid_deep o.
Proof.
  induction o as [v|l IH|d IH] using obj_ind'.
  - by split.
  - split; [by intros prefix p|]. eapply Forall_impl; [exact IH|]. by intros o [].
  - split.
    + intros prefix p. by apply compile_items_valid.
    + eapply Forall_impl; [exact IH|]. by intros o [].
Qed.
End compiled.

(** ** Compiled rules name registered kernels *)

Lemma match_ids_elem c g id :
  id ∈ match_ids c g ↔ id ∈ dkeys (cat_impls c) ∧ fnmatchcase id (lower g) = true.
Proof.
  unfold match_ids, kernel_ids. rewrite list_elem_of_filter, sort_str_elem. tauto.
Qed.

Lemma match_ids_lower c g : match_ids c (lower g) = match_ids c g.
Proof. unfold match_ids. by rewrite lower_idemp. Qed.

Lemma registered_lower c id :
  registered c id = true ↔ lower id ∈ dkeys (cat_impls c).
Proof. unfold registered, maybe_get. rewrite bool_decide_eq_true. apply dget_is_Some. Qed.

(** A field that is given is not an empty value. *)
Definition given_nonempty (d : dict string obj) (key : string) : Prop :=
  ∀ o, not_none (dget d key) = Some o → obj_bool o = true.

Lemma prefer_items_nonempty o l :
  prefer_items o = Ok l → opt_bool o = true → l ≠ [].
Proof.
  unfold prefer_items, opt_bool, obj_items, obj_or. destruct o as [o|]; [|done].
  intros H Ho. rewrite !Ho in H.
  destruct o as [v|k|d]; [destruct v as [|b|z|s|k|X]|..]; simpl in *; inv_bind; simplify_eq; try done.
  - by destruct k.
  - rewrite map_map. destruct (elements X) eqn:E; [|done].
    apply negb_true_iff, bool_decide_eq_false in Ho. exfalso. apply Ho.
    by apply elements_empty_iff, leibniz_equiv in E.
  - by destruct k.
  - by destruct d.
Qed.

(** What a successful compilation went through. *)
Record rule_compiled (d m : dict string obj) (c : catalog) (strict : bool) (r : rule) : Prop := {
  rc_fields : subset_of (dkeys d) (if strict then OVERRIDE_FIELDS else RULE_FIELDS) = true;
  rc_match : obj_or (dget d "match") (OMap []) = OMap m;
  rc_when : ∃ paths, matcher_paths m c = Ok paths
                     ∧ compile_matcher paths "" (OMap m) = Ok (r_when r);
  rc_one : (if strict then opt_bool (not_none (dget d "use")) else opt_bool (dget d "prefer"))
           = negb (opt_bool (not_none (dget d "restrict_to")));
  rc_prefer : ∃ l, prefer_items (dget d "prefer") = Ok l ∧ r_prefer r = lower <$> l
                   ∧ ∀ id, id ∈ l → registered c id = true;
  rc_use : r_use r = (lower ∘ obj_str) <$> not_none (dget d "use");
  rc_used : ∀ o, not_none (dget d "use") = Some o → obj_bool o = true →
                 registered c (obj_str o) = true;
  rc_restrict : r_restrict_to r = (lower ∘ obj_str) <$> not_none (dget d "restrict_to");
  rc_matches : ∀ o, not_none (dget d "restrict_to") = Some o → obj_bool o = true →
                    match_ids c (obj_str o) ≠ [];
}.

Lemma compile_rule_inv raw index c strict r : compile_rule raw index c strict = Ok r →
  ∃ d m, raw = OMap d ∧ rule_compiled d m c strict r.
Proof.
  unfold compile_rule. destruct raw as [v|l|d]; [done|done|]. intros H.
  apply bind_ok in H as ([] & Hfields%ensure_ok & H).
  destruct (obj_or (dget d "match") (OMap [])) as [v|l|m] eqn:Hm; [done|done|].
  apply bind_ok in H as (paths & Hpaths & H). apply bind_ok in H as (when & Hwhen & H).
  apply bind_ok in H as ([] & Hone%ensure_ok & H). apply bind_ok in H as (l & Hl & H).
  apply bind_ok in H as ([] & Hreg%ensure_ok & H).
  apply bind_ok in H as ([] & Hglob%ensure_ok & H).
  apply bind_ok in H as (prio & _ & H). apply bind_ok in H as (ps & _ & [= <-]).
  rewrite forallb_app in Hreg. apply andb_prop in Hreg as [Hreg1 Hreg2].
  exists d, m. split; [done|]. split; simpl.
  - done.
  - done.
  - by exists paths.
  - destruct strict; [destruct (opt_bool (not_none (dget d "use")))|destruct (opt_bool (dget d "prefer"))];
      by destruct (opt_bool (not_none (dget d "restrict_to"))).
  - exists l. split_and!; [done|done|]. intros id Hid.
    rewrite forallb_forall in Hreg1. by apply Hreg1, list_elem_of_In.
  - by destruct (not_none (dget d "use")).
  - intros o Ho Hb. rewrite Ho in Hreg2. simpl in Hreg2. rewrite Hb in Hreg2. simpl in Hreg2.
    by apply andb_prop in Hreg2 as [? _].
  - by destruct (not_none (dget d "restrict_to")).
  - intros o Ho Hb. rewrite Ho in Hglob. simpl in Hglob. rewrite Hb in Hglob. simpl in Hglob.
    by apply negb_true_iff, bool_decide_eq_false in Hglob.
Qed.

Lemma no_use_field (d : dict string obj) : subset_of (dkeys d) RULE_FIELDS = true → dget d "use" = None.
Proof.
  unfold subset_of. rewrite forallb_forall. intros H. apply dget_None. intros Hin.
  apply list_elem_of_In in Hin. apply H in Hin. by vm_compute in Hin.
Qed.

(** A compiled rule is usable against the catalog it was compiled for:
    when the rule names its operation, its condition reads only facts that
    operation declares (or global ones); and unless a selector field is given
    an empty value, the rule expands to a nonempty list of registered kernel
    ids. *)
Theorem compile_rule_valid raw d index c strict r :
  raw = OMap d → compile_rule raw index c strict = Ok r →
  (∀ m name s, obj_or (dget d "match") (OMap []) = OMap m → dget m "op" = Some (OVal (VStr name)) →
     maybe_op c name = Some s → ∀ path, path ∈ facts_used (r_when r) → op_scoped path = true →
     path ∈ known_paths s)
  ∧ (given_nonempty d "use" → given_nonempty d "restrict_to" →
     expand r c ≠ [] ∧ ∀ id, id ∈ expand r c → is_Some (dget (cat_impls c) id)).
Proof.
  intros -> (d' & m & [= <-] & Hr)%compile_rule_inv. split.
  - intros m' name s Hm Hop Hs. destruct Hr as [_ Hm' (paths & Hp & Hw) _ _ _ _ _ _].
    rewrite Hm in Hm'. injection Hm' as ->. unfold matcher_paths in Hp. rewrite Hop, Hs in Hp.
    injection Hp as <-. by apply (compile_matcher_valid s) in Hw.
  - intros Hgu Hgr. destruct Hr as [Hf _ _ Hone (l & Hl & Hpref & Hreg) Huse Hused Hres Hmat].
    unfold expand. rewrite Huse, Hres. setoid_rewrite dget_is_Some.
    destruct (not_none (dget d "use")) as [u|] eqn:Eu; simpl.
    { specialize (Hgu u Eu). split; [done|]. intros id ->%list_elem_of_singleton.
      by apply registered_lower, Hused. }
    destruct (not_none (dget d "restrict_to")) as [g|] eqn:Eg; simpl.
    { specialize (Hgr g Eg). rewrite match_ids_lower. split; [by apply Hmat|].
      by intros id [? _]%match_ids_elem. }
    simpl in Hone. destruct strict; [done|]. rewrite Hpref. split.
    + apply prefer_items_nonempty in Hl; [|done]. by destruct l.
    + intros id (x & -> & Hx)%list_elem_of_fmap. by apply registered_lower, Hreg.
Qed.

(** An empty [restrict_to] beside [prefer] is accepted, and the
    preference is lost: the rule keeps its registered kernel, but expands to
    the ids matching the empty glob, that is to nothing, so a call it matches
    is decided as if no rule existed.  In the same way an empty [use] beside a
    [restrict_to] glob turns a strict override into one that requires the
    kernel named by the empty string. *)
Theorem empty_selector_fields c id glob :
  registered c id = true → id ≠ "" → "" ∉ dkeys (cat_impls c) →
  match_ids c glob ≠ [] → glob ≠ "" →
  (∃ r, compile_rule (OMap [("prefer", OVal (VStr id)); ("restrict_to", OVal (VStr ""))]) 0 c false
          = Ok r ∧ r_prefer r = [lower id] ∧ expand r c = [])
  ∧ (∃ r, compile_rule (OMap [("use", OVal (VStr "")); ("restrict_to", OVal (VStr glob))]) 0 c true
          = Ok r ∧ expand r c = [""]).
Proof.
  intros Hreg Hid Hempty Hm Hg. split; eexists.
  - unfold compile_rule. simpl. destruct id as [|a id]; [done|]. simpl. rewrite Hreg. simpl.
    split_and!; [reflexivity|reflexivity|]. unfold expand. simpl.
    destruct (match_ids c "") as [|k ks] eqn:E; [done|]. exfalso.
    assert (k ∈ match_ids c "") as [Hk Hf]%match_ids_elem by (rewrite E; by left).
    destruct k; [done|]. by vm_compute in Hf.
  - unfold compile_rule. simpl. destruct glob as [|a glob]; [done|]. simpl.
    rewrite bool_decide_eq_false_2 by done. by split.
Qed.

(** ** A concrete policy *)
Definition sample_rule : obj :=
  OMap [("match", OMap [("op", OVal (VStr "norm.rms")); ("shape", OMap [("hidden", OVal (VStr "% 8"))])]);
        ("prefer", OList [OVal (VStr "Triton.norm"); OVal (VStr "torch.norm")])].

Definition sample_policy_doc : obj :=
  OMap [("schema", OVal (VInt 1)); ("rules", OList [sample_rule]);
        ("overrides", OList [OMap [("id", OVal (VStr "force")); ("match", OMap [("role", OVal (VStr "final"))]);
                                   ("use", OVal (VStr "cuda.norm"))]])].

Definition no_plan (o : obj) : res unit := Err ValueError.

Lemma compile_rule_valid_witness :
  ∃ r, compile_rule sample_rule 0 sample_catalog false = Ok r
    ∧ (∀ path, path ∈ facts_used (r_when r) → op_scoped path = true → path ∈ known_paths norm_spec)
    ∧ expand r sample_catalog ≠ [].
Proof.
  destruct (compile_rule sample_rule 0 sample_catalog false) as [r|] eqn:E;
    [|exfalso; by vm_compute in E].
  exists r. split; [done|].
  destruct (compile_rule_valid _ _ _ _ _ _ eq_refl E) as [H1 H2]. split.
  - exact (H1 _ "norm.rms" norm_spec eq_refl eq_refl eq_refl).
  - apply H2; by intros o.
Defined.

Lemma empty_selector_fields_witness :
  ∃ r, compile_rule (OMap [("prefer", OVal (VStr "cuda.norm")); ("restrict_to", OVal (VStr ""))])
         0 sample_catalog false = Ok r ∧ r_prefer r = ["cuda.norm"] ∧ expand r sample_catalog = [].
Proof.
  refine (proj1 (empty_selector_fields sample_catalog "cuda.norm" "t*" _ _ _ _ _)); try done.
  change (dkeys (cat_impls sample_catalog)) with ["cuda.norm"; "torch.norm"; "triton.norm"].
  set_solver.
Defined.
