(* ===== verification/Selector.v ===== *)
(** * Kernel selection

    Models [kernel/selector.py] and [kernel/library.py]: the assessment of an
    operation's rows against the facts of a call, the candidate order, the
    preparation loop, autotuning and the selection cache.

    Code outside the repository and the tensor code of the rows are section
    variables: [import_ok] (whether a library imports), [prepare] (a row's
    [prepare] function), [bench] (the benchmark hook), [wall] (the wall-clock
    time of a benchmark run), and the hashes of the two fingerprints.  Times
    are integers; only their order is used.  The JSON text of a tuning key is
    kept as the structure it encodes. *)

From S2P Require Export Kinds Policy.
From Stdlib Require Import Ascii String.
From stdpp Require Import options.

Local Open Scope Z_scope.

(** ** Traces *)
Record candidate_trace : Type := CandidateTrace {
  ct_kernel_id : string;
  ct_eligible : bool;
  ct_when : string;
  ct_reason : string;
  ct_skipped : list string;
  ct_benchmark_ms : option Z;
}.

Record selection_trace : Type := SelectionTrace {
  st_op : string;
  st_role : string;
  st_facts : gmap string value;
  st_policy_profile : string;
  st_matched_rules : list string;
  st_candidates : list candidate_trace;
  st_selected : option string;
  st_autotuned : bool;
}.

(** [_plain]: a JSON scalar, or the sorted members of a set. *)
Definition plain : Type := value + list string.

Definition plain_of (v : value) : plain :=
  match v with
  | VSet s => inr (sort_str (elements s))
  | VTup _ => inl (VStr (py_str v))
  | _ => inl v
  end.

(** [_mark] with a benchmark time: the first trace of that id. *)
Fixpoint mark_benchmark (traces : list candidate_trace) (kernel_id : string) (ms : Z)
    : list candidate_trace :=
  match traces with
  | [] => []
  | t :: ts =>
      if String.eqb (ct_kernel_id t) kernel_id
      then CandidateTrace (ct_kernel_id t) (ct_eligible t) (ct_when t) (ct_reason t)
             (ct_skipped t) (Some ms) :: ts
      else t :: mark_benchmark ts kernel_id ms
  end.

(** ** Library probes *)
Section library.
Context (import_ok : string → bool).

(** [library_available]: the first probe of a name is remembered. *)
Definition library_available (probes : gmap string bool) (name : string)
    : gmap string bool * bool :=
  match probes !! name with
  | Some b => (probes, b)
  | None => (<[name := import_ok name]> probes, import_ok name)
  end.

(** [library_facts] *)
Fixpoint library_facts_of (probes : gmap string bool) (names : list string)
    : gmap string bool * list (string * bool) :=
  match names with
  | [] => (probes, [])
  | n :: ns =>
      let '(probes1, b) := library_available probes n in
      let '(probes2, l) := library_facts_of probes1 ns in
      (probes2, ("lib." +:+ n, b) :: l)
  end.

(** The facts of a process whose probes were all made by these functions. *)
Definition library_facts (names : gset string) : list (string * bool) :=
  (λ n, ("lib." +:+ n, import_ok n)) <$> sort_str (elements names).
End library.

(** ** Keys *)

(** The key of the selection cache. *)
Record selection_key : Type := SelectionKey {
  sk_catalog : string;
  sk_policy : string;
  sk_profile : string;
  sk_fallback : string;
  sk_query : cache_key_t;
  sk_rules : list string;
  sk_candidates : list string;
  sk_params : list (string * string);
  sk_prefer : list string;
}.
#[export] Instance selection_key_eq_dec : EqDecision selection_key.
Proof. solve_decision. Defined.

(** The content of an autotune key. *)
Record tune_key_t : Type := TuneKey {
  tk_catalog : string;
  tk_policy : string;
  tk_profile : string;
  tk_fallback : string;
  tk_facts : list (string * plain);
  tk_rules : list string;
  tk_candidates : list string;
  tk_params : list (string * string);
}.
#[export] Instance tune_key_eq_dec : EqDecision tune_key_t.
Proof. solve_decision. Defined.

Section selector.
Context {plan handle : Type}.
Context (import_ok : string → bool)
  (prepare : impl → facts → dict string obj → res handle)
  (wall : impl → facts → handle → Z)
  (catalog_digest : list row_payload → string)
  (policy_digest : string → string → list rule_payload_t → list rule_payload_t → option plan → string).

Record selection : Type := Selection {
  sel_impl : impl;
  sel_query : kernel_query;
  sel_facts : facts;
  sel_implementation : handle;
  sel_params : dict string obj;
}.

(** The fields of [Selector]; [autotune_file] is the content of the autotune
    cache file when one is configured, [autotune_writable] whether writing
    it succeeds. *)
Record selector : Type := Selector {
  s_catalog : catalog;
  s_policy : policy plan;
  s_model : model_context;
  s_device : device_profile;
  s_benchmark : option (impl → facts → handle → res Z);
  s_epoch : Z;
  s_cache : dict selection_key selection;
  s_autotune : dict tune_key_t string;
  s_measurements : dict tune_key_t (dict string Z);
  s_autotune_file : option (dict tune_key_t string);
  s_autotune_writable : bool;
}.

(** [dict.update] *)
Definition dupdate {K V} `{EqDecision K} (d e : dict K V) : dict K V :=
  foldl (λ d p, dset d p.1 p.2) d e.

(** [Selector.__init__] with the probed device. *)
Definition mk_selector (c : catalog) (p : policy plan) (model : option model_context)
    (device : device_profile) (benchmark : option (impl → facts → handle → res Z))
    (autotune_file : option (dict tune_key_t string)) (writable : bool) : selector := {|
  s_catalog := c;
  s_policy := p;
  s_model := default default_model model;
  s_device := device;
  s_benchmark := benchmark;
  s_epoch := 0;
  s_cache := [];
  s_autotune := dupdate [] (default [] autotune_file);
  s_measurements := [];
  s_autotune_file := autotune_file;
  s_autotune_writable := writable;
|}.

(** [Selector.normalize] *)
Definition normalize_query (s : selector) (q : kernel_query) : kernel_query :=
  let model := if bool_decide (q_model q = default_model)
                  && negb (bool_decide (s_model s = default_model))
               then Some (s_model s) else None in
  let device := if negb (q_device_explicit q) then Some (s_device s) else None in
  match model, device with
  | None, None => q
  | _, _ => replace_query q model device
  end.

(** [Selector.facts_for] *)
Definition facts_for (s : selector) (q : kernel_query) (spec : op_spec) : facts :=
  facts_from_query q (optional_paths spec)
    (library_facts import_ok (libraries (s_catalog s) (Some (os_name spec)))).

(** [mode in {CAPTURE, REPLAY}] *)
Definition graph_mode (m : kernel_mode) : bool :=
  match m with CAPTURE | REPLAY => true | _ => false end.

(** One row of [Selector.assess]: whether it is eligible, and its trace. *)
Definition assess_row (fs : facts) (mode : kernel_mode) (i : impl) : res (bool * candidate_trace) :=
  let rendered := render (im_when i) in
  if graph_mode mode && negb (im_capture_safe i) then
    Ok (false, CandidateTrace (im_kernel_id i) false rendered
                 ("not usable inside a CUDA graph (" +:+ mode_value mode +:+ ")") [] None)
  else
    failure ← eval (im_when i) fs;
    match failure with
    | None =>
        sk ← skipped (im_when i) fs;
        Ok (true, CandidateTrace (im_kernel_id i) true rendered "eligible"
                    (sk_predicate <$> sk) None)
    | Some f =>
        Ok (false, CandidateTrace (im_kernel_id i) false rendered (failure_text f) [] None)
    end.

Fixpoint assess_rows (fs : facts) (mode : kernel_mode) (rows : list impl)
    : res (list impl * list candidate_trace) :=
  match rows with
  | [] => Ok ([], [])
  | i :: rows' =>
      '(ok, trace) ← assess_row fs mode i;
      '(eligible, traces) ← assess_rows fs mode rows';
      Ok ((if (ok : bool) then i :: eligible else eligible), trace :: traces)
  end.

(** [Selector.assess] *)
Definition assess (s : selector) (spec : op_spec) (fs : facts) (mode : kernel_mode)
    : res (list impl * list candidate_trace) :=
  assess_rows fs mode (impls (s_catalog s) (Some (os_name spec))).

(** [{impl.kernel_id: impl for impl in eligible}] *)
Definition by_id (eligible : list impl) : dict string impl :=
  foldl (λ d i, dset d (im_kernel_id i) i) [] eligible.

(** [Selector.order] *)
Definition order (s : selector) (eligible : list impl) (d : decision) (prefer : list string)
    : list impl :=
  let ids := by_id eligible in
  match dc_candidates d with
  | [] =>
      match prefer with
      | [] => eligible
      | _ =>
          let hinted := omap (dget ids) prefer in
          hinted ++ filter (λ i, im_kernel_id i ∉ im_kernel_id <$> hinted) eligible
      end
  | candidates =>
      let ordered := omap (dget ids) candidates in
      if dc_strict d || String.eqb (p_fallback (s_policy s)) "error" then ordered
      else ordered ++ filter (λ i, im_reference i = true
                                   ∧ im_kernel_id i ∉ im_kernel_id <$> ordered) eligible
  end.

(** [Selector._tuning] *)
Definition tuning (s : selector) (d : decision) (mode : kernel_mode) : bool :=
  negb (dc_strict d) && String.eqb (p_profile (s_policy s)) "autotune"
  && match s_benchmark s with Some _ => true | None => false end
  && bool_decide (mode = EAGER).

Definition params_text (ps : dict string obj) : list (string * string) :=
  sort_str_pairs ((λ p, (p.1, obj_str p.2)) <$> ps).

(** [Selector._tune_key] *)
Definition tune_key (s : selector) (fs : facts) (d : decision) : tune_key_t := {|
  tk_catalog := (version catalog_digest (s_catalog s)).2;
  tk_policy := compute_version policy_digest (s_policy s);
  tk_profile := p_profile (s_policy s);
  tk_fallback := p_fallback (s_policy s);
  tk_facts := (λ p, (p.1, plain_of p.2)) <$> sort_pairs (map_to_list (values fs));
  tk_rules := dc_matched_rules d;
  tk_candidates := dc_candidates d;
  tk_params := params_text (dc_params d);
|}.

(** The cache key of [Selector.select]. *)
Definition select_key (s : selector) (q : kernel_query) (d : decision) (prefer : list string)
    : selection_key := {|
  sk_catalog := (version catalog_digest (s_catalog s)).2;
  sk_policy := compute_version policy_digest (s_policy s);
  sk_profile := p_profile (s_policy s);
  sk_fallback := p_fallback (s_policy s);
  sk_query := cache_key q;
  sk_rules := dc_matched_rules d;
  sk_candidates := dc_candidates d;
  sk_params := params_text (dc_params d);
  sk_prefer := prefer;
|}.
(** Whether a rule's parameters apply to a row. *)
Definition params_for (d : decision) (i : impl) : dict string obj :=
  if bool_decide (im_kernel_id i ∈ dc_candidates d) then dc_params d else [].

(** The loop of [Selector._prepare_first]: the prepared candidates, only the
    first one unless tuning.  A failure other than a policy error moves on to
    the next candidate, or ends a strict selection. *)
Fixpoint prepare_loop (q : kernel_query) (fs : facts) (d : decision) (tuning : bool)
    (ordered : list impl) : res (list selection) :=
  match ordered with
  | [] => Ok []
  | i :: ordered' =>
      match prepare i fs (params_for d i) with
      | Err PolicyError => Err PolicyError
      | Err _ => if dc_strict d then Err NoKernelError
                 else prepare_loop q fs d tuning ordered'
      | Ok h =>
          let sel := Selection i q fs h (params_for d i) in
          if tuning then
            sels ← prepare_loop q fs d tuning ordered';
            Ok (sel :: sels)
          else Ok [sel]
      end
  end.

(** One measurement of [Selector._tune]; [None] when the hook raised. *)
Definition measure (b : impl → facts → handle → res Z) (s : selection) : option Z :=
  match b (sel_impl s) (sel_facts s) (sel_implementation s) with
  | Err _ => None
  | Ok elapsed =>
      Some (if elapsed <? 0
            then wall (sel_impl s) (sel_facts s) (sel_implementation s) else elapsed)
  end.

Definition measured (b : impl → facts → handle → res Z) (prepared : list selection)
    : list (Z * selection) :=
  omap (λ s, ms ← measure b s; Some (ms, s)) prepared.

(** [min(measured, key=lambda item: (item[0], item[1]))] *)
Definition faster (a b : Z * selection) : bool :=
  (a.1 <? b.1)
  || ((a.1 =? b.1) && String.ltb (im_kernel_id (sel_impl a.2)) (im_kernel_id (sel_impl b.2))).

Fixpoint fastest (best : Z * selection) (ms : list (Z * selection)) : Z * selection :=
  match ms with
  | [] => best
  | m :: ms' => fastest (if faster m best then m else best) ms'
  end.

(** [Selector._tune] on a nonempty list of prepared selections. *)
Definition tune (s : selector) (fs : facts) (d : decision) (first : selection)
    (prepared : list selection) : selector * selection :=
  let key := tune_key s fs d in
  let named := dget (s_autotune s) key ≫= λ cached,
                 snd <$> list_find (λ x, im_kernel_id (sel_impl x) = cached) prepared in
  match named with
  | Some x => (s, x)
  | None =>
      match s_benchmark s with
      | None => (s, first)
      | Some b =>
          match measured b prepared with
          | [] => (s, first)
          | m :: ms =>
              let times := foldl (λ t x, dset t (im_kernel_id (sel_impl x.2)) x.1) [] (m :: ms) in
              let winner := (fastest m ms).2 in
              let autotune := dset (s_autotune s) key (im_kernel_id (sel_impl winner)) in
              let file := match s_autotune_file s with
                          | Some old => Some (if s_autotune_writable s then autotune else old)
                          | None => None
                          end in
              (Selector (s_catalog s) (s_policy s) (s_model s) (s_device s) (s_benchmark s)
                 (s_epoch s) (s_cache s) autotune (dset (s_measurements s) key times) file
                 (s_autotune_writable s), winner)
          end
      end
  end.

(** [Selector._prepare_first] *)
Definition prepare_first (s : selector) (q : kernel_query) (fs : facts) (d : decision)
    (ordered : list impl) : selector * res selection :=
  let tuning := tuning s d (q_mode q) in
  match prepare_loop q fs d tuning ordered with
  | Err e => (s, Err e)
  | Ok [] => (s, Err NoKernelError)
  | Ok (first :: rest) =>
      if tuning then let '(s', w) := tune s fs d first (first :: rest) in (s', Ok w)
      else (s, Ok first)
  end.

(** The checks of [Selector.select] on the ordered candidates. *)
Definition strict_filter (d : decision) (ordered : list impl) : res (list impl) :=
  if dc_strict d then
    match dc_candidates d with
    | [] => Err NoKernelError
    | wanted :: _ =>
        match filter (λ i, im_kernel_id i = wanted) ordered with
        | [] => Err NoKernelError
        | l => Ok l
        end
    end
  else match ordered with [] => Err NoKernelError | _ => Ok ordered end.

Definition remember (s : selector) (key : selection_key) (x : selection) : selector :=
  Selector (s_catalog s) (s_policy s) (s_model s) (s_device s) (s_benchmark s) (s_epoch s)
    (dset (s_cache s) key x) (s_autotune s) (s_measurements s) (s_autotune_file s)
    (s_autotune_writable s).

(** The part of [Selector.select] before the cache lookup. *)
Definition prepare_call (s : selector) (q : kernel_query)
    : res (kernel_query * op_spec * facts * decision) :=
  let q := normalize_query s q in
  spec ← op (s_catalog s) (q_op q);
  let fs := facts_for s q spec in
  d ← decide_policy (s_policy s) fs (s_catalog s);
  Ok (q, spec, fs, d).

(** The candidates of a call, in the order they are tried. *)
Definition candidates (s : selector) (q : kernel_query) (spec : op_spec) (fs : facts)
    (d : decision) (prefer : list string) : res (list impl) :=
  '(eligible, _) ← assess s spec fs (q_mode q);
  strict_filter d (order s eligible d prefer).

(** [Selector.select] *)
Definition select (s : selector) (q : kernel_query) (prefer : list string)
    : selector * res selection :=
  match prepare_call s q with
  | Err e => (s, Err e)
  | Ok (q, spec, fs, d) =>
      let key := select_key s q d prefer in
      match dget (s_cache s) key with
      | Some cached => (s, Ok cached)
      | None =>
          match candidates s q spec fs d prefer with
          | Err e => (s, Err e)
          | Ok ordered =>
              let '(s', r) := prepare_first s q fs d ordered in
              match r with
              | Ok x => (remember s' key x, Ok x)
              | Err e => (s', Err e)
              end
          end
      end
  end.

(** [Selector.explain] *)
Definition explain (s : selector) (q : kernel_query) (prefer : list string)
    : res selection_trace :=
  '(q, spec, fs, d) ← prepare_call s q;
  '(eligible, traces) ← assess s spec fs (q_mode q);
  let ordered := order s eligible d prefer in
  let first := im_kernel_id <$> head ordered in
  let tuned := tuning s d (q_mode q) in
  let cached := if tuned then dget (s_autotune s) (tune_key s fs d) else None in
  let honoured := match cached with
                  | Some k => existsb (λ i, String.eqb (im_kernel_id i) k) ordered
                  | None => false
                  end in
  let selected := if honoured then cached else first in
  let traces :=
    if tuned then
      foldl (λ ts p, mark_benchmark ts p.1 p.2) traces
        (default [] (dget (s_measurements s) (tune_key s fs d)))
    else traces in
  let selected :=
    if dc_strict d && negb (match dc_candidates d with
                            | [] => false
                            | w :: _ => bool_decide (selected = Some w)
                            end)
    then None else selected in
  Ok (SelectionTrace (q_op q) (q_role q) (values fs) (p_profile (s_policy s))
        (dc_matched_rules d) traces selected honoured).

(** The facts known at construction time in [Selector.param_dtypes]. *)
Definition construction_facts (s : selector) (spec : op_spec) (known : dict string value)
    : gmap string value :=
  update ∅ ([("op", VStr (os_name spec))] ++ device_facts (s_device s)
            ++ ((λ p, (p.1, VBool p.2)) <$> library_facts import_ok
                                             (libraries (s_catalog s) (Some (os_name spec))))
            ++ known).

(** The rows whose capability the known facts do not refute. *)
Fixpoint viable_rows (known : gmap string value) (rows : list impl) : res (list impl) :=
  match rows with
  | [] => Ok []
  | i :: rows' =>
      p ← restrict known (im_when i);
      rest ← viable_rows known rows';
      Ok (if is_false p then rest else i :: rest)
  end.

(** [Selector.param_dtypes] *)
Definition param_dtypes (s : selector) (op_name activation : string) (known : dict string value)
    (preferred : dict string string) (prefer : list string) : res (dict string string) :=
  spec ← op (s_catalog s) op_name;
  let rows := impls (s_catalog s) (Some (os_name spec)) in
  viable ← viable_rows (construction_facts s spec known) rows;
  let viable := match viable with [] => rows | _ => viable end in
  resolve_param_dtypes spec viable activation preferred prefer.

(** [Selector.clear_cache] *)
Definition clear_cache (s : selector) : selector :=
  Selector (s_catalog s) (s_policy s) (s_model s) (s_device s) (s_benchmark s) (s_epoch s + 1)
    [] (s_autotune s) (s_measurements s) (s_autotune_file s) (s_autotune_writable s).
End selector.

(** ** Lemmas on the stages *)

(** What makes a row usable for a call. *)
Definition row_eligible (fs : facts) (mode : kernel_mode) (i : impl) : Prop :=
  (graph_mode mode = true → im_capture_safe i = true) ∧ eval (im_when i) fs = Ok None.

Lemma assess_row_ok fs mode i b t : assess_row fs mode i = Ok (b, t) →
  (b = true ↔ row_eligible fs mode i) ∧ ct_kernel_id t = im_kernel_id i ∧ ct_eligible t = b.
Proof.
  unfold assess_row, row_eligible. destruct (graph_mode mode) eqn:Hg; simpl.
  - destruct (im_capture_safe i) eqn:Hc; simpl.
    2: { intros [= <- <-]. split_and!; [|done|done]. split; [done|]. intros [H _].
         by specialize (H eq_refl). }
    destruct (eval (im_when i) fs) as [[f|]|]; simpl; [|destruct (skipped _ _); simpl|done];
      try done; intros [= <- <-]; simpl; naive_solver.
  - destruct (eval (im_when i) fs) as [[f|]|]; simpl; [|destruct (skipped _ _); simpl|done];
      try done; intros [= <- <-]; simpl; naive_solver.
Qed.

Lemma assess_rows_ok fs mode rows el ts : assess_rows fs mode rows = Ok (el, ts) →
  el `sublist_of` rows ∧ (∀ i, i ∈ el ↔ i ∈ rows ∧ row_eligible fs mode i)
  ∧ ct_kernel_id <$> ts = im_kernel_id <$> rows.
Proof.
  revert el ts. induction rows as [|i rows IH]; intros el ts; simpl.
  { intros [= <- <-]. split_and!; [done| |done]. intros i. rewrite elem_of_nil. tauto. }
  destruct (assess_row fs mode i) as [[b t]|] eqn:Hr; simpl; [|done].
  destruct (assess_rows fs mode rows) as [[el' ts']|] eqn:Hrs; simpl; [|done].
  destruct (IH _ _ eq_refl) as (Hsub & Hel & Hids). clear IH.
  apply assess_row_ok in Hr as (Hb & Hid & _). intros [= <- <-]. split_and!.
  - destruct b; [by apply sublist_skip|by apply sublist_cons].
  - intros j. rewrite elem_of_cons. destruct b.
    + rewrite elem_of_cons, Hel. naive_solver.
    + rewrite Hel. split; [naive_solver|]. intros [[->|?] He]; [|done].
      by apply Hb in He.
  - rewrite !fmap_cons. by f_equal.
Qed.

Lemma by_id_fold rows d k i :
  dget (foldl (λ d i, dset d (im_kernel_id i) i) d rows) k = Some i →
  (i ∈ rows ∧ im_kernel_id i = k) ∨ dget d k = Some i.
Proof.
  revert d. induction rows as [|j rows IH]; intros d H; simpl in *; [by right|].
  apply IH in H as [[H1 H2]|H]; [left; split; [by right|done]|].
  rewrite dget_dset in H. case_decide; [|by right]. injection H as <-. left.
  split; [by left|done].
Qed.

Lemma by_id_elem rows k i : dget (by_id rows) k = Some i → i ∈ rows ∧ im_kernel_id i = k.
Proof. intros [H|H]%by_id_fold; done. Qed.

Lemma by_id_fold_keep rows d k i :
  dget d k = Some i → (∀ j, j ∈ rows → im_kernel_id j = k → j = i) →
  dget (foldl (λ d i, dset d (im_kernel_id i) i) d rows) k = Some i.
Proof.
  revert d. induction rows as [|j rows IH]; intros d Hd H; simpl; [done|].
  apply IH; [|intros j' Hj'; apply H; by right].
  rewrite dget_dset. case_decide as Hk; [|done]. f_equal. apply H; [by left|done].
Qed.

Lemma by_id_some rows i : NoDup (im_kernel_id <$> rows) → i ∈ rows →
  dget (by_id rows) (im_kernel_id i) = Some i.
Proof.
  intros Hn Hi. assert (Huniq : ∀ j, j ∈ rows → im_kernel_id j = im_kernel_id i → j = i).
  { apply list_elem_of_split in Hi as (l1 & l2 & ->).
    rewrite fmap_app, fmap_cons in Hn. apply NoDup_app in Hn as (_ & Hd & Hn).
    apply NoDup_cons in Hn as [Hn _]. intros j [Hj|[->|Hj]%elem_of_cons]%elem_of_app Hid; [|done|].
    - exfalso. apply (Hd (im_kernel_id i)); [|by left].
      apply list_elem_of_fmap. by exists j.
    - exfalso. apply Hn. apply list_elem_of_fmap. by exists j. }
  unfold by_id. generalize (@nil (string * impl)). revert Huniq.
  induction rows as [|j rows IH]; intros Huniq d; [by apply elem_of_nil in Hi|].
  simpl. apply elem_of_cons in Hi as [->|Hi].
  - apply by_id_fold_keep; [apply dget_dset_eq|]. intros j' Hj'. apply Huniq. by right.
  - rewrite fmap_cons in Hn. apply NoDup_cons in Hn as [_ Hn].
    apply IH; [done|done|]. intros j' Hj'. apply Huniq. by right.
Qed.

Section stages.
Context {plan handle : Type}.
Context (prepare : impl → facts → dict string obj → res handle)
  (wall : impl → facts → handle → Z)
  (catalog_digest : list row_payload → string)
  (policy_digest : string → string → list rule_payload_t → list rule_payload_t → option plan → string).

Notation prepare_loop := (prepare_loop prepare).
Notation measure := (measure wall).
Notation measured := (measured wall).
Notation tune := (tune wall catalog_digest policy_digest).
Notation selection := (selection (handle := handle)).
Notation selector := (selector (plan := plan) (handle := handle)).

Lemma order_elem (s : selector) eligible d prefer i : i ∈ order s eligible d prefer → i ∈ eligible.
Proof.
  unfold order. assert (Hm : ∀ l : list string, i ∈ omap (dget (by_id eligible)) l → i ∈ eligible).
  { intros l (k & _ & Hk)%list_elem_of_omap. by apply by_id_elem in Hk as []. }
  destruct (dc_candidates d) as [|c cs].
  - destruct prefer as [|p ps]; [done|].
    intros [H|H]%elem_of_app; [by eapply Hm|]. by apply list_elem_of_filter in H as [].
  - case_match; [apply Hm|].
    intros [H'|H']%elem_of_app; [by eapply Hm|]. by apply list_elem_of_filter in H' as [].
Qed.

Lemma strict_filter_elem d ordered l i :
  strict_filter d ordered = Ok l → i ∈ l → i ∈ ordered.
Proof.
  unfold strict_filter. destruct (dc_strict d); [|by destruct ordered; intros [= <-]].
  destruct (dc_candidates d) as [|w ws]; [done|].
  destruct (filter _ ordered) as [|x xs] eqn:E; [done|]. intros [= <-].
  rewrite <-E. by intros [_ ?]%list_elem_of_filter.
Qed.

(** What a prepared selection records. *)
Definition prepared_from (q : kernel_query) (fs : facts) (d : decision) (x : selection) : Prop :=
  sel_query x = q ∧ sel_facts x = fs ∧ sel_params x = params_for d (sel_impl x)
  ∧ prepare (sel_impl x) fs (sel_params x) = Ok (sel_implementation x).

Lemma prepare_loop_elem q fs d tun ordered xs : prepare_loop q fs d tun ordered = Ok xs →
  ∀ x, x ∈ xs → sel_impl x ∈ ordered ∧ prepared_from q fs d x.
Proof.
  revert xs. induction ordered as [|i ordered IH]; intros xs; simpl.
  { intros [= <-] x. by rewrite elem_of_nil. }
  destruct (prepare i fs (params_for d i)) as [h|e] eqn:Hp.
  - set (x0 := Selection i q fs h (params_for d i)). assert (prepared_from q fs d x0) as Hx0 by done.
    destruct tun.
    + destruct (prepare_loop q fs d true ordered) as [ys|]; simpl; [|done].
      intros [= <-] x [->|Hx]%elem_of_cons; [split; [by left|done]|].
      destruct (IH _ eq_refl _ Hx). split; [by right|done].
    + intros [= <-] x ->%list_elem_of_singleton. split; [by left|done].
  - intros H x Hx. assert (prepare_loop q fs d tun ordered = Ok xs) as H'.
    { by destruct e, (dc_strict d). }
    destruct (IH _ H' _ Hx). split; [by right|done].
Qed.

Lemma fastest_elem (best : Z * selection) ms : fastest best ms ∈ best :: ms.
Proof.
  revert best. induction ms as [|m ms IH]; intros best; simpl; [by left|].
  specialize (IH (if faster m best then m else best)). destruct (faster m best); set_solver.
Qed.

Lemma measured_elem b prepared ms x : (ms, x) ∈ measured b prepared → x ∈ prepared.
Proof.
  unfold measured. intros (y & Hy & H)%list_elem_of_omap.
  destruct (measure b y); simpl in H; [|done]. by injection H as _ <-.
Qed.

Lemma tune_elem s fs d first prepared s' w :
  tune s fs d first prepared = (s', w) → first ∈ prepared →
  w ∈ prepared ∧ s_cache s' = s_cache s ∧ s_catalog s' = s_catalog s.
Proof.
  unfold tune. intros H Hf.
  destruct (dget (s_autotune s) _ ≫= _) as [x|] eqn:E.
  { injection H as <- <-. split; [|done].
    destruct (dget (s_autotune s) _); simpl in E; [|done].
    destruct (list_find _ prepared) as [[n y]|] eqn:Hl; simpl in E; [|done].
    injection E as <-. apply list_find_Some in Hl as (Hl & _ & _).
    by eapply list_elem_of_lookup_2. }
  destruct (s_benchmark s) as [b|]; [|by injection H as <- <-].
  destruct (measured b prepared) as [|m ms] eqn:Hm; [by injection H as <- <-|].
  injection H as <- <-. split; [|done].
  apply (measured_elem b prepared (fastest m ms).1). rewrite Hm.
  pose proof (fastest_elem m ms) as Hin. by destruct (fastest m ms).
Qed.
End stages.

(** ** Reachable selectors and the coherence of their cache *)
Section reachable.
Context {plan handle : Type}.
Context (import_ok : string → bool)
  (prepare : impl → facts → dict string obj → res handle)
  (wall : impl → facts → handle → Z)
  (catalog_digest : list row_payload → string)
  (policy_digest : string → string → list rule_payload_t → list rule_payload_t → option plan → string).

Notation selection := (selection (handle := handle)).
Notation selector := (selector (plan := plan) (handle := handle)).
Notation select := (select import_ok prepare wall catalog_digest policy_digest).
Notation facts_for := (facts_for import_ok).
Notation prepare_call := (prepare_call import_ok).
Notation candidates := (candidates (plan := plan) (handle := handle)).

(** The operations of a selector. *)
Inductive selector_step : selector → selector → Prop :=
  | step_select s q prefer : selector_step s (select s q prefer).1
  | step_clear s : selector_step s (clear_cache s).

Definition fresh_selector (s : selector) : Prop := s_cache s = [].

Definition reachable_selector (s : selector) : Prop :=
  ∃ s0, fresh_selector s0 ∧ rtc selector_step s0 s.

(** What is true of a cached selection. *)
Record entry_sound (s : selector) (key : selection_key) (x : selection) : Prop := {
  es_query : cache_key (sel_query x) = sk_query key;
  es_spec : ∃ spec, op (s_catalog s) (q_op (sel_query x)) = Ok spec
            ∧ sel_facts x = facts_for s (sel_query x) spec
            ∧ sel_impl x ∈ impls (s_catalog s) (Some (os_name spec));
  es_eligible : row_eligible (sel_facts x) (q_mode (sel_query x)) (sel_impl x);
  es_prepared : prepare (sel_impl x) (sel_facts x) (sel_params x) = Ok (sel_implementation x);
}.

Definition cache_sound (s : selector) : Prop :=
  ∀ key x, dget (s_cache s) key = Some x → entry_sound s key x.

Lemma entry_sound_catalog (s s' : selector) key x :
  s_catalog s' = s_catalog s → entry_sound s key x → entry_sound s' key x.
Proof.
  intros Hc [Hq Hspec He Hp]. split; [done| |done|done].
  destruct Hspec as (spec & H1 & H2 & H3). exists spec. unfold Selector.facts_for. by rewrite Hc.
Qed.

Lemma prepare_call_ok (s : selector) q q' spec fs d : prepare_call s q = Ok (q', spec, fs, d) →
  q' = normalize_query s q ∧ op (s_catalog s) (q_op q') = Ok spec ∧ fs = facts_for s q' spec
  ∧ decide_policy (s_policy s) fs (s_catalog s) = Ok d.
Proof.
  unfold Selector.prepare_call. intros H.
  apply bind_ok in H as (spec' & Hs & H). apply bind_ok in H as (d' & Hd & [= <- <- <- <-]).
  done.
Qed.

Lemma candidates_ok (s : selector) q spec fs d prefer ordered :
  candidates s q spec fs d prefer = Ok ordered →
  ∀ i, i ∈ ordered → i ∈ impls (s_catalog s) (Some (os_name spec)) ∧ row_eligible fs (q_mode q) i.
Proof.
  unfold Selector.candidates, assess. intros H i Hi.
  apply bind_ok in H as ([el ts] & Ha & H).
  apply assess_rows_ok in Ha as (_ & Hel & _). apply Hel.
  eapply order_elem, strict_filter_elem; [exact H|done].
Qed.

Lemma prepare_first_ok (s : selector) q fs d ordered s' r :
  prepare_first prepare wall catalog_digest policy_digest s q fs d ordered = (s', r) →
  s_cache s' = s_cache s ∧ s_catalog s' = s_catalog s
  ∧ ∀ x, r = Ok x → sel_impl x ∈ ordered ∧ prepared_from prepare q fs d x.
Proof.
  unfold prepare_first. destruct (prepare_loop _ _ _ _ _ _) as [xs|e] eqn:Hl.
  2: { intros [= <- <-]. by split_and!. }
  pose proof (prepare_loop_elem _ _ _ _ _ _ _ Hl) as Hx.
  destruct xs as [|first rest]; [by intros [= <- <-]|].
  destruct (tuning s d (q_mode q)).
  - destruct (tune _ _ _ _ _ _ _ _) as [s1 w] eqn:Ht. intros [= <- <-].
    apply tune_elem in Ht as (Hw & Hc & Hcat); [|by left].
    split_and!; [done|done|]. intros x [= <-]. by apply Hx.
  - intros [= <- <-]. split_and!; [done|done|]. intros x [= <-]. apply Hx. by left.
Qed.

(** The two ways [select] can end. *)
Lemma select_cases (s : selector) q prefer s' r : select s q prefer = (s', r) →
  s_catalog s' = s_catalog s ∧
  ((s_cache s' = s_cache s ∧ ∀ x, r = Ok x →
      ∃ q' spec fs d, prepare_call s q = Ok (q', spec, fs, d)
        ∧ dget (s_cache s) (select_key catalog_digest policy_digest s q' d prefer) = Some x)
   ∨ ∃ q' spec fs d x ordered,
       r = Ok x ∧ prepare_call s q = Ok (q', spec, fs, d)
       ∧ s_cache s' = dset (s_cache s) (select_key catalog_digest policy_digest s q' d prefer) x
       ∧ candidates s q' spec fs d prefer = Ok ordered
       ∧ sel_impl x ∈ ordered ∧ prepared_from prepare q' fs d x).
Proof.
  unfold Selector.select. destruct (prepare_call s q) as [[[[q' spec] fs] d]|e] eqn:Hc.
  2: { intros [= <- <-]. split; [done|]. left. split; [done|]. done. }
  destruct (dget (s_cache s) _) as [c|] eqn:Hk.
  { intros [= <- <-]. split; [done|]. left. split; [done|]. intros x [= <-].
    by exists q', spec, fs, d. }
  destruct (candidates s q' spec fs d prefer) as [ordered|e] eqn:Ho.
  2: { intros [= <- <-]. split; [done|]. left. by split. }
  destruct (prepare_first _ _ _ _ _ _ _ _ _) as [s1 r1] eqn:Hp.
  apply prepare_first_ok in Hp as (Hcache & Hcat & Hx). destruct r1 as [x|e].
  - intros [= <- <-]. split; [done|]. right. destruct (Hx x eq_refl).
    exists q', spec, fs, d, x, ordered. split_and!; try done. simpl. by rewrite Hcache.
  - intros [= <- <-]. split; [done|]. left. split; [done|]. done.
Qed.

Lemma select_cache_sound (s : selector) q prefer :
  cache_sound s → cache_sound (select s q prefer).1.
Proof.
  intros Hs. destruct (select s q prefer) as [s' r] eqn:E. simpl.
  apply select_cases in E as [Hcat [[Hc _]|(q' & spec & fs & d & x & o & _ & Hcall & Hc & Ho & Hx & Hp)]];
    intros key y; rewrite Hc.
  - intros Hy. apply (entry_sound_catalog s); [done|by apply Hs].
  - rewrite dget_dset. case_decide as Hk; [|intros Hy; apply (entry_sound_catalog s); [done|by apply Hs]].
    intros [= <-]. apply (entry_sound_catalog s); [done|].
    apply prepare_call_ok in Hcall as (-> & Hop & -> & _).
    destruct Hp as (Hq & Hf & Hps & Hprep).
    destruct (candidates_ok _ _ _ _ _ _ _ Ho _ Hx) as [Hin Hel]. split.
    + subst key. by rewrite Hq.
    + exists spec. by rewrite Hq, Hf.
    + by rewrite Hq, Hf.
    + by rewrite Hf.
Qed.

Lemma reachable_cache_sound (s : selector) : reachable_selector s → cache_sound s.
Proof.
  intros (s0 & H0 & H). revert s H. apply rtc_ind_r.
  - intros key x. rewrite H0. done.
  - intros s1 s2 _ Hstep Hs. destruct Hstep; [by apply select_cache_sound|].
    intros key x. done.
Qed.

(** C1: a selection is right for the call it is returned for, also when
    it comes from the cache.  In any selector reached by selections and
    cache resets over a catalog of well-kinded rows, whatever [select]
    returns is a row registered for the call's operation whose capability
    accepts this call's facts, that is capture-safe when the call runs in a
    graph mode, and whose [prepare] succeeded with the returned parameters. *)
Theorem select_coherent (s : selector) q prefer s' x :
  reachable_selector s →
  (∀ i, i ∈ dvals (cat_impls (s_catalog s)) → well_kinded (im_when i) = true) →
  select s q prefer = (s', Ok x) →
  ∃ spec, op (s_catalog s) (q_op (normalize_query s q)) = Ok spec
    ∧ sel_impl x ∈ impls (s_catalog s) (Some (os_name spec))
    ∧ eval (im_when (sel_impl x)) (facts_for s (normalize_query s q) spec) = Ok None
    ∧ (graph_mode (q_mode (normalize_query s q)) = true → im_capture_safe (sel_impl x) = true)
    ∧ prepare (sel_impl x) (sel_facts x) (sel_params x) = Ok (sel_implementation x).
Proof.
  intros Hs%reachable_cache_sound Hwk H.
  apply select_cases in H as [_ [[_ H]|(q' & spec & fs & d & y & o & [= <-] & Hcall & _ & Ho & Hx & Hp)]].
  - destruct (H x eq_refl) as (q' & spec & fs & d & Hcall & Hk). clear H.
    apply prepare_call_ok in Hcall as (-> & Hop & -> & _). apply Hs in Hk as [Hq Hspec [Hg He] Hp].
    destruct Hspec as (spec' & Hop' & Hf & Hin). simpl in Hq.
    pose proof (cache_key_eq _ _ Hq) as (Hqi & _ & _ & _ & _ & Hmode).
    assert (q_op (sel_query x) = q_op (normalize_query s q)) as Hqop.
    { unfold query_items in Hqi. simpl in Hqi. congruence. }
    assert (spec' = spec) as -> by congruence.
    exists spec. split_and!; [done|done| |by rewrite <-Hmode|done].
    rewrite Hf in He. revert He. apply eval_accepts_similar; [by apply cache_key_similar|].
    apply Hwk. by apply impls_elem in Hin as [].
  - apply prepare_call_ok in Hcall as (-> & Hop & -> & _).
    destruct (candidates_ok _ _ _ _ _ _ _ Ho _ Hx) as [Hin [Hg He]].
    destruct Hp as (Hq & Hf & Hps & Hprep). exists spec. rewrite Hf. by split_and!.
Qed.
End reachable.

(** ** A concrete selector *)
Definition demo_prepare (i : impl) (fs : facts) (ps : dict string obj) : res string :=
  if String.eqb (im_kernel_id i) "cuda.norm" then Err RuntimeError else Ok (im_kernel_id i).

Definition demo_wall (i : impl) (fs : facts) (h : string) : Z := 7.

Definition demo_policy_digest (profile fallback : string) (rules overrides : list rule_payload_t)
    (p : option unit) : string := profile +:+ ":" +:+ fallback.

Definition demo_policy : policy unit := Policy "static" "reference" [] [] None None.

Definition demo_selector : selector (plan := unit) (handle := string) :=
  mk_selector sample_catalog demo_policy None default_device None None true.

Definition norm_query : kernel_query :=
  mk_query "norm.rms" "" None default_model [("activation", "bf16")] None
    (ShapeFacts [("hidden", 64); ("m", 3)] []) EAGER [].

Definition demo_select := select (λ _, true) demo_prepare demo_wall sample_digest demo_policy_digest.

Definition demo_explain := explain (plan := unit) (handle := string) (λ _, true) sample_digest demo_policy_digest.

(** What the first selection returns, and the selector after it. *)
Definition demo_after : selector (plan := unit) (handle := string) :=
  (demo_select demo_selector norm_query []).1.

Definition demo_selection : selection (handle := string) :=
  Selection (row "triton.norm" TRUE 4 [("weight", ParamContract MATCHES_ACTIVATION None)])
    (normalize_query demo_selector norm_query)
    (facts_for (λ _, true) demo_selector (normalize_query demo_selector norm_query) norm_spec)
    "triton.norm" [].

Lemma demo_selected : demo_select demo_after norm_query [] = (demo_after, Ok demo_selection).
Proof. vm_compute. reflexivity. Qed.

Lemma select_coherent_witness :
  ∃ spec, op (s_catalog demo_after) "norm.rms" = Ok spec
    ∧ sel_impl demo_selection ∈ impls (s_catalog demo_after) (Some (os_name spec)).
Proof.
  destruct (select_coherent (λ _, true) demo_prepare demo_wall sample_digest demo_policy_digest
              demo_after norm_query [] demo_after demo_selection) as (spec & H1 & H2 & _).
  - exists demo_selector. split; [reflexivity|]. apply rtc_once. apply step_select.
  - apply Forall_forall. vm_compute. by repeat constructor.
  - exact demo_selected.
  - exists spec. exact (conj H1 H2).
Defined.
