(* ===== verification/SelectorSpec.v ===== *)
(** * What kernel selection guarantees

    Theorems on [Selector.v]: which row the candidate order and the
    preparation loop end at, that the explanation predicts the selection, that
    a selection is stable, what autotuning returns, and that parameter dtypes
    chosen at construction time suit the rows a call can select. *)

From S2P Require Export Selector.
From Stdlib Require Import Ascii String.
From stdpp Require Import options.

Local Open Scope Z_scope.

(** ** The candidate order *)

Lemma omap_by_id eligible (ks : list string) :
  NoDup (im_kernel_id <$> eligible) →
  im_kernel_id <$> omap (dget (by_id eligible)) ks
  = filter (λ k, k ∈ im_kernel_id <$> eligible) ks.
Proof.
  intros Hn. induction ks as [|k ks IH]; [done|]. simpl. rewrite filter_cons.
  destruct (dget (by_id eligible) k) as [i|] eqn:E.
  - apply by_id_elem in E as [Hi <-]. rewrite decide_True by by apply list_elem_of_fmap_2.
    rewrite fmap_cons. by f_equal.
  - rewrite decide_False; [done|]. intros (i & -> & Hi)%list_elem_of_fmap.
    rewrite (by_id_some eligible i Hn Hi) in E. done.
Qed.

Lemma omap_by_id_elem eligible (ks : list string) i :
  i ∈ omap (dget (by_id eligible)) ks → i ∈ eligible ∧ im_kernel_id i ∈ ks.
Proof. intros (k & Hk & H)%list_elem_of_omap. apply by_id_elem in H as [? <-]. done. Qed.

Section spec.
Context {plan handle : Type}.
Notation selector := (selector (plan := plan) (handle := handle)).

(** The order in which a policy's candidates are tried.  First come
    the eligible rows the decision names, in the decision's own order; then,
    unless the decision is strict or the policy's fallback is "error", the
    eligible reference rows it does not name, and no other row. *)
Theorem policy_order (s : selector) eligible d prefer :
  NoDup (im_kernel_id <$> eligible) → dc_candidates d ≠ [] →
  ∃ named rest, order s eligible d prefer = named ++ rest
    ∧ im_kernel_id <$> named
      = filter (λ k, k ∈ im_kernel_id <$> eligible) (dc_candidates d)
    ∧ (∀ i, i ∈ named → i ∈ eligible)
    ∧ ∀ i, i ∈ rest ↔ dc_strict d = false ∧ p_fallback (s_policy s) ≠ "error"
                      ∧ i ∈ eligible ∧ im_reference i = true ∧ im_kernel_id i ∉ dc_candidates d.
Proof.
  intros Hn Hc. unfold order. destruct (dc_candidates d) as [|c cs]; [done|].
  set (named := omap (dget (by_id eligible)) (c :: cs)).
  assert (Hnamed : im_kernel_id <$> named
                   = filter (λ k, k ∈ im_kernel_id <$> eligible) (c :: cs)) by by apply omap_by_id.
  assert (Hel : ∀ i, i ∈ named → i ∈ eligible) by by intros i [? _]%omap_by_id_elem.
  destruct (dc_strict d) eqn:Hd; [|destruct (String.eqb_spec (p_fallback (s_policy s)) "error") as [Hf|Hf]].
  - exists named, []. rewrite app_nil_r. split_and!; [done..|]. intros i.
    rewrite elem_of_nil. naive_solver.
  - exists named, []. rewrite app_nil_r. split_and!; [done..|]. intros i.
    rewrite elem_of_nil. naive_solver.
  - eexists named, _. split_and!; [reflexivity|done|done|]. intros i.
    rewrite list_elem_of_filter, Hnamed, list_elem_of_filter.
    split; [|intros (_ & _ & Hi & Hr & Hk); split; [split; [done|tauto]|done]].
    intros [[Hr Hk] Hi]. split_and!; try done. intros Hin. apply Hk. split; [|done].
    by apply list_elem_of_fmap_2.
Qed.
End spec.

(** ** The preparation loop *)
Section choice.
Context {plan handle : Type}.
Context (import_ok : string → bool)
  (prepare : impl → facts → dict string obj → res handle)
  (wall : impl → facts → handle → Z)
  (catalog_digest : list row_payload → string)
  (policy_digest : string → string → list rule_payload_t → list rule_payload_t → option plan → string).

Notation selection := (selection (handle := handle)).
Notation selector := (selector (plan := plan) (handle := handle)).
Notation select := (select import_ok prepare wall catalog_digest policy_digest).
Notation explain := (explain import_ok catalog_digest policy_digest).
Notation facts_for := (facts_for import_ok).
Notation prepare_call := (prepare_call import_ok).
Notation select_key := (select_key catalog_digest policy_digest).

Lemma prepare_loop_first q fs d ordered x xs :
  prepare_loop prepare q fs d false ordered = Ok (x :: xs) →
  xs = [] ∧ ∃ before after, ordered = before ++ sel_impl x :: after
    ∧ ∀ i, i ∈ before → ∃ e, prepare i fs (params_for d i) = Err e ∧ e ≠ PolicyError.
Proof.
  induction ordered as [|i ordered IH]; simpl; [done|].
  destruct (prepare i fs (params_for d i)) as [h|e] eqn:Hp.
  - intros [= <- <-]. split; [done|]. exists [], ordered. split; [done|].
    by intros j ?%elem_of_nil.
  - intros H. assert (e ≠ PolicyError ∧ prepare_loop prepare q fs d false ordered = Ok (x :: xs))
      as [He H'] by (split; [by intros ->|by destruct e, (dc_strict d)]).
    destruct (IH H') as (-> & before & after & -> & Hb). split; [done|].
    exists (i :: before), after. split; [done|]. intros j [->|Hj]%elem_of_cons; [by exists e|auto].
Qed.

Lemma prepare_loop_head q fs d i ordered h :
  prepare i fs (params_for d i) = Ok h →
  prepare_loop prepare q fs d false (i :: ordered) = Ok [Selection i q fs h (params_for d i)].
Proof. intros H. simpl. by rewrite H. Qed.

(** What [select] does when nothing is cached and the call is not tuned. *)
Lemma select_uncached (s : selector) q prefer q' spec fs d :
  prepare_call s q = Ok (q', spec, fs, d) →
  dget (s_cache s) (select_key s q' d prefer) = None →
  tuning s d (q_mode q') = false →
  (select s q prefer).2
  = ordered ← candidates s q' spec fs d prefer;
    match prepare_loop prepare q' fs d false ordered with
    | Ok (x :: _) => Ok x
    | Ok [] => Err NoKernelError
    | Err e => Err e
    end.
Proof.
  intros Hc Hk Ht. unfold Selector.select. rewrite Hc, Hk.
  destruct (candidates s q' spec fs d prefer) as [ordered|e]; [|done]. simpl.
  unfold prepare_first. rewrite Ht.
  by destruct (prepare_loop prepare q' fs d false ordered) as [[|x xs]|e].
Qed.

(** Without a matching rule and without a preference, a call that is
    neither cached nor tuned gets the best eligible row that prepares: every
    eligible row that comes before the selected one, by priority and then by
    id, failed to prepare. *)
Theorem default_selection_best (s : selector) q q' spec fs x digest :
  catalog_wf digest (s_catalog s) →
  prepare_call s q = Ok (q', spec, fs, mk_decision [] false [] []) →
  dget (s_cache s) (select_key s q' (mk_decision [] false [] []) []) = None →
  tuning s (mk_decision [] false [] []) (q_mode q') = false →
  (select s q []).2 = Ok x →
  (sel_impl x ∈ impls (s_catalog s) (Some (os_name spec))
   ∧ row_eligible fs (q_mode q') (sel_impl x)
   ∧ prepare (sel_impl x) fs [] = Ok (sel_implementation x))
  ∧ ∀ j, j ∈ impls (s_catalog s) (Some (os_name spec)) → row_eligible fs (q_mode q') j →
      impl_le j (sel_impl x) → j = sel_impl x ∨ ∃ e, prepare j fs [] = Err e.
Proof.
  intros Hwf Hcall Hk Ht H. set (d := mk_decision [] false [] []) in *.
  rewrite (select_uncached _ _ _ _ _ _ _ Hcall Hk Ht) in H.
  apply bind_ok in H as (ordered & Ho & H).
  destruct (prepare_loop _ _ _ _ _ _) as [[|y ys]|] eqn:Hl; try done. injection H as ->.
  pose proof (prepare_loop_elem _ _ _ _ _ _ _ Hl x ltac:(by left)) as (Hx & _ & _ & Hps & Hprep).
  destruct (candidates_ok _ _ _ _ _ _ _ Ho _ Hx) as [Hin Hel].
  assert (params_for d (sel_impl x) = []) as Hnil.
  { unfold params_for. by case_bool_decide. }
  rewrite Hps, Hnil in Hprep.
  split; [done|]. intros j Hj Hej Hle.
  apply prepare_loop_first in Hl as (_ & before & after & Hord & Hb).
  unfold candidates, assess in Ho. apply bind_ok in Ho as ([el ts] & Ha & Ho).
  apply assess_rows_ok in Ha as (Hsub & Hels & _).
  assert (el = ordered) as ->.
  { unfold strict_filter, order in Ho. simpl in Ho. destruct el; [done|]. by injection Ho. }
  assert (j ∈ ordered) as Hjo by by apply Hels. rewrite Hord in Hjo.
  apply elem_of_app in Hjo as [Hjo|Hjo].
  - right. destruct (Hb _ Hjo) as (e & He & _). exists e. by rewrite <-He.
  - left. apply elem_of_cons in Hjo as [->|Hjo]; [done|].
    assert (impl_le (sel_impl x) j) as Hxj.
    { assert (StronglySorted impl_le ordered) as Hs.
      { eapply StronglySorted_sublist; [|exact Hsub]. unfold impls. by apply py_sorted_sorted; apply _. }
      rewrite Hord in Hs. apply StronglySorted_app_1_r, StronglySorted_inv in Hs as [_ Hs].
      rewrite Forall_forall in Hs. by apply Hs. }
    apply (same_id digest (s_catalog s)); [done|by apply impls_elem in Hj as []|by apply impls_elem in Hin as []|].
    by apply impl_le_ids.
Qed.

Lemma omap_head (ids : dict string impl) (ks : list string) k :
  ks = k :: tail ks →
  match dget ids k with
  | Some i => head (omap (dget ids) ks) = Some i
  | None => True
  end.
Proof. destruct ks as [|k' ks]; [done|]. intros [= ->]. simpl. by destruct (dget ids k). Qed.

(** Strict decisions: the order starts at the wanted row exactly when the
    filter keeps something, and then the filter keeps rows of that id. *)
Lemma strict_choice (s : selector) eligible d prefer w ws :
  dc_strict d = true → dc_candidates d = w :: ws →
  let ordered := order s eligible d prefer in
  (im_kernel_id <$> head ordered = Some w ∧
   ∃ i l, strict_filter d ordered = Ok (i :: l) ∧ im_kernel_id i = w)
  ∨ (im_kernel_id <$> head ordered ≠ Some w ∧ strict_filter d ordered = Err NoKernelError).
Proof.
  intros Hs Hc. unfold order, strict_filter. rewrite Hs, Hc. cbn [orb].
  set (ordered := omap (dget (by_id eligible)) (w :: ws)).
  destruct (dget (by_id eligible) w) as [i|] eqn:E.
  - assert (Hi : im_kernel_id i = w) by by apply by_id_elem in E as [].
    left. unfold ordered. simpl. rewrite E. simpl. rewrite Hi. split; [done|].
    rewrite filter_cons_True by done. eauto.
  - right. assert (Hn : ∀ j, j ∈ ordered → im_kernel_id j ≠ w).
    { intros j (k & _ & Hk)%list_elem_of_omap Hj. pose proof (by_id_elem _ _ _ Hk) as [_ <-].
      congruence. }
    split.
    + destruct ordered as [|j l]; [done|]. simpl. intros [= Hj]. by apply (Hn j); [left|].
    + rewrite filter_none; [done|]. exact Hn.
Qed.

(** An explanation predicts the selection.  For a call that is neither
    cached nor tuned, [explain] names no kernel exactly when [select] finds
    no candidate, and otherwise [select] returns a row of the explained id,
    provided the rows of that id prepare. *)
Theorem explain_predicts_select (s : selector) q prefer q' spec fs d t :
  prepare_call s q = Ok (q', spec, fs, d) →
  dget (s_cache s) (select_key s q' d prefer) = None →
  tuning s d (q_mode q') = false →
  explain s q prefer = Ok t →
  match st_selected t with
  | None => (select s q prefer).2 = Err NoKernelError
  | Some k =>
      (∀ i, im_kernel_id i = k → is_ok (prepare i fs (params_for d i)) = true) →
      ∃ x, (select s q prefer).2 = Ok x ∧ im_kernel_id (sel_impl x) = k
  end.
Proof.
  intros Hc Hk Ht He. rewrite (select_uncached _ _ _ _ _ _ _ Hc Hk Ht).
  unfold Selector.explain in He. rewrite Hc in He. simpl in He.
  apply bind_ok in He as ([el ts] & Ha & [= <-]). unfold candidates. rewrite Ha. simpl.
  rewrite Ht. simpl. set (ordered := order s el d prefer).
  assert (Hpick : ∀ i l k, im_kernel_id i = k → (∀ i, im_kernel_id i = k → is_ok (prepare i fs (params_for d i)) = true) →
    ∃ x, match prepare_loop prepare q' fs d false (i :: l) with
         | Ok [] => Err NoKernelError | Ok (x :: _) => Ok x | Err e => Err e end = Ok x
         ∧ im_kernel_id (sel_impl x) = k).
  { intros i l k Hi Hp. specialize (Hp _ Hi). destruct (prepare i fs (params_for d i)) as [h|] eqn:E; [|done].
    rewrite (prepare_loop_head _ _ _ _ _ _ E). eexists. split; [done|]. done. }
  destruct (dc_strict d) eqn:Hd; simpl.
  - destruct (dc_candidates d) as [|w ws] eqn:Hcand; simpl.
    { unfold strict_filter. by rewrite Hd, Hcand. }
    destruct (strict_choice s el d prefer w ws Hd Hcand) as [[Hh (i & l & Hf & Hi)]|[Hh Hf]];
      fold ordered in Hh, Hf; rewrite Hf.
    + rewrite bool_decide_eq_true_2 by done. simpl. rewrite Hh. by apply Hpick.
    + rewrite bool_decide_eq_false_2 by done. done.
  - unfold strict_filter. rewrite Hd. destruct ordered as [|i l]; simpl; [done|].
    by apply Hpick.
Qed.

(** ** Stability *)

(** What a selection does not change. *)
Definition same_setting (s s' : selector) : Prop :=
  s_catalog s' = s_catalog s ∧ s_policy s' = s_policy s ∧ s_model s' = s_model s
  ∧ s_device s' = s_device s ∧ s_benchmark s' = s_benchmark s ∧ s_epoch s' = s_epoch s.

Lemma tune_setting (s : selector) fs d first prepared :
  same_setting s (tune wall catalog_digest policy_digest s fs d first prepared).1.
Proof.
  unfold tune. destruct (dget (s_autotune s) _ ≫= _); [done|].
  destruct (s_benchmark s) eqn:Hb; [|done]. destruct (measured wall _ prepared); [done|].
  split_and!; done.
Qed.

Lemma select_setting (s : selector) q prefer : same_setting s (select s q prefer).1.
Proof.
  unfold Selector.select. destruct (prepare_call s q) as [[[[q' spec] fs] d]|]; [|done].
  destruct (dget (s_cache s) _); [done|].
  destruct (candidates s q' spec fs d prefer) as [ordered|]; [|done].
  unfold prepare_first. destruct (prepare_loop _ _ _ _ _ _) as [[|x xs]|]; [done| |done].
  destruct (tuning s d (q_mode q')); [|done].
  pose proof (tune_setting s fs d x (x :: xs)) as H.
  destruct (tune _ _ _ _ _ _ _ _) as [s1 w]. exact H.
Qed.

Lemma prepare_call_setting (s s' : selector) q :
  same_setting s s' → prepare_call s' q = prepare_call s q.
Proof.
  intros (Hc & Hp & Hm & Hd & _). unfold Selector.prepare_call, normalize_query, Selector.facts_for.
  by rewrite Hc, Hp, Hm, Hd.
Qed.

Lemma select_key_setting (s s' : selector) q d prefer :
  same_setting s s' → select_key s' q d prefer = select_key s q d prefer.
Proof. intros (Hc & Hp & _). unfold Selector.select_key. by rewrite Hc, Hp. Qed.

(** A selection is stable, also across autotuning: once [select] has
    returned a selection for a call, asking again returns the very same
    selection and changes nothing, until the cache is cleared. *)
Theorem select_stable (s s' : selector) q prefer x :
  select s q prefer = (s', Ok x) → select s' q prefer = (s', Ok x).
Proof.
  intros H. pose proof (select_setting s q prefer) as Hset. rewrite H in Hset. simpl in Hset.
  apply select_cases in H as [_ [[Hc Hx]|(q' & spec & fs & d & y & o & [= <-] & Hcall & Hc & _)]].
  - destruct (Hx x eq_refl) as (q' & spec & fs & d & Hcall & Hk).
    unfold Selector.select. rewrite (prepare_call_setting _ _ _ Hset), Hcall.
    by rewrite (select_key_setting _ _ _ _ _ Hset), Hc, Hk.
  - unfold Selector.select. rewrite (prepare_call_setting _ _ _ Hset), Hcall.
    by rewrite (select_key_setting _ _ _ _ _ Hset), Hc, dget_dset_eq.
Qed.

(** ** Autotuning *)
Lemma fastest_le (best : Z * selection) ms x :
  x ∈ best :: ms → (fastest best ms).1 ≤ x.1.
Proof.
  revert best x. induction ms as [|m ms IH]; intros best x Hx; simpl.
  { apply list_elem_of_singleton in Hx as ->. lia. }
  set (best' := if faster m best then m else best).
  assert (Hb : best'.1 ≤ best.1 ∧ best'.1 ≤ m.1).
  { unfold best', faster. destruct (Z.ltb_spec m.1 best.1); simpl; [lia|].
    destruct (Z.eqb_spec m.1 best.1); simpl; [|lia]. case_match; lia. }
  assert (Hhead := IH best' best' ltac:(by left)).
  apply elem_of_cons in Hx as [->|[->|Hx]%elem_of_cons]; [lia|lia|].
  apply IH. by right.
Qed.

(** Autotuning returns a prepared row that was measured and whose time
    is minimal among the measured ones; it records the row's id under the
    call's tuning key (and in the cache file when one can be written), and a
    later call with that key gets a row of that id, whatever the clock says,
    as long as one is among its prepared rows. *)
Theorem tune_fastest_sticky (s : selector) fs d first prepared b s' w :
  s_benchmark s = Some b →
  dget (s_autotune s) (tune_key catalog_digest policy_digest s fs d) = None →
  measured wall b prepared ≠ [] →
  tune wall catalog_digest policy_digest s fs d first prepared = (s', w) →
  (∃ ms, (ms, w) ∈ measured wall b prepared
         ∧ ∀ ms' y, (ms', y) ∈ measured wall b prepared → ms ≤ ms')
  ∧ dget (s_autotune s') (tune_key catalog_digest policy_digest s' fs d)
    = Some (im_kernel_id (sel_impl w))
  ∧ (∀ old, s_autotune_file s = Some old → s_autotune_writable s = true →
     s_autotune_file s' = Some (s_autotune s'))
  ∧ ∀ first' prepared',
      Exists (λ y, im_kernel_id (sel_impl y) = im_kernel_id (sel_impl w)) prepared' →
      ∃ y, tune wall catalog_digest policy_digest s' fs d first' prepared' = (s', y)
           ∧ y ∈ prepared' ∧ im_kernel_id (sel_impl y) = im_kernel_id (sel_impl w).
Proof.
  intros Hb Hk Hm H. unfold tune in H. rewrite Hk, Hb in H. simpl in H.
  destruct (measured wall b prepared) as [|m ms] eqn:Em; [done|]. injection H as <- <-.
  assert (Hkey : ∀ (s1 : selector), same_setting s s1 →
    tune_key catalog_digest policy_digest s1 fs d = tune_key catalog_digest policy_digest s fs d).
  { intros s1 (Hc & Hp & _). unfold tune_key. by rewrite Hc, Hp. }
  split_and!.
  - exists (fastest m ms).1. split.
    + pose proof (fastest_elem m ms) as Hin. by destruct (fastest m ms).
    + intros ms' y Hy. exact (fastest_le m ms _ Hy).
  - simpl. rewrite dget_dset. rewrite decide_True; [done|]. symmetry. apply Hkey. by split_and!.
  - intros old Ho Hw. simpl. by rewrite Ho, Hw.
  - intros first' prepared' Hex. unfold tune. cbn [s_autotune].
    rewrite dget_dset, decide_True by (symmetry; apply Hkey; by split_and!). simpl.
    destruct (list_find (λ x, im_kernel_id (sel_impl x) = im_kernel_id (sel_impl (fastest m ms).2)) prepared')
      as [[n y]|] eqn:E.
    + apply list_find_Some in E as (Hy & Hid & _). exists y. split; [done|].
      split; [by eapply list_elem_of_lookup_2|done].
    + apply list_find_None in E. exfalso. apply Exists_exists in Hex as (y & Hy & Hid).
      rewrite Forall_forall in E. by apply (E y).
Qed.

(** ** Parameter dtypes *)
Lemma viable_rows_ok known rows v fs : viable_rows known rows = Ok v → agrees known fs →
  v `sublist_of` rows ∧ ∀ i, i ∈ rows → eval (im_when i) fs = Ok None → i ∈ v.
Proof.
  intros H Hag. revert v H. induction rows as [|i rows IH]; intros v; simpl.
  { intros [= <-]. split; [done|]. by intros i ?%elem_of_nil. }
  intros H. apply bind_ok in H as (p & Hp & H). apply bind_ok in H as (v' & Hv' & [= <-]).
  destruct (IH _ Hv') as [Hsub Hin]. split.
  - destruct (is_false p); [by apply sublist_cons|by apply sublist_skip].
  - intros j [->|Hj]%elem_of_cons He.
    + destruct (is_false p) eqn:Hf; [|by left]. exfalso.
      apply eval_none_sat, (restrict_stands_for _ _ _ _ Hag Hp) in He.
      by destruct p as [[]| | | | | |].
    + destruct (is_false p); [by apply Hin|right; by apply Hin].
Qed.

(** Parameters allocated at construction time suit the calls that
    follow.  Take any later call whose facts agree with what was known at
    construction (the operation, the device, the libraries and the facts
    supplied), and a row that accepts this call and outranks all the
    operation's rows: if the row accepts some candidate dtype for each
    parameter, then [param_dtypes] succeeds, once the rows can be
    restricted, and the row accepts every dtype chosen. *)
Theorem param_dtypes_keep_best (s : selector) op_name activation known preferred prefer spec fs i v :
  op (s_catalog s) op_name = Ok spec →
  agrees (construction_facts import_ok s spec known) fs →
  viable_rows (construction_facts import_ok s spec known)
    (impls (s_catalog s) (Some (os_name spec))) = Ok v →
  i ∈ impls (s_catalog s) (Some (os_name spec)) →
  eval (im_when i) fs = Ok None →
  (∀ j, j ∈ impls (s_catalog s) (Some (os_name spec)) →
     j = i ∨ rank_of (lower <$> prefer) j < rank_of (lower <$> prefer) i) →
  (∀ name, name ∈ os_params spec →
     ∃ d, Some d ∈ param_order preferred activation name ∧ viable_for name d activation i = true) →
  ∃ chosen, param_dtypes import_ok s op_name activation known preferred prefer = Ok chosen
    ∧ ∀ name, name ∈ os_params spec →
        ∃ d, dget chosen name = Some d ∧ viable_for name d activation i = true.
Proof.
  intros Hop Hag Hv Hi He Hrank Hacc. unfold param_dtypes. rewrite Hop. simpl. rewrite Hv. simpl.
  destruct (viable_rows_ok _ _ _ _ Hv Hag) as [Hsub Hin].
  assert (i ∈ v) as Hiv by by apply Hin. destruct v as [|k v]; [by apply elem_of_nil in Hiv|].
  apply resolve_keeps; [done| |done].
  intros j Hj. apply Hrank. by eapply elem_of_sublist.
Qed.
End choice.

(** ** Concrete inputs *)

Definition demo_eligible : list impl := impls sample_catalog (Some "norm.rms").
Definition torch_row : impl := row "torch.norm" TRUE 0 [("weight", ParamContract ANY_FLOAT None)].

Lemma policy_order_witness :
  ∃ named rest,
    order demo_selector demo_eligible (PolicyDecision ["triton.norm"; "absent"] false [] ["r"]) []
      = named ++ rest
    ∧ im_kernel_id <$> named
      = filter (λ k, k ∈ im_kernel_id <$> demo_eligible) ["triton.norm"; "absent"].
Proof.
  destruct (policy_order demo_selector demo_eligible
              (PolicyDecision ["triton.norm"; "absent"] false [] ["r"]) []) as (named & rest & H1 & H2 & _).
  - by vm_compute; repeat constructor; set_solver.
  - done.
  - exists named, rest. exact (conj H1 H2).
Defined.

Definition demo_query_n : kernel_query := normalize_query demo_selector norm_query.
Definition demo_facts : facts := facts_for (λ _, true) demo_selector demo_query_n norm_spec.

Lemma demo_call : prepare_call (λ _, true) demo_selector norm_query
  = Ok (demo_query_n, norm_spec, demo_facts, mk_decision [] false [] []).
Proof. vm_compute. reflexivity. Qed.

Lemma default_selection_best_witness :
  (demo_select demo_selector norm_query []).2 = Ok demo_selection
  ∧ ∀ j, j ∈ impls (s_catalog demo_selector) (Some (os_name norm_spec)) →
      row_eligible demo_facts (q_mode demo_query_n) j → impl_le j (sel_impl demo_selection) →
      j = sel_impl demo_selection ∨ ∃ e, demo_prepare j demo_facts [] = Err e.
Proof.
  assert ((demo_select demo_selector norm_query []).2 = Ok demo_selection) as H
    by (vm_compute; reflexivity).
  split; [exact H|].
  apply (default_selection_best (λ _, true) demo_prepare demo_wall sample_digest demo_policy_digest
           demo_selector norm_query demo_query_n norm_spec demo_facts demo_selection sample_digest).
  - apply reachable_wf, sample_reachable.
  - exact demo_call.
  - reflexivity.
  - reflexivity.
  - exact H.
Defined.

Lemma explain_predicts_select_witness :
  ∃ t, demo_explain demo_selector norm_query ["torch.norm"] = Ok t
    ∧ st_selected t = Some "torch.norm"
    ∧ ((∀ i, im_kernel_id i = "torch.norm" →
          is_ok (demo_prepare i demo_facts (params_for (mk_decision [] false [] []) i)) = true) →
       ∃ x, (demo_select demo_selector norm_query ["torch.norm"]).2 = Ok x
            ∧ im_kernel_id (sel_impl x) = "torch.norm").
Proof.
  destruct (demo_explain demo_selector norm_query ["torch.norm"]) as [t|] eqn:E;
    [|exfalso; by vm_compute in E].
  exists t. split; [done|].
  assert (st_selected t = Some "torch.norm") as Ht.
  { vm_compute in E. injection E as <-. reflexivity. }
  split; [exact Ht|].
  pose proof (explain_predicts_select (λ _, true) demo_prepare demo_wall sample_digest
    demo_policy_digest demo_selector norm_query ["torch.norm"] _ _ _ _ t demo_call eq_refl eq_refl E) as H.
  rewrite Ht in H. exact H.
Defined.

Lemma select_stable_witness :
  demo_select (demo_select demo_selector norm_query []).1 norm_query []
  = ((demo_select demo_selector norm_query []).1, Ok demo_selection).
Proof.
  apply (select_stable (λ _, true) demo_prepare demo_wall sample_digest demo_policy_digest demo_selector).
  vm_compute. reflexivity.
Defined.

Definition demo_bench (i : impl) (fs : facts) (h : string) : res Z :=
  if String.eqb h "triton.norm" then Ok 5 else if String.eqb h "torch.norm" then Ok (-1) else Err RuntimeError.

Definition tuning_selector : selector (plan := unit) (handle := string) :=
  mk_selector sample_catalog demo_policy None default_device (Some demo_bench) (Some []) true.

Definition demo_prepared : list (selection (handle := string)) :=
  [Selection torch_row demo_query_n demo_facts "torch.norm" []; demo_selection].

Lemma tune_fastest_sticky_witness :
  ∃ s', tune demo_wall sample_digest demo_policy_digest tuning_selector demo_facts
          (mk_decision [] false [] []) demo_selection demo_prepared = (s', demo_selection)
    ∧ s_autotune_file s' = Some (s_autotune s').
Proof.
  destruct (tune demo_wall sample_digest demo_policy_digest tuning_selector demo_facts
              (mk_decision [] false [] []) demo_selection demo_prepared) as [s' w] eqn:E.
  assert (w = demo_selection) as -> by (vm_compute in E; injection E as _ <-; reflexivity).
  exists s'. split; [done|].
  destruct (tune_fastest_sticky demo_wall sample_digest demo_policy_digest tuning_selector demo_facts
              (mk_decision [] false [] []) demo_selection demo_prepared demo_bench s' demo_selection
              eq_refl eq_refl ltac:(done) E) as (_ & _ & H & _).
  exact (H [] eq_refl eq_refl).
Defined.

Lemma param_dtypes_keep_best_witness :
  ∃ chosen, param_dtypes (λ _, true) demo_selector "norm.rms" "bf16" [] [] ["triton.norm"] = Ok chosen
    ∧ ∀ name, name ∈ os_params norm_spec →
        ∃ d, dget chosen name = Some d ∧ viable_for name d "bf16" (sel_impl demo_selection) = true.
Proof.
  apply (param_dtypes_keep_best (λ _, true) demo_selector "norm.rms" "bf16" [] [] ["triton.norm"]
           norm_spec demo_facts (sel_impl demo_selection) demo_eligible).
  - reflexivity.
  - apply map_Forall_lookup. apply (bool_decide_eq_true_1 _). vm_compute. reflexivity.
  - vm_compute. reflexivity.
  - vm_compute. set_solver.
  - vm_compute. reflexivity.
  - intros j. revert j. apply Forall_forall. vm_compute. repeat constructor; by first [left|right].
  - intros name ->%list_elem_of_singleton. exists "bf16". split; [|by vm_compute].
    unfold param_order. simpl. set_solver.
Defined.
