(* ===== verification/Parallel.v ===== *)
(** * Parallel domains and rank layouts

    Models [parallel/config.py] and [parallel/layout.py]: the logical parallel
    sizes of one replica, their resolution against a world size, and the
    process groups of every domain with the checks [RankLayout] makes. *)

From S2P Require Export PyStr.
From Stdlib Require Import Ascii String.
From stdpp Require Import options.

Local Open Scope Z_scope.

(** ** Configuration *)
Record outer_config : Type := OuterParallelConfig { pipeline_size : Z; cfg_size : Z }.

Record dense_config : Type := DenseParallelConfig {
  dense_tp_size : option Z;
  dense_dp_size : Z;
  dense_sequence_parallel : bool;
}.

Record attention_config : Type := AttentionParallelConfig {
  att_tp_size : option Z;
  att_cp_size : Z;
  att_dp_size : Z;
  att_decode_cp_size : Z;
}.

Record moe_config : Type := MoeParallelConfig {
  moe_tp_size : option Z;
  moe_ep_size : Z;
  moe_dp_size : Z;
}.

(** [_validate_parallel_sizes] on the values of the named fields. *)
Definition validate_sizes (values : list (option Z)) : res unit :=
  ensure (forallb (λ v, match v with Some z => 1 <=? z | None => true end) values) ValueError.

Definition mk_outer (pipeline cfg : Z) : res outer_config :=
  _ ← validate_sizes [Some pipeline; Some cfg]; Ok (OuterParallelConfig pipeline cfg).

Definition mk_dense (tp : option Z) (dp : Z) (sp : bool) : res dense_config :=
  _ ← validate_sizes [tp; Some dp]; Ok (DenseParallelConfig tp dp sp).

Definition mk_attention (tp : option Z) (cp dp decode : Z) : res attention_config :=
  _ ← validate_sizes [tp; Some cp; Some dp; Some decode];
  Ok (AttentionParallelConfig tp cp dp decode).

Definition mk_moe (tp : option Z) (ep dp : Z) : res moe_config :=
  _ ← validate_sizes [tp; Some ep; Some dp]; Ok (MoeParallelConfig tp ep dp).

(** The [is_tp_only] properties. *)
Definition dense_tp_only (c : dense_config) : bool :=
  (dense_dp_size c =? 1) && negb (dense_sequence_parallel c).
Definition attention_tp_only (c : attention_config) : bool :=
  (att_cp_size c =? 1) && (att_dp_size c =? 1) && (att_decode_cp_size c =? 1).
Definition moe_tp_only (c : moe_config) : bool := (moe_ep_size c =? 1) && (moe_dp_size c =? 1).

Record parallel_config : Type := ParallelConfig {
  pc_outer : outer_config;
  pc_dense : dense_config;
  pc_attention : attention_config;
  pc_moe : moe_config;
}.

Record resolved_config : Type := ResolvedParallelConfig {
  rc_world : Z;
  rc_outer : outer_config;
  rc_dense_tp : Z;
  rc_dense_dp : Z;
  rc_sequence_parallel : bool;
  rc_att_tp : Z;
  rc_att_cp : Z;
  rc_att_dp : Z;
  rc_decode_cp : Z;
  rc_moe_tp : Z;
  rc_moe_ep : Z;
  rc_moe_dp : Z;
}.

(** [ResolvedParallelConfig.scope_size] *)
Definition scope_size (r : resolved_config) : Z :=
  rc_world r / (pipeline_size (rc_outer r) * cfg_size (rc_outer r)).

Definition prod_Z (l : list Z) : Z := foldr Z.mul 1 l.

(** [_resolve_dimension] *)
Definition resolve_dimension (scope : Z) (tp : option Z) (others : list Z) : res Z :=
  match tp with
  | Some t => Ok t
  | None =>
      let product := prod_Z others in
      if negb (scope mod product =? 0) then Err ValueError else Ok (scope / product)
  end.

(** [ParallelConfig.resolve] *)
Definition resolve (p : parallel_config) (world : Z) : res resolved_config :=
  let o := pc_outer p in
  let d := pc_dense p in
  let a := pc_attention p in
  let e := pc_moe p in
  _ ← ensure (1 <=? world) ValueError;
  let outer := pipeline_size o * cfg_size o in
  _ ← ensure (world mod outer =? 0) ValueError;
  let scope := world / outer in
  dense_tp ← resolve_dimension scope (dense_tp_size d) [dense_dp_size d];
  att_tp ← resolve_dimension scope (att_tp_size a) [att_cp_size a; att_dp_size a];
  moe_tp ← resolve_dimension scope (moe_tp_size e) [moe_ep_size e; moe_dp_size e];
  _ ← ensure (scope =? dense_tp * dense_dp_size d) ValueError;
  _ ← ensure (scope =? att_tp * att_cp_size a * att_dp_size a) ValueError;
  _ ← ensure (scope =? moe_tp * moe_ep_size e * moe_dp_size e) ValueError;
  _ ← ensure (att_tp mod att_decode_cp_size a =? 0) ValueError;
  Ok (ResolvedParallelConfig world o dense_tp (dense_dp_size d) (dense_sequence_parallel d)
        att_tp (att_cp_size a) (att_dp_size a) (att_decode_cp_size a)
        moe_tp (moe_ep_size e) (moe_dp_size e)).

Definition MODEL_DOMAINS : list string := ["dense"; "attention"; "moe"].

Inductive domain_config : Type :=
  | DomDense (c : dense_config)
  | DomAttention (c : attention_config)
  | DomMoe (c : moe_config).

(** [ResolvedParallelConfig.domain] *)
Definition domain (r : resolved_config) (name : string) : res domain_config :=
  if negb (bool_decide (name ∈ MODEL_DOMAINS)) then Err KeyError
  else if bool_decide (name = "dense")
    then Ok (DomDense (DenseParallelConfig (Some (rc_dense_tp r)) (rc_dense_dp r)
                         (rc_sequence_parallel r)))
  else if bool_decide (name = "attention")
    then Ok (DomAttention (AttentionParallelConfig (Some (rc_att_tp r)) (rc_att_cp r) (rc_att_dp r)
                             (rc_decode_cp r)))
  else Ok (DomMoe (MoeParallelConfig (Some (rc_moe_tp r)) (rc_moe_ep r) (rc_moe_dp r))).

(** The domains' explicit scopes: [{tp * other for tp, other in dimensions
    if tp is not None}]. *)
Definition explicit_scopes (p : parallel_config) : list Z :=
  remove_dups (omap id
    [(λ t, t * dense_dp_size (pc_dense p)) <$> dense_tp_size (pc_dense p);
     (λ t, t * (att_cp_size (pc_attention p) * att_dp_size (pc_attention p)))
       <$> att_tp_size (pc_attention p);
     (λ t, t * (moe_ep_size (pc_moe p) * moe_dp_size (pc_moe p))) <$> moe_tp_size (pc_moe p)]).

Definition minimum_scope (p : parallel_config) : Z :=
  let cp_dp := att_cp_size (pc_attention p) * att_dp_size (pc_attention p) in
  foldr Z.lcm 1 [dense_dp_size (pc_dense p); cp_dp; moe_ep_size (pc_moe p) * moe_dp_size (pc_moe p);
                 cp_dp * att_decode_cp_size (pc_attention p)].

(** [ParallelConfig.infer_replica_world_size] *)
Definition infer_replica_world_size (p : parallel_config) : res Z :=
  let outer := pipeline_size (pc_outer p) * cfg_size (pc_outer p) in
  let found (scope : Z) := _ ← resolve p (outer * scope); Ok (outer * scope) in
  match explicit_scopes p with
  | [] => found (minimum_scope p)
  | [s] => found s
  | _ => Err ValueError
  end.

(** ** Layouts *)
Definition WORLD : string := "world".
Definition GROUP_NAMES : list string :=
  [WORLD; "pipeline"; "cfg"; "dense_tp"; "dense_dp"; "attention_tp"; "attention_cp";
   "attention_dp"; "attention_decode_cp"; "moe_tp"; "moe_ep"; "moe_dp"; "moe_tp_ep"].

Abbreviation group := (list Z).
Abbreviation family := (list (list Z)).

Record rank_layout : Type := RankLayout {
  rl_world : Z;
  rl_groups : dict string family;
}.

(** The checks of [RankLayout.__post_init__] on one group and on a family. *)
Definition group_ok (world : Z) (members : group) : bool :=
  negb (bool_decide (members = []))
  && forallb (λ r, (0 <=? r) && (r <? world)) members
  && bool_decide (NoDup members)
  && bool_decide (members = py_sorted Z.le members).

Definition family_ok (world : Z) (groups : family) : bool :=
  forallb (group_ok world) groups
  && bool_decide (py_sorted Z.le (mjoin groups) = seqZ 0 world).

(** [RankLayout(world, groups)] *)
Definition mk_layout (world : Z) (groups : dict string family) : res rank_layout :=
  _ ← ensure (1 <=? world) ValueError;
  _ ← ensure (forallb (λ n, bool_decide (n ∈ GROUP_NAMES)) (dkeys groups)) ValueError;
  _ ← ensure (bool_decide (dget groups WORLD = Some [seqZ 0 world])) ValueError;
  _ ← ensure (forallb (family_ok world) (dvals groups)) ValueError;
  Ok (RankLayout world groups).

Definition groups_for (l : rank_layout) (name : string) : res family :=
  of_option KeyError (dget (rl_groups l) name).

(** [RankLayout.members_for] *)
Definition members_for (l : rank_layout) (name : string) (rank : Z) : res group :=
  _ ← ensure ((0 <=? rank) && (rank <? rl_world l)) ValueError;
  groups ← groups_for l name;
  of_option ValueError (snd <$> list_find (λ members, rank ∈ members) groups).

(** [members.index(rank)] *)
Definition index_of (rank : Z) (members : group) : option Z :=
  (λ p, Z.of_nat p.1) <$> list_find (λ x, x = rank) members.

(** [RankLayout.group_rank] *)
Definition group_rank (l : rank_layout) (name : string) (rank : Z) : res Z :=
  members ← members_for l name rank;
  of_option ValueError (index_of rank members).

(** [itertools.product] of ranges: the last coordinate changes fastest. *)
Fixpoint range_product (sizes : list Z) : list (list Z) :=
  match sizes with
  | [] => [[]]
  | s :: ss => seqZ 0 s ≫= λ c, cons c <$> range_product ss
  end.

(** The position of coordinates whose first item changes fastest. *)
Fixpoint local_rank (coords sizes : list Z) (stride : Z) : Z :=
  match coords, sizes with
  | c :: cs, s :: ss => c * stride + local_rank cs ss (stride * s)
  | _, _ => 0
  end.

(** Put the target coordinate back among the fixed ones. *)
Definition put_at (target : nat) (v : Z) (fixed : list Z) : list Z :=
  take target fixed ++ v :: drop target fixed.

(** [_dimension_groups] *)
Definition dimension_groups (base : Z) (sizes : list Z) (target : nat) : res family :=
  match sizes !! target with
  | None => Err ValueError
  | Some target_size =>
      Ok ((λ fixed, (λ v, base + local_rank (put_at target v fixed) sizes 1) <$> seqZ 0 target_size)
          <$> range_product (take target sizes ++ drop (S target) sizes))
  end.

(** [members[start:start+size] for start in range(0, len, size)] *)
Fixpoint chunks (fuel : nat) (size : nat) (l : group) : family :=
  match fuel, l with
  | S fuel', _ :: _ => take size l :: chunks fuel' size (drop size l)
  | _, _ => []
  end.

(** [_partition_groups] *)
Fixpoint partition_groups (groups : family) (size : Z) : res family :=
  match groups with
  | [] => Ok []
  | members :: groups' =>
      _ ← ensure (Z.of_nat (List.length members) mod size =? 0) ValueError;
      rest ← partition_groups groups' size;
      Ok (chunks (List.length members) (Z.to_nat size) members ++ rest)
  end.

(** [for p in range(pipeline) for c in range(cfg)] *)
Definition slots (n m : Z) : list (Z * Z) := seqZ 0 n ≫= λ p, pair p <$> seqZ 0 m.

(** [add_domain]: the groups of one dimension in every pipeline and CFG slot. *)
Definition domain_groups (pipeline cfg scope : Z) (sizes : list Z) (target : nat) : res family :=
  rmap (λ pc, dimension_groups ((pc.1 * cfg + pc.2) * scope) sizes target) (slots pipeline cfg)
  ≫= λ families : list family, Ok (mjoin families).

(** [build_rank_layout] *)
Definition build_rank_layout (r : resolved_config) : res rank_layout :=
  let world := rc_world r in
  let pipeline := pipeline_size (rc_outer r) in
  let cfg := cfg_size (rc_outer r) in
  let scope := world / (pipeline * cfg) in
  let rank p c l := (p * cfg + c) * scope + l in
  let domain := domain_groups pipeline cfg scope in
  let dense := [rc_dense_tp r; rc_dense_dp r] in
  let attention := [rc_att_tp r; rc_att_cp r; rc_att_dp r] in
  let moe := [rc_moe_tp r; rc_moe_ep r; rc_moe_dp r] in
  dense_tp ← domain dense 0%nat;
  dense_dp ← domain dense 1%nat;
  attention_tp ← domain attention 0%nat;
  attention_cp ← domain attention 1%nat;
  attention_dp ← domain attention 2%nat;
  moe_tp ← domain moe 0%nat;
  moe_ep ← domain moe 1%nat;
  moe_dp ← domain moe 2%nat;
  moe_tp_ep ← domain [rc_moe_tp r * rc_moe_ep r; rc_moe_dp r] 0%nat;
  decode_cp ← partition_groups attention_tp (rc_decode_cp r);
  mk_layout world
    [(WORLD, [seqZ 0 world]);
     ("pipeline", (λ cl, (λ p, rank p cl.1 cl.2) <$> seqZ 0 pipeline) <$> slots cfg scope);
     ("cfg", (λ pl, (λ c, rank pl.1 c pl.2) <$> seqZ 0 cfg) <$> slots pipeline scope);
     ("dense_tp", dense_tp); ("dense_dp", dense_dp);
     ("attention_tp", attention_tp); ("attention_cp", attention_cp);
     ("attention_dp", attention_dp);
     ("moe_tp", moe_tp); ("moe_ep", moe_ep); ("moe_dp", moe_dp); ("moe_tp_ep", moe_tp_ep);
     ("attention_decode_cp", decode_cp)].

(** [memberships] *)
Definition memberships (l : rank_layout) (rank : Z) : res (list (string * Z)) :=
  rmap (λ name, g ← group_rank l name rank; Ok (name, g)) (dkeys (rl_groups l)).

(** ** Enumerations *)

Lemma eq_perm {A} (l k : list A) : l = k → l ≡ₚ k.
Proof. by intros ->. Qed.

Lemma bind_perm {A B} (f g : A → list B) (l : list A) :
  (∀ x, x ∈ l → f x ≡ₚ g x) → (l ≫= f) ≡ₚ (l ≫= g).
Proof.
  induction l as [|x l IH]; intros H; [done|].
  change (f x ++ (l ≫= f) ≡ₚ g x ++ (l ≫= g)).
  rewrite (H x) by by left. rewrite IH; [done|]. intros y Hy. apply H. by right.
Qed.

Lemma bind_ext_in {A B} (f g : A → list B) (l : list A) :
  (∀ x, x ∈ l → f x = g x) → (l ≫= f) = (l ≫= g).
Proof.
  induction l as [|x l IH]; intros H; [done|].
  change (f x ++ (l ≫= f) = g x ++ (l ≫= g)).
  rewrite (H x) by by left. rewrite IH; [done|]. intros y Hy. apply H. by right.
Qed.

Lemma fmap_bind_list {A B C} (f : A → list B) (g : B → C) (l : list A) :
  g <$> (l ≫= f) = l ≫= λ x, g <$> f x.
Proof.
  induction l as [|x l IH]; [done|].
  change (g <$> (f x ++ (l ≫= f)) = (g <$> f x) ++ (l ≫= λ x, g <$> f x)).
  by rewrite fmap_app, IH.
Qed.

Lemma bind_fmap_list {A B C} (f : A → B) (g : B → list C) (l : list A) :
  (f <$> l) ≫= g = l ≫= λ x, g (f x).
Proof.
  induction l as [|x l IH]; [done|].
  change (g (f x) ++ ((f <$> l) ≫= g) = g (f x) ++ (l ≫= λ x, g (f x))). by rewrite IH.
Qed.

Lemma bind_bind_list {A B C} (f : A → list B) (g : B → list C) (l : list A) :
  (l ≫= f) ≫= g = l ≫= λ x, f x ≫= g.
Proof.
  induction l as [|x l IH]; [done|].
  change ((f x ++ (l ≫= f)) ≫= g = (f x ≫= g) ++ (l ≫= λ x, f x ≫= g)).
  by rewrite bind_app, IH.
Qed.

Lemma join_bind {A B} (f : A → list B) (l : list A) : mjoin (f <$> l) = l ≫= f.
Proof. induction l as [|x l IH]; [done|]. simpl. f_equal. exact IH. Qed.

Lemma fmap_bind_single {A B} (f : A → B) (l : list A) : f <$> l = l ≫= λ x, [f x].
Proof. induction l as [|x l IH]; [done|]. simpl. by f_equal. Qed.

(** Two nested loops can be exchanged, up to order. *)
Lemma bind_swap {A B C} (f : A → B → C) (l : list A) (k : list B) :
  (l ≫= λ x, f x <$> k) ≡ₚ (k ≫= λ y, (λ x, f x y) <$> l).
Proof.
  induction l as [|x l IH].
  { simpl. induction k as [|y k IHk]; [done|]. exact IHk. }
  change ((f x <$> k) ++ (l ≫= λ x, f x <$> k) ≡ₚ k ≫= λ y, f x y :: ((λ x, f x y) <$> l)).
  rewrite IH. clear IH. induction k as [|y k IHk]; [done|].
  change (f x y :: (f x <$> k) ++ (((λ x, f x y) <$> l) ++ (k ≫= λ y, (λ x, f x y) <$> l))
          ≡ₚ f x y :: ((λ x, f x y) <$> l) ++ (k ≫= λ y, f x y :: ((λ x, f x y) <$> l))).
  constructor. rewrite <-IHk. rewrite !app_assoc. apply Permutation_app; [|done].
  apply Permutation_app_comm.
Qed.

Lemma seqZ_mul n m : 0 ≤ n → 0 ≤ m →
  (seqZ 0 n ≫= λ p, (λ l, p * m + l) <$> seqZ 0 m) = seqZ 0 (n * m).
Proof.
  intros Hn Hm. rewrite <-(Z2Nat.id n Hn). clear Hn. induction (Z.to_nat n) as [|k IH]; [done|].
  assert (Hn : 0 ≤ Z.of_nat k) by lia. revert Hn IH. rewrite Nat2Z.inj_succ.
  generalize (Z.of_nat k). clear n k. intros n Hn IH.
  replace (Z.succ n) with (n + 1) by lia.
  rewrite (seqZ_app 0 n 1), bind_app, IH by lia.
  replace ((n + 1) * m) with (n * m + m) by lia. rewrite (seqZ_app 0 (n * m) m) by lia. f_equal.
  change (seqZ (0 + n) 1) with [0 + n].
  change (((λ l, (0 + n) * m + l) <$> seqZ 0 m) ++ [] = seqZ (0 + n * m) m).
  rewrite app_nil_r. etrans; [exact (fmap_add_seqZ ((0 + n) * m) 0 m)|]. f_equal. lia.
Qed.

(** All coordinate vectors enumerate the ranks of a block. *)
Lemma prod_Z_nonneg sizes : Forall (λ s, 0 ≤ s) sizes → 0 ≤ prod_Z sizes.
Proof. induction 1 as [|s sizes Hs _ IH]; simpl; [lia|]. by apply Z.mul_nonneg_nonneg. Qed.

Lemma range_product_ranks sizes st : Forall (λ s, 0 ≤ s) sizes →
  ((λ cs, local_rank cs sizes st) <$> range_product sizes)
  ≡ₚ (λ k, k * st) <$> seqZ 0 (prod_Z sizes).
Proof.
  intros Hs. revert st. induction Hs as [|s ss Hs Hss IH]; intros st; [done|].
  cbn [range_product prod_Z foldr]. change (foldr Z.mul 1 ss) with (prod_Z ss).
  rewrite fmap_bind_list.
  rewrite (bind_perm _ (λ c, (λ k, (c + k * s) * st) <$> seqZ 0 (prod_Z ss))).
  2: { intros c _. rewrite <-list_fmap_compose.
       transitivity ((λ x, c * st + x) <$> ((λ cs, local_rank cs ss (st * s)) <$> range_product ss)).
       { by rewrite <-list_fmap_compose. }
       rewrite IH, <-list_fmap_compose. apply eq_perm.
       apply list_fmap_ext. intros _ k _. simpl. lia. }
  rewrite (bind_swap (λ c k, (c + k * s) * st)).
  replace (s * prod_Z ss) with (prod_Z ss * s) by lia.
  rewrite <-(seqZ_mul (prod_Z ss) s), fmap_bind_list by (done || by apply prod_Z_nonneg).
  apply eq_perm. apply bind_ext_in. intros k _. rewrite <-list_fmap_compose.
  apply list_fmap_ext. intros _ c _. simpl. lia.
Qed.

(** Putting the target coordinate back reaches every coordinate vector. *)
Lemma put_at_enumerates sizes t s : sizes !! t = Some s →
  (range_product (take t sizes ++ drop (S t) sizes) ≫= λ fixed, (λ v, put_at t v fixed) <$> seqZ 0 s)
  ≡ₚ range_product sizes.
Proof.
  revert sizes. induction t as [|t IH]; intros [|a sizes] Hs; try done; simpl in Hs.
  - injection Hs as ->. symmetry. exact (bind_swap (λ v fixed, v :: fixed) _ _).
  - simpl. rewrite bind_bind_list. apply bind_perm. intros c _. rewrite bind_fmap_list.
    transitivity (cons c <$> (range_product (take t sizes ++ drop (S t) sizes)
                              ≫= λ fixed, (λ v, put_at t v fixed) <$> seqZ 0 s)).
    { apply eq_perm. rewrite fmap_bind_list. apply bind_ext_in. intros f _.
      rewrite <-list_fmap_compose. done. }
    by rewrite (IH _ Hs).
Qed.

Lemma range_product_length sizes cs : cs ∈ range_product sizes → List.length cs = List.length sizes.
Proof.
  revert cs. induction sizes as [|s ss IH]; intros cs; simpl.
  - by intros ->%list_elem_of_singleton.
  - intros (c & Hc & _)%list_elem_of_bind. apply list_elem_of_fmap in Hc as (f & -> & Hf).
    simpl. f_equal. by apply IH.
Qed.

(** The rank is strictly increasing in the target coordinate. *)
Lemma put_at_affine sizes t fixed st :
  Forall (λ s, 0 < s) sizes → 0 < st → (t < List.length sizes)%nat → (t ≤ List.length fixed)%nat →
  ∃ a b, 0 < b ∧ ∀ v, local_rank (put_at t v fixed) sizes st = a + v * b.
Proof.
  intros Hs. revert t fixed st. induction Hs as [|s ss Hs Hss IH]; intros t fixed st Hst Ht Hf;
    simpl in *; [lia|].
  destruct t as [|t].
  - exists (local_rank fixed ss (st * s)), st. split; [done|]. intros v. unfold put_at. simpl.
    rewrite drop_0. lia.
  - destruct fixed as [|c fixed]; simpl in *; [lia|].
    destruct (IH t fixed (st * s)) as (a & b & Hb & Hv); [nia|lia|lia|].
    exists (c * st + a), b. split; [done|]. intros v. unfold put_at in *. simpl.
    rewrite Hv. lia.
Qed.

(** ** Families that partition the ranks *)
Definition good_group (g : group) : Prop := g ≠ [] ∧ StronglySorted Z.lt g.

Record is_partition (base world : Z) (fam : family) : Prop := {
  part_groups : Forall good_group fam;
  part_flat : mjoin fam ≡ₚ seqZ base world;
}.

Lemma sorted_lt_le l : StronglySorted Z.lt l → StronglySorted Z.le l.
Proof.
  induction 1 as [|x l _ IH Hx]; constructor; [done|].
  eapply Forall_impl; [exact Hx|]. simpl. lia.
Qed.

Lemma sorted_lt_NoDup l : StronglySorted Z.lt l → NoDup l.
Proof.
  induction 1 as [|x l _ IH Hx]; constructor; [|done].
  intros Hin. rewrite Forall_forall in Hx. specialize (Hx x Hin). lia.
Qed.

Lemma seqZ_sorted m n : StronglySorted Z.lt (seqZ m n).
Proof.
  destruct (Z.le_gt_cases 0 n) as [Hn|Hn]; [|rewrite seqZ_nil by lia; constructor].
  rewrite <-(Z2Nat.id n Hn). clear Hn. revert m.
  induction (Z.to_nat n) as [|k IH]; intros m; [constructor|].
  rewrite seqZ_cons by lia. replace (Z.pred (Z.of_nat (S k))) with (Z.of_nat k) by lia.
  constructor; [apply IH|]. apply Forall_forall. intros x Hx%elem_of_seqZ. lia.
Qed.

Lemma affine_sorted (f : Z → Z) a b m n : 0 < b → (∀ v, f v = a + v * b) →
  StronglySorted Z.lt (f <$> seqZ m n).
Proof.
  intros Hb Hf. generalize (seqZ_sorted m n). generalize (seqZ m n).
  induction 1 as [|x l _ IH Hx]; simpl; constructor; [done|].
  apply Forall_fmap. eapply Forall_impl; [exact Hx|]. intros y Hy. simpl. rewrite !Hf. nia.
Qed.

Lemma affine_good f a b n : 0 < n → 0 < b → (∀ v, f v = a + v * b) → good_group (f <$> seqZ 0 n).
Proof.
  intros Hn Hb Hf. split; [|by eapply affine_sorted]. rewrite seqZ_cons by lia. done.
Qed.

Lemma family_ok_partition world fam : is_partition 0 world fam → family_ok world fam = true.
Proof.
  intros [Hg Hf]. unfold family_ok. apply andb_true_intro. split.
  - apply forallb_forall. intros g Hin. apply list_elem_of_In in Hin.
    rewrite Forall_forall in Hg. destruct (Hg _ Hin) as [Hne Hs]. unfold group_ok.
    rewrite !andb_true_iff. split_and!.
    + by rewrite bool_decide_eq_false_2.
    + apply forallb_forall. intros r Hr. apply list_elem_of_In in Hr.
      assert (r ∈ seqZ 0 world) as Hr'%elem_of_seqZ; [|lia].
      rewrite <-Hf. apply list_elem_of_join. eauto.
    + by apply bool_decide_eq_true_2, sorted_lt_NoDup.
    + apply bool_decide_eq_true_2. symmetry. by apply py_sorted_id, sorted_lt_le.
  - apply bool_decide_eq_true_2. etrans; [by apply py_sorted_unique; [apply _..|exact Hf]|].
    apply py_sorted_id, sorted_lt_le, seqZ_sorted.
Qed.

Lemma dimension_groups_ok base sizes t s :
  Forall (λ s, 0 < s) sizes → sizes !! t = Some s →
  ∃ fam, dimension_groups base sizes t = Ok fam ∧ is_partition base (prod_Z sizes) fam
         ∧ Forall (λ g, List.length g = Z.to_nat s) fam.
Proof.
  intros Hs Ht. unfold dimension_groups. rewrite Ht. eexists. split; [reflexivity|].
  set (rest := take t sizes ++ drop (S t) sizes).
  assert (Hlen : (t < List.length sizes)%nat) by by eapply lookup_lt_Some.
  split; [split|].
  - apply Forall_fmap, Forall_forall. intros fixed Hfixed%range_product_length. simpl.
    destruct (put_at_affine sizes t fixed 1 Hs) as (a & b & Hb & Hv); [lia|done| |].
    { unfold rest in Hfixed. rewrite length_app, length_take, length_drop in Hfixed. lia. }
    apply (affine_good _ (base + a) b); [|done|intros v; rewrite Hv; lia].
    rewrite Forall_forall in Hs. apply Hs. by eapply list_elem_of_lookup_2.
  - rewrite join_bind.
    transitivity (Z.add base <$> ((λ cs, local_rank cs sizes 1) <$>
                    (range_product rest ≫= λ fixed, (λ v, put_at t v fixed) <$> seqZ 0 s))).
    { apply eq_perm. rewrite !fmap_bind_list. apply bind_ext_in. intros f _.
      by rewrite <-!list_fmap_compose. }
    pose proof (put_at_enumerates sizes t s Ht) as Hp. fold rest in Hp.
    rewrite Hp, range_product_ranks
      by (eapply Forall_impl; [exact Hs|]; simpl; lia).
    apply eq_perm. transitivity (Z.add base <$> seqZ 0 (prod_Z sizes)).
    { f_equal. rewrite <-(list_fmap_id (seqZ 0 (prod_Z sizes))) at 2.
      apply list_fmap_ext. intros _ k _. simpl. lia. }
    rewrite fmap_add_seqZ. f_equal. lia.
  - apply Forall_fmap, Forall_forall. intros fixed _. simpl. by rewrite length_fmap, length_seqZ.
Qed.

(** ** Families of the whole replica *)

Lemma rmap_total {A B} (f : A → res B) (P : A → B → Prop) l :
  (∀ x, x ∈ l → ∃ y, f x = Ok y ∧ P x y) → ∃ k, rmap f l = Ok k ∧ Forall2 P l k.
Proof.
  induction l as [|x l IH]; intros H; [by exists []|].
  destruct (H x) as (y & Hy & Hp); [by left|].
  destruct IH as (k & Hk & Hf); [intros z Hz; apply H; by right|].
  exists (y :: k). simpl. rewrite Hy. simpl. rewrite Hk. split; [done|by constructor].
Qed.

Lemma slots_ranks n m scope : 0 ≤ n → 0 ≤ m → 0 ≤ scope →
  (slots n m ≫= λ pc, seqZ ((pc.1 * m + pc.2) * scope) scope) = seqZ 0 (n * m * scope).
Proof.
  intros Hn Hm Hs. rewrite <-(seqZ_mul (n * m) scope) by nia.
  rewrite <-(seqZ_mul n m), bind_bind_list by done. unfold slots. rewrite bind_bind_list.
  apply bind_ext_in. intros p _. rewrite !bind_fmap_list. apply bind_ext_in. intros c _. simpl.
  symmetry. etrans; [exact (fmap_add_seqZ ((p * m + c) * scope) 0 scope)|]. f_equal. lia.
Qed.

Lemma join_partitions l (fams : list family) (base : Z * Z → Z) scope :
  Forall2 (λ pc fam, is_partition (base pc) scope fam) l fams →
  Forall good_group (mjoin fams) ∧ mjoin (mjoin fams) ≡ₚ (l ≫= λ pc, seqZ (base pc) scope).
Proof.
  induction 1 as [|pc fam l fams [Hg Hf] _ [IHg IHf]]; [done|]. simpl. split.
  - by apply Forall_app.
  - change (mjoin (fam ++ mjoin fams) ≡ₚ seqZ (base pc) scope ++ (l ≫= λ pc, seqZ (base pc) scope)).
    rewrite join_app. by rewrite Hf, IHf.
Qed.

Lemma domain_groups_ok n m scope sizes t s :
  0 < n → 0 < m → Forall (λ s, 0 < s) sizes → prod_Z sizes = scope → sizes !! t = Some s →
  ∃ fam, domain_groups n m scope sizes t = Ok fam ∧ is_partition 0 (n * m * scope) fam
         ∧ Forall (λ g, List.length g = Z.to_nat s) fam.
Proof.
  intros Hn Hm Hs <- Ht. unfold domain_groups.
  destruct (rmap_total (λ pc, dimension_groups ((pc.1 * m + pc.2) * prod_Z sizes) sizes t)
    (λ pc fam, is_partition ((pc.1 * m + pc.2) * prod_Z sizes) (prod_Z sizes) fam
               ∧ Forall (λ g, List.length g = Z.to_nat s) fam) (slots n m)) as (fams & -> & Hf).
  { intros pc _. by apply dimension_groups_ok. }
  simpl. exists (mjoin fams). split; [done|].
  assert (0 ≤ prod_Z sizes) by (apply prod_Z_nonneg; eapply Forall_impl; [exact Hs|]; simpl; lia).
  destruct (join_partitions (slots n m) fams (λ pc, (pc.1 * m + pc.2) * prod_Z sizes) (prod_Z sizes))
    as [Hg Hp]; [by eapply Forall2_impl; [exact Hf|]; simpl; intros ? ? []|].
  rewrite slots_ranks in Hp by lia. split; [by split|].
  clear -Hf. induction Hf as [|pc fam l fams [_ Hl] _ IH]; [constructor|].
  simpl. by apply Forall_app.
Qed.

(** A family of affine groups whose base points and offsets enumerate the ranks. *)
Lemma slots_flat m scope : 0 ≤ m → 0 ≤ scope →
  ((λ cl, cl.1 * scope + cl.2) <$> slots m scope) = seqZ 0 (m * scope).
Proof.
  intros Hm Hs. unfold slots. rewrite fmap_bind_list, <-seqZ_mul by done.
  apply bind_ext_in. intros c _. by rewrite <-list_fmap_compose.
Qed.

Lemma pipeline_family_ok n m scope : 0 < n → 0 < m → 0 < scope →
  is_partition 0 (n * m * scope)
    ((λ cl, (λ p, (p * m + cl.1) * scope + cl.2) <$> seqZ 0 n) <$> slots m scope).
Proof.
  intros Hn Hm Hs. split.
  - apply Forall_fmap, Forall_forall. intros [c l] _.
    apply (affine_good _ (c * scope + l) (m * scope)); [done|nia|intros v; simpl; lia].
  - rewrite join_bind, <-(bind_swap (λ p cl, (p * m + cl.1) * scope + cl.2)).
    replace (n * m * scope) with (n * (m * scope)) by lia.
    rewrite <-(seqZ_mul n (m * scope)) by nia. apply eq_perm, bind_ext_in. intros p _.
    rewrite <-slots_flat, <-list_fmap_compose by lia. apply list_fmap_ext. intros _ [c l] _.
    simpl. lia.
Qed.

Lemma cfg_family_ok n m scope : 0 < n → 0 < m → 0 < scope →
  is_partition 0 (n * m * scope)
    ((λ pl, (λ c, (pl.1 * m + c) * scope + pl.2) <$> seqZ 0 m) <$> slots n scope).
Proof.
  intros Hn Hm Hs. split.
  - apply Forall_fmap, Forall_forall. intros [p l] _.
    apply (affine_good _ (p * m * scope + l) scope); [done|done|intros v; simpl; lia].
  - rewrite join_bind, <-slots_ranks by lia. unfold slots. rewrite !bind_bind_list.
    apply bind_perm. intros p _. rewrite !bind_fmap_list. simpl.
    rewrite (bind_swap (λ l c, (p * m + c) * scope + l)). apply eq_perm, bind_ext_in. intros c _.
    etrans; [exact (fmap_add_seqZ ((p * m + c) * scope) 0 scope)|]. f_equal. lia.
Qed.

(** ** Chunks *)
Lemma chunks_join fuel size l : (0 < size)%nat → (List.length l ≤ fuel)%nat →
  mjoin (chunks fuel size l) = l.
Proof.
  intros Hs. revert l. induction fuel as [|fuel IH]; intros [|x l] Hl; try done; [simpl in Hl; lia|].
  simpl. change (take size (x :: l) ++ mjoin (chunks fuel size (drop size (x :: l))) = x :: l).
  rewrite IH; [apply take_drop|]. rewrite length_drop. simpl in *. lia.
Qed.

Lemma chunks_sublist fuel size l g : g ∈ chunks fuel size l → sublist g l.
Proof.
  revert l. induction fuel as [|fuel IH]; intros [|x l]; try by intros []%not_elem_of_nil.
  intros [->|Hg]%elem_of_cons; [apply sublist_take|].
  etrans; [by apply IH|]. apply sublist_drop.
Qed.

Lemma chunks_good fuel size l : (0 < size)%nat → StronglySorted Z.lt l →
  Forall good_group (chunks fuel size l).
Proof.
  intros Hs Hl. apply Forall_forall. intros g Hg. split.
  - revert l Hl Hg. induction fuel as [|fuel IH]; intros [|x l] Hl; try by intros []%not_elem_of_nil.
    intros [->|Hg]%elem_of_cons; [by destruct size; [lia|]|].
    eapply IH, Hg. apply (StronglySorted_sublist _ _ (x :: l)); [done|apply sublist_drop].
  - eapply StronglySorted_sublist; [done|by eapply chunks_sublist].
Qed.

Lemma chunks_length fuel size k l : (0 < size)%nat → List.length l = (k * size)%nat →
  (List.length l ≤ fuel)%nat → Forall (λ g, List.length g = size) (chunks fuel size l).
Proof.
  intros Hs. revert k l. induction fuel as [|fuel IH]; intros k [|x l] Hk Hf; try by constructor.
  destruct k as [|k]; [done|]. cbn [chunks]. constructor.
  - rewrite length_take, Hk. lia.
  - apply (IH k); rewrite length_drop, ?Hk; simpl in *; lia.
Qed.

Lemma partition_groups_ok base world fam size t :
  is_partition base world fam → Forall (λ g, List.length g = Z.to_nat t) fam →
  0 < size → 0 ≤ t → t mod size = 0 →
  ∃ fam', partition_groups fam size = Ok fam' ∧ is_partition base world fam'
          ∧ Forall (λ g, List.length g = Z.to_nat size) fam'.
Proof.
  intros [Hg Hf] Hl Hs Ht Hd.
  assert (∃ fam', partition_groups fam size = Ok fam' ∧ Forall good_group fam'
    ∧ mjoin fam' = mjoin fam ∧ Forall (λ g, List.length g = Z.to_nat size) fam')
    as (fam' & Hp & Hg' & Hj & Hl'); [|exists fam'; split_and!; [done| |done]; split; congruence].
  clear Hf. induction Hg as [|g fam [Hne Hsort] Hg IH]; [by exists []|].
  apply Forall_cons in Hl as [Hlg Hl]. destruct (IH Hl) as (fam' & Hp & Hg' & Hj & Hl').
  simpl. rewrite Hlg, Z2Nat.id, Hd by done. simpl. rewrite Hp. simpl.
  eexists. split_and!; [done| | |].
  - apply Forall_app. split; [|done]. apply chunks_good; [lia|done].
  - rewrite join_app, chunks_join by lia. by rewrite Hj.
  - apply Forall_app. split; [|done]. apply (chunks_length _ _ (Z.to_nat (t / size))); [lia| |lia].
    rewrite Hlg. apply Z.div_exact in Hd; [|lia]. rewrite Hd at 1.
    rewrite Z2Nat.inj_mul; [lia|lia|]. by apply Z.div_pos.
Qed.

(** ** The layout of a resolved configuration *)

(** The guarantees of the configuration constructors. *)
Definition config_valid (p : parallel_config) : Prop :=
  let o := pc_outer p in
  let d := pc_dense p in
  let a := pc_attention p in
  let e := pc_moe p in
  mk_outer (pipeline_size o) (cfg_size o) = Ok o
  ∧ mk_dense (dense_tp_size d) (dense_dp_size d) (dense_sequence_parallel d) = Ok d
  ∧ mk_attention (att_tp_size a) (att_cp_size a) (att_dp_size a) (att_decode_cp_size a) = Ok a
  ∧ mk_moe (moe_tp_size e) (moe_ep_size e) (moe_dp_size e) = Ok e.

(** The number of ranks in every group of a family. *)
Definition group_size (r : resolved_config) : dict string Z :=
  [(WORLD, rc_world r); ("pipeline", pipeline_size (rc_outer r)); ("cfg", cfg_size (rc_outer r));
   ("dense_tp", rc_dense_tp r); ("dense_dp", rc_dense_dp r);
   ("attention_tp", rc_att_tp r); ("attention_cp", rc_att_cp r); ("attention_dp", rc_att_dp r);
   ("moe_tp", rc_moe_tp r); ("moe_ep", rc_moe_ep r); ("moe_dp", rc_moe_dp r);
   ("moe_tp_ep", rc_moe_tp r * rc_moe_ep r); ("attention_decode_cp", rc_decode_cp r)].

Record resolved_ok (r : resolved_config) : Prop := {
  ro_outer : 0 < pipeline_size (rc_outer r) ∧ 0 < cfg_size (rc_outer r);
  ro_scope : 0 < scope_size r;
  ro_world : rc_world r = pipeline_size (rc_outer r) * cfg_size (rc_outer r) * scope_size r;
  ro_dense : prod_Z [rc_dense_tp r; rc_dense_dp r] = scope_size r
             ∧ Forall (λ s, 0 < s) [rc_dense_tp r; rc_dense_dp r];
  ro_attention : prod_Z [rc_att_tp r; rc_att_cp r; rc_att_dp r] = scope_size r
                 ∧ Forall (λ s, 0 < s) [rc_att_tp r; rc_att_cp r; rc_att_dp r];
  ro_moe : prod_Z [rc_moe_tp r; rc_moe_ep r; rc_moe_dp r] = scope_size r
           ∧ Forall (λ s, 0 < s) [rc_moe_tp r; rc_moe_ep r; rc_moe_dp r];
  ro_decode : 0 < rc_decode_cp r ∧ rc_att_tp r mod rc_decode_cp r = 0;
}.

Lemma validate_sizes_ok values : validate_sizes values = Ok () → ∀ z, Some z ∈ values → 0 < z.
Proof.
  unfold validate_sizes. rewrite ensure_ok, forallb_forall. intros H z Hz%list_elem_of_In.
  specialize (H _ Hz). simpl in H. lia.
Qed.

Lemma config_valid_sizes p : config_valid p →
  (0 < pipeline_size (pc_outer p) ∧ 0 < cfg_size (pc_outer p))
  ∧ 0 < dense_dp_size (pc_dense p)
  ∧ (0 < att_cp_size (pc_attention p) ∧ 0 < att_dp_size (pc_attention p)
     ∧ 0 < att_decode_cp_size (pc_attention p))
  ∧ (0 < moe_ep_size (pc_moe p) ∧ 0 < moe_dp_size (pc_moe p)).
Proof.
  intros (Ho & Hd & Ha & He). unfold mk_outer, mk_dense, mk_attention, mk_moe in *.
  apply bind_ok in Ho as ([] & Ho & _). pose proof (validate_sizes_ok _ Ho) as Hos.
  apply bind_ok in Hd as ([] & Hd & _). pose proof (validate_sizes_ok _ Hd) as Hds.
  apply bind_ok in Ha as ([] & Ha & _). pose proof (validate_sizes_ok _ Ha) as Has.
  apply bind_ok in He as ([] & He & _). pose proof (validate_sizes_ok _ He) as Hes.
  split_and!; first [by apply Hos; repeat constructor | by apply Hds; repeat constructor
                    | by apply Has; repeat constructor | by apply Hes; repeat constructor].
Qed.

Lemma factor_pos a b s : 0 < s → 0 < b → s = a * b → 0 < a.
Proof. nia. Qed.

Lemma resolve_inv p w r : resolve p w = Ok r →
  rc_world r = w ∧ rc_outer r = pc_outer p ∧ 1 ≤ w
  ∧ w mod (pipeline_size (pc_outer p) * cfg_size (pc_outer p)) = 0
  ∧ scope_size r = rc_dense_tp r * dense_dp_size (pc_dense p)
  ∧ rc_dense_dp r = dense_dp_size (pc_dense p)
  ∧ scope_size r = rc_att_tp r * att_cp_size (pc_attention p) * att_dp_size (pc_attention p)
  ∧ rc_att_cp r = att_cp_size (pc_attention p) ∧ rc_att_dp r = att_dp_size (pc_attention p)
  ∧ rc_decode_cp r = att_decode_cp_size (pc_attention p)
  ∧ rc_att_tp r mod att_decode_cp_size (pc_attention p) = 0
  ∧ scope_size r = rc_moe_tp r * moe_ep_size (pc_moe p) * moe_dp_size (pc_moe p)
  ∧ rc_moe_ep r = moe_ep_size (pc_moe p) ∧ rc_moe_dp r = moe_dp_size (pc_moe p).
Proof.
  unfold resolve. intros H. inv_bind. unfold scope_size. simpl.
  split_and!; first [reflexivity | by apply Z.leb_le | by apply Z.eqb_eq].
Qed.

Lemma resolve_resolved_ok p w r : config_valid p → resolve p w = Ok r →
  resolved_ok r ∧ rc_world r = w.
Proof.
  intros ((Ho1 & Ho2) & Hd & (Ha1 & Ha2 & Ha3) & He1 & He2)%config_valid_sizes
    (Hw & Hout & Hw1 & Hm & Hsd & Hdd & Hsa & Hac & Had & Hde & Hdm & Hse & Hme & Hmd)%resolve_inv.
  split; [|done].
  assert (Hworld : rc_world r = pipeline_size (rc_outer r) * cfg_size (rc_outer r) * scope_size r).
  { unfold scope_size. rewrite Hout, Hw. apply Z.div_exact in Hm; [done|nia]. }
  assert (Hs : 0 < scope_size r).
  { apply (factor_pos _ (pipeline_size (rc_outer r) * cfg_size (rc_outer r)) w); [lia| |];
      rewrite <-?Hout in *; nia. }
  split; rewrite ?Hout, ?Hdd, ?Hac, ?Had, ?Hde, ?Hme, ?Hmd; try done.
  - by rewrite <-Hout.
  - split; [simpl; lia|]. rewrite !Forall_cons. split_and!; [|done|constructor]. nia.
  - split; [simpl; lia|]. rewrite !Forall_cons. split_and!; [|done..].
    apply (factor_pos _ (att_cp_size (pc_attention p) * att_dp_size (pc_attention p)) (scope_size r));
      nia.
  - split; [simpl; lia|]. rewrite !Forall_cons. split_and!; [|done..].
    apply (factor_pos _ (moe_ep_size (pc_moe p) * moe_dp_size (pc_moe p)) (scope_size r)); nia.
Qed.

(** Every family partitions the ranks into groups of the right size. *)
Definition layout_partitions (r : resolved_config) (groups : dict string family) : Prop :=
  Forall2 (λ (ng : string * family) (ns : string * Z), ng.1 = ns.1
    ∧ is_partition 0 (rc_world r) ng.2 ∧ Forall (λ g, List.length g = Z.to_nat ns.2) ng.2)
    groups (group_size r).

Lemma mk_layout_ok r groups : 1 ≤ rc_world r → dget groups WORLD = Some [seqZ 0 (rc_world r)] →
  layout_partitions r groups → mk_layout (rc_world r) groups = Ok (RankLayout (rc_world r) groups).
Proof.
  intros Hw Hworld Hg. unfold mk_layout. rewrite (proj2 (Z.leb_le _ _) Hw). simpl.
  assert (dkeys groups = dkeys (group_size r)) as ->.
  { clear -Hg. induction Hg as [|x y l k (? & _) _ IH]; [done|]. simpl. by f_equal. }
  rewrite (bool_decide_eq_true_2 _ Hworld). simpl.
  replace (forallb _ (dvals groups)) with true; [done|].
  symmetry. apply forallb_forall. intros fam Hin%list_elem_of_In.
  apply list_elem_of_fmap in Hin as (x & -> & Hx).
  apply list_elem_of_lookup in Hx as [i Hi].
  destruct (Forall2_lookup_l _ _ _ _ _ Hg Hi) as (y & _ & _ & Hp & _). by apply family_ok_partition.
Qed.

Lemma world_partition w : 0 < w → is_partition 0 w [seqZ 0 w].
Proof.
  intros Hw. split; [|simpl; by rewrite app_nil_r]. constructor; [|done].
  rewrite <-(list_fmap_id (seqZ 0 w)). apply (affine_good _ 0 1); [lia..|]. intros v. unfold id. lia.
Qed.

Lemma family_length {A} (f : A → Z → Z) n l :
  Forall (λ g, List.length g = Z.to_nat n) ((λ x, f x <$> seqZ 0 n) <$> l).
Proof. apply Forall_fmap, Forall_forall. intros x _. simpl. by rewrite length_fmap, length_seqZ. Qed.

Lemma build_rank_layout_ok r : resolved_ok r →
  ∃ groups, build_rank_layout r = Ok (RankLayout (rc_world r) groups) ∧ layout_partitions r groups.
Proof.
  intros [(Ho1 & Ho2) Hs Hw [Hpd Hfd] [Hpa Hfa] [Hpm Hfm] [Hd1 Hd2]].
  set (n := pipeline_size (rc_outer r)) in *. set (m := cfg_size (rc_outer r)) in *.
  assert (Hmoe : Forall (λ s, 0 < s) [rc_moe_tp r * rc_moe_ep r; rc_moe_dp r]
    ∧ prod_Z [rc_moe_tp r * rc_moe_ep r; rc_moe_dp r] = scope_size r).
  { rewrite !Forall_cons in Hfm. destruct Hfm as (? & ? & ? & _). split; [|simpl in *; lia].
    repeat constructor; [nia|done]. }
  destruct Hmoe as [Hfe Hpe].
  pose proof (λ sizes t s, domain_groups_ok n m (scope_size r) sizes t s Ho1 Ho2) as Hdom.
  unfold build_rank_layout. fold n m. change (rc_world r / (n * m)) with (scope_size r).
  destruct (Hdom _ 0%nat _ Hfd Hpd eq_refl) as (f1 & -> & P1 & L1).
  destruct (Hdom _ 1%nat _ Hfd Hpd eq_refl) as (f2 & -> & P2 & L2).
  destruct (Hdom _ 0%nat _ Hfa Hpa eq_refl) as (f3 & -> & P3 & L3).
  destruct (Hdom _ 1%nat _ Hfa Hpa eq_refl) as (f4 & -> & P4 & L4).
  destruct (Hdom _ 2%nat _ Hfa Hpa eq_refl) as (f5 & -> & P5 & L5).
  destruct (Hdom _ 0%nat _ Hfm Hpm eq_refl) as (f6 & -> & P6 & L6).
  destruct (Hdom _ 1%nat _ Hfm Hpm eq_refl) as (f7 & -> & P7 & L7).
  destruct (Hdom _ 2%nat _ Hfm Hpm eq_refl) as (f8 & -> & P8 & L8).
  destruct (Hdom _ 0%nat _ Hfe Hpe eq_refl) as (f9 & -> & P9 & L9).
  cbn [mbind res_bind]. pose proof (Forall_inv Hfa) as Htp. simpl in Htp.
  destruct (partition_groups_ok _ _ _ (rc_decode_cp r) _ P3 L3) as (fa & Ha & Pa & La);
    [done|lia|done|]. rewrite Ha. cbn [mbind res_bind].
  assert (Hwp : 0 < rc_world r) by nia.
  match goal with |- ∃ groups, mk_layout _ ?gs = _ ∧ _ => assert (Hpart : layout_partitions r gs) end;
    [|eexists; split; [apply mk_layout_ok; [lia|done|exact Hpart]|exact Hpart]].
  pose proof (world_partition _ Hwp) as Pw.
  pose proof (pipeline_family_ok n m _ Ho1 Ho2 Hs) as Pp.
  pose proof (cfg_family_ok n m _ Ho1 Ho2 Hs) as Pc. rewrite <-Hw in *.
  repeat (apply Forall2_cons; split; [split_and!; [done|done|]|]); try done;
    try apply family_length.
  repeat constructor. by rewrite length_seqZ.
Qed.

(** ** Positions in a partition *)

Lemma good_group_nodup g : good_group g → NoDup g.
Proof. intros [_ H]. by apply sorted_lt_NoDup. Qed.

Lemma partition_members world fam rank : is_partition 0 world fam → 0 ≤ rank < world →
  ∃ g i, list_find (λ members, rank ∈ members) fam = Some (i, g) ∧ g ∈ fam ∧ rank ∈ g
    ∧ ∀ g', g' ∈ fam → rank ∈ g' → g' = g.
Proof.
  intros [Hg Hf] Hr.
  assert (Hin : rank ∈ mjoin fam) by (rewrite Hf; apply elem_of_seqZ; lia).
  assert (Hnd : NoDup (mjoin fam)) by (rewrite Hf; apply NoDup_seqZ).
  apply list_elem_of_join in Hin as (g0 & Hr0 & Hg0).
  destruct (list_find_elem_of (λ members, rank ∈ members) fam g0 Hg0 Hr0) as [[i g] Hfind].
  exists g, i. split; [done|].
  apply list_find_Some in Hfind as (Hi & Hrg & _).
  split_and!; [by eapply list_elem_of_lookup_2|done|]. clear Hg0 Hr0 g0 Hg Hf.
  intros g' Hg' Hr'. apply list_elem_of_lookup in Hg' as [j Hj].
  destruct (decide (i = j)) as [->|Hij]; [congruence|exfalso].
  revert i j Hi Hj Hij Hnd. induction fam as [|h fam IH]; intros [|i] [|j] Hi Hj Hij Hnd; try done;
    simpl in *; apply NoDup_app in Hnd as (Hh & Hd & Hnd').
  - injection Hi as ->. eapply Hd; [done|]. apply list_elem_of_join.
    exists g'. split; [done|]. by eapply list_elem_of_lookup_2.
  - injection Hj as ->. eapply Hd; [done|]. apply list_elem_of_join.
    exists g. split; [done|]. by eapply list_elem_of_lookup_2.
  - eapply (IH i j); auto.
Qed.

Lemma index_of_ok rank g : rank ∈ g →
  ∃ i, index_of rank g = Some (Z.of_nat i) ∧ g !! i = Some rank.
Proof.
  intros Hr. unfold index_of.
  destruct (list_find_elem_of (λ x, x = rank) g rank Hr eq_refl) as [[i x] Hf]. rewrite Hf.
  exists i. split; [done|]. apply list_find_Some in Hf as (Hi & <- & _). done.
Qed.

Lemma layout_lookup r groups name size : layout_partitions r groups →
  dget (group_size r) name = Some size →
  ∃ fam, dget groups name = Some fam ∧ is_partition 0 (rc_world r) fam
         ∧ Forall (λ g, List.length g = Z.to_nat size) fam.
Proof.
  unfold layout_partitions. generalize (group_size r).
  induction 1 as [|[n1 fam] [n2 s] l k (Hn & Hp & Hl) _ IH]; [done|]; simpl in *. subst n2.
  case_decide; [|exact IH]. intros [= <-]. eauto.
Qed.

Lemma partition_position w groups name fam rank :
  is_partition 0 w fam → dget groups name = Some fam → 0 ≤ rank < w →
  ∃ members i, members_for (RankLayout w groups) name rank = Ok members ∧ members ∈ fam
    ∧ (∀ other, other ∈ fam → rank ∈ other → other = members)
    ∧ group_rank (RankLayout w groups) name rank = Ok (Z.of_nat i) ∧ members !! i = Some rank.
Proof.
  intros Hpart Hg Hrank.
  destruct (partition_members _ _ _ Hpart Hrank) as (g & i & Hf & Hin & Hrg & Huniq).
  destruct (index_of_ok _ _ Hrg) as (j & Hj & Hlook).
  assert (Hmem : members_for (RankLayout w groups) name rank = Ok g).
  { unfold members_for. simpl. rewrite (proj2 (Z.leb_le _ _)), (proj2 (Z.ltb_lt _ _)) by lia.
    simpl. unfold groups_for. simpl. rewrite Hg. simpl. by rewrite Hf. }
  exists g, j. split_and!; try done. unfold group_rank. rewrite Hmem. simpl. by rewrite Hj.
Qed.

Lemma layout_partitions_keys r groups name fam : layout_partitions r groups →
  (name, fam) ∈ groups → is_partition 0 (rc_world r) fam.
Proof.
  intros Hp Hin. apply list_elem_of_lookup in Hin as [i Hi].
  by destruct (Forall2_lookup_l _ _ _ _ _ Hp Hi) as (y & _ & _ & ? & _).
Qed.

(** Every rank of a layout has a position in each family. *)
Lemma memberships_total r l rank : resolved_ok r → build_rank_layout r = Ok l →
  0 ≤ rank < rc_world r → ∃ g, memberships l rank = Ok g.
Proof.
  intros Hok Hb Hr. destruct (build_rank_layout_ok _ Hok) as (groups & Hb' & Hp).
  rewrite Hb in Hb'. injection Hb' as ->. unfold memberships.
  destruct (rmap_total (λ name, g ← group_rank (RankLayout (rc_world r) groups) name rank; Ok (name, g))
    (λ _ _, True) (dkeys groups)) as (k & Hk & _); [|by exists k].
  intros name [fam Hfam]%dget_is_Some.
  destruct (partition_position (rc_world r) groups name fam rank) as (m & i & _ & _ & _ & -> & _);
    [|done|done|simpl; eauto].
  eapply layout_partitions_keys; [done|]. by apply dget_elem.
Qed.

(** ** Properties *)

(** C37: every configuration that [ParallelConfig.resolve] accepts for a
    world yields a rank layout (no check of [RankLayout] can fail), and in that
    layout each of the thirteen families splits the ranks of the replica into
    groups of exactly its resolved size: every rank belongs to one group of the
    family only, and [group_rank] is its position there. *)
Theorem layout_total p w r :
  config_valid p → resolve p w = Ok r →
  ∃ l, build_rank_layout r = Ok l ∧ rl_world l = w
    ∧ ∀ name, name ∈ GROUP_NAMES → ∃ fam size,
        groups_for l name = Ok fam ∧ dget (group_size r) name = Some size
        ∧ mjoin fam ≡ₚ seqZ 0 w
        ∧ ∀ rank, 0 ≤ rank < w → ∃ members i,
            members_for l name rank = Ok members
            ∧ members ∈ fam ∧ Z.of_nat (List.length members) = size
            ∧ (∀ other, other ∈ fam → rank ∈ other → other = members)
            ∧ group_rank l name rank = Ok (Z.of_nat i) ∧ members !! i = Some rank.
Proof.
  intros Hv Hr. destruct (resolve_resolved_ok _ _ _ Hv Hr) as [Hok Hw].
  destruct (build_rank_layout_ok _ Hok) as (groups & Hb & Hp).
  eexists. split; [exact Hb|]. split; [done|]. intros name Hname.
  assert (∃ size, dget (group_size r) name = Some size) as [size Hs].
  { assert (Forall (λ n, is_Some (dget (group_size r) n)) GROUP_NAMES) as Hall
      by (repeat constructor; eexists; reflexivity).
    rewrite Forall_forall in Hall. destruct (Hall _ Hname). eauto. }
  destruct (layout_lookup _ _ _ _ Hp Hs) as (fam & Hg & Hpart & Hlen).
  exists fam, size. unfold groups_for. simpl. rewrite Hg, <-Hw. split_and!; [done|done|apply Hpart|].
  intros rank Hrank.
  destruct (partition_position (rc_world r) groups name fam rank Hpart Hg Hrank)
    as (g & i & Hm & Hin & Huniq & Hgr & Hi).
  exists g, i. split_and!; try done.
  rewrite Forall_forall in Hlen. specialize (Hlen _ Hin). destruct Hpart as [Hgood _].
  rewrite Forall_forall in Hgood. destruct (Hgood _ Hin) as [Hne _].
  destruct g; [done|]. simpl in *. lia.
Qed.

Definition example_config : parallel_config :=
  ParallelConfig (OuterParallelConfig 2 1) (DenseParallelConfig None 2 true)
    (AttentionParallelConfig None 2 1 2) (MoeParallelConfig (Some 2) 2 1).

Definition example_resolved : resolved_config :=
  ResolvedParallelConfig 8 (OuterParallelConfig 2 1) 2 2 true 2 2 1 2 2 2 1.

Lemma layout_total_witness :
  config_valid example_config ∧ resolve example_config 8 = Ok example_resolved
  ∧ ∃ l, build_rank_layout example_resolved = Ok l ∧ rl_world l = 8
    ∧ groups_for l "attention_cp" = Ok [[0; 2]; [1; 3]; [4; 6]; [5; 7]].
Proof.
  assert (Hv : config_valid example_config) by (split_and!; reflexivity).
  assert (Hr : resolve example_config 8 = Ok example_resolved) by reflexivity.
  split; [exact Hv|]. split; [exact Hr|].
  destruct (layout_total example_config 8 example_resolved Hv Hr) as (l & Hl & Hw & _).
  exists l. split; [exact Hl|]. split; [exact Hw|].
  vm_compute in Hl. injection Hl as <-. reflexivity.
Defined.

Definition resolvable (p : parallel_config) (w : Z) : Prop := ∃ r, resolve p w = Ok r.

(** A domain's sizes fit a scope: the given TP size covers it, or one exists. *)
Definition dim_ok (s : Z) (tp : option Z) (other : Z) : Prop :=
  match tp with Some t => s = t * other | None => (other | s) end.

Definition scope_ok (p : parallel_config) (s : Z) : Prop :=
  let d := pc_dense p in
  let a := pc_attention p in
  let e := pc_moe p in
  dim_ok s (dense_tp_size d) (dense_dp_size d)
  ∧ dim_ok s (att_tp_size a) (att_cp_size a * att_dp_size a)
  ∧ dim_ok s (moe_tp_size e) (moe_ep_size e * moe_dp_size e)
  ∧ (att_cp_size a * att_dp_size a * att_decode_cp_size a | s).

Lemma resolve_dimension_ok s tp others : 0 < prod_Z others →
  dim_ok s tp (prod_Z others) ↔ ∃ t, resolve_dimension s tp others = Ok t ∧ s = t * prod_Z others.
Proof.
  intros Ho. destruct tp as [t|]; simpl.
  - split; [intros ->; eauto|]. by intros (t' & [= <-] & ->).
  - rewrite <-Z.mod_divide by lia. destruct (s mod prod_Z others =? 0) eqn:E; simpl.
    + apply Z.eqb_eq in E. split; [intros _|done]. exists (s / prod_Z others). split; [done|].
      apply Z.div_exact in E; lia.
    + apply Z.eqb_neq in E. split; [done|by intros (? & ? & _)].
Qed.

Lemma decode_divides t cp dp dec : 0 < cp → 0 < dp → 0 < dec →
  (cp * dp * dec | t * cp * dp) ↔ t mod dec = 0.
Proof.
  intros Hc Hp Hd. rewrite Z.mod_divide by lia.
  replace (t * cp * dp) with (cp * dp * t) by lia.
  split; [|apply Z.mul_divide_mono_l]. intros H. eapply Z.mul_divide_cancel_l; [|exact H]. nia.
Qed.

Lemma resolve_scope_ok p s : config_valid p → 0 < s →
  resolvable p (pipeline_size (pc_outer p) * cfg_size (pc_outer p) * s) ↔ scope_ok p s.
Proof.
  intros ((Ho1 & Ho2) & Hd & (Ha1 & Ha2 & Ha3) & He1 & He2)%config_valid_sizes Hs.
  unfold resolvable, resolve, scope_ok. set (outer := _ * cfg_size _).
  assert (Hout : 0 < outer) by (unfold outer; nia).
  rewrite (proj2 (Z.leb_le 1 (outer * s))) by nia. simpl.
  rewrite (Z.mul_comm outer s), Z.mod_mul, Z.div_mul by lia. simpl.
  pose proof (resolve_dimension_ok s (dense_tp_size (pc_dense p)) [dense_dp_size (pc_dense p)]) as H1.
  pose proof (resolve_dimension_ok s (att_tp_size (pc_attention p))
    [att_cp_size (pc_attention p); att_dp_size (pc_attention p)]) as H2.
  pose proof (resolve_dimension_ok s (moe_tp_size (pc_moe p))
    [moe_ep_size (pc_moe p); moe_dp_size (pc_moe p)]) as H3.
  simpl prod_Z in *. rewrite !Z.mul_1_r in *. rewrite H1, H2, H3 by nia. clear H1 H2 H3. split.
  - intros [r H]. inv_bind.
    repeat match goal with H : (_ =? _) = true |- _ => apply Z.eqb_eq in H end.
    split_and!; [eauto|eexists; split; [done|lia]|eexists; split; [done|lia]|].
    match goal with H : ?t mod _ = 0 |- _ => apply (decode_divides t _ _ _ Ha1 Ha2 Ha3) in H end.
    congruence.
  - intros ((t1 & -> & E1) & (t2 & -> & E2) & (t3 & -> & E3) & Hdiv). simpl.
    rewrite (proj2 (Z.eqb_eq _ _) E1).
    assert (E2' : s = t2 * att_cp_size (pc_attention p) * att_dp_size (pc_attention p)) by lia.
    assert (E3' : s = t3 * moe_ep_size (pc_moe p) * moe_dp_size (pc_moe p)) by lia.
    rewrite (proj2 (Z.eqb_eq _ _) E2'), (proj2 (Z.eqb_eq _ _) E3'). simpl.
    rewrite E2', decode_divides in Hdiv by done. rewrite (proj2 (Z.eqb_eq _ _) Hdiv). eauto.
Qed.

Lemma resolvable_scope p w : config_valid p → resolvable p w →
  ∃ s, 0 < s ∧ w = pipeline_size (pc_outer p) * cfg_size (pc_outer p) * s ∧ scope_ok p s.
Proof.
  intros Hv [r Hr]. destruct (resolve_resolved_ok _ _ _ Hv Hr) as [Hok Hw].
  destruct (resolve_inv _ _ _ Hr) as (_ & Hout & _). exists (scope_size r).
  pose proof (ro_scope _ Hok) as Hs. rewrite (ro_world _ Hok), Hout in Hw.
  split_and!; [done|done|]. apply resolve_scope_ok; [done|done|]. rewrite Hw. by exists r.
Qed.

Lemma minimum_scope_divides p s :
  (minimum_scope p | s) ↔
  (dense_dp_size (pc_dense p) | s) ∧ (att_cp_size (pc_attention p) * att_dp_size (pc_attention p) | s)
  ∧ (moe_ep_size (pc_moe p) * moe_dp_size (pc_moe p) | s)
  ∧ (att_cp_size (pc_attention p) * att_dp_size (pc_attention p)
     * att_decode_cp_size (pc_attention p) | s).
Proof.
  unfold minimum_scope. simpl. rewrite !Z.lcm_divide_iff.
  split; [tauto|]. intros. split_and!; try tauto. apply Z.divide_1_l.
Qed.

(** The explicit scopes are the scopes the given TP sizes force. *)
Lemma explicit_scopes_spec p s : s ∈ explicit_scopes p ↔
  (∃ t, dense_tp_size (pc_dense p) = Some t ∧ s = t * dense_dp_size (pc_dense p))
  ∨ (∃ t, att_tp_size (pc_attention p) = Some t
      ∧ s = t * (att_cp_size (pc_attention p) * att_dp_size (pc_attention p)))
  ∨ (∃ t, moe_tp_size (pc_moe p) = Some t
      ∧ s = t * (moe_ep_size (pc_moe p) * moe_dp_size (pc_moe p))).
Proof.
  unfold explicit_scopes. rewrite elem_of_remove_dups, list_elem_of_omap.
  setoid_rewrite elem_of_cons. setoid_rewrite elem_of_cons. setoid_rewrite elem_of_cons.
  setoid_rewrite elem_of_nil. unfold id.
  destruct (dense_tp_size _), (att_tp_size _), (moe_tp_size _); naive_solver.
Qed.

Lemma explicit_scope_forced p s x : scope_ok p s → x ∈ explicit_scopes p → s = x.
Proof.
  intros (H1 & H2 & H3 & _). rewrite explicit_scopes_spec.
  intros [(t & E & ->)|[(t & E & ->)|(t & E & ->)]]; rewrite E in *; simpl in *; lia.
Qed.

Lemma no_explicit_scope p s : explicit_scopes p = [] → scope_ok p s ↔ (minimum_scope p | s).
Proof.
  intros Hnil. rewrite minimum_scope_divides. unfold scope_ok.
  destruct (dense_tp_size _) as [t|] eqn:E1; [exfalso|].
  { eapply not_elem_of_nil. rewrite <-Hnil. apply explicit_scopes_spec. left. eauto. }
  destruct (att_tp_size _) as [t|] eqn:E2; [exfalso|].
  { eapply not_elem_of_nil. rewrite <-Hnil. apply explicit_scopes_spec. right. left. eauto. }
  destruct (moe_tp_size _) as [t|] eqn:E3; [exfalso|].
  { eapply not_elem_of_nil. rewrite <-Hnil. apply explicit_scopes_spec. right. right. eauto. }
  simpl. tauto.
Qed.

Lemma lcm_pos a b : 0 < a → 0 < b → 0 < Z.lcm a b.
Proof.
  intros Ha Hb. pose proof (Z.lcm_nonneg a b).
  assert (Z.lcm a b ≠ 0); [|lia]. intros [?|?]%Z.lcm_eq_0; lia.
Qed.

Lemma minimum_scope_pos p : config_valid p → 0 < minimum_scope p.
Proof.
  intros (_ & Hd & (Ha1 & Ha2 & Ha3) & He1 & He2)%config_valid_sizes.
  unfold minimum_scope. simpl. repeat apply lcm_pos; try done; try lia; repeat apply Z.mul_pos_pos; done.
Qed.

(** [infer_replica_world_size] returns the smallest world size the
    configuration resolves against, and it raises exactly when no world size
    resolves. *)
Theorem infer_minimal p : config_valid p →
  match infer_replica_world_size p with
  | Ok w => resolvable p w ∧ ∀ w', resolvable p w' → w ≤ w'
  | Err _ => ∀ w, ¬ resolvable p w
  end.
Proof.
  intros Hv. unfold infer_replica_world_size.
  pose proof (λ s x, explicit_scope_forced p s x) as Hforced.
  pose proof (λ w, resolvable_scope p w Hv) as Hscope.
  assert (NoDup (explicit_scopes p)) as Hnd by apply NoDup_remove_dups.
  destruct (explicit_scopes p) as [|x [|y l]] eqn:E.
  - pose proof (minimum_scope_pos _ Hv) as Hpos.
    destruct (proj2 (resolve_scope_ok p _ Hv Hpos)) as [r Hr];
      [by apply no_explicit_scope|]. rewrite Hr. simpl. split; [by exists r|].
    intros w' (s & Hs & -> & Hok)%Hscope. apply no_explicit_scope in Hok; [|done].
    apply config_valid_sizes in Hv as ((? & ?) & _). apply Z.divide_pos_le in Hok; [nia|done].
  - destruct (resolve p _) as [r|e] eqn:Hr; simpl.
    + split; [by exists r|]. intros w' (s & Hs & -> & Hok)%Hscope.
      rewrite (Hforced s x Hok) by by left. done.
    + intros w' Hw. destruct (Hscope _ Hw) as (s & Hs & -> & Hok). destruct Hw as [r Hr'].
      rewrite (Hforced s x Hok) in Hr' by by left. congruence.
  - intros w' (s & Hs & -> & Hok)%Hscope. apply NoDup_cons in Hnd as [Hx _]. apply Hx.
    rewrite <-(Hforced s x Hok), (Hforced s y Hok) by set_solver. by left.
Qed.

Lemma infer_minimal_witness :
  config_valid example_config ∧ infer_replica_world_size example_config = Ok 8
  ∧ resolvable example_config 8 ∧ ∀ w', resolvable example_config w' → 8 ≤ w'.
Proof.
  assert (Hv : config_valid example_config) by (split_and!; reflexivity).
  split; [exact Hv|]. split; [reflexivity|]. exact (infer_minimal example_config Hv).
Defined.
