(* ===== verification/ProcessGroups.v ===== *)
(** * Process groups, mesh and placement

    Models [parallel/process_groups.py], [parallel/mesh.py],
    [parallel/topology.py] and the part of [parallel.init] that builds the groups
    of a replica.  [torch.distributed] is not modelled: its default group and the
    outcome of every [new_group] call are parameters, and a process group is the
    number of the collective call that made it, with its ranks and backend. *)

From S2P Require Export Parallel.
From Stdlib Require Import Ascii String.
From stdpp Require Import options.

Local Open Scope Z_scope.

(** ** Handles *)

(** A process group, as one rank sees it.  Ranks call [new_group] in the same
    order, so the number of the call identifies the group across ranks; a rank
    that is no member gets the placeholder [GroupMember.NON_GROUP_MEMBER]. *)
Inductive process_group : Type :=
  | Group (number : Z) (ranks : list Z) (backend : string)
  | NonMember.

#[export] Instance process_group_eq_dec : EqDecision process_group.
Proof. solve_decision. Defined.

(** The state of [torch.distributed] in this process. *)
Record torch_dist : Type := TorchDist {
  td_rank : Z;
  td_world : Z;
  td_backend : string;
}.

(** [dist.group.WORLD], which the launcher created before any other group. *)
Definition world_group (td : torch_dist) : process_group :=
  Group 0 (seqZ 0 (td_world td)) (td_backend td).

(** [str(dist.get_backend(pg))]; it raises for a placeholder. *)
Definition backend_of (pg : process_group) : option string :=
  match pg with Group _ _ b => Some b | NonMember => None end.

(** ** The pool *)

Definition pool_key : Type := string * list Z.

Record pool : Type := Pool {
  pl_groups : dict pool_key process_group;
  pl_owned : list process_group;
  pl_calls : list pool_key;
}.

Definition UNDEFINED : string := "undefined".

(** [tuple(dict.fromkeys(...))] *)
Definition fromkeys (l : list string) : list string :=
  foldl (λ acc x, if bool_decide (x ∈ acc) then acc else acc ++ [x]) [] l.
Definition pool_backends (backend : string) (build_cpu : bool) : list string :=
  fromkeys (if build_cpu then [backend; "gloo"] else [backend]).

Definition world_aliases (td : torch_dist) (backends : list string) : list string :=
  if String.eqb (td_backend td) UNDEFINED then backends else [td_backend td].

(** The entries for the default group. *)
Definition pool_start (td : torch_dist) (world : Z) (backends : list string) : pool :=
  Pool (foldl (λ d name, dset d (name, seqZ 0 world) (world_group td)) []
          (world_aliases td backends)) [] [].

Section pool.
Context (new_group_ok : pool_key → bool) (destroy_ok : process_group → bool) (initialized : bool).

(** [dist.new_group(ranks, backend)]: the group the calls made so far number. *)
Definition new_group (td : torch_dist) (key : pool_key) (calls : list pool_key) : process_group :=
  if bool_decide (td_rank td ∈ key.2)
  then Group (Z.of_nat (List.length calls) + 1) key.2 key.1 else NonMember.

(** The body of the innermost loop of [__init__]. *)
Definition ensure_group (td : torch_dist) (key : pool_key) (p : pool) : pool * res unit :=
  match dget (pl_groups p) key with
  | Some _ => (p, Ok ())
  | None =>
      if new_group_ok key then
        let g := new_group td key (pl_calls p) in
        (Pool (dset (pl_groups p) key g)
           (if bool_decide (td_rank td ∈ key.2) then pl_owned p ++ [g] else pl_owned p)
           (pl_calls p ++ [key]), Ok ())
      else (p, Err RuntimeError)
  end.

Fixpoint ensure_groups (td : torch_dist) (keys : list pool_key) (p : pool) : pool * res unit :=
  match keys with
  | [] => (p, Ok ())
  | key :: keys' =>
      match ensure_group td key p with
      | (p', Ok _) => ensure_groups td keys' p'
      | (p', Err e) => (p', Err e)
      end
  end.

(** The keys in the order of the three loops. *)
Definition pool_keys (l : rank_layout) (backends : list string) : list pool_key :=
  dvals (rl_groups l) ≫= λ memberships,
    memberships ≫= λ ranks,
      if (1 <? Z.of_nat (List.length ranks)) then (λ name, (name, ranks)) <$> backends else [].

(** [close]: the handles destroyed, newest first, and whether one raised.  After
    [dist] is shut down nothing is destroyed. *)
Definition pool_close (p : pool) : pool * list process_group * res unit :=
  let released := if initialized then rev (pl_owned p) else [] in
  (Pool [] [] (pl_calls p), released, ensure (forallb destroy_ok released) RuntimeError).

(** [ProcessGroupPool(layout, backend, build_cpu)]: the pool, or the error and
    the groups released before raising it. *)
Definition pool_build (td : torch_dist) (l : rank_layout) (backend : string) (build_cpu : bool)
    : pool + (exn * list process_group) :=
  let backends := pool_backends backend build_cpu in
  match ensure_groups td (pool_keys l backends) (pool_start td (rl_world l) backends) with
  | (p, Ok _) => inl p
  | (p, Err e) =>
      match pool_close p with
      | (_, released, Ok _) => inr (e, released)
      | (_, released, Err e') => inr (e', released)
      end
  end.

Definition pool_get (p : pool) (ranks : list Z) (backend : string) : res process_group :=
  of_option KeyError (dget (pl_groups p) (backend, ranks)).

End pool.

(** ** Placement *)

Record topology : Type := Topology {
  is_full_nvlink : bool;
  is_single_node : bool;
  n_nodes : Z;
  n_gpus_per_node : Z;
}.
#[export] Instance topology_eq_dec : EqDecision topology.
Proof. solve_decision. Defined.

Record placement_entry : Type := PlacementEntry {
  pe_node : string;
  pe_physical : option Z;
  pe_clique : option string;
}.

(** [fallback_topology]; [device_count] is [None] when asking for it raises. *)
Definition visible_gpus (device_count : option Z) : Z :=
  match device_count with Some n => Z.max n 1 | None => 1 end.
Definition fallback_topology (device_count : option Z) (size : Z) : topology :=
  let visible := visible_gpus device_count in
  let node_count := Z.max 1 ((size + visible - 1) / visible) in
  let gpus_per_node := (size + node_count - 1) / node_count in
  Topology (size =? 1) (node_count =? 1) node_count gpus_per_node.

(** [topology_from_entries] *)
Definition count_nodes (entries : list placement_entry) : dict string Z :=
  foldl (λ d e, dset d (pe_node e) (default 0 (dget d (pe_node e)) + 1)) [] entries.
Definition max_value (l : list Z) : res Z :=
  match l with [] => Err ValueError | z :: l' => Ok (foldl Z.max z l') end.
Definition same_clique (entries : list placement_entry) : bool :=
  match entries with
  | [] => false
  | e :: _ => bool_decide (is_Some (pe_clique e))
              && forallb (λ e', bool_decide (pe_clique e' = pe_clique e)) entries
  end.
Definition topology_from_entries (nvlink_check : list Z → bool) (entries : list placement_entry)
    : res topology :=
  let per_node := count_nodes entries in
  let nodes := Z.of_nat (List.length per_node) in
  let single := nodes =? 1 in
  let physical := pe_physical <$> entries in
  let full :=
    if existsb (λ p, bool_decide (p = None)) physical then false
    else if single then nvlink_check (omap id physical)
    else same_clique entries in
  largest ← max_value (dvals per_node);
  Ok (Topology full single nodes largest).

(** ** The mesh *)

Record mesh : Type := Mesh {
  ms_layout : rank_layout;
  ms_rank : Z;
  ms_name : string;
  ms_members : dict string (list Z);
  ms_groups : dict string process_group;
  ms_cpu_groups : dict string process_group;
  ms_pool : option pool;
  ms_placement : option (list placement_entry);
  ms_topologies : dict string topology;
}.

(** [Mesh(layout, ...)] *)
Definition mk_mesh (l : rank_layout) (rank : Z) (groups cpu_groups : dict string process_group)
    (p : option pool) (name : string) : res mesh :=
  _ ← ensure ((0 <=? rank) && (rank <? rl_world l)) ValueError;
  members ← rmap (λ n, m ← members_for l n rank; Ok (n, m)) (dkeys (rl_groups l));
  _ ← ensure (forallb (λ n, bool_decide (n ∈ dkeys members)) (dkeys groups ++ dkeys cpu_groups)) ValueError;
  Ok (Mesh l rank name members groups cpu_groups p None []).

Definition group_names (m : mesh) : list string := dkeys (ms_members m).
Definition group_members (m : mesh) (name : string) : res (list Z) :=
  of_option KeyError (dget (ms_members m) name).
Definition mesh_group_size (m : mesh) (name : string) : res Z :=
  members ← group_members m name; Ok (Z.of_nat (List.length members)).
Definition mesh_group_rank (m : mesh) (name : string) : res Z :=
  members ← group_members m name; of_option ValueError (index_of (ms_rank m) members).

(** [distinct_groups] *)
Definition distinct_groups (m : mesh) : list string :=
  (foldl (λ (acc : list (list Z) * list string) kv,
     if String.eqb kv.1 WORLD || (Z.of_nat (List.length kv.2) <=? 1) || bool_decide (kv.2 ∈ acc.1)
     then acc else (acc.1 ++ [kv.2], acc.2 ++ [kv.1])) ([], []) (ms_members m)).2.

(** [Mesh.group]; [default_group] is [dist.group.WORLD] when it exists. *)
Definition mesh_group (default_group : option process_group) (m : mesh) (name : string)
    : res process_group :=
  _ ← group_members m name;
  match dget (ms_groups m) name with
  | Some g => Ok g
  | None =>
      match default_group with
      | Some g => if String.eqb name WORLD then Ok g else Err RuntimeError
      | None => Err RuntimeError
      end
  end.

Definition mesh_cpu_group (m : mesh) (name : string) : res process_group :=
  _ ← group_members m name;
  of_option RuntimeError (dget (ms_cpu_groups m) name).

Definition mesh_close (destroy_ok : process_group → bool) (initialized : bool) (m : mesh)
    : mesh * res unit :=
  match ms_pool m with
  | None => (Mesh (ms_layout m) (ms_rank m) (ms_name m) (ms_members m) [] [] None (ms_placement m)
               (ms_topologies m), Ok ())
  | Some p =>
      match pool_close destroy_ok initialized p with
      | (_, _, Ok _) =>
          (Mesh (ms_layout m) (ms_rank m) (ms_name m) (ms_members m) [] [] None (ms_placement m)
             (ms_topologies m), Ok ())
      | (p', _, Err e) =>
          (Mesh (ms_layout m) (ms_rank m) (ms_name m) (ms_members m) (ms_groups m) (ms_cpu_groups m)
             (Some p') (ms_placement m) (ms_topologies m), Err e)
      end
  end.

(** [set_placement] and [topology] *)
Definition set_placement (entries : list placement_entry) (m : mesh) : res mesh :=
  _ ← ensure (Z.of_nat (List.length entries) =? rl_world (ms_layout m)) ValueError;
  Ok (Mesh (ms_layout m) (ms_rank m) (ms_name m) (ms_members m) (ms_groups m) (ms_cpu_groups m)
        (ms_pool m) (Some entries) []).

Definition set_topology (name : string) (t : topology) (m : mesh) : mesh :=
  Mesh (ms_layout m) (ms_rank m) (ms_name m) (ms_members m) (ms_groups m) (ms_cpu_groups m)
    (ms_pool m) (ms_placement m) (dset (ms_topologies m) name t).

Section topology_of.
Context (device_count : option Z) (nvlink_check : list Z → bool).

(** The topology of a group, computed anew. *)
Definition compute_topology (m : mesh) (name : string) : res topology :=
  members ← group_members m name;
  match ms_placement m with
  | None => Ok (fallback_topology device_count (Z.of_nat (List.length members)))
  | Some entries =>
      es ← rmap (λ r, of_option IndexError (entries !! Z.to_nat r)) members;
      topology_from_entries nvlink_check es
  end.

Definition mesh_topology (m : mesh) (name : string) : mesh * res topology :=
  match group_members m name with
  | Err e => (m, Err e)
  | Ok _ =>
      match dget (ms_topologies m) name with
      | Some t => (m, Ok t)
      | None =>
          match compute_topology m name with
          | Err e => (m, Err e)
          | Ok t => (set_topology name t m, Ok t)
          end
      end
  end.
End topology_of.

(** ** Building the groups of a replica *)

(** [_resolve_backend]; [device] is the type of the device argument. *)
Definition auto_backend (cuda : bool) (td : torch_dist) (device : option string) : string :=
  if bool_decide (td_backend td ∈ ["nccl"; "gloo"]) then td_backend td
  else match device with
       | None => if cuda then "nccl" else "gloo"
       | Some d => if String.eqb d "cuda" then "nccl" else "gloo"
       end.
Definition resolve_backend (cuda : bool) (td : torch_dist) (backend device : option string) : string :=
  match backend with
  | Some b => if String.eqb b "auto" then auto_backend cuda td device else b
  | None => auto_backend cuda td device
  end.

(** The group maps [init] hands to the mesh. *)
Fixpoint collect_groups (l : rank_layout) (rank : Z) (p : pool) (backend : string) (names : list string)
    : res (dict string process_group) :=
  match names with
  | [] => Ok []
  | name :: names' =>
      ranks ← members_for l name rank;
      if (1 <? Z.of_nat (List.length ranks)) then
        g ← pool_get p ranks backend;
        rest ← collect_groups l rank p backend names'; Ok ((name, g) :: rest)
      else collect_groups l rank p backend names'
  end.
Definition build_mesh (td : torch_dist) (l : rank_layout) (p : pool) (backend : string) (build_cpu : bool)
    : res mesh :=
  groups ← collect_groups l (td_rank td) p backend (dkeys (rl_groups l));
  cpu ← (if build_cpu then collect_groups l (td_rank td) p "gloo" (dkeys (rl_groups l)) else Ok []);
  mk_mesh l (td_rank td) groups cpu (Some p) "model".

(** ** Pools of two ranks *)

Section pool_facts.
Context (ok1 ok2 : pool_key → bool) (td1 td2 : torch_dist).

(** The pools of two ranks at the same point of [__init__]. *)
Record in_step (p1 p2 : pool) : Prop := {
  is_calls : pl_calls p1 = pl_calls p2;
  is_keys : ∀ key, key ∈ dkeys (pl_groups p1) ↔ key ∈ dkeys (pl_groups p2);
  is_groups : ∀ key, td_rank td1 ∈ key.2 → td_rank td2 ∈ key.2 →
    dget (pl_groups p1) key = dget (pl_groups p2) key;
}.

Lemma ensure_group_step key p1 p2 p1' p2' : in_step p1 p2 →
  ensure_group ok1 td1 key p1 = (p1', Ok ()) → ensure_group ok2 td2 key p2 = (p2', Ok ()) →
  in_step p1' p2'.
Proof.
  intros [Hc Hk Hg]. unfold ensure_group.
  destruct (dget (pl_groups p1) key) eqn:E1, (dget (pl_groups p2) key) eqn:E2.
  - by intros [= <-] [= <-].
  - exfalso. apply dget_None in E2. apply E2, Hk, dget_is_Some. by eexists.
  - exfalso. apply dget_None in E1. apply E1, Hk, dget_is_Some. by eexists.
  - destruct (ok1 key), (ok2 key); try done. intros [= <-] [= <-]. split; simpl.
    + by rewrite Hc.
    + intros k. rewrite !dset_keys. apply dget_None in E1, E2.
      rewrite !decide_False by done. rewrite !elem_of_app, Hk. done.
    + intros k H1 H2. rewrite !dget_dset. case_decide; [|by apply Hg]. subst k.
      unfold new_group. by rewrite !bool_decide_eq_true_2, Hc by done.
Qed.

Lemma ensure_groups_step keys : ∀ p1 p2 p1' p2', in_step p1 p2 →
  ensure_groups ok1 td1 keys p1 = (p1', Ok ()) → ensure_groups ok2 td2 keys p2 = (p2', Ok ()) →
  in_step p1' p2'.
Proof.
  induction keys as [|key keys IH]; intros p1 p2 p1' p2' Hs; simpl; [by intros [= <-] [= <-]|].
  destruct (ensure_group ok1 td1 key p1) as [q1 [[]|]] eqn:E1; [|done].
  destruct (ensure_group ok2 td2 key p2) as [q2 [[]|]] eqn:E2; [|done].
  apply IH. by eapply ensure_group_step.
Qed.
End pool_facts.

Lemma foldl_dset_keys (world : Z) (names : list string) g (d : dict pool_key process_group) key :
  key ∈ dkeys (foldl (λ d name, dset d (name, seqZ 0 world) g) d names)
  ↔ key ∈ dkeys d ∨ (key.2 = seqZ 0 world ∧ key.1 ∈ names).
Proof.
  revert d. induction names as [|n names IH]; intros d; simpl; [set_solver|].
  rewrite IH, dset_keys. destruct key as [k r]. simpl. case_decide.
  - set_solver.
  - rewrite elem_of_app, list_elem_of_singleton. set_solver.
Qed.

Lemma foldl_dset_get (world : Z) (names : list string) g (d : dict pool_key process_group) key :
  dget (foldl (λ d name, dset d (name, seqZ 0 world) g) d names) key
  = if decide (key.2 = seqZ 0 world ∧ key.1 ∈ names) then Some g else dget d key.
Proof.
  revert d. induction names as [|n names IH]; intros d; simpl; [by rewrite decide_False by set_solver|].
  rewrite IH, dget_dset. destruct key as [k r]; simpl. repeat case_decide; set_solver.
Qed.

(** ** The pool of one rank *)
Section pool_inv.
Context (ok : pool_key → bool) (td : torch_dist) (world : Z) (backends : list string).

Definition alias (key : pool_key) : Prop := key.2 = seqZ 0 world ∧ key.1 ∈ world_aliases td backends.

(** The groups this rank created and is a member of. *)
Definition owned_by (g : process_group) (calls : list pool_key) : Prop :=
  ∃ i key, calls !! i = Some key ∧ td_rank td ∈ key.2 ∧ g = Group (Z.of_nat i + 1) key.2 key.1.

Lemma owned_by_app g calls key :
  owned_by g (calls ++ [key]) ↔
  owned_by g calls ∨ (td_rank td ∈ key.2 ∧ g = Group (Z.of_nat (List.length calls) + 1) key.2 key.1).
Proof.
  split.
  - intros (i & k & Hi & Hr & ->). apply lookup_app_Some in Hi as [Hi|[Hle Hi]]; [left; by exists i, k|right].
    apply list_lookup_singleton_Some in Hi as [Hi ->]. split; [done|].
    assert (i = List.length calls) as -> by (unfold pool_key in *; lia). done.
  - intros [(i & k & Hi & Hr & ->)|[Hr ->]].
    + exists i, k. split_and!; [by apply lookup_app_l_Some|done|done].
    + exists (List.length calls), key. split_and!; [by apply list_lookup_middle|done|done].
Qed.

(** What the pool holds: the default group for its aliases, the group of its
    call for every other key. *)
Record pool_ok (p : pool) : Prop := {
  po_keys : ∀ key, key ∈ dkeys (pl_groups p) ↔ alias key ∨ key ∈ pl_calls p;
  po_alias : ∀ key, alias key → dget (pl_groups p) key = Some (world_group td);
  po_made : ∀ key i, pl_calls p !! i = Some key →
    dget (pl_groups p) key =
      Some (if decide (td_rank td ∈ key.2) then Group (Z.of_nat i + 1) key.2 key.1 else NonMember);
  po_fresh : ∀ key, key ∈ pl_calls p → ¬ alias key;
  po_nodup : NoDup (pl_calls p);
  po_owned : ∀ g, g ∈ pl_owned p ↔ owned_by g (pl_calls p);
  po_once : NoDup (pl_owned p);
}.

Lemma pool_start_ok : pool_ok (pool_start td world backends).
Proof using Type.
  clear ok.
  split; simpl.
  - intros key. rewrite foldl_dset_keys. unfold alias. set_solver.
  - intros key Ha. rewrite foldl_dset_get. by rewrite decide_True.
  - done.
  - intros key H. by apply not_elem_of_nil in H.
  - constructor.
  - intros g. split; [by intros H%not_elem_of_nil|by intros (? & ? & ? & _)].
  - constructor.
Qed.

Lemma ensure_group_ok key p p' : pool_ok p → ensure_group ok td key p = (p', Ok ()) →
  pool_ok p' ∧ key ∈ dkeys (pl_groups p') ∧ pl_calls p `prefix_of` pl_calls p'
  ∧ ∀ k, k ∈ pl_calls p' → k = key ∨ k ∈ pl_calls p.
Proof.
  intros Hp. pose proof Hp as [Hk Ha Hm Hf Hn Ho Ho']. unfold ensure_group.
  destruct (dget (pl_groups p) key) eqn:E.
  { intros [= <-]. split; [done|]. split; [apply dget_is_Some; by eexists|]. split; [done|]. intros; by right. }
  destruct (ok key); [|done]. intros [= <-]. apply dget_None in E. simpl.
  assert (¬ alias key ∧ key ∉ pl_calls p) as [Hna Hnc] by (split; intros H; apply E, Hk; tauto).
  assert (∀ k, k ∈ pl_calls p → k ≠ key) as Hne by (intros k H ->; done).
  split_and!.
  - split; simpl.
    + intros k. rewrite dset_keys, decide_False by done. rewrite !elem_of_app, Hk, !list_elem_of_singleton. tauto.
    + intros k Hak. rewrite dget_dset_ne; [by apply Ha|]. by intros ->.
    + intros k i Hi. apply lookup_app_Some in Hi as [Hi|[Hle Hi]].
      * rewrite dget_dset_ne; [by apply Hm|]. symmetry. by apply Hne, list_elem_of_lookup_2 with i.
      * apply list_lookup_singleton_Some in Hi as [Hi ->]. rewrite dget_dset_eq. f_equal. unfold new_group.
        replace i with (List.length (pl_calls p)) by lia. by repeat case_decide || case_bool_decide.
    + intros k Hin. apply elem_of_app in Hin as [?|?%list_elem_of_singleton]; [by apply Hf|by subst].
    + apply NoDup_app. split_and!; [done| |by apply NoDup_singleton].
      intros k Hin ->%list_elem_of_singleton. done.
    + intros g. rewrite owned_by_app. unfold new_group. case_bool_decide as Hr.
      * rewrite elem_of_app, list_elem_of_singleton, Ho. tauto.
      * rewrite Ho. tauto.
    + unfold new_group. case_bool_decide as Hr; [|done].
      apply NoDup_app. split_and!; [done| |by apply NoDup_singleton].
      intros g (i & k & Hi & _ & ->)%Ho [= Heq _ _]%list_elem_of_singleton.
      apply lookup_lt_Some in Hi. unfold pool_key in *; lia.
  - rewrite dset_keys, decide_False by done. rewrite elem_of_app, list_elem_of_singleton. tauto.
  - by eexists.
  - intros k. rewrite elem_of_app, list_elem_of_singleton. tauto.
Qed.

Lemma ensure_group_keys key p p' r k : ensure_group ok td key p = (p', r) →
  k ∈ dkeys (pl_groups p) → k ∈ dkeys (pl_groups p').
Proof.
  unfold ensure_group. destruct (dget _ _) eqn:E; [by intros [= <- _]|].
  destruct (ok key); intros [= <- _]; [|done]. simpl. rewrite dset_keys. case_decide; set_solver.
Qed.

Lemma ensure_groups_ok keys : ∀ p p', pool_ok p → ensure_groups ok td keys p = (p', Ok ()) →
  pool_ok p' ∧ (∀ key, key ∈ dkeys (pl_groups p) ∨ key ∈ keys → key ∈ dkeys (pl_groups p'))
  ∧ ∀ k, k ∈ pl_calls p' → k ∈ keys ∨ k ∈ pl_calls p.
Proof.
  induction keys as [|key keys IH]; intros p p' Hp; simpl; [intros [= <-]; set_solver|].
  destruct (ensure_group ok td key p) as [q [[]|]] eqn:E; [|done]. intros Hr.
  destruct (ensure_group_ok _ _ _ Hp E) as (Hq & Hin & _ & Hc).
  destruct (IH _ _ Hq Hr) as (Hp' & Hk & Hc'). split; [done|]. split.
  - intros k [H|[->|H]%elem_of_cons].
    + apply Hk. left. by eapply ensure_group_keys.
    + apply Hk. by left.
    + apply Hk. by right.
  - intros k Hk'. destruct (Hc' k Hk') as [?|[->|?]%Hc]; [left; by right|left; by left|by right].
Qed.

Lemma ensure_groups_total keys p : (∀ key, ok key = true) → ∃ p', ensure_groups ok td keys p = (p', Ok ()).
Proof.
  intros Hok. revert p. induction keys as [|key keys IH]; intros p; simpl; [by eexists|].
  unfold ensure_group. destruct (dget _ _); [by apply IH|]. rewrite Hok. apply IH.
Qed.
End pool_inv.

Lemma elem_pool_keys l backends key :
  key ∈ pool_keys l backends ↔
  ∃ name fam, (name, fam) ∈ rl_groups l ∧ key.2 ∈ fam ∧ 1 < Z.of_nat (List.length key.2) ∧ key.1 ∈ backends.
Proof.
  unfold pool_keys. rewrite list_elem_of_bind. split.
  - intros (fam & Hin & ([name fam'] & -> & Hf)%list_elem_of_fmap).
    apply list_elem_of_bind in Hin as (ranks & Hin & Hr). destruct (1 <? _) eqn:E; [|by apply not_elem_of_nil in Hin].
    apply list_elem_of_fmap in Hin as (b & -> & Hb). exists name, fam'. simpl. split_and!; [done..|lia|done].
  - intros (name & fam & Hf & Hin & Hlen & Hb). exists fam. split.
    + apply list_elem_of_bind. exists key.2. split; [|done]. rewrite (proj2 (Z.ltb_lt _ _) Hlen).
      apply list_elem_of_fmap. exists key.1. by destruct key.
    + apply list_elem_of_fmap. by exists (name, fam).
Qed.

(** The maps of groups of a rank of a valid layout. *)
Section collect.
Context (l : rank_layout) (rank : Z) (p : pool) (backend : string).

Definition served (name : string) : Prop :=
  ∃ ranks, members_for l name rank = Ok ranks
    ∧ (1 < Z.of_nat (List.length ranks) → is_Some (dget (pl_groups p) (backend, ranks))).

Lemma collect_groups_ok names : NoDup names → (∀ name, name ∈ names → served name) →
  ∃ d, collect_groups l rank p backend names = Ok d ∧ (∀ name, name ∈ dkeys d → name ∈ names)
    ∧ ∀ name ranks, name ∈ names → members_for l name rank = Ok ranks →
        1 < Z.of_nat (List.length ranks) → dget d name = dget (pl_groups p) (backend, ranks).
Proof.
  induction names as [|name names IH]; intros Hnd Hs; simpl.
  { exists []. split_and!; [done|set_solver|]. intros ? ? H. by apply not_elem_of_nil in H. }
  apply NoDup_cons in Hnd as [Hnin Hnd].
  destruct IH as (d & Hd & Hk & Hg); [done|intros; apply Hs; by right|].
  destruct (Hs name) as (ranks & Hm & Hin); [by left|]. rewrite Hm. simpl.
  destruct (1 <? _) eqn:E.
  - destruct Hin as [g Hpg]; [lia|]. unfold pool_get. rewrite Hpg. simpl. rewrite Hd. simpl.
    eexists. split; [done|]. split.
    + intros n. simpl. rewrite !elem_of_cons. intros [->|H]; [by left|right; by apply Hk].
    + intros n r. simpl. rewrite elem_of_cons. case_decide as Heq.
      * intros _ Hr _. subst n. rewrite Hm in Hr. injection Hr as <-. done.
      * intros [->|Hin]; [done|]. by apply Hg.
  - rewrite Hd. eexists. split; [done|]. split; [intros; right; by apply Hk|].
    intros n r. rewrite elem_of_cons. intros [->|Hin']; [|by apply Hg].
    rewrite Hm. intros [= <-]. lia.
Qed.
End collect.

Lemma mk_mesh_ok l rank groups cpu p name : 0 ≤ rank < rl_world l →
  NoDup (dkeys (rl_groups l)) → (∀ n, n ∈ dkeys (rl_groups l) → is_ok (members_for l n rank) = true) →
  (∀ n, n ∈ dkeys groups ∨ n ∈ dkeys cpu → n ∈ dkeys (rl_groups l)) →
  ∃ m, mk_mesh l rank groups cpu p name = Ok m
    ∧ ms_groups m = groups ∧ ms_layout m = l ∧ ms_rank m = rank ∧ ms_cpu_groups m = cpu ∧ ms_name m = name
    ∧ ms_placement m = None ∧ ms_topologies m = []
    ∧ ∀ n, n ∈ dkeys (rl_groups l) → group_members m n = members_for l n rank.
Proof.
  intros Hr Hnd Hall Hin. unfold mk_mesh. rewrite (proj2 (Z.leb_le _ _)), (proj2 (Z.ltb_lt _ _)) by lia. simpl.
  assert (∀ names, (∀ n, n ∈ names → is_ok (members_for l n rank) = true) → ∃ d : dict string (list Z),
    rmap (λ n, m ← members_for l n rank; Ok (n, m)) names = Ok d ∧ dkeys d = names
    ∧ ∀ n, n ∈ names → of_option KeyError (dget d n) = members_for l n rank) as Hmap.
  { induction names as [|n names IH]; intros Hok; simpl.
    { exists []. split_and!; [done..|]. intros ? H. by apply not_elem_of_nil in H. }
    destruct (members_for l n rank) as [g|] eqn:E; simpl; [|specialize (Hok n ltac:(by left)); by rewrite E in Hok].
    destruct IH as (d & -> & Hk & Hg); [intros; apply Hok; by right|]. simpl. eexists. split_and!; [done|simpl; unfold dkeys in *; simpl; by rewrite Hk|].
    intros n'. rewrite elem_of_cons. simpl. case_decide; [by subst|]. intros [->|?]; [done|by apply Hg]. }
  destruct (Hmap (dkeys (rl_groups l)) Hall) as (d & -> & Hk & Hg). simpl.
  rewrite (proj2 (forallb_forall _ _)); [|intros n Hn%list_elem_of_In; rewrite bool_decide_eq_true, Hk;
    apply Hin; by apply elem_of_app in Hn].
  simpl. eexists. split_and!; [done..|]. intros n Hn. by apply Hg.
Qed.

(** ** Properties *)

(** What one process does to get its mesh, once [torch.distributed] runs. *)
Definition rank_mesh (new_group_ok : pool_key → bool) (td : torch_dist) (l : rank_layout)
    (backend : string) (build_cpu : bool) : option (pool * res mesh) :=
  match pool_build new_group_ok (λ _, true) true td l backend build_cpu with
  | inl p => Some (p, build_mesh td l p backend build_cpu)
  | inr _ => None
  end.

Section layout_mesh.
Context (pc : parallel_config) (w : Z) (r : resolved_config) (l : rank_layout).
Context (Hvalid : config_valid pc) (Hres : resolve pc w = Ok r) (Hl : build_rank_layout r = Ok l).

Lemma layout_keys : dkeys (rl_groups l) = dkeys (group_size r) ∧ rl_world l = w.
Proof using All.
  destruct (resolve_resolved_ok _ _ _ Hvalid Hres) as [Hok Hw].
  destruct (build_rank_layout_ok _ Hok) as (groups & Hb & Hp). rewrite Hl in Hb. injection Hb as ->.
  split; [|exact Hw]. cbn [rl_groups]. unfold layout_partitions in Hp. clear Hl. revert Hp. generalize (group_size r).
  intros sizes. induction 1 as [|x y xs ys (Hn & _) _ IH]; [done|]. unfold dkeys in *. cbn. by rewrite Hn, IH.
Qed.

Lemma layout_keys_nodup : NoDup (dkeys (rl_groups l)).
Proof using All.
  rewrite (proj1 layout_keys). change (dkeys (group_size r)) with
    (["world"; "pipeline"; "cfg"; "dense_tp"; "dense_dp"; "attention_tp"; "attention_cp"; "attention_dp";
      "moe_tp"; "moe_ep"; "moe_dp"; "moe_tp_ep"; "attention_decode_cp"] : list string).
  apply (bool_decide_unpack _). vm_compute. exact I.
Qed.

(** Every rank has its group in every family of the layout. *)
Lemma layout_position name rank : name ∈ dkeys (rl_groups l) → 0 ≤ rank < w →
  ∃ fam members, (name, fam) ∈ rl_groups l ∧ members_for l name rank = Ok members ∧ members ∈ fam
    ∧ (∀ other, other ∈ fam → rank ∈ other → other = members) ∧ rank ∈ members
    ∧ ∀ rank', rank' ∈ members → 0 ≤ rank' < w.
Proof using All.
  intros Hname Hrank. destruct (resolve_resolved_ok _ _ _ Hvalid Hres) as [Hok Hw].
  destruct (build_rank_layout_ok _ Hok) as (groups & Hb & Hp). pose proof Hl as Hl'.
  rewrite Hb in Hl'. injection Hl' as <-. simpl in Hname. apply dget_is_Some in Hname as [fam Hfam].
  pose proof (layout_partitions_keys _ _ name fam Hp (dget_elem _ _ _ Hfam)) as Hpart.
  rewrite <- Hw in Hrank.
  destruct (partition_position _ groups name fam rank Hpart Hfam Hrank) as (g & i & Hm & Hin & Hu & _ & Hi).
  exists fam, g. split_and!; try done; [by apply dget_elem|by eapply list_elem_of_lookup_2|].
  intros r' Hr'. destruct Hpart as [_ Hflat].
  assert (r' ∈ mjoin fam) as Hj by (apply list_elem_of_join; by exists g).
  rewrite Hflat in Hj. apply elem_of_seqZ in Hj. lia.
Qed.

Lemma same_members name a b g : name ∈ dkeys (rl_groups l) → 0 ≤ a < w →
  members_for l name a = Ok g → b ∈ g → members_for l name b = Ok g.
Proof using All.
  intros Hn Ha Hg Hb. destruct (layout_position name a Hn Ha) as (fam & g1 & Hf & Hm & Hin & _ & _ & Hr).
  rewrite Hg in Hm. injection Hm as <-.
  destruct (layout_position name b Hn (Hr b Hb)) as (fam' & g2 & Hf' & Hm' & Hin' & Hu & _).
  assert (fam' = fam) as ->.
  { apply (elem_dget _ _ _ layout_keys_nodup) in Hf, Hf'. congruence. }
  rewrite Hm'. f_equal. symmetry. by apply Hu.
Qed.

Lemma rank_mesh_ok new_ok td backend cpu p rm : td_world td = w → 0 ≤ td_rank td < w →
  rank_mesh new_ok td l backend cpu = Some (p, rm) →
  pool_ok td w (pool_backends backend cpu) p
  ∧ (∀ k, k ∈ pl_calls p → k ∈ pool_keys l (pool_backends backend cpu))
  ∧ (∀ k, k ∈ pool_keys l (pool_backends backend cpu) → k ∈ dkeys (pl_groups p))
  ∧ ∃ m, rm = Ok m ∧ ms_rank m = td_rank td ∧ ms_name m = "model" ∧ ms_placement m = None
    ∧ ms_topologies m = [] ∧ ms_layout m = l
    ∧ ∀ name members, name ∈ dkeys (rl_groups l) → members_for l name (td_rank td) = Ok members →
        group_members m name = Ok members
        ∧ (1 < Z.of_nat (List.length members) → ∃ g, dget (pl_groups p) (backend, members) = Some g
             ∧ ∀ default_group, mesh_group default_group m name = Ok g)
        ∧ (1 < Z.of_nat (List.length members) → cpu = true → ∃ g, mesh_cpu_group m name = Ok g).
Proof using All.
  intros Htw Hr. unfold rank_mesh, pool_build. destruct layout_keys as [_ Hw]. rewrite Hw.
  destruct (ensure_groups _ _ _ _) as [p0 [[]|]] eqn:E; [|by destruct (pool_close _ _ _) as [[] []]].
  intros [= -> <-].
  destruct (ensure_groups_ok _ _ w _ _ _ _ (pool_start_ok td w _) E) as (Hp & Hk & Hc).
  assert (∀ b, b ∈ pool_backends backend cpu → ∀ name, name ∈ dkeys (rl_groups l) → served l (td_rank td) p b name) as Hs.
  { intros b Hb name Hn. destruct (layout_position name _ Hn Hr) as (fam & g & Hf & Hm & Hin & _).
    exists g. split; [done|]. intros Hlen. apply dget_is_Some, Hk. right. apply elem_pool_keys. by exists name, fam. }
  assert (backend ∈ pool_backends backend cpu) as Hb1.
  { unfold pool_backends, fromkeys. destruct cpu; simpl; [case_bool_decide; simpl; set_solver|by left]. }
  assert (cpu = true → "gloo" ∈ pool_backends backend cpu) as Hb2.
  { intros ->. unfold pool_backends, fromkeys. simpl. case_bool_decide; set_solver. }
  split; [done|]. split; [intros k Hin; destruct (Hc k Hin) as [?|H]; [done|by apply not_elem_of_nil in H]|].
  split; [intros; apply Hk; by right|]. unfold build_mesh.
  destruct (collect_groups_ok l (td_rank td) p backend _ layout_keys_nodup (Hs _ Hb1)) as (d & -> & Hdk & Hd).
  simpl. assert (∃ d', (if cpu then collect_groups l (td_rank td) p "gloo" (dkeys (rl_groups l)) else Ok []) = Ok d'
      ∧ (∀ n, n ∈ dkeys d' → n ∈ dkeys (rl_groups l))
      ∧ ∀ n g, n ∈ dkeys (rl_groups l) → members_for l n (td_rank td) = Ok g →
          1 < Z.of_nat (List.length g) → cpu = true → is_Some (dget d' n)) as (d' & -> & Hd' & Hcpu).
  { destruct cpu; [|exists []; split_and!; [done|intros n H; by apply not_elem_of_nil in H|done]].
    destruct (collect_groups_ok l (td_rank td) p "gloo" _ layout_keys_nodup (Hs _ (Hb2 eq_refl))) as (d' & -> & ? & Hg).
    exists d'. split_and!; [done|done|]. intros n g Hn Hm Hlen _. rewrite (Hg n g Hn Hm Hlen).
    destruct (Hs "gloo" (Hb2 eq_refl) n Hn) as (g' & Hm' & Hsome). rewrite Hm in Hm'. injection Hm' as <-. auto. }
  simpl. destruct (mk_mesh_ok l (td_rank td) d d' (Some p) "model") as (m & -> & Hg & Hml & Hmr & Hcg & Hmn & Hpl & Htp & Hmm).
  { by rewrite Hw. }
  { apply layout_keys_nodup. }
  { intros n Hn. destruct (layout_position n _ Hn Hr) as (_ & g & _ & -> & _). done. }
  { intros n [?|?]; auto. }
  exists m. split_and!; try done. intros name members Hn Hmem. rewrite (Hmm name Hn), Hmem. split; [done|].
  split; [|intros Hlen Hcp; destruct (Hcpu name members Hn Hmem Hlen Hcp) as [x Hx]; exists x;
           unfold mesh_cpu_group; rewrite (Hmm name Hn), Hmem; simpl; by rewrite Hcg, Hx].
  intros Hlen. destruct (Hs _ Hb1 name Hn) as (g & Hm' & Hsome). rewrite Hmem in Hm'. injection Hm' as <-.
  destruct (Hsome Hlen) as [x Hx]. exists x. split; [done|]. intros dg. unfold mesh_group.
  rewrite (Hmm name Hn), Hmem. simpl. by rewrite Hg, (Hd name members Hn Hmem Hlen), Hx.
Qed.
End layout_mesh.

Lemma group_names_keys r name : name ∈ GROUP_NAMES → name ∈ dkeys (group_size r).
Proof.
  change (dkeys (group_size r)) with
    (["world"; "pipeline"; "cfg"; "dense_tp"; "dense_dp"; "attention_tp"; "attention_cp"; "attention_dp";
      "moe_tp"; "moe_ep"; "moe_dp"; "moe_tp_ep"; "attention_decode_cp"] : list string).
  revert name. apply Forall_forall. apply (bool_decide_unpack _). vm_compute. exact I.
Qed.

Lemma pool_group td w backends p name members g : pool_ok td w backends p → td_world td = w →
  td_rank td ∈ members → dget (pl_groups p) (name, members) = Some g →
  ∃ number made, g = Group number members made ∧ made ∈ [name; UNDEFINED]
    ∧ ((number = 0 ∧ members = seqZ 0 w) ∨ ∃ i, number = Z.of_nat i + 1 ∧ pl_calls p !! i = Some (name, members)).
Proof.
  intros Hp Hw Hr Hg. assert ((name, members) ∈ dkeys (pl_groups p)) as Hk by (apply dget_is_Some; by eexists).
  apply (po_keys _ _ _ _ Hp) in Hk as [Ha|Hc].
  - pose proof (po_alias _ _ _ _ Hp _ Ha) as He. rewrite Hg in He. injection He as ->. destruct Ha as [Hm Hb].
    simpl in *. subst members. exists 0, (td_backend td). unfold world_group. rewrite Hw. split_and!; [done| |by left].
    unfold world_aliases in Hb. destruct (String.eqb_spec (td_backend td) UNDEFINED) as [->|_]; set_solver.
  - apply list_elem_of_lookup in Hc as [i Hi]. pose proof (po_made _ _ _ _ Hp _ _ Hi) as He. simpl in He.
    rewrite Hg, decide_True in He by done. injection He as ->. exists (Z.of_nat i + 1), name.
    split_and!; [done|by left|right; by exists i].
Qed.

(** C39: All ranks of a group hold the same process group.  For any two ranks
    of a replica whose set-up succeeds, the sequence of [new_group] calls is the
    same and creates no membership twice; and for every named group they share,
    the two meshes hand out the same process group, which has exactly the
    members of the layout and the requested backend (or is the composite default
    group), and no other membership shares its communicator. *)
Theorem groups_agree pc w r l backend cpu wb ok_a ok_b a b pa rma pb rmb :
  config_valid pc → resolve pc w = Ok r → build_rank_layout r = Ok l → 0 ≤ a < w → 0 ≤ b < w →
  rank_mesh ok_a (TorchDist a w wb) l backend cpu = Some (pa, rma) →
  rank_mesh ok_b (TorchDist b w wb) l backend cpu = Some (pb, rmb) →
  pl_calls pa = pl_calls pb ∧ NoDup (pl_calls pa)
  ∧ ∃ ma mb, rma = Ok ma ∧ rmb = Ok mb ∧ ∀ name members,
      name ∈ GROUP_NAMES → members_for l name a = Ok members → b ∈ members →
      1 < Z.of_nat (List.length members) →
      ∃ number made,
        (∀ dg, mesh_group dg ma name = Ok (Group number members made)
               ∧ mesh_group dg mb name = Ok (Group number members made))
        ∧ made ∈ [backend; UNDEFINED]
        ∧ ∀ dg name' members' made', name' ∈ GROUP_NAMES → members_for l name' a = Ok members' →
            1 < Z.of_nat (List.length members') →
            mesh_group dg ma name' = Ok (Group number members' made') → members' = members.
Proof.
  intros Hv Hres Hl Ha Hb Hpa Hpb.
  pose proof (rank_mesh_ok pc w r l Hv Hres Hl _ (TorchDist a w wb) _ _ _ _ eq_refl Ha Hpa) as (Hoa & _ & _ & ma & -> & _ & _ & _ & _ & _ & Hma).
  pose proof (rank_mesh_ok pc w r l Hv Hres Hl _ (TorchDist b w wb) _ _ _ _ eq_refl Hb Hpb) as (Hob & _ & _ & mb & -> & _ & _ & _ & _ & _ & Hmb).
  assert (in_step (TorchDist a w wb) (TorchDist b w wb) pa pb) as [Hcalls _ Hsame].
  { unfold rank_mesh, pool_build in Hpa, Hpb.
    destruct (ensure_groups ok_a _ _ _) as [q [[]|]] eqn:E1; [|by destruct (pool_close _ _ _) as [[] []]].
    destruct (ensure_groups ok_b _ _ _) as [q' [[]|]] eqn:E2; [|by destruct (pool_close _ _ _) as [[] []]].
    injection Hpa as <- _. injection Hpb as <- _.
    eapply ensure_groups_step; [|exact E1|exact E2]. by split. }
  split; [done|]. split; [apply Hoa|]. exists ma, mb. split; [done|]. split; [done|].
  intros name members Hname Hm Hbm Hlen.
  assert (∀ n, n ∈ GROUP_NAMES → n ∈ dkeys (rl_groups l)) as Hkeys
    by (intros n Hn; rewrite (proj1 (layout_keys pc w r l Hv Hres Hl)); by apply group_names_keys).
  pose proof (same_members pc w r l Hv Hres Hl name a b members (Hkeys _ Hname) Ha Hm Hbm) as Hm'.
  destruct (layout_position pc w r l Hv Hres Hl name a (Hkeys _ Hname) Ha) as (fam & g & _ & Hg & _ & _ & Ham & _).
  rewrite Hm in Hg. injection Hg as <-.
  destruct (Hma name members (Hkeys _ Hname) Hm) as (_ & Hga & _). destruct (Hmb name members (Hkeys _ Hname) Hm') as (_ & Hgb & _).
  destruct (Hga Hlen) as (g & Hgp & Hga'). destruct (Hgb Hlen) as (g' & Hgp' & Hgb').
  rewrite <- (Hsame (backend, members)) in Hgp' by done. rewrite Hgp in Hgp'. injection Hgp' as <-.
  destruct (pool_group _ _ _ _ _ _ _ Hoa eq_refl Ham Hgp) as (number & made & -> & Hmade & Hnum).
  exists number, made. split_and!; [|done|].
  - by intros dg.
  - intros dg name' members' made' Hn' Hm2 Hlen2 Hg2.
    destruct (Hma name' members' (Hkeys _ Hn') Hm2) as (_ & Hga2 & _).
    destruct (Hga2 Hlen2) as (g2 & E2 & Heq). rewrite Heq in Hg2. injection Hg2 as ->.
    destruct (layout_position pc w r l Hv Hres Hl name' a (Hkeys _ Hn') Ha) as (_ & g2 & _ & Hg2 & _ & _ & Ham2 & _).
    rewrite Hm2 in Hg2. injection Hg2 as <-.
    destruct (pool_group _ _ _ _ _ _ _ Hoa eq_refl Ham2 E2) as (n2 & ? & [= <- <-] & _ & Hnum2).
    destruct Hnum as [[-> ->]|(i & -> & Hi)], Hnum2 as [[? ->]|(j & ? & Hj)]; try lia; [done|].
    assert (i = j) as -> by lia. congruence.
Qed.

Lemma ensure_groups_inv ok td world backends keys : ∀ p p' r, pool_ok td world backends p →
  ensure_groups ok td keys p = (p', r) → pool_ok td world backends p'.
Proof.
  induction keys as [|key keys IH]; intros p p' r Hp; simpl; [by intros [= <- _]|].
  destruct (ensure_group ok td key p) as [q [[]|]] eqn:E.
  - apply IH. by eapply ensure_group_ok in E as [].
  - intros [= <- _]. unfold ensure_group in E. destruct (dget _ _); [done|]. destruct (ok key); [done|].
    by injection E as <- _.
Qed.

(** A pool releases what it created and nothing else.  Closing a pool
    destroys each group this rank created and belongs to once, never the
    launcher's default group, and a second close destroys nothing; when creating
    a group fails, the groups created before are released the same way. *)
Theorem pool_releases ok destroy_ok td l backend cpu :
  match pool_build ok destroy_ok true td l backend cpu with
  | inl p =>
      let '(p', released, _) := pool_close destroy_ok true p in
      NoDup released ∧ world_group td ∉ released
      ∧ (∀ g, g ∈ released ↔ owned_by td g (pl_calls p))
      ∧ (pool_close destroy_ok true p').1.2 = []
  | inr (e, released) =>
      e = RuntimeError ∧ NoDup released ∧ world_group td ∉ released
      ∧ ∃ calls, ∀ g, g ∈ released ↔ owned_by td g calls
  end.
Proof.
  assert (∀ p, pool_ok td (rl_world l) (pool_backends backend cpu) p →
    NoDup (rev (pl_owned p)) ∧ world_group td ∉ rev (pl_owned p)
    ∧ ∀ g, g ∈ rev (pl_owned p) ↔ owned_by td g (pl_calls p)) as Hown.
  { intros p [_ _ _ _ _ Ho Hn].
    assert (∀ g, g ∈ rev (pl_owned p) ↔ g ∈ pl_owned p) as Hrev
      by (intros g; rewrite !list_elem_of_In; symmetry; apply in_rev).
    split_and!.
    - apply NoDup_ListNoDup, List.NoDup_rev. by apply NoDup_ListNoDup.
    - rewrite Hrev, Ho. intros (i & key & _ & _ & H). unfold world_group in H. injection H. lia.
    - intros g. by rewrite Hrev. }
  unfold pool_build. destruct (ensure_groups ok td _ _) as [p r] eqn:E.
  assert (pool_ok td (rl_world l) (pool_backends backend cpu) p) as Hp
    by (by eapply ensure_groups_inv; [apply pool_start_ok|exact E]).
  destruct (Hown p Hp) as (H1 & H2 & H3). destruct r as [[]|e]; simpl; [by split_and!|].
  assert (e = RuntimeError) as ->.
  { revert E. generalize (pool_start td (rl_world l) (pool_backends backend cpu)).
    induction (pool_keys l (pool_backends backend cpu)) as [|key keys IH]; intros q; simpl; [done|].
    destruct (ensure_group ok td key q) as [q' [[]|]] eqn:Eg; [apply IH|]. intros [= -> ->].
    unfold ensure_group in Eg. destruct (dget _ _), (ok key); congruence. }
  destruct (forallb destroy_ok (rev (pl_owned p))); (split_and!; [done|exact H1|exact H2|exists (pl_calls p); exact H3]).
Qed.

(** ** Placement *)

Lemma ceil_div_bounds n d : 0 < n → 0 < d →
  let q := (n + d - 1) / d in (q - 1) * d < n ∧ n ≤ q * d ∧ 1 ≤ q.
Proof. intros Hn Hd q. pose proof (Z.div_mod (n + d - 1) d). pose proof (Z.mod_pos_bound (n + d - 1) d). subst q. nia. Qed.

(** The guess from the device count is a packing of the ranks: nodes of at
    most the visible devices that together hold every rank and none of which is
    superfluous; a single node exactly when the ranks fit one. *)
Theorem fallback_topology_bounds device_count size : 1 ≤ size →
  let t := fallback_topology device_count size in
  let v := visible_gpus device_count in
  1 ≤ n_gpus_per_node t ≤ v
  ∧ size ≤ n_nodes t * n_gpus_per_node t
  ∧ (n_nodes t - 1) * v < size
  ∧ n_nodes t * (n_gpus_per_node t - 1) < size
  ∧ (is_single_node t = true ↔ size ≤ v)
  ∧ (is_full_nvlink t = true ↔ size = 1).
Proof.
  intros Hs t v. subst t. unfold fallback_topology. fold v.
  assert (1 ≤ v) as Hv by (unfold v, visible_gpus; destruct device_count; lia).
  destruct (ceil_div_bounds size v) as (H1 & H2 & H3); [lia..|]. set (q := (size + v - 1) / v) in *.
  simpl. rewrite (Z.max_r 1 q) by lia.
  destruct (ceil_div_bounds size q) as (H4 & H5 & H6); [lia..|]. set (g := (size + q - 1) / q) in *.
  split_and!; [done| |lia..|split; [intros; nia|intros; nia]|lia].
  destruct (Z.le_gt_cases g v) as [?|?]; [done|nia].
Qed.

Lemma fallback_topology_bounds_witness :
  fallback_topology (Some 8) 12 = Topology false false 2 6 ∧ 12 ≤ 2 * 6.
Proof. split; [reflexivity|]. apply (fallback_topology_bounds (Some 8) 12). lia. Defined.

Definition on_node (node : string) (entries : list placement_entry) : Z :=
  Z.of_nat (List.length (filter (λ e, pe_node e = node) entries)).

Lemma count_nodes_spec entries :
  NoDup (dkeys (count_nodes entries)) ∧
  ∀ node, dget (count_nodes entries) node =
    if decide (node ∈ pe_node <$> entries) then Some (on_node node entries) else None.
Proof.
  induction entries as [|e entries [Hd IH]] using rev_ind; [split; [constructor|done]|].
  unfold count_nodes in *. rewrite foldl_app. simpl. split; [by apply dset_NoDup|].
  intros node. rewrite dget_dset. rewrite IH, fmap_app. unfold on_node. rewrite filter_app, length_app. simpl.
  case_decide as He.
  - subst node. rewrite filter_cons_True by done. 
    destruct (decide (pe_node e ∈ (pe_node <$> entries) ++ [pe_node e])) as [_|Hn];
      [|exfalso; apply Hn; rewrite elem_of_app; right; by left].
    case_decide as Hin; simpl; [unfold on_node; f_equal; lia|].
    assert (filter (λ e0, pe_node e0 = pe_node e) entries = []) as ->; [|done].
    apply elem_of_nil_inv. intros x [Hx Hx']%list_elem_of_filter. apply Hin. apply list_elem_of_fmap. by exists x.
  - rewrite filter_cons_False, filter_nil by congruence. simpl. rewrite Nat.add_0_r.
    assert (node ∈ (pe_node <$> entries) ++ [pe_node e] ↔ node ∈ pe_node <$> entries) as Hiff
      by (rewrite elem_of_app, list_elem_of_singleton; naive_solver).
    rewrite IH. destruct (decide (node ∈ pe_node <$> entries)), (decide (node ∈ (pe_node <$> entries) ++ [pe_node e]));
      [done|naive_solver..|done].
Qed.

Lemma foldl_max l z : z ≤ foldl Z.max z l ∧ (∀ x, x ∈ l → x ≤ foldl Z.max z l) ∧ foldl Z.max z l ∈ z :: l.
Proof.
  revert z. induction l as [|y l IH]; intros z; simpl.
  { split_and!; [lia|by intros x H%not_elem_of_nil|by left]. }
  destruct (IH (Z.max z y)) as (H1 & H2 & H3). split_and!; [lia| |].
  - intros x [->|H]%elem_of_cons; [lia|by apply H2].
  - apply elem_of_cons in H3 as [H3|H3]; [|right; by right]. rewrite H3.
    destruct (Z.max_spec z y) as [[_ ->]|[_ ->]]; [right; by left|by left].
Qed.

Lemma max_value_ok l : l ≠ [] → ∃ m, max_value l = Ok m ∧ m ∈ l ∧ ∀ x, x ∈ l → x ≤ m.
Proof.
  destruct l as [|z l]; [done|]. intros _. destruct (foldl_max l z) as (H1 & H2 & H3).
  exists (foldl Z.max z l). split_and!; [done|done|]. intros x [->|H]%elem_of_cons; auto.
Qed.

Lemma same_clique_spec entries : entries ≠ [] →
  same_clique entries = true ↔ ∃ c, ∀ e, e ∈ entries → pe_clique e = Some c.
Proof.
  destruct entries as [|e entries]; [done|]. intros _. simpl. rewrite !andb_true_iff, !bool_decide_eq_true, forallb_forall. split.
  - intros ([c Hc] & _ & Hall). exists c. intros e' [->|Hin]%elem_of_cons; [done|].
    specialize (Hall e' (proj1 (list_elem_of_In _ _) Hin)). apply bool_decide_eq_true in Hall. congruence.
  - intros [c Hc]. assert (pe_clique e = Some c) as He by (apply Hc; by left). rewrite He. split_and!; [by eexists|done|].
    intros e' Hin%list_elem_of_In. apply bool_decide_eq_true. apply Hc. by right.
Qed.

Lemma length_one_iff {A} (l : list A) : NoDup l → l ≠ [] → List.length l = 1%nat ↔ ∀ x y, x ∈ l → y ∈ l → x = y.
Proof.
  intros Hd Hne. split.
  - destruct l as [|a [|]]; [done| |done]. intros _ x y ->%list_elem_of_singleton ->%list_elem_of_singleton. done.
  - intros H. destruct l as [|a [|b l]]; [done|done|]. exfalso.
    apply NoDup_cons in Hd as [Hd _]. apply Hd. rewrite (H a b); [by left|by left|right; by left].
Qed.

(** The topology of a group states its placement exactly: how many hosts
    its members run on, how many the fullest host has, whether there is one host
    only, and whether NVLink connects them (every member has a device; on one
    host NVML says so, across hosts all sit in one fabric domain). *)
Theorem topology_exact nvlink_check entries : entries ≠ [] →
  ∃ t, topology_from_entries nvlink_check entries = Ok t
    ∧ n_nodes t = Z.of_nat (size (list_to_set (pe_node <$> entries) : gset string))
    ∧ (∀ node, on_node node entries ≤ n_gpus_per_node t)
    ∧ (∃ e, e ∈ entries ∧ on_node (pe_node e) entries = n_gpus_per_node t)
    ∧ (is_single_node t = true ↔ ∀ e e', e ∈ entries → e' ∈ entries → pe_node e = pe_node e')
    ∧ (is_full_nvlink t = true ↔
         (∀ e, e ∈ entries → is_Some (pe_physical e))
         ∧ if is_single_node t then nvlink_check (omap pe_physical entries) = true
           else ∃ c, ∀ e, e ∈ entries → pe_clique e = Some c).
Proof.
  intros Hne. destruct (count_nodes_spec entries) as [Hnd Hget].
  assert (∀ node, node ∈ dkeys (count_nodes entries) ↔ node ∈ pe_node <$> entries) as Hkeys.
  { intros node. rewrite <- dget_is_Some, Hget. case_decide; [|by split; [intros []|]].
    split; [done|]. intros _. by eexists. }
  assert (∀ c, c ∈ dvals (count_nodes entries) ↔ ∃ e, e ∈ entries ∧ c = on_node (pe_node e) entries) as Hvals.
  { intros c. unfold dvals. rewrite list_elem_of_fmap. split.
    - intros ([node c'] & -> & Hin). apply (elem_dget _ _ _ Hnd) in Hin. rewrite Hget in Hin.
      case_decide as Hn; [|done]. injection Hin as <-. apply list_elem_of_fmap in Hn as (e & -> & He). by exists e.
    - intros (e & He & ->). exists (pe_node e, on_node (pe_node e) entries). split; [done|].
      apply dget_elem. rewrite Hget, decide_True; [done|]. by apply list_elem_of_fmap_2. }
  destruct entries as [|e0 entries0] eqn:Heq; [done|]. rewrite <- Heq in *. clear Hne.
  assert (e0 ∈ entries) as He0 by (rewrite Heq; by left). assert (entries ≠ []) as Hne by by rewrite Heq.
  clear Heq entries0.
  destruct (max_value_ok (dvals (count_nodes entries))) as (m & Hm & Hin & Hle).
  { intros H. assert (on_node (pe_node e0) entries ∈ dvals (count_nodes entries)) as Hin by (apply Hvals; by exists e0).
    rewrite H in Hin. by apply not_elem_of_nil in Hin. }
  unfold topology_from_entries. rewrite Hm. simpl. eexists. split; [done|]. simpl.
  assert (Z.of_nat (List.length (count_nodes entries)) =? 1 = true ↔
          ∀ e e', e ∈ entries → e' ∈ entries → pe_node e = pe_node e') as Hsingle.
  { rewrite Z.eqb_eq. rewrite <- (length_fmap fst).
    transitivity (List.length (dkeys (count_nodes entries)) = 1%nat); [unfold dkeys; lia|].
    rewrite length_one_iff; [|done|].
    - split.
      + intros H e e' He He'. apply H; apply Hkeys; by apply list_elem_of_fmap_2.
      + intros H x y Hx%Hkeys Hy%Hkeys. apply list_elem_of_fmap in Hx as (? & -> & ?), Hy as (? & -> & ?). by apply H.
    - intros H. assert (pe_node e0 ∈ dkeys (count_nodes entries)) as H' by (apply Hkeys; by apply list_elem_of_fmap_2).
      rewrite H in H'. by apply not_elem_of_nil in H'. }
  split_and!.
  - f_equal. rewrite <- (length_fmap fst). change (fst <$> _) with (dkeys (count_nodes entries)).
    rewrite <- (size_list_to_set (C := gset string)) by done. f_equal. apply set_eq. intros x.
    by rewrite !elem_of_list_to_set, Hkeys.
  - intros node. destruct (decide (node ∈ pe_node <$> entries)) as [Hn|Hn].
    + apply list_elem_of_fmap in Hn as (e & -> & He). apply Hle, Hvals. by exists e.
    + assert (on_node node entries = 0) as ->.
      { unfold on_node. assert (filter (λ e, pe_node e = node) entries = []) as ->; [|done].
        apply elem_of_nil_inv. intros x [Hx Hx']%list_elem_of_filter. apply Hn. apply list_elem_of_fmap. by exists x. }
      apply Hvals in Hin as (e & _ & ->). unfold on_node. lia.
  - apply Hvals in Hin as (e & He & ->). by exists e.
  - exact Hsingle.
  - destruct (existsb _ _) eqn:Hp.
    + split; [done|]. intros [Hall _]. apply existsb_exists in Hp as (p & Hp%list_elem_of_In & Hn%bool_decide_eq_true).
      apply list_elem_of_fmap in Hp as (e & -> & He). destruct (Hall e He). congruence.
    + assert (∀ e, e ∈ entries → is_Some (pe_physical e)) as Hall.
      { intros e He. destruct (pe_physical e) eqn:E; [by eexists|]. exfalso.
        apply not_true_iff_false in Hp. apply Hp, existsb_exists. exists None. split; [|by apply bool_decide_eq_true].
        apply list_elem_of_In. rewrite <- E. by apply list_elem_of_fmap_2. }
      destruct (_ =? 1) eqn:E.
      * replace (omap id (pe_physical <$> entries)) with (omap pe_physical entries); [tauto|].
        clear. induction entries as [|e l IH]; [done|]. simpl. destruct (pe_physical e); [f_equal|]; exact IH.
      * rewrite same_clique_spec by done. tauto.
Qed.

(** ** The cached topologies of a mesh *)

Definition topologies_fresh (device_count : option Z) (nvlink_check : list Z → bool) (m : mesh) : Prop :=
  ∀ name t, dget (ms_topologies m) name = Some t → compute_topology device_count nvlink_check m name = Ok t.

(** [Mesh.topology] never answers from a stale cache: what it returns is
    what it would compute from the placement recorded last, it keeps the cache
    so, and a new placement empties it. *)
Theorem mesh_topology_fresh device_count nvlink_check m name :
  topologies_fresh device_count nvlink_check m →
  (mesh_topology device_count nvlink_check m name).2 = compute_topology device_count nvlink_check m name
  ∧ topologies_fresh device_count nvlink_check (mesh_topology device_count nvlink_check m name).1
  ∧ ∀ entries m', set_placement entries m = Ok m' → topologies_fresh device_count nvlink_check m'.
Proof.
  intros Hf. split_and!.
  - unfold mesh_topology. destruct (group_members m name) eqn:E; simpl.
    + destruct (dget _ _) eqn:Et; simpl; [symmetry; by apply Hf|].
      by destruct (compute_topology _ _ _ _).
    + unfold compute_topology. by rewrite E.
  - unfold mesh_topology. destruct (group_members m name) eqn:E; simpl; [|done].
    destruct (dget _ _) eqn:Et; simpl; [done|]. destruct (compute_topology _ _ m name) eqn:Ec; simpl; [|done].
    intros n t. simpl. rewrite dget_dset. case_decide; [by intros [= <-]; subst|apply Hf].
  - intros entries m'. unfold set_placement. destruct (_ =? _); simpl; [|done]. by intros [= <-].
Qed.

(** ** Concrete replicas *)

Definition example_layout : rank_layout :=
  match build_rank_layout example_resolved with Ok l => l | Err _ => RankLayout 0 [] end.
Definition example_rank (rank : Z) : pool * res mesh :=
  default (Pool [] [] [], Err RuntimeError)
    (rank_mesh (λ _, true) (TorchDist rank 8 "nccl") example_layout "nccl" true).

Lemma example_layout_ok : build_rank_layout example_resolved = Ok example_layout.
Proof. vm_compute. reflexivity. Qed.
(** Set-up succeeds where [new_group] does. *)
Lemma rank_mesh_total td l backend cpu : ∃ p rm, rank_mesh (λ _, true) td l backend cpu = Some (p, rm).
Proof.
  unfold rank_mesh, pool_build.
  destruct (ensure_groups_total (λ _, true) td (pool_keys l (pool_backends backend cpu))
              (pool_start td (rl_world l) (pool_backends backend cpu))) as [p ->]; [done|]. eauto.
Qed.
Lemma example_rank_ok rank :
  rank_mesh (λ _, true) (TorchDist rank 8 "nccl") example_layout "nccl" true
  = Some ((example_rank rank).1, (example_rank rank).2).
Proof.
  unfold example_rank. by destruct (rank_mesh_total (TorchDist rank 8 "nccl") example_layout "nccl" true) as (p & rm & ->).
Qed.

(** Ranks 0 and 2 share the attention CP group. *)
Lemma groups_agree_witness :
  pl_calls (example_rank 0).1 = pl_calls (example_rank 2).1
  ∧ match (example_rank 0).2, (example_rank 2).2 with
    | Ok m0, Ok m2 => mesh_group None m0 "attention_cp" = mesh_group None m2 "attention_cp"
    | _, _ => False
    end.
Proof.
  destruct (groups_agree example_config 8 example_resolved example_layout "nccl" true "nccl" (λ _, true)
              (λ _, true) 0 2 (example_rank 0).1 (example_rank 0).2 (example_rank 2).1 (example_rank 2).2)
    as (Hc & _ & m0 & m2 & -> & -> & H).
  - split_and!; reflexivity.
  - reflexivity.
  - exact example_layout_ok.
  - lia.
  - lia.
  - apply example_rank_ok.
  - apply example_rank_ok.
  - split; [exact Hc|].
    destruct (H "attention_cp" [0; 2]) as (n & made & Hg & _).
    + apply (bool_decide_unpack _). vm_compute. exact I.
    + vm_compute. reflexivity.
    + right. left.
    + simpl. lia.
    + destruct (Hg None) as [-> ->]. reflexivity.
Defined.

Definition two_hosts : list placement_entry :=
  [PlacementEntry "a" (Some 0) (Some "f"); PlacementEntry "a" (Some 1) (Some "f");
   PlacementEntry "b" (Some 0) (Some "f")].
Lemma topology_exact_witness :
  topology_from_entries (λ _, true) two_hosts = Ok (Topology true false 2 2)
  ∧ ∃ t, topology_from_entries (λ _, true) two_hosts = Ok t ∧ ∀ node, on_node node two_hosts ≤ n_gpus_per_node t.
Proof.
  split; [reflexivity|]. destruct (topology_exact (λ _, true) two_hosts) as (t & Ht & _ & Hn & _); [done|].
  by exists t.
Defined.

Definition lone_mesh : mesh := Mesh (RankLayout 1 [("world", [[0]])]) 0 "model" [("world", [0])] [] [] None None [].
Lemma mesh_topology_fresh_witness :
  (mesh_topology (Some 4) (λ _, true) lone_mesh "world").2 = Ok (Topology true true 1 1).
Proof.
  refine (eq_trans (proj1 (mesh_topology_fresh (Some 4) (λ _, true) lone_mesh "world" _)) _); [by intros ? ?|reflexivity].
Defined.
