(* ===== verification/Collectives.v ===== *)
(** * Collective dispatch

    Models [parallel/backend.py], [parallel/registry.py], [parallel/dispatch.py],
    [parallel/ops.py] and the backends of [parallel/backends] as far as they
    decide: which backend serves a collective, the shape it returns, and what
    [parallel.init] assembles for one rank.  The collectives themselves are
    library calls. *)

From S2P Require Export ProcessGroups.
From Stdlib Require Import Ascii String.
From stdpp Require Import options.

Local Open Scope Z_scope.

(** ** Backends *)

Inductive collective_op : Type :=
  ALL_REDUCE | ALL_GATHER | REDUCE_SCATTER | BROADCAST | ALL_TO_ALL | SEND | RECV | BARRIER.
#[export] Instance collective_op_eq_dec : EqDecision collective_op.
Proof. solve_decision. Defined.

Inductive capture_mode : Type := EAGER | GRAPH_CAPTURING.
#[export] Instance capture_mode_eq_dec : EqDecision capture_mode.
Proof. solve_decision. Defined.

(** The arguments of [can_handle]; a probe has no group. *)
Record query : Type := Query {
  q_op : collective_op;
  q_mode : capture_mode;
  q_nbytes : Z;
  q_dtype : string;
  q_world_size : Z;
  q_topology : topology;
  q_pg : option process_group;
  q_mesh : option string;
  q_group : option string;
}.

(** The [Backend] protocol, as far as selection uses it. *)
Class Backend (B : Type) := {
  backend_name : B → string;
  supports_capture : B → bool;
  can_handle : B → query → bool;
}.

(** ** The registry *)

Definition WORST_CASE_TOPOLOGY : topology := Topology false false 2 1.

Section registry.
Context {B : Type} `{Backend B}.

Record registry : Type := Registry {
  rg_backends : list B;
  rg_prefer : dict collective_op (list string);
}.

Definition empty_registry : registry := Registry [] [].

(** [Registry.register] *)
Definition register_backend (b : B) (prefer_for : list collective_op) (r : registry) : registry :=
  Registry (rg_backends r ++ [b])
    (foldl (λ d o, dset d o (default [] (dget d o) ++ [backend_name b])) (rg_prefer r) prefer_for).

Definition prefer_names (r : registry) (o : collective_op) : list string := default [] (dget (rg_prefer r) o).

Definition capture_ok (m : capture_mode) (b : B) : bool :=
  match m with GRAPH_CAPTURING => supports_capture b | EAGER => true end.

(** The inner loop for a preferred name: the first backend of that name the mode
    admits is asked, and no other. *)
Fixpoint preferred (q : query) (name : string) (l : list B) : list B :=
  match l with
  | [] => []
  | b :: l' =>
      if negb (String.eqb (backend_name b) name) then preferred q name l'
      else if negb (capture_ok (q_mode q) b) then preferred q name l'
      else if can_handle b q then [b] else []
  end.

(** [Registry.candidates] *)
Definition candidates (r : registry) (q : query) : list B :=
  let names := prefer_names r (q_op q) in
  (names ≫= λ n, preferred q n (rg_backends r))
  ++ filter (λ b, bool_decide (backend_name b ∈ names) = false
                  ∧ capture_ok (q_mode q) b = true ∧ can_handle b q = true) (rg_backends r).

Definition registry_has (r : registry) (q : query) : bool :=
  match candidates r q with [] => false | _ => true end.

(** [Registry.validate] *)
Definition common_ops : list collective_op :=
  [ALL_REDUCE; ALL_GATHER; REDUCE_SCATTER; BROADCAST; ALL_TO_ALL; SEND; RECV].
Definition probe (o : collective_op) (m : capture_mode) (size : Z) : query :=
  Query o m 1024 "bfloat16" size WORST_CASE_TOPOLOGY None None None.
Definition probe_modes (r : registry) : list capture_mode :=
  EAGER :: (if existsb supports_capture (rg_backends r) then [GRAPH_CAPTURING] else []).
Definition validate (r : registry) (group_sizes : list Z) : res unit :=
  let names := backend_name <$> rg_backends r in
  _ ← ensure (forallb (λ kv, forallb (λ n, bool_decide (n ∈ names)) kv.2) (rg_prefer r)) NoBackendError;
  let sizes := filter (λ s, 1 < s) group_sizes in
  ensure (forallb (λ o, forallb (λ m, forallb (λ s, registry_has r (probe o m s)) sizes) (probe_modes r)) common_ops)
    NoBackendError.

(** Selection policies. *)
Inductive backend_policy : Type :=
  | DefaultPolicy
  | ForcedPolicy (name : string) (fallback : backend_policy).
Fixpoint policy_select (p : backend_policy) (l : list B) : res B :=
  match p with
  | DefaultPolicy => of_option NoBackendError (head l)
  | ForcedPolicy name fallback =>
      match list_find (λ b, backend_name b = name) l with
      | Some (_, b) => Ok b
      | None => policy_select fallback l
      end
  end.

(** ** The dispatcher *)

(** [nbytes.bit_length()] *)
Definition size_bucket (nbytes : Z) : Z := if nbytes =? 0 then 0 else Z.log2 (Z.abs nbytes) + 1.

Record dispatch_key : Type := CacheKey {
  ck_op : collective_op;
  ck_group : string;
  ck_mesh : string;
  ck_dtype : string;
  ck_bucket : Z;
  ck_mode : capture_mode;
  ck_world_size : Z;
  ck_extra : list Z;
}.
#[export] Instance cache_key_eq_dec : EqDecision dispatch_key.
Proof. solve_decision. Defined.

Record collective_dispatcher : Type := Dispatcher {
  dp_registry : registry;
  dp_policy : backend_policy;
  dp_cache : dict dispatch_key B;
}.

(** [Dispatcher(registry, policy)]; [forced] is the environment setting. *)
Definition mk_collective_dispatcher (forced : string) (r : registry) (p : option backend_policy) : collective_dispatcher :=
  Dispatcher r
    (match p with
     | Some p => p
     | None => if String.eqb forced "" then DefaultPolicy else ForcedPolicy forced DefaultPolicy
     end) [].

(** What a call passes: its tensor as (elements, element size, dtype). *)
Record call : Type := Call {
  cl_op : collective_op;
  cl_group : string;
  cl_tensor : option (Z * Z * string);
  cl_extra : list Z;
}.
Definition call_nbytes (c : call) : Z :=
  match cl_tensor c with Some (n, size, _) => n * size | None => 0 end.
Definition call_dtype (c : call) : string :=
  match cl_tensor c with Some (_, _, dt) => dt | None => "uint8" end.

Context (device_count : option Z) (nvlink_check : list Z → bool) (default_group : option process_group).

Definition call_key (m : mesh) (mode : capture_mode) (size : Z) (c : call) : dispatch_key :=
  CacheKey (cl_op c) (cl_group c) (ms_name m) (call_dtype c) (size_bucket (call_nbytes c)) mode size
    (cl_extra c).
Definition collective_query (m : mesh) (mode : capture_mode) (size : Z) (pg : process_group) (t : topology)
    (c : call) : query :=
  Query (cl_op c) mode (call_nbytes c) (call_dtype c) size t (Some pg) (Some (ms_name m)) (Some (cl_group c)).

(** [Dispatcher.select] *)
Definition dispatch (d : collective_dispatcher) (m : mesh) (mode : capture_mode) (c : call)
    : collective_dispatcher * mesh * res B :=
  match mesh_group_size m (cl_group c) with
  | Err e => (d, m, Err e)
  | Ok size =>
      let key := call_key m mode size c in
      match dget (dp_cache d) key with
      | Some b => (d, m, Ok b)
      | None =>
          match mesh_group default_group m (cl_group c) with
          | Err e => (d, m, Err e)
          | Ok pg =>
              match mesh_topology device_count nvlink_check m (cl_group c) with
              | (m', Err e) => (d, m', Err e)
              | (m', Ok t) =>
                  match candidates (dp_registry d) (collective_query m mode size pg t c) with
                  | [] => (d, m', Err NoBackendError)
                  | cands =>
                      match policy_select (dp_policy d) cands with
                      | Err e => (d, m', Err e)
                      | Ok b => (Dispatcher (dp_registry d) (dp_policy d) (dset (dp_cache d) key b), m', Ok b)
                      end
                  end
              end
          end
      end
  end.
End registry.
Arguments registry B : clear implicits.
Arguments collective_dispatcher B : clear implicits.

(** ** The built-in backends *)

(** [_PyNcclComm]: the communicator, by the number of its creation. *)
Record comm : Type := Comm { cm_number : Z; cm_members : list Z }.
#[export] Instance comm_eq_dec : EqDecision comm.
Proof. solve_decision. Defined.

Inductive builtin_kind : Type :=
  | NcclBackend
  | GlooBackend
  | PyNCCLBackend (comms : dict (string * string) comm) (prefer_in_eager : bool).

Definition ALL_OPS : list collective_op :=
  [ALL_REDUCE; ALL_GATHER; REDUCE_SCATTER; BROADCAST; ALL_TO_ALL; SEND; RECV; BARRIER].
Definition PYNCCL_OPS : list collective_op := [ALL_REDUCE; ALL_GATHER; REDUCE_SCATTER; BROADCAST; SEND; RECV].

(** The operations a backend has a handler for; [execute] raises for others. *)
Definition backend_ops (b : builtin_kind) : list collective_op :=
  match b with PyNCCLBackend _ _ => PYNCCL_OPS | _ => ALL_OPS end.

(** [_backend_of(pg) != name]; a group without a backend reads as a mark. *)
Definition serves_group (name : string) (pg : option process_group) : bool :=
  match pg with
  | None => true
  | Some g => match backend_of g with Some b => String.eqb b name | None => false end
  end.

Definition nccl_can_handle (q : query) : bool :=
  bool_decide (q_op q ∈ ALL_OPS) && serves_group "nccl" (q_pg q).
Definition gloo_can_handle (q : query) : bool :=
  bool_decide (q_op q ∈ ALL_OPS)
  && match q_mode q with GRAPH_CAPTURING => false | EAGER => true end
  && serves_group "gloo" (q_pg q).
Definition pynccl_can_handle (comms : dict (string * string) comm) (prefer_in_eager : bool) (q : query) : bool :=
  bool_decide (q_op q ∈ PYNCCL_OPS)
  && match q_mode q with EAGER => prefer_in_eager | GRAPH_CAPTURING => true end
  && (1 <? q_world_size q)
  && match q_mesh q, q_group q with
     | Some mesh, Some group => bool_decide (is_Some (dget comms (mesh, group)))
     | _, _ => true
     end.

#[export] Instance builtin_backend : Backend builtin_kind := {
  backend_name b := match b with NcclBackend => "nccl" | GlooBackend => "gloo" | PyNCCLBackend _ _ => "pynccl" end;
  supports_capture b := match b with GlooBackend => false | _ => true end;
  can_handle b :=
    match b with
    | NcclBackend => nccl_can_handle
    | GlooBackend => gloo_can_handle
    | PyNCCLBackend comms eager => pynccl_can_handle comms eager
    end;
}.

(** [PyNCCLBackend.attach]: groups with the same members share a communicator;
    [comm_ok] is whether NCCL can build one. *)
Definition shared_comms (m : mesh) (comms : dict (string * string) comm) : dict (list Z) comm :=
  foldl (λ d kv, if String.eqb kv.1.1 (ms_name m)
                 then match group_members m kv.1.2 with Ok g => dset d g kv.2 | Err _ => d end else d)
    [] comms.
Section attach.
Context (default_group : option process_group) (comm_ok : list Z → bool) (m : mesh).
Fixpoint attach (groups : list string) (made : Z) (shared : dict (list Z) comm)
    (comms : dict (string * string) comm) : res (dict (string * string) comm) :=
  match groups with
  | [] => Ok comms
  | group :: groups' =>
      members ← group_members m group;
      if (Z.of_nat (List.length members) <=? 1) || bool_decide (is_Some (dget comms (ms_name m, group)))
      then attach groups' made shared comms
      else match dget shared members with
           | Some c => attach groups' made shared (dset comms (ms_name m, group) c)
           | None =>
               _ ← mesh_group default_group m group;
               _ ← mesh_cpu_group m group;
               _ ← ensure (comm_ok members) RuntimeError;
               let c := Comm made members in
               attach groups' (made + 1) (dset shared members c) (dset comms (ms_name m, group) c)
           end
  end.
End attach.

(** [resolve_collective_device] accepts the type of the device argument. *)
Definition cuda_device (device : option string) : bool :=
  match device with None => true | Some d => String.eqb d "cuda" end.

(** [_make_registry] *)
Definition pynccl_prefers : list collective_op := [ALL_REDUCE; ALL_GATHER; REDUCE_SCATTER; BROADCAST; SEND; RECV].
Definition mesh_sizes (m : mesh) : res (list Z) := rmap (mesh_group_size m) (group_names m).
Definition make_registry (default_group : option process_group) (comm_ok : list Z → bool) (m : mesh)
    (backend : string) (device : option string) (enable_pynccl : bool) (pynccl_groups : option (list string))
    : res (registry builtin_kind) :=
  r ← (if String.eqb backend "nccl" then
         base ← (if enable_pynccl then
                   _ ← ensure (cuda_device device) ValueError;
                   comms ← attach default_group comm_ok m (default (group_names m) pynccl_groups) 1 [] [];
                   Ok (register_backend (PyNCCLBackend comms false) pynccl_prefers empty_registry)
                 else Ok empty_registry);
         Ok (register_backend NcclBackend [] base)
       else if String.eqb backend "gloo" then Ok (register_backend GlooBackend [] empty_registry)
       else Err ValueError);
  sizes ← mesh_sizes m;
  _ ← validate r sizes;
  Ok r.

(** [group_rank_to_global]; [dist.get_global_rank] reads the group's ranks. *)
Definition group_rank_to_global (pg : process_group) (rank : Z) : res Z :=
  match pg with
  | Group _ ranks _ =>
      _ ← ensure ((0 <=? rank) && (rank <? Z.of_nat (List.length ranks))) ValueError;
      of_option ValueError (ranks !! Z.to_nat rank)
  | NonMember => Err ValueError
  end.

(** ** [parallel.init] *)

(** What the environment of [init] answers: which groups and communicators can be
    made, and the gathered placement ([None] when the probe raises). *)
Record init_env : Type := InitEnv {
  ie_cuda : bool;
  ie_new_group_ok : pool_key → bool;
  ie_comm_ok : list Z → bool;
  ie_placement : option (list placement_entry);
  ie_forced : string;
}.

Definition record_placement (e : init_env) (backend : string) (device : option string) (m : mesh) : mesh :=
  match ie_placement e with
  | Some entries =>
      if String.eqb backend "nccl" && negb (cuda_device device) then m
      else match set_placement entries m with Ok m' => m' | Err _ => m end
  | None => m
  end.

Definition init (e : init_env) (st : option torch_dist) (pc : parallel_config)
    (replica_world : option Z) (device backend : option string) (enable_pynccl : bool)
    (pynccl_groups : option (list string)) : res (mesh * collective_dispatcher builtin_kind) :=
  world ← match st with
          | Some td =>
              _ ← ensure (match replica_world with Some n => n =? td_world td | None => true end) ValueError;
              Ok (td_world td)
          | None =>
              n ← match replica_world with Some n => Ok n | None => infer_replica_world_size pc end;
              _ ← ensure (n <=? 1) RuntimeError;
              Ok n
          end;
  r ← resolve pc world;
  layout ← build_rank_layout r;
  match st with
  | None =>
      m ← mk_mesh layout 0 [] [] None "model";
      Ok (m, mk_collective_dispatcher (ie_forced e) empty_registry None)
  | Some td =>
      let b := resolve_backend (ie_cuda e) td backend device in
      let build_cpu := enable_pynccl && String.eqb b "nccl" in
      match pool_build (ie_new_group_ok e) (λ _, true) true td layout b build_cpu with
      | inr (err, _) => Err err
      | inl p =>
          m ← build_mesh td layout p b build_cpu;
          let m := record_placement e b device m in
          reg ← make_registry (Some (world_group td)) (ie_comm_ok e) m b device enable_pynccl pynccl_groups;
          Ok (m, mk_collective_dispatcher (ie_forced e) reg None)
      end
  end.

(** ** The shapes of [ops.py] *)

(** [dim += x.ndim] in the user-facing functions. *)
Definition normal_dim (dims : list Z) (dim : Z) : Z := if dim <? 0 then dim + Z.of_nat (List.length dims) else dim.

(** [list[dim]], negative indices included, and its update. *)
Definition py_index (dims : list Z) (dim : Z) : res nat :=
  let n := Z.of_nat (List.length dims) in
  let i := if dim <? 0 then dim + n else dim in
  _ ← ensure ((0 <=? i) && (i <? n)) IndexError;
  Ok (Z.to_nat i).
Definition update_dim (dims : list Z) (dim : Z) (f : Z → Z) : res (list Z) :=
  i ← py_index dims dim; Ok (alter f i dims).

(** The shape each custom op allocates, or the error it raises before
    dispatching; [ws] is the group size. *)
Definition all_reduce_shape (ws : Z) (dims : list Z) : res (list Z) := Ok dims.
Definition all_gather_shape (ws : Z) (dims : list Z) (dim : Z) : res (list Z) :=
  if ws <=? 1 then Ok dims else update_dim dims dim (λ n, n * ws).
Definition reduce_scatter_shape (ws : Z) (dims : list Z) (dim : Z) : res (list Z) :=
  if ws <=? 1 then Ok dims
  else
    i ← py_index dims dim;
    n ← of_option IndexError (dims !! i);
    _ ← ensure (n mod ws =? 0) ValueError;
    update_dim dims dim (λ n, n / ws).
Definition all_to_all_shape (ws : Z) (dims : list Z) (in_splits out_splits : option (list Z)) : res (list Z) :=
  _ ← ensure (Bool.eqb (bool_decide (in_splits = None)) (bool_decide (out_splits = None))) ValueError;
  if ws <=? 1 then Ok dims
  else
    match out_splits with
    | Some l => match dims with _ :: rest => Ok (foldr Z.add 0 l :: rest) | [] => Ok [foldr Z.add 0 l] end
    | None =>
        match dims with
        | n :: rest => _ ← ensure (n mod ws =? 0) ValueError; Ok (n :: rest)
        | [] => Err IndexError
        end
    end.
Definition broadcast_shape (ws : Z) (dims : list Z) : res (list Z) := Ok dims.

(** The shapes the [register_fake] functions promise the compiler. *)
Definition all_reduce_fake (ws : Z) (dims : list Z) : res (list Z) := Ok dims.
Definition all_gather_fake (ws : Z) (dims : list Z) (dim : Z) : res (list Z) := update_dim dims dim (λ n, n * ws).
Definition reduce_scatter_fake (ws : Z) (dims : list Z) (dim : Z) : res (list Z) :=
  update_dim dims dim (λ n, n / ws).
Definition all_to_all_fake (ws : Z) (dims : list Z) (in_splits out_splits : option (list Z)) : res (list Z) :=
  _ ← ensure (Bool.eqb (bool_decide (in_splits = None)) (bool_decide (out_splits = None))) ValueError;
  match dims, out_splits with
  | n :: rest, Some l => Ok (foldr Z.add 0 l :: rest)
  | [], Some l => Ok [foldr Z.add 0 l]
  | n :: rest, None => Ok (n :: rest)
  | [], None => Err IndexError
  end.
Definition broadcast_fake (ws : Z) (dims : list Z) : res (list Z) := Ok dims.

(** [resolve_mesh]: the name [model] is the default mesh. *)
Definition resolve_mesh (meshes : dict string mesh) (default_name : string) (arg : mesh + string) : res mesh :=
  match arg with
  | inl m => Ok m
  | inr name => of_option KeyError (dget meshes (if String.eqb name "model" then default_name else name))
  end.
