(* ===== verification/CollectiveProps.v ===== *)
(** * Properties of collective dispatch

    Theorems on [Collectives.v]: cached dispatch agrees with a fresh choice, a
    validated registry serves what it was probed for, every collective of a
    replica set up by [init] finds a backend, and the promised shapes. *)

From S2P Require Export Collectives.
From Stdlib Require Import Ascii String.
From stdpp Require Import options.

Local Open Scope Z_scope.

(** ** The choice a dispatcher remembers *)

(** Two queries that differ in the number of bytes only. *)
Definition with_nbytes (n : Z) (q : query) : query :=
  Query (q_op q) (q_mode q) n (q_dtype q) (q_world_size q) (q_topology q) (q_pg q) (q_mesh q) (q_group q).

(** What the dispatcher's cache relies on: a backend sees sizes only through
    their bucket. *)
Class BucketLaw (B : Type) `{Backend B} : Prop :=
  can_handle_bucket : ∀ (b : B) q n, size_bucket n = size_bucket (q_nbytes q) →
    can_handle b (with_nbytes n q) = can_handle b q.

#[export] Instance builtin_bucket : BucketLaw builtin_kind.
Proof. by intros [] q n _. Qed.

Section dispatch.
Context {B : Type} `{BucketLaw B}.
Context (device_count : option Z) (nvlink_check : list Z → bool) (default_group : option process_group).

(** The choice without a cache. *)
Definition choose (r : registry B) (p : backend_policy) (m : mesh) (mode : capture_mode) (c : call) : res B :=
  size ← mesh_group_size m (cl_group c);
  pg ← mesh_group default_group m (cl_group c);
  t ← compute_topology device_count nvlink_check m (cl_group c);
  match candidates r (collective_query m mode size pg t c) with
  | [] => Err NoBackendError
  | cands => policy_select p cands
  end.

(** The mesh of one name at different times: only its cached topologies vary. *)
Definition mesh_like (m m' : mesh) : Prop :=
  ms_name m = ms_name m' ∧ ms_members m = ms_members m' ∧ ms_groups m = ms_groups m'
  ∧ ms_placement m = ms_placement m' ∧ topologies_fresh device_count nvlink_check m'.

Lemma mesh_like_same env m1 m2 : mesh_like env m1 → mesh_like env m2 → mesh_like m1 m2.
Proof using Type. intros (? & ? & ? & ? & _) (? & ? & ? & ? & ?). split_and!; try congruence. done. Qed.

Lemma choose_like r p m m' mode c : mesh_like m m' → choose r p m mode c = choose r p m' mode c.
Proof using Type.
  intros (Hn & Hm & Hg & Hp & _).
  unfold choose, mesh_group_size, mesh_group, compute_topology, group_members, collective_query.
  by rewrite Hn, Hm, Hg, Hp.
Qed.

Lemma preferred_ext q q' n (l : list B) : q_mode q = q_mode q' → (∀ b, can_handle b q = can_handle b q') →
  preferred q n l = preferred q' n l.
Proof using Type.
  intros Hm Hc. induction l as [|b l IH]; [done|]. simpl. by rewrite IH, Hm, Hc.
Qed.

Lemma candidates_bucket (r : registry B) q n : size_bucket n = size_bucket (q_nbytes q) →
  candidates r (with_nbytes n q) = candidates r q.
Proof using All.
  intros Hn. unfold candidates. simpl.
  assert (∀ b : B, can_handle b (with_nbytes n q) = can_handle b q) as Hc by (intros; by apply can_handle_bucket).
  f_equal.
  - induction (prefer_names r (q_op q)) as [|x l IH]; [done|].
    change (preferred (with_nbytes n q) x (rg_backends r) ++ (l ≫= λ n0, preferred (with_nbytes n q) n0 (rg_backends r))
            = preferred q x (rg_backends r) ++ (l ≫= λ n0, preferred q n0 (rg_backends r))).
    rewrite IH. f_equal. by apply preferred_ext.
  - apply list_filter_iff. intros b. by rewrite Hc.
Qed.

Lemma choose_key r p m mode c c' size : mesh_group_size m (cl_group c) = Ok size →
  call_key m mode size c = call_key m mode size c' → choose r p m mode c = choose r p m mode c'.
Proof using All.
  intros Hs [= Hop Hg Hdt Hb Hx]. unfold choose. rewrite <- Hg, Hs. simpl.
  destruct (mesh_group _ m _) as [pg|]; simpl; [|done]. destruct (compute_topology _ _ m _) as [t|]; simpl; [|done].
  assert (collective_query m mode size pg t c = with_nbytes (call_nbytes c) (collective_query m mode size pg t c')) as ->
    by (unfold with_nbytes, collective_query; simpl; by rewrite Hop, Hg, Hdt).
  by rewrite candidates_bucket.
Qed.

(** The dispatcher after any calls, over meshes that keep their groups and
    placement per name. *)
Inductive dispatch_reachable (env : string → mesh) (d0 : collective_dispatcher B) : collective_dispatcher B → Prop :=
  | dr_start : dispatch_reachable env d0 d0
  | dr_call d m mode c : dispatch_reachable env d0 d → mesh_like (env (ms_name m)) m →
      dispatch_reachable env d0 (dispatch device_count nvlink_check default_group d m mode c).1.1.

(** What the cache holds was chosen for every call with the key. *)
Definition cache_exact (env : string → mesh) (d : collective_dispatcher B) : Prop :=
  ∀ key b, dget (dp_cache d) key = Some b → ∀ m mode c size,
    mesh_like (env (ms_name m)) m → mesh_group_size m (cl_group c) = Ok size →
    call_key m mode size c = key → choose (dp_registry d) (dp_policy d) m mode c = Ok b.

Lemma dispatch_choose env d m mode c : cache_exact env d → mesh_like (env (ms_name m)) m →
  let '(d', m', r) := dispatch device_count nvlink_check default_group d m mode c in
  r = choose (dp_registry d) (dp_policy d) m mode c
  ∧ dp_registry d' = dp_registry d ∧ dp_policy d' = dp_policy d ∧ cache_exact env d'
  ∧ mesh_like (env (ms_name m)) m' ∧ ms_name m' = ms_name m.
Proof using All.
  intros Hd Hm. unfold dispatch. destruct (mesh_group_size m (cl_group c)) as [size|] eqn:Hs.
  2: { split_and!; [|done..]. unfold choose. by rewrite Hs. }
  destruct (dget (dp_cache d) _) as [b|] eqn:Hk.
  { split_and!; [|done..]. symmetry. by eapply Hd. }
  destruct (mesh_group default_group m (cl_group c)) as [pg|] eqn:Hpg.
  2: { split_and!; [|done..]. unfold choose. by rewrite Hs, Hpg. }
  destruct Hm as (Hn & Hmm & Hg & Hpl & Hf) eqn:HE.
  destruct (mesh_topology_fresh device_count nvlink_check m (cl_group c) Hf) as (Ht & Hf' & _).
  assert (mesh_like (env (ms_name m)) (mesh_topology device_count nvlink_check m (cl_group c)).1
          ∧ ms_name (mesh_topology device_count nvlink_check m (cl_group c)).1 = ms_name m) as [Hlike Hname].
  { clear HE. split; [split_and!; try done|]; unfold mesh_topology in *; destruct (group_members m _); simpl in *; try done;
      destruct (dget (ms_topologies m) _); simpl in *; try done; by destruct (compute_topology _ _ _ _). }
  clear HE. destruct (mesh_topology _ _ m (cl_group c)) as [m' [t|e]]; simpl in *.
  2: { split_and!; [|done..]. unfold choose. by rewrite Hs, Hpg, <- Ht. }
  assert (choose (dp_registry d) (dp_policy d) m mode c
          = match candidates (dp_registry d) (collective_query m mode size pg t c) with
            | [] => Err NoBackendError | cands => policy_select (dp_policy d) cands end) as Hch
    by (unfold choose; by rewrite Hs, Hpg, <- Ht).
  destruct (candidates _ _) as [|b0 cands]; [by split_and!|].
  destruct (policy_select _ _) as [b|e] eqn:Hp; [|by split_and!].
  split_and!; [done..| |done|done]. intros key b' Hb'. simpl in Hb'. rewrite dget_dset in Hb'. simpl.
  case_decide as Hkey; [|by eapply Hd].
  injection Hb' as <-. intros m2 mode2 c2 size2 Hm2 Hs2 Hk2. subst key.
  pose proof Hk2 as [= _ Hgn Hmn _ _ Hmode Hsz _]. subst mode2 size2.
  assert (mesh_like m m2) as Hl by (rewrite Hmn in Hm2; by eapply mesh_like_same).
  rewrite <- (choose_like _ _ m m2 _ _ Hl). rewrite <- Hch. symmetry.
  apply (choose_key _ _ _ _ _ _ size); [done|]. rewrite <- Hk2. unfold call_key. by rewrite Hmn.
Qed.
End dispatch.

Section candidates.
Context {B : Type} `{Backend B}.

Lemma preferred_elem q n (l : list B) b : b ∈ preferred q n l →
  b ∈ l ∧ backend_name b = n ∧ capture_ok (q_mode q) b = true ∧ can_handle b q = true.
Proof.
  induction l as [|b' l IH]; simpl; [by intros ?%not_elem_of_nil|].
  destruct (String.eqb_spec (backend_name b') n) as [Hn|_]; simpl.
  - destruct (capture_ok _ b') eqn:Hc; simpl.
    + destruct (can_handle b' q) eqn:Hh; [|by intros ?%not_elem_of_nil].
      intros ->%list_elem_of_singleton. split_and!; [by left|done..].
    + intros Hb. destruct (IH Hb) as (? & ? & ? & ?). split_and!; [by right|done..].
  - intros Hb. destruct (IH Hb) as (? & ? & ? & ?). split_and!; [by right|done..].
Qed.

Lemma backend_candidates_elem (r : registry B) q b : b ∈ candidates r q →
  b ∈ rg_backends r ∧ capture_ok (q_mode q) b = true ∧ can_handle b q = true.
Proof.
  unfold candidates. rewrite elem_of_app, list_elem_of_bind. intros [(n & Hb & _)|Hb].
  - by destruct (preferred_elem _ _ _ _ Hb) as (? & _ & ? & ?).
  - apply list_elem_of_filter in Hb as [(_ & ? & ?) ?]. done.
Qed.

Lemma policy_select_ok (p : backend_policy) (l : list B) : l ≠ [] → ∃ b, policy_select p l = Ok b ∧ b ∈ l.
Proof.
  intros Hl. induction p as [|n p IH]; simpl.
  - destruct l as [|b l]; [done|]. exists b. split; [done|by left].
  - destruct (list_find _ l) as [[i b]|] eqn:E; [|done]. exists b. split; [done|].
    apply list_find_Some in E as (Hi & _). by eapply list_elem_of_lookup_2.
Qed.

Lemma policy_select_elem (p : backend_policy) (l : list B) b : policy_select p l = Ok b → b ∈ l.
Proof.
  intros Hb. destruct l as [|b0 l].
  - exfalso. induction p; simpl in *; [done|by apply IHp].
  - destruct (policy_select_ok p (b0 :: l)) as (b' & Hb' & Hin); [done|]. congruence.
Qed.
End candidates.

(** A cached dispatch is a fresh one.  Whatever calls on whatever meshes
    came before, a dispatcher answers with the backend the registry and the
    policy would choose now, and that backend is registered, admits the mode and
    says it can handle this very call. *)
Theorem dispatch_cached {B} `{BucketLaw B} device_count nvlink_check default_group env
    (d0 d : collective_dispatcher B) m mode c :
  dp_cache d0 = [] → dispatch_reachable device_count nvlink_check default_group env d0 d →
  mesh_like device_count nvlink_check (env (ms_name m)) m →
  let answer := (dispatch device_count nvlink_check default_group d m mode c).2 in
  answer = choose device_count nvlink_check default_group (dp_registry d0) (dp_policy d0) m mode c
  ∧ ∀ b, answer = Ok b → ∃ size pg t,
      mesh_group_size m (cl_group c) = Ok size ∧ mesh_group default_group m (cl_group c) = Ok pg
      ∧ compute_topology device_count nvlink_check m (cl_group c) = Ok t
      ∧ b ∈ rg_backends (dp_registry d0) ∧ capture_ok mode b = true
      ∧ can_handle b (collective_query m mode size pg t c) = true.
Proof.
  intros Hempty Hreach Hm.
  assert (cache_exact device_count nvlink_check default_group env d
          ∧ dp_registry d = dp_registry d0 ∧ dp_policy d = dp_policy d0) as (Hd & Hr & Hp).
  { clear Hm. induction Hreach as [|d m' mode' c' _ (Hd & Hr & Hp) Hm'].
    - split_and!; [|done..]. intros key b. by rewrite Hempty.
    - pose proof (dispatch_choose device_count nvlink_check default_group env d m' mode' c' Hd Hm') as Hs.
      destruct (dispatch _ _ _ d m' mode' c') as [[d' m''] r]. simpl. destruct Hs as (_ & ? & ? & ? & _).
      split_and!; congruence || done. }
  pose proof (dispatch_choose device_count nvlink_check default_group env d m mode c Hd Hm) as Hs.
  destruct (dispatch _ _ _ d m mode c) as [[d' m''] r]. simpl. destruct Hs as (-> & _). rewrite Hr, Hp.
  split; [done|]. intros b Hb. unfold choose in Hb.
  apply bind_ok in Hb as (size & Hs & Hb). apply bind_ok in Hb as (pg & Hpg & Hb).
  apply bind_ok in Hb as (t & Ht & Hb). exists size, pg, t. split; [done|]. split; [done|]. split; [done|].
  assert (b ∈ candidates (dp_registry d0) (collective_query m mode size pg t c)) as Hin.
  { destruct (candidates _ _) as [|b0 l]; [done|]. by eapply policy_select_elem. }
  by apply backend_candidates_elem in Hin.
Qed.

(** ** What [init] sets up *)

Lemma pool_group_backend td w backend cpu p members : pool_ok td w (pool_backends backend cpu) p →
  td_world td = w → td_rank td ∈ members → is_Some (dget (pl_groups p) (backend, members)) →
  ∃ number, dget (pl_groups p) (backend, members)
    = Some (Group number members
              (if decide (td_backend td = UNDEFINED ∧ members = seqZ 0 w) then UNDEFINED else backend)).
Proof.
  intros Hp Hw Hr [g Hg].
  assert ((backend, members) ∈ dkeys (pl_groups p)) as Hk by (apply dget_is_Some; by eexists).
  assert (alias td w (pool_backends backend cpu) (backend, members) →
    dget (pl_groups p) (backend, members) = Some (Group 0 members (td_backend td))) as Ha.
  { intros Ha. rewrite (po_alias _ _ _ _ Hp _ Ha). unfold world_group. by rewrite Hw, <- (proj1 Ha). }
  case_decide as Hc.
  - destruct Hc as [Hu ->]. exists 0. rewrite Ha, Hu; [done|]. split; [done|]. unfold world_aliases.
    rewrite (proj2 (String.eqb_eq _ _) Hu). unfold pool_backends, fromkeys.
    destruct cpu; simpl; [case_bool_decide|]; set_solver.
  - apply (po_keys _ _ _ _ Hp) in Hk as [Hal|Hcall].
    + exists 0. rewrite (Ha Hal). destruct Hal as [Hm Hb]. simpl in *. unfold world_aliases in Hb.
      destruct (String.eqb_spec (td_backend td) UNDEFINED) as [Hu|_]; [by destruct Hc|].
      apply list_elem_of_singleton in Hb. by rewrite Hb.
    + apply list_elem_of_lookup in Hcall as [i Hi]. rewrite (po_made _ _ _ _ Hp _ _ Hi). simpl.
      rewrite decide_True by done. by eexists.
Qed.

(** The parts [init] hands to a rank of a replica. *)
Lemma init_inv e td pc r rw device backend enable groups m d :
  resolve pc (td_world td) = Ok r →
  init e (Some td) pc rw device backend enable groups = Ok (m, d) →
  let b0 := resolve_backend (ie_cuda e) td backend device in
  ∃ l p m0 reg, build_rank_layout r = Ok l
    ∧ rank_mesh (ie_new_group_ok e) td l b0 (enable && String.eqb b0 "nccl") = Some (p, Ok m0)
    ∧ m = record_placement e b0 device m0
    ∧ make_registry (Some (world_group td)) (ie_comm_ok e) m b0 device enable groups = Ok reg
    ∧ d = mk_collective_dispatcher (ie_forced e) reg None.
Proof.
  intros Hr Hi b0. unfold init in Hi.
  apply bind_ok in Hi as (world & Hworld & Hi). apply bind_ok in Hworld as ([] & _ & [= <-]).
  rewrite Hr in Hi. cbn [mbind res_bind] in Hi. apply bind_ok in Hi as (l & Hl & Hi). fold b0 in Hi.
  unfold rank_mesh. destruct (pool_build _ _ _ _ _ _ _) as [p|[err rel]] eqn:Hp; [|done].
  apply bind_ok in Hi as (m0 & Hm0 & Hi). apply bind_ok in Hi as (reg & Hreg & Hi).
  injection Hi as <- <-. exists l, p, m0, reg. split_and!; try done. by rewrite Hp, Hm0.
Qed.

Lemma record_placement_like e b device m : ms_topologies m = [] → ms_placement m = None →
  let m' := record_placement e b device m in
  ms_name m' = ms_name m ∧ ms_members m' = ms_members m ∧ ms_groups m' = ms_groups m
  ∧ ms_layout m' = ms_layout m ∧ ms_topologies m' = []
  ∧ (ms_placement m' = None ∨ ∃ es, ms_placement m' = Some es ∧ Z.of_nat (List.length es) = rl_world (ms_layout m)).
Proof.
  intros Ht Hp. unfold record_placement, set_placement.
  destruct (ie_placement e) as [es|]; [|split_and!; try done; by left].
  destruct (_ && _); [split_and!; try done; by left|].
  destruct (_ =? _) eqn:E; simpl; split_and!; try done; [right|by left].
  exists es. split; [done|lia].
Qed.

(** The registries [_make_registry] builds. *)
Inductive built_registry (b0 : string) : registry builtin_kind → Prop :=
  | br_gloo : b0 = "gloo" → built_registry b0 (register_backend GlooBackend [] empty_registry)
  | br_nccl : b0 = "nccl" → built_registry b0 (register_backend NcclBackend [] empty_registry)
  | br_pynccl comms : b0 = "nccl" → built_registry b0
      (register_backend NcclBackend [] (register_backend (PyNCCLBackend comms false) pynccl_prefers empty_registry)).

Lemma make_registry_ok dg comm_ok m b0 device enable groups reg :
  make_registry dg comm_ok m b0 device enable groups = Ok reg → built_registry b0 reg.
Proof.
  intros Hi. unfold make_registry in Hi. apply bind_ok in Hi as (reg' & Hr & Hi).
  apply bind_ok in Hi as (sizes & _ & Hi). apply bind_ok in Hi as ([] & _ & [= <-]).
  destruct (String.eqb_spec b0 "nccl") as [->|_].
  - apply bind_ok in Hr as (base & Hb & [= <-]). destruct enable.
    + apply bind_ok in Hb as ([] & _ & Hb). apply bind_ok in Hb as (comms & _ & [= <-]). by constructor.
    + injection Hb as <-. by constructor.
  - destruct (String.eqb_spec b0 "gloo") as [->|_]; [|done]. injection Hr as <-. by constructor.
Qed.

(** A backend that says it can handle a call has a handler for it. *)
Lemma can_handle_ops (b : builtin_kind) q : can_handle b q = true → q_op q ∈ backend_ops b.
Proof.
  destruct b; simpl; unfold nccl_can_handle, gloo_can_handle, pynccl_can_handle; intros Hh;
    repeat (apply andb_prop in Hh as [Hh _]); by apply bool_decide_eq_true in Hh.
Qed.

(** When a built registry has a candidate for a call on a group. *)
Lemma built_candidates b0 reg q number members made : built_registry b0 reg →
  q_pg q = Some (Group number members made) → q_op q ∈ ALL_OPS →
  (made = b0 → b0 = "nccl" ∨ q_mode q = EAGER → candidates reg q ≠ [])
  ∧ (made ∉ ["nccl"; "gloo"] → q_mode q = EAGER → candidates reg q = [])
  ∧ (b0 = "gloo" → q_mode q = GRAPH_CAPTURING → candidates reg q = []).
Proof.
  intros Hreg Hpg Hop. split_and!.
  - intros -> Hm Hnil. destruct Hreg as [->| ->|comms ->].
    + destruct Hm as [|Hm]; [done|]. assert (GlooBackend ∈ candidates (register_backend GlooBackend [] empty_registry) q) as Hin.
      { unfold candidates. apply elem_of_app. right. apply list_elem_of_filter. split; [|by left].
        simpl. unfold gloo_can_handle. rewrite Hm, Hpg. simpl. rewrite bool_decide_eq_true_2 by done. done. }
      rewrite Hnil in Hin. by apply not_elem_of_nil in Hin.
    + assert (NcclBackend ∈ candidates (register_backend NcclBackend [] empty_registry) q) as Hin.
      { unfold candidates. apply elem_of_app. right. apply list_elem_of_filter. split; [|by left].
        simpl. unfold nccl_can_handle. rewrite Hpg. simpl. rewrite bool_decide_eq_true_2 by done. by destruct (q_mode q). }
      rewrite Hnil in Hin. by apply not_elem_of_nil in Hin.
    + match type of Hnil with candidates ?R q = [] => assert (NcclBackend ∈ candidates R q) as Hin end.
      { unfold candidates. apply elem_of_app. right. apply list_elem_of_filter. split; [|right; by left].
        split_and!.
        - destruct (q_op q); vm_compute; reflexivity.
        - by destruct (q_mode q).
        - simpl. unfold nccl_can_handle. rewrite Hpg. simpl. by rewrite bool_decide_eq_true_2 by done. }
      rewrite Hnil in Hin. by apply not_elem_of_nil in Hin.
  - intros Hmade Hm. apply elem_of_nil_inv. intros b Hb. apply backend_candidates_elem in Hb as (Hin & _ & Hh).
    assert (b = GlooBackend ∨ b = NcclBackend ∨ ∃ comms, b = PyNCCLBackend comms false) as Hb.
    { destruct Hreg; simpl in Hin; set_solver. }
    destruct Hb as [->|[->|[comms ->]]]; simpl in Hh.
    + unfold gloo_can_handle in Hh. rewrite Hm, Hpg in Hh. simpl in Hh.
      apply andb_prop in Hh as [_ Hh]. apply String.eqb_eq in Hh. subst. set_solver.
    + unfold nccl_can_handle in Hh. rewrite Hpg in Hh. simpl in Hh.
      apply andb_prop in Hh as [_ Hh]. apply String.eqb_eq in Hh. subst. set_solver.
    + unfold pynccl_can_handle in Hh. rewrite Hm in Hh. rewrite andb_false_r in Hh. done.
  - intros -> Hm. destruct Hreg as [_|?|? ?]; [|done..]. apply elem_of_nil_inv. intros b Hb.
    apply backend_candidates_elem in Hb as (Hin & Hc & _). rewrite Hm in Hc. simpl in Hin.
    apply list_elem_of_singleton in Hin. by subst.
Qed.

Lemma op_all (o : collective_op) : o ∈ ALL_OPS.
Proof. unfold ALL_OPS. destruct o; set_solver. Qed.

Lemma topology_from_some nvlink_check entries : entries ≠ [] →
  ∃ t, topology_from_entries nvlink_check entries = Ok t.
Proof.
  intros Hne. unfold topology_from_entries. destruct (max_value_ok (dvals (count_nodes entries))) as (x & -> & _).
  - intros H. destruct entries as [|e es]; [done|]. destruct (count_nodes_spec (e :: es)) as [_ Hg].
    specialize (Hg (pe_node e)). rewrite decide_True in Hg by by left.
    apply dget_elem in Hg. apply (list_elem_of_fmap_2 snd) in Hg. unfold dvals in H. rewrite H in Hg.
    by apply not_elem_of_nil in Hg.
  - simpl. by eexists.
Qed.

(** A group of a set-up mesh always has a topology. *)
Lemma mesh_topology_total dc nv m name members w : group_members m name = Ok members →
  members ≠ [] → (∀ rank, rank ∈ members → 0 ≤ rank < w) →
  (ms_placement m = None ∨ ∃ es, ms_placement m = Some es ∧ Z.of_nat (List.length es) = w) →
  ∃ t, compute_topology dc nv m name = Ok t.
Proof.
  intros Hm Hne Hr Hp. unfold compute_topology. rewrite Hm. simpl.
  destruct Hp as [->|(es & -> & Hlen)]; [by eexists|].
  assert (∃ l, rmap (λ r, of_option IndexError (es !! Z.to_nat r)) members = Ok l ∧ List.length l = List.length members)
    as (l & Hl & Hll).
  { clear Hm Hne. induction members as [|r rs IH]; [by exists []|]. simpl.
    destruct (lookup_lt_is_Some_2 es (Z.to_nat r)) as [x ->].
    { specialize (Hr r ltac:(by left)). lia. }
    simpl. destruct IH as (l & -> & Hl); [intros; apply Hr; by right|]. simpl. eexists. split; [done|]. simpl. lia. }
  rewrite Hl. simpl. apply topology_from_some. intros ->. destruct members; done.
Qed.

(** Every collective of a replica finds a backend.  After a rank's [init],
    and whatever it dispatched since, a call on a group of more than one rank is
    served by a backend that has a handler for the operation: always in eager
    mode, and under graph capture exactly when the replica runs on NCCL.  The one
    exception is a group with the ranks of the world when the launcher made a
    default group without a backend: no backend serves it in eager mode. *)
Theorem init_serves e td pc r rw device backend enable groups m d dc nv d' m' mode c members :
  config_valid pc → resolve pc (td_world td) = Ok r → 0 ≤ td_rank td < td_world td →
  init e (Some td) pc rw device backend enable groups = Ok (m, d) →
  dispatch_reachable dc nv (Some (world_group td)) (λ _, m) d d' → mesh_like dc nv m m' →
  cl_group c ∈ GROUP_NAMES → group_members m (cl_group c) = Ok members →
  1 < Z.of_nat (List.length members) →
  let composite := td_backend td = UNDEFINED ∧ members = seqZ 0 (td_world td) in
  let b0 := resolve_backend (ie_cuda e) td backend device in
  let answer := (dispatch dc nv (Some (world_group td)) d' m' mode c).2 in
  (¬ composite → mode = EAGER ∨ b0 = "nccl" → ∃ b, answer = Ok b ∧ cl_op c ∈ backend_ops b)
  ∧ (composite → mode = EAGER → answer = Err NoBackendError)
  ∧ (mode = GRAPH_CAPTURING → b0 = "gloo" → answer = Err NoBackendError).
Proof.
  intros Hv Hr Htd Hi Hreach Hlike Hname Hmem Hlen composite b0 answer.
  destruct (init_inv _ _ _ _ _ _ _ _ _ _ _ Hr Hi) as (l & p & m0 & reg & Hl & Hrm & Hm & Hreg & ->). fold b0 in Hrm, Hm, Hreg.
  apply make_registry_ok in Hreg.
  destruct (rank_mesh_ok pc _ r l Hv Hr Hl _ td _ _ _ _ eq_refl Htd Hrm)
    as (Hpool & _ & _ & m1 & [= <-] & _ & _ & Hpl & Htop & Hlay & Hmesh).
  destruct (record_placement_like e b0 device m0 Htop Hpl) as (_ & Hrmem & Hrg & Hrl & _ & Hrp).
  rewrite <- Hm in *. destruct (layout_keys pc _ r l Hv Hr Hl) as [Hkeys Hworld].
  assert (cl_group c ∈ dkeys (rl_groups l)) as Hin by (rewrite Hkeys; by apply group_names_keys).
  destruct (layout_position pc _ r l Hv Hr Hl (cl_group c) (td_rank td) Hin Htd)
    as (fam & mem & _ & Hmf & _ & _ & Hrank & Hbound).
  destruct (Hmesh _ _ Hin Hmf) as (Hgm & Hgroup & _).
  assert (mem = members) as -> by (unfold group_members in *; rewrite Hrmem, Hgm in Hmem; congruence).
  destruct (Hgroup Hlen) as (g & Hg & Hmg).
  destruct (pool_group_backend td _ b0 _ p members Hpool eq_refl Hrank ltac:(by eexists)) as [number Hpg].
  rewrite Hg in Hpg. injection Hpg as ->.
  destruct (dispatch_cached dc nv (Some (world_group td)) (λ _, m) (mk_collective_dispatcher (ie_forced e) reg None) d' m' mode c eq_refl Hreach Hlike) as [Hans _].
  fold answer in Hans. rewrite <- (choose_like dc nv _ _ _ m m' mode c Hlike) in Hans.
  assert (mesh_group (Some (world_group td)) m (cl_group c)
          = mesh_group (Some (world_group td)) m0 (cl_group c)) as Hsame
    by (unfold mesh_group, group_members; by rewrite Hrmem, Hrg).
  destruct (mesh_topology_total dc nv m (cl_group c) members (td_world td) Hmem) as [t Ht];
    [by destruct members|done|by rewrite Hlay, Hworld in Hrp|].
  unfold choose, mesh_group_size in Hans. rewrite Hmem, Hsame, Hmg, Ht in Hans. simpl in Hans.
  set (q := collective_query m mode (Z.of_nat (List.length members)) _ t c) in *.
  destruct (built_candidates b0 reg q number members _ Hreg eq_refl (op_all _)) as (Hsome & Hnone & Hgloo).
  split_and!.
  - intros Hc Hmode. rewrite decide_False in Hsome by done. specialize (Hsome eq_refl).
    assert (candidates reg q ≠ []) as Hne by (apply Hsome; simpl; destruct Hmode; auto).
    destruct (policy_select_ok (dp_policy (mk_collective_dispatcher (ie_forced e) reg None)) _ Hne) as (b & Hb & Hbin).
    exists b. split.
    + rewrite Hans. destruct (candidates reg q) eqn:E; [done|]. exact Hb.
    + apply backend_candidates_elem in Hbin as (_ & _ & Hh). by apply can_handle_ops in Hh.
  - intros Hc Hmode. rewrite decide_True in Hnone by done. rewrite Hans, Hnone; [done| |done].
    apply (bool_decide_unpack _). vm_compute. exact I.
  - intros Hmode Hb. rewrite Hans, Hgloo by done. done.
Qed.

(** ** Shapes *)

Lemma prod_alter f (i : nat) l n : l !! i = Some n → prod_Z (alter f i l) * n = prod_Z l * f n.
Proof.
  revert i. induction l as [|x l IH]; intros [|i] H; try done; simpl in *.
  - injection H as ->. unfold prod_Z. simpl. lia.
  - specialize (IH i H). change (x * prod_Z (alter f i l) * n = x * prod_Z l * f n).
    rewrite <- (Z.mul_assoc x _ n), IH. apply Z.mul_assoc.
Qed.

Lemma prod_zero (i : nat) l : l !! i = Some 0 → prod_Z l = 0.
Proof.
  revert i. induction l as [|x l IH]; intros [|i] H; try done; unfold prod_Z in *; simpl in *.
  - by injection H as ->.
  - rewrite (IH i H). lia.
Qed.

Lemma py_index_ok dims dim : - Z.of_nat (List.length dims) ≤ dim < Z.of_nat (List.length dims) →
  ∃ i n, py_index dims dim = Ok i ∧ dims !! i = Some n.
Proof.
  intros Hd. unfold py_index.
  assert (∃ j, (if dim <? 0 then dim + Z.of_nat (List.length dims) else dim) = j
               ∧ 0 ≤ j < Z.of_nat (List.length dims)) as (j & -> & Hj) by (destruct (dim <? 0) eqn:E; (eexists; split; [done|lia])).
  rewrite (proj2 (Z.leb_le _ _)), (proj2 (Z.ltb_lt _ _)) by lia. simpl.
  destruct (lookup_lt_is_Some_2 dims (Z.to_nat j)) as [n Hn]; [lia|]. by exists (Z.to_nat j), n.
Qed.

Lemma py_index_alter f dims i dim : py_index (alter f i dims) dim = py_index dims dim.
Proof. unfold py_index. by rewrite length_alter. Qed.

(** The shapes of the collectives.  On a group of [ws] ranks and an index
    that exists, an all-gather multiplies the elements by [ws]; a reduce-scatter
    raises [ValueError] exactly for an indivisible dimension and is otherwise
    undone by an all-gather; both allocate the shape they promise the compiler.
    An all-to-all allocates the promised shape except on a single rank with
    split sizes that do not add up to the first dimension. *)
Theorem collective_shapes ws dims dim in_splits out_splits :
  1 ≤ ws → - Z.of_nat (List.length dims) ≤ dim < Z.of_nat (List.length dims) →
  (∃ s, all_gather_shape ws dims dim = Ok s ∧ all_gather_fake ws dims dim = Ok s
        ∧ prod_Z s = ws * prod_Z dims)
  ∧ match reduce_scatter_shape ws dims dim with
    | Ok s => reduce_scatter_fake ws dims dim = Ok s ∧ all_gather_shape ws s dim = Ok dims
              ∧ ws * prod_Z s = prod_Z dims
    | Err e => e = ValueError ∧ ∃ i n, py_index dims dim = Ok i ∧ dims !! i = Some n ∧ n mod ws ≠ 0
    end
  ∧ (∀ s, all_to_all_shape ws dims in_splits out_splits = Ok s →
       all_to_all_fake ws dims in_splits out_splits = Ok s
       ↔ 1 < ws ∨ ∀ l, out_splits = Some l → head dims = Some (foldr Z.add 0 l)).
Proof.
  intros Hws Hdim. destruct (py_index_ok dims dim Hdim) as (i & n & Hi & Hn).
  assert (∀ f : Z → Z, f n = n → alter f i dims = dims) as Halt.
  { intros f Hf. apply list_eq. intros j. destruct (decide (i = j)) as [<-|Hj].
    - rewrite list_lookup_alter_eq, Hn. simpl. by rewrite Hf.
    - by rewrite list_lookup_alter_ne. }
  unfold all_gather_shape, all_gather_fake, reduce_scatter_shape, reduce_scatter_fake, update_dim. rewrite Hi. simpl.
  split_and!.
  - destruct (ws <=? 1) eqn:E.
    + assert (ws = 1) as -> by lia. eexists. split; [done|]. rewrite Halt by lia. split; [done|lia].
    + eexists. split; [done|]. split; [done|]. pose proof (prod_alter (λ n, n * ws) i dims n Hn) as Hp.
      destruct (decide (n = 0)) as [->|Hz]; [|apply (Z.mul_reg_r _ _ n Hz); rewrite Hp; ring].
      assert (alter (λ n, n * ws) i dims = dims) as -> by by apply Halt.
      rewrite (prod_zero i) by done. lia.
  - destruct (ws <=? 1) eqn:E; simpl.
    + assert (ws = 1) as -> by lia. rewrite Halt by apply Z.div_1_r. split_and!; [done|done|lia].
    + rewrite Hn. simpl. destruct (n mod ws =? 0) eqn:Ed; simpl.
      * assert (n = ws * (n / ws)) as Hdiv by (apply Z.div_exact; lia). rewrite ?Hi. simpl. split; [done|].
        rewrite py_index_alter, Hi. simpl. split.
        { f_equal. apply list_eq. intros j. destruct (decide (i = j)) as [<-|Hj].
          - rewrite !list_lookup_alter_eq, Hn. simpl. f_equal. lia.
          - by rewrite !list_lookup_alter_ne. }
        pose proof (prod_alter (λ n, n / ws) i dims n Hn) as Hp.
        destruct (decide (n = 0)) as [->|Hz].
        2: { apply (Z.mul_reg_r _ _ (n / ws)); [nia|].
             replace (ws * prod_Z _ * (n / ws)) with (prod_Z (alter (λ n, n / ws) i dims) * (ws * (n / ws))) by ring.
             by rewrite <- Hdiv. }
        rewrite (Halt (λ n, n / ws)) by (apply Z.div_0_l; lia).
        rewrite (prod_zero i) by done. lia.
      * split; [done|]. exists i, n. split_and!; [done..|lia].
  - intros s. unfold all_to_all_shape, all_to_all_fake.
    destruct (Bool.eqb _ _); simpl; [|done]. destruct (ws <=? 1) eqn:E.
    + intros [= <-]. destruct dims as [|x rest]; [simpl in Hdim; lia|]. simpl. destruct out_splits as [l|].
      * split; [intros [= Heq]; right; intros l' [= <-]; by rewrite Heq|].
        intros [?|Hl]; [lia|]. specialize (Hl l eq_refl). by injection Hl as <-.
      * split; [right; done|done].
    + intros Hs. split; [left; lia|]. intros _. destruct out_splits as [l|]; [by destruct dims|].
      destruct dims; [done|]. destruct (_ =? 0); simpl in Hs; [exact Hs|done].
Qed.

(** ** The order of the candidates *)
Section order.
Context {B : Type} `{Backend B}.

Definition capable (q : query) (b : B) : Prop := capture_ok (q_mode q) b = true ∧ can_handle b q = true.

(** Preferred backends first, in the order they were preferred, then the others
    in the order they were registered. *)
Definition ranked (r : registry B) (o : collective_op) : list B :=
  (prefer_names r o ≫= λ n, filter (λ b, backend_name b = n) (rg_backends r))
  ++ filter (λ b, backend_name b ∉ prefer_names r o) (rg_backends r).

Lemma preferred_none q n (l : list B) : n ∉ backend_name <$> l →
  preferred q n l = [] ∧ filter (λ b, backend_name b = n) l = [].
Proof.
  induction l as [|b l IH]; [done|]. rewrite fmap_cons, not_elem_of_cons. intros [Hb Hl].
  destruct (IH Hl) as [H1 H2]. simpl. rewrite filter_cons_False by congruence. rewrite H2.
  destruct (String.eqb_spec (backend_name b) n); [congruence|]. done.
Qed.

Lemma preferred_filter q n (l : list B) : NoDup (backend_name <$> l) →
  preferred q n l = filter (capable q) (filter (λ b, backend_name b = n) l).
Proof.
  induction l as [|b l IH]; [done|]. rewrite fmap_cons, NoDup_cons. intros [Hb Hl]. simpl.
  destruct (String.eqb_spec (backend_name b) n) as [<-|Hn]; simpl.
  - rewrite filter_cons_True by done. destruct (preferred_none q (backend_name b) l Hb) as [Hp Hf]. rewrite Hf.
    unfold capable. destruct (capture_ok _ b) eqn:Hc; simpl.
    + destruct (can_handle b q) eqn:Hh; [by rewrite filter_cons_True|].
      rewrite filter_cons_False; [done|]. intros [_ ?]. congruence.
    + rewrite filter_cons_False; [done|]. intros [? _]. congruence.
  - rewrite filter_cons_False by done. by apply IH.
Qed.

(** With distinct backend names, the candidates are the capable backends in
    rank order, and the default policy takes the first of them. *)
Theorem candidates_ranked (r : registry B) q : NoDup (backend_name <$> rg_backends r) →
  candidates r q = filter (capable q) (ranked r (q_op q))
  ∧ policy_select DefaultPolicy (candidates r q)
    = of_option NoBackendError (head (filter (capable q) (ranked r (q_op q)))).
Proof.
  intros Hn. assert (candidates r q = filter (capable q) (ranked r (q_op q))) as ->; [|done].
  unfold candidates, ranked. rewrite filter_app. f_equal.
  - induction (prefer_names r (q_op q)) as [|n names IH]; [done|].
    change (preferred q n (rg_backends r) ++ (names ≫= λ n0, preferred q n0 (rg_backends r))
      = filter (capable q) (filter (λ b, backend_name b = n) (rg_backends r)
          ++ (names ≫= λ n0, filter (λ b, backend_name b = n0) (rg_backends r)))).
    rewrite filter_app, IH. f_equal. by apply preferred_filter.
  - rewrite list_filter_filter. apply list_filter_iff. intros b. unfold capable. rewrite bool_decide_eq_false. tauto.
Qed.
End order.

(** ** A concrete replica *)

Definition sample_env : init_env := InitEnv true (λ _, true) (λ _, true) None "".
Definition sample_td (backend : string) : torch_dist := TorchDist 0 8 backend.
Definition sample_init (backend : string) : res (mesh * collective_dispatcher builtin_kind) :=
  init sample_env (Some (sample_td backend)) example_config None (Some "cuda") None true None.
Definition sample_parts (backend : string) : mesh * collective_dispatcher builtin_kind :=
  match sample_init backend with
  | Ok x => x
  | Err _ => (lone_mesh, mk_collective_dispatcher "" empty_registry None)
  end.
Definition sample_call (o : collective_op) (group : string) : call := Call o group (Some (4, 2, "bfloat16")) [].

Lemma sample_init_ok backend : backend ∈ ["nccl"; "undefined"] →
  init sample_env (Some (sample_td backend)) example_config None (Some "cuda") None true None
  = Ok ((sample_parts backend).1, (sample_parts backend).2).
Proof.
  intros Hb. unfold sample_parts, sample_init.
  assert (is_ok (init sample_env (Some (sample_td backend)) example_config None (Some "cuda") None true None) = true) as Hok
    by (apply elem_of_cons in Hb as [-> | ->%list_elem_of_singleton]; vm_compute; reflexivity).
  by destruct (init _ _ _ _ _ _ _ _) as [[]|].
Qed.

Definition sample_answer (backend : string) (mode : capture_mode) (c : call) : res builtin_kind :=
  (dispatch (Some 8) (λ _, true) (Some (world_group (sample_td backend))) (sample_parts backend).2
     (sample_parts backend).1 mode c).2.

Lemma sample_like backend : mesh_like (Some 8) (λ _, true) (sample_parts backend).1 (sample_parts backend).1
  ↔ topologies_fresh (Some 8) (λ _, true) (sample_parts backend).1.
Proof. unfold mesh_like. tauto. Qed.

(** An all-to-all under graph capture, which PyNCCL has no handler for. *)
Lemma init_serves_witness :
  (∃ b, sample_answer "nccl" GRAPH_CAPTURING (sample_call ALL_TO_ALL "attention_cp") = Ok b
        ∧ ALL_TO_ALL ∈ backend_ops b)
  ∧ sample_answer "undefined" EAGER (sample_call ALL_REDUCE "world") = Err NoBackendError.
Proof.
  split.
  - destruct (init_serves sample_env (sample_td "nccl") example_config example_resolved None (Some "cuda") None
      true None (sample_parts "nccl").1 (sample_parts "nccl").2 (Some 8) (λ _, true) (sample_parts "nccl").2
      (sample_parts "nccl").1 GRAPH_CAPTURING (sample_call ALL_TO_ALL "attention_cp") [0; 2]) as (Hs & _ & _).
    + split_and!; reflexivity.
    + reflexivity.
    + simpl. lia.
    + exact (sample_init_ok "nccl" ltac:(by left)).
    + constructor.
    + apply sample_like. intros n t. vm_compute. discriminate.
    + apply (bool_decide_unpack _). vm_compute. exact I.
    + vm_compute. reflexivity.
    + simpl. lia.
    + apply Hs; [intros [H _]; vm_compute in H; discriminate H|right; reflexivity].
  - destruct (init_serves sample_env (sample_td "undefined") example_config example_resolved None (Some "cuda") None
      true None (sample_parts "undefined").1 (sample_parts "undefined").2 (Some 8) (λ _, true)
      (sample_parts "undefined").2 (sample_parts "undefined").1 EAGER (sample_call ALL_REDUCE "world") (seqZ 0 8))
      as (_ & Hs & _).
    + split_and!; reflexivity.
    + reflexivity.
    + simpl. lia.
    + exact (sample_init_ok "undefined" ltac:(right; by left)).
    + constructor.
    + apply sample_like. intros n t. vm_compute. discriminate.
    + apply (bool_decide_unpack _). vm_compute. exact I.
    + vm_compute. reflexivity.
    + vm_compute. reflexivity.
    + apply Hs; [split; vm_compute; reflexivity|reflexivity].
Defined.

Lemma dispatch_cached_witness :
  ∃ b, sample_answer "nccl" EAGER (sample_call BARRIER "moe_tp") = Ok b
    ∧ b ∈ rg_backends (dp_registry (sample_parts "nccl").2).
Proof.
  destruct (dispatch_cached (Some 8) (λ _, true) (Some (world_group (sample_td "nccl")))
    (λ _, (sample_parts "nccl").1) (sample_parts "nccl").2 (sample_parts "nccl").2 (sample_parts "nccl").1 EAGER
    (sample_call BARRIER "moe_tp")) as [_ Hb].
  - vm_compute. reflexivity.
  - constructor.
  - apply sample_like. intros n t. vm_compute. discriminate.
  - exists NcclBackend. assert (sample_answer "nccl" EAGER (sample_call BARRIER "moe_tp") = Ok NcclBackend) as Ha
      by (vm_compute; reflexivity).
    split; [exact Ha|]. destruct (Hb NcclBackend Ha) as (_ & _ & _ & _ & _ & _ & Hin & _). exact Hin.
Defined.

Lemma collective_shapes_witness :
  reduce_scatter_shape 4 [2; 12; 3] (-2) = Ok [2; 3; 3] ∧ all_gather_shape 4 [2; 3; 3] (-2) = Ok [2; 12; 3].
Proof.
  split; [reflexivity|]. exact (proj1 (proj2 (proj1 (proj2 (collective_shapes 4 [2; 12; 3] (-2) None None
    ltac:(lia) ltac:(simpl; lia)))))).
Defined.

Lemma candidates_ranked_witness :
  candidates (dp_registry (sample_parts "nccl").2) (probe ALL_REDUCE GRAPH_CAPTURING 8)
  = filter (capable (probe ALL_REDUCE GRAPH_CAPTURING 8)) (ranked (dp_registry (sample_parts "nccl").2) ALL_REDUCE).
Proof.
  apply (candidates_ranked (dp_registry (sample_parts "nccl").2) (probe ALL_REDUCE GRAPH_CAPTURING 8)).
  apply (bool_decide_unpack _). vm_compute. exact I.
Defined.
