(* ===== verification/Deployment.v ===== *)
(** * Deployment plans

    Models [server/deployment.py] and the device selection of
    [server/local.py]: device lists, deployment configurations, node
    resources, the placement of every replica rank on a device slot, and the
    choice of the execution mode from the launcher's environment. *)

From S2P Require Export Parallel.
From Stdlib Require Import Ascii String.
From stdpp Require Import options.

Local Open Scope Z_scope.

(** ** Device lists *)

(** An entry of a device list: an [int], a [bool] (an [int] the code refuses),
    a string, or any other object. *)
Inductive device_entry : Type :=
  | DevInt (z : Z)
  | DevBool (b : bool)
  | DevStr (s : string)
  | DevOther.

Definition device_index_of (d : device_entry) : option Z :=
  match d with
  | DevInt z => Some z
  | DevStr s => if isdigit (strip s) then digits_to_Z (strip s) else None
  | DevBool _ | DevOther => None
  end.

(** The loop of [normalize_device_indices]. *)
Fixpoint device_indices (devices : list device_entry) : res (list Z) :=
  match devices with
  | [] => Ok []
  | d :: devices' =>
      match device_index_of d with
      | None => Err ValueError
      | Some i =>
          if i <? 0 then Err ValueError
          else rest ← device_indices devices'; Ok (i :: rest)
      end
  end.

(** [normalize_device_indices] *)
Definition normalize_device_indices (devices : list device_entry) : res (list Z) :=
  normalized ← device_indices devices;
  _ ← ensure (bool_decide (NoDup normalized)) ValueError;
  Ok normalized.

(** ** Deployment configuration *)

(** [process_config] is only tested for [None] here. *)
Record deployment_config : Type := DeploymentConfig {
  dc_mode : string;
  dc_replica_count : Z;
  dc_devices : list Z;
  dc_output_rank : Z;
  dc_has_process_config : bool;
  dc_auto_start : bool;
}.

(** [DeploymentConfig.__post_init__] *)
Definition mk_deployment (mode : string) (replica_count : Z) (devices : list device_entry)
    (output_rank : Z) (has_process_config auto_start : bool) : res deployment_config :=
  _ ← ensure (bool_decide (mode ∈ ["auto"; "local"; "external"]%string)) ValueError;
  _ ← ensure (1 <=? replica_count) ValueError;
  indices ← normalize_device_indices devices;
  let external := bool_decide (mode = "external") in
  _ ← ensure (negb (external && negb (bool_decide (indices = [])))) ValueError;
  _ ← ensure (negb (external && negb (replica_count =? 1))) ValueError;
  _ ← ensure (negb (external && has_process_config)) ValueError;
  _ ← ensure (0 <=? output_rank) ValueError;
  Ok (DeploymentConfig mode replica_count indices output_rank has_process_config auto_start).

(** [DeploymentConfig.local] and [DeploymentConfig.external] *)
Definition deployment_local (devices : list device_entry) (replica_count : Z)
    (has_process_config : bool) (output_rank : Z) (auto_start : bool) : res deployment_config :=
  mk_deployment "local" replica_count devices output_rank has_process_config auto_start.

Definition deployment_external (output_rank : Z) : res deployment_config :=
  mk_deployment "external" 1 [] output_rank false true.

(** ** Nodes *)
Record node_resources : Type := NodeResources {
  node_rank : Z;
  node_devices : list Z;
  node_address : option string;
}.

Definition no_nul (s : string) : bool := sforall (λ c, negb (Ascii.eqb c Ascii.zero)) s.

(** [NodeResources.__post_init__], the address already a string. *)
Definition mk_node (rank : Z) (devices : list device_entry) (address : option string) :
    res node_resources :=
  _ ← ensure (0 <=? rank) ValueError;
  indices ← normalize_device_indices devices;
  match address with
  | None => Ok (NodeResources rank indices None)
  | Some a =>
      let a' := strip a in
      _ ← ensure (negb (sempty a') && no_nul a') ValueError;
      Ok (NodeResources rank indices (Some a'))
  end.

(** ** Plans *)
Record worker_placement : Type := WorkerPlacement {
  worker_id : Z;
  replica_id : Z;
  replica_rank : Z;
  wp_node_rank : Z;
  device_index : Z;
  group_ranks : list (string * Z);
  is_output_rank : bool;
}.

(** [WorkerPlacement.group_rank]: [dict(...)] keeps the last entry of a name. *)
Definition placement_group_rank (w : worker_placement) (name : string) : res Z :=
  of_option KeyError (dget (foldl (λ d kv, dset d kv.1 kv.2) [] (group_ranks w)) name).

Record deployment_plan : Type := DeploymentPlan {
  plan_parallel : parallel_config;
  plan_replica_count : Z;
  plan_world : Z;
  plan_layout : rank_layout;
  plan_nodes : list node_resources;
  plan_workers : list worker_placement;
}.

Definition node_le (a b : node_resources) : Prop := node_rank a ≤ node_rank b.
#[export] Instance node_le_dec : RelDecision node_le.
Proof. intros a b. unfold node_le. apply _. Defined.

(** The slots of the nodes, in node order. *)
Definition node_slots (nodes : list node_resources) : list (Z * Z) :=
  nodes ≫= λ n, pair (node_rank n) <$> node_devices n.

(** One iteration of the placement loop. *)
Definition place_worker (layout : rank_layout) (world output_rank : Z) (id : Z) (slot : Z * Z) :
    res worker_placement :=
  let rank := id mod world in
  groups ← memberships layout rank;
  Ok (WorkerPlacement id (id / world) rank slot.1 slot.2 groups (rank =? output_rank)).

Fixpoint place_workers (layout : rank_layout) (world output_rank : Z) (id : Z)
    (slots : list (Z * Z)) : res (list worker_placement) :=
  match slots with
  | [] => Ok []
  | slot :: slots' =>
      w ← place_worker layout world output_rank id slot;
      rest ← place_workers layout world output_rank (id + 1) slots';
      Ok (w :: rest)
  end.

(** The last loop of [build]: a replica on several nodes needs the address of
    the node of its first worker. *)
Definition replica_reachable (nodes : list node_resources) (workers : list worker_placement)
    (replica : Z) : res unit :=
  let members := filter (λ w, replica_id w = replica) workers in
  match members with
  | [] => Err IndexError
  | first :: _ =>
      root ← of_option IndexError (nodes !! Z.to_nat (wp_node_rank first));
      ensure (negb (bool_decide (1 < List.length (remove_dups (wp_node_rank <$> members)))%nat
                    && bool_decide (node_address root = None))) ValueError
  end.

(** [DeploymentPlan.build] *)
Definition plan_build (parallel : parallel_config) (replica_count : Z)
    (nodes : list node_resources) (output_rank : Z) : res deployment_plan :=
  world ← infer_replica_world_size parallel;
  resolved ← resolve parallel world;
  layout ← build_rank_layout resolved;
  _ ← ensure (1 <=? replica_count) ValueError;
  _ ← ensure ((0 <=? output_rank) && (output_rank <? world)) ValueError;
  let ordered := py_sorted node_le nodes in
  _ ← ensure (bool_decide (node_rank <$> ordered = seqZ 0 (Z.of_nat (List.length ordered)))) ValueError;
  let slots := node_slots ordered in
  let required := replica_count * world in
  _ ← ensure (required <=? Z.of_nat (List.length slots)) ValueError;
  workers ← place_workers layout world output_rank 0 (take (Z.to_nat required) slots);
  _ ← rmap (replica_reachable ordered workers) (seqZ 0 replica_count);
  Ok (DeploymentPlan parallel replica_count world layout ordered workers).

Definition worker_count (plan : deployment_plan) : Z := Z.of_nat (List.length (plan_workers plan)).

(** [DeploymentPlan.workers_for_replica] and [workers_for_node] *)
Definition workers_for_replica (plan : deployment_plan) (replica : Z) : res (list worker_placement) :=
  _ ← ensure ((0 <=? replica) && (replica <? plan_replica_count plan)) ValueError;
  Ok (filter (λ w, replica_id w = replica) (plan_workers plan)).

Definition workers_for_node (plan : deployment_plan) (node : Z) : res (list worker_placement) :=
  _ ← ensure ((0 <=? node) && (node <? Z.of_nat (List.length (plan_nodes plan)))) ValueError;
  Ok (filter (λ w, wp_node_rank w = node) (plan_workers plan)).

(** ** Execution mode *)

(** [_rank_environment] on the values of [RANK] and [WORLD_SIZE]. *)
Definition rank_environment (rank world_size : option string) : res (option (Z * Z)) :=
  match rank, world_size with
  | None, None => Ok None
  | Some r, Some w =>
      pr ← of_option ValueError (py_int_of_string r);
      pw ← of_option ValueError (py_int_of_string w);
      if (pr <? 0) || (pw <? 1) || (pw <=? pr) then Err ValueError else Ok (Some (pr, pw))
  | _, _ => Err ValueError
  end.

(** [choose_executor_mode] *)
Definition choose_executor_mode (rank world_size : option string) (replica_world : Z)
    (d : deployment_config) : res string :=
  env ← rank_environment rank world_size;
  if bool_decide (dc_mode d = "external") then
    _ ← ensure (negb (bool_decide (env = None) && (1 <? replica_world))) ValueError;
    _ ← ensure (match env with Some (_, w) => w =? replica_world | None => true end) ValueError;
    Ok "external"%string
  else
    _ ← ensure (match env with Some (_, w) => negb (1 <? w) | None => true end) ValueError;
    if bool_decide (dc_mode d = "local") || negb (bool_decide (dc_devices d = [])) then Ok "local"%string
    else if negb (bool_decide (dc_mode d = "auto")) then Err AssertionError
    else if (dc_replica_count d =? 1) && (replica_world =? 1) then Ok "inline"%string
    else Ok "local"%string.

(** ** Local placement *)

(** [_resolve_local_devices]; [device_count] is [torch.cuda.device_count()]. *)
Definition resolve_local_devices (device_count : Z) (devices : list device_entry) (required : Z)
    (device_type : string) : res (list Z) :=
  selected ←
    (if negb (bool_decide (devices = [])) then normalize_device_indices devices
     else if bool_decide (device_type = "cuda") then Ok (seqZ 0 device_count)
     else Ok (seqZ 0 required));
  _ ← ensure (required <=? Z.of_nat (List.length selected)) ValueError;
  Ok (take (Z.to_nat required) selected).

(** The plan of [build_local_executors]: one node with the selected devices. *)
Definition local_plan (device_count : Z) (device_type : string) (parallel : parallel_config)
    (replica_count : Z) (devices : list device_entry) (output_rank : Z) : res deployment_plan :=
  world ← infer_replica_world_size parallel;
  selected ← resolve_local_devices device_count devices (replica_count * world) device_type;
  node ← mk_node 0 (DevInt <$> selected) None;
  plan_build parallel replica_count [node] output_rank.

(** ** Device lists *)

Lemma device_indices_spec devices l : device_indices devices = Ok l ↔
  Forall2 (λ d i, device_index_of d = Some i ∧ 0 ≤ i) devices l.
Proof.
  revert l. induction devices as [|d devices IH]; intros l; simpl.
  - split; [intros [= <-]; constructor|by inversion 1].
  - destruct (device_index_of d) as [i|] eqn:E.
    2: { split; [done|]. inversion 1 as [|? ? ? ? [Hd _]]; congruence. }
    destruct (Z.ltb_spec i 0) as [Hi|Hi].
    { split; [done|]. inversion 1 as [|? ? ? ? [Hd ?]]; subst. assert (i = y) by congruence. lia. }
    split.
    + intros ?; inv_bind. constructor; [done|]. by apply IH.
    + inversion 1 as [|? ? ? ? [Hd _] Hrest]; subst. apply IH in Hrest as ->. simpl. congruence.
Qed.

Lemma normalize_spec devices l : normalize_device_indices devices = Ok l ↔
  Forall2 (λ d i, device_index_of d = Some i ∧ 0 ≤ i) devices l ∧ NoDup l.
Proof.
  unfold normalize_device_indices. rewrite <-device_indices_spec. split.
  - intros ?; inv_bind. split; [done|]. by eapply bool_decide_eq_true_1.
  - intros [-> Hnd]. simpl. by rewrite bool_decide_eq_true_2.
Qed.

Lemma device_indices_err devices e : device_indices devices = Err e → e = ValueError.
Proof.
  induction devices as [|d devices IH]; simpl; [done|].
  destruct (device_index_of d); [|congruence]. case_match; [congruence|].
  destruct (device_indices devices); simpl; [done|]. auto.
Qed.

(** [normalize_device_indices] accepts exactly the lists whose entries
    are non-negative [int]s or decimal strings naming pairwise different
    indices, returns those indices in order, and raises [ValueError] on every
    other list; normalising its result again changes nothing. *)
Theorem normalize_devices_exact devices :
  match normalize_device_indices devices with
  | Ok l => Forall2 (λ d i, device_index_of d = Some i ∧ 0 ≤ i) devices l ∧ NoDup l
            ∧ normalize_device_indices (DevInt <$> l) = Ok l
  | Err e => e = ValueError
      ∧ ¬ ∃ l, Forall2 (λ d i, device_index_of d = Some i ∧ 0 ≤ i) devices l ∧ NoDup l
  end.
Proof.
  destruct (normalize_device_indices devices) as [l|e] eqn:E.
  - pose proof E as [Hf Hnd]%normalize_spec. split_and!; [done|done|].
    apply normalize_spec. split; [|done]. apply Forall2_fmap_l, Forall_Forall2_diag.
    apply Forall_forall. intros i Hi. simpl. split; [done|].
    apply list_elem_of_lookup in Hi as [k Hk].
    by destruct (Forall2_lookup_r _ _ _ _ _ Hf Hk) as (? & _ & _ & ?).
  - split.
    + revert E. unfold normalize_device_indices.
      destruct (device_indices devices) eqn:Hd; simpl.
      * unfold ensure. case_match; simpl; congruence.
      * intros [= <-]. by eapply device_indices_err.
    + intros (l & Hl). apply normalize_spec in Hl. congruence.
Qed.

(** ** Placement *)

(** What the plan says of one worker. *)
Record worker_ok (layout : rank_layout) (world output_rank : Z) (w : worker_placement) : Prop := {
  wo_replica : replica_id w = worker_id w / world;
  wo_rank : replica_rank w = worker_id w mod world;
  wo_groups : memberships layout (replica_rank w) = Ok (group_ranks w);
  wo_output : is_output_rank w = (replica_rank w =? output_rank);
}.

Lemma place_workers_spec layout world out id slots ws :
  place_workers layout world out id slots = Ok ws →
  worker_id <$> ws = seqZ id (Z.of_nat (List.length slots))
  ∧ (λ w, (wp_node_rank w, device_index w)) <$> ws = slots
  ∧ Forall (worker_ok layout world out) ws.
Proof.
  revert id ws. induction slots as [|[n d] slots IH]; intros id ws; simpl.
  - intros [= <-]. done.
  - intros H. inv_bind. unfold place_worker in *. inv_bind.
    match goal with H : place_workers _ _ _ _ _ = Ok _ |- _ => apply IH in H as (Hid & Hs & Hw) end.
    rewrite seqZ_cons, !fmap_cons, Hid, Hs by (simpl; lia). split_and!.
    + f_equal. f_equal; simpl; lia.
    + done.
    + by constructor.
Qed.

Lemma place_workers_total layout world out id slots : 0 < world →
  (∀ r, 0 ≤ r < world → ∃ g, memberships layout r = Ok g) →
  ∃ ws, place_workers layout world out id slots = Ok ws.
Proof.
  intros Hw Hm. revert id. induction slots as [|s slots IH]; intros id; simpl; [eauto|].
  unfold place_worker. destruct (Hm (id mod world)) as [g ->]; [by apply Z.mod_pos_bound|]. simpl.
  destruct (IH (id + 1)) as [ws ->]. simpl. eauto.
Qed.

Lemma filter_seqZ_div world r n : 0 < world → 0 ≤ r < n →
  filter (λ i, i / world = r) (seqZ 0 (n * world)) = seqZ (r * world) world.
Proof.
  intros Hw Hr.
  assert (Hle : ∀ l, StronglySorted Z.lt l → py_sorted Z.le l = l)
    by (intros l Hl; by apply py_sorted_id, sorted_lt_le).
  rewrite <-(Hle (filter _ _)), <-(Hle (seqZ (r * world) world)).
  - apply py_sorted_unique; [apply _..|]. apply NoDup_Permutation.
    + apply NoDup_filter, NoDup_seqZ.
    + apply NoDup_seqZ.
    + intros i. rewrite list_elem_of_filter, !elem_of_seqZ.
      pose proof (Z.div_mod i world ltac:(lia)). pose proof (Z.mod_pos_bound i world Hw). nia.
  - apply seqZ_sorted.
  - eapply StronglySorted_sublist; [apply seqZ_sorted|apply sublist_filter].
Qed.

Lemma filter_fmap_in {A B} (f : A → B) (P : B → Prop) (Q : A → Prop)
    `{!∀ x, Decision (P x), !∀ x, Decision (Q x)} l :
  Forall (λ x, Q x ↔ P (f x)) l → f <$> filter Q l = filter P (f <$> l).
Proof.
  induction 1 as [|x l Hx _ IH]; [done|]. rewrite fmap_cons, !filter_cons.
  destruct (decide (Q x)) as [Hq|Hq].
  - rewrite decide_True by by apply Hx. rewrite fmap_cons. by f_equal.
  - by rewrite decide_False by by rewrite <-Hx.
Qed.

Lemma node_slots_distinct nodes : node_rank <$> nodes = seqZ 0 (Z.of_nat (List.length nodes)) →
  Forall (λ n, NoDup (node_devices n)) nodes → NoDup (node_slots nodes).
Proof.
  intros Hr Hn. assert (Hnd : NoDup (node_rank <$> nodes)) by (rewrite Hr; apply NoDup_seqZ).
  clear Hr. induction Hn as [|n nodes Hn _ IH]; [constructor|].
  rewrite fmap_cons in Hnd. apply NoDup_cons in Hnd as [Hnin Hnd].
  change (node_slots (n :: nodes)) with ((pair (node_rank n) <$> node_devices n) ++ node_slots nodes).
  apply NoDup_app. split_and!; [| |by apply IH].
  - apply NoDup_fmap; [|done]. intros x y [= ->]. done.
  - intros [k d] (? & [= -> ->] & _)%list_elem_of_fmap (m & Hm & Hin)%list_elem_of_bind.
    apply list_elem_of_fmap in Hm as (? & [= Hk _] & _). apply Hnin. rewrite Hk.
    by apply list_elem_of_fmap_2.
Qed.

Lemma node_slots_elem nodes k d : (k, d) ∈ node_slots nodes →
  ∃ n, n ∈ nodes ∧ node_rank n = k ∧ d ∈ node_devices n.
Proof.
  intros (n & Hn & Hin)%list_elem_of_bind. exists n.
  apply list_elem_of_fmap in Hn as (d' & [= -> ->] & Hd). done.
Qed.

Lemma plan_build_inv p rc nodes out plan : plan_build p rc nodes out = Ok plan →
  ∃ r, infer_replica_world_size p = Ok (plan_world plan) ∧ resolve p (plan_world plan) = Ok r
  ∧ build_rank_layout r = Ok (plan_layout plan)
  ∧ 1 ≤ rc ∧ 0 ≤ out < plan_world plan
  ∧ plan_nodes plan = py_sorted node_le nodes
  ∧ node_rank <$> plan_nodes plan = seqZ 0 (Z.of_nat (List.length (plan_nodes plan)))
  ∧ rc * plan_world plan ≤ Z.of_nat (List.length (node_slots (plan_nodes plan)))
  ∧ place_workers (plan_layout plan) (plan_world plan) out 0
      (take (Z.to_nat (rc * plan_world plan)) (node_slots (plan_nodes plan))) = Ok (plan_workers plan)
  ∧ plan_replica_count plan = rc
  ∧ (∀ i, 0 ≤ i < rc → replica_reachable (plan_nodes plan) (plan_workers plan) i = Ok ()).
Proof.
  unfold plan_build. intros H. inv_bind. simpl in *.
  repeat match goal with
  | H : (_ && _) = true |- _ => apply andb_true_iff in H as [? ?]
  | H : (_ <=? _) = true |- _ => apply Z.leb_le in H
  | H : (_ <? _) = true |- _ => apply Z.ltb_lt in H
  | H : bool_decide _ = true |- _ => apply bool_decide_eq_true_1 in H
  end.
  eexists. split_and!; try eassumption || done.
  intros i Hi. match goal with H : rmap _ _ = Ok _ |- _ => apply rmap_ok in H as Hf end.
  assert (Hin : i ∈ seqZ 0 rc) by (apply elem_of_seqZ; lia).
  apply list_elem_of_lookup in Hin as [k Hk].
  destruct (Forall2_lookup_l _ _ _ _ _ Hf Hk) as ([] & _ & Hok). exact Hok.
Qed.

Lemma plan_world_pos p rc nodes out plan : plan_build p rc nodes out = Ok plan → 0 < plan_world plan.
Proof. intros Hb. apply plan_build_inv in Hb as (r & _ & _ & _ & _ & Ho & _). lia. Qed.

(** The workers of a plan, replica by replica. *)
Lemma plan_replica_workers p rc nodes out plan r : plan_build p rc nodes out = Ok plan →
  0 ≤ r < rc → ∃ ws, workers_for_replica plan r = Ok ws
    ∧ worker_id <$> ws = seqZ (r * plan_world plan) (plan_world plan)
    ∧ ws `sublist_of` plan_workers plan.
Proof.
  intros Hb Hr. pose proof (plan_world_pos _ _ _ _ _ Hb) as Hpos.
  apply plan_build_inv in Hb as (res & _ & _ & _ & Hrc & _ & _ & _ & Hlen & Hp & Hcnt & _).
  destruct (place_workers_spec _ _ _ _ _ _ Hp) as (Hid & _ & Hok).
  rewrite length_take in Hid.
  unfold workers_for_replica. rewrite Hcnt, (proj2 (Z.leb_le _ _)), (proj2 (Z.ltb_lt _ _)) by lia.
  simpl. eexists. split; [reflexivity|]. split; [|apply sublist_filter].
  etrans; [apply (filter_fmap_in worker_id (λ i, i / plan_world plan = r))|].
  - eapply Forall_impl; [exact Hok|]. intros w [-> _ _ _]. done.
  - rewrite Hid. replace (Z.of_nat _) with (rc * plan_world plan) by lia.
    by apply filter_seqZ_div.
Qed.

(** ** Properties of plans *)

Lemma filter_seqZ_point k n : 0 ≤ k < n → filter (λ i, i = k) (seqZ 0 n) = [k].
Proof.
  intros Hk. apply Permutation_singleton_r. apply NoDup_Permutation.
  - apply NoDup_filter, NoDup_seqZ.
  - apply NoDup_singleton.
  - intros i. rewrite list_elem_of_filter, elem_of_seqZ, list_elem_of_singleton. lia.
Qed.

Definition node_valid (n : node_resources) : Prop :=
  ∃ devices, mk_node (node_rank n) devices (node_address n) = Ok n.

Lemma node_valid_devices n : node_valid n → NoDup (node_devices n).
Proof.
  intros [devices H]. unfold mk_node in H. inv_bind.
  match goal with H : normalize_device_indices _ = Ok _ |- _ => apply normalize_spec in H as [_ Hnd] end.
  destruct n as [k ds [a|]]; simpl in *; inv_bind; by simplify_eq.
Qed.

Lemma fmap_seqZ_mod w (ws : list worker_placement) r world layout out :
  w = world → 0 < world → Forall (worker_ok layout world out) ws →
  worker_id <$> ws = seqZ (r * world) w → replica_rank <$> ws = seqZ 0 world.
Proof.
  intros -> Hw Hok Hid.
  transitivity ((λ i, i mod world) <$> (worker_id <$> ws)).
  - rewrite <-list_fmap_compose. apply list_fmap_ext. intros i x Hx.
    rewrite Forall_forall in Hok. simpl. apply Hok. by eapply list_elem_of_lookup_2.
  - rewrite Hid.
    replace (r * world) with (r * world + 0) by lia. rewrite <-fmap_add_seqZ, <-list_fmap_compose.
    rewrite <-(list_fmap_id (seqZ 0 world)) at 2. apply list_fmap_ext.
    intros i x Hx%list_elem_of_lookup_2%elem_of_seqZ. simpl.
    rewrite Z.add_comm, Z.mod_add by lia. apply Z.mod_small. lia.
Qed.

(** C38: a plan that [DeploymentPlan.build] returns places every rank of every
    replica exactly once: the workers of a replica are its ranks in order, no
    two workers share a device slot, each worker's slot is a device of its
    node, the worker carries the group ranks the layout gives its rank, and
    exactly the requested output rank is marked in each replica. *)
Theorem plan_places_every_rank p rc nodes out plan :
  Forall node_valid nodes → plan_build p rc nodes out = Ok plan →
  let world := plan_world plan in
  worker_count plan = rc * world
  ∧ NoDup ((λ w, (wp_node_rank w, device_index w)) <$> plan_workers plan)
  ∧ ∀ r, 0 ≤ r < rc → ∃ ws, workers_for_replica plan r = Ok ws
      ∧ replica_rank <$> ws = seqZ 0 world
      ∧ replica_rank <$> filter (λ w, is_output_rank w = true) ws = [out]
      ∧ ∀ w, w ∈ ws → replica_id w = r ∧ worker_id w = r * world + replica_rank w
          ∧ memberships (plan_layout plan) (replica_rank w) = Ok (group_ranks w)
          ∧ ∃ n, n ∈ nodes ∧ node_rank n = wp_node_rank w ∧ device_index w ∈ node_devices n.
Proof.
  intros Hnv Hb. simpl. pose proof (plan_world_pos _ _ _ _ _ Hb) as Hpos.
  pose proof (λ r, plan_replica_workers _ _ _ _ _ r Hb) as Hrep.
  apply plan_build_inv in Hb
    as (res & _ & _ & _ & Hrc & Hout & Hn & Hnr & Hlen & Hp & _ & _).
  destruct (place_workers_spec _ _ _ _ _ _ Hp) as (Hid & Hslot & Hok).
  assert (Hns : NoDup (node_slots (plan_nodes plan))).
  { apply node_slots_distinct; [done|]. rewrite Hn, py_sorted_perm.
    eapply Forall_impl; [exact Hnv|]. apply node_valid_devices. }
  split_and!.
  - unfold worker_count. rewrite <-(length_fmap worker_id), Hid, length_seqZ, length_take. lia.
  - rewrite Hslot. eapply sublist_NoDup; [exact Hns|]. apply sublist_take.
  - intros r Hr. destruct (Hrep r Hr) as (ws & Hws & Hwid & Hsub). exists ws.
    assert (Hwok : Forall (worker_ok (plan_layout plan) (plan_world plan) out) ws).
    { rewrite Forall_forall in Hok |- *. intros w Hw. apply Hok. by eapply elem_of_sublist. }
    pose proof (fmap_seqZ_mod _ _ _ _ _ _ eq_refl Hpos Hwok Hwid) as Hranks. split_and!; [done|done| |].
    + etrans; [apply (filter_fmap_in replica_rank (λ k, k = out))|].
      { eapply Forall_impl; [exact Hwok|]. intros w [_ _ _ ->]. apply Z.eqb_eq. }
      rewrite Hranks. apply (filter_seqZ_point out (plan_world plan)). lia.
    + intros w Hw. pose proof Hw as Hin. eapply elem_of_sublist in Hin; [|exact Hsub].
      rewrite Forall_forall in Hwok. destruct (Hwok _ Hw) as [H1 H2 H3 H4].
      assert (Hi : worker_id w ∈ worker_id <$> ws) by by apply list_elem_of_fmap_2.
      rewrite Hwid, elem_of_seqZ in Hi.
      assert (Hri : replica_id w = r).
      { rewrite H1. symmetry. apply (Z.div_unique _ _ r (worker_id w - r * plan_world plan)); lia. }
      split_and!; [done| |done|].
      * rewrite H2, <-Hri, H1. pose proof (Z.div_mod (worker_id w) (plan_world plan)). lia.
      * assert (Hs : (wp_node_rank w, device_index w) ∈ node_slots (plan_nodes plan)).
        { eapply elem_of_sublist; [|apply (sublist_take _ (Z.to_nat (rc * plan_world plan)))].
          rewrite <-Hslot. by apply (list_elem_of_fmap_2 (λ w, (wp_node_rank w, device_index w))). }
        destruct (node_slots_elem _ _ _ Hs) as (n & Hin' & Hk & Hd). exists n.
        rewrite Hn, py_sorted_elem in Hin'. done.
Qed.

Lemma placed_on_one_node (nodes : list node_resources) workers r n w rest :
  Forall (λ x, wp_node_rank x = 0) workers → nodes = [n] →
  filter (λ x, replica_id x = r) workers = w :: rest →
  replica_reachable nodes workers r = Ok ().
Proof.
  intros Hall -> Hf. unfold replica_reachable. rewrite Hf.
  assert (Hm : Forall (λ x, wp_node_rank x = 0) (w :: rest)).
  { rewrite <-Hf. rewrite Forall_forall in Hall |- *. intros x [_ Hx]%list_elem_of_filter. by apply Hall. }
  rewrite (Forall_inv Hm). simpl mbind.
  assert (Hl : (List.length (remove_dups (wp_node_rank <$> w :: rest)) ≤ 1)%nat).
  { apply (submseteq_length _ [0]). apply NoDup_submseteq; [apply NoDup_remove_dups|].
    intros x [y [-> Hy]]%elem_of_remove_dups%list_elem_of_fmap.
    rewrite Forall_forall in Hm. rewrite (Hm y Hy). by left. }
  rewrite (bool_decide_eq_false_2 (1 < _)%nat) by (apply Nat.nlt_ge; exact Hl). done.
Qed.

Lemma single_node_ordered n : node_rank n = 0 →
  py_sorted node_le [n] = [n] ∧ node_rank <$> [n] = seqZ 0 1.
Proof. intros Hn. split; [done|]. simpl. by rewrite Hn. Qed.

Lemma rmap_unit {A} (f : A → res unit) l : (∀ x, x ∈ l → f x = Ok ()) →
  ∃ k, rmap f l = Ok k.
Proof.
  intros H. destruct (rmap_total f (λ _ _, True) l) as (k & Hk & _); [|eauto].
  intros x Hx. exists (). split; [by apply H|done].
Qed.

Lemma local_reachable nodes n ws rc w layout out :
  Forall (λ x, wp_node_rank x = 0) ws → nodes = [n] → 0 < w →
  worker_id <$> ws = seqZ 0 (rc * w) → Forall (worker_ok layout w out) ws →
  ∃ k, rmap (replica_reachable nodes ws) (seqZ 0 rc) = Ok k.
Proof.
  intros H0 Hn Hw Hid Hall. apply rmap_unit. intros r Hr%elem_of_seqZ.
  assert (Hf : worker_id <$> filter (λ x, replica_id x = r) ws = seqZ (r * w) w).
  { etrans; [apply (filter_fmap_in worker_id (λ i, i / w = r))|].
    - eapply Forall_impl; [exact Hall|]. intros x [-> _ _ _]. done.
    - rewrite Hid. apply filter_seqZ_div; lia. }
  destruct (filter _ ws) as [|x rest] eqn:E.
  - apply (f_equal List.length) in Hf. rewrite length_seqZ in Hf. simpl in Hf. lia.
  - by eapply placed_on_one_node.
Qed.

Lemma infer_resolves p w : config_valid p → infer_replica_world_size p = Ok w →
  ∃ r, resolve p w = Ok r ∧ resolved_ok r ∧ rc_world r = w.
Proof.
  unfold infer_replica_world_size. intros Hv H.
  assert (∃ r, resolve p w = Ok r) as [r Hr].
  { destruct (explicit_scopes p) as [|s [|]]; [| |done]; inv_bind; eauto. }
  exists r. split; [done|]. by apply (resolve_resolved_ok p).
Qed.

Lemma resolved_devices count devices required ty selected :
  resolve_local_devices count devices required ty = Ok selected → 0 ≤ required →
  NoDup selected ∧ Forall (λ i, 0 ≤ i) selected ∧ Z.of_nat (List.length selected) = required.
Proof.
  unfold resolve_local_devices. intros H Hreq. inv_bind.
  match goal with H : (required <=? _) = true |- _ => apply Z.leb_le in H end.
  assert (Hx : NoDup x ∧ Forall (λ i, 0 ≤ i) x).
  { case_match.
    - apply normalize_spec in H as [Hf Hnd]. split; [done|].
      apply Forall_forall. intros i Hi. apply list_elem_of_lookup in Hi as [k Hk].
      by destruct (Forall2_lookup_r _ _ _ _ _ Hf Hk) as (? & _ & _ & ?).
    - assert (∃ n, x = seqZ 0 n) as [n ->] by (case_match; injection H as <-; eauto).
      split; [apply NoDup_seqZ|]. apply Forall_forall. intros i Hi%elem_of_seqZ. lia. }
  destruct Hx as [Hnd Hp]. split_and!.
  - eapply sublist_NoDup; [exact Hnd|]. apply sublist_take.
  - by apply Forall_take.
  - rewrite length_take. lia.
Qed.

(** For a valid parallel configuration, local deployment never fails once
    the devices are resolved: the plan exists, all its workers are on node 0,
    and worker [i] is bound to the [i]-th selected device. *)
Theorem local_plan_total count ty p rc devices out w selected :
  config_valid p → infer_replica_world_size p = Ok w → 1 ≤ rc → 0 ≤ out < w →
  resolve_local_devices count devices (rc * w) ty = Ok selected →
  ∃ plan, local_plan count ty p rc devices out = Ok plan
    ∧ device_index <$> plan_workers plan = selected
    ∧ workers_for_node plan 0 = Ok (plan_workers plan)
    ∧ worker_id <$> plan_workers plan = seqZ 0 (rc * w).
Proof.
  intros Hv Hw Hrc Hout Hsel.
  destruct (infer_resolves _ _ Hv Hw) as (r & Hr & Hok & Hrw).
  destruct (build_rank_layout_ok _ Hok) as (groups & Hb & _).
  assert (Hw0 : 0 < w) by lia.
  pose proof (resolved_devices _ _ _ _ _ Hsel ltac:(nia)) as (Hnd & Hpos & Hlen).
  assert (Hnode : mk_node 0 (DevInt <$> selected) None = Ok (NodeResources 0 selected None)).
  { unfold mk_node. replace (normalize_device_indices (DevInt <$> selected)) with (Ok selected); [done|].
    symmetry. apply normalize_spec. split; [|done].
    apply Forall2_fmap_l, Forall_Forall2_diag. eapply Forall_impl; [exact Hpos|]. done. }
  set (layout := RankLayout (rc_world r) groups) in *.
  destruct (place_workers_total layout w out 0 (pair 0 <$> selected) Hw0) as [ws Hws].
  { intros k Hk. apply (memberships_total r _ _ Hok Hb). lia. }
  destruct (place_workers_spec _ _ _ _ _ _ Hws) as (Hid & Hslot & Hall).
  rewrite length_fmap in Hid. rewrite Hlen in Hid.
  assert (Hnode0 : Forall (λ x, wp_node_rank x = 0) ws).
  { apply Forall_forall. intros x Hx.
    assert (Hin : (wp_node_rank x, device_index x) ∈ pair 0 <$> selected)
      by (rewrite <-Hslot; by apply (list_elem_of_fmap_2 (λ w, (wp_node_rank w, device_index w)))).
    apply list_elem_of_fmap in Hin as (? & [= ? _] & _). done. }
  assert (Hbuild : plan_build p rc [NodeResources 0 selected None] out
    = Ok (DeploymentPlan p rc w layout [NodeResources 0 selected None] ws)).
  { unfold plan_build. rewrite Hw. simpl. rewrite Hr. simpl. rewrite Hb. simpl.
    rewrite (proj2 (Z.leb_le _ _) Hrc), (proj2 (Z.leb_le 0 out)), (proj2 (Z.ltb_lt out w)) by lia.
    simpl. rewrite app_nil_r, length_fmap, (proj2 (Z.leb_le _ _)) by lia. simpl.
    rewrite firstn_all2, Hws by (rewrite length_fmap; lia). simpl.
    destruct (local_reachable [NodeResources 0 selected None] _ ws rc w _ _ Hnode0 eq_refl Hw0 Hid Hall)
      as [k ->]. done. }
  eexists. unfold local_plan. rewrite Hw. simpl. rewrite Hsel. simpl. rewrite Hnode. simpl.
  split; [exact Hbuild|]. simpl. split_and!; [| |done].
  - transitivity (snd <$> ((λ w, (wp_node_rank w, device_index w)) <$> ws)).
    + by rewrite <-list_fmap_compose.
    + rewrite Hslot, <-list_fmap_compose. apply list_fmap_id.
  - unfold workers_for_node. simpl. f_equal. by apply filter_all.
Qed.

Definition example_parallel : parallel_config :=
  ParallelConfig (OuterParallelConfig 1 1) (DenseParallelConfig (Some 2) 1 false)
    (AttentionParallelConfig None 1 1 2) (MoeParallelConfig None 2 1).

Definition example_nodes : list node_resources :=
  [NodeResources 1 [0; 1] (Some "10.0.0.2"%string); NodeResources 0 [3; 1] None].

Definition example_plan : option deployment_plan :=
  match plan_build example_parallel 2 example_nodes 1 with Ok plan => Some plan | Err _ => None end.

Lemma plan_places_every_rank_witness : ∃ plan,
  plan_build example_parallel 2 example_nodes 1 = Ok plan ∧ Forall node_valid example_nodes
  ∧ worker_count plan = 4
  ∧ ((λ w, (worker_id w, replica_id w, replica_rank w, (wp_node_rank w, device_index w)))
       <$> plan_workers plan
     = [(0, 0, 0, (0, 3)); (1, 0, 1, (0, 1)); (2, 1, 0, (1, 0)); (3, 1, 1, (1, 1))]).
Proof.
  assert (Hv : Forall node_valid example_nodes).
  { repeat constructor; [by exists [DevInt 0; DevStr " 1 "]|by exists [DevInt 3; DevInt 1]]. }
  destruct (plan_build example_parallel 2 example_nodes 1) as [plan|e] eqn:E.
  - exists plan. split; [reflexivity|]. split; [exact Hv|].
    destruct (plan_places_every_rank _ _ _ _ _ Hv E) as (Hc & _ & _).
    vm_compute in E. injection E as <-. split; [exact Hc|reflexivity].
  - vm_compute in E. discriminate E.
Defined.

Lemma local_plan_total_witness : ∃ plan,
  resolve_local_devices 8 [] 4 "cuda" = Ok [0; 1; 2; 3]
  ∧ local_plan 8 "cuda" example_parallel 2 [] 0 = Ok plan
  ∧ device_index <$> plan_workers plan = [0; 1; 2; 3].
Proof.
  assert (Hv : config_valid example_parallel) by (split_and!; reflexivity).
  assert (Hs : resolve_local_devices 8 [] (2 * 2) "cuda" = Ok [0; 1; 2; 3]) by reflexivity.
  destruct (local_plan_total 8 "cuda" example_parallel 2 [] 0 2 [0; 1; 2; 3] Hv eq_refl
    ltac:(lia) ltac:(lia) Hs) as (plan & Hp & Hd & _).
  exists plan. split; [exact Hs|]. split; [exact Hp|exact Hd].
Defined.

(** ** The execution mode *)

Lemma mk_deployment_mode mode rc devices out pc auto d :
  mk_deployment mode rc devices out pc auto = Ok d →
  dc_mode d ∈ ["auto"; "local"; "external"]%string
  ∧ (dc_mode d = "external"%string → dc_devices d = [] ∧ dc_replica_count d = 1).
Proof.
  unfold mk_deployment. intros H. inv_bind. simpl in *.
  match goal with H : bool_decide (mode ∈ _) = true |- _ => apply bool_decide_eq_true_1 in H end.
  split; [done|]. intros ->.
  rewrite bool_decide_eq_true_2 in * by done. simpl in *.
  repeat match goal with H : negb (negb _) = true |- _ => rewrite negb_involutive in H end.
  split; [by eapply bool_decide_eq_true_1|by apply Z.eqb_eq].
Qed.

Lemma rank_environment_err r w e : rank_environment r w = Err e → e = ValueError.
Proof.
  unfold rank_environment. destruct r as [r|], w as [w|]; try congruence.
  destruct (py_int_of_string r); simpl; [|congruence].
  destruct (py_int_of_string w); simpl; [|congruence]. case_match; congruence.
Qed.

(** For a configuration the constructor accepts, the execution mode is
    "external" exactly when it was asked for (and then the launcher's world is
    the replica's, or there is no launcher and one rank), "inline" exactly for
    an automatic single-rank single-replica deployment without a device list,
    and "local" otherwise, never under a multi-rank launcher; every failure is
    a [ValueError], the [AssertionError] of the last branch is unreachable. *)
Theorem choose_mode_spec mode rc devices out pc auto d rank world_size world :
  mk_deployment mode rc devices out pc auto = Ok d →
  match choose_executor_mode rank world_size world d with
  | Ok m =>
      ∃ env, rank_environment rank world_size = Ok env
      ∧ (m = "external"%string ↔ dc_mode d = "external"%string)
      ∧ (m = "inline"%string ↔ dc_mode d = "auto"%string ∧ dc_devices d = []
           ∧ dc_replica_count d = 1 ∧ world = 1)
      ∧ m ∈ ["inline"; "external"; "local"]%string
      ∧ match env with
        | None => m = "external"%string → world ≤ 1
        | Some (r, w) => 0 ≤ r < w ∧ if decide (m = "external"%string) then w = world else w = 1
        end
  | Err e => e = ValueError
  end.
Proof.
  intros Hd. destruct (mk_deployment_mode _ _ _ _ _ _ _ Hd) as [Hmode _]. clear Hd.
  unfold choose_executor_mode.
  destruct (rank_environment rank world_size) as [env|e] eqn:Henv; simpl;
    [|by eapply rank_environment_err].
  assert (Hr : ∀ r w, env = Some (r, w) → 0 ≤ r < w).
  { intros r w ->. unfold rank_environment in Henv. destruct rank, world_size; try done.
    inv_bind. case_match eqn:Hc; [done|]. simplify_eq. lia. }
  assert (Hm : dc_mode d = "auto" ∨ dc_mode d = "local" ∨ dc_mode d = "external")
    by (clear -Hmode; set_solver).
  clear Hmode Henv.
  destruct Hm as [-> | [-> | -> ]]; simpl; destruct env as [[r w]|]; simpl.
  all: try specialize (Hr _ _ eq_refl).
  all: repeat (case_bool_decide || (unfold ensure; case_match)); simplify_eq/=; try done.
  all: repeat match goal with
    | H : negb _ = true |- _ => apply negb_true_iff in H
    | H : (_ && _) = _ |- _ => first [apply andb_true_iff in H as [? ?] | apply andb_false_iff in H]
    end.
  all: eexists; split; [reflexivity|]; split_and!;
    first [done | lia | set_solver by lia | (split; [done|]; intros (? & ? & ? & ?); first [done | lia | naive_solver lia])].
Qed.

Definition example_deployment : deployment_config := DeploymentConfig "auto" 1 [] 0 false true.

Lemma choose_mode_spec_witness :
  mk_deployment "auto" 1 [] 0 false true = Ok example_deployment
  ∧ choose_executor_mode (Some "0") (Some " 1 ") 1 example_deployment = Ok "inline"%string
  ∧ ∃ env, rank_environment (Some "0") (Some " 1 ") = Ok env ∧ env = Some (0, 1).
Proof.
  assert (Hd : mk_deployment "auto" 1 [] 0 false true = Ok example_deployment) by reflexivity.
  split; [exact Hd|]. split; [reflexivity|].
  destruct (choose_mode_spec _ _ _ _ _ _ _ (Some "0"%string) (Some " 1 "%string) 1 Hd)
    as (env & Henv & _). exists env. split; [exact Henv|]. vm_compute in Henv. congruence.
Defined.

(** ** The contract of a plan

    What a worker supervisor relies on: replicas are non-empty sets of workers
    with one output worker each, and worker identifiers are unique. *)
Record plan_contract (plan : deployment_plan) : Prop := {
  contract_replicas : 1 ≤ plan_replica_count plan;
  contract_unique : NoDup (worker_id <$> plan_workers plan);
  contract_output : ∀ r, 0 ≤ r < plan_replica_count plan → ∃ ws, workers_for_replica plan r = Ok ws
    ∧ ∃ w, w ∈ ws ∧ filter (λ w, is_output_rank w = true) ws = [w];
}.

Lemma plan_build_contract p rc nodes out plan : plan_build p rc nodes out = Ok plan →
  plan_contract plan.
Proof.
  intros Hb. pose proof (λ r, plan_replica_workers _ _ _ _ _ r Hb) as Hrep.
  pose proof (plan_world_pos _ _ _ _ _ Hb) as Hpos.
  apply plan_build_inv in Hb as (res & _ & _ & _ & Hrc & Hout & _ & _ & _ & Hp & Hcnt & _).
  destruct (place_workers_spec _ _ _ _ _ _ Hp) as (Hid & _ & Hok). rewrite <-Hcnt in *. split.
  - done.
  - rewrite Hid. apply NoDup_seqZ.
  - intros r Hr. destruct (Hrep r Hr) as (ws & Hws & Hwid & Hsub). exists ws. split; [done|].
    assert (Hwok : Forall (worker_ok (plan_layout plan) (plan_world plan) out) ws).
    { rewrite Forall_forall in Hok |- *. intros w Hw. apply Hok. by eapply elem_of_sublist. }
    assert (Hf : replica_rank <$> filter (λ w, is_output_rank w = true) ws = [out]).
    { etrans; [apply (filter_fmap_in replica_rank (λ k, k = out))|].
      - eapply Forall_impl; [exact Hwok|]. intros w [_ _ _ ->]. apply Z.eqb_eq.
      - rewrite (fmap_seqZ_mod _ _ _ _ _ _ eq_refl Hpos Hwok Hwid). apply filter_seqZ_point. lia. }
    destruct (filter _ ws) as [|w [|]] eqn:E; try done. exists w. split; [|done].
    assert (w ∈ filter (λ w, is_output_rank w = true) ws) as Hin by (rewrite E; by left).
    by apply list_elem_of_filter in Hin as [_ ?].
Qed.
