(* ===== verification/Supervisor.v ===== *)
(** * The worker supervisor

    Models the request supervision of [server/worker_supervisor.py]
    ([WorkerSupervisor]) as a labelled step relation. A region of the code that
    runs under [_state_lock] is one function on the supervisor's record; what a
    thread still has to do after it leaves the region is an entry of an agenda,
    and the entries of all threads run in any order. The pipes to the workers
    are a set of commands not yet answered and a list of results not yet
    received. *)

From S2P Require Export Deployment.
From stdpp Require Import options.

Local Open Scope Z_scope.

(** ** State *)

(** [server/lifecycle.py] *)
Inductive lifecycle : Type := CREATED | STARTING | RUNNING | STOPPING | STOPPED | FAILED.

#[export] Instance lifecycle_eq_dec : EqDecision lifecycle.
Proof. solve_decision. Defined.

(** A [Future]: running, or resolved with a result or an
    [EngineUnavailableError]. *)
Inductive future (V : Type) : Type :=
  | Running
  | Result (v : V)
  | Unavailable.
Arguments Running {V}.
Arguments Result {V} v.
Arguments Unavailable {V}.

(** [_PendingRequest]; its future is the one of the same request id. *)
Record pending_request (V : Type) : Type := PendingRequest {
  pr_replica : Z;
  pr_remaining : gset Z;
  pr_output_worker : Z;
  pr_deadline : option Z;
  pr_output : option V;
}.
Arguments PendingRequest {V} _ _ _ _ _.
Arguments pr_replica {V} _.
Arguments pr_remaining {V} _.
Arguments pr_output_worker {V} _.
Arguments pr_deadline {V} _.
Arguments pr_output {V} _.

(** The fields of [WorkerSupervisor] that its methods share, with the futures
    it handed out; [failed] is [_failure is not None]. *)
Record supervisor (V : Type) : Type := Supervisor {
  state : lifecycle;
  failed : bool;
  pending : gmap Z (pending_request V);
  next_id : Z;
  inflight : list Z;
  handles : gset Z;
  futures : gmap Z (future V);
}.
Arguments Supervisor {V} _ _ _ _ _ _ _.
Arguments state {V} _.
Arguments failed {V} _.
Arguments pending {V} _.
Arguments next_id {V} _.
Arguments inflight {V} _.
Arguments handles {V} _.
Arguments futures {V} _.

Section regions.
Context {V : Type}.
Variable plan : deployment_plan.
Implicit Type s : supervisor V.

Definition set_state (st : lifecycle) s : supervisor V :=
  Supervisor st (failed s) (pending s) (next_id s) (inflight s) (handles s) (futures s).

Definition set_failed (b : bool) s : supervisor V :=
  Supervisor (state s) b (pending s) (next_id s) (inflight s) (handles s) (futures s).

Definition set_handles (h : gset Z) s : supervisor V :=
  Supervisor (state s) (failed s) (pending s) (next_id s) (inflight s) h (futures s).

Definition set_pending (m : gmap Z (pending_request V)) (counts : list Z) s : supervisor V :=
  Supervisor (state s) (failed s) m (next_id s) counts (handles s) (futures s).

Definition set_future (id : Z) (f : future V) s : supervisor V :=
  Supervisor (state s) (failed s) (pending s) (next_id s) (inflight s) (handles s)
    (<[id := f]> (futures s)).

(** [__init__] *)
Definition supervisor_init : supervisor V :=
  Supervisor CREATED false ∅ 0 (replicate (Z.to_nat (plan_replica_count plan)) 0) ∅ ∅.

(** The [healthy] and [inflight] properties. *)
Definition healthy s : list bool :=
  replicate (Z.to_nat (plan_replica_count plan)) (bool_decide (state s = RUNNING)).

(** [self._inflight[r] += d] *)
Definition bump (r d : Z) (counts : list Z) : list Z := alter (Z.add d) (Z.to_nat r) counts.

Definition no_requests : list Z := replicate (Z.to_nat (plan_replica_count plan)) 0.

(** The lock region of [submit]: the new state with the request id and the
    workers the command goes to. [next] on a replica without an output worker
    would raise [StopIteration]; no built plan has such a replica. *)
Definition submit_region (timeout : option Z) (now r : Z) s : res (supervisor V * (Z * list Z)) :=
  if negb (bool_decide (state s = RUNNING)) then Err EngineUnavailableError
  else
    replica ← workers_for_replica plan r;
    let ids := worker_id <$> replica in
    _ ← ensure (forallb (λ w, bool_decide (w ∈ handles s)) ids) RuntimeError;
    output ← of_option OtherError (head (filter (λ w, is_output_rank w = true) replica));
    let id := next_id s in
    let request := PendingRequest r (list_to_set ids) (worker_id output)
                     (Z.add now <$> timeout) None in
    Ok (Supervisor (state s) (failed s) (<[id := request]> (pending s)) (id + 1)
          (bump r 1 (inflight s)) (handles s) (<[id := Running]> (futures s)), (id, ids)).

(** What [_record_result] does after its lock region. *)
Inductive recorded : Type :=
  | RecError
  | RecNothing
  | RecComplete (v : V).

(** The lock region of [_record_result]. *)
Definition record_result (w id : Z) (payload : V) s : supervisor V * recorded :=
  match pending s !! id with
  | None => (s, RecError)
  | Some p =>
      if negb (bool_decide (w ∈ pr_remaining p)) then (s, RecError)
      else
        match head (filter (λ item, worker_id item = w) (plan_workers plan)) with
        | None => (s, RecError)
        | Some placement =>
            if negb (replica_id placement =? pr_replica p) then (s, RecError)
            else
              let p' := PendingRequest (pr_replica p) (pr_remaining p ∖ {[w]})
                          (pr_output_worker p) (pr_deadline p)
                          (if w =? pr_output_worker p then Some payload else pr_output p) in
              let s' := set_pending (<[id := p']> (pending s)) (inflight s) s in
              if bool_decide (pr_remaining p' = ∅) then
                match pr_output p' with
                | None => (s', RecError)
                | Some v =>
                    (set_pending (delete id (pending s)) (bump (pr_replica p) (-1) (inflight s)) s,
                     RecComplete v)
                end
              else (s', RecNothing)
        end
  end.

(** The lock region of [_mark_failed], with the futures to fail after it. *)
Definition mark_failed s : supervisor V * list Z :=
  if bool_decide (state s = FAILED ∨ state s = STOPPED) then (s, [])
  else (set_state FAILED (set_failed true (set_pending ∅ no_requests s)),
        (map_to_list (pending s)).*1).

(** The first lock region of [close]: [None] when it returns early, else the
    [failed] flag and the futures to fail. *)
Definition close_begin s : supervisor V * option (bool * list Z) :=
  if bool_decide (state s = STOPPED ∨ state s = CREATED) then (set_state STOPPED s, None)
  else
    let f := bool_decide (state s = FAILED) in
    let s' := set_pending ∅ no_requests s in
    (if f then s' else set_state STOPPING s', Some (f, (map_to_list (pending s)).*1)).

(** The last lock region of [close]. *)
Definition close_end s : supervisor V :=
  set_state (if failed s then FAILED else STOPPED) s.

(** [_check_request_deadlines]: the requests that are late at [now]. *)
Definition is_late (now : Z) (p : pending_request V) : bool :=
  match pr_deadline p with Some d => d <=? now | None => false end.
Definition expired (now : Z) s : list Z :=
  (map_to_list (filter (λ kv, is_late now kv.2 = true) (pending s))).*1.

(** [start]: entering it, the end of a successful startup, and a failed one. *)
Definition start_begin s : res (supervisor V) :=
  if negb (bool_decide (state s = CREATED)) then Err EngineUnavailableError
  else Ok (set_state STARTING s).
Definition start_ok (workers : list Z) s : supervisor V :=
  set_state RUNNING (set_handles (list_to_set workers) s).
Definition start_failed s : supervisor V := set_state FAILED (set_failed true s).

(** [Future.set_result] raises on a resolved future; the failure paths test
    [done()] first. *)
Definition set_result (id : Z) (v : V) s : res (supervisor V) :=
  match futures s !! id with
  | Some Running => Ok (set_future id (Result v) s)
  | _ => Err OtherError
  end.
Definition fail_future (id : Z) s : supervisor V :=
  match futures s !! id with
  | Some Running => set_future id Unavailable s
  | _ => s
  end.
End regions.

(** ** The system *)

(** What a thread does after it left a lock region: send a command to the
    workers, record a received result, mark the supervisor failed, resolve a
    future, end [close], or end [start]. *)
Inductive action (V : Type) : Type :=
  | ASend (id : Z) (workers : list Z)
  | ARecord (w id : Z) (payload : V)
  | AFail
  | AResult (id : Z) (v : V)
  | AExc (id : Z)
  | ACloseEnd (force : bool)
  | AStart.
Arguments ASend {V} _ _.
Arguments ARecord {V} _ _ _.
Arguments AFail {V}.
Arguments AResult {V} _ _.
Arguments AExc {V} _.
Arguments ACloseEnd {V} _.
Arguments AStart {V}.

(** [owed]: commands in a worker's pipe or being executed; [channel]: results
    on their way to the monitor thread; [monitor]: that thread was started.
    [answers] and [requests] only record the history: every answer a worker
    gave, and the replica of every request. *)
Record system (V : Type) : Type := System {
  sup : supervisor V;
  agenda : list (action V);
  owed : gset (Z * Z);
  channel : list (Z * Z * V);
  monitor : bool;
  answers : list (Z * Z * V);
  requests : gmap Z Z;
}.
Arguments System {V} _ _ _ _ _ _ _.
Arguments sup {V} _.
Arguments agenda {V} _.
Arguments owed {V} _.
Arguments channel {V} _.
Arguments monitor {V} _.
Arguments answers {V} _.
Arguments requests {V} _.

(** One step of some thread or process.
    - [EvSubmit now r]: a caller enters [submit];
    - [EvRun i]: the [i]-th pending action runs;
    - [EvSendFail i k]: that action is a send which fails after [k] workers;
    - [EvStart], [EvStartOk i], [EvStartFail i]: startup;
    - [EvAnswer w id v]: a worker executes its command and sends the result;
    - [EvReceive j]: the monitor takes a result off a pipe;
    - [EvFault]: the monitor sees a dead worker or a malformed message;
    - [EvTick now]: the monitor checks the deadlines;
    - [EvClose], [EvShutdownFailed i]: [close], and a failure it records. *)
Inductive event (V : Type) : Type :=
  | EvSubmit (now r : Z)
  | EvRun (i : nat)
  | EvSendFail (i k : nat)
  | EvStart
  | EvStartOk (i : nat)
  | EvStartFail (i : nat)
  | EvAnswer (w id : Z) (v : V)
  | EvReceive (j : nat)
  | EvFault
  | EvTick (now : Z)
  | EvClose
  | EvShutdownFailed (i : nat).
Arguments EvSubmit {V} _ _.
Arguments EvRun {V} _.
Arguments EvSendFail {V} _ _.
Arguments EvStart {V}.
Arguments EvStartOk {V} _.
Arguments EvStartFail {V} _.
Arguments EvAnswer {V} _ _ _.
Arguments EvReceive {V} _.
Arguments EvFault {V}.
Arguments EvTick {V} _.
Arguments EvClose {V}.
Arguments EvShutdownFailed {V} _.

Section system.
Context {V : Type}.
Variables (plan : deployment_plan) (node : Z) (timeout : option Z).
(** Whether [close] may begin while [start] is in progress. The executors
    never do that: [_SharedManager] starts under its lock, and takes the lock to
    mark itself closed before it closes. *)
Variable overlap : bool.
Implicit Type s : system V.

Definition with_sup (u : supervisor V) (todo : list (action V)) s : system V :=
  System u todo (owed s) (channel s) (monitor s) (answers s) (requests s).

(** The workers this supervisor starts. *)
Definition placements : list Z :=
  match workers_for_node plan node with Ok ws => worker_id <$> ws | Err _ => [] end.

Definition send_to (id : Z) (ws : list Z) s : gset (Z * Z) :=
  owed s ∪ list_to_set ((λ w, (w, id)) <$> ws).

Definition set_owed (o : gset (Z * Z)) (todo : list (action V)) s : system V :=
  System (sup s) todo o (channel s) (monitor s) (answers s) (requests s).

(** Run an action; [rest] is the agenda without it. *)
Definition run_action (a : action V) (rest : list (action V)) s : option (system V) :=
  match a with
  | ASend id ws => Some (set_owed (send_to id ws s) rest s)
  | ARecord w id v =>
      let (u, out) := record_result plan w id v (sup s) in
      Some (with_sup u (rest ++ match out with
                                | RecError => [AFail]
                                | RecNothing => []
                                | RecComplete v' => [AResult id v']
                                end) s)
  | AFail =>
      let (u, ids) := mark_failed plan (sup s) in
      Some (with_sup u (rest ++ (AExc <$> ids)) s)
  | AResult id v =>
      match set_result id v (sup s) with
      | Ok u => Some (with_sup u rest s)
      | Err _ => None
      end
  | AExc id => Some (with_sup (fail_future id (sup s)) rest s)
  | ACloseEnd _ => Some (with_sup (close_end (sup s)) rest s)
  | AStart => None
  end.

(** The supervisor is not stopping: the guard of the monitor's handlers. *)
Definition serving s : bool :=
  negb (bool_decide (state (sup s) = STOPPING ∨ state (sup s) = STOPPED)).

Definition exec (e : event V) s : option (system V) :=
  match e with
  | EvSubmit now r =>
      match submit_region plan timeout now r (sup s) with
      | Err _ => None
      | Ok (u, (id, ws)) =>
          Some (System u (agenda s ++ [ASend id ws]) (owed s) (channel s) (monitor s) (answers s)
                  (<[id := r]> (requests s)))
      end
  | EvRun i => a ← agenda s !! i; run_action a (delete i (agenda s)) s
  | EvSendFail i k =>
      match agenda s !! i with
      | Some (ASend id ws) =>
          Some (set_owed (send_to id (take k ws) s) (delete i (agenda s) ++ [AFail]) s)
      | _ => None
      end
  | EvStart =>
      match start_begin (sup s) with
      | Ok u => Some (with_sup u (agenda s ++ [AStart]) s)
      | Err _ => None
      end
  | EvStartOk i =>
      match agenda s !! i with
      | Some AStart =>
          Some (System (start_ok placements (sup s)) (delete i (agenda s)) (owed s) (channel s)
                  true (answers s) (requests s))
      | _ => None
      end
  | EvStartFail i =>
      match agenda s !! i with
      | Some AStart => Some (with_sup (start_failed (sup s)) (delete i (agenda s)) s)
      | _ => None
      end
  | EvAnswer w id v =>
      if bool_decide ((w, id) ∈ owed s) then
        Some (System (sup s) (agenda s) (owed s ∖ {[(w, id)]}) (channel s ++ [(w, id, v)])
                (monitor s) (answers s ++ [(w, id, v)]) (requests s))
      else None
  | EvReceive j =>
      match channel s !! j with
      | Some (w, id, v) =>
          if monitor s then
            Some (System (sup s) (if serving s then agenda s ++ [ARecord w id v] else agenda s)
                    (owed s) (delete j (channel s)) (monitor s) (answers s) (requests s))
          else None
      | None => None
      end
  | EvFault => if monitor s then Some (with_sup (sup s) (agenda s ++ [AFail]) s) else None
  | EvTick now =>
      if monitor s && serving s && negb (bool_decide (expired now (sup s) = []))
      then Some (with_sup (sup s) (agenda s ++ [AFail]) s) else None
  | EvClose =>
      if negb overlap && bool_decide (state (sup s) = STARTING) then None
      else
        match close_begin plan (sup s) with
        | (u, None) => Some (with_sup u (agenda s) s)
        | (u, Some (f, ids)) =>
            Some (with_sup u (agenda s ++ (AExc <$> ids) ++ [ACloseEnd f]) s)
        end
  | EvShutdownFailed i =>
      match agenda s !! i with
      | Some (ACloseEnd false) => Some (with_sup (set_failed true (sup s)) (agenda s) s)
      | _ => None
      end
  end.

Definition system_init : system V :=
  System (supervisor_init plan) [] ∅ [] false [] ∅.

Fixpoint exec_all (es : list (event V)) s : option (system V) :=
  match es with
  | [] => Some s
  | e :: es' => s' ← exec e s; exec_all es' s'
  end.

Inductive reachable : system V → Prop :=
  | reachable_init : reachable system_init
  | reachable_step s e s' : reachable s → exec e s = Some s' → reachable s'.
End system.
