(* ===== verification/SupervisorInv.v ===== *)
(** * Invariants of the worker supervisor

    The invariant of every reachable state of the step relation of
    [Supervisor.v], the properties that follow from it, and the two races it
    does not exclude. *)

From S2P Require Export Supervisor.
From stdpp Require Import options.

Local Open Scope Z_scope.

(** Take the action at hand out of a sum over the agenda. *)
Ltac split_agenda f Hs :=
  match type of Hs with context [sum_list_with f (agenda ?s)] =>
    match goal with H : agenda s !! _ = Some _ |- _ => rewrite (sum_delete f _ _ _ H) in Hs end
  end.

Section invariant.
Context {V : Type}.
Variables (plan : deployment_plan) (node : Z) (timeout : option Z).
(** Whether [close] may begin while [start] is in progress; everything below
    holds of both kinds of runs. *)
Variable overlap : bool.
Hypothesis Hplan : plan_contract plan.
Implicit Types (s : system V) (u : supervisor V).

Abbreviation rc := (plan_replica_count plan).

Definition replica_ids (r : Z) : list Z :=
  match workers_for_replica plan r with Ok ws => worker_id <$> ws | Err _ => [] end.

(** [w] is the output worker of replica [r]. *)
Definition output_of (r w : Z) : Prop :=
  ∃ ws p, workers_for_replica plan r = Ok ws ∧ filter (λ w, is_output_rank w = true) ws = [p]
          ∧ worker_id p = w.

(** How many pending requests a replica has. *)
Definition pending_count (m : gmap Z (pending_request V)) (r : Z) : nat :=
  size (filter (λ kv, pr_replica kv.2 = r) m).

(** *** Who still has to resolve a future *)
Definition resolves (id : Z) (a : action V) : nat :=
  match a with AResult i _ | AExc i => one (i = id) | _ => 0%nat end.

Definition owners (s : system V) (id : Z) : nat :=
  (one (is_Some (pending (sup s) !! id)) + sum_list_with (resolves id) (agenda s))%nat.

(** *** Where the answer of a worker to a request is on its way *)
Definition action_token (w id : Z) (a : action V) : nat :=
  match a with
  | ASend i ws => one (i = id ∧ w ∈ ws)
  | ARecord w' i _ => one (w' = w ∧ i = id)
  | _ => 0%nat
  end.
Definition message_token (w id : Z) (m : Z * Z * V) : nat := one (m.1 = (w, id)).

Definition tokens (s : system V) (w id : Z) : nat :=
  (sum_list_with (action_token w id) (agenda s) + one ((w, id) ∈ owed s)
   + sum_list_with (message_token w id) (channel s))%nat.

(** Whether the request still waits for the worker. *)
Definition awaited (m : gmap Z (pending_request V)) (w id : Z) : nat :=
  match m !! id with Some p => one (w ∈ pr_remaining p) | None => 0%nat end.

(** *** The invariant *)
Record request_ok (s : system V) (id : Z) (p : pending_request V) : Prop := {
  ro_replica : 0 ≤ pr_replica p < rc ∧ requests s !! id = Some (pr_replica p);
  ro_remaining : pr_remaining p ≠ ∅ ∧ pr_remaining p ⊆ list_to_set (replica_ids (pr_replica p));
  ro_out : output_of (pr_replica p) (pr_output_worker p);
  ro_value : match pr_output p with
    | None => pr_output_worker p ∈ pr_remaining p
    | Some v => pr_output_worker p ∉ pr_remaining p ∧ (pr_output_worker p, id, v) ∈ answers s
    end;
}.

(** A value that may become the result of a request. *)
Definition right_answer (s : system V) (id : Z) (v : V) : Prop :=
  ∃ r w, requests s !! id = Some r ∧ output_of r w ∧ (w, id, v) ∈ answers s.

Definition starts (a : action V) : nat := match a with AStart => 1%nat | _ => 0%nat end.

(** Before the monitor thread exists nothing but the end of [start] and of
    [close] is left to do, and nothing was asked of a worker. *)
Record boot (s : system V) : Prop := {
  boot_agenda : ∀ a, a ∈ agenda s → a = AStart ∨ ∃ f, a = ACloseEnd f;
  boot_channel : channel s = [];
  boot_owed : owed s = ∅;
  boot_pending : pending (sup s) = ∅;
  boot_state : state (sup s) ≠ RUNNING;
}.

Record inv (s : system V) : Prop := {
  inv_running : pending (sup s) ≠ ∅ →
    state (sup s) = RUNNING ∨ overlap = true ∧ (state (sup s) = STOPPED ∨ state (sup s) = FAILED);
  inv_length : List.length (inflight (sup s)) = Z.to_nat rc;
  inv_counts : ∀ r, 0 ≤ r < rc →
    inflight (sup s) !! Z.to_nat r = Some (Z.of_nat (pending_count (pending (sup s)) r));
  inv_next : 0 ≤ next_id (sup s);
  inv_ids : ∀ id, is_Some (futures (sup s) !! id) ↔ 0 ≤ id < next_id (sup s);
  inv_requests : ∀ id, is_Some (requests s !! id) ↔ 0 ≤ id < next_id (sup s);
  inv_owners : ∀ id, owners s id = match futures (sup s) !! id with Some Running => 1 | _ => 0 end%nat;
  inv_pending : ∀ id p, pending (sup s) !! id = Some p → request_ok s id p;
  inv_tokens : state (sup s) = RUNNING → ∀ w id,
    (tokens s w id ≤ awaited (pending (sup s)) w id)%nat
    ∧ (AFail ∉ agenda s → tokens s w id = awaited (pending (sup s)) w id);
  inv_boot : monitor s = false → boot s;
  inv_starting : AStart ∈ agenda s ∨ state (sup s) = CREATED ∨ state (sup s) = STARTING →
    monitor s = false;
  inv_starts : (sum_list_with starts (agenda s) ≤ one (state (sup s) ≠ CREATED))%nat;
  inv_start : overlap = false →
    sum_list_with starts (agenda s) = one (state (sup s) = STARTING);
  inv_close : overlap = false → ∀ f, ACloseEnd f ∈ agenda s →
    state (sup s) = STOPPING ∨ state (sup s) = STOPPED ∨ state (sup s) = FAILED;
  inv_channel : ∀ m, m ∈ channel s → m ∈ answers s;
  inv_record : ∀ w id v, ARecord w id v ∈ agenda s → (w, id, v) ∈ answers s;
  inv_result : ∀ id v, AResult id v ∈ agenda s → right_answer s id v;
  inv_future : ∀ id v, futures (sup s) !! id = Some (Result v) → right_answer s id v;
}.

(** *** Plans *)
Lemma replica_ids_spec r w : w ∈ replica_ids r →
  ∃ p, head (filter (λ item, worker_id item = w) (plan_workers plan)) = Some p ∧ replica_id p = r.
Proof using Hplan.
  unfold replica_ids. destruct (workers_for_replica plan r) eqn:E; [|by intros ?%not_elem_of_nil].
  intros (p & -> & Hp)%list_elem_of_fmap. unfold workers_for_replica in E. inv_bind. apply list_elem_of_filter in Hp as [Hr Hp].
  exists p. split; [|done].
  assert (Hin : p ∈ filter (λ item, worker_id item = worker_id p) (plan_workers plan))
    by by apply list_elem_of_filter.
  pose proof (contract_unique _ Hplan) as Hnd.
  destruct (filter _ _) as [|q l] eqn:Ef; [by apply not_elem_of_nil in Hin|]. simpl. f_equal.
  assert (Hq : q ∈ filter (λ item, worker_id item = worker_id p) (plan_workers plan))
    by (rewrite Ef; by left).
  apply list_elem_of_filter in Hq as [Hqid Hq].
  apply list_elem_of_lookup in Hq as [i Hi], Hp as [j Hj].
  assert (i = j) as ->; [|congruence]. eapply NoDup_lookup; [exact Hnd| |].
  - rewrite list_lookup_fmap, Hi. simpl. by rewrite Hqid.
  - by rewrite list_lookup_fmap, Hj.
Qed.

Lemma output_of_unique r w w' : output_of r w → output_of r w' → w = w'.
Proof. intros (ws & p & H1 & H2 & <-) (ws' & p' & H1' & H2' & <-). congruence. Qed.

Lemma output_of_in r w : output_of r w → w ∈ replica_ids r.
Proof.
  intros (ws & p & Hws & Hp & <-). unfold replica_ids. rewrite Hws. apply list_elem_of_fmap_2.
  assert (p ∈ filter (λ w, is_output_rank w = true) ws) as Hin by (rewrite Hp; by left).
  by apply list_elem_of_filter in Hin as [_ ?].
Qed.

(** *** The lock regions, case by case *)
Definition new_request (now r : Z) (ws : list Z) (out : Z) : pending_request V :=
  PendingRequest r (list_to_set ws) out (Z.add now <$> timeout) None.

Definition submitted (now r : Z) (ws : list Z) (out : Z) u : supervisor V :=
  Supervisor (state u) (failed u) (<[next_id u := new_request now r ws out]> (pending u))
    (next_id u + 1) (bump r 1 (inflight u)) (handles u) (<[next_id u := Running]> (futures u)).

Lemma submit_cases now r u u' id ws : submit_region plan timeout now r u = Ok (u', (id, ws)) →
  ∃ out, state u = RUNNING ∧ 0 ≤ r < rc ∧ id = next_id u ∧ ws = replica_ids r ∧ output_of r out
    ∧ u' = submitted now r ws out u.
Proof using Hplan.
  unfold submit_region. case_bool_decide as Hst; [|done]. simpl. intros H. inv_bind.
  match goal with H : workers_for_replica plan r = Ok ?l |- _ => rename H into Hws; rename l into pl end.
  assert (Hr : 0 ≤ r < rc).
  { unfold workers_for_replica in Hws. inv_bind.
    match goal with H : _ && _ = true |- _ => apply andb_true_iff in H as [? ?] end. lia. }
  destruct (contract_output _ Hplan r Hr) as (ws' & Hws' & p & Hp & Hf).
  rewrite Hws in Hws'. injection Hws' as <-.
  match goal with H : of_option _ _ = Ok _ |- _ => rewrite Hf in H; simpl in H; injection H as <- end.
  assert (Hids : worker_id <$> pl = replica_ids r) by (unfold replica_ids; by rewrite Hws).
  exists (worker_id p). split_and!; try (done || lia). by exists pl, p.
Qed.

Definition after_answer (w : Z) (v : V) (p : pending_request V) : pending_request V :=
  PendingRequest (pr_replica p) (pr_remaining p ∖ {[w]}) (pr_output_worker p) (pr_deadline p)
    (if w =? pr_output_worker p then Some v else pr_output p).

(** Under the invariant a result is unexpected only when its request is not
    waiting for the worker; "wrong replica" and "completed without output
    worker" do not occur. *)
Lemma record_cases s w id v u' out : inv s → record_result plan w id v (sup s) = (u', out) →
  (out = RecError ∧ u' = sup s ∧ awaited (pending (sup s)) w id = 0%nat)
  ∨ ∃ p, pending (sup s) !! id = Some p ∧ w ∈ pr_remaining p ∧
      ((pr_remaining p ∖ {[w]} ≠ ∅ ∧ out = RecNothing
        ∧ u' = set_pending (<[id := after_answer w v p]> (pending (sup s))) (inflight (sup s)) (sup s))
       ∨ (pr_remaining p ∖ {[w]} = ∅ ∧ ∃ v', pr_output (after_answer w v p) = Some v'
          ∧ out = RecComplete v'
          ∧ u' = set_pending (delete id (pending (sup s)))
                   (bump (pr_replica p) (-1) (inflight (sup s))) (sup s))).
Proof using Hplan.
  intros Hinv. unfold record_result, awaited.
  destruct (pending (sup s) !! id) as [p|] eqn:Hp; [|intros [= <- <-]; by left].
  case_bool_decide as Hw; simpl.
  2: { intros [= <- <-]. left. split_and!; [done|done|]. by apply one_false. }
  destruct (inv_pending _ Hinv _ _ Hp) as [_ [_ Hsub] _ Hval].
  destruct (replica_ids_spec (pr_replica p) w) as (pl & -> & Hpl); [set_solver|].
  rewrite (proj2 (Z.eqb_eq _ _) Hpl). simpl. right. exists p. split_and!; [done|done|].
  fold (after_answer w v p). change (pr_remaining p ∖ {[w]}) with (pr_remaining (after_answer w v p)).
  case_bool_decide as Hrem.
  - right. split; [done|]. simpl in Hrem.
    assert (∃ v', pr_output (after_answer w v p) = Some v') as [v' Hv'].
    { simpl. destruct (Z.eqb_spec w (pr_output_worker p)) as [|Hne]; [by eexists|].
      destruct (pr_output p); [by eexists|]. set_solver. }
    exists v'. simpl in Hv'. simpl in H. rewrite Hv' in H. split_and!; [done|congruence..].
  - left. injection H as <- <-. done.
Qed.

(** *** The steps, case by case *)
Inductive trans (s : system V) : system V → Prop :=
  | t_submit now r out :
      state (sup s) = RUNNING → 0 ≤ r < rc → output_of r out →
      trans s (System (submitted now r (replica_ids r) out (sup s))
                 (agenda s ++ [ASend (next_id (sup s)) (replica_ids r)]) (owed s) (channel s)
                 (monitor s) (answers s) (<[next_id (sup s) := r]> (requests s)))
  | t_send i id ws :
      agenda s !! i = Some (ASend id ws) →
      trans s (set_owed (send_to id ws s) (delete i (agenda s)) s)
  | t_send_fail i id ws k :
      agenda s !! i = Some (ASend id ws) →
      trans s (set_owed (send_to id (take k ws) s) (delete i (agenda s) ++ [AFail]) s)
  | t_unexpected i w id v :
      agenda s !! i = Some (ARecord w id v) → awaited (pending (sup s)) w id = 0%nat →
      trans s (with_sup (sup s) (delete i (agenda s) ++ [AFail]) s)
  | t_partial i w id v p :
      agenda s !! i = Some (ARecord w id v) → pending (sup s) !! id = Some p →
      w ∈ pr_remaining p → pr_remaining p ∖ {[w]} ≠ ∅ →
      trans s (with_sup (set_pending (<[id := after_answer w v p]> (pending (sup s)))
                           (inflight (sup s)) (sup s)) (delete i (agenda s)) s)
  | t_complete i w id v p v' :
      agenda s !! i = Some (ARecord w id v) → pending (sup s) !! id = Some p →
      w ∈ pr_remaining p → pr_remaining p ∖ {[w]} = ∅ →
      pr_output (after_answer w v p) = Some v' →
      trans s (with_sup (set_pending (delete id (pending (sup s)))
                           (bump (pr_replica p) (-1) (inflight (sup s))) (sup s))
                 (delete i (agenda s) ++ [AResult id v']) s)
  | t_already_failed i :
      agenda s !! i = Some AFail → state (sup s) = FAILED ∨ state (sup s) = STOPPED →
      trans s (with_sup (sup s) (delete i (agenda s)) s)
  | t_fail i :
      agenda s !! i = Some AFail → state (sup s) ≠ FAILED → state (sup s) ≠ STOPPED →
      trans s (with_sup (set_state FAILED (set_failed true (set_pending ∅ (no_requests plan) (sup s))))
                 (delete i (agenda s) ++ (AExc <$> (map_to_list (pending (sup s))).*1)) s)
  | t_result i id v :
      agenda s !! i = Some (AResult id v) → futures (sup s) !! id = Some Running →
      trans s (with_sup (set_future id (Result v) (sup s)) (delete i (agenda s)) s)
  | t_exc i id :
      agenda s !! i = Some (AExc id) →
      trans s (with_sup (fail_future id (sup s)) (delete i (agenda s)) s)
  | t_close_end i f :
      agenda s !! i = Some (ACloseEnd f) →
      trans s (with_sup (close_end (sup s)) (delete i (agenda s)) s)
  | t_start :
      state (sup s) = CREATED →
      trans s (with_sup (set_state STARTING (sup s)) (agenda s ++ [AStart]) s)
  | t_start_ok i :
      agenda s !! i = Some AStart →
      trans s (System (start_ok (placements plan node) (sup s)) (delete i (agenda s)) (owed s)
                 (channel s) true (answers s) (requests s))
  | t_start_fail i :
      agenda s !! i = Some AStart →
      trans s (with_sup (start_failed (sup s)) (delete i (agenda s)) s)
  | t_answer w id v :
      (w, id) ∈ owed s →
      trans s (System (sup s) (agenda s) (owed s ∖ {[(w, id)]}) (channel s ++ [(w, id, v)])
                 (monitor s) (answers s ++ [(w, id, v)]) (requests s))
  | t_receive j w id v :
      channel s !! j = Some (w, id, v) → monitor s = true →
      trans s (System (sup s) (agenda s ++ [ARecord w id v]) (owed s) (delete j (channel s))
                 (monitor s) (answers s) (requests s))
  | t_drop j m :
      channel s !! j = Some m → state (sup s) = STOPPING ∨ state (sup s) = STOPPED →
      trans s (System (sup s) (agenda s) (owed s) (delete j (channel s))
                 (monitor s) (answers s) (requests s))
  | t_fault :
      monitor s = true → trans s (with_sup (sup s) (agenda s ++ [AFail]) s)
  | t_close_early :
      state (sup s) = STOPPED ∨ state (sup s) = CREATED →
      trans s (with_sup (set_state STOPPED (sup s)) (agenda s) s)
  | t_close f :
      state (sup s) ≠ STOPPED → state (sup s) ≠ CREATED →
      (overlap = false → state (sup s) ≠ STARTING) →
      f = bool_decide (state (sup s) = FAILED) →
      trans s (with_sup (set_state (if f then FAILED else STOPPING)
                           (set_pending ∅ (no_requests plan) (sup s)))
                 (agenda s ++ (AExc <$> (map_to_list (pending (sup s))).*1) ++ [ACloseEnd f]) s)
  | t_shutdown_failed i :
      agenda s !! i = Some (ACloseEnd false) →
      trans s (with_sup (set_failed true (sup s)) (agenda s) s).

Lemma supervisor_eta u :
  Supervisor (state u) (failed u) (pending u) (next_id u) (inflight u) (handles u) (futures u) = u.
Proof. by destruct u. Qed.

Lemma exec_trans s e s' : inv s → exec plan node timeout overlap e s = Some s' → trans s s'.
Proof using Hplan.
  intros Hinv. destruct e as [now r|i|i k| |i|i|w id v|j| |now| |i]; simpl.
  - destruct (submit_region plan timeout now r (sup s)) as [[u' [id ws]]|] eqn:E; [|done].
    apply submit_cases in E as (out & Hst & Hr & -> & -> & Hout & ->).
    intros [= <-]. by eapply (t_submit s now r out).
  - destruct (agenda s !! i) as [a|] eqn:Ha; [|done]. simpl. destruct a; simpl.
    + intros [= <-]. by eapply t_send.
    + destruct (record_result plan w id payload (sup s)) as [u' out] eqn:E. intros [= <-].
      destruct (record_cases _ _ _ _ _ _ Hinv E)
        as [(-> & -> & Haw)|(p & Hp & Hw & [(Hr & -> & ->)|(Hr & v' & Hv & -> & ->)])].
      * by eapply t_unexpected.
      * rewrite app_nil_r. by eapply t_partial.
      * by eapply t_complete.
    + unfold mark_failed. case_bool_decide as Hst; intros [= <-].
      * simpl. rewrite app_nil_r. by eapply t_already_failed.
      * eapply t_fail; [done|tauto|tauto].
    + unfold set_result. destruct (futures (sup s) !! id) as [[]|] eqn:Hf; simpl; try done.
      intros [= <-]. by eapply t_result.
    + intros [= <-]. by eapply t_exc.
    + intros [= <-]. by eapply t_close_end.
    + done.
  - destruct (agenda s !! i) as [[]|] eqn:Ha; try done. intros [= <-].
    by eapply t_send_fail.
  - unfold start_begin. case_bool_decide as Hst; simpl; [|done]. intros [= <-]. by apply t_start.
  - destruct (agenda s !! i) as [[]|] eqn:Ha; try done. intros [= <-]. by eapply t_start_ok.
  - destruct (agenda s !! i) as [[]|] eqn:Ha; try done. intros [= <-]. by eapply t_start_fail.
  - case_bool_decide; [|done]. intros [= <-]. by apply t_answer.
  - destruct (channel s !! j) as [[[w id] v]|] eqn:Hj; [|done].
    destruct (monitor s) eqn:Hm; [|done]. intros [= <-]. rewrite <-Hm at 1.
    unfold serving. case_bool_decide; simpl; [by eapply t_drop|by eapply t_receive].
  - destruct (monitor s) eqn:Hm; [|done]. intros [= <-]. by apply t_fault.
  - destruct (monitor s) eqn:Hm; [|done]. simpl. case_match; [|done]. intros [= <-]. by apply t_fault.
  - destruct (negb overlap && _) eqn:Hov; [done|].
    assert (Hst : overlap = false → state (sup s) ≠ STARTING).
    { intros ->. simpl in Hov. by apply bool_decide_eq_false in Hov. }
    clear Hov.
    unfold close_begin. case_bool_decide as Hst2; intros [= <-].
    + by apply t_close_early.
    + pose proof (t_close s (bool_decide (state (sup s) = FAILED))) as H.
      case_bool_decide as Hf; [|apply H; tauto].
      replace (set_pending ∅ (no_requests plan) (sup s))
        with (set_state FAILED (set_pending ∅ (no_requests plan) (sup s))); [apply H; tauto|].
      unfold set_state, set_pending. simpl. by rewrite Hf.
  - destruct (agenda s !! i) as [[]|] eqn:Ha; try done. destruct force; [done|].
    intros [= <-]. by eapply t_shutdown_failed.
Qed.

(** *** Lifecycle *)
Lemma start_boot s i : inv s → agenda s !! i = Some AStart → boot s.
Proof using Hplan.
  intros Hinv Hi. apply (inv_boot _ Hinv), (inv_starting _ Hinv). left. by eapply list_elem_of_lookup_2.
Qed.

Lemma start_state s i : overlap = false → inv s → agenda s !! i = Some AStart →
  state (sup s) = STARTING.
Proof using Hplan.
  intros Ho Hinv Hi. pose proof (inv_start _ Hinv Ho) as Hs. apply list_elem_of_lookup_2 in Hi.
  apply (sum_pos starts) in Hi. simpl in Hi. unfold one, starts in *. case_decide; [done|lia].
Qed.

Lemma close_state s i f : overlap = false → inv s → agenda s !! i = Some (ACloseEnd f) →
  pending (sup s) = ∅.
Proof using Hplan.
  intros Ho Hinv Hi. apply list_elem_of_lookup_2 in Hi. pose proof (inv_close _ Hinv Ho _ Hi) as Hc.
  destruct (decide (pending (sup s) = ∅)) as [|Hne]; [done|].
  destruct (inv_running _ Hinv Hne) as [|[? _]], Hc as [Hc|[Hc|Hc]]; congruence.
Qed.

Lemma elem_pending s id p : pending (sup s) !! id = Some p → pending (sup s) ≠ ∅.
Proof using Hplan. intros Hp Hn. rewrite Hn in Hp. by rewrite lookup_empty in Hp. Qed.

Lemma fail_future_fields id u :
  state (fail_future id u) = state u ∧ pending (fail_future id u) = pending u
  ∧ inflight (fail_future id u) = inflight u ∧ next_id (fail_future id u) = next_id u.
Proof using Hplan. unfold fail_future. by destruct (futures u !! id) as [[]|]. Qed.

Lemma step_running s s' : inv s → trans s s' → pending (sup s') ≠ ∅ →
  state (sup s') = RUNNING ∨ overlap = true ∧ (state (sup s') = STOPPED ∨ state (sup s') = FAILED).
Proof using Hplan.
  intros Hinv Ht. pose proof (inv_running _ Hinv) as Hr.
  destruct Ht; simpl; try done; try by (intros; apply Hr; eauto using elem_pending).
  - by left.
  - destruct (fail_future_fields id (sup s)) as (-> & -> & _). done.
  - intros Hne. destruct overlap eqn:Ho; [|by rewrite (close_state _ _ _ Ho Hinv H) in Hne].
    right. split; [done|]. destruct (failed (sup s)); auto.
  - intros Hne. apply Hr in Hne as [Hne|[_ [Hne|Hne]]]; congruence.
  - intros Hne. by rewrite (boot_pending _ (start_boot _ _ Hinv H)) in Hne.
  - intros Hne. by rewrite (boot_pending _ (start_boot _ _ Hinv H)) in Hne.
  - intros Hne. apply Hr in Hne as [Hne|[Ho _]]; [destruct H; congruence|auto].
Qed.

Lemma close_end_state u : state (close_end u) = FAILED ∨ state (close_end u) = STOPPED.
Proof using Hplan. unfold close_end. simpl. destruct (failed u); auto. Qed.

Lemma exc_starts l : sum_list_with starts (AExc <$> l) = 0%nat.
Proof using Hplan. rewrite sum_fmap. by apply sum_zero. Qed.

Lemma starts_kept s s' : inv s → trans s s' →
  (sum_list_with starts (agenda s') ≤ one (state (sup s') ≠ CREATED))%nat.
Proof using Hplan.
  intros Hinv Ht. pose proof (inv_starts _ Hinv) as Hs.
  assert (Hst : (one (state (sup s) ≠ CREATED) ≤ one (state (sup s') ≠ CREATED))%nat).
  { destruct (decide (state (sup s') = CREATED)) as [Hc|Hc]; [|rewrite (one_true (state (sup s') ≠ _)) by done; apply one_le].
    rewrite !one_false; [done|tauto|]. intros Hn. apply Hn. destruct Ht; simpl in *; try done.
    - by rewrite (proj1 (fail_future_fields _ (sup s))) in Hc.
    - by destruct (failed (sup s)).
    - by destruct f. }
  revert Hst. destruct Ht; simpl; intros Hst; rewrite ?sum_app, ?exc_starts; simpl;
    try split_agenda starts Hs; simpl in *; try lia.
  - rewrite H in Hs. rewrite (one_false (CREATED ≠ CREATED)) in Hs by tauto. rewrite one_true by done. lia.
  - rewrite (sum_delete starts _ _ _ H). simpl. lia.
Qed.

Lemma step_start s s' : overlap = false → inv s → trans s s' →
  sum_list_with starts (agenda s') = one (state (sup s') = STARTING).
Proof using Hplan.
  intros Ho Hinv Ht. pose proof (inv_start _ Hinv Ho) as Hs.
  assert (Hea : ∀ i a, agenda s !! i = Some a → state (sup s) = STARTING →
    a = AStart ∨ ∃ f, a = ACloseEnd f).
  { intros i a Hi Hst. eapply boot_agenda; [|by eapply list_elem_of_lookup_2].
    apply (inv_boot _ Hinv), (inv_starting _ Hinv). auto. }
  destruct Ht; simpl; rewrite ?sum_app, ?exc_starts; try exact Hs; try split_agenda starts Hs; simpl in *;
    rewrite ?Nat.add_0_r; try exact Hs; try (rewrite Hs; apply one_iff; naive_solver congruence).
  - by rewrite Hs, (proj1 (fail_future_fields id (sup s))).
  - rewrite Hs. apply one_iff. pose proof (inv_close _ Hinv Ho f) as Hc.
    apply list_elem_of_lookup_2 in H. specialize (Hc H).
    destruct (failed (sup s)), Hc as [Hc|[Hc|Hc]]; rewrite Hc; naive_solver.
  - rewrite Hs, H. done.
  - pose proof (one_le (state (sup s) = STARTING)). rewrite one_false by done. lia.
  - pose proof (one_le (state (sup s) = STARTING)). rewrite one_false by done. lia.
  - rewrite Hs. apply one_iff. destruct f; naive_solver.
Qed.

Lemma step_close s s' f : overlap = false → inv s → trans s s' → ACloseEnd f ∈ agenda s' →
  state (sup s') = STOPPING ∨ state (sup s') = STOPPED ∨ state (sup s') = FAILED.
Proof using Hplan.
  intros Ho Hinv Ht Hf. pose proof (inv_close _ Hinv Ho) as Hc.
  assert (Hexc : ∀ l, ACloseEnd f ∉ (AExc <$> l : list (action V)))
    by (intros l (? & ? & _)%list_elem_of_fmap; done).
  destruct Ht; simpl in *; rewrite ?elem_of_app, ?list_elem_of_singleton in Hf;
    try (apply (Hc f); naive_solver eauto using elem_delete).
  - naive_solver.
  - rewrite (proj1 (fail_future_fields id (sup s))). apply (Hc f). by eapply elem_delete.
  - destruct (failed (sup s)); naive_solver.
  - assert (state (sup s) = STOPPING ∨ state (sup s) = STOPPED ∨ state (sup s) = FAILED)
      by (apply (Hc f); naive_solver). naive_solver congruence.
  - pose proof (start_state _ _ Ho Hinv H) as Hst. apply elem_delete in Hf. apply Hc in Hf.
    naive_solver congruence.
  - naive_solver.
  - naive_solver.
  - destruct f0; naive_solver.
Qed.

(** The monitor thread exists only once the start has ended. *)
Lemma step_starting s s' : inv s → trans s s' →
  AStart ∈ agenda s' ∨ state (sup s') = CREATED ∨ state (sup s') = STARTING → monitor s' = false.
Proof using Hplan.
  intros Hinv Ht. pose proof (inv_starting _ Hinv) as Hm. pose proof (inv_starts _ Hinv) as H1.
  assert (Hexc : ∀ l, AStart ∉ (AExc <$> l : list (action V)))
    by (intros l (? & ? & _)%list_elem_of_fmap; done).
  assert (Hdel : ∀ i, AStart ∈ delete i (agenda s) → AStart ∈ agenda s)
    by (intros i; apply elem_delete).
  destruct Ht; simpl in *; rewrite ?elem_of_app, ?list_elem_of_singleton;
    rewrite ?(proj1 (fail_future_fields _ (sup s)));
    intros Hc; repeat match type of Hc with _ ∨ _ => destruct Hc as [Hc|Hc] end; try discriminate Hc;
    try (by apply Hexc in Hc); try (by apply Hm; eauto).
  - by destruct (failed (sup s)).
  - by destruct (failed (sup s)).
  - apply (sum_pos starts) in Hc. simpl in Hc.
    rewrite (sum_delete starts _ _ _ H) in H1. simpl in H1.
    pose proof (one_le (state (sup s) ≠ CREATED)). lia.
  - by destruct f.
  - by destruct f.
Qed.

Lemma step_boot s s' : inv s → trans s s' → monitor s' = false → boot s'.
Proof using Hplan.
  intros Hinv Ht Hm'.
  assert (Hm : monitor s = false) by by destruct Ht.
  pose proof (inv_boot _ Hinv Hm) as Hb. pose proof Hb as [Ha Hc Ho Hp Hs].
  assert (Hat : ∀ i a, agenda s !! i = Some a → a = AStart ∨ ∃ f, a = ACloseEnd f)
    by (intros; by eapply Ha, list_elem_of_lookup_2).
  destruct Ht; simpl in *; try congruence;
    try (destruct (Hat _ _ ltac:(eassumption)) as [?|[? ?]]; congruence).
  - split; simpl; try done; [intros a Hin; eapply Ha, elem_delete, Hin|by destruct (failed (sup s))].
  - split; simpl; try done. intros a [Hin| ->%list_elem_of_singleton]%elem_of_app; auto.
  - split; simpl; try done. intros a Hin. eapply Ha, elem_delete, Hin.
  - rewrite Ho in *. set_solver.
  - by rewrite Hc in *.
  - split; simpl; done.
  - rewrite Hp, map_to_list_empty. split; simpl; try done; [|by destruct f].
    intros a [Hin| ->%list_elem_of_singleton]%elem_of_app; [auto|right; by eexists].
  - split; simpl; done.
Qed.

(** *** Requests *)
Lemma pending_count_delete m id p r : m !! id = Some p →
  pending_count m r = (one (pr_replica p = r) + pending_count (delete id m) r)%nat.
Proof using Hplan.
  intros Hp. unfold pending_count, one. rewrite map_filter_delete. case_decide as Hr.
  - rewrite map_size_delete_Some; [|exists p; by apply map_lookup_filter_Some].
    assert (size (filter (λ kv, pr_replica kv.2 = r) m) ≠ 0%nat); [|lia].
    apply map_size_non_empty_iff. intros He.
    assert (filter (λ kv : Z * pending_request V, pr_replica kv.2 = r) m !! id = Some p) as Hf
      by by apply map_lookup_filter_Some.
    rewrite He in Hf. by rewrite lookup_empty in Hf.
  - rewrite delete_id; [done|]. apply map_lookup_filter_None. right. naive_solver.
Qed.

Lemma pending_count_insert m id p r :
  pending_count (<[id := p]> m) r = (one (pr_replica p = r) + pending_count (delete id m) r)%nat.
Proof using Hplan.
  rewrite (pending_count_delete _ id p) by apply lookup_insert_eq. by rewrite delete_insert_eq.
Qed.

Lemma pending_count_new m id p r : m !! id = None →
  pending_count (<[id := p]> m) r = (one (pr_replica p = r) + pending_count m r)%nat.
Proof using Hplan. intros Hn. by rewrite pending_count_insert, delete_id. Qed.

Lemma pending_count_update m id p p' r : m !! id = Some p → pr_replica p' = pr_replica p →
  pending_count (<[id := p']> m) r = pending_count m r.
Proof using Hplan.
  intros Hp Hr. rewrite pending_count_insert, (pending_count_delete m id p r Hp). by rewrite Hr.
Qed.

(** The counters agree with the pending requests. *)
Definition counts_ok u : Prop :=
  List.length (inflight u) = Z.to_nat rc ∧ ∀ r, 0 ≤ r < rc →
    inflight u !! Z.to_nat r = Some (Z.of_nat (pending_count (pending u) r)).

Lemma counts_bump u m d r0 : counts_ok u → 0 ≤ r0 < rc →
  (∀ r, 0 ≤ r < rc → Z.of_nat (pending_count m r)
    = Z.of_nat (pending_count (pending u) r) + if decide (r = r0) then d else 0) →
  ∀ st f n h fs, counts_ok (Supervisor st f m n (bump r0 d (inflight u)) h fs).
Proof using Hplan.
  intros [Hl Hc] Hr0 Hm st f n h fs. unfold bump. split; simpl; [by rewrite length_alter|].
  intros r Hr. rewrite (Hm r Hr). destruct (decide (r = r0)) as [->|Hne].
  - rewrite list_lookup_alter_eq, (Hc r0 Hr0). simpl. f_equal. lia.
  - rewrite list_lookup_alter_ne by lia. rewrite (Hc r Hr). f_equal. lia.
Qed.

Lemma counts_reset st f n h fs : counts_ok (Supervisor st f ∅ n (no_requests plan) h fs).
Proof using Hplan.
  unfold no_requests. split; simpl; [by rewrite length_replicate|]. intros r Hr.
  rewrite lookup_replicate_2 by lia. done.
Qed.

Lemma step_counts s s' : inv s → trans s s' → counts_ok (sup s').
Proof using Hplan.
  intros Hinv Ht.
  assert (Hc : counts_ok (sup s)) by (split; [apply (inv_length _ Hinv)|apply (inv_counts _ Hinv)]).
  destruct Ht; simpl; try exact Hc; try apply counts_reset.
  - apply counts_bump; [done|done|]. intros r' Hr'. rewrite pending_count_new.
    + unfold one. simpl. repeat case_decide; subst; lia || congruence.
    + pose proof (inv_pending _ Hinv (next_id (sup s))) as Hp.
      destruct (pending (sup s) !! _) as [p|]; [|done].
      destruct (Hp p eq_refl) as [[_ Hreq] _ _ _].
      assert (is_Some (requests s !! next_id (sup s))) as Hid%(inv_requests _ Hinv) by eauto. lia.
  - split; [apply Hc|]. intros r Hr. simpl. rewrite (pending_count_update _ _ p) by done.
    by apply Hc.
  - destruct (inv_pending _ Hinv _ _ H0) as [[Hr _] _ _ _].
    apply counts_bump; [done|done|]. intros r Hr'.
    rewrite (pending_count_delete (pending (sup s)) id p r H0). unfold one.
    repeat case_decide; subst; lia || congruence.
  - destruct (fail_future_fields id (sup s)) as (_ & H1 & H2 & _). unfold counts_ok.
    by rewrite H1, H2.
Qed.

Lemma next_unused s : inv s → futures (sup s) !! next_id (sup s) = None
  ∧ pending (sup s) !! next_id (sup s) = None.
Proof using Hplan.
  intros Hinv. split; apply eq_None_not_Some.
  - intros H%(inv_ids _ Hinv). lia.
  - intros [p Hp]. destruct (inv_pending _ Hinv _ _ Hp) as [[_ Hr] _ _ _].
    assert (is_Some (requests s !! next_id (sup s))) as H%(inv_requests _ Hinv) by eauto. lia.
Qed.

Lemma is_Some_insert_iff {A} (m : gmap Z A) n x id next :
  (∀ id, is_Some (m !! id) ↔ 0 ≤ id < next) → 0 ≤ next → n = next →
  is_Some (<[n := x]> m !! id) ↔ 0 ≤ id < next + 1.
Proof using Hplan.
  intros Hm Hn ->. destruct (decide (id = next)) as [->|Hne].
  - rewrite lookup_insert_eq. split; [lia|by eexists].
  - rewrite lookup_insert_ne by done. rewrite Hm. lia.
Qed.

Lemma is_Some_update_iff {A} (m : gmap Z A) n x id : is_Some (m !! n) →
  is_Some (<[n := x]> m !! id) ↔ is_Some (m !! id).
Proof using Hplan.
  intros Hn. destruct (decide (id = n)) as [->|Hne].
  - rewrite lookup_insert_eq. split; [done|by eexists].
  - by rewrite lookup_insert_ne.
Qed.

Lemma step_ids s s' : inv s → trans s s' →
  0 ≤ next_id (sup s')
  ∧ (∀ id, is_Some (futures (sup s') !! id) ↔ 0 ≤ id < next_id (sup s'))
  ∧ (∀ id, is_Some (requests s' !! id) ↔ 0 ≤ id < next_id (sup s')).
Proof using Hplan.
  intros Hinv Ht. pose proof (inv_next _ Hinv) as Hn. pose proof (inv_ids _ Hinv) as Hi.
  pose proof (inv_requests _ Hinv) as Hr.
  destruct Ht; simpl; try (split_and!; done).
  - split_and!; [lia| |]; intros id'; by apply is_Some_insert_iff.
  - split_and!; [done| |done]. intros id'. rewrite is_Some_update_iff; [apply Hi|by eexists].
  - unfold fail_future. destruct (futures (sup s) !! id) as [[]|] eqn:E; simpl; try (split_and!; done).
    split_and!; [done| |done]. intros id'. rewrite is_Some_update_iff; [apply Hi|by eexists].
Qed.

(** *** One owner for every running future *)
Lemma sum_keys m id : sum_list_with (resolves id) (AExc <$> (map_to_list m).*1)
  = one (is_Some (m !! id : option (pending_request V))).
Proof using Hplan.
  rewrite sum_fmap. pose proof (NoDup_fst_map_to_list m) as Hnd.
  rewrite (one_iff (is_Some (m !! id)) (id ∈ (map_to_list m).*1)).
  2: { rewrite list_elem_of_fmap. split.
       - intros [x Hx]. exists (id, x). split; [done|]. by apply elem_of_map_to_list.
       - intros ([k x] & -> & Hx%elem_of_map_to_list). by eexists. }
  change (λ x, resolves id (AExc x)) with (λ x : Z, one (x = id)).
  induction Hnd as [|k l Hk _ IH]; [done|]. simpl. rewrite IH. unfold one.
  repeat case_decide; set_solver.
Qed.

Definition is_running (f : option (future V)) : nat :=
  match f with Some Running => 1%nat | _ => 0%nat end.

Lemma owner_running s i id a : inv s → agenda s !! i = Some a → resolves id a = 1%nat →
  futures (sup s) !! id = Some Running ∧ pending (sup s) !! id = None
  ∧ sum_list_with (resolves id) (delete i (agenda s)) = 0%nat.
Proof using Hplan.
  intros Hinv Hi Ha. pose proof (inv_owners _ Hinv id) as Ho. unfold owners in Ho.
  rewrite (sum_delete _ _ _ _ Hi), Ha in Ho.
  destruct (futures (sup s) !! id) as [[]|] eqn:E; try lia.
  split_and!; [done| |lia]. apply eq_None_not_Some. intros Hs. rewrite one_true in Ho by done. lia.
Qed.

Lemma step_owners s s' id : inv s → trans s s' →
  owners s' id = is_running (futures (sup s') !! id).
Proof using Hplan.
  intros Hinv Ht. pose proof (inv_owners _ Hinv id) as Ho.
  change (owners s id = is_running (futures (sup s) !! id)) in Ho.
  unfold owners in *. destruct Ht as
    [now r out Hst Hr Hout|i id0 ws Hi|i id0 ws k Hi|i w id0 v Hi Haw|i w id0 v p Hi Hp Hw Hrem
    |i w id0 v p v' Hi Hp Hw Hrem Hv|i Hi Hst|i Hi Hst Hst2|i id0 v Hi Hf|i id0 Hi|i f Hi|Hst|i Hi|i Hi
    |w id0 v Hin|j w id0 v Hj Hm|j m Hj Hst|Hm|Hst|f Hst Hst2 Hst3 Hf|i Hi]; simpl;
    rewrite ?sum_app, ?sum_keys; simpl; try exact Ho; try split_agenda (resolves id) Ho; simpl in Ho;
    rewrite ?Nat.add_0_r; try exact Ho; try (rewrite Ho; done).
  - destruct (next_unused _ Hinv) as [Hnf Hnp]. destruct (decide (id = next_id (sup s))) as [->|Hne].
    + rewrite !lookup_insert_eq. rewrite Hnf, Hnp in Ho. simpl in *. lia.
    + by rewrite !lookup_insert_ne by done.
  - rewrite (one_iff _ (is_Some (pending (sup s) !! id))); [done|].
    apply is_Some_update_iff. by eexists.
  - destruct (decide (id0 = id)) as [->|Hne].
    + rewrite lookup_delete_eq, (one_false (is_Some None)) by by intros [].
      rewrite (one_true (id = id)) by done. rewrite Hp, one_true in Ho by by eexists. lia.
    + rewrite lookup_delete_ne, (one_false (id0 = id)) by done. lia.
  - rewrite lookup_empty, (one_false (is_Some None)) by by intros []. lia.
  - destruct (decide (id0 = id)) as [->|Hne].
    + destruct (owner_running _ _ id _ Hinv Hi) as (_ & -> & ->); [by apply one_true|].
      by rewrite lookup_insert_eq.
    + rewrite lookup_insert_ne by done. rewrite (one_false (id0 = id)) in Ho by done. lia.
  - destruct (fail_future_fields id0 (sup s)) as (_ & -> & _).
    destruct (decide (id0 = id)) as [->|Hne].
    + destruct (owner_running _ _ id _ Hinv Hi) as (Hf & -> & ->); [by apply one_true|].
      unfold fail_future. rewrite Hf. simpl. by rewrite lookup_insert_eq.
    + rewrite (one_false (id0 = id)) in Ho by done. unfold fail_future.
      destruct (futures (sup s) !! id0) as [[]|]; simpl; [|lia..].
      rewrite lookup_insert_ne by done. lia.
  - rewrite lookup_empty, (one_false (is_Some None)) by by intros []. lia.
Qed.

(** *** Requests and values *)
Lemma request_ok_mono s s' id p : requests s' !! id = requests s !! id →
  (∀ m, m ∈ answers s → m ∈ answers s') → request_ok s id p → request_ok s' id p.
Proof using Hplan.
  intros Hr Ha [H1 H2 H3 H4]. split; [by rewrite Hr|done|done|].
  destruct (pr_output p); [|done]. naive_solver.
Qed.

Lemma right_answer_mono s s' id v : requests s' !! id = requests s !! id →
  (∀ m, m ∈ answers s → m ∈ answers s') → right_answer s id v → right_answer s' id v.
Proof using Hplan. intros Hr Ha (r & w & H1 & H2 & H3). exists r, w. rewrite Hr. auto. Qed.

Lemma after_answer_ok s id p w v : request_ok s id p → (w, id, v) ∈ answers s →
  pr_remaining p ∖ {[w]} ≠ ∅ → request_ok s id (after_answer w v p).
Proof using Hplan.
  intros [H1 H2 H3 H4] Ha Hne. split; simpl; [done|split; [done|set_solver]|done|].
  destruct (Z.eqb_spec w (pr_output_worker p)) as [->|Hw]; [set_solver|].
  destruct (pr_output p); set_solver.
Qed.

Lemma complete_right s id p w v v' : request_ok s id p → (w, id, v) ∈ answers s →
  pr_output (after_answer w v p) = Some v' → right_answer s id v'.
Proof using Hplan.
  intros [[_ H1] _ H3 H4] Ha Hv. exists (pr_replica p), (pr_output_worker p).
  split_and!; [done|done|]. simpl in Hv. destruct (Z.eqb_spec w (pr_output_worker p)) as [->|Hw].
  - congruence.
  - rewrite Hv in H4. apply H4.
Qed.

Lemma replica_output r : 0 ≤ r < rc → ∃ w, w ∈ replica_ids r.
Proof using Hplan.
  intros Hr. destruct (contract_output _ Hplan r Hr) as (ws & Hws & w & Hw & _).
  exists (worker_id w). unfold replica_ids. rewrite Hws. by apply list_elem_of_fmap_2.
Qed.

Lemma step_pending s s' id p : inv s → trans s s' → pending (sup s') !! id = Some p →
  request_ok s' id p.
Proof using Hplan.
  intros Hinv Ht Hp'. pose proof (inv_pending _ Hinv id) as Hp.
  destruct Ht; simpl in *; try (by rewrite lookup_empty in Hp');
    try (by eapply request_ok_mono; [| |apply Hp]).
  - destruct (decide (id = next_id (sup s))) as [->|Hne].
    + rewrite lookup_insert_eq in Hp'. injection Hp' as <-.
      destruct (replica_output r) as [w Hw]; [done|]. split; simpl.
      * by rewrite lookup_insert_eq.
      * set_solver.
      * done.
      * apply elem_of_list_to_set. by apply output_of_in.
    + rewrite lookup_insert_ne in Hp' by done.
      eapply request_ok_mono; [| |by apply Hp]; [simpl; by rewrite lookup_insert_ne|done].
  - destruct (decide (id0 = id)) as [->|Hne].
    + rewrite lookup_insert_eq in Hp'. injection Hp' as <-.
      apply (request_ok_mono s); [done|done|]. apply after_answer_ok; [by apply Hp| |done].
      eapply (inv_record _ Hinv). by eapply list_elem_of_lookup_2.
    + rewrite lookup_insert_ne in Hp' by done. by eapply request_ok_mono; [| |apply Hp].
  - apply lookup_delete_Some in Hp' as [_ Hp']. by eapply request_ok_mono; [| |apply Hp].
  - destruct (fail_future_fields id0 (sup s)) as (_ & Hpe & _). rewrite Hpe in Hp'.
    by eapply request_ok_mono; [| |apply Hp].
  - eapply request_ok_mono; [| |by apply Hp]; [done|]. simpl. set_solver.
Qed.

(** *** Every awaited answer is on its way exactly once *)
Lemma elem_delete_ne (l : list (action V)) i a b : l !! i = Some b → a ≠ b → a ∈ l → a ∈ delete i l.
Proof using Hplan.
  intros Hi Hab Ha. rewrite (delete_Permutation l i b Hi) in Ha. apply elem_of_cons in Ha. naive_solver.
Qed.

Lemma awaited_le m w id : (awaited m w id ≤ 1)%nat.
Proof using Hplan. unfold awaited. destruct (m !! id); [apply one_le|lia]. Qed.

Lemma one_union (x : Z * Z) (X Y : gset (Z * Z)) : (one (x ∈ X ∪ Y) ≤ one (x ∈ X) + one (x ∈ Y))%nat.
Proof using Hplan. unfold one. repeat case_decide; set_solver || lia. Qed.

Lemma one_union_disj (x : Z * Z) (X Y : gset (Z * Z)) : (one (x ∈ X) + one (x ∈ Y) ≤ 1)%nat →
  (one (x ∈ X ∪ Y) = one (x ∈ X) + one (x ∈ Y))%nat.
Proof using Hplan. unfold one. repeat case_decide; set_solver || lia. Qed.

Lemma one_sent w id i (ws : list Z) :
  one ((w, id) ∈ (list_to_set ((λ w, (w, i)) <$> ws) : gset (Z * Z))) = one (i = id ∧ w ∈ ws).
Proof using Hplan.
  apply one_iff. rewrite elem_of_list_to_set, list_elem_of_fmap. split.
  - intros (x & [= -> ->] & Hx). done.
  - intros [-> Hw]. by exists w.
Qed.

Lemma one_sent_take w (id i : Z) k (ws : list Z) :
  (one (i = id ∧ w ∈ take k ws) ≤ one (i = id ∧ w ∈ ws))%nat.
Proof using Hplan.
  unfold one. destruct (decide (i = id ∧ w ∈ take k ws)) as [[Hi Hw]|]; [|lia].
  rewrite decide_True; [done|]. split; [done|].
  eapply elem_of_sublist; [exact Hw|apply sublist_take].
Qed.

Lemma awaited_after m id p w v w' id' : m !! id = Some p → w ∈ pr_remaining p →
  awaited m w' id' = (awaited (<[id := after_answer w v p]> m) w' id' + one (w = w' ∧ id = id'))%nat.
Proof using Hplan.
  intros Hp Hw. unfold awaited. destruct (decide (id = id')) as [<-|Hne].
  - rewrite Hp, lookup_insert_eq. simpl. unfold one. repeat case_decide; set_solver.
  - rewrite lookup_insert_ne by done. rewrite (one_false (w = w' ∧ _)) by tauto. lia.
Qed.

Lemma awaited_complete m id p w w' id' : m !! id = Some p → w ∈ pr_remaining p →
  pr_remaining p ∖ {[w]} = ∅ →
  awaited m w' id' = (awaited (delete id m) w' id' + one (w = w' ∧ id = id'))%nat.
Proof using Hplan.
  intros Hp Hw Hrem. unfold awaited. destruct (decide (id = id')) as [<-|Hne].
  - rewrite Hp, lookup_delete_eq. simpl. unfold one. repeat case_decide; set_solver.
  - rewrite lookup_delete_ne by done. rewrite (one_false (w = w' ∧ _)) by tauto. lia.
Qed.

Lemma awaited_submit m n p w id : m !! n = None →
  awaited (<[n := p]> m) w id = (awaited m w id + one (n = id ∧ w ∈ pr_remaining p))%nat.
Proof using Hplan.
  intros Hn. unfold awaited. destruct (decide (n = id)) as [<-|Hne].
  - rewrite Hn, lookup_insert_eq. apply one_iff. tauto.
  - rewrite lookup_insert_ne by done. rewrite (one_false (n = id ∧ _)) by tauto. lia.
Qed.

Lemma tokens_early s w id : boot s →
  sum_list_with (action_token w id) (agenda s) = 0%nat.
Proof using Hplan. intros [Ha _ _ _ _]. apply sum_zero. by intros a [->|[f ->]]%Ha. Qed.

Lemma step_tokens s s' w id : inv s → trans s s' → state (sup s') = RUNNING →
  (tokens s' w id ≤ awaited (pending (sup s')) w id)%nat
  ∧ (AFail ∉ agenda s' → tokens s' w id = awaited (pending (sup s')) w id).
Proof using Hplan.
  intros Hinv Ht Hrun. pose proof (λ H, inv_tokens _ Hinv H w id) as Hk. unfold tokens in *.
  pose proof (awaited_le (pending (sup s)) w id) as Hle.
  destruct Ht as
    [now r out Hst Hr Hout|i id0 ws Hi|i id0 ws k Hi|i w0 id0 v Hi Haw|i w0 id0 v p Hi Hp Hw Hrem
    |i w0 id0 v p v' Hi Hp Hw Hrem Hv|i Hi Hst|i Hi Hst Hst2|i id0 v Hi Hf|i id0 Hi|i f Hi|Hst|i Hi|i Hi
    |w0 id0 v Hin|j w0 id0 v Hj Hm|j m Hj Hst|Hm|Hst|f Hst Hst2 Hst3 Hf|i Hi]; simpl in *;
    try (by destruct Hst; congruence); try done;
    rewrite ?sum_app; simpl;
    rewrite ?(proj1 (fail_future_fields _ (sup s))) in *; try specialize (Hk Hrun);
    try (rewrite (sum_delete (action_token w id) _ _ _ Hi) in Hk; simpl in Hk).
  - destruct (next_unused _ Hinv) as [_ Hnp]. rewrite awaited_submit by done. simpl.
    rewrite (one_iff (_ ∧ w ∈ list_to_set _) (next_id (sup s) = id ∧ w ∈ replica_ids r))
      by by rewrite elem_of_list_to_set.
    split; [lia|]. intros Hn. destruct Hk as [_ Hk]. rewrite <-Hk; [lia|set_solver].
  - unfold send_to. pose proof (one_union (w, id) (owed s) (list_to_set ((λ w, (w, id0)) <$> ws))) as Hu.
    rewrite one_sent in Hu. split; [lia|]. intros Hn. destruct Hk as [Hk1 Hk2].
    rewrite one_union_disj, one_sent by (rewrite one_sent; lia).
    rewrite <-Hk2; [lia|]. intros Ha. apply Hn. by eapply elem_delete_ne.
  - unfold send_to.
    pose proof (one_union (w, id) (owed s) (list_to_set ((λ w, (w, id0)) <$> take k ws))) as Hu.
    rewrite one_sent in Hu. pose proof (one_sent_take w id id0 k ws).
    split; [lia|]. intros []. set_solver.
  - split; [lia|]. intros []. set_solver.
  - rewrite (awaited_after _ _ _ _ v w id Hp Hw) in Hk. destruct Hk as [Hk1 Hk2]. split; [lia|].
    intros Hn. assert (AFail ∉ agenda s) as Hn' by (intros Ha; apply Hn; by eapply elem_delete_ne).
    specialize (Hk2 Hn'). lia.
  - rewrite (awaited_complete _ _ _ _ w id Hp Hw Hrem) in Hk. destruct Hk as [Hk1 Hk2].
    split; [lia|]. intros Hn. assert (AFail ∉ agenda s) as Hn'.
    { intros Ha. apply Hn. apply elem_of_app. left. by eapply elem_delete_ne. }
    specialize (Hk2 Hn'). lia.
  - destruct Hk as [Hk1 Hk2]. split; [lia|]. intros Hn. apply Hk2. intros Ha. apply Hn.
    by eapply elem_delete_ne.
  - destruct (fail_future_fields id0 (sup s)) as (_ & -> & _).
    destruct Hk as [Hk1 Hk2]. split; [lia|]. intros Hn. apply Hk2. intros Ha. apply Hn.
    by eapply elem_delete_ne.
  - destruct (failed (sup s)); done.
  - pose proof (start_boot _ _ Hinv Hi) as Hb. pose proof (tokens_early _ w id Hb) as Ht.
    rewrite (sum_delete (action_token w id) _ _ _ Hi) in Ht. simpl in Ht.
    rewrite Ht, (boot_owed _ Hb), (boot_channel _ Hb), (boot_pending _ Hb).
    unfold awaited. rewrite lookup_empty. split; done.
  - assert (Heq : one ((w, id) ∈ owed s)
      = (one ((w, id) ∈ owed s ∖ {[(w0, id0)]}) + message_token w id (w0, id0, v))%nat).
    { unfold message_token, one. simpl. repeat case_decide; set_solver. }
    destruct Hk as [Hk1 Hk2]. split; [lia|]. intros Hn. specialize (Hk2 Hn). lia.
  - rewrite (sum_delete (message_token w id) _ _ _ Hj) in Hk.
    assert (message_token w id (w0, id0, v) = one (w0 = w ∧ id0 = id)) as Heq
      by (apply one_iff; simpl; naive_solver).
    destruct Hk as [Hk1 Hk2]. split; [lia|]. intros Hn. rewrite <-Hk2; [lia|set_solver].
  - destruct Hk as [Hk1 Hk2]. split; [lia|]. intros []. set_solver.
  - by destruct f.
  - pose proof (inv_tokens _ Hinv Hrun w id) as Hk'. exact Hk'.
Qed.

(** *** Results are answers *)
Lemma step_answers s s' : trans s s' → ∀ m, m ∈ answers s → m ∈ answers s'.
Proof using Hplan. destruct 1; simpl; set_solver. Qed.

Lemma step_requests s s' id : inv s → trans s s' → is_Some (requests s !! id) →
  requests s' !! id = requests s !! id.
Proof using Hplan.
  intros Hinv Ht Hs. apply (inv_requests _ Hinv) in Hs. destruct Ht; simpl; try done.
  rewrite lookup_insert_ne; [done|lia].
Qed.

Lemma step_right s s' id v : inv s → trans s s' → right_answer s id v → right_answer s' id v.
Proof using Hplan.
  intros Hinv Ht Hr. pose proof Hr as (r & w & Hreq & _). revert Hr. apply right_answer_mono.
  - eapply step_requests; [done|done|by eexists].
  - by apply step_answers.
Qed.

Lemma step_channel s s' m : inv s → trans s s' → m ∈ channel s' → m ∈ answers s'.
Proof using Hplan.
  intros Hinv Ht. pose proof (inv_channel _ Hinv) as Hc.
  destruct Ht; simpl; try apply Hc; [set_solver|intros Hin; eapply Hc, elem_delete, Hin..].
Qed.

Lemma step_record s s' w id v : inv s → trans s s' → ARecord w id v ∈ agenda s' →
  (w, id, v) ∈ answers s'.
Proof using Hplan.
  intros Hinv Ht Hin. pose proof (inv_record _ Hinv w id v) as Hr.
  assert (Hexc : ∀ l, ARecord w id v ∉ (AExc <$> l : list (action V)))
    by (intros l (? & ? & _)%list_elem_of_fmap; done).
  destruct Ht; simpl in *; rewrite ?elem_of_app, ?list_elem_of_singleton in Hin;
    try (by apply Hr, (elem_delete _ i)); try (by apply Hr);
    try (destruct Hin as [Hin|Hin]; [by apply Hr, (elem_delete _ i)|by try apply Hexc in Hin]);
    try (destruct Hin as [Hin|Hin]; [by apply Hr|done]).
  - set_solver.
  - destruct Hin as [Hin|[= -> -> ->]]; [by apply Hr|]. eapply (inv_channel _ Hinv).
    by eapply list_elem_of_lookup_2.
  - destruct Hin as [Hin|[Hin|Hin]]; [by apply Hr|by apply Hexc in Hin|done].
Qed.

Lemma step_result s s' id v : inv s → trans s s' →
  AResult id v ∈ agenda s' ∨ futures (sup s') !! id = Some (Result v) → right_answer s' id v.
Proof using Hplan.
  intros Hinv Ht Hin. pose proof (inv_result _ Hinv id v) as Hr.
  pose proof (inv_future _ Hinv id v) as Hf. pose proof (step_right s s' id v Hinv Ht) as Hmono.
  assert (Hexc : ∀ l, AResult id v ∉ (AExc <$> l : list (action V)))
    by (intros l (? & ? & _)%list_elem_of_fmap; done).
  destruct Ht; simpl in *; rewrite ?elem_of_app, ?list_elem_of_singleton in Hin;
    try (apply Hmono; destruct Hin as [Hin|Hin];
         [apply Hr; try (by apply (elem_delete _ i)); naive_solver eauto using elem_delete
         |by apply Hf]).
  - apply Hmono. destruct Hin as [[Hin|Hin]|Hin]; [by apply Hr|done|].
    apply lookup_insert_Some in Hin as [[_ Hin]|[_ Hin]]; [done|by apply Hf].
  - apply Hmono. destruct Hin as [[Hin|Hin]|Hin]; [by apply Hr, (elem_delete _ i)| |by apply Hf].
    injection Hin as <- <-. eapply complete_right; [by apply (inv_pending _ Hinv)| |naive_solver].
    eapply (inv_record _ Hinv). by eapply list_elem_of_lookup_2.
  - apply Hmono. destruct Hin as [Hin|Hin]; [by apply Hr, (elem_delete _ i)|].
    apply lookup_insert_Some in Hin as [[<- Hin]|[_ Hin]]; [|by apply Hf].
    injection Hin as <-. apply Hr. by eapply list_elem_of_lookup_2.
  - apply Hmono. destruct Hin as [Hin|Hin]; [by apply Hr, (elem_delete _ i)|].
    apply Hf. unfold fail_future in Hin. destruct (futures (sup s) !! id0) as [[]|]; try done.
    simpl in Hin. by apply lookup_insert_Some in Hin as [[_ Hin]|[_ Hin]].
Qed.

(** *** The invariant holds *)
Lemma inv_init : inv (system_init plan).
Proof using Hplan.
  split; simpl; try done; try (by intros; exfalso; eapply not_elem_of_nil).
  - by rewrite length_replicate.
  - intros r Hr. by rewrite lookup_replicate_2 by lia.
  - intros id. rewrite lookup_empty. split; [by intros []|lia].
  - intros id. rewrite lookup_empty. split; [by intros []|lia].
  - intros _. split; try done. by intros a ?%not_elem_of_nil.
Qed.

Lemma inv_trans s s' : inv s → trans s s' → inv s'.
Proof using Hplan.
  intros Hinv Ht. destruct (step_counts _ _ Hinv Ht) as [Hl Hc].
  destruct (step_ids _ _ Hinv Ht) as (Hn & Hi & Hr). split.
  - by apply (step_running s).
  - done.
  - done.
  - done.
  - done.
  - done.
  - intros id. by apply (step_owners s).
  - intros id p. by apply (step_pending s).
  - intros Hrun w id. by apply (step_tokens s).
  - by apply (step_boot s).
  - by apply (step_starting s).
  - by apply (starts_kept s).
  - intros Ho. by apply (step_start s).
  - intros Ho f. by apply (step_close s).
  - intros m. by apply (step_channel s).
  - intros w id v. by apply (step_record s).
  - intros id v Hin. apply (step_result s); [done|done|by left].
  - intros id v Hin. apply (step_result s); [done|done|by right].
Qed.

Lemma reachable_inv s : reachable plan node timeout overlap s → inv s.
Proof using Hplan.
  induction 1 as [|s e s' _ IH He]; [apply inv_init|].
  eapply inv_trans; [exact IH|]. by eapply exec_trans.
Qed.
End invariant.
