(* ===== verification/SupervisorProps.v ===== *)
(** * Properties of the worker supervisor

    What the invariant of [SupervisorInv.v] gives to the callers of
    [WorkerSupervisor]: exact counters, one resolution per future, answers that
    come from the output worker, no failure without a cause, and progress; and
    the two races the code leaves open. *)

From S2P Require Export SupervisorInv.
From stdpp Require Import options.

Local Open Scope Z_scope.

Section properties.
Context {V : Type}.
Variables (plan : deployment_plan) (node : Z) (timeout : option Z).
(** Whether [close] may begin while [start] is in progress. *)
Variable overlap : bool.
Hypothesis Hplan : plan_contract plan.
Implicit Types s : system V.

Abbreviation reach := (reachable plan node timeout overlap).
Abbreviation step := (exec plan node timeout overlap).

(** The steps that need no caller and no fault: a thread goes on, a worker
    answers, the monitor receives. *)
Definition internal (e : event V) : bool :=
  match e with EvRun _ | EvAnswer _ _ _ | EvReceive _ => true | _ => false end.














Lemma resolved_kept s s' id f : inv plan overlap s → trans plan node timeout overlap s s' →
  futures (sup s) !! id = Some f → f ≠ Running → futures (sup s') !! id = Some f.
Proof using Hplan.
  intros Hinv Ht Hf Hne. destruct Ht; simpl; try exact Hf.
  - destruct (next_unused _ _ Hplan _ Hinv) as [Hn _].
    rewrite lookup_insert_ne; [done|]. intros <-. congruence.
  - rewrite lookup_insert_ne; [done|]. intros ->. congruence.
  - unfold fail_future. destruct (futures (sup s) !! id0) as [[]|] eqn:E; simpl; try exact Hf.
    rewrite lookup_insert_ne; [done|]. intros ->. congruence.
Qed.

(** An action other than the end of [start] can always run. *)
Lemma action_runs s i a : inv plan overlap s → agenda s !! i = Some a → a ≠ AStart →
  ∃ s', step (EvRun i) s = Some s'.
Proof using Hplan.
  intros Hinv Hi Ha. simpl. rewrite Hi. simpl. destruct a; simpl; [..|congruence]; try by eexists.
  - destruct (record_result plan w id payload (sup s)). by eexists.
  - destruct (mark_failed plan (sup s)). by eexists.
  - destruct (owner_running _ _ Hplan _ _ id _ Hinv Hi) as (Hf & _); [by apply one_true|].
    unfold set_result. rewrite Hf. by eexists.
Qed.

(** What is true of a pending request: its future is unresolved, it belongs to
    a replica of the plan and still waits for at least one of its workers. *)
Lemma pending_facts s id p : inv plan overlap s → pending (sup s) !! id = Some p →
  futures (sup s) !! id = Some Running ∧ 0 ≤ pr_replica p < plan_replica_count plan
  ∧ pr_remaining p ≠ ∅ ∧ ∀ w, w ∈ pr_remaining p → w ∈ replica_ids plan (pr_replica p).
Proof using Hplan.
  intros Hinv Hp. destruct (inv_pending _ _ _ Hinv _ _ Hp) as [[H1 _] [H2 H3] _ _].
  split_and!; try done; try lia.
  - pose proof (inv_owners _ _ _ Hinv id) as Ho. unfold owners in Ho.
    rewrite one_true in Ho by by eexists.
    destruct (futures (sup s) !! id) as [[]|]; done || lia.
  - intros w Hw. apply H3 in Hw. by apply elem_of_list_to_set in Hw.
Qed.

(** C15: in every reachable state, whether or not [close] may overlap [start],
    the [inflight] counter of a replica is the number of its pending requests,
    and a pending request has an unresolved future and waits for at least one
    worker of its own replica. Requests are pending only while the supervisor is
    running; if a [close] overlapped the [start], also in STOPPED and FAILED. *)
Theorem inflight_exact s : reachable plan node timeout overlap s →
  (pending (sup s) ≠ ∅ → state (sup s) = RUNNING
     ∨ overlap = true ∧ (state (sup s) = STOPPED ∨ state (sup s) = FAILED))
  ∧ (∀ r, 0 ≤ r < plan_replica_count plan →
      inflight (sup s) !! Z.to_nat r = Some (Z.of_nat (pending_count (pending (sup s)) r)))
  ∧ ∀ id p, pending (sup s) !! id = Some p →
      futures (sup s) !! id = Some Running ∧ 0 ≤ pr_replica p < plan_replica_count plan
      ∧ pr_remaining p ≠ ∅ ∧ ∀ w, w ∈ pr_remaining p → w ∈ replica_ids plan (pr_replica p).
Proof using Hplan.
  intros Hr. pose proof (reachable_inv _ _ _ _ Hplan _ Hr) as Hinv. split_and!.
  - apply (inv_running _ _ _ Hinv).
  - apply (inv_counts _ _ _ Hinv).
  - intros id p. by apply pending_facts.
Qed.

(** C18: a future is resolved once, in every run, whether or not [close] may
    overlap [start]: whatever a thread still has to do can be done (in
    particular [set_result] never meets a resolved future), and no step of any
    thread changes a future that has been resolved. *)
Theorem futures_resolved_once s : reachable plan node timeout overlap s →
  (∀ i a, agenda s !! i = Some a → a ≠ AStart →
     ∃ s', exec plan node timeout overlap (EvRun i) s = Some s')
  ∧ ∀ e s' id f, exec plan node timeout overlap e s = Some s' →
      futures (sup s) !! id = Some f → f ≠ Running →
      futures (sup s') !! id = Some f.
Proof using Hplan.
  intros Hr. pose proof (reachable_inv _ _ _ _ Hplan _ Hr) as Hinv. split.
  - intros i a. by apply action_runs.
  - intros e s' id f He. apply (exec_trans _ _ _ _ Hplan) in He; [|done]. by apply resolved_kept.
Qed.

(** A request that completes returns what the output worker of its
    replica answered to that very request. *)
Theorem result_from_output_worker s id v : reachable plan node timeout overlap s →
  futures (sup s) !! id = Some (Result v) →
  ∃ r w, requests s !! id = Some r ∧ output_of plan r w ∧ (w, id, v) ∈ answers s.
Proof using Hplan.
  intros Hr Hf. pose proof (reachable_inv _ _ _ _ Hplan _ Hr) as Hinv.
  by apply (inv_future _ _ _ Hinv).
Qed.

(** While the supervisor is running, a result that arrives is never
    taken for an unknown, duplicate, misrouted or incomplete one: as long as
    workers only answer the commands they were sent, [_record_result] does not
    fail the supervisor. *)
Theorem no_spurious_failure s w id v u out : reachable plan node timeout overlap s → state (sup s) = RUNNING →
  ARecord w id v ∈ agenda s → record_result plan w id v (sup s) = (u, out) → out ≠ RecError.
Proof using Hplan.
  intros Hr Hrun Hin Hrec Hout. pose proof (reachable_inv _ _ _ _ Hplan _ Hr) as Hinv.
  destruct (record_cases _ _ Hplan _ _ _ _ _ _ Hinv Hrec) as [(_ & _ & Haw)|(p & _ & _ & [H|H])].
  - destruct (inv_tokens _ _ _ Hinv Hrun w id) as [Hle _]. unfold tokens in Hle.
    apply (sum_pos (action_token w id)) in Hin. simpl in Hin.
    rewrite one_true in Hin by done. lia.
  - destruct H as (_ & H & _). congruence.
  - destruct H as (_ & v' & _ & H & _). congruence.
Qed.




End properties.

(** ** Concrete runs *)

Lemma exec_all_reachable {V} plan node timeout overlap es (s s' : system V) :
  reachable plan node timeout overlap s → exec_all plan node timeout overlap es s = Some s' →
  reachable plan node timeout overlap s'.
Proof.
  revert s. induction es as [|e es IH]; intros s Hr; simpl; [by intros [= <-]|].
  destruct (exec plan node timeout overlap e s) as [s1|] eqn:He; [|done]. simpl.
  apply IH. by eapply reachable_step.
Qed.

(** Two replicas of two ranks on one node; the output rank is 0. *)
Definition run_nodes : list node_resources := [NodeResources 0 [0; 1; 2; 3] None].
Definition run_plan : deployment_plan :=
  match plan_build example_parallel 2 run_nodes 0 with
  | Ok plan => plan
  | Err _ => DeploymentPlan example_parallel 0 0 (RankLayout 0 []) [] []
  end.

Lemma run_plan_contract : plan_contract run_plan.
Proof. apply (plan_build_contract example_parallel 2 run_nodes 0). by vm_compute. Qed.

Definition run (overlap : bool) (es : list (event Z)) : system Z :=
  default (system_init run_plan) (exec_all run_plan 0 None overlap es (system_init run_plan)).

Definition runs (overlap : bool) (es : list (event Z)) : bool :=
  match exec_all run_plan 0 None overlap es (system_init run_plan) with Some _ => true | None => false end.

Lemma run_reachable overlap es : runs overlap es = true →
  reachable run_plan 0 None overlap (run overlap es).
Proof.
  unfold runs, run. intros H.
  destruct (exec_all run_plan 0 None overlap es (system_init run_plan)) as [s|] eqn:E; [|done].
  eapply exec_all_reachable; [apply reachable_init|exact E].
Qed.

(** A request to replica 1, sent and answered by its second worker. *)
Definition partial_run : list (event Z) :=
  [EvStart; EvStartOk 0; EvSubmit 0 1; EvRun 0; EvAnswer 3 0 7; EvReceive 0].

(** The same request, completed. *)
Definition complete_run : list (event Z) :=
  partial_run ++ [EvRun 0; EvAnswer 2 0 42; EvReceive 0; EvRun 0; EvRun 0].

Lemma inflight_exact_witness : ∃ s : system Z, reachable run_plan 0 None false s
  ∧ inflight (sup s) = [0; 1] ∧ state (sup s) = RUNNING
  ∧ inflight (sup s) !! Z.to_nat 1 = Some (Z.of_nat (pending_count (pending (sup s)) 1)).
Proof.
  assert (Hr : reachable run_plan 0 None false (run false partial_run)) by by apply run_reachable.
  exists (run false partial_run). split; [exact Hr|]. split; [by vm_compute|].
  split; [by vm_compute|].
  destruct (inflight_exact run_plan 0 None false run_plan_contract _ Hr) as (_ & H & _).
  apply H. by vm_compute.
Defined.

Lemma futures_resolved_once_witness :
  ∃ s s' : system Z, reachable run_plan 0 None false s ∧ exec run_plan 0 None false EvClose s = Some s'
  ∧ futures (sup s) !! 0 = Some (Result 42) ∧ futures (sup s') !! 0 = Some (Result 42).
Proof.
  set (s := run false complete_run).
  assert (Hr : reachable run_plan 0 None false s) by by apply run_reachable.
  exists s, (run false (complete_run ++ [EvClose])).
  assert (He : exec run_plan 0 None false EvClose s = Some (run false (complete_run ++ [EvClose])))
    by by vm_compute.
  assert (Hf : futures (sup s) !! 0 = Some (Result 42)) by by vm_compute.
  split; [exact Hr|]. split; [exact He|]. split; [exact Hf|].
  destruct (futures_resolved_once run_plan 0 None false run_plan_contract _ Hr) as [_ H].
  apply (H _ _ _ _ He Hf). done.
Defined.

Lemma result_from_output_worker_witness : ∃ s : system Z, reachable run_plan 0 None false s
  ∧ futures (sup s) !! 0 = Some (Result 42) ∧ ∃ w, (w, 0, 42) ∈ answers s.
Proof.
  set (s := run false complete_run).
  assert (Hr : reachable run_plan 0 None false s) by by apply run_reachable.
  assert (Hf : futures (sup s) !! 0 = Some (Result 42)) by by vm_compute.
  exists s. split; [exact Hr|]. split; [exact Hf|].
  destruct (result_from_output_worker run_plan 0 None false run_plan_contract s 0 42 Hr Hf)
    as (r & w & _ & _ & Ha). exists w. exact Ha.
Defined.

Lemma no_spurious_failure_witness : ∃ (s : system Z) u, reachable run_plan 0 None false s
  ∧ ARecord 3 0 7 ∈ agenda s ∧ record_result run_plan 3 0 7 (sup s) = (u, RecNothing)
  ∧ (@RecNothing Z) ≠ RecError.
Proof.
  set (s := run false partial_run).
  assert (Hr : reachable run_plan 0 None false s) by by apply run_reachable.
  assert (Hrun : state (sup s) = RUNNING) by by vm_compute.
  assert (Hin : ARecord 3 0 7 ∈ agenda s) by (vm_compute; by left).
  destruct (record_result run_plan 3 0 7 (sup s)) as [u out] eqn:E.
  pose proof (no_spurious_failure run_plan 0 None false run_plan_contract s 3 0 7 u out Hr Hrun Hin E) as H.
  assert (out = RecNothing) as -> by (vm_compute in E; congruence).
  exists s, u. split; [exact Hr|]. split; [exact Hin|]. split; [exact E|exact H].
Defined.


(** ** Two races *)

(** [close] called while [start] is running: [start] then sets RUNNING without
    looking, a request is accepted, and [close] ends in STOPPED. *)
Definition overlapping_run : list (event Z) :=
  [EvStart; EvClose; EvStartOk 0; EvSubmit 0 0; EvRun 0; EvRun 0;
   EvAnswer 0 0 5; EvAnswer 1 0 6; EvReceive 0; EvReceive 0].

(** A result received while [close] takes the pending requests away. *)
Definition late_result_run : list (event Z) :=
  [EvStart; EvStartOk 0; EvSubmit 0 0; EvRun 0; EvAnswer 0 0 5; EvReceive 0; EvClose;
   EvRun 0; EvRun 2; EvRun 0; EvRun 0].

Lemma nothing_left {V} plan node timeout overlap (s : system V) e :
  agenda s = [] → owed s = ∅ → channel s = [] → internal e = true →
  exec plan node timeout overlap e s = None.
Proof.
  intros Ha Ho Hc He. destruct e; try done; simpl; rewrite ?Ha, ?Ho, ?Hc; try done.
Qed.

(** If [close] may overlap [start], an accepted request can be lost: the
    supervisor is STOPPED, every thread is done and every worker has answered,
    yet the request is still pending and its future is never resolved. *)
Theorem close_during_start_strands_request :
  ∃ s : system Z, reachable run_plan 0 None true s
    ∧ state (sup s) = STOPPED ∧ agenda s = [] ∧ owed s = ∅ ∧ channel s = []
    ∧ is_Some (pending (sup s) !! 0) ∧ futures (sup s) !! 0 = Some Running
    ∧ ∀ e, internal e = true → exec run_plan 0 None true e s = None.
Proof.
  exists (run true overlapping_run).
  split; [by apply run_reachable|]. split; [by vm_compute|]. split; [by vm_compute|].
  split; [by vm_compute|]. split; [by vm_compute|]. split; [by (vm_compute; eexists)|].
  split; [by vm_compute|].
  intros e He. apply nothing_left; [by vm_compute..|done].
Qed.

(** An orderly [close] can end FAILED although no worker, send or deadline
    failed: a result the monitor has already accepted finds its request taken
    away by [close] and is reported as unknown. *)
Theorem close_may_end_failed :
  ∃ s : system Z, reachable run_plan 0 None false s
    ∧ s = run false late_result_run ∧ EvFault ∉ late_result_run
    ∧ agenda s = [] ∧ state (sup s) = FAILED ∧ futures (sup s) !! 0 = Some Unavailable.
Proof.
  exists (run false late_result_run).
  split; [by apply run_reachable|]. split; [done|].
  split; [|split; [by vm_compute|split; by vm_compute]].
  unfold late_result_run. rewrite !not_elem_of_cons. split_and!; try done. apply not_elem_of_nil.
Qed.
