(* ===== verification/WorkerProtocol.v ===== *)
(** * Worker processes

    Models the rest of [server/worker_supervisor.py] and the messages of
    [server/process_protocol.py]: the supervisor's configuration, the
    environment of a worker process, the body of the process, and the
    supervisor's handling of its messages during startup and at run time. *)

From S2P Require Export Supervisor.
From Stdlib Require Import Ascii String QArith.
From stdpp Require Import options.

Local Open Scope Z_scope.

(** ** Configuration *)

(** A numeric argument: a [bool], a finite number, or an infinity or NaN. *)
Inductive number : Type :=
  | NumBool (b : bool)
  | NumFinite (q : Q)
  | NumSpecial.

Definition positive_finite (n : number) : bool :=
  match n with NumFinite q => negb (Qle_bool q 0) | NumBool _ | NumSpecial => false end.

Record worker_config : Type := WorkerSupervisorConfig {
  cfg_node_rank : Z;
  cfg_master_addr : string;
  cfg_base_port : Z;
  cfg_startup_timeout : number;
  cfg_shutdown_timeout : number;
  cfg_execution_timeout : option number;
  cfg_extra_env : list (string * string);
}.

Definition upper (s : string) : string :=
  smap (λ c, if is_lower c then ascii_of_N (N_of_ascii c - 32) else c) s.

Definition valid_env_name (k : string) : bool :=
  negb (sempty k) && sforall (λ c, negb (Ascii.eqb c "="%char)) k && no_nul k.

Definition reserved_env : list string :=
  ["PYTHONPATH"; "PYTHONHOME"; "CUDA_VISIBLE_DEVICES";
   "MASTER_ADDR"; "MASTER_PORT"; "RANK"; "WORLD_SIZE"; "LOCAL_RANK"].

(** [WorkerSupervisorConfig.__post_init__], the variables already strings. The
    three checks on reserved names are made in the order of the code; all raise
    [ValueError]. *)
Definition mk_worker_config (node_rank : Z) (master_addr : string) (base_port : Z)
    (startup shutdown : number) (execution : option number) (extra_env : list (string * string)) :
    res worker_config :=
  _ ← ensure (0 <=? node_rank) ValueError;
  let addr := strip master_addr in
  _ ← ensure (negb (sempty addr) && no_nul addr) ValueError;
  _ ← ensure ((1 <=? base_port) && (base_port <=? 65535)) ValueError;
  _ ← ensure (positive_finite startup && positive_finite shutdown) ValueError;
  _ ← ensure (match execution with Some t => positive_finite t | None => true end) ValueError;
  _ ← ensure (bool_decide (NoDup extra_env.*1)) ValueError;
  _ ← ensure (forallb valid_env_name extra_env.*1) ValueError;
  _ ← ensure (forallb no_nul extra_env.*2) ValueError;
  _ ← ensure (forallb (λ k, negb (bool_decide (upper k ∈ reserved_env))) extra_env.*1) ValueError;
  Ok (WorkerSupervisorConfig node_rank addr base_port startup shutdown execution extra_env).

(** The checks of [WorkerSupervisor.__init__], with the placements it keeps. *)
Definition supervisor_placements (plan : deployment_plan) (cfg : worker_config) :
    res (list worker_placement) :=
  _ ← ensure (cfg_node_rank cfg <? Z.of_nat (List.length (plan_nodes plan))) ValueError;
  _ ← ensure (cfg_base_port cfg + plan_replica_count plan - 1 <=? 65535) ValueError;
  ws ← workers_for_node plan (cfg_node_rank cfg);
  _ ← ensure (negb (bool_decide (ws = []))) ValueError;
  Ok ws.

(** [dict.update] *)
Definition dupdate (d values : dict string string) : dict string string :=
  foldl (λ d kv, dset d kv.1 kv.2) d values.

Arguments dupdate : simpl never.

(** The variables [_worker_environment] derives from the placement. *)
Definition rendezvous_values (plan : deployment_plan) (cfg : worker_config) (addr : string)
    (w : worker_placement) : dict string string :=
  [("MASTER_ADDR", addr);
   ("MASTER_PORT", z_to_string (cfg_base_port cfg + replica_id w));
   ("RANK", z_to_string (replica_rank w));
   ("WORLD_SIZE", z_to_string (plan_world plan));
   ("LOCAL_RANK", z_to_string (device_index w))]%string.

(** [_worker_environment] *)
Definition worker_environment (plan : deployment_plan) (cfg : worker_config) (w : worker_placement) :
    res (dict string string) :=
  replica ← workers_for_replica plan (replica_id w);
  first ← of_option IndexError (head replica);
  root ← of_option IndexError (plan_nodes plan !! Z.to_nat (wp_node_rank first));
  let addr := match node_address root with
              | Some a => if sempty a then cfg_master_addr cfg else a
              | None => cfg_master_addr cfg end in
  Ok (dupdate (dupdate [] (cfg_extra_env cfg)) (rendezvous_values plan cfg addr w)).

(** [WorkerFactorySpec.__post_init__] *)
Definition factory_reference_ok (factory : string) : bool :=
  match partition ":" factory with
  | (m, true, q) => negb (sempty m) && negb (sempty q)
  | _ => false
  end.

(** ** Messages *)
Inductive message (V : Type) : Type :=
  | WorkerHello (worker replica rank pid : Z)
  | WorkerReady (worker : Z) (metadata : list (string * Z))
  | WorkerResult (worker request : Z) (payload : option V)
  | WorkerError (worker : Z) (phase : string) (request : option Z)
  | WorkerStopped (worker : Z)
  | OtherMessage (worker : option Z).
Arguments WorkerHello {V} _ _ _ _.
Arguments WorkerReady {V} _ _.
Arguments WorkerResult {V} _ _ _.
Arguments WorkerError {V} _ _ _.
Arguments WorkerStopped {V} _.
Arguments OtherMessage {V} _.

Inductive command (P : Type) : Type :=
  | ExecuteRequest (request : Z) (payload : P)
  | ShutdownRequest
  | OtherCommand.
Arguments ExecuteRequest {P} _ _.
Arguments ShutdownRequest {P}.
Arguments OtherCommand {P}.

(** ** The worker process *)
Section worker.
Context {P V : Type}.
(** The runtime the factory builds: its metadata (or the exception of the
    factory), its [execute] and whether its [close] succeeds. *)
Variables (factory : res (list (string * Z))) (execute : P → res V) (close_ok : bool).
Variables (w : worker_placement) (pid : Z).

(** The [finally] clause; [last] is the request that was being executed. *)
Definition worker_close (clean : bool) (last : option Z) : list (message V) :=
  if close_ok then if clean then [WorkerStopped (worker_id w)] else []
  else [WorkerError (worker_id w) "shutdown" last].

(** The command loop; running out of commands is the [EOFError]. *)
Fixpoint worker_loop (commands : list (command P)) : list (message V) :=
  match commands with
  | [] => worker_close false None
  | ShutdownRequest :: _ => worker_close true None
  | OtherCommand :: _ => WorkerError (worker_id w) "execute" None :: worker_close false None
  | ExecuteRequest id payload :: commands' =>
      match execute payload with
      | Err _ => WorkerError (worker_id w) "execute" (Some id) :: worker_close false (Some id)
      | Ok v => WorkerResult (worker_id w) id (if is_output_rank w then Some v else None)
                :: worker_loop commands'
      end
  end.

(** The messages [_worker_main] sends, the pipe staying open. *)
Definition worker_main (commands : list (command P)) : list (message V) :=
  WorkerHello (worker_id w) (replica_id w) (replica_rank w) pid ::
  match factory with
  | Err _ => [WorkerError (worker_id w) "startup" None]
  | Ok metadata => WorkerReady (worker_id w) metadata :: worker_loop commands
  end.
End worker.

(** ** Startup *)
Inductive startup_state : Type := New | Hello | Ready.

#[export] Instance startup_state_eq_dec : EqDecision startup_state.
Proof. solve_decision. Defined.

(** [_handle_startup_message] *)
Definition handle_startup {V} (w : worker_placement) (pid : Z) (st : startup_state) (m : message V) :
    res startup_state :=
  match m with
  | WorkerHello wid r k p =>
      _ ← ensure (bool_decide (st = New)) RuntimeError;
      _ ← ensure ((wid =? worker_id w) && (r =? replica_id w) && (k =? replica_rank w)) RuntimeError;
      _ ← ensure (p =? pid) RuntimeError;
      Ok Hello
  | WorkerReady wid _ =>
      _ ← ensure (bool_decide (st = Hello)) RuntimeError;
      _ ← ensure (wid =? worker_id w) RuntimeError;
      Ok Ready
  | WorkerError _ _ _ | WorkerResult _ _ _ | WorkerStopped _ | OtherMessage _ => Err RuntimeError
  end.

(** The messages of one worker during [_wait_until_ready], until it is ready. *)
Fixpoint startup {V} (w : worker_placement) (pid : Z) (st : startup_state) (ms : list (message V)) :
    res (startup_state * list (message V)) :=
  if bool_decide (st = Ready) then Ok (st, ms)
  else match ms with
       | [] => Ok (st, [])
       | m :: ms' => st' ← handle_startup w pid st m; startup w pid st' ms'
       end.

(** ** Run time *)
Inductive reaction (V : Type) : Type :=
  | Fails
  | Ignored
  | Records (w id : Z) (payload : option V).
Arguments Fails {V}.
Arguments Ignored {V}.
Arguments Records {V} _ _ _.

Definition message_worker {V} (w : worker_placement) (m : message V) : Z :=
  match m with
  | WorkerHello wid _ _ _ | WorkerReady wid _ | WorkerResult wid _ _ | WorkerError wid _ _
  | WorkerStopped wid => wid
  | OtherMessage (Some wid) => wid
  | OtherMessage None => worker_id w
  end.

(** [_handle_runtime_message]: what it does with a message in a state. *)
Definition handle_runtime {V} (w : worker_placement) (st : lifecycle) (m : message V) : reaction V :=
  let stopping := bool_decide (st = STOPPING ∨ st = STOPPED) in
  if negb (message_worker w m =? worker_id w) then Fails
  else match m with
       | WorkerResult wid id payload => if stopping then Ignored else Records wid id payload
       | WorkerStopped _ => if stopping then Ignored else Fails
       | WorkerError _ _ _ | WorkerHello _ _ _ _ | WorkerReady _ _ | OtherMessage _ => Fails
       end.

(** ** The environment of the workers *)

Lemma dupdate_other (d values : dict string string) k : k ∉ values.*1 →
  dget (dupdate d values) k = dget d k.
Proof.
  unfold dupdate. revert d. induction values as [|[k' v] values IH]; intros d Hk; [done|].
  simpl. apply not_elem_of_cons in Hk as [Hne Hk]. rewrite IH by done.
  by apply dget_dset_ne.
Qed.

Lemma dupdate_in (d values : dict string string) k v : NoDup values.*1 → (k, v) ∈ values →
  dget (dupdate d values) k = Some v.
Proof.
  unfold dupdate. revert d. induction values as [|[k' v'] values IH]; intros d Hnd Hin;
    [by apply not_elem_of_nil in Hin|].
  apply NoDup_cons in Hnd as [Hk Hnd]. simpl. apply elem_of_cons in Hin as [[= <- <-]|Hin]; [|by apply IH].
  pose proof (dupdate_other (dset d k v) values k Hk) as Ho. unfold dupdate in Ho. rewrite Ho.
  by apply dget_dset_eq.
Qed.

Lemma config_env node addr port st sh ex env cfg : mk_worker_config node addr port st sh ex env = Ok cfg →
  NoDup (cfg_extra_env cfg).*1 ∧ Forall (λ k, upper k ∉ reserved_env) (cfg_extra_env cfg).*1
  ∧ 1 ≤ cfg_base_port cfg.
Proof.
  unfold mk_worker_config. intros H. inv_bind. simpl. split_and!.
  - by eapply bool_decide_eq_true_1.
  - apply Forall_forall. intros k Hk%list_elem_of_In.
    match goal with H : forallb (λ k, negb (bool_decide (upper k ∈ _))) _ = true |- _ =>
      rewrite forallb_forall in H; specialize (H k Hk); apply negb_true_iff in H;
      by eapply bool_decide_eq_false_1 end.
  - lia.
Qed.

(** The rendezvous variables, in the order of the update. *)
Definition rendezvous_names : list string :=
  ["MASTER_ADDR"; "MASTER_PORT"; "RANK"; "WORLD_SIZE"; "LOCAL_RANK"]%string.

Lemma reserved_rendezvous k : upper k ∉ reserved_env → k ∉ rendezvous_names.
Proof.
  intros Hk Hin. apply Hk. unfold rendezvous_names in Hin.
  repeat (apply elem_of_cons in Hin as [->|Hin]; [by repeat constructor|]).
  by apply not_elem_of_nil in Hin.
Qed.

Lemma plan_worker_replica p rc nodes out plan w : plan_build p rc nodes out = Ok plan →
  w ∈ plan_workers plan → 0 ≤ replica_id w < rc.
Proof.
  intros Hb Hw. pose proof (plan_world_pos _ _ _ _ _ Hb) as Hpos.
  apply plan_build_inv in Hb as (res & _ & _ & _ & Hrc & _ & _ & _ & Hlen & Hp & _ & _).
  destruct (place_workers_spec _ _ _ _ _ _ Hp) as (Hid & _ & Hok).
  assert (Hi : worker_id w ∈ worker_id <$> plan_workers plan) by by apply list_elem_of_fmap_2.
  rewrite Hid, elem_of_seqZ, length_take in Hi. rewrite Forall_forall in Hok.
  rewrite (wo_replica _ _ _ _ (Hok _ Hw)). split.
  - apply Z.div_pos; lia.
  - apply Z.div_lt_upper_bound; [done|]. nia.
Qed.

(** The address of a replica's rendezvous. *)
Lemma replica_root p rc nodes out plan r : plan_build p rc nodes out = Ok plan → 0 ≤ r < rc →
  ∃ ws first root, workers_for_replica plan r = Ok ws ∧ head ws = Some first
    ∧ plan_nodes plan !! Z.to_nat (wp_node_rank first) = Some root.
Proof.
  intros Hb Hr. destruct (plan_replica_workers _ _ _ _ _ r Hb Hr) as (ws & Hws & Hid & _).
  apply plan_build_inv in Hb as (res & _ & _ & _ & _ & _ & _ & _ & _ & _ & Hcnt & Hreach).
  specialize (Hreach r Hr). unfold replica_reachable in Hreach.
  pose proof Hws as Hws'. unfold workers_for_replica in Hws'. inv_bind.
  destruct (filter _ (plan_workers plan)) as [|first ws]; [done|].
  apply bind_ok in Hreach as (root & Hroot & _). exists (first :: ws), first, root.
  split_and!; [done|done|]. by destruct (plan_nodes plan !! _); simplify_eq/=.
Qed.

Lemma worker_environment_ok p rc nodes out plan cfg w : plan_build p rc nodes out = Ok plan →
  w ∈ plan_workers plan → NoDup (cfg_extra_env cfg).*1 →
  Forall (λ k, upper k ∉ reserved_env) (cfg_extra_env cfg).*1 →
  ∃ env addr, worker_environment plan cfg w = Ok env
    ∧ (∀ w', replica_id w' = replica_id w → ∀ env', worker_environment plan cfg w' = Ok env' →
         dget env' "MASTER_ADDR"%string = Some addr)
    ∧ dget env "MASTER_PORT"%string = Some (z_to_string (cfg_base_port cfg + replica_id w))
    ∧ dget env "RANK"%string = Some (z_to_string (replica_rank w))
    ∧ dget env "WORLD_SIZE"%string = Some (z_to_string (plan_world plan))
    ∧ dget env "LOCAL_RANK"%string = Some (z_to_string (device_index w))
    ∧ ∀ k v, (k, v) ∈ cfg_extra_env cfg → dget env k = Some v.
Proof.
  intros Hb Hw Hnd Hres. pose proof (plan_worker_replica _ _ _ _ _ _ Hb Hw) as Hr.
  destruct (replica_root _ _ _ _ _ _ Hb Hr) as (ws & first & root & Hws & Hf & Hn).
  unfold worker_environment. rewrite Hws. simpl. rewrite Hf. simpl. rewrite Hn. simpl.
  eexists _, _. split; [reflexivity|].
  assert (Hnames : ∀ addr w, NoDup (rendezvous_values plan cfg addr w).*1)
    by (intros; change (NoDup rendezvous_names); by eapply bool_decide_unpack; vm_compute).
  split.
  { intros w' Hw'. rewrite Hw', Hws. simpl. rewrite Hf. simpl. rewrite Hn. simpl. intros env' [= <-].
    apply dupdate_in; [apply Hnames|by left]. }
  split_and!; try (apply dupdate_in; [apply Hnames|by repeat constructor]).
  intros k v Hkv. rewrite dupdate_other; [by apply dupdate_in|].
  change (k ∉ rendezvous_names). apply reserved_rendezvous. rewrite Forall_forall in Hres.
  apply Hres. by apply (list_elem_of_fmap_2 fst _ (k, v)).
Qed.

(** A worker is determined by its replica and rank. *)
Lemma plan_worker_unique p rc nodes out plan a b : plan_build p rc nodes out = Ok plan →
  a ∈ plan_workers plan → b ∈ plan_workers plan →
  replica_id a = replica_id b → replica_rank a = replica_rank b → a = b.
Proof.
  intros Hb Ha Hb' Hr Hk. pose proof (plan_world_pos _ _ _ _ _ Hb) as Hpos.
  pose proof (contract_unique _ (plan_build_contract _ _ _ _ _ Hb)) as Hnd.
  apply plan_build_inv in Hb as (res & _ & _ & _ & _ & _ & _ & _ & _ & Hp & _ & _).
  destruct (place_workers_spec _ _ _ _ _ _ Hp) as (_ & _ & Hok). rewrite Forall_forall in Hok.
  destruct (Hok _ Ha) as [Ha1 Ha2 _ _], (Hok _ Hb') as [Hb1 Hb2 _ _].
  assert (Hid : worker_id a = worker_id b).
  { pose proof (Z.div_mod (worker_id a) (plan_world plan)).
    pose proof (Z.div_mod (worker_id b) (plan_world plan)). nia. }
  apply list_elem_of_lookup in Ha as [i Hi], Hb' as [j Hj].
  assert (i = j) as ->; [|congruence]. eapply NoDup_lookup; [exact Hnd| |].
  - rewrite list_lookup_fmap, Hi. simpl. by rewrite Hid.
  - by rewrite list_lookup_fmap, Hj.
Qed.

(** ** Properties *)

(** The environments of a plan's workers form one rendezvous per replica:
    two workers get the same [MASTER_PORT] exactly when they belong to the same
    replica; then they also get the same [MASTER_ADDR] and [WORLD_SIZE], and
    different [RANK]s unless they are the same worker. The user's variables
    reach every worker unchanged. *)
Theorem env_rendezvous p rc nodes out plan node addr port st sh ex env cfg a b :
  plan_build p rc nodes out = Ok plan → mk_worker_config node addr port st sh ex env = Ok cfg →
  a ∈ plan_workers plan → b ∈ plan_workers plan →
  ∃ ea eb, worker_environment plan cfg a = Ok ea ∧ worker_environment plan cfg b = Ok eb
    ∧ (dget ea "MASTER_PORT"%string = dget eb "MASTER_PORT"%string ↔ replica_id a = replica_id b)
    ∧ (replica_id a = replica_id b →
        dget ea "MASTER_ADDR"%string = dget eb "MASTER_ADDR"%string
        ∧ dget ea "WORLD_SIZE"%string = dget eb "WORLD_SIZE"%string
        ∧ (dget ea "RANK"%string = dget eb "RANK"%string ↔ a = b))
    ∧ dget ea "LOCAL_RANK"%string = Some (z_to_string (device_index a))
    ∧ ∀ k v, (k, v) ∈ cfg_extra_env cfg → dget ea k = Some v.
Proof.
  intros Hb Hcfg Ha Hb'. destruct (config_env _ _ _ _ _ _ _ _ Hcfg) as (Hnd & Hres & _).
  destruct (worker_environment_ok _ _ _ _ _ cfg a Hb Ha Hnd Hres)
    as (ea & addra & Hea & Haddr & Hpa & Hra & Hwa & Hla & Hex).
  destruct (worker_environment_ok _ _ _ _ _ cfg b Hb Hb' Hnd Hres)
    as (eb & addrb & Heb & _ & Hpb & Hrb & Hwb & _ & _).
  exists ea, eb. split_and!; try done.
  - rewrite Hpa, Hpb. split; [|by intros ->]. intros [= H%z_to_string_inj]. lia.
  - intros Hr. split_and!.
    + rewrite (Haddr a eq_refl _ Hea). symmetry. by apply (Haddr b).
    + congruence.
    + rewrite Hra, Hrb. split; [|by intros ->]. intros [= H%z_to_string_inj].
      by eapply plan_worker_unique.
Qed.

Definition proto_config : option worker_config :=
  match mk_worker_config 0 " 127.0.0.1 " 29500 (NumFinite 600) (NumFinite 10) None
          [("NCCL_DEBUG", "INFO")]%string with Ok c => Some c | Err _ => None end.

Lemma env_rendezvous_witness : ∃ plan cfg a b,
  plan_build example_parallel 2 [NodeResources 0 [4; 5; 6; 7] None] 0 = Ok plan
  ∧ proto_config = Some cfg ∧ plan_workers plan !! 0%nat = Some a ∧ plan_workers plan !! 3%nat = Some b
  ∧ ∃ ea eb, worker_environment plan cfg a = Ok ea ∧ worker_environment plan cfg b = Ok eb
    ∧ dget ea "LOCAL_RANK"%string = Some "4"%string
    ∧ dget ea "MASTER_PORT"%string ≠ dget eb "MASTER_PORT"%string.
Proof.
  destruct (plan_build example_parallel 2 [NodeResources 0 [4; 5; 6; 7] None] 0) as [plan|e] eqn:Hp;
    [|vm_compute in Hp; discriminate Hp].
  destruct (mk_worker_config 0 " 127.0.0.1 " 29500 (NumFinite 600) (NumFinite 10) None
    [("NCCL_DEBUG", "INFO")]%string) as [cfg|e] eqn:Hc; [|vm_compute in Hc; discriminate Hc].
  destruct (plan_workers plan !! 0%nat) as [a|] eqn:Ha;
    [|vm_compute in Hp; injection Hp as <-; vm_compute in Ha; discriminate Ha].
  destruct (plan_workers plan !! 3%nat) as [b|] eqn:Hb;
    [|vm_compute in Hp; injection Hp as <-; vm_compute in Hb; discriminate Hb].
  exists plan, cfg, a, b. split; [reflexivity|].
  split; [unfold proto_config; by rewrite Hc|]. split; [exact Ha|]. split; [exact Hb|].
  destruct (env_rendezvous _ _ _ _ _ _ _ _ _ _ _ _ _ a b Hp Hc
    (list_elem_of_lookup_2 _ _ _ Ha) (list_elem_of_lookup_2 _ _ _ Hb))
    as (ea & eb & H1 & H2 & Hport & _ & Hl & _).
  exists ea, eb. split; [exact H1|]. split; [exact H2|].
  vm_compute in Hp. injection Hp as <-. vm_compute in Ha, Hb. injection Ha as <-. injection Hb as <-.
  split; [exact Hl|]. rewrite Hport. done.
Defined.

(** ** Startup *)

Lemma startup_step {V} w pid st (ms : list (message V)) : st ≠ Ready →
  startup w pid st ms = match ms with
    | [] => Ok (st, [])
    | m :: ms' => st' ← handle_startup w pid st m; startup w pid st' ms'
    end.
Proof. intros Hst. destruct ms; simpl; by rewrite bool_decide_eq_false_2. Qed.

Lemma startup_ready {V} w pid (ms : list (message V)) : startup w pid Ready ms = Ok (Ready, ms).
Proof. by destruct ms. Qed.

Lemma hello_ok {V} w pid :
  handle_startup (V := V) w pid New (WorkerHello (worker_id w) (replica_id w) (replica_rank w) pid)
  = Ok Hello.
Proof. simpl. by rewrite !Z.eqb_refl. Qed.

Lemma ready_ok {V} w pid md : handle_startup (V := V) w pid Hello (WorkerReady (worker_id w) md) = Ok Ready.
Proof. simpl. by rewrite Z.eqb_refl. Qed.

Lemma startup_hello {V} w pid (ms : list (message V)) :
  startup w pid New (WorkerHello (worker_id w) (replica_id w) (replica_rank w) pid :: ms)
  = startup w pid Hello ms.
Proof. rewrite startup_step by done. by rewrite hello_ok. Qed.

Lemma startup_ready_message {V} w pid md (ms : list (message V)) :
  startup w pid Hello (WorkerReady (worker_id w) md :: ms) = Ok (Ready, ms).
Proof. rewrite startup_step, ready_ok by done. simpl mbind. apply startup_ready. Qed.

(** The supervisor considers a worker ready after exactly two messages:
    a [WorkerHello] with the worker's identity and process id, then its
    [WorkerReady]; every other sequence of messages leaves it waiting or fails
    the startup. *)
Theorem startup_exact {V} w pid (ms rest : list (message V)) :
  startup w pid New ms = Ok (Ready, rest) ↔
  ∃ metadata, ms = WorkerHello (worker_id w) (replica_id w) (replica_rank w) pid
                   :: WorkerReady (worker_id w) metadata :: rest.
Proof.
  split.
  - intros H. rewrite startup_step in H by done. destruct ms as [|m ms]; [done|].
    apply bind_ok in H as (st1 & H1 & H).
    destruct m; simpl in H1; try done. inv_bind.
    rewrite startup_step in H by done. destruct ms as [|m ms]; [done|].
    apply bind_ok in H as (st2 & H2 & H).
    destruct m; simpl in H2; try done. unfold ensure in H2. simpl in H2.
    destruct (worker0 =? worker_id w) eqn:E; simpl in H2; [|done]. injection H2 as <-.
    rewrite startup_ready in H. injection H as ->. exists metadata. f_equal; [f_equal; lia|].
    f_equal. f_equal. lia.
  - intros [metadata ->]. by rewrite startup_hello, startup_ready_message.
Qed.

(** ** The stream of results *)

(** The requests of a list of execute commands that succeed, with the results. *)
Definition results {P V} (execute : P → res V) (reqs : list (Z * P)) (vs : list V) : Prop :=
  Forall2 (λ r v, execute r.2 = Ok v) reqs vs.

Lemma worker_loop_results {P V} (execute : P → res V) ok w reqs vs tail : results execute reqs vs →
  worker_loop execute ok w (((λ r, ExecuteRequest r.1 r.2) <$> reqs) ++ tail)
  = zip_with (λ r v, WorkerResult (worker_id w) r.1 (if is_output_rank w then Some v else None)) reqs vs
    ++ worker_loop execute ok w tail.
Proof.
  induction 1 as [|[id p] v reqs vs Hv _ IH]; [done|].
  simpl in Hv. rewrite fmap_cons, <-app_comm_cons. cbn [worker_loop fst snd zip_with]. rewrite Hv, IH. done.
Qed.

(** A worker passes the supervisor's startup exactly when its factory
    succeeds, and then answers its commands in order, one result per request and
    with a payload only on the output rank, each of which the running supervisor
    records for that request; a request whose [execute] raises is the last one
    and makes the supervisor fail. *)
Theorem worker_stream {P V} (factory : res (list (string * Z))) (execute : P → res V) ok w pid
    reqs vs tail : results execute reqs vs →
  let commands := ((λ r, ExecuteRequest r.1 r.2) <$> reqs) ++ tail in
  match factory with
  | Err _ => ∃ e, startup w pid New (worker_main factory execute ok w pid commands) = Err e
  | Ok _ => ∃ stream,
      startup w pid New (worker_main factory execute ok w pid commands) = Ok (Ready, stream)
      ∧ (handle_runtime w RUNNING <$> take (List.length reqs) stream)
        = zip_with (λ r v, Records (worker_id w) r.1 (if is_output_rank w then Some v else None)) reqs vs
      ∧ (∀ id p, head tail = Some (ExecuteRequest id p) → is_ok (execute p) = false →
          handle_runtime w RUNNING <$> (stream !! List.length reqs) = Some Fails)
      ∧ (head tail = Some ShutdownRequest → ok = true →
          drop (List.length reqs) stream = [WorkerStopped (worker_id w)]
          ∧ handle_runtime w STOPPING (WorkerStopped (V := V) (worker_id w)) = Ignored)
  end.
Proof.
  intros Hres commands. unfold worker_main. destruct factory as [metadata|e].
  2: { rewrite startup_hello. by eexists. }
  exists (worker_loop execute ok w commands). unfold commands.
  rewrite (worker_loop_results _ _ _ _ _ _ Hres).
  set (out := zip_with _ reqs vs).
  assert (Hlen : List.length out = List.length reqs).
  { unfold out. rewrite length_zip_with. apply Forall2_length in Hres. lia. }
  split_and!.
  - by rewrite startup_hello, startup_ready_message.
  - rewrite <-Hlen, take_app_length. unfold out. clear. revert vs.
    induction reqs as [|[id p] reqs IH]; intros [|v vs]; try done. simpl. rewrite IH. f_equal.
    unfold handle_runtime. simpl. by rewrite Z.eqb_refl.
  - intros id p Ht Herr. rewrite lookup_app_r by lia. rewrite Hlen, Nat.sub_diag.
    destruct tail as [|c tail]; [done|]. injection Ht as ->. simpl.
    destruct (execute p); [done|]. simpl. unfold handle_runtime. simpl. by rewrite Z.eqb_refl.
  - intros Ht ->. rewrite <-Hlen, drop_app_length. destruct tail as [|c tail]; [done|].
    injection Ht as ->. split; [done|]. unfold handle_runtime. simpl. by rewrite Z.eqb_refl.
Qed.

Lemma worker_stream_witness : ∃ w stream,
  startup w 7 New (worker_main (Ok []) (λ p : Z, if p =? 0 then Err OtherError else Ok (p * 2)) true w 7
    [ExecuteRequest 0 5; ExecuteRequest 1 0]) = Ok (Ready, stream)
  ∧ (handle_runtime w RUNNING <$> take 1 stream) = [Records (worker_id w) 0 (Some 10)]
  ∧ handle_runtime w RUNNING <$> (stream !! 1%nat) = Some Fails.
Proof.
  set (w := WorkerPlacement 3 1 1 0 5 [] true).
  set (execute := λ p : Z, if p =? 0 then Err OtherError else Ok (p * 2)).
  assert (Hr : results execute [(0, 5)] [10]) by (repeat constructor).
  destruct (worker_stream (Ok []) execute true w 7 [(0, 5)] [10] [ExecuteRequest 1 0] Hr)
    as (stream & H1 & H2 & H3 & _).
  exists w, stream. split; [exact H1|]. split; [exact H2|].
  apply (H3 1 0); reflexivity.
Defined.
