(* ===== verification/Bootstrap.v ===== *)
(** * Joining a replica

    Models [parallel/dist.py] and the part of [engine.py] that finds the world of
    a process, joins its process group and sets up its collectives.  The theorem
    composes it with the deployment plan and the worker environments: every worker
    of a plan comes up as the rank the plan gave it.

    The rendezvous itself is [dist.init_process_group]; its outcome is a
    parameter.  Pinning the CUDA device and the tuned environment variables of
    [init_env] do not touch what is modelled here. *)

From S2P Require Export WorkerProtocol CollectiveProps.
From Stdlib Require Import Ascii String QArith_base.
From stdpp Require Import options.

Local Open Scope Z_scope.

(** ** [init_dist] *)

Definition env_setdefault (d : dict string string) (k v : string) : dict string string :=
  match dget d k with Some _ => d | None => dset d k v end.

Definition launcher_keys : list string := ["RANK"; "WORLD_SIZE"].
Definition launcher_defaults (world : Z) : list (string * string) :=
  [("MASTER_ADDR", "127.0.0.1"); ("MASTER_PORT", "29500"); ("RANK", "0");
   ("WORLD_SIZE", z_to_string world); ("LOCAL_RANK", "0")].

(** [int(os.environ[key])] *)
Definition env_int (env : dict string string) (key : string) : res Z :=
  text ← of_option KeyError (dget env key);
  of_option ValueError (py_int_of_string text).

Section init_dist.
Context (joins : dict string string → torch_dist → bool).

(** [init_dist]: the environment it leaves, and whether it made the group, with
    the state of [torch.distributed]. *)
Definition init_dist (world : Z) (device_type : string) (require_launcher : bool)
    (env : dict string string) (st : option torch_dist)
    : dict string string * res (bool * option torch_dist) :=
  match st with
  | Some td => (env, _ ← ensure (td_world td =? world) ValueError; Ok (false, st))
  | None =>
      if world =? 1 then (env, Ok (false, None))
      else if require_launcher && existsb (λ k, bool_decide (k ∉ dkeys env)) launcher_keys
      then (env, Err RuntimeError)
      else
        let env' := foldl (λ d kv, env_setdefault d kv.1 kv.2) env (launcher_defaults world) in
        (env',
         match env_int env' "RANK", env_int env' "WORLD_SIZE" with
         | Ok rank, Ok launcher_world =>
             _ ← ensure (launcher_world =? world) ValueError;
             _ ← ensure ((0 <=? rank) && (rank <? world)) ValueError;
             let td := TorchDist rank world (if String.eqb device_type "cuda" then "nccl" else "gloo") in
             _ ← ensure (joins env' td) RuntimeError;
             Ok (true, Some td)
         | _, _ => Err RuntimeError
         end)
  end.

(** [_runtime_replica_world_size] *)
Definition runtime_world (env : dict string string) (st : option torch_dist) (p : parallel_config) : res Z :=
  match st with
  | Some td =>
      match dget env "WORLD_SIZE" with
      | None => Ok (td_world td)
      | Some text =>
          n ← of_option ValueError (py_int_of_string text);
          _ ← ensure (n =? td_world td) ValueError;
          Ok (td_world td)
      end
  | None =>
      match dget env "WORLD_SIZE" with
      | None => infer_replica_world_size p
      | Some text =>
          n ← of_option ValueError (py_int_of_string text);
          _ ← ensure (1 <=? n) ValueError;
          Ok n
      end
  end.

(** Stages [dist] and [mesh] of [EngineCore.__init__]. *)
Definition engine_groups (e : init_env) (env : dict string string) (st : option torch_dist)
    (p : parallel_config) (device_type : string)
    : res (option torch_dist * mesh * collective_dispatcher builtin_kind) :=
  world ← runtime_world env st p;
  '(_, st') ← (init_dist world device_type (1 <? world) env st).2;
  '(m, d) ← init e st' p (Some world) (Some device_type) None true None;
  Ok (st', m, d).
End init_dist.

(** ** Setting up a rank succeeds *)

Section attach.
Context (dg : option process_group) (m : mesh).

Lemma attach_total groups : ∀ made shared comms,
  (∀ name, name ∈ groups → ∃ members, group_members m name = Ok members
     ∧ (1 < Z.of_nat (List.length members) → is_ok (mesh_group dg m name) = true
                                            ∧ is_ok (mesh_cpu_group m name) = true)) →
  ∃ comms', attach dg (λ _, true) m groups made shared comms = Ok comms'.
Proof.
  induction groups as [|name groups IH]; intros made shared comms Hg; simpl; [by eexists|].
  destruct (Hg name) as (members & -> & Hlen); [by left|]. simpl.
  assert (∀ n, n ∈ groups → _) as Hg' by exact (λ n Hn, Hg n (list_elem_of_further n name groups Hn)).
  destruct (_ <=? 1) eqn:E; simpl; [by apply IH|].
  destruct (bool_decide _); [by apply IH|].
  destruct (dget shared members); [by apply IH|]. destruct Hlen as [H1 H2]; [lia|].
  destruct (mesh_group dg m name); [|done]. destruct (mesh_cpu_group m name); [|done]. simpl. by apply IH.
Qed.
End attach.

Lemma built_validates b0 reg sizes : built_registry b0 reg → validate reg sizes = Ok ().
Proof.
  intros Hr. unfold validate.
  assert (∀ o mode, mode ∈ probe_modes reg → ∀ s, 1 < s → registry_has reg (probe o mode s) = true) as Hhas.
  { intros o mode Hm s _. unfold registry_has. destruct (candidates reg (probe o mode s)) eqn:E; [|done]. exfalso.
    destruct Hr as [_|_|comms _].
    - simpl in Hm. apply list_elem_of_singleton in Hm as ->.
      assert (GlooBackend ∈ candidates (register_backend GlooBackend [] empty_registry) (probe o EAGER s)) as H.
      { apply elem_of_app. right. apply list_elem_of_filter. split; [by destruct o|by left]. }
      rewrite E in H. by apply not_elem_of_nil in H.
    - assert (NcclBackend ∈ candidates (register_backend NcclBackend [] empty_registry) (probe o mode s)) as H.
      { apply elem_of_app. right. apply list_elem_of_filter. split; [by destruct o, mode|by left]. }
      rewrite E in H. by apply not_elem_of_nil in H.
    - match type of E with candidates ?R ?q = [] => assert (NcclBackend ∈ candidates R q) as H end.
      { apply elem_of_app. right. apply list_elem_of_filter. split; [by destruct o, mode|right; by left]. }
      rewrite E in H. by apply not_elem_of_nil in H. }
  assert (forallb (λ kv, forallb (λ n, bool_decide (n ∈ backend_name <$> rg_backends reg)) kv.2) (rg_prefer reg) = true)
    as -> by (by destruct Hr).
  cbn [ensure mbind res_bind]. apply ensure_ok. apply forallb_forall. intros o _. apply forallb_forall. intros mode Hm%list_elem_of_In.
  apply forallb_forall. intros s Hs%list_elem_of_In. apply list_elem_of_filter in Hs as [Hs _]. by apply Hhas.
Qed.

(** [init] fails on no rank whose groups and communicators can be made. *)
Lemma init_total ie td p r rw device :
  config_valid p → resolve p (td_world td) = Ok r → 0 ≤ td_rank td < td_world td →
  (∀ k, ie_new_group_ok ie k = true) → ie_comm_ok ie = (λ _, true) →
  match rw with Some n => n = td_world td | None => True end →
  resolve_backend (ie_cuda ie) td None (Some device) ∈ ["nccl"; "gloo"] →
  (resolve_backend (ie_cuda ie) td None (Some device) = "nccl" → device = "cuda") →
  ∃ m d, init ie (Some td) p rw (Some device) None true None = Ok (m, d)
    ∧ ms_rank m = td_rank td ∧ ∃ l, build_rank_layout r = Ok l ∧ ms_layout m = l
    ∧ ∀ name, name ∈ dkeys (rl_groups l) → group_members m name = members_for l name (td_rank td).
Proof.
  intros Hv Hr Htd Hng Hcomm Hrw Hb Hdev. set (b0 := resolve_backend _ _ _ _) in *.
  destruct (resolve_resolved_ok _ _ _ Hv Hr) as [Hok _].
  destruct (build_rank_layout_ok _ Hok) as (groups & Hl & _). set (l := RankLayout (rc_world r) groups) in *.
  set (cpu := true && String.eqb b0 "nccl").
  assert (∃ pl, pool_build (ie_new_group_ok ie) (λ _, true) true td l b0 cpu = inl pl) as [pl Hpl].
  { unfold pool_build. destruct (ensure_groups_total (ie_new_group_ok ie) td (pool_keys l (pool_backends b0 cpu))
      (pool_start td (rl_world l) (pool_backends b0 cpu)) Hng) as [q ->]. by exists q. }
  assert (rank_mesh (ie_new_group_ok ie) td l b0 cpu = Some (pl, build_mesh td l pl b0 cpu)) as Hrm
    by (unfold rank_mesh; by rewrite Hpl).
  destruct (rank_mesh_ok p _ r l Hv Hr Hl _ td _ _ _ _ eq_refl Htd Hrm)
    as (_ & _ & _ & m0 & Hm0 & Hrank & _ & Hplace & Htop & Hlay & Hmesh).
  destruct (record_placement_like ie b0 (Some device) m0 Htop Hplace) as (_ & Hmem & Hgrp & Hlay' & _ & _).
  assert (ms_rank (record_placement ie b0 (Some device) m0) = ms_rank m0
          ∧ ms_cpu_groups (record_placement ie b0 (Some device) m0) = ms_cpu_groups m0) as [Hrank' Hcpu'].
  { unfold record_placement, set_placement. destruct (ie_placement ie); [|done].
    repeat case_match; simplify_eq; try done; by destruct (ensure _ _); simplify_eq/=. }
  set (m := record_placement ie b0 (Some device) m0) in *.
  assert (∀ name, name ∈ dkeys (rl_groups l) → ∃ members, members_for l name (td_rank td) = Ok members
      ∧ group_members m name = Ok members
      ∧ (1 < Z.of_nat (List.length members) → is_ok (mesh_group (Some (world_group td)) m name) = true)
      ∧ (1 < Z.of_nat (List.length members) → cpu = true → is_ok (mesh_cpu_group m name) = true)) as Hall.
  { intros name Hn. destruct (layout_position p _ r l Hv Hr Hl name (td_rank td) Hn Htd) as (_ & g & _ & Hg & _).
    destruct (Hmesh name g Hn Hg) as (H1 & H2 & H3). exists g. unfold mesh_group, mesh_cpu_group, group_members in *.
    rewrite Hmem, Hgrp, Hcpu', H1 in *. split_and!; [done|done| |].
    - intros Hlen. destruct (H2 Hlen) as (x & _ & Hx). simpl in *. by rewrite (Hx (Some (world_group td))).
    - intros Hlen Hc. destruct (H3 Hlen Hc) as [x Hx]. simpl in *. by rewrite Hx. }
  assert (dkeys (ms_members m) = dkeys (rl_groups l)) as Hkeys.
  { rewrite Hmem. revert Hm0. unfold build_mesh, mk_mesh. intros Hm0. inv_bind.
    match goal with H : rmap _ _ = Ok ?x |- dkeys (ms_members (Mesh _ _ _ ?x _ _ _ _ _)) = _ =>
      apply rmap_ok in H; rename H into HF end.
    cbn [ms_members]. change (dkeys (rl_groups l)) with (dkeys groups) in *. clear -HF. revert HF.
    generalize (dkeys groups) as names. intros names HF.
    induction HF as [|n y ns ys Hy _ IH]; [done|]. apply bind_ok in Hy as (g & _ & [= <-]).
    unfold dkeys in *. rewrite fmap_cons. by rewrite IH. }
  assert (∃ reg, make_registry (Some (world_group td)) (ie_comm_ok ie) m b0 (Some device) true None = Ok reg) as [reg Hreg].
  { unfold make_registry. rewrite Hcomm.
    assert (∃ sizes, mesh_sizes m = Ok sizes) as [sizes Hs].
    { unfold mesh_sizes, group_names. rewrite Hkeys.
      assert (∀ names, (∀ n, n ∈ names → n ∈ dkeys (rl_groups l)) → ∃ sizes, rmap (mesh_group_size m) names = Ok sizes) as H.
      { induction names as [|n names IH]; intros Hn; simpl; [by eexists|].
        destruct (Hall n) as (g & _ & Hg & _); [apply Hn; by left|]. 
        assert (mesh_group_size m n = Ok (Z.of_nat (List.length g))) as -> by (unfold mesh_group_size; by rewrite Hg). simpl.
        destruct IH as [ss ->]; [intros; apply Hn; by right|]. by eexists. }
      by apply H. }
    apply elem_of_cons in Hb as [Hb|Hb%list_elem_of_singleton]; rewrite Hb; simpl.
    - rewrite (Hdev Hb). simpl.
      destruct (attach_total (Some (world_group td)) m (group_names m) 1 [] []) as [comms Hc].
      { intros name. unfold group_names. rewrite Hkeys. intros Hn.
        destruct (Hall name Hn) as (g & _ & Hg & H1 & H2). exists g. split; [done|]. intros Hlen.
        split; [by apply H1|]. apply H2; [done|]. unfold cpu. by rewrite Hb. }
      rewrite Hc. simpl. rewrite Hs. simpl. rewrite (built_validates "nccl"); [by eexists|by constructor].
    - rewrite Hs. simpl. rewrite (built_validates "gloo"); [by eexists|by constructor]. }
  exists m, (mk_collective_dispatcher (ie_forced ie) reg None). split_and!; [|congruence|].
  - unfold init. replace (match rw with Some n => n =? td_world td | None => true end) with true
      by (destruct rw; [subst; by rewrite Z.eqb_refl|done]).
    cbn [ensure mbind res_bind]. rewrite Hr. cbn [mbind res_bind]. rewrite Hl. cbn [mbind res_bind].
    fold b0 cpu. rewrite Hpl. cbv zeta. rewrite Hm0. cbn [mbind res_bind]. fold m. by rewrite Hreg.
  - exists l. split_and!; [done|congruence|]. intros name Hn. destruct (Hall name Hn) as (g & -> & -> & _). done.
Qed.

(** ** Every worker comes up *)

Lemma env_setdefault_keep d k v k' x : dget d k' = Some x → dget (env_setdefault d k v) k' = Some x.
Proof.
  intros Hx. unfold env_setdefault. destruct (dget d k) eqn:E; [done|].
  rewrite dget_dset_ne; [done|]. intros ->. congruence.
Qed.

Lemma defaults_keep l : ∀ d k x, dget d k = Some x →
  dget (foldl (λ d (kv : string * string), env_setdefault d kv.1 kv.2) d l) k = Some x.
Proof.
  induction l as [|[k' v] l IH]; intros d k x Hx; [done|]. simpl. by apply IH, env_setdefault_keep.
Qed.

(** A process whose launcher set the rank and the world joins as that rank. *)
Lemma init_dist_launched joins world device_type require env rank :
  (∀ env td, joins env td = true) → dget env "RANK" = Some (z_to_string rank) →
  dget env "WORLD_SIZE" = Some (z_to_string world) → 0 ≤ rank < world → 1 < world →
  (init_dist joins world device_type require env None).2
  = Ok (true, Some (TorchDist rank world (if String.eqb device_type "cuda" then "nccl" else "gloo"))).
Proof.
  intros Hj Hr Hw Hrank Hworld. unfold init_dist. rewrite (proj2 (Z.eqb_neq world 1)) by lia.
  assert (existsb (λ k, bool_decide (k ∉ dkeys env)) launcher_keys = false) as ->.
  { simpl. rewrite !bool_decide_eq_false_2; [done|..]; rewrite <- dget_None; congruence. }
  rewrite andb_false_r. cbn [snd]. unfold env_int. rewrite !(defaults_keep _ _ _ _ Hr), !(defaults_keep _ _ _ _ Hw).
  cbn [of_option mbind res_bind]. rewrite !py_int_z_to_string. cbn [of_option].
  rewrite Z.eqb_refl, (proj2 (Z.leb_le _ _)), (proj2 (Z.ltb_lt _ _)) by lia. cbn [ensure mbind res_bind andb].
  by rewrite Hj.
Qed.

Lemma init_single ie p r device : config_valid p → resolve p 1 = Ok r →
  ∃ m d l, init ie None p (Some 1) (Some device) None true None = Ok (m, d)
    ∧ ms_rank m = 0 ∧ build_rank_layout r = Ok l
    ∧ ∀ name, name ∈ dkeys (rl_groups l) → group_members m name = members_for l name 0.
Proof.
  intros Hv Hr. destruct (resolve_resolved_ok _ _ _ Hv Hr) as [Hok _].
  destruct (build_rank_layout_ok _ Hok) as (groups & Hl & _). set (l := RankLayout (rc_world r) groups) in *.
  destruct (mk_mesh_ok l 0 [] [] None "model") as (m & Hm & _ & _ & Hrank & _ & _ & _ & _ & Hg).
  - rewrite (proj2 (layout_keys p 1 r l Hv Hr Hl)). lia.
  - by apply (layout_keys_nodup p 1 r).
  - intros n Hn. destruct (layout_position p 1 r l Hv Hr Hl n 0 Hn) as (_ & g & _ & -> & _); [lia|done].
  - intros n [H|H]; by apply not_elem_of_nil in H.
  - exists m, (mk_collective_dispatcher (ie_forced ie) empty_registry None), l. split_and!; [|done..].
    unfold init. cbn [mbind res_bind]. change (1 <=? 1) with true. cbn [ensure mbind res_bind]. rewrite Hr. cbn [mbind res_bind]. rewrite Hl. cbn [mbind res_bind].
    by rewrite Hm.
Qed.

Lemma mesh_rank_of_layout m l rank name k :
  ms_rank m = rank → group_members m name = members_for l name rank → group_rank l name rank = Ok k →
  mesh_group_rank m name = Ok k.
Proof. intros Hr Hg Hk. unfold mesh_group_rank. by rewrite Hg, Hr. Qed.

Lemma plan_worker_rank p rc nodes out plan w : plan_build p rc nodes out = Ok plan → w ∈ plan_workers plan →
  0 ≤ replica_rank w < plan_world plan ∧ memberships (plan_layout plan) (replica_rank w) = Ok (group_ranks w).
Proof.
  intros Hb Hw. pose proof (plan_world_pos _ _ _ _ _ Hb) as Hpos.
  apply plan_build_inv in Hb as (res & _ & _ & _ & _ & _ & _ & _ & _ & Hp & _ & _).
  destruct (place_workers_spec _ _ _ _ _ _ Hp) as (_ & _ & Hok). rewrite Forall_forall in Hok.
  destruct (Hok _ Hw) as [_ Hr Hg _]. split; [|done]. rewrite Hr. by apply Z.mod_pos_bound.
Qed.

Lemma worker_environment_nodup plan cfg w env : worker_environment plan cfg w = Ok env → NoDup env.*1.
Proof.
  unfold worker_environment. intros Henv. inv_bind. unfold dupdate.
  assert (∀ (l : list (string * string)) d, NoDup (dkeys d) → NoDup (dkeys (foldl (λ d p, dset d p.1 p.2) d l))) as Hfold.
  { induction l as [|kv l IH]; intros d0 Hd0; [done|]. simpl. apply IH. by apply dset_NoDup. }
  apply Hfold, Hfold. constructor.
Qed.

(** A mesh with the members of the layout has the positions of the plan. *)
Lemma planned_positions lay rank groups m :
  memberships lay rank = Ok groups → ms_rank m = rank →
  (∀ name, name ∈ dkeys (rl_groups lay) → group_members m name = members_for lay name rank) →
  ∀ name k, (name, k) ∈ groups → mesh_group_rank m name = Ok k.
Proof.
  intros Hgroups Hm Hmem name k Hin. unfold memberships in Hgroups. apply rmap_ok in Hgroups.
  apply list_elem_of_lookup in Hin as [i Hi].
  destruct (Forall2_lookup_r _ _ _ _ _ Hgroups Hi) as (name' & Hn' & Hk).
  apply bind_ok in Hk as (g & Hg & [= -> ->]).
  apply (mesh_rank_of_layout m lay rank); [done| |done]. apply Hmem. by eapply list_elem_of_lookup_2.
Qed.

(** Every worker of a deployment plan comes up as the rank the plan gave
    it.  Started with the environment the supervisor derives from the plan, on
    any inherited environment, the engine finds the replica's world, joins the
    process group as its replica rank (a single-rank replica needs none), and its
    mesh has in every parallel group the position recorded in its placement. *)
Theorem worker_joins_replica p rc nodes out plan node addr port st sh ex extra cfg w os_env ie joins device_type :
  config_valid p → plan_build p rc nodes out = Ok plan →
  mk_worker_config node addr port st sh ex extra = Ok cfg → w ∈ plan_workers plan →
  (∀ env td, joins env td = true) → (∀ k, ie_new_group_ok ie k = true) → ie_comm_ok ie = (λ _, true) →
  ∃ env st' m d,
    worker_environment plan cfg w = Ok env
    ∧ engine_groups joins ie (dupdate os_env env) None p device_type = Ok (st', m, d)
    ∧ st' = (if plan_world plan =? 1 then None
             else Some (TorchDist (replica_rank w) (plan_world plan)
                          (if String.eqb device_type "cuda" then "nccl" else "gloo")))
    ∧ ms_rank m = replica_rank w
    ∧ ∀ name k, (name, k) ∈ group_ranks w → mesh_group_rank m name = Ok k.
Proof.
  intros Hv Hb Hcfg Hw Hj Hng Hcomm.
  destruct (config_env _ _ _ _ _ _ _ _ Hcfg) as (Hnd & Hres & _).
  destruct (worker_environment_ok _ _ _ _ _ cfg w Hb Hw Hnd Hres) as (env & ad & Henv & _ & _ & Hrank & Hworld & _ & _).
  destruct (plan_worker_rank _ _ _ _ _ _ Hb Hw) as [Hbound Hgroups].
  apply plan_build_inv in Hb as (r & _ & Hr & Hl & _). exists env.
  pose proof (worker_environment_nodup _ _ _ _ Henv) as Henv_nd.
  assert (∀ k v, dget env k = Some v → dget (dupdate os_env env) k = Some v) as Hget
    by (intros k v Hk; apply dupdate_in; [done|by apply dget_elem]).
  apply Hget in Hrank, Hworld.
  assert (runtime_world (dupdate os_env env) None p = Ok (plan_world plan)) as Hrt.
  { unfold runtime_world. rewrite Hworld. simpl. rewrite py_int_z_to_string. simpl.
    by rewrite (proj2 (Z.leb_le 1 _)) by lia. }
  pose proof (λ m, planned_positions _ _ _ m Hgroups) as Hpos.
  unfold engine_groups. rewrite Hrt. cbn [mbind res_bind].
  destruct (decide (plan_world plan = 1)) as [H1|H1].
  - rewrite H1 in *. destruct (init_single ie p r device_type Hv Hr) as (m & d & l & Hi & Hm & Hl' & Hmem).
    rewrite Hl in Hl'. injection Hl' as <-. assert (replica_rank w = 0) as Hz by lia. rewrite Hz in *.
    exists None, m, d. split_and!; [done| |done|done|by apply Hpos].
    unfold init_dist. cbn [Z.eqb Pos.eqb snd]. cbn [mbind res_bind]. by rewrite Hi.
  - rewrite (init_dist_launched joins (plan_world plan) device_type _ _ (replica_rank w) Hj Hrank Hworld Hbound)
      by lia. cbn [mbind res_bind].
    set (td := TorchDist (replica_rank w) (plan_world plan) _).
    destruct (init_total ie td p r (Some (plan_world plan)) device_type Hv Hr Hbound Hng Hcomm eq_refl)
      as (m & d & Hi & Hm & l & Hl' & Hlay & Hmem).
    + unfold resolve_backend, auto_backend, td. simpl. destruct (String.eqb device_type "cuda"); simpl; set_solver.
    + unfold resolve_backend, auto_backend, td. simpl.
      destruct (String.eqb_spec device_type "cuda") as [->|_]; [done|]. simpl. by intros ?.
    + rewrite Hl in Hl'. injection Hl' as <-. exists (Some td), m, d.
      rewrite (proj2 (Z.eqb_neq (plan_world plan) 1)) by done. split_and!; [done| |done|done|by apply Hpos].
      by rewrite Hi.
Qed.

(** ** A concrete deployment *)

Definition sample_plan : res deployment_plan := plan_build example_parallel 2 [NodeResources 0 [4; 5; 6; 7] None] 0.
Definition sample_config : res worker_config :=
  mk_worker_config 0 "127.0.0.1" 29500 (NumFinite (inject_Z 600)) (NumFinite (inject_Z 10)) None [].

Lemma worker_joins_replica_witness : ∃ plan cfg w env st' m d,
  sample_plan = Ok plan ∧ sample_config = Ok cfg ∧ plan_workers plan !! 3%nat = Some w
  ∧ worker_environment plan cfg w = Ok env
  ∧ engine_groups (λ _ _, true) sample_env (dupdate [("RANK", "7")] env) None example_parallel "cuda" = Ok (st', m, d)
  ∧ ms_rank m = 1.
Proof.
  destruct sample_plan as [plan|] eqn:Hp; [|vm_compute in Hp; discriminate Hp].
  destruct sample_config as [cfg|] eqn:Hc; [|vm_compute in Hc; discriminate Hc].
  destruct (plan_workers plan !! 3%nat) as [w|] eqn:Hw;
    [|vm_compute in Hp; injection Hp as <-; vm_compute in Hw; discriminate Hw].
  destruct (worker_joins_replica example_parallel 2 [NodeResources 0 [4; 5; 6; 7] None] 0 plan 0 "127.0.0.1" 29500
    (NumFinite (inject_Z 600)) (NumFinite (inject_Z 10)) None [] cfg w [("RANK", "7")] sample_env (λ _ _, true) "cuda")
    as (env & st' & m & d & He & Hg & _ & Hm & _).
  - split_and!; reflexivity.
  - exact Hp.
  - exact Hc.
  - by eapply list_elem_of_lookup_2.
  - done.
  - done.
  - reflexivity.
  - exists plan, cfg, w, env, st', m, d. split_and!; try done.
    rewrite Hm. vm_compute in Hp. injection Hp as <-. vm_compute in Hw. injection Hw as <-. reflexivity.
Defined.
