(* ===== verification/Dispatch.v ===== *)
(** * Request dispatch

    Models [server/dispatcher.py] ([RequestDispatcher]): routing to the least
    loaded healthy replica with a round-robin cursor, and the setup and close of
    all executors. *)

From S2P Require Export Prelude.
From stdpp Require Import options.

Local Open Scope Z_scope.

(** ** Routing *)

(** What [_select] reads of one executor: its replica id, its health, and its
    in-flight count when the minimum is taken and when the eligible replicas
    are collected (the code reads it twice, without a lock). *)
Record reading : Type := Reading {
  rd_replica : Z;
  rd_healthy : bool;
  rd_inflight : Z;
  rd_inflight_again : Z;
}.

Definition candidates (rs : list reading) : list reading := filter (λ r, rd_healthy r = true) rs.

(** [min(executor.inflight for executor in candidates)] *)
Definition minimum (loads : list Z) : option Z :=
  match loads with [] => None | l :: ls => Some (foldl Z.min l ls) end.

Definition eligible (rs : list reading) (m : Z) : list Z :=
  rd_replica <$> filter (λ r, rd_inflight_again r = m) (candidates rs).

(** The loop [for offset in range(n)]: the first eligible executor from the
    cursor on, with the new cursor. *)
Fixpoint rotate (rs : list reading) (ids : list Z) (cursor : nat) (offset fuel : nat) :
    option (nat * nat) :=
  match fuel with
  | O => None
  | S fuel' =>
      let index := ((cursor + offset) mod List.length rs)%nat in
      match rs !! index with
      | Some r => if bool_decide (rd_replica r ∈ ids)
                  then Some (index, (index + 1) mod List.length rs)%nat
                  else rotate rs ids cursor (S offset) fuel'
      | None => None
      end
  end.

(** [_select]: the index of the executor and the new cursor. *)
Definition select (rs : list reading) (cursor : nat) : res (nat * nat) :=
  match minimum (rd_inflight <$> candidates rs) with
  | None => Err EngineUnavailableError
  | Some m => of_option AssertionError (rotate rs (eligible rs m) cursor 0 (List.length rs))
  end.

(** ** Setup and close *)

Record dispatcher : Type := Dispatcher {
  executors : list Z;
  cursor : nat;
  closed : bool;
  started : bool;
}.

(** [RequestDispatcher.__init__], on the replica ids of the executors. *)
Definition mk_dispatcher (ids : list Z) : res dispatcher :=
  _ ← ensure (negb (bool_decide (ids = []))) ValueError;
  _ ← ensure (bool_decide (NoDup ids)) ValueError;
  Ok (Dispatcher ids 0 false false).

(** A call made on an executor. *)
Inductive call : Type := CallStart (id : Z) | CallClose (id : Z) | CallRequest (id : Z).

(** [for executor in executors: executor.start()] *)
Fixpoint start_all (starts : Z → option exn) (ids : list Z) : list call * option exn :=
  match ids with
  | [] => ([], None)
  | id :: ids' =>
      match starts id with
      | Some e => ([CallStart id], Some e)
      | None => let (calls, e) := start_all starts ids' in (CallStart id :: calls, e)
      end
  end.

(** Closing every executor in reverse order, with the first error. *)
Fixpoint close_all (closes : Z → option exn) (ids : list Z) : list call * option exn :=
  match ids with
  | [] => ([], None)
  | id :: ids' =>
      let (calls, e) := close_all closes ids' in
      (CallClose id :: calls, match closes id with Some e' => Some e' | None => e end)
  end.

(** [setup] and [close], with the calls they make and the exception they raise. *)
Definition setup (starts closes : Z → option exn) (d : dispatcher) :
    dispatcher * list call * option exn :=
  if closed d then (d, [], Some EngineUnavailableError)
  else if started d then (d, [], None)
  else
    let (calls, e) := start_all starts (executors d) in
    match e with
    | Some e => (Dispatcher (executors d) (cursor d) true (started d),
                 calls ++ (close_all closes (reverse (executors d))).1, Some e)
    | None => (Dispatcher (executors d) (cursor d) (closed d) true, calls, None)
    end.

Definition close (closes : Z → option exn) (d : dispatcher) : dispatcher * list call * option exn :=
  if closed d then (d, [], None)
  else
    let (calls, e) := close_all closes (reverse (executors d)) in
    (Dispatcher (executors d) (cursor d) true (started d), calls, e).

(** [submit]: where the request goes, or the exception its future gets. *)
Definition submit (rs : list reading) (d : dispatcher) : dispatcher * res nat :=
  if closed d then (d, Err EngineUnavailableError)
  else match select rs (cursor d) with
       | Ok (index, c) => (Dispatcher (executors d) c (closed d) (started d), Ok index)
       | Err e => (d, Err e)
       end.

(** The executors the readings are of. *)
Definition readings_of (rs : list reading) (d : dispatcher) : Prop := rd_replica <$> rs = executors d.

(** No executor's count changes while [_select] runs. *)
Definition steady (rs : list reading) : Prop := Forall (λ r, rd_inflight_again r = rd_inflight r) rs.

(** ** Routing *)
Lemma foldl_min_le l z : foldl Z.min z l ≤ z ∧ ∀ x, x ∈ l → foldl Z.min z l ≤ x.
Proof.
  revert z. induction l as [|y l IH]; intros z; simpl; [split; [lia|by intros x ?%not_elem_of_nil]|].
  destruct (IH (Z.min z y)) as [H1 H2]. split; [lia|]. intros x [->|Hx]%elem_of_cons; [lia|by apply H2].
Qed.

Lemma foldl_min_in l z : foldl Z.min z l = z ∨ foldl Z.min z l ∈ l.
Proof.
  revert z. induction l as [|y l IH]; intros z; simpl; [by left|].
  destruct (IH (Z.min z y)) as [->|H]; [|right; by right].
  destruct (Z.min_spec z y) as [[_ ->]|[_ ->]]; [by left|right; by left].
Qed.

Lemma minimum_spec loads m : minimum loads = Some m → m ∈ loads ∧ ∀ x, x ∈ loads → m ≤ x.
Proof.
  destruct loads as [|l ls]; [done|]. simpl. intros [= <-].
  destruct (foldl_min_le ls l) as [H1 H2]. split.
  - destruct (foldl_min_in ls l) as [->|H]; [by left|by right].
  - intros x [->|Hx]%elem_of_cons; [done|by apply H2].
Qed.

(** The rotation finds the first eligible executor in cyclic order. *)
Lemma rotate_spec rs ids c offset fuel : rs ≠ [] →
  match rotate rs ids c offset fuel with
  | Some (i, c') => ∃ k r, (offset ≤ k < offset + fuel)%nat ∧ i = ((c + k) mod List.length rs)%nat
      ∧ rs !! i = Some r ∧ rd_replica r ∈ ids ∧ c' = ((i + 1) mod List.length rs)%nat
      ∧ ∀ j r', (offset ≤ j < k)%nat → rs !! ((c + j) mod List.length rs)%nat = Some r' →
          rd_replica r' ∉ ids
  | None => ∀ j r', (offset ≤ j < offset + fuel)%nat →
      rs !! ((c + j) mod List.length rs)%nat = Some r' → rd_replica r' ∉ ids
  end.
Proof.
  intros Hrs. revert offset. induction fuel as [|fuel IH]; intros offset; simpl; [lia|].
  assert (Hlen : (List.length rs ≠ 0)%nat) by by destruct rs.
  destruct (lookup_lt_is_Some_2 rs ((c + offset) mod List.length rs)) as [r Hr];
    [by apply Nat.mod_upper_bound|].
  rewrite Hr. case_bool_decide as Hin.
  - exists offset, r. split_and!; try done; try lia.
  - specialize (IH (S offset)). destruct (rotate rs ids c (S offset) fuel) as [[i c']|].
    + destruct IH as (k & r0 & Hk & Hi & Hr0 & Hin0 & Hc & Hfirst). exists k, r0.
      split_and!; try done; try lia. intros j r' Hj Hr'.
      destruct (decide (j = offset)) as [->|]; [congruence|]. apply (Hfirst j); [lia|done].
    + intros j r' Hj Hr'. destruct (decide (j = offset)) as [->|]; [congruence|].
      apply (IH j); [lia|done].
Qed.

Lemma eligible_iff rs m i r : NoDup (rd_replica <$> rs) → steady rs → rs !! i = Some r →
  rd_replica r ∈ eligible rs m ↔ rd_healthy r = true ∧ rd_inflight r = m.
Proof.
  intros Hnd Hst Hi. unfold eligible, candidates. unfold steady in Hst. rewrite Forall_forall in Hst.
  assert (Hin : r ∈ rs) by by eapply list_elem_of_lookup_2.
  rewrite list_elem_of_fmap. split.
  - intros (r' & Hid & [Hm [Hh Hr']%list_elem_of_filter]%list_elem_of_filter).
    apply list_elem_of_lookup in Hr' as [j Hj].
    assert (i = j) as <-.
    { eapply NoDup_lookup; [exact Hnd| |]; by rewrite list_lookup_fmap, ?Hi, ?Hj; simpl; f_equal. }
    assert (r' = r) as -> by congruence. rewrite <-(Hst _ Hin). done.
  - intros [Hh Hm]. exists r. split; [done|]. rewrite !list_elem_of_filter. by rewrite (Hst _ Hin).
Qed.

Lemma candidates_elem rs r : r ∈ candidates rs ↔ r ∈ rs ∧ rd_healthy r = true.
Proof. unfold candidates. rewrite list_elem_of_filter. tauto. Qed.

Lemma select_nonempty rs m : minimum (rd_inflight <$> candidates rs) = Some m →
  ∃ i r, rs !! i = Some r ∧ rd_healthy r = true ∧ rd_inflight r = m.
Proof.
  intros [Hm _]%minimum_spec. apply list_elem_of_fmap in Hm as (r & -> & [Hr Hh]%candidates_elem).
  apply list_elem_of_lookup in Hr as [i Hi]. eauto.
Qed.

(** Every position is reached by the rotation. *)
Lemma rotation_covers n c i : (i < n)%nat → ∃ k, (k < n)%nat ∧ ((c + k) mod n = i)%nat.
Proof.
  intros Hi. exists ((i + (n - c mod n)) mod n)%nat. split; [apply Nat.mod_upper_bound; lia|].
  rewrite Nat.Div0.add_mod_idemp_r, <-Nat.Div0.add_mod_idemp_l.
  pose proof (Nat.mod_upper_bound c n ltac:(lia)).
  replace (c mod n + (i + (n - c mod n)))%nat with (i + 1 * n)%nat by lia.
  rewrite Nat.Div0.mod_add. by apply Nat.mod_small.
Qed.

(** ** Properties *)

(** When the in-flight counts do not change during the selection, a
    request goes to a healthy replica with the fewest requests in flight, the
    first such one in cyclic order from the cursor, which then moves behind it;
    selection fails only when no replica is healthy. *)
Theorem select_least_loaded rs c : NoDup (rd_replica <$> rs) → steady rs →
  match select rs c with
  | Ok (i, c') => ∃ r k, rs !! i = Some r ∧ rd_healthy r = true
      ∧ (∀ r', r' ∈ rs → rd_healthy r' = true → rd_inflight r ≤ rd_inflight r')
      ∧ i = ((c + k) mod List.length rs)%nat ∧ c' = ((i + 1) mod List.length rs)%nat
      ∧ ∀ j r', (j < k)%nat → rs !! ((c + j) mod List.length rs)%nat = Some r' →
          rd_healthy r' = true → rd_inflight r < rd_inflight r'
  | Err e => e = EngineUnavailableError ∧ ∀ r, r ∈ rs → rd_healthy r = false
  end.
Proof.
  intros Hnd Hst. unfold select.
  destruct (minimum (rd_inflight <$> candidates rs)) as [m|] eqn:Hm.
  2: { split; [done|]. intros r Hr. destruct (rd_healthy r) eqn:Hh; [|done].
       assert (r ∈ candidates rs) as Hc by by apply candidates_elem.
       by destruct (candidates rs); [apply not_elem_of_nil in Hc|]. }
  destruct (minimum_spec _ _ Hm) as [_ Hmin].
  assert (Hle : ∀ r', r' ∈ rs → rd_healthy r' = true → m ≤ rd_inflight r').
  { intros r' Hr' Hh'. apply Hmin. apply list_elem_of_fmap_2. by apply candidates_elem. }
  destruct (select_nonempty _ _ Hm) as (i0 & r0 & Hi0 & Hh0 & Hm0).
  assert (Hne : rs ≠ []) by by intros ->.
  pose proof (rotate_spec rs (eligible rs m) c 0 (List.length rs) Hne) as Hrot.
  destruct (rotate rs (eligible rs m) c 0 (List.length rs)) as [[i c']|]; simpl.
  - destruct Hrot as (k & r & Hk & Hi & Hr & Hel & Hc' & Hfirst).
    apply (eligible_iff _ _ _ _ Hnd Hst Hr) in Hel as [Hh <-].
    exists r, k. split_and!; try done. intros j r' Hj Hr' Hh'.
    assert (rd_inflight r ≤ rd_inflight r') by (apply Hle; [by eapply list_elem_of_lookup_2|done]).
    assert (rd_inflight r' ≠ rd_inflight r); [|lia]. intros Heq.
    apply (Hfirst j r'); [lia|done|]. by eapply eligible_iff.
  - exfalso. destruct (rotation_covers (List.length rs) c i0) as (k & Hk & Hki);
      [by eapply lookup_lt_Some|].
    apply (Hrot k r0); [lia|by rewrite Hki|]. by eapply eligible_iff.
Qed.

Definition example_readings : list reading :=
  [Reading 0 true 2 2; Reading 1 true 1 1; Reading 2 false 0 0; Reading 3 true 1 1].

Lemma select_least_loaded_witness :
  NoDup (rd_replica <$> example_readings) ∧ steady example_readings
  ∧ select example_readings 2 = Ok (3%nat, 0%nat)
  ∧ ∃ r, example_readings !! 3%nat = Some r ∧ rd_healthy r = true.
Proof.
  assert (Hnd : NoDup (rd_replica <$> example_readings)) by (by eapply bool_decide_unpack; vm_compute).
  assert (Hst : steady example_readings) by (repeat constructor).
  split; [exact Hnd|]. split; [exact Hst|]. split; [reflexivity|].
  destruct (select_least_loaded example_readings 2 Hnd Hst) as (r & _ & H1 & H2 & _).
  exists r. split; [exact H1|exact H2].
Defined.

(** The replicas that [k] selections in a row choose from the same readings. *)
Fixpoint select_many (rs : list reading) (c : nat) (k : nat) : list nat :=
  match k with
  | O => []
  | S k' => match select rs c with Ok (i, c') => i :: select_many rs c' k' | Err _ => [] end
  end.

(** Replicas with equal load share the requests in turn: [k] selections
    in a row take [k] cyclically consecutive replicas, starting at the cursor. *)
Theorem equal_load_round_robin rs c k l : NoDup (rd_replica <$> rs) → steady rs → rs ≠ [] →
  Forall (λ r, rd_healthy r = true ∧ rd_inflight r = l) rs → (c < List.length rs)%nat →
  select_many rs c k = (λ i, (c + i) mod List.length rs)%nat <$> seq 0 k.
Proof.
  intros Hnd Hst Hne Hall. rewrite Forall_forall in Hall.
  assert (Hlen : List.length rs ≠ 0%nat) by by destruct rs.
  assert (Hsel : ∀ c, (c < List.length rs)%nat →
    select rs c = Ok (c, (c + 1) mod List.length rs)%nat).
  { intros c0 Hc0. unfold select. destruct (minimum (rd_inflight <$> candidates rs)) as [m|] eqn:Hm.
    - destruct (select_nonempty _ _ Hm) as (i0 & r0 & Hi0 & _ & <-).
      destruct (lookup_lt_is_Some_2 rs c0 Hc0) as [r Hr].
      assert (rd_replica r ∈ eligible rs (rd_inflight r0)) as Hel.
      { eapply eligible_iff; [done|done|done|].
        destruct (Hall r) as [Hh ->]; [by eapply list_elem_of_lookup_2|].
        destruct (Hall r0) as [_ ->]; [by eapply list_elem_of_lookup_2|]. done. }
      destruct rs as [|r1 rs'] eqn:Ers; [done|]. rewrite <-Ers in *.
      replace (List.length rs) with (S (List.length rs')) at 1 by by rewrite Ers.
      cbn [rotate]. rewrite Nat.add_0_r, Nat.mod_small, Hr by done.
      by rewrite bool_decide_eq_true_2.
    - destruct rs as [|r rs']; [done|]. unfold candidates in Hm. rewrite filter_cons_True in Hm; [done|].
      apply Hall. by left. }
  revert c. induction k as [|k IH]; intros c Hc; [done|]. cbn [select_many]. rewrite (Hsel c Hc).
  rewrite IH by by apply Nat.mod_upper_bound. cbn [seq fmap list_fmap]. f_equal.
  - by rewrite Nat.add_0_r, Nat.mod_small.
  - rewrite <-(fmap_S_seq 0 k), <-list_fmap_compose. apply list_fmap_ext. intros _ i _. simpl.
    rewrite Nat.Div0.add_mod_idemp_l. f_equal. lia.
Qed.

Lemma equal_load_round_robin_witness :
  NoDup (rd_replica <$> [Reading 0 true 5 5; Reading 1 true 5 5; Reading 2 true 5 5])
  ∧ select_many [Reading 0 true 5 5; Reading 1 true 5 5; Reading 2 true 5 5] 1 4 = [1; 2; 0; 1]%nat.
Proof.
  set (rs := [Reading 0 true 5 5; Reading 1 true 5 5; Reading 2 true 5 5]).
  assert (Hnd : NoDup (rd_replica <$> rs)) by (by eapply bool_decide_unpack; vm_compute).
  split; [exact Hnd|].
  rewrite (equal_load_round_robin rs 1 4 5 Hnd); [reflexivity|by repeat constructor|done| |simpl; lia].
  repeat constructor.
Defined.

(** The count of a replica is read twice; when it changes in between the
    selection can fail with the [AssertionError] of its last line although a
    replica is healthy. *)
Theorem select_racy_assertion :
  ∃ rs, NoDup (rd_replica <$> rs) ∧ Forall (λ r, rd_healthy r = true) rs
    ∧ select rs 0 = Err AssertionError.
Proof.
  exists [Reading 0 true 0 1]. split; [by repeat constructor; apply not_elem_of_nil|].
  split; [by repeat constructor|done].
Qed.

(** ** Lifecycle of the executors *)

(** One call on the dispatcher, with what the executors answer. *)
Inductive operation : Type :=
  | OpSetup (starts closes : Z → option exn)
  | OpClose (closes : Z → option exn)
  | OpSubmit (rs : list reading).

Definition perform (op : operation) (d : dispatcher) : dispatcher * list call :=
  match op with
  | OpSetup starts closes => (setup starts closes d).1
  | OpClose closes => (close closes d).1
  | OpSubmit rs =>
      match submit rs d with
      | (d', Ok index) => (d', match executors d !! index with
                               | Some id => [CallRequest id] | None => [] end)
      | (d', Err _) => (d', [])
      end
  end.

Fixpoint perform_all (ops : list operation) (d : dispatcher) : dispatcher * list call :=
  match ops with
  | [] => (d, [])
  | op :: ops' =>
      let (d1, calls) := perform op d in
      let (d2, calls') := perform_all ops' d1 in
      (d2, calls ++ calls')
  end.

#[export] Instance call_eq_dec : EqDecision call.
Proof. solve_decision. Defined.

Definition count (c : call) (l : list call) : nat := List.length (filter (λ x, x = c) l).

Lemma count_app c l k : count c (l ++ k) = (count c l + count c k)%nat.
Proof. unfold count. by rewrite filter_app, length_app. Qed.

Lemma count_cons c x l : count c (x :: l) = ((if decide (x = c) then 1 else 0) + count c l)%nat.
Proof. unfold count. rewrite filter_cons. by case_decide. Qed.

Lemma close_all_calls closes ids id : NoDup ids →
  (∀ i, count (CallStart i) (close_all closes ids).1 = 0%nat)
  ∧ count (CallClose id) (close_all closes ids).1 = (if decide (id ∈ ids) then 1 else 0)%nat.
Proof.
  induction 1 as [|x ids Hx Hnd [IH1 IH2]]; [done|]. cbn [close_all].
  destruct (close_all closes ids) as [calls e]. simpl in *. split.
  - intros i. by rewrite count_cons, IH1.
  - rewrite count_cons, IH2. repeat case_decide; set_solver || congruence.
Qed.

Lemma start_all_calls starts ids id : NoDup ids →
  (count (CallStart id) (start_all starts ids).1 ≤ if decide (id ∈ ids) then 1 else 0)%nat
  ∧ (∀ i, count (CallClose i) (start_all starts ids).1 = 0%nat)
  ∧ ((start_all starts ids).2 = None → id ∈ ids → count (CallStart id) (start_all starts ids).1 = 1%nat).
Proof.
  induction 1 as [|x ids Hx Hnd (IH1 & IH2 & IH3)].
  { split_and!; [done|done|]. by intros _ ?%not_elem_of_nil. }
  cbn [start_all]. destruct (starts x) as [e|].
  - simpl. split_and!; [|done|done]. rewrite count_cons.
    assert (count (CallStart id) [] = 0%nat) as -> by done. repeat case_decide; set_solver || lia.
  - destruct (start_all starts ids) as [calls e]. simpl in *. split_and!.
    + rewrite count_cons. repeat case_decide; simplify_eq; set_solver || lia.
    + intros i. by rewrite count_cons, IH2.
    + intros He Hid. rewrite count_cons. specialize (IH3 He).
      apply elem_of_cons in Hid as [->|Hid].
      * rewrite decide_True by done. rewrite decide_False in IH1 by done. lia.
      * rewrite decide_False by (intros [= ->]; done). by rewrite IH3.
Qed.

(** What the calls made so far say of the dispatcher. *)
Record calls_ok (d : dispatcher) (calls : list call) (id : Z) : Prop := {
  calls_start : (count (CallStart id) calls ≤ 1)%nat
    ∧ (closed d = false → started d = false → count (CallStart id) calls = 0%nat);
  calls_started : started d = true → id ∈ executors d → count (CallStart id) calls = 1%nat;
  calls_close : count (CallClose id) calls = (if closed d then 1 else 0)%nat;
}.

Lemma perform_ok op d calls id : NoDup (executors d) → id ∈ executors d → calls_ok d calls id →
  executors (perform op d).1 = executors d ∧ calls_ok (perform op d).1 (calls ++ (perform op d).2) id.
Proof.
  intros Hnd Hid Hok. pose proof Hok as [[H1 H2] H3 H4].
  assert (Hnil : calls_ok d (calls ++ []) id) by by rewrite app_nil_r.
  destruct op as [starts closes|closes|rs]; simpl.
  - unfold setup. destruct (closed d) eqn:Hc; [done|]. destruct (started d) eqn:Hs; [done|].
    destruct (start_all_calls starts (executors d) id Hnd) as (S1 & S2 & S3).
    destruct (close_all_calls closes (reverse (executors d)) id) as [C1 C2];
      [by rewrite reverse_Permutation|].
    rewrite decide_True in C2 by by rewrite reverse_Permutation.
    rewrite decide_True in S1 by done. specialize (H2 eq_refl eq_refl).
    destruct (start_all starts (executors d)) as [sc [e|]]; simpl in *; split; try done; split; simpl.
    + rewrite !count_app, C1, H2. split; [lia|done].
    + congruence.
    + by rewrite !count_app, S2, C2, H4.
    + rewrite count_app, H2. split; [lia|done].
    + intros _ _. rewrite count_app, H2. by apply S3.
    + by rewrite count_app, S2, H4.
  - unfold close. destruct (closed d) eqn:Hc; [done|].
    destruct (close_all_calls closes (reverse (executors d)) id) as [C1 C2];
      [by rewrite reverse_Permutation|].
    rewrite decide_True in C2 by by rewrite reverse_Permutation.
    destruct (close_all closes (reverse (executors d))) as [cc e]. simpl in *. split; [done|].
    split; simpl; rewrite ?count_app, ?C1, ?C2, ?H4; [split; [lia|done]| |done].
    intros Hs _. rewrite H3 by done. done.
  - unfold submit. destruct (closed d) eqn:Hc; [done|].
    destruct (select rs (cursor d)) as [[index c]|e]; [|done]. simpl. split; [done|].
    assert (Hr : ∀ k i, k = CallStart i ∨ k = CallClose i →
      count k (match executors d !! index with Some i => [CallRequest i] | None => [] end) = 0%nat).
    { intros k i [-> | ->]; by destruct (executors d !! index). }
    split; simpl; rewrite ?count_app, ?(Hr (CallStart id) id), ?(Hr (CallClose id) id), ?Nat.add_0_r
      by auto; rewrite ?Hc; done.
Qed.

(** Whatever sequence of [setup], [close] and requests the dispatcher
    serves, every executor is started at most once, it is started exactly once
    when the dispatcher is set up, and it is closed exactly once when the
    dispatcher is closed (a failed setup closes it too) and never before. *)
Theorem executors_started_and_closed_once ids d ops id : mk_dispatcher ids = Ok d → id ∈ ids →
  let (d', calls) := perform_all ops d in
  (count (CallStart id) calls ≤ 1)%nat
  ∧ (started d' = true → count (CallStart id) calls = 1%nat)
  ∧ count (CallClose id) calls = (if closed d' then 1 else 0)%nat.
Proof.
  unfold mk_dispatcher. intros H Hid. inv_bind.
  match goal with H : bool_decide (NoDup _) = true |- _ => apply bool_decide_eq_true_1 in H as Hnd end.
  assert (Hgen : ∀ ops d0 calls, executors d0 = ids → calls_ok d0 calls id →
    executors (perform_all ops d0).1 = ids
    ∧ calls_ok (perform_all ops d0).1 (calls ++ (perform_all ops d0).2) id).
  { clear ops. induction ops as [|op ops IH]; intros d0 calls Hex Hok; simpl.
    - by rewrite app_nil_r.
    - destruct (perform_ok op d0 calls id) as [He Hok']; [by rewrite Hex|by rewrite Hex|done|].
      destruct (perform op d0) as [d1 c1]. simpl in *.
      specialize (IH d1 (calls ++ c1)). destruct (perform_all ops d1) as [d2 c2]. simpl in *.
      rewrite app_assoc. apply IH; [congruence|done]. }
  destruct (Hgen ops (Dispatcher ids 0 false false) []) as [He [[G1 _] G2 G3]]; [done| |].
  { split; [split; [exact (Nat.le_0_l 1)|done]|done|done]. }
  destruct (perform_all ops (Dispatcher ids 0 false false)) as [d' calls]. simpl in *.
  split_and!; [done| |done]. intros Hs. apply G2; [done|]. by rewrite He.
Qed.

Lemma executors_started_and_closed_once_witness :
  ∃ d, mk_dispatcher [0; 1] = Ok d
  ∧ (perform_all [OpSetup (λ id, if id =? 1 then Some RuntimeError else None) (λ _, None);
                  OpClose (λ _, None)] d).2
    = [CallStart 0; CallStart 1; CallClose 1; CallClose 0]
  ∧ count (CallClose 0) [CallStart 0; CallStart 1; CallClose 1; CallClose 0] = 1%nat.
Proof.
  exists (Dispatcher [0; 1] 0 false false).
  assert (H : mk_dispatcher [0; 1] = Ok (Dispatcher [0; 1] 0 false false)) by reflexivity.
  split; [exact H|]. split; [reflexivity|].
  pose proof (executors_started_and_closed_once [0; 1] _
    [OpSetup (λ id, if id =? 1 then Some RuntimeError else None) (λ _, None); OpClose (λ _, None)]
    0 H ltac:(by left)) as Hx.
  apply Hx.
Defined.
