(* ===== verification/Executor.v ===== *)
(** * Replica executors

    Models [server/executor.py]: the reference-counted manager shared by the
    executors of one worker group ([_SharedManager], [MultiprocessExecutor]) and
    the in-process executor with its queue ([InlineExecutor],
    [ExternalExecutor]), both as step relations whose steps are the regions the
    code runs under its lock. *)

From S2P Require Export Supervisor.
From stdpp Require Import options.

Local Open Scope Z_scope.

(** ** The shared manager *)

(** The calls made on the supervisor. *)
Inductive manager_call : Type := MStartBegin | MStartEnd (ok : bool) | MClose.

#[export] Instance manager_call_eq_dec : EqDecision manager_call.
Proof. solve_decision. Defined.

(** [sm_locked]: a thread is inside [manager.start()], which the code calls
    under the lock. [sm_releasing]: threads between the [_closed] flag of their
    executor and the lock of [release]; [sm_closing]: threads about to call
    [manager.close()]. [sm_flags]: the [_closed] flags of the executors. *)
Record shared : Type := Shared {
  sm_remaining : Z;
  sm_started : bool;
  sm_closed : bool;
  sm_locked : bool;
  sm_releasing : nat;
  sm_closing : nat;
  sm_flags : list bool;
  sm_log : list manager_call;
}.

(** [managed_executors(manager, replica_count, ...)] *)
Definition shared_init (n : nat) : shared := Shared (Z.of_nat n) false false false 0 0 (replicate n false) [].

(** What an attempted [start] of executor [i] does up to [manager.start()]. *)
Inductive start_outcome : Type := StartRefused | StartAlready | StartEntered.

Definition start_enter (i : nat) (m : shared) : option (shared * start_outcome) :=
  flag ← sm_flags m !! i;
  if (flag : bool) then Some (m, StartRefused)
  else if sm_locked m then None
  else if sm_closed m then Some (m, StartRefused)
  else if sm_started m then Some (m, StartAlready)
  else Some (Shared (sm_remaining m) (sm_started m) (sm_closed m) true (sm_releasing m) (sm_closing m)
               (sm_flags m) (sm_log m ++ [MStartBegin]), StartEntered).

(** [manager.start()] returns, or raises. *)
Definition start_leave (ok : bool) (m : shared) : option shared :=
  if sm_locked m then
    Some (Shared (sm_remaining m) ok (sm_closed m) false (sm_releasing m) (sm_closing m) (sm_flags m)
            (sm_log m ++ [MStartEnd ok]))
  else None.

(** [MultiprocessExecutor.close] up to [release]. *)
Definition close_flag (i : nat) (m : shared) : option shared :=
  flag ← sm_flags m !! i;
  if (flag : bool) then Some m
  else Some (Shared (sm_remaining m) (sm_started m) (sm_closed m) (sm_locked m) (S (sm_releasing m))
               (sm_closing m) (<[i := true]> (sm_flags m)) (sm_log m)).

(** The lock region of [release]. *)
Definition release (m : shared) : option shared :=
  match sm_releasing m with
  | O => None
  | S k =>
      if sm_locked m then None
      else if sm_remaining m <=? 0 then
        Some (Shared (sm_remaining m) (sm_started m) (sm_closed m) false k (sm_closing m) (sm_flags m)
                (sm_log m))
      else
        let remaining := sm_remaining m - 1 in
        let closes := (remaining =? 0) && negb (sm_closed m) in
        Some (Shared remaining (sm_started m) (sm_closed m || closes) false k
                (if closes then S (sm_closing m) else sm_closing m) (sm_flags m) (sm_log m))
  end.

(** [manager.close()] *)
Definition manager_close (m : shared) : option shared :=
  match sm_closing m with
  | O => None
  | S k => Some (Shared (sm_remaining m) (sm_started m) (sm_closed m) (sm_locked m) (sm_releasing m) k
                   (sm_flags m) (sm_log m ++ [MClose]))
  end.

Inductive shared_event : Type :=
  | ShStart (i : nat)
  | ShStarted (ok : bool)
  | ShClose (i : nat)
  | ShRelease
  | ShManagerClose.

Definition shared_exec (e : shared_event) (m : shared) : option shared :=
  match e with
  | ShStart i => fst <$> start_enter i m
  | ShStarted ok => start_leave ok m
  | ShClose i => close_flag i m
  | ShRelease => release m
  | ShManagerClose => manager_close m
  end.

Inductive shared_reachable (n : nat) : shared → Prop :=
  | sh_init : shared_reachable n (shared_init n)
  | sh_step m e m' : shared_reachable n m → shared_exec e m = Some m' → shared_reachable n m'.

(** [MultiprocessExecutor.healthy] and [inflight] *)
Definition mp_healthy (is_closed : bool) (st : lifecycle) (per_replica : list bool) (replica : Z) : bool :=
  if is_closed then false
  else match st with
       | CREATED | STARTING => true
       | RUNNING => (replica <? Z.of_nat (List.length per_replica))
                    && default false (per_replica !! Z.to_nat replica)
       | STOPPING | STOPPED | FAILED => false
       end.

Definition mp_inflight (is_closed : bool) (per_replica : list Z) (replica : Z) : Z :=
  if is_closed then 0
  else if Z.of_nat (List.length per_replica) <=? replica then 0
  else default 0 (per_replica !! Z.to_nat replica).

(** ** The invariant of the shared manager *)

(** The log read from the left: [None] when [close] falls inside a [start],
    a second [start] succeeds, or anything follows the [close]. *)
Inductive phase : Type := PhIdle | PhStarting | PhStarted | PhClosed.

Definition phase_step (p : phase) (c : manager_call) : option phase :=
  match p, c with
  | PhIdle, MStartBegin => Some PhStarting
  | PhStarting, MStartEnd true => Some PhStarted
  | PhStarting, MStartEnd false => Some PhIdle
  | (PhIdle | PhStarted), MClose => Some PhClosed
  | _, _ => None
  end.

Definition phase_of (log : list manager_call) : option phase :=
  foldl (λ p c, p ≫= λ p, phase_step p c) (Some PhIdle) log.

Definition open_flags (m : shared) : nat := List.length (filter (λ b, b = false) (sm_flags m)).

Record shared_inv (n : nat) (m : shared) : Prop := {
  si_count : sm_remaining m = Z.of_nat (open_flags m + sm_releasing m);
  si_length : List.length (sm_flags m) = n;
  si_closed : sm_closed m = true ↔ sm_remaining m = 0;
  si_closing : sm_closed m = false → sm_closing m = 0%nat;
  si_once : (sm_closing m ≤ 1)%nat;
  si_lock : sm_locked m = true → sm_closed m = false ∧ sm_started m = false;
  si_phase : phase_of (sm_log m) = Some
    (if sm_locked m then PhStarting
     else if sm_closed m && bool_decide (sm_closing m = 0%nat) then PhClosed
     else if sm_started m then PhStarted else PhIdle);
}.

Lemma phase_app log c : phase_of (log ++ [c]) = phase_of log ≫= λ p, phase_step p c.
Proof. unfold phase_of. by rewrite foldl_app. Qed.

Lemma flags_closed (l : list bool) i : l !! i = Some false →
  List.length (filter (λ b, b = false) l)
  = S (List.length (filter (λ b, b = false) (<[i := true]> l))).
Proof.
  revert i. induction l as [|b l IH]; intros [|i] H; try done.
  - injection H as ->. done.
  - simpl in H. change (<[S i := true]> (b :: l)) with (b :: <[i := true]> l).
    rewrite !filter_cons. specialize (IH i H). case_decide; simpl; lia.
Qed.

Lemma shared_inv_init n : (0 < n)%nat → shared_inv n (shared_init n).
Proof.
  intros Hn. assert (Hf : List.length (filter (λ b, b = false) (replicate n false)) = n).
  { clear. induction n as [|n IH]; [done|]. cbn [replicate]. rewrite filter_cons_True by done.
    simpl. by rewrite IH. }
  split; simpl; unfold open_flags; simpl; rewrite ?Hf, ?length_replicate; try done; try lia.
Qed.

Lemma shared_inv_step n m e m' : shared_inv n m → shared_exec e m = Some m' → shared_inv n m'.
Proof.
  intros Hinv He. pose proof Hinv as [I1 I2 I3 I4 I5 I6 I7].
  destruct e as [i|ok|i| |]; simpl in He.
  - unfold start_enter in He. destruct (sm_flags m !! i) as [[]|]; simpl in He; simplify_eq; [done|].
    destruct (sm_locked m) eqn:Hl; [done|]. destruct (sm_closed m) eqn:Hc; [by simplify_eq/=|].
    destruct (sm_started m) eqn:Hs; simplify_eq/=; [done|].
    split; simpl; rewrite ?Hc, ?Hs; try done. by rewrite phase_app, I7.
  - unfold start_leave in He. destruct (sm_locked m) eqn:Hl; simplify_eq.
    destruct (I6 eq_refl) as [Hc Hs]. split; simpl; rewrite ?Hc in *; try done.
    rewrite phase_app, I7. by destruct ok.
  - unfold close_flag in He. destruct (sm_flags m !! i) as [[]|] eqn:Hf; simplify_eq/=; [done|].
    split; simpl; try done.
    + rewrite I1. unfold open_flags in *. simpl. rewrite (flags_closed _ _ Hf). lia.
    + by rewrite length_insert.
  - unfold release in He. destruct (sm_releasing m) as [|k] eqn:Hk; [done|].
    destruct (sm_locked m) eqn:Hl; [done|]. destruct (Z.leb_spec (sm_remaining m) 0); [lia|].
    injection He as <-. destruct (sm_closed m) eqn:Hc; [destruct I3 as [I3 _]; specialize (I3 eq_refl); lia|].
    specialize (I4 eq_refl).
    destruct (Z.eqb_spec (sm_remaining m - 1) 0) as [Hz|Hz]; split; simpl; unfold open_flags in *; simpl;
      rewrite ?I4; try done; try lia.
  - unfold manager_close in He. destruct (sm_closing m) as [|k] eqn:Hk; [done|]. injection He as <-.
    destruct (sm_closed m) eqn:Hc; [|specialize (I4 eq_refl); done].
    assert (k = 0%nat) as -> by lia.
    destruct (sm_locked m) eqn:Hl; [destruct (I6 eq_refl); done|].
    split; simpl; rewrite ?Hc, ?Hl; try done; try lia.
    rewrite phase_app, I7. simpl. by destruct (sm_started m).
Qed.

Lemma shared_reachable_inv n m : (0 < n)%nat → shared_reachable n m → shared_inv n m.
Proof.
  intros Hn. induction 1 as [|m e m' _ IH He]; [by apply shared_inv_init|].
  by eapply shared_inv_step.
Qed.

Lemma phase_closed log p : phase_of log = Some p → MClose ∈ log ↔ p = PhClosed.
Proof.
  revert p. induction log as [|c log IH] using rev_ind; intros p.
  - intros [= <-]. split; [by intros ?%not_elem_of_nil|done].
  - rewrite phase_app. destruct (phase_of log) as [q|]; simpl; [|done]. intros Hp.
    specialize (IH q eq_refl). rewrite elem_of_app, list_elem_of_singleton, IH.
    destruct q, c as [|[]|]; simplify_eq/=; naive_solver.
Qed.

Lemma open_flags_zero m : open_flags m = 0%nat ↔ Forall (λ b, b = true) (sm_flags m).
Proof.
  unfold open_flags. induction (sm_flags m) as [|b l IH]; [by split|].
  rewrite filter_cons, Forall_cons. case_decide as Hb; simpl; [|destruct b]; naive_solver.
Qed.

(** However the threads of a worker group's executors interleave, the
    supervisor sees an orderly life: at most one successful [start], never a
    [close] while [start] runs, nothing after the one [close]; and when no call
    is in progress it has been closed exactly if every executor was closed. *)
Theorem shared_manager_orderly n m : (0 < n)%nat → shared_reachable n m →
  is_Some (phase_of (sm_log m))
  ∧ (sm_locked m = false → sm_releasing m = 0%nat → sm_closing m = 0%nat →
     (MClose ∈ sm_log m ↔ Forall (λ b, b = true) (sm_flags m))).
Proof.
  intros Hn Hr. destruct (shared_reachable_inv _ _ Hn Hr) as [I1 I2 I3 I4 I5 I6 I7].
  split; [by eexists|]. intros Hl Hk Hc. rewrite (phase_closed _ _ I7), Hl, Hc.
  rewrite <-open_flags_zero. rewrite Hk, Nat.add_0_r in I1.
  destruct (sm_closed m) eqn:E; simpl.
  - destruct I3 as [I3 _]. specialize (I3 eq_refl). split; [lia|done].
  - split; [by destruct (sm_started m)|]. intros Ho. destruct I3 as [_ I3].
    specialize (I3 ltac:(lia)). done.
Qed.

Lemma shared_manager_orderly_witness : ∃ m, shared_reachable 2 m
  ∧ sm_log m = [MStartBegin; MStartEnd true; MClose] ∧ is_Some (phase_of (sm_log m)).
Proof.
  set (run := foldl (λ m e, m ≫= shared_exec e) (Some (shared_init 2))).
  set (events := [ShStart 0; ShClose 1; ShStarted true; ShRelease; ShClose 0; ShRelease; ShManagerClose]).
  assert (Hgen : ∀ es m m', shared_reachable 2 m → foldl (λ m e, m ≫= shared_exec e) (Some m) es = Some m' →
    shared_reachable 2 m').
  { induction es as [|e es IH]; intros m m' Hm; simpl; [by intros [= <-]|].
    destruct (shared_exec e m) as [m1|] eqn:E.
    - apply IH. by eapply sh_step.
    - intros H. exfalso. revert H. clear. induction es; [done|exact IHes]. }
  destruct (run events) as [m|] eqn:E; [|by vm_compute in E].
  assert (Hm : shared_reachable 2 m) by (eapply Hgen; [apply sh_init|exact E]).
  exists m. split; [exact Hm|]. split; [vm_compute in E; by injection E as <-|].
  apply (shared_manager_orderly 2 m); [lia|exact Hm].
Defined.

(** ** The in-process executor *)

(** A request waiting for the core: a caller blocked in [step], or one with a
    future from [submit]. *)
Record work : Type := InlineWork { wk_id : nat; wk_async : bool }.

Inductive async_future : Type := FutPending | FutRunning | FutDone | FutCancelled.

#[export] Instance async_future_eq_dec : EqDecision async_future.
Proof. solve_decision. Defined.

(** The fields of [InlineExecutor] with its history: [ix_begun] the requests
    that entered the core in order, [ix_dropped] those a [close] took out of the
    queue, [ix_leaving] the queued futures a [close] still has to cancel. Work
    is numbered by arrival. *)
Record inline : Type := Inline {
  ix_queue : list work;
  ix_active : option work;
  ix_closed : bool;
  ix_worker : bool;
  ix_next : nat;
  ix_begun : list nat;
  ix_dropped : list nat;
  ix_leaving : list nat;
  ix_futures : gmap nat async_future;
}.

Definition inline_init : inline := Inline [] None false false 0 [] [] [] ∅.

(** [ExternalExecutor.__init__] *)
Definition external_ok (world rank output : Z) : res unit :=
  _ ← ensure (1 <=? world) ValueError;
  _ ← ensure ((0 <=? rank) && (rank <? world)) ValueError;
  ensure ((0 <=? output) && (output <? world)) ValueError.

(** [ExternalExecutor._execute] on what the core returns. *)
Definition external_result {V} (rank output : Z) (v : V) : option V :=
  if rank =? output then Some v else None.

(** A call that puts work into the queue: [step] ([async = false]) or [submit].
    [submit] starts the worker thread if there is none. *)
Definition enqueue (async : bool) (s : inline) : option inline :=
  if ix_closed s then None
  else
    Some (Inline (ix_queue s ++ [InlineWork (ix_next s) async]) (ix_active s) false
            (ix_worker s || async) (S (ix_next s)) (ix_begun s) (ix_dropped s) (ix_leaving s)
            (if async then <[ix_next s := FutPending]> (ix_futures s) else ix_futures s)).

(** The head of the queue enters the core: its own caller, or the worker
    thread, which skips the core when the future was cancelled. *)
Definition begin (s : inline) : option inline :=
  match ix_active s, ix_queue s with
  | None, w :: queue =>
      if wk_async w && negb (ix_worker s) then None
      else
        let skip := wk_async w && bool_decide (ix_futures s !! wk_id w = Some FutCancelled) in
        Some (Inline queue (Some w) (ix_closed s) (ix_worker s) (ix_next s) (ix_begun s ++ [wk_id w])
                (ix_dropped s) (ix_leaving s)
                (if wk_async w && negb skip then <[wk_id w := FutRunning]> (ix_futures s)
                 else ix_futures s))
  | _, _ => None
  end.

(** The core returns or raises: a future is resolved either way. *)
Definition finish (s : inline) : option inline :=
  match ix_active s with
  | None => None
  | Some w =>
      Some (Inline (ix_queue s) None (ix_closed s) (ix_worker s) (ix_next s) (ix_begun s)
              (ix_dropped s) (ix_leaving s)
              (if bool_decide (ix_futures s !! wk_id w = Some FutRunning)
               then <[wk_id w := FutDone]> (ix_futures s) else ix_futures s))
  end.

(** [future.cancel()] takes effect on a future that is not running. *)
Definition cancel (id : nat) (s : inline) : inline :=
  match ix_futures s !! id with
  | Some FutPending =>
      Inline (ix_queue s) (ix_active s) (ix_closed s) (ix_worker s) (ix_next s) (ix_begun s)
        (ix_dropped s) (ix_leaving s) (<[id := FutCancelled]> (ix_futures s))
  | _ => s
  end.

(** [close] up to the wait for the active request; a caller waiting in [step]
    finds its work gone and raises. *)
Definition inline_close (s : inline) : option inline :=
  if ix_closed s then Some s
  else
    Some (Inline [] (ix_active s) true (ix_worker s) (ix_next s) (ix_begun s)
            (ix_dropped s ++ (wk_id <$> ix_queue s))
            (wk_id <$> filter (λ w, wk_async w = true) (ix_queue s)) (ix_futures s)).

(** The rest of [close], once nothing is active: cancel the queued futures. *)
Definition inline_close_end (s : inline) : option inline :=
  match ix_active s, ix_closed s with
  | None, true =>
      let s' := foldr cancel s (ix_leaving s) in
      Some (Inline (ix_queue s') None true (ix_worker s') (ix_next s') (ix_begun s') (ix_dropped s') []
              (ix_futures s'))
  | _, _ => None
  end.

(** [healthy] and [inflight] *)
Definition inline_healthy (s : inline) : bool := negb (ix_closed s).
Definition inline_inflight (s : inline) : nat :=
  (List.length (ix_queue s) + match ix_active s with Some _ => 1 | None => 0 end)%nat.

Inductive inline_event : Type :=
  | IxEnqueue (async : bool) | IxBegin | IxFinish | IxCancel (id : nat) | IxClose | IxCloseEnd.

Definition inline_exec (e : inline_event) (s : inline) : option inline :=
  match e with
  | IxEnqueue async => enqueue async s
  | IxBegin => begin s
  | IxFinish => finish s
  | IxCancel id => Some (cancel id s)
  | IxClose => inline_close s
  | IxCloseEnd => inline_close_end s
  end.

Inductive inline_reachable : inline → Prop :=
  | ix_init : inline_reachable inline_init
  | ix_step s e s' : inline_reachable s → inline_exec e s = Some s' → inline_reachable s'.

(** *** Invariant *)
Record inline_inv (s : inline) : Prop := {
  ii_order : ix_begun s ++ (wk_id <$> ix_queue s) ++ ix_dropped s = seq 0 (ix_next s);
  ii_closed : ix_closed s = true → ix_queue s = [];
  ii_open : ix_closed s = false → ix_dropped s = [] ∧ ix_leaving s = [];
  ii_worker : ∀ w, w ∈ ix_queue s → wk_async w = true → ix_worker s = true;
  ii_pending : ∀ id, ix_futures s !! id = Some FutPending →
    InlineWork id true ∈ ix_queue s ∨ id ∈ ix_leaving s;
  ii_running : ∀ id, ix_futures s !! id = Some FutRunning → ∃ w, ix_active s = Some w ∧ wk_id w = id;
  ii_begun : ∀ id, ix_futures s !! id = Some FutRunning ∨ ix_futures s !! id = Some FutDone →
    id ∈ ix_begun s;
}.

Lemma cancel_fields id s : ix_queue (cancel id s) = ix_queue s ∧ ix_active (cancel id s) = ix_active s
  ∧ ix_closed (cancel id s) = ix_closed s ∧ ix_worker (cancel id s) = ix_worker s
  ∧ ix_next (cancel id s) = ix_next s ∧ ix_begun (cancel id s) = ix_begun s
  ∧ ix_dropped (cancel id s) = ix_dropped s ∧ ix_leaving (cancel id s) = ix_leaving s.
Proof. unfold cancel. by destruct (ix_futures s !! id) as [[]|]. Qed.

Lemma cancel_futures id s k f : ix_futures (cancel id s) !! k = Some f → f ≠ FutCancelled →
  ix_futures s !! k = Some f ∧ (k = id → f ≠ FutPending).
Proof.
  unfold cancel. destruct (ix_futures s !! id) as [[]|] eqn:E; simpl; intros H Hf;
    try (split; [done|intros ->; congruence]).
  apply lookup_insert_Some in H as [[<- <-]|[Hne H]]; [done|]. split; [done|congruence].
Qed.

Lemma cancel_inv id s : inline_inv s → inline_inv (cancel id s).
Proof.
  intros [I1 I2 I3 I4 I5 I6 I7]. destruct (cancel_fields id s) as (E1 & E2 & E3 & E4 & E5 & E6 & E7 & E8).
  split; rewrite ?E1, ?E2, ?E3, ?E4, ?E5, ?E6, ?E7, ?E8; try done.
  - intros k Hk. destruct (cancel_futures _ _ _ _ Hk) as [Hk' _]; [done|]. by apply I5.
  - intros k Hk. destruct (cancel_futures _ _ _ _ Hk) as [Hk' _]; [done|]. by apply I6.
  - intros k [Hk|Hk]; destruct (cancel_futures _ _ _ _ Hk) as [Hk' _]; try done; apply I7; auto.
Qed.

Lemma cancel_all_inv ids s : inline_inv s → inline_inv (foldr cancel s ids)
  ∧ ix_queue (foldr cancel s ids) = ix_queue s ∧ ix_active (foldr cancel s ids) = ix_active s
  ∧ ix_leaving (foldr cancel s ids) = ix_leaving s ∧ ix_closed (foldr cancel s ids) = ix_closed s
  ∧ ∀ id, id ∈ ids → ix_futures (foldr cancel s ids) !! id ≠ Some FutPending.
Proof.
  intros Hs. induction ids as [|i ids (IH1 & IH2 & IH3 & IH4 & IH5 & IH6)]; simpl.
  { split_and!; try done. by intros id ?%not_elem_of_nil. }
  destruct (cancel_fields i (foldr cancel s ids)) as (E1 & E2 & E3 & _ & _ & _ & _ & E8).
  split_and!; [by apply cancel_inv|congruence..|].
  intros id Hid Hp. destruct (cancel_futures _ _ _ _ Hp) as [Hp' Hne]; [done|].
  apply elem_of_cons in Hid as [->|Hid]; [by apply Hne|by apply (IH6 id)].
Qed.

Lemma begun_fresh s : inline_inv s → ix_next s ∉ ix_begun s.
Proof.
  intros Hinv Hin. assert (ix_next s ∈ seq 0 (ix_next s)) as Hs%elem_of_seq; [|lia].
  rewrite <-(ii_order _ Hinv). apply elem_of_app. by left.
Qed.

Lemma enqueue_inv async s s' : inline_inv s → enqueue async s = Some s' → inline_inv s'.
Proof.
  intros Hinv. pose proof Hinv as [I1 I2 I3 I4 I5 I6 I7]. unfold enqueue.
  destruct (ix_closed s) eqn:Hc; [done|]. intros [= <-]. destruct (I3 eq_refl) as [Hd Hl].
  assert (Hf : ∀ id f, (if async then <[ix_next s:=FutPending]> (ix_futures s) else ix_futures s) !! id = Some f →
    (id = ix_next s ∧ async = true ∧ f = FutPending) ∨ ix_futures s !! id = Some f).
  { intros id f. destruct async; [|by right]. intros [[<- <-]|[_ H]]%lookup_insert_Some; [by left|by right]. }
  split; simpl; try done.
  - change (0%nat :: seq 1 (ix_next s)) with (seq 0 (S (ix_next s))).
    rewrite Hd, app_nil_r in *. rewrite fmap_app, app_assoc, I1, seq_S. done.
  - intros w [Hw| ->%list_elem_of_singleton]%elem_of_app Ha; [by rewrite (I4 w)|simpl in Ha].
    rewrite Ha. by destruct (ix_worker s).
  - intros id [(-> & -> & _)|Hp]%Hf; [left; set_solver|].
    destruct (I5 _ Hp) as [Hq|Hq]; [left; set_solver|by right].
  - intros id [(_ & _ & ?)|Hp]%Hf; [done|by apply I6].
  - intros id [Hp|Hp]; apply Hf in Hp as [(_ & _ & ?)|Hp]; try done; apply I7; auto.
Qed.

Lemma begin_inv s s' : inline_inv s → begin s = Some s' → inline_inv s'.
Proof.
  intros [I1 I2 I3 I4 I5 I6 I7]. unfold begin.
  destruct (ix_active s) eqn:Ha; [done|]. destruct (ix_queue s) as [|w q] eqn:Hq; [done|].
  destruct (wk_async w && negb (ix_worker s)); [done|]. intros [= <-].
  set (skip := wk_async w && bool_decide (ix_futures s !! wk_id w = Some FutCancelled)).
  assert (Hf : ∀ id f, (if wk_async w && negb skip then <[wk_id w:=FutRunning]> (ix_futures s)
      else ix_futures s) !! id = Some f →
    (id = wk_id w ∧ f = FutRunning)
    ∨ (ix_futures s !! id = Some f ∧ (InlineWork id true = w → f ≠ FutPending))).
  { intros id f. destruct (wk_async w && negb skip) eqn:E.
    - intros [[<- <-]|[Hne H]]%lookup_insert_Some; [by left|right]. split; [done|]. by intros <-.
    - intros H. right. split; [done|]. intros <- ->. unfold skip in E. simpl in *. rewrite H in E.
      by rewrite bool_decide_eq_false_2 in E. }
  split; simpl.
  - by rewrite <-app_assoc.
  - intros Hc. by specialize (I2 Hc).
  - done.
  - intros w' Hw'. apply I4. by right.
  - intros id [(_ & ?)|[Hp Hne]]%Hf; [done|]. destruct (I5 _ Hp) as [[Hw|Hin]%elem_of_cons|Hin]; auto.
    by destruct (Hne Hw).
  - intros id [(-> & _)|[Hp _]]%Hf; [by eexists|]. destruct (I6 _ Hp) as (? & ? & _). done.
  - intros id [Hp|Hp]; apply Hf in Hp as [(-> & _)|[Hp _]]; apply elem_of_app; try (right; by left);
      left; apply I7; auto.
Qed.

Lemma finish_inv s s' : inline_inv s → finish s = Some s' → inline_inv s'.
Proof.
  intros [I1 I2 I3 I4 I5 I6 I7]. unfold finish. destruct (ix_active s) as [w|] eqn:Ha; [|done].
  intros [= <-].
  assert (Hf : ∀ id f, (if bool_decide (ix_futures s !! wk_id w = Some FutRunning)
      then <[wk_id w:=FutDone]> (ix_futures s) else ix_futures s) !! id = Some f →
    (id = wk_id w ∧ f = FutDone ∧ ix_futures s !! wk_id w = Some FutRunning)
    ∨ (ix_futures s !! id = Some f ∧ f ≠ FutRunning)).
  { intros id f. case_bool_decide as Hr.
    - intros [[<- <-]|[Hne H]]%lookup_insert_Some; [by left|right]. split; [done|]. intros ->.
      destruct (I6 _ H) as (? & ? & ?). congruence.
    - intros H. right. split; [done|]. intros ->. destruct (I6 _ H) as (? & ? & ?). congruence. }
  split; simpl; try done.
  - intros id [(_ & ? & _)|[Hp _]]%Hf; [done|by apply I5].
  - intros id [(_ & ? & _)|[Hp ?]]%Hf; done.
  - intros id [Hp|Hp]; apply Hf in Hp as [(-> & ? & Hr)|[Hp ?]]; try done; apply I7; auto.
Qed.

Lemma inline_step_inv s e s' : inline_inv s → inline_exec e s = Some s' → inline_inv s'.
Proof.
  intros Hinv. pose proof Hinv as [I1 I2 I3 I4 I5 I6 I7].
  destruct e as [async| | |id| |]; simpl.
  - by apply enqueue_inv.
  - by apply begin_inv.
  - by apply finish_inv.
  - intros [= <-]. by apply cancel_inv.
  - unfold inline_close. destruct (ix_closed s) eqn:Hc; intros [= <-]; [done|].
    destruct (I3 eq_refl) as [Hd Hl]. split; simpl; try done.
    + rewrite <-I1, Hd. by rewrite app_nil_r.
    + by intros w ?%not_elem_of_nil.
    + intros id Hp. right. destruct (I5 _ Hp) as [Hq|Hq]; [|rewrite Hl in Hq; by apply not_elem_of_nil in Hq].
      apply list_elem_of_fmap. exists (InlineWork id true). by rewrite list_elem_of_filter.
  - unfold inline_close_end. destruct (ix_active s) eqn:Ha; [done|]. destruct (ix_closed s) eqn:Hc; [|done].
    intros [= <-].
    destruct (cancel_all_inv (ix_leaving s) s Hinv) as ([J1 J2 J3 J4 J5 J6 J7] & E1 & E2 & E3 & E4 & E5).
    rewrite Hc in E4. split; simpl; try done.
    + intros _. by apply J2.
    + intros id Hp. destruct (J5 _ Hp) as [Hq|Hq]; [by left|]. rewrite E3 in Hq. by apply E5 in Hq.
    + intros id Hp. apply J6 in Hp. rewrite E2, Ha in Hp. by destruct Hp as (? & ? & _).
Qed.

Lemma inline_reachable_inv s : inline_reachable s → inline_inv s.
Proof.
  induction 1 as [|s e s' _ IH He]; [|by eapply inline_step_inv].
  split; simpl; try done; try (by intros ? ?%not_elem_of_nil); intros id; rewrite lookup_empty; naive_solver.
Qed.

(** The in-process executor is fair and serial: requests enter the core
    one at a time in the order they arrived, whether they came through [step] or
    [submit]; none is skipped, except that [close] drops what is still queued
    and then lets nothing in; and the head of the queue can always proceed once
    the core is free. *)
Theorem inline_fifo s : inline_reachable s →
  ix_begun s ++ (wk_id <$> ix_queue s) ++ ix_dropped s = seq 0 (ix_next s)
  ∧ (ix_closed s = false → ix_dropped s = [])
  ∧ (ix_closed s = true → ix_queue s = [] ∧ begin s = None ∧ ∀ async, enqueue async s = None)
  ∧ (ix_queue s ≠ [] → ix_active s = None → is_Some (begin s)).
Proof.
  intros Hinv%inline_reachable_inv. pose proof Hinv as [I1 I2 I3 I4 I5 I6 I7].
  split_and!; [done|by intros Hc; apply I3| |].
  - intros Hc. specialize (I2 Hc). split_and!; [done| |].
    + unfold begin. rewrite I2. by destruct (ix_active s).
    + intros async. unfold enqueue. by rewrite Hc.
  - intros Hq Ha. unfold begin. rewrite Ha. destruct (ix_queue s) as [|w q]; [done|].
    destruct (wk_async w) eqn:Hw; simpl; [|by eexists].
    rewrite (I4 w) by (done || by left). by eexists.
Qed.

(** Every future the in-process executor handed out is settled: when
    nothing is queued, active or left to cancel, each is done or cancelled, and
    a future is done only if its request entered the core. *)
Theorem inline_futures_settle s : inline_reachable s →
  ix_queue s = [] → ix_active s = None → ix_leaving s = [] →
  ∀ id f, ix_futures s !! id = Some f →
    (f = FutDone ∧ id ∈ ix_begun s) ∨ f = FutCancelled.
Proof.
  intros Hinv%inline_reachable_inv Hq Ha Hl id f Hf. destruct f; [exfalso|exfalso| |by right].
  - destruct (ii_pending _ Hinv _ Hf) as [H|H]; rewrite ?Hq, ?Hl in H; by apply not_elem_of_nil in H.
  - destruct (ii_running _ Hinv _ Hf) as (w & H & _). congruence.
  - left. split; [done|]. apply (ii_begun _ Hinv). by right.
Qed.

Definition inline_run (es : list inline_event) : option inline :=
  foldl (λ s e, s ≫= inline_exec e) (Some inline_init) es.

Lemma inline_run_reachable es s : inline_run es = Some s → inline_reachable s.
Proof.
  revert s. induction es as [|e es IH] using rev_ind; intros s; [intros [= <-]; apply ix_init|].
  unfold inline_run in *. rewrite foldl_app. simpl.
  destruct (foldl _ (Some inline_init) es) as [s0|]; [|done]. intros He.
  eapply ix_step; [by apply IH|exact He].
Qed.

Definition inline_example : list inline_event :=
  [IxEnqueue true; IxEnqueue false; IxEnqueue true; IxBegin; IxFinish; IxBegin; IxClose; IxFinish; IxCloseEnd].

Lemma inline_fifo_witness : ∃ s, inline_reachable s
  ∧ ix_begun s = [0; 1]%nat ∧ ix_dropped s = [2%nat] ∧ begin s = None.
Proof.
  destruct (inline_run inline_example) as [s|] eqn:E; [|by vm_compute in E].
  assert (Hr : inline_reachable s) by by eapply inline_run_reachable.
  destruct (inline_fifo s Hr) as (_ & _ & H & _). exists s. split; [exact Hr|].
  vm_compute in E. injection E as <-. split; [reflexivity|]. split; [reflexivity|].
  apply H. reflexivity.
Defined.

Lemma inline_futures_settle_witness : ∃ s, inline_reachable s
  ∧ ix_futures s !! 2%nat = Some FutCancelled ∧ ∃ f, ix_futures s !! 0%nat = Some f
  ∧ ((f = FutDone ∧ 0%nat ∈ ix_begun s) ∨ f = FutCancelled).
Proof.
  destruct (inline_run inline_example) as [s|] eqn:E; [|by vm_compute in E].
  assert (Hr : inline_reachable s) by by eapply inline_run_reachable.
  pose proof (inline_futures_settle s Hr) as H. exists s. split; [exact Hr|].
  vm_compute in E. injection E as <-. split; [reflexivity|]. exists FutDone.
  split; [reflexivity|]. by apply (H eq_refl eq_refl eq_refl).
Defined.
