(* ===== verification/Gateway.v ===== *)
(** * Gateway routing

    Models [services/model_registry.py] ([ModelRegistryService]),
    [clients/model_inference.py] ([ModelInferenceClient]) and the channel
    bookkeeping of [services/health.py] ([BackendHealthMonitor]): the registry
    every operation of which runs under one lock, the life of one inference call
    around [acquire_server] and [release_server], and the interleavings of
    registrations, heartbeats, removals, health probes and calls. *)

From S2P Require Export PyStr.
From stdpp Require Import options.

Local Open Scope Z_scope.

(** ** The registry

    Times are those of [time.monotonic], in nanoseconds. *)

Definition HEARTBEAT_TIMEOUT : Z := 15 * 10 ^ 9.

(** [RegisteredModelServer]; the id is the key of [_servers]. *)
Record model_server : Type := ModelServer {
  ms_endpoint : string;
  ms_model : string;
  ms_heartbeat : Z;
  ms_in_flight : Z;
  ms_managed : bool;
  ms_healthy : bool;
  ms_failures : Z;
  ms_removed : bool;
}.

#[export] Instance model_server_eq_dec : EqDecision model_server.
Proof. solve_decision. Defined.

(** [ModelRegistryService._servers] *)
Definition servers : Type := dict string model_server.

(** The assignments to a field of a server. *)
Definition set_in_flight (n : Z) (x : model_server) : model_server :=
  ModelServer (ms_endpoint x) (ms_model x) (ms_heartbeat x) n (ms_managed x) (ms_healthy x)
    (ms_failures x) (ms_removed x).
Definition set_heartbeat (t : Z) (x : model_server) : model_server :=
  ModelServer (ms_endpoint x) (ms_model x) t (ms_in_flight x) (ms_managed x) (ms_healthy x)
    (ms_failures x) (ms_removed x).
Definition set_removed (x : model_server) : model_server :=
  ModelServer (ms_endpoint x) (ms_model x) (ms_heartbeat x) (ms_in_flight x) (ms_managed x)
    (ms_healthy x) (ms_failures x) true.
Definition set_managed (x : model_server) : model_server :=
  ModelServer (ms_endpoint x) (ms_model x) (ms_heartbeat x) (ms_in_flight x) true false
    (ms_failures x) (ms_removed x).
Definition set_health (ok : bool) (failures : Z) (x : model_server) : model_server :=
  ModelServer (ms_endpoint x) (ms_model x) (ms_heartbeat x) (ms_in_flight x) (ms_managed x)
    ok failures (ms_removed x).

(** [_healthy] *)
Definition server_healthy (now : Z) (x : model_server) : bool :=
  if ms_managed x then ms_healthy x else now - ms_heartbeat x <=? HEARTBEAT_TIMEOUT.

(** [_remove_expired] *)
Definition is_expired (now : Z) (x : model_server) : bool :=
  (ms_removed x || (negb (ms_managed x) && (HEARTBEAT_TIMEOUT <? now - ms_heartbeat x)))
  && (ms_in_flight x =? 0).
Definition remove_expired (now : Z) (d : servers) : servers :=
  filter (λ kv, is_expired now kv.2 = false) d.

(** [_describe] *)
Record description : Type := Description {
  ds_id : string; ds_model : string; ds_endpoint : string; ds_healthy : bool; ds_in_flight : Z;
}.
Definition describe_server (now : Z) (id : string) (x : model_server) : description :=
  Description id (ms_model x) (ms_endpoint x) (server_healthy now x) (ms_in_flight x).

(** Whether a server serves a route that is being registered. *)
Definition same_route (model endpoint : string) (x : model_server) : bool :=
  negb (ms_removed x) && String.eqb (ms_endpoint x) endpoint && String.eqb (ms_model x) model.

(** [_register]; [id] is the id a new server would get. *)
Definition register_server (id : string) (now : Z) (model endpoint : string) (managed : bool)
    (d : servers) : res (servers * description) :=
  _ ← ensure (negb (sempty (strip model))) ValueError;
  _ ← ensure (negb (sempty (strip endpoint))) ValueError;
  let model := strip model in
  let endpoint := strip endpoint in
  let d := remove_expired now d in
  match filter (λ kv, same_route model endpoint kv.2 = true) d with
  | [] =>
      let x := ModelServer endpoint model now 0 managed (negb managed) 0 false in
      Ok (dset d id x, describe_server now id x)
  | (k, x) :: _ =>
      let x := set_heartbeat now x in
      let x := if managed && negb (ms_managed x) then set_managed x else x in
      Ok (dset d k x, describe_server now k x)
  end.

(** [Heartbeat]: whether the server is still registered. *)
Definition heartbeat (id : string) (now : Z) (d : servers) : servers * bool :=
  if sempty id then (d, false)
  else
    let d := remove_expired now d in
    match dget d id with
    | None => (d, false)
    | Some x =>
        if ms_removed x || (negb (ms_managed x) && negb (server_healthy now x)) then (d, false)
        else (dset d id (set_heartbeat now x), true)
    end.

(** [list_backends] *)
Definition list_backends (now : Z) (d : servers) : servers * list description :=
  let d := remove_expired now d in
  (d, (λ kv, describe_server now kv.1 kv.2) <$> filter (λ kv, ms_removed kv.2 = false) d).

(** [remove_backend] *)
Definition remove_backend (id : string) (now : Z) (d : servers) : servers * bool :=
  match dget d id with
  | None => (d, false)
  | Some x =>
      if ms_removed x then (d, false)
      else (remove_expired now (dset d id (set_removed x)), true)
  end.

(** [health_targets]: the id, endpoint and model of every managed backend. *)
Definition health_targets (d : servers) : list (string * string * string) :=
  (λ kv, (kv.1, ms_endpoint kv.2, ms_model kv.2))
    <$> filter (λ kv, ms_managed kv.2 = true ∧ ms_removed kv.2 = false) d.

(** [record_health] on a server it applies to, and on the registry. *)
Definition observe_health (threshold : Z) (ok : bool) (x : model_server) : model_server :=
  if ok then set_health true 0 x
  else
    let failures := ms_failures x + 1 in
    set_health (if threshold <=? failures then false else ms_healthy x) failures x.
Definition record_health (id : string) (ok : bool) (threshold : Z) (d : servers) : servers :=
  match dget d id with
  | None => d
  | Some x => if ms_removed x || negb (ms_managed x) then d
              else dset d id (observe_health threshold ok x)
  end.

(** [has_healthy_server] *)
Definition usable (model : string) (now : Z) (x : model_server) : bool :=
  String.eqb (ms_model x) model && negb (ms_removed x) && server_healthy now x.
Definition has_healthy_server (model : string) (now : Z) (d : servers) : servers * bool :=
  let d := remove_expired now d in (d, existsb (λ kv, usable model now kv.2) d).

(** [acquire_server]: the loop, and the whole operation. *)
Definition pick (model : string) (now : Z) (selected : option (string * model_server))
    (kv : string * model_server) : option (string * model_server) :=
  if usable model now kv.2 then
    match selected with
    | None => Some kv
    | Some s => if ms_in_flight kv.2 <? ms_in_flight s.2 then Some kv else selected
    end
  else selected.
Definition acquire_server (model : string) (now : Z) (d : servers) :
    servers * option (string * string) :=
  let d := remove_expired now d in
  match foldl (pick model now) None d with
  | None => (d, None)
  | Some (k, x) => (dset d k (set_in_flight (ms_in_flight x + 1) x), Some (k, ms_endpoint x))
  end.

(** [release_server] *)
Definition release_server (id : string) (now : Z) (d : servers) : servers :=
  remove_expired now
    match dget d id with
    | Some x => if 0 <? ms_in_flight x then dset d id (set_in_flight (ms_in_flight x - 1) x) else d
    | None => d
    end.

(** [endpoints] *)
Definition registry_endpoints (now : Z) (d : servers) : servers * list string :=
  let d := remove_expired now d in (d, (λ kv, ms_endpoint kv.2) <$> d).

(** ** Inference calls

    The state [ModelInferenceClient] shares between calls, and one entry per
    call that has acquired a server: it is before the region under
    [_stubs_lock], waiting for the response, or about to release the server.
    [_channels] and [_stubs] always have the same keys and are one field;
    channels are numbered, [gw_open] holds those no [close] was called on. *)
Inductive call : Type :=
  | CallAcquired (server endpoint : string)
  | CallRunning (server endpoint : string) (channel : Z)
  | CallLeaving (server : string).

Definition call_server (c : call) : string :=
  match c with CallAcquired s _ | CallRunning s _ _ | CallLeaving s => s end.

Record gateway : Type := GatewayState {
  gw_servers : servers;
  gw_clock : Z;
  gw_channels : dict string Z;
  gw_open : gset Z;
  gw_next : Z;
  gw_closed : bool;
  gw_calls : list call;
}.

Definition gateway_init : gateway := GatewayState [] 0 [] ∅ 0 false [].

(** The region of [infer] under [_stubs_lock]: [None] when the client is
    closed, else the channel to use.  The channels of endpoints the registry no
    longer knows are closed; [fresh] numbers a new channel. *)
Definition stub_region (endpoint : string) (endpoints : list string) (closed : bool)
    (channels : dict string Z) (opened : gset Z) (fresh : Z) :
    option (dict string Z * gset Z * Z) :=
  if closed then None
  else
    let stale := filter (λ kv, kv.1 ∉ endpoints) channels in
    let kept := filter (λ kv, kv.1 ∈ endpoints) channels in
    let opened := opened ∖ list_to_set stale.*2 in
    match dget kept endpoint with
    | Some ch => Some (kept, opened, ch)
    | None => Some (dset kept endpoint fresh, {[fresh]} ∪ opened, fresh)
    end.

(** [ModelInferenceClient.close] *)
Definition close_client (g : gateway) : gateway :=
  GatewayState (gw_servers g) (gw_clock g) [] (gw_open g ∖ list_to_set (gw_channels g).*2)
    (gw_next g) true (gw_calls g).

(** One step: an operation of the registry, or of a call.  [GwBegin] is
    [acquire_server] at the start of [infer] (a call that gets no server ends at
    once), [GwStub] the region under the lock, [GwEnd] the end of the wait, by a
    response, an error, the deadline or a cancellation alike, and [GwRelease]
    the [finally] clause. *)
Inductive gateway_event : Type :=
  | GwRegister (id model endpoint : string) (managed : bool)
  | GwHeartbeat (id : string)
  | GwRemove (id : string)
  | GwHealth (id : string) (ok : bool) (threshold : Z)
  | GwPrune
  | GwBegin (model : string)
  | GwStub (i : nat)
  | GwEnd (i : nat)
  | GwRelease (i : nat)
  | GwClose.

Definition with_servers (d : servers) (now : Z) (g : gateway) : gateway :=
  GatewayState d now (gw_channels g) (gw_open g) (gw_next g) (gw_closed g) (gw_calls g).
Definition with_calls (cs : list call) (g : gateway) : gateway :=
  GatewayState (gw_servers g) (gw_clock g) (gw_channels g) (gw_open g) (gw_next g) (gw_closed g) cs.

Definition gateway_exec (now : Z) (e : gateway_event) (g : gateway) : option gateway :=
  if now <? gw_clock g then None
  else
    let d := gw_servers g in
    match e with
    | GwRegister id model endpoint managed =>
        if bool_decide (id ∈ dkeys d) then None
        else match register_server id now model endpoint managed d with
             | Ok (d', _) => Some (with_servers d' now g)
             | Err _ => Some g
             end
    | GwHeartbeat id => Some (with_servers (heartbeat id now d).1 now g)
    | GwRemove id => Some (with_servers (remove_backend id now d).1 now g)
    | GwHealth id ok threshold => Some (with_servers (record_health id ok threshold d) now g)
    | GwPrune => Some (with_servers (remove_expired now d) now g)
    | GwBegin model =>
        match acquire_server model now d with
        | (d', None) => Some (with_servers d' now g)
        | (d', Some (k, ep)) =>
            Some (with_calls (gw_calls g ++ [CallAcquired k ep]) (with_servers d' now g))
        end
    | GwStub i =>
        match gw_calls g !! i with
        | Some (CallAcquired k ep) =>
            if gw_closed g then Some (with_calls (<[i := CallLeaving k]> (gw_calls g)) g)
            else
              let '(d', eps) := registry_endpoints now d in
              match stub_region ep eps (gw_closed g) (gw_channels g) (gw_open g) (gw_next g) with
              | None => None
              | Some (channels, opened, ch) =>
                  Some (GatewayState d' now channels opened
                          (if ch =? gw_next g then gw_next g + 1 else gw_next g) (gw_closed g)
                          (<[i := CallRunning k ep ch]> (gw_calls g)))
              end
        | _ => None
        end
    | GwEnd i =>
        match gw_calls g !! i with
        | Some (CallRunning k _ _) => Some (with_calls (<[i := CallLeaving k]> (gw_calls g)) g)
        | _ => None
        end
    | GwRelease i =>
        match gw_calls g !! i with
        | Some (CallLeaving k) =>
            Some (with_calls (delete i (gw_calls g)) (with_servers (release_server k now d) now g))
        | _ => None
        end
    | GwClose => Some (close_client g)
    end.

Inductive gateway_reachable : gateway → Prop :=
  | gw_start : gateway_reachable gateway_init
  | gw_step g now e g' : gateway_reachable g → gateway_exec now e g = Some g' → gateway_reachable g'.

(** ** The invariant *)

(** The calls that hold a server. *)
Definition holders (k : string) (cs : list call) : nat := sum_list_with (λ c, one (call_server c = k)) cs.

(** The endpoint a call talks to is the one of its server. *)
Definition call_at (c : call) (x : model_server) : Prop :=
  match c with
  | CallAcquired _ ep | CallRunning _ ep _ => ms_endpoint x = ep
  | CallLeaving _ => True
  end.

(** What the registry guarantees to its clients: [cs] are the calls that have
    acquired a server and not released it. *)
Record registry_ok (d : servers) (cs : list call) : Prop := {
  rg_nodup : NoDup (dkeys d);
  rg_count k x : dget d k = Some x → ms_in_flight x = Z.of_nat (holders k cs);
  rg_live c : c ∈ cs → ∃ x, dget d (call_server c) = Some x ∧ call_at c x;
  rg_removed k x : dget d k = Some x → ms_removed x = true → 0 < ms_in_flight x;
  rg_route k1 k2 x1 x2 : dget d k1 = Some x1 → dget d k2 = Some x2 →
    ms_removed x1 = false → ms_removed x2 = false →
    ms_endpoint x1 = ms_endpoint x2 → ms_model x1 = ms_model x2 → k1 = k2;
}.

Record gateway_inv (g : gateway) : Prop := {
  gi_registry : registry_ok (gw_servers g) (gw_calls g);
  gi_running k ep ch : CallRunning k ep ch ∈ gw_calls g → gw_closed g = false →
    dget (gw_channels g) ep = Some ch;
  gi_keys : NoDup (dkeys (gw_channels g));
  gi_values : NoDup (gw_channels g).*2;
  gi_open ch : ch ∈ (gw_channels g).*2 → ch ∈ gw_open g ∧ ch < gw_next g;
}.

(** ** The registry under its operations *)

Lemma holders_app k cs c : holders k (cs ++ [c]) = (holders k cs + one (call_server c = k))%nat.
Proof. unfold holders. rewrite sum_app. simpl. lia. Qed.

Lemma holders_insert k cs i c c' : cs !! i = Some c → call_server c' = call_server c →
  holders k (<[i := c']> cs) = holders k cs.
Proof.
  intros Hi Hc. unfold holders. pose proof (sum_insert (λ c, one (call_server c = k)) cs i c c' Hi) as H.
  simpl in H. rewrite Hc in H. lia.
Qed.

Lemma holders_delete k cs i c : cs !! i = Some c →
  holders k cs = (one (call_server c = k) + holders k (delete i cs))%nat.
Proof. intros Hi. unfold holders. by rewrite (sum_delete _ _ _ _ Hi). Qed.

Lemma holders_pos cs c : c ∈ cs → (0 < holders (call_server c) cs)%nat.
Proof.
  intros Hc. apply (sum_pos (λ c', one (call_server c' = call_server c))) in Hc. simpl in Hc.
  rewrite one_true in Hc by done. unfold holders. lia.
Qed.

(** The invariant before the expired servers are swept. *)
Record registry_base (d : servers) (cs : list call) : Prop := {
  rb_nodup : NoDup (dkeys d);
  rb_count k x : dget d k = Some x → ms_in_flight x = Z.of_nat (holders k cs);
  rb_live c : c ∈ cs → ∃ x, dget d (call_server c) = Some x ∧ call_at c x;
  rb_route k1 k2 x1 x2 : dget d k1 = Some x1 → dget d k2 = Some x2 →
    ms_removed x1 = false → ms_removed x2 = false →
    ms_endpoint x1 = ms_endpoint x2 → ms_model x1 = ms_model x2 → k1 = k2;
}.

Lemma registry_ok_base d cs : registry_ok d cs → registry_base d cs.
Proof. by intros []. Qed.

Lemma remove_expired_get now d k x : NoDup (dkeys d) →
  dget (remove_expired now d) k = Some x ↔ dget d k = Some x ∧ is_expired now x = false.
Proof. intros Hd. unfold remove_expired. by rewrite dget_filter. Qed.

(** Sweeping keeps every server a call holds, and leaves no idle removed one. *)
Lemma sweep_ok now d cs : registry_base d cs → registry_ok (remove_expired now d) cs.
Proof.
  intros [Hn Hc Hl Hr]. constructor.
  - by apply dkeys_filter_NoDup.
  - intros k x [Hk _]%remove_expired_get; [by apply Hc|done].
  - intros c Hin. destruct (Hl c Hin) as (x & Hx & Hat). exists x. split; [|done].
    apply remove_expired_get; [done|]. split; [done|]. pose proof (holders_pos _ _ Hin). specialize (Hc _ _ Hx).
    unfold is_expired. rewrite andb_false_iff. right. lia.
  - intros k x [Hk He]%remove_expired_get Hrem; [|done]. unfold is_expired in He.
    rewrite Hrem in He. simpl in He. specialize (Hc _ _ Hk). lia.
  - intros k1 k2 x1 x2 [H1 _]%remove_expired_get [H2 _]%remove_expired_get; [eauto|done..].
Qed.

(** Replacing one entry: the calls that hold it change by its new count. *)
Lemma update_base d cs cs' k x x' : registry_base d cs → dget d k = Some x →
  ms_in_flight x' = Z.of_nat (holders k cs') → (∀ k', k' ≠ k → holders k' cs' = holders k' cs) →
  (∀ c, c ∈ cs' → c ∈ cs ∨ call_server c = k ∧ call_at c x) →
  ms_endpoint x' = ms_endpoint x → ms_model x' = ms_model x → (ms_removed x = true → ms_removed x' = true) →
  registry_base (dset d k x') cs'.
Proof.
  intros [Hn Hc Hl Hr] Hk Hx Hother Hcs He Hm Hrem. constructor.
  - by apply dset_NoDup.
  - intros k' y. rewrite dget_dset. case_decide; [by intros [= <-]; subst|].
    intros Hy. rewrite Hother by done. by apply Hc.
  - intros c Hin. rewrite dget_dset. assert (∃ y, dget d (call_server c) = Some y ∧ call_at c y) as (y & Hy & Hat).
    { destruct (Hcs c Hin) as [|[-> Hat]]; [by apply Hl|by exists x]. }
    case_decide; [|by eexists]. subst. exists x'. split; [done|]. simplify_eq.
    destruct c; simpl in *; congruence.
  - intros k1 k2 y1 y2. rewrite !dget_dset. intros H1 H2 R1 R2 Heq Hmod.
    assert (ms_removed x' = false → ms_removed x = false) as Hx'
      by (intros R; destruct (ms_removed x); [by rewrite Hrem in R|done]).
    repeat case_decide; subst; [done| | |by eapply (Hr k1 k2 y1 y2)]; simplify_eq.
    + apply (Hr k1 k2 y1 x); auto; congruence.
    + apply (Hr k1 k2 x y2); auto; congruence.
Qed.

Lemma update_ok d cs cs' k x x' : registry_ok d cs → dget d k = Some x →
  ms_in_flight x' = Z.of_nat (holders k cs') → (∀ k', k' ≠ k → holders k' cs' = holders k' cs) →
  (∀ c, c ∈ cs' → c ∈ cs ∨ call_server c = k ∧ call_at c x) →
  ms_endpoint x' = ms_endpoint x → ms_model x' = ms_model x → ms_removed x' = ms_removed x →
  ms_in_flight x ≤ ms_in_flight x' →
  registry_ok (dset d k x') cs'.
Proof.
  intros Hok Hk Hx Hother Hcs He Hm Hrem Hle.
  assert (registry_base (dset d k x') cs') as [????]
    by (eapply update_base; eauto using registry_ok_base; congruence).
  constructor; [done..| |done]. intros k' y. rewrite dget_dset. case_decide.
  - intros [= <-] R. rewrite Hrem in R. pose proof (rg_removed _ _ Hok _ _ Hk R). lia.
  - apply (rg_removed _ _ Hok).
Qed.

(** Assigning only to heartbeat, health and management changes nothing else. *)
Lemma touch_ok d cs k x x' : registry_ok d cs → dget d k = Some x →
  ms_in_flight x' = ms_in_flight x → ms_endpoint x' = ms_endpoint x → ms_model x' = ms_model x →
  ms_removed x' = ms_removed x → registry_ok (dset d k x') cs.
Proof.
  intros Hok Hk Hf ???. eapply update_ok; eauto; [|lia]. rewrite Hf. by apply (rg_count _ _ Hok).
Qed.

Lemma calls_ok d cs i c c' : registry_ok d cs → cs !! i = Some c → call_server c' = call_server c →
  (∀ x, call_at c x → call_at c' x) → registry_ok d (<[i := c']> cs).
Proof.
  intros [Hn Hc Hl Hrem Hr] Hi Hs Hat. constructor; [done| | |done..].
  - intros k x Hk. rewrite (holders_insert _ _ _ _ _ Hi Hs). by apply Hc.
  - intros c0 [j Hj]%list_elem_of_lookup. apply list_lookup_insert_Some in Hj as [(-> & <- & _)|[_ Hj]].
    + rewrite Hs. destruct (Hl c) as (x & ? & ?); eauto using list_elem_of_lookup_2.
    + eauto using list_elem_of_lookup_2.
Qed.

Lemma register_ok id now model endpoint managed d cs d' r :
  registry_ok d cs → id ∉ dkeys d → register_server id now model endpoint managed d = Ok (d', r) →
  registry_ok d' cs.
Proof.
  intros Hok Hid Hreg. unfold register_server in Hreg. inv_bind.
  pose proof (sweep_ok now _ _ (registry_ok_base _ _ Hok)) as Hs.
  set (d0 := remove_expired now d) in *.
  destruct (filter (λ kv, same_route (strip model) (strip endpoint) kv.2 = true) d0)
    as [|[k z] l] eqn:Hf; inv_bind.
  - assert (dget d0 id = None) as Hnone.
    { destruct (dget d0 id) as [y|] eqn:Hy; [|done]. apply remove_expired_get in Hy as [Hy _]; [|apply Hok].
      exfalso. apply Hid, dget_is_Some. by eexists. }
    destruct Hs as [Hn Hc Hl Hrem Hr].
    assert (holders id cs = 0%nat) as Hzero.
    { unfold holders. apply sum_zero. intros c Hin. apply one_false. intros <-.
      destruct (Hl _ Hin) as (? & ? & _). congruence. }
    assert (∀ k y, dget d0 k = Some y → ms_removed y = false → ms_endpoint y = strip endpoint →
              ms_model y = strip model → False) as Hnew.
    { intros k y Hk%dget_elem R E M. assert ((k, y) ∈ []) as []%elem_of_nil. rewrite <- Hf.
      apply list_elem_of_filter. split; [|done]. unfold same_route. simpl.
      rewrite R, E, M, !String.eqb_refl. done. }
    constructor.
    + by apply dset_NoDup.
    + intros k y. rewrite dget_dset. case_decide; [|by apply Hc]. intros [= <-]; subst. simpl. by rewrite Hzero.
    + intros c Hin. rewrite dget_dset. destruct (Hl c Hin) as (y & Hy & ?).
      case_decide; [congruence|by exists y].
    + intros k y. rewrite dget_dset. case_decide; [by intros [= <-]|]. apply Hrem.
    + intros k1 k2 x1 x2. rewrite !dget_dset. intros H1 H2 R1 R2 He Hm.
      repeat case_decide; subst; [done| | |by eapply (Hr k1 k2 x1 x2)]; simplify_eq; simpl in *; exfalso;
        [eapply (Hnew k1 x1)|eapply (Hnew k2 x2)]; eauto.
  - assert ((k, z) ∈ d0) as Hin.
    { assert ((k, z) ∈ (k, z) :: l) as Hl by by left. rewrite <- Hf in Hl.
      by apply list_elem_of_filter in Hl as [_ Hl]. }
    apply (elem_dget _ _ _ (rg_nodup _ _ Hs)) in Hin.
    eapply touch_ok; [done|exact Hin|..]; by destruct (managed && _).
Qed.

Lemma heartbeat_ok id now d cs : registry_ok d cs → registry_ok (heartbeat id now d).1 cs.
Proof.
  intros Hok. unfold heartbeat. destruct (sempty id); [done|].
  pose proof (sweep_ok now _ _ (registry_ok_base _ _ Hok)) as Hs. simpl.
  destruct (dget (remove_expired now d) id) eqn:Hx; [|done]. case_match; [done|].
  by eapply touch_ok.
Qed.

Lemma remove_ok id now d cs : registry_ok d cs → registry_ok (remove_backend id now d).1 cs.
Proof.
  intros Hok. unfold remove_backend. destruct (dget d id) as [x|] eqn:Hx; [|done].
  destruct (ms_removed x) eqn:R; [done|]. simpl. apply sweep_ok.
  eapply update_base; eauto using registry_ok_base; simpl. by apply (rg_count _ _ Hok).
Qed.

Lemma health_ok id ok threshold d cs : registry_ok d cs → registry_ok (record_health id ok threshold d) cs.
Proof.
  intros Hok. unfold record_health. destruct (dget d id) eqn:Hx; [|done]. case_match; [done|].
  eapply touch_ok; [done|exact Hx|..]; unfold observe_health; by destruct ok.
Qed.

(** What the loop of [acquire_server] selects. *)
Lemma pick_spec model now d acc :
  match foldl (pick model now) acc d with
  | Some s =>
      (acc = Some s ∨ s ∈ d ∧ usable model now s.2 = true)
      ∧ (∀ s0, acc = Some s0 → ms_in_flight s.2 ≤ ms_in_flight s0.2)
      ∧ ∀ kv, kv ∈ d → usable model now kv.2 = true → ms_in_flight s.2 ≤ ms_in_flight kv.2
  | None => acc = None ∧ ∀ kv, kv ∈ d → usable model now kv.2 = false
  end.
Proof.
  revert acc. induction d as [|kv d IH]; intros acc; simpl.
  - destruct acc as [s|]; [|split; [done|by intros ? ?%elem_of_nil]].
    split_and!; [by left|by intros ? [= <-]|by intros ? ?%elem_of_nil].
  - specialize (IH (pick model now acc kv)). destruct (foldl _ _ d) as [s|].
    + destruct IH as (Hs & Hle & Hall). unfold pick in Hs, Hle.
      destruct (usable model now kv.2) eqn:Hu.
      * destruct acc as [s0|]; [destruct (Z.ltb_spec (ms_in_flight kv.2) (ms_in_flight s0.2))|].
        -- specialize (Hle _ eq_refl). split_and!.
           ++ right. destruct Hs as [[= <-]|[]]; [by split; [left|]|by split; [right|]].
           ++ intros ? [= <-]. lia.
           ++ intros kv' [-> | Hin]%elem_of_cons ?; [done|by apply Hall].
        -- specialize (Hle _ eq_refl). split_and!.
           ++ destruct Hs as [|[]]; [by left|right; by split; [right|]].
           ++ by intros ? [= <-].
           ++ intros kv' [-> | Hin]%elem_of_cons ?; [lia|by apply Hall].
        -- specialize (Hle _ eq_refl). split_and!.
           ++ right. destruct Hs as [[= <-]|[]]; [by split; [left|]|by split; [right|]].
           ++ done.
           ++ intros kv' [-> | Hin]%elem_of_cons ?; [done|by apply Hall].
      * split_and!; [|done|].
        -- destruct Hs as [|[]]; [by left|right; by split; [right|]].
        -- intros kv' [-> | Hin]%elem_of_cons ?; [congruence|by apply Hall].
    + destruct IH as [Hacc Hall]. unfold pick in Hacc. destruct (usable model now kv.2) eqn:Hu.
      { destruct acc; [by destruct (_ <? _)|done]. }
      split; [done|]. intros kv' [-> | Hin]%elem_of_cons; [done|by apply Hall].
Qed.

Lemma acquire_ok model now d cs d' k ep :
  registry_ok d cs → acquire_server model now d = (d', Some (k, ep)) →
  registry_ok d' (cs ++ [CallAcquired k ep]).
Proof.
  intros Hok Hacq. unfold acquire_server in Hacq.
  pose proof (sweep_ok now _ _ (registry_ok_base _ _ Hok)) as Hs.
  pose proof (pick_spec model now (remove_expired now d) None) as Hpick.
  destruct (foldl _ _ _) as [[k0 x]|]; [|done]. injection Hacq as <- -> <-.
  destruct Hpick as ([|[Hin _]] & _ & _); [done|].
  apply (elem_dget _ _ _ (rg_nodup _ _ Hs)) in Hin. pose proof (rg_count _ _ Hs _ _ Hin) as Hc.
  eapply update_ok; try done.
  - rewrite holders_app. simpl. rewrite one_true by done. lia.
  - intros k' Hk'. rewrite holders_app. simpl. rewrite one_false by congruence. lia.
  - intros c. rewrite elem_of_app, list_elem_of_singleton. intros [? | -> ]; [by left|by right].
  - simpl. lia.
Qed.

Lemma no_server_ok model now d cs d' :
  registry_ok d cs → acquire_server model now d = (d', None) → registry_ok d' cs.
Proof.
  unfold acquire_server. intros Hok. case_match; [by case_match|]. intros [= <-].
  by apply sweep_ok, registry_ok_base.
Qed.

Lemma release_ok k now d cs i c : registry_ok d cs → cs !! i = Some c → call_server c = k →
  registry_ok (release_server k now d) (delete i cs).
Proof.
  intros Hok Hi Hk. apply sweep_ok.
  destruct (rg_live _ _ Hok c) as (x & Hx & Hat); [by eapply list_elem_of_lookup_2|].
  rewrite Hk in Hx. rewrite Hx. pose proof (rg_count _ _ Hok _ _ Hx) as Hc.
  rewrite (holders_delete _ _ _ _ Hi), one_true in Hc by done.
  destruct (Z.ltb_spec 0 (ms_in_flight x)); [|lia].
  eapply update_base; eauto using registry_ok_base.
  - simpl. lia.
  - intros k' Hk'. rewrite (holders_delete _ cs _ _ Hi), one_false by congruence. done.
  - intros c' Hc'. left. by eapply elem_delete.
Qed.

(** The channels after the region under [_stubs_lock]. *)
Lemma filter_values_NoDup (P : string * Z → Prop) `{∀ p, Decision (P p)} (d : dict string Z) :
  NoDup d.*2 → NoDup (filter P d).*2.
Proof.
  induction d as [|p d IH]; [done|]. rewrite filter_cons. simpl. rewrite NoDup_cons.
  intros [Hn Hd]. case_decide; [|auto]. simpl. apply NoDup_cons; split; [|auto].
  intros (q & Hq & Hin)%list_elem_of_fmap. apply list_elem_of_filter in Hin as [_ Hin]. apply Hn.
  rewrite Hq. apply list_elem_of_fmap. by exists q.
Qed.

Lemma dset_fresh_values (d : dict string Z) k v : dget d k = None → (dset d k v).*2 = d.*2 ++ [v].
Proof.
  induction d as [|[k' v'] d IH]; [done|]. simpl. case_decide; [done|]. intros H1. simpl. f_equal. exact (IH H1).
Qed.

(** Channels that stay in the dictionary stay open: only stale ones are closed. *)
Lemma kept_open (P : string * Z → Prop) `{∀ p, Decision (P p)} (d : dict string Z) (opened : gset Z) ch :
  NoDup d.*2 → (∀ ch, ch ∈ d.*2 → ch ∈ opened) →
  ch ∈ (filter P d).*2 → ch ∈ opened ∖ list_to_set (filter (λ p, ¬ P p) d).*2.
Proof.
  intros Hn Hopen Hch. apply list_elem_of_fmap in Hch as ([k v] & -> & Hin). simpl.
  apply list_elem_of_filter in Hin as [HP Hin].
  apply elem_of_difference. split; [apply Hopen, list_elem_of_fmap; by exists (k, v)|].
  rewrite elem_of_list_to_set. intros ([k' v'] & Hv & Hin')%list_elem_of_fmap.
  apply list_elem_of_filter in Hin' as [HP' Hin']. simpl in Hv. subst v'.
  assert ((k, v) = (k', v)) as Heq; [|simplify_eq; done].
  apply list_elem_of_lookup in Hin as [i Hi]. apply list_elem_of_lookup in Hin' as [j Hj].
  assert (i = j) as <-; [|congruence]. eapply (NoDup_lookup d.*2 i j v Hn); rewrite list_lookup_fmap.
  - by rewrite Hi.
  - by rewrite Hj.
Qed.

Lemma stub_region_spec ep eps channels opened fresh channels' opened' ch :
  NoDup (dkeys channels) → NoDup channels.*2 →
  (∀ c, c ∈ channels.*2 → c ∈ opened ∧ c < fresh) → ep ∈ eps →
  stub_region ep eps false channels opened fresh = Some (channels', opened', ch) →
  dget channels' ep = Some ch
  ∧ (∀ e c, e ∈ eps → dget channels e = Some c → dget channels' e = Some c)
  ∧ NoDup (dkeys channels') ∧ NoDup channels'.*2
  ∧ ∀ c, c ∈ channels'.*2 → c ∈ opened' ∧ c < (if ch =? fresh then fresh + 1 else fresh).
Proof.
  intros Hk Hv Hopen Hep Hstub. unfold stub_region in Hstub.
  set (kept := filter (λ kv, kv.1 ∈ eps) channels) in *.
  assert (∀ c, c ∈ kept.*2 → c ∈ opened ∖ list_to_set (filter (λ kv : string * Z, kv.1 ∉ eps) channels).*2
            ∧ c < fresh) as Hkept.
  { intros c Hc. split; [apply (kept_open (λ kv, kv.1 ∈ eps)); [done|by intros ? []%Hopen|done]|].
    apply Hopen. apply list_elem_of_fmap in Hc as (p & -> & Hp).
    apply list_elem_of_filter in Hp as [_ Hp]. apply list_elem_of_fmap. by exists p. }
  assert (∀ e c, e ∈ eps → dget channels e = Some c → dget kept e = Some c) as Hkeep
    by (intros; by apply dget_filter).
  pose proof (dkeys_filter_NoDup (λ kv, kv.1 ∈ eps) _ Hk) as Hkk. fold kept in Hkk.
  pose proof (filter_values_NoDup (λ kv, kv.1 ∈ eps) _ Hv) as Hkv. fold kept in Hkv.
  destruct (dget kept ep) as [c0|] eqn:Hget; injection Hstub as <- <- <-.
  - split_and!; try done. intros c Hc. destruct (Hkept c Hc). split; [done|]. case_match; lia.
  - rewrite Z.eqb_refl. split_and!.
    + apply dget_dset_eq.
    + intros e c He Hc. rewrite dget_dset_ne; [by apply Hkeep|]. intros <-.
      rewrite (Hkeep _ _ He Hc) in Hget. done.
    + by apply dset_NoDup.
    + rewrite dset_fresh_values by done. apply NoDup_app. split_and!; [done| |apply NoDup_singleton].
      intros c Hc ->%list_elem_of_singleton. destruct (Hkept _ Hc). lia.
    + intros c. rewrite dset_fresh_values, elem_of_app, list_elem_of_singleton by done.
      intros [[? ?]%Hkept| ->]; [set_solver by lia|]. split; [set_solver|lia].
Qed.

(** ** The invariant holds *)

Lemma gateway_inv_init : gateway_inv gateway_init.
Proof.
  constructor; simpl; [constructor; simpl|..]; try by intros ? ?%elem_of_nil.
  all: try by constructor. all: try done. by intros ??? ?%elem_of_nil.
Qed.

Lemma with_servers_inv d now g : gateway_inv g → registry_ok d (gw_calls g) →
  gateway_inv (with_servers d now g).
Proof. by intros []; constructor. Qed.

(** A call that starts, or that goes on to its end, uses no new channel. *)
Lemma with_calls_inv cs g : gateway_inv g → registry_ok (gw_servers g) cs →
  (∀ k ep ch, CallRunning k ep ch ∈ cs → CallRunning k ep ch ∈ gw_calls g) →
  gateway_inv (with_calls cs g).
Proof. intros [] ? Hcs. constructor; simpl; eauto. Qed.

Lemma leaving_inv g i c k : gateway_inv g → gw_calls g !! i = Some c → call_server c = k →
  gateway_inv (with_calls (<[i := CallLeaving k]> (gw_calls g)) g).
Proof.
  intros Hinv Hi Hk. apply with_calls_inv; [done|by apply (calls_ok _ _ _ c); [apply Hinv|..]|].
  intros k' ep ch [j Hj]%list_elem_of_lookup.
  apply list_lookup_insert_Some in Hj as [(_ & ? & _)|[_ Hj]]; [done|].
  by eapply list_elem_of_lookup_2.
Qed.

Lemma stub_inv g i k ep now d' eps channels opened ch :
  gateway_inv g → gw_calls g !! i = Some (CallAcquired k ep) → gw_closed g = false →
  registry_endpoints now (gw_servers g) = (d', eps) →
  stub_region ep eps (gw_closed g) (gw_channels g) (gw_open g) (gw_next g) = Some (channels, opened, ch) →
  gateway_inv (GatewayState d' now channels opened
    (if ch =? gw_next g then gw_next g + 1 else gw_next g) (gw_closed g)
    (<[i := CallRunning k ep ch]> (gw_calls g))).
Proof.
  intros [Hreg Hrun Hk Hv Hop] Hi Hclosed Heps Hstub. rewrite Hclosed in Hstub.
  injection Heps as <- <-.
  pose proof (sweep_ok now _ _ (registry_ok_base _ _ Hreg)) as Hs.
  assert (∀ c x, c ∈ gw_calls g → dget (remove_expired now (gw_servers g)) (call_server c) = Some x →
            ms_endpoint x ∈ (λ kv, ms_endpoint kv.2) <$> remove_expired now (gw_servers g)) as Hin.
  { intros c x _ Hx%dget_elem. apply list_elem_of_fmap. by exists (call_server c, x). }
  assert (∀ k ep c, c ∈ gw_calls g → (c = CallAcquired k ep ∨ ∃ ch, c = CallRunning k ep ch) →
            ep ∈ (λ kv, ms_endpoint kv.2) <$> remove_expired now (gw_servers g)) as Heps.
  { intros k0 ep0 c Hc Hshape. destruct (rg_live _ _ Hs c Hc) as (x & Hx & Hat).
    destruct Hshape as [-> |[? ->]]; simpl in Hat; rewrite <- Hat; by eapply Hin. }
  pose proof (list_elem_of_lookup_2 _ _ _ Hi) as Hci.
  apply stub_region_spec in Hstub as (Hget & Hkeep & Hk' & Hv' & Hop'); [|done..|by eapply Heps; eauto].
  constructor; simpl; try done.
  - by apply (calls_ok _ _ _ (CallAcquired k ep)).
  - intros k0 ep0 ch0 [j Hj]%list_elem_of_lookup _.
    apply list_lookup_insert_Some in Hj as [(_ & [= -> -> ->] & _)|[_ Hj]]; [done|].
    apply list_elem_of_lookup_2 in Hj. apply Hkeep; [by eapply Heps; eauto|by eapply Hrun].
Qed.

Lemma gateway_inv_step now e g g' : gateway_inv g → gateway_exec now e g = Some g' → gateway_inv g'.
Proof.
  intros Hinv Hexec. pose proof (gi_registry _ Hinv) as Hreg. unfold gateway_exec in Hexec.
  destruct (now <? gw_clock g); [done|]. destruct e; simpl in Hexec.
  - case_bool_decide as Hid; [done|].
    destruct (register_server _ _ _ _ _ _) as [[d' r]|] eqn:Hr; injection Hexec as <-; [|done].
    apply with_servers_inv; [done|by eapply register_ok].
  - injection Hexec as <-. apply with_servers_inv; [done|by apply heartbeat_ok].
  - injection Hexec as <-. apply with_servers_inv; [done|by apply remove_ok].
  - injection Hexec as <-. apply with_servers_inv; [done|by apply health_ok].
  - injection Hexec as <-. apply with_servers_inv; [done|by apply sweep_ok, registry_ok_base].
  - destruct (acquire_server _ _ _) as [d' [[k ep]|]] eqn:Ha; injection Hexec as <-.
    + apply acquire_ok with (cs := gw_calls g) in Ha; [|done].
      destruct Hinv as [_ Hrun ???]. constructor; simpl; try done.
      intros k0 ep0 ch0. rewrite elem_of_app, list_elem_of_singleton. intros [Hin|Hin] ?; [by eapply Hrun|done].
    + apply with_servers_inv; [done|by eapply no_server_ok].
  - destruct (gw_calls g !! i) as [[k ep| |]|] eqn:Hi; try done.
    destruct (gw_closed g) eqn:Hc; [injection Hexec as <-; by eapply leaving_inv|].
    rewrite <- Hc in Hexec. simpl in Hexec. destruct (stub_region _ _ _ _ _ _) as [[[channels opened] ch]|] eqn:Hs; [|done].
    injection Hexec as <-. by eapply stub_inv.
  - destruct (gw_calls g !! i) as [[| |]|] eqn:Hi; try done. injection Hexec as <-. by eapply leaving_inv.
  - destruct (gw_calls g !! i) as [[| |k]|] eqn:Hi; try done. injection Hexec as <-.
    destruct Hinv as [_ Hrun ???]. constructor; simpl; try done; [by eapply release_ok|].
    intros k0 ep0 ch0 Hin ?. eapply Hrun; [by eapply elem_delete|done].
  - injection Hexec as <-. destruct Hinv. unfold close_client. constructor; simpl; try done.
    all: try (by apply NoDup_nil_2). by intros ? ?%elem_of_nil.
Qed.

Lemma gateway_reachable_inv g : gateway_reachable g → gateway_inv g.
Proof. induction 1; [apply gateway_inv_init|by eapply gateway_inv_step]. Qed.

(** ** Properties *)

(** C36: the in-flight count of a model server is exact: in every reachable
    state it is the number of inference calls that hold the server, so it is
    zero when no call is under way; a server is never dropped while a call holds
    it, a removed one stays only as long as that, and no route has two active
    servers. *)
Theorem gateway_accounting g : gateway_reachable g →
  (∀ k x, dget (gw_servers g) k = Some x → ms_in_flight x = Z.of_nat (holders k (gw_calls g)))
  ∧ (∀ c, c ∈ gw_calls g → ∃ x, dget (gw_servers g) (call_server c) = Some x ∧ call_at c x)
  ∧ (∀ k x, dget (gw_servers g) k = Some x → ms_removed x = true → (0 < holders k (gw_calls g))%nat)
  ∧ ∀ k1 k2 x1 x2, dget (gw_servers g) k1 = Some x1 → dget (gw_servers g) k2 = Some x2 →
      same_route (ms_model x1) (ms_endpoint x1) x1 = true →
      same_route (ms_model x1) (ms_endpoint x1) x2 = true → k1 = k2.
Proof.
  intros Hr. destruct (gateway_reachable_inv _ Hr) as [Hok _ _ _ _]. split_and!; try apply Hok.
  - intros k x Hx Hrem. pose proof (rg_removed _ _ Hok _ _ Hx Hrem).
    rewrite (rg_count _ _ Hok _ _ Hx) in H. lia.
  - unfold same_route. intros k1 k2 x1 x2 H1 H2 R1 R2.
    rewrite !andb_true_iff, !negb_true_iff, !String.eqb_eq in *.
    destruct R1 as [[? _] _], R2 as [[? ?] ?]. by apply (rg_route _ _ Hok k1 k2 x1 x2).
Qed.

(** A call under way never loses its channel: the channel it uses stays
    open until the client itself is closed, although other calls keep closing
    the channels of endpoints that left the registry; and two calls share a
    channel exactly when they talk to the same endpoint. *)
Theorem channel_open_while_used g k ep ch : gateway_reachable g → gw_closed g = false →
  CallRunning k ep ch ∈ gw_calls g →
  ch ∈ gw_open g
  ∧ ∀ k' ep' ch', CallRunning k' ep' ch' ∈ gw_calls g → ch' = ch ↔ ep' = ep.
Proof.
  intros Hr Hc Hin. destruct (gateway_reachable_inv _ Hr) as [_ Hrun Hk Hv Hopen].
  pose proof (Hrun _ _ _ Hin Hc) as Hch%dget_elem. split.
  - apply Hopen. apply list_elem_of_fmap. by exists (ep, ch).
  - intros k' ep' ch' Hin'. pose proof (Hrun _ _ _ Hin' Hc) as Hch'. split.
    + intros ->. apply dget_elem in Hch'. apply list_elem_of_lookup in Hch as [i Hi].
      apply list_elem_of_lookup in Hch' as [j Hj].
      assert (i = j) as <-; [|congruence]. apply (NoDup_lookup _ i j ch Hv);
        rewrite list_lookup_fmap; [by rewrite Hi|by rewrite Hj].
    + intros ->. rewrite (elem_dget _ _ _ Hk Hch) in Hch'. congruence.
Qed.

Lemma usable_kept model now d k x : NoDup (dkeys d) → usable model now x = true →
  dget (remove_expired now d) k = Some x ↔ dget d k = Some x.
Proof.
  intros Hd Hu. rewrite remove_expired_get by done. split; [by intros []|]. intros Hx. split; [done|].
  unfold usable, server_healthy in Hu. unfold is_expired. rewrite !andb_true_iff, negb_true_iff in Hu.
  destruct Hu as [[_ ->] Hh]. destruct (ms_managed x); simpl in *; [done|].
  apply Z.leb_le in Hh. destruct (Z.ltb_spec HEARTBEAT_TIMEOUT (now - ms_heartbeat x)); [lia|done].
Qed.

(** A call goes to a healthy, not removed server of its model with the
    fewest calls in flight, whose count it then raises by one; it gets none
    exactly when [has_healthy_server] reports that none is healthy. *)
Theorem acquire_least_loaded model now d : NoDup (dkeys d) →
  match acquire_server model now d with
  | (d', Some (k, ep)) => ∃ x, dget d k = Some x ∧ ms_endpoint x = ep ∧ usable model now x = true
      ∧ (∀ k' x', dget d k' = Some x' → usable model now x' = true → ms_in_flight x ≤ ms_in_flight x')
      ∧ dget d' k = Some (set_in_flight (ms_in_flight x + 1) x)
      ∧ (has_healthy_server model now d).2 = true
  | (_, None) => (∀ k x, dget d k = Some x → usable model now x = false)
      ∧ (has_healthy_server model now d).2 = false
  end.
Proof.
  intros Hd. unfold acquire_server, has_healthy_server. simpl.
  pose proof (pick_spec model now (remove_expired now d) None) as Hp.
  assert (NoDup (dkeys (remove_expired now d))) as Hd' by by apply dkeys_filter_NoDup.
  destruct (foldl _ _ _) as [[k x]|].
  - destruct Hp as ([|[Hin Hu]] & _ & Hall); [done|]. exists x. simpl in *.
    pose proof (proj1 (usable_kept _ _ _ _ _ Hd Hu) (elem_dget _ _ _ Hd' Hin)) as Hx. split_and!; try done.
    + intros k' x' Hx' Hu'. apply (Hall (k', x')); [|done]. by apply dget_elem, (usable_kept model).
    + by rewrite dget_dset_eq.
    + apply existsb_exists. exists (k, x). split; [by apply list_elem_of_In|done].
  - destruct Hp as [_ Hall]. split.
    + intros k x Hx. destruct (usable model now x) eqn:Hu; [|done]. rewrite <- Hu.
      apply (Hall (k, x)). by apply dget_elem, (usable_kept model).
    + apply not_true_is_false. intros ([k x] & Hin & Hu)%existsb_exists.
      apply list_elem_of_In in Hin. by rewrite (Hall _ Hin) in Hu.
Qed.

(** The probe results of a managed server, oldest first: the last successful
    probe is followed by fewer than [threshold] failures. *)
Definition recently_ok (threshold : Z) (results : list bool) : Prop :=
  ∃ before after, results = before ++ true :: after
    ∧ Forall (λ ok, ok = false) after ∧ Z.of_nat (List.length after) < threshold.

(** The state [observe_health] keeps: the failures since the last success. *)
Lemma observe_results threshold x results : 1 ≤ threshold →
  ms_healthy x = false → ms_failures x = 0 →
  let y := foldl (λ x ok, observe_health threshold ok x) x results in
  (∃ before after, results = before ++ after ∧ Forall (λ ok, ok = false) after
     ∧ ms_failures y = Z.of_nat (List.length after)
     ∧ (before = [] ∧ ms_healthy y = false
        ∨ (∃ b, before = b ++ [true]) ∧ ms_healthy y = (ms_failures y <? threshold))).
Proof.
  intros Ht Hh Hf. induction results as [|ok results IH] using rev_ind; simpl.
  - exists [], []. rewrite Hh, Hf. split_and!; [done|done|done|by left].
  - rewrite foldl_snoc. destruct IH as (before & after & -> & Hall & Hn & Hcase). destruct ok; simpl.
    + exists (before ++ after ++ [true]), []. rewrite <- app_assoc, app_nil_r. split_and!; try done.
      right. split; [exists (before ++ after); by rewrite app_assoc|].
      symmetry. apply Z.ltb_lt. lia.
    + exists before, (after ++ [false]). rewrite <- app_assoc, Forall_app, length_app. simpl.
      split_and!; [done|done|by repeat constructor|lia|].
      destruct Hcase as [[-> ->]|[Hb ->]]; [left|right].
      * split; [done|]. by destruct (_ <=? _).
      * split; [done|]. destruct (Z.leb_spec threshold (ms_failures (foldl (λ x ok, observe_health threshold ok x) x (before ++ after)) + 1));
          destruct (Z.ltb_spec (ms_failures (foldl (λ x ok, observe_health threshold ok x) x (before ++ after)) + 1) threshold);
          try lia; done.
Qed.

(** The health of a managed server refines its probe history: a server
    that was added unprobed is healthy exactly when some probe succeeded and
    fewer than [threshold] probes failed after the last success. *)
Theorem health_history threshold x results : 1 ≤ threshold →
  ms_healthy x = false → ms_failures x = 0 →
  ms_healthy (foldl (λ x ok, observe_health threshold ok x) x results) = true
  ↔ recently_ok threshold results.
Proof.
  intros Ht Hh Hf. destruct (observe_results threshold x results Ht Hh Hf)
    as (before & after & Hres & Hall & Hn & Hcase). rewrite Hres in *. split.
  - intros Hy. destruct Hcase as [[_ Hno]|[[b ->] Hyes]]; [congruence|].
    exists b, after. split; [by rewrite <- app_assoc|]. split; [done|]. rewrite Hyes in Hy. lia.
  - intros (b' & a' & Heq & Hall' & Hlt). destruct Hcase as [[-> _]|[[b ->] ->]].
    + simpl in Heq. rewrite Heq, Forall_app, Forall_cons in Hall. by destruct Hall as (_ & ? & _).
    + apply Z.ltb_lt. rewrite Hn. assert (List.length after ≤ List.length a')%nat; [|lia].
      rewrite <- app_assoc in Heq. simpl in Heq.
      apply app_eq_inv in Heq as [(k & _ & H2)|(k & _ & H2)];
        destruct k as [|ok k]; simpl in H2; simplify_eq; try done.
      * rewrite Forall_app, Forall_cons in Hall'. by destruct Hall' as (_ & ? & _).
      * rewrite Forall_app, Forall_cons in Hall. by destruct Hall as (_ & ? & _).
Qed.

(** A heartbeat is a lease: a server that registers itself and whose
    heartbeat is accepted can be chosen for the next 15 seconds, and if it stays
    silent longer it is not chosen and its next heartbeat is refused. *)
Theorem heartbeat_lease id now d d' x later : NoDup (dkeys d) →
  heartbeat id now d = (d', true) → dget d' id = Some x → ms_managed x = false → now ≤ later →
  if later <=? now + HEARTBEAT_TIMEOUT
  then usable (ms_model x) later x = true ∧ dget (remove_expired later d') id = Some x
  else usable (ms_model x) later x = false ∧ (heartbeat id later d').2 = false.
Proof.
  intros Hd Hbeat Hx Hm Hle. unfold heartbeat in Hbeat. destruct (sempty id) eqn:Hid; [done|].
  assert (NoDup (dkeys (remove_expired now d))) as Hd0 by by apply dkeys_filter_NoDup.
  destruct (dget (remove_expired now d) id) as [y|] eqn:Hy; [|done].
  destruct (ms_removed y || _) eqn:Hg; [done|]. injection Hbeat as <-.
  rewrite dget_dset_eq in Hx. injection Hx as <-. simpl in *.
  apply orb_false_iff in Hg as [Hrem _].
  assert (NoDup (dkeys (dset (remove_expired now d) id (set_heartbeat now y)))) as Hd1 by by apply dset_NoDup.
  destruct (Z.leb_spec later (now + HEARTBEAT_TIMEOUT)).
  - assert (usable (ms_model y) later (set_heartbeat now y) = true) as Hu.
    { unfold usable, server_healthy. simpl. rewrite String.eqb_refl, Hrem, Hm. apply Z.leb_le. lia. }
    split; [done|]. apply (usable_kept (ms_model y)); [done..|]. apply dget_dset_eq.
  - assert (server_healthy later (set_heartbeat now y) = false) as Hu.
    { unfold server_healthy. simpl. rewrite Hm. apply Z.leb_gt. lia. }
    split; [unfold usable; by rewrite Hu, andb_false_r|]. unfold heartbeat. rewrite Hid.
    destruct (dget (remove_expired later _) id) as [z|] eqn:Hz; [|done].
    apply remove_expired_get in Hz as [Hz _]; [|done]. rewrite dget_dset_eq in Hz. injection Hz as <-.
    rewrite Hu. cbn [ms_removed ms_managed set_heartbeat]. by rewrite Hrem, Hm.
Qed.

(** The steps a call still has to take. *)
Definition call_steps (c : call) : nat :=
  match c with CallAcquired _ _ => 3 | CallRunning _ _ _ => 2 | CallLeaving _ => 1 end.
Definition next_event (i : nat) (c : call) : gateway_event :=
  match c with CallAcquired _ _ => GwStub i | CallRunning _ _ _ => GwEnd i | CallLeaving _ => GwRelease i end.

(** Every call comes to its end: its next region can run at any later
    time, whatever the other calls do, and takes one step off the work that is
    left; when no work is left every in-flight count is zero. *)
Theorem calls_complete g now : gateway_reachable g → gw_clock g ≤ now →
  (∀ i c, gw_calls g !! i = Some c →
     ∃ g', gateway_exec now (next_event i c) g = Some g'
       ∧ (sum_list_with call_steps (gw_calls g') < sum_list_with call_steps (gw_calls g))%nat)
  ∧ (sum_list_with call_steps (gw_calls g) = 0%nat →
     ∀ k x, dget (gw_servers g) k = Some x → ms_in_flight x = 0).
Proof.
  intros Hr Hnow. pose proof (gateway_reachable_inv _ Hr) as Hinv. split.
  - intros i c Hi. unfold gateway_exec. destruct (Z.ltb_spec now (gw_clock g)); [lia|].
    pose proof (λ c', sum_insert call_steps (gw_calls g) i c c' Hi) as Hsum.
    pose proof (sum_delete call_steps _ _ _ Hi) as Hdel.
    destruct c as [k ep|k ep ch|k]; simpl in *; rewrite Hi.
    + destruct (gw_closed g).
      * eexists; split; [done|]. specialize (Hsum (CallLeaving k)). simpl in *. lia.
      * unfold stub_region. destruct (dget _ ep) as [ch|]; eexists; (split; [done|]); simpl;
          [specialize (Hsum (CallRunning k ep ch))|specialize (Hsum (CallRunning k ep (gw_next g)))]; simpl in *; lia.
    + eexists; split; [done|]. specialize (Hsum (CallLeaving k)). simpl in *. lia.
    + eexists; split; [done|]. simpl. lia.
  - intros Hzero k x Hx. rewrite (rg_count _ _ (gi_registry _ Hinv) _ _ Hx).
    destruct (gw_calls g) as [|c cs]; [done|]. simpl in Hzero. destruct c; simpl in Hzero; lia.
Qed.

(** ** Health probes

    The channels of [BackendHealthMonitor.check_once], a round that is not
    stopped: the channels of endpoints that are no longer probed are dropped, and
    every target without one gets one. *)
Definition add_channel (s : dict string Z * Z) (endpoint : string) : dict string Z * Z :=
  match dget s.1 endpoint with
  | Some _ => s
  | None => (dset s.1 endpoint s.2, s.2 + 1)
  end.
Definition monitor_channels (endpoints : list string) (channels : dict string Z) (fresh : Z) :
    dict string Z * Z :=
  foldl add_channel (filter (λ kv, kv.1 ∈ endpoints) channels, fresh) endpoints.

(** The results of a round, recorded one by one. *)
Definition record_round (threshold : Z) (d : servers) (answers : list (string * bool)) : servers :=
  foldl (λ d a, record_health a.1 a.2 threshold d) d answers.

Lemma add_channels_spec endpoints d n : NoDup (dkeys d) →
  let r := foldl add_channel (d, n) endpoints in
  NoDup (dkeys r.1) ∧ (∀ e c, dget d e = Some c → dget r.1 e = Some c)
  ∧ ∀ e, e ∈ dkeys r.1 ↔ e ∈ dkeys d ∨ e ∈ endpoints.
Proof.
  revert d n. induction endpoints as [|e0 es IH]; intros d n Hd; simpl; [set_solver|].
  unfold add_channel at 2 4 6. simpl. destruct (dget d e0) eqn:He; simpl.
  - destruct (IH d n Hd) as (? & ? & Hk). split_and!; try done. intros e. rewrite Hk.
    assert (e0 ∈ dkeys d) by (apply dget_is_Some; by eexists). set_solver.
  - destruct (IH (dset d e0 n) (n + 1)) as (? & Hkeep & Hk); [by apply dset_NoDup|]. split_and!; try done.
    + intros e c Hc. apply Hkeep. rewrite dget_dset_ne; [done|congruence].
    + intros e. rewrite Hk, dset_keys, decide_False by by apply dget_None. set_solver.
Qed.

(** After a round the monitor has a channel for exactly the endpoints it
    probes, and has kept those it already had. *)
Theorem monitor_channels_exact endpoints channels fresh : NoDup (dkeys channels) →
  let d := (monitor_channels endpoints channels fresh).1 in
  (∀ e, e ∈ dkeys d ↔ e ∈ endpoints)
  ∧ ∀ e c, e ∈ endpoints → dget channels e = Some c → dget d e = Some c.
Proof.
  intros Hd. pose proof (dkeys_filter_NoDup (λ kv, kv.1 ∈ endpoints) _ Hd) as Hf.
  destruct (add_channels_spec endpoints _ fresh Hf) as (_ & Hkeep & Hk). split.
  - intros e. unfold monitor_channels. rewrite Hk. split; [|by right]. intros [He|]; [|done].
    apply dget_is_Some in He as [c Hc]. by apply dget_filter in Hc as [_ Hc].
  - intros e c He Hc. apply Hkeep. by apply dget_filter.
Qed.

(** ** A concrete run *)

Fixpoint gateway_run (es : list (Z * gateway_event)) (g : gateway) : option gateway :=
  match es with
  | [] => Some g
  | e :: es' => g' ← gateway_exec e.1 e.2 g; gateway_run es' g'
  end.

Lemma gateway_run_reachable es g g' :
  gateway_reachable g → gateway_run es g = Some g' → gateway_reachable g'.
Proof.
  revert g. induction es as [|e es IH]; intros g Hg; simpl; [by intros [= <-]|].
  destruct (gateway_exec e.1 e.2 g) eqn:He; simpl; [|done]. apply IH. by eapply gw_step.
Qed.

(** Two servers of a model, one of them probed; three calls begin, one ends, and
    the server of a call under way is removed. *)
Definition gateway_events : list (Z * gateway_event) :=
  [ (0, GwRegister "s1" "pi05" "h1:1" false); (0, GwRegister "s2" "pi05" "h2:1" true);
    (1, GwHealth "s2" true 3); (2, GwBegin "pi05"); (2, GwBegin "pi05"); (2, GwBegin "pi05");
    (3, GwStub 0); (3, GwStub 1); (4, GwRemove "s2"); (4, GwStub 2); (5, GwEnd 0); (5, GwRelease 0) ].
Definition gateway_sample : gateway := default gateway_init (gateway_run gateway_events gateway_init).

Lemma gateway_sample_reachable : gateway_reachable gateway_sample.
Proof. apply (gateway_run_reachable gateway_events gateway_init); [constructor|]. vm_compute. reflexivity. Qed.

Example gateway_sample_calls :
  gw_calls gateway_sample = [CallRunning "s2" "h2:1" 1; CallRunning "s1" "h1:1" 0]
  ∧ dkeys (gw_servers gateway_sample) = ["s1"; "s2"].
Proof. by vm_compute. Qed.

Lemma gateway_accounting_witness :
  ∃ x, dget (gw_servers gateway_sample) "s2" = Some x ∧ call_at (CallRunning "s2" "h2:1" 1) x.
Proof.
  refine (proj1 (proj2 (gateway_accounting gateway_sample gateway_sample_reachable)) (CallRunning "s2" "h2:1" 1) _).
  rewrite (proj1 gateway_sample_calls). by left.
Defined.

Lemma channel_open_while_used_witness : 1 ∈ gw_open gateway_sample.
Proof.
  refine (proj1 (channel_open_while_used gateway_sample "s2" "h2:1" 1 gateway_sample_reachable _ _)).
  - by vm_compute.
  - rewrite (proj1 gateway_sample_calls). by left.
Defined.

Lemma acquire_least_loaded_witness :
  ∃ d', acquire_server "pi05" 6 (gw_servers gateway_sample) = (d', Some ("s1", "h1:1"))
    ∧ (has_healthy_server "pi05" 6 (gw_servers gateway_sample)).2 = true.
Proof.
  pose proof (acquire_least_loaded "pi05" 6 (gw_servers gateway_sample)) as H.
  assert (NoDup (dkeys (gw_servers gateway_sample))) as Hd
    by (apply (bool_decide_unpack _); vm_compute; exact I).
  specialize (H Hd). destruct (acquire_server _ _ _) as [d' o] eqn:Ha. vm_compute in Ha.
  injection Ha as <- <-. destruct H as (x & _ & _ & _ & _ & _ & H).
  eexists. split; [reflexivity|exact H].
Defined.

Definition unprobed : model_server := ModelServer "h:1" "m" 0 0 true false 0 false.

Lemma health_history_witness :
  ms_healthy (foldl (λ x ok, observe_health 3 ok x) unprobed [false; true; false; false]) = true.
Proof.
  apply (health_history 3 unprobed [false; true; false; false]); [lia|done|done|].
  exists [false], [false; false]. split_and!; [done|by repeat constructor|done].
Defined.

Lemma heartbeat_lease_witness :
  usable "pi05" 9 (ModelServer "h1:1" "pi05" 6 1 false true 0 false) = true.
Proof.
  pose proof (heartbeat_lease "s1" 6 (gw_servers gateway_sample)
    (heartbeat "s1" 6 (gw_servers gateway_sample)).1 (ModelServer "h1:1" "pi05" 6 1 false true 0 false) 9) as H.
  replace (9 <=? 6 + HEARTBEAT_TIMEOUT) with true in H by reflexivity.
  apply H; [|vm_compute; reflexivity..|reflexivity|lia].
  apply (bool_decide_unpack _). vm_compute. exact I.
Defined.

Lemma calls_complete_witness : ∃ g', gateway_exec 9 (GwEnd 0) gateway_sample = Some g'.
Proof.
  destruct (proj1 (calls_complete gateway_sample 9 gateway_sample_reachable ltac:(vm_compute; discriminate))
    0%nat (CallRunning "s2" "h2:1" 1)) as (g' & Hg & _); [by rewrite (proj1 gateway_sample_calls)|].
  by exists g'.
Defined.
