(* ===== verification/CallSite.v ===== *)
(** * Kernel call sites

    Models [kernel/call.py]: the memo a call site keeps over the process-wide
    selector, its key and when it is dropped, and freezing the choices of a
    warmed site.  The theorems say when a remembered selection is the one a
    cold selection would make, and what freezing preserves.

    The device argument of a call stands for the pair of its type and index, the
    part of it the memo key reads; [profile_of] is the probe that turns it into a
    profile.  A dtype is represented by its text. *)

From S2P Require Export SelectorSpec.
From Stdlib Require Import Ascii String.
From stdpp Require Import options.

Local Open Scope Z_scope.

(** ** Facts that agree on some paths *)

Definition on_paths (U : gset string) (fs : facts) : facts :=
  Facts (filter (λ kv, kv.1 ∈ U) (values fs)) (optional fs).

(** Two calls a memo key with the paths [U] cannot tell apart. *)
Definition similar_on (U : gset string) (fs1 fs2 : facts) : Prop :=
  similar (on_paths U fs1) (on_paths U fs2).

Lemma on_paths_lookup U fs p : p ∈ U → lookup_fact (on_paths U fs) p = lookup_fact fs p.
Proof.
  intros Hp. unfold lookup_fact, on_paths. simpl. rewrite map_lookup_filter.
  destruct (values fs !! p) eqn:E; simpl; [|done]. by rewrite option_guard_True.
Qed.

Lemma on_paths_lookup_None U fs p : p ∉ U → lookup_fact (on_paths U fs) p = None.
Proof.
  intros Hp. unfold lookup_fact, on_paths. simpl. rewrite map_lookup_filter.
  destruct (values fs !! p) eqn:E; simpl; [|done]. by rewrite option_guard_False.
Qed.

Lemma similar_similar_on U fs1 fs2 : similar fs1 fs2 → similar_on U fs1 fs2.
Proof.
  intros [Hc Hs Ho]. split; [..|exact Ho]; intros p.
  - destruct (decide (p ∈ U)); [by rewrite !on_paths_lookup|by rewrite !on_paths_lookup_None].
  - intros Hp. destruct (decide (p ∈ U)); [by rewrite !on_paths_lookup; auto|by rewrite !on_paths_lookup_None].
Qed.

Lemma similar_on_intro U fs1 fs2 :
  (∀ p, p ∈ U → canon <$> lookup_fact fs1 p = canon <$> lookup_fact fs2 p) →
  (∀ p, p ∈ U → loose_path p = false → lookup_fact fs1 p = lookup_fact fs2 p) →
  (∀ p, is_optional fs1 p = is_optional fs2 p) → similar_on U fs1 fs2.
Proof.
  intros Hc Hs Ho. split; [..|exact Ho]; intros p.
  - destruct (decide (p ∈ U)); [rewrite !on_paths_lookup; auto|by rewrite !on_paths_lookup_None].
  - intros Hp. destruct (decide (p ∈ U)); [rewrite !on_paths_lookup; auto|by rewrite !on_paths_lookup_None].
Qed.

Lemma similar_on_mono (U V : gset string) fs1 fs2 : U ⊆ V → similar_on V fs1 fs2 → similar_on U fs1 fs2.
Proof.
  intros HU [Hc Hs Ho]. apply similar_on_intro; [| |exact Ho]; intros p Hp; specialize (HU p Hp).
  - specialize (Hc p). by rewrite !on_paths_lookup in Hc.
  - specialize (Hs p). by rewrite !on_paths_lookup in Hs.
Qed.

Lemma similar_on_refl U fs : similar_on U fs fs.
Proof. by split. Qed.

Lemma similar_on_sym U fs1 fs2 : similar_on U fs1 fs2 → similar_on U fs2 fs1.
Proof. intros [Hc Hs Ho]. split; intros p; [by rewrite Hc|intros; by rewrite Hs|by rewrite Ho]. Qed.

Lemma similar_on_trans U fs1 fs2 fs3 :
  similar_on U fs1 fs2 → similar_on U fs2 fs3 → similar_on U fs1 fs3.
Proof.
  intros [Hc Hs Ho] [Hc' Hs' Ho']. split; intros p.
  - by rewrite Hc.
  - intros Hp. rewrite Hs by done. by apply Hs'.
  - by rewrite Ho.
Qed.

Lemma eval_on_paths U p fs : facts_used p ⊆ U →
  eval p fs = eval p (on_paths U fs) ∧ skipped p fs = skipped p (on_paths U fs).
Proof.
  intros Hp. assert (∀ path, path ∈ facts_used p → same_fact fs (on_paths U fs) path) as H.
  { intros path Hin. split; [by rewrite on_paths_lookup by set_solver|done]. }
  split; [by apply eval_agree|by apply skipped_agree].
Qed.

Lemma sat_similar_on U p fs1 fs2 : similar_on U fs1 fs2 → facts_used p ⊆ U →
  well_kinded p = true → outcome (eval p fs1) = outcome (eval p fs2).
Proof.
  intros H Hp Hw. rewrite (proj1 (eval_on_paths U p fs1 Hp)), (proj1 (eval_on_paths U p fs2 Hp)).
  rewrite !outcome_eval. by apply sat_similar.
Qed.

(** Whether [skipped] raises cannot depend on what is not read either. *)
Lemma skipped_similar p fs1 fs2 : similar fs1 fs2 → well_kinded p = true →
  is_ok (skipped p fs1) = is_ok (skipped p fs2).
Proof.
  intros Hsim. induction p as [b|f l|f o g|cs IH|cs IH|c IH|a b IHa IHb] using predicate_ind';
    intros Hw; try done.
  - simpl in *. induction IH as [|c cs Hc _ IH]; [done|]. simpl in *.
    apply andb_prop in Hw as [Hw1 Hw2]. specialize (Hc Hw1). specialize (IH Hw2).
    destruct (skipped c fs1), (skipped c fs2); simpl in *; try done.
    match goal with |- is_ok (?x ≫= _) = is_ok (?y ≫= _) =>
      change (is_ok x = is_ok y) in IH; by destruct x, y end.
  - simpl in *. apply andb_prop in Hw as [Hw1 Hw2].
    pose proof (sat_similar a fs1 fs2 Hsim Hw1) as Hs. rewrite <- !outcome_eval in Hs.
    destruct (eval a fs1) as [[x|]|], (eval a fs2) as [[y|]|]; simpl in *; try done. by apply IHb.
Qed.

Lemma rmap_ext {A B} (f g : A → res B) l : (∀ x, x ∈ l → f x = g x) → rmap f l = rmap g l.
Proof.
  induction l as [|x l IH]; intros H; simpl; [done|]. rewrite H by by left.
  by rewrite IH by (intros; apply H; by right).
Qed.

Lemma highest_similar_on U rules fs1 fs2 : similar_on U fs1 fs2 →
  (∀ r, r ∈ rules → facts_used (r_when r) ⊆ U ∧ well_kinded (r_when r) = true) →
  highest rules fs1 = highest rules fs2.
Proof.
  intros Hsim Hrules. unfold highest. f_equal. apply rmap_ext. intros r Hr.
  destruct (Hrules r Hr) as [Hu Hw]. unfold with_match, matches.
  pose proof (sat_similar_on U (r_when r) fs1 fs2 Hsim Hu Hw) as H.
  by destruct (eval (r_when r) fs1) as [[x|]|], (eval (r_when r) fs2) as [[y|]|]; simpl in *; simplify_eq.
Qed.

(** ** What a cold selection does on calls that agree *)
Section cold.
Context {plan handle : Type}.
Context (import_ok : string → bool)
  (prepare : impl → facts → dict string obj → res handle).

Notation selection := (selection (handle := handle)).
Notation selector := (selector (plan := plan) (handle := handle)).
Notation prepare_call := (prepare_call import_ok).
Notation prepare_loop := (prepare_loop prepare).

(** The paths a choice for the operation [o] can depend on. *)
Definition choice_paths (c : catalog) (p : policy plan) (o : string) : gset string :=
  ⋃ ((λ i, facts_used (im_when i)) <$> impls c (Some o)) ∪ policy_facts_used p.

(** Rows and rules a call site may rely on. *)
Definition sound_rows (c : catalog) (p : policy plan) : Prop :=
  (∀ i, i ∈ dvals (cat_impls c) → well_kinded (im_when i) = true)
  ∧ ∀ r, r ∈ p_rules p ++ p_overrides p → well_kinded (r_when r) = true.

(** The facts every call of one mode shares: they come from the call's names, its
    mode, the model and the device. *)
Definition call_paths : gset string :=
  {["op"; "role"; "mode"; "model.family"; "model.tags"; "device.vendor"; "device.arch"]}.
Definition prepare_paths (c : catalog) (p : policy plan) (o : string) : gset string :=
  choice_paths c p o ∪ call_paths.

(** The contract of a [prepare] function a memo needs: besides the facts all
    calls of a mode share it reads none that no row of the operation and no rule
    tests. *)
Definition prepare_reads (c : catalog) (p : policy plan) (o : string) : Prop :=
  ∀ i fs1 fs2 ps, i ∈ impls c (Some o) → similar_on (prepare_paths c p o) fs1 fs2 →
    prepare i fs1 ps = prepare i fs2 ps.

Lemma decide_similar_on (p : policy plan) c U fs1 fs2 : similar_on U fs1 fs2 →
  policy_facts_used p ⊆ U → (∀ r, r ∈ p_rules p ++ p_overrides p → well_kinded (r_when r) = true) →
  decide_policy p fs1 c = decide_policy p fs2 c.
Proof.
  intros Hsim HU Hw. unfold decide_policy.
  assert (∀ rules, (∀ r, r ∈ rules → r ∈ p_rules p ++ p_overrides p) →
            highest rules fs1 = highest rules fs2) as H.
  { intros rules Hr. apply (highest_similar_on U); [done|]. intros r Hin. split; [|by apply Hw, Hr].
    etrans; [|exact HU]. intros x Hx. apply elem_of_union_list. exists (facts_used (r_when r)).
    split; [|done]. apply list_elem_of_fmap. exists r. split; [done|by apply Hr]. }
  rewrite (H (p_overrides p)), (H (p_rules p)); [done|..]; intros r; rewrite elem_of_app; tauto.
Qed.

Lemma assess_similar_on U fs1 fs2 mode rows el ts : similar_on U fs1 fs2 →
  (∀ i, i ∈ rows → facts_used (im_when i) ⊆ U ∧ well_kinded (im_when i) = true) →
  assess_rows fs1 mode rows = Ok (el, ts) → ∃ ts', assess_rows fs2 mode rows = Ok (el, ts').
Proof.
  intros Hsim. revert el ts. induction rows as [|i rows IH]; intros el ts Hrows; simpl.
  { intros [= <- <-]. by eexists. }
  destruct (assess_row fs1 mode i) as [[b t]|] eqn:Hr; simpl; [|done].
  destruct (assess_rows fs1 mode rows) as [[el' ts1]|] eqn:Hrs; simpl; [|done]. intros [= <- <-].
  destruct (IH el' ts1) as [ts2 ->]; [intros; apply Hrows; by right|done|].
  destruct (Hrows i) as [Hu Hw]; [by left|].
  assert (∃ t', assess_row fs2 mode i = Ok (b, t')) as [t' ->]; [|by eexists].
  revert Hr. unfold assess_row. destruct (graph_mode mode && _); [intros [= <- <-]; by eexists|].
  pose proof (sat_similar_on U _ fs1 fs2 Hsim Hu Hw) as He.
  pose proof (skipped_similar (im_when i) _ _ Hsim Hw) as Hs.
  rewrite <- (proj2 (eval_on_paths U _ fs1 Hu)), <- (proj2 (eval_on_paths U _ fs2 Hu)) in Hs.
  destruct (eval (im_when i) fs1) as [[x|]|], (eval (im_when i) fs2) as [[y|]|]; simpl in *; try done.
  - intros [= <- <-]. by eexists.
  - destruct (skipped _ fs1), (skipped _ fs2); simpl in *; try done. intros [= <- <-]. by eexists.
Qed.

(** Two selections that chose the same row, parameters and implementation. *)
Definition same_choice (x y : selection) : Prop :=
  sel_impl x = sel_impl y ∧ sel_params x = sel_params y
  ∧ sel_implementation x = sel_implementation y.

#[export] Instance same_choice_equiv : Equivalence same_choice.
Proof. split; [done| |]; intros x y; unfold same_choice; [naive_solver|intros z; naive_solver congruence]. Qed.

Lemma prepare_loop_similar_on q1 q2 fs1 fs2 d tun ordered xs :
  (∀ i ps, i ∈ ordered → prepare i fs1 ps = prepare i fs2 ps) →
  prepare_loop q1 fs1 d tun ordered = Ok xs →
  ∃ ys, prepare_loop q2 fs2 d tun ordered = Ok ys ∧ Forall2 same_choice xs ys.
Proof.
  revert xs. induction ordered as [|i ordered IH]; intros xs Hprep; simpl.
  { intros [= <-]. eexists. split; [done|by constructor]. }
  rewrite <- (Hprep i) by by left. assert (∀ i ps, i ∈ ordered → prepare i fs1 ps = prepare i fs2 ps) as Hp'.
  { intros j ps Hj. apply Hprep. by right. }
  destruct (prepare i fs1 (params_for d i)) as [h|e] eqn:Hi.
  - destruct tun.
    + destruct (prepare_loop q1 fs1 d true ordered) as [ys|] eqn:Hl; simpl; [|done].
      destruct (IH ys Hp' eq_refl) as (zs & -> & Hzs). intros [= <-]. eexists.
      split; [done|]. by constructor.
    + intros [= <-]. eexists. split; [done|]. repeat constructor.
  - intros H. destruct (IH xs Hp') as (ys & Hys & HF); [by destruct e, (dc_strict d)|].
    exists ys. by destruct e, (dc_strict d).
Qed.

(** Selectors that choose alike: caches, measurements and the benchmark itself
    do not matter, only whether there is one. *)
Record same_config (s1 s2 : selector) : Prop := {
  sc_catalog : s_catalog s1 = s_catalog s2;
  sc_policy : s_policy s1 = s_policy s2;
  sc_model : s_model s1 = s_model s2;
  sc_profile : s_device s1 = s_device s2;
  sc_benchmark : is_Some (s_benchmark s1) ↔ is_Some (s_benchmark s2);
}.

(** A selection [x] a cold selector could return for the query [q]: some
    candidate, the first that prepares unless the call is autotuned. *)
Definition cold_answer (s : selector) (q : kernel_query) (prefer : list string) (x : selection) : Prop :=
  ∃ q' spec fs d ordered xs y, prepare_call s q = Ok (q', spec, fs, d)
    ∧ candidates s q' spec fs d prefer = Ok ordered
    ∧ prepare_loop q' fs d (tuning s d (q_mode q')) ordered = Ok xs
    ∧ y ∈ xs ∧ same_choice x y
    ∧ (tuning s d (q_mode q') = false → xs = [y]).

#[export] Instance same_config_equiv : Equivalence same_config.
Proof.
  split; [done|intros s1 s2 []; split; done|].
  intros s1 s2 s3 [] []. split; try congruence. by etrans.
Qed.

Lemma normalize_config (s1 s2 : selector) q : same_config s1 s2 →
  normalize_query s1 q = normalize_query s2 q.
Proof. intros [_ _ Hm Hd _]. unfold normalize_query. by rewrite Hm, Hd. Qed.

Lemma tuning_config (s1 s2 : selector) d m : same_config s1 s2 → tuning s1 d m = tuning s2 d m.
Proof.
  intros [_ Hp _ _ Hb]. unfold tuning. rewrite Hp.
  destruct (s_benchmark s1), (s_benchmark s2); try done; exfalso.
  - by destruct (proj1 Hb (ltac:(by eexists))).
  - by destruct (proj2 Hb (ltac:(by eexists))).
Qed.

Lemma candidates_config (s1 s2 : selector) q spec fs d prefer : same_config s1 s2 →
  candidates s1 q spec fs d prefer = candidates s2 q spec fs d prefer.
Proof. intros [Hc Hp _ _ _]. unfold candidates, assess, order. by rewrite Hc, Hp. Qed.

(** The catalog stores every schema under its name. *)
Definition named_ops (c : catalog) : Prop :=
  ∀ name spec, dget (cat_ops c) name = Some spec → os_name spec = name.

Lemma impls_op c name spec : named_ops c → op c name = Ok spec →
  impls c (Some (os_name spec)) = impls c (Some name).
Proof.
  unfold op, of_option. intros Hn. destruct (dget _ _) as [s|] eqn:E; [|done]. intros [= <-].
  unfold impls. by rewrite (Hn _ _ E), lower_idemp.
Qed.

(** The same cold answer for two calls whose facts agree on the paths a choice
    can depend on. *)
Lemma cold_answer_similar (s1 s2 : selector) q1 q2 prefer x :
  sound_rows (s_catalog s1) (s_policy s1) → named_ops (s_catalog s1) →
  prepare_reads (s_catalog s1) (s_policy s1) (q_op (normalize_query s1 q1)) →
  same_config s1 s2 →
  q_op (normalize_query s1 q1) = q_op (normalize_query s1 q2) →
  q_mode (normalize_query s1 q1) = q_mode (normalize_query s1 q2) →
  (∀ spec, op (s_catalog s1) (q_op (normalize_query s1 q1)) = Ok spec →
     similar_on (prepare_paths (s_catalog s1) (s_policy s1) (q_op (normalize_query s1 q1)))
       (facts_for import_ok s1 (normalize_query s1 q1) spec)
       (facts_for import_ok s1 (normalize_query s1 q2) spec)) →
  cold_answer s1 q1 prefer x → cold_answer s2 q2 prefer x.
Proof.
  intros [Hrows Hrules] Hn Hprep Hcfg Hop Hmode Hsim (q' & spec & fs & d & ordered & xs & y & Hcall & Hcand & Hl & Hy & Hxy & Ht).
  apply prepare_call_ok in Hcall as (-> & Hspec & -> & Hd).
  specialize (Hsim spec Hspec). set (o := q_op (normalize_query s1 q1)) in *. rename Hsim into Hall.
  set (U := choice_paths (s_catalog s1) (s_policy s1) o) in *.
  pose proof (similar_on_mono U _ _ _ ltac:(apply union_subseteq_l) Hall) as Hsim.
  assert (impls (s_catalog s1) (Some (os_name spec)) = impls (s_catalog s1) (Some o)) as Himpls
    by by apply impls_op.
  assert (decide_policy (s_policy s1) (facts_for import_ok s1 (normalize_query s1 q2) spec) (s_catalog s1)
          = Ok d) as Hd2.
  { rewrite <- Hd. symmetry. apply (decide_similar_on _ _ U); [done|unfold U, choice_paths; set_solver|done]. }
  unfold candidates, assess in Hcand. rewrite Himpls in Hcand.
  apply bind_ok in Hcand as ([el ts] & Ha & Ho).
  pose proof Ha as Ha2. apply (assess_similar_on U _ _ _ _ _ _ Hsim) in Ha2 as [ts2 Ha2].
  2: { intros i Hi. split; [|by apply Hrows; apply impls_elem in Hi as []].
       intros z Hz. unfold U, choice_paths. apply elem_of_union_l, elem_of_union_list.
       exists (facts_used (im_when i)). split; [|done]. apply list_elem_of_fmap. by exists i. }
  assert (∀ i, i ∈ ordered → i ∈ impls (s_catalog s1) (Some o)) as Hord.
  { intros i Hi. apply (strict_filter_elem _ _ _ _ Ho) in Hi. apply order_elem in Hi.
    apply assess_rows_ok in Ha as (_ & Hel & _). by apply Hel in Hi as []. }
  destruct (prepare_loop_similar_on _ (normalize_query s1 q2) _ _ _ _ _ _
    (λ i ps Hi, Hprep i _ _ ps (Hord i Hi) Hall) Hl) as (ys & Hl2 & HF).
  assert (∃ z, z ∈ ys ∧ same_choice y z) as (z & Hz & Hyz).
  { apply list_elem_of_lookup in Hy as [j Hj]. destruct (Forall2_lookup_l _ _ _ _ _ HF Hj) as (z & Hz & ?).
    exists z. split; [by eapply list_elem_of_lookup_2|done]. }
  exists (normalize_query s1 q2), spec, (facts_for import_ok s1 (normalize_query s1 q2) spec), d, ordered, ys, z.
  split_and!; try done.
  - unfold Selector.prepare_call, Selector.facts_for.
    rewrite <- (normalize_config s1 s2 q2), <- (sc_catalog _ _ Hcfg), <- (sc_policy _ _ Hcfg) by done.
    rewrite <- Hop, Hspec. simpl. unfold Selector.facts_for in Hd2. by rewrite Hd2.
  - rewrite <- (candidates_config s1 s2) by done. unfold candidates, assess.
    rewrite Himpls, <- Hmode, Ha2. exact Ho.
  - by rewrite <- (tuning_config s1 s2), <- Hmode by done.
  - by etrans.
  - rewrite <- (tuning_config s1 s2), <- Hmode by done.
    intros Htun. specialize (Ht Htun) as ->. inversion HF as [|? z' ? ? ? Hnil]; subst. inversion Hnil; subst.
    by apply list_elem_of_singleton in Hz as ->.
Qed.
End cold.

(** ** Every selection is a cold one *)
Section select_cold.
Context {plan handle : Type}.
Context (import_ok : string → bool)
  (prepare : impl → facts → dict string obj → res handle)
  (wall : impl → facts → handle → Z)
  (catalog_digest : list row_payload → string)
  (policy_digest : string → string → list rule_payload_t → list rule_payload_t → option plan → string).

Notation selection := (selection (handle := handle)).
Notation selector := (selector (plan := plan) (handle := handle)).
Notation select := (select import_ok prepare wall catalog_digest policy_digest).
Notation select_key := (select_key catalog_digest policy_digest).
Notation prepare_call := (prepare_call import_ok).
Notation prepare_first := (prepare_first prepare wall catalog_digest policy_digest).
Notation cold_answer := (cold_answer import_ok prepare).

(** The operation a site calls. *)
Variable o : string.

(** What a process may install as its selector. *)
Record sound_selector (s : selector) : Prop := {
  ss_rows : sound_rows (s_catalog s) (s_policy s);
  ss_named : named_ops (s_catalog s);
  ss_prepare : prepare_reads prepare (s_catalog s) (s_policy s) o;
}.

Lemma sound_selector_config (s1 s2 : selector) :
  same_config s1 s2 → sound_selector s1 → sound_selector s2.
Proof. intros [Hc Hp _ _ _] [Hr Hn Hprep]. split; by rewrite <- ?Hc, <- ?Hp. Qed.

(** The key belongs to a query, and a selection cached for the operation is a
    cold answer for that query. *)
Definition entry_cold (s : selector) (key : selection_key) (x : selection) : Prop :=
  ∃ q q' spec fs d, prepare_call s q = Ok (q', spec, fs, d)
    ∧ select_key s q' d (sk_prefer key) = key
    ∧ (q_op q' = o → cold_answer s q (sk_prefer key) x).
Definition cache_cold (s : selector) : Prop :=
  ∀ key x, dget (s_cache s) key = Some x → entry_cold s key x.

Lemma prepare_first_cold (s : selector) q fs d ordered s' x :
  prepare_first s q fs d ordered = (s', Ok x) →
  ∃ xs, prepare_loop prepare q fs d (tuning s d (q_mode q)) ordered = Ok xs ∧ x ∈ xs
    ∧ (tuning s d (q_mode q) = false → xs = [x]).
Proof.
  unfold Selector.prepare_first.
  destruct (prepare_loop prepare q fs d _ ordered) as [xs|] eqn:Hl; [|by intros [=]].
  destruct xs as [|first rest]; [by intros [=]|]. destruct (tuning s d (q_mode q)).
  - destruct (tune _ _ _ _ _ _ _ _) as [s1 w] eqn:Ht. intros [= <- <-].
    apply tune_elem in Ht as (Hw & _ & _); [|by left]. by exists (first :: rest).
  - intros [= <- <-]. exists (first :: rest). split_and!; [done|by left|]. intros _. f_equal.
    by apply prepare_loop_first in Hl as [-> _].
Qed.

Lemma same_setting_config (s s' : selector) : same_setting s s' → same_config s' s.
Proof. intros (Hc & Hp & Hm & Hd & Hb & _). split; [done..|by rewrite Hb]. Qed.

Lemma cold_answer_config (s1 s2 : selector) q prefer x : sound_selector s1 → same_config s1 s2 →
  q_op (normalize_query s1 q) = o →
  cold_answer s1 q prefer x → cold_answer s2 q prefer x.
Proof.
  intros [Hr Hn Hp] Hcfg Ho. apply cold_answer_similar; try done. by rewrite Ho.
Qed.

(** A selection that was found in the cache or made cold. *)
Lemma entry_answers (s : selector) q q' spec fs d prefer x : sound_selector s →
  prepare_call s q = Ok (q', spec, fs, d) → q_op q' = o →
  entry_cold s (select_key s q' d prefer) x → cold_answer s q prefer x.
Proof.
  intros [Hr Hn Hp] Hcall Hqo (q0 & q0' & spec0 & fs0 & d0 & Hcall0 & Hkey0 & Hcold).
  pose proof (f_equal sk_query Hkey0) as Hq. simpl in Hq, Hcold.
  apply prepare_call_ok in Hcall as (-> & Hop & -> & Hd).
  apply prepare_call_ok in Hcall0 as (-> & Hop0 & -> & Hd0).
  pose proof (cache_key_eq _ _ Hq) as (Hqi & _ & _ & _ & _ & Hmode).
  unfold query_items in Hqi. simpl in Hqi.
  assert (q_op (normalize_query s q0) = o) as Hqo0 by congruence.
  specialize (Hcold Hqo0). revert Hcold. apply cold_answer_similar; try done; [by rewrite Hqo0|congruence|].
  intros sp Hsp. apply similar_similar_on, cache_key_similar, Hq.
Qed.

Lemma entry_cold_setting (s s' : selector) key x : sound_selector s → same_setting s s' →
  entry_cold s key x → entry_cold s' key x.
Proof.
  intros Hsound Hset (q0 & q' & spec & fs & d & Hcall & Hkey & Hcold). exists q0, q', spec, fs, d.
  rewrite (prepare_call_setting _ _ _ _ Hset), (select_key_setting _ _ _ _ _ _ _ Hset).
  split_and!; [done..|]. intros Hqo. apply (cold_answer_config s); [done| | |by apply Hcold].
  - symmetry. by apply same_setting_config.
  - by apply prepare_call_ok in Hcall as (<- & _).
Qed.

(** Whatever a selection of any operation does to the cache, the entries of the
    operation stay cold, and a selection for the operation is a cold one. *)
Lemma select_is_cold (s s' : selector) q prefer r :
  sound_selector s → cache_cold s → select s q prefer = (s', r) →
  cache_cold s'
  ∧ (q_op (normalize_query s q) = o → ∀ x, r = Ok x → cold_answer s q prefer x).
Proof.
  intros Hsound Hcache Hsel.
  pose proof (select_setting import_ok prepare wall catalog_digest policy_digest s q prefer) as Hset.
  rewrite Hsel in Hset. simpl in Hset.
  assert (s_cache s' = s_cache s → cache_cold s') as Hsame.
  { intros Heq key x. rewrite Heq. intros Hx. by apply (entry_cold_setting s), Hcache. }
  unfold Selector.select in Hsel.
  destruct (prepare_call s q) as [[[[q' spec] fs] d]|e] eqn:Hcall.
  2: { injection Hsel as <- <-. split; [done|by intros ? ?]. }
  assert (q' = normalize_query s q) as Hq' by by apply prepare_call_ok in Hcall as (-> & _).
  destruct (dget (s_cache s) _) as [c|] eqn:Hk.
  { injection Hsel as <- <-. split; [done|]. intros Hqo x [= <-].
    eapply entry_answers; [done|exact Hcall|congruence|]. by apply Hcache. }
  destruct (candidates s q' spec fs d prefer) as [ordered|e] eqn:Ho.
  2: { injection Hsel as <- <-. by split. }
  destruct (prepare_first s q' fs d ordered) as [s1 r1] eqn:Hp.
  pose proof (prepare_first_ok _ _ _ _ _ _ _ _ _ _ _ Hp) as (Hc1 & _ & _).
  destruct r1 as [x|e]; injection Hsel as <- <-; [|split; [by apply Hsame|done]].
  assert (cold_answer s q prefer x) as Hcold.
  { apply prepare_first_cold in Hp as (xs & Hl & Hx & Ht).
    exists q', spec, fs, d, ordered, xs, x. by split_and!. }
  split; [|by intros _ ? [= <-]]. intros key y. simpl. rewrite Hc1, dget_dset. case_decide as Hkey.
  - intros [= <-]. apply (entry_cold_setting s); [done..|]. exists q, q', spec, fs, d.
    subst key. by split_and!.
  - intros Hy. by apply (entry_cold_setting s), Hcache.
Qed.
End select_cold.

(** ** The site *)
Section site.
Context {plan handle device : Type} `{device_dec : EqDecision device}.
Context (import_ok : string → bool)
  (prepare : impl → facts → dict string obj → res handle)
  (wall : impl → facts → handle → Z)
  (catalog_digest : list row_payload → string)
  (policy_digest : string → string → list rule_payload_t → list rule_payload_t → option plan → string)
  (profile_of : device → device_profile).

Notation selection := (selection (handle := handle)).
Notation selector := (selector (plan := plan) (handle := handle)).
Notation cold_answer := (cold_answer import_ok prepare).

(** The arguments of one call of [CallSite.select]. *)
Record site_call : Type := SiteCall {
  ca_device : option device;
  ca_dtype : dict string string;
  ca_quant : option physical_signature;
  ca_dims : dict string obj;
  ca_attrs : dict string obj;
  ca_mode : option string;
}.

(** The process-wide selector; [rt_owner] counts its replacements. *)
Record runtime : Type := Runtime { rt_owner : Z; rt_selector : selector }.

(** A [Selection] object.  The selector keeps one object per cache key until the
    cache is cleared, so owner, epoch and key are its identity. *)
Record selected : Type := Selected {
  sd_owner : Z;
  sd_epoch : Z;
  sd_key : selection_key;
  sd_value : selection;
}.

Definition identity (x : selected) : Z * Z * selection_key := (sd_owner x, sd_epoch x, sd_key x).

(** [x is y] *)
Definition same_object (x y : selected) : bool := bool_decide (identity x = identity y).

(** [_memo_key]: a tuple is compared with [==], so its parts are represented by
    [canon], and hashed, so a list or a mapping raises.  [None] stands for a
    missing part. *)
Record memo_key : Type := MemoKey {
  me_mode : string;
  me_device : option device;
  me_parts : list value;
}.
#[export] Instance memo_key_eq_dec : EqDecision memo_key.
Proof using device_dec. solve_decision. Defined.

(** [_key_plan]: the names of the key paths by namespace. *)
Record key_plan : Type := KeyPlan {
  kp_dtype : list string;
  kp_shape : list string;
  kp_attrs : list string;
  kp_quant : list string;
}.

Definition part_of (o : option obj) : res value :=
  match o with
  | None => Ok VNone
  | Some (OVal v) => Ok (canon v)
  | Some _ => Err TypeError
  end.

(** [_quant_part] on a signature: its attribute of that name, [None] for a name
    that is no attribute. *)
Definition quant_part (quant : option physical_signature) (name : string) : value :=
  match quant with
  | None => VNone
  | Some s =>
      if String.eqb name "format" then VStr (s_format s)
      else if String.eqb name "layout" then opt_str (s_layout s)
      else if String.eqb name "granularity" then opt_str (s_granularity s)
      else if String.eqb name "scale_dtype" then opt_str (s_scale_dtype s)
      else if String.eqb name "storage_dtype" then opt_str (s_storage_dtype s)
      else if String.eqb name "block_shape" then
        match s_block_shape s with Some l => VTup (VInt <$> l) | None => VNone end
      else VNone
  end.

Definition mk_memo_key (kp : key_plan) (dev : option device) (dtype : dict string string)
    (quant : option physical_signature) (shape attrs : dict string obj) (mode : string)
    : res memo_key :=
  shapes ← rmap (λ n, part_of (dget shape n)) (kp_shape kp);
  values ← rmap (λ n, part_of (dget attrs n)) (kp_attrs kp);
  Ok (MemoKey mode dev
        (((λ n, opt_str (dget dtype n)) <$> kp_dtype kp) ++ shapes ++ values
         ++ (quant_part quant <$> kp_quant kp))).

(** The fields of [CallSite]. *)
Definition fingerprint_t : Type :=
  string * string * (string * option string * option Z) * (string * list string) * Z.

Record call_site : Type := CallSiteState {
  st_op : string;
  st_role : string;
  st_prefer : list string;
  st_dims : dict string obj;
  st_attrs : dict string obj;
  st_memo : dict memo_key selected;
  st_paths : list string;
  st_plan : key_plan;
  st_fingerprint : option fingerprint_t;
  st_frozen : option (dict string selected);
}.

(** [CallSite.__init__] *)
Definition mk_site (op role : string) (prefer : list string) (dims attrs : dict string obj)
    : call_site :=
  CallSiteState op role prefer dims attrs [] [] (KeyPlan [] [] [] []) None None.

Definition set_memo (m : dict memo_key selected) (t : call_site) : call_site :=
  CallSiteState (st_op t) (st_role t) (st_prefer t) (st_dims t) (st_attrs t) m (st_paths t)
    (st_plan t) (st_fingerprint t) (st_frozen t).
Definition set_frozen (f : option (dict string selected)) (t : call_site) : call_site :=
  CallSiteState (st_op t) (st_role t) (st_prefer t) (st_dims t) (st_attrs t) (st_memo t)
    (st_paths t) (st_plan t) (st_fingerprint t) f.

(** The fingerprint of [key_paths]. *)
Definition site_fingerprint (s : selector) : fingerprint_t :=
  ((version catalog_digest (s_catalog s)).2, compute_version policy_digest (s_policy s),
   device_fingerprint (s_device s), model_fingerprint (s_model s), s_epoch s).

(** The key paths of an operation, and their grouping. *)
Definition site_paths (c : catalog) (p : policy plan) (o : string) : list string :=
  sort_str (elements (filter (λ path, startswith path "lib." = false) (choice_paths c p o))).
Definition under (namespace : string) (paths : list string) : list string :=
  path_name <$> filter (λ path, path_prefix path = namespace) paths.
Definition plan_of (paths : list string) : key_plan :=
  KeyPlan (under "dtype" paths) (under "shape" paths) (under "attrs" paths) (under "quant" paths).

(** [CallSite.key_paths], as the site after the call. *)
Definition key_paths (s : selector) (t : call_site) : call_site :=
  if decide (Some (site_fingerprint s) = st_fingerprint t) then t
  else
    let paths := site_paths (s_catalog s) (s_policy s) (st_op t) in
    CallSiteState (st_op t) (st_role t) (st_prefer t) (st_dims t) (st_attrs t) [] paths
      (plan_of paths) (Some (site_fingerprint s)) (st_frozen t).

(** [call.select]: the query, and the object the selector hands out. *)
Definition call_query (t : call_site) (a : site_call) (mode : string) : res kernel_query :=
  build_query (st_op t) (st_role t) (profile_of <$> ca_device a) None (ca_dtype a) (ca_quant a)
    (dupdate (st_dims t) (ca_dims a)) mode (dupdate (st_attrs t) (ca_attrs a)).

Definition call_select (rt : runtime) (t : call_site) (a : site_call) (mode : string)
    : runtime * res selected :=
  match call_query t a mode with
  | Err e => (rt, Err e)
  | Ok q =>
      let s := rt_selector rt in
      let '(s', r) := select import_ok prepare wall catalog_digest policy_digest s q (st_prefer t) in
      (Runtime (rt_owner rt) s',
       x ← r;
       '(q', _, _, d) ← prepare_call import_ok s q;
       Ok (Selected (rt_owner rt) (s_epoch s)
             (select_key catalog_digest policy_digest s q' d (st_prefer t)) x))
  end.

(** [CallSite._check_frozen] *)
Definition check_frozen (frozen : option (dict string selected)) (mode : string) (x : selected)
    : res selected :=
  match frozen with
  | None => Ok x
  | Some f =>
      match dget f mode with
      | None => Ok x
      | Some expected => if same_object expected x then Ok x else Err FrozenChoiceError
      end
  end.

(** [CallSite.select]; [verify] is [verify_frozen()], [ambient] the mode of
    [current_mode()]. *)
Definition site_select (verify : bool) (ambient : kernel_mode) (rt : runtime) (t : call_site)
    (a : site_call) : runtime * call_site * res selected :=
  let mode := default (mode_value ambient) (ca_mode a) in
  let frozen := st_frozen t in
  match (if verify then None else frozen ≫= λ f, dget f mode) with
  | Some hit => (rt, t, Ok hit)
  | None =>
      let t := key_paths (rt_selector rt) t in
      match mk_memo_key (st_plan t) (ca_device a) (ca_dtype a) (ca_quant a)
              (dupdate (st_dims t) (ca_dims a)) (dupdate (st_attrs t) (ca_attrs a)) mode with
      | Err e => (rt, t, Err e)
      | Ok key =>
          match dget (st_memo t) key with
          | Some hit => (rt, t, check_frozen frozen mode hit)
          | None =>
              match call_select rt t a mode with
              | (rt', Err e) => (rt', t, Err e)
              | (rt', Ok x) =>
                  (rt', set_memo (dset (st_memo t) key x) t, check_frozen frozen mode x)
              end
          end
      end
  end.

(** [CallSite.freeze]: the distinct objects each mode was given, in the order
    their keys were first used. *)
Definition add_distinct (l : list selected) (x : selected) : list selected :=
  if existsb (same_object x) l then l else l ++ [x].
Definition by_mode (memo : dict memo_key selected) : dict string (list selected) :=
  foldl (λ d kv, dset d (me_mode kv.1) (add_distinct (default [] (dget d (me_mode kv.1))) kv.2))
    [] memo.
Definition single (kv : string * list selected) : res (string * selected) :=
  match kv.2 with
  | [x] => Ok (kv.1, x)
  | _ => Err FrozenChoiceError
  end.
Definition freeze_site (t : call_site) : call_site * res (dict string selected) :=
  match st_frozen t with
  | Some f => (t, Ok f)
  | None =>
      match st_memo t with
      | [] => (t, Err FrozenChoiceError)
      | memo =>
          match rmap single (by_mode memo) with
          | Err e => (t, Err e)
          | Ok f => (set_frozen (Some f) t, Ok f)
          end
      end
  end.

(** [CallSite.unfreeze] *)
Definition unfreeze (t : call_site) : call_site := set_frozen None t.

(** [freeze_kernel_choices] over the live sites: the counts of frozen,
    polymorphic and cold sites. *)
Record tally : Type := Tally { ta_frozen : Z; ta_polymorphic : Z; ta_cold : Z }.

Definition freeze_one (acc : list call_site * tally) (t : call_site) : list call_site * tally :=
  let '(done_, n) := acc in
  match st_frozen t with
  | Some _ => (done_ ++ [t], Tally (ta_frozen n + 1) (ta_polymorphic n) (ta_cold n))
  | None =>
      let '(t', r) := freeze_site t in
      (done_ ++ [t'],
       match r with
       | Ok _ => Tally (ta_frozen n + 1) (ta_polymorphic n) (ta_cold n)
       | Err _ =>
           match st_memo t with
           | [] => Tally (ta_frozen n) (ta_polymorphic n) (ta_cold n + 1)
           | _ => Tally (ta_frozen n) (ta_polymorphic n + 1) (ta_cold n)
           end
       end)
  end.
Definition freeze_kernel_choices (sites : list call_site) : list call_site * tally :=
  foldl freeze_one ([], Tally 0 0 0) sites.
Definition unfreeze_kernel_choices (sites : list call_site) : list call_site := unfreeze <$> sites.
End site.
