(* ===== verification/CallSiteProps.v ===== *)
(** * What the memo of a call site guarantees

    Theorems on [CallSite.v]: calls with one memo key have the same facts on the
    paths a choice can depend on, so a remembered selection is a cold one, and
    what freezing keeps of it. *)

From S2P Require Export CallSite.
From Stdlib Require Import Ascii String.
From stdpp Require Import options.

Local Open Scope Z_scope.

(** ** Facts, segment by segment *)

Lemma dget_perm {V} (d e : dict string V) k : d ≡ₚ e → NoDup (dkeys d) → dget d k = dget e k.
Proof.
  intros Hp Hd. assert (NoDup (dkeys e)) as He by (unfold dkeys in *; by rewrite <- Hp).
  apply option_eq. intros v. rewrite <- !dict_elem_iff by done. by rewrite Hp.
Qed.

Lemma dget_map {V W} (f : V → W) (d : dict string V) k :
  dget ((λ p, (p.1, f p.2)) <$> d) k = f <$> dget d k.
Proof. induction d as [|[k' v] d IH]; [done|]. simpl. by case_decide. Qed.

Lemma dkeys_map {V W} (f : V → W) (d : dict string V) :
  dkeys ((λ p, (p.1, f p.2)) <$> d) = dkeys d.
Proof. unfold dkeys. rewrite <- list_fmap_compose. by apply list_fmap_ext. Qed.

Lemma dkeys_sorted {V} (d : dict string V) : dkeys (sort_pairs d) ≡ₚ dkeys d.
Proof. unfold dkeys, sort_pairs. by rewrite py_sorted_perm. Qed.

Lemma dget_sorted {V} (d : dict string V) k : NoDup (dkeys d) → dget (sort_pairs d) k = dget d k.
Proof.
  intros Hd. apply dget_perm; [apply py_sorted_perm|]. by rewrite dkeys_sorted.
Qed.

Lemma update_over m l p :
  update m l !! p = match update ∅ l !! p with Some v => Some v | None => m !! p end.
Proof.
  induction l as [|[k v] l IH] using rev_ind; [simpl; by rewrite lookup_empty|].
  rewrite !update_app. simpl. destruct (decide (k = p)) as [->|Hne].
  - by rewrite !lookup_insert_eq.
  - by rewrite !lookup_insert_ne.
Qed.

Lemma seg_prefixed {A} pre (f : A → value) (l : dict string A) n : NoDup (dkeys l) →
  update ∅ (prefixed pre f l) !! (pre +:+ n) = f <$> dget l n.
Proof.
  induction l as [|[k a] l IH]; intros Hl; [done|]. unfold dkeys in Hl; simpl in *.
  apply NoDup_cons in Hl as [Hk Hl].
  change (update (<[pre +:+ k := f a]> ∅) (prefixed pre f l) !! (pre +:+ n)
          = f <$> (if decide (n = k) then Some a else dget l n)).
  rewrite update_over, IH by done. case_decide as Hn.
  - subst k. apply dget_None in Hk. rewrite Hk. simpl. by rewrite lookup_insert_eq.
  - destruct (dget l n); simpl; [done|]. rewrite lookup_insert_ne; [done|].
    intros Heq. apply Hn. symmetry. by apply (inj (String.append pre)) in Heq.
Qed.

Lemma seg_other {A} pre (f : A → value) l p : startswith p pre = false →
  update ∅ (prefixed pre f l) !! p = None.
Proof. intros Hp. rewrite update_lookup_ne; [done|]. intros q. by apply prefixed_ne. Qed.

Lemma startswith_split p pre : startswith p pre = true → ∃ n, p = pre +:+ n.
Proof.
  unfold startswith. revert p. induction pre as [|c pre IH]; intros p Hp; [by exists p|].
  destruct p as [|c' p]; [done|]. simpl in Hp. destruct (ascii_dec c c') as [<-|]; [|done].
  destruct (IH p Hp) as [n ->]. by exists n.
Qed.

(** The items of [facts_from_query] under [p], from the last segment back. *)
Lemma facts_segments q opt libs p :
  lookup_fact (facts_from_query q opt libs) p =
  let seg l := update ∅ l !! p in
  match seg ((λ x, (x.1, VBool x.2)) <$> libs), seg (attr_items q), seg (dim_items q),
        seg (field_items (q_quant q)), seg (quant_items (q_quant q)), seg (query_items q) with
  | Some v, _, _, _, _, _ | None, Some v, _, _, _, _ | None, None, Some v, _, _, _
  | None, None, None, Some v, _, _ | None, None, None, None, Some v, _ => Some v
  | None, None, None, None, None, r => r
  end.
Proof.
  unfold lookup_fact, facts_from_query. cbn [values]. rewrite !update_app.
  rewrite (update_over _ (_ <$> libs)). case_match; [done|].
  rewrite (update_over _ (attr_items q)). case_match; [done|].
  rewrite (update_over _ (dim_items q)). case_match; [done|].
  rewrite (update_over _ (field_items _)). case_match; [done|].
  rewrite (update_over _ (quant_items _)). by case_match.
Qed.

(** ** Queries that agree on the paths *)

Record query_wf (q : kernel_query) : Prop := {
  qw_dtype : NoDup (dkeys (q_dtype q));
  qw_lower : Forall (λ p, lower p.1 = p.1) (q_dtype q);
  qw_dims : NoDup (dkeys (sh_dims (q_shape q)));
  qw_plain : sh_attrs (q_shape q) = [];
  qw_attrs : NoDup (dkeys (q_attrs q));
}.

Definition quant_field_of (q : kernel_query) (p : string) : value :=
  if String.eqb p "quant.format" then opt_str (s_format <$> q_quant q)
  else if String.eqb p "quant.layout" then opt_str (q_quant q ≫= s_layout)
  else opt_str (q_quant q ≫= s_granularity).

(** The signature paths a memo key follows. *)
Definition keyed_quant : list string := ["quant.format"; "quant.layout"; "quant.granularity"].
Definition quant_keyed (U : gset string) : Prop :=
  ∀ p, p ∈ U → startswith p "quant." = true → p ∈ keyed_quant.

Record query_agree (U : gset string) (q1 q2 : kernel_query) : Prop := {
  qa_op : q_op q1 = q_op q2;
  qa_role : q_role q1 = q_role q2;
  qa_device : q_device q1 = q_device q2;
  qa_explicit : q_device_explicit q1 = q_device_explicit q2;
  qa_model : q_model q1 = q_model q2;
  qa_mode : q_mode q1 = q_mode q2;
  qa_dtype n : "dtype." +:+ n ∈ U → dget (q_dtype q1) n = dget (q_dtype q2) n;
  qa_dims n : "shape." +:+ n ∈ U → dget (sh_dims (q_shape q1)) n = dget (sh_dims (q_shape q2)) n;
  qa_attrs n : "attrs." +:+ n ∈ U → canon <$> dget (q_attrs q1) n = canon <$> dget (q_attrs q2) n;
  qa_quant p : p ∈ U → p ∈ keyed_quant → quant_field_of q1 p = quant_field_of q2 p;
}.

Lemma seg_dims q p :
  update ∅ (dim_items q) !! p
  = match update ∅ (prefixed "dtype." VStr (q_dtype q)) !! p with
    | Some v => Some v
    | None => update ∅ (prefixed "shape." VInt (sh_dims (q_shape q))) !! p
    end.
Proof. unfold dim_items. rewrite update_app. by rewrite update_over. Qed.

(** One namespace of two queries. *)
Lemma seg_agree {A} (U : gset string) pre (f : A → value) (l1 l2 : dict string A) p :
  NoDup (dkeys l1) → NoDup (dkeys l2) → p ∈ U →
  (∀ n, pre +:+ n ∈ U → canon ∘ f <$> dget l1 n = canon ∘ f <$> dget l2 n) →
  canon <$> (update ∅ (prefixed pre f l1) !! p) = canon <$> (update ∅ (prefixed pre f l2) !! p).
Proof.
  intros H1 H2 Hp Hn. destruct (startswith p pre) eqn:E; [|by rewrite !seg_other].
  apply startswith_split in E as [n ->]. rewrite !seg_prefixed, <- !option_fmap_compose by done.
  by apply Hn.
Qed.

Lemma seg_agree_strict {A} (U : gset string) pre (f : A → value) (l1 l2 : dict string A) p :
  NoDup (dkeys l1) → NoDup (dkeys l2) → p ∈ U →
  (∀ n, pre +:+ n ∈ U → dget l1 n = dget l2 n) →
  update ∅ (prefixed pre f l1) !! p = update ∅ (prefixed pre f l2) !! p.
Proof.
  intros H1 H2 Hp Hn. destruct (startswith p pre) eqn:E; [|by rewrite !seg_other].
  apply startswith_split in E as [n ->]. rewrite !seg_prefixed by done. by rewrite (Hn n).
Qed.

Lemma seg_quant q p : p ≠ "quant.block_k" →
  update ∅ (quant_items (q_quant q)) !! p
  = if bool_decide (p ∈ keyed_quant) then Some (quant_field_of q p) else None.
Proof.
  intros Hp. unfold quant_items, update. cbn [foldl fst snd]. rewrite lookup_insert_ne by done.
  unfold keyed_quant, quant_field_of. rewrite !lookup_insert. case_bool_decide as Hin.
  - by repeat (apply elem_of_cons in Hin as [->|Hin]; [reflexivity|]); apply elem_of_nil in Hin.
  - unfold keyed_quant in Hin. rewrite !not_elem_of_cons in Hin. destruct Hin as (H1 & H2 & H3 & _).
    by rewrite !decide_False, lookup_empty by congruence.
Qed.

Lemma facts_agree U q1 q2 opt libs : query_wf q1 → query_wf q2 → query_agree U q1 q2 →
  quant_keyed U ∨ q_quant q1 = q_quant q2 → similar_on U (facts_from_query q1 opt libs) (facts_from_query q2 opt libs).
Proof.
  intros [Hd1 _ Hs1 Hp1 Ha1] [Hd2 _ Hs2 Hp2 Ha2] [? ? ? _ ? ? Hdt Hdm Hat Hqu] HU.
  assert (query_items q1 = query_items q2) as Hitems by (unfold query_items; congruence).
  assert (∀ p, p ∈ U → update ∅ (dim_items q1) !! p = update ∅ (dim_items q2) !! p) as Hdims.
  { intros p Hp. rewrite !seg_dims. rewrite (seg_agree_strict U "dtype." VStr _ (q_dtype q2)) by done.
    case_match; [done|]. by apply (seg_agree_strict U). }
  assert (∀ p, p ∈ U → update ∅ (field_items (q_quant q1)) !! p
                       = update ∅ (field_items (q_quant q2)) !! p) as Hfields.
  { intros p Hp. destruct HU as [HU| ->]; [|done].
    assert (startswith p "quant.fields." = false) as Hf;
      [|rewrite !update_lookup_ne; [done|intros i; by apply field_items_ne..]].
    destruct (startswith p "quant.fields.") eqn:E; [|done]. exfalso.
    apply startswith_split in E as [n ->]. specialize (HU _ Hp ltac:(by rewrite prefix_app || reflexivity)).
    unfold keyed_quant in HU. by repeat (apply elem_of_cons in HU as [[=]|HU]); apply elem_of_nil in HU. }
  assert (∀ p, p ∈ U → update ∅ (quant_items (q_quant q1)) !! p
                       = update ∅ (quant_items (q_quant q2)) !! p) as Hquant.
  { intros p Hp. destruct HU as [HU| ->]; [|done]. assert (p ≠ "quant.block_k") as Hne.
    { intros ->. specialize (HU _ Hp eq_refl). by apply (bool_decide_pack _) in HU. }
    rewrite !seg_quant by done. case_bool_decide; [|done]. f_equal. by apply Hqu. }
  assert (∀ p, p ∈ U → canon <$> (update ∅ (attr_items q1) !! p)
                       = canon <$> (update ∅ (attr_items q2) !! p)) as Hattrs.
  { intros p Hp. unfold attr_items. rewrite Hp1, Hp2. simpl. apply (seg_agree U); try done. }
  apply similar_on_intro; [| |done]; intros p Hp.
  - rewrite !facts_segments. cbv beta zeta. rewrite (Hfields p Hp), Hdims, Hquant, Hitems by done.
    specialize (Hattrs p Hp). case_match; [done|].
    destruct (update ∅ (attr_items q1) !! p), (update ∅ (attr_items q2) !! p); simpl in *; try done.
  - intros Hl. rewrite !facts_segments. cbv beta zeta. rewrite (Hfields p Hp), Hdims, Hquant, Hitems by done.
    assert (∀ q, update ∅ (attr_items q) !! p = None) as Hnone.
    { intros q. apply seg_other. unfold loose_path in Hl. by apply orb_false_iff in Hl as [? _]. }
    by rewrite !Hnone.
Qed.

(** The facts all calls share add nothing to compare. *)
Lemma call_paths_other p ns : p ∈ call_paths → ns ∈ ["shape."; "dtype."; "attrs."; "quant."] →
  startswith p ns = false.
Proof.
  intros Hp Hns.
  assert (set_Forall (λ p, Forall (λ ns, startswith p ns = false) ["shape."; "dtype."; "attrs."; "quant."])
            call_paths) as H by (apply (bool_decide_unpack _); vm_compute; exact I).
  specialize (H p Hp). rewrite Forall_forall in H. by apply H.
Qed.

Lemma startswith_app ns n : startswith (ns +:+ n) ns = true.
Proof. apply prefix_app. Qed.

Lemma prepare_paths_elem {plan} c (p : policy plan) o ns n :
  ns +:+ n ∈ prepare_paths c p o → ns ∈ ["shape."; "dtype."; "attrs."; "quant."] →
  ns +:+ n ∈ choice_paths c p o.
Proof.
  unfold prepare_paths. intros [?|H]%elem_of_union Hns; [done|].
  pose proof (call_paths_other _ _ H Hns) as Hf. by rewrite startswith_app in Hf.
Qed.

Lemma query_agree_call {plan} c (p : policy plan) o q1 q2 :
  query_agree (choice_paths c p o) q1 q2 → query_agree (prepare_paths c p o) q1 q2.
Proof.
  intros [? ? ? ? ? ? Hdt Hdm Hat Hqu]. split; try done.
  - intros n Hn. apply Hdt. apply prepare_paths_elem in Hn; [done|set_solver].
  - intros n Hn. apply Hdm. apply prepare_paths_elem in Hn; [done|set_solver].
  - intros n Hn. apply Hat. apply prepare_paths_elem in Hn; [done|set_solver].
  - intros x Hx Hin. unfold prepare_paths in Hx. apply elem_of_union in Hx as [Hx|Hx]; [by apply Hqu|]. exfalso.
    assert (startswith x "quant." = true) as E.
    { unfold keyed_quant in Hin. by repeat (apply elem_of_cons in Hin as [->|Hin]; [reflexivity|]);
        apply elem_of_nil in Hin. }
    rewrite (call_paths_other _ "quant." Hx) in E by set_solver. done.
Qed.

Lemma quant_keyed_call {plan} c (p : policy plan) o :
  quant_keyed (choice_paths c p o) → quant_keyed (prepare_paths c p o).
Proof.
  intros HU x Hx Hq. unfold prepare_paths in Hx. apply elem_of_union in Hx as [Hx|Hx]; [by apply HU|].
  rewrite (call_paths_other _ "quant." Hx) in Hq by set_solver. done.
Qed.

(** Building and normalising a query keep the agreement. *)

Lemma freeze_value_canon v w : canon v = canon w → canon (freeze_value v) = canon (freeze_value w).
Proof.
  revert w. induction v as [|b|z|s|l IH|s] using value_ind'; intros w Hw;
    destruct w as [|b'|z'|s'|l'|s']; simpl in *; try done; try congruence.
  injection Hw as Hw. f_equal. rewrite !map_map. revert l' Hw.
  induction IH as [|x l Hx _ IH]; intros [|y l'] Hw; simpl in *; try done.
  injection Hw as Hxy Hw. f_equal; [by apply Hx|by apply IH].
Qed.

Lemma dget_str_sorted (d : dict string string) k : NoDup (dkeys d) →
  dget (sort_str_pairs d) k = dget d k.
Proof.
  intros Hd. apply dget_perm; [apply py_sorted_perm|]. unfold dkeys, sort_str_pairs.
  by rewrite py_sorted_perm.
Qed.

Definition lower_names {V} (d : dict string V) : Prop := Forall (λ p, lower p.1 = p.1) d.

Lemma lower_map (d : dict string string) : lower_names d →
  (λ p, (lower p.1, dtype_name p.2)) <$> d = (λ p, (p.1, dtype_name p.2)) <$> d.
Proof. induction 1 as [|p d Hp _ IH]; [done|]. rewrite !fmap_cons, Hp. by f_equal. Qed.

(** The dtypes a query stores for lower-case names. *)
Lemma stored_dtypes (d : dict string string) :
  NoDup (dkeys d) → lower_names d →
  let e := sort_str_pairs ((λ p, (lower p.1, dtype_name p.2)) <$> d) in
  NoDup (dkeys e) ∧ lower_names e ∧ ∀ n, dget e n = dtype_name <$> dget d n.
Proof.
  intros Hd Hl. cbv zeta. rewrite lower_map by done.
  assert (NoDup (dkeys ((λ p, (p.1, dtype_name p.2)) <$> d))) as Hn by by rewrite dkeys_map.
  split_and!.
  - unfold dkeys, sort_str_pairs in *. by rewrite py_sorted_perm.
  - apply Forall_forall. intros p Hp. unfold sort_str_pairs in Hp. rewrite py_sorted_elem in Hp.
    apply list_elem_of_fmap in Hp as (p' & -> & Hp'). simpl. by apply (proj1 (Forall_forall _ _) Hl).
  - intros n. by rewrite dget_str_sorted, dget_map.
Qed.

Lemma stored_attrs (d : dict string obj) : NoDup (dkeys d) →
  NoDup (dkeys (freeze_pairs d)) ∧ ∀ n, dget (freeze_pairs d) n = freeze <$> dget d n.
Proof.
  intros Hd. unfold freeze_pairs.
  assert (NoDup (dkeys ((λ p, (p.1, freeze p.2)) <$> d))) as Hn by by rewrite dkeys_map.
  split; [by rewrite dkeys_sorted|]. intros n.
  change (map (λ p : string * obj, (p.1, freeze p.2)) d) with ((λ p : string * obj, (p.1, freeze p.2)) <$> d).
  by rewrite dget_sorted, dget_map.
Qed.

Lemma replace_agree U q1 q2 m dv : query_wf q1 → query_wf q2 → query_agree U q1 q2 →
  query_wf (replace_query q1 m dv) ∧ query_agree U (replace_query q1 m dv) (replace_query q2 m dv).
Proof.
  intros [Hd1 Hl1 Hs1 Hp1 Ha1] [Hd2 Hl2 Hs2 Hp2 Ha2] [Ho Hr Hde He Hm Hmo Hdt Hdm Hat Hqu].
  destruct (stored_dtypes _ Hd1 Hl1) as (Hn1 & Hlo1 & Hg1).
  destruct (stored_dtypes _ Hd2 Hl2) as (_ & _ & Hg2).
  destruct (stored_attrs ((λ p, (p.1, OVal p.2)) <$> q_attrs q1)) as [Hna1 Hga1]; [by rewrite dkeys_map|].
  destruct (stored_attrs ((λ p, (p.1, OVal p.2)) <$> q_attrs q2)) as [_ Hga2]; [by rewrite dkeys_map|].
  split; [by split|]. unfold replace_query. split; simpl; try congruence.
  - intros n Hn. by rewrite Hg1, Hg2, (Hdt n).
  - done.
  - intros n Hn. rewrite Hga1, Hga2, !dget_map. specialize (Hat n Hn).
    destruct (dget (q_attrs q1) n), (dget (q_attrs q2) n); simpl in *; try done.
    f_equal. apply freeze_value_canon. congruence.
  - done.
Qed.

Lemma replace_wf q m dv : query_wf q → query_wf (replace_query q m dv).
Proof. intros Hq. apply (replace_agree ∅ q q); [done..|]. by split. Qed.

Lemma normalize_quant {plan handle} (s : selector (plan := plan) (handle := handle)) q :
  q_quant (normalize_query s q) = q_quant q.
Proof.
  unfold normalize_query.
  by destruct (if bool_decide _ && _ then _ else _), (if negb _ then _ else _).
Qed.

Lemma normalize_op {plan handle} (s : selector (plan := plan) (handle := handle)) q :
  lower (q_op q) = q_op q → q_op (normalize_query s q) = q_op q.
Proof.
  intros Hl. unfold normalize_query.
  by destruct (if bool_decide _ && _ then _ else _), (if negb _ then _ else _).
Qed.

Lemma normalize_agree {plan handle} (s : selector (plan := plan) (handle := handle)) U q1 q2 :
  query_wf q1 → query_wf q2 → query_agree U q1 q2 →
  query_wf (normalize_query s q1) ∧ query_wf (normalize_query s q2)
  ∧ query_agree U (normalize_query s q1) (normalize_query s q2).
Proof.
  intros H1 H2 Ha. unfold normalize_query. rewrite (qa_model _ _ _ Ha), (qa_explicit _ _ _ Ha).
  destruct (if bool_decide (q_model q2 = default_model) && _ then _ else _) as [m|];
    destruct (if negb (q_device_explicit q2) then _ else _) as [dv|]; try done.
  all: split_and!; [by apply replace_wf|by apply replace_wf|by apply replace_agree].
Qed.

(** ** Calls with one memo key *)

Lemma split_dims_ints (items : dict string obj) dims attrs :
  Forall (λ p, ∃ z, p.2 = OVal (VInt z)) items →
  NoDup (dkeys (dims ++ items)) → split_dims items dims attrs = (dims ++ items, attrs).
Proof.
  intros Hi. revert dims. induction Hi as [|[k o] items [z Hz] _ IH]; intros dims Hd; simpl.
  { by rewrite app_nil_r. }
  simpl in Hz. subst o. simpl. assert (dset dims k (OVal (VInt z)) = dims ++ [(k, OVal (VInt z))]) as ->.
  { assert (k ∉ dkeys dims) as Hk.
    { unfold dkeys in *. rewrite fmap_app, fmap_cons in Hd. apply NoDup_app in Hd as (_ & Hd & _).
      intros Hin. apply (Hd k Hin). by left. }
    clear -Hk. induction dims as [|[k' o'] dims IH]; [done|]. simpl.
    unfold dkeys in Hk; simpl in Hk. rewrite not_elem_of_cons in Hk. destruct Hk as [Hne Hk].
    rewrite decide_False by done. simpl. f_equal. by apply IH. }
  rewrite IH; [by rewrite <- app_assoc|]. by rewrite <- app_assoc.
Qed.

Lemma shape_of_ints (items : dict string obj) sh :
  Forall (λ p, ∃ z, p.2 = OVal (VInt z)) items → NoDup (dkeys items) →
  shape_from_mapping items [] = Ok sh →
  NoDup (dkeys (sh_dims sh)) ∧ sh_attrs sh = []
  ∧ ∀ n, OVal ∘ VInt <$> dget (sh_dims sh) n = dget items n.
Proof.
  intros Hi Hn. unfold shape_from_mapping. rewrite split_dims_ints by done. simpl. unfold mk_shape.
  intros H. inv_bind. simpl. rename x into zs.
  assert (items = (λ p, (p.1, (OVal ∘ VInt) p.2)) <$> zs) as ->.
  { match goal with H : rmap _ _ = Ok _ |- _ => apply rmap_ok in H; rename H into HF end.
    clear Hn. revert zs HF. induction Hi as [|[k o] items [z Hz] _ IH]; intros zs HF;
      inversion HF as [|? [k' z'] ? zs' Hh Ht]; subst; [done|]. simpl in *. subst o. simpl in Hh.
    injection Hh as <- <-. f_equal. by apply IH. }
  rewrite dkeys_map in Hn. split_and!; [by rewrite dkeys_sorted|done|].
  intros n. by rewrite dget_sorted, dget_map.
Qed.

Section site_props.
Context {plan handle device : Type} `{device_dec : EqDecision device}.
Context (import_ok : string → bool)
  (prepare : impl → facts → dict string obj → res handle)
  (wall : impl → facts → handle → Z)
  (catalog_digest : list row_payload → string)
  (policy_digest : string → string → list rule_payload_t → list rule_payload_t → option plan → string)
  (profile_of : device → device_profile).

Notation selector := (selector (plan := plan) (handle := handle)).
Notation call_site := (call_site (handle := handle) (device := device)).
Notation site_call := (site_call (device := device)).
Notation selected := (selected (handle := handle)).
Notation runtime := (runtime (plan := plan) (handle := handle)).
Notation cold_answer := (cold_answer import_ok prepare).
Notation site_fingerprint := (site_fingerprint catalog_digest policy_digest).
Notation key_paths := (key_paths catalog_digest policy_digest).
Notation site_select :=
  (site_select import_ok prepare wall catalog_digest policy_digest profile_of).
Notation call_select :=
  (call_select import_ok prepare wall catalog_digest policy_digest profile_of).

(** The arguments a site is written for: names in lower case, dimensions that
    are integers, attributes that are not [None]. *)
Record call_wf (t : call_site) (a : site_call) : Prop := {
  cw_dtype : NoDup (dkeys (ca_dtype a));
  cw_lower : lower_names (ca_dtype a);
  cw_dims : Forall (λ p, ∃ z, p.2 = OVal (VInt z)) (dupdate (st_dims t) (ca_dims a));
  cw_dims_keys : NoDup (dkeys (dupdate (st_dims t) (ca_dims a)));
  cw_attrs : Forall (λ p, p.2 ≠ OVal VNone) (dupdate (st_attrs t) (ca_attrs a));
  cw_attrs_keys : NoDup (dkeys (dupdate (st_attrs t) (ca_attrs a)));
}.

Lemma call_query_wf t a mode q : call_wf t a → call_query profile_of t a mode = Ok q → query_wf q.
Proof.
  intros [Hd Hl Hi Hik Ha Hak] H. unfold call_query, build_query in H. inv_bind.
  apply shape_of_ints in H as (Hn & Hs & _); [|done..].
  destruct (stored_dtypes _ Hd Hl) as (? & ? & _). destruct (stored_attrs _ Hak) as [? _].
  by split.
Qed.

Lemma under_elem ns paths n : ns +:+ "." +:+ n ∈ paths → sforall (λ c, negb (Ascii.eqb c ".")) ns = true →
  n ∈ under ns paths.
Proof.
  intros Hp Hns. assert (partition "." (ns +:+ "." +:+ n) = (ns, true, n)) as E.
  { clear Hp. induction ns as [|c ns IH]; [done|]. simpl in *. apply andb_prop in Hns as [Hc Hns].
    destruct (Ascii.eqb c "."); [done|]. fold (String.append ns (String "." n)).
    change (String "." n) with ("." +:+ n). by rewrite (IH Hns). }
  unfold under. apply list_elem_of_fmap. exists (ns +:+ "." +:+ n). unfold path_name, path_prefix.
  rewrite E. split; [done|]. apply list_elem_of_filter. by rewrite E.
Qed.

Lemma site_paths_elem c (p : policy plan) o path : path ∈ choice_paths c p o →
  startswith path "lib." = false → path ∈ site_paths c p o.
Proof. intros Hp Hl. unfold site_paths. rewrite sort_str_elem, elem_of_elements, elem_of_filter. done. Qed.

Lemma rmap_elem {A B} (f : A → res B) l k x : rmap f l = Ok k → x ∈ l → ∃ y, f x = Ok y.
Proof.
  intros HF%rmap_ok Hx. apply list_elem_of_lookup in Hx as [i Hi].
  destruct (Forall2_lookup_l _ _ _ _ _ HF Hi) as (y & _ & ?). by exists y.
Qed.

Lemma rmap_same {A B} (f g : A → res B) l k x : rmap f l = Ok k → rmap g l = Ok k → x ∈ l → f x = g x.
Proof.
  intros Hf%rmap_ok Hg%rmap_ok Hx. apply list_elem_of_lookup in Hx as [i Hi].
  destruct (Forall2_lookup_l _ _ _ _ _ Hf Hi) as (y & Hy & ->).
  destruct (Forall2_lookup_l _ _ _ _ _ Hg Hi) as (z & Hz & ->). congruence.
Qed.

Lemma app_eq_both {A} (l1 l2 k1 k2 : list A) : List.length l1 = List.length l2 →
  l1 ++ k1 = l2 ++ k2 → l1 = l2 ∧ k1 = k2.
Proof. apply app_inj_1. Qed.

(** The parts of two equal memo keys. *)
Lemma memo_key_parts kp d1 d2 t1 t2 u1 u2 s1 s2 a1 a2 m1 m2 key :
  mk_memo_key (device := device) kp d1 t1 u1 s1 a1 m1 = Ok key →
  mk_memo_key (device := device) kp d2 t2 u2 s2 a2 m2 = Ok key →
  m1 = m2 ∧ d1 = d2
  ∧ (∀ n, n ∈ kp_dtype kp → opt_str (dget t1 n) = opt_str (dget t2 n))
  ∧ (∀ n, n ∈ kp_shape kp → part_of (dget s1 n) = part_of (dget s2 n) ∧ is_ok (part_of (dget s1 n)) = true)
  ∧ (∀ n, n ∈ kp_attrs kp → part_of (dget a1 n) = part_of (dget a2 n) ∧ is_ok (part_of (dget a1 n)) = true)
  ∧ ∀ n, n ∈ kp_quant kp → quant_part u1 n = quant_part u2 n.
Proof.
  unfold mk_memo_key. intros H1 H2.
  apply bind_ok in H1 as (sh1 & Hs1 & H1). apply bind_ok in H1 as (va1 & Hv1 & [= <-]).
  apply bind_ok in H2 as (sh2 & Hs2 & H2). apply bind_ok in H2 as (va2 & Hv2 & H2).
  injection H2 as -> -> Hparts.
  apply app_eq_both in Hparts as [Hdt Hparts]; [|by rewrite !length_fmap].
  apply app_eq_both in Hparts as [-> Hparts]; [|by rewrite (rmap_length _ _ _ Hs1), (rmap_length _ _ _ Hs2)].
  apply app_eq_both in Hparts as [-> Hq]; [|by rewrite (rmap_length _ _ _ Hv1), (rmap_length _ _ _ Hv2)].
  assert (∀ (f g : string → value) (l : list string) n, f <$> l = g <$> l → n ∈ l → f n = g n) as Hmap.
  { intros f g l n Hfg Hn. apply list_elem_of_lookup in Hn as [i Hi].
    assert ((f <$> l) !! i = (g <$> l) !! i) as E by by rewrite Hfg.
    rewrite !list_lookup_fmap, Hi in E. simpl in E. congruence. }
  split_and!; try done.
  - intros n Hn. symmetry. by apply (Hmap (λ n, opt_str (dget t2 n)) (λ n, opt_str (dget t1 n)) _ n Hdt).
  - intros n Hn. split; [by apply (rmap_same (λ n, part_of (dget s1 n)) (λ n, part_of (dget s2 n)) _ _ n Hs1 Hs2)|].
    by destruct (rmap_elem _ _ _ n Hs1 Hn) as [y ->].
  - intros n Hn. split; [by apply (rmap_same (λ n, part_of (dget a1 n)) (λ n, part_of (dget a2 n)) _ _ n Hv1 Hv2)|].
    by destruct (rmap_elem _ _ _ n Hv1 Hn) as [y ->].
  - intros n Hn. symmetry. by apply (Hmap (quant_part u2) (quant_part u1) _ n Hq).
Qed.

Lemma attr_parts (d1 d2 : dict string obj) n :
  Forall (λ p, p.2 ≠ OVal VNone) d1 → Forall (λ p, p.2 ≠ OVal VNone) d2 →
  part_of (dget d1 n) = part_of (dget d2 n) → is_ok (part_of (dget d1 n)) = true →
  canon <$> (freeze <$> dget d1 n) = canon <$> (freeze <$> dget d2 n).
Proof.
  intros H1 H2 Heq Hok. rewrite Forall_forall in H1, H2.
  assert (∀ d : dict string obj, (∀ x, x ∈ d → x.2 ≠ OVal VNone) → dget d n ≠ Some (OVal VNone)) as Hnone
    by (intros d Hd Hx%dget_elem; by apply (Hd _ Hx)).
  specialize (Hnone d1 H1) as Hn1. specialize (Hnone d2 H2) as Hn2.
  destruct (dget d1 n) as [[v|l|d]|], (dget d2 n) as [[w|l'|d']|]; simpl in *; try done.
  - injection Heq as Heq. f_equal. by apply freeze_value_canon.
  - injection Heq as Heq. apply canon_none in Heq as ->. by destruct Hn1.
  - injection Heq as Heq. symmetry in Heq. apply canon_none in Heq as ->. by destruct Hn2.
Qed.

Lemma plan_under c (p : policy plan) o ns n :
  ns +:+ "." +:+ n ∈ choice_paths c p o → sforall (λ c, negb (Ascii.eqb c ".")) ns = true →
  startswith (ns +:+ "." +:+ n) "lib." = false → n ∈ under ns (site_paths c p o).
Proof. intros Hp Hns Hl. apply under_elem; [|done]. by apply site_paths_elem. Qed.

(** Calls with one memo key agree on every path a choice can depend on. *)
Lemma memo_key_agree c (p : policy plan) t a1 a2 m1 m2 key q1 q2 :
  call_wf t a1 → call_wf t a2 →
  let kp := plan_of (site_paths c p (st_op t)) in
  mk_memo_key kp (ca_device a1) (ca_dtype a1) (ca_quant a1) (dupdate (st_dims t) (ca_dims a1))
    (dupdate (st_attrs t) (ca_attrs a1)) m1 = Ok key →
  mk_memo_key kp (ca_device a2) (ca_dtype a2) (ca_quant a2) (dupdate (st_dims t) (ca_dims a2))
    (dupdate (st_attrs t) (ca_attrs a2)) m2 = Ok key →
  call_query profile_of t a1 m1 = Ok q1 → call_query profile_of t a2 m2 = Ok q2 →
  query_agree (choice_paths c p (st_op t)) q1 q2.
Proof.
  intros Hw1 Hw2 kp Hk1 Hk2 Hq1 Hq2.
  destruct (memo_key_parts _ _ _ _ _ _ _ _ _ _ _ _ _ _ Hk1 Hk2) as (<- & Hdev & Hdt & Hsh & Hat & Hqu).
  destruct Hw1 as [Hd1 Hl1 Hi1 Hik1 Ha1 Hak1], Hw2 as [Hd2 Hl2 Hi2 Hik2 Ha2 Hak2].
  unfold call_query, build_query in Hq1, Hq2. rewrite Hdev in Hq1. inv_bind. rename x into sh2, x0 into sh1.
  match goal with H : shape_from_mapping _ _ = Ok sh1 |- _ => apply shape_of_ints in H as (_ & _ & Hg1) end; [|done..].
  match goal with H : shape_from_mapping _ _ = Ok sh2 |- _ => apply shape_of_ints in H as (_ & _ & Hg2) end; [|done..].
  destruct (stored_dtypes _ Hd1 Hl1) as (_ & _ & He1). destruct (stored_dtypes _ Hd2 Hl2) as (_ & _ & He2).
  destruct (stored_attrs _ Hak1) as [_ Hf1]. destruct (stored_attrs _ Hak2) as [_ Hf2].
  split; simpl; try done.
  - intros n Hn. rewrite He1, He2. specialize (Hdt n (plan_under _ _ _ "dtype" n Hn eq_refl eq_refl)).
    destruct (dget (ca_dtype a1) n), (dget (ca_dtype a2) n); simpl in *; congruence.
  - intros n Hn. destruct (Hsh n (plan_under _ _ _ "shape" n Hn eq_refl eq_refl)) as [Heq _].
    rewrite <- Hg1, <- Hg2 in Heq. destruct (dget (sh_dims sh1) n), (dget (sh_dims sh2) n); simpl in *; congruence.
  - intros n Hn. destruct (Hat n (plan_under _ _ _ "attrs" n Hn eq_refl eq_refl)) as [Heq Hok].
    rewrite Hf1, Hf2. by apply attr_parts.
  - intros path Hp Hin. unfold keyed_quant in Hin. unfold quant_field_of.
    repeat (apply elem_of_cons in Hin as [->|Hin];
      [match goal with |- context [String.eqb ?x _] =>
         first [ pose proof (Hqu "format" (plan_under _ _ _ "quant" "format" Hp eq_refl eq_refl)) as E; by destruct (ca_quant a1), (ca_quant a2)
               | pose proof (Hqu "layout" (plan_under _ _ _ "quant" "layout" Hp eq_refl eq_refl)) as E; by destruct (ca_quant a1), (ca_quant a2)
               | pose proof (Hqu "granularity" (plan_under _ _ _ "quant" "granularity" Hp eq_refl eq_refl)) as E; by destruct (ca_quant a1), (ca_quant a2) ] end|]).
    by apply elem_of_nil in Hin.
Qed.

Lemma call_query_total t a mode : call_wf t a → ∃ q, call_query profile_of t a mode = Ok q.
Proof.
  intros [_ _ Hi Hik _ _]. unfold call_query, build_query, shape_from_mapping.
  rewrite split_dims_ints by done. simpl. unfold mk_shape.
  assert (∃ zs, rmap (λ p : string * obj, z ← obj_int p.2; Ok (p.1, z))
            (dupdate (st_dims t) (ca_dims a)) = Ok zs) as [zs ->]; [|by eexists].
  clear Hik. induction Hi as [|p l [z Hz] _ [zs IH]]; [by eexists|].
  simpl. rewrite Hz, IH. simpl. by eexists.
Qed.

(** ** A process *)

(** The selectors a process installs, given by their configurations; caches and
    measurements come and go.  [fixed], when given, is the signature every call
    of the site passes, as a site that serves one weight does. *)
Context (installed : list selector) (fixed : option (option physical_signature)).
Definition fits (a : site_call) : Prop := match fixed with Some u => ca_quant a = u | None => True end.
Definition allowed (s : selector) : Prop := ∃ s0, s0 ∈ installed ∧ same_config s0 s.

Record process_ok (o : string) : Prop := {
  po_sound s : s ∈ installed → sound_selector prepare o s;
  po_quant s : s ∈ installed →
    quant_keyed (choice_paths (s_catalog s) (s_policy s) o) ∨ is_Some fixed;
  po_lower : lower o = o;
  po_digests s1 s2 : s1 ∈ installed → s2 ∈ installed →
    (version catalog_digest (s_catalog s1)).2 = (version catalog_digest (s_catalog s2)).2 →
    compute_version policy_digest (s_policy s1) = compute_version policy_digest (s_policy s2) →
    s_catalog s1 = s_catalog s2 ∧ s_policy s1 = s_policy s2
    ∧ (is_Some (s_benchmark s1) ↔ is_Some (s_benchmark s2));
}.

Implicit Types (rt : runtime) (t : call_site).

Lemma allowed_sound o s : process_ok o → allowed s →
  sound_selector prepare o s
  ∧ (quant_keyed (choice_paths (s_catalog s) (s_policy s) o) ∨ is_Some fixed).
Proof using import_ok.
  intros Hok (s0 & Hin & Hcfg). split.
  - by apply (sound_selector_config prepare o s0), (po_sound _ Hok).
  - rewrite <- (sc_catalog _ _ Hcfg), <- (sc_policy _ _ Hcfg). by apply (po_quant _ Hok).
Qed.

Lemma call_op o t a mode q (s : selector) : lower o = o → st_op t = o → call_query profile_of t a mode = Ok q →
  q_op q = o ∧ q_op (normalize_query s q) = o.
Proof.
  intros Hl <- Hq. assert (q_op q = st_op t) as Hop.
  { unfold call_query, build_query in Hq. inv_bind. simpl. by rewrite !Hl. }
  split; [done|]. rewrite normalize_op; by rewrite Hop.
Qed.

(** Equal fingerprints mean the same configuration. *)
Lemma fingerprint_config o s1 s2 : process_ok o → allowed s1 → allowed s2 →
  site_fingerprint s1 = site_fingerprint s2 → same_config s1 s2.
Proof.
  intros Hok (u1 & Hu1 & Hc1) (u2 & Hu2 & Hc2) Hfp.
  unfold CallSite.site_fingerprint, device_fingerprint, model_fingerprint in Hfp.
  assert (s_device s1 = s_device s2) as Hd by (destruct (s_device s1), (s_device s2); simpl in *; congruence).
  assert (s_model s1 = s_model s2) as Hm.
  { destruct (s_model s1) as [f1 g1], (s_model s2) as [f2 g2]; simpl in *.
    assert (g1 = g2) as -> by (apply sort_elements_inj; congruence). congruence. }
  destruct (po_digests _ Hok u1 u2 Hu1 Hu2) as (Hcat & Hpol & Hb).
  - rewrite (sc_catalog _ _ Hc1), (sc_catalog _ _ Hc2). congruence.
  - rewrite (sc_policy _ _ Hc1), (sc_policy _ _ Hc2). congruence.
  - destruct Hc1 as [C1 P1 _ _ B1], Hc2 as [C2 P2 _ _ B2]. split; [congruence..|]. by rewrite <- B1, Hb.
Qed.

(** One step of a process: a call of the site, a selection elsewhere, a cleared
    cache, another selector installed or restored, freezing. *)
Inductive site_step : runtime * call_site → runtime * call_site → Prop :=
  | step_call verify ambient a rt t : call_wf t a → fits a →
      site_step (rt, t) (site_select verify ambient rt t a).1
  | step_other q prefer n s t :
      site_step (Runtime n s, t)
        (Runtime n (select import_ok prepare wall catalog_digest policy_digest s q prefer).1, t)
  | step_clear_cache n s t : site_step (Runtime n s, t) (Runtime n (clear_cache s), t)
  | step_install rt n s t : allowed s →
      cache_cold import_ok prepare catalog_digest policy_digest (st_op t) s →
      site_step (rt, t) (Runtime n s, t)
  | step_freeze rt t : site_step (rt, t) (rt, (freeze_site t).1)
  | step_unfreeze rt t : site_step (rt, t) (rt, unfreeze t).

Definition process_start (o role : string) (prefer : list string) (dims attrs : dict string obj)
    (x : runtime * call_site) : Prop :=
  allowed (rt_selector x.1) ∧ s_cache (rt_selector x.1) = [] ∧ x.2 = mk_site o role prefer dims attrs.

Definition process_reachable (o role : string) (prefer : list string) (dims attrs : dict string obj)
    (x : runtime * call_site) : Prop :=
  ∃ x0, process_start o role prefer dims attrs x0 ∧ rtc site_step x0 x.

(** A remembered selection was cold for some call of its key. *)
Definition remembered (s : selector) t (kp : key_plan) (key : memo_key) (x : selected) : Prop :=
  ∃ a mode q, call_wf t a ∧ fits a
    ∧ mk_memo_key kp (ca_device a) (ca_dtype a) (ca_quant a)
        (dupdate (st_dims t) (ca_dims a)) (dupdate (st_attrs t) (ca_attrs a)) mode = Ok key
    ∧ call_query profile_of t a mode = Ok q ∧ cold_answer s q (st_prefer t) (sd_value x).

(** The fields no operation assigns. *)
Definition same_args t t' : Prop :=
  st_op t' = st_op t ∧ st_role t' = st_role t ∧ st_prefer t' = st_prefer t
  ∧ st_dims t' = st_dims t ∧ st_attrs t' = st_attrs t.

Lemma call_wf_args t t' a : same_args t t' → call_wf t a → call_wf t' a.
Proof. intros (_ & _ & _ & Hd & Ha) []. split; by rewrite ?Hd, ?Ha. Qed.

Lemma remembered_args s t t' kp key x : same_args t t' →
  remembered s t kp key x → remembered s t' kp key x.
Proof.
  intros Hs (a & mode & q & Hw & Hfit & Hk & Hq & Hc). exists a, mode, q.
  split; [by eapply call_wf_args|]. split; [done|]. unfold call_query in *. destruct Hs as (Ho & Hr & Hp & Hd & Ha).
  by rewrite Ho, Hr, Hp, Hd, Ha.
Qed.

Record memo_ok t : Prop := {
  mo_empty : st_fingerprint t = None → st_memo t = [];
  mo_entries fp : st_fingerprint t = Some fp → ∃ s, allowed s ∧ site_fingerprint s = fp
    ∧ st_plan t = plan_of (site_paths (s_catalog s) (s_policy s) (st_op t))
    ∧ ∀ key x, dget (st_memo t) key = Some x → remembered s t (st_plan t) key x;
}.

Record site_inv (o : string) rt t : Prop := {
  si_op : st_op t = o;
  si_allowed : allowed (rt_selector rt);
  si_cold : cache_cold import_ok prepare catalog_digest policy_digest o (rt_selector rt);
  si_memo : memo_ok t;
}.

(** Nothing depends on whether the site is frozen. *)
Lemma memo_ok_frozen t f : memo_ok t → memo_ok (set_frozen f t).
Proof.
  intros [H1 H2]. split; [exact H1|]. intros fp Hfp. destruct (H2 fp Hfp) as (s & Hs & Hf & Hp & Hm).
  exists s. split_and!; try done. intros key x Hx. by apply (remembered_args _ t), Hm.
Qed.

(** After [key_paths] the memo belongs to the current selector. *)
Lemma key_paths_ok o rt t : process_ok o → site_inv o rt t →
  let t' := key_paths (rt_selector rt) t in
  memo_ok t' ∧ st_fingerprint t' = Some (site_fingerprint (rt_selector rt))
  ∧ st_plan t' = plan_of (site_paths (s_catalog (rt_selector rt)) (s_policy (rt_selector rt)) o)
  ∧ (∀ key x, dget (st_memo t') key = Some x →
       remembered (rt_selector rt) t' (st_plan t') key x)
  ∧ same_args t t' ∧ st_frozen t' = st_frozen t.
Proof.
  intros Hok [Hop Hal Hcold [Hempty Hentries]]. unfold CallSite.key_paths.
  destruct (decide _) as [Hfp|Hfp].
  - destruct (Hentries _ (eq_sym Hfp)) as (s & Hs & Hsfp & Hplan & Hmemo).
    pose proof (fingerprint_config o s (rt_selector rt) Hok Hs Hal Hsfp) as Hcfg.
    split_and!; try done.
    + rewrite Hplan, Hop. by rewrite (sc_catalog _ _ Hcfg), (sc_policy _ _ Hcfg).
    + intros key x Hx. destruct (Hmemo key x Hx) as (a & mode & q & Hw & Hfit & Hk & Hq & Hc).
      exists a, mode, q. split_and!; try done.
      apply (cold_answer_config import_ok prepare o s); [by eapply allowed_sound|done| |done].
      by apply (call_op o t a mode); [apply Hok|..].
  - split_and!; try done; [|by rewrite <- Hop]. split; simpl; [done|]. intros fp [= <-].
    exists (rt_selector rt). by split_and!.
Qed.

(** What a memo entry says about another call of its key. *)
Lemma remembered_answers o s t a mode key x :
  process_ok o → st_op t = o → allowed s → call_wf t a → fits a →
  mk_memo_key (plan_of (site_paths (s_catalog s) (s_policy s) o)) (ca_device a) (ca_dtype a)
    (ca_quant a) (dupdate (st_dims t) (ca_dims a)) (dupdate (st_attrs t) (ca_attrs a)) mode = Ok key →
  remembered s t (plan_of (site_paths (s_catalog s) (s_policy s) o)) key x →
  ∃ q, call_query profile_of t a mode = Ok q ∧ cold_answer s q (st_prefer t) (sd_value x).
Proof.
  intros Hok <- Hal Hw Hfit Hkey (a0 & m0 & q0 & Hw0 & Hfit0 & Hk0 & Hq0 & Hc0).
  destruct (call_query_total t a mode Hw) as [q Hq]. exists q. split; [done|].
  destruct (allowed_sound _ _ Hok Hal) as [[Hr Hn Hp] HU].
  pose proof (memo_key_agree _ _ _ _ _ _ _ _ _ _ Hw0 Hw Hk0 Hkey Hq0 Hq) as Hag.
  pose proof (call_query_wf _ _ _ _ Hw0 Hq0) as Hwf0. pose proof (call_query_wf _ _ _ _ Hw Hq) as Hwf.
  destruct (normalize_agree s _ _ _ Hwf0 Hwf Hag) as (Hn0 & Hn1 & Hag').
  destruct (call_op _ t a0 m0 q0 s (po_lower _ Hok) eq_refl Hq0) as [_ Hop].
  assert (quant_keyed (choice_paths (s_catalog s) (s_policy s) (st_op t))
          ∨ q_quant (normalize_query s q0) = q_quant (normalize_query s q)) as HU'.
  { destruct HU as [HU|[u Hu]]; [by left|right]. unfold fits in Hfit, Hfit0. rewrite Hu in Hfit, Hfit0.
    rewrite !normalize_quant. unfold call_query, build_query in Hq0, Hq. inv_bind. simpl. congruence. }
  revert Hc0. apply cold_answer_similar; try done;
    [by rewrite Hop|apply (qa_op _ _ _ Hag')|apply (qa_mode _ _ _ Hag')|].
  intros spec _. rewrite Hop. unfold facts_for.
  apply facts_agree; [done..|by apply query_agree_call|].
  destruct HU' as [HU'|HU']; [left; by apply quant_keyed_call|by right].
Qed.

Lemma call_select_ok o rt t a mode rt' r :
  process_ok o → site_inv o rt t → call_select rt t a mode = (rt', r) →
  allowed (rt_selector rt') ∧ cache_cold import_ok prepare catalog_digest policy_digest o (rt_selector rt')
  ∧ site_fingerprint (rt_selector rt') = site_fingerprint (rt_selector rt)
  ∧ ∀ x, r = Ok x → ∃ q, call_query profile_of t a mode = Ok q
      ∧ cold_answer (rt_selector rt) q (st_prefer t) (sd_value x).
Proof.
  intros Hok [Hop Hal Hcold _]. unfold CallSite.call_select.
  destruct (call_query profile_of t a mode) as [q|] eqn:Hq; [|by intros [= <- <-]].
  destruct (select _ _ _ _ _ _ _ _) as [s' r'] eqn:Hsel. intros [= <- <-]. simpl.
  destruct (allowed_sound _ _ Hok Hal) as [Hsound _].
  pose proof (select_setting import_ok prepare wall catalog_digest policy_digest (rt_selector rt) q (st_prefer t)) as Hset.
  rewrite Hsel in Hset. pose proof (same_setting_config _ _ Hset) as Hcfg. simpl in Hcfg.
  destruct (select_is_cold _ _ _ _ _ _ _ _ _ _ _ Hsound Hcold Hsel) as [Hcold' Hx].
  split_and!; [|done| |].
  - destruct Hal as (s0 & Hin & Hc0). exists s0. split; [done|]. etrans; [done|by symmetry].
  - destruct Hset as (Hc & Hp & Hm & Hd & _ & He). simpl in *. unfold CallSite.site_fingerprint.
    by rewrite Hc, Hp, Hm, Hd, He.
  - intros x Hr. apply bind_ok in Hr as (y & -> & Hr). apply bind_ok in Hr as ([[[? ?] ?] ?] & _ & [= <-]).
    exists q. split; [done|]. apply Hx; [|done]. by apply (call_op o t a mode); [apply Hok|..].
Qed.

Lemma site_select_ok o verify ambient rt t a rt' t' r :
  process_ok o → site_inv o rt t → call_wf t a → fits a →
  site_select verify ambient rt t a = (rt', t', r) →
  site_inv o rt' t' ∧ same_args t t' ∧
  (verify = true ∨ st_frozen t = None → ∀ x, r = Ok x →
     ∃ q, call_query profile_of t a (default (mode_value ambient) (ca_mode a)) = Ok q
       ∧ cold_answer (rt_selector rt) q (st_prefer t) (sd_value x)).
Proof.
  intros Hok Hinv Hw Hfit. unfold CallSite.site_select. set (mode := default _ (ca_mode a)).
  destruct (if verify then None else _) as [hit|] eqn:Hfr.
  { intros [= <- <- <-]. split_and!; [done|by split_and!|]. intros [->|Hf]; [done|].
    rewrite Hf in Hfr. by destruct verify. }
  clear Hfr. destruct (key_paths_ok _ _ _ Hok Hinv) as (Hmemo & Hfp & Hplan & Hrem & Hargs & Hfrz).
  set (t1 := key_paths (rt_selector rt) t) in *.
  pose proof (call_wf_args _ _ _ Hargs Hw) as Hw1.
  assert (st_op t1 = o) as Hop1 by (destruct Hargs as [-> _]; apply Hinv).
  assert (site_inv o rt t1) as Hinv1 by (destruct Hinv; by split).
  assert (∀ m, call_query profile_of t1 a m = call_query profile_of t a m) as Hcq.
  { intros m. unfold call_query. destruct Hargs as (-> & -> & _ & -> & ->). done. }
  assert (st_prefer t1 = st_prefer t) as Hpref by by destruct Hargs as (_ & _ & -> & _).
  assert (∀ x y, check_frozen (st_frozen t) mode x = Ok y → y = x) as Hcheck.
  { intros x y. unfold check_frozen. repeat case_match; congruence. }
  cbv zeta.
  destruct (mk_memo_key _ _ _ _ _ _ _) as [key|e] eqn:Hkey.
  2: { intros [= <- <- <-]. split_and!; [done|done|]. done. }
  pose proof Hkey as Hkey'. rewrite Hplan in Hkey'.
  destruct (dget (st_memo t1) key) as [hit|] eqn:Hhit.
  - intros [= <- <- <-]. split_and!; [done|done|]. intros _ x Hx. apply Hcheck in Hx as ->.
    rewrite <- Hcq, <- Hpref. eapply remembered_answers; try done; [apply Hinv|].
    rewrite <- Hplan. by apply Hrem.
  - destruct (call_select rt t1 a mode) as [rt1 [x|e]] eqn:Hsel;
      apply (call_select_ok o) in Hsel as (Hal' & Hcold' & Hfp' & Hx); try done.
    2: { intros [= <- <- <-]. by split_and!. }
    intros [= <- <- <-]. destruct (Hx x eq_refl) as (q & Hq & Hcq'). split_and!; [|done|].
    + split; [done|done|done|]. split; simpl; [by rewrite Hfp|]. intros fp Hfp0.
      rewrite Hfp in Hfp0. injection Hfp0 as <-. exists (rt_selector rt).
      split_and!; [apply Hinv|done|by rewrite Hplan, Hop1|].
      intros k y. rewrite dget_dset. case_decide as Hk.
      * intros [= <-]. subst k. apply (remembered_args _ t1); [done|]. by exists a, mode, q.
      * intros Hy. apply (remembered_args _ t1); [done|]. by apply Hrem.
    + intros _ y Hy. apply Hcheck in Hy as ->. exists q. by rewrite <- Hcq, <- Hpref.
Qed.

Lemma site_reachable_inv o role prefer dims attrs x : process_ok o →
  process_reachable o role prefer dims attrs x → site_inv o x.1 x.2 ∧ same_args (mk_site o role prefer dims attrs) x.2.
Proof.
  intros Hok (x0 & (Hal & Hc & Ht) & Hsteps). revert x Hsteps. apply rtc_ind_r.
  - rewrite Ht. split; [|done]. split; [done|done| |].
    + intros key y. by rewrite Hc.
    + split; [done|]. intros fp [=].
  - intros [rt1 t1] [rt2 t2] _ Hstep [Hinv Hargs]. simpl in *.
    assert (∀ r, rt_selector r = rt_selector rt2 → site_inv o r t1 → site_inv o rt2 t1) as Hsame.
    { intros r Hr []. split; try done; by rewrite <- Hr. }
    inversion Hstep; subst; clear Hstep; simpl in *.
    + destruct (site_select _ _ _ _ _) as [[r s] z] eqn:Hsel. simpl in *. simplify_eq.
      apply (site_select_ok o) in Hsel as (? & ? & _); try done. split; [done|].
      unfold same_args in *. naive_solver congruence.
    + split; [|done]. destruct (select _ _ _ _ _ s q prefer0) as [s' r] eqn:Hsel. simpl.
      destruct Hinv as [Hop Hal1 Hcold Hmemo]. simpl in *.
      destruct (allowed_sound _ _ Hok Hal1) as [Hsound _].
      pose proof (select_setting import_ok prepare wall catalog_digest policy_digest s q prefer0) as Hset.
      rewrite Hsel in Hset. pose proof (same_setting_config _ _ Hset) as Hcfg. simpl in Hcfg.
      destruct (select_is_cold _ _ _ _ _ _ _ _ _ _ _ Hsound Hcold Hsel) as [Hcold' _]. split; try done.
      destruct Hal1 as (s0 & Hin & Hc0). exists s0. split; [done|]. simpl. etrans; [done|by symmetry].
    + split; [|done]. destruct Hinv as [Hop (s0 & Hin & Hc0) Hcold Hmemo]. split; try done.
      exists s0. split; [done|]. simpl in *. etrans; [done|]. by split.
    + split; [|done]. destruct Hinv as [Hop Hal1 Hcold Hmemo]. split; try done. by rewrite <- Hop.
    + unfold freeze_site. destruct Hinv as [Hop Hal1 Hcold Hmemo].
      destruct (st_frozen t1); [by split|]. destruct (st_memo t1) eqn:Hm; [by split|].
      destruct (rmap _ _) as [f|]; simpl; [|by split].
      split; [split; try done; by apply memo_ok_frozen|done].
    + destruct Hinv. split; [split; try done; by apply memo_ok_frozen|done].
Qed.

(** ** Properties *)

(** The memo of a call site never changes an answer.  Whatever calls,
    selections elsewhere, cache resets, selector replacements and freezes came
    before, a call of the site that is not answered from a frozen choice returns
    a selection a cold selector makes for this very call: the row, parameters
    and implementation of the first candidate that prepares (of one that
    prepares, when the call is autotuned).  The
    installed rows must keep the contracts [process_ok] names; [OpsProps.v] says
    which built-in operations do. *)
Theorem memo_answers_cold o role prefer dims attrs rt t verify ambient a rt' t' x :
  process_ok o → process_reachable o role prefer dims attrs (rt, t) → call_wf t a → fits a →
  verify = true ∨ st_frozen t = None →
  site_select verify ambient rt t a = (rt', t', Ok x) →
  ∃ q, call_query profile_of t a (default (mode_value ambient) (ca_mode a)) = Ok q
    ∧ cold_answer (rt_selector rt) q prefer (sd_value x).
Proof.
  intros Hok Hreach Hw Hfit Hfr Hsel.
  destruct (site_reachable_inv _ _ _ _ _ _ Hok Hreach) as [Hinv (_ & _ & Hp & _)]. simpl in *.
  apply (site_select_ok o) in Hsel as (_ & _ & Hx); try done. rewrite <- Hp. by apply Hx.
Qed.

(** The objects a mode was given, in the order of the memo. *)
Definition in_mode (mode : string) (memo : dict (memo_key (device := device)) selected) : list selected :=
  snd <$> filter (λ kv, me_mode kv.1 = mode) memo.

Lemma dset_default_mode (d : dict string (list selected)) m x mode :
  default [] (dget (dset d m (add_distinct (default [] (dget d m)) x)) mode)
  = if decide (m = mode) then add_distinct (default [] (dget d mode)) x else default [] (dget d mode).
Proof. rewrite dget_dset. case_decide; by subst. Qed.

Lemma by_mode_get (memo : dict (memo_key (device := device)) selected) mode :
  default [] (dget (by_mode memo) mode) = foldl add_distinct [] (in_mode mode memo)
  ∧ (mode ∈ dkeys (by_mode memo) ↔ in_mode mode memo ≠ []) ∧ NoDup (dkeys (by_mode memo)).
Proof.
  unfold by_mode, in_mode. induction memo as [|[k x] memo IH] using rev_ind.
  { split_and!; [done| |by apply NoDup_nil_2]. split; [by intros ?%elem_of_nil|done]. }
  rewrite !foldl_snoc, filter_app, fmap_app, foldl_app. destruct IH as (IH1 & IH2 & IH3). simpl.
  rewrite dset_default_mode, IH1. split_and!; [|..|by apply dset_NoDup].
  - rewrite filter_cons. simpl. by case_decide.
  - rewrite filter_cons. simpl. rewrite <- dget_is_Some, dget_dset. case_decide as Hm.
    + split; [|by intros; eexists]. intros _ []%app_eq_nil. done.
    + rewrite filter_nil, app_nil_r, <- IH2. apply dget_is_Some.
Qed.

Lemma add_distinct_one (l : list selected) x0 : l ≠ [] →
  foldl add_distinct [] l = [x0] → ∀ x, x ∈ l → identity x = identity x0.
Proof.
  assert (∀ l acc : list selected, ∃ ys, foldl add_distinct acc l = acc ++ ys
            ∧ ∀ x, x ∈ l → ∃ y, y ∈ acc ++ ys ∧ identity x = identity y) as H.
  { induction l0 as [|z l0 IH]; intros acc; simpl.
    { exists []. rewrite app_nil_r. split; [done|by intros ? ?%elem_of_nil]. }
    destruct (IH (add_distinct acc z)) as (ys & -> & Hys). unfold add_distinct in *.
    destruct (existsb (same_object z) acc) eqn:E.
    - exists ys. split; [done|]. intros x [->|Hx]%elem_of_cons; [|by apply Hys].
      apply existsb_exists in E as (y & Hy & Hs). apply bool_decide_eq_true in Hs. exists y.
      split; [apply elem_of_app; left; by apply list_elem_of_In|done].
    - exists (z :: ys). rewrite <- app_assoc in Hys |- *. split; [done|].
      intros x [->|Hx]%elem_of_cons; [|by apply Hys]. exists z. set_solver. }
  intros _ Hl x Hx. destruct (H l []) as (ys & Hys & Hall). simpl in *. rewrite Hl in Hys. subst ys.
  destruct (Hall x Hx) as (y & ->%list_elem_of_singleton & ?). done.
Qed.

Lemma add_distinct_same (l : list selected) x0 : (∀ x, x ∈ l → identity x = identity x0) → head l = Some x0 →
  foldl add_distinct [] l = [x0].
Proof.
  destruct l as [|y l]; [done|]. intros Hl [= ->]. simpl.
  assert (∀ x, x ∈ l → identity x = identity x0) as Hl' by (intros; apply Hl; by right). clear Hl.
  induction l as [|z l IH]; [done|]. simpl. unfold add_distinct at 2. simpl. unfold same_object.
  rewrite bool_decide_eq_true_2 by (apply Hl'; by left). simpl. apply IH. intros; apply Hl'; by right.
Qed.

(** Freezing an unfrozen site succeeds exactly when it has run and gave
    one object in each mode it ran in; it then pins exactly the modes it ran
    in, each to that object. *)
Theorem freeze_exact t : st_frozen t = None →
  match freeze_site t with
  | (t', Ok f) => st_memo t ≠ [] ∧ t' = set_frozen (Some f) t
      ∧ ∀ mode, match dget f mode with
                | Some x => in_mode mode (st_memo t) ≠ []
                            ∧ ∀ y, y ∈ in_mode mode (st_memo t) → identity y = identity x
                | None => in_mode mode (st_memo t) = []
                end
  | (t', Err e) => t' = t ∧ e = FrozenChoiceError
      ∧ (st_memo t = [] ∨ ∃ mode x y, x ∈ in_mode mode (st_memo t) ∧ y ∈ in_mode mode (st_memo t)
                                       ∧ identity x ≠ identity y)
  end.
Proof.
  intros Hf. unfold freeze_site. rewrite Hf. destruct (st_memo t) as [|kv memo] eqn:Hm.
  { split_and!; [done|done|by left]. }
  assert (st_memo t ≠ []) as Hne by by rewrite Hm. rewrite <- Hm. clear kv memo Hm. set (m := st_memo t).
  assert (∀ mode l, (mode, l) ∈ by_mode m → foldl add_distinct [] (in_mode mode m) = l ∧ in_mode mode m ≠ []) as Hel.
  { intros mode l Hin. destruct (by_mode_get m mode) as (Hd & Hk & Hn).
    apply (elem_dget _ _ _ Hn) in Hin as Hg. rewrite Hg in Hd. simpl in Hd. split; [done|].
    apply Hk, dget_is_Some. by eexists. }
  destruct (rmap single (by_mode m)) as [f|e] eqn:Hr.
  - assert (Forall2 (λ kl kx, kx.1 = kl.1 ∧ kl.2 = [kx.2]) (by_mode m) f) as HF.
    { apply rmap_ok in Hr. eapply Forall2_impl; [exact Hr|]. intros [k l] [k' x]. unfold single. simpl.
      destruct l as [|y [|]]; [done|intros [= -> ->]; done|done]. }
    assert (dkeys f = dkeys (by_mode m)) as Hkeys.
    { clear -HF. unfold dkeys. induction HF as [|? ? ? ? [? _] _ IH]; [done|]. rewrite !fmap_cons. by f_equal. }
    split_and!; [done|done|]. intros mode. destruct (by_mode_get m mode) as (_ & Hk & Hn).
    destruct (dget f mode) as [x|] eqn:Hx.
    + apply dget_elem in Hx as Hin. apply list_elem_of_lookup in Hin as [i Hi].
      destruct (Forall2_lookup_r _ _ _ _ _ HF Hi) as ([k l] & Hl & Heq & Hl'). simpl in *. subst.
      destruct (Hel k [x]) as [Hfold Hnn]; [by eapply list_elem_of_lookup_2|].
      split; [done|]. by apply add_distinct_one.
    + apply dget_None in Hx. rewrite Hkeys in Hx. destruct (in_mode mode m) eqn:E; [done|].
      exfalso. apply Hx. by apply Hk.
  - apply rmap_err in Hr as ([mode l] & Hin & Hs). destruct (Hel mode l Hin) as [Hfold Hnn].
    split_and!; [done|unfold single in Hs; simpl in Hs; destruct l as [|? [|]]; congruence|].
    right. exists mode. destruct (in_mode mode m) as [|x0 xs] eqn:E; [done|].
    destruct (decide (Forall (λ y, identity y = identity x0) (x0 :: xs))) as [Hall|Hall].
    + rewrite Forall_forall in Hall. rewrite (add_distinct_same _ x0 Hall) in Hfold by done. subst l. done.
    + apply not_Forall_Exists, Exists_exists in Hall as (y & Hy & Hneq); [|apply _].
      exists y, x0. split_and!; [done|by left|done].
Qed.

(** What a pinned choice does to later calls.  In a pinned mode an
    unverified call returns the pinned object and changes nothing, and a
    verified call returns that very object or raises; in any other mode the
    answer is the one of the unfrozen site. *)
Theorem frozen_choice verify ambient rt t a f :
  st_frozen t = Some f →
  match dget f (default (mode_value ambient) (ca_mode a)) with
  | Some x =>
      site_select false ambient rt t a = (rt, t, Ok x)
      ∧ ∀ rt' t' y, site_select true ambient rt t a = (rt', t', Ok y) → identity y = identity x
  | None => (site_select verify ambient rt t a).2 = (site_select verify ambient rt (unfreeze t) a).2
  end.
Proof.
  intros Hf. unfold CallSite.site_select. rewrite Hf. set (mode := default _ (ca_mode a)).
  change (Some f ≫= (λ f, dget f mode)) with (dget f mode).
  destruct (dget f mode) as [x|] eqn:Hx.
  - split; [done|]. intros rt' t' y. cbv zeta.
    assert (∀ z, check_frozen (Some f) mode z = Ok y → identity y = identity x) as Hc.
    { intros z. unfold check_frozen. rewrite Hx. unfold same_object. case_bool_decide; congruence. }
    destruct (mk_memo_key _ _ _ _ _ _ _) as [key|]; [|done].
    destruct (dget _ key); [intros [= _ _ H]; by apply Hc in H|].
    destruct (call_select _ _ _ _) as [? [z|]]; [|done]. intros [= _ _ H]. by apply Hc in H.
  - assert (∀ z, check_frozen (Some f) mode z = Ok z) as Hc by (intros; unfold check_frozen; by rewrite Hx).
    assert ((if verify then None else None) = @None selected) as Hv by by destruct verify.
    assert (key_paths (rt_selector rt) (unfreeze t) = unfreeze (key_paths (rt_selector rt) t)) as ->.
    { unfold CallSite.key_paths. simpl. by case_decide. }
    set (t1 := key_paths (rt_selector rt) t). simpl. rewrite !Hv, !Hx.
    destruct (mk_memo_key _ _ _ _ _ _ _) as [key|]; [|done].
    destruct (dget _ key); simpl; [done|].
    change (call_select rt (unfreeze t1) a mode) with (call_select rt t1 a mode).
    by destruct (call_select _ _ _ _) as [? [z|]].
Qed.
End site_props.

(** ** A concrete site *)
Definition demo_call : site_call (device := unit) :=
  SiteCall None [("activation", "bf16")] None [("m", OVal (VInt 3))] [] None.

Definition demo_site : call_site (handle := string) (device := unit) :=
  mk_site "norm.rms" "" [] [("hidden", OVal (VInt 64))] [].

Definition demo_site_select :=
  site_select (plan := unit) (handle := string) (device := unit) (λ _, true) demo_prepare demo_wall
    sample_digest demo_policy_digest (λ _, default_device).

Definition demo_warm : runtime (plan := unit) (handle := string) * call_site (handle := string) (device := unit) :=
  (demo_site_select false EAGER (Runtime 0 demo_selector) demo_site demo_call).1.

Lemma demo_process_ok : process_ok demo_prepare sample_digest demo_policy_digest [demo_selector] None "norm.rms".
Proof.
  split.
  - intros s ->%list_elem_of_singleton. split; [split| |].
    + apply Forall_forall. vm_compute. by repeat constructor.
    + by intros r ?%elem_of_nil.
    + intros name spec Hs%dget_elem. vm_compute in Hs. apply list_elem_of_singleton in Hs. by injection Hs as -> ->.
    + by intros i fs1 fs2 ps _ _.
  - intros s ->%list_elem_of_singleton. left.
    apply (bool_decide_unpack (set_Forall (λ p, startswith p "quant." = true → p ∈ keyed_quant) _)).
    vm_compute. exact I.
  - reflexivity.
  - by intros s1 s2 ->%list_elem_of_singleton ->%list_elem_of_singleton.
Qed.

Lemma demo_call_wf : call_wf demo_site demo_call.
Proof.
  split; try (apply (bool_decide_unpack _); vm_compute; exact I); vm_compute;
    repeat (apply Forall_cons_2; [first [done|by eexists]|]); apply Forall_nil_2.
Qed.

Lemma demo_reachable :
  process_reachable (λ _, true) demo_prepare demo_wall sample_digest demo_policy_digest
    (λ _ : unit, default_device) [demo_selector] None "norm.rms" "" [] [("hidden", OVal (VInt 64))] []
    (demo_warm.1, demo_warm.2).
Proof.
  exists (Runtime 0 demo_selector, demo_site). split.
  - split; [|done]. exists demo_selector. split; [by apply list_elem_of_singleton|done].
  - apply rtc_once. unfold demo_warm, demo_site_select. rewrite <- surjective_pairing.
    apply step_call; [apply demo_call_wf|exact I].
Qed.

Lemma memo_answers_cold_witness :
  ∃ rt' t' x q, demo_site_select false EAGER demo_warm.1 demo_warm.2 demo_call = (rt', t', Ok x)
    ∧ call_query (λ _, default_device) demo_warm.2 demo_call "eager" = Ok q
    ∧ cold_answer (λ _, true) demo_prepare (rt_selector demo_warm.1) q [] (sd_value x).
Proof.
  destruct (demo_site_select false EAGER demo_warm.1 demo_warm.2 demo_call) as [[rt' t'] [x|e]] eqn:E.
  2: { vm_compute in E. discriminate E. }
  destruct (memo_answers_cold (λ _, true) demo_prepare demo_wall sample_digest demo_policy_digest
    (λ _ : unit, default_device) [demo_selector] None "norm.rms" "" [] [("hidden", OVal (VInt 64))] []
    demo_warm.1 demo_warm.2 false EAGER demo_call rt' t' x demo_process_ok demo_reachable) as (q & Hq & Hc).
  - apply (call_wf_args demo_site); [vm_compute; by split_and!|apply demo_call_wf].
  - exact I.
  - right. vm_compute. reflexivity.
  - exact E.
  - exists rt', t', x, q. split; [reflexivity|]. split; [exact Hq|exact Hc].
Defined.

Definition demo_frozen : call_site (handle := string) (device := unit) := (freeze_site demo_warm.2).1.

Lemma freeze_exact_witness : st_memo demo_warm.2 ≠ [] ∧ st_frozen demo_frozen ≠ None.
Proof.
  pose proof (freeze_exact demo_warm.2 ltac:(vm_compute; reflexivity)) as H. unfold demo_frozen.
  destruct (freeze_site demo_warm.2) as [t' [f|e]] eqn:E.
  - destruct H as (Hm & -> & _). split; [exact Hm|simpl; discriminate].
  - vm_compute in E. discriminate E.
Defined.

Lemma frozen_choice_witness :
  ∃ x, demo_site_select false EAGER demo_warm.1 demo_frozen demo_call = (demo_warm.1, demo_frozen, Ok x).
Proof.
  destruct (st_frozen demo_frozen) as [f|] eqn:Hf; [|vm_compute in Hf; discriminate Hf].
  pose proof (frozen_choice (λ _, true) demo_prepare demo_wall sample_digest demo_policy_digest
    (λ _ : unit, default_device) false EAGER demo_warm.1 demo_frozen demo_call f Hf) as H.
  destruct (dget f _) as [x|] eqn:Hx.
  - exists x. apply H.
  - exfalso. vm_compute in Hf. injection Hf as <-. vm_compute in Hx. discriminate Hx.
Defined.
