(* ===== verification/Ops.v ===== *)
(** * The built-in operations

    Models [kernel/ops]: the schemas and rows every operation module registers,
    their capability predicates, the [prepare] function of each row as the
    implementation it picks, the benchmark arguments, and [populate].  The
    predicates are built with the constructors of [Predicate.v], so a mistake
    that raises at import time is an [Err] here.

    The kernels are named, not modelled; [can_import] says which modules a
    process can import. *)

From S2P Require Export Registry.
From Stdlib Require Import Ascii String.
From stdpp Require Import options.

Local Open Scope Z_scope.

(** ** The predicate notation of the operation modules *)

Definition rpred : Type := res predicate.

Definition eq_s (f : fact) (s : string) : rpred := mk_cmp f OEq (VStr s).
Definition eq_z (f : fact) (z : Z) : rpred := mk_cmp f OEq (VInt z).
Definition eq_b (f : fact) (b : bool) : rpred := mk_cmp f OEq (VBool b).
Definition ne_s (f : fact) (s : string) : rpred := mk_cmp f ONe (VStr s).
Definition ne_b (f : fact) (b : bool) : rpred := mk_cmp f ONe (VBool b).
Definition le_z (f : fact) (z : Z) : rpred := mk_cmp f OLe (VInt z).
Definition eq_f (f g : fact) : rpred := mk_cmp_fact f OEq g.
Definition in_s (f : fact) (l : list string) : rpred := mk_in f (VStr <$> l).
Definition in_z (f : fact) (l : list Z) : rpred := mk_in f (VInt <$> l).
Definition truthy (f : fact) : rpred := Ok (Leaf f LIsTruthy).
Definition is_none (f : fact) : rpred := Ok (Leaf f LIsNone).
Definition is_set (f : fact) : rpred := Ok (Leaf f LIsSet).
Definition has (name : string) : rpred := truthy (fact_lib name).
Definition divides (m : Z) (f : fact) : rpred := e ← mk_mod_expr f m; mod_expr_eq e 0.
Definition at_least (bound : string) : rpred := mk_arch_at_least fact_device_arch (VStr bound).
Definition family_in (l : list string) : rpred := mk_arch_family_in fact_device_arch (VStr <$> l).
Definition ands (parts : list rpred) : rpred := all_of <$> rmap id parts.
Definition ors (parts : list rpred) : rpred := any_of <$> rmap id parts.
Definition imply (c r : rpred) : rpred := a ← c; b ← r; Ok (implies a b).
(** [a & b] *)
Definition both (a b : rpred) : rpred := x ← a; y ← b; Ok (mk_and [x; y]).

Definition vendor_nvidia : rpred := eq_s fact_device_vendor "nvidia".

(** ** Implementations

    What [prepare] returns: a function of a module, the same with bound
    arguments, a closure over some settings, or a constructor of a backend
    class with the parameters it will pass. *)
Inductive handle : Type :=
  | Function (module name : string)
  | Partial (module name : string) (kwargs : dict string obj)
  | Closure (name : string) (captured : list value)
  | Backend (cls : string) (kwargs : dict string obj).

(** What a [prepare] function can use: the importable modules. *)
Definition prepare_fn : Type := (string → bool) → facts → dict string obj → res handle.

(** [from module import name] *)
Definition import (can_import : string → bool) (module : string) : res unit :=
  ensure (can_import module) OtherError.

(** A row that always picks one function of one module. *)
Definition pick_function (module name : string) : prepare_fn := λ imp _ _,
  _ ← import imp module; Ok (Function module name).
(** A row that returns a closure over nothing. *)
Definition pick_closure (name : string) : prepare_fn := λ _ _ _, Ok (Closure name []).

(** [call.torch_dtype], as the name of the torch dtype. *)
Definition torch_dtypes : dict string string := [
  ("bf16", "torch.bfloat16"); ("fp16", "torch.float16"); ("fp32", "torch.float32");
  ("fp64", "torch.float64"); ("fp8_e4m3", "torch.float8_e4m3fn"); ("fp8_e5m2", "torch.float8_e5m2");
  ("uint8", "torch.uint8")].
Definition torch_dtype (name : string) : res string := of_option ValueError (dget torch_dtypes name).

(** [torch_dtype(str(facts.lookup(path)))]; [str(MISSING)] names no dtype. *)
Definition dtype_fact (fs : facts) (path : string) : res string :=
  match lookup_fact fs path with
  | Some v => torch_dtype (py_str v)
  | None => Err ValueError
  end.

Record op_row : Type := Row { rw_impl : res impl; rw_prepare : prepare_fn }.

(** [Impl(...)]; the object is numbered when it is registered. *)
Definition mk_row (id op_name : string) (priority : Z) (reference capture_safe : bool) (when : rpred)
    (params : list (string * res param_contract)) (metadata : dict string value) (prepare : prepare_fn)
    : op_row :=
  Row (p ← when;
       ps ← rmap (λ x : string * res param_contract, c ← x.2; Ok (x.1, c)) params;
       mk_impl (Impl 0 id op_name p priority reference capture_safe ps metadata))
    prepare.

Definition prio (b : priority_band) (offset : Z) : Z := band_value b + offset.

(** One operation module: the schemas and rows of its [register]. *)
Record op_module : Type := OpModule { om_specs : list (res op_spec); om_rows : list op_row }.

Definition callable_spec (name : string) (dims dtypes optional_dtypes attributes optional_attributes
    params : list string) (requires_reference : bool) (bench : option Z) (signature doc : string)
    : res op_spec :=
  r ← returns_callable;
  mk_spec (OpSpec name dims dtypes optional_dtypes attributes optional_attributes signature r params
             requires_reference bench doc).
Definition instance_spec (name : string) (dims dtypes optional_dtypes attributes optional_attributes
    : list string) (requires_reference : bool) (signature doc : string) : res op_spec :=
  r ← returns_instance "object" ["runner"];
  mk_spec (OpSpec name dims dtypes optional_dtypes attributes optional_attributes signature r []
             requires_reference None doc).

Definition package (name : string) : dict string value := [("package", VStr name)].
Definition package_note (name note : string) : dict string value :=
  [("package", VStr name); ("note", VStr note)].

(** ** Benchmark tensors: their shape and dtype. *)
Definition tensor : Type := list Z * string.

Definition int_fact (fs : facts) (path : string) : res Z :=
  match lookup_fact fs path with
  | Some v => py_int v
  | None => Err NotImplementedError
  end.

(** ** [ops/gemm.py] *)
Module Gemm.

Definition spec : res op_spec :=
  callable_spec "gemm" ["M"; "N"; "K"] ["input"; "output"] ["weight"] [] [] [] true (Some 1)
    "(layer, x, bias) -> Tensor" "Linear projection, possibly with quantized weights.".

(** [_bench_args]: the input and the weight. *)
Definition bench_args (fs : facts) : res (list tensor) :=
  let dense := match lookup_fact fs "quant.format" with
               | Some v => py_in v [VStr "bf16"; VStr "fp16"]
               | None => false
               end in
  _ ← ensure dense NotImplementedError;
  _ ← ensure (forallb (λ n, bool_decide (is_Some (lookup_fact fs ("shape." +:+ n)))) ["M"; "N"; "K"])
        NotImplementedError;
  dt ← dtype_fact fs "dtype.input";
  m ← int_fact fs "shape.M";
  k ← int_fact fs "shape.K";
  n ← int_fact fs "shape.N";
  Ok [([m; k], dt); ([n; k], dt)].

Definition NVIDIA_FLASHINFER : rpred := both (has "flashinfer") vendor_nvidia.

Definition TORCH_SCALED_MM : rpred := ands [
  eq_s fact_quant_format "fp8_e4m3"; is_none fact_quant_layout; vendor_nvidia; at_least "sm89";
  divides 16 (fact_shape "K"); divides 16 (fact_shape "N")].

Definition TORCH_FP8_BLOCK : rpred := ands [
  eq_s fact_quant_format "fp8_e4m3"; is_none fact_quant_layout; eq_s fact_quant_granularity "block";
  vendor_nvidia; at_least "sm89"].

Definition flashinfer_module : string := "phyai.layers.linear.backends.flashinfer".
Definition torch_module : string := "phyai.layers.linear.backends.torch".
Definition humming_module : string := "phyai.layers.linear.backends.humming".

(** [_flashinfer_bf16]: [partial] rejects a second [out_dtype]. *)
Definition flashinfer_bf16 : prepare_fn := λ imp fs ps,
  _ ← import imp flashinfer_module;
  out ← dtype_fact fs "dtype.output";
  _ ← ensure (bool_decide ("out_dtype" ∉ dkeys ps)) TypeError;
  Ok (Partial flashinfer_module "gemm_bf16" (("out_dtype", OVal (VStr out)) :: ps)).

(** [_torch_dense] *)
Definition torch_dense : prepare_fn := λ imp fs _,
  out ← dtype_fact fs "dtype.output";
  Ok (Closure "dense" [VStr out]).

(** [layers/linear/backends/humming.py]: [prepare] *)
Definition compute_fields : list string :=
  ["gemm_type"; "use_f16_accum"; "use_batch_invariant"; "use_m_major_input_scale"].
Definition given (o : option obj) : option obj :=
  match o with Some (OVal VNone) => None | _ => o end.
Definition humming_compute (o : option obj) : res obj :=
  match given o with
  | None => Ok (OVal VNone)
  | Some (OMap d) =>
      _ ← ensure (forallb (λ k, bool_decide (k ∈ compute_fields)) (dkeys d)) ValueError;
      _ ← ensure (match dget d "gemm_type" with
                  | None => true
                  | Some (OVal (VStr s)) => String.eqb s "dense"
                  | Some _ => false
                  end) ValueError;
      _ ← ensure (forallb (λ kv, String.eqb kv.1 "gemm_type" || obj_is_bool kv.2) d) TypeError;
      Ok (OMap d)
  | Some _ => Err TypeError
  end.
Definition humming_tuning (o : option obj) : res obj :=
  match given o with
  | None => Ok (OVal VNone)
  | Some (OVal _) => Err TypeError
  | Some d => Ok d
  end.
Definition humming : prepare_fn := λ imp fs ps,
  _ ← import imp humming_module;
  _ ← ensure (forallb (λ k, bool_decide (k ∈ ["compute_config"; "tuning_config"])) (dkeys ps)) ValueError;
  compute ← humming_compute (dget ps "compute_config");
  tuning ← humming_tuning (dget ps "tuning_config");
  Ok (Partial humming_module "gemm_humming" [("compute_config", compute); ("tuning_config", tuning)]).

Definition input := fact_dtype "input".
Definition weight := fact_dtype "weight".
Definition output := fact_dtype "output".
Definition activation := fact_quant_field "activation".

(** [_register_humming] *)
Definition floating_io : rpred := ors [
  ands [eq_s input "fp16"; at_least "sm75"]; ands [eq_s input "bf16"; at_least "sm80"]].
Definition humming_common : rpred := ands [
  has "humming"; vendor_nvidia; eq_s fact_quant_layout "humming"; eq_f input output; floating_io;
  divides 64 (fact_shape "N"); divides 32 (fact_shape "K")].
Definition a16 : rpred := eq_s activation "a16".
Definition a8 : rpred := ors [
  eq_s activation "int8"; ands [in_s activation ["fp8_e4m3"; "fp8_e5m2"]; at_least "sm89"]].
Definition k64 : rpred := divides 64 (fact_shape "K").

Definition humming_kinds : list (string * rpred * rpred) := [
  ("w4a16", eq_s fact_quant_format "int4", a16);
  ("w8a16", eq_s fact_quant_format "int8", a16);
  ("fp8_a16", in_s fact_quant_format ["fp8_e4m3"; "fp8_e5m2"], a16);
  ("mxfp4_a16", eq_s fact_quant_format "mxfp4", ands [a16; eq_s output "bf16"]);
  ("nvfp4_a16", eq_s fact_quant_format "nvfp4", a16);
  ("fp8_a8",
   ors [ands [eq_s fact_quant_format "fp8_e4m3"; eq_s activation "fp8_e4m3"];
        ands [eq_s fact_quant_format "fp8_e5m2"; eq_s activation "fp8_e5m2"; eq_s output "bf16"]],
   ands [a8; k64]);
  ("int8_a8", eq_s fact_quant_format "int8", ands [eq_s activation "int8"; k64]);
  ("int4_a8", eq_s fact_quant_format "int4", ands [a8; in_s activation ["int8"; "fp8_e4m3"]; k64])].

Definition humming_row (k : string * rpred * rpred) : op_row :=
  mk_row ("humming.gemm." +:+ k.1.1) "gemm" (prio SPECIALIZED 0) false true
    (ands [humming_common; k.1.2; k.2]) [] (package "humming-kernels") humming.

(** The rows of [register]. *)
Definition rows : list op_row := [
  mk_row "flashinfer.gemm.bf16" "gemm" (prio OPTIMIZED 2) false true
    (ands [NVIDIA_FLASHINFER; eq_s fact_quant_format "bf16"; at_least "sm80"; eq_s input "bf16";
           eq_s weight "bf16"; in_s output ["bf16"; "fp32"]])
    [] (package_note "flashinfer" "mm_bf16") flashinfer_bf16;
  mk_row "flashinfer.gemm.fp8_block" "gemm" (prio SPECIALIZED 0) false true
    (ands [NVIDIA_FLASHINFER; eq_s fact_quant_format "fp8_e4m3"; is_none fact_quant_layout;
           eq_s fact_quant_granularity "block"; at_least "sm100"])
    [] (package_note "flashinfer" "gemm_fp8_nt_groupwise") (pick_function flashinfer_module "gemm_block_fp8");
  mk_row "flashinfer.gemm.nvfp4_128x4" "gemm" (prio SPECIALIZED 0) false true
    (ands [NVIDIA_FLASHINFER; eq_s fact_quant_format "nvfp4"; eq_s fact_quant_layout "128x4";
           eq_z fact_quant_block_k 16; at_least "sm100"; divides 16 (fact_shape "K")])
    [] (package "flashinfer") (pick_function flashinfer_module "gemm_nvfp4");
  mk_row "torch.gemm.bf16" "gemm" (prio REFERENCE 0) true true
    (ands [in_s fact_quant_format ["bf16"; "fp16"]; eq_f input weight;
           ors [eq_f output input; ands [in_s input ["bf16"; "fp16"]; eq_s output "fp32"]]])
    [] (package_note "torch" "F.linear") torch_dense;
  mk_row "torch.gemm.fp8_per_tensor" "gemm" (prio GENERAL 0) false true
    (ands [TORCH_SCALED_MM; eq_s fact_quant_granularity "per_tensor"])
    [] (package_note "torch" "torch._scaled_mm") (pick_function torch_module "gemm_fp8_per_tensor");
  mk_row "torch.gemm.fp8_per_channel" "gemm" (prio GENERAL 0) false true
    (ands [TORCH_SCALED_MM; eq_s fact_quant_granularity "per_channel"])
    [] (package_note "torch" "torch._scaled_mm") (pick_function torch_module "gemm_fp8_per_channel");
  mk_row "torch.gemm.fp8_block" "gemm" (prio REFERENCE 0) true true TORCH_FP8_BLOCK
    [] (package_note "torch" "dequantize reference") (pick_function torch_module "gemm_fp8_block");
  mk_row "torch.gemm.nvfp4_linear" "gemm" (prio REFERENCE 0) true true
    (ands [eq_s fact_quant_format "nvfp4"; eq_s fact_quant_layout "linear"; eq_z fact_quant_block_k 16])
    [] (package_note "torch" "unpack + dequantize reference")
    (pick_function torch_module "gemm_nvfp4_reference")].

Definition module : op_module := OpModule [spec] (rows ++ (humming_row <$> humming_kinds)).
End Gemm.

(** ** [ops/norm.py] *)
Module Norm.

(** [_bench_tensor], [_bench_dims] and the benchmark arguments. *)
Definition bench_tensor (fs : facts) (role : string) (dims : list Z) : res tensor :=
  match lookup_fact fs ("dtype." +:+ role) with
  | None | Some VNone => Err NotImplementedError
  | Some v => dt ← torch_dtype (py_str v); Ok (dims, dt)
  end.
Definition bench_dims (fs : facts) : res (Z * Z) :=
  _ ← ensure (forallb (λ n, bool_decide (is_Some (lookup_fact fs n))) ["shape.tokens"; "shape.hidden"])
        NotImplementedError;
  tokens ← int_fact fs "shape.tokens";
  hidden ← int_fact fs "shape.hidden";
  Ok (tokens, hidden).
Definition rank_3 (fs : facts) : bool :=
  match lookup_fact fs "attrs.rank" with Some v => py_eq v (VInt 3) | None => false end.
Definition bench_rmsnorm (fs : facts) : res (list tensor) :=
  _ ← ensure (negb (rank_3 fs)) NotImplementedError;
  '(tokens, hidden) ← bench_dims fs;
  x ← bench_tensor fs "input" [tokens; hidden];
  w ← bench_tensor fs "weight" [hidden];
  Ok [x; w].
Definition bench_rmsnorm_add (fs : facts) : res (list tensor) :=
  '(tokens, hidden) ← bench_dims fs;
  x ← bench_tensor fs "input" [tokens; hidden];
  r ← bench_tensor fs "residual" [tokens; hidden];
  w ← bench_tensor fs "weight" [hidden];
  Ok [x; r; w].
Definition wants_bias (fs : facts) : bool :=
  match lookup_fact fs "attrs.bias" with
  | None => false
  | Some v => negb (py_in v [VNone; VBool false])
  end.
Definition bench_layernorm (fs : facts) : res (list tensor) :=
  '(tokens, hidden) ← bench_dims fs;
  x ← bench_tensor fs "input" [tokens; hidden];
  w ← bench_tensor fs "weight" [hidden];
  if wants_bias fs then b ← bench_tensor fs "bias" [hidden]; Ok [x; w; b] else Ok [x; w].
Definition bench_rmsnorm_silu_mul (fs : facts) : res (list tensor) :=
  '(tokens, hidden) ← bench_dims fs;
  x ← bench_tensor fs "input" [tokens; hidden];
  g ← bench_tensor fs "input" [tokens; hidden];
  w ← bench_tensor fs "weight" [hidden];
  Ok [x; g; w].

Definition RMSNORM := callable_spec "rmsnorm" ["tokens"; "hidden"] ["input"; "weight"] [] ["variant"]
  ["rank"] ["weight"] true (Some 2) "(x, weight, eps) -> Tensor" "".
Definition RMSNORM_ADD := callable_spec "rmsnorm_add" ["tokens"; "hidden"]
  ["input"; "weight"; "residual"] [] ["variant"] [] ["weight"] true (Some 3)
  "(x, residual, weight, eps) -> (Tensor, Tensor)"
  "Fused residual add followed by RMSNorm, in place.".
Definition LAYERNORM := callable_spec "layernorm" ["tokens"; "hidden"] ["input"; "weight"] ["bias"]
  ["bias"] [] ["weight"; "bias"] true (Some 4) "(x, weight, bias, eps) -> Tensor" "".
Definition CHANNEL_L2_NORM := callable_spec "channel_l2_norm" ["tokens"; "hidden"]
  ["input"; "weight"; "compute"] ["bias"]
  ["channel_first"; "bias"; "fused_compatible"; "restore_input_dtype"] [] ["weight"; "bias"] true None
  "(x, weight, bias, eps, *, channel_first, compute_dtype) -> Tensor"
  "Channel L2 normalization with separately rounded scale and affine operations.".
Definition ADARMSNORM := callable_spec "adarmsnorm" ["tokens"; "hidden"; "cond_dim"]
  ["input"; "modulation"] [] [] [] [] true None "(x, modulation, eps) -> (Tensor, Tensor)"
  "RMSNorm modulated by an external (scale, shift, gate) triple.".
Definition RMSNORM_SILU_MUL := callable_spec "rmsnorm_silu_mul" ["tokens"; "hidden"]
  ["input"; "weight"] [] [] [] [] true (Some 5) "(x, gate, weight, eps) -> Tensor" "".

Definition input := fact_dtype "input".
Definition weight := fact_dtype "weight".
Definition residual := fact_dtype "residual".
Definition rank := fact_attrs "rank".
Definition TRITON_FLOATS : list string := ["bf16"; "fp16"; "fp32"].
Definition NVIDIA_FLASHINFER : rpred := both (has "flashinfer") vendor_nvidia.
Definition NVIDIA_TRITON : rpred := both (has "phyai_kernel") vendor_nvidia.
Definition FLASHINFER_RMSNORM : rpred := ands [NVIDIA_FLASHINFER; eq_s input "bf16"; eq_s weight "bf16"].
Definition FLASHINFER_RMSNORM_ADD : rpred := ands [FLASHINFER_RMSNORM; eq_s residual "bf16"].
Definition FLASHINFER_LAYERNORM : rpred := ands [
  NVIDIA_FLASHINFER; eq_s input "bf16"; eq_s weight "fp32";
  imply (truthy (fact_attrs "bias")) (eq_s (fact_dtype "bias") "fp32")].
Definition TRITON_NORM : rpred := ands [NVIDIA_TRITON; in_s input TRITON_FLOATS].
Definition RMSNORM_LAYOUT : rpred := ors [is_none rank; in_z rank [2; 3]].

(** [_gemma] *)
Definition gemma (fs : facts) : bool :=
  match lookup_fact fs "attrs.variant" with Some v => py_eq v (VStr "gemma") | None => false end.

(** [_rmsnorm_flattened] around a function. *)
Definition flattened (module name : string) : handle :=
  Closure "_rmsnorm_flattened" [VStr module; VStr name].

Definition flashinfer_rmsnorm : prepare_fn := λ imp fs _,
  _ ← import imp "flashinfer.norm";
  Ok (if gemma fs then
        if rank_3 fs then flattened "flashinfer.norm" "gemma_rmsnorm"
        else Function "flashinfer.norm" "gemma_rmsnorm"
      else Function "flashinfer.norm" "rmsnorm").
Definition flashinfer_rmsnorm_add : prepare_fn := λ imp fs _,
  _ ← import imp "flashinfer.norm";
  Ok (Closure "wrapped" [VStr (if gemma fs then "gemma_fused_add_rmsnorm" else "fused_add_rmsnorm")]).
Definition triton_rmsnorm : prepare_fn := λ imp fs _,
  _ ← import imp "phyai_kernel";
  let name := if gemma fs then "gemma_rmsnorm" else "rmsnorm" in
  Ok (if rank_3 fs then flattened "phyai_kernel" name else Function "phyai_kernel" name).
Definition triton_rmsnorm_add : prepare_fn := λ imp fs _,
  _ ← import imp "phyai_kernel";
  Ok (Function "phyai_kernel" (if gemma fs then "gemma_fused_add_rmsnorm" else "fused_add_rmsnorm")).
Definition torch_rmsnorm : prepare_fn := λ _ fs _, Ok (Closure "rmsnorm" [VBool (gemma fs)]).
Definition torch_rmsnorm_add : prepare_fn := λ _ fs _, Ok (Closure "fused" [VBool (gemma fs)]).
(** [facts.lookup("attrs.restore_input_dtype") is not False] *)
Definition restores (fs : facts) : bool :=
  match lookup_fact fs "attrs.restore_input_dtype" with Some (VBool false) => false | _ => true end.
Definition torch_channel_l2_norm : prepare_fn := λ _ fs _,
  Ok (Closure "channel_l2_norm" [VBool (restores fs)]).

Definition opt_row (id op_name : string) (offset : Z) (when : rpred)
    (params : list (string * res param_contract)) (prepare : prepare_fn) : op_row :=
  mk_row id op_name (prio OPTIMIZED offset) false true when params [] prepare.
Definition ref_row (id op_name : string) (when : rpred)
    (params : list (string * res param_contract)) (prepare : prepare_fn) : op_row :=
  mk_row id op_name (prio REFERENCE 0) true true when params [] prepare.
Definition any_weight := [("weight", any_float)].
Definition any_affine := [("weight", any_float); ("bias", any_float)].

Definition rows : list op_row := [
  opt_row "flashinfer.rmsnorm" "rmsnorm" 2 (ands [FLASHINFER_RMSNORM; RMSNORM_LAYOUT])
    [("weight", matches_activation)] flashinfer_rmsnorm;
  opt_row "phyai_kernel.rmsnorm" "rmsnorm" 0 (ands [TRITON_NORM; RMSNORM_LAYOUT]) any_weight triton_rmsnorm;
  ref_row "torch.rmsnorm" "rmsnorm" (ands [is_set input; RMSNORM_LAYOUT]) any_weight torch_rmsnorm;
  opt_row "flashinfer.rmsnorm_add" "rmsnorm_add" 2 FLASHINFER_RMSNORM_ADD
    [("weight", matches_activation)] flashinfer_rmsnorm_add;
  opt_row "phyai_kernel.rmsnorm_add" "rmsnorm_add" 0 (ands [TRITON_NORM; in_s residual TRITON_FLOATS])
    any_weight triton_rmsnorm_add;
  ref_row "torch.rmsnorm_add" "rmsnorm_add" (is_set input) any_weight torch_rmsnorm_add;
  opt_row "flashinfer.layernorm" "layernorm" 2 FLASHINFER_LAYERNORM
    [("weight", fixed "fp32"); ("bias", fixed "fp32")] (pick_function "flashinfer.norm" "layernorm");
  opt_row "phyai_kernel.layernorm" "layernorm" 0 TRITON_NORM any_affine
    (pick_function "phyai_kernel" "layernorm");
  ref_row "torch.layernorm" "layernorm" (is_set input) any_affine (pick_closure "layernorm");
  opt_row "phyai_kernel.channel_l2_norm" "channel_l2_norm" 0
    (ands [TRITON_NORM; truthy (fact_attrs "fused_compatible")]) any_affine
    (pick_function "phyai_kernel" "channel_l2_norm");
  ref_row "torch.channel_l2_norm" "channel_l2_norm" (is_set input) any_affine torch_channel_l2_norm;
  opt_row "phyai_kernel.adarmsnorm" "adarmsnorm" 0 TRITON_NORM [] (pick_function "phyai_kernel" "adarmsnorm");
  ref_row "torch.adarmsnorm" "adarmsnorm" (is_set input) [] (pick_closure "adarmsnorm");
  opt_row "phyai_kernel.rmsnorm_silu_mul" "rmsnorm_silu_mul" 0
    (ands [TRITON_NORM; le_z (fact_shape "hidden") 8192]) [] (pick_function "phyai_kernel" "rmsnorm_silu_mul");
  ref_row "torch.rmsnorm_silu_mul" "rmsnorm_silu_mul" (is_set input) [] (pick_closure "rmsnorm_silu_mul")].

Definition module : op_module :=
  OpModule [RMSNORM; RMSNORM_ADD; LAYERNORM; CHANNEL_L2_NORM; ADARMSNORM; RMSNORM_SILU_MUL] rows.
End Norm.

(** ** [ops/activation.py] *)
Module Activation.
Definition spec : res op_spec :=
  callable_spec "activation" ["tokens"; "hidden"] ["input"] [] ["activation"; "gated"] [] [] true None
    "(x) -> Tensor"
    "Elementwise activation, optionally consuming a gate half. Exact and tanh-approximated GELU are separate kernel IDs.".

Definition input := fact_dtype "input".
Definition act := fact_attrs "activation".
Definition gated := fact_attrs "gated".
Definition FLASHINFER_GATED : rpred := ands [
  has "flashinfer"; vendor_nvidia; truthy gated; in_s input ["bf16"; "fp16"]].

Definition FLASHINFER_KERNELS : list (string * string) := [
  ("silu", "silu_and_mul"); ("gelu", "gelu_and_mul"); ("gelu_tanh", "gelu_tanh_and_mul")].
Definition TORCH_KERNELS : list (string * bool * string) := [
  ("situ", true, "situ_and_mul"); ("silu", false, "silu"); ("gelu", false, "gelu");
  ("gelu_tanh", false, "gelu_tanh"); ("t5_gelu", false, "t5_gelu"); ("silu", true, "silu_and_mul");
  ("gelu", true, "gelu_and_mul"); ("gelu_tanh", true, "gelu_tanh_and_mul")].

Definition metadata (pkg activation : string) (g : bool) : dict string value :=
  [("package", VStr pkg); ("activation", VStr activation); ("gated", VBool g)].

(** The functions [_torch] knows. *)
Definition torch_names : list string := ["situ"; "silu"; "gelu"; "gelu_tanh"; "t5_gelu"].
Definition torch_prepare (name : string) (g : bool) : prepare_fn := λ _ _ _,
  _ ← ensure (bool_decide (name ∈ torch_names)) KeyError;
  Ok (Closure "execute" [VStr name; VBool g]).

Definition flashinfer_row (k : string * string) : op_row :=
  mk_row ("flashinfer.activation." +:+ k.2) "activation" (prio OPTIMIZED 2) false true
    (ands [FLASHINFER_GATED; eq_s act k.1]) [] (metadata "flashinfer" k.1 true)
    (pick_function "flashinfer.activation" k.2).
Definition torch_row (k : string * bool * string) : op_row :=
  mk_row ("torch.activation." +:+ k.2) "activation" (prio REFERENCE 0) true true
    (ands [eq_s act k.1.1; eq_b gated k.1.2]) [] (metadata "torch" k.1.1 k.1.2)
    (torch_prepare k.1.1 k.1.2).

Definition rows : list op_row :=
  (flashinfer_row <$> FLASHINFER_KERNELS)
  ++ [mk_row "phyai_kernel.activation.t5_gelu" "activation" (prio OPTIMIZED 0) false true
        (ands [has "phyai_kernel"; has "flashinfer"; vendor_nvidia; in_s input ["bf16"; "fp16"];
               eq_s act "t5_gelu"; eq_b gated false])
        [] (metadata "phyai_kernel" "t5_gelu" false) (pick_function "phyai_kernel" "t5_gelu");
      mk_row "phyai_kernel.activation.situ_and_mul" "activation" (prio OPTIMIZED 0) false true
        (ands [has "phyai_kernel"; vendor_nvidia; in_s input ["bf16"; "fp16"; "fp32"];
               eq_s act "situ"; truthy gated])
        [] (metadata "phyai-kernel" "situ" true) (pick_function "phyai_kernel" "situ_and_mul")]
  ++ (torch_row <$> TORCH_KERNELS).

Definition module : op_module := OpModule [spec] rows.
End Activation.

(** ** [ops/modulation.py], [ops/embedding.py], [ops/conv.py] and [ops/moe.py] *)
Module Modulation.
Definition spec : res op_spec :=
  callable_spec "modulate" ["batch"; "tokens"; "hidden"] ["input"; "shift"; "scale"] [] [] [] [] true None
    "(x, shift, scale) -> Tensor"
    "Compute x * (1 + scale[:, None]) + shift[:, None], rounding each operation.".
Definition input := fact_dtype "input".
Definition rows : list op_row := [
  mk_row "phyai_kernel.modulate" "modulate" (prio OPTIMIZED 0) false true
    (ands [has "phyai_kernel"; has "triton"; vendor_nvidia; in_s input ["fp16"; "bf16"; "fp32"];
           eq_f (fact_dtype "shift") input; eq_f (fact_dtype "scale") input])
    [] [] (pick_function "phyai_kernel" "modulate");
  mk_row "torch.modulate" "modulate" (prio REFERENCE 0) true true (is_set input) [] []
    (pick_closure "modulate")].
Definition module : op_module := OpModule [spec] rows.
End Modulation.

Module Embedding.
Definition spec : res op_spec :=
  callable_spec "embedding" ["tokens"; "embedding_dim"] ["input"; "weight"] []
    ["shard_start"; "shard_end"] [] [] true None
    "(input_ids, weight, shard_start, shard_end) -> Tensor"
    "Embedding lookup masked to this rank's vocabulary shard.".
Definition weight := fact_dtype "weight".
Definition FLOATS : list string := ["bf16"; "fp16"; "fp32"].
Definition TRITON_EMBEDDING : rpred := ands [has "phyai_kernel"; vendor_nvidia; in_s weight FLOATS].
Definition rows : list op_row := [
  mk_row "phyai_kernel.embedding" "embedding" (prio OPTIMIZED 0) false true TRITON_EMBEDDING
    [] (package "phyai-kernel") (pick_function "phyai_kernel" "masked_embedding_lookup");
  mk_row "torch.embedding" "embedding" (prio REFERENCE 0) true true (is_set weight)
    [] (package "torch") (pick_closure "execute")].
Definition module : op_module := OpModule [spec] rows.
End Embedding.

Module Conv.
Definition spec : res op_spec :=
  callable_spec "causal_conv" ["tokens"; "channels"; "kernel"] ["input"] [] ["activation"; "split"] [] []
    true None "(x, weight, split_sizes) -> tuple[Tensor, ...]"
    "Causal conv1d + SiLU + split, as used by the Qwen3.5 mixer.".
Definition input := fact_dtype "input".
Definition FLOATS : list string := ["bf16"; "fp16"; "fp32"].
Definition TRITON_CONV : rpred := ands [
  has "phyai_kernel"; vendor_nvidia; in_s input FLOATS; between (fact_shape "kernel") 1 8].
Definition rows : list op_row := [
  mk_row "phyai_kernel.causal_conv" "causal_conv" (prio OPTIMIZED 0) false true TRITON_CONV
    [] (package "phyai-kernel") (pick_function "phyai_kernel" "causal_conv1d_silu_split_qkv");
  mk_row "torch.causal_conv" "causal_conv" (prio REFERENCE 0) true true (is_set input)
    [] (package "torch") (pick_closure "execute")].
Definition module : op_module := OpModule [spec] rows.
End Conv.

Module Moe.
Definition spec : res op_spec :=
  callable_spec "moe" ["tokens"; "hidden"] ["input"; "weight"] [] ["activation"] [] [] false None
    "(x, selected_experts, routing_weights, fc1_weight, fc2_weight, *, tp_size, tp_rank) -> Tensor"
    "Routed expert computation for a token MoE. Consumes pre-computed expert indices and routing scales; routing stays in the model.".
Definition CUTLASS_MOE_ARCHES : list string :=
  ["sm89"; "sm90"; "sm100"; "sm103"; "sm107"; "sm110"; "sm120"; "sm121"].
Definition FLASHINFER_CUTLASS_MOE : rpred := ands [
  has "flashinfer"; vendor_nvidia; in_s fact_device_arch CUTLASS_MOE_ARCHES;
  eq_s (fact_dtype "input") "bf16"; eq_s (fact_dtype "weight") "bf16";
  eq_s (fact_attrs "activation") "swiglu"].
Definition prepare : prepare_fn := λ imp _ _,
  _ ← import imp "flashinfer.fused_moe"; Ok (Closure "fused_moe" []).
Definition rows : list op_row := [
  mk_row "flashinfer.moe.cutlass_fused_moe" "moe" (prio OPTIMIZED 2) false true FLASHINFER_CUTLASS_MOE []
    [("package", VStr "flashinfer"); ("backend", VStr "cutlass"); ("activation", VStr "swiglu")] prepare].
Definition module : op_module := OpModule [spec] rows.
End Moe.

(** ** [ops/rope.py] *)
Module Rope.
Definition spec : res op_spec :=
  callable_spec "rope" ["tokens"; "head_dim"; "rotary_dim"; "heads_q"; "heads_k"] ["input"] []
    ["rope_type"; "interleave"] ["rank"] [] true None
    "(positions, q, k, cos_sin_cache) -> tuple[Tensor, Tensor]" "".
Definition FLASHINFER_ROPE : rpred := ands [
  has "flashinfer"; vendor_nvidia; in_s (fact_dtype "input") ["bf16"; "fp16"];
  eq_f (fact_shape "rotary_dim") (fact_shape "head_dim")].
(** [bool(facts.lookup("attrs.interleave"))]; the [MISSING] object is true. *)
Definition interleave (fs : facts) : bool :=
  match lookup_fact fs "attrs.interleave" with Some v => py_bool v | None => true end.
Definition flashinfer : prepare_fn := λ imp fs _,
  _ ← import imp "flashinfer.rope";
  Ok (Closure "flashinfer.rope" [VBool (negb (interleave fs))]).
Definition eager : prepare_fn := λ imp fs _,
  _ ← import imp "phyai.layers.rotary_embedding";
  Ok (Closure "eager.rope" [VBool (interleave fs)]).
Definition rows : list op_row := [
  mk_row "flashinfer.rope" "rope" (prio OPTIMIZED 2) false true FLASHINFER_ROPE
    [] (package "flashinfer") flashinfer;
  mk_row "eager.rope" "rope" (prio REFERENCE 0) true true (is_set (fact_attrs "rope_type"))
    [] (package_note "torch" "eager reference") eager].
Definition module : op_module := OpModule [spec] rows.

(** [Tensor.reshape] on shapes. *)
Definition numel (dims : list Z) : Z := foldr Z.mul 1 dims.
Definition reshape (from to : list Z) : res (list Z) :=
  _ ← ensure (numel from =? numel to) RuntimeError; Ok to.

(** [_flatten_tokens] on shapes: the flat positions, queries and keys, or the
    error. *)
Definition flatten_tokens (positions q k : list Z) : res (list Z * list Z * list Z) :=
  head_dim ← of_option IndexError (last q);
  if decide (List.length q = 4%nat) then
    b ← of_option IndexError (q !! 0%nat);
    s ← of_option IndexError (q !! 1%nat);
    hq ← of_option IndexError (q !! 2%nat);
    hk ← of_option IndexError (k !! 2%nat);
    flat_q ← reshape q [b * s; hq * head_dim];
    flat_k ← reshape k [b * s; hk * head_dim];
    _ ← ensure (match positions with
                | [p] => p =? s
                | _ => bool_decide (positions = [b; s])
                end) ValueError;
    Ok ([b * s], flat_q, flat_k)
  else
    nnz ← of_option IndexError (q !! 0%nat);
    hq ← of_option IndexError (q !! 1%nat);
    hk ← of_option IndexError (k !! 1%nat);
    flat_q ← reshape q [nnz; hq * head_dim];
    flat_k ← reshape k [nnz; hk * head_dim];
    _ ← ensure (bool_decide (positions = [nnz])) ValueError;
    Ok ([nnz], flat_q, flat_k).
End Rope.

(** ** [ops/attention.py] *)
Module Attention.
Definition ATTENTION := instance_spec "attention"
  ["tokens"; "kv_tokens"; "heads"; "kv_heads"; "head_dim"] ["input"] ["key"; "value"]
  ["layout"; "causal"]
  ["layer_id"; "sliding_window"; "logits_soft_cap"; "mask_kind"; "masked"; "kv_tokens"; "has_attn_bias"]
  true "(runner=None, **kwargs) -> AttentionBackend"
  "Cacheless attention; the only stack supporting S_q != S_kv.".
Definition ATTENTION_PAGED := instance_spec "attention_paged"
  ["tokens"; "heads"; "kv_heads"; "head_dim"] ["input"] [] ["layout"; "causal"] ["layer_id"; "runner"]
  true "(runner) -> PagedAttentionBackend"
  "Paged-KV attention (LM prefix, action experts, AR decode).".
Definition ATTENTION_GDN := instance_spec "attention_gdn"
  ["tokens"; "heads"; "key_heads"; "value_heads"; "state_heads"; "head_dim"]
  ["input"; "key"; "value"; "a"; "b"; "a_log"; "dt_bias"] [] ["layout"]
  ["layer_id"; "use_qk_l2norm"; "causal"]
  false "(runner=None, **kwargs) -> GatedDeltaNetBackend" "Gated DeltaNet linear attention.".

Definition HALF_FLOATS : list string := ["bf16"; "fp16"].
Definition head_dim := fact_shape "head_dim".
Definition input := fact_dtype "input".
Definition key := fact_dtype "key".
Definition value := fact_dtype "value".
Definition mask_kind := fact_attrs "mask_kind".
Definition NVIDIA_FLASHINFER : rpred := both (has "flashinfer") vendor_nvidia.

Definition FLASHINFER_ATTENTION : rpred := ands [
  NVIDIA_FLASHINFER; in_z head_dim [64; 128; 256]; in_s input HALF_FLOATS; in_s key HALF_FLOATS;
  in_s value HALF_FLOATS; ne_b (fact_attrs "has_attn_bias") true; ne_s mask_kind "segments";
  imply (truthy (fact_attrs "causal")) (ors [is_none mask_kind; eq_s mask_kind "lengths"])].
Definition FLASHINFER_PAGED : rpred := ands [
  NVIDIA_FLASHINFER; in_z head_dim [64; 128; 256]; in_s input HALF_FLOATS].
Definition SDPA_ATTENTION : rpred := eq_s (fact_attrs "layout") "padded".
Definition FLASHINFER_GDN : rpred := ands [
  NVIDIA_FLASHINFER; family_in ["sm9"; "sm10"]; eq_s input "bf16"; eq_s key "bf16"; eq_s value "bf16";
  in_s (fact_dtype "a") HALF_FLOATS; in_s (fact_dtype "b") HALF_FLOATS; eq_s (fact_dtype "a_log") "fp32";
  in_s (fact_dtype "dt_bias") ["bf16"; "fp32"]].
Definition FLASH_QLA_GDN : rpred := ands [
  has "flash_qla"; has "fla"; vendor_nvidia; family_in ["sm9"; "sm10"; "sm12"]; eq_z head_dim 128;
  in_s input HALF_FLOATS; in_s key HALF_FLOATS; in_s value HALF_FLOATS; eq_s (fact_dtype "a_log") "fp32";
  in_s (fact_dtype "dt_bias") ["bf16"; "fp32"]; same [input; key; value]].

(** The backend classes, as (module, class), and the keywords their
    constructors take besides [runner]. *)
Definition ATTENTION_FLASHINFER_CLS := ("phyai.layers.attention.nocache.backends.flashinfer", "FlashInferAttentionBackend").
Definition ATTENTION_SDPA_CLS := ("phyai.layers.attention.nocache.backends.sdpa", "SdpaAttentionBackend").
Definition ATTENTION_EAGER_CLS := ("phyai.layers.attention.nocache.backends.eager", "EagerAttentionBackend").
Definition PAGED_FLASHINFER_CLS := ("phyai.layers.attention.paged.backends.flashinfer", "FlashInferPagedBackend").
Definition PAGED_SDPA_CLS := ("phyai.layers.attention.paged.backends.sdpa", "SdpaPagedBackend").
Definition GDN_FLASHINFER_CLS := ("phyai.layers.attention.gdn.backends.flashinfer", "FlashInferGatedDeltaNetBackend").
Definition GDN_FLA_CLS := ("phyai.layers.attention.gdn.backends.fla", "FlaGatedDeltaNetBackend").
Definition GDN_FLASH_QLA_CLS := ("phyai.layers.attention.gdn.backends.flash_qla", "FlashQlaGatedDeltaNetBackend").

Definition accepted : dict string (list string) := [
  ("FlashInferAttentionBackend",
   ["fi_workspace"; "workspace_bytes"; "use_cuda_graph"; "qo_indptr_buf"; "kv_indptr_buf"; "prefill_backend"]);
  ("SdpaAttentionBackend", ["compile"; "select_kernel"]);
  ("EagerAttentionBackend", []);
  ("FlashInferPagedBackend", ["prefill_backend"]);
  ("SdpaPagedBackend", ["select_kernel"]);
  ("FlashInferGatedDeltaNetBackend", []);
  ("FlaGatedDeltaNetBackend", ["chunk_size"]);
  ("FlashQlaGatedDeltaNetBackend", [])].
Definition accepts (cls : string) : list string := default [] (dget accepted cls).

Definition RAGGED_CAPTURE_DEFAULTS : dict string obj := [("use_cuda_graph", OVal (VBool true))].

(** [d.update(e)] and [d.setdefault(k, v)] over items. *)
Definition kw_update (d e : dict string obj) : dict string obj := foldl (λ d p, dset d p.1 p.2) d e.
Definition kw_default (d : dict string obj) (p : string * obj) : dict string obj :=
  match dget d p.1 with Some _ => d | None => dset d p.1 p.2 end.

(** The keywords [_backend_prepare] fixes for a call. *)
Definition policy_kwargs (fixed params : dict string obj) (graph_defaults : dict string obj)
    (fs : facts) : dict string obj :=
  let kw := kw_update fixed params in
  let capture := match lookup_fact fs "mode" with Some v => py_eq v (VStr "capture") | None => false end in
  if capture then foldl kw_default kw graph_defaults else kw.

Definition backend_prepare (backend : string * string) (graph_defaults fixed : dict string obj)
    : prepare_fn := λ imp fs params,
  _ ← import imp backend.1;
  let kw := policy_kwargs fixed params graph_defaults fs in
  _ ← ensure (forallb (λ k, bool_decide (k ∈ accepts backend.2)) (dkeys kw)) PolicyError;
  Ok (Backend backend.2 kw).

(** [build(runner, **overrides)]: the keywords the backend is constructed
    with. *)
Definition build_kwargs (cls : string) (kw overrides : dict string obj) : dict string obj :=
  kw_update (filter (λ p, p.1 ∈ accepts cls) overrides) kw.

Definition FA3_HEAD_DIMS : list Z := [64; 128; 256].
Definition HOPPER : rpred := family_in ["sm9"].
Definition BLACKWELL : rpred := family_in ["sm10"; "sm11"].
Definition fa3 : rpred := ands [HOPPER; in_z head_dim FA3_HEAD_DIMS].
Definition PAGED_PREFILL_BACKENDS : list (string * option rpred) := [
  ("fa2", None); ("fa3", Some fa3); ("cudnn", None); ("trtllm-gen", Some BLACKWELL)].
Definition RAGGED_PREFILL_BACKENDS : list (string * option rpred) := [
  ("fa2", None); ("fa3", Some fa3); ("cudnn", None); ("cutlass", Some BLACKWELL); ("cute-dsl", None)].

(** [_prefill_variants] *)
Definition prefill_variant (op_name : string) (backend : string * string) (base : rpred)
    (graph_defaults : dict string obj) (b : string * option rpred) : op_row :=
  mk_row ("flashinfer." +:+ op_name +:+ "." +:+ b.1) op_name (prio OPTIMIZED 1) false true
    (match b.2 with None => base | Some extra => ands [base; extra] end)
    [] [("package", VStr "flashinfer"); ("prefill_backend", VStr b.1)]
    (backend_prepare backend graph_defaults [("prefill_backend", OVal (VStr b.1))]).

Definition rows : list op_row :=
  (prefill_variant "attention" ATTENTION_FLASHINFER_CLS FLASHINFER_ATTENTION RAGGED_CAPTURE_DEFAULTS
     <$> RAGGED_PREFILL_BACKENDS)
  ++ (prefill_variant "attention_paged" PAGED_FLASHINFER_CLS FLASHINFER_PAGED []
        <$> PAGED_PREFILL_BACKENDS)
  ++ [mk_row "flashinfer.attention" "attention" (prio OPTIMIZED 2) false true FLASHINFER_ATTENTION
        [] (package "flashinfer") (backend_prepare ATTENTION_FLASHINFER_CLS RAGGED_CAPTURE_DEFAULTS []);
      mk_row "sdpa.attention" "attention" (prio OPTIMIZED 0) false true SDPA_ATTENTION
        [] (package "torch") (backend_prepare ATTENTION_SDPA_CLS [] []);
      mk_row "eager.attention" "attention" (prio REFERENCE 0) true true (is_set (fact_attrs "layout"))
        [] (package_note "torch" "debug reference") (backend_prepare ATTENTION_EAGER_CLS [] []);
      mk_row "flashinfer.attention_paged" "attention_paged" (prio OPTIMIZED 2) false true FLASHINFER_PAGED
        [] (package "flashinfer") (backend_prepare PAGED_FLASHINFER_CLS [] []);
      mk_row "sdpa.attention_paged" "attention_paged" (prio REFERENCE 0) true true
        (ands [eq_s (fact_attrs "layout") "paged"; in_s input ["bf16"; "fp16"; "fp32"]])
        [] (package "torch") (backend_prepare PAGED_SDPA_CLS [] []);
      mk_row "flash_qla.attention_gdn" "attention_gdn" (prio OPTIMIZED 3) false false FLASH_QLA_GDN
        [] (package_note "flash-qla" "prefill; decode via fla") (backend_prepare GDN_FLASH_QLA_CLS [] []);
      mk_row "flashinfer.attention_gdn" "attention_gdn" (prio OPTIMIZED 2) false false FLASHINFER_GDN
        [] (package "flashinfer") (backend_prepare GDN_FLASHINFER_CLS [] []);
      mk_row "fla.attention_gdn" "attention_gdn" (prio OPTIMIZED 0) false true
        (ands [has "fla"; vendor_nvidia; in_s input HALF_FLOATS])
        [] (package "flash-linear-attention") (backend_prepare GDN_FLA_CLS [] [])].

Definition module : op_module := OpModule [ATTENTION; ATTENTION_PAGED; ATTENTION_GDN] rows.
End Attention.

(** ** [ops/__init__.py] *)
Definition OP_MODULES : list op_module := [
  Gemm.module; Norm.module; Activation.module; Modulation.module; Embedding.module; Rope.module;
  Attention.module; Conv.module; Moe.module].

(** A row object; every row has a number of its own. *)
Definition numbered (n : Z) (r : op_row) : res impl :=
  i ← rw_impl r;
  Ok (Impl n (im_kernel_id i) (im_op i) (im_when i) (im_priority i) (im_reference i)
        (im_capture_safe i) (im_params i) (im_metadata i)).

Fixpoint register_specs (l : list (res op_spec)) (c : catalog) : res catalog :=
  match l with
  | [] => Ok c
  | s :: l' => s ← s; c ← register_op s c; register_specs l' c
  end.
Fixpoint register_rows (n : Z) (l : list op_row) (c : catalog) : res catalog :=
  match l with
  | [] => Ok c
  | r :: l' => i ← numbered n r; c ← register i c; register_rows (n + 1) l' c
  end.

(** [populate] and [build_catalog] *)
Fixpoint populate (n : Z) (l : list op_module) (c : catalog) : res catalog :=
  match l with
  | [] => Ok c
  | m :: l' =>
      c ← register_specs (om_specs m) c;
      c ← register_rows n (om_rows m) c;
      populate (n + Z.of_nat (List.length (om_rows m))) l' c
  end.
Definition build_catalog : res catalog := populate 0 OP_MODULES empty_catalog.

(** The [prepare] function of a registered row. *)
Definition all_rows : list op_row := mjoin (om_rows <$> OP_MODULES).
Definition prepare_builtin (can_import : string → bool) (i : impl) (fs : facts) (ps : dict string obj)
    : res handle :=
  match all_rows !! Z.to_nat (im_object i) with
  | Some r => rw_prepare r can_import fs ps
  | None => Err OtherError
  end.
