(* ===== verification/OpsProps.v ===== *)
(** * What the built-in catalog guarantees

    Theorems on [Ops.v]: the catalog builds and has no coverage gap, which rows
    keep the contract a call site's memo relies on, and two calls that a call
    site confuses. *)

From S2P Require Export Ops CallSiteProps.
From Stdlib Require Import Ascii String.
From stdpp Require Import options.

Local Open Scope Z_scope.

Definition builtin : catalog := match build_catalog with Ok c => c | Err _ => empty_catalog end.

Lemma builtin_ok : build_catalog = Ok builtin.
Proof. unfold builtin. assert (is_ok build_catalog = true) as H by (vm_compute; reflexivity). by destruct build_catalog. Qed.

(** ** What the [prepare] functions read *)

Definition touches (r : op_row) (paths : list string) : Prop :=
  ∀ imp fs1 fs2 ps, (∀ p, p ∈ paths → lookup_fact fs1 p = lookup_fact fs2 p) →
    rw_prepare r imp fs1 ps = rw_prepare r imp fs2 ps.

Fixpoint all_touch (rs : list op_row) (reads : list (list string)) : Prop :=
  match rs, reads with
  | [], [] => True
  | r :: rs, p :: reads => touches r p ∧ all_touch rs reads
  | _, _ => False
  end.

Lemma all_touch_lookup rs reads k r : all_touch rs reads → rs !! k = Some r →
  ∃ p, reads !! k = Some p ∧ touches r p.
Proof.
  revert reads k. induction rs as [|r0 rs IH]; intros [|p reads] k; simpl; try done.
  intros [Ht Hall]. destruct k; simpl; [intros [= <-]; by exists p|]. by apply IH.
Qed.

Lemma all_touch_app rs1 rs2 reads1 reads2 :
  all_touch rs1 reads1 → all_touch rs2 reads2 → all_touch (rs1 ++ rs2) (reads1 ++ reads2).
Proof.
  revert reads1. induction rs1 as [|r rs1 IH]; intros [|p reads1]; simpl; try done.
  intros [? ?] ?. split; [done|]. by apply IH.
Qed.

Lemma dtype_fact_eq fs1 fs2 p : lookup_fact fs1 p = lookup_fact fs2 p → dtype_fact fs1 p = dtype_fact fs2 p.
Proof. unfold dtype_fact. by intros ->. Qed.
Lemma gemma_eq fs1 fs2 : lookup_fact fs1 "attrs.variant" = lookup_fact fs2 "attrs.variant" →
  Norm.gemma fs1 = Norm.gemma fs2.
Proof. unfold Norm.gemma. by intros ->. Qed.
Lemma rank_3_eq fs1 fs2 : lookup_fact fs1 "attrs.rank" = lookup_fact fs2 "attrs.rank" →
  Norm.rank_3 fs1 = Norm.rank_3 fs2.
Proof. unfold Norm.rank_3. by intros ->. Qed.
Lemma restores_eq fs1 fs2 :
  lookup_fact fs1 "attrs.restore_input_dtype" = lookup_fact fs2 "attrs.restore_input_dtype" →
  Norm.restores fs1 = Norm.restores fs2.
Proof. unfold Norm.restores. by intros ->. Qed.
Lemma interleave_eq fs1 fs2 : lookup_fact fs1 "attrs.interleave" = lookup_fact fs2 "attrs.interleave" →
  Rope.interleave fs1 = Rope.interleave fs2.
Proof. unfold Rope.interleave. by intros ->. Qed.
Lemma policy_kwargs_eq fs1 fs2 fixed params gd : lookup_fact fs1 "mode" = lookup_fact fs2 "mode" →
  Attention.policy_kwargs fixed params gd fs1 = Attention.policy_kwargs fixed params gd fs2.
Proof. unfold Attention.policy_kwargs. by intros ->. Qed.

(** The rows that read no fact at all, and the ones that read the given paths. *)
Lemma touches_none r : (∀ imp fs1 fs2 ps, rw_prepare r imp fs1 ps = rw_prepare r imp fs2 ps) → touches r [].
Proof. intros H imp fs1 fs2 ps _. apply H. Qed.

Lemma touches_output prep : prep = Gemm.flashinfer_bf16 ∨ prep = Gemm.torch_dense →
  ∀ i, touches (Row i prep) ["dtype.output"].
Proof.
  intros [-> | ->] i imp fs1 fs2 ps H; simpl; unfold Gemm.flashinfer_bf16, Gemm.torch_dense;
    by rewrite (dtype_fact_eq fs1 fs2) by (apply H; by left).
Qed.

Lemma touches_norm prep :
  prep ∈ [Norm.flashinfer_rmsnorm; Norm.flashinfer_rmsnorm_add; Norm.triton_rmsnorm;
          Norm.triton_rmsnorm_add; Norm.torch_rmsnorm; Norm.torch_rmsnorm_add] →
  ∀ i, touches (Row i prep) ["attrs.variant"; "attrs.rank"].
Proof.
  intros Hp i imp fs1 fs2 ps H. simpl.
  assert (Norm.gemma fs1 = Norm.gemma fs2) as Hg by (apply gemma_eq, H; by left).
  assert (Norm.rank_3 fs1 = Norm.rank_3 fs2) as Hr by (apply rank_3_eq, H; by right; left).
  repeat (apply elem_of_cons in Hp as [->|Hp];
    [unfold Norm.flashinfer_rmsnorm, Norm.flashinfer_rmsnorm_add, Norm.triton_rmsnorm,
       Norm.triton_rmsnorm_add, Norm.torch_rmsnorm, Norm.torch_rmsnorm_add; by rewrite ?Hg, ?Hr|]).
  by apply elem_of_nil in Hp.
Qed.

Lemma touches_backend i b gd fixed : touches (Row i (Attention.backend_prepare b gd fixed)) ["mode"].
Proof.
  intros imp fs1 fs2 ps H. simpl. unfold Attention.backend_prepare.
  by rewrite (policy_kwargs_eq fs1 fs2) by (apply H; by left).
Qed.

(** The paths each row's [prepare] reads, row by row. *)
Definition reads_gemm : list (list string) :=
  [["dtype.output"]; []; []; ["dtype.output"]; []; []; []; []] ++ replicate 8 [].
Definition norm_paths : list string := ["attrs.variant"; "attrs.rank"].
Definition reads_norm : list (list string) :=
  replicate 6 norm_paths ++ [[]; []; []; []; ["attrs.restore_input_dtype"]; []; []; []; []].
Definition builtin_reads : list (list string) :=
  reads_gemm ++ reads_norm ++ replicate 13 [] ++ replicate 2 [] ++ replicate 2 []
  ++ replicate 2 ["attrs.interleave"] ++ replicate 17 ["mode"] ++ replicate 2 [] ++ [[]].

Lemma gemm_touch : all_touch (om_rows Gemm.module) reads_gemm.
Proof.
  repeat (hnf; split; [first [apply touches_none; reflexivity
    | apply touches_output; by left | apply touches_output; by right]|]). done.
Qed.
Lemma norm_touch : all_touch (om_rows Norm.module) reads_norm.
Proof.
  do 6 (hnf; split; [apply touches_norm; set_solver|]).
  do 4 (hnf; split; [apply touches_none; reflexivity|]).
  hnf; split.
  { intros imp fs1 fs2 ps H. simpl. unfold Norm.torch_channel_l2_norm.
    by rewrite (restores_eq fs1 fs2) by (apply H; by left). }
  repeat (hnf; split; [apply touches_none; reflexivity|]). done.
Qed.
Lemma rope_touch : all_touch (om_rows Rope.module) (replicate 2 ["attrs.interleave"]).
Proof.
  repeat (hnf; split; [|]); try done; intros imp fs1 fs2 ps H; simpl;
    unfold Rope.flashinfer, Rope.eager; by rewrite (interleave_eq fs1 fs2) by (apply H; by left).
Qed.
Lemma attention_touch : all_touch (om_rows Attention.module) (replicate 17 ["mode"]).
Proof. repeat (hnf; split; [apply touches_backend|]). done. Qed.
Lemma silent_touch rs n : List.length rs = n →
  Forall (λ r, ∀ imp fs1 fs2 ps, rw_prepare r imp fs1 ps = rw_prepare r imp fs2 ps) rs →
  all_touch rs (replicate n []).
Proof. intros <-. induction 1; simpl; [done|]. split; [by apply touches_none|done]. Qed.

Lemma builtin_touch : all_touch all_rows builtin_reads.
Proof.
  unfold all_rows, OP_MODULES, builtin_reads. cbn [fmap list_fmap mjoin list_join].
  rewrite app_nil_r.
  apply all_touch_app; [apply gemm_touch|]. apply all_touch_app; [apply norm_touch|].
  do 3 (apply all_touch_app;
    [apply silent_touch; [reflexivity|repeat (apply Forall_cons_2; [reflexivity|]); apply Forall_nil_2]|]).
  apply all_touch_app; [apply rope_touch|]. apply all_touch_app; [apply attention_touch|].
  apply all_touch_app;
    [apply silent_touch; [reflexivity|repeat (apply Forall_cons_2; [reflexivity|]); apply Forall_nil_2]|].
  hnf. split; [by apply touches_none|done].
Qed.

(** ** The contract of the memo *)

(** The operations whose [prepare] functions read a fact no capability tests. *)
Definition loose_ops : list string := ["rmsnorm"; "rmsnorm_add"; "channel_l2_norm"; "rope"].

Definition tested_paths (o : string) : gset string :=
  ⋃ ((λ i, facts_used (im_when i)) <$> impls builtin (Some o)).

Lemma similar_on_strict U fs1 fs2 path : similar_on U fs1 fs2 → path ∈ U → loose_path path = false →
  lookup_fact fs1 path = lookup_fact fs2 path.
Proof. intros Hs Hp Hl. pose proof (sim_strict _ _ Hs path Hl) as H. by rewrite !on_paths_lookup in H. Qed.

Lemma forallb_elem {A} (f : A → bool) l x : forallb f l = true → x ∈ l → f x = true.
Proof. rewrite forallb_forall. intros H Hx. by apply H, list_elem_of_In. Qed.

Definition row_reads (i : impl) : list string := default [] (builtin_reads !! Z.to_nat (im_object i)).

Definition reads_tested (o : string) : bool :=
  let known := tested_paths o ∪ call_paths in
  forallb (λ i, forallb (λ path, negb (loose_path path) && bool_decide (path ∈ known)) (row_reads i))
    (impls builtin (Some o)).

Lemma reads_tested_ok :
  forallb reads_tested (filter (λ o, o ∉ loose_ops) (dkeys (cat_ops builtin))) = true.
Proof. vm_compute. reflexivity. Qed.
#[local] Opaque builtin.

Lemma choice_paths_no_rules {plan} (p : policy plan) o : p_rules p = [] → p_overrides p = [] →
  prepare_paths builtin p o = tested_paths o ∪ call_paths.
Proof.
  intros Hr Ho. unfold prepare_paths, choice_paths, policy_facts_used. rewrite Hr, Ho.
  unfold tested_paths. generalize (⋃ ((λ i, facts_used (im_when i)) <$> impls builtin (Some o))).
  intros X. apply set_eq. set_solver.
Qed.

Lemma contract_kept {plan} (p : policy plan) o imp : o ∈ dkeys (cat_ops builtin) → o ∉ loose_ops →
  prepare_reads (prepare_builtin imp) builtin p o.
Proof.
  intros Ho Hl i fs1 fs2 ps Hi Hsim. unfold prepare_builtin.
  destruct (all_rows !! Z.to_nat (im_object i)) as [r|] eqn:Hr; [|reflexivity].
  destruct (all_touch_lookup _ _ _ _ builtin_touch Hr) as (paths & Hpaths & Ht). apply Ht.
  intros path Hpath.
  assert (o ∈ filter (λ o, o ∉ loose_ops) (dkeys (cat_ops builtin))) as Hin
    by (rewrite list_elem_of_filter; exact (conj Hl Ho)).
  pose proof (forallb_elem _ _ o reads_tested_ok Hin) as Hok. clear Hin.
  unfold reads_tested in Hok. apply (forallb_elem _ _ i) in Hok; [|exact Hi].
  unfold row_reads in Hok. rewrite Hpaths in Hok. cbn [default from_option id] in Hok.
  apply (forallb_elem _ _ path) in Hok; [|exact Hpath].
  apply andb_prop in Hok as [Hstrict%negb_true_iff Hin%bool_decide_eq_true].
  assert (path ∈ prepare_paths builtin p o) as HU.
  { unfold prepare_paths, choice_paths. apply elem_of_union in Hin as [Hin|Hin].
    - apply elem_of_union_l, elem_of_union_l, Hin.
    - apply elem_of_union_r, Hin. }
  exact (similar_on_strict _ _ _ _ Hsim HU Hstrict).
Qed.

Lemma one_fact_similar U path v w : path ∉ U →
  similar_on U (Facts {[ path := v ]} ∅) (Facts {[ path := w ]} ∅).
Proof.
  intros Hp. assert (∀ p x, p ∈ U → lookup_fact (Facts {[ path := x ]} ∅) p = None) as Hnone.
  { intros p x Hin. unfold lookup_fact. simpl. rewrite lookup_singleton_ne; [done|congruence]. }
  apply similar_on_intro; [..|done]; intros p Hin; by rewrite !Hnone.
Qed.

(** For each of the four an untested attribute and the row it decides. *)
Definition loose_facts : list (string * (string * string * value * value)) := [
  ("rmsnorm", ("torch.rmsnorm", "attrs.variant", VStr "rms", VStr "gemma"));
  ("rmsnorm_add", ("torch.rmsnorm_add", "attrs.variant", VStr "rms", VStr "gemma"));
  ("channel_l2_norm", ("torch.channel_l2_norm", "attrs.restore_input_dtype", VBool true, VBool false));
  ("rope", ("eager.rope", "attrs.interleave", VBool true, VBool false))].

#[export] Instance obj_eq_dec : EqDecision obj.
Proof.
  refine (fix go (x y : obj) : Decision (x = y) :=
    match x, y with
    | OVal v, OVal w => cast_if (decide (v = w))
    | OList l, OList k => cast_if (@list_eq_dec _ go l k)
    | OMap d, OMap e => cast_if (@list_eq_dec _ (@prod_eq_dec _ _ _ go) d e)
    | _, _ => right _
    end); clear go; abstract congruence.
Defined.
#[export] Instance handle_eq_dec : EqDecision handle.
Proof. solve_decision. Defined.

Definition loose_fact_ok (x : string * (string * string * value * value)) : bool :=
  let '(o, (id, path, v, w)) := x in
  match filter (λ i, im_kernel_id i = id) (impls builtin (Some o)) with
  | [] => false
  | i :: _ =>
      bool_decide (path ∉ tested_paths o ∪ call_paths)
      && negb (bool_decide (prepare_builtin (λ _, true) i (Facts {[ path := v ]} ∅) []
                            = prepare_builtin (λ _, true) i (Facts {[ path := w ]} ∅) []))
  end.

Lemma loose_facts_ok : forallb loose_fact_ok loose_facts = true.
Proof. vm_compute. reflexivity. Qed.

Lemma contract_broken {plan} (p : policy plan) x :
  p_rules p = [] → p_overrides p = [] → x ∈ loose_facts →
  ¬ prepare_reads (prepare_builtin (λ _, true)) builtin p x.1.
Proof.
  intros Hr Ho Hx Hcontract. pose proof (forallb_elem _ _ x loose_facts_ok Hx) as Hok.
  destruct x as [o [[[id path] v] w]]. unfold loose_fact_ok in Hok.
  destruct (filter _ _) as [|i l] eqn:Hf; [discriminate Hok|].
  apply andb_prop in Hok as [Hpath%bool_decide_eq_true Hne%negb_true_iff%bool_decide_eq_false].
  assert (i ∈ filter (λ i, im_kernel_id i = id) (impls builtin (Some o))) as Hi by (rewrite Hf; by left).
  apply list_elem_of_filter in Hi as [_ Hi]. apply Hne, Hcontract; [exact Hi|].
  cbn [fst]. rewrite (choice_paths_no_rules p o Hr Ho). by apply one_fact_similar.
Qed.

(** Which built-in operations a call site may memoise.  For an operation
    of the built-in catalog, the [prepare] functions read only facts the memo
    key covers, whatever policy is loaded, exactly when it is none of
    [rmsnorm], [rmsnorm_add], [channel_l2_norm] and [rope]; those four read
    [attrs.variant], [attrs.restore_input_dtype] or [attrs.interleave], which no
    capability tests, so without a rule that does a site must fix them. *)
Theorem builtin_prepare_contract {plan} o : o ∈ dkeys (cat_ops builtin) →
  (∀ (p : policy plan) imp, prepare_reads (prepare_builtin imp) builtin p o) ↔ o ∉ loose_ops.
Proof.
  intros Hop. split.
  - intros Hall Hl. assert (loose_ops = loose_facts.*1) as Heq by reflexivity.
    rewrite Heq in Hl. apply list_elem_of_fmap in Hl as (x & -> & Hx).
    by apply (contract_broken (plan := plan) (Policy "static" "reference" [] [] None None) x).
  - intros Hl p imp. by apply contract_kept.
Qed.

Lemma builtin_prepare_contract_witness :
  prepare_reads (prepare_builtin (λ _, true)) builtin (Policy "static" "reference" [] [] None (@None unit)) "gemm".
Proof.
  refine (proj2 (builtin_prepare_contract (plan := unit) "gemm" _) _ _ _).
  - apply (bool_decide_unpack _). vm_compute. exact I.
  - apply (bool_decide_unpack _). vm_compute. exact I.
Defined.

(** ** The catalog *)

(** The checks the catalog is meant to pass: no operation lacks its reference,
    no reference row needs a library, every operation that has rows has one that
    may be captured, and every capability respects [==]. *)
Definition reference_free (i : impl) : bool :=
  negb (im_reference i) || bool_decide (libraries_of i = ∅).
Definition capturable (c : catalog) (o : string) : bool :=
  existsb im_capture_safe (impls c (Some o)).

(** The built-in operation modules register without an error, and the
    catalog they build has a reference implementation for every operation that
    promises one, none of which needs an optional library; every operation has a
    capture-safe row, and every capability treats equal values alike. *)
Theorem builtin_catalog_sound :
  build_catalog = Ok builtin ∧ coverage_gaps builtin = []
  ∧ List.length (cat_ops builtin) = 16%nat ∧ List.length (cat_impls builtin) = 70%nat
  ∧ forallb reference_free (dvals (cat_impls builtin)) = true
  ∧ forallb (capturable builtin) (dkeys (cat_ops builtin)) = true
  ∧ forallb (λ i, well_kinded (im_when i)) (dvals (cat_impls builtin)) = true.
Proof.
  split; [exact builtin_ok|]. split_and!; vm_compute; reflexivity.
Qed.



(** ** The memo on the built-in operations *)





Section builtin_memo.
Context {plan device : Type} `{device_dec : EqDecision device}.
Context (imp import_ok : string → bool) (wall : impl → facts → handle → Z)
  (catalog_digest : list row_payload → string)
  (policy_digest : string → string → list rule_payload_t → list rule_payload_t → option plan → string)
  (profile_of : device → device_profile).
Context (installed : list (selector (plan := plan) (handle := handle)))
  (fixed : option (option physical_signature)).


End builtin_memo.

(** ** Two calls a site confuses *)

Definition sm100 : device_profile := DeviceProfile "nvidia" (Some "sm100") (Some 0).
Definition nvfp4 (block_k : Z) : physical_signature :=
  PhysicalSignature "nvfp4" (Some "128x4") (Some [1; block_k]) None None None [].
Definition gemm_call (block_k : Z) : site_call (device := unit) :=
  SiteCall (Some tt) [("input", "bf16"); ("output", "bf16")] (Some (nvfp4 block_k))
    [("M", OVal (VInt 8)); ("N", OVal (VInt 64)); ("K", OVal (VInt 64))] [] None.
Definition gemm_site : call_site (handle := handle) (device := unit) := mk_site "gemm" "" [] [] [].
Definition builtin_selector : selector (plan := unit) (handle := handle) :=
  mk_selector builtin (Policy "static" "reference" [] [] None None) None sm100 None None true.
Definition builtin_runtime : runtime (plan := unit) (handle := handle) := Runtime 0 builtin_selector.
Definition builtin_select :=
  site_select (plan := unit) (handle := handle) (device := unit) (λ _, true) (prepare_builtin (λ _, true))
    (λ _ _ _, 0) (λ rows, join ";" (rp_id <$> rows)) (λ profile fallback _ _ _, profile +:+ fallback)
    (λ _, sm100).
Definition selected_id (r : res (selected (handle := handle))) : res string :=
  x ← r; Ok (im_kernel_id (sel_impl (sd_value x))).





(** The memo key ignores the block size of a quantised weight.  At one
    site, a call with blocks of 32 is answered with the kernel selected for
    blocks of 16, whose capability requires 16; a selection made for the call
    itself finds no kernel. *)
Theorem memo_ignores_block_k :
  let '(rt, t, first) := builtin_select false EAGER builtin_runtime gemm_site (gemm_call 16) in
  selected_id first = Ok "flashinfer.gemm.nvfp4_128x4"
  ∧ selected_id (builtin_select false EAGER rt t (gemm_call 32)).2 = Ok "flashinfer.gemm.nvfp4_128x4"
  ∧ selected_id (builtin_select false EAGER builtin_runtime gemm_site (gemm_call 32)).2 = Err NoKernelError.
Proof. vm_compute. by split_and!. Qed.

(** Verification rejects an unchanged choice after [clear_cache].  The
    site was frozen to a row; the cleared selector selects that row again, as a
    new object, and the verified call raises. *)
Theorem verify_after_clear :
  let '(rt, t, first) := builtin_select false EAGER builtin_runtime gemm_site (gemm_call 16) in
  let frozen := (freeze_site t).1 in
  let cleared := Runtime (rt_owner rt) (clear_cache (rt_selector rt)) in
  is_ok (freeze_site t).2 = true
  ∧ (builtin_select true EAGER cleared frozen (gemm_call 16)).2 = Err FrozenChoiceError
  ∧ selected_id (builtin_select true EAGER cleared (unfreeze frozen) (gemm_call 16)).2 = selected_id first.
Proof. vm_compute. by split_and!. Qed.
