(* ===== verification/Tensor.v ===== *)
(** * Tensors, matrix products and collectives as the layers see them

    The parts of [torch] and [torch.distributed] that the weight loaders and
    the parallel layers call: a class of operations and a class of the
    documented laws the code relies on, over an element type with exact
    addition and multiplication.  The last section gives a model of the laws,
    in which witnesses compute. *)

From S2P Require Import Prelude.
Open Scope Z_scope.

(** ** Elements *)

Class Elements (E : Type) := Elem {
  e_zero : E;
  e_add : E → E → E;
  e_mul : E → E → E;
}.

Class ElementLaws (E : Type) `{Elements E} : Prop := {
  e_add_0_l a : e_add e_zero a = a;
  e_add_comm a b : e_add a b = e_add b a;
  e_add_assoc a b c : e_add a (e_add b c) = e_add (e_add a b) c;
}.

#[export] Instance Z_elements : Elements Z := Elem Z 0 Z.add Z.mul.
#[export] Instance Z_element_laws : ElementLaws Z.
Proof. split; simpl; intros; lia. Qed.

(** [esum f lo n] is the sum of [f lo, ..., f (lo + n - 1)]. *)
Fixpoint esum {E} `{Elements E} (f : Z → E) (lo : Z) (n : nat) : E :=
  match n with
  | O => e_zero
  | S n' => e_add (f lo) (esum f (lo + 1) n')
  end.

Section esum.
Context {E : Type} `{ElementLaws E}.

Lemma e_add_0_r a : e_add a e_zero = a.
Proof. rewrite e_add_comm. apply e_add_0_l. Qed.

Lemma esum_ext f g lo n :
  (∀ i, lo <= i < lo + Z.of_nat n → f i = g i) → esum f lo n = esum g lo n.
Proof.
  revert lo; induction n as [|n IH]; intros lo Hfg; [done|]. simpl.
  rewrite (Hfg lo) by lia. f_equal. apply IH. intros i Hi. apply Hfg. lia.
Qed.

Lemma esum_shift f k lo n : esum f (lo + k) n = esum (λ i, f (i + k)) lo n.
Proof.
  revert lo; induction n as [|n IH]; intros lo; [done|]. simpl. f_equal.
  rewrite <- IH. f_equal. lia.
Qed.

Lemma esum_app f lo n m :
  esum f lo (n + m) = e_add (esum f lo n) (esum f (lo + Z.of_nat n) m).
Proof.
  revert lo; induction n as [|n IH]; intros lo; simpl.
  - rewrite e_add_0_l. f_equal. lia.
  - rewrite IH, e_add_assoc. do 2 f_equal. lia.
Qed.

Lemma esum_zero f lo n :
  (∀ i, lo <= i < lo + Z.of_nat n → f i = e_zero) → esum f lo n = e_zero.
Proof.
  revert lo; induction n as [|n IH]; intros lo Hz; [done|]. simpl.
  rewrite (Hz lo), e_add_0_l by lia. apply IH. intros i Hi. apply Hz. lia.
Qed.

(** A sum with one non-zero term. *)
Lemma esum_one f lo n i :
  lo <= i < lo + Z.of_nat n →
  (∀ j, lo <= j < lo + Z.of_nat n → j ≠ i → f j = e_zero) → esum f lo n = f i.
Proof.
  revert lo; induction n as [|n IH]; intros lo Hi Hz; [lia|]. simpl.
  destruct (decide (lo = i)) as [->|Hne].
  - rewrite esum_zero by (intros; apply Hz; lia). apply e_add_0_r.
  - rewrite (Hz lo), e_add_0_l by lia. apply IH; [lia|]. intros j ? ?. apply Hz; lia.
Qed.

Lemma esum_add f g lo n :
  esum (λ i, e_add (f i) (g i)) lo n = e_add (esum f lo n) (esum g lo n).
Proof.
  revert lo; induction n as [|n IH]; intros lo; simpl; [by rewrite e_add_0_l|].
  rewrite IH, <- !e_add_assoc. f_equal.
  rewrite !e_add_assoc. f_equal. apply e_add_comm.
Qed.

(** A sum over [k] blocks of [w] indices each. *)
Lemma esum_blocks f (k w : nat) :
  esum f 0 (k * w) = esum (λ r, esum f (r * Z.of_nat w) w) 0 k.
Proof.
  induction k as [|k IH]; [done|].
  replace (S k * w)%nat with (k * w + w)%nat by lia.
  rewrite esum_app, IH. replace (S k) with (k + 1)%nat by lia.
  rewrite esum_app. f_equal. simpl. rewrite e_add_0_r. f_equal. lia.
Qed.
End esum.

(** ** Indices *)

(** An index is within a shape. *)
Definition in_shape (sh ix : list Z) : Prop := Forall2 (λ n i, 0 <= i < n) sh ix.

(** The index moved by [k] along one dimension. *)
Definition shift (d : nat) (k : Z) (ix : list Z) : list Z := alter (Z.add k) d ix.

(** The position of an index along one dimension. *)
Definition coord (ix : list Z) (d : nat) : Z := default 0 (ix !! d).

Lemma coord_insert ix d i : (d < List.length ix)%nat → coord (<[d := i]> ix) d = i.
Proof. intros Hd. unfold coord. by rewrite list_lookup_insert_eq. Qed.

Lemma coord_shift d k ix : (d < List.length ix)%nat → coord (shift d k ix) d = k + coord ix d.
Proof.
  intros Hd. unfold coord, shift. apply lookup_lt_is_Some in Hd as [i Hi].
  rewrite list_lookup_alter_eq, Hi. done.
Qed.

Lemma shift_shift d j k ix : shift d j (shift d k ix) = shift d (j + k) ix.
Proof.
  apply list_eq. intros i. unfold shift. destruct (decide (d = i)) as [->|Hne].
  - rewrite !list_lookup_alter_eq. destruct (ix !! i); [|done]. simpl. f_equal. lia.
  - by rewrite !list_lookup_alter_ne.
Qed.

Lemma shift_0 d ix : shift d 0 ix = ix.
Proof.
  apply list_eq. intros i. unfold shift. destruct (decide (d = i)) as [->|Hne].
  - rewrite list_lookup_alter_eq. by destruct (ix !! i).
  - by rewrite list_lookup_alter_ne.
Qed.

Lemma in_shape_length sh ix : in_shape sh ix → List.length ix = List.length sh.
Proof. intros H. symmetry. by eapply Forall2_length. Qed.

Lemma in_shape_coord sh ix d n : in_shape sh ix → sh !! d = Some n → 0 <= coord ix d < n.
Proof.
  intros Hix Hd. unfold coord. destruct (Forall2_lookup_l _ _ _ _ _ Hix Hd) as (i & -> & Hi). done.
Qed.

(** Moving an index of one shape into another that differs in one
    dimension. *)
Lemma in_shape_shift sh ix d k n m :
  in_shape (<[d := n]> sh) ix → sh !! d = Some m →
  0 <= k → k + n <= m → in_shape sh (shift d k ix).
Proof.
  unfold in_shape, shift. rewrite !Forall2_lookup. intros Hix Hd Hk Hn i.
  specialize (Hix i). destruct (decide (i = d)) as [->|Hne].
  - rewrite list_lookup_insert_eq in Hix by (by eapply lookup_lt_Some).
    rewrite list_lookup_alter_eq, Hd. inversion Hix as [? ? Hi|]; subst.
    simpl. constructor. lia.
  - rewrite list_lookup_insert_ne in Hix by done. by rewrite list_lookup_alter_ne.
Qed.

Lemma in_shape_unshift sh ix d k n m :
  in_shape sh ix → sh !! d = Some m → k <= coord ix d < k + n →
  in_shape (<[d := n]> sh) (shift d (- k) ix).
Proof.
  unfold in_shape, shift, coord. rewrite !Forall2_lookup. intros Hix Hd Hk i.
  specialize (Hix i). destruct (decide (i = d)) as [->|Hne].
  - rewrite Hd in Hix. rewrite list_lookup_insert_eq by (by eapply lookup_lt_Some).
    rewrite list_lookup_alter_eq. inversion Hix as [? ? Hi Hx Hy|]; subst.
    rewrite <- Hy in Hk. simpl in *. constructor. lia.
  - rewrite list_lookup_insert_ne by done. by rewrite list_lookup_alter_ne.
Qed.

Lemma in_shape_snoc sh n ix i : in_shape sh ix → 0 <= i < n → in_shape (sh ++ [n]) (ix ++ [i]).
Proof. intros ? ?. apply Forall2_app; [done|]. constructor; [done|constructor]. Qed.

Lemma in_shape_1 n i : 0 <= i < n → in_shape [n] [i].
Proof. intros ?. constructor; [done|constructor]. Qed.

Lemma in_shape_2 n k i j : 0 <= i < n → 0 <= j < k → in_shape [n; k] [i; j].
Proof. intros ? ?. constructor; [done|by apply in_shape_1]. Qed.

(** ** [torch] *)

(** What a write goes to: the whole tensor, or its view
    [t.narrow(dim, start, length)]. *)
Inductive place : Type := Whole | View (dim : nat) (start len : Z).

Class Torch (E T : Type) := {
  t_shape : T → list Z;
  t_get : T → list Z → E;
  t_zeros : list Z → T;
  t_item : T → E;
  t_narrow : T → nat → Z → Z → res T;
  t_copy_ : T → place → T → T;
  t_zero_ : T → place → T;
  t_fill_ : T → E → T;
  (* [F.linear(x, weight, bias)] *)
  f_linear : T → T → option T → T;
  (* [F.embedding(ids, weight)] and [masked_fill(~mask.unsqueeze(-1), 0)] *)
  f_embedding : list Z → T → T;
  t_mask_rows : T → list bool → T;
  (* collectives over the members of a group, in rank order *)
  c_all_gather : nat → list T → list T;
  c_all_reduce : list T → list T;
  c_reduce_scatter : nat → list T → list T;
}.

(** The shape of a view. *)
Definition view_shape (sh : list Z) (p : place) : list Z :=
  match p with Whole => sh | View d _ len => <[d := len]> sh end.

(** A view within the bounds of a tensor. *)
Definition view_ok (sh : list Z) (p : place) : Prop :=
  match p with
  | Whole => True
  | View d start len => ∃ n, sh !! d = Some n ∧ 0 <= start ∧ 0 <= len ∧ start + len <= n
  end.

(** The element of the view an index of the tensor is, if any. *)
Definition in_view (p : place) (ix : list Z) : option (list Z) :=
  match p with
  | Whole => Some ix
  | View d start len =>
      if (start <=? coord ix d) && (coord ix d <? start + len)
      then Some (shift d (- start) ix) else None
  end.

Arguments in_view : simpl never.

(** [F.linear] at one output index [pre ++ [n]]. *)
Definition linear_at {E} `{Elements E} (x w : list Z → E) (b : option (list Z → E))
    (k : nat) (pre : list Z) (n : Z) : E :=
  let dot := esum (λ i, e_mul (x (pre ++ [i])) (w [n; i])) 0 k in
  match b with Some b => e_add dot (b [n]) | None => dot end.

Class TorchLaws (E T : Type) `{ElementLaws E} `{Torch E T} : Prop := {
  zeros_spec sh ix : t_shape (t_zeros sh) = sh ∧ (in_shape sh ix → t_get (t_zeros sh) ix = e_zero);
  narrow_ok t d s l : view_ok (t_shape t) (View d s l) →
    ∃ v, t_narrow t d s l = Ok v ∧ t_shape v = <[d := l]> (t_shape t) ∧
         ∀ ix, in_shape (t_shape v) ix → t_get v ix = t_get t (shift d s ix);
  narrow_err t d s l n : t_shape t !! d = Some n → 0 <= s → (l < 0 ∨ n < s + l) →
    t_narrow t d s l = Err RuntimeError;
  copy_shape t p s : t_shape (t_copy_ t p s) = t_shape t;
  copy_get t p s ix : view_ok (t_shape t) p → t_shape s = view_shape (t_shape t) p →
    in_shape (t_shape t) ix →
    t_get (t_copy_ t p s) ix = match in_view p ix with Some jx => t_get s jx | None => t_get t ix end;
  zero_shape t p : t_shape (t_zero_ t p) = t_shape t;
  zero_get t p ix : view_ok (t_shape t) p → in_shape (t_shape t) ix →
    t_get (t_zero_ t p) ix = match in_view p ix with Some _ => e_zero | None => t_get t ix end;
  fill_spec t e ix : t_shape (t_fill_ t e) = t_shape t ∧
    (in_shape (t_shape t) ix → t_get (t_fill_ t e) ix = e);
  item_spec t : t_shape t = [] → t_item t = t_get t [];
  linear_spec x w b pre k n ix i :
    t_shape x = pre ++ [Z.of_nat k] → t_shape w = [n; Z.of_nat k] →
    (∀ b', b = Some b' → t_shape b' = [n]) →
    t_shape (f_linear x w b) = pre ++ [n] ∧
    (in_shape pre ix → 0 <= i < n →
     t_get (f_linear x w b) (ix ++ [i]) = linear_at (t_get x) (t_get w) (t_get <$> b) k ix i);
  embedding_spec ids w v d i j c : t_shape w = [v; d] → Forall (λ i, 0 <= i < v) ids →
    t_shape (f_embedding ids w) = [Z.of_nat (List.length ids); d] ∧
    (ids !! i = Some j → 0 <= c < d → t_get (f_embedding ids w) [Z.of_nat i; c] = t_get w [j; c]);
  mask_rows_spec t mask n d i c : t_shape t = [n; d] → Z.of_nat (List.length mask) = n →
    t_shape (t_mask_rows t mask) = [n; d] ∧
    (0 <= i < n → 0 <= c < d → t_get (t_mask_rows t mask) [i; c] =
       if default false (mask !! Z.to_nat i) then t_get t [i; c] else e_zero);
  all_gather_spec d ts sh n r :
    ts ≠ [] → (∀ t, t ∈ ts → t_shape t = sh) → sh !! d = Some n → (r < List.length ts)%nat →
    ∃ out, c_all_gather d ts !! r = Some out ∧
      t_shape out = <[d := Z.of_nat (List.length ts) * n]> sh ∧
      ∀ q t ix, ts !! q = Some t → in_shape sh ix →
        t_get out (shift d (Z.of_nat q * n) ix) = t_get t ix;
  all_reduce_spec ts sh r :
    ts ≠ [] → (∀ t, t ∈ ts → t_shape t = sh) → (r < List.length ts)%nat →
    ∃ out, c_all_reduce ts !! r = Some out ∧ t_shape out = sh ∧
      ∀ ix, in_shape sh ix →
        t_get out ix = esum (λ q, default e_zero (t ← ts !! Z.to_nat q; Some (t_get t ix))) 0 (List.length ts);
  reduce_scatter_spec d ts sh m r :
    ts ≠ [] → (∀ t, t ∈ ts → t_shape t = sh) →
    sh !! d = Some (Z.of_nat (List.length ts) * m) → 0 <= m → (r < List.length ts)%nat →
    ∃ out, c_reduce_scatter d ts !! r = Some out ∧ t_shape out = <[d := m]> sh ∧
      ∀ ix, in_shape (<[d := m]> sh) ix →
        t_get out ix = esum (λ q, default e_zero (t ← ts !! Z.to_nat q;
          Some (t_get t (shift d (Z.of_nat r * m) ix)))) 0 (List.length ts);
}.

(** ** A model of the laws

    A tensor as its shape and the function of its elements. *)
Section model.
Context {E : Type} `{ElementLaws E}.

Record ftensor : Type := FTensor { ft_shape : list Z; ft_get : list Z → E }.

Definition ft_place_ok (sh : list Z) (p : place) : bool :=
  match p with
  | Whole => true
  | View d start len =>
      match sh !! d with
      | Some n => (0 <=? start) && (0 <=? len) && (start + len <=? n)
      | None => false
      end
  end.

Definition ft_write (t : ftensor) (p : place) (f : list Z → E) : ftensor :=
  FTensor (ft_shape t) (λ ix,
    match in_view p ix with Some jx => f jx | None => ft_get t ix end).

Definition ft_narrow (t : ftensor) (d : nat) (start len : Z) : res ftensor :=
  match ft_shape t !! d with
  | None => Err IndexError
  | Some _ =>
      if ft_place_ok (ft_shape t) (View d start len)
      then Ok (FTensor (<[d := len]> (ft_shape t)) (λ ix, ft_get t (shift d start ix)))
      else Err RuntimeError
  end.

Definition ft_linear (x w : ftensor) (b : option ftensor) : ftensor :=
  let n := default 0 (ft_shape w !! 0%nat) in
  let pre := take (List.length (ft_shape x) - 1) (ft_shape x) in
  FTensor (pre ++ [n]) (λ ix,
    linear_at (ft_get x) (ft_get w) (ft_get <$> b) (Z.to_nat (default 0 (last (ft_shape x))))
      (take (List.length ix - 1) ix) (default 0 (last ix))).

Definition ft_dim (d : nat) (ts : list ftensor) : Z :=
  match ts with t :: _ => default 0 (ft_shape t !! d) | [] => 0 end.

Definition ft_sum (ts : list ftensor) (f : ftensor → E) : E :=
  esum (λ q, default e_zero (t ← ts !! Z.to_nat q; Some (f t))) 0 (List.length ts).

Definition ft_all_gather (d : nat) (ts : list ftensor) : list ftensor :=
  let n := ft_dim d ts in
  let sh := match ts with t :: _ => ft_shape t | [] => [] end in
  let out := FTensor (<[d := Z.of_nat (List.length ts) * n]> sh) (λ ix,
    match ts !! Z.to_nat (coord ix d / n) with
    | Some t => ft_get t (shift d (- (coord ix d / n * n)) ix)
    | None => e_zero
    end) in
  replicate (List.length ts) out.

Definition ft_all_reduce (ts : list ftensor) : list ftensor :=
  let sh := match ts with t :: _ => ft_shape t | [] => [] end in
  replicate (List.length ts) (FTensor sh (λ ix, ft_sum ts (λ t, ft_get t ix))).

Definition ft_reduce_scatter (d : nat) (ts : list ftensor) : list ftensor :=
  let sh := match ts with t :: _ => ft_shape t | [] => [] end in
  let m := ft_dim d ts / Z.of_nat (List.length ts) in
  (λ r, FTensor (<[d := m]> sh) (λ ix, ft_sum ts (λ t, ft_get t (shift d (Z.of_nat r * m) ix))))
    <$> seq 0 (List.length ts).

#[export] Instance ftensor_torch : Torch E ftensor := {
  t_shape := ft_shape;
  t_get := ft_get;
  t_zeros := λ sh, FTensor sh (λ _, e_zero);
  t_item := λ t, ft_get t [];
  t_narrow := ft_narrow;
  t_copy_ := λ t p s, ft_write t p (ft_get s);
  t_zero_ := λ t p, ft_write t p (λ _, e_zero);
  t_fill_ := λ t e, FTensor (ft_shape t) (λ _, e);
  f_linear := ft_linear;
  f_embedding := λ ids w,
    FTensor [Z.of_nat (List.length ids); default 0 (ft_shape w !! 1%nat)] (λ ix,
      ft_get w [default 0 (ids !! Z.to_nat (coord ix 0)); coord ix 1]);
  t_mask_rows := λ t mask,
    FTensor (ft_shape t) (λ ix,
      if default false (mask !! Z.to_nat (coord ix 0)) then ft_get t ix else e_zero);
  c_all_gather := ft_all_gather;
  c_all_reduce := ft_all_reduce;
  c_reduce_scatter := ft_reduce_scatter;
}.

Lemma ft_place_ok_spec sh p : ft_place_ok sh p = true ↔ view_ok sh p.
Proof.
  destruct p as [|d start len]; simpl; [done|].
  destruct (sh !! d) as [n|]; [|split; [done|by intros (? & ? & _)]].
  rewrite !andb_true_iff, !Z.leb_le. split; [intros [[? ?] ?]; by exists n|].
  intros (? & [= <-] & ? & ? & ?). by repeat split.
Qed.

Lemma ft_narrow_ok t d s l : view_ok (ft_shape t) (View d s l) →
  ft_narrow t d s l = Ok (FTensor (<[d := l]> (ft_shape t)) (λ ix, ft_get t (shift d s ix))).
Proof.
  intros Hv. unfold ft_narrow. pose proof Hv as (n & Hn & _). rewrite Hn.
  by apply ft_place_ok_spec in Hv as ->.
Qed.

Lemma ft_linear_spec (x w : ftensor) b pre k n ix i :
  ft_shape x = pre ++ [Z.of_nat k] → ft_shape w = [n; Z.of_nat k] →
  List.length ix = List.length pre →
  ft_shape (ft_linear x w b) = pre ++ [n] ∧
  ft_get (ft_linear x w b) (ix ++ [i]) = linear_at (ft_get x) (ft_get w) (ft_get <$> b) k ix i.
Proof.
  intros Hx Hw Hix. unfold ft_linear. simpl. rewrite Hx, Hw. simpl.
  rewrite length_app, length_app. simpl. rewrite !Nat.add_sub, !take_app_length, !last_snoc.
  simpl. by rewrite Nat2Z.id.
Qed.

Lemma coord_0 i l : coord (i :: l) 0 = i. Proof. done. Qed.
Lemma coord_1 i j l : coord (i :: j :: l) 1 = j. Proof. done. Qed.

Lemma ft_all_gather_spec d ts sh n r :
  ts ≠ [] → (∀ t, t ∈ ts → ft_shape t = sh) → sh !! d = Some n → (r < List.length ts)%nat →
  ∃ out, ft_all_gather d ts !! r = Some out ∧
    ft_shape out = <[d := Z.of_nat (List.length ts) * n]> sh ∧
    ∀ q t ix, ts !! q = Some t → in_shape sh ix →
      ft_get out (shift d (Z.of_nat q * n) ix) = ft_get t ix.
Proof.
  intros Hne Hsh Hd Hr. destruct ts as [|t0 ts0] eqn:Ets; [done|].
  assert (ft_shape t0 = sh) as Ht0 by (apply Hsh; by left).
  eexists. split; [unfold ft_all_gather; by rewrite lookup_replicate_2 by done|].
  simpl. rewrite Ht0, Hd. simpl. split; [done|]. intros q t ix Hq Hix.
  pose proof (in_shape_coord _ _ _ _ Hix Hd) as Hc.
  assert (d < List.length ix)%nat as Hlt.
  { rewrite (in_shape_length _ _ Hix). by eapply lookup_lt_Some. }
  rewrite coord_shift by done.
  replace ((Z.of_nat q * n + coord ix d) / n) with (Z.of_nat q).
  2:{ symmetry. rewrite Z.add_comm, Z.div_add by lia. rewrite Z.div_small; lia. }
  rewrite Nat2Z.id, Hq, shift_shift, Z.add_opp_diag_l. f_equal. apply shift_0.
Qed.

Lemma ft_reduce_scatter_spec d ts sh m r :
  ts ≠ [] → (∀ t, t ∈ ts → ft_shape t = sh) →
  sh !! d = Some (Z.of_nat (List.length ts) * m) → (r < List.length ts)%nat →
  ∃ out, ft_reduce_scatter d ts !! r = Some out ∧ ft_shape out = <[d := m]> sh ∧
    ∀ ix, ft_get out ix = ft_sum ts (λ t, ft_get t (shift d (Z.of_nat r * m) ix)).
Proof.
  intros Hne Hsh Hd Hr. destruct ts as [|t0 ts0] eqn:Ets; [done|]. rewrite <- Ets in *.
  assert (ft_shape t0 = sh) as Ht0 by (apply Hsh; rewrite Ets; by left).
  assert (ft_dim d ts / Z.of_nat (List.length ts) = m) as Hm.
  { rewrite Ets at 1. simpl. rewrite Ht0, Hd. simpl. rewrite Z.mul_comm. apply Z.div_mul.
    rewrite Ets. simpl. lia. }
  eexists. split.
  { unfold ft_reduce_scatter. rewrite list_lookup_fmap, lookup_seq_lt by done. done. }
  simpl. rewrite Hm, Ets. by rewrite Ht0.
Qed.
End model.
Arguments ftensor E : clear implicits.

#[export] Instance ftensor_laws {E} `{ElementLaws E} : TorchLaws E (ftensor E).
Proof.
  split; simpl.
  - done.
  - intros t d s l Hv. eexists. split; [by apply ft_narrow_ok|]. done.
  - intros t d s l n Hn Hs Hl. unfold ft_narrow. rewrite Hn. case_match eqn:E0; [|done].
    apply ft_place_ok_spec in E0 as (m & Hm & ? & ? & ?). rewrite Hn in Hm. injection Hm. lia.
  - done.
  - done.
  - done.
  - done.
  - done.
  - done.
  - intros x w b pre k n ix i Hx Hw Hb. split.
    + by apply (ft_linear_spec x w b pre k n pre 0).
    + intros Hix Hi. apply (ft_linear_spec x w b pre k n); [done..|].
      by rewrite (in_shape_length _ _ Hix).
  - intros ids w v d i j c Hw Hids. rewrite Hw. simpl. split; [done|]. intros Hi Hc.
    rewrite coord_0, coord_1, Nat2Z.id, Hi. done.
  - intros t mask n d i c Ht Hm. split; [done|]. intros. by rewrite coord_0.
  - intros d ts sh n r ? ? ? ?. by apply ft_all_gather_spec.
  - intros ts sh r Hne Hsh Hr. destruct ts as [|t0 ts0]; [done|].
    eexists. unfold ft_all_reduce. rewrite lookup_replicate_2 by done. split; [done|].
    simpl. split; [by apply Hsh; left|]. done.
  - intros d ts sh m r ? ? ? ? ?.
    destruct (ft_reduce_scatter_spec d ts sh m r) as (out & ? & ? & Hg); [done..|].
    exists out. split; [done|]. split; [done|]. intros ix _. apply Hg.
Qed.
