(* ===== verification/Weights.v ===== *)
(** * Weight loaders ([weights/shards.py])

    The loader closures of the parameters: which slice of a checkpoint tensor
    a rank copies into which part of its parameter.  A loader mutates the
    parameter in place and may raise, so it returns the parameter it leaves
    behind together with the outcome. *)

From S2P Require Import Prelude PyStr Types Parallel ProcessGroups Tensor.
Open Scope Z_scope.

(** [int | str | None] *)
Inductive shard_id : Type := NoShard | IntShard (i : Z) | StrShard (s : string).

#[export] Instance shard_id_eq_dec : EqDecision shard_id.
Proof. solve_decision. Defined.

(** [_Leg] *)
Record leg : Type := Leg {
  lg_offset : Z;
  lg_size : Z;
  lg_dim : nat;
  lg_group : string;
  lg_replication : Z;
}.

Section loaders.
Context {E T : Type} `{Torch E T}.

(** What a loader leaves in the parameter, and its outcome. *)
Definition loaded : Type := T * res unit.
Definition weight_loader : Type := T → T → shard_id → loaded.

Definition shape_at (t : T) (d : nat) : res Z := of_option IndexError (t_shape t !! d).
Definition numel (t : T) : Z := foldr Z.mul 1 (t_shape t).

(** Run a computation that reads tensors before anything is written. *)
Definition then_write (p : T) {A} (m : res A) (k : A → loaded) : loaded :=
  match m with Ok a => k a | Err e => (p, Err e) end.

(** [param.data.narrow(dim, start, length)], as the place a copy goes to. *)
Definition narrow_view (p : T) (d : nat) (start len : Z) : res place :=
  _ ← t_narrow p d start len; Ok (View d start len).

Definition copy_exact (p : T) (dst : place) (source : T) : loaded :=
  if bool_decide (view_shape (t_shape p) dst = t_shape source)
  then (t_copy_ p dst source, Ok ()) else (p, Err ValueError).

Definition replicated : weight_loader := λ param source _,
  if (Nat.eqb (List.length (t_shape source)) 0) && (numel param =? 1)
  then (t_fill_ param (t_item source), Ok ())
  else copy_exact param Whole source.

(** [sharded]; [replication_factor] is an [int] at every call site. *)
Definition sharded (d : nat) (group : string) (m : mesh) (replication_factor : Z)
    : res weight_loader :=
  _ ← (if replication_factor <? 1 then Err ValueError
       else size ← mesh_group_size m group;
            ensure (size mod replication_factor =? 0) ValueError);
  Ok (λ param source _,
    then_write param
      (rank ← mesh_group_rank m group; world ← mesh_group_size m group;
       let rank := rank / replication_factor in
       let world := world / replication_factor in
       n ← shape_at source d;
       _ ← ensure (n mod world =? 0) ValueError;
       let size := n / world in
       t_narrow source d (rank * size) size)
      (λ src, copy_exact param Whole src)).

(** The loop of [packed_sharded]. *)
Fixpoint packed_loop (rank world : Z) (source : T) (sizes : list Z) (soff doff : Z) (param : T)
    : loaded :=
  match sizes with
  | [] => (param, Ok ())
  | size :: sizes' =>
      let local_size := size / world in
      then_write param
        (src ← t_narrow source 0 (soff + rank * local_size) local_size;
         dst ← narrow_view param 0 doff local_size; Ok (src, dst))
        (λ sd, match copy_exact param sd.2 sd.1 with
               | (param', Ok _) =>
                   packed_loop rank world source sizes' (soff + size) (doff + local_size) param'
               | failed => failed
               end)
  end.

Definition zsum (l : list Z) : Z := foldr Z.add 0 l.

Definition packed_sharded (sizes : list Z) (group : string) (m : mesh) : res weight_loader :=
  world ← mesh_group_size m group;
  rank ← mesh_group_rank m group;
  _ ← ensure (negb (bool_decide (sizes = [])) &&
              forallb (λ size, (0 <? size) && (size mod world =? 0)) sizes) ValueError;
  Ok (λ param source _,
    then_write param
      (n ← shape_at source 0;
       if negb (n =? zsum sizes) then Err ValueError
       else k ← shape_at param 0; ensure (k =? zsum sizes / world) ValueError)
      (λ _, packed_loop rank world source sizes 0 0 param)).

(** [fused] *)
Definition fused (fuse_dim : nat) (legs : dict shard_id leg) (m : mesh) : weight_loader :=
  λ param source shard,
    then_write param
      (lg ← of_option KeyError (dget legs shard);
       size ← mesh_group_size m (lg_group lg);
       let world := size / lg_replication lg in
       n ← shape_at source (lg_dim lg);
       _ ← ensure (n =? lg_size lg * world) ValueError;
       rank ← mesh_group_rank m (lg_group lg);
       let rank := rank / lg_replication lg in
       src ← t_narrow source (lg_dim lg) (rank * lg_size lg) (lg_size lg);
       dst ← narrow_view param fuse_dim (lg_offset lg) (lg_size lg);
       Ok (src, dst))
      (λ sd, copy_exact param sd.2 sd.1).

(** [weight_norm_fold]: the closure's cache of the halves that have arrived;
    [dense g v] is [g * v / v.norm(...).clamp_min(eps)]. *)
Definition weight_norm_load (dense : T → T → T) (cache : dict string T)
    : T → T → shard_id → dict string T * loaded := λ param source shard,
  match shard with
  | StrShard s =>
      if bool_decide (s ∈ ["g"; "v"]%string) then
        let cache := dset cache s source in
        match dget cache "g"%string, dget cache "v"%string with
        | Some g, Some v =>
            (ddel (ddel cache "g"%string) "v"%string, copy_exact param Whole (dense g v))
        | _, _ => (cache, (param, Ok ()))
        end
      else (cache, (param, Err ValueError))
  | _ => (cache, (param, Err ValueError))
  end.

(** [vocab] *)
Definition vocab (group : string) (m : mesh) : weight_loader := λ param source _,
  then_write param
    (per_rank ← shape_at param 0;
     rank ← mesh_group_rank m group;
     v_real ← shape_at source 0;
     Ok (per_rank, rank * per_rank, v_real))
    (λ '(per_rank, start, v_real),
      if v_real <=? start then (t_zero_ param Whole, Ok ())
      else
        let n_real := Z.min (start + per_rank) v_real - start in
        then_write param
          (dst ← narrow_view param 0 0 n_real;
           src ← t_narrow source 0 start n_real; Ok (src, dst))
          (λ sd, match copy_exact param sd.2 sd.1 with
                 | (param', Ok _) =>
                     if n_real <? per_rank then
                       then_write param' (narrow_view param' 0 n_real (per_rank - n_real))
                         (λ dst, (t_zero_ param' dst, Ok ()))
                     else (param', Ok ())
                 | failed => failed
                 end)).
End loaders.

(** ** What the loaders write *)

Section specs.
Context {E T : Type} `{TorchLaws E T}.

(** Two tensors with the same shape and elements. *)
#[export] Instance tensor_equiv : Equiv T := λ t u,
  t_shape t = t_shape u ∧ ∀ ix, in_shape (t_shape t) ix → t_get t ix = t_get u ix.

#[export] Instance tensor_equivalence : Equivalence (≡@{T}).
Proof.
  split.
  - done.
  - intros t u [Hs Hg]. split; [done|]. intros ix Hix. symmetry. apply Hg. by rewrite Hs.
  - intros t u v [Hs Hg] [Hs' Hg']. split; [congruence|]. intros ix Hix.
    rewrite Hg by done. apply Hg'. by rewrite <- Hs.
Qed.

(** The slice [t.narrow(d, start, len)] as a relation between tensors. *)
Definition slice_of (t : T) (d : nat) (start len : Z) (v : T) : Prop :=
  t_shape v = <[d := len]> (t_shape t) ∧
  ∀ ix, in_shape (t_shape v) ix → t_get v ix = t_get t (shift d start ix).

Lemma narrow_slice t d start len v :
  view_ok (t_shape t) (View d start len) → t_narrow t d start len = Ok v → slice_of t d start len v.
Proof.
  intros Hv Hn. destruct (narrow_ok t d start len Hv) as (v' & Hn' & Hs & Hg).
  rewrite Hn in Hn'. injection Hn' as <-. done.
Qed.

Lemma narrow_exists t d start len :
  view_ok (t_shape t) (View d start len) → ∃ v, t_narrow t d start len = Ok v ∧ slice_of t d start len v.
Proof.
  intros Hv. destruct (narrow_ok t d start len Hv) as (v & Hn & Hs & Hg). by exists v.
Qed.

Lemma narrow_view_ok p d start len :
  view_ok (t_shape p) (View d start len) → narrow_view p d start len = Ok (View d start len).
Proof.
  intros Hv. unfold narrow_view. destruct (narrow_ok p d start len Hv) as (v & -> & _). done.
Qed.

Lemma copy_exact_ok p dst src :
  view_shape (t_shape p) dst = t_shape src → copy_exact p dst src = (t_copy_ p dst src, Ok ()).
Proof. intros Hs. unfold copy_exact. by rewrite bool_decide_true. Qed.

(** A failed copy leaves the parameter as it was, and raises [ValueError]. *)
Lemma copy_exact_failed p dst src p' e :
  copy_exact p dst src = (p', Err e) → p' = p ∧ e = ValueError.
Proof. unfold copy_exact. case_bool_decide; [done|]. by intros [= <- <-]. Qed.

Lemma copy_whole p src ix :
  t_shape p = t_shape src → in_shape (t_shape p) ix →
  t_get (t_copy_ p Whole src) ix = t_get src ix.
Proof. intros Hs Hix. by rewrite copy_get. Qed.

Lemma shape_at_ok t d n : t_shape t !! d = Some n → shape_at t d = Ok n.
Proof. intros Hn. unfold shape_at. by rewrite Hn. Qed.
End specs.

(** ** Partitions of a dimension *)

(** The start of the i-th part, and the part a position lies in with the
    offset there. *)
Definition part_start (sizes : list Z) (i : nat) : Z := zsum (take i sizes).

Fixpoint locate (sizes : list Z) (c : Z) : option (nat * Z) :=
  match sizes with
  | [] => None
  | s :: sizes' =>
      if c <? s then Some (O, c)
      else '(i, o) ← locate sizes' (c - s); Some (S i, o)
  end.

Section partitions.
Implicit Types (sizes : list Z) (c : Z).

Lemma zsum_app l k : zsum (l ++ k) = zsum l + zsum k.
Proof. unfold zsum. induction l; simpl; lia. Qed.

Lemma zsum_nonneg l : Forall (λ s, 0 <= s) l → 0 <= zsum l.
Proof. unfold zsum. induction 1; simpl; lia. Qed.

Lemma part_start_S sizes i s : sizes !! i = Some s → part_start sizes (S i) = part_start sizes i + s.
Proof.
  intros Hi. unfold part_start. rewrite (take_S_r _ _ _ Hi), zsum_app. unfold zsum. simpl. lia.
Qed.

Lemma part_start_bound sizes i s :
  Forall (λ s, 0 <= s) sizes → sizes !! i = Some s →
  0 <= part_start sizes i ∧ part_start sizes i + s <= zsum sizes.
Proof.
  intros Hs Hi. rewrite <- (part_start_S _ _ _ Hi). unfold part_start. split.
  - by apply zsum_nonneg, Forall_take.
  - rewrite <- (take_drop (S i) sizes) at 2. rewrite zsum_app.
    pose proof (zsum_nonneg (drop (S i) sizes)). specialize (H (Forall_drop _ _ _ Hs)). lia.
Qed.

Lemma locate_spec sizes c i o :
  Forall (λ s, 0 <= s) sizes → 0 <= c →
  locate sizes c = Some (i, o) ↔
  ∃ s, sizes !! i = Some s ∧ 0 <= o < s ∧ c = part_start sizes i + o.
Proof.
  intros Hs. revert c i o. induction Hs as [|s sizes Hs0 Hs IH]; intros c i o Hc; simpl.
  - split; [done|]. by intros (? & ? & _).
  - destruct (Z.ltb_spec c s) as [Hlt|Hge].
    + split.
      * intros [= <- <-]. exists s. unfold part_start, zsum. simpl. repeat split; lia.
      * intros (s' & Hi & Ho & ->). destruct i as [|i]; simpl in Hi.
        -- injection Hi as <-. unfold part_start, zsum. simpl. do 2 f_equal; lia.
        -- pose proof (proj1 (part_start_bound _ _ _ Hs Hi)).
           unfold part_start, zsum in *. simpl in *. lia.
    + assert (∀ i o, locate sizes (c - s) = Some (i, o) ↔
        ∃ s', (s :: sizes) !! S i = Some s' ∧ 0 <= o < s' ∧ c = part_start (s :: sizes) (S i) + o) as Hx.
      { intros i' o'. rewrite IH by lia. unfold part_start, zsum. simpl.
        split; intros (s' & ? & ? & ?); exists s'; repeat split; (done || lia). }
      destruct i as [|i].
      * split; [by destruct (locate sizes (c - s)) as [[? ?]|]|].
        intros (s' & [= <-] & Ho & ->). unfold part_start, zsum in *. simpl in *. lia.
      * rewrite <- Hx. destruct (locate sizes (c - s)) as [[j o']|]; simpl; [|done].
        split; intros [= -> ->]; done.
Qed.

Lemma locate_total sizes c : 0 <= c < zsum sizes → is_Some (locate sizes c).
Proof.
  revert c; induction sizes as [|s sizes IH]; intros c Hc; unfold zsum in *; simpl in *; [lia|].
  destruct (Z.ltb_spec c s); [done|]. destruct (IH (c - s)) as [[j o] ->]; [lia|]. done.
Qed.

Lemma locate_lt sizes c i o : locate sizes c = Some (i, o) → c < zsum sizes ∨ (∃ s, s ∈ sizes ∧ s < 0).
Proof.
  revert c i; induction sizes as [|s sizes IH]; intros c i; simpl; [done|].
  destruct (Z.ltb_spec c s).
  - intros _. destruct (decide (Exists (λ s, s < 0) sizes)) as [Hex|Hno].
    + right. apply Exists_exists in Hex as (x & ? & ?). exists x. split; [by right|done].
    + left. apply not_Exists_Forall in Hno; [|apply _].
      assert (0 <= zsum sizes). { apply zsum_nonneg. eapply Forall_impl; [exact Hno|]. simpl. lia. }
      unfold zsum in *. simpl. lia.
  - destruct (locate sizes (c - s)) as [[j o']|] eqn:Hl; [|done]. simpl. intros [= <- <-].
    apply IH in Hl as [Hl|(x & ? & ?)]; [left|right; exists x; split; [by right|done]].
    unfold zsum in *. simpl. lia.
Qed.
End partitions.

(** ** The loaders on a rank of a group *)

(** This process is rank [r] of the [n] members of group [g]. *)
Definition member (m : mesh) (g : string) (n r : Z) : Prop :=
  mesh_group_size m g = Ok n ∧ mesh_group_rank m g = Ok r ∧ 0 <= r < n.

(** The row of the checkpoint tensor that row [c] of the packed parameter of
    a rank holds. *)
Definition packed_row (world rank : Z) (sizes : list Z) (c : Z) : Z :=
  match locate ((λ s, s / world) <$> sizes) c with
  | Some (i, o) => part_start sizes i + rank * (default 0 (sizes !! i) / world) + o
  | None => 0
  end.

Section placed.
Context {E T : Type} `{TorchLaws E T}.
Context (m : mesh) (g : string) (n r : Z) (Hm : member m g n r).

(** A rank's part of a dimension split in [w] equal parts. *)
Lemma part_view_ok (src : T) d w k s :
  t_shape src !! d = Some (w * s) → 0 <= k < w → 0 <= s →
  view_ok (t_shape src) (View d (k * s) s).
Proof. intros Hd Hk Hs. exists (w * s). split; [done|]. nia. Qed.

Lemma sharded_loads d rf s (p src : T) sid :
  1 <= rf → n mod rf = 0 → 0 <= s →
  t_shape src !! d = Some (n / rf * s) → t_shape p = <[d := s]> (t_shape src) →
  ∃ load p', sharded d g m rf = Ok load ∧ load p src sid = (p', Ok ()) ∧
    slice_of src d (r / rf * s) s p'.
Proof.
  intros Hrf Hmod Hs Hd Hp. destruct Hm as (Hn & Hr & Hrn).
  assert (n = n / rf * rf) as Hnrf by (rewrite Z.mul_comm; by apply Z.div_exact; lia).
  assert (0 <= r / rf < n / rf) as Hk.
  { split; [by apply Z.div_pos; lia|]. apply Z.div_lt_upper_bound; nia. }
  destruct (narrow_exists src d (r / rf * s) s) as (v & Hv & Hsl); [by eapply part_view_ok|].
  pose proof Hsl as [Hvs Hvg].
  unfold sharded. rewrite (proj2 (Z.ltb_ge _ _)), Hn by lia. simpl. rewrite Hmod. simpl.
  eexists _, (t_copy_ p Whole v). split; [reflexivity|].
  rewrite Hr. simpl. rewrite (shape_at_ok _ _ _ Hd). simpl.
  rewrite (Z.mul_comm (n / rf)), Z.mod_mul, Z.div_mul by lia. simpl. rewrite Hv. simpl.
  rewrite copy_exact_ok by (simpl; congruence). split; [done|]. split.
  - by rewrite copy_shape.
  - rewrite copy_shape. intros ix Hix. rewrite copy_whole by (done || congruence).
    apply Hvg. congruence.
Qed.

Lemma replicated_loads (p src : T) sid :
  t_shape p = t_shape src →
  ∃ p', replicated p src sid = (p', Ok ()) ∧ p' ≡ src.
Proof.
  intros Hs. unfold replicated. case_match eqn:E0.
  - apply andb_true_iff in E0 as [E0 _]. apply Nat.eqb_eq, nil_length_inv in E0.
    eexists. split; [done|]. destruct (fill_spec p (t_item src) []) as [Hsh _]. split; [congruence|].
    intros ix Hix. rewrite Hsh in Hix. rewrite (proj2 (fill_spec p (t_item src) ix)) by done.
    rewrite Hs, E0 in Hix. inversion Hix; subst. by rewrite item_spec.
  - rewrite copy_exact_ok by done. eexists. split; [done|]. split; [by rewrite copy_shape|].
    intros ix Hix. rewrite copy_shape in Hix. by apply copy_whole.
Qed.

(** One leg of a fused parameter. *)
Lemma fused_loads fd legs sid lg (p src : T) k :
  dget legs sid = Some lg → lg_group lg = g → 1 <= lg_replication lg → n mod lg_replication lg = 0 →
  0 <= lg_size lg → 0 <= lg_offset lg → lg_offset lg + lg_size lg <= k → t_shape p !! fd = Some k →
  t_shape src !! lg_dim lg = Some (lg_size lg * (n / lg_replication lg)) →
  <[fd := lg_size lg]> (t_shape p) = <[lg_dim lg := lg_size lg]> (t_shape src) →
  ∃ p', fused fd legs m p src sid = (p', Ok ()) ∧ t_shape p' = t_shape p ∧
    ∀ ix, in_shape (t_shape p) ix →
      t_get p' ix =
        match in_view (View fd (lg_offset lg) (lg_size lg)) ix with
        | Some jx => t_get src (shift (lg_dim lg) (r / lg_replication lg * lg_size lg) jx)
        | None => t_get p ix
        end.
Proof.
  intros Hleg Hg Hrf Hmod Hs Ho Hk Hfd Hd Hsh. destruct Hm as (Hn & Hr & Hrn).
  set (rf := lg_replication lg) in *. set (s := lg_size lg) in *.
  assert (n = n / rf * rf) as Hnrf by (rewrite Z.mul_comm; by apply Z.div_exact; lia).
  assert (0 <= r / rf < n / rf) as Hkr.
  { split; [by apply Z.div_pos; lia|]. apply Z.div_lt_upper_bound; nia. }
  destruct (narrow_exists src (lg_dim lg) (r / rf * s) s) as (v & Hv & Hvs & Hvg).
  { eapply part_view_ok; [|done..]. by rewrite Z.mul_comm. }
  assert (view_ok (t_shape p) (View fd (lg_offset lg) s)) as Hpv by (by exists k).
  unfold fused. rewrite Hleg. simpl. rewrite Hg, Hn. simpl. rewrite (shape_at_ok _ _ _ Hd). simpl.
  fold rf s. rewrite Z.eqb_refl. simpl. rewrite Hr. simpl. rewrite Hv. simpl.
  rewrite narrow_view_ok by done. simpl. rewrite copy_exact_ok by (simpl; congruence).
  eexists. split; [done|]. split; [by rewrite copy_shape|]. intros ix Hix.
  rewrite copy_get; [|done|simpl; congruence|done].
  destruct (in_view _ ix) as [jx|] eqn:Hin; [|done]. apply Hvg. rewrite Hvs, <- Hsh.
  unfold in_view in Hin. case_match eqn:E0; [|done]. injection Hin as <-.
  apply andb_true_iff in E0 as [?%Z.leb_le ?%Z.ltb_lt].
  by eapply in_shape_unshift.
Qed.

(** The loop over the parts of a packed parameter, from the part that starts
    at row [doff] of the parameter and [soff] of the checkpoint tensor. *)
Lemma packed_loop_loads (src p : T) sizes soff doff :
  Forall (λ s, 0 < s ∧ s mod n = 0) sizes →
  0 <= soff → 0 <= doff →
  (∃ tot, t_shape src !! 0%nat = Some tot ∧ soff + zsum sizes <= tot) →
  (∃ k, t_shape p !! 0%nat = Some k ∧ doff + zsum ((λ s, s / n) <$> sizes) <= k) →
  (∀ s, <[0%nat := s]> (t_shape p) = <[0%nat := s]> (t_shape src)) →
  ∃ p', packed_loop r n src sizes soff doff p = (p', Ok ()) ∧ t_shape p' = t_shape p ∧
    ∀ ix, in_shape (t_shape p) ix →
      t_get p' ix =
        if coord ix 0 <? doff then t_get p ix else
        match locate ((λ s, s / n) <$> sizes) (coord ix 0 - doff) with
        | Some (i, o) =>
            t_get src (shift 0 (soff + part_start sizes i + r * (default 0 (sizes !! i) / n)
                                + o - coord ix 0) ix)
        | None => t_get p ix
        end.
Proof.
  destruct Hm as (Hn & Hr & Hrn). intros Hs. revert p soff doff.
  induction Hs as [|s sizes [Hs Hmod] Hss IH]; intros p soff doff Hso Hdo (tot & Htot & Hst) (k & Hk & Hdk) Hsh.
  { simpl. exists p. split; [done|]. split; [done|]. intros. by case_match. }
  set (l := s / n). assert (s = n * l) as Hsl by (apply Z.div_exact; lia).
  assert (0 < l) as Hl by nia.
  change (zsum (s :: sizes)) with (s + zsum sizes) in Hst.
  change (zsum ((λ s, s / n) <$> s :: sizes)) with (l + zsum ((λ s, s / n) <$> sizes)) in Hdk.
  assert (0 <= zsum sizes) as Hz1.
  { apply zsum_nonneg. eapply Forall_impl; [exact Hss|]. simpl. lia. }
  assert (0 <= zsum ((λ s, s / n) <$> sizes)) as Hz2.
  { apply zsum_nonneg. apply Forall_fmap. eapply Forall_impl; [exact Hss|]. intros x [? ?]. simpl.
    apply Z.div_pos; lia. }
  destruct (narrow_exists src 0 (soff + r * l) l) as (v & Hv & Hvs & Hvg).
  { exists tot. split; [done|]. nia. }
  assert (view_ok (t_shape p) (View 0 doff l)) as Hpv by (exists k; split; [done|lia]).
  set (p1 := t_copy_ p (View 0 doff l) v).
  destruct (IH p1 (soff + s) (doff + l)) as (p' & Hrun & Hp's & Hp'g); [lia..| | | |].
  { exists tot. split; [done|lia]. }
  { exists k. unfold p1. rewrite copy_shape. split; [done|lia]. }
  { unfold p1. by rewrite copy_shape. }
  exists p'. cbn [packed_loop]. fold l. rewrite Hv. simpl. rewrite narrow_view_ok by done. simpl.
  rewrite copy_exact_ok by (simpl; rewrite Hvs; apply Hsh). fold p1. split; [done|].
  unfold p1 in Hp's, Hp'g. rewrite copy_shape in Hp's, Hp'g. split; [done|].
  intros ix Hix. rewrite (Hp'g ix Hix).
  rewrite copy_get; [|done|simpl; rewrite Hvs; symmetry; apply Hsh|done].
  pose proof (in_shape_coord _ _ _ _ Hix Hk) as Hc. unfold in_view. simpl.
  destruct (Z.ltb_spec (coord ix 0) doff) as [Hlt|Hge].
  { rewrite (proj2 (Z.ltb_lt _ _)) by lia. by rewrite (proj2 (Z.leb_gt doff _)) by lia. }
  rewrite (proj2 (Z.leb_le doff _)) by lia. simpl. fold l.
  destruct (Z.ltb_spec (coord ix 0) (doff + l)) as [Hlt'|Hge'].
  - rewrite (proj2 (Z.ltb_lt (coord ix 0 - doff) l)) by lia. simpl. fold l.
    rewrite Hvg.
    + rewrite shift_shift. f_equal. f_equal. unfold part_start, zsum. simpl. lia.
    + rewrite Hvs, <- Hsh. eapply in_shape_unshift; [done..|lia].
  - rewrite (proj2 (Z.ltb_ge (coord ix 0 - doff) l)) by lia.
    replace (coord ix 0 - doff - l) with (coord ix 0 - (doff + l)) by lia.
    destruct (locate _ _) as [[i o]|]; [|done]. simpl. f_equal. f_equal.
    change (part_start (s :: sizes) (S i)) with (s + part_start sizes i). lia.
Qed.

(** A packed checkpoint tensor: each row of the rank's parameter is the row
    [packed_row] of the checkpoint. *)
Lemma packed_loads sizes (p src : T) sid rest :
  sizes ≠ [] → Forall (λ s, 0 < s ∧ s mod n = 0) sizes →
  t_shape src = zsum sizes :: rest → t_shape p = zsum sizes / n :: rest →
  ∃ load p', packed_sharded sizes g m = Ok load ∧ load p src sid = (p', Ok ()) ∧
    t_shape p' = t_shape p ∧
    ∀ c ix, in_shape (t_shape p) (c :: ix) →
      t_get p' (c :: ix) = t_get src (packed_row n r sizes c :: ix).
Proof.
  intros Hne Hs Hsrc Hp. pose proof Hm as (Hn & Hr & Hrn).
  assert (zsum sizes / n = zsum ((λ s, s / n) <$> sizes)) as Hsum.
  { clear Hne Hsrc Hp. assert (zsum sizes = n * zsum ((λ s, s / n) <$> sizes)) as ->.
    - unfold zsum. induction Hs as [|s l [? Hd] ? IH]; simpl; [lia|].
      change (list_fmap Z Z (λ s0, s0 / n) l) with ((λ s0, s0 / n) <$> l).
      rewrite IH. apply Z.div_exact in Hd; nia.
    - rewrite Z.mul_comm. apply Z.div_mul. lia. }
  destruct (packed_loop_loads src p sizes 0 0) as (p' & Hrun & Hp's & Hp'g); [done|lia..| | | |].
  { exists (zsum sizes). rewrite Hsrc. split; [done|lia]. }
  { exists (zsum sizes / n). rewrite Hp. split; [done|lia]. }
  { intros s. by rewrite Hsrc, Hp. }
  unfold packed_sharded. rewrite Hn, Hr. simpl.
  rewrite bool_decide_false by done. simpl.
  replace (forallb (λ size, (0 <? size) && (size mod n =? 0)) sizes) with true.
  2:{ clear -Hs. symmetry. induction Hs as [|x l [Hx Hxm] ? IH]; simpl; [done|].
      by rewrite (proj2 (Z.ltb_lt _ _)), Hxm, IH by done. }
  simpl. eexists _, p'. split; [done|]. cbv beta. rewrite (shape_at_ok src 0 (zsum sizes)) by by rewrite Hsrc.
  simpl. rewrite Z.eqb_refl. simpl.
  rewrite (shape_at_ok p 0 (zsum sizes / n)) by by rewrite Hp. simpl. rewrite Z.eqb_refl. simpl.
  split; [done|]. split; [done|]. intros c ix Hix. rewrite (Hp'g _ Hix). unfold coord. simpl.
  pose proof Hix as Hc. rewrite Hp in Hc. inversion Hc as [|? ? ? ? Hc0 ?]; subst.
  rewrite (proj2 (Z.ltb_ge c 0)), Z.sub_0_r by lia. unfold packed_row.
  destruct (locate_total ((λ s, s / n) <$> sizes) c) as [[i o] ->]; [lia|].
  unfold shift. simpl. f_equal. f_equal. lia.
Qed.

(** The vocabulary rows of a rank, zero beyond the checkpoint. *)
Lemma vocab_loads (p src : T) sid per v rest :
  t_shape p = per :: rest → t_shape src = v :: rest → 0 <= per → 0 <= v →
  ∃ p', vocab g m p src sid = (p', Ok ()) ∧ t_shape p' = t_shape p ∧
    ∀ c ix, in_shape (t_shape p) (c :: ix) →
      t_get p' (c :: ix) = if r * per + c <? v then t_get src (r * per + c :: ix) else e_zero.
Proof.
  intros Hp Hsrc Hper Hv. destruct Hm as (Hn & Hr & Hrn). unfold vocab.
  rewrite (shape_at_ok p 0 per) by by rewrite Hp. simpl. rewrite Hr. simpl.
  rewrite (shape_at_ok src 0 v) by by rewrite Hsrc. simpl.
  destruct (Z.leb_spec v (r * per)) as [Hle|Hlt].
  { eexists. split; [done|]. split; [by rewrite zero_shape|]. intros c ix Hix.
    rewrite zero_get by done. unfold in_view. rewrite Hp in Hix. inversion Hix; subst.
    by rewrite (proj2 (Z.ltb_ge _ _)) by lia. }
  set (nr := Z.min (r * per + per) v - r * per).
  assert (0 <= nr <= per) as Hnr by (unfold nr; lia).
  assert (view_ok (t_shape p) (View 0 0 nr)) as Hpv by (rewrite Hp; exists per; split; [done|lia]).
  rewrite narrow_view_ok by done. simpl.
  destruct (narrow_exists src 0 (r * per) nr) as (w & Hw & Hws & Hwg).
  { rewrite Hsrc. exists v. split; [done|]. unfold nr. lia. }
  rewrite Hw. simpl. rewrite copy_exact_ok by (simpl; rewrite Hws, Hp, Hsrc; done).
  set (p1 := t_copy_ p (View 0 0 nr) w).
  assert (∀ c ix, in_shape (t_shape p) (c :: ix) → t_get p1 (c :: ix) =
    if c <? nr then t_get src (r * per + c :: ix) else t_get p (c :: ix)) as Hp1.
  { intros c ix Hix. unfold p1. rewrite copy_get; [|done|by simpl; rewrite Hws, Hp, Hsrc|done].
    pose proof Hix as Hc. rewrite Hp in Hc. inversion Hc as [|? ? ? ? Hc0 Hrest]; subst.
    unfold in_view, coord. simpl. rewrite (proj2 (Z.leb_le 0 c)), Z.add_0_l by lia. simpl.
    destruct (Z.ltb_spec c nr); [|done]. change (- 0 + c) with c. rewrite Hwg; [done|].
    rewrite Hws, Hsrc. constructor; [simpl; lia|done]. }
  destruct (Z.ltb_spec nr per) as [Hlt'|Hge'].
  - assert (view_ok (t_shape p1) (View 0 nr (per - nr))) as Hp1v.
    { unfold p1. rewrite copy_shape, Hp. exists per. split; [done|lia]. }
    rewrite narrow_view_ok by done. simpl. eexists. split; [done|].
    split; [by rewrite zero_shape; unfold p1; rewrite copy_shape|]. intros c ix Hix.
    rewrite zero_get; [|done|by unfold p1; rewrite copy_shape].
    rewrite (Hp1 _ _ Hix). unfold in_view, coord. simpl.
    rewrite Hp in Hix. inversion Hix as [|? ? ? ? Hc0 Hrest]; subst.
    destruct (Z.leb_spec nr c), (Z.ltb_spec c (nr + (per - nr))), (Z.ltb_spec c nr),
      (Z.ltb_spec (r * per + c) v); simpl; done || lia.
  - eexists. split; [done|]. split; [by unfold p1; rewrite copy_shape|]. intros c ix Hix.
    rewrite (Hp1 _ _ Hix). rewrite Hp in Hix. inversion Hix as [|? ? ? ? Hc0 Hrest]; subst.
    destruct (Z.ltb_spec c nr), (Z.ltb_spec (r * per + c) v); done || lia.
Qed.
End placed.
