(* ===== verification/Linear.v ===== *)
(** * Tensor-parallel linear layers ([layers/linear/layers.py]),
    the dense MLP ([layers/mlp/dense_mlp.py]) and the vocabulary layers
    ([layers/vocab_embedding/layers.py])

    Construction, the loading plan attached to the parameters and the forward
    pass of every rank of a group, with the unquantised weights of
    [Bf16Spec].  A collective happens when all members of the group enter
    it. *)

From Stdlib Require Import Ascii.
From S2P Require Import Prelude PyStr Types Parallel ProcessGroups Tensor Weights.
Open Scope Z_scope.

(** [prefix.rpartition(".")[0]] *)
Fixpoint rpartition_head (s : string) : option string :=
  match s with
  | EmptyString => None
  | String c s' =>
      match rpartition_head s' with
      | Some h => Some (String c h)
      | None => if Ascii.eqb c "."%char then Some EmptyString else None
      end
  end.
Definition parent_of (prefix : string) : string := default ""%string (rpartition_head prefix).

Section layers.
Context {E T : Type} `{Torch E T}.
(** [torch.empty]: uninitialised memory of a shape. *)
Context (t_empty : list Z → T).

(** A parameter with its attached loading plan. *)
Record param : Type := Param {
  pm_data : T;
  pm_keys : list (string * shard_id);
  pm_loader : option (T → T → shard_id → T * res unit);
}.

Record linear : Type := Linear {
  ln_in : Z;
  ln_out : Z;
  ln_sizes : list Z;
  ln_group : string;
  ln_sequence_parallel : bool;
  ln_gather_output : bool;
  ln_input_is_parallel : bool;
  ln_reduce_results : bool;
  ln_tp_size : Z;
  ln_tp_rank : Z;
  ln_weight : param;
  ln_bias : option param;
  ln_skip_bias_add : bool;
}.

(** One tensor of the checkpoint through the loader of a parameter. *)
Definition load_param (p : param) (source : T) (shard : shard_id) : param * res unit :=
  match pm_loader p with
  | Some load =>
      let '(data, r) := load (pm_data p) source shard in
      (Param data (pm_keys p) (pm_loader p), r)
  | None => let '(data, r) := replicated (pm_data p) source shard in
            (Param data (pm_keys p) None, r)
  end.

(** Several tensors in the order the checkpoint has them. *)
Fixpoint load_params (p : param) (sources : list (T * shard_id)) : param * res unit :=
  match sources with
  | [] => (p, Ok ())
  | (t, shard) :: sources' =>
      match load_param p t shard with
      | (p', Ok _) => load_params p' sources'
      | failed => failed
      end
  end.

(** [ColumnParallelLinear.__init__] *)
Definition column_init (m : mesh) (in_features out_features : Z) (group : string)
    (sequence_parallel gather_output bias skip_bias_add : bool)
    (output_sizes : option (list Z)) (prefix : string) : res linear :=
  tp_size ← mesh_group_size m group;
  tp_rank ← mesh_group_rank m group;
  let global_sizes := default [out_features] output_sizes in
  _ ← ensure (zsum global_sizes =? out_features) ValueError;
  per_rank_sizes ← rmap (λ s,
    _ ← ensure (s mod tp_size =? 0) ValueError; Ok (s / tp_size)) global_sizes;
  let out := zsum per_rank_sizes in
  load ← (if String.eqb prefix "" then Ok None
          else l ← (if Nat.eqb (List.length per_rank_sizes) 1 then sharded 0 group m 1
                    else packed_sharded global_sizes group m);
               Ok (Some l));
  let key name := if String.eqb prefix "" then [] else [((prefix +:+ name)%string, NoShard)] in
  Ok (Linear in_features out per_rank_sizes group sequence_parallel gather_output true true
        tp_size tp_rank
        (Param (t_empty [out; in_features]) (key ".weight"%string) load)
        (if bias then Some (Param (t_zeros [out]) (key ".bias"%string) load) else None)
        skip_bias_add).

(** The keys and legs of a fused parameter: one leg per name, laid out one
    after the other. *)
Fixpoint merged_legs (group : string) (i offset : Z) (sizes : list Z) : dict shard_id leg :=
  match sizes with
  | [] => []
  | per_rank :: sizes' =>
      (IntShard i, Leg offset per_rank 0 group 1) :: merged_legs group (i + 1) (offset + per_rank) sizes'
  end.

Definition hf_name (parent name suffix : string) : string :=
  if String.eqb parent "" then (name +:+ suffix)%string else (parent +:+ "." +:+ name +:+ suffix)%string.

Definition with_plan (l : linear) (m : mesh) (legs : dict shard_id leg)
    (keys bias_keys : list (string * shard_id)) : linear :=
  let load := Some (fused 0 legs m) in
  Linear (ln_in l) (ln_out l) (ln_sizes l) (ln_group l) (ln_sequence_parallel l)
    (ln_gather_output l) (ln_input_is_parallel l) (ln_reduce_results l) (ln_tp_size l) (ln_tp_rank l)
    (Param (pm_data (ln_weight l)) keys load)
    ((λ b, Param (pm_data b) bias_keys load) <$> ln_bias l) (ln_skip_bias_add l).

(** [MergedColumnParallelLinear.__init__] *)
Definition merged_init (m : mesh) (in_features : Z) (output_sizes : list Z) (group : string)
    (sequence_parallel gather_output bias skip_bias_add : bool)
    (hf_legs : list string) (prefix : string) : res linear :=
  l ← column_init m in_features (zsum output_sizes) group sequence_parallel gather_output bias
        skip_bias_add (Some output_sizes) prefix;
  _ ← ensure (Nat.eqb (List.length hf_legs) (List.length (ln_sizes l))) ValueError;
  if String.eqb prefix "" then Ok l
  else
    let parent := parent_of prefix in
    let keys suffix := zip_with (λ i name, (hf_name parent name suffix, IntShard (Z.of_nat i)))
                         (seq 0 (List.length hf_legs)) hf_legs in
    Ok (with_plan l m (merged_legs group 0 0 (ln_sizes l)) (keys ".weight"%string)
          (if bias then keys ".bias"%string else [])).

(** [QKVParallelLinear.__init__]: the replicas and the number of key/value
    heads over the whole group, each rank having at least one. *)
Definition kv_replicas (tp_size num_kv_heads : Z) : res (Z * Z) :=
  if num_kv_heads <=? tp_size then
    if num_kv_heads =? 0 then Err ZeroDivisionError else
    _ ← ensure (tp_size mod num_kv_heads =? 0) ValueError;
    Ok (tp_size / num_kv_heads, tp_size)
  else
    _ ← ensure (num_kv_heads mod tp_size =? 0) ValueError;
    Ok (1, num_kv_heads).

Definition qkv_legs (group : string) (replicas : Z) (sizes : list Z) : dict shard_id leg :=
  match sizes with
  | [q_local; k_local; v_local] =>
      [(StrShard "q", Leg 0 q_local 0 group 1);
       (StrShard "k", Leg q_local k_local 0 group replicas);
       (StrShard "v", Leg (q_local + k_local) v_local 0 group replicas)]
  | _ => []
  end.

Definition qkv_init (m : mesh) (hidden_size head_dim num_heads : Z) (num_kv_heads : option Z)
    (group : string) (sequence_parallel gather_output bias skip_bias_add : bool)
    (hf_legs : dict string string) (prefix : string) : res linear :=
  tp_size ← mesh_group_size m group;
  let num_kv_heads := default num_heads num_kv_heads in
  '(replicas, effective_kv_heads) ← kv_replicas tp_size num_kv_heads;
  let q_size := num_heads * head_dim in
  let kv_size := effective_kv_heads * head_dim in
  l ← column_init m hidden_size (q_size + 2 * kv_size) group sequence_parallel gather_output bias
        skip_bias_add (Some [q_size; kv_size; kv_size]) prefix;
  q ← of_option ValueError (dget hf_legs "q"%string);
  k ← of_option ValueError (dget hf_legs "k"%string);
  v ← of_option ValueError (dget hf_legs "v"%string);
  if String.eqb prefix "" then Ok l
  else
    let parent := parent_of prefix in
    let keys suffix := [(hf_name parent q suffix, StrShard "q"); (hf_name parent k suffix, StrShard "k");
                        (hf_name parent v suffix, StrShard "v")] in
    Ok (with_plan l m (qkv_legs group replicas (ln_sizes l)) (keys ".weight"%string)
          (if bias then keys ".bias"%string else [])).

(** [RowParallelLinear.__init__] *)
Definition row_init (m : mesh) (in_features out_features : Z) (group : string)
    (sequence_parallel input_is_parallel reduce_results bias skip_bias_add : bool)
    (prefix : string) : res linear :=
  tp_size ← mesh_group_size m group;
  tp_rank ← mesh_group_rank m group;
  _ ← ensure (in_features mod tp_size =? 0) ValueError;
  let in_per_rank := in_features / tp_size in
  load ← (if String.eqb prefix "" then Ok None else l ← sharded 1 group m 1; Ok (Some l));
  let key name := if String.eqb prefix "" then [] else [((prefix +:+ name)%string, NoShard)] in
  Ok (Linear in_per_rank out_features [out_features] group sequence_parallel false input_is_parallel
        reduce_results tp_size tp_rank
        (Param (t_empty [out_features; in_per_rank]) (key ".weight"%string) load)
        (if bias then Some (Param (t_zeros [out_features]) (key ".bias"%string)
                              (if String.eqb prefix "" then None else Some replicated))
         else None)
        skip_bias_add).

(** ** Forward *)

(** The members of a group at a collective: all enter it, or none does;
    when only some do, the others wait forever. *)
Definition collective (enter : linear → bool) (op : list T → list T) (ls : list linear)
    (ys : list T) : option (list T) :=
  if forallb enter ls then Some (op ys)
  else if existsb enter ls then None else Some ys.

Definition last_dim (ts : list T) : nat :=
  match ts with t :: _ => pred (List.length (t_shape t)) | [] => O end.

Definition bias_data (l : linear) : option T := pm_data <$> ln_bias l.

(** [ColumnParallelLinear.forward], without the returned bias *)
Definition column_local (l : linear) (x : T) : T :=
  f_linear x (pm_data (ln_weight l)) (if ln_skip_bias_add l then None else bias_data l).

Definition column_forward (ls : list linear) (xs : list T) : option (list T) :=
  xs ← collective ln_sequence_parallel (c_all_gather 0) ls xs;
  let ys := zip_with column_local ls xs in
  collective (λ l, ln_gather_output l && (1 <? ln_tp_size l)) (c_all_gather (last_dim ys)) ls ys.

(** [RowParallelLinear.forward] *)
Definition row_input (l : linear) (x : T) : res T :=
  if negb (ln_input_is_parallel l) && (1 <? ln_tp_size l) then
    let d := pred (List.length (t_shape x)) in
    k ← shape_at x d;
    let shard := k / ln_tp_size l in
    t_narrow x d (ln_tp_rank l * shard) shard
  else Ok x.

Definition row_local (l : linear) (x : T) : res T :=
  x ← row_input l x;
  let add_bias := if (ln_tp_rank l =? 0) && negb (ln_skip_bias_add l) then bias_data l else None in
  Ok (f_linear x (pm_data (ln_weight l)) add_bias).

Definition row_forward (ls : list linear) (xs : list T) : res (option (list T)) :=
  ys ← rmap (λ lx, row_local lx.1 lx.2) (zip ls xs);
  let reduces l := ln_reduce_results l && (1 <? ln_tp_size l) in
  Ok (ys' ← collective (λ l, reduces l && ln_sequence_parallel l) (c_reduce_scatter 0) ls ys;
      collective (λ l, reduces l && negb (ln_sequence_parallel l)) c_all_reduce ls ys').

(** [DenseMLP.__init__]: the input and the output projection. *)
Definition child_prefix (prefix name : string) : string :=
  if String.eqb prefix "" then name else (prefix +:+ "." +:+ name)%string.

Definition mlp_init (m : mesh) (hidden_size intermediate_size : Z) (gated bias : bool)
    (group : string) (sequence_parallel : bool) (gated_hf_legs : string * string) (prefix : string)
    : res (linear * linear) :=
  if gated then
    gate_up ← merged_init m hidden_size [intermediate_size; intermediate_size] group
                sequence_parallel false bias false [gated_hf_legs.1; gated_hf_legs.2]
                (child_prefix prefix "gate_up_proj");
    down ← row_init m intermediate_size hidden_size group sequence_parallel true true bias false
             (child_prefix prefix "down_proj");
    Ok (gate_up, down)
  else
    fc1 ← column_init m hidden_size intermediate_size group sequence_parallel false bias false None
            (child_prefix prefix "fc1");
    fc2 ← row_init m intermediate_size hidden_size group sequence_parallel true true bias false
            (child_prefix prefix "fc2");
    Ok (fc1, fc2).

(** [DenseMLP.forward]: the gated or the plain form.  [act] is the selected
    activation kernel, [_act_and_mul] in the gated form. *)
Definition mlp_forward (act : T → T) (ins outs : list linear) (xs : list T) : res (option (list T)) :=
  match column_forward ins xs with
  | None => Ok None
  | Some hs => row_forward outs (act <$> hs)
  end.

(** ** Vocabulary *)

Definition pad_vocab_to (num_embeddings tp_size multiple : Z) : res Z :=
  _ ← ensure ((0 <? tp_size) && (0 <? multiple)) ValueError;
  let step := tp_size * multiple in
  Ok ((num_embeddings + step - 1) / step * step).

Record vocab_embedding : Type := VocabEmbedding {
  ve_num_embeddings : Z;
  ve_embedding_dim : Z;
  ve_padded : Z;
  ve_per_partition : Z;
  ve_shard_start : Z;
  ve_shard_end : Z;
  ve_group : string;
  ve_tp_size : Z;
  ve_weight : param;
}.

(** [VocabParallelEmbedding.__init__] with the trivial scale. *)
Definition embedding_init (m : mesh) (num_embeddings embedding_dim padding_multiple : Z)
    (group prefix : string) : res vocab_embedding :=
  _ ← ensure (0 <? num_embeddings) ValueError;
  _ ← ensure (0 <? embedding_dim) ValueError;
  tp_size ← mesh_group_size m group;
  tp_rank ← mesh_group_rank m group;
  padded ← pad_vocab_to num_embeddings tp_size padding_multiple;
  let per_partition := padded / tp_size in
  let raw_start := tp_rank * per_partition in
  let raw_end := raw_start + per_partition in
  Ok (VocabEmbedding num_embeddings embedding_dim padded per_partition raw_start
        (Z.max raw_start (Z.min raw_end num_embeddings)) group tp_size
        (if String.eqb prefix "" then Param (t_empty [per_partition; embedding_dim]) [] None
         else Param (t_empty [per_partition; embedding_dim]) [((prefix +:+ ".weight")%string, NoShard)]
                (Some (vocab group m)))).

(** [masked_embedding_lookup] as the torch row of the catalog computes it. *)
Definition masked_lookup (ids : list Z) (weight : T) (shard_start shard_end : Z) : T :=
  let mask := (λ i, (shard_start <=? i) && (i <? shard_end)) <$> ids in
  let local := (λ i, if (shard_start <=? i) && (i <? shard_end) then i - shard_start else 0) <$> ids in
  t_mask_rows (f_embedding local weight) mask.

(** [VocabParallelEmbedding.forward] on the members of a group *)
Definition embedding_forward (ls : list vocab_embedding) (idss : list (list Z)) : option (list T) :=
  let ys := zip_with (λ l ids, masked_lookup ids (pm_data (ve_weight l)) (ve_shard_start l) (ve_shard_end l)) ls idss in
  if forallb (λ l, 1 <? ve_tp_size l) ls then Some (c_all_reduce ys)
  else if existsb (λ l, 1 <? ve_tp_size l) ls then None else Some ys.

(** [ParallelLMHead]: its weight is its own, loaded like an embedding, or
    the tied parameter of one. *)
Definition lm_head_init (m : mesh) (embedding_dim num_embeddings padding_multiple : Z)
    (tied_weight : option param) (group prefix : string) : res (Z * Z * param) :=
  _ ← ensure (0 <? num_embeddings) ValueError;
  _ ← ensure (0 <? embedding_dim) ValueError;
  tp_size ← mesh_group_size m group;
  _ ← mesh_group_rank m group;
  padded ← pad_vocab_to num_embeddings tp_size padding_multiple;
  let per_partition := padded / tp_size in
  match tied_weight with
  | Some w =>
      _ ← ensure (bool_decide (t_shape (pm_data w) = [per_partition; embedding_dim])) ValueError;
      Ok (tp_size, per_partition, w)
  | None =>
      Ok (tp_size, per_partition,
          if String.eqb prefix "" then Param (t_empty [per_partition; embedding_dim]) [] None
          else Param (t_empty [per_partition; embedding_dim]) [((prefix +:+ ".weight")%string, NoShard)]
                 (Some (vocab group m)))
  end.

Definition lm_head_forward (gather_output : bool) (heads : list (Z * Z * param)) (xs : list T)
    : option (list T) :=
  let ys := zip_with (λ (h : Z * Z * param) x, f_linear x (pm_data h.2) None) heads xs in
  let enter (h : Z * Z * param) := gather_output && (1 <? h.1.1) in
  if forallb enter heads then Some (c_all_gather (last_dim ys) ys)
  else if existsb enter heads then None else Some ys.
End layers.
