(* ===== verification/LinearProps.v ===== *)
(** * Properties of the tensor-parallel layers

    What the loading plans put into the parameters of each rank, and that a
    group of ranks computes what one unsharded layer computes on the
    checkpoint tensors, in exact arithmetic. *)

From S2P Require Import Prelude PyStr Types Parallel ProcessGroups Tensor Weights Linear.
Open Scope Z_scope.

(** ** Loading the legs of a fused parameter *)

(** One leg of a fused parameter with the checkpoint tensor it comes from. *)
Record source (T : Type) : Type := Source {
  so_shard : shard_id;
  so_size : Z;
  so_replication : Z;
  so_tensor : T;
}.
Arguments Source {T}.
Arguments so_shard {T}. Arguments so_size {T}. Arguments so_replication {T}. Arguments so_tensor {T}.

Section legs.
Context {E T : Type} `{TorchLaws E T}.
Context (m : mesh) (g : string) (n r : Z) (Hm : member m g n r).
Context (legs : dict shard_id leg) (srcs : list (source T)) (rest : list Z).

Notation sizes := (so_size <$> srcs).

(** The legs lie one after the other in the order of the sources. *)
Definition legs_laid : Prop :=
  ∀ i s, srcs !! i = Some s →
    0 <= so_size s ∧ 1 <= so_replication s ∧ n mod so_replication s = 0 ∧
    dget legs (so_shard s) = Some (Leg (part_start sizes i) (so_size s) 0 g (so_replication s)) ∧
    t_shape (so_tensor s) = so_size s * (n / so_replication s) :: rest.

Context (Hlegs : legs_laid).

Lemma legs_nonneg : Forall (λ s, 0 <= s) sizes.
Proof. apply Forall_fmap, Forall_lookup. intros i s Hi. by destruct (Hlegs i s Hi). Qed.

(** The row of its source that a row of the parameter comes from. *)
Definition leg_row (s : source T) (o : Z) : Z := r / so_replication s * so_size s + o.

Definition fused_param (p : param (T:=T)) : Prop :=
  pm_loader p = Some (fused 0 legs m) ∧ t_shape (pm_data p) = zsum sizes :: rest.

Lemma load_leg p i s :
  fused_param p → srcs !! i = Some s →
  ∃ p', load_param p (so_tensor s) (so_shard s) = (p', Ok ()) ∧ fused_param p' ∧
    ∀ c ix, in_shape (zsum sizes :: rest) (c :: ix) →
      t_get (pm_data p') (c :: ix) =
        match locate sizes c with
        | Some (j, o) => if Nat.eqb j i then t_get (so_tensor s) (leg_row s o :: ix)
                         else t_get (pm_data p) (c :: ix)
        | None => t_get (pm_data p) (c :: ix)
        end.
Proof.
  intros [Hl Hsh] Hi. destruct (Hlegs i s Hi) as (Hs & Hrf & Hmod & Hleg & Hts).
  assert (sizes !! i = Some (so_size s)) as Hi' by by rewrite list_lookup_fmap, Hi.
  pose proof (part_start_bound _ _ _ legs_nonneg Hi') as [Hlo Hhi].
  destruct (fused_loads m g n r Hm 0 legs (so_shard s)
    (Leg (part_start sizes i) (so_size s) 0 g (so_replication s)) (pm_data p) (so_tensor s) (zsum sizes))
    as (d' & Hrun & Hd's & Hd'g); simpl; try done.
  { by rewrite Hsh. }
  { by rewrite Hts. }
  { by rewrite Hsh, Hts. }
  unfold load_param. rewrite Hl, Hrun. eexists. split; [done|]. split; [split; simpl; congruence|].
  intros c ix Hix. simpl. rewrite Hd'g by by rewrite Hsh. unfold in_view, coord. simpl.
  assert (0 <= c < zsum sizes) as Hc by (by inversion Hix).
  destruct (locate_total _ _ Hc) as [[j o] Hloc]. rewrite Hloc.
  apply locate_spec in Hloc as (sj & Hj & Ho & Hcj); [|apply legs_nonneg|lia].
  destruct (Nat.eqb_spec j i) as [->|Hne].
  - rewrite Hi' in Hj. injection Hj as <-.
    rewrite (proj2 (Z.leb_le _ _)), (proj2 (Z.ltb_lt _ _)) by lia. simpl.
    unfold leg_row, shift. simpl. do 2 f_equal. lia.
  - destruct (Z.leb_spec (part_start sizes i) c), (Z.ltb_spec c (part_start sizes i + so_size s)); try done.
    exfalso. apply Hne.
    assert (locate sizes c = Some (i, c - part_start sizes i)) as Hx.
    { apply locate_spec; [apply legs_nonneg|lia|]. exists (so_size s). split; [done|]. lia. }
    assert (locate sizes c = Some (j, o)) as Hy.
    { apply locate_spec; [apply legs_nonneg|lia|]. by exists sj. }
    congruence.
Qed.

(** In whatever order the legs arrive, a row of the parameter is its leg's
    row once the leg has been loaded, and untouched before. *)
Lemma load_legs order p :
  fused_param p → Forall (λ i, i < List.length srcs)%nat order →
  ∃ p', load_params p (omap (λ i, (λ s, (so_tensor s, so_shard s)) <$> srcs !! i) order) = (p', Ok ()) ∧
    fused_param p' ∧
    ∀ c ix, in_shape (zsum sizes :: rest) (c :: ix) →
      t_get (pm_data p') (c :: ix) =
        match locate sizes c with
        | Some (j, o) =>
            match srcs !! j with
            | Some s => if bool_decide (j ∈ order) then t_get (so_tensor s) (leg_row s o :: ix)
                        else t_get (pm_data p) (c :: ix)
            | None => t_get (pm_data p) (c :: ix)
            end
        | None => t_get (pm_data p) (c :: ix)
        end.
Proof.
  revert p; induction order as [|i order IH]; intros p Hp Hord.
  { exists p. simpl. split; [done|]. split; [done|]. intros. repeat case_match; try done. }
  inversion Hord as [|? ? Hi Hord']; subst. apply lookup_lt_is_Some in Hi as [s Hi].
  destruct (load_leg p i s Hp Hi) as (p1 & Hrun & Hp1 & Hg1).
  destruct (IH p1 Hp1 Hord') as (p' & Hrun' & Hp' & Hg').
  exists p'. split; [|split; [done|]].
  - simpl. rewrite Hi. simpl. rewrite Hrun. exact Hrun'.
  - intros c ix Hix. rewrite (Hg' _ _ Hix). pose proof (Hg1 _ _ Hix) as H1'.
    destruct (locate sizes c) as [[j o]|] eqn:Hloc; [|done].
    destruct (srcs !! j) as [sj|] eqn:Hj; [|rewrite H1'; case_match; [|done]].
    + case_bool_decide as Hin.
      * rewrite bool_decide_true by by right. done.
      * rewrite H1'. destruct (Nat.eqb_spec j i) as [->|Hne].
        -- rewrite bool_decide_true by by left. congruence.
        -- rewrite bool_decide_false; [done|]. by intros [?|?]%elem_of_cons.
    + apply Nat.eqb_eq in H3 as ->. congruence.
Qed.
End legs.

(** ** A layer on a rank *)

(** One output of the product of a row with a weight, plus a bias. *)
Definition lin_of {E} `{Elements E} (x : Z → E) (w : Z → Z → E) (b : option (Z → E))
    (k : nat) (i : Z) : E :=
  let dot := esum (λ j, e_mul (x j) (w i j)) 0 k in
  match b with Some b => e_add dot (b i) | None => dot end.

Section layer.
Context {E T : Type} `{TorchLaws E T}.
Context (t_empty : list Z → T) (t_empty_shape : ∀ sh, t_shape (t_empty sh) = sh).
Context (m : mesh) (g : string) (n r : Z) (Hm : member m g n r).

(** The weight and the bias a layer holds. *)
Definition holds (s k : Z) (w : Z → Z → E) (b : option (Z → E)) (l : linear (T:=T)) : Prop :=
  t_shape (pm_data (ln_weight l)) = [s; k] ∧
  (∀ i j, 0 <= i < s → 0 <= j < k → t_get (pm_data (ln_weight l)) [i; j] = w i j) ∧
  match b with
  | Some b => ∃ b', bias_data l = Some b' ∧ t_shape b' = [s] ∧ ∀ i, 0 <= i < s → t_get b' [i] = b i
  | None => bias_data l = None
  end.

(** Its place in the group and its collectives. *)
Definition placed (sp gather parallel_input reduce : bool) (l : linear (T:=T)) : Prop :=
  ln_tp_size l = n ∧ ln_tp_rank l = r ∧ ln_sequence_parallel l = sp ∧ ln_gather_output l = gather ∧
  ln_input_is_parallel l = parallel_input ∧ ln_reduce_results l = reduce ∧ ln_skip_bias_add l = false.

(** A layer after the loader has gone through the checkpoint tensors of its
    weight and its bias. *)
Definition load_linear (l : linear) (ws bs : list (T * shard_id)) : res linear :=
  let '(w, rw) := load_params (ln_weight l) ws in
  _ ← rw;
  b ← match ln_bias l with
      | Some b => let '(b', rb) := load_params b bs in _ ← rb; Ok (Some b')
      | None => Ok None
      end;
  Ok (Linear (ln_in l) (ln_out l) (ln_sizes l) (ln_group l) (ln_sequence_parallel l)
        (ln_gather_output l) (ln_input_is_parallel l) (ln_reduce_results l) (ln_tp_size l)
        (ln_tp_rank l) w b (ln_skip_bias_add l)).

(** Loading the parameters of a layer one by one. *)
Lemma load_linear_ok l ws bs w' b' s k w b sp ga pi re :
  load_params (ln_weight l) ws = (w', Ok ()) →
  t_shape (pm_data w') = [s; k] →
  (∀ i j, 0 <= i < s → 0 <= j < k → t_get (pm_data w') [i; j] = w i j) →
  match ln_bias l, b with
  | Some lb, Some bf => load_params lb bs = (b', Ok ()) ∧ t_shape (pm_data b') = [s] ∧
                        ∀ i, 0 <= i < s → t_get (pm_data b') [i] = bf i
  | None, None => True
  | _, _ => False
  end →
  placed sp ga pi re l →
  ∃ l', load_linear l ws bs = Ok l' ∧ holds s k w b l' ∧ placed sp ga pi re l'.
Proof.
  intros Hw Hs Hg Hb Hp. unfold load_linear. rewrite Hw. simpl.
  destruct (ln_bias l) as [lb|] eqn:Elb, b as [bf|]; try done.
  - destruct Hb as (Hb & Hbs & Hbg). rewrite Hb. simpl. eexists. split; [done|].
    split; [|exact Hp]. split; [done|]. split; [done|]. by exists (pm_data b').
  - simpl. eexists. split; [done|]. split; [|exact Hp]. by split.
Qed.

Lemma load_one p src sid d' :
  (∀ load, pm_loader p = Some load → load (pm_data p) src sid = (d', Ok ())) →
  (pm_loader p = None → replicated (pm_data p) src sid = (d', Ok ())) →
  ∃ p', load_params p [(src, sid)] = (p', Ok ()) ∧ pm_data p' = d'.
Proof.
  intros Hl Hn. simpl. unfold load_param. destruct (pm_loader p) as [load|].
  - rewrite (Hl load eq_refl). by eexists.
  - rewrite (Hn eq_refl). by eexists.
Qed.
End layer.

(** The division of a dimension over the members of a group. *)
Ltac part_of I n s :=
  assert (I = s * n) as -> by (subst s; rewrite Z.mul_comm; apply Z.div_exact; lia).

Section columns.
Context {E T : Type} `{TorchLaws E T}.
Context (t_empty : list Z → T) (t_empty_shape : ∀ sh, t_shape (t_empty sh) = sh).
Context (m : mesh) (g : string) (n r : Z) (Hm : member m g n r).

Lemma column_init_ok k sizes sp ga bias prefix :
  sizes ≠ [] → Forall (λ s, 0 < s ∧ s mod n = 0) sizes →
  ∃ l load, column_init t_empty m k (zsum sizes) g sp ga bias false (Some sizes) prefix = Ok l ∧
    placed n r sp ga true true l ∧ ln_sizes l = (λ s, s / n) <$> sizes ∧
    t_shape (pm_data (ln_weight l)) = [zsum ((λ s, s / n) <$> sizes); k] ∧
    (prefix ≠ ""%string → pm_loader (ln_weight l) = Some load ∧
       (if Nat.eqb (List.length sizes) 1 then sharded 0 g m 1 else packed_sharded sizes g m) = Ok load) ∧
    match ln_bias l with
    | Some b => bias = true ∧ t_shape (pm_data b) = [zsum ((λ s, s / n) <$> sizes)] ∧
                (prefix ≠ ""%string → pm_loader b = Some load)
    | None => bias = false
    end.
Proof.
  intros Hne Hs. pose proof Hm as (Hn & Hr & Hrn). unfold column_init. rewrite Hn, Hr. simpl.
  rewrite Z.eqb_refl. simpl.
  assert (rmap (λ s, _ ← ensure (s mod n =? 0) ValueError; Ok (s / n)) sizes = Ok ((λ s, s / n) <$> sizes)) as ->.
  { apply rmap_ok. clear Hne. induction Hs as [|s l [_ Hs] ? IH]; constructor; [|done].
    by rewrite Hs. }
  simpl. rewrite length_fmap.
  assert (∃ load, (if Nat.eqb (List.length sizes) 1 then sharded 0 g m 1 else packed_sharded sizes g m) = Ok load)
    as [load Hload].
  { case_match.
    - unfold sharded. simpl. rewrite Hn. simpl. rewrite Z.mod_1_r. simpl. by eexists.
    - unfold packed_sharded. rewrite Hn, Hr. simpl. rewrite bool_decide_false by done. simpl.
      replace (forallb _ sizes) with true; [by eexists|].
      clear -Hs. symmetry. induction Hs as [|x l [Hx Hxm] ? IH]; simpl; [done|].
      by rewrite (proj2 (Z.ltb_lt _ _)), Hxm, IH by done. }
  unfold weight_loader, loaded in *. rewrite !Hload.
  destruct (String.eqb_spec prefix "") as [->|Hpre]; simpl.
  - eexists _, load. split; [done|]. split; [done|]. simpl. split; [done|]. split; [by rewrite t_empty_shape|].
    split; [done|]. destruct bias; [|done]. simpl. split; [done|]. split; [|done].
    apply (proj1 (zeros_spec _ [])).
  - eexists _, load. split; [done|]. split; [done|]. simpl. split; [done|]. split; [by rewrite t_empty_shape|].
    split; [done|]. destruct bias; [|done]. simpl. split; [done|]. split; [|done].
    apply (proj1 (zeros_spec _ [])).
Qed.

Lemma merged_legs_get sizes i0 off i s :
  sizes !! i = Some s →
  dget (merged_legs g i0 off sizes) (IntShard (i0 + Z.of_nat i)) =
    Some (Leg (off + part_start sizes i) s 0 g 1).
Proof.
  revert i0 off i; induction sizes as [|s0 sizes IH]; intros i0 off i Hi; [done|]. simpl.
  destruct i as [|i]; simpl in Hi.
  - injection Hi as <-. rewrite decide_True by (f_equal; lia). unfold part_start, zsum. simpl.
    do 2 f_equal. lia.
  - rewrite decide_False by (intros [= ?]; lia).
    replace (i0 + Z.of_nat (S i)) with (i0 + 1 + Z.of_nat i) by lia. rewrite (IH _ _ _ Hi).
    unfold part_start, zsum. simpl. do 2 f_equal. lia.
Qed.

(** A single column-parallel weight. *)
Lemma column_built O k s sp ga prefix (W : T) (B : option T) :
  prefix ≠ ""%string → 0 < s → O = s * n → 0 <= k →
  t_shape W = [O; k] → match B with Some B => t_shape B = [O] | None => True end →
  ∃ l0 l, column_init t_empty m k O g sp ga (bool_decide (is_Some B)) false None prefix = Ok l0 ∧
    load_linear l0 [(W, NoShard)] (match B with Some B => [(B, NoShard)] | None => [] end) = Ok l ∧
    holds s k (λ i j, t_get W [r * s + i; j]) ((λ B i, t_get B [r * s + i]) <$> B) l ∧
    placed n r sp ga true true l.
Proof.
  intros Hpre Hs HO Hk HW HB. pose proof Hm as (_ & _ & Hrn).
  destruct (column_init_ok k [O] sp ga (bool_decide (is_Some B)) prefix)
    as (l0 & load & Hl0 & Hp & Hsz & Hsh & Hload & Hbias); [done| |].
  { repeat constructor; [nia|]. rewrite HO. apply Z.mod_mul. lia. }
  assert (O / n = s) as HOn by (rewrite HO; apply Z.div_mul; lia).
  assert (zsum ((λ s, s / n) <$> [O]) = s) as Hsum by (unfold zsum; simpl; lia).
  assert (zsum [O] = O) as HzO by (unfold zsum; simpl; lia).
  rewrite Hsum in Hsh, Hbias. rewrite HzO in Hl0. destruct (Hload Hpre) as [Hlw Hls]. simpl in Hls.
  assert (∀ (p src : T) rest, t_shape src = O :: rest → t_shape p = s :: rest →
    ∃ p', load p src NoShard = (p', Ok ()) ∧ slice_of src 0 (r * s) s p') as Hsharded.
  { intros p src rest Hsrc Hps.
    destruct (sharded_loads m g n r Hm 0 1 s p src NoShard) as (load' & p' & Hls' & Hrun & Hsl);
      [lia|apply Z.mod_1_r|lia|by rewrite Hsrc, Z.div_1_r, HO, Z.mul_comm|by rewrite Hsrc, Hps|].
    rewrite Hls in Hls'. injection Hls' as <-. rewrite Z.div_1_r in Hsl. by exists p'. }
  destruct (Hsharded (pm_data (ln_weight l0)) W [k]) as (w' & Hw & Hws & Hwg); [done..|].
  rewrite HW in Hws. simpl in Hws.
  destruct (load_one (ln_weight l0) W NoShard w') as (pw & Hpw & Hpwd); [by intros ? [= <-]%(eq_trans (eq_sym Hlw))| |].
  { intros Hno. rewrite Hno in Hlw. done. }
  assert (∃ pb, match ln_bias l0, (λ B i, t_get B [r * s + i]) <$> B with
    | Some lb, Some bf => load_params lb (match B with Some B => [(B, NoShard)] | None => [] end) = (pb, Ok ()) ∧
        t_shape (pm_data pb) = [s] ∧ ∀ i, 0 <= i < s → t_get (pm_data pb) [i] = bf i
    | None, None => True | _, _ => False end) as [pb Hpb].
  { destruct (ln_bias l0) as [lb|]; destruct B as [B|]; simpl in *; try (destruct Hbias; done); try (by exists (ln_weight l0)).
    - destruct Hbias as (_ & Hlbs & Hlb). specialize (Hlb Hpre).
      destruct (Hsharded (pm_data lb) B []) as (b' & Hb' & Hbs & Hbg); [done..|].
      destruct (load_one lb B NoShard b') as (pb & Hpb & Hpbd); [by intros ? [= <-]%(eq_trans (eq_sym Hlb))| |].
      { intros Hno. by rewrite Hno in Hlb. }
      exists pb. rewrite HB in Hbs. simpl in Hbs. split; [exact Hpb|]. rewrite Hpbd. split; [done|].
      intros i Hi. rewrite Hbg; [done|]. rewrite Hbs. by apply in_shape_1. }
  destruct (load_linear_ok n r l0 [(W, NoShard)] (match B with Some B => [(B, NoShard)] | None => [] end)
    pw pb s k (λ i j, t_get W [r * s + i; j]) ((λ B i, t_get B [r * s + i]) <$> B) sp ga true true)
    as (l & Hl & Hh & Hpl); [done|by rewrite Hpwd| |exact Hpb|done|].
  { intros i j Hi Hj. rewrite Hpwd, Hwg; [done|]. rewrite Hws. by apply in_shape_2. }
  exists l0, l. split; [|done]. rewrite <- Hl0. unfold column_init. simpl. done.
Qed.

(** The element of a fused parameter at row [c] and further indices [ix]. *)
Definition leg_elem (srcs : list (source T)) (c : Z) (ix : list Z) : E :=
  match locate (so_size <$> srcs) c with
  | Some (i, o) => match srcs !! i with
                   | Some s => t_get (so_tensor s) (leg_row r s o :: ix)
                   | None => e_zero
                   end
  | None => e_zero
  end.

Definition in_order (order : list nat) (srcs : list (source T)) : list (T * shard_id) :=
  omap (λ i, (λ s, (so_tensor s, so_shard s)) <$> srcs !! i) order.

(** A fused parameter all of whose legs have been loaded, in any order. *)
Lemma fused_loaded legs srcs rest order p :
  legs_laid g n legs srcs rest → fused_param m legs srcs rest p →
  Forall (λ i, i < List.length srcs)%nat order → (∀ i, i < List.length srcs → i ∈ order)%nat →
  ∃ p', load_params p (in_order order srcs) = (p', Ok ()) ∧
    t_shape (pm_data p') = zsum (so_size <$> srcs) :: rest ∧
    ∀ c ix, in_shape (zsum (so_size <$> srcs) :: rest) (c :: ix) →
      t_get (pm_data p') (c :: ix) = leg_elem srcs c ix.
Proof.
  intros Hlaid Hp Hord Hall.
  destruct (load_legs m g n r Hm legs srcs rest Hlaid order p Hp Hord) as (p' & Hrun & [_ Hp's] & Hg).
  exists p'. split; [exact Hrun|]. split; [done|]. intros c ix Hix. rewrite (Hg _ _ Hix). unfold leg_elem.
  assert (0 <= c < zsum (so_size <$> srcs)) as Hc by by inversion Hix.
  destruct (locate_total _ _ Hc) as [[i o] Hloc]. rewrite Hloc.
  apply locate_spec in Hloc as (s & Hi & _); [|by eapply legs_nonneg|lia].
  rewrite list_lookup_fmap in Hi. destruct (srcs !! i) as [si|] eqn:Hsi; [|done].
  rewrite bool_decide_true; [done|]. by apply Hall, lookup_lt_is_Some_1.
Qed.

(** A layer with a fused plan. *)
Lemma fused_built l0 legs wsrcs (bsrcs : option (list (source T))) wkeys bkeys order k sp ga :
  placed n r sp ga true true l0 →
  legs_laid g n legs wsrcs [k] →
  t_shape (pm_data (ln_weight l0)) = [zsum (so_size <$> wsrcs); k] →
  match ln_bias l0, bsrcs with
  | Some b, Some bsrcs => legs_laid g n legs bsrcs [] ∧ so_size <$> bsrcs = so_size <$> wsrcs ∧
                          t_shape (pm_data b) = [zsum (so_size <$> wsrcs)]
  | None, None => True
  | _, _ => False
  end →
  Forall (λ i, i < List.length wsrcs)%nat order → (∀ i, i < List.length wsrcs → i ∈ order)%nat →
  ∃ l, load_linear (with_plan l0 m legs wkeys bkeys) (in_order order wsrcs)
         (default [] (in_order order <$> bsrcs)) = Ok l ∧
    holds (zsum (so_size <$> wsrcs)) k (λ c j, leg_elem wsrcs c [j])
      ((λ bs c, leg_elem bs c []) <$> bsrcs) l ∧
    placed n r sp ga true true l.
Proof.
  intros Hpl Hw Hws Hb Hord Hall.
  destruct (fused_loaded legs wsrcs [k] order (ln_weight (with_plan l0 m legs wkeys bkeys)))
    as (w' & Hrun & Hw's & Hw'g); [done|by split|done..|].
  assert (∃ b', match ln_bias (with_plan l0 m legs wkeys bkeys), (λ bs c, leg_elem bs c []) <$> bsrcs with
    | Some lb, Some bf => load_params lb (default [] (in_order order <$> bsrcs)) = (b', Ok ()) ∧
        t_shape (pm_data b') = [zsum (so_size <$> wsrcs)] ∧
        ∀ i, 0 <= i < zsum (so_size <$> wsrcs) → t_get (pm_data b') [i] = bf i
    | None, None => True | _, _ => False end) as [b' Hb'].
  { unfold with_plan. simpl. destruct (ln_bias l0) as [lb|], bsrcs as [bs|]; simpl in *; try done.
    { destruct Hb as (Hlaid & Hsz & Hbs).
      assert (List.length bs = List.length wsrcs) as Hlen by (by rewrite <- (length_fmap so_size bs), Hsz, length_fmap).
      rewrite <- Hsz in Hbs |- *.
      destruct (fused_loaded legs bs [] order (Param (pm_data lb) bkeys (Some (fused 0 legs m))))
        as (b' & Hrunb & Hb's & Hb'g); [done|by split|by rewrite Hlen|by rewrite Hlen|].
      exists b'. split; [done|]. split; [done|]. intros i Hi. apply Hb'g. by apply in_shape_1. } }
  destruct (load_linear_ok n r (with_plan l0 m legs wkeys bkeys) (in_order order wsrcs)
    (default [] (in_order order <$> bsrcs)) w' b' (zsum (so_size <$> wsrcs)) k
    (λ c j, leg_elem wsrcs c [j]) ((λ bs c, leg_elem bs c []) <$> bsrcs) sp ga true true)
    as (l & Hl & Hh & Hp); [done|done| |exact Hb'|exact Hpl|by exists l].
  intros i j Hi Hj. apply Hw'g. by apply in_shape_2.
Qed.

(** The sources of a merged layer: one checkpoint tensor per part. *)
Definition merged_sources (sizes : list Z) (ts : list T) : list (source T) :=
  imap (λ i st, Source (IntShard (Z.of_nat i)) st.1 1 st.2) (zip sizes ts).

Lemma merged_sources_sizes sizes ts :
  List.length ts = List.length sizes → so_size <$> merged_sources sizes ts = sizes.
Proof.
  intros Hlen. apply list_eq. intros i. unfold merged_sources.
  rewrite list_lookup_fmap, list_lookup_imap, lookup_zip_with. destruct (sizes !! i) as [s|] eqn:Hi; [|done].
  simpl. destruct (lookup_lt_is_Some_2 ts i) as [t ->]; [|done].
  rewrite Hlen. by eapply lookup_lt_Some.
Qed.

Lemma merged_laid (sizes : list Z) (ts : list T) rest :
  Forall (λ s, 0 < s) sizes → Forall2 (λ s t, t_shape t = s * n :: rest) sizes ts →
  legs_laid g n (merged_legs g 0 0 sizes) (merged_sources sizes ts) rest.
Proof.
  intros Hs Hts i s Hi. pose proof (Forall2_length _ _ _ Hts) as Hlen.
  unfold merged_sources in Hi. rewrite list_lookup_imap in Hi.
  destruct (zip sizes ts !! i) as [[sz t]|] eqn:Hz; [|done]. injection Hi as <-. simpl.
  rewrite lookup_zip_with in Hz. apply bind_Some in Hz as (sz' & Hsz & Hz).
  apply bind_Some in Hz as (t' & Ht & [= -> ->]).
  pose proof (proj1 (Forall_lookup _ _) Hs _ _ Hsz). simpl in H3.
  pose proof (Forall2_lookup_lr _ _ _ _ _ _ Hts Hsz Ht) as Hsh. simpl in Hsh.
  split; [lia|]. split; [lia|]. split; [apply Z.mod_1_r|]. split; [|by rewrite Z.div_1_r].
  rewrite <- (Z.add_0_l (Z.of_nat i)) at 1. rewrite (merged_legs_get _ _ _ _ _ Hsz), merged_sources_sizes by lia.
  done.
Qed.

Lemma merged_built sizes k sp ga names prefix (ws : list T) (bs : option (list T)) order :
  prefix ≠ ""%string → List.length names = List.length sizes → sizes ≠ [] →
  Forall (λ s, 0 < s) sizes →
  Forall2 (λ s t, t_shape t = [s * n; k]) sizes ws →
  match bs with Some bs => Forall2 (λ s t, t_shape t = [s * n]) sizes bs | None => True end →
  Forall (λ i, i < List.length sizes)%nat order → (∀ i, i < List.length sizes → i ∈ order)%nat →
  ∃ l0 l, merged_init t_empty m k ((λ s, s * n) <$> sizes) g sp ga (bool_decide (is_Some bs)) false
            names prefix = Ok l0 ∧
    load_linear l0 (in_order order (merged_sources sizes ws))
      (default [] (in_order order ∘ merged_sources sizes <$> bs)) = Ok l ∧
    holds (zsum sizes) k (λ c j, leg_elem (merged_sources sizes ws) c [j])
      ((λ bs c, leg_elem (merged_sources sizes bs) c []) <$> bs) l ∧
    placed n r sp ga true true l.
Proof.
  intros Hpre Hnames Hne Hs Hws Hbs Hord Hall. pose proof Hm as (_ & _ & Hrn).
  assert ((λ s, s / n) <$> ((λ s, s * n) <$> sizes) = sizes) as Hdiv.
  { rewrite <- list_fmap_compose. clear -Hrn. induction sizes as [|s l IH]; [done|].
    rewrite fmap_cons. f_equal; [simpl; apply Z.div_mul; lia|done]. }
  destruct (column_init_ok k ((λ s, s * n) <$> sizes) sp ga (bool_decide (is_Some bs)) prefix)
    as (l0 & load & Hl0 & Hp & Hsz & Hsh & _ & Hbias).
  { by destruct sizes. }
  { apply Forall_fmap. eapply Forall_impl; [exact Hs|]. simpl. intros s Hs'. split; [nia|]. apply Z.mod_mul. lia. }
  rewrite Hdiv in *. unfold merged_init. rewrite Hl0. simpl. rewrite Hsz, Hnames, Nat.eqb_refl. simpl.
  rewrite (proj2 (String.eqb_neq _ _) Hpre). eexists. 
  assert (List.length ws = List.length sizes) as Hlw by (symmetry; by eapply Forall2_length).
  edestruct (fused_built l0 (merged_legs g 0 0 sizes) (merged_sources sizes ws) (merged_sources sizes <$> bs))
    as (l & Hl & Hh & Hpl); [exact Hp|by apply merged_laid|by rewrite merged_sources_sizes|..];
    [| | |rewrite merged_sources_sizes in Hh by done; exists l; split; [reflexivity|]; split; [|split; [|exact Hpl]]].
  all: rewrite ?merged_sources_sizes by done.
  - destruct (ln_bias l0), bs as [bs|]; simpl in *; try done; try by destruct Hbias.
    destruct Hbias as (_ & Hb & _). pose proof (Forall2_length _ _ _ Hbs).
    split; [by apply merged_laid|]. by rewrite merged_sources_sizes.
  - by rewrite <- (length_fmap so_size), merged_sources_sizes.
  - by rewrite <- (length_fmap so_size (merged_sources _ _)), merged_sources_sizes.
  - rewrite <- Hl. f_equal. by destruct bs.
  - by destruct bs.
Qed.

(** A row-parallel weight: the columns of this rank, and the whole bias. *)
Lemma row_built I s o sp prefix (W : T) (B : option T) :
  prefix ≠ ""%string → 0 < s → I = s * n →
  t_shape W = [o; I] → match B with Some B => t_shape B = [o] | None => True end →
  ∃ l0 l, row_init t_empty m I o g sp true true (bool_decide (is_Some B)) false prefix = Ok l0 ∧
    load_linear l0 [(W, NoShard)] (match B with Some B => [(B, NoShard)] | None => [] end) = Ok l ∧
    holds o s (λ i j, t_get W [i; r * s + j]) ((λ B i, t_get B [i]) <$> B) l ∧
    placed n r sp false true true l.
Proof.
  intros Hpre Hs HI HW HB. pose proof Hm as (Hn & Hr & Hrn).
  assert (I / n = s) as HIn by (rewrite HI; apply Z.div_mul; lia).
  unfold row_init. rewrite Hn, Hr. simpl. rewrite HI, Z.mod_mul, <- HI by lia. simpl.
  rewrite (proj2 (String.eqb_neq _ _) Hpre), HIn. simpl.
  destruct (sharded_loads m g n r Hm 1 1 s (t_empty [o; s]) W NoShard)
    as (load & w' & Hload & Hrun & Hws & Hwg);
    [lia|apply Z.mod_1_r|lia|by rewrite HW, Z.div_1_r, HI, Z.mul_comm|by rewrite HW, t_empty_shape|].
  rewrite Z.div_1_r in Hwg. rewrite HW in Hws. simpl in Hws.
  rewrite Hload. simpl. eexists.
  assert (∃ b', match B with
    | Some B => replicated (t_zeros [o]) B NoShard = (b', Ok ()) ∧ b' ≡ B | None => True end) as [b' Hb'].
  { destruct B as [B|]; [|by exists w']. apply replicated_loads. rewrite HB. apply (proj1 (zeros_spec _ [])). }
  edestruct (λ l0, load_linear_ok n r l0 [(W, NoShard)] (match B with Some B => [(B, NoShard)] | None => [] end))
    as (l & Hl & Hh & Hpl); [..|exists l; split; [reflexivity|]; split; [exact Hl|]; split; [exact Hh|exact Hpl]].
  - simpl. unfold load_param. simpl. rewrite Hrun. reflexivity.
  - exact Hws.
  - simpl. intros i j Hi Hj. rewrite Hwg by (rewrite Hws; by apply in_shape_2). done.
  - simpl. destruct B as [B|]; simpl; [|done]. destruct Hb' as [Hb' [Hbs Hbg]].
    unfold load_param. simpl. rewrite Hb'. simpl. split; [reflexivity|]. simpl. rewrite Hbs, HB.
    split; [done|]. intros i Hi. rewrite Hbg; [done|]. rewrite Hbs, HB. by apply in_shape_1.
  - by repeat split.
Qed.
End columns.

(** ** A group of ranks *)

Lemma collective_all {T} (enter : linear (T:=T) → bool) op ls ys :
  Forall (λ l, enter l = true) ls → collective enter op ls ys = Some (op ys).
Proof.
  intros Hall. unfold collective. replace (forallb enter ls) with true; [done|].
  induction Hall as [|l ls Hl ? IH]; simpl; [done|]. by rewrite Hl.
Qed.

Lemma collective_none {T} (enter : linear (T:=T) → bool) op ls ys :
  ls ≠ [] → Forall (λ l, enter l = false) ls → collective enter op ls ys = Some ys.
Proof.
  intros Hne Hall. unfold collective.
  replace (forallb enter ls) with false by (destruct Hall as [|? ? Hx]; [done|]; simpl; by rewrite Hx).
  replace (existsb enter ls) with false; [done|].
  clear Hne. induction Hall as [|l ls Hl ? IH]; simpl; [done|]. by rewrite Hl.
Qed.

Section forward.
Context {E T : Type} `{TorchLaws E T}.
Context (n : nat) (Hn : (0 < n)%nat) (sp : bool) (lp gp : list Z).

(** With sequence parallelism the ranks hold consecutive token blocks, the
    parts of dimension 0 of the global activation; otherwise each holds the
    whole activation. *)
Definition token_blocks : Prop :=
  if sp then ∃ t rest, 0 <= t ∧ lp = t :: rest ∧ gp = Z.of_nat n * t :: rest else gp = lp.

Definition glob (q : nat) (ix : list Z) : list Z :=
  if sp then shift 0 (Z.of_nat q * default 0 (head lp)) ix else ix.

Context (Hblocks : token_blocks).

(** The rank's part of an activation given by its elements. *)
Definition holds_tokens (k : Z) (f : list Z → Z → E) (q : nat) (x : T) : Prop :=
  t_shape x = lp ++ [k] ∧
  ∀ ix j, in_shape lp ix → 0 <= j < k → t_get x (ix ++ [j]) = f (glob q ix) j.

Lemma shift_app0 k i (ix l : list Z) : shift 0 k ((i :: ix) ++ l) = shift 0 k (i :: ix) ++ l.
Proof. done. Qed.

(** A global index is the index of some rank's token. *)
Lemma glob_surjective ix : in_shape gp ix → sp = true →
  ∃ q jx, (q < n)%nat ∧ in_shape lp jx ∧ ix = glob q jx.
Proof.
  intros Hix Hsp. unfold token_blocks in Hblocks. unfold glob. rewrite Hsp in *.
  destruct Hblocks as (t & rest & Ht & -> & ->). inversion Hix as [|? i ? ix' Hi Hix']; subst.
  assert (0 < t) as Ht' by nia.
  exists (Z.to_nat (i / t)), (i mod t :: ix'). simpl. split.
  - apply Nat2Z.inj_lt. rewrite Z2Nat.id by (by apply Z.div_pos; lia).
    apply Z.div_lt_upper_bound; lia.
  - split; [constructor; [by apply Z.mod_pos_bound|done]|].
    rewrite Z2Nat.id by (by apply Z.div_pos; lia). unfold shift. simpl. f_equal.
    pose proof (Z.div_mod i t). lia.
Qed.

(** The input of the layers, gathered when they are sequence parallel. *)
Lemma gathered_input k f ls xs :
  List.length ls = n → List.length xs = n → Forall (λ l, ln_sequence_parallel l = sp) ls →
  (∀ q x, xs !! q = Some x → holds_tokens k f q x) →
  ∃ xs', collective ln_sequence_parallel (c_all_gather 0) ls xs = Some xs' ∧
    ∀ q, (q < n)%nat → ∃ x, xs' !! q = Some x ∧ t_shape x = gp ++ [k] ∧
      ∀ ix j, in_shape gp ix → 0 <= j < k → t_get x (ix ++ [j]) = f ix j.
Proof.
  intros Hls Hxs Hsp Hx. pose proof Hblocks as Hb. unfold token_blocks in Hb. destruct sp eqn:Esp.
  - rewrite collective_all by done. eexists. split; [done|]. intros q Hq.
    destruct Hb as (t & rest & Ht & Hlp & Hgp).
    destruct (all_gather_spec 0 xs (lp ++ [k]) t q) as (out & Hout & Hos & Hog).
    + by intros ->; simpl in Hxs; lia.
    + intros x' Hin. apply list_elem_of_lookup in Hin as [q' Hq']. by destruct (Hx _ _ Hq').
    + by rewrite Hlp.
    + by rewrite Hxs.
    + exists out. split; [done|]. rewrite Hos, Hxs, Hlp, Hgp. split; [done|].
      intros ix j Hix Hj. rewrite <- Hgp in Hix.
      destruct (glob_surjective ix Hix Esp) as (q' & jx & Hq' & Hjx & ->).
      destruct (lookup_lt_is_Some_2 xs q') as [x' Hx']; [by rewrite Hxs|].
      destruct (Hx _ _ Hx') as [_ Hg]. rewrite <- Hg by done.
      assert (in_shape (lp ++ [k]) (jx ++ [j])) as Hin by by apply in_shape_snoc.
      rewrite <- (Hog _ _ _ Hx' Hin). f_equal. unfold glob. rewrite Esp, Hlp. simpl.
      rewrite Hlp in Hjx. inversion Hjx; subst. done.
  - rewrite collective_none; [|by intros ->; simpl in Hls; lia|done].
    exists xs. split; [done|]. intros q Hq. destruct (lookup_lt_is_Some_2 xs q) as [x Hxq]; [by rewrite Hxs|].
    exists x. split; [done|]. rewrite Hb.
    destruct (Hx _ _ Hxq) as [? Hg]. split; [done|]. intros. rewrite Hg by done. unfold glob. by rewrite Esp.
Qed.

(** One rank's product. *)
Lemma local_product l (x : T) s k w b f sh :
  holds s (Z.of_nat k) w b l → t_shape x = sh ++ [Z.of_nat k] →
  (∀ ix j, in_shape sh ix → 0 <= j < Z.of_nat k → t_get x (ix ++ [j]) = f ix j) →
  ∀ b', (b' = bias_data l ∨ b' = None) →
  let y := f_linear x (pm_data (ln_weight l)) b' in
  t_shape y = sh ++ [s] ∧
  ∀ ix i, in_shape sh ix → 0 <= i < s →
    t_get y (ix ++ [i]) = lin_of (f ix) w (if b' then b else None) k i.
Proof.
  intros (Hws & Hwg & Hb) Hx Hf b' Hb'. simpl.
  assert (∀ b'', b' = Some b'' → t_shape b'' = [s]) as Hb's.
  { intros b'' ->. destruct Hb' as [Hb'|]; [|done]. destruct b; [|congruence].
    destruct Hb as (b0 & Hb0 & Hb0s & _). congruence. }
  destruct (linear_spec x (pm_data (ln_weight l)) b' sh k s [] 0 Hx Hws Hb's) as [Hys _].
  split; [done|]. intros ix i Hix Hi.
  destruct (linear_spec x (pm_data (ln_weight l)) b' sh k s ix i Hx Hws Hb's) as [_ Hyg].
  rewrite Hyg by done. unfold linear_at, lin_of.
  assert (esum (λ j, e_mul (t_get x (ix ++ [j])) (t_get (pm_data (ln_weight l)) [i; j])) 0 k
          = esum (λ j, e_mul (f ix j) (w i j)) 0 k) as ->.
  { apply esum_ext. intros j Hj. rewrite Hf, Hwg by (done || lia). done. }
  destruct b' as [b''|]; simpl; [|done]. destruct Hb' as [Hb'|]; [|done].
  destruct b as [bf|]; [|congruence]. destruct Hb as (b0 & Hb0 & _ & Hb0g).
  assert (b'' = b0) as -> by congruence. by rewrite Hb0g.
Qed.

(** The reduction of the ranks' partial products is the whole product: each
    rank has the columns of its block and rank 0 alone adds the bias. *)
Lemma partial_products (x : Z → E) (w : Z → Z → E) b (s : nat) i :
  esum (λ q, lin_of (λ j, x (q * Z.of_nat s + j)) (λ i j, w i (q * Z.of_nat s + j))
               (if q =? 0 then b else None) s i) 0 n = lin_of x w b (n * s) i.
Proof.
  unfold lin_of. rewrite esum_blocks.
  assert (∀ q, esum (λ j, e_mul (x (q * Z.of_nat s + j)) (w i (q * Z.of_nat s + j))) 0 s
             = esum (λ j, e_mul (x j) (w i j)) (q * Z.of_nat s) s) as Hdot.
  { intros q. pose proof (esum_shift (λ j, e_mul (x j) (w i j)) (q * Z.of_nat s) 0 s) as Hsh.
    rewrite Z.add_0_l in Hsh. rewrite Hsh. apply esum_ext. intros j _. by rewrite (Z.add_comm j). }
  destruct b as [b|].
  - rewrite (esum_ext _ (λ q, e_add (esum (λ j, e_mul (x j) (w i j)) (q * Z.of_nat s) s)
                                    (if q =? 0 then b i else e_zero))).
    + rewrite esum_add. f_equal. rewrite (esum_one _ _ _ 0); [done|lia|].
      intros j _ Hj. by rewrite (proj2 (Z.eqb_neq _ _) Hj).
    + intros q _. destruct (q =? 0); rewrite Hdot; [done|by rewrite e_add_0_r].
  - apply esum_ext. intros q _. destruct (q =? 0); apply Hdot.
Qed.

Lemma rank_rows {A B} (f : A → B → T) (ls : list A) (xs : list B) q l x :
  ls !! q = Some l → xs !! q = Some x → zip_with f ls xs !! q = Some (f l x).
Proof. intros Hl Hx. by rewrite lookup_zip_with, Hl, Hx. Qed.

(** Row-parallel layers: every rank gets its part of the whole product. *)
Lemma row_forward_exact (outs : list linear) hs o (s : nat) f w b :
  List.length outs = n → List.length hs = n →
  (∀ q l, outs !! q = Some l →
     holds o (Z.of_nat s) (λ i j, w i (Z.of_nat q * Z.of_nat s + j)) b l ∧
     placed (Z.of_nat n) (Z.of_nat q) sp false true true l) →
  (∀ q h, hs !! q = Some h → t_shape h = gp ++ [Z.of_nat s] ∧
     ∀ ix j, in_shape gp ix → 0 <= j < Z.of_nat s →
       t_get h (ix ++ [j]) = f ix (Z.of_nat q * Z.of_nat s + j)) →
  ∃ ys, row_forward outs hs = Ok (Some ys) ∧
    ∀ q, (q < n)%nat → ∃ y, ys !! q = Some y ∧
      holds_tokens o (λ ix i, lin_of (f ix) w b (n * s) i) q y.
Proof.
  intros Hls Hhs Houts Hh. pose proof Hblocks as Hb. unfold token_blocks in Hb.
  set (part l h := f_linear h (pm_data (ln_weight l)) (if ln_tp_rank l =? 0 then bias_data l else None)).
  assert (rmap (λ lx : linear * T, row_local lx.1 lx.2) (zip outs hs) = Ok (zip_with part outs hs)) as Hmap.
  { apply rmap_ok. apply Forall2_same_length_lookup. split.
    { by rewrite length_zip_with, length_zip_with. }
    intros q lx y Hlx Hy. rewrite lookup_zip_with in Hlx. rewrite lookup_zip_with in Hy.
    destruct (outs !! q) as [l|] eqn:Hl; [|done]. destruct (hs !! q) as [h|] eqn:Hhq; [|done].
    simpl in *. injection Hlx as <-. injection Hy as <-. unfold row_local, row_input. simpl.
    destruct (Houts _ _ Hl) as [_ (Hsz & Hrk & _ & _ & Hip & _ & Hsk)]. rewrite Hip, Hsk. simpl.
    by rewrite andb_true_r. }
  unfold row_forward. rewrite Hmap. simpl. set (ps := zip_with part outs hs).
  assert (List.length ps = n) as Hps by (unfold ps; rewrite length_zip_with; lia).
  assert (∀ q p, ps !! q = Some p → t_shape p = gp ++ [o] ∧ ∀ ix i, in_shape gp ix → 0 <= i < o →
    t_get p (ix ++ [i]) = lin_of (λ j, f ix (Z.of_nat q * Z.of_nat s + j))
       (λ i j, w i (Z.of_nat q * Z.of_nat s + j)) (if Z.of_nat q =? 0 then b else None) s i) as Hpart.
  { intros q p Hp. unfold ps in Hp. rewrite lookup_zip_with in Hp.
    destruct (outs !! q) as [l|] eqn:Hl; [|done]. destruct (hs !! q) as [h|] eqn:Hhq; [|done].
    simpl in Hp. injection Hp as <-. destruct (Houts _ _ Hl) as [Hw (_ & Hrk & _)].
    destruct (Hh _ _ Hhq) as [Hs Hg]. unfold part. rewrite Hrk.
    destruct (local_product l h o s _ b (λ ix j, f ix (Z.of_nat q * Z.of_nat s + j)) gp Hw Hs Hg
      (if Z.of_nat q =? 0 then bias_data l else None)) as [Hys Hyg]; [by destruct (_ =? 0); [left|right]|].
    split; [done|]. intros ix i Hix Hi. rewrite Hyg by done. destruct (Z.of_nat q =? 0); [|done].
    destruct Hw as (_ & _ & Hw). destruct b as [b|]; [|by rewrite Hw].
    by destruct Hw as (? & -> & _). }
  assert (Forall (λ l, ln_sequence_parallel l = sp ∧ ln_reduce_results l = true ∧
    ln_tp_size l = Z.of_nat n) outs) as Hconf.
  { apply Forall_lookup. intros q l Hl. destruct (Houts _ _ Hl) as [_ (? & _ & ? & _ & _ & ? & _)]. done. }
  pose proof (partial_products) as Hsum.
  destruct (decide (n = 1)%nat) as [Hn1|Hn1].
  - (* one rank: nothing to reduce *)
    rewrite collective_none; [|by intros ->; simpl in Hls; lia|].
    2:{ eapply Forall_impl; [exact Hconf|]. intros l (_ & -> & ->). rewrite Hn1. done. }
    simpl. rewrite collective_none; [|by intros ->; simpl in Hls; lia|].
    2:{ eapply Forall_impl; [exact Hconf|]. intros l (_ & -> & ->). rewrite Hn1. done. }
    exists ps. split; [done|]. intros q Hq. assert (q = 0%nat) as -> by lia.
    destruct (lookup_lt_is_Some_2 ps 0) as [p Hp]; [lia|]. exists p. split; [done|].
    destruct (Hpart _ _ Hp) as [Hs Hg].
    assert (gp = lp ∧ ∀ ix, glob 0 ix = ix) as [Hgl Hid].
    { unfold glob. destruct sp; [|done]. destruct Hb as (t & rest & _ & -> & ->). rewrite Hn1.
      split; [f_equal; lia|]. intros ix. apply shift_0. }
    split; [by rewrite <- Hgl|]. intros ix i Hix Hi. rewrite Hg, Hid by (done || by rewrite Hgl).
    rewrite <- Hsum, Hn1. simpl. by rewrite e_add_0_r.
  - destruct sp eqn:Esp.
    + rewrite collective_all.
      2:{ eapply Forall_impl; [exact Hconf|]. intros l (-> & -> & ->). simpl. rewrite (proj2 (Z.ltb_lt _ _)); [done|lia]. }
      simpl. rewrite collective_none; [|by intros ->; simpl in Hls; lia|].
      2:{ eapply Forall_impl; [exact Hconf|]. intros l (-> & -> & ->). simpl. by rewrite andb_false_r. }
      destruct Hb as (t & rest & Ht & Hlp & Hgp).
      eexists. split; [done|]. intros q Hq.
      destruct (reduce_scatter_spec 0 ps (gp ++ [o]) t q) as (out & Hout & Hos & Hog).
      * intros Hnil. rewrite Hnil in Hps. simpl in Hps. lia.
      * intros p Hp. apply list_elem_of_lookup in Hp as [q' Hp]. by destruct (Hpart _ _ Hp).
      * by rewrite Hgp, Hps.
      * done.
      * lia.
      * exists out. split; [done|]. unfold holds_tokens, glob. rewrite Hos, Esp, Hlp, Hgp. split; [done|].
        intros ix i Hix Hi. rewrite Hog by (rewrite Hgp; exact (in_shape_snoc (t :: rest) o ix i Hix Hi)). rewrite Hps, <- Hsum.
        apply esum_ext. intros q' Hq'. destruct (lookup_lt_is_Some_2 ps (Z.to_nat q')) as [p Hp]; [lia|].
        rewrite Hp. simpl. destruct (Hpart _ _ Hp) as [_ Hg].
        rewrite Z2Nat.id in Hg by lia. inversion Hix as [|? x ? ix' Hx Hix']; subst.
        rewrite shift_app0, Hg; [done| |done]. unfold shift. simpl. rewrite Hgp. constructor; [nia|done].
    + rewrite collective_none; [|by intros ->; simpl in Hls; lia|].
      2:{ eapply Forall_impl; [exact Hconf|]. intros l (-> & -> & ->). by rewrite andb_false_r. }
      simpl. rewrite collective_all.
      2:{ eapply Forall_impl; [exact Hconf|]. intros l (-> & -> & ->). simpl. rewrite (proj2 (Z.ltb_lt _ _)); [done|lia]. }
      eexists. split; [done|]. intros q Hq.
      destruct (all_reduce_spec ps (gp ++ [o]) q) as (out & Hout & Hos & Hog).
      * intros Hnil. rewrite Hnil in Hps. simpl in Hps. lia.
      * intros p Hp. apply list_elem_of_lookup in Hp as [q' Hp]. by destruct (Hpart _ _ Hp).
      * lia.
      * exists out. split; [done|]. unfold holds_tokens, glob. rewrite Hos, Esp, Hb. split; [done|].
        intros ix i Hix Hi. rewrite Hog by (rewrite Hb; by apply in_shape_snoc). rewrite Hps, <- Hsum.
        apply esum_ext. intros q' Hq'. destruct (lookup_lt_is_Some_2 ps (Z.to_nat q')) as [p Hp]; [lia|].
        rewrite Hp. simpl. destruct (Hpart _ _ Hp) as [_ Hg]. rewrite Z2Nat.id in Hg by lia.
        rewrite Hg; [done|by rewrite Hb|done].
Qed.
End forward.

Lemma rmap_exists {A B} (f : A → res B) (P : A → B → Prop) l :
  (∀ x, x ∈ l → ∃ y, f x = Ok y ∧ P x y) → ∃ k, rmap f l = Ok k ∧ Forall2 P l k.
Proof.
  induction l as [|x l IH]; intros Hl; [by exists []|].
  destruct (Hl x) as (y & Hy & HP); [by left|].
  destruct IH as (k & Hk & HPk); [intros z Hz; apply Hl; by right|].
  exists (y :: k). simpl. rewrite Hy. simpl. rewrite Hk. split; [done|by constructor].
Qed.

(** What every rank builds, all of them build. *)
Lemma ranks_build {B} (ms : list mesh) g n (build : mesh → res B) (P : nat → B → Prop) :
  (∀ q m, ms !! q = Some m → member m g (Z.of_nat n) (Z.of_nat q)) →
  (∀ m q, member m g (Z.of_nat n) (Z.of_nat q) → ∃ b, build m = Ok b ∧ P q b) →
  ∃ bs, rmap build ms = Ok bs ∧ List.length bs = List.length ms ∧ ∀ q b, bs !! q = Some b → P q b.
Proof.
  intros Hms Hbuild.
  destruct (rmap_exists build (λ m b, ∀ q, ms !! q = Some m → P q b) ms) as (bs & Hbs & Hspec).
  { intros m Hin. apply list_elem_of_lookup in Hin as [q Hq]. pose proof (Hms _ _ Hq) as Hmem.
    destruct (Hbuild m q Hmem) as (b & Hb & HP). exists b. split; [done|]. intros q' Hq'.
    destruct Hmem as (_ & Hr & _). destruct (Hms _ _ Hq') as (_ & Hr' & _).
    rewrite Hr in Hr'. injection Hr' as Hqq. by apply Nat2Z.inj in Hqq as <-. }
  exists bs. split; [done|]. split; [symmetry; by eapply Forall2_length|]. intros q b Hq.
  destruct (Forall2_lookup_r _ _ _ _ _ Hspec Hq) as (m & Hm & Hok). by apply Hok.
Qed.

(** ** The dense MLP *)

Section mlp.
Context {E T : Type} `{TorchLaws E T}.
Context (t_empty : list Z → T) (t_empty_shape : ∀ sh, t_shape (t_empty sh) = sh).
Context (ms : list mesh) (g : string) (n : nat) (Hn : (0 < n)%nat) (Hlen : List.length ms = n).
Context (Hms : ∀ q m, ms !! q = Some m → member m g (Z.of_nat n) (Z.of_nat q)).
Context (sp : bool) (lp gp : list Z) (Hblocks : token_blocks n sp lp gp).

Definition mat (W : T) (i j : Z) : E := t_get W [i; j].
Definition vec (B : T) (i : Z) : E := t_get B [i].

Definition bias_shape (B : option T) (o : Z) : Prop :=
  match B with Some B => t_shape B = [o] | None => True end.
Definition bias_source (B : option T) : list (T * shard_id) :=
  match B with Some B => [(B, NoShard)] | None => [] end.

(** What the fused activation kernel computes: [act(gate, up)] on the two
    halves of the last dimension. *)
Definition gated_kernel (gact : E → E → E) (act : T → T) : Prop :=
  ∀ t pre h, 0 <= h → t_shape t = pre ++ [h + h] →
    t_shape (act t) = pre ++ [h] ∧
    ∀ ix j, in_shape pre ix → 0 <= j < h →
      t_get (act t) (ix ++ [j]) = gact (t_get t (ix ++ [j])) (t_get t (ix ++ [h + j])).

Definition plain_kernel (f : E → E) (act : T → T) : Prop :=
  ∀ t pre h, t_shape t = pre ++ [h] →
    t_shape (act t) = pre ++ [h] ∧
    ∀ ix j, in_shape pre ix → 0 <= j < h → t_get (act t) (ix ++ [j]) = f (t_get t (ix ++ [j])).

(** The unsharded block on one token. *)
Definition gated_ref (gact : E → E → E) (Wg Wu Wd : T) (bg bu bd : option T) (k I : nat) (x : Z → E) : Z → E :=
  lin_of (λ j, gact (lin_of x (mat Wg) (vec <$> bg) k j) (lin_of x (mat Wu) (vec <$> bu) k j))
    (mat Wd) (vec <$> bd) I.

Definition plain_ref (f : E → E) (W1 W2 : T) (b1 b2 : option T) (k I : nat) (x : Z → E) : Z → E :=
  lin_of (λ j, f (lin_of x (mat W1) (vec <$> b1) k j)) (mat W2) (vec <$> b2) I.

(** A rank's block, constructed and loaded from the checkpoint tensors; the
    gate and the up projection arrive in either order. *)
Definition build_gated (k I : Z) (names : string * string) (prefix : string)
    (Wg Wu Wd : T) (bgu : option (T * T)) (bd : option T) (order : list nat) (m : mesh)
    : res (linear (T:=T) * linear (T:=T)) :=
  layers ← mlp_init t_empty m k I true (bool_decide (is_Some bd)) g sp names prefix;
  i ← load_linear layers.1
        (in_order order [Source (IntShard 0) (I / Z.of_nat n) 1 Wg; Source (IntShard 1) (I / Z.of_nat n) 1 Wu])
        (match bgu with
         | Some (bg, bu) => in_order order [Source (IntShard 0) (I / Z.of_nat n) 1 bg;
                                            Source (IntShard 1) (I / Z.of_nat n) 1 bu]
         | None => []
         end);
  o ← load_linear layers.2 [(Wd, NoShard)] (bias_source bd);
  Ok (i, o).

Definition build_plain (k I : Z) (prefix : string) (W1 W2 : T) (b1 b2 : option T) (m : mesh)
    : res (linear (T:=T) * linear (T:=T)) :=
  layers ← mlp_init t_empty m k I false (bool_decide (is_Some b2)) g sp (""%string, ""%string) prefix;
  i ← load_linear layers.1 [(W1, NoShard)] (bias_source b1);
  o ← load_linear layers.2 [(W2, NoShard)] (bias_source b2);
  Ok (i, o).

Lemma child_prefix_nonempty prefix name : name ≠ ""%string → child_prefix prefix name ≠ ""%string.
Proof. intros Hname. unfold child_prefix. destruct (String.eqb prefix ""); [done|]. by destruct prefix. Qed.

(** From ranks whose layers hold their parts to the output of the group: the
    input product of rank [q] goes through the activation, and the products
    of the second layer are reduced. *)
Lemma mlp_group layers xs k s o hw hb act f w b X :
  List.length layers = n → List.length xs = n →
  (∀ q io, layers !! q = Some io →
     holds hw (Z.of_nat k) (hb q).1 (hb q).2 io.1 ∧
     placed (Z.of_nat n) (Z.of_nat q) sp false true true io.1 ∧
     holds o (Z.of_nat s) (λ i j, w i (Z.of_nat q * Z.of_nat s + j)) b io.2 ∧
     placed (Z.of_nat n) (Z.of_nat q) sp false true true io.2) →
  (∀ q x, xs !! q = Some x → holds_tokens sp lp (Z.of_nat k) X q x) →
  (∀ q t, (q < n)%nat → t_shape t = gp ++ [hw] →
     (∀ ix i, in_shape gp ix → 0 <= i < hw → t_get t (ix ++ [i]) = lin_of (X ix) (hb q).1 (hb q).2 k i) →
     t_shape (act t) = gp ++ [Z.of_nat s] ∧
     ∀ ix j, in_shape gp ix → 0 <= j < Z.of_nat s →
       t_get (act t) (ix ++ [j]) = f ix (Z.of_nat q * Z.of_nat s + j)) →
  ∃ ys, mlp_forward act layers.*1 layers.*2 xs = Ok (Some ys) ∧
    ∀ q, (q < n)%nat → ∃ y, ys !! q = Some y ∧ holds_tokens sp lp o (λ ix i, lin_of (f ix) w b (n * s) i) q y.
Proof.
  intros Hll Hxs Hlayers HX Hact.
  assert (Forall (λ l : linear, ln_sequence_parallel l = sp ∧ ln_gather_output l = false) layers.*1) as Hconf.
  { apply Forall_fmap, Forall_lookup. intros q io Hq.
    destruct (Hlayers _ _ Hq) as (_ & (_ & _ & ? & ? & _) & _). done. }
  destruct (gathered_input n Hn sp lp gp Hblocks (Z.of_nat k) X layers.*1 xs) as (xs' & Hxs' & Hg);
    [by rewrite length_fmap|done|eapply Forall_impl; [exact Hconf|by intros l []]|done|].
  unfold mlp_forward, column_forward. rewrite Hxs'. simpl.
  rewrite collective_none.
  2:{ intros Hnil. apply (f_equal List.length) in Hnil. rewrite length_fmap in Hnil. simpl in Hnil. lia. }
  2:{ eapply Forall_impl; [exact Hconf|]. by intros l [_ ->]. }
  destruct (row_forward_exact n Hn sp lp gp Hblocks layers.*2 (act <$> zip_with column_local layers.*1 xs')
    o s f w b) as (ys & Hys & Hyg); [by rewrite length_fmap| | | |by exists ys].
  - rewrite length_fmap, length_zip_with, length_fmap, Hll.
    assert (¬ (List.length xs' < n)%nat); [|lia]. intros Hlt.
    destruct (Hg (List.length xs') Hlt) as (x & Hx & _). apply lookup_lt_Some in Hx. lia.
  - intros q l Hl. rewrite list_lookup_fmap in Hl. destruct (layers !! q) as [io|] eqn:Hq; [|done].
    injection Hl as <-. by destruct (Hlayers _ _ Hq) as (_ & _ & ? & ?).
  - intros q h Hh. rewrite list_lookup_fmap, lookup_zip_with, list_lookup_fmap in Hh.
    destruct (layers !! q) as [io|] eqn:Hq; [|done]. simpl in Hh.
    pose proof (lookup_lt_Some _ _ _ Hq) as Hqn. rewrite Hll in Hqn.
    destruct (Hg q Hqn) as (x & Hx & Hxs0 & Hxg). rewrite Hx in Hh. simpl in Hh. injection Hh as <-.
    destruct (Hlayers _ _ Hq) as (Hw & (_ & _ & _ & _ & _ & _ & Hsk) & _).
    destruct (local_product io.1 x hw k _ _ X gp Hw Hxs0 Hxg (bias_data io.1)) as [Hs Hgt]; [by left|].
    unfold column_local. rewrite Hsk. apply Hact; [done|done|].
    intros ix i Hix Hi. rewrite Hgt by done. f_equal.
    destruct Hw as (_ & _ & Hb). destruct (hb q).2; [by destruct Hb as (? & -> & _)|by rewrite Hb].
Qed.

(** The two halves of a merged gate/up parameter. *)
Lemma merged_rows (q : Z) (s : Z) (Wg Wu : T) ix c :
  0 < s → 0 <= c < s →
  leg_elem q (merged_sources [s; s] [Wg; Wu]) c ix = t_get Wg (q * s + c :: ix) ∧
  leg_elem q (merged_sources [s; s] [Wg; Wu]) (s + c) ix = t_get Wu (q * s + c :: ix).
Proof.
  intros Hs Hc. unfold leg_elem, merged_sources. simpl. split.
  - rewrite (proj2 (Z.ltb_lt c s)) by lia. unfold leg_row. simpl. by rewrite Z.div_1_r.
  - rewrite (proj2 (Z.ltb_ge (s + c) s)), (Z.add_comm s c), Z.add_simpl_r, (proj2 (Z.ltb_lt c s)) by lia.
    unfold leg_row. simpl. by rewrite Z.div_1_r.
Qed.

(** One rank of a gated block. *)
Definition gated_holds (s : nat) (Wg Wu : T) (bgu : option (T * T)) (q : nat)
    : (Z → Z → E) * option (Z → E) :=
  (λ c j, leg_elem (Z.of_nat q) (merged_sources [Z.of_nat s; Z.of_nat s] [Wg; Wu]) c [j],
   (λ b c, leg_elem (Z.of_nat q) (merged_sources [Z.of_nat s; Z.of_nat s] [b.1; b.2]) c []) <$> bgu).

Definition rank_ok hw (k s : nat) (o : Z) (hb : nat → (Z → Z → E) * option (Z → E)) (w : Z → Z → E)
    (b : option (Z → E)) (q : nat) (io : linear (T:=T) * linear (T:=T)) : Prop :=
  holds hw (Z.of_nat k) (hb q).1 (hb q).2 io.1 ∧
  placed (Z.of_nat n) (Z.of_nat q) sp false true true io.1 ∧
  holds o (Z.of_nat s) (λ i j, w i (Z.of_nat q * Z.of_nat s + j)) b io.2 ∧
  placed (Z.of_nat n) (Z.of_nat q) sp false true true io.2.

Lemma gated_rank m q k s o names prefix (Wg Wu Wd : T) bgu bd order :
  member m g (Z.of_nat n) (Z.of_nat q) →
  (0 < s)%nat → order ≡ₚ [0; 1]%nat → (is_Some bgu ↔ is_Some bd) →
  t_shape Wg = [Z.of_nat (n * s); Z.of_nat k] → t_shape Wu = [Z.of_nat (n * s); Z.of_nat k] →
  t_shape Wd = [o; Z.of_nat (n * s)] → Z.of_nat k = o →
  bias_shape (fst <$> bgu) (Z.of_nat (n * s)) → bias_shape (snd <$> bgu) (Z.of_nat (n * s)) →
  bias_shape bd o →
  ∃ io, build_gated (Z.of_nat k) (Z.of_nat (n * s)) names prefix Wg Wu Wd bgu bd order m = Ok io ∧
    rank_ok (Z.of_nat s + Z.of_nat s) k s o (gated_holds s Wg Wu bgu) (mat Wd) (vec <$> bd) q io.
Proof.
  intros Hmem Hs Hord Hbias HWg HWu HWd Hko Hbg Hbu Hbd.
  assert (Z.of_nat (n * s) = Z.of_nat s * Z.of_nat n) as HI by lia. rewrite HI in *.
  assert (Forall (λ i, i < 2)%nat order) as Hlt.
  { rewrite Hord. repeat constructor; lia. }
  assert (∀ i, (i < 2)%nat → i ∈ order) as Hin.
  { intros i Hi. rewrite Hord. destruct i as [|[|?]]; [by left|by right; left|lia]. }
  destruct (merged_built t_empty t_empty_shape m g (Z.of_nat n) (Z.of_nat q) Hmem
    [Z.of_nat s; Z.of_nat s] (Z.of_nat k) sp false [names.1; names.2]
    (child_prefix prefix "gate_up_proj") [Wg; Wu] ((λ b : T * T, [b.1; b.2]) <$> bgu) order)
    as (l0 & l & Hl0 & Hl & Hh & Hp);
    [by apply child_prefix_nonempty|done|done|repeat constructor; lia|by repeat constructor| |done|done|].
  { destruct bgu as [[bg bu]|]; [|done]. by repeat constructor. }
  destruct (row_built t_empty t_empty_shape m g (Z.of_nat n) (Z.of_nat q) Hmem
    (Z.of_nat s * Z.of_nat n) (Z.of_nat s) o sp (child_prefix prefix "down_proj") Wd bd)
    as (r0 & rl & Hr0 & Hr & Hrh & Hrp);
    [by apply child_prefix_nonempty|lia|done|done|done|].
  exists (l, rl). split.
  - unfold build_gated, mlp_init.
    assert (bool_decide (is_Some ((λ b : T * T, [b.1; b.2]) <$> bgu)) = bool_decide (is_Some bd)) as Hbd'.
    { apply bool_decide_ext. rewrite fmap_is_Some. done. }
    rewrite Hbd' in Hl0. simpl in Hl0. rewrite Hl0. simpl. rewrite <- Hko in Hr0. rewrite Hr0. simpl.
    rewrite Z.div_mul by lia. unfold merged_sources in Hl. simpl in Hl.
    assert (∀ bs, bs = default [] (in_order order ∘ (λ ts, imap (λ (i : nat) (st : Z * T),
        Source (IntShard (Z.of_nat i)) st.1 1 st.2) (zip [Z.of_nat s; Z.of_nat s] ts))
      <$> ((λ b : T * T, [b.1; b.2]) <$> bgu)) →
      load_linear l0 (in_order order [Source (IntShard 0) (Z.of_nat s) 1 Wg; Source (IntShard 1) (Z.of_nat s) 1 Wu]) bs = Ok l)
      as Hload by (intros ? ->; exact Hl).
    rewrite Hload by by destruct bgu as [[bg bu]|]. simpl. unfold bias_source. rewrite Hr. done.
  - split; [|split; [exact Hp|split; [exact Hrh|exact Hrp]]].
    replace (Z.of_nat s + Z.of_nat s) with (zsum [Z.of_nat s; Z.of_nat s]) by (unfold zsum; simpl; lia).
    simpl. destruct bgu as [[bg bu]|]; exact Hh.
Qed.

(** C3: A gated feed-forward block split over the ranks of a group computes
    what the unsharded block computes: every rank constructs its layers and
    loads its shards of the checkpoint tensors without error, in whatever
    order the gate and the up projection arrive, and after one forward pass
    holds its part of [down(act(gate x, up x))], for any number of ranks and
    with or without sequence parallelism. *)
Theorem gated_mlp_exact (k s : nat) (o : Z) names prefix (Wg Wu Wd : T) bgu bd order gact act X xs :
  (0 < s)%nat → order ≡ₚ [0; 1]%nat → (is_Some bgu ↔ is_Some bd) →
  t_shape Wg = [Z.of_nat (n * s); Z.of_nat k] → t_shape Wu = [Z.of_nat (n * s); Z.of_nat k] →
  t_shape Wd = [o; Z.of_nat (n * s)] → Z.of_nat k = o →
  bias_shape (fst <$> bgu) (Z.of_nat (n * s)) → bias_shape (snd <$> bgu) (Z.of_nat (n * s)) →
  bias_shape bd o → gated_kernel gact act →
  List.length xs = n → (∀ q x, xs !! q = Some x → holds_tokens sp lp (Z.of_nat k) X q x) →
  ∃ layers ys,
    rmap (build_gated (Z.of_nat k) (Z.of_nat (n * s)) names prefix Wg Wu Wd bgu bd order) ms = Ok layers ∧
    mlp_forward act layers.*1 layers.*2 xs = Ok (Some ys) ∧
    ∀ q, (q < n)%nat → ∃ y, ys !! q = Some y ∧
      holds_tokens sp lp o (λ ix, gated_ref gact Wg Wu Wd (fst <$> bgu) (snd <$> bgu) bd k (n * s) (X ix)) q y.
Proof.
  intros Hs Hord Hbias HWg HWu HWd Hko Hbg Hbu Hbd Hact Hxs HX.
  destruct (ranks_build ms g n (build_gated (Z.of_nat k) (Z.of_nat (n * s)) names prefix Wg Wu Wd bgu bd order)
    (rank_ok (Z.of_nat s + Z.of_nat s) k s o (gated_holds s Wg Wu bgu) (mat Wd) (vec <$> bd)) Hms)
    as (layers & Hlayers & Hll & Hok); [by intros; apply gated_rank|].
  destruct (mlp_group layers xs k s o (Z.of_nat s + Z.of_nat s) (gated_holds s Wg Wu bgu) act
    (λ ix j, gact (lin_of (X ix) (mat Wg) (vec <$> (fst <$> bgu)) k j)
                  (lin_of (X ix) (mat Wu) (vec <$> (snd <$> bgu)) k j)) (mat Wd) (vec <$> bd) X)
    as (ys & Hys & Hyg); [lia|done|exact Hok|done| |by exists layers, ys].
  intros q t Hq Hts Htg. destruct (Hact t gp (Z.of_nat s)) as [Has Hag]; [lia|done|].
  split; [done|]. intros ix j Hix Hj. rewrite Hag, !Htg by (done || lia).
  assert (∀ (c : Z) off b' W, 0 <= c < Z.of_nat s →
    (∀ j, (gated_holds s Wg Wu bgu q).1 (off + c) j = mat W (Z.of_nat q * Z.of_nat s + c) j) →
    match (gated_holds s Wg Wu bgu q).2, b' with
    | Some f, Some b => f (off + c) = vec b (Z.of_nat q * Z.of_nat s + c) | None, None => True | _, _ => False end →
    lin_of (X ix) (gated_holds s Wg Wu bgu q).1 (gated_holds s Wg Wu bgu q).2 k (off + c)
    = lin_of (X ix) (mat W) (vec <$> b') k (Z.of_nat q * Z.of_nat s + c)) as Hlin.
  { intros c off b' W Hc HW Hb. unfold lin_of.
    rewrite (esum_ext _ (λ j, e_mul (X ix j) (mat W (Z.of_nat q * Z.of_nat s + c) j))).
    - destruct (gated_holds s Wg Wu bgu q).2, b'; simpl; try done. by rewrite Hb.
    - intros j' _. by rewrite HW. }
  f_equal.
  - rewrite <- (Z.add_0_l j) at 1. apply Hlin; [done| |].
    + intros j'. simpl. apply (merged_rows (Z.of_nat q) (Z.of_nat s)); lia.
    + destruct bgu as [[bg bu]|]; simpl; [|done].
      apply (merged_rows (Z.of_nat q) (Z.of_nat s) bg bu []); lia.
  - apply Hlin; [done| |].
    + intros j'. simpl. apply (merged_rows (Z.of_nat q) (Z.of_nat s)); lia.
    + destruct bgu as [[bg bu]|]; simpl; [|done].
      apply (merged_rows (Z.of_nat q) (Z.of_nat s) bg bu []); lia.
Qed.

(** The plain feed-forward block: [fc2(act(fc1 x))] split over the ranks
    is the unsharded block, each rank's layers constructed and loaded without
    error. *)
Theorem plain_mlp_exact (k s : nat) (o : Z) prefix (W1 W2 : T) b1 b2 f act X xs :
  (0 < s)%nat → (is_Some b1 ↔ is_Some b2) →
  t_shape W1 = [Z.of_nat (n * s); Z.of_nat k] → t_shape W2 = [o; Z.of_nat (n * s)] → Z.of_nat k = o →
  bias_shape b1 (Z.of_nat (n * s)) → bias_shape b2 o → plain_kernel f act →
  List.length xs = n → (∀ q x, xs !! q = Some x → holds_tokens sp lp (Z.of_nat k) X q x) →
  ∃ layers ys,
    rmap (build_plain (Z.of_nat k) (Z.of_nat (n * s)) prefix W1 W2 b1 b2) ms = Ok layers ∧
    mlp_forward act layers.*1 layers.*2 xs = Ok (Some ys) ∧
    ∀ q, (q < n)%nat → ∃ y, ys !! q = Some y ∧
      holds_tokens sp lp o (λ ix, plain_ref f W1 W2 b1 b2 k (n * s) (X ix)) q y.
Proof.
  intros Hs Hb HW1 HW2 Hko Hb1 Hb2 Hact Hxs HX.
  assert (Z.of_nat (n * s) = Z.of_nat s * Z.of_nat n) as HI by lia.
  set (hb (q : nat) := ((λ i j, mat W1 (Z.of_nat q * Z.of_nat s + i) j),
                        (λ B i, vec B (Z.of_nat q * Z.of_nat s + i)) <$> b1)).
  destruct (ranks_build ms g n (build_plain (Z.of_nat k) (Z.of_nat (n * s)) prefix W1 W2 b1 b2)
    (rank_ok (Z.of_nat s) k s o hb (mat W2) (vec <$> b2)) Hms) as (layers & Hlayers & Hll & Hok).
  { intros m q Hmem.
    destruct (column_built t_empty t_empty_shape m g _ _ Hmem (Z.of_nat (n * s)) (Z.of_nat k) (Z.of_nat s) sp false
      (child_prefix prefix "fc1") W1 b1) as (l0 & l & Hl0 & Hl & Hh & Hp);
      [by apply child_prefix_nonempty|lia|done|lia|done|done|].
    destruct (row_built t_empty t_empty_shape m g _ _ Hmem (Z.of_nat (n * s)) (Z.of_nat s) o sp
      (child_prefix prefix "fc2") W2 b2) as (r0 & rl & Hr0 & Hr & Hrh & Hrp);
      [by apply child_prefix_nonempty|lia|done|done|done|].
    assert (bool_decide (is_Some b1) = bool_decide (is_Some b2)) as Hbb by by apply bool_decide_ext.
    exists (l, rl). split; [|by repeat split; try apply Hh; try apply Hrh; try apply Hp; try apply Hrp].
    unfold build_plain, mlp_init, bias_source. rewrite <- Hbb, Hl0. simpl. rewrite <- Hko in Hr0.
    rewrite Hbb, Hr0. simpl. rewrite Hl. simpl. by rewrite Hr. }
  destruct (mlp_group layers xs k s o (Z.of_nat s) hb act
    (λ ix j, f (lin_of (X ix) (mat W1) (vec <$> b1) k j)) (mat W2) (vec <$> b2) X)
    as (ys & Hys & Hyg); [lia|done|exact Hok|done| |by exists layers, ys].
  intros q t Hq Hts Htg. destruct (Hact t gp (Z.of_nat s)) as [Has Hag]; [done|].
  split; [done|]. intros ix j Hix Hj. rewrite Hag, Htg by done. f_equal. unfold lin_of. simpl.
  by destruct b1.
Qed.
End mlp.

(** ** Query, key and value heads *)

(** The kv heads each rank holds and how many ranks hold the same ones. *)
Definition kv_split (n kv : Z) : Z * Z :=
  if kv <=? n then (n / kv, 1) else (1, kv / n).

Section qkv.
Context {E T : Type} `{TorchLaws E T}.
Context (t_empty : list Z → T) (t_empty_shape : ∀ sh, t_shape (t_empty sh) = sh).
Context (m : mesh) (g : string) (n r : Z) (Hm : member m g n r).

Definition qkv_sources (q_local kv_local replicas : Z) (Wq Wk Wv : T) : list (source T) :=
  [Source (StrShard "q") q_local 1 Wq; Source (StrShard "k") kv_local replicas Wk;
   Source (StrShard "v") kv_local replicas Wv].

Lemma qkv_laid q_local kv_local rf Wq Wk Wv rest :
  0 <= q_local → 0 <= kv_local → 1 <= rf → n mod rf = 0 →
  t_shape Wq = q_local * n :: rest → t_shape Wk = kv_local * (n / rf) :: rest →
  t_shape Wv = kv_local * (n / rf) :: rest →
  legs_laid g n (qkv_legs g rf [q_local; kv_local; kv_local]) (qkv_sources q_local kv_local rf Wq Wk Wv) rest.
Proof.
  intros ? ? ? ? Hq Hk Hv i s Hi. unfold qkv_sources, part_start, zsum in *.
  destruct i as [|[|[|?]]]; simpl in Hi; [injection Hi as <-; simpl..|done].
  - rewrite Z.div_1_r, Z.mod_1_r. repeat split; try done; lia.
  - repeat split; try done. by rewrite Z.add_0_r.
  - repeat split; try done. by rewrite Z.add_0_r.
Qed.

Lemma kv_replicas_ok kv rf kvl :
  0 < kv → (if kv <=? n then n mod kv = 0 else kv mod n = 0) → kv_split n kv = (rf, kvl) →
  kv_replicas n kv = Ok (rf, n * kvl) ∧ 1 <= rf ∧ n mod rf = 0 ∧ 0 < kvl ∧ kv = kvl * (n / rf) ∧
  (rf = 1 ∨ kvl = 1).
Proof.
  destruct Hm as (_ & _ & Hrn). unfold kv_split, kv_replicas. intros Hkv.
  destruct (Z.leb_spec kv n) as [Hle|Hgt]; intros Hmod [= <- <-].
  - rewrite (proj2 (Z.eqb_neq _ _)), Hmod by lia. simpl. rewrite Z.mul_1_r.
    assert (n = kv * (n / kv)) as Hd by (apply Z.div_exact; lia).
    set (rf := n / kv) in *. assert (1 <= rf) by nia. assert (n / rf = kv) as ->.
    { rewrite Hd. apply Z.div_mul. lia. }
    split; [done|]. split; [lia|]. split; [rewrite Hd, Z.mul_comm, Z.mul_comm; apply Z.mod_mul; lia|].
    split; [lia|]. split; [lia|by right].
  - rewrite Hmod. simpl. assert (kv = n * (kv / n)) as Hd by (apply Z.div_exact; lia).
    rewrite <- Hd, Z.div_1_r, Z.mod_1_r. split; [done|]. split; [lia|]. split; [done|].
    split; [nia|]. split; [lia|by left].
Qed.

(** Where the kv head of a query head lies. *)
Lemma kv_head_local a kv rf kvl h :
  0 < a → 0 < kv → (if kv <=? n then n mod kv = 0 else kv mod n = 0) → kv_split n kv = (rf, kvl) →
  (n * a) mod kv = 0 → 0 <= h < a →
  0 <= h / (a / kvl) < kvl ∧ r / rf * kvl + h / (a / kvl) = (r * a + h) / (n * a / kv).
Proof.
  intros Ha Hkv Hmod Hsplit Hdiv Hh. pose proof Hm as (_ & _ & Hrn).
  destruct (kv_replicas_ok kv rf kvl Hkv Hmod Hsplit) as (_ & Hrf & Hnrf & Hkvl & Hkveq & [->| ->]).
  - rewrite Z.div_1_r in *. subst kv.
    assert (n * a = kvl * n * (n * a / (kvl * n))) as Hd by (apply Z.div_exact; lia).
    set (b := n * a / (kvl * n)) in *. clearbody b. assert (a = kvl * b) as -> by nia.
    assert (0 < b) by nia. rewrite (Z.mul_comm kvl b), Z.div_mul by lia. split.
    + split; [by apply Z.div_pos; lia|]. apply Z.div_lt_upper_bound; nia.
    + replace (r * (b * kvl) + h) with (h + r * kvl * b) by lia. rewrite Z.div_add by lia. lia.
  - rewrite Z.mul_1_l in Hkveq. rewrite !Z.div_1_r, Z.mul_1_r. subst kv.
    rewrite (Z.div_small h a), Z.add_0_r by lia. split; [lia|].
    assert (n = rf * (n / rf)) as Hd by (apply Z.div_exact; lia).
    set (w := n / rf) in *. replace (n * a / w) with (a * rf).
    2:{ rewrite Hd. replace (rf * w * a) with (a * rf * w) by lia. symmetry. apply Z.div_mul. lia. }
    rewrite <- Z.div_div by lia. f_equal. rewrite Z.add_comm, Z.div_add, Z.div_small by lia. lia.
Qed.

(** C27: Grouped-query attention weights.  For any number of ranks that divides
    the query heads, which the constructor does not check, and that divides, or
    is divided by, the key/value heads, of which there is one for so many query
    heads: the fused parameter of a rank is built and loaded without error from
    the three checkpoint tensors in whatever order they arrive, and holds for
    each of its query heads that head's rows and, at the local index the
    attention kernel groups it with, the rows of exactly the key and the value
    head the unsharded model pairs it with. *)
Theorem qkv_heads_paired (k D a kv rf kvl : Z) sp ga names prefix (Wq Wk Wv : T) order :
  0 <= k → 0 < D → 0 < a → 0 < kv → (if kv <=? n then n mod kv = 0 else kv mod n = 0) →
  kv_split n kv = (rf, kvl) → (n * a) mod kv = 0 → prefix ≠ ""%string →
  is_Some (dget names "q"%string) → is_Some (dget names "k"%string) → is_Some (dget names "v"%string) →
  order ≡ₚ [0; 1; 2]%nat →
  t_shape Wq = [n * a * D; k] → t_shape Wk = [kv * D; k] → t_shape Wv = [kv * D; k] →
  ∃ l0 l, qkv_init t_empty m k D (n * a) (Some kv) g sp ga false false names prefix = Ok l0 ∧
    load_linear l0 (in_order order (qkv_sources (a * D) (kvl * D) rf Wq Wk Wv)) [] = Ok l ∧
    placed n r sp ga true true l ∧
    ∀ h e j, 0 <= h < a → 0 <= e < D → 0 <= j < k →
      let w := pm_data (ln_weight l) in
      let head := r * a + h in let kv_head := head / (n * a / kv) in let local_kv := h / (a / kvl) in
      t_get w [h * D + e; j] = t_get Wq [head * D + e; j] ∧
      t_get w [a * D + (local_kv * D + e); j] = t_get Wk [kv_head * D + e; j] ∧
      t_get w [a * D + (kvl * D + (local_kv * D + e)); j] = t_get Wv [kv_head * D + e; j].
Proof.
  intros Hk HD Ha Hkv Hmod Hsplit Hdiv Hpre [qn Hqn] [kn Hkn] [vn Hvn] Hord HWq HWk HWv.
  pose proof Hm as (Hn & Hr & Hrn).
  destruct (kv_replicas_ok kv rf kvl Hkv Hmod Hsplit) as (Hrep & Hrf & Hnrf & Hkvl & Hkveq & _).
  destruct (column_init_ok t_empty t_empty_shape m g n r Hm k [n * (a * D); n * (kvl * D); n * (kvl * D)]
    sp ga false prefix) as (l0 & load & Hl0 & Hp & Hsz & Hsh & _ & Hb); [done| |].
  { assert (∀ x, 0 < x → 0 < n * x ∧ (n * x) mod n = 0) as Hx.
    { intros x ?. split; [nia|]. rewrite Z.mul_comm. apply Z.mod_mul. lia. }
    repeat constructor; try (apply Hx; nia); rewrite Z.mul_comm; apply Z.mod_mul; lia. }
  destruct (ln_bias l0) as [?|] eqn:Hnb; [by destruct Hb|].
  assert ((λ s, s / n) <$> [n * (a * D); n * (kvl * D); n * (kvl * D)] = [a * D; kvl * D; kvl * D]) as Hdivs.
  { simpl. by rewrite !(Z.mul_comm n), !Z.div_mul by lia. }
  rewrite Hdivs in Hsz, Hsh.
  assert (legs_laid g n (qkv_legs g rf [a * D; kvl * D; kvl * D]) (qkv_sources (a * D) (kvl * D) rf Wq Wk Wv) [k]) as Hlaid.
  { apply qkv_laid; [nia|nia|done|done|rewrite HWq; f_equal; lia|rewrite HWk; f_equal; nia|rewrite HWv; f_equal; nia]. }
  set (keys (suffix : string) := [(hf_name (parent_of prefix) qn suffix, StrShard "q");
    (hf_name (parent_of prefix) kn suffix, StrShard "k"); (hf_name (parent_of prefix) vn suffix, StrShard "v")]).
  destruct (fused_built m g n r Hm l0 _ _ None (keys ".weight"%string) [] order k sp ga Hp Hlaid)
    as (l & Hl & (Hws & Hwg & _) & Hpl); [exact Hsh|by rewrite Hnb| | |].
  { rewrite Hord. simpl. repeat constructor; lia. }
  { simpl. intros i Hi. rewrite Hord. destruct i as [|[|[|?]]]; [by left|by right; left|by right; right; left|lia]. }
  eexists _, l. split; [|split; [exact Hl|split; [exact Hpl|]]].
  - unfold qkv_init. rewrite Hn. simpl. rewrite Hrep. simpl.
    replace (n * a * D + 2 * (n * kvl * D)) with (zsum [n * (a * D); n * (kvl * D); n * (kvl * D)])
      by (unfold zsum; simpl; lia).
    rewrite <- !Z.mul_assoc, Hl0. simpl. rewrite Hqn, Hkn, Hvn, Hsz. simpl.
    by rewrite (proj2 (String.eqb_neq _ _) Hpre).
  - intros h e j Hh He Hj. destruct (kv_head_local a kv rf kvl h) as [Hlk Hkvh]; [done..|]. simpl.
    set (lk := h / (a / kvl)) in *.
    assert (0 <= h * D + e < a * D) as H1' by nia. assert (0 <= lk * D + e < kvl * D) as H2' by nia.
    rewrite !Hwg by (unfold zsum; simpl; lia). unfold leg_elem, qkv_sources. simpl.
    rewrite (proj2 (Z.ltb_lt (h * D + e) _)), (proj2 (Z.ltb_ge (a * D + _) (a * D))),
      (proj2 (Z.ltb_ge (a * D + (kvl * D + _)) (a * D))) by lia.
    rewrite !(Z.add_comm (a * D)), !Z.add_simpl_r, (proj2 (Z.ltb_lt (lk * D + e) _)) by lia.
    rewrite (proj2 (Z.ltb_ge (kvl * D + _) _)), (Z.add_comm (kvl * D)), Z.add_simpl_r,
      (proj2 (Z.ltb_lt (lk * D + e) _)) by lia.
    simpl. unfold leg_row. simpl. rewrite Z.div_1_r, <- Hkvh.
    split; [|split]; f_equal; f_equal; lia.
Qed.
End qkv.

(** ** Vocabulary *)

Lemma pad_vocab_ok v n mult :
  0 < v → 0 < n → 0 < mult →
  ∃ per, pad_vocab_to v n mult = Ok (per * n) ∧ 0 < per ∧ per mod mult = 0 ∧
    v <= per * n < v + n * mult.
Proof.
  intros Hv Hn Hm. unfold pad_vocab_to.
  rewrite (proj2 (Z.ltb_lt 0 n)), (proj2 (Z.ltb_lt 0 mult)) by lia. simpl.
  set (c := (v + n * mult - 1) / (n * mult)).
  pose proof (Z.div_mod (v + n * mult - 1) (n * mult)) as Hd.
  pose proof (Z.mod_pos_bound (v + n * mult - 1) (n * mult)) as Hb. fold c in Hd.
  exists (c * mult). split; [f_equal; lia|]. split; [nia|]. split; [apply Z.mod_mul; lia|]. nia.
Qed.

Section vocabulary.
Context {E T : Type} `{TorchLaws E T}.
Context (t_empty : list Z → T) (t_empty_shape : ∀ sh, t_shape (t_empty sh) = sh).
Context (ms : list mesh) (g : string) (n : nat) (Hn : (0 < n)%nat) (Hlen : List.length ms = n).
Context (Hms : ∀ q m, ms !! q = Some m → member m g (Z.of_nat n) (Z.of_nat q)).

(** An embedding with its loaded shard. *)
Definition build_embedding (v d mult : Z) (prefix : string) (W : T) (m : mesh)
    : res (vocab_embedding (T:=T)) :=
  l ← embedding_init t_empty m v d mult g prefix;
  let '(w, r) := load_params (ve_weight l) [(W, NoShard)] in
  _ ← r;
  Ok (VocabEmbedding (ve_num_embeddings l) (ve_embedding_dim l) (ve_padded l) (ve_per_partition l)
        (ve_shard_start l) (ve_shard_end l) (ve_group l) (ve_tp_size l) w).

(** The rows of a shard: those of the checkpoint in its range. *)
Definition shard_ok (v d per : Z) (W : T) (q : nat) (l : vocab_embedding (T:=T)) : Prop :=
  ve_tp_size l = Z.of_nat n ∧ ve_shard_start l = Z.of_nat q * per ∧
  ve_shard_end l = Z.max (Z.of_nat q * per) (Z.min (Z.of_nat q * per + per) v) ∧
  t_shape (pm_data (ve_weight l)) = [per; d] ∧
  ∀ c j, 0 <= c < per → 0 <= j < d → Z.of_nat q * per + c < v →
    t_get (pm_data (ve_weight l)) [c; j] = t_get W [Z.of_nat q * per + c; j].

Lemma embedding_rank v d mult per prefix (W : T) m q :
  member m g (Z.of_nat n) (Z.of_nat q) → 0 < v → 0 < d → 0 < per → prefix ≠ ""%string →
  pad_vocab_to v (Z.of_nat n) mult = Ok (per * Z.of_nat n) → t_shape W = [v; d] →
  ∃ l, build_embedding v d mult prefix W m = Ok l ∧ shard_ok v d per W q l.
Proof.
  intros Hm Hv Hd Hper Hpre Hpad HW. pose proof Hm as (Hs & Hr & Hq).
  unfold build_embedding, embedding_init.
  rewrite (proj2 (Z.ltb_lt 0 v)), (proj2 (Z.ltb_lt 0 d)) by lia. simpl. rewrite Hs, Hr. simpl.
  rewrite Hpad. simpl. rewrite Z.div_mul, (proj2 (String.eqb_neq _ _) Hpre) by lia. simpl.
  destruct (vocab_loads m g _ _ Hm (t_empty [per; d]) W NoShard per v [d]) as (w & Hw & Hws & Hwg);
    [apply t_empty_shape|done|lia|lia|].
  unfold load_param. simpl. rewrite Hw. simpl. eexists. split; [done|].
  unfold shard_ok. simpl. rewrite t_empty_shape in *. split; [done|]. split; [done|]. split; [done|].
  split; [done|]. intros c j Hc Hj Hcv. rewrite Hwg by by apply in_shape_2.
  by rewrite (proj2 (Z.ltb_lt _ _)).
Qed.

Lemma masked_lookup_at (W w : T) ids s e per d i id c :
  t_shape w = [per; d] → 0 < per → s <= e <= s + per → ids !! i = Some id → 0 <= c < d →
  t_shape (masked_lookup ids w s e) = [Z.of_nat (List.length ids); d] ∧
  t_get (masked_lookup ids w s e) [Z.of_nat i; c] =
    if (s <=? id) && (id <? e) then t_get w [id - s; c] else e_zero.
Proof.
  intros Hw Hper He Hi Hc. unfold masked_lookup.
  set (keep := λ id, (s <=? id) && (id <? e)). set (local := (λ i, if keep i then i - s else 0) <$> ids).
  change (t_shape (t_mask_rows (f_embedding local w) (keep <$> ids)) = [Z.of_nat (List.length ids); d] ∧
    t_get (t_mask_rows (f_embedding local w) (keep <$> ids)) [Z.of_nat i; c] =
      if keep id then t_get w [id - s; c] else e_zero).
  assert (Forall (λ i, 0 <= i < per) local) as Hloc.
  { apply Forall_fmap, Forall_true. intros x. unfold keep. simpl.
    destruct (Z.leb_spec s x), (Z.ltb_spec x e); simpl; lia. }
  assert (local !! i = Some (if keep id then id - s else 0)) as Hli by (unfold local; by rewrite list_lookup_fmap, Hi).
  destruct (embedding_spec local w per d i (if keep id then id - s else 0) c Hw Hloc) as [Hes Heg]. specialize (Heg Hli Hc).
  assert (List.length local = List.length ids) as Hll by apply length_fmap. rewrite Hll in Hes.
  destruct (mask_rows_spec (f_embedding local w) (keep <$> ids) _ d (Z.of_nat i) c Hes) as [Hms' Hmg];
    [by rewrite length_fmap|]. split; [done|].
  rewrite Hmg; [|apply lookup_lt_Some in Hi; lia|done]. rewrite Nat2Z.id, list_lookup_fmap, Hi. simpl.
  destruct (keep id); [exact Heg|done].
Qed.

(** The rows one shard looks up: those of the table in its range. *)
Definition owned (v d per : Z) (W : T) (ids : list Z) (q : nat) (y : T) : Prop :=
  t_shape y = [Z.of_nat (List.length ids); d] ∧
  ∀ i id c, ids !! i = Some id → 0 <= c < d → t_get y [Z.of_nat i; c] =
    if (Z.of_nat q * per <=? id) && (id <? Z.of_nat q * per + per) && (id <? v) then t_get W [id; c] else e_zero.

Definition shard_lookup (ids : list Z) (l : vocab_embedding (T:=T)) : T :=
  masked_lookup ids (pm_data (ve_weight l)) (ve_shard_start l) (ve_shard_end l).

Lemma shard_lookup_owned v d per (W : T) ids q l :
  0 < d → 0 < per → ids ≠ [] → shard_ok v d per W q l → owned v d per W ids q (shard_lookup ids l).
Proof.
  intros Hd Hper Hids (_ & Hst & Hen & Hws & Hwg). unfold owned, shard_lookup. rewrite Hst, Hen.
  set (s := Z.of_nat q * per) in *. assert (s <= Z.max s (Z.min (s + per) v) <= s + per) as Hse by lia. split.
  - destruct ids as [|id0 ids0]; [done|]. by apply (masked_lookup_at W _ (id0 :: ids0) s _ per d 0%nat id0 0).
  - intros i id c Hi Hc. destruct (masked_lookup_at W (pm_data (ve_weight l)) ids s _ per d i id c Hws Hper Hse Hi Hc) as [_ ->].
    destruct (Z.leb_spec s id), (Z.ltb_spec id (Z.max s (Z.min (s + per) v))),
      (Z.ltb_spec id (s + per)), (Z.ltb_spec id v); simpl; try done; try lia.
    rewrite Hwg by lia. do 2 f_equal. lia.
Qed.

Lemma tp_sizes_agree (ls : list (vocab_embedding (T:=T))) :
  ls ≠ [] → (∀ q l, ls !! q = Some l → ve_tp_size l = Z.of_nat n) →
  forallb (λ l, 1 <? ve_tp_size l) ls = (1 <? Z.of_nat n) ∧ existsb (λ l, 1 <? ve_tp_size l) ls = (1 <? Z.of_nat n).
Proof.
  intros Hne Hsz. assert (∀ l, l ∈ ls → (1 <? ve_tp_size l) = (1 <? Z.of_nat n)) as Heq.
  { intros l [q Hq]%list_elem_of_lookup. by rewrite (Hsz q l Hq). }
  clear Hsz. induction ls as [|l ls IH]; [done|]. cbn [forallb existsb]. rewrite (Heq l) by (by left).
  destruct ls as [|l' ls]; [by destruct (1 <? Z.of_nat n)|].
  destruct IH as [-> ->]; [done|intros k Hk; apply Heq; by right|]. by destruct (1 <? Z.of_nat n).
Qed.

(** Exactly one shard owns a row of the table, none any other. *)
Lemma owned_sum (f : E) v per id :
  0 < per → v <= per * Z.of_nat n →
  esum (λ q, if (q * per <=? id) && (id <? q * per + per) && (id <? v) then f else e_zero) 0 n =
  if (0 <=? id) && (id <? v) then f else e_zero.
Proof.
  intros Hper Hcover. destruct (Z.leb_spec 0 id), (Z.ltb_spec id v); simpl.
  - rewrite (esum_one _ _ _ (id / per)).
    + pose proof (Z.div_mod id per). pose proof (Z.mod_pos_bound id per).
      rewrite (proj2 (Z.leb_le _ _)), (proj2 (Z.ltb_lt _ _)) by lia. done.
    + split; [apply Z.div_pos; lia|]. apply Z.div_lt_upper_bound; lia.
    + intros q Hq Hne. destruct (Z.leb_spec (q * per) id), (Z.ltb_spec id (q * per + per)); try done.
      exfalso. apply Hne. apply Z.div_unique with (id - q * per); lia.
  - apply esum_zero. intros q _. by rewrite andb_false_r.
  - apply esum_zero. intros q Hq. rewrite (proj2 (Z.leb_gt (q * per) id)) by nia. done.
  - apply esum_zero. intros q Hq. rewrite (proj2 (Z.leb_gt (q * per) id)) by nia. done.
Qed.

(** C40: The sharded vocabulary: for every vocabulary size, number of ranks
    and padding multiple, the padded shards are of equal size, cover the
    vocabulary with less than one step of padding, are built and loaded
    without error, and the lookup of a batch of token ids gives every rank
    the rows of the unsharded embedding, zero for ids outside the
    vocabulary. *)
Theorem vocab_embedding_exact v d mult prefix (W : T) ids :
  0 < v → 0 < d → 0 < mult → prefix ≠ ""%string → t_shape W = [v; d] → ids ≠ [] →
  ∃ per ls ys,
    pad_vocab_to v (Z.of_nat n) mult = Ok (per * Z.of_nat n) ∧ per mod mult = 0 ∧
    v <= per * Z.of_nat n < v + Z.of_nat n * mult ∧
    rmap (build_embedding v d mult prefix W) ms = Ok ls ∧
    embedding_forward ls (replicate n ids) = Some ys ∧
    ∀ q, (q < n)%nat → ∃ y, ys !! q = Some y ∧ t_shape y = [Z.of_nat (List.length ids); d] ∧
      ∀ i id c, ids !! i = Some id → 0 <= c < d →
        t_get y [Z.of_nat i; c] = if (0 <=? id) && (id <? v) then t_get W [id; c] else e_zero.
Proof.
  intros Hv Hd Hmult Hpre HW Hids.
  destruct (pad_vocab_ok v (Z.of_nat n) mult) as (per & Hpad & Hper & Hpm & Hcover); [lia..|].
  destruct (ranks_build ms g n (build_embedding v d mult prefix W) (shard_ok v d per W) Hms)
    as (ls & Hls & Hll & Hok); [by intros; apply (embedding_rank v d mult per)|].
  rewrite Hlen in Hll. exists per, ls.
  set (ps := zip_with (λ l ids, shard_lookup ids l) ls (replicate n ids)).
  assert (List.length ps = n) as Hps by (unfold ps; rewrite length_zip_with, length_replicate; lia).
  assert (∀ q p, ps !! q = Some p → owned v d per W ids q p) as Hpart.
  { intros q p Hp. unfold ps in Hp. rewrite lookup_zip_with in Hp.
    destruct (ls !! q) as [l|] eqn:Hl; [|done]. simpl in Hp.
    apply bind_Some in Hp as (ids' & Hids' & [= <-]). apply lookup_replicate in Hids' as [-> _].
    by apply shard_lookup_owned; [..|apply Hok]. }
  destruct (tp_sizes_agree ls) as [Hall Hex]; [by intros ->; simpl in Hll; lia|by intros q l Hl; destruct (Hok _ _ Hl)|].
  unfold embedding_forward. change (zip_with _ ls (replicate n ids)) with ps. rewrite Hall, Hex.
  destruct (Z.ltb_spec 1 (Z.of_nat n)) as [Hn1|Hn1]; [exists (c_all_reduce ps)|exists ps];
    do 5 (split; [done|]); intros q Hq.
  - destruct (all_reduce_spec ps [Z.of_nat (List.length ids); d] q) as (out & Hout & Hos & Hog).
    { intros Hnil. rewrite Hnil in Hps. simpl in Hps. lia. }
    { intros p Hp. apply list_elem_of_lookup in Hp as [q' Hp]. by destruct (Hpart _ _ Hp). }
    { lia. }
    exists out. split; [done|]. split; [done|]. intros i id c Hi Hc.
    rewrite Hog by (apply in_shape_2; [apply lookup_lt_Some in Hi; lia|done]). rewrite Hps.
    rewrite <- (owned_sum (t_get W [id; c]) v per id Hper) by lia. apply esum_ext. intros q' Hq'.
    destruct (lookup_lt_is_Some_2 ps (Z.to_nat q')) as [p Hp]; [lia|]. rewrite Hp. simpl.
    destruct (Hpart _ _ Hp) as [_ Hg]. by rewrite (Hg _ _ _ Hi Hc), Z2Nat.id by lia.
  - assert (n = 1%nat) as Hn1' by lia. assert (q = 0%nat) as -> by lia.
    destruct (lookup_lt_is_Some_2 ps 0) as [p Hp]; [lia|]. exists p. split; [done|].
    destruct (Hpart _ _ Hp) as [Hs Hg]. split; [done|]. intros i id c Hi Hc. rewrite (Hg _ _ _ Hi Hc).
    rewrite Hn1' in Hcover. change (Z.of_nat 0 * per) with 0. rewrite Z.add_0_l.
    destruct (Z.leb_spec 0 id), (Z.ltb_spec id per), (Z.ltb_spec id v); simpl; try done; lia.
Qed.
End vocabulary.

(** ** Packed and separate checkpoints *)

Section packed.
Context {E T : Type} `{TorchLaws E T}.
Context (m : mesh) (g : string) (n r : Z) (Hm : member m g n r).

(** A packed checkpoint tensor and separate ones are interchangeable:
    loading the packed tensor leaves in a parameter what loading its parts
    through the legs of the fused parameter leaves, in whatever order the
    parts arrive and whatever the parameters held before. *)
Theorem packed_equals_fused sizes rest (W : T) (ts : list T) (p1 p2 : T) order :
  sizes ≠ [] → Forall (λ s, 0 < s) sizes →
  t_shape W = zsum ((λ s, s * n) <$> sizes) :: rest →
  List.length ts = List.length sizes →
  (∀ i s t, sizes !! i = Some s → ts !! i = Some t →
     slice_of W 0 (part_start ((λ s, s * n) <$> sizes) i) (s * n) t) →
  t_shape p1 = zsum sizes :: rest → t_shape p2 = zsum sizes :: rest →
  order ≡ₚ seq 0 (List.length sizes) →
  ∃ load p1' p2', packed_sharded ((λ s, s * n) <$> sizes) g m = Ok load ∧
    load p1 W NoShard = (p1', Ok ()) ∧
    load_params (Param p2 [] (Some (fused 0 (merged_legs g 0 0 sizes) m)))
      (in_order order (merged_sources sizes ts)) = (p2', Ok ()) ∧
    p1' ≡ pm_data p2'.
Proof.
  intros Hne Hs HW Hlen Hts Hp1 Hp2 Hord. pose proof Hm as (_ & _ & Hrn).
  assert ((λ s, s / n) <$> ((λ s, s * n) <$> sizes) = sizes) as Hdiv.
  { rewrite <- list_fmap_compose. rewrite <- (list_fmap_id sizes) at 2. apply list_fmap_ext.
    intros i s _. simpl. apply Z.div_mul. lia. }
  assert (zsum ((λ s, s * n) <$> sizes) = zsum sizes * n) as Hsum.
  { clear. unfold zsum. induction sizes as [|s l IH]; [done|]. rewrite fmap_cons. simpl. lia. }
  destruct (packed_loads m g n r Hm ((λ s, s * n) <$> sizes) p1 W NoShard rest)
    as (load & p1' & Hload & Hrun & Hs1 & Hg1).
  { by destruct sizes. }
  { apply Forall_fmap. eapply Forall_impl; [exact Hs|]. simpl. intros s ?. split; [nia|]. apply Z.mod_mul. lia. }
  { done. }
  { rewrite Hp1, Hsum, Z.div_mul by lia. done. }
  destruct (fused_loaded m g n r Hm (merged_legs g 0 0 sizes) (merged_sources sizes ts) rest order
    (Param p2 [] (Some (fused 0 (merged_legs g 0 0 sizes) m)))) as (p2' & Hrun2 & Hs2 & Hg2).
  { apply merged_laid; [done|]. apply Forall2_same_length_lookup. split; [done|]. intros i s t Hi Ht.
    destruct (Hts i s t Hi Ht) as [Hsh _]. by rewrite Hsh, HW. }
  { split; [done|]. by rewrite merged_sources_sizes. }
  { rewrite <- (length_fmap so_size), merged_sources_sizes, Hord by done.
    apply Forall_forall. intros i Hi%elem_of_seq. lia. }
  { rewrite <- (length_fmap so_size (merged_sources _ _)), merged_sources_sizes by done.
    intros i Hi. rewrite Hord. apply elem_of_seq. lia. }
  rewrite merged_sources_sizes in Hs2, Hg2 by done.
  exists load, p1', p2'. split; [done|]. split; [done|]. split; [done|].
  split; [by rewrite Hs1, Hp1, Hs2|]. intros ix Hix. rewrite Hs1 in Hix.
  pose proof Hix as Hix'. rewrite Hp1 in Hix'. inversion Hix' as [|? c ? jx Hc Hjx]; subst ix.
  rewrite Hg1, Hg2 by done. unfold packed_row, leg_elem. rewrite Hdiv, merged_sources_sizes by done.
  destruct (locate_total _ _ Hc) as [[i o] Hloc]. rewrite Hloc.
  apply locate_spec in Hloc as (s & Hi & Ho & Hco); [|eapply Forall_impl; [exact Hs|simpl; lia]|lia].
  destruct (lookup_lt_is_Some_2 ts i) as [t Ht]; [rewrite Hlen; by eapply lookup_lt_Some|].
  unfold merged_sources. rewrite list_lookup_imap, lookup_zip_with, Hi, Ht. simpl.
  rewrite list_lookup_fmap, Hi. simpl. unfold leg_row. simpl. rewrite Z.div_1_r, Z.div_mul by lia.
  destruct (Hts i s t Hi Ht) as [Hsh Hg]. rewrite Hg.
  - unfold shift. simpl. do 2 f_equal. lia.
  - rewrite Hsh, HW. constructor; [nia|done].
Qed.
End packed.

(** ** Concrete groups *)

Definition tp_mesh (world rank : Z) : mesh :=
  Mesh (RankLayout world []) rank "model" [("dense_tp"%string, seqZ 0 world)] [] [] None None [].

Definition tp2 : list mesh := [tp_mesh 2 0; tp_mesh 2 1].

Lemma tp2_members q m : tp2 !! q = Some m → member m "dense_tp" (Z.of_nat 2) (Z.of_nat q).
Proof. destruct q as [|[|?]]; intros [= <-]; (split; [done|split; [done|lia]]). Qed.

Lemma tp2_tokens : token_blocks 2 true [1] [2].
Proof. exists 1, []. done. Qed.

Lemma tp4_member : member (tp_mesh 4 3) "dense_tp" 4 3.
Proof. split; [done|]. split; [done|lia]. Qed.

(** A tensor with one distinct value per index. *)
Definition demo (seed : Z) (sh : list Z) : ftensor Z :=
  FTensor sh (λ ix, foldl (λ a i, a * 3 + i) seed ix).

Definition demo_empty (sh : list Z) : ftensor Z := FTensor sh (λ _, 77).
Lemma demo_empty_shape sh : t_shape (demo_empty sh) = sh.
Proof. done. Qed.

(** [act] on the halves of the last dimension, and elementwise. *)
Definition demo_gated (gact : Z → Z → Z) (t : ftensor Z) : ftensor Z :=
  let h := default 0 (last (ft_shape t)) / 2 in
  FTensor (take (pred (List.length (ft_shape t))) (ft_shape t) ++ [h]) (λ ix,
    gact (ft_get t ix) (ft_get t (take (pred (List.length ix)) ix ++ [h + default 0 (last ix)]))).

Lemma demo_gated_kernel gact : gated_kernel gact (demo_gated gact).
Proof.
  intros t pre h Hh Ht. simpl in *. unfold demo_gated. rewrite Ht. simpl.
  rewrite length_app. simpl. rewrite Nat.add_1_r. simpl. rewrite take_app_length, last_snoc. simpl.
  replace ((h + h) / 2) with h by (replace (h + h) with (h * 2) by lia; by rewrite Z.div_mul).
  split; [done|]. intros ix j Hix Hj. rewrite length_app. simpl. rewrite Nat.add_1_r. simpl.
  by rewrite take_app_length, last_snoc.
Qed.

Lemma demo_plain_kernel f : plain_kernel f (λ t : ftensor Z, FTensor (ft_shape t) (λ ix, f (ft_get t ix))).
Proof. intros t pre h Ht. done. Qed.

Lemma gated_mlp_exact_witness :
  ∃ layers ys,
    rmap (build_gated demo_empty "dense_tp" 2 true 2 (Z.of_nat (2 * 1))
            ("gate_proj"%string, "up_proj"%string) "mlp"
            (demo 1 [2; 2]) (demo 2 [2; 2]) (demo 3 [2; 2]) (Some (demo 4 [2], demo 5 [2])) (Some (demo 6 [2])) [1; 0]%nat) tp2
      = Ok layers ∧
    mlp_forward (demo_gated Z.mul) layers.*1 layers.*2
      [demo 10 [1; 2]; FTensor [1; 2] (λ ix, ft_get (demo 10 []) (shift 0 1 ix))] = Ok (Some ys) ∧
    ∀ q, (q < 2)%nat → ∃ y, ys !! q = Some y ∧
      holds_tokens true [1] 2 (λ ix, gated_ref Z.mul (demo 1 [2; 2]) (demo 2 [2; 2]) (demo 3 [2; 2])
        (Some (demo 4 [2])) (Some (demo 5 [2])) (Some (demo 6 [2])) 2 (2 * 1)
        (λ j, ft_get (demo 10 []) (ix ++ [j]))) q y.
Proof.
  apply (gated_mlp_exact demo_empty demo_empty_shape tp2 "dense_tp" 2 ltac:(lia) eq_refl
    tp2_members true [1] [2] tp2_tokens
    2 1 2 ("gate_proj"%string, "up_proj"%string) "mlp"%string (demo 1 [2; 2]) (demo 2 [2; 2]) (demo 3 [2; 2])
    (Some (demo 4 [2], demo 5 [2])) (Some (demo 6 [2])) [1; 0]%nat Z.mul (demo_gated Z.mul)
    (λ ix j, ft_get (demo 10 []) (ix ++ [j]))); try done.
  - lia.
  - constructor.
  - apply demo_gated_kernel.
  - intros q x Hx. destruct q as [|[|?]]; [injection Hx as <-..|done]; (split; [done|]); intros ix j Hix _.
    + unfold glob. simpl. by rewrite shift_0.
    + unfold glob. inversion Hix; subst. done.
Defined.

Lemma plain_mlp_exact_witness :
  ∃ layers ys,
    rmap (build_plain demo_empty "dense_tp" false 2 (Z.of_nat (2 * 2)) "mlp"
            (demo 1 [4; 2]) (demo 3 [2; 4]) (Some (demo 4 [4])) (Some (demo 6 [2]))) tp2 = Ok layers ∧
    mlp_forward (λ t : ftensor Z, FTensor (ft_shape t) (λ ix, Z.max 0 (ft_get t ix))) layers.*1 layers.*2
      [demo 10 [3; 2]; demo 10 [3; 2]] = Ok (Some ys) ∧
    ∀ q, (q < 2)%nat → ∃ y, ys !! q = Some y ∧
      holds_tokens false [3] 2 (λ ix, plain_ref (Z.max 0) (demo 1 [4; 2]) (demo 3 [2; 4])
        (Some (demo 4 [4])) (Some (demo 6 [2])) 2 (2 * 2) (λ j, ft_get (demo 10 []) (ix ++ [j]))) q y.
Proof.
  apply (plain_mlp_exact demo_empty demo_empty_shape tp2 "dense_tp" 2 ltac:(lia) eq_refl
    tp2_members false [3] [3] eq_refl 2 2 2 "mlp"%string (demo 1 [4; 2]) (demo 3 [2; 4]) (Some (demo 4 [4]))
    (Some (demo 6 [2])) (Z.max 0) (λ t : ftensor Z, FTensor (ft_shape t) (λ ix, Z.max 0 (ft_get t ix)))
    (λ ix j, ft_get (demo 10 []) (ix ++ [j]))); try done.
  - lia.
  - intros q x Hx. destruct q as [|[|?]]; [injection Hx as <-..|done]; by split.
Defined.

(** Eight query heads and two kv heads on four ranks: rank 3. *)
Lemma qkv_heads_paired_witness :
  ∃ l0 l, qkv_init demo_empty (tp_mesh 4 3) 2 2 (4 * 2) (Some 2) "dense_tp" false false false false
            [("q", "q_proj"); ("k", "k_proj"); ("v", "v_proj")]%string "attn" = Ok l0 ∧
    load_linear l0 (in_order [2; 0; 1]%nat (qkv_sources (2 * 2) (1 * 2) 2 (demo 1 [16; 2]) (demo 2 [4; 2]) (demo 3 [4; 2]))) [] = Ok l ∧
    placed 4 3 false false true true l ∧
    ∀ h e j, 0 <= h < 2 → 0 <= e < 2 → 0 <= j < 2 →
      let w := pm_data (ln_weight l) in
      let head := 3 * 2 + h in let kv_head := head / (4 * 2 / 2) in let local_kv := h / (2 / 1) in
      t_get w [h * 2 + e; j] = t_get (demo 1 [16; 2]) [head * 2 + e; j] ∧
      t_get w [2 * 2 + (local_kv * 2 + e); j] = t_get (demo 2 [4; 2]) [kv_head * 2 + e; j] ∧
      t_get w [2 * 2 + (1 * 2 + (local_kv * 2 + e)); j] = t_get (demo 3 [4; 2]) [kv_head * 2 + e; j].
Proof.
  apply (qkv_heads_paired demo_empty demo_empty_shape (tp_mesh 4 3) "dense_tp" 4 3 tp4_member
    2 2 2 2 2 1); try done; try lia; try by eexists.
  apply (bool_decide_unpack _). vm_compute. exact I.
Defined.

Lemma vocab_embedding_exact_witness :
  ∃ per ls ys,
    pad_vocab_to 5 (Z.of_nat 2) 4 = Ok (per * Z.of_nat 2) ∧ per mod 4 = 0 ∧
    5 <= per * Z.of_nat 2 < 5 + Z.of_nat 2 * 4 ∧
    rmap (build_embedding demo_empty "dense_tp" 5 2 4 "embed" (demo 1 [5; 2])) tp2 = Ok ls ∧
    embedding_forward ls (replicate 2 [4; 0; 9]) = Some ys ∧
    ∀ q, (q < 2)%nat → ∃ y, ys !! q = Some y ∧ t_shape y = [Z.of_nat 3; 2] ∧
      ∀ i id c, [4; 0; 9] !! i = Some id → 0 <= c < 2 →
        t_get y [Z.of_nat i; c] = if (0 <=? id) && (id <? 5) then t_get (demo 1 [5; 2]) [id; c] else e_zero.
Proof.
  apply (vocab_embedding_exact demo_empty demo_empty_shape tp2 "dense_tp" 2 ltac:(lia) eq_refl
    tp2_members 5 2 4 "embed"%string (demo 1 [5; 2]) [4; 0; 9]); done || lia.
Defined.

Lemma packed_equals_fused_witness :
  ∃ load p1' p2', packed_sharded ((λ s, s * 4) <$> [2; 1]) "dense_tp" (tp_mesh 4 3) = Ok load ∧
    load (demo 5 [3; 2]) (demo 1 [12; 2]) NoShard = (p1', Ok ()) ∧
    load_params (Param (demo 6 [3; 2]) [] (Some (fused 0 (merged_legs "dense_tp" 0 0 [2; 1]) (tp_mesh 4 3))))
      (in_order [1; 0]%nat (merged_sources [2; 1]
        [demo 1 [8; 2]; FTensor [4; 2] (λ ix, ft_get (demo 1 []) (shift 0 8 ix))])) = (p2', Ok ()) ∧
    p1' ≡ pm_data p2'.
Proof.
  apply (packed_equals_fused (tp_mesh 4 3) "dense_tp" 4 3 tp4_member [2; 1] [2]); try done.
  - repeat constructor; lia.
  - intros i s t Hi Ht. destruct i as [|[|?]]; [| |done]; injection Hi as <-; injection Ht as <-; (split; [done|]).
    + intros ix _. unfold part_start, zsum. simpl. by rewrite shift_0.
    + done.
  - constructor.
Defined.
