(* ===== verification/Loader.v ===== *)
(** * Checkpoint to model ([weights/loader.py], [utils/checkpoint.py])

    The choice of the checkpoint files of a folder, the stream of named
    tensors they give, the dispatch index built from the parameters, and the
    two ways a model is filled: [load_pretrained] from files and a
    [WeightLoadSession] from tensors in memory. *)

From Stdlib Require Import Ascii.
From S2P Require Import Prelude PyStr PyVal Weights.
Open Scope Z_scope.

(** ** Names *)

(** [key.replace(src, dst)] for a non-empty [src]; [skip] counts the
    characters of the match under way. *)
Fixpoint replace_from (src dst : string) (skip : nat) (s : string) : string :=
  match s with
  | EmptyString => EmptyString
  | String c s' =>
      match skip with
      | S skip' => replace_from src dst skip' s'
      | O => if String.prefix src s
             then dst +:+ replace_from src dst (pred (String.length src)) s'
             else String c (replace_from src dst 0 s')
      end
  end.

(** An empty pattern matches before every character and at the end. *)
Fixpoint replace_empty (dst s : string) : string :=
  match s with
  | EmptyString => dst
  | String c s' => dst +:+ String c (replace_empty dst s')
  end.

Definition str_replace (src dst s : string) : string :=
  if String.eqb src "" then replace_empty dst s else replace_from src dst 0 s.

(** [_resolve_remap]: identity, a callable, or rewrite rules in order. *)
Inductive remap_spec : Type :=
  | NoRemap
  | RemapCallable (f : string → option string)
  | RemapRules (rules : dict string string).

Definition apply_rules (rules : dict string string) (key : string) : string :=
  foldl (λ key rule, if contains rule.1 key then str_replace rule.1 rule.2 key else key) key rules.

Definition resolve_remap (r : remap_spec) : string → option string :=
  match r with
  | NoRemap => Some
  | RemapCallable f => f
  | RemapRules rules => λ key, Some (apply_rules rules key)
  end.

(** ** Files *)

(** [Path(name).suffix]: from the last dot, unless it is the first or the
    last character. *)
Fixpoint last_dot (i : nat) (s : string) : option nat :=
  match s with
  | EmptyString => None
  | String c s' =>
      match last_dot (S i) s' with
      | Some j => Some j
      | None => if Ascii.eqb c "."%char then Some i else None
      end
  end.

Definition suffix_of (name : string) : string :=
  match last_dot 0 name with
  | Some i => if (Nat.ltb 0 i) && (Nat.ltb i (String.length name - 1))
              then String.substring i (String.length name - i) name else ""
  | None => ""
  end.

Inductive checkpoint_kind : Type := Safetensors | Pytorch.
#[export] Instance checkpoint_kind_eq_dec : EqDecision checkpoint_kind.
Proof. solve_decision. Defined.

Definition PYTORCH_SUFFIXES : list string := [".bin"; ".pt"; ".pth"]%string.

(** [checkpoint_format] *)
Definition checkpoint_format (name : string) : res checkpoint_kind :=
  let suffix := lower (suffix_of name) in
  if String.eqb suffix ".safetensors" then Ok Safetensors
  else if bool_decide (suffix ∈ PYTORCH_SUFFIXES) then Ok Pytorch
  else Err ValueError.

(** A checkpoint folder: its entries by name, each a file or not, and the
    [weight_map] of the index file when there is one ([None] inside when it
    is no non-empty mapping). *)
Record folder : Type := Folder {
  fd_exists : bool;
  fd_is_dir : bool;
  fd_entries : dict string bool;
  fd_weight_map : option (dict string string);
}.

Definition INDEX_NAME : string := "model.safetensors.index.json".
Definition SINGLE_NAME : string := "model.safetensors".
Definition EXCLUDED : list string :=
  ["training_args.bin"; "optimizer.bin"; "optimizer.pt"; "optimizer.pth"; "scheduler.pt";
   "scheduler.pth"; "scaler.pt"; "scaler.pth"]%string.

Definition ensure_dir (f : folder) : res unit :=
  _ ← ensure (fd_exists f) FileNotFoundError;
  ensure (fd_is_dir f) NotADirectoryError.

Definition is_file (f : folder) (name : string) : bool := default false (dget (fd_entries f) name).

(** [s.endswith(suffix)] *)
Definition ends_with (suffix s : string) : bool :=
  let n := String.length s in let k := String.length suffix in
  Nat.leb k n && String.eqb (String.substring (n - k) k s) suffix.

(** [sorted(folder.glob("*" + suffix))], as names *)
Definition glob (f : folder) (suffix : string) : list string :=
  sort_str (filter (λ name, ends_with suffix name = true) (dkeys (fd_entries f))).

(** [sorted({...})] *)
Definition sorted_set (l : list string) : list string := sort_str (remove_dups l).

Definition find_safetensors (f : folder) : res (list string) :=
  _ ← ensure_dir f;
  if is_file f INDEX_NAME then
    match fd_weight_map f with
    | None => Err ValueError
    | Some [] => Err ValueError
    | Some weight_map =>
        let shards := sorted_set (dvals weight_map) in
        _ ← ensure (forallb (is_file f) shards) FileNotFoundError;
        Ok shards
    end
  else if is_file f SINGLE_NAME then Ok [SINGLE_NAME]
  else match glob f ".safetensors" with
       | [] => Err FileNotFoundError
       | fallback => Ok fallback
       end.

(** The loop over the PyTorch suffixes. *)
Fixpoint first_pytorch (f : folder) (suffixes : list string) : res (list string) :=
  match suffixes with
  | [] => Err FileNotFoundError
  | suffix :: suffixes' =>
      match filter (λ name, is_file f name = true ∧ name ∉ EXCLUDED) (glob f suffix) with
      | [] => first_pytorch f suffixes'
      | candidates => Ok candidates
      end
  end.

Definition find_checkpoint_files (f : folder) : res (list string) :=
  _ ← ensure_dir f;
  if is_file f INDEX_NAME || negb (bool_decide (glob f ".safetensors" = []))
  then find_safetensors f
  else first_pytorch f PYTORCH_SUFFIXES.

(** What [_resolve_source] resolved the source to: a directory, or files with
    whether each exists as a file. *)
Inductive source : Type := FromFolder (f : folder) | FromFiles (paths : list (string * bool)).

Definition resolve_source (s : source) : res (list string) :=
  match s with
  | FromFolder f => find_checkpoint_files f
  | FromFiles paths =>
      _ ← ensure (negb (bool_decide (paths = []))) ValueError;
      rmap (λ p, _ ← ensure p.2 FileNotFoundError; _ ← checkpoint_format p.1; Ok p.1) paths
  end.

(** ** Checkpoints *)

Section load.
Context {T : Type} (dtype_of : T → string).

(** What [torch.load] returns: a mapping with string and other keys, a
    tensor, or anything else. *)
Inductive object : Type :=
  | OTensor (t : T)
  | OMapping (items : list (option string * object))
  | OOther.

(** [checkpoint.get(key)] *)
Fixpoint mapping_get (key : string) (items : list (option string * object)) : option object :=
  match items with
  | [] => None
  | (k, v) :: items' => if bool_decide (k = Some key) then Some v else mapping_get key items'
  end.

(** [_unwrap_pytorch_state] *)
Definition unwrap_pytorch_state (checkpoint : object) : res (list (option string * object)) :=
  match checkpoint with
  | OMapping items =>
      Ok (match mapping_get "model_state_dict" items with
          | Some (OMapping nested) => nested
          | _ => match mapping_get "state_dict" items with
                 | Some (OMapping nested) => nested
                 | _ => items
                 end
          end)
  | _ => Err TypeError
  end.

(** A checkpoint file: the named tensors of a safetensors file, or the object
    in a PyTorch one. *)
Record checkpoint_file : Type := CheckpointFile {
  cf_name : string;
  cf_tensors : list (string * T);
  cf_object : object;
}.

(** [_iter_checkpoint_tensor_loaders]: the tensors it yields, and what it
    raises instead of them or after the last one. *)
Definition named_tensors (items : list (option string * object)) : list (string * T) :=
  omap (λ kv, match kv with (Some name, OTensor t) => Some (name, t) | _ => None end) items.

Definition iter_tensors (f : checkpoint_file) : list (string * T) * res unit :=
  match checkpoint_format (cf_name f) with
  | Err e => ([], Err e)
  | Ok Safetensors => (cf_tensors f, Ok ())
  | Ok Pytorch =>
      match unwrap_pytorch_state (cf_object f) with
      | Err e => ([], Err e)
      | Ok items =>
          match named_tensors items with
          | [] => ([], Err ValueError)
          | found => (found, Ok ())
          end
      end
  end.

(** ** The model *)

(** A parameter with its loading plan; [hf_keys] may be absent. *)
Record parameter : Type := ModelParameter {
  pa_name : string;
  pa_hf_keys : option (list (string * shard_id));
  pa_loader : T → T → shard_id → T * res unit;
  pa_optional : bool;
  pa_preserves_dtype : bool;
}.

(** The values of the parameters, by name. *)
Definition store : Type := dict string T.

Record entry : Type := Entry {
  en_parameter : parameter;
  en_shard : shard_id;
}.

Definition weight_index : Type := dict string entry.

(** [_build_weight_index] *)
Fixpoint index_keys (p : parameter) (keys : list (string * shard_id))
    (acc : weight_index * list string) : res (weight_index * list string) :=
  match keys with
  | [] => Ok acc
  | (hf_key, shard) :: keys' =>
      match dget acc.1 hf_key with
      | Some _ => Err RuntimeError
      | None => index_keys p keys' (dset acc.1 hf_key (Entry p shard),
                                    if pa_optional p then acc.2 ++ [hf_key] else acc.2)
      end
  end.

Fixpoint build_weight_index (ps : list parameter) (acc : weight_index * list string)
    : res (weight_index * list string) :=
  match ps with
  | [] => Ok acc
  | p :: ps' =>
      match pa_hf_keys p with
      | None => build_weight_index ps' acc
      | Some keys => acc ← index_keys p keys acc; build_weight_index ps' acc
      end
  end.

(** [LoadReport] *)
Record report : Type := LoadReport {
  rp_loaded : list string;
  rp_missing : list string;
  rp_optional_missing : list string;
  rp_unexpected : list string;
  rp_casts : list (string * string * string);
}.
Definition empty_report : report := LoadReport [] [] [] [] [].

(** What is loaded so far: the values, the report, the keys that reached a
    parameter. *)
Record progress : Type := Progress {
  pg_store : store;
  pg_report : report;
  pg_seen : list string;
}.

(** Note the dtype cast, run the loader, and record the key. *)
Definition dispatch_tensor (hf_key : string) (e : entry) (tensor : T) (g : progress) : progress * res unit :=
  let p := en_parameter e in
  let rp := pg_report g in
  match dget (pg_store g) (pa_name p) with
  | None => (g, Err KeyError)
  | Some value =>
      let casts := if negb (String.eqb (dtype_of tensor) (dtype_of value)) && negb (pa_preserves_dtype p)
                   then rp_casts rp ++ [(hf_key, dtype_of tensor, dtype_of value)] else rp_casts rp in
      let noted := LoadReport (rp_loaded rp) (rp_missing rp) (rp_optional_missing rp) (rp_unexpected rp) casts in
      let '(value', r) := pa_loader p value tensor (en_shard e) in
      let st := dset (pg_store g) (pa_name p) value' in
      match r with
      | Err ex => (Progress st noted (pg_seen g), Err ex)
      | Ok _ =>
          (Progress st
             (LoadReport (rp_loaded rp ++ [hf_key]) (rp_missing rp) (rp_optional_missing rp)
                (rp_unexpected rp) casts)
             (pg_seen g ++ [hf_key]), Ok ())
      end
  end.

Definition note_unexpected (hf_key : string) (g : progress) : progress :=
  let rp := pg_report g in
  Progress (pg_store g)
    (LoadReport (rp_loaded rp) (rp_missing rp) (rp_optional_missing rp)
       (rp_unexpected rp ++ [hf_key]) (rp_casts rp)) (pg_seen g).

(** ** In-memory sessions *)

Record session : Type := Session {
  ss_remap : string → option string;
  ss_index : weight_index;
  ss_optional : list string;
  ss_progress : progress;
  ss_finished : bool;
}.

(** [WeightLoadSession(model, remap=...)] *)
Definition open_session (ps : list parameter) (st : store) (r : remap_spec) : res session :=
  '(index, optional) ← build_weight_index ps ([], []);
  Ok (Session (resolve_remap r) index optional (Progress st empty_report []) false).

(** One item of [load]. *)
Definition session_item (remap : string → option string) (index : weight_index)
    (item : string * T) (g : progress) : progress * res unit :=
  match remap item.1 with
  | None => (g, Ok ())
  | Some hf_key =>
      if bool_decide (hf_key ∈ pg_seen g) then (g, Err RuntimeError)
      else match dget index hf_key with
           | None => (note_unexpected hf_key g, Ok ())
           | Some e => dispatch_tensor hf_key e item.2 g
           end
  end.

Fixpoint session_items (remap : string → option string) (index : weight_index)
    (items : list (string * T)) (g : progress) : progress * res unit :=
  match items with
  | [] => (g, Ok ())
  | item :: items' =>
      match session_item remap index item g with
      | (g', Ok _) => session_items remap index items' g'
      | failed => failed
      end
  end.

(** [WeightLoadSession.load] *)
Definition session_load (s : session) (items : list (string * T)) : session * res report :=
  if ss_finished s then (s, Err RuntimeError)
  else
    let '(g, r) := session_items (ss_remap s) (ss_index s) items (ss_progress s) in
    (Session (ss_remap s) (ss_index s) (ss_optional s) g false,
     _ ← r; Ok (pg_report g)).

(** The keys of the index that no tensor reached, required or optional. *)
Definition add_missing (index : weight_index) (optional : list string) (g : progress) : progress :=
  let absent := filter (λ k, k ∉ pg_seen g) (dkeys index) in
  let rp := pg_report g in
  Progress (pg_store g)
    (LoadReport (rp_loaded rp) (rp_missing rp ++ filter (λ k, k ∉ optional) absent)
       (rp_optional_missing rp ++ filter (λ k, k ∈ optional) absent) (rp_unexpected rp) (rp_casts rp))
    (pg_seen g).

Definition strict_failure (rp : report) : bool :=
  negb (bool_decide (rp_missing rp = [])) || negb (bool_decide (rp_unexpected rp = [])).

(** [WeightLoadSession.finish]; [post_load] runs the hooks of the modules. *)
Definition session_finish (post_load : store → store * res unit) (strict require_all : bool) (s : session)
    : session * res report :=
  if ss_finished s then (s, Err RuntimeError)
  else
    let g := if require_all then add_missing (ss_index s) (ss_optional s) (ss_progress s) else ss_progress s in
    let set g closed := Session (ss_remap s) (ss_index s) (ss_optional s) g closed in
    if strict && strict_failure (pg_report g) then (set g false, Err RuntimeError)
    else
      let '(st, r) := post_load (pg_store g) in
      let g := Progress st (pg_report g) (pg_seen g) in
      match r with
      | Err e => (set g false, Err e)
      | Ok _ => (set g true, Ok (pg_report g))
      end.

(** ** Loading from files *)

(** The loop of [load_pretrained] over the tensors of one file;
    [encountered] are the keys of all files so far, after the remap. *)
Fixpoint file_items (remap : string → option string) (index : weight_index)
    (items : list (string * T)) (encountered : list string) (g : progress)
    : progress * list string * res unit :=
  match items with
  | [] => (g, encountered, Ok ())
  | (raw, tensor) :: items' =>
      match remap raw with
      | None => file_items remap index items' encountered g
      | Some hf =>
          if bool_decide (hf ∈ encountered) then (g, encountered, Err RuntimeError)
          else
            let encountered := encountered ++ [hf] in
            match dget index hf with
            | None => file_items remap index items' encountered (note_unexpected hf g)
            | Some e =>
                match dispatch_tensor hf e tensor g with
                | (g', Ok _) => file_items remap index items' encountered g'
                | (g', Err ex) => (g', encountered, Err ex)
                end
            end
      end
  end.

Fixpoint load_files (remap : string → option string) (index : weight_index)
    (files : list checkpoint_file) (encountered : list string) (g : progress) : progress * res unit :=
  match files with
  | [] => (g, Ok ())
  | f :: files' =>
      let '(items, after) := iter_tensors f in
      match file_items remap index items encountered g with
      | (g', encountered', Ok _) =>
          match after with
          | Ok _ => load_files remap index files' encountered' g'
          | Err e => (g', Err e)
          end
      | (g', _, Err e) => (g', Err e)
      end
  end.

(** [load_pretrained]; [open_file] reads a resolved path. *)
Definition load_pretrained (post_load : store → store * res unit) (open_file : string → checkpoint_file)
    (ps : list parameter) (st : store) (src : source) (r : remap_spec) (strict : bool)
    : store * res report :=
  match resolve_source src, build_weight_index ps ([], []) with
  | Err e, _ => (st, Err e)
  | Ok _, Err e => (st, Err e)
  | Ok paths, Ok (index, optional) =>
      match rmap checkpoint_format paths with
      | Err e => (st, Err e)
      | Ok _ =>
      match load_files (resolve_remap r) index (open_file <$> paths) [] (Progress st empty_report []) with
      | (g, Err e) => (pg_store g, Err e)
      | (g, Ok _) =>
          let g := add_missing index optional g in
          if strict && strict_failure (pg_report g) then (pg_store g, Err RuntimeError)
          else
            let '(st', r) := post_load (pg_store g) in
            (st', _ ← r; Ok (pg_report g))
      end
      end
  end.
End load.
