(* ===== verification/LoaderProps.v ===== *)
(** * Properties of checkpoint loading

    The two ways of filling a model agree, and what a strict load that
    returns has done to every parameter. *)

From S2P Require Import Prelude PyStr PyVal Weights Loader.
Open Scope Z_scope.

Section props.
Context {T : Type} (dtype_of : T → string).

(** ** Streams *)

Definition stream_keys (remap : string → option string) (items : list (string * T)) : list string :=
  omap (λ it, remap it.1) items.

Lemma session_items_app remap index (a b : list (string * T)) g :
  session_items dtype_of remap index (a ++ b) g =
  match session_items dtype_of remap index a g with
  | (g', Ok _) => session_items dtype_of remap index b g'
  | failed => failed
  end.
Proof.
  revert g; induction a as [|it a IH]; intros g; [done|]. simpl.
  destruct (session_item dtype_of remap index it g) as [g' [?|?]]; [apply IH|done].
Qed.

(** Dispatching a tensor marks its key only when the loader accepts it. *)
Lemma dispatch_seen key e t g g' r :
  dispatch_tensor dtype_of key e t g = (g', r) →
  pg_seen g' = match r with Ok _ => pg_seen g ++ [key] | Err _ => pg_seen g end.
Proof.
  unfold dispatch_tensor. destruct (dget (pg_store g) _) as [v|]; [|by intros [= <- <-]].
  destruct (pa_loader _ _ _ _) as [v' [?|?]]; by intros [= <- <-].
Qed.

Lemma session_item_seen remap index it g g' r :
  session_item dtype_of remap index it g = (g', r) →
  ∀ k, k ∈ pg_seen g' → k ∈ pg_seen g ∨ remap it.1 = Some k.
Proof.
  unfold session_item. intros Hit k Hk. destruct (remap it.1) as [key|]; [|left; by injection Hit as <- _].
  case_bool_decide; [left; by injection Hit as <- _|].
  destruct (dget index key); [|left; by injection Hit as <- _].
  apply dispatch_seen in Hit. rewrite Hit in Hk. destruct r; [|by left].
  apply elem_of_app in Hk as [?|Hk]; [by left|]. apply list_elem_of_singleton in Hk as ->. by right.
Qed.

(** Over distinct keys the loop over files and the session agree. *)
Lemma file_items_session remap index items enc g :
  (∀ k, k ∈ pg_seen g → k ∈ enc) → NoDup (enc ++ stream_keys remap items) →
  let '(g1, enc', r1) := file_items dtype_of remap index items enc g in
  (g1, r1) = session_items dtype_of remap index items g ∧
  (is_ok r1 = true → enc' = enc ++ stream_keys remap items ∧ ∀ k, k ∈ pg_seen g1 → k ∈ enc').
Proof.
  revert enc g; induction items as [|[raw t] items IH]; intros enc g Hseen Hnd; simpl.
  { split; [done|]. intros _. by rewrite app_nil_r. }
  unfold stream_keys in *. simpl in Hnd. unfold session_item. simpl.
  destruct (remap raw) as [key|] eqn:Hr; simpl in *.
  2:{ exact (IH enc g Hseen Hnd). }
  assert (key ∉ enc) as Hne.
  { intros Hin. apply NoDup_app in Hnd as (_ & Hd & _). by eapply Hd; [|left]. }
  rewrite bool_decide_false by done. rewrite bool_decide_false by (intros ?; auto).
  assert (NoDup ((enc ++ [key]) ++ omap (λ it : string * T, remap it.1) items)) as Hnd' by by rewrite <- app_assoc.
  assert (enc ++ key :: omap (λ it : string * T, remap it.1) items
          = (enc ++ [key]) ++ omap (λ it : string * T, remap it.1) items) as Hcat by by rewrite <- app_assoc.
  change (list_omap (string * T)%type string (λ it : string * T, remap it.1) items)
    with (omap (λ it : string * T, remap it.1) items).
  rewrite Hcat.
  destruct (dget index key) as [e|] eqn:Hi.
  - destruct (dispatch_tensor dtype_of key e t g) as [g' [u|ex]] eqn:Hd.
    + apply (IH (enc ++ [key]) g'); [|done]. pose proof (dispatch_seen _ _ _ _ _ _ Hd) as Hs.
      rewrite Hs. intros k [Hk|Hk]%elem_of_app; apply elem_of_app; [left; auto|by right].
    + by split.
  - apply (IH (enc ++ [key]) (note_unexpected key g)); [|done].
    intros k Hk. apply elem_of_app. left. by apply Hseen.
Qed.

(** The tensors of all files, when all can be read. *)
Definition readable (files : list (checkpoint_file (T:=T))) : Prop :=
  Forall (λ f, (iter_tensors f).2 = Ok ()) files.
Definition all_tensors (files : list (checkpoint_file (T:=T))) : list (string * T) :=
  files ≫= λ f, (iter_tensors f).1.

Lemma load_files_session remap index files enc g :
  readable files → (∀ k, k ∈ pg_seen g → k ∈ enc) →
  NoDup (enc ++ stream_keys remap (all_tensors files)) →
  load_files dtype_of remap index files enc g = session_items dtype_of remap index (all_tensors files) g.
Proof.
  intros Hr. revert enc g; induction Hr as [|f files Hf Hr IH]; intros enc g Hseen Hnd; [done|].
  change (all_tensors (f :: files)) with ((iter_tensors f).1 ++ all_tensors files) in *.
  simpl. destruct (iter_tensors f) as [items after]. simpl in Hf, Hnd |- *. subst after.
  unfold stream_keys in Hnd. rewrite omap_app, app_assoc in Hnd.
  pose proof (file_items_session remap index items enc g Hseen) as Hfi.
  specialize (Hfi ltac:(by apply NoDup_app in Hnd as (? & _ & _))).
  destruct (file_items dtype_of remap index items enc g) as [[g' enc'] r] eqn:Hrun.
  destruct Hfi as [Heq Henc]. rewrite session_items_app, <- Heq.
  destruct r as [u|e]; [|done]. destruct (Henc eq_refl) as [-> Hs']. by apply IH.
Qed.
(** A run over the items of a file that raises nothing met every key once. *)
Lemma file_items_distinct remap index items enc (g : progress (T:=T)) g' enc' :
  file_items dtype_of remap index items enc g = (g', enc', Ok ()) → NoDup enc →
  enc' = enc ++ stream_keys remap items ∧ NoDup enc'.
Proof.
  revert enc g; induction items as [|[raw t] items IH]; intros enc g; simpl.
  { intros [= _ <-] ?. by rewrite app_nil_r. }
  unfold stream_keys in *. simpl. destruct (remap raw) as [key|]; [|apply IH].
  case_bool_decide as Hin; [done|]. intros Hrun Hnd.
  assert (NoDup (enc ++ [key])) as Hnd'.
  { apply NoDup_app. split; [done|]. split; [|apply NoDup_singleton].
    by intros k Hk ->%list_elem_of_singleton. }
  assert (∃ g1, file_items dtype_of remap index items (enc ++ [key]) g1 = (g', enc', Ok ())) as [g1 Hg1].
  { destruct (dget index key) as [e|]; [|by eexists].
    destruct (dispatch_tensor dtype_of key e t g) as [g1 [?|?]]; [by eexists|done]. }
  destruct (IH _ _ Hg1 Hnd') as [-> ?]. split; [|done]. by rewrite <- app_assoc.
Qed.

(** A run over files that raises nothing read them all and met every key once. *)
Lemma load_files_readable remap index files enc (g : progress (T:=T)) g' :
  load_files dtype_of remap index files enc g = (g', Ok ()) → NoDup enc →
  readable files ∧ NoDup (enc ++ stream_keys remap (all_tensors files)).
Proof.
  revert enc g; induction files as [|f files IH]; intros enc g.
  { intros _ Hnd. split; [constructor|]. unfold all_tensors, stream_keys. simpl. by rewrite app_nil_r. }
  change (all_tensors (f :: files)) with ((iter_tensors f).1 ++ all_tensors files).
  simpl. destruct (iter_tensors f) as [items after] eqn:Hf.
  destruct (file_items dtype_of remap index items enc g) as [[g1 enc1] [[]|ex]] eqn:Hrun; [|done].
  destruct after as [[]|ex]; [|done]. intros Hrest Hnd.
  destruct (file_items_distinct _ _ _ _ _ _ _ Hrun Hnd) as [-> Hnd1].
  destruct (IH _ _ Hrest Hnd1) as [Hr Hnd2]. split; [by constructor; [rewrite Hf|]|].
  unfold stream_keys in *. simpl. by rewrite omap_app, app_assoc.
Qed.

End props.

(** ** Agreement *)

Section agreement.
Context {T : Type} (dtype_of : T → string) (post_load : store (T:=T) → store (T:=T) * res unit).

(** A model filled through a session: everything in one batch, then the
    final validation. *)
Definition through_session (ps : list (parameter (T:=T))) (st : store) (r : remap_spec)
    (items : list (string * T)) (strict : bool) : store (T:=T) * res report :=
  match open_session ps st r with
  | Err e => (st, Err e)
  | Ok s =>
      match session_load dtype_of s items with
      | (s', Err e) => (pg_store (ss_progress s'), Err e)
      | (s', Ok _) =>
          let '(s'', rp) := session_finish post_load strict true s' in
          (pg_store (ss_progress s''), rp)
      end
  end.

Lemma files_session_equal (open_file : string → checkpoint_file (T:=T)) ps st src r strict paths :
  resolve_source src = Ok paths → is_ok (rmap checkpoint_format paths) = true →
  readable (open_file <$> paths) →
  NoDup (stream_keys (resolve_remap r) (all_tensors (open_file <$> paths))) →
  load_pretrained dtype_of post_load open_file ps st src r strict =
  through_session ps st r (all_tensors (open_file <$> paths)) strict.
Proof.
  intros Hsrc Hfmt Hread Hnd. unfold load_pretrained, through_session, open_session. rewrite Hsrc.
  destruct (build_weight_index ps ([], [])) as [[index optional]|e]; [|done]. simpl.
  destruct (rmap checkpoint_format paths) as [fs|]; [|done].
  rewrite (load_files_session dtype_of (resolve_remap r) index (open_file <$> paths) []);
    [|done|by intros k ?%elem_of_nil|done].
  unfold session_load. simpl.
  destruct (session_items dtype_of _ _ _ _) as [g [u|e]]; simpl; [|done].
  unfold session_finish. simpl.
  destruct (strict && _); [done|].
  by destruct (post_load (pg_store g)) as [st' [?|?]].
Qed.

(** C21: Loading a model from files and filling it from memory agree, in
    strict and lax mode and whatever the loaders and the post-load hooks do.
    Whenever [load_pretrained] returns a report, a [WeightLoadSession] fed with
    the same tensors in the same order returns the same report and leaves the
    same value in every parameter.  When the files can be read and no key
    occurs twice after the remap, the two also fail alike: with the same error
    and the same parameters.  (A key that occurs twice makes [load_pretrained]
    raise, and a session only when a parameter claims it.) *)
Theorem files_and_session_agree (open_file : string → checkpoint_file (T:=T)) ps st src r strict :
  let load := load_pretrained dtype_of post_load open_file ps st src r strict in
  let session paths := through_session ps st r (all_tensors (open_file <$> paths)) strict in
  (∀ st' rp, load = (st', Ok rp) → ∃ paths, resolve_source src = Ok paths ∧ session paths = (st', Ok rp)) ∧
  (∀ paths, resolve_source src = Ok paths → is_ok (rmap checkpoint_format paths) = true →
     readable (open_file <$> paths) → NoDup (stream_keys (resolve_remap r) (all_tensors (open_file <$> paths))) → load = session paths).
Proof.
  intros load session. split; [|intros paths; by apply files_session_equal]. intros st' rp Hl. unfold load in Hl. pose proof Hl as Hl'.
  unfold load_pretrained in Hl. destruct (resolve_source src) as [paths|] eqn:Hsrc; [|done]. exists paths. split; [done|].
  destruct (build_weight_index ps ([], [])) as [[index optional]|e]; [|done].
  destruct (rmap checkpoint_format paths) as [fs|] eqn:Hfmt; [|done].
  destruct (load_files _ _ _ _ _ _) as [g [u|e]] eqn:Hf; [|done].
  destruct u. apply load_files_readable in Hf as [Hread Hnd]; [|constructor]. unfold session.
  by rewrite <- (files_session_equal open_file ps st src r strict paths Hsrc) by (done || by rewrite Hfmt).
Qed.
End agreement.

(** ** The dispatch index *)

Section index.
Context {T : Type}.
Implicit Types (p : parameter (T:=T)) (acc : weight_index (T:=T) * list string).

(** The shard a parameter expects under a checkpoint key. *)
Definition shard_of p (key : string) : option shard_id :=
  match pa_hf_keys p with Some keys => dget keys key | None => None end.

Lemma index_keys_spec p keys acc acc' :
  index_keys p keys acc = Ok acc' →
  (∀ k, dget acc'.1 k = match dget acc.1 k with Some e => Some e | None => Entry p <$> dget keys k end) ∧
  (∀ k sh, dget keys k = Some sh → dget acc.1 k = None) ∧
  (∀ k, k ∈ acc'.2 ↔ k ∈ acc.2 ∨ pa_optional p = true ∧ is_Some (dget keys k)).
Proof.
  revert acc; induction keys as [|[key sh] keys IH]; intros acc; simpl.
  - intros [= <-]. split; [by intros k; destruct (dget acc.1 k)|]. split; [done|].
    intros k. split; [by left|intros [?|[_ Hk]]; [done|]]. by apply is_Some_None in Hk.
  - destruct (dget acc.1 key) eqn:Hkey; [done|]. intros Hacc.
    apply IH in Hacc as (Hget & Hnone & Hopt). simpl in *. split; [|split].
    + intros k. rewrite Hget, dget_dset. repeat case_decide; subst; try done. by rewrite Hkey.
    + intros k sh'. destruct (decide (k = key)) as [->|Hne]; [done|]. intros Hk.
      specialize (Hnone k sh' Hk). by rewrite dget_dset_ne in Hnone.
    + intros k. rewrite Hopt. destruct (decide (k = key)) as [->|Hne].
      * destruct (pa_optional p); [|naive_solver]. rewrite elem_of_app, list_elem_of_singleton.
        split; [|by left; right]. intros _. right. by split; [|eexists].
      * destruct (pa_optional p); [|naive_solver]. rewrite elem_of_app, list_elem_of_singleton. naive_solver.
Qed.

Lemma build_index_spec ps acc acc' :
  build_weight_index ps acc = Ok acc' →
  (∀ k e, dget acc.1 k = Some e → dget acc'.1 k = Some e) ∧
  (∀ p k sh, p ∈ ps → shard_of p k = Some sh → dget acc'.1 k = Some (Entry p sh)) ∧
  (∀ k e, dget acc'.1 k = Some e →
     dget acc.1 k = Some e ∨ en_parameter e ∈ ps ∧ shard_of (en_parameter e) k = Some (en_shard e)) ∧
  (∀ k, k ∈ acc'.2 ↔ k ∈ acc.2 ∨ ∃ p, p ∈ ps ∧ pa_optional p = true ∧ is_Some (shard_of p k)).
Proof.
  revert acc; induction ps as [|p ps IH]; intros acc; simpl.
  - intros [= <-]. split; [done|]. split; [by intros ? ? ? ?%elem_of_nil|]. split; [by left|].
    intros k. split; [by left|]. intros [?|(? & ?%elem_of_nil & _)]; done.
  - unfold shard_of. destruct (pa_hf_keys p) as [keys|] eqn:Hkeys.
    + intros Hb. apply bind_ok in Hb as (acc1 & Hk & Hb).
      apply index_keys_spec in Hk as (Hget & Hnone & Hopt).
      apply IH in Hb as (Hold & Hnew & Hconv & Hoptc). split; [|split; [|split]].
      * intros k e He. apply Hold. by rewrite Hget, He.
      * intros p' k sh [->|Hp']%elem_of_cons Hsh; [|by apply Hnew].
        rewrite Hkeys in Hsh. apply Hold. by rewrite Hget, (Hnone _ _ Hsh), Hsh.
      * intros k e He. destruct (Hconv _ _ He) as [Hacc|[Hin Hsh]]; [|right; split; [by right|done]].
        rewrite Hget in Hacc. destruct (dget acc.1 k); [by left|].
        destruct (dget keys k) as [sh|] eqn:Hd; [|done]. injection Hacc as <-. simpl.
        right. split; [by left|]. by rewrite Hkeys.
      * intros k. rewrite Hoptc, Hopt. split.
        -- intros [[?|[Ho Hk]]|(p' & Hp' & Ho & Hk)]; [by left|right; exists p|right; exists p'].
           ++ split; [by left|]. by rewrite Hkeys.
           ++ split; [by right|done].
        -- intros [?|(p' & [->|Hp']%elem_of_cons & Ho & Hk)]; [by left; left| |right; by exists p'].
           rewrite Hkeys in Hk. by left; right.
    + intros Hb. apply IH in Hb as (Hold & Hnew & Hconv & Hoptc). split; [done|split; [|split]].
      * intros p' k sh [->|Hp']%elem_of_cons Hsh; [by rewrite Hkeys in Hsh|by apply Hnew].
      * intros k e He. destruct (Hconv _ _ He) as [?|[Hin Hsh]]; [by left|right; split; [by right|done]].
      * intros k. rewrite Hoptc. split.
        -- intros [?|(p' & Hp' & ?)]; [by left|right; exists p'; split; [by right|done]].
        -- intros [?|(p' & [->|Hp']%elem_of_cons & Ho & Hk)]; [by left| |right; by exists p'].
           rewrite Hkeys in Hk. by apply is_Some_None in Hk.
Qed.
End index.

(** ** What a run of loaders leaves *)

Section effects.
Context {T : Type} (dtype_of : T → string).
Context (remap : string → option string) (index : weight_index (T:=T)).

(** The tensors of a stream that reach a parameter, with their entries. *)
Definition hits (items : list (string * T)) : list (string * entry (T:=T) * T) :=
  omap (λ it, key ← remap it.1; e ← dget index key; Some (key, e, it.2)) items.

Definition hit_value (name : string) (v : T) (h : string * entry (T:=T) * T) : T :=
  let p := en_parameter h.1.2 in
  if String.eqb (pa_name p) name then (pa_loader p v h.2 (en_shard h.1.2)).1 else v.

Lemma dispatch_ok key e t g g' :
  dispatch_tensor dtype_of key e t g = (g', Ok ()) →
  (∀ name v, dget (pg_store g) name = Some v →
     dget (pg_store g') name = Some (hit_value name v (key, e, t))) ∧
  rp_loaded (pg_report g') = rp_loaded (pg_report g) ++ [key] ∧
  rp_unexpected (pg_report g') = rp_unexpected (pg_report g) ∧
  rp_missing (pg_report g') = rp_missing (pg_report g) ∧
  rp_optional_missing (pg_report g') = rp_optional_missing (pg_report g).
Proof.
  unfold dispatch_tensor. destruct (dget (pg_store g) (pa_name (en_parameter e))) as [v0|] eqn:Hv; [|done].
  destruct (pa_loader (en_parameter e) v0 t (en_shard e)) as [v' [[]|?]] eqn:Hl; [|done].
  intros [= <-]. simpl. split; [|done]. intros name v Hname. unfold hit_value. simpl.
  destruct (String.eqb_spec (pa_name (en_parameter e)) name) as [<-|Hne].
  - rewrite dget_dset_eq. rewrite Hv in Hname. injection Hname as <-. by rewrite Hl.
  - by rewrite dget_dset_ne.
Qed.

(** A stream that went through without error: the keys that reached a
    parameter and those no parameter claims, each in order, no key reaching a
    parameter twice, and the values the loaders leave. *)
Lemma session_items_ok items g g' :
  session_items dtype_of remap index items g = (g', Ok ()) → NoDup (pg_seen g) →
  pg_seen g' = pg_seen g ++ (hits items).*1.*1 ∧ NoDup (pg_seen g') ∧
  rp_loaded (pg_report g') = rp_loaded (pg_report g) ++ (hits items).*1.*1 ∧
  rp_unexpected (pg_report g') = rp_unexpected (pg_report g) ++
    filter (λ k, dget index k = None) (stream_keys remap items) ∧
  rp_missing (pg_report g') = rp_missing (pg_report g) ∧
  rp_optional_missing (pg_report g') = rp_optional_missing (pg_report g) ∧
  ∀ name v, dget (pg_store g) name = Some v →
    dget (pg_store g') name = Some (foldl (hit_value name) v (hits items)).
Proof.
  revert g; induction items as [|[raw t] items IH]; intros g; simpl.
  { intros [= <-] Hnd. rewrite !app_nil_r. repeat split; done. }
  unfold session_item. simpl. unfold hits, stream_keys in *. simpl.
  destruct (remap raw) as [key|]; simpl; [|intros; by apply IH].
  case_bool_decide as Hseen; [done|]. destruct (dget index key) as [e|] eqn:Hi; simpl.
  - destruct (dispatch_tensor dtype_of key e t g) as [g1 [[]|ex]] eqn:Hd; [|done]. intros Hrun Hnd.
    pose proof (dispatch_seen _ _ _ _ _ _ _ Hd) as Hs. simpl in Hs.
    destruct (dispatch_ok _ _ _ _ _ Hd) as (Hst & Hld & Hun & Hmi & Hom).
    destruct (IH _ Hrun) as (IHs & IHnd & IHl & IHu & IHm & IHo & IHst).
    { rewrite Hs. apply NoDup_app. split; [done|]. split; [|apply NoDup_singleton].
      intros k Hk ->%list_elem_of_singleton. done. }
    rewrite IHs, Hs, IHl, Hld, IHu, Hun, IHm, Hmi, IHo, Hom, <- !app_assoc.
    rewrite IHs, Hs, <- app_assoc in IHnd. rewrite filter_cons_False by by rewrite Hi.
    repeat split; try done. intros name v Hv. by apply IHst, Hst.
  - intros Hrun Hnd. destruct (IH _ Hrun Hnd) as (IHs & IHnd & IHl & IHu & IHm & IHo & IHst).
    rewrite IHs, IHl, IHu, IHm, IHo. simpl. rewrite filter_cons_True, <- app_assoc by done.
    rewrite IHs in IHnd. repeat split; done.
Qed.
End effects.

(** ** Strict loads *)

Section strict.
Context {T : Type} (dtype_of : T → string) (post_load : store (T:=T) → store (T:=T) * res unit).

(** The tensors of the checkpoint a parameter asks for, in checkpoint
    order. *)
Definition sources_of (remap : string → option string) (p : parameter (T:=T)) (items : list (string * T))
    : list (T * shard_id) :=
  omap (λ it, key ← remap it.1; shard ← shard_of p key; Some (it.2, shard)) items.

Definition apply_loader (p : parameter (T:=T)) (v : T) (s : T * shard_id) : T := (pa_loader p v s.1 s.2).1.

Lemma hits_sources remap index opt ps p items v :
  build_weight_index ps ([], []) = Ok (index, opt) → NoDup (pa_name <$> ps) → p ∈ ps →
  foldl (hit_value (pa_name p)) v (hits remap index items) = foldl (apply_loader p) v (sources_of remap p items).
Proof.
  intros Hb Hnd Hp. destruct (build_index_spec _ _ _ Hb) as (_ & Hnew & Hconv & _). simpl in *.
  revert v; induction items as [|[raw t] items IH]; intros v; [done|].
  unfold hits, sources_of in *. simpl. destruct (remap raw) as [key|]; simpl; [|apply IH].
  destruct (dget index key) as [e|] eqn:He; simpl.
  - destruct (Hconv _ _ He) as [?|[Hin Hsh]]; [done|]. unfold hit_value at 2. simpl.
    destruct (String.eqb_spec (pa_name (en_parameter e)) (pa_name p)) as [Heq|Hne].
    + assert (en_parameter e = p) as <-.
      { apply list_elem_of_lookup in Hin as [i Hi]. apply list_elem_of_lookup in Hp as [j Hj].
        assert (i = j) as ->; [|congruence].
        apply (NoDup_lookup (pa_name <$> ps) _ _ (pa_name p) Hnd).
        - rewrite list_lookup_fmap, Hi. simpl. by rewrite Heq.
        - by rewrite list_lookup_fmap, Hj. }
      rewrite Hsh. simpl. apply IH.
    + destruct (shard_of p key) as [sh|] eqn:Hp'; simpl; [|apply IH].
      pose proof (Hnew _ _ _ Hp Hp') as Hx. rewrite Hx in He. by injection He as <-.
  - destruct (shard_of p key) as [sh|] eqn:Hp'; simpl; [|apply IH].
    pose proof (Hnew _ _ _ Hp Hp') as Hx. by rewrite Hx in He.
Qed.

(** C22: What a strict load that returns has done: every file could be read,
    every tensor of the checkpoint that the remap keeps was claimed by a
    parameter and arrived once, no required tensor is absent, and each
    parameter holds, before the post-load hooks, the result of its own loader
    applied to exactly the tensors it asks for, in checkpoint order. *)
Theorem strict_load_complete (open_file : string → checkpoint_file (T:=T)) ps st src r st' rp :
  load_pretrained dtype_of post_load open_file ps st src r true = (st', Ok rp) →
  NoDup (pa_name <$> ps) →
  ∃ paths st1,
    let items := all_tensors (open_file <$> paths) in
    let keys := stream_keys (resolve_remap r) items in
    resolve_source src = Ok paths ∧ readable (open_file <$> paths) ∧ post_load st1 = (st', Ok ()) ∧
    NoDup keys ∧ rp_loaded rp = keys ∧ rp_unexpected rp = [] ∧ rp_missing rp = [] ∧
    (∀ p key, p ∈ ps → is_Some (shard_of p key) → key ∈ keys ∨ key ∈ rp_optional_missing rp ∧ pa_optional p = true) ∧
    ∀ p v, p ∈ ps → dget st (pa_name p) = Some v →
      dget st1 (pa_name p) = Some (foldl (apply_loader p) v (sources_of (resolve_remap r) p items)).
Proof.
  unfold load_pretrained. intros Hrun Hnd.
  destruct (resolve_source src) as [paths|e]; [|done].
  destruct (build_weight_index ps ([], [])) as [[index opt]|e] eqn:Hb; [|done].
  destruct (rmap checkpoint_format paths) as [?|?]; [|done].
  destruct (load_files dtype_of (resolve_remap r) index (open_file <$> paths) [] (Progress st empty_report []))
    as [g [[]|e]] eqn:Hload; [|done].
  destruct (load_files_readable _ _ _ _ _ _ _ Hload (NoDup_nil_2 (A:=string))) as [Hread Hkeys]. simpl in Hkeys.
  rewrite load_files_session in Hload; [|done|by intros ? ?%elem_of_nil|done].
  destruct (session_items_ok _ _ _ _ _ _ Hload (NoDup_nil_2 (A:=string))) as (Hseen & _ & Hld & Hun & Hmi & _ & Hst). simpl in Hseen, Hld, Hun, Hmi, Hst.
  cbv zeta in Hrun. rewrite andb_true_l in Hrun.
  destruct (strict_failure (pg_report (add_missing index opt g))) eqn:Hstrict; [done|].
  unfold strict_failure in Hstrict. apply orb_false_iff in Hstrict as [Hm%negb_false_iff Hu%negb_false_iff].
  apply bool_decide_eq_true in Hm, Hu. simpl in Hm, Hu.
  destruct (post_load (pg_store g)) as [st2 rpost] eqn:Hpost. change (pg_store (add_missing index opt g)) with (pg_store g) in Hrun. rewrite Hpost in Hrun. injection Hrun as <- Hrp.
  apply bind_ok in Hrp as ([] & -> & [= <-]). simpl.
  exists paths, (pg_store g). split; [done|]. split; [done|]. split; [done|]. split; [done|].
  rewrite Hu in Hun. symmetry in Hun.
  destruct (build_index_spec _ _ _ Hb) as (_ & Hnew & Hconv & Hopt). simpl in *.
  assert ((hits (resolve_remap r) index (all_tensors (open_file <$> paths))).*1.*1
          = stream_keys (resolve_remap r) (all_tensors (open_file <$> paths))) as Hall.
  { clear -Hun. unfold hits, stream_keys in *. induction (all_tensors _) as [|[raw t] items IH]; [done|]. simpl in *.
    destruct (resolve_remap r raw) as [key|]; simpl in *; [|by apply IH].
    destruct (dget index key) eqn:He; simpl.
    - rewrite filter_cons_False in Hun by by rewrite He. f_equal. by apply IH.
    - by rewrite filter_cons_True in Hun. }
  split; [by rewrite Hld, Hall|]. split; [done|]. split; [exact Hm|].
  split.
  - intros p key Hp [sh Hsh]. rewrite <- Hall, <- Hseen.
    destruct (decide (key ∈ pg_seen g)) as [?|Hns]; [by left|right].
    assert (key ∈ dkeys index) as Hin by (apply dget_is_Some; rewrite (Hnew _ _ _ Hp Hsh); by eexists).
    apply app_eq_nil in Hm as [_ Hm].
    destruct (decide (key ∈ opt)) as [Ho|Ho].
    + split; [apply elem_of_app; right; apply list_elem_of_filter; split; [done|]; by apply list_elem_of_filter|].
      apply Hopt in Ho as [?%elem_of_nil|(p' & Hp' & Hpo & [sh' Hsh'])]; [done|].
      pose proof (Hnew _ _ _ Hp Hsh) as Hx. rewrite (Hnew _ _ _ Hp' Hsh') in Hx. by injection Hx as -> _.
    + exfalso. apply (not_elem_of_nil key). rewrite <- Hm. apply list_elem_of_filter. split; [done|].
      by apply list_elem_of_filter.
  - intros p v Hp Hv. rewrite (Hst _ _ Hv). f_equal. by eapply hits_sources.
Qed.
End strict.

(** ** A small checkpoint

    A fused parameter fed by two keys, an optional bias the checkpoint lacks,
    in two files; the loaders add what arrives to what is there. *)

Definition demo_loader (v t : Z) (sh : shard_id) : Z * res unit :=
  (v + match sh with IntShard i => t * 10 ^ i | _ => t end, Ok ()).

Definition demo_params : list (parameter (T:=Z)) :=
  [ModelParameter "mlp.weight" (Some [("gate"%string, IntShard 0); ("up"%string, IntShard 1)]) demo_loader false false;
   ModelParameter "mlp.bias" (Some [("bias"%string, NoShard)]) demo_loader true true;
   ModelParameter "buffer" None demo_loader false false].
Definition demo_values : store (T:=Z) := [("mlp.weight"%string, 0); ("mlp.bias"%string, 7); ("buffer"%string, 9)].

Definition demo_file (name : string) : checkpoint_file (T:=Z) :=
  if String.eqb name "a.safetensors" then CheckpointFile name [("model.up"%string, 3); ("skip.me"%string, 8)] OOther
  else CheckpointFile name []
         (OMapping [(None, OTensor 5);
                    (Some "state_dict"%string, OMapping [(Some "model.gate"%string, OTensor 4); (Some "epoch"%string, OOther)])]).
Definition demo_source : source := FromFiles [("a.safetensors"%string, true); ("b.bin"%string, true)].
Definition demo_remap : remap_spec :=
  RemapCallable (λ k, if contains "skip" k then None else Some (str_replace "model." "" k)).
Definition demo_post (st : store (T:=Z)) : store (T:=Z) * res unit := (dset st "buffer" 1, Ok ()).

Lemma demo_readable : readable (demo_file <$> ["a.safetensors"; "b.bin"]%string).
Proof. repeat constructor. Defined.

Lemma demo_keys_distinct :
  NoDup (stream_keys (resolve_remap demo_remap) (all_tensors (demo_file <$> ["a.safetensors"; "b.bin"]%string))).
Proof. apply (bool_decide_unpack _). vm_compute. exact I. Defined.

Lemma files_and_session_agree_witness :
  load_pretrained (λ _, "bf16"%string) demo_post demo_file demo_params demo_values demo_source demo_remap true =
    through_session (λ _, "bf16"%string) demo_post demo_params demo_values demo_remap
      [("model.up"%string, 3); ("skip.me"%string, 8); ("model.gate"%string, 4)] true ∧
  load_pretrained (λ _, "bf16"%string) demo_post demo_file demo_params demo_values demo_source demo_remap true =
    ([("mlp.weight"%string, 34); ("mlp.bias"%string, 7); ("buffer"%string, 1)],
     Ok (LoadReport ["up"; "gate"]%string [] ["bias"%string] [] [])).
Proof.
  split; [|vm_compute; reflexivity].
  exact (proj2 (files_and_session_agree (λ _, "bf16"%string) demo_post demo_file demo_params demo_values demo_source
    demo_remap true) ["a.safetensors"; "b.bin"]%string eq_refl eq_refl demo_readable demo_keys_distinct).
Defined.

Lemma strict_load_complete_witness :
  ∃ paths st1,
    let items := all_tensors (demo_file <$> paths) in
    let keys := stream_keys (resolve_remap demo_remap) items in
    resolve_source demo_source = Ok paths ∧ readable (demo_file <$> paths) ∧
    demo_post st1 = ([("mlp.weight"%string, 34); ("mlp.bias"%string, 7); ("buffer"%string, 1)], Ok ()) ∧
    NoDup keys ∧ ["up"; "gate"]%string = keys ∧ [] =@{list string} [] ∧ [] =@{list string} [] ∧
    (∀ p key, p ∈ demo_params → is_Some (shard_of p key) → key ∈ keys ∨ key ∈ ["bias"%string] ∧ pa_optional p = true) ∧
    ∀ p v, p ∈ demo_params → dget demo_values (pa_name p) = Some v →
      dget st1 (pa_name p) = Some (foldl (apply_loader p) v (sources_of (resolve_remap demo_remap) p items)).
Proof.
  apply (strict_load_complete (λ _, "bf16"%string) demo_post demo_file demo_params demo_values demo_source demo_remap
    [("mlp.weight"%string, 34); ("mlp.bias"%string, 7); ("buffer"%string, 1)]
    (LoadReport ["up"; "gate"]%string [] ["bias"%string] [] [])).
  - vm_compute. reflexivity.
  - apply (bool_decide_unpack _). vm_compute. exact I.
Defined.
