(* ===== verification/KvCache.v ===== *)
(** * K/V storage ([cache/kv_cache_pool.py], [cache/static_cache.py])

    The per-layer pool of K and V rows, its writes and reads by slot, and the
    allocators that hand out the slots of a range in order. *)

From S2P Require Import Prelude Tensor.
Open Scope Z_scope.

(** ** Indexing in [torch]

    [t[ids, 0] = src], [t.index_select(0, ids)] and [t.squeeze(1)], with the
    part of their documentation the pool relies on. *)

(** The positions at which a slot occurs. *)
Definition positions (i : Z) (ids : list Z) : list nat :=
  filter (λ p, ids !! p = Some i) (seq 0 (List.length ids)).

Class TorchIndex (E T : Type) `{Torch E T} := {
  t_index_put : T → list Z → T → res T;
  t_index_select : T → list Z → res T;
  t_squeeze1 : T → T;
}.

(** An assignment through an index writes each row that occurs once and
    leaves the rows that do not occur; which of several writes to one row
    stays is not said. *)
Class TorchIndexLaws (E T : Type) `{TorchLaws E T} `{!TorchIndex E T} : Prop := {
  index_put_ok t ids src n rest :
    t_shape t = n :: 1 :: rest → t_shape src = Z.of_nat (List.length ids) :: rest →
    Forall (λ i, 0 <= i < n) ids →
    ∃ t', t_index_put t ids src = Ok t' ∧ t_shape t' = t_shape t ∧
      ∀ i ix, 0 <= i < n → in_shape rest ix →
        (i ∉ ids → t_get t' (i :: 0 :: ix) = t_get t (i :: 0 :: ix)) ∧
        (∀ p, positions i ids = [p] → t_get t' (i :: 0 :: ix) = t_get src (Z.of_nat p :: ix));
  index_put_err t ids src n rest :
    t_shape t = n :: rest → (∃ i, i ∈ ids ∧ ¬ - n <= i < n) → t_index_put t ids src = Err IndexError;
  index_select_ok t ids n rest :
    t_shape t = n :: rest → Forall (λ i, 0 <= i < n) ids →
    ∃ t', t_index_select t ids = Ok t' ∧ t_shape t' = Z.of_nat (List.length ids) :: rest ∧
      ∀ p i ix, ids !! p = Some i → in_shape rest ix → t_get t' (Z.of_nat p :: ix) = t_get t (i :: ix);
  squeeze1_ok t n rest :
    t_shape t = n :: 1 :: rest →
    t_shape (t_squeeze1 t) = n :: rest ∧
    ∀ i ix, 0 <= i < n → in_shape rest ix → t_get (t_squeeze1 t) (i :: ix) = t_get t (i :: 0 :: ix);
}.

(** ** The pool *)

(** [seq[i]] of Python: negative indices count from the end. *)
Definition py_item {A} (l : list A) (i : Z) : res (nat * A) :=
  let n := Z.of_nat (List.length l) in
  let j := if i <? 0 then i + n else i in
  if (0 <=? j) && (j <? n) then
    match l !! Z.to_nat j with Some x => Ok (Z.to_nat j, x) | None => Err IndexError end
  else Err IndexError.

Section pool.
Context {E T : Type} `{TorchIndex E T}.

Record kv_pool : Type := KVCachePool {
  kp_layers : Z;
  kp_slots : Z;
  kp_heads : Z;
  kp_dim : Z;
  kp_page : Z;
  kp_k : list T;
  kp_v : list T;
}.

(** A tensor of slot indices: its shape, whether it is int64, its values in
    order. *)
Record slot_tensor : Type := SlotTensor {
  sx_shape : list Z;
  sx_int64 : bool;
  sx_values : list Z;
}.

Definition slots_1d (ids : list Z) : slot_tensor := SlotTensor [Z.of_nat (List.length ids)] true ids.

(** [KVCachePool(...)] *)
Definition pool_init (num_layers num_slots num_kv_heads head_dim page_size : Z) : res kv_pool :=
  _ ← ensure (0 <? num_layers) ValueError;
  _ ← ensure (0 <? num_slots) ValueError;
  _ ← ensure (0 <? num_kv_heads) ValueError;
  _ ← ensure (0 <? head_dim) ValueError;
  _ ← ensure (0 <? page_size) ValueError;
  let shape := [num_slots; page_size; num_kv_heads; head_dim] in
  let buffers := replicate (Z.to_nat num_layers) (t_zeros shape) in
  Ok (KVCachePool num_layers num_slots num_kv_heads head_dim page_size buffers buffers).

Definition k_buffer (p : kv_pool) (layer_id : Z) : res T := '(_, t) ← py_item (kp_k p) layer_id; Ok t.
Definition v_buffer (p : kv_pool) (layer_id : Z) : res T := '(_, t) ← py_item (kp_v p) layer_id; Ok t.
Definition kv_buffer (p : kv_pool) (layer_id : Z) : res (T * T) :=
  k ← k_buffer p layer_id; v ← v_buffer p layer_id; Ok (k, v).

Definition set_k (p : kv_pool) (l : nat) (t : T) : kv_pool :=
  KVCachePool (kp_layers p) (kp_slots p) (kp_heads p) (kp_dim p) (kp_page p) (<[l := t]> (kp_k p)) (kp_v p).
Definition set_v (p : kv_pool) (l : nat) (t : T) : kv_pool :=
  KVCachePool (kp_layers p) (kp_slots p) (kp_heads p) (kp_dim p) (kp_page p) (kp_k p) (<[l := t]> (kp_v p)).

(** [write_kv]: the checks, then the K write, then the V write; what the first
    wrote stays when the second fails. *)
Definition write_kv (p : kv_pool) (layer_id : Z) (slots : slot_tensor) (k v : T) : kv_pool * res unit :=
  if negb (Nat.eqb (List.length (sx_shape slots)) 1) then (p, Err ValueError)
  else if negb (sx_int64 slots) then (p, Err ValueError)
  else
    let expected := default 0 (sx_shape slots !! 0%nat) :: [kp_heads p; kp_dim p] in
    if negb (bool_decide (t_shape k = expected) && bool_decide (t_shape v = expected)) then (p, Err ValueError)
    else if negb (kp_page p =? 1) then (p, Err NotImplementedError)
    else
      match py_item (kp_k p) layer_id with
      | Err e => (p, Err e)
      | Ok (l, buf) =>
          match t_index_put buf (sx_values slots) k with
          | Err e => (p, Err e)
          | Ok buf' =>
              let p := set_k p l buf' in
              match py_item (kp_v p) layer_id with
              | Err e => (p, Err e)
              | Ok (l, buf) =>
                  match t_index_put buf (sx_values slots) v with
                  | Err e => (p, Err e)
                  | Ok buf' => (set_v p l buf', Ok ())
                  end
              end
          end
      end.

(** [gather_kv]; [out] is the pair of scratch tensors, the second of which may
    be missing; they come back filled. *)
Definition gather_kv (p : kv_pool) (layer_id : Z) (slots : slot_tensor) (out : option (T * option T)) : res (T * T) :=
  _ ← ensure (Nat.eqb (List.length (sx_shape slots)) 1) ValueError;
  k_buf ← k_buffer p layer_id;
  k_rows ← t_index_select k_buf (sx_values slots);
  v_buf ← v_buffer p layer_id;
  v_rows ← t_index_select v_buf (sx_values slots);
  let k_view := t_squeeze1 k_rows in
  let v_view := t_squeeze1 v_rows in
  match out with
  | None => Ok (k_view, v_view)
  | Some (out_k, out_v) =>
      let expected := default 0 (sx_shape slots !! 0%nat) :: [kp_heads p; kp_dim p] in
      if negb (bool_decide (t_shape out_k = expected)) then Err ValueError
      else match out_v with
           | None => Err OtherError
           | Some out_v =>
               if negb (bool_decide (t_shape out_v = expected)) then Err ValueError
               else Ok (t_copy_ out_k Whole k_view, t_copy_ out_v Whole v_view)
           end
  end.

(** [zero_] *)
Definition pool_zero (p : kv_pool) : kv_pool :=
  KVCachePool (kp_layers p) (kp_slots p) (kp_heads p) (kp_dim p) (kp_page p)
    ((λ t, t_zero_ t Whole) <$> kp_k p) ((λ t, t_zero_ t Whole) <$> kp_v p).

Definition total_bytes (element_size : Z) (p : kv_pool) : Z :=
  kp_slots p * kp_page p * kp_heads p * kp_dim p * element_size * 2 * kp_layers p.

(** ** The allocator *)

Record static_cache : Type := StaticCache {
  sc_base : Z;
  sc_capacity : Z;
  sc_cursor : Z;
}.

(** [StaticCache(pool, base_offset=..., capacity=...)] *)
Definition static_init (p : kv_pool) (base_offset capacity : Z) : res static_cache :=
  _ ← ensure (0 <=? base_offset) ValueError;
  _ ← ensure (0 <? capacity) ValueError;
  _ ← ensure (base_offset + capacity <=? kp_slots p) ValueError;
  Ok (StaticCache base_offset capacity 0).

Definition used (c : static_cache) : Z := sc_cursor c.
Definition remaining (c : static_cache) : Z := sc_capacity c - sc_cursor c.
Definition reset (c : static_cache) : static_cache := StaticCache (sc_base c) (sc_capacity c) 0.

(** [torch.arange(start, start + n)] *)
Definition arange (start n : Z) : list Z := (λ i, start + Z.of_nat i) <$> seq 0 (Z.to_nat n).

Definition allocate (c : static_cache) (n : Z) : static_cache * res slot_tensor :=
  if n <? 0 then (c, Err ValueError)
  else if sc_capacity c <? sc_cursor c + n then (c, Err StaticCacheError)
  else
    let start := sc_base c + sc_cursor c in
    (StaticCache (sc_base c) (sc_capacity c) (sc_cursor c + n), Ok (slots_1d (arange start n))).

Definition slot_range (c : static_cache) : Z * Z := (sc_base c, sc_base c + sc_capacity c).
Definition used_slot_range (c : static_cache) : Z * Z := (sc_base c, sc_base c + sc_cursor c).
End pool.
