(* ===== verification/KvProps.v ===== *)
(** * Properties of K/V storage

    What the allocator hands out, what a read returns after any history of
    writes, and that caches with disjoint ranges do not see one another. *)

From S2P Require Import Prelude Tensor KvCache.
Open Scope Z_scope.

(** ** Lists of slots *)

Lemma elem_of_arange i start n : i ∈ arange start n ↔ start <= i < start + n.
Proof.
  unfold arange. rewrite list_elem_of_fmap. split.
  - intros (k & -> & Hk%elem_of_seq). lia.
  - intros Hi. exists (Z.to_nat (i - start)). rewrite elem_of_seq. lia.
Qed.

Lemma arange_length start n : List.length (arange start n) = Z.to_nat n.
Proof. unfold arange. by rewrite length_fmap, length_seq. Qed.

Lemma arange_app start n m : 0 <= n → 0 <= m → arange start (n + m) = arange start n ++ arange (start + n) m.
Proof.
  intros Hn Hm. unfold arange. rewrite Z2Nat.inj_add, seq_app, fmap_app by lia. f_equal.
  apply list_eq. intros i. rewrite !list_lookup_fmap, Nat.add_0_l.
  destruct (decide (i < Z.to_nat m)%nat) as [Hi|Hi].
  - rewrite !lookup_seq_lt by done. simpl. f_equal. lia.
  - by rewrite !lookup_seq_ge by lia.
Qed.

Lemma arange_NoDup start n : NoDup (arange start n).
Proof. unfold arange. apply NoDup_fmap_2; [|apply NoDup_seq]. intros a b ?. lia. Qed.

Lemma elem_of_positions i ids p : p ∈ positions i ids ↔ ids !! p = Some i.
Proof.
  unfold positions. rewrite list_elem_of_filter, elem_of_seq. split; [by intros [? _]|].
  intros Hp. split; [done|]. apply lookup_lt_Some in Hp. lia.
Qed.

Lemma positions_nil i ids : i ∉ ids → positions i ids = [].
Proof.
  intros Hi. destruct (positions i ids) as [|p l] eqn:Hp; [done|]. destruct Hi.
  eapply list_elem_of_lookup_2, elem_of_positions. rewrite Hp. by left.
Qed.

Lemma positions_NoDup i ids p : NoDup ids → ids !! p = Some i → positions i ids = [p].
Proof.
  intros Hnd Hp. assert (∀ q, q ∈ positions i ids → q = p) as Hall.
  { intros q Hq%elem_of_positions. by eapply NoDup_lookup. }
  assert (NoDup (positions i ids)) as Hn by apply NoDup_filter, NoDup_seq.
  apply elem_of_positions in Hp as Hin. destruct (positions i ids) as [|q l]; [by apply elem_of_nil in Hin|].
  rewrite (Hall q) in * by by left. f_equal. destruct l as [|q' l]; [done|].
  rewrite (Hall q') in Hn by (right; by left). apply NoDup_cons in Hn as [Hn _]. destruct Hn. by left.
Qed.

(** ** The allocator *)

Definition cache_ok (c : static_cache) : Prop := 0 <= sc_base c ∧ 0 <= sc_cursor c <= sc_capacity c.

(** Requests served one after the other. *)
Fixpoint allocate_all (c : static_cache) (ns : list Z) : static_cache * list (res slot_tensor) :=
  match ns with
  | [] => (c, [])
  | n :: ns' =>
      let '(c', r) := allocate c n in
      let '(c'', rs) := allocate_all c' ns' in (c'', r :: rs)
  end.

(** The slots of the requests that were granted. *)
Definition granted (rs : list (res slot_tensor)) : list Z :=
  mjoin ((λ r, match r with Ok s => sx_values s | Err _ => [] end) <$> rs).

(** The outcome a request should have when [left] slots remain. *)
Definition allocate_spec (left n : Z) : res Z :=
  if n <? 0 then Err ValueError else if left <? n then Err StaticCacheError else Ok n.

Fixpoint outcomes (left : Z) (ns : list Z) : list (res Z) :=
  match ns with
  | [] => []
  | n :: ns' =>
      let r := allocate_spec left n in
      r :: outcomes (match r with Ok n => left - n | Err _ => left end) ns'
  end.

Definition size_of (r : res slot_tensor) : res Z :=
  s ← r; Ok (Z.of_nat (List.length (sx_values s))).

Lemma allocate_cases c n :
  cache_ok c →
  let '(c', r) := allocate c n in
  cache_ok c' ∧ sc_base c' = sc_base c ∧ sc_capacity c' = sc_capacity c ∧
  size_of r = allocate_spec (remaining c) n ∧
  match r with
  | Ok s => s = slots_1d (arange (sc_base c + sc_cursor c) n) ∧ 0 <= n ∧ sc_cursor c' = sc_cursor c + n
  | Err _ => c' = c
  end.
Proof.
  intros (Hb & Hc). unfold allocate, allocate_spec, remaining, cache_ok.
  destruct (Z.ltb_spec n 0); [done|].
  destruct (Z.ltb_spec (sc_capacity c) (sc_cursor c + n)), (Z.ltb_spec (sc_capacity c - sc_cursor c) n);
    try lia; simpl; repeat split; try lia.
  rewrite arange_length. by rewrite Z2Nat.id.
Qed.

(** The requests between two resets: whatever is asked for, the slots
    handed out, in order, are exactly the first slots of the range of the
    cache (so none is handed out twice and none lies outside the range), the
    cursor counts them, a request is refused exactly when it is negative or
    larger than what is left, and a refused request changes nothing. *)
Theorem allocations_exact c ns c' rs :
  cache_ok c → allocate_all (reset c) ns = (c', rs) →
  granted rs = arange (sc_base c) (used c') ∧ cache_ok c' ∧
  slot_range c' = slot_range c ∧ size_of <$> rs = outcomes (sc_capacity c) ns.
Proof.
  intros Hok Hrun.
  assert (∀ ns c0 c' rs, cache_ok c0 → allocate_all c0 ns = (c', rs) →
    arange (sc_base c0) (used c0) ++ granted rs = arange (sc_base c0) (used c') ∧ cache_ok c' ∧
    slot_range c' = slot_range c0 ∧ size_of <$> rs = outcomes (remaining c0) ns) as Hgen.
  { clear. induction ns as [|n ns IH]; intros c0 c' rs Hok; simpl.
    { intros [= <- <-]. by rewrite app_nil_r. }
    pose proof (allocate_cases c0 n Hok) as Hstep. destruct (allocate c0 n) as [c1 r].
    destruct Hstep as (Hok1 & Hb & Hcap & Hr & Hv).
    destruct (allocate_all c1 ns) as [c2 rs2] eqn:Hrest. intros [= <- <-].
    destruct (IH _ _ _ Hok1 Hrest) as (Hg & Hok2 & Hsr & Ho).
    unfold slot_range in *. rewrite Hb, Hcap in *. rewrite fmap_cons, Ho. simpl.
    rewrite <- Hr. unfold granted in *. simpl. split; [|split; [done|split; [done|]]].
    - rewrite <- Hg. unfold used. destruct r as [s|e]; simpl; [|by subst].
      destruct Hv as (-> & Hn & ->). simpl. destruct Hok. rewrite arange_app by lia. by rewrite app_assoc.
    - f_equal. destruct r as [s|e]; [|by subst]. destruct Hv as (-> & Hn & Hc). simpl.
      rewrite arange_length, Z2Nat.id by done. f_equal. unfold remaining. lia. }
  destruct Hok as [Hb Hc].
  destruct (Hgen ns (reset c) c' rs ltac:(split; simpl; lia) Hrun) as (Hg & ? & ? & Ho).
  split; [exact Hg|]. split; [done|]. split; [done|]. rewrite Ho. unfold remaining. simpl. by rewrite Z.sub_0_r.
Qed.

(** ** Writes and reads of the pool *)

Section pool.
Context {E T : Type} `{TorchIndexLaws E T}.

Definition pool_shape (p : kv_pool (T:=T)) : list Z := [kp_slots p; 1; kp_heads p; kp_dim p].

(** A pool of one-token pages. *)
Definition pool_ok (p : kv_pool (T:=T)) : Prop :=
  kp_page p = 1 ∧ 0 < kp_slots p ∧ List.length (kp_k p) = List.length (kp_v p) ∧
  (∀ t, t ∈ kp_k p → t_shape t = pool_shape p) ∧ (∀ t, t ∈ kp_v p → t_shape t = pool_shape p).

(** The row of a slot in one buffer. *)
Definition row_is (p : kv_pool (T:=T)) (buffers : list T) (l : nat) (s : Z) (f : list Z → E) : Prop :=
  ∃ t, buffers !! l = Some t ∧ ∀ ix, in_shape [kp_heads p; kp_dim p] ix → t_get t (s :: 0 :: ix) = f ix.

Definition holds (p : kv_pool (T:=T)) (l : nat) (s : Z) (fk fv : list Z → E) : Prop :=
  row_is p (kp_k p) l s fk ∧ row_is p (kp_v p) l s fv.

Lemma py_item_ok {A} (l : list A) i j x : py_item l i = Ok (j, x) → l !! j = Some x.
Proof.
  unfold py_item. intros Hx. by repeat case_match; simplify_eq.
Qed.

Lemma py_item_length {A B} (l : list A) (k : list B) i j x :
  List.length l = List.length k → py_item l i = Ok (j, x) → ∃ y, py_item k i = Ok (j, y).
Proof.
  intros Hlen Hi. pose proof (py_item_ok _ _ _ _ Hi) as Hj. unfold py_item in *. rewrite <- Hlen.
  revert Hi. generalize (if i <? 0 then i + Z.of_nat (List.length l) else i). intros j' Hi.
  destruct (_ && _); [|done]. assert (is_Some (k !! j)) as [y Hy].
  { apply lookup_lt_is_Some. rewrite <- Hlen. by eapply lookup_lt_Some. }
  destruct (l !! Z.to_nat j'); [|done]. injection Hi as <- <-. rewrite Hy. by exists y.
Qed.

(** The index assignment on one list of buffers. *)
Lemma put_rows p (buffers : list T) l t t' ids src n rest :
  buffers !! l = Some t → t_shape t = n :: 1 :: rest → rest = [kp_heads p; kp_dim p] →
  t_shape src = Z.of_nat (List.length ids) :: rest → Forall (λ i, 0 <= i < n) ids →
  t_index_put t ids src = Ok t' →
  t_shape t' = t_shape t ∧
  (∀ l' s f, 0 <= s < n → (l' ≠ l ∨ s ∉ ids) → row_is p buffers l' s f → row_is p (<[l := t']> buffers) l' s f) ∧
  (∀ s q, 0 <= s < n → positions s ids = [q] →
     row_is p (<[l := t']> buffers) l s (λ ix, t_get src (Z.of_nat q :: ix))).
Proof.
  intros Hl Hsh -> Hsrc Hids Hput.
  destruct (index_put_ok t ids src n _ Hsh Hsrc Hids) as (t2 & Hput2 & Hsh' & Hget).
  rewrite Hput in Hput2. injection Hput2 as <-. split; [done|]. split.
  - intros l' s f Hs Hor (t0 & Hl' & Hf). destruct (decide (l' = l)) as [->|Hne].
    + destruct Hor as [?|Hs']; [done|]. rewrite Hl in Hl'. injection Hl' as <-. exists t'.
      split; [by apply list_lookup_insert_eq, (lookup_lt_Some _ _ _ Hl)|]. intros ix Hix.
      destruct (Hget s ix Hs Hix) as [Hk _]. rewrite Hk by done. by apply Hf.
    + exists t0. split; [|done]. by rewrite list_lookup_insert_ne.
  - intros s q Hs Hq. exists t'. split; [by apply list_lookup_insert_eq, (lookup_lt_Some _ _ _ Hl)|].
    intros ix Hix. destruct (Hget s ix Hs Hix) as [_ Hk]. by apply Hk.
Qed.

Lemma insert_shapes (buffers : list T) l t' sh :
  (∀ t, t ∈ buffers → t_shape t = sh) → t_shape t' = sh → ∀ t, t ∈ <[l := t']> buffers → t_shape t = sh.
Proof.
  intros Hall Ht' t [i Hi]%list_elem_of_lookup. apply list_lookup_insert_Some in Hi as [(? & -> & ?)|(? & Hi)]; [done|].
  by apply Hall, (list_elem_of_lookup_2 _ i).
Qed.

Lemma write_kv_spec p layer ids k v p' :
  pool_ok p → Forall (λ i, 0 <= i < kp_slots p) ids → write_kv p layer (slots_1d ids) k v = (p', Ok ()) →
  ∃ l t, py_item (kp_k p) layer = Ok (l, t) ∧ pool_ok p' ∧
    kp_slots p' = kp_slots p ∧ kp_heads p' = kp_heads p ∧ kp_dim p' = kp_dim p ∧
    List.length (kp_k p') = List.length (kp_k p) ∧
    t_shape k = [Z.of_nat (List.length ids); kp_heads p; kp_dim p] ∧
    t_shape v = [Z.of_nat (List.length ids); kp_heads p; kp_dim p] ∧
    (∀ l' s fk fv, 0 <= s < kp_slots p → (l' ≠ l ∨ s ∉ ids) → holds p l' s fk fv → holds p' l' s fk fv) ∧
    (∀ s q, 0 <= s < kp_slots p → positions s ids = [q] →
       holds p' l s (λ ix, t_get k (Z.of_nat q :: ix)) (λ ix, t_get v (Z.of_nat q :: ix))).
Proof.
  intros Hok Hids. destruct Hok as (Hpage & Hpos & Hlen & Hk & Hv).
  unfold write_kv. simpl. destruct (bool_decide (t_shape k = _) && bool_decide (t_shape v = _)) eqn:Hsh; [|done].
  apply andb_true_iff in Hsh as [Hsk%bool_decide_eq_true Hsv%bool_decide_eq_true]. simpl.
  rewrite Hpage. simpl. destruct (py_item (kp_k p) layer) as [[l tk]|e] eqn:Hlk; [|done].
  destruct (py_item_length _ _ _ _ _ Hlen Hlk) as [tv Hlv].
  destruct (t_index_put tk ids k) as [tk'|e] eqn:Hpk; [|done]. rewrite Hlv.
  destruct (t_index_put tv ids v) as [tv'|e] eqn:Hpv; [|done]. intros [= <-]. simpl.
  apply py_item_ok in Hlk as Hlk'. apply py_item_ok in Hlv.
  assert (t_shape tk = pool_shape p) as Hstk by (by apply Hk, (list_elem_of_lookup_2 _ l)).
  assert (t_shape tv = pool_shape p) as Hstv by (by apply Hv, (list_elem_of_lookup_2 _ l)).
  destruct (put_rows p (kp_k p) l tk tk' ids k _ _ Hlk' Hstk eq_refl Hsk Hids Hpk) as (Hs1 & Hf1 & Hw1).
  destruct (put_rows p (kp_v p) l tv tv' ids v _ _ Hlv Hstv eq_refl Hsv Hids Hpv) as (Hs2 & Hf2 & Hw2).
  exists l, tk. split; [done|]. split.
  { split; [done|]. split; [done|]. simpl. rewrite !length_insert. split; [done|].
    split; [by apply insert_shapes; [|rewrite Hs1]|by apply insert_shapes; [|rewrite Hs2]]. }
  rewrite length_insert. do 4 (split; [done|]). split; [done|]. split; [done|]. split.
  - intros l' s fk fv Hs Hor [? ?]. split; [by apply Hf1|by apply Hf2].
  - intros s q Hs Hq. split; [by apply Hw1|by apply Hw2].
Qed.

(** A read gives, for every position, the row of its slot. *)
Lemma select_rows (p : kv_pool (T:=T)) buf t ids n :
  t_shape t = [n; 1; kp_heads p; kp_dim p] → Forall (λ i, 0 <= i < n) ids →
  t_index_select t ids = Ok buf →
  t_shape (t_squeeze1 buf) = [Z.of_nat (List.length ids); kp_heads p; kp_dim p] ∧
  ∀ q s ix, ids !! q = Some s → in_shape [kp_heads p; kp_dim p] ix →
    t_get (t_squeeze1 buf) (Z.of_nat q :: ix) = t_get t (s :: 0 :: ix).
Proof.
  intros Hsh Hids Hsel. destruct (index_select_ok t ids n _ Hsh Hids) as (t' & Hsel' & Hsh' & Hget).
  rewrite Hsel in Hsel'. injection Hsel' as <-.
  destruct (squeeze1_ok buf _ _ Hsh') as [Hs Hq]. split; [done|]. intros q s ix Hq' Hix.
  rewrite Hq; [|apply lookup_lt_Some in Hq'; lia|done].
  apply Hget; [done|]. constructor; [lia|done].
Qed.

Lemma gather_kv_spec p layer l t ids :
  pool_ok p → py_item (kp_k p) layer = Ok (l, t) → Forall (λ i, 0 <= i < kp_slots p) ids →
  ∃ k v, gather_kv p layer (slots_1d ids) None = Ok (k, v) ∧
    t_shape k = [Z.of_nat (List.length ids); kp_heads p; kp_dim p] ∧
    t_shape v = [Z.of_nat (List.length ids); kp_heads p; kp_dim p] ∧
    ∀ q s fk fv ix, ids !! q = Some s → holds p l s fk fv → in_shape [kp_heads p; kp_dim p] ix →
      t_get k (Z.of_nat q :: ix) = fk ix ∧ t_get v (Z.of_nat q :: ix) = fv ix.
Proof.
  intros (Hpage & Hpos & Hlen & Hk & Hv) Hl Hids.
  destruct (py_item_length _ _ _ _ _ Hlen Hl) as [tv Hlv]. unfold gather_kv, k_buffer, v_buffer. simpl.
  rewrite Hl, Hlv. simpl. apply py_item_ok in Hl as Hl'. apply py_item_ok in Hlv.
  assert (t_shape t = pool_shape p) as Hst by (by apply Hk, (list_elem_of_lookup_2 _ l)).
  assert (t_shape tv = pool_shape p) as Hstv by (by apply Hv, (list_elem_of_lookup_2 _ l)).
  destruct (index_select_ok t ids _ _ Hst Hids) as (rk & Hrk & _).
  destruct (index_select_ok tv ids _ _ Hstv Hids) as (rv & Hrv & _). rewrite Hrk, Hrv. simpl.
  destruct (select_rows p rk t ids _ Hst Hids Hrk) as [Hs1 Hg1].
  destruct (select_rows p rv tv ids _ Hstv Hids Hrv) as [Hs2 Hg2].
  do 2 eexists. split; [done|]. split; [done|]. split; [done|].
  intros q s fk fv ix Hq [(t1 & Ht1 & Hf1) (t2 & Ht2 & Hf2)] Hix.
  rewrite (Hg1 q s ix Hq Hix), (Hg2 q s ix Hq Hix).
  rewrite Hl' in Ht1. rewrite Hlv in Ht2. injection Ht1 as <-. injection Ht2 as <-.
  split; [by apply Hf1|by apply Hf2].
Qed.
End pool.

(** ** Caches sharing a pool *)

Section system.
Context {E T : Type} `{TorchIndexLaws E T}.

Record system : Type := System {
  sy_pool : kv_pool (T:=T);
  sy_caches : list static_cache;
}.

(** What the users of the caches do, each with its own cache. *)
Inductive cache_event : Type :=
  | EAllocate (c : nat) (n : Z)
  | EReset (c : nat)
  | EWrite (c : nat) (layer : Z) (ids : list Z) (k v : T).

Definition in_range (c : static_cache) (s : Z) : Prop := (slot_range c).1 <= s < (slot_range c).2.
Definition live (c : static_cache) (s : Z) : Prop := (used_slot_range c).1 <= s < (used_slot_range c).2.

(** A write of the user of a cache: each slot is one it was handed, written
    once, or padding that belongs to no cache. *)
Definition write_legal (s : system) (ca : static_cache) (ids : list Z) : Prop :=
  ∀ i, i ∈ ids → 0 <= i < kp_slots (sy_pool s) ∧
    ((live ca i ∧ ∃ q, positions i ids = [q]) ∨ (∀ c', c' ∈ sy_caches s → ¬ in_range c' i)).

Inductive step : system → cache_event → system → Prop :=
  | step_allocate p cs c ca n :
      cs !! c = Some ca →
      step (System p cs) (EAllocate c n) (System p (<[c := (allocate ca n).1]> cs))
  | step_reset p cs c ca :
      cs !! c = Some ca → step (System p cs) (EReset c) (System p (<[c := reset ca]> cs))
  | step_write p cs c ca layer ids k v p' :
      cs !! c = Some ca → write_legal (System p cs) ca ids →
      write_kv p layer (slots_1d ids) k v = (p', Ok ()) →
      step (System p cs) (EWrite c layer ids k v) (System p' cs).

Inductive run (s : system) : list cache_event → system → Prop :=
  | run_nil : run s [] s
  | run_snoc evs s1 e s2 : run s evs s1 → step s1 e s2 → run s (evs ++ [e]) s2.

(** The layer an index names among [n]. *)
Definition layer_of (n : nat) (layer : Z) : Z := if layer <? 0 then layer + Z.of_nat n else layer.

(** The last write of cache [c] to a slot of a layer, with the row of the
    tensors it wrote there. *)
Definition note_write (n c l : nat) (s : Z) (last : option (T * T * nat)) (e : cache_event) : option (T * T * nat) :=
  match e with
  | EWrite c' layer ids k v =>
      if bool_decide (c' = c ∧ layer_of n layer = Z.of_nat l) then
        match positions s ids with q :: _ => Some (k, v, q) | [] => last end
      else last
  | _ => last
  end.
Definition last_write (n c l : nat) (s : Z) (evs : list cache_event) : option (T * T * nat) :=
  foldl (note_write n c l s) None evs.

Definition written_k (w : option (T * T * nat)) (ix : list Z) : E :=
  match w with Some (k, _, q) => t_get k (Z.of_nat q :: ix) | None => e_zero end.
Definition written_v (w : option (T * T * nat)) (ix : list Z) : E :=
  match w with Some (_, v, q) => t_get v (Z.of_nat q :: ix) | None => e_zero end.

Definition disjoint_caches (cs : list static_cache) : Prop :=
  ∀ i j c c' s, cs !! i = Some c → cs !! j = Some c' → in_range c s → in_range c' s → i = j.

(** The range of a cache never changes. *)
Definition same_ranges (cs cs' : list static_cache) : Prop := slot_range <$> cs = slot_range <$> cs'.

Record system_inv (p0 : kv_pool (T:=T)) (cs0 : list static_cache) (evs : list cache_event) (s : system) : Prop := {
  si_pool : pool_ok (sy_pool s);
  si_slots : kp_slots (sy_pool s) = kp_slots p0;
  si_heads : kp_heads (sy_pool s) = kp_heads p0;
  si_dim : kp_dim (sy_pool s) = kp_dim p0;
  si_layers : List.length (kp_k (sy_pool s)) = List.length (kp_k p0);
  si_ranges : same_ranges (sy_caches s) cs0;
  si_caches : ∀ c, c ∈ sy_caches s → cache_ok c ∧ (slot_range c).2 <= kp_slots p0;
  si_rows : ∀ c ca l i, sy_caches s !! c = Some ca → in_range ca i → (l < List.length (kp_k p0))%nat →
    let w := last_write (List.length (kp_k p0)) c l i evs in
    holds (sy_pool s) l i (written_k w) (written_v w);
}.

Lemma same_ranges_insert cs cs0 c ca ca' :
  same_ranges cs cs0 → cs !! c = Some ca → slot_range ca' = slot_range ca → same_ranges (<[c := ca']> cs) cs0.
Proof.
  unfold same_ranges. intros <- Hc Hr. rewrite list_fmap_insert, Hr. apply list_insert_id.
  by rewrite list_lookup_fmap, Hc.
Qed.

Lemma cache_step_inv p0 cs0 evs p cs c ca ca' e :
  system_inv p0 cs0 evs (System p cs) → cs !! c = Some ca → slot_range ca' = slot_range ca → cache_ok ca' →
  (∀ n c' l i last, note_write n c' l i last e = last) →
  system_inv p0 cs0 (evs ++ [e]) (System p (<[c := ca']> cs)).
Proof.
  intros [] Hc Hr Hok He. simpl in *. split; simpl; try done.
  - by eapply same_ranges_insert.
  - intros c1 [i Hi]%list_elem_of_lookup. apply list_lookup_insert_Some in Hi as [(? & <- & ?)|(? & Hi)].
    + split; [done|]. change (sc_base ca' + sc_capacity ca') with (slot_range ca').2. rewrite Hr. by apply si_caches0, (list_elem_of_lookup_2 _ c).
    + by apply si_caches0, (list_elem_of_lookup_2 _ i).
  - intros c1 ca1 l i Hc1 Hi Hl. unfold last_write. rewrite foldl_app. simpl. rewrite He.
    apply list_lookup_insert_Some in Hc1 as [(<- & <- & ?)|(? & Hc1)].
    + eapply si_rows0; [done| |done]. unfold in_range in *. by rewrite <- Hr.
    + by eapply si_rows0.
Qed.

Lemma py_item_layer {A} (l : list A) layer j x :
  py_item l layer = Ok (j, x) → layer_of (List.length l) layer = Z.of_nat j.
Proof.
  unfold py_item, layer_of. intros Hp. destruct (_ && _) eqn:Hb; [|done].
  destruct (l !! _); [|done]. injection Hp as <- _. apply andb_true_iff in Hb as [Hb%Z.leb_le _]. lia.
Qed.

Lemma write_step_inv p0 cs0 evs p cs c ca layer ids k v p' :
  disjoint_caches cs →
  system_inv p0 cs0 evs (System p cs) → cs !! c = Some ca → write_legal (System p cs) ca ids →
  write_kv p layer (slots_1d ids) k v = (p', Ok ()) →
  system_inv p0 cs0 (evs ++ [EWrite c layer ids k v]) (System p' cs).
Proof.
  intros Hdisj [] Hc Hlegal Hw. simpl in *.
  assert (Forall (λ i, 0 <= i < kp_slots p) ids) as Hids.
  { apply Forall_forall. intros i Hi. by apply Hlegal. }
  destruct (write_kv_spec _ _ _ _ _ _ si_pool0 Hids Hw)
    as (l & t & Hl & Hok & Hs & Hh & Hd & Hlen & _ & _ & Hframe & Hwrite).
  split; simpl; try done; try congruence.
  intros c1 ca1 l1 i Hc1 Hi Hl1. unfold last_write. rewrite foldl_app. simpl.
  assert (0 <= i < kp_slots p) as Hrange.
  { destruct (si_caches0 ca1) as [[Hb Hcur] Hend]; [by eapply list_elem_of_lookup_2|].
    unfold in_range in Hi. unfold slot_range in Hi, Hend. simpl in *. lia. }
  pose proof (si_rows0 _ _ _ _ Hc1 Hi Hl1) as Hold.
  apply py_item_layer in Hl. rewrite si_layers0 in Hl.
  destruct (decide (i ∈ ids)) as [Hin|Hout].
  2:{ rewrite (positions_nil i ids Hout).
      assert (∀ b : bool, (if b then last_write (List.length (kp_k p0)) c1 l1 i evs
                           else last_write (List.length (kp_k p0)) c1 l1 i evs)
                          = last_write (List.length (kp_k p0)) c1 l1 i evs) as Hb by (by intros []).
      fold (last_write (List.length (kp_k p0)) c1 l1 i evs). rewrite Hb.
      apply Hframe; [done|by right|exact Hold]. }
  destruct (Hlegal i Hin) as [_ [[Hlive [q Hq]]|Hno]].
  2:{ destruct (Hno ca1); [by eapply list_elem_of_lookup_2|done]. }
  assert (c = c1) as <-.
  { eapply (Hdisj _ _ ca ca1 i); [done..| |done].
    destruct (si_caches0 ca) as [[? ?] _]; [by eapply list_elem_of_lookup_2|].
    unfold in_range, live, slot_range, used_slot_range in *. simpl in *. lia. }
  rewrite Hq. case_bool_decide as Hcase.
  - destruct Hcase as [_ Hcase]. assert (l1 = l) as -> by lia. by apply Hwrite.
  - apply Hframe; [done| |exact Hold]. left. intros ->. by destruct Hcase.
Qed.

Lemma disjoint_ranges cs cs' : same_ranges cs cs' → disjoint_caches cs' → disjoint_caches cs.
Proof.
  intros Hs Hd i j c c' s Hi Hj Hc Hc'.
  assert (∀ k c, cs !! k = Some c → ∃ c0, cs' !! k = Some c0 ∧ slot_range c0 = slot_range c) as Hk.
  { intros k c1 Hk. assert ((slot_range <$> cs) !! k = Some (slot_range c1)) as Hx by by rewrite list_lookup_fmap, Hk.
    rewrite Hs, list_lookup_fmap in Hx. destruct (cs' !! k) as [c0|]; [|done]. exists c0.
    split; [done|]. simpl in Hx. congruence. }
  destruct (Hk _ _ Hi) as (c0 & ? & Hr), (Hk _ _ Hj) as (c0' & ? & Hr').
  unfold in_range in *. eapply (Hd i j c0 c0' s); [done..| |]; unfold in_range; by rewrite ?Hr, ?Hr'.
Qed.

Lemma kv_run_inv p0 cs0 evs s :
  disjoint_caches cs0 → system_inv p0 cs0 [] (System p0 cs0) → run (System p0 cs0) evs s →
  system_inv p0 cs0 evs s.
Proof.
  intros Hd Hinit Hrun. induction Hrun as [|evs s1 e s2 Hrun IH Hstep]; [done|].
  destruct Hstep as [p cs c ca n Hc|p cs c ca Hc|p cs c ca layer ids k v p' Hc Hlegal Hw].
  - pose proof (si_caches _ _ _ _ IH ca ltac:(by eapply list_elem_of_lookup_2)) as [Hok _].
    pose proof (allocate_cases ca n Hok) as Hx. destruct (allocate ca n) as [ca' r].
    destruct Hx as (Hok' & Hb & Hcap & _). simpl.
    eapply cache_step_inv; [done..| |done|done]. unfold slot_range. by rewrite Hb, Hcap.
  - pose proof (si_caches _ _ _ _ IH ca ltac:(by eapply list_elem_of_lookup_2)) as [[? ?] _].
    eapply cache_step_inv; [done..| |done]. unfold cache_ok. simpl. lia.
  - eapply write_step_inv; [|done..]. eapply disjoint_ranges, Hd. apply (si_ranges _ _ _ _ IH).
Qed.

Lemma fresh_pool_inv L n h d p0 cs0 :
  pool_init L n h d 1 = Ok p0 → (∀ c, c ∈ cs0 → ∃ b m, static_init p0 b m = Ok c) →
  system_inv p0 cs0 [] (System p0 cs0) ∧ kp_slots p0 = n ∧ kp_heads p0 = h ∧ kp_dim p0 = d.
Proof.
  unfold pool_init. intros Hp Hcs. inv_bind. split; [|done].
  assert (∀ t, t ∈ replicate (Z.to_nat L) (t_zeros [n; 1; h; d]) → t = t_zeros [n; 1; h; d]) as Hrep.
  { intros t. by intros [? _]%elem_of_replicate. }
  split; simpl; try done.
  - split; [done|]. split; [simpl; lia|]. split; [done|].
    split; intros t ->%Hrep; by apply (zeros_spec [n; 1; h; d] []).
  - intros c Hc. destruct (Hcs c Hc) as (b & m & Hb). unfold static_init in Hb. inv_bind.
    unfold cache_ok, slot_range. simpl in *. lia.
  - intros c ca l i Hc Hi Hl. rewrite length_replicate in Hl.
    assert (row_is (KVCachePool L n h d 1 (replicate (Z.to_nat L) (t_zeros [n; 1; h; d]))
              (replicate (Z.to_nat L) (t_zeros [n; 1; h; d]))) (replicate (Z.to_nat L) (t_zeros [n; 1; h; d])) l i
              (λ _, e_zero)) as Hrow; [|by split].
    eexists. split; [by apply lookup_replicate_2|]. simpl. intros ix Hix.
    destruct (zeros_spec (T:=T) [n; 1; h; d] (i :: 0 :: ix)) as [_ Hz]. apply Hz.
    constructor; [|constructor; [lia|done]].
    destruct (Hcs ca ltac:(by eapply list_elem_of_lookup_2)) as (b & m & Hb). unfold static_init in Hb. inv_bind.
    unfold in_range, slot_range in Hi. simpl in *. lia.
Qed.

(** C7: A pool of K and V rows shared by caches whose ranges do not overlap.
    After any history of allocations, resets and writes (a writer touches each
    slot it was handed once per write, and pads with slots no cache owns),
    reading slots of a cache at a layer gives, position by position, the K and
    V rows of that cache's own last write to the slot at that layer, and zero
    rows where it never wrote: nothing another cache, another layer or the
    padding did shows through. *)
Theorem reads_give_last_write L n h d p0 cs0 evs s c ca layer l t ids :
  pool_init L n h d 1 = Ok p0 → (∀ c, c ∈ cs0 → ∃ b m, static_init p0 b m = Ok c) → disjoint_caches cs0 →
  run (System p0 cs0) evs s →
  sy_caches s !! c = Some ca → Forall (in_range ca) ids → py_item (kp_k (sy_pool s)) layer = Ok (l, t) →
  ∃ k v, gather_kv (sy_pool s) layer (slots_1d ids) None = Ok (k, v) ∧
    t_shape k = [Z.of_nat (List.length ids); h; d] ∧ t_shape v = [Z.of_nat (List.length ids); h; d] ∧
    ∀ q i ix, ids !! q = Some i → in_shape [h; d] ix →
      let w := last_write (List.length (kp_k p0)) c l i evs in
      t_get k (Z.of_nat q :: ix) = written_k w ix ∧ t_get v (Z.of_nat q :: ix) = written_v w ix.
Proof.
  intros Hp Hcs Hd Hrun Hc Hids Hl.
  destruct (fresh_pool_inv _ _ _ _ _ _ Hp Hcs) as (Hinit & Hn & Hh & Hdim).
  destruct (kv_run_inv _ _ _ _ Hd Hinit Hrun).
  destruct (si_caches0 ca) as [[? ?] Hend]; [by eapply list_elem_of_lookup_2|].
  assert (Forall (λ i, 0 <= i < kp_slots (sy_pool s)) ids) as Hok.
  { eapply Forall_impl; [exact Hids|]. intros i Hi. unfold in_range, slot_range in *. simpl in *. lia. }
  destruct (gather_kv_spec _ _ _ _ _ si_pool0 Hl Hok) as (k & v & Hg & Hsk & Hsv & Hget).
  rewrite si_heads0, si_dim0, Hh, Hdim in Hsk, Hsv, Hget. exists k, v. split; [done|].
  split; [done|]. split; [done|]. intros q i ix Hq Hix. apply (Hget q i _ _ ix Hq); [|done].
  eapply si_rows0; [done| |].
  - by eapply Forall_lookup_1 in Hids.
  - rewrite <- si_layers0. by eapply lookup_lt_Some, py_item_ok.
Qed.

(** Reading back what was just written: when no slot repeats, a read of
    the written slots returns the written rows, and every row
    outside the written slots and layer reads as before. *)
Theorem write_then_gather p layer ids k v p' :
  pool_ok p → Forall (λ i, 0 <= i < kp_slots p) ids → NoDup ids →
  write_kv p layer (slots_1d ids) k v = (p', Ok ()) →
  (∃ k' v', gather_kv p' layer (slots_1d ids) None = Ok (k', v') ∧ t_shape k' = t_shape k ∧ t_shape v' = t_shape v ∧
     ∀ ix, in_shape (t_shape k) ix → t_get k' ix = t_get k ix ∧ t_get v' ix = t_get v ix) ∧
  ∀ layer2 l2 t2 l t others, py_item (kp_k p) layer = Ok (l, t) → py_item (kp_k p) layer2 = Ok (l2, t2) →
    Forall (λ i, 0 <= i < kp_slots p) others → (l2 ≠ l ∨ Forall (λ i, i ∉ ids) others) →
    ∃ k1 v1 k2 v2, gather_kv p layer2 (slots_1d others) None = Ok (k1, v1) ∧
      gather_kv p' layer2 (slots_1d others) None = Ok (k2, v2) ∧ t_shape k2 = t_shape k1 ∧ t_shape v2 = t_shape v1 ∧
      ∀ ix, in_shape (t_shape k1) ix → t_get k2 ix = t_get k1 ix ∧ t_get v2 ix = t_get v1 ix.
Proof.
  intros Hok Hids Hnd Hw.
  destruct (write_kv_spec _ _ _ _ _ _ Hok Hids Hw)
    as (l & t & Hl & Hok' & Hs & Hh & Hd & Hlen & Hsk & Hsv & Hframe & Hwrite).
  assert (∀ layer i x, py_item (kp_k p) layer = Ok (i, x) → ∃ y, py_item (kp_k p') layer = Ok (i, y)) as Hitem.
  { intros ly i x Hx. by eapply py_item_length. }
  split.
  - destruct (Hitem _ _ _ Hl) as [t' Hl'].
    destruct (gather_kv_spec p' layer l t' ids Hok' Hl' ltac:(by rewrite Hs)) as (k' & v' & Hg & Hsk' & Hsv' & Hget).
    exists k', v'. rewrite Hh, Hd in *. split; [done|]. rewrite Hsk, Hsv. split; [done|]. split; [done|].
    intros ix Hix. inversion Hix as [|? q ? jx Hq Hjx]; subst.
    destruct (lookup_lt_is_Some_2 ids (Z.to_nat q) ltac:(lia)) as [i Hi].
    assert (0 <= i < kp_slots p) as Hr by (by eapply Forall_lookup_1 in Hids).
    specialize (Hget (Z.to_nat q) i _ _ jx Hi (Hwrite i _ Hr (positions_NoDup _ _ _ Hnd Hi)) Hjx).
    by rewrite Z2Nat.id in Hget by lia.
  - intros layer2 l2 t2 l0 t0 others Hl0 Hl2 Hoth Hor. rewrite Hl in Hl0. injection Hl0 as <- <-.
    destruct (Hitem _ _ _ Hl2) as [t2' Hl2'].
    destruct (gather_kv_spec p layer2 l2 t2 others Hok Hl2 Hoth) as (k1 & v1 & Hg1 & Hs1 & Hs1' & Hget1).
    destruct (gather_kv_spec p' layer2 l2 t2' others Hok' Hl2' ltac:(by rewrite Hs)) as (k2 & v2 & Hg2 & Hs2 & Hs2' & Hget2).
    rewrite Hh, Hd in *. exists k1, v1, k2, v2. do 2 (split; [done|]). rewrite Hs1, Hs2, Hs1', Hs2'.
    split; [done|]. split; [done|]. intros ix Hix. inversion Hix as [|? q ? jx Hq Hjx]; subst.
    destruct (lookup_lt_is_Some_2 others (Z.to_nat q) ltac:(lia)) as [i Hi].
    assert (0 <= i < kp_slots p) as Hr by (by eapply Forall_lookup_1 in Hoth).
    destruct Hok as (? & ? & Hlen2 & _). destruct (py_item_length _ _ _ _ _ Hlen2 Hl2) as [tv Hlv].
    assert (holds p l2 i (λ ix, t_get t2 (i :: 0 :: ix)) (λ ix, t_get tv (i :: 0 :: ix))) as Hold.
    { apply py_item_ok in Hl2, Hlv. split; by eexists. }
    assert (l2 ≠ l ∨ i ∉ ids) as Hor' by (destruct Hor as [?|Ho]; [by left|right; by eapply Forall_lookup_1 in Ho]).
    pose proof (Hget1 _ _ _ _ jx Hi Hold Hjx) as Hx1.
    pose proof (Hget2 _ _ _ _ jx Hi (Hframe _ _ _ _ Hr Hor' Hold) Hjx) as Hx2.
    rewrite Z2Nat.id in Hx1, Hx2 by lia. destruct Hx1 as [-> ->], Hx2 as [-> ->]. done.
Qed.
End system.

(** ** A model of the indexing laws *)

Section model.
Context {E : Type} `{ElementLaws E}.

Definition ft_index_put (t : ftensor E) (ids : list Z) (src : ftensor E) : res (ftensor E) :=
  match ft_shape t with
  | n :: _ =>
      if forallb (λ i, (0 <=? i) && (i <? n)) ids
      then Ok (FTensor (ft_shape t) (λ ix,
             match last (positions (coord ix 0) ids) with
             | Some p => ft_get src (Z.of_nat p :: drop 2 ix)
             | None => ft_get t ix
             end))
      else Err IndexError
  | [] => Err IndexError
  end.

Definition ft_index_select (t : ftensor E) (ids : list Z) : res (ftensor E) :=
  match ft_shape t with
  | n :: rest =>
      if forallb (λ i, (0 <=? i) && (i <? n)) ids
      then Ok (FTensor (Z.of_nat (List.length ids) :: rest) (λ ix,
             ft_get t (default 0 (ids !! Z.to_nat (coord ix 0)) :: drop 1 ix)))
      else Err IndexError
  | [] => Err IndexError
  end.

Definition ft_squeeze1 (t : ftensor E) : ftensor E :=
  match ft_shape t with
  | n :: 1 :: rest => FTensor (n :: rest) (λ ix, ft_get t (coord ix 0 :: 0 :: drop 1 ix))
  | _ => t
  end.

#[export] Instance ftensor_index : TorchIndex E (ftensor E) :=
  {| t_index_put := ft_index_put; t_index_select := ft_index_select; t_squeeze1 := ft_squeeze1 |}.

Lemma in_range_forallb n ids :
  Forall (λ i, 0 <= i < n) ids ↔ forallb (λ i, (0 <=? i) && (i <? n)) ids = true.
Proof.
  rewrite forallb_forall, Forall_forall.
  by split; intros Hall i Hi; specialize (Hall i); rewrite <- list_elem_of_In in Hall || rewrite list_elem_of_In in Hall;
    specialize (Hall Hi); lia.
Qed.

#[export] Instance ftensor_index_laws : TorchIndexLaws E (ftensor E).
Proof.
  split; simpl.
  - intros t ids src n rest Ht Hsrc Hids. unfold ft_index_put. rewrite Ht.
    apply in_range_forallb in Hids as ->. eexists. split; [done|]. split; [done|]. intros i ix Hi Hix. simpl.
    rewrite coord_0. split.
    + intros Hno. by rewrite positions_nil.
    + intros p ->. done.
  - intros t ids src n rest Ht (i & Hi & Hbad). unfold ft_index_put. rewrite Ht.
    destruct (forallb _ ids) eqn:Hall; [|done]. apply in_range_forallb in Hall. rewrite Forall_forall in Hall.
    specialize (Hall i Hi). simpl in Hall. lia.
  - intros t ids n rest Ht Hids. unfold ft_index_select. rewrite Ht.
    apply in_range_forallb in Hids as ->. eexists. split; [done|]. split; [done|]. intros p i ix Hp Hix. simpl.
    by rewrite coord_0, Nat2Z.id, Hp.
  - intros t n rest Ht. unfold ft_squeeze1. rewrite Ht. split; [done|]. intros i ix _ _. simpl. by rewrite coord_0.
Qed.
End model.

(** ** Examples *)

Lemma allocations_exact_witness :
  let c := StaticCache 10 6 3 in
  ∃ c' rs, allocate_all (reset c) [2; -1; 5; 0; 4; 1] = (c', rs) ∧
    (granted rs = arange 10 (used c') ∧ cache_ok c' ∧ slot_range c' = slot_range c ∧
     size_of <$> rs = outcomes 6 [2; -1; 5; 0; 4; 1]) ∧
    outcomes 6 [2; -1; 5; 0; 4; 1] =
      [Ok 2; Err ValueError; Err StaticCacheError; Ok 0; Ok 4; Err StaticCacheError].
Proof.
  intros c. eexists _, _. split; [reflexivity|]. split; [|reflexivity].
  apply (allocations_exact c); [|reflexivity]. unfold cache_ok, c. simpl. lia.
Defined.

(** Two layers of ten slots; a prefix cache over slots 1 to 5 and a suffix
    cache over 6 to 9; slot 0 is padding. *)
Definition row2 (base : Z) (n : Z) : ftensor Z :=
  FTensor [n; 1; 2] (λ ix, base + 10 * coord ix 0 + coord ix 2).

Definition demo_pool : kv_pool (T:=ftensor Z) :=
  match pool_init 2 10 1 2 1 with Ok p => p | Err _ => KVCachePool 0 0 0 0 0 [] [] end.

Definition demo_caches : list static_cache := [StaticCache 1 5 0; StaticCache 6 4 0].

Definition demo_events : list (cache_event (T:=ftensor Z)) :=
  [EAllocate 0 3; EAllocate 1 2; EWrite 0 1 [1; 2; 3] (row2 100 3) (row2 200 3);
   EWrite 1 1 [7; 6; 0; 0] (row2 300 4) (row2 400 4); EReset 1; EAllocate 1 1;
   EWrite 0 (-1) [2; 0] (row2 500 2) (row2 600 2); EWrite 0 0 [1] (row2 700 1) (row2 800 1)].

(** The states of the run, by execution. *)
Definition cache_exec (s : system (T:=ftensor Z)) (e : cache_event (T:=ftensor Z)) : system (T:=ftensor Z) :=
  match e with
  | EAllocate c n =>
      System (sy_pool s) (match sy_caches s !! c with Some ca => <[c := (allocate ca n).1]> (sy_caches s) | None => sy_caches s end)
  | EReset c =>
      System (sy_pool s) (match sy_caches s !! c with Some ca => <[c := reset ca]> (sy_caches s) | None => sy_caches s end)
  | EWrite _ layer ids k v => System (write_kv (sy_pool s) layer (slots_1d ids) k v).1 (sy_caches s)
  end.

Lemma exec_write p cs c ca layer ids k v :
  cs !! c = Some ca → write_legal (System p cs) ca ids →
  (write_kv p layer (slots_1d ids) k v).2 = Ok () →
  step (System p cs) (EWrite c layer ids k v) (cache_exec (System p cs) (EWrite c layer ids k v)).
Proof.
  intros Hc Hl Hw. simpl. eapply step_write; [done..|]. destruct (write_kv _ _ _ _ _) as [p' r]. by simpl in Hw; subst.
Qed.

Definition legal_at (cs : list static_cache) (slots : Z) (ca : static_cache) (ids : list Z) (i : Z) : Prop :=
  0 <= i < slots ∧
  ((sc_base ca <= i < sc_base ca + sc_cursor ca ∧ List.length (positions i ids) = 1%nat) ∨
   Forall (λ c, ¬ (sc_base c <= i < sc_base c + sc_capacity c)) cs).

Lemma legal_list (s : system (T:=ftensor Z)) ca ids :
  Forall (legal_at (sy_caches s) (kp_slots (sy_pool s)) ca ids) ids → write_legal s ca ids.
Proof.
  rewrite Forall_forall. intros Hall i Hi. destruct (Hall i Hi) as [? [[? Hone]|Hno]]; (split; [done|]).
  - left. split; [done|]. destruct (positions i ids) as [|q []]; try done. by exists q.
  - right. rewrite Forall_forall in Hno. intros c Hc. by apply Hno.
Qed.

#[local] Instance legal_at_dec cs n ca ids i : Decision (legal_at cs n ca ids i).
Proof. unfold legal_at. apply _. Defined.

Ltac legal := apply legal_list; apply (bool_decide_unpack _); vm_compute; exact I.

Lemma demo_run : run (System demo_pool demo_caches) demo_events (foldl cache_exec (System demo_pool demo_caches) demo_events).
Proof.
  pose proof (run_nil (System demo_pool demo_caches)) as Hr.
  eapply run_snoc in Hr; [|by eapply (step_allocate _ _ 0%nat _ 3)].
  eapply run_snoc in Hr; [|by eapply (step_allocate _ _ 1%nat _ 2)].
  eapply run_snoc in Hr; [|eapply (exec_write _ _ 0%nat _ 1 [1; 2; 3] (row2 100 3) (row2 200 3)); [done|legal|done]].
  eapply run_snoc in Hr; [|eapply (exec_write _ _ 1%nat _ 1 [7; 6; 0; 0] (row2 300 4) (row2 400 4)); [done|legal|done]].
  eapply run_snoc in Hr; [|by eapply (step_reset _ _ 1%nat)].
  eapply run_snoc in Hr; [|by eapply (step_allocate _ _ 1%nat _ 1)].
  eapply run_snoc in Hr; [|eapply (exec_write _ _ 0%nat _ (-1) [2; 0] (row2 500 2) (row2 600 2)); [done|legal|done]].
  eapply run_snoc in Hr; [|eapply (exec_write _ _ 0%nat _ 0 [1] (row2 700 1) (row2 800 1)); [done|legal|done]].
  exact Hr.
Defined.

Lemma demo_disjoint : disjoint_caches demo_caches.
Proof.
  intros [|[|i]] [|[|j]] c c' s Hc Hc'; simpl in Hc, Hc'; try done;
    injection Hc as <-; injection Hc' as <-; unfold in_range, slot_range; simpl; lia.
Defined.

Lemma demo_caches_init c : c ∈ demo_caches → ∃ b m, static_init demo_pool b m = Ok c.
Proof.
  intros [->|[->|[]%elem_of_nil]%elem_of_cons]%elem_of_cons; [by exists 1, 5|by exists 6, 4].
Defined.

Lemma reads_give_last_write_witness :
  let s := foldl cache_exec (System demo_pool demo_caches) demo_events in
  ∃ k v, gather_kv (sy_pool s) 1 (slots_1d [3; 2; 4]) None = Ok (k, v) ∧
    t_shape k = [3; 1; 2] ∧ t_shape v = [3; 1; 2] ∧
    ∀ q i ix, [3; 2; 4] !! q = Some i → in_shape [1; 2] ix →
      let w := last_write 2 0 1 i demo_events in
      t_get k (Z.of_nat q :: ix) = written_k w ix ∧ t_get v (Z.of_nat q :: ix) = written_v w ix.
Proof.
  intros s. eapply (reads_give_last_write 2 10 1 2 demo_pool demo_caches demo_events s 0 _ 1 1 _ [3; 2; 4]);
    [reflexivity|exact demo_caches_init|exact demo_disjoint|exact demo_run|reflexivity| |reflexivity].
  repeat (constructor; [unfold in_range, slot_range; simpl; lia|]); constructor.
Defined.

Lemma demo_pool_ok : pool_ok demo_pool.
Proof.
  split; [done|]. split; [simpl; lia|]. split; [done|].
  by split; intros t [->|[->|[]%elem_of_nil]%elem_of_cons]%elem_of_cons.
Defined.

Lemma write_then_gather_witness :
  ∃ p', write_kv demo_pool (-2) (slots_1d [4; 2]) (row2 5 2) (row2 7 2) = (p', Ok ()) ∧
    ∃ k' v', gather_kv p' (-2) (slots_1d [4; 2]) None = Ok (k', v') ∧
      t_shape k' = t_shape (row2 5 2) ∧ t_shape v' = t_shape (row2 7 2) ∧
      ∀ ix, in_shape [2; 1; 2] ix → t_get k' ix = t_get (row2 5 2) ix ∧ t_get v' ix = t_get (row2 7 2) ix.
Proof.
  eexists. split; [reflexivity|].
  apply (proj1 (write_then_gather demo_pool (-2) [4; 2] (row2 5 2) (row2 7 2) _ demo_pool_ok
    ltac:(repeat (constructor; [simpl; lia|]); constructor)
    ltac:(apply (bool_decide_unpack _); vm_compute; exact I) eq_refl)).
Defined.
