(* ===== verification/Encoding.v ===== *)
(** * Atom encodings of prompts ([cache/radix_cache/encoding.py])

    The byte streams the prefix caches see: text tokens, bigrams, chunk
    hashes, and prompts that mix text tokens with image spans.  Bytes are
    integers from 0 to 255; native integers are little-endian, as on the
    platforms the package supports. *)

From S2P Require Import Prelude.
Open Scope Z_scope.

(** ** Integers as bytes *)

Fixpoint le_bytes (n : nat) (z : Z) : list Z :=
  match n with
  | O => []
  | S n' => z mod 256 :: le_bytes n' (z / 256)
  end.

Definition le_value (bytes : list Z) : Z := foldr (λ b acc, b + 256 * acc) 0 bytes.

(** [struct.pack("i", z)] *)
Definition pack_i (z : Z) : res (list Z) :=
  _ ← ensure ((- 2 ^ 31 <=? z) && (z <? 2 ^ 31)) StructError; Ok (le_bytes 4 z).

(** [struct.pack("Q", z)] *)
Definition pack_Q (z : Z) : res (list Z) :=
  _ ← ensure ((0 <=? z) && (z <? 2 ^ 64)) StructError; Ok (le_bytes 8 z).

(** The parts of a stream, joined. *)
Definition join_bytes (parts : list (list Z)) : list Z := mjoin parts.

Definition mask64 (z : Z) : Z := Z.land z (Z.ones 64).

(** ** Encoders *)

Definition page_align (atoms : list Z) (page_bytes : Z) : res (list Z * Z) :=
  _ ← ensure (0 <? page_bytes) ValueError;
  let len := Z.of_nat (List.length atoms) in
  let keep := len / page_bytes * page_bytes in
  Ok (take (Z.to_nat keep) atoms, len - keep).

Definition encode_text_atoms_int32 (token_ids : list Z) : res (list Z) :=
  atoms ← rmap pack_i token_ids; Ok (join_bytes atoms).

(** The loop over neighbours. *)
Fixpoint bigrams (token_ids : list Z) : list (Z * Z) :=
  match token_ids with
  | a :: ((b :: _) as rest) => (a, b) :: bigrams rest
  | _ => []
  end.

Definition encode_eagle_bigram_atoms (token_ids : list Z) : res (list Z) :=
  if Nat.ltb (List.length token_ids) 2 then Ok []
  else atoms ← rmap (λ ab, x ← pack_i ab.1; y ← pack_i ab.2; Ok (x ++ y)) (bigrams token_ids); Ok (join_bytes atoms).

Definition encode_chunk_hash_atoms_u64 (hashes : list Z) : res (list Z) :=
  atoms ← rmap (λ h, pack_Q (mask64 h)) hashes; Ok (join_bytes atoms).

Definition encode_image_hash_atom_sha256 (digest : list Z) : res (list Z) :=
  _ ← ensure (Nat.eqb (List.length digest) 32) ValueError; Ok digest.

Record image_segment : Type := ImageSegment {
  image_hash_lo : Z;
  image_hash_hi : Z;
  insert_position : Z;
  seg_length : Z;
}.

(** The atom of token [k] of an image. *)
Definition image_atom (seg : image_segment) (k : Z) : Z * Z :=
  (mask64 (image_hash_lo seg), mask64 (Z.lxor (image_hash_hi seg) k)).

(** [for k in range(seg.length)]: [fuel] more tokens from token [k]. *)
Fixpoint fill_segment (seg : image_segment) (fuel : nat) (k : Z)
    (atoms : list (Z * Z)) (image_slots : gset Z) : list (Z * Z) * gset Z :=
  match fuel with
  | O => (atoms, image_slots)
  | S fuel' =>
      let idx := insert_position seg + k in
      fill_segment seg fuel' (k + 1) (<[Z.to_nat idx := image_atom seg k]> atoms) ({[idx]} ∪ image_slots)
  end.

Fixpoint fill_segments (n_total : Z) (segs : list image_segment)
    (atoms : list (Z * Z)) (image_slots : gset Z) : res (list (Z * Z) * gset Z) :=
  match segs with
  | [] => Ok (atoms, image_slots)
  | seg :: segs' =>
      if (insert_position seg <? 0) || (n_total <? insert_position seg + seg_length seg) then Err ValueError
      else
        let '(atoms, image_slots) := fill_segment seg (Z.to_nat (seg_length seg)) 0 atoms image_slots in
        fill_segments n_total segs' atoms image_slots
  end.

(** The loop over the slots from slot [i]: text tokens go, in order, to the
    slots no image took. *)
Fixpoint fill_text (image_slots : gset Z) (i : Z) (atoms : list (Z * Z)) (text : list Z) : res (list (Z * Z)) :=
  match atoms with
  | [] => Ok []
  | atom :: atoms' =>
      if bool_decide (i ∈ image_slots)
      then rest ← fill_text image_slots (i + 1) atoms' text; Ok (atom :: rest)
      else match text with
           | [] => Err ValueError
           | tok :: text' => rest ← fill_text image_slots (i + 1) atoms' text'; Ok ((mask64 tok, 0) :: rest)
           end
  end.

Definition n_total (text_token_ids : list Z) (image_segments : list image_segment) : Z :=
  Z.of_nat (List.length text_token_ids) + foldr (λ s acc, seg_length s + acc) 0 image_segments.

Definition encode_prompt_to_atoms (text_token_ids : list Z) (image_segments : list image_segment) : res (list Z) :=
  let n := n_total text_token_ids image_segments in
  '(atoms, image_slots) ← fill_segments n image_segments (replicate (Z.to_nat n) (0, 0)) ∅;
  atoms ← fill_text image_slots 0 atoms text_token_ids;
  limbs ← rmap (λ a, lo ← pack_Q a.1; hi ← pack_Q a.2; Ok (lo ++ hi)) atoms;
  Ok (join_bytes limbs).

(** ** Reading them back *)

Fixpoint decode_atoms (width : nat) (n : nat) (bytes : list Z) : list (list Z) :=
  match n with
  | O => []
  | S n' => take width bytes :: decode_atoms width n' (drop width bytes)
  end.

(** The two limbs of every atom. *)
Definition decode_limbs (bytes : list Z) : list (Z * Z) :=
  (λ a, (le_value (take 8 a), le_value (drop 8 a))) <$> decode_atoms 16 (List.length bytes / 16) bytes.

(** The slots of the image tokens, in the order of the segments. *)
Definition segment_slots (seg : image_segment) : list Z :=
  (λ k, insert_position seg + Z.of_nat k) <$> seq 0 (Z.to_nat (seg_length seg)).
Definition covered (segs : list image_segment) : list Z := segs ≫= segment_slots.

(** The text atoms among the slots from [i] on. *)
Fixpoint text_atoms (slots : gset Z) (i : Z) (atoms : list (Z * Z)) : list (Z * Z) :=
  match atoms with
  | [] => []
  | a :: atoms' => if bool_decide (i ∈ slots) then text_atoms slots (i + 1) atoms'
                   else a :: text_atoms slots (i + 1) atoms'
  end.
