(* ===== verification/EncodingProps.v ===== *)
(** * Properties of the atom encodings

    What the bytes determine: text tokens and prompts can be read back, the
    encoder refuses exactly the prompts whose images do not fit, and prefixes
    of token sequences are prefixes of byte streams. *)

From S2P Require Import Prelude Encoding.
Open Scope Z_scope.

Lemma Ok_inj {A} (a b : A) : Ok a = Ok b → a = b.
Proof. congruence. Qed.

(** ** Bytes *)

Lemma le_bytes_length n z : List.length (le_bytes n z) = n.
Proof. revert z; induction n as [|n IH]; intros z; [done|]. simpl. by rewrite IH. Qed.

Lemma le_value_bytes n z : le_value (le_bytes n z) = z mod 256 ^ Z.of_nat n.
Proof.
  revert z; induction n as [|n IH]; intros z.
  - by rewrite Z.mod_1_r.
  - simpl le_bytes. unfold le_value in *. simpl. rewrite IH, Nat2Z.inj_succ, Z.pow_succ_r by lia.
    rewrite (Z.rem_mul_r z 256 (256 ^ Z.of_nat n)); nia.
Qed.

Lemma mask64_mod z : mask64 z = z mod 2 ^ 64.
Proof. unfold mask64. by rewrite Z.land_ones by lia. Qed.

Lemma mask64_range z : 0 <= mask64 z < 2 ^ 64.
Proof. rewrite mask64_mod. apply Z.mod_pos_bound. lia. Qed.

Lemma pack_Q_ok z : 0 <= z < 2 ^ 64 → pack_Q z = Ok (le_bytes 8 z).
Proof. intros Hz. unfold pack_Q. by replace ((0 <=? z) && (z <? 2 ^ 64)) with true by lia. Qed.

Lemma le_value_8 z : 0 <= z < 2 ^ 64 → le_value (le_bytes 8 z) = z.
Proof. intros Hz. rewrite le_value_bytes. by apply Z.mod_small. Qed.

Lemma pack_i_inv z b : pack_i z = Ok b → b = le_bytes 4 z ∧ - 2 ^ 31 <= z < 2 ^ 31.
Proof. unfold pack_i. intros Hp. inv_bind. split; [done|]. lia. Qed.

Lemma pack_i_inj a b x : pack_i a = Ok x → pack_i b = Ok x → a = b.
Proof.
  intros [-> Ha]%pack_i_inv [Heq Hb]%pack_i_inv.
  apply (f_equal le_value) in Heq. rewrite !le_value_bytes in Heq. change (256 ^ Z.of_nat 4) with (2 ^ 32) in Heq.
  pose proof (Z.div_mod a (2 ^ 32) ltac:(lia)). pose proof (Z.div_mod b (2 ^ 32) ltac:(lia)). lia.
Qed.

(** ** Streams of atoms of one width *)

Lemma decode_encode (width : nat) (atoms : list (list Z)) :
  (∀ a, a ∈ atoms → List.length a = width) → decode_atoms width (List.length atoms) (mjoin atoms) = atoms.
Proof.
  induction atoms as [|a atoms IH]; intros Hw; [done|]. simpl.
  rewrite take_app_length', drop_app_length' by (symmetry; apply Hw; by left). f_equal. apply IH. intros b Hb. apply Hw. by right.
Qed.

Lemma join_length (width : nat) (atoms : list (list Z)) :
  (∀ a, a ∈ atoms → List.length a = width) → List.length (mjoin atoms) = (width * List.length atoms)%nat.
Proof.
  induction atoms as [|a atoms IH]; intros Hw; simpl; [lia|].
  rewrite length_app, IH, (Hw a); [lia|by left|]. intros b Hb. apply Hw. by right.
Qed.

(** Byte prefixes are atom prefixes. *)
Lemma join_prefix (width : nat) (xs ys : list (list Z)) :
  (0 < width)%nat → (∀ a, a ∈ xs → List.length a = width) → (∀ a, a ∈ ys → List.length a = width) →
  mjoin xs `prefix_of` mjoin ys ↔ xs `prefix_of` ys.
Proof.
  intros Hpos Hxs Hys. split.
  - revert ys Hxs Hys; induction xs as [|x xs IH]; intros ys Hxs Hys Hp; [apply prefix_nil|].
    destruct ys as [|y ys].
    { destruct x; [specialize (Hxs [] ltac:(by left)); simpl in Hxs; lia|]. destruct Hp as [k Hk]. done. }
    simpl in Hp. assert (x = y) as ->.
    { destruct Hp as [k Hk]. rewrite <- app_assoc in Hk. apply app_inj_1 in Hk as [Hk _]; [by rewrite Hk|].
      by rewrite (Hys y (list_elem_of_here _ _)), (Hxs x (list_elem_of_here _ _)). }
    apply prefix_app_inv in Hp. apply prefix_cons, IH; [| |done].
    + intros a Ha. apply Hxs. by right.
    + intros a Ha. apply Hys. by right.
  - intros [k ->]. rewrite join_app. by apply prefix_app_r.
Qed.

Lemma rmap_pack_length tokens atoms :
  rmap pack_i tokens = Ok atoms → ∀ a, a ∈ atoms → List.length a = 4%nat.
Proof.
  rewrite rmap_ok. intros Hall a Ha. apply list_elem_of_lookup in Ha as [i Hi].
  destruct (Forall2_lookup_r _ _ _ _ _ Hall Hi) as (z & _ & [-> _]%pack_i_inv). apply le_bytes_length.
Qed.

Lemma rmap_pack_prefix xs ys bx byt :
  rmap pack_i xs = Ok bx → rmap pack_i ys = Ok byt → bx `prefix_of` byt ↔ xs `prefix_of` ys.
Proof.
  revert ys bx byt; induction xs as [|x xs IH]; intros ys bx byt Hx Hy; simpl in Hx.
  { injection Hx as <-. split; intros _; apply prefix_nil. }
  inv_bind. destruct ys as [|y ys]; simpl in Hy; inv_bind.
  { split; intros [k Hk]; done. }
  split.
  - intros Hp. pose proof (prefix_cons_inv_1 _ _ _ _ Hp) as ->. apply prefix_cons_inv_2 in Hp.
    rewrite (pack_i_inj x y x2) by done. apply prefix_cons. by eapply IH.
  - intros Hp. pose proof (prefix_cons_inv_1 _ _ _ _ Hp) as ->. apply prefix_cons_inv_2 in Hp.
    simplify_eq. replace x2 with x0 by congruence. apply prefix_cons. by eapply IH.
Qed.

(** The text encoding keeps the structure a prefix cache relies on: the
    stream has four bytes per token, one stream is a prefix of another exactly
    when the tokens are, and a stream cut at a page of whole atoms is the
    stream of the tokens cut there. *)
Theorem text_prefix_exact xs ys bx byt :
  encode_text_atoms_int32 xs = Ok bx → encode_text_atoms_int32 ys = Ok byt →
  List.length bx = (4 * List.length xs)%nat ∧
  (bx `prefix_of` byt ↔ xs `prefix_of` ys) ∧ (bx = byt ↔ xs = ys) ∧
  ∀ page, 0 < page →
    let tokens := take (Z.to_nat (Z.of_nat (List.length xs) / page * page)) xs in
    ∃ cut, encode_text_atoms_int32 tokens = Ok cut ∧
      page_align bx (4 * page) = Ok (cut, 4 * Z.of_nat (List.length xs) - 4 * Z.of_nat (List.length tokens)).
Proof.
  unfold encode_text_atoms_int32, join_bytes. intros Hx Hy.
  apply bind_ok in Hx as (ax & Hax & [= <-]). apply bind_ok in Hy as (ay & Hay & [= <-]).
  pose proof (rmap_pack_length _ _ Hax) as Hlx. pose proof (rmap_pack_length _ _ Hay) as Hly.
  assert (List.length (mjoin ax) = (4 * List.length xs)%nat) as Hlen.
  { rewrite (join_length 4) by done. by rewrite (rmap_length _ _ _ Hax). }
  assert (mjoin ax `prefix_of` mjoin ay ↔ xs `prefix_of` ys) as Hpre.
  { rewrite (join_prefix 4) by (done || lia). by eapply rmap_pack_prefix. }
  assert (mjoin ay `prefix_of` mjoin ax ↔ ys `prefix_of` xs) as Hpre'.
  { rewrite (join_prefix 4) by (done || lia). by eapply rmap_pack_prefix. }
  split; [done|]. split; [done|]. split.
  { split; [|intros ->; congruence]. intros Heq. apply (anti_symm prefix).
    - apply Hpre. by rewrite Heq.
    - apply Hpre'. by rewrite Heq. }
  intros page Hpage. set (tokens := take _ xs). set (n := Z.to_nat (Z.of_nat (List.length xs) / page * page)) in *.
  assert (Hmul : Z.of_nat (List.length xs) / page * page <= Z.of_nat (List.length xs)).
  { pose proof (Z.mul_div_le (Z.of_nat (List.length xs)) page Hpage). lia. }
  assert (Hnn : 0 <= Z.of_nat (List.length xs) / page * page).
  { apply Z.mul_nonneg_nonneg; [|lia]. apply Z.div_pos; lia. }
  assert (rmap pack_i tokens = Ok (take n ax)) as Htok.
  { apply rmap_ok, Forall2_take. by apply rmap_ok. }
  rewrite Htok. simpl. eexists. split; [done|].
  unfold page_align. replace (0 <? 4 * page) with true by lia. simpl. rewrite Hlen.
  assert (4 * Z.of_nat (List.length xs) / (4 * page) = Z.of_nat (List.length xs) / page) as Hdiv.
  { apply Z.div_mul_cancel_l; lia. }
  replace (Z.of_nat (4 * List.length xs)) with (4 * Z.of_nat (List.length xs)) by lia. rewrite Hdiv.
  f_equal. f_equal.
  - replace (Z.to_nat (Z.of_nat (List.length xs) / page * (4 * page))) with (4 * n)%nat by (unfold n; lia).
    rewrite <- (take_drop n ax) at 1. rewrite join_app.
    apply take_app_length'. rewrite (join_length 4).
    + rewrite length_take, (rmap_length _ _ _ Hax). unfold n. lia.
    + intros a Ha. apply Hlx. rewrite <- (take_drop n ax). apply elem_of_app. by left.
  - unfold tokens. rewrite length_take. unfold n. lia.
Qed.

(** ** Prompts with images *)

(** What a slot holds after the segments: the atom of the last that covers
    it. *)
Definition covers (seg : image_segment) (i : Z) : bool :=
  (insert_position seg <=? i) && (i <? insert_position seg + seg_length seg).

Fixpoint atom_at (segs : list image_segment) (i : Z) : option (Z * Z) :=
  match segs with
  | [] => None
  | seg :: segs' =>
      match atom_at segs' i with
      | Some a => Some a
      | None => if covers seg i then Some (image_atom seg (i - insert_position seg)) else None
      end
  end.

Definition in_bounds (n : Z) (seg : image_segment) : Prop :=
  0 <= insert_position seg ∧ insert_position seg + seg_length seg <= n.

Lemma between_true a b i : a <= i < b → (a <=? i) && (i <? b) = true.
Proof. intros [? ?]. apply andb_true_iff. by rewrite Z.leb_le, Z.ltb_lt. Qed.

Lemma between_false a b i : ¬ (a <= i < b) → (a <=? i) && (i <? b) = false.
Proof. intros Hn. destruct (Z.leb_spec a i), (Z.ltb_spec i b); try done. lia. Qed.

Lemma fill_segment_spec seg fuel k atoms slots atoms' slots' :
  0 <= insert_position seg + k →
  insert_position seg + k + Z.of_nat fuel <= Z.of_nat (List.length atoms) →
  fill_segment seg fuel k atoms slots = (atoms', slots') →
  List.length atoms' = List.length atoms ∧
  ∀ i,
    let here := (insert_position seg + k <=? i) && (i <? insert_position seg + k + Z.of_nat fuel) in
    (i ∈ slots' ↔ i ∈ slots ∨ here = true) ∧
    (0 <= i → atoms' !! Z.to_nat i = if here then Some (image_atom seg (i - insert_position seg)) else atoms !! Z.to_nat i).
Proof.
  revert k atoms slots; induction fuel as [|fuel IH]; intros k atoms slots Hk Hlen; cbn [fill_segment].
  { intros [= <- <-]. split; [done|]. intros i.
    cbv zeta. change (Z.of_nat 0) with 0.
    rewrite between_false by lia.
    split; [|done]. split; [by left|by intros [?|?]]. }
  rewrite Nat2Z.inj_succ in Hlen |- *. pose proof (Nat2Z.is_nonneg fuel) as Hfuel.
  intros Hrun. apply IH in Hrun as [Hl Hspec]; [|lia|rewrite length_insert; lia].
  rewrite length_insert in Hl. split; [done|]. intros i. destruct (Hspec i) as [Hs Ha]. clear Hspec IH.
  destruct (Z.eq_dec i (insert_position seg + k)) as [->|Hne].
  - rewrite between_true by lia. rewrite between_false in Hs, Ha by lia.
    split; [rewrite Hs; split; [by right|]; intros _; left; set_solver|].
    intros Hi. rewrite Ha, list_lookup_insert_eq by lia. do 2 f_equal. lia.
  - assert ((insert_position seg + k <=? i) && (i <? insert_position seg + k + Z.succ (Z.of_nat fuel)) =
            (insert_position seg + (k + 1) <=? i) && (i <? insert_position seg + (k + 1) + Z.of_nat fuel)) as ->.
    { apply eq_true_iff_eq. rewrite !andb_true_iff, !Z.leb_le, !Z.ltb_lt. lia. }
    split; [rewrite Hs; set_solver|]. intros Hi. rewrite Ha by done. by rewrite list_lookup_insert_ne by lia.
Qed.

Lemma fill_segments_spec n segs atoms slots atoms' slots' :
  n = Z.of_nat (List.length atoms) → fill_segments n segs atoms slots = Ok (atoms', slots') →
  Forall (in_bounds n) segs ∧ List.length atoms' = List.length atoms ∧
  ∀ i,
    (i ∈ slots' ↔ i ∈ slots ∨ is_Some (atom_at segs i)) ∧
    (0 <= i → atoms' !! Z.to_nat i = match atom_at segs i with Some a => Some a | None => atoms !! Z.to_nat i end).
Proof.
  revert atoms slots; induction segs as [|seg segs IH]; intros atoms slots Hn; simpl.
  { intros [= <- <-]. split; [done|]. split; [done|]. intros i. split; [|done].
    split; [by left|by intros [?|[? ?]]]. }
  destruct ((_ <? 0) || _) eqn:Hb; [done|]. apply orb_false_iff in Hb.
  destruct (fill_segment _ _ _ _ _) as [atoms1 slots1] eqn:Hf.
  assert (0 <= insert_position seg ∧ insert_position seg + seg_length seg <= n) as [Hlo Hhi] by lia.
  assert (List.length atoms1 = List.length atoms ∧ ∀ i, (i ∈ slots1 ↔ i ∈ slots ∨ covers seg i = true) ∧
    (0 <= i → atoms1 !! Z.to_nat i = if covers seg i then Some (image_atom seg (i - insert_position seg)) else atoms !! Z.to_nat i))
    as [Hl1 Hspec1].
  { destruct (Z.leb_spec 0 (seg_length seg)) as [Hpos|Hneg].
    - apply fill_segment_spec in Hf; [|lia|lia]. rewrite Z.add_0_r, Z2Nat.id in Hf by lia. exact Hf.
    - replace (Z.to_nat (seg_length seg)) with 0%nat in Hf by lia. injection Hf as <- <-. split; [done|].
      intros i. assert (covers seg i = false) as -> by (apply between_false; lia). split; [|done].
      split; [by left|by intros [?|?]]. }
  intros Hrun. apply IH in Hrun as (Hbs & Hl2 & Hspec2); [|lia].
  split; [by constructor|]. split; [lia|]. intros i.
  destruct (Hspec1 i) as [Hs1 Ha1], (Hspec2 i) as [Hs2 Ha2]. rewrite Hs2, Hs1. unfold is_Some.
  destruct (atom_at segs i); split; try (by intros Hi; rewrite Ha2 by done); [naive_solver| |].
  - destruct (covers seg i); naive_solver.
  - intros Hi. rewrite Ha2, Ha1 by done. by destruct (covers seg i).
Qed.

Lemma fill_segments_bounds n segs atoms slots :
  fill_segments n segs atoms slots =
  (_ ← ensure (bool_decide (Forall (λ s, 0 <= insert_position s ∧ insert_position s + seg_length s <= n) segs)) ValueError;
   fill_segments n segs atoms slots).
Proof.
  revert atoms slots; induction segs as [|seg segs IH]; intros atoms slots; [done|]. simpl.
  destruct ((_ <? 0) || _) eqn:Hb.
  - apply orb_true_iff in Hb. rewrite bool_decide_eq_false_2; [done|].
    intros [[? ?] _]%Forall_cons. lia.
  - apply orb_false_iff in Hb. destruct (fill_segment _ _ _ _ _) as [atoms1 slots1]. rewrite IH at 1.
    f_equal. f_equal. apply bool_decide_ext. rewrite Forall_cons. split; [|by intros [? ?]].
    intros ?. split; [lia|done].
Qed.

Definition atom_ok (a : Z * Z) : Prop := 0 <= a.1 < 2 ^ 64 ∧ 0 <= a.2 < 2 ^ 64.

Lemma image_atom_ok seg k : atom_ok (image_atom seg k).
Proof. split; apply mask64_range. Qed.

Lemma fill_segment_ok seg fuel k atoms slots :
  Forall atom_ok atoms → Forall atom_ok (fill_segment seg fuel k atoms slots).1.
Proof.
  revert k atoms slots; induction fuel as [|fuel IH]; intros k atoms slots Hok; [done|]. simpl.
  apply IH, Forall_insert; [done|]. apply image_atom_ok.
Qed.

Lemma fill_segments_ok n segs atoms slots atoms' slots' :
  Forall atom_ok atoms → fill_segments n segs atoms slots = Ok (atoms', slots') → Forall atom_ok atoms'.
Proof.
  revert atoms slots; induction segs as [|seg segs IH]; intros atoms slots Hok; simpl; [by intros [= <- _]|].
  destruct (_ || _); [done|]. pose proof (fill_segment_ok seg (Z.to_nat (seg_length seg)) 0 atoms slots Hok) as Hf.
  destruct (fill_segment _ _ _ _ _). by apply IH.
Qed.

Lemma fill_text_spec slots i atoms text :
  Forall atom_ok atoms →
  match fill_text slots i atoms text with
  | Ok out =>
      List.length out = List.length atoms ∧ Forall atom_ok out ∧
      (List.length (text_atoms slots i atoms) ≤ List.length text)%nat ∧
      text_atoms slots i out = (λ t, (mask64 t, 0)) <$> take (List.length (text_atoms slots i atoms)) text ∧
      ∀ j, i + Z.of_nat j ∈ slots → out !! j = atoms !! j
  | Err e => e = ValueError ∧ (List.length text < List.length (text_atoms slots i atoms))%nat
  end.
Proof.
  revert i text; induction atoms as [|a atoms IH]; intros i text Hok; simpl.
  { repeat split; try done. simpl. lia. }
  apply Forall_cons in Hok as [Ha Hok]. case_bool_decide as Hi.
  - specialize (IH (i + 1) text Hok). destruct (fill_text _ _ _ _) as [out|e]; simpl; [|done].
    destruct IH as (Hlen & Hout & Hle & Htext & Hslots). rewrite bool_decide_eq_true_2 by done.
    split; [lia|]. split; [by constructor|]. split; [done|]. split; [done|].
    intros [|j] Hj; [done|]. simpl. apply Hslots. by replace (i + 1 + Z.of_nat j) with (i + Z.of_nat (S j)) by lia.
  - destruct text as [|tok text]; simpl; [split; [done|lia]|].
    specialize (IH (i + 1) text Hok). destruct (fill_text _ _ _ _) as [out|e]; simpl; [|destruct IH; split; [done|lia]].
    destruct IH as (Hlen & Hout & Hle & Htext & Hslots). rewrite bool_decide_eq_false_2 by done.
    split; [lia|]. split; [constructor; [split; [apply mask64_range|simpl; lia]|done]|]. split; [lia|].
    split; [by rewrite Htext|]. intros [|j] Hj; [by rewrite Z.add_0_r in Hj|]. simpl. apply Hslots.
    by replace (i + 1 + Z.of_nat j) with (i + Z.of_nat (S j)) by lia.
Qed.

(** ** Counting slots *)

Lemma size_le_length (l : list Z) : (size (list_to_set l : gset Z) ≤ List.length l)%nat.
Proof.
  induction l as [|x l IH]; [done|]. change (list_to_set (x :: l) : gset Z) with ({[x]} ∪ list_to_set l : gset Z).
  rewrite size_union_alt, size_singleton. simpl.
  etrans; [|apply le_n_S, IH]. apply le_n_S, subseteq_size. set_solver.
Qed.

Lemma size_full (l : list Z) : size (list_to_set l : gset Z) = List.length l → NoDup l.
Proof.
  induction l as [|x l IH]; [constructor|]. change (list_to_set (x :: l) : gset Z) with ({[x]} ∪ list_to_set l : gset Z).
  intros Hsize. pose proof (size_le_length l) as Hle. destruct (decide (x ∈ l)) as [Hin|Hout].
  - replace ({[x]} ∪ list_to_set l : gset Z) with (list_to_set l : gset Z) in Hsize by set_solver. simpl in Hsize. lia.
  - rewrite size_union, size_singleton in Hsize by set_solver. simpl in Hsize. constructor; [done|apply IH; lia].
Qed.

Lemma text_atoms_length slots i atoms :
  List.length (text_atoms slots i atoms) =
  List.length (filter (λ j, j ∉ slots) ((λ k, i + Z.of_nat k) <$> seq 0 (List.length atoms))).
Proof.
  revert i; induction atoms as [|a atoms IH]; intros i; [done|].
  assert (∀ m, (λ k, i + Z.of_nat k) <$> seq 1 m = (λ k, (i + 1) + Z.of_nat k) <$> seq 0 m) as Hshift.
  { intros m. rewrite <- fmap_S_seq, <- list_fmap_compose. apply list_fmap_ext. intros ? k _. simpl. lia. }
  cbn [List.length seq]. rewrite fmap_cons, Hshift, Z.add_0_r. cbn [text_atoms]. case_bool_decide as Hi.
  - by rewrite filter_cons_False by (by intros ?).
  - rewrite filter_cons_True by done. simpl. by rewrite IH.
Qed.

Lemma filter_split_length (l : list Z) (X : gset Z) :
  (List.length (filter (λ j, j ∉ X) l) + List.length (filter (λ j, j ∈ X) l) = List.length l)%nat.
Proof.
  induction l as [|x l IH]; [done|]. destruct (decide (x ∈ X)).
  - rewrite filter_cons_False, filter_cons_True by (done || by intros ?). simpl. lia.
  - rewrite filter_cons_True, filter_cons_False by done. simpl. lia.
Qed.

(** The text slots are those the images leave. *)
Lemma free_slots slots atoms :
  (∀ i, i ∈ slots → 0 <= i < Z.of_nat (List.length atoms)) →
  (List.length (text_atoms slots 0 atoms) + size slots = List.length atoms)%nat.
Proof.
  intros Hslots. rewrite text_atoms_length.
  set (l := (λ k, 0 + Z.of_nat k) <$> seq 0 (List.length atoms)).
  assert (NoDup l) as Hnd by (apply NoDup_fmap_2; [intros a b ?; lia|apply NoDup_seq]).
  assert (size slots = List.length (filter (λ j, j ∈ slots) l)) as ->.
  { rewrite <- (size_list_to_set (C:=gset Z)) by by apply NoDup_filter. f_equal. apply set_eq. intros i.
    rewrite elem_of_list_to_set, list_elem_of_filter. split; [|by intros [? _]]. intros Hi. split; [done|].
    apply list_elem_of_fmap. exists (Z.to_nat i). specialize (Hslots i Hi). rewrite elem_of_seq. lia. }
  rewrite filter_split_length. unfold l. by rewrite length_fmap, length_seq.
Qed.

Lemma elem_of_segment_slots seg i :
  i ∈ segment_slots seg ↔ covers seg i = true.
Proof.
  unfold segment_slots, covers. rewrite list_elem_of_fmap, andb_true_iff, Z.leb_le, Z.ltb_lt. split.
  - intros (k & -> & Hk%elem_of_seq). lia.
  - intros [? ?]. exists (Z.to_nat (i - insert_position seg)). rewrite elem_of_seq. lia.
Qed.

Lemma atom_at_covered segs i : is_Some (atom_at segs i) ↔ i ∈ covered segs.
Proof.
  unfold covered. induction segs as [|seg segs IH]; simpl; [split; [by intros [? ?]|by intros ?%elem_of_nil]|].
  rewrite elem_of_app, elem_of_segment_slots, <- IH. unfold is_Some.
  destruct (atom_at segs i), (covers seg i); naive_solver.
Qed.

(** With no overlap a slot holds the atom of the only segment over it. *)
Lemma atom_at_segment segs seg k :
  NoDup (covered segs) → seg ∈ segs → 0 <= k < seg_length seg →
  atom_at segs (insert_position seg + k) = Some (image_atom seg k).
Proof.
  intros Hnd Hseg Hk. induction segs as [|s segs IH]; [by apply elem_of_nil in Hseg|].
  unfold covered in Hnd. simpl in Hnd. apply NoDup_app in Hnd as (_ & Hdis & Hnd). simpl.
  apply elem_of_cons in Hseg as [->|Hseg].
  - assert (insert_position s + k ∈ segment_slots s) as Hin.
    { apply elem_of_segment_slots. unfold covers. apply between_true. lia. }
    specialize (Hdis _ Hin). destruct (atom_at segs _) eqn:Ha.
    { destruct Hdis. apply atom_at_covered. by eexists. }
    apply elem_of_segment_slots in Hin as ->. do 2 f_equal. lia.
  - by rewrite (IH Hnd Hseg).
Qed.

Lemma covered_length segs :
  Forall (λ s, 0 <= seg_length s) segs →
  Z.of_nat (List.length (covered segs)) = foldr (λ s acc, seg_length s + acc) 0 segs.
Proof.
  induction 1 as [|s segs Hs Hall IH]; [done|]. unfold covered. rewrite bind_cons.
  fold (covered segs). simpl foldr. rewrite length_app, Nat2Z.inj_add, IH. unfold segment_slots. rewrite length_fmap, length_seq. lia.
Qed.

(** ** Prompts *)

Definition fits (n : Z) (segs : list image_segment) : Prop :=
  Forall (in_bounds n) segs ∧ NoDup (covered segs).

Lemma pack_limbs atoms :
  Forall atom_ok atoms →
  rmap (λ a, lo ← pack_Q a.1; hi ← pack_Q a.2; Ok (lo ++ hi)) atoms =
  Ok ((λ a, le_bytes 8 a.1 ++ le_bytes 8 a.2) <$> atoms).
Proof.
  intros Hok. apply rmap_ok. rewrite Forall2_fmap_r. apply Forall_Forall2_diag.
  eapply Forall_impl; [exact Hok|]. intros [lo hi] [? ?]. simpl in *. by rewrite !pack_Q_ok.
Qed.

Lemma decode_packed atoms :
  Forall atom_ok atoms →
  decode_limbs (join_bytes ((λ a, le_bytes 8 a.1 ++ le_bytes 8 a.2) <$> atoms)) = atoms ∧
  List.length (join_bytes ((λ a, le_bytes 8 a.1 ++ le_bytes 8 a.2) <$> atoms)) = (16 * List.length atoms)%nat.
Proof.
  intros Hok. unfold decode_limbs, join_bytes.
  assert (∀ a, a ∈ (λ a : Z * Z, le_bytes 8 a.1 ++ le_bytes 8 a.2) <$> atoms → List.length a = 16%nat) as Hw.
  { intros a (x & -> & _)%list_elem_of_fmap. by rewrite length_app, !le_bytes_length. }
  rewrite (join_length 16 _ Hw), length_fmap. split; [|done].
  replace (16 * List.length atoms / 16)%nat with (List.length ((λ a : Z * Z, le_bytes 8 a.1 ++ le_bytes 8 a.2) <$> atoms)).
  2:{ rewrite length_fmap, Nat.mul_comm. symmetry. by apply Nat.div_mul. }
  rewrite (decode_encode 16 _ Hw), <- list_fmap_compose. rewrite <- (list_fmap_id atoms) at 2.
  apply list_fmap_ext. intros i [lo hi] Hi. eapply Forall_lookup_1 in Hok as [Hlo Hhi]; [|exact Hi].
  unfold compose. cbn [fst snd] in Hlo, Hhi |- *.
  rewrite take_app_length', drop_app_length' by by rewrite le_bytes_length. by rewrite !le_value_8.
Qed.

(** How the encoder proceeds on a prompt whose segments have lengths. *)
Lemma encode_cases text segs :
  Forall (λ s, 0 <= seg_length s) segs →
  let n := n_total text segs in
  (∃ atoms, encode_prompt_to_atoms text segs = Ok (join_bytes ((λ a, le_bytes 8 a.1 ++ le_bytes 8 a.2) <$> atoms)) ∧
     Forall atom_ok atoms ∧ fits n segs ∧ Z.of_nat (List.length atoms) = n ∧
     text_atoms (list_to_set (covered segs)) 0 atoms = (λ t, (mask64 t, 0)) <$> text ∧
     ∀ i, i ∈ covered segs → atoms !! Z.to_nat i = atom_at segs i) ∨
  (encode_prompt_to_atoms text segs = Err ValueError ∧ ¬ fits n segs).
Proof.
  intros Hlens n. pose proof (covered_length segs Hlens) as Hcov. unfold encode_prompt_to_atoms. fold n.
  assert (n = Z.of_nat (List.length text) + Z.of_nat (List.length (covered segs))) as Hn by by rewrite Hcov.
  set (blank := replicate (Z.to_nat n) (0, 0)).
  assert (n = Z.of_nat (List.length blank)) as Hblank by (unfold blank; rewrite length_replicate; lia).
  assert (Forall atom_ok blank) as Hbok.
  { apply Forall_replicate. split; simpl; lia. }
  destruct (fill_segments n segs blank ∅) as [[atoms slots]|e] eqn:Hfs; simpl.
  2:{ right. rewrite fill_segments_bounds in Hfs. destruct (bool_decide (Forall _ segs)) eqn:Hb.
      - simpl in Hfs. exfalso. apply bool_decide_eq_true in Hb. revert Hfs. generalize blank. generalize (∅ : gset Z).
        generalize n Hb. clear. intros n Hb. induction Hb as [|s segs [? ?] Hb IH]; intros slots b; simpl; [done|].
        destruct ((insert_position s <? 0) || (n <? insert_position s + seg_length s)) eqn:Hx.
        { apply orb_true_iff in Hx. lia. }
        destruct (fill_segment _ _ _ _ _). apply IH.
      - simpl in Hfs. injection Hfs as <-. split; [done|]. intros [Hb' _].
        apply bool_decide_eq_false in Hb. done. }
  pose proof (fill_segments_ok _ _ _ _ _ _ Hbok Hfs) as Hok.
  apply (fill_segments_spec n segs blank ∅ atoms slots Hblank) in Hfs as (Hbounds & Hlen & Hspec).
  assert (∀ i, i ∈ slots ↔ i ∈ covered segs) as Hslots.
  { intros i. destruct (Hspec i) as [-> _]. rewrite atom_at_covered. set_solver. }
  assert (∀ i, i ∈ covered segs → 0 <= i < n) as Hrange.
  { intros i (s & Hi & Hs)%list_elem_of_bind. apply elem_of_segment_slots in Hi. unfold covers in Hi.
    rewrite Forall_forall in Hbounds. destruct (Hbounds s Hs). lia. }
  assert (slots = list_to_set (covered segs)) as ->.
  { apply set_eq. intros i. by rewrite Hslots, elem_of_list_to_set. }
  pose proof (fill_text_spec (list_to_set (covered segs)) 0 atoms text Hok) as Htext.
  pose proof (free_slots (list_to_set (covered segs)) atoms) as Hfree.
  specialize (Hfree ltac:(intros i Hi%elem_of_list_to_set; rewrite Hlen, <- Hblank; by apply Hrange)).
  pose proof (size_le_length (covered segs)) as Hsize.
  destruct (fill_text _ 0 atoms text) as [out|e]; simpl.
  - left. destruct Htext as (Hlo & Hook & Hle & Htx & Hout).
    assert (size (list_to_set (covered segs) : gset Z) = List.length (covered segs)) as Hfull by lia.
    exists out. rewrite (pack_limbs out Hook). simpl. split; [done|]. split; [done|].
    split; [split; [done|by apply size_full]|]. split; [lia|]. split.
    + rewrite Htx. f_equal. apply take_ge. lia.
    + intros i Hi. pose proof (Hrange i Hi) as [Hi0 _].
      rewrite (Hout (Z.to_nat i)) by (apply elem_of_list_to_set; by replace (0 + Z.of_nat (Z.to_nat i)) with i by lia).
      destruct (Hspec i) as [_ Hi2]. rewrite Hi2 by done.
      apply atom_at_covered in Hi as [a Ha]. by rewrite Ha.
  - right. destruct Htext as [-> Hlt]. split; [done|]. intros [_ Hnd].
    rewrite (size_list_to_set (C:=gset Z) _ Hnd) in Hfree. lia.
Qed.

(** A prompt of text tokens and image spans is encoded exactly when every
    span lies inside the prompt and no two spans share a slot; any other
    prompt is refused with a [ValueError], never encoded wrongly. *)
Theorem encode_prompt_total text segs :
  Forall (λ s, 0 <= seg_length s) segs →
  (fits (n_total text segs) segs ∧ ∃ bytes, encode_prompt_to_atoms text segs = Ok bytes) ∨
  (¬ fits (n_total text segs) segs ∧ encode_prompt_to_atoms text segs = Err ValueError).
Proof.
  intros Hlens. destruct (encode_cases text segs Hlens) as [(atoms & -> & _ & Hf & _)|[-> Hn]]; [left|by right].
  split; [done|]. by eexists.
Qed.

(** C20: What the bytes of a prompt hold: one 16-byte atom per slot; the atoms
    outside the image spans are the text tokens, all of them and in their
    order, with a zero high limb; slot [k] of a span holds the image hash with
    [k] mixed into its high limb. *)
Theorem prompt_roundtrip text segs bytes :
  Forall (λ s, 0 <= seg_length s) segs → encode_prompt_to_atoms text segs = Ok bytes →
  let atoms := decode_limbs bytes in
  Z.of_nat (List.length bytes) = 16 * n_total text segs ∧ Z.of_nat (List.length atoms) = n_total text segs ∧
  text_atoms (list_to_set (covered segs)) 0 atoms = (λ t, (t mod 2 ^ 64, 0)) <$> text ∧
  ∀ seg k, seg ∈ segs → 0 <= k < seg_length seg →
    atoms !! Z.to_nat (insert_position seg + k) =
      Some (image_hash_lo seg mod 2 ^ 64, Z.lxor (image_hash_hi seg) k mod 2 ^ 64).
Proof.
  intros Hlens Henc. destruct (encode_cases text segs Hlens) as [(atoms & Heq & Hok & [Hb Hnd] & Hlen & Htext & Himg)|[Hbad _]];
    rewrite Henc in *; [|done]. destruct (decode_packed atoms Hok) as [Hdec Hbytes].
  apply Ok_inj in Heq. rewrite <- Heq in Hdec, Hbytes. cbv zeta. rewrite Hdec.
  split; [rewrite Hbytes; lia|]. split; [done|]. split.
  - rewrite Htext. apply list_fmap_ext. intros _ t _. by rewrite mask64_mod.
  - intros seg k Hseg Hk. rewrite Himg.
    + rewrite (atom_at_segment segs seg k Hnd Hseg Hk). unfold image_atom. by rewrite !mask64_mod.
    + apply list_elem_of_bind. exists seg. split; [|done]. apply elem_of_segment_slots, between_true. lia.
Qed.

(** ** When text and images can be told apart *)

Lemma elem_of_text_atoms slots i atoms j a :
  atoms !! j = Some a → i + Z.of_nat j ∉ slots → a ∈ text_atoms slots i atoms.
Proof.
  revert i j; induction atoms as [|b atoms IH]; intros i j; [done|]. destruct j as [|j]; simpl.
  - intros [= ->] Hi. rewrite Z.add_0_r in Hi. rewrite bool_decide_eq_false_2 by done. by left.
  - intros Hj Hi. assert (a ∈ text_atoms slots (i + 1) atoms) as Hin.
    { apply (IH (i + 1) j Hj). by replace (i + 1 + Z.of_nat j) with (i + Z.of_nat (S j)) by lia. }
    case_bool_decide; [done|by right].
Qed.

Lemma lxor_zero_mod h k : 0 <= k < 2 ^ 64 → Z.lxor h k mod 2 ^ 64 = 0 → h mod 2 ^ 64 = k.
Proof.
  intros Hk H0. transitivity (k mod 2 ^ 64); [|by apply Z.mod_small]. apply Z.bits_inj'. intros i Hi.
  destruct (Z.ltb_spec i 64) as [Hlt|Hge]; [|by rewrite !Z.mod_pow2_bits_high by lia].
  apply (f_equal (λ z, Z.testbit z i)) in H0.
  rewrite Z.mod_pow2_bits_low, Z.lxor_spec, Z.bits_0 in H0 by done.
  rewrite !Z.mod_pow2_bits_low by done. by destruct (Z.testbit h i), (Z.testbit k i).
Qed.

(** The condition under which the high limb tells images from text. *)
Definition tall_hash (s : image_segment) : Prop := 0 <= seg_length s <= image_hash_hi s mod 2 ^ 64.

Lemma image_slots_by_limb text segs bytes i :
  Forall tall_hash segs → encode_prompt_to_atoms text segs = Ok bytes →
  i ∈ covered segs ↔ 0 <= i ∧ ∃ a, decode_limbs bytes !! Z.to_nat i = Some a ∧ a.2 ≠ 0.
Proof.
  intros Htall Henc. assert (Forall (λ s, 0 <= seg_length s) segs) as Hlens.
  { eapply Forall_impl; [exact Htall|]. intros s [? _]. done. }
  destruct (encode_cases text segs Hlens) as [(atoms & Heq & Hok & [Hb Hnd] & Hlen & Htext & Himg)|[Hbad _]];
    [|by rewrite Henc in Hbad].
  destruct (decode_packed atoms Hok) as [Hdec _]. rewrite Heq in Henc. apply Ok_inj in Henc. rewrite Henc in Hdec. rewrite Hdec.
  split.
  - intros Hi. pose proof (Himg i Hi) as Ha. apply list_elem_of_bind in Hi as (s & Hi & Hs).
    apply elem_of_segment_slots in Hi. unfold covers in Hi. apply andb_true_iff in Hi as [?%Z.leb_le ?%Z.ltb_lt].
    rewrite Forall_forall in Hb, Htall. destruct (Hb s Hs), (Htall s Hs). split; [lia|].
    pose proof (Z.mod_pos_bound (image_hash_hi s) (2 ^ 64) ltac:(lia)).
    pose proof (atom_at_segment segs s (i - insert_position s) Hnd Hs ltac:(lia)) as Hat.
    replace (insert_position s + (i - insert_position s)) with i in Hat by lia.
    eexists. split; [by rewrite Ha, Hat|].
    simpl. rewrite mask64_mod. intros Hz. apply lxor_zero_mod in Hz; lia.
  - intros (Hi & a & Ha & Hne). destruct (decide (i ∈ covered segs)) as [?|Hout]; [done|]. destruct Hne.
    assert (a ∈ text_atoms (list_to_set (covered segs)) 0 atoms) as Hin.
    { apply (elem_of_text_atoms _ _ _ _ _ Ha). rewrite elem_of_list_to_set. by replace (0 + Z.of_nat (Z.to_nat i)) with i by lia. }
    rewrite Htext in Hin. by apply list_elem_of_fmap in Hin as (t & -> & _).
Qed.

(** When the high half of every image hash is at least the length of its
    span, text and images never collide: two such prompts with the same bytes
    have the same image slots, the same text and the same image atoms. *)
Theorem prompt_bytes_determine text segs text' segs' bytes :
  Forall tall_hash segs → Forall tall_hash segs' →
  Forall (λ t, 0 <= t < 2 ^ 64) text → Forall (λ t, 0 <= t < 2 ^ 64) text' →
  encode_prompt_to_atoms text segs = Ok bytes → encode_prompt_to_atoms text' segs' = Ok bytes →
  text = text' ∧ (∀ i, i ∈ covered segs ↔ i ∈ covered segs') ∧
  ∀ s s' k k', s ∈ segs → s' ∈ segs' → 0 <= k < seg_length s → 0 <= k' < seg_length s' →
    insert_position s + k = insert_position s' + k' → image_atom s k = image_atom s' k'.
Proof.
  intros Ht Ht' Hw Hw' He He'.
  assert (∀ i, i ∈ covered segs ↔ i ∈ covered segs') as Hcov.
  { intros i. rewrite (image_slots_by_limb text segs bytes i Ht He). symmetry. by apply (image_slots_by_limb text' segs'). }
  assert (∀ segs0, Forall tall_hash segs0 → Forall (λ s, 0 <= seg_length s) segs0) as Hl.
  { intros segs0 H0. eapply Forall_impl; [exact H0|]. by intros s [? _]. }
  destruct (encode_cases text segs (Hl _ Ht)) as [(atoms & Heq & Hok & [Hb Hnd] & Hlen & Htext & Himg)|[Hbad _]];
    [|by rewrite He in Hbad].
  destruct (encode_cases text' segs' (Hl _ Ht')) as [(atoms' & Heq' & Hok' & [Hb' Hnd'] & Hlen' & Htext' & Himg')|[Hbad _]];
    [|by rewrite He' in Hbad].
  destruct (decode_packed atoms Hok) as [Hdec _], (decode_packed atoms' Hok') as [Hdec' _].
  rewrite Heq in He. rewrite Heq' in He'. apply Ok_inj in He, He'. rewrite He in Hdec. rewrite He' in Hdec'.
  rewrite Hdec in Hdec'. subst atoms'.
  assert (list_to_set (covered segs) =@{gset Z} list_to_set (covered segs')) as Hset by set_solver.
  split; [|split; [done|]].
  - rewrite Hset, Htext' in Htext. clear -Htext Hw Hw'. revert text' Htext Hw'.
    induction Hw as [|t text Ht Hw IH]; intros [|t' text'] Heq Hw'; try done.
    apply Forall_cons in Hw' as [Ht' Hw']. rewrite !fmap_cons in Heq. injection Heq as Heq Hrest.
    rewrite !mask64_mod, !Z.mod_small in Heq by done. f_equal; [done|by apply IH].
  - intros s s' k k' Hs Hs' Hk Hk' Hpos.
    assert (insert_position s + k ∈ covered segs) as Hin.
    { apply list_elem_of_bind. exists s. split; [|done]. apply elem_of_segment_slots, between_true. lia. }
    pose proof (Himg _ Hin) as H1. rewrite (atom_at_segment segs s k Hnd Hs Hk) in H1.
    apply Hcov in Hin. pose proof (Himg' _ Hin) as H2.
    rewrite Hpos in H1, H2. rewrite (atom_at_segment segs' s' k' Hnd' Hs' Hk') in H2. congruence.
Qed.

(** A non-zero high half is not enough: a two-token image whose hash has
    high half 1 and a one-token image with the same hash followed by a text
    token encode to the same bytes. *)
Theorem nonzero_hash_collides lo :
  ∃ bytes, encode_prompt_to_atoms [] [ImageSegment lo 1 0 2] = Ok bytes ∧
    encode_prompt_to_atoms [lo] [ImageSegment lo 1 0 1] = Ok bytes.
Proof.
  unfold encode_prompt_to_atoms. simpl. unfold image_atom. simpl.
  rewrite bool_decide_eq_true_2 by set_solver. rewrite bool_decide_eq_true_2 by set_solver.
  rewrite bool_decide_eq_true_2 by set_solver. rewrite bool_decide_eq_false_2 by set_solver. simpl.
  rewrite (pack_Q_ok (mask64 lo)) by apply mask64_range. eexists. split; reflexivity.
Qed.

(** ** Examples *)

Lemma text_prefix_exact_witness :
  let xs := [5; -7; 123456] in let ys := [5; -7; 123456; 2147483647] in
  ∃ bx byt, encode_text_atoms_int32 xs = Ok bx ∧ encode_text_atoms_int32 ys = Ok byt ∧
    List.length bx = 12%nat ∧ (bx `prefix_of` byt ↔ xs `prefix_of` ys) ∧ (bx = byt ↔ xs = ys) ∧
    ∀ page, 0 < page →
      let tokens := take (Z.to_nat (3 / page * page)) xs in
      ∃ cut, encode_text_atoms_int32 tokens = Ok cut ∧
        page_align bx (4 * page) = Ok (cut, 4 * 3 - 4 * Z.of_nat (List.length tokens)).
Proof.
  intros xs ys. eexists _, _. split; [reflexivity|]. split; [reflexivity|].
  exact (text_prefix_exact xs ys _ _ eq_refl eq_refl).
Defined.

Definition demo_segments : list image_segment := [ImageSegment 77 1000 1 2; ImageSegment 88 2000 4 1].
Definition demo_reversed : list image_segment := [ImageSegment 88 2000 4 1; ImageSegment 77 1000 1 2].

Lemma encode_prompt_total_witness :
  (fits (n_total [10; 11; 12] demo_segments) demo_segments ∧
     ∃ bytes, encode_prompt_to_atoms [10; 11; 12] demo_segments = Ok bytes) ∨
  (¬ fits (n_total [10; 11; 12] demo_segments) demo_segments ∧
     encode_prompt_to_atoms [10; 11; 12] demo_segments = Err ValueError).
Proof.
  apply (encode_prompt_total [10; 11; 12] demo_segments). repeat (constructor; [simpl; lia|]). constructor.
Defined.

Lemma prompt_roundtrip_witness :
  ∃ bytes, encode_prompt_to_atoms [10; 11; 12] demo_segments = Ok bytes ∧
    let atoms := decode_limbs bytes in
    Z.of_nat (List.length bytes) = 16 * 6 ∧ Z.of_nat (List.length atoms) = 6 ∧
    text_atoms (list_to_set (covered demo_segments)) 0 atoms = (λ t, (t mod 2 ^ 64, 0)) <$> [10; 11; 12] ∧
    ∀ seg k, seg ∈ demo_segments → 0 <= k < seg_length seg →
      atoms !! Z.to_nat (insert_position seg + k) =
        Some (image_hash_lo seg mod 2 ^ 64, Z.lxor (image_hash_hi seg) k mod 2 ^ 64).
Proof.
  eexists. split; [vm_compute; reflexivity|].
  apply (prompt_roundtrip [10; 11; 12] demo_segments).
  - repeat (constructor; [simpl; lia|]). constructor.
  - vm_compute. reflexivity.
Defined.

Lemma prompt_bytes_determine_witness :
  ∃ bytes, encode_prompt_to_atoms [10; 11; 12] demo_segments = Ok bytes ∧
    ([10; 11; 12] = [10; 11; 12] ∧ (∀ i, i ∈ covered demo_segments ↔ i ∈ covered demo_reversed) ∧
     ∀ s s' k k', s ∈ demo_segments → s' ∈ demo_reversed → 0 <= k < seg_length s → 0 <= k' < seg_length s' →
       insert_position s + k = insert_position s' + k' → image_atom s k = image_atom s' k').
Proof.
  eexists. split; [vm_compute; reflexivity|].
  eapply (prompt_bytes_determine [10; 11; 12] demo_segments [10; 11; 12] demo_reversed).
  - repeat (constructor; [vm_compute; split; discriminate|]). constructor.
  - repeat (constructor; [vm_compute; split; discriminate|]). constructor.
  - repeat (constructor; [lia|]). constructor.
  - repeat (constructor; [lia|]). constructor.
  - vm_compute. reflexivity.
  - vm_compute. reflexivity.
Defined.
