(* ===== verification/Graph.v ===== *)
(** * CUDA graphs ([runtime/cuda_graph_manager.py])

    A graph object with its static input buffers, over a heap of tensors: the
    warm-up and the capture of a function, replays, reset, and the registry
    of captured graphs.  Recording and replaying the launches of a region is
    what [torch.cuda.graph] documents; here a launch is a function on the
    heap, executed when it is issued outside a capture region and recorded
    inside one. *)

From S2P Require Import Prelude.

(** A tensor in memory. *)
Record cell (V : Type) : Type := Cell { cl_shape : list Z; cl_value : V }.
Arguments Cell {V} cl_shape cl_value.
Arguments cl_shape {V} c.
Arguments cl_value {V} c.

Abbreviation heap V := (gmap nat (cell V)).

Section graph.
Context {V Out : Type} (junk : V).

Definition kernel : Type := heap V → heap V.

(** An argument of [capture] or [replay]. *)
Inductive argument : Type :=
  | NotTensor
  | Tensor (cuda : bool) (shape : list Z) (value : V).

(** One call of the captured function, inside or outside a capture region:
    the launches it issues and what it returns or raises. *)
Definition function : Type := bool → dict string nat → list kernel * res Out.

(** One batch of launches: the stream, whether inside a capture region. *)
Record launch : Type := Launch { la_stream : option nat; la_captured : bool }.

Record world : Type := World {
  w_heap : heap V;
  w_next : nat;
  w_cuda : bool;
  w_override : option nat;
  w_streams : nat;
  w_capturing : bool;
  w_log : list launch;
}.

Record cuda_graph : Type := CudaGraph {
  cg_captured : bool;
  cg_graph : option (list kernel);
  cg_inputs : dict string nat;
  cg_output : option Out;
  cg_warmups : Z;
  cg_mempool : bool;
}.

Definition graph_init (num_warmup_iters : Z) (mempool : bool) : res cuda_graph :=
  _ ← ensure (0 <=? num_warmup_iters)%Z ValueError;
  Ok (CudaGraph false None [] None num_warmup_iters mempool).

Definition input_buffer (g : cuda_graph) (name : string) : res nat :=
  _ ← ensure (cg_captured g) CudaGraphError;
  of_option CudaGraphError (dget (cg_inputs g) name).

Definition input_buffers (g : cuda_graph) : res (dict string nat) :=
  _ ← ensure (cg_captured g) CudaGraphError; Ok (cg_inputs g).

Definition with_heap (w : world) (h : heap V) : world :=
  World h (w_next w) (w_cuda w) (w_override w) (w_streams w) (w_capturing w) (w_log w).

(** [torch.empty_like(t)] *)
Definition empty_like (shape : list Z) (w : world) : world * nat :=
  (World (<[w_next w := Cell shape junk]> (w_heap w)) (S (w_next w)) (w_cuda w) (w_override w) (w_streams w)
     (w_capturing w) (w_log w), w_next w).

(** [buf.copy_(t)] for a tensor of the same shape *)
Definition copy_into (addr : nat) (value : V) (w : world) : world :=
  with_heap w (alter (λ c, Cell (cl_shape c) value) addr (w_heap w)).

(** The checks on the example inputs. *)
Definition check_example (a : argument) : res unit :=
  match a with
  | NotTensor => Err CudaGraphError
  | Tensor cuda _ _ => ensure cuda CudaGraphError
  end.

Definition arg_shape (a : argument) : list Z := match a with NotTensor => [] | Tensor _ sh _ => sh end.
Definition arg_value (a : argument) : V := match a with NotTensor => junk | Tensor _ _ v => v end.

(** The two loops over the example inputs: fresh buffers, then their
    contents. *)
Fixpoint alloc_buffers (example : list (string * argument)) (w : world) : world * list (string * nat) :=
  match example with
  | [] => (w, [])
  | (name, a) :: example' =>
      let '(w, addr) := empty_like (arg_shape a) w in
      let '(w, bufs) := alloc_buffers example' w in
      (w, (name, addr) :: bufs)
  end.

Fixpoint seed_buffers (example : list (string * argument)) (bufs : dict string nat) (w : world) : world * res unit :=
  match example with
  | [] => (w, Ok ())
  | (name, a) :: example' =>
      match dget bufs name with
      | None => (w, Err KeyError)
      | Some addr => seed_buffers example' bufs (copy_into addr (arg_value a) w)
      end
  end.

Definition run_kernels (ks : list kernel) (h : heap V) : heap V := foldl (λ h k, k h) h ks.

(** A call of the function on a stream: executed, or recorded. *)
Definition issue (fn : function) (bufs : dict string nat) (stream : option nat) (w : world)
    : world * list kernel * res Out :=
  let '(ks, r) := fn (w_capturing w) bufs in
  let h := if w_capturing w then w_heap w else run_kernels ks (w_heap w) in
  (World h (w_next w) (w_cuda w) (w_override w) (w_streams w) (w_capturing w)
     (w_log w ++ [Launch stream (w_capturing w)]), ks, r).

Fixpoint warm_up (fn : function) (bufs : dict string nat) (stream : nat) (n : nat) (w : world) : world * res unit :=
  match n with
  | O => (w, Ok ())
  | S n' =>
      match issue fn bufs (Some stream) w with
      | (w', _, Ok _) => warm_up fn bufs stream n' w'
      | (w', _, Err e) => (w', Err e)
      end
  end.

(** [with graph_capture():] sets the flag for the region and restores it. *)
Definition set_capturing (b : bool) (w : world) : world :=
  World (w_heap w) (w_next w) (w_cuda w) (w_override w) (w_streams w) b (w_log w).

(** [torch.cuda.Stream()] *)
Definition new_stream (w : world) : world * nat :=
  (World (w_heap w) (w_next w) (w_cuda w) (w_override w) (S (w_streams w)) (w_capturing w) (w_log w), w_streams w).

Definition capture (fn : function) (example : list (string * argument)) (g : cuda_graph) (w : world)
    : cuda_graph * world * res unit :=
  if cg_captured g then (g, w, Err CudaGraphError)
  else if negb (w_cuda w) then (g, w, Err CudaGraphError)
  else
    match rmap (λ it, check_example it.2) example with
    | Err e => (g, w, Err e)
    | Ok _ =>
        let '(w, bufs) := alloc_buffers example w in
        let g := CudaGraph false (cg_graph g) bufs (cg_output g) (cg_warmups g) (cg_mempool g) in
        match seed_buffers example bufs w with
        | (w, Err e) => (g, w, Err e)
        | (w, Ok _) =>
            let '(w, s) := new_stream w in
            match warm_up fn bufs s (Z.to_nat (cg_warmups g)) w with
            | (w, Err e) => (g, w, Err e)
            | (w, Ok _) =>
                (* [self._graph = torch.cuda.CUDAGraph()], empty so far *)
                let before := w_capturing w in
                let '(w, ks, r) := issue fn bufs (w_override w) (set_capturing true w) in
                let w := set_capturing before w in
                match r with
                | Err e => (CudaGraph false (Some []) bufs (cg_output g) (cg_warmups g) (cg_mempool g), w, Err e)
                | Ok out => (CudaGraph true (Some ks) bufs (Some out) (cg_warmups g) (cg_mempool g), w, Ok ())
                end
            end
        end
    end.

(** The copies at the start of [replay]; those before an error stay. *)
Fixpoint refill (bufs : dict string nat) (inputs : list (string * argument)) (w : world) : world * res unit :=
  match inputs with
  | [] => (w, Ok ())
  | (name, a) :: inputs' =>
      match dget bufs name with
      | None => (w, Err CudaGraphError)
      | Some addr =>
          match a, w_heap w !! addr with
          | Tensor _ shape value, Some c =>
              if bool_decide (shape = cl_shape c) then refill bufs inputs' (copy_into addr value w)
              else (w, Err CudaGraphError)
          | _, _ => (w, Err OtherError)
          end
      end
  end.

Definition replay (inputs : option (list (string * argument))) (g : cuda_graph) (w : world) : world * res (option Out) :=
  if negb (cg_captured g) then (w, Err CudaGraphError)
  else
    match refill (cg_inputs g) (default [] inputs) w with
    | (w, Err e) => (w, Err e)
    | (w, Ok _) =>
        match cg_graph g with
        | None => (w, Err AssertionError)
        | Some ks => (with_heap w (run_kernels ks (w_heap w)), Ok (cg_output g))
        end
    end.

Definition graph_reset (g : cuda_graph) : cuda_graph :=
  CudaGraph false None [] None (cg_warmups g) (cg_mempool g).

(** [capture_on_stream(stream)] around a computation: the override is set for
    its extent and restored whatever its outcome. *)
Definition capture_on_stream {A} (stream : option nat) (body : world → world * A) (w : world) : world * A :=
  let set_override o w := World (w_heap w) (w_next w) (w_cuda w) o (w_streams w) (w_capturing w) (w_log w) in
  let '(w', a) := body (set_override stream w) in
  (set_override (w_override w) w', a).

(** ** The registry

    Graphs are objects: the registry holds references into a store of
    graphs. *)

Context {K : Type} `{EqDecision K}.

Definition graph_registry : Type := dict K nat.

Definition register_graph (st : gmap nat cuda_graph) (r : graph_registry) (key : K) (graph : nat) : graph_registry * res unit :=
  match dget r key with
  | Some _ => (r, Err CudaGraphError)
  | None =>
      match st !! graph with
      | Some g => if cg_captured g then (dset r key graph, Ok ()) else (r, Err CudaGraphError)
      | None => (r, Err OtherError)
      end
  end.

Definition deregister_graph (r : graph_registry) (key : K) : graph_registry * res nat :=
  match dget r key with
  | Some graph => (ddel r key, Ok graph)
  | None => (r, Err CudaGraphError)
  end.

Definition graphs_get (r : graph_registry) (key : K) : option nat := dget r key.
Definition graphs_has (r : graph_registry) (key : K) : bool := bool_decide (key ∈ dkeys r).
Definition graphs_getitem (r : graph_registry) (key : K) : res nat := of_option CudaGraphError (dget r key).
Definition graphs_len (r : graph_registry) : nat := List.length (dkeys r).
Definition graphs_keys (r : graph_registry) : list K := dkeys r.
End graph.
