(* ===== verification/GraphProps.v ===== *)
(** * Properties of CUDA graphs

    A captured graph behaves, over any sequence of replays, like the function
    it was captured from; where the launches of a capture go; and the life
    cycle of the graph object. *)

From S2P Require Import Prelude Graph.
Open Scope Z_scope.

Section graphs.
Context {V Out : Type} (junk : V).

(** ** Replays against a reference *)

(** What the function computes: on buffers holding tensors of given values it
    leaves the result at its output, whatever else is in memory, and it
    writes neither its inputs nor their shapes. *)
Record computes (bufs : dict string nat) (ks : list (kernel (V:=V))) (read : heap V → option V)
    (F : dict string V → V) : Prop := {
  co_inputs h name addr : dget bufs name = Some addr → run_kernels ks h !! addr = h !! addr;
  co_result h vals : dkeys vals = dkeys bufs →
    (∀ name addr v, dget bufs name = Some addr → dget vals name = Some v → cl_value <$> h !! addr = Some v) →
    read (run_kernels ks h) = Some (F vals);
}.

(** The reference: the last value given for each input. *)
Record reference : Type := Reference { rf_shapes : dict string (list Z); rf_values : dict string V }.

Fixpoint ref_refill (rf : reference) (inputs : list (string * argument (V:=V))) : reference * res unit :=
  match inputs with
  | [] => (rf, Ok ())
  | (name, a) :: inputs' =>
      match dget (rf_shapes rf) name with
      | None => (rf, Err CudaGraphError)
      | Some sh =>
          match a with
          | NotTensor => (rf, Err OtherError)
          | Tensor _ shape value =>
              if bool_decide (shape = sh) then ref_refill (Reference (rf_shapes rf) (dset (rf_values rf) name value)) inputs'
              else (rf, Err CudaGraphError)
          end
      end
  end.

Definition ref_replay (F : dict string V → V) (rf : reference) (inputs : option (list (string * argument (V:=V))))
    : reference * res V :=
  match ref_refill rf (default [] inputs) with
  | (rf', Ok _) => (rf', Ok (F (rf_values rf')))
  | (rf', Err e) => (rf', Err e)
  end.

Fixpoint ref_run (F : dict string V → V) (rf : reference) (calls : list (option (list (string * argument (V:=V)))))
    : list (res V) :=
  match calls with
  | [] => []
  | c :: calls' => let '(rf', r) := ref_replay F rf c in r :: ref_run F rf' calls'
  end.

(** The same calls on a captured graph, reading the output after each; other
    code may run in between, as long as it leaves the static buffers alone. *)
Fixpoint graph_run (read : Out → heap V → option V) (g : cuda_graph (V:=V) (Out:=Out)) (w : world (V:=V))
    (calls : list (option (list (string * argument (V:=V))) * (heap V → heap V))) : list (res (option V)) :=
  match calls with
  | [] => []
  | (c, between) :: calls' =>
      let '(w', r) := replay c g (with_heap w (between (w_heap w))) in
      (o ← r; Ok (o ← o; read o (w_heap w'))) :: graph_run read g w' calls'
  end.

(** The buffers hold the values of the reference. *)
Record holds_values (bufs : dict string nat) (rf : reference) (h : heap V) : Prop := {
  ma_names : dkeys (rf_values rf) = dkeys bufs;
  ma_shapes : dkeys (rf_shapes rf) = dkeys bufs;
  ma_cells name addr : dget bufs name = Some addr →
    ∃ sh v, dget (rf_shapes rf) name = Some sh ∧ dget (rf_values rf) name = Some v ∧ h !! addr = Some (Cell sh v);
}.

Lemma buffers_distinct (bufs : dict string nat) name name' addr :
  NoDup (dvals bufs) → dget bufs name = Some addr → dget bufs name' = Some addr → name' = name.
Proof.
  intros Hnd Hn%dget_elem Hn'%dget_elem.
  apply list_elem_of_lookup in Hn as [i Hi], Hn' as [j Hj].
  assert (i = j) as ->; [|congruence].
  eapply (NoDup_lookup (dvals bufs)); [done| |]; unfold dvals; rewrite list_lookup_fmap; [by rewrite Hi|by rewrite Hj].
Qed.

Lemma matches_copy bufs rf h name addr v :
  NoDup (dvals bufs) → holds_values bufs rf h → dget bufs name = Some addr →
  holds_values bufs (Reference (rf_shapes rf) (dset (rf_values rf) name v)) (alter (λ c, Cell (cl_shape c) v) addr h).
Proof.
  intros Hnd [Hn Hs Hc] Hname. split; simpl; [|done|].
  - rewrite dset_keys, decide_True; [done|]. rewrite Hn. apply dget_is_Some. by exists addr.
  - intros name' addr' Hname'. destruct (Hc _ _ Hname') as (sh & v' & Hsh & Hv & Hh).
    destruct (decide (name' = name)) as [->|Hne].
    + rewrite Hname in Hname'. injection Hname' as <-. exists sh, v.
      split; [done|]. split; [by rewrite dget_dset_eq|]. by rewrite lookup_alter_eq, Hh.
    + exists sh, v'. split; [done|]. split; [by rewrite dget_dset_ne|].
      rewrite lookup_alter_ne; [done|]. intros <-. apply Hne. by eapply buffers_distinct.
Qed.

Lemma refill_matches bufs rf w inputs :
  NoDup (dvals bufs) → holds_values bufs rf (w_heap w) →
  let '(w', r) := refill bufs inputs w in
  let '(rf', r') := ref_refill rf inputs in
  r = r' ∧ holds_values bufs rf' (w_heap w').
Proof.
  intros Hnd. revert rf w; induction inputs as [|[name a] inputs IH]; intros rf w Hm; [done|]. simpl.
  destruct (dget bufs name) as [addr|] eqn:Hname.
  - destruct (ma_cells _ _ _ Hm _ _ Hname) as (sh & v & Hsh & Hv & Hh). rewrite Hsh, Hh. destruct a as [|cuda shape value]; [done|].
    simpl. case_bool_decide; [|done]. apply IH. by apply matches_copy.
  - assert (dget (rf_shapes rf) name = None) as ->; [|done].
    apply dget_None. rewrite (ma_shapes _ _ _ Hm). by apply dget_None.
Qed.

Lemma matches_frame bufs rf (h h' : heap V) :
  holds_values bufs rf h → (∀ name addr, dget bufs name = Some addr → h' !! addr = h !! addr) → holds_values bufs rf h'.
Proof.
  intros [? ? Hc] Heq. split; [done|done|]. intros name addr Hn. rewrite (Heq _ _ Hn). by apply Hc.
Qed.

(** Code that runs between replays and leaves the static buffers alone. *)
Definition keeps (bufs : dict string nat) (f : heap V → heap V) : Prop :=
  ∀ h addr, addr ∈ dvals bufs → f h !! addr = h !! addr.

Lemma dget_dvals (bufs : dict string nat) name addr : dget bufs name = Some addr → addr ∈ dvals bufs.
Proof. intros Hn%dget_elem. apply list_elem_of_fmap. by exists (name, addr). Qed.

Lemma replays_match read F g w rf ks out calls :
  cg_captured g = true → cg_graph g = Some ks → cg_output g = Some out →
  NoDup (dvals (cg_inputs g)) → computes (cg_inputs g) ks (read out) F →
  holds_values (cg_inputs g) rf (w_heap w) → Forall (λ c, keeps (cg_inputs g) c.2) calls →
  graph_run read g w calls = (λ r, v ← r; Ok (Some v)) <$> ref_run F rf calls.*1.
Proof.
  intros Hcap Hks Hout Hnd Hco Hm Hkeep. revert w rf Hm; induction Hkeep as [|[c between] calls Hb Hkeep IH]; intros w rf Hm; [done|].
  cbn [graph_run fmap list_fmap ref_run fst]. unfold ref_replay, replay. rewrite Hcap. cbn [negb].
  assert (holds_values (cg_inputs g) rf (w_heap (with_heap w (between (w_heap w))))) as Hm1.
  { eapply matches_frame; [exact Hm|]. intros name addr Hn. apply Hb. by eapply dget_dvals. }
  pose proof (refill_matches _ _ _ (default [] c) Hnd Hm1) as Hr.
  destruct (refill _ _ _) as [w1 r]. destruct (ref_refill rf _) as [rf1 r1]. destruct Hr as [<- Hm2].
  destruct r as [[]|e].
  - rewrite Hks, Hout. simpl. f_equal.
    + do 2 f_equal. destruct Hco as [_ Hres]. apply Hres; [by apply Hm2|].
      intros name addr v Hn Hv. destruct (ma_cells _ _ _ Hm2 _ _ Hn) as (sh & v' & _ & Hv' & ->). simpl. congruence.
    + apply IH. eapply matches_frame; [exact Hm2|]. intros name addr Hn. simpl. by apply (co_inputs _ _ _ _ Hco _ name).
  - simpl. f_equal. by apply IH.
Qed.

(** ** What a capture leaves *)

Definition shapes_of (example : list (string * argument (V:=V))) : dict string (list Z) :=
  (λ it, (it.1, arg_shape it.2)) <$> example.
Definition values_of (example : list (string * argument (V:=V))) : dict string V :=
  (λ it, (it.1, arg_value junk it.2)) <$> example.

Lemma alloc_spec example (w w' : world (V:=V)) bufs :
  alloc_buffers junk example w = (w', bufs) →
  bufs = zip example.*1 (seq (w_next w) (List.length example)) ∧ w_next w' = (w_next w + List.length example)%nat ∧
  w_override w' = w_override w ∧ w_capturing w' = w_capturing w ∧ w_log w' = w_log w ∧ w_streams w' = w_streams w ∧
  (∀ i it, example !! i = Some it → w_heap w' !! (w_next w + i)%nat = Some (Cell (arg_shape it.2) junk)) ∧
  (∀ addr, (addr < w_next w)%nat → w_heap w' !! addr = w_heap w !! addr).
Proof.
  revert w bufs; induction example as [|[name a] example IH]; intros w bufs; simpl.
  { intros [= <- <-]. by rewrite Nat.add_0_r. }
  destruct (alloc_buffers junk example _) as [w1 bufs1] eqn:Hrest. intros [= <- <-].
  destruct (IH _ _ Hrest) as (-> & Hn & Ho & Hc & Hl & Hs & Hcell & Hframe). simpl in *.
  split; [done|]. split; [lia|]. do 4 (split; [done|]). split.
  - intros [|i] it Hi; simpl in Hi.
    + injection Hi as <-. rewrite Nat.add_0_r, Hframe by lia. by rewrite lookup_insert_eq.
    + specialize (Hcell i it Hi). by replace (w_next w + S i)%nat with (S (w_next w) + i)%nat by lia.
  - intros addr Hlt. rewrite Hframe by lia. by rewrite lookup_insert_ne by lia.
Qed.

Lemma zip_keys (names : list string) (addrs : list nat) :
  List.length names = List.length addrs → dkeys (zip names addrs) = names ∧ dvals (zip names addrs) = addrs.
Proof. intros Hl. split; [apply fst_zip|apply snd_zip]; lia. Qed.

Lemma seed_spec example (bufs : dict string nat) (w w' : world (V:=V)) r :
  seed_buffers junk example bufs w = (w', r) → NoDup (dvals bufs) → NoDup example.*1 →
  (∀ it, it ∈ example → is_Some (dget bufs it.1)) →
  r = Ok () ∧ w_override w' = w_override w ∧ w_capturing w' = w_capturing w ∧ w_log w' = w_log w ∧
  w_streams w' = w_streams w ∧
  ∀ name addr, dget bufs name = Some addr →
    w_heap w' !! addr = match dget example name with
                        | Some a => (λ c, Cell (cl_shape c) (arg_value junk a)) <$> w_heap w !! addr
                        | None => w_heap w !! addr
                        end.
Proof.
  intros Hrun Hnd. revert w Hrun; induction example as [|[name a] example IH]; intros w; simpl.
  { by intros [= <- <-]. }
  intros Hrun [Hnew Hnd']%NoDup_cons Hin. destruct (Hin _ (list_elem_of_here _ _)) as [addr Haddr]. simpl in Haddr.
  rewrite Haddr in Hrun.
  destruct (IH _ Hrun Hnd') as (-> & Ho & Hc & Hl & Hs & Hcell).
  { intros it Hit. apply Hin. by right. }
  split; [done|]. do 4 (split; [done|]). intros name' addr' Hn'. rewrite (Hcell _ _ Hn'). simpl.
  case_decide as Heq.
  - subst name'. assert (dget example name = None) as -> by by apply dget_None.
    rewrite Haddr in Hn'. injection Hn' as <-. by rewrite lookup_alter_eq.
  - assert (alter (λ c, Cell (cl_shape c) (arg_value junk a)) addr (w_heap w) !! addr' = w_heap w !! addr') as ->.
    { rewrite lookup_alter_ne; [done|]. intros <-. apply Heq. symmetry. by eapply buffers_distinct. }
    done.
Qed.

Lemma seed_fields example (bufs : dict string nat) (w : world (V:=V)) :
  let w' := (seed_buffers junk example bufs w).1 in
  w_override w' = w_override w ∧ w_capturing w' = w_capturing w ∧ w_log w' = w_log w ∧ w_streams w' = w_streams w.
Proof.
  revert w; induction example as [|[name a] example IH]; intros w; [done|]. simpl.
  destruct (dget bufs name) as [addr|]; [|done]. apply (IH (copy_into addr (arg_value junk a) w)).
Qed.

Lemma issue_heap (fn : function (V:=V) (Out:=Out)) bufs st w w' ks r (P : nat → Prop) :
  issue fn bufs st w = (w', ks, r) →
  (∀ mode h addr, P addr → run_kernels (fn mode bufs).1 h !! addr = h !! addr) →
  fn (w_capturing w) bufs = (ks, r) ∧ w_capturing w' = w_capturing w ∧ w_override w' = w_override w ∧
  w_log w' = w_log w ++ [Launch st (w_capturing w)] ∧
  ∀ addr, P addr → w_heap w' !! addr = w_heap w !! addr.
Proof.
  unfold issue. intros Hi Hk. pose proof (Hk (w_capturing w)) as Hkw.
  destruct (fn (w_capturing w) bufs) as [ks0 r0]. injection Hi as <- <- <-. simpl in *.
  do 4 (split; [done|]). intros addr Ha. destruct (w_capturing w); [done|]. by apply Hkw.
Qed.

Lemma warm_up_spec (fn : function (V:=V) (Out:=Out)) bufs s n w w' r (P : nat → Prop) :
  warm_up fn bufs s n w = (w', r) →
  (∀ mode h addr, P addr → run_kernels (fn mode bufs).1 h !! addr = h !! addr) →
  w_capturing w' = w_capturing w ∧ w_override w' = w_override w ∧
  (∃ m, w_log w' = w_log w ++ replicate m (Launch (Some s) (w_capturing w)) ∧ (m ≤ n)%nat ∧ (r = Ok () → m = n)) ∧
  ∀ addr, P addr → w_heap w' !! addr = w_heap w !! addr.
Proof.
  intros Hrun Hk. revert w Hrun; induction n as [|n IH]; intros w; simpl.
  { intros [= <- <-]. do 2 (split; [done|]). split; [|done]. exists 0%nat. by rewrite app_nil_r. }
  destruct (issue fn bufs (Some s) w) as [[w1 ks] r1] eqn:Hi.
  destruct (issue_heap _ _ _ _ _ _ _ P Hi Hk) as (_ & Hc & Ho & Hl & Hh). destruct r1 as [o|e].
  - intros Hrun. destruct (IH _ Hrun) as (Hc' & Ho' & (m & Hl' & Hm & Hr) & Hh').
    split; [congruence|]. split; [congruence|]. split; [|intros addr Ha; rewrite Hh' by done; by apply Hh].
    exists (S m). rewrite Hl', Hl, Hc, <- app_assoc. split; [done|]. split; [lia|]. intros Hok. by rewrite Hr.
  - intros [= <- <-]. do 2 (split; [done|]). split; [|done]. exists 1%nat. rewrite Hl. split; [done|].
    split; [lia|]. done.
Qed.

(** What the function must do, whichever buffers it is given. *)
Definition graphable (fn : function (V:=V) (Out:=Out)) (names : list string) (read : Out → heap V → option V)
    (F : dict string V → V) : Prop :=
  ∀ mode bufs, dkeys bufs = names → NoDup (dvals bufs) →
    (∀ h name addr, dget bufs name = Some addr → run_kernels (fn mode bufs).1 h !! addr = h !! addr) ∧
    ∀ ks out, fn mode bufs = (ks, Ok out) → computes bufs ks (read out) F.

Lemma capture_ok fn example g (w : world (V:=V)) g' w' read F :
  capture junk fn example g w = (g', w', Ok ()) → NoDup example.*1 → graphable fn example.*1 read F →
  ∃ ks out, cg_captured g' = true ∧ cg_graph g' = Some ks ∧ cg_output g' = Some out ∧
    dkeys (cg_inputs g') = example.*1 ∧ NoDup (dvals (cg_inputs g')) ∧
    computes (cg_inputs g') ks (read out) F ∧
    holds_values (cg_inputs g') (Reference (shapes_of example) (values_of example)) (w_heap w').
Proof.
  unfold capture. intros Hrun Hnd Hfn. destruct (cg_captured g); [done|]. destruct (w_cuda w); [|done]. simpl in Hrun.
  destruct (rmap _ example) as [checked|]; [|done]. destruct (alloc_buffers junk example w) as [w1 bufs] eqn:Halloc.
  destruct (alloc_spec _ _ _ _ Halloc) as (-> & Hn1 & _ & _ & _ & _ & Hcell & _).
  set (addrs := seq (w_next w) (List.length example)) in *.
  destruct (zip_keys example.*1 addrs) as [Hkeys Hvals].
  { unfold addrs. by rewrite length_fmap, length_seq. }
  set (bufs := zip example.*1 addrs) in *.
  assert (NoDup (dvals bufs)) as Hnda by (rewrite Hvals; apply NoDup_seq).
  destruct (seed_buffers junk example bufs w1) as [w2 r2] eqn:Hseed.
  destruct (seed_spec _ _ _ _ _ Hseed Hnda Hnd) as (-> & _ & _ & _ & _ & Hseeded).
  { intros it Hit. apply dget_is_Some. rewrite Hkeys. by apply list_elem_of_fmap_2. }
  simpl in Hrun. destruct (Hfn (w_capturing w2) bufs Hkeys Hnda) as [_ _].
  assert (∀ mode h addr, addr ∈ dvals bufs → run_kernels (fn mode bufs).1 h !! addr = h !! addr) as Hframe.
  { intros mode h addr Ha. apply list_elem_of_fmap in Ha as ([name addr'] & -> & Ha).
    destruct (Hfn mode bufs Hkeys Hnda) as [Hf _]. apply (Hf h name). apply elem_dget; [by rewrite Hkeys|done]. }
  destruct (warm_up fn bufs _ _ _) as [w3 [[]|e]] eqn:Hwarm; [|done].
  destruct (warm_up_spec _ _ _ _ _ _ _ _ Hwarm Hframe) as (_ & _ & _ & Hh3).
  destruct (issue fn bufs _ _) as [[w4 ks] [out|e]] eqn:Hi; [|done].
  destruct (issue_heap _ _ _ _ _ _ _ _ Hi Hframe) as (Hcall & _ & _ & _ & Hh4). simpl in Hcall, Hh3, Hh4.
  injection Hrun as <- <-. exists ks, out. simpl. do 3 (split; [done|]). split; [done|]. split; [done|].
  split; [by eapply Hfn|]. split; simpl.
  - rewrite Hkeys. unfold values_of, dkeys. by rewrite <- list_fmap_compose.
  - rewrite Hkeys. unfold shapes_of, dkeys. by rewrite <- list_fmap_compose.
  - intros name addr Hname. pose proof (dget_dvals _ _ _ Hname) as Hin.
    rewrite Hh4, Hh3, (Hseeded _ _ Hname) by done.
    pose proof (dget_elem _ _ _ Hname) as Hz. apply list_elem_of_lookup in Hz as [i Hz].
    unfold bufs in Hz. apply lookup_zip_with_Some in Hz as (x & y & Hxy & Hx & Hy). injection Hxy as <- <-.
    rewrite list_lookup_fmap in Hx. destruct (example !! i) as [[name' a]|] eqn:Hi'; [|done]. injection Hx as ->.
    unfold addrs in Hy. apply lookup_seq in Hy as [-> _].
    assert (dget example name = Some a) as Hga.
    { apply elem_dget; [done|]. by eapply list_elem_of_lookup_2. }
    rewrite Hga, (Hcell _ _ Hi'). simpl. exists (arg_shape a), (arg_value junk a).
    assert (∀ {B} (f : argument (V:=V) → B), dget ((λ it, (it.1, f it.2)) <$> example) name = Some (f a)) as Hmap.
    { intros B f. apply elem_dget.
      - unfold dkeys. rewrite <- list_fmap_compose. done.
      - apply list_elem_of_fmap. exists (name, a). split; [done|]. by eapply list_elem_of_lookup_2. }
    split; [apply Hmap|]. by split; [apply Hmap|].
Qed.

(** C6: A captured graph is the function it was captured from.  After a
    successful capture, whatever sequence of replays follows (with all, some
    or none of the inputs, with wrong names or shapes, and with other code
    running in between that leaves the static buffers alone), reading the
    output after each replay gives what the function computes from the last
    value given for every input, starting from the example inputs; a bad
    input raises the same error and keeps the copies made before it. *)
Theorem replays_compute fn example g (w : world (V:=V)) g' w' read F calls :
  capture junk fn example g w = (g', w', Ok ()) → NoDup example.*1 → graphable fn example.*1 read F →
  Forall (λ c, keeps (cg_inputs g') c.2) calls →
  graph_run read g' w' calls =
    (λ r, v ← r; Ok (Some v)) <$> ref_run F (Reference (shapes_of example) (values_of example)) calls.*1.
Proof.
  intros Hcap Hnd Hfn Hkeep.
  destruct (capture_ok _ _ _ _ _ _ _ _ Hcap Hnd Hfn) as (ks & out & ? & ? & ? & ? & ? & Hco & Hm).
  by eapply replays_match.
Qed.

(** Where the launches of a capture go, whatever its outcome: the warm-up
    runs on a fresh stream, never the override, outside the capture region;
    the recorded call, if it is reached, runs on the override stream inside
    it; and the capture mode and the override are afterwards as before. *)
Theorem capture_streams (fn : function (V:=V) (Out:=Out)) example g (w : world (V:=V)) g' w' r :
  capture junk fn example g w = (g', w', r) →
  w_capturing w' = w_capturing w ∧ w_override w' = w_override w ∧
  ∃ warm recorded, w_log w' = w_log w ++ warm ++ recorded ∧
    warm = replicate (List.length warm) (Launch (Some (w_streams w)) (w_capturing w)) ∧
    Z.of_nat (List.length warm) <= Z.max 0 (cg_warmups g) ∧
    (recorded = [] ∨ recorded = [Launch (w_override w) true]) ∧
    (r = Ok () → Z.of_nat (List.length warm) = Z.max 0 (cg_warmups g) ∧ recorded = [Launch (w_override w) true]).
Proof.
  assert (∀ e : exn, ∀ P : Prop, (Err e = Ok () → P)) as Hno by done.
  assert (w_log w = w_log w ++ [] ++ []) as Hnil by by rewrite !app_nil_r.
  unfold capture. destruct (cg_captured g).
  { intros [= <- <- <-]. do 2 (split; [done|]). exists [], [].
    split; [exact Hnil|]. split; [done|]. split; [simpl; lia|]. split; [by left|done]. }
  destruct (w_cuda w); simpl.
  2:{ intros [= <- <- <-]. do 2 (split; [done|]). exists [], [].
    split; [exact Hnil|]. split; [done|]. split; [simpl; lia|]. split; [by left|done]. }
  destruct (rmap _ example) as [?|e].
  2:{ intros [= <- <- <-]. do 2 (split; [done|]). exists [], [].
    split; [exact Hnil|]. split; [done|]. split; [simpl; lia|]. split; [by left|done]. }
  destruct (alloc_buffers junk example w) as [w1 bufs] eqn:Halloc.
  destruct (alloc_spec _ _ _ _ Halloc) as (_ & _ & Ho1 & Hc1 & Hl1 & Hs1 & _).
  destruct (seed_fields example bufs w1) as (Ho2 & Hc2 & Hl2 & Hs2).
  destruct (seed_buffers junk example bufs w1) as [w2 [[]|e]]; simpl in *.
  2:{ intros [= <- <- <-]. split; [congruence|]. split; [congruence|]. exists [], [].
      rewrite Hl2, Hl1. split; [exact Hnil|]. split; [done|]. split; [simpl; lia|]. split; [by left|done]. }
  destruct (warm_up fn bufs _ _ _) as [w3 r3] eqn:Hwarm.
  destruct (warm_up_spec _ _ _ _ _ _ _ (λ _, False) Hwarm) as (Hc3 & Ho3 & (m & Hl3 & Hm & Hr3) & _); [done|]. simpl in *.
  assert (w_log w3 = w_log w ++ replicate m (Launch (Some (w_streams w)) (w_capturing w))) as Hlog by congruence.
  destruct r3 as [[]|e].
  2:{ intros [= <- <- <-]. split; [congruence|]. split; [congruence|].
      exists (replicate m (Launch (Some (w_streams w)) (w_capturing w))), []. rewrite length_replicate, app_nil_r.
      split; [done|]. split; [done|]. split; [lia|]. split; [by left|done]. }
  destruct (issue fn bufs _ _) as [[w4 ks] r4] eqn:Hi.
  destruct (issue_heap _ _ _ _ _ _ _ (λ _, False) Hi) as (_ & _ & Ho4 & Hl4 & _); [done|]. simpl in *.
  assert (∀ x, x = w_log (set_capturing (w_capturing w3) w4) → x = w_log w ++ replicate m (Launch (Some (w_streams w)) (w_capturing w))
            ++ [Launch (w_override w) true]) as Hfinal.
  { intros x ->. simpl. rewrite Hl4, Hlog, <- app_assoc. do 4 f_equal. congruence. }
  assert (m = Z.to_nat (cg_warmups g)) as Hmm by by apply Hr3.
  destruct r4 as [out|e]; intros [= <- <- <-]; (split; [simpl; congruence|]; split; [simpl; congruence|];
    exists (replicate m (Launch (Some (w_streams w)) (w_capturing w))), [Launch (w_override w) true];
    rewrite length_replicate; split; [by apply Hfinal|]; split; [done|]; split; [lia|]; split; [by right|]);
    [intros _; split; [lia|done]|done].
Qed.

(** ** The life of a graph object *)

Inductive call : Type :=
  | CCapture (fn : function (V:=V) (Out:=Out)) (example : list (string * argument (V:=V)))
  | CReplay (inputs : option (list (string * argument (V:=V))))
  | CReset.

Definition obj_step (c : call) (g : cuda_graph (V:=V) (Out:=Out)) (w : world (V:=V))
    : cuda_graph (V:=V) (Out:=Out) * world (V:=V) * res unit :=
  match c with
  | CCapture fn example => capture junk fn example g w
  | CReplay inputs => let '(w', r) := replay inputs g w in (g, w', _ ← r; Ok ())
  | CReset => (graph_reset g, w, Ok ())
  end.

Fixpoint obj_run (cs : list call) (g : cuda_graph (V:=V) (Out:=Out)) (w : world (V:=V))
    : cuda_graph (V:=V) (Out:=Out) * world (V:=V) * list (res unit) :=
  match cs with
  | [] => (g, w, [])
  | c :: cs' =>
      let '(g', w', r) := obj_step c g w in
      let '(g'', w'', rs) := obj_run cs' g' w' in (g'', w'', r :: rs)
  end.

(** Captured or not, from the calls and how they ended. *)
Definition abs_step (captured : bool) (cr : call * res unit) : bool :=
  match cr with
  | (CCapture _ _, Ok _) => true
  | (CReset, _) => false
  | _ => captured
  end.

Definition graph_ok (g : cuda_graph (V:=V) (Out:=Out)) : Prop :=
  cg_captured g = true → is_Some (cg_graph g) ∧ is_Some (cg_output g).

Lemma capture_captured fn example g (w : world (V:=V)) g' w' r :
  capture junk fn example g w = (g', w', r) → graph_ok g →
  graph_ok g' ∧ cg_captured g' = match r with Ok _ => true | Err _ => cg_captured g end.
Proof.
  unfold capture. intros Hrun Hok. destruct (cg_captured g) eqn:Hc; [by injection Hrun as <- _ <-|].
  destruct (w_cuda w); simpl in Hrun; [|by injection Hrun as <- _ <-].
  destruct (rmap _ example); [|by injection Hrun as <- _ <-].
  destruct (alloc_buffers junk example w) as [w1 bufs].
  destruct (seed_buffers junk example bufs w1) as [w2 [[]|e]]; simpl in Hrun; [|by injection Hrun as <- _ <-].
  destruct (warm_up fn bufs _ _ _) as [w3 [[]|e]]; [|by injection Hrun as <- _ <-].
  destruct (issue fn bufs _ _) as [[w4 ks] [out|e]]; injection Hrun as <- _ <-; [|done].
  split; [|done]. intros _. split; by eexists.
Qed.

Lemma obj_step_ok c g (w : world (V:=V)) g' w' r :
  obj_step c g w = (g', w', r) → graph_ok g → graph_ok g' ∧ cg_captured g' = abs_step (cg_captured g) (c, r).
Proof.
  destruct c as [fn example|inputs|]; simpl.
  - intros Hrun Hok. destruct (capture_captured _ _ _ _ _ _ _ Hrun Hok) as [? ->]. by destruct r.
  - destruct (replay inputs g w). by intros [= <- _ _] ?.
  - by intros [= <- _ <-] _.
Qed.

(** The life cycle, over any calls: the object is captured exactly when
    the last capture that succeeded or reset was a capture (a failed capture
    changes nothing about that); while it is not, a replay and a buffer are
    refused and touch nothing; while it is, another capture is refused, and a
    replay can fail only over its inputs: it never finds the graph missing and
    always has an output. *)
Theorem graph_life_cycle n mempool g0 cs (w : world (V:=V)) g w' rs :
  graph_init n mempool = Ok g0 → obj_run cs g0 w = (g, w', rs) →
  cg_captured g = foldl abs_step false (zip cs rs) ∧
  (cg_captured g = false → ∀ inputs name, replay inputs g w' = (w', Err CudaGraphError) ∧
     input_buffer g name = Err CudaGraphError) ∧
  (cg_captured g = true → (∀ fn example, capture junk fn example g w' = (g, w', Err CudaGraphError)) ∧
     ∀ inputs w'' r, replay inputs g w' = (w'', r) →
       (∃ out, r = Ok (Some out)) ∨ (∃ e, r = Err e ∧ (refill (cg_inputs g) (default [] inputs) w').2 = Err e)).
Proof.
  intros Hinit Hrun.
  assert (∀ cs g0 w g w' rs, obj_run cs g0 w = (g, w', rs) → graph_ok g0 →
            graph_ok g ∧ cg_captured g = foldl abs_step (cg_captured g0) (zip cs rs)) as Hgen.
  { clear. induction cs as [|c cs IH]; intros g0 w g w' rs; simpl; [by intros [= <- _ <-]|].
    destruct (obj_step c g0 w) as [[g1 w1] r] eqn:Hs. destruct (obj_run cs g1 w1) as [[g2 w2] rs2] eqn:Hr.
    intros [= <- <- <-] Hok. destruct (obj_step_ok _ _ _ _ _ _ Hs Hok) as [Hok1 Hc1].
    destruct (IH _ _ _ _ _ Hr Hok1) as [Hok2 Hc2]. split; [done|]. by rewrite Hc2, Hc1. }
  unfold graph_init in Hinit. inv_bind.
  destruct (Hgen _ _ _ _ _ _ Hrun) as [Hok Hc]; [done|]. split; [exact Hc|]. clear Hgen Hc. split.
  - intros Hcap inputs name. unfold replay, input_buffer. by rewrite Hcap.
  - intros Hcap. split.
    + intros fn example. unfold capture. by rewrite Hcap.
    + intros inputs w'' r. unfold replay. rewrite Hcap. simpl.
      destruct (Hok Hcap) as [[ks Hks] [out Hout]]. rewrite Hks, Hout.
      destruct (refill _ _ _) as [w2 [[]|e]]; intros [= <- <-]; [left; by exists out|right; by exists e].
Qed.
End graphs.

(** ** Examples: a function that adds its two inputs *)

Definition read_cell (out : nat) (h : heap Z) : option Z := cl_value <$> h !! out.

Definition value_at (h : heap Z) (a : nat) : Z := default 0 (cl_value <$> h !! a).

(** It writes its result at an address of its own. *)
Definition add_fn : function (V:=Z) (Out:=nat) := λ _ bufs,
  match bufs with
  | [(_, a); (_, b)] =>
      ([λ h, <[S (a + b) := Cell [] (value_at h a + value_at h b)]> h], Ok (S (a + b)))
  | _ => ([], Err TypeError)
  end.

Definition sum_values (vals : dict string Z) : Z := foldr Z.add 0 (dvals vals).

Lemma add_fn_graphable : graphable add_fn ["x"; "y"]%string read_cell sum_values.
Proof.
  intros mode bufs Hkeys Hnd. destruct bufs as [|[x a] [|[y b] []]]; try done. injection Hkeys as -> ->. simpl.
  assert (∀ h name addr, dget [("x"%string, a); ("y"%string, b)] name = Some addr →
    <[S (a + b) := Cell [] (value_at h a + value_at h b)]> h !! addr = h !! addr) as Hframe.
  { intros h name addr Hn%dget_dvals. rewrite lookup_insert_ne; [done|].
    apply elem_of_cons in Hn as [->|Hn]; [simpl; lia|]. apply list_elem_of_singleton in Hn as ->. simpl. lia. }
  split; [exact Hframe|]. intros ks out [= <- <-]. split; [exact Hframe|].
  intros h vals Hvk Hv. simpl. unfold read_cell. rewrite lookup_insert_eq. simpl. f_equal.
  destruct vals as [|[x' vx] [|[y' vy] []]]; try done. injection Hvk as -> ->.
  pose proof (Hv "x"%string a vx eq_refl eq_refl) as Hx. pose proof (Hv "y"%string b vy eq_refl eq_refl) as Hy.
  unfold value_at, sum_values. rewrite Hx, Hy. simpl. lia.
Qed.

Definition demo_world : world (V:=Z) := World ∅ 0 true (Some 3%nat) 4 false [].
Definition demo_example : list (string * argument (V:=Z)) := [("x"%string, Tensor true [2] 5); ("y"%string, Tensor true [] 7)].
Definition demo_graph : cuda_graph (V:=Z) (Out:=nat) := CudaGraph false None [] None 2 false.

Definition demo_calls : list (option (list (string * argument (V:=Z))) * (heap Z → heap Z)) :=
  [(None, id); (Some [("x"%string, Tensor false [2] 30)], λ h, <[9%nat := Cell [] 0]> h);
   (Some [("y"%string, Tensor true [] 1); ("z"%string, Tensor true [] 1)], id); (None, id)].

(** The outcome of the capture. *)
Definition demo_captured := capture 0 add_fn demo_example demo_graph demo_world.

Lemma demo_capture_ok : demo_captured = (demo_captured.1.1, demo_captured.1.2, Ok ()).
Proof.
  assert (demo_captured.2 = Ok ()) as Hr by (vm_compute; reflexivity).
  revert Hr. destruct demo_captured as [[g w] r]. simpl. by intros ->.
Qed.

Lemma demo_keeps : Forall (λ c, keeps (cg_inputs demo_captured.1.1) c.2) demo_calls.
Proof.
  assert (dvals (cg_inputs demo_captured.1.1) = [0%nat; 1%nat]) as Hin.
  { vm_compute. reflexivity. }
  constructor; [done|]. constructor; [|constructor; [done|constructor; [done|constructor]]].
  intros h addr. rewrite Hin. simpl. intros Ha. rewrite lookup_insert_ne; [done|].
  intros <-. apply elem_of_cons in Ha as [?|Ha]; [done|]. by apply list_elem_of_singleton in Ha.
Qed.

Lemma replays_compute_witness :
  graph_run read_cell demo_captured.1.1 demo_captured.1.2 demo_calls =
    (λ r, v ← r; Ok (Some v)) <$>
      ref_run sum_values (Reference (shapes_of demo_example) (values_of 0 demo_example)) demo_calls.*1 ∧
  ref_run sum_values (Reference (shapes_of demo_example) (values_of 0 demo_example)) demo_calls.*1 =
    [Ok 12; Ok 37; Err CudaGraphError; Ok 31].
Proof.
  split; [|vm_compute; reflexivity].
  apply (replays_compute 0 add_fn demo_example demo_graph demo_world _ _ read_cell sum_values demo_calls demo_capture_ok).
  - apply (bool_decide_unpack _). vm_compute. exact I.
  - exact add_fn_graphable.
  - exact demo_keeps.
Defined.

Lemma capture_streams_witness :
  let w' := demo_captured.1.2 in
  w_capturing w' = false ∧ w_override w' = Some 3%nat ∧
  ∃ warm recorded, w_log w' = [] ++ warm ++ recorded ∧
    warm = replicate (List.length warm) (Launch (Some 4%nat) false) ∧
    Z.of_nat (List.length warm) <= Z.max 0 2 ∧
    (recorded = [] ∨ recorded = [Launch (Some 3%nat) true]) ∧
    (Ok () = Ok () → Z.of_nat (List.length warm) = Z.max 0 2 ∧ recorded = [Launch (Some 3%nat) true]).
Proof. exact (capture_streams 0 add_fn demo_example demo_graph demo_world _ _ _ demo_capture_ok). Defined.

Definition demo_life : list (call (V:=Z) (Out:=nat)) :=
  [CReplay None; CCapture add_fn demo_example; CCapture add_fn demo_example; CReset;
   CCapture add_fn [("x"%string, Tensor true [] 1)]; CCapture add_fn demo_example].
Definition demo_lived := obj_run 0 demo_life demo_graph demo_world.

Lemma graph_life_cycle_witness :
  demo_lived.2 = [Err CudaGraphError; Ok (); Err CudaGraphError; Ok (); Err TypeError; Ok ()] ∧
  cg_captured demo_lived.1.1 = foldl abs_step false (zip demo_life demo_lived.2).
Proof.
  split; [vm_compute; reflexivity|].
  refine (proj1 (graph_life_cycle 0 2 false demo_graph demo_life demo_world _ demo_lived.1.2 _ eq_refl _)).
  unfold demo_lived. by destruct (obj_run 0 demo_life demo_graph demo_world) as [[g w] rs].
Defined.
