(* ===== verification/Ipc.v ===== *)
(** * Inter-process buffers ([runtime/ipc_buffer.py])

    Host shared memory and CUDA IPC buffers: creation, attachment, views and
    release, over a model of the operating system's shared-memory names and
    mappings and of the device allocations.  The outcome of each driver call
    is an argument: an error code, zero for success. *)

From S2P Require Import Prelude.
Open Scope Z_scope.

(** ** Element types *)

Inductive ipc_dtype : Type :=
  | uint8 | int8 | int16 | int32 | int64 | float16 | bfloat16 | float32 | float64 | torch_bool
  | complex64 | complex128 | other_dtype (size : Z).

Definition element_size (d : ipc_dtype) : Z :=
  match d with
  | uint8 | int8 | torch_bool => 1
  | int16 | float16 | bfloat16 => 2
  | int32 | float32 => 4
  | int64 | float64 | complex64 => 8
  | complex128 => 16
  | other_dtype n => n
  end.

(** [_TORCH_DTYPE_TO_TYPESTR] *)
Definition TORCH_DTYPE_TO_TYPESTR (d : ipc_dtype) : option string :=
  match d with
  | uint8 => Some "<u1" | int8 => Some "<i1" | int16 => Some "<i2" | int32 => Some "<i4" | int64 => Some "<i8"
  | float16 => Some "<f2" | bfloat16 => Some "<V2" | float32 => Some "<f4" | float64 => Some "<f8"
  | torch_bool => Some "<u1" | complex64 => Some "<c8" | complex128 => Some "<c16"
  | other_dtype _ => None
  end%string.

(** [_TORCH_DTYPE_TO_NUMPY]: the item size of the numpy type. *)
Definition TORCH_DTYPE_TO_NUMPY (d : ipc_dtype) : option Z :=
  match d with
  | uint8 | int8 | torch_bool => Some 1
  | int16 | float16 => Some 2
  | int32 | float32 => Some 4
  | int64 | float64 => Some 8
  | _ => None
  end.

Definition product (shape : list Z) : Z := foldl Z.mul 1 shape.

(** [_resolve_shape_for_dtype] *)
Definition resolve_shape_for_dtype (nbytes : Z) (dtype : ipc_dtype) (shape : option (list Z)) : res (list Z * Z) :=
  let elem_size := element_size dtype in
  shape ← match shape with
          | None => _ ← ensure (nbytes mod elem_size =? 0) ValueError; Ok [nbytes / elem_size]
          | Some s => Ok s
          end;
  let total := product shape * elem_size in
  if nbytes <? total then Err ValueError else Ok (shape, total).

(** ** CUDA IPC *)

Record cuda_handle : Type := CudaIpcHandle {
  ch_bytes : list Z;
  ch_nbytes : Z;
  ch_device : Z;
}.

Inductive close_kind : Type := CloseFree | CloseIpc.

Record cuda_buffer : Type := CudaIpcBuffer {
  cb_nbytes : Z;
  cb_device : Z;
  cb_origin : Z;
  cb_ptr : Z;
  cb_handle : list Z;
  cb_kind : close_kind;
  cb_closed : bool;
}.

(** The device allocations and the IPC mappings that are open. *)
Record device_state : Type := Device {
  dv_available : bool;
  dv_allocs : gset Z;
  dv_opened : gset Z;
}.

(** [CudaIpcBuffer.create]; [device] is the resolved device, [ptr] and
    [raw_handle] what the driver returns, and the codes those of the three
    calls. *)
Definition cuda_create (nbytes device : Z) (malloc_err : Z) (ptr : Z) (memset_err handle_err : Z) (raw_handle : list Z)
    (st : device_state) : device_state * res cuda_buffer :=
  if nbytes <=? 0 then (st, Err ValueError)
  else if negb (dv_available st) then (st, Err RuntimeError)
  else if negb (malloc_err =? 0) then (st, Err RuntimeError)
  else
    let st := Device (dv_available st) ({[ptr]} ∪ dv_allocs st) (dv_opened st) in
    if negb (memset_err =? 0) then (st, Err RuntimeError)
    else if negb (handle_err =? 0) then (st, Err RuntimeError)
    else (st, Ok (CudaIpcBuffer nbytes device device ptr raw_handle CloseFree false)).

(** [CudaIpcBuffer.attach]; [device] as passed, resolved. *)
Definition cuda_attach (handle : cuda_handle) (expected_len : Z) (device : option Z) (open_err ptr : Z)
    (st : device_state) : device_state * res cuda_buffer :=
  if ch_nbytes handle <=? 0 then (st, Err ValueError)
  else if negb (dv_available st) then (st, Err RuntimeError)
  else if negb (Z.of_nat (List.length (ch_bytes handle)) =? expected_len) then (st, Err ValueError)
  else
    let target := default (ch_device handle) device in
    if negb (open_err =? 0) then (st, Err RuntimeError)
    else
      (Device (dv_available st) (dv_allocs st) ({[ptr]} ∪ dv_opened st),
       Ok (CudaIpcBuffer (ch_nbytes handle) target (ch_device handle) ptr (ch_bytes handle) CloseIpc false)).

Definition cuda_get_handle (b : cuda_buffer) : res cuda_handle :=
  _ ← ensure (negb (cb_closed b)) RuntimeError;
  Ok (CudaIpcHandle (cb_handle b) (cb_nbytes b) (cb_origin b)).

Definition cuda_is_creator (b : cuda_buffer) : bool := match cb_kind b with CloseFree => true | CloseIpc => false end.

(** [CudaIpcBuffer.tensor] through [_wrap_cuda_ptr_as_tensor]: pointer, shape
    and type string of the view. *)
Definition cuda_tensor (b : cuda_buffer) (dtype : ipc_dtype) (shape : option (list Z)) : res (Z * list Z * string) :=
  _ ← ensure (negb (cb_closed b)) RuntimeError;
  match TORCH_DTYPE_TO_TYPESTR dtype with
  | None => Err TypeError
  | Some typestr =>
      '(resolved, _) ← resolve_shape_for_dtype (cb_nbytes b) dtype shape;
      Ok (cb_ptr b, resolved, typestr)
  end.

(** [CudaIpcBuffer.close]; [runtime] when the CUDA bindings import, [call_ok]
    when the device guard and the driver call do not raise. *)
Definition cuda_close (runtime call_ok : bool) (b : cuda_buffer) (st : device_state) : cuda_buffer * device_state :=
  let mark ptr := CudaIpcBuffer (cb_nbytes b) (cb_device b) (cb_origin b) ptr (cb_handle b) (cb_kind b) true in
  if cb_closed b then (b, st)
  else if cb_ptr b =? 0 then (mark (cb_ptr b), st)
  else if negb runtime then (mark (cb_ptr b), st)
  else if negb call_ok then (mark 0, st)
  else
    (mark 0,
     match cb_kind b with
     | CloseFree => Device (dv_available st) (dv_allocs st ∖ {[cb_ptr b]}) (dv_opened st)
     | CloseIpc => Device (dv_available st) (dv_allocs st) (dv_opened st ∖ {[cb_ptr b]})
     end).

(** ** Host shared memory *)

Section host.
(** The page size, and the size the system gives a block that is asked to
    hold some bytes. *)
Context (page : Z) (os_size : Z → Z).

Definition page_align_nbytes (nbytes : Z) : Z := (nbytes + page - 1) / page * page.

(** The names, the blocks they lead to, the mappings of all processes with
    the block each maps, and the mappings pinned with the CUDA driver. *)
Record os_state : Type := Os {
  os_names : gmap string nat;
  os_blocks : gmap nat (list Z);
  os_maps : gmap nat nat;
  os_pinned : gset nat;
  os_next : nat;
}.

Record shm_handle : Type := HostShmHandle { sh_name : string; sh_nbytes : Z }.

Inductive shm_kind : Type := Unlink | Noop.

Record host_buffer : Type := HostShmBuffer {
  hb_nbytes : Z;
  hb_name : string;
  hb_shm : option nat;
  hb_kind : shm_kind;
  hb_register : bool;
  hb_registered : bool;
  hb_closed : bool;
}.

(** [SharedMemory(name=..., create=True, size=...)] *)
Definition shm_create (name : string) (size : Z) (st : os_state) : os_state * res nat :=
  match os_names st !! name with
  | Some _ => (st, Err OtherError)
  | None =>
      let b := os_next st in
      (Os (<[name := b]> (os_names st)) (<[b := replicate (Z.to_nat (os_size size)) 0]> (os_blocks st))
         (<[S b := b]> (os_maps st)) (os_pinned st) (S (S b)), Ok (S b))
  end.

(** [SharedMemory(name=...)] *)
Definition shm_open (name : string) (st : os_state) : os_state * res nat :=
  match os_names st !! name with
  | None => (st, Err FileNotFoundError)
  | Some b =>
      let m := os_next st in
      (Os (os_names st) (os_blocks st) (<[m := b]> (os_maps st)) (os_pinned st) (S m), Ok m)
  end.

(** The bytes behind a mapping, and [shm.size]. *)
Definition shm_bytes (st : os_state) (m : nat) : list Z := default [] (b ← os_maps st !! m; os_blocks st !! b).
Definition shm_size (st : os_state) (m : nat) : Z := Z.of_nat (List.length (shm_bytes st m)).

(** [shm.close()]: raises while exported pointers exist, and then the mapping
    stays. *)
Definition shm_close (busy : bool) (m : nat) (st : os_state) : os_state :=
  if busy then st
  else Os (os_names st) (os_blocks st) (delete m (os_maps st)) (os_pinned st) (os_next st).

(** [shm.unlink()] *)
Definition shm_unlink (name : string) (st : os_state) : os_state :=
  Os (delete name (os_names st)) (os_blocks st) (os_maps st) (os_pinned st) (os_next st).

(** A write of bytes at an offset of a mapping. *)
Definition shm_write (m : nat) (off : nat) (bytes : list Z) (st : os_state) : os_state :=
  match os_maps st !! m with
  | Some b => Os (os_names st) (alter (λ old, list_inserts off bytes old) b (os_blocks st))
                (os_maps st) (os_pinned st) (os_next st)
  | None => st
  end.

(** [_do_cuda_host_register] *)
Definition do_cuda_host_register (m : nat) (nbytes : Z) (reg_err : Z) (st : os_state) : os_state * res bool :=
  let aligned := page_align_nbytes nbytes in
  if shm_size st m <? aligned then (st, Err ValueError)
  else if negb (reg_err =? 0) then (st, Err RuntimeError)
  else (Os (os_names st) (os_blocks st) (os_maps st) ({[m]} ∪ os_pinned st) (os_next st), Ok true).

(** [HostShmBuffer.create]; [auto] is the name [_new_shm_name] makes. *)
Definition host_create (nbytes : Z) (name : option string) (auto : string) (cuda_register : bool) (reg_err : Z)
    (st : os_state) : os_state * res host_buffer :=
  if nbytes <=? 0 then (st, Err ValueError)
  else
    let chosen := match name with Some n => if String.eqb n "" then auto else n | None => auto end in
    let allocation_size := if cuda_register then page_align_nbytes nbytes else nbytes in
    match shm_create chosen allocation_size st with
    | (st, Err e) => (st, Err e)
    | (st, Ok m) =>
        let st := shm_write m 0 (replicate (Z.to_nat allocation_size) 0) st in
        let '(st, r) := if cuda_register then do_cuda_host_register m nbytes reg_err st else (st, Ok false) in
        match r with
        | Err e => (shm_unlink chosen (shm_close false m st), Err e)
        | Ok registered => (st, Ok (HostShmBuffer nbytes chosen (Some m) Unlink cuda_register registered false))
        end
    end.

(** [HostShmBuffer.attach] *)
Definition host_attach (handle : shm_handle) (cuda_register : bool) (reg_err : Z) (st : os_state)
    : os_state * res host_buffer :=
  if sh_nbytes handle <=? 0 then (st, Err ValueError)
  else
    match shm_open (sh_name handle) st with
    | (st, Err e) => (st, Err e)
    | (st, Ok m) =>
        if shm_size st m <? sh_nbytes handle then (shm_close false m st, Err RuntimeError)
        else
          let '(st, r) := if cuda_register then do_cuda_host_register m (sh_nbytes handle) reg_err st
                          else (st, Ok false) in
          match r with
          | Err e => (shm_close false m st, Err e)
          | Ok registered =>
              (st, Ok (HostShmBuffer (sh_nbytes handle) (sh_name handle) (Some m) Noop cuda_register registered false))
          end
    end.

Definition host_handle (b : host_buffer) : res shm_handle :=
  _ ← ensure (negb (hb_closed b)) RuntimeError; Ok (HostShmHandle (hb_name b) (hb_nbytes b)).

Definition host_is_creator (b : host_buffer) : bool := match hb_kind b with Unlink => true | Noop => false end.

(** [as_numpy] for a numpy type of some item size: the shape of the view. *)
Definition as_numpy (b : host_buffer) (itemsize : Z) (shape : option (list Z)) : res (list Z) :=
  match hb_closed b, hb_shm b with
  | false, Some _ =>
      shape ← match shape with
              | None => _ ← ensure (hb_nbytes b mod itemsize =? 0) ValueError; Ok [hb_nbytes b / itemsize]
              | Some s => Ok s
              end;
      _ ← ensure (negb (hb_nbytes b <? product shape * itemsize)) ValueError;
      _ ← ensure (forallb (Z.leb 0) shape) ValueError;
      Ok shape
  | _, _ => Err RuntimeError
  end.

Definition as_tensor (b : host_buffer) (dtype : ipc_dtype) (shape : option (list Z)) : res (list Z) :=
  match dtype with
  | bfloat16 => as_numpy b 2 shape
  | _ => match TORCH_DTYPE_TO_NUMPY dtype with
         | None => Err TypeError
         | Some itemsize => as_numpy b itemsize shape
         end
  end.

(** [HostShmBuffer.close]; [busy] while views of the mapping are alive;
    [unreg_ok] when unregistering succeeds, [unlink_ok] when unlinking does.
    Errors are swallowed. *)
Definition host_close (busy unreg_ok unlink_ok : bool) (b : host_buffer) (st : os_state) : host_buffer * os_state :=
  if hb_closed b then (b, st)
  else
    let closed shm registered :=
      HostShmBuffer (hb_nbytes b) (hb_name b) shm (hb_kind b) (hb_register b) registered true in
    match hb_shm b with
    | None => (closed None (hb_registered b), st)
    | Some m =>
        let st := if hb_registered b && unreg_ok
                  then Os (os_names st) (os_blocks st) (os_maps st) (os_pinned st ∖ {[m]}) (os_next st)
                  else st in
        let st := shm_close busy m st in
        let st := match hb_kind b with Unlink => if unlink_ok then shm_unlink (hb_name b) st else st | Noop => st end in
        (closed None false, st)
    end.
End host.
