(* ===== verification/IpcProps.v ===== *)
(** * Properties of inter-process buffers

    Host shared memory is held by open buffers and unclean closes only, failed
    creations leave nothing behind, handles lead to the same bytes, and views
    stay within their buffer. *)

From S2P Require Import Prelude Ipc.
Open Scope Z_scope.

(** ** The system *)

Section host.
Context (page : Z) (os_size : Z → Z).
Context (page_pos : 0 < page) (os_size_ge : ∀ n, 0 < n → n <= os_size n).

Record ipc_system : Type := Sys { sys_os : os_state; sys_bufs : list host_buffer }.

(** What the processes do; buffers are numbered as they are made.  A close may
    find views of the mapping alive, and the driver may refuse to unregister or
    the system to unlink. *)
Inductive ipc_event : Type :=
  | ECreate (nbytes : Z) (name : option string) (auto : string) (register : bool) (reg_err : Z)
  | EAttach (handle : shm_handle) (register : bool) (reg_err : Z)
  | EClose (i : nat) (busy unreg_ok unlink_ok : bool)
  | EWrite (i : nat) (off : nat) (bytes : list Z).

Definition add_buffer (s : ipc_system) (r : os_state * res host_buffer) : ipc_system :=
  match r with
  | (st, Ok b) => Sys st (sys_bufs s ++ [b])
  | (st, Err _) => Sys st (sys_bufs s)
  end.

Definition sys_step (s : ipc_system) (e : ipc_event) : ipc_system :=
  match e with
  | ECreate nbytes name auto register reg_err =>
      add_buffer s (host_create page os_size nbytes name auto register reg_err (sys_os s))
  | EAttach handle register reg_err => add_buffer s (host_attach page handle register reg_err (sys_os s))
  | EClose i busy unreg_ok unlink_ok =>
      match sys_bufs s !! i with
      | Some b => let '(b', st) := host_close busy unreg_ok unlink_ok b (sys_os s) in Sys st (<[i := b']> (sys_bufs s))
      | None => s
      end
  | EWrite i off bytes =>
      match sys_bufs s !! i with
      | Some b =>
          match hb_closed b, hb_shm b with
          | false, Some m => Sys (shm_write m off bytes (sys_os s)) (sys_bufs s)
          | _, _ => s
          end
      | None => s
      end
  end.

Definition start : ipc_system := Sys (Os ∅ ∅ ∅ ∅ 0) [].
Definition ipc_run (es : list ipc_event) : ipc_system := foldl sys_step start es.

(** An open buffer and its mapping. *)
Definition open_at (s : ipc_system) (i : nat) (b : host_buffer) (m : nat) : Prop :=
  sys_bufs s !! i = Some b ∧ hb_closed b = false ∧ hb_shm b = Some m.

(** What closes leave behind: mappings whose views were alive, registrations
    the driver kept and names the system kept. *)
Record leftover : Type := Left { lf_maps : nat → Prop; lf_pins : nat → Prop; lf_names : string → Prop }.

(** A buffer open after [es1] is closed by the next event of [es]. *)
Definition closed_in (es : list ipc_event) (busy unreg_ok unlink_ok : bool) (b : host_buffer) (m : nat) : Prop :=
  ∃ es1 i es2, es = es1 ++ EClose i busy unreg_ok unlink_ok :: es2 ∧ open_at (ipc_run es1) i b m.

Definition left_by (es : list ipc_event) : leftover :=
  Left (λ m, ∃ b u k, closed_in es true u k b m)
       (λ m, ∃ b v k, closed_in es v false k b m ∧ hb_registered b = true)
       (λ n, ∃ b m v u, closed_in es v u false b m ∧ hb_kind b = Unlink ∧ hb_name b = n).

(** The buffer an event closes *)
Definition closes (e : ipc_event) : option nat := match e with EClose i _ _ _ => Some i | _ => None end.

Record inv (L : leftover) (s : ipc_system) : Prop := {
  iv_maps m : is_Some (os_maps (sys_os s) !! m) ↔ (∃ i b, open_at s i b m) ∨ lf_maps L m;
  iv_once i j b b' m : open_at s i b m → open_at s j b' m → i = j;
  iv_open i b : sys_bufs s !! i = Some b → hb_closed b = false →
    0 < hb_nbytes b ∧ ∃ m k bytes, hb_shm b = Some m ∧ os_maps (sys_os s) !! m = Some k ∧
      os_blocks (sys_os s) !! k = Some bytes ∧ hb_nbytes b <= Z.of_nat (List.length bytes) ∧
      (hb_kind b = Unlink → os_names (sys_os s) !! hb_name b = Some k);
  iv_pinned m : m ∈ os_pinned (sys_os s) ↔ (∃ i b, open_at s i b m ∧ hb_registered b = true) ∨ lf_pins L m;
  iv_names n : is_Some (os_names (sys_os s) !! n) ↔ (∃ i b m, open_at s i b m ∧ hb_kind b = Unlink ∧ hb_name b = n) ∨ lf_names L n;
  iv_creators i j b b' m m' : open_at s i b m → open_at s j b' m' → hb_kind b = Unlink → hb_kind b' = Unlink →
    hb_name b = hb_name b' → i = j;
  iv_left i b m : open_at s i b m → ¬ lf_maps L m ∧ ¬ lf_pins L m ∧ (hb_kind b = Unlink → ¬ lf_names L (hb_name b));
  iv_pin_next m : lf_pins L m → (m < os_next (sys_os s))%nat;
  iv_next : (∀ m k, os_maps (sys_os s) !! m = Some k → (m < os_next (sys_os s))%nat) ∧
            (∀ k, is_Some (os_blocks (sys_os s) !! k) → (k < os_next (sys_os s))%nat);
}.

(** The same names, mappings and registrations, and nothing lost. *)
Record same_os (st st' : os_state) : Prop := {
  so_names : os_names st' = os_names st;
  so_maps : os_maps st' = os_maps st;
  so_pinned : os_pinned st' = os_pinned st;
  so_blocks k : (k < os_next st)%nat → os_blocks st' !! k = os_blocks st !! k;
  so_next : (os_next st ≤ os_next st')%nat;
  so_bounded : (∀ k, is_Some (os_blocks st !! k) → (k < os_next st)%nat) →
               ∀ k, is_Some (os_blocks st' !! k) → (k < os_next st')%nat;
}.

Lemma page_align_ge n : 0 <= n → n <= page_align_nbytes page n.
Proof.
  intros Hn. unfold page_align_nbytes. pose proof (Z.div_mod (n + page - 1) page ltac:(lia)).
  pose proof (Z.mod_pos_bound (n + page - 1) page page_pos). lia.
Qed.

Lemma shm_bytes_write m off bytes st m' :
  shm_bytes (shm_write m off bytes st) m' =
    if decide (os_maps st !! m' = os_maps st !! m ∧ is_Some (os_maps st !! m))
    then list_inserts off bytes (shm_bytes st m') else shm_bytes st m'.
Proof.
  unfold shm_write, shm_bytes. case_decide as Hc.
  - destruct Hc as [Heq [k Hk]]. rewrite Heq, Hk. simpl. rewrite Heq, Hk. simpl. rewrite lookup_alter_eq.
    destruct (os_blocks st !! k); simpl; [done|]. symmetry. apply nil_length_inv. by rewrite length_inserts.
  - destruct (os_maps st !! m) as [k|] eqn:Hm; [|done]. simpl.
    destruct (os_maps st !! m') as [k'|] eqn:Hm'; [|done]. simpl.
    rewrite lookup_alter_ne; [done|]. intros ->. destruct Hc. split; [done|by eexists].
Qed.

Lemma register_cases m n reg_err st st' r :
  do_cuda_host_register page m n reg_err st = (st', r) →
  (r = Ok true ∧ st' = Os (os_names st) (os_blocks st) (os_maps st) ({[m]} ∪ os_pinned st) (os_next st)) ∨
  (∃ e, r = Err e ∧ st' = st).
Proof.
  unfold do_cuda_host_register. destruct (_ <? _); [intros [= <- <-]; right; by eexists|].
  destruct (negb _); intros [= <- <-]; [right; by eexists|by left].
Qed.

(** What a successful creation or attachment adds to the system. *)
Record adds (st st' : os_state) (m k : nat) (b : host_buffer) (bytes : list Z) : Prop := {
  ad_fresh : (os_next st ≤ m)%nat ∧ (m < os_next st')%nat ∧ (k < os_next st')%nat;
  ad_maps : os_maps st' = <[m := k]> (os_maps st);
  ad_pinned : os_pinned st' = (if hb_registered b then {[m]} else ∅) ∪ os_pinned st;
  ad_block : os_blocks st' !! k = Some bytes ∧ hb_nbytes b <= Z.of_nat (List.length bytes);
  ad_blocks k' : k' ≠ k → os_blocks st' !! k' = os_blocks st !! k';
  ad_buffer : hb_shm b = Some m ∧ hb_closed b = false ∧ 0 < hb_nbytes b;
}.

Lemma create_cases nbytes name auto register reg_err st st' r :
  (∀ m k, os_maps st !! m = Some k → (m < os_next st)%nat) →
  host_create page os_size nbytes name auto register reg_err st = (st', r) →
  match r with
  | Err _ => same_os st st'
  | Ok b => ∃ m bytes, adds st st' m (os_next st) b bytes ∧ hb_kind b = Unlink ∧ hb_nbytes b = nbytes ∧
      os_names st !! hb_name b = None ∧ os_names st' = <[hb_name b := os_next st]> (os_names st)
  end.
Proof.
  intros Hm. unfold host_create. destruct (Z.leb_spec nbytes 0) as [Hn|Hn]; [by intros [= <- <-]; split|].
  set (chosen := match name with Some n => if String.eqb n "" then auto else n | None => auto end).
  set (size := if register then page_align_nbytes page nbytes else nbytes).
  assert (nbytes <= size) as Hsize by (unfold size; destruct register; [apply page_align_ge|]; lia).
  unfold shm_create. destruct (os_names st !! chosen) eqn:Hc; [by intros [= <- <-]; split|].
  set (k := os_next st). set (block := replicate (Z.to_nat (os_size size)) 0).
  set (st1 := Os (<[chosen := k]> (os_names st)) (<[k := block]> (os_blocks st)) (<[S k := k]> (os_maps st))
                (os_pinned st) (S (S k))).
  set (bytes := list_inserts 0 (replicate (Z.to_nat size) 0) block).
  assert (nbytes <= Z.of_nat (List.length bytes)) as Hlen.
  { unfold bytes, block. rewrite length_inserts, length_replicate. pose proof (os_size_ge size ltac:(lia)). lia. }
  assert (∀ k', os_blocks (shm_write (S k) 0 (replicate (Z.to_nat size) 0) st1) !! k' =
            if decide (k' = k) then Some bytes else os_blocks st !! k') as Hblocks.
  { intros k'. unfold shm_write, st1. simpl. rewrite lookup_insert_eq. simpl. case_decide as Hk.
    - subst k'. by rewrite lookup_alter_eq, lookup_insert_eq.
    - by rewrite lookup_alter_ne, lookup_insert_ne. }
  assert (shm_write (S k) 0 (replicate (Z.to_nat size) 0) st1 =
            Os (os_names st1) (os_blocks (shm_write (S k) 0 (replicate (Z.to_nat size) 0) st1)) (os_maps st1) (os_pinned st1) (os_next st1)) as Hw.
  { unfold shm_write, st1. simpl. by rewrite lookup_insert_eq. }
  set (w := shm_write (S k) 0 (replicate (Z.to_nat size) 0) st1) in *. rewrite Hw. clearbody w.
  assert (os_maps st !! S k = None) as Hfresh.
  { destruct (os_maps st !! S k) eqn:Hk; [|done]. apply Hm in Hk. unfold k in Hk. lia. }
  destruct register.
  - destruct (do_cuda_host_register _ _ _ _ _) as [st2 r2] eqn:Hr.
    destruct (register_cases _ _ _ _ _ _ Hr) as [[-> ->]|(e & -> & ->)]; intros [= <- <-].
    + exists (S k), bytes. split; [|split; [done|split; [done|split; [done|done]]]].
      split; simpl; try done; [lia|by rewrite Hblocks, decide_True|]. intros k' Hk'. by rewrite Hblocks, decide_False.
    + unfold shm_unlink, shm_close. simpl. split; simpl; try done; [by rewrite delete_insert_id|by rewrite delete_insert_id| |lia|].
      * intros k' Hk'. rewrite Hblocks, decide_False; [done|unfold k; lia].
      * intros Hb k'. rewrite Hblocks. case_decide; [lia|]. intros Hk'. apply Hb in Hk'. lia.
  - intros [= <- <-]. exists (S k), bytes. split; [|split; [done|split; [done|split; [done|done]]]].
    split; simpl; try done; [lia|set_solver|by rewrite Hblocks, decide_True|]. intros k' Hk'. by rewrite Hblocks, decide_False.
Qed.

Lemma attach_cases h register reg_err st st' r :
  (∀ m k, os_maps st !! m = Some k → (m < os_next st)%nat) →
  (∀ k, is_Some (os_blocks st !! k) → (k < os_next st)%nat) →
  host_attach page h register reg_err st = (st', r) →
  match r with
  | Err _ => same_os st st'
  | Ok b => ∃ m k bytes, adds st st' m k b bytes ∧ hb_kind b = Noop ∧ hb_nbytes b = sh_nbytes h ∧ hb_name b = sh_name h ∧
      os_names st !! sh_name h = Some k ∧ os_names st' = os_names st ∧ os_blocks st' = os_blocks st
  end.
Proof.
  intros Hm Hb. unfold host_attach. destruct (Z.leb_spec (sh_nbytes h) 0) as [Hn|Hn]; [by intros [= <- <-]; split|].
  unfold shm_open. destruct (os_names st !! sh_name h) as [k|] eqn:Hc; [|by intros [= <- <-]; split].
  set (m := os_next st). set (st1 := Os _ _ _ _ _).
  assert (os_maps st !! m = None) as Hfresh.
  { destruct (os_maps st !! m) eqn:Hk; [|done]. apply Hm in Hk. unfold m in Hk. lia. }
  assert (same_os st (shm_close false m st1)) as Hsame.
  { split; simpl; try done; [by rewrite delete_insert_id|lia|]. intros Hb' k' Hk'. apply Hb' in Hk'. lia. }
  assert (shm_bytes st1 m = default [] (os_blocks st !! k)) as Hbytes.
  { unfold shm_bytes, st1. simpl. rewrite lookup_insert_eq. done. }
  destruct (Z.ltb_spec (shm_size st1 m) (sh_nbytes h)) as [Hs|Hs]; [by intros [= <- <-]|].
  unfold shm_size in Hs. rewrite Hbytes in Hs.
  destruct (os_blocks st !! k) as [bytes|] eqn:Hk; simpl in Hs; [|lia].
  assert (∀ st2 b, (st2 = st1 ∧ hb_registered b = false ∨
                    st2 = Os (os_names st1) (os_blocks st1) (os_maps st1) ({[m]} ∪ os_pinned st1) (os_next st1) ∧ hb_registered b = true) →
            hb_shm b = Some m → hb_closed b = false → hb_nbytes b = sh_nbytes h → adds st st2 m k b bytes) as Hadds.
  { intros st2 b Hst2 Hm2 Hc2 Hn2. pose proof (Hb k ltac:(by eexists)) as Hkn.
    destruct Hst2 as [[-> Hreg]|[-> Hreg]]; split; simpl; rewrite ?Hreg, ?Hn2; try done; try lia; try set_solver.
    all: repeat split; try done; lia. }
  destruct register.
  - destruct (do_cuda_host_register _ _ _ _ _) as [st2 r2] eqn:Hr.
    destruct (register_cases _ _ _ _ _ _ Hr) as [[-> ->]|(e & -> & ->)]; intros [= <- <-]; [|done].
    exists m, k, bytes. split; [apply Hadds; [by right|done..]|]. by repeat split.
  - intros [= <- <-]. exists m, k, bytes. split; [apply Hadds; [by left|done..]|]. by repeat split.
Qed.

(** ** The invariant *)

Lemma closed_in_nil v u k b m : ¬ closed_in [] v u k b m.
Proof. intros (es1 & i & es2 & He & _). by destruct es1. Qed.

Lemma inv_start : inv (left_by []) start.
Proof.
  assert (∀ i b m, ¬ open_at start i b m) as Hno by (intros i b m [Hb _]; done).
  split; simpl; try done.
  - intros m. rewrite lookup_empty. split; [by intros [? ?]|].
    intros [(i & b & Hb)|(b & u & k & Hc)]; [by apply Hno in Hb|by apply closed_in_nil in Hc].
  - intros i j b b' m [Hb _]. done.
  - intros m. rewrite elem_of_empty. split; [done|].
    intros [(i & b & Hb & _)|(b & u & k & Hc & _)]; [by apply Hno in Hb|by apply closed_in_nil in Hc].
  - intros n. rewrite lookup_empty. split; [by intros [? ?]|].
    intros [(i & b & m & Hb & _)|(b & m & u & k & Hc & _)]; [by apply Hno in Hb|by apply closed_in_nil in Hc].
  - intros i j b b' m m' [Hb _]. done.
  - intros i b m Hb. by apply Hno in Hb.
  - intros m (b & u & k & Hc & _). by apply closed_in_nil in Hc.
  - split; intros ?; rewrite lookup_empty; [done|by intros [? ?]].
Qed.

Lemma inv_same L s st' : inv L s → same_os (sys_os s) st' → inv L (Sys st' (sys_bufs s)).
Proof.
  intros [] []. assert (∀ i b m, open_at (Sys st' (sys_bufs s)) i b m ↔ open_at s i b m) as Ho by done.
  split; simpl; rewrite ?so_maps0, ?so_pinned0, ?so_names0; try done.
  - intros i b Hb Hc. destruct (iv_open0 i b Hb Hc) as (Hn & m & k & bytes & Hs & Hm & Hk & Hl & Hnm).
    split; [done|]. exists m, k, bytes. split; [done|]. split; [done|].
    split; [|done]. rewrite so_blocks0; [done|]. apply iv_next0. by eexists.
  - intros m Hm. apply iv_pin_next0 in Hm. lia.
  - destruct iv_next0 as [Hm Hb]. split; [intros m k Hmk; apply Hm in Hmk; lia|]. by apply so_bounded0.
Qed.

Lemma open_at_snoc s st' b m i b0 m0 :
  hb_shm b = Some m → hb_closed b = false →
  open_at (Sys st' (sys_bufs s ++ [b])) i b0 m0 ↔
  open_at s i b0 m0 ∨ (i = List.length (sys_bufs s) ∧ b0 = b ∧ m0 = m).
Proof.
  intros Hs Hc. unfold open_at. simpl. split.
  - intros (Hi & Hc0 & Hs0). apply lookup_snoc_Some in Hi as [[? ?]|[<- <-]]; [by left|right]. by simplify_eq.
  - intros [(Hi & ? & ?)|(-> & -> & ->)]; [|by rewrite list_lookup_middle].
    split; [|done]. by apply lookup_app_l_Some.
Qed.

Lemma inv_add L s st' m k b bytes :
  inv L s → adds (sys_os s) st' m k b bytes →
  (∀ k', is_Some (os_blocks (sys_os s) !! k') → os_blocks st' !! k' = os_blocks (sys_os s) !! k') →
  (hb_kind b = Noop ∧ os_names st' = os_names (sys_os s) ∨
   hb_kind b = Unlink ∧ os_names (sys_os s) !! hb_name b = None ∧ os_names st' = <[hb_name b := k]> (os_names (sys_os s))) →
  inv L (Sys st' (sys_bufs s ++ [b])).
Proof.
  intros [] [] Hkeep Hnames. destruct ad_buffer0 as (Hsb & Hcb & Hpos).
  assert (∀ i b0 m0, open_at (Sys st' (sys_bufs s ++ [b])) i b0 m0 ↔
            open_at s i b0 m0 ∨ (i = List.length (sys_bufs s) ∧ b0 = b ∧ m0 = m)) as Ho by (intros; by apply open_at_snoc).
  assert (∀ i b0, ¬ open_at s i b0 m) as Hnew.
  { intros i b0 Hx. destruct (proj2 (iv_maps0 m)) as [k0 Hk0]; [left; by exists i, b0|].
    apply iv_next0 in Hk0. lia. }
  assert (¬ lf_maps L m ∧ ¬ lf_pins L m) as [Hnlm Hnlp].
  { split; [|by intros ?%iv_pin_next0; lia]. intros Hl. destruct (proj2 (iv_maps0 m)) as [k0 Hk0]; [by right|]. apply iv_next0 in Hk0. lia. }
  assert (hb_kind b = Unlink → ¬ lf_names L (hb_name b)) as Hnln.
  { intros Hkb Hl. destruct Hnames as [[? _]|(_ & Hnone & _)]; [congruence|].
    destruct (proj2 (iv_names0 (hb_name b))) as [? Hs]; [by right|]. congruence. }
  assert (∀ i b0 m0, open_at s i b0 m0 → (i < List.length (sys_bufs s))%nat) as Hlt.
  { intros i b0 m0 [Hi _]. by eapply lookup_lt_Some. }
  split; simpl.
  - intros m0. rewrite ad_maps0. destruct (decide (m0 = m)) as [->|Hne].
    + rewrite lookup_insert_eq. split; [|by eexists]. intros _. left. exists (List.length (sys_bufs s)), b. apply Ho. by right.
    + rewrite lookup_insert_ne, iv_maps0 by done. apply or_iff_compat_r.
      split; intros (i & b0 & Hx); exists i, b0; [apply Ho; by left|].
      apply Ho in Hx as [?|(_ & _ & ?)]; [done|by simplify_eq].
  - intros i j b0 b' m0 Hi Hj. apply Ho in Hi, Hj. destruct Hi as [Hi|(-> & -> & Em)], Hj as [Hj|(-> & -> & Em')]; try done.
    + by eapply iv_once0.
    + subst m0. by apply Hnew in Hi.
    + subst m0. by apply Hnew in Hj.
  - intros i b0 Hb0 Hc0. apply lookup_snoc_Some in Hb0 as [[_ Hb0]|[_ <-]].
    + destruct (iv_open0 i b0 Hb0 Hc0) as (Hn & m0 & k0 & bytes0 & Hs0 & Hm0 & Hk0 & Hl0 & Hnm0). split; [done|].
      exists m0, k0, bytes0. split; [done|]. split; [|split; [|split; [done|]]].
      * rewrite ad_maps0, lookup_insert_ne; [done|]. intros <-. by apply (Hnew i b0).
      * by rewrite Hkeep by by eexists.
      * intros Hkind. specialize (Hnm0 Hkind). destruct Hnames as [[_ ->]|(_ & Hnone & ->)]; [done|].
        rewrite lookup_insert_ne; [done|]. congruence.
    + split; [done|]. exists m, k, bytes. split; [done|]. rewrite ad_maps0, lookup_insert_eq.
      destruct ad_block0. do 3 (split; [done|]). intros Hkind. destruct Hnames as [[Hk _]|(_ & _ & ->)]; [congruence|].
      by rewrite lookup_insert_eq.
  - intros m0. rewrite ad_pinned0. destruct (hb_registered b) eqn:Hreg.
    + rewrite elem_of_union, elem_of_singleton, iv_pinned0. split.
      * intros [->|[(i & b0 & Hx & Hr)|Hl]]; [left; exists (List.length (sys_bufs s)), b; split; [apply Ho; by right|done]| |by right].
        left. exists i, b0. split; [apply Ho; by left|done].
      * intros [(i & b0 & Hx & Hr)|Hl]; [|by right; right]. apply Ho in Hx as [Hx|(-> & -> & ->)]; [right; left; by exists i, b0|by left].
    + rewrite union_empty_l_L, iv_pinned0. apply or_iff_compat_r. split; intros (i & b0 & Hx & Hr); exists i, b0; (split; [|done]); [apply Ho; by left|].
      apply Ho in Hx as [Hx|(-> & -> & ->)]; [done|congruence].
  - intros n. destruct Hnames as [[Hkind ->]|(Hkind & Hnone & ->)].
    + rewrite iv_names0. apply or_iff_compat_r.
      split; intros (i & b0 & m0 & Hx & Hk0 & Hn0); exists i, b0, m0; (split; [|done]); [apply Ho; by left|].
      apply Ho in Hx as [Hx|(-> & -> & ->)]; [done|congruence].
    + destruct (decide (n = hb_name b)) as [->|Hne].
      * rewrite lookup_insert_eq. split; [|by eexists]. intros _.
        left. exists (List.length (sys_bufs s)), b, m. split; [apply Ho; by right|done].
      * rewrite lookup_insert_ne, iv_names0 by done. apply or_iff_compat_r. split; intros (i & b0 & m0 & Hx & Hk0 & Hn0); exists i, b0, m0;
          (split; [|done]); [apply Ho; by left|]. apply Ho in Hx as [Hx|(-> & -> & ->)]; [done|congruence].
  - intros i j b0 b' m0 m' Hi Hj Hk0 Hk' Hn. apply Ho in Hi, Hj.
    assert (∀ i b0 m0, open_at s i b0 m0 → hb_kind b0 = Unlink → hb_name b0 = hb_name b → hb_kind b = Unlink → False) as Hno.
    { intros i0 b1 m1 Hx Hk1 Hn1 Hkb. destruct Hnames as [[? _]|(_ & Hnone & _)]; [congruence|].
      destruct (proj2 (iv_names0 (hb_name b))) as [? Hs]; [left; by exists i0, b1, m1|]. congruence. }
    destruct Hi as [Hi|(-> & -> & ->)], Hj as [Hj|(-> & -> & ->)]; try done.
    + by eapply iv_creators0.
    + by exfalso; eapply Hno.
    + by exfalso; eapply Hno.
  - intros i b0 m0 Hx. apply Ho in Hx as [Hx|(_ & -> & ->)]; [by eapply iv_left0|done].
  - intros m0 Hl. apply iv_pin_next0 in Hl. lia.
  - destruct iv_next0 as [Hm Hb], ad_fresh0 as (Hf1 & Hf2 & Hf3). split.
    + intros m0 k0. rewrite ad_maps0. destruct (decide (m0 = m)) as [->|?]; [by rewrite lookup_insert_eq; lia|].
      rewrite lookup_insert_ne by done. intros Hx%Hm. lia.
    + intros k0. destruct (decide (k0 = k)) as [->|?]; [done|]. rewrite ad_blocks0 by done. intros Hx%Hb. lia.
Qed.

Lemma inv_write L s i off bytes b m :
  inv L s → open_at s i b m → inv L (Sys (shm_write m off bytes (sys_os s)) (sys_bufs s)).
Proof.
  intros Hinv (Hb & Hc & Hs). pose proof Hinv as [].
  destruct (iv_open0 i b Hb Hc) as (Hn & m0 & k & old & Hs0 & Hm & Hk & Hl & Hnm).
  assert (m0 = m) as -> by congruence. unfold shm_write. rewrite Hm.
  assert (∀ k', is_Some (alter (λ old, list_inserts off bytes old) k (os_blocks (sys_os s)) !! k') ↔
                is_Some (os_blocks (sys_os s) !! k')) as Hsome.
  { intros k'. destruct (decide (k' = k)) as [->|?]; [|by rewrite lookup_alter_ne].
    rewrite lookup_alter_eq, Hk. simpl. split; by eexists. }
  split; simpl; try done.
  - intros i0 b0 Hb0 Hc0. destruct (iv_open0 i0 b0 Hb0 Hc0) as (Hn0 & m1 & k1 & old1 & Hs1 & Hm1 & Hk1 & Hl1 & Hnm1).
    split; [done|]. destruct (decide (k1 = k)) as [->|Hne].
    + exists m1, k, (list_inserts off bytes old1). rewrite lookup_alter_eq, Hk1, length_inserts. done.
    + exists m1, k1, old1. by rewrite lookup_alter_ne.
  - destruct iv_next0 as [? Hb2]. split; [done|]. intros k0 Hk0%Hsome. by apply Hb2.
Qed.

(** What a close adds to what is left *)
Definition leaves (s : ipc_system) (L L' : leftover) (i : nat) (busy unreg_ok unlink_ok : bool) : Prop :=
  (∀ m, lf_maps L' m ↔ lf_maps L m ∨ ∃ b, open_at s i b m ∧ busy = true) ∧
  (∀ m, lf_pins L' m ↔ lf_pins L m ∨ ∃ b, open_at s i b m ∧ unreg_ok = false ∧ hb_registered b = true) ∧
  (∀ n, lf_names L' n ↔ lf_names L n ∨ ∃ b m, open_at s i b m ∧ unlink_ok = false ∧ hb_kind b = Unlink ∧ hb_name b = n).

(** What an open buffer's close does to the system *)
Lemma close_effect busy unreg_ok unlink_ok b m st b' st' :
  hb_closed b = false → hb_shm b = Some m → host_close busy unreg_ok unlink_ok b st = (b', st') →
  hb_closed b' = true ∧
  os_maps st' = (if busy then os_maps st else delete m (os_maps st)) ∧ os_blocks st' = os_blocks st ∧ os_next st' = os_next st ∧
  os_pinned st' = (if hb_registered b && unreg_ok then os_pinned st ∖ {[m]} else os_pinned st) ∧
  os_names st' = (if host_is_creator b && unlink_ok then delete (hb_name b) (os_names st) else os_names st).
Proof.
  unfold host_close, host_is_creator, shm_close. intros -> ->.
  by destruct (hb_registered b), unreg_ok, busy, (hb_kind b), unlink_ok; intros [= <- <-].
Qed.

Section close.
Context (L L' : leftover) (s : ipc_system) (i : nat) (busy unreg_ok unlink_ok : bool).
Context (b : host_buffer) (m : nat) (b' : host_buffer) (st' : os_state).
Context (Hinv : inv L s) (HL : leaves s L L' i busy unreg_ok unlink_ok) (Hopen : open_at s i b m).
Context (Hclose : host_close busy unreg_ok unlink_ok b (sys_os s) = (b', st')).
Local Notation s' := (Sys st' (<[i := b']> (sys_bufs s))).

Lemma close_os :
  hb_closed b' = true ∧
  os_maps st' = (if busy then os_maps (sys_os s) else delete m (os_maps (sys_os s))) ∧
  os_blocks st' = os_blocks (sys_os s) ∧ os_next st' = os_next (sys_os s) ∧
  os_pinned st' = (if hb_registered b && unreg_ok then os_pinned (sys_os s) ∖ {[m]} else os_pinned (sys_os s)) ∧
  os_names st' = (if host_is_creator b && unlink_ok then delete (hb_name b) (os_names (sys_os s)) else os_names (sys_os s)).
Proof. destruct Hopen as (_ & Hc & Hs). exact (close_effect _ _ _ b m _ b' st' Hc Hs Hclose). Qed.

Lemma close_open j b0 m0 : open_at s' j b0 m0 ↔ open_at s j b0 m0 ∧ j ≠ i.
Proof.
  destruct Hopen as (Hb & _ & _), close_os as (Hc' & _). unfold open_at. simpl. destruct (decide (j = i)) as [->|Hne].
  - rewrite list_lookup_insert_eq by by eapply lookup_lt_Some. split; [|by intros [_ ?]]. intros ([= <-] & ? & _). congruence.
  - rewrite list_lookup_insert_ne by done. tauto.
Qed.

Lemma close_self b0 m0 : open_at s i b0 m0 → b0 = b ∧ m0 = m.
Proof. destruct Hopen as (Hb & _ & Hs). intros (Hb0 & _ & Hs0). split; congruence. Qed.

Lemma close_other j b0 m0 : open_at s j b0 m0 → j ≠ i → m0 ≠ m.
Proof. intros Hx Hne ->. apply Hne. by eapply (iv_once L s Hinv). Qed.

Lemma close_maps_other j b0 m0 : open_at s j b0 m0 → j ≠ i → os_maps st' !! m0 = os_maps (sys_os s) !! m0.
Proof.
  intros Hx Hne. destruct close_os as (_ & -> & _). destruct busy; [done|]. rewrite lookup_delete_ne; [done|].
  apply not_eq_sym. by eapply close_other.
Qed.

Lemma close_maps m0 : is_Some (os_maps st' !! m0) ↔ (∃ j b0, open_at s' j b0 m0) ∨ lf_maps L' m0.
Proof.
  pose proof (iv_maps L s Hinv) as Hm. destruct close_os as (_ & Hmaps & _). destruct HL as (HLm & _). rewrite HLm, Hmaps. setoid_rewrite close_open.
  assert (is_Some ((if busy then os_maps (sys_os s) else delete m (os_maps (sys_os s))) !! m0) ↔
          is_Some (os_maps (sys_os s) !! m0) ∧ (busy = true ∨ m0 ≠ m)) as ->.
  { destruct busy; [naive_solver|]. destruct (decide (m0 = m)) as [->|]; [rewrite lookup_delete_eq|rewrite lookup_delete_ne by done].
    - split; [by intros [? ?]|naive_solver].
    - naive_solver. }
  rewrite Hm. split.
  - intros [[(j & b0 & Hx)|Hl] Hk]; [|by right; left]. destruct (decide (j = i)) as [->|Hj]; [|left; eauto].
    right; right. exists b0. split; [done|]. destruct (close_self _ _ Hx) as [_ ->]. naive_solver.
  - intros [(j & b0 & Hx & Hj)|[Hl|(b0 & Hx & Hbz)]]; [split; [left; eauto|right; by eapply close_other]| |split; [left|left]; eauto].
    split; [by right|]. right. intros ->. by apply (proj1 (iv_left L s Hinv _ _ _ Hopen)).
Qed.

Lemma close_pinned m0 : m0 ∈ os_pinned st' ↔ (∃ j b0, open_at s' j b0 m0 ∧ hb_registered b0 = true) ∨ lf_pins L' m0.
Proof.
  pose proof (iv_pinned L s Hinv) as Hm. destruct close_os as (_ & _ & _ & _ & Hpin & _). destruct HL as (_ & HLp & _). rewrite HLp, Hpin. setoid_rewrite close_open.
  assert (m0 ∈ (if hb_registered b && unreg_ok then os_pinned (sys_os s) ∖ {[m]} else os_pinned (sys_os s)) ↔
          m0 ∈ os_pinned (sys_os s) ∧ (hb_registered b && unreg_ok = false ∨ m0 ≠ m)) as ->.
  { destruct (_ && _); set_solver. }
  rewrite Hm. split.
  - intros [[(j & b0 & Hx & Hr)|Hl] Hk]; [|by right; left]. destruct (decide (j = i)) as [->|Hj]; [|left; eauto].
    right; right. exists b0. destruct (close_self _ _ Hx) as [-> ->]. rewrite Hr in *. simpl in Hk. naive_solver.
  - intros [(j & b0 & [Hx Hj] & Hr)|[Hl|(b0 & Hx & Hu & Hr)]]; [split; [left; eauto|right; by eapply close_other]| |].
    + split; [by right|]. right. intros ->. by apply (proj1 (proj2 (iv_left L s Hinv _ _ _ Hopen))).
    + split; [left; eauto|left]. by rewrite Hu, andb_false_r.
Qed.

Lemma creator_unlink b0 : host_is_creator b0 = true ↔ hb_kind b0 = Unlink.
Proof. unfold host_is_creator. by destruct (hb_kind b0). Qed.

Lemma close_names n :
  is_Some (os_names st' !! n) ↔ (∃ j b0 m0, open_at s' j b0 m0 ∧ hb_kind b0 = Unlink ∧ hb_name b0 = n) ∨ lf_names L' n.
Proof.
  pose proof (iv_names L s Hinv) as Hm. destruct close_os as (_ & _ & _ & _ & _ & Hnames). destruct HL as (_ & _ & HLn). rewrite HLn, Hnames.
  setoid_rewrite close_open. set (gone := host_is_creator b && unlink_ok).
  assert (is_Some ((if gone then delete (hb_name b) (os_names (sys_os s)) else os_names (sys_os s)) !! n) ↔
          is_Some (os_names (sys_os s) !! n) ∧ (gone = false ∨ n ≠ hb_name b)) as ->.
  { destruct gone; [|naive_solver]. destruct (decide (n = hb_name b)) as [->|]; [rewrite lookup_delete_eq|rewrite lookup_delete_ne by done].
    - split; [by intros [? ?]|naive_solver].
    - naive_solver. }
  rewrite Hm. split.
  - intros [[(j & b0 & m0 & Hx & Hk0 & Hn0)|Hl] Hk]; [|by right; left]. destruct (decide (j = i)) as [->|Hj]; [|left; exists j, b0, m0; done].
    right; right. exists b0, m0. destruct (close_self _ _ Hx) as [-> ->]. unfold gone in Hk. rewrite (proj2 (creator_unlink b) Hk0) in Hk. naive_solver.
  - assert (gone = false ∨ hb_kind b = Unlink) as Hg.
    { unfold gone. destruct (host_is_creator b) eqn:Hcr; [right; by apply creator_unlink|by left]. }
    intros [(j & b0 & m0 & [Hx Hj] & Hk0 & Hn0)|[Hl|(b0 & m0 & Hx & Hu & Hk0 & Hn0)]].
    + split; [left; by exists j, b0, m0|]. destruct Hg as [|Hkb]; [by left|]. right. intros Hn. apply Hj.
      eapply (iv_creators L s Hinv j i b0 b m0 m); congruence.
    + split; [by right|]. destruct Hg as [|Hkb]; [by left|]. right. intros ->. by apply (proj2 (proj2 (iv_left L s Hinv _ _ _ Hopen)) Hkb).
    + split; [left; by exists i, b0, m0|left]. unfold gone. by rewrite Hu, andb_false_r.
Qed.

Lemma close_blocks_open j b0 : sys_bufs s' !! j = Some b0 → hb_closed b0 = false →
  0 < hb_nbytes b0 ∧ ∃ m0 k bytes, hb_shm b0 = Some m0 ∧ os_maps st' !! m0 = Some k ∧
    os_blocks st' !! k = Some bytes ∧ hb_nbytes b0 <= Z.of_nat (List.length bytes) ∧ (hb_kind b0 = Unlink → os_names st' !! hb_name b0 = Some k).
Proof.
  intros Hb0 Hc0. destruct close_os as (Hc' & _ & Hblocks & _ & _ & Hnames). destruct (decide (j = i)) as [->|Hne].
  { simpl in Hb0. rewrite list_lookup_insert_eq in Hb0 by (destruct Hopen as (? & _); by eapply lookup_lt_Some). congruence. }
  simpl in Hb0. rewrite list_lookup_insert_ne in Hb0 by done.
  destruct (iv_open L s Hinv j b0 Hb0 Hc0) as (Hn0 & m1 & k1 & old1 & Hs1 & Hm1 & Hk1 & Hl1 & Hnm1). split; [done|].
  assert (open_at s j b0 m1) as Hx by done.
  exists m1, k1, old1. split; [done|]. rewrite (close_maps_other j b0 m1 Hx Hne), Hblocks.
  split; [done|]. split; [done|]. split; [done|]. intros Hkind. rewrite Hnames. destruct (host_is_creator b && unlink_ok) eqn:Hg; [|by apply Hnm1].
  apply andb_prop in Hg as [Hkb%creator_unlink _].
  rewrite lookup_delete_ne; [by apply Hnm1|]. intros Heq. apply Hne. eapply (iv_creators L s Hinv j i b0 b m1 m); done.
Qed.

Lemma close_left j b0 m0 : open_at s' j b0 m0 → ¬ lf_maps L' m0 ∧ ¬ lf_pins L' m0 ∧ (hb_kind b0 = Unlink → ¬ lf_names L' (hb_name b0)).
Proof.
  intros [Hx Hj]%close_open. destruct (iv_left L s Hinv _ _ _ Hx) as (H1 & H2 & H3), HL as (HLm & HLp & HLn).
  assert (m0 ≠ m) as Hne by by eapply close_other. rewrite HLm, HLp. setoid_rewrite HLn. split; [|split].
  - intros [?|(b1 & Hx1 & _)]; [done|]. by apply close_self in Hx1 as [_ ?].
  - intros [?|(b1 & Hx1 & _)]; [done|]. by apply close_self in Hx1 as [_ ?].
  - intros Hk [?|(b1 & m1 & Hx1 & _ & Hk1 & Hn1)]; [by apply H3|]. apply Hj. by eapply (iv_creators L s Hinv j i b0 b1 m0 m1).
Qed.

Lemma inv_close : inv L' s'.
Proof.
  pose proof (iv_next L s Hinv) as [Hm0 Hb0]. destruct close_os as (_ & Hmaps & Hblocks & Hnext & _).
  split; [exact close_maps| |exact close_blocks_open|exact close_pinned|exact close_names| |exact close_left| |].
  - intros j1 j2 b1 b2 m0 [H1 _]%close_open [H2 _]%close_open. by eapply (iv_once L s Hinv).
  - intros j1 j2 b1 b2 m1 m2 [H1 _]%close_open [H2 _]%close_open. by eapply (iv_creators L s Hinv).
  - simpl. rewrite Hnext. destruct HL as (_ & HLp & _). intros m0 [Hl|(b1 & Hx & _)]%HLp; [by apply (iv_pin_next L s Hinv)|].
    destruct (proj2 (iv_maps L s Hinv m0)) as [k Hk]; [left; eauto|]. by apply Hm0 in Hk.
  - simpl. rewrite Hblocks, Hnext, Hmaps. split; [|done]. intros m0 k0. destruct busy; [apply Hm0|].
    intros Hk0%lookup_delete_Some. destruct Hk0 as [_ Hk0]. by eapply Hm0.
Qed.
End close.

Lemma close_closed busy unreg_ok unlink_ok b st : hb_closed b = true → host_close busy unreg_ok unlink_ok b st = (b, st).
Proof. unfold host_close. by intros ->. Qed.

(** What is left after one more event *)
Definition after (L : leftover) (s : ipc_system) (e : ipc_event) : leftover :=
  Left (λ m, lf_maps L m ∨ ∃ i u k b, e = EClose i true u k ∧ open_at s i b m)
       (λ m, lf_pins L m ∨ ∃ i v k b, e = EClose i v false k ∧ open_at s i b m ∧ hb_registered b = true)
       (λ n, lf_names L n ∨ ∃ i v u b m, e = EClose i v u false ∧ open_at s i b m ∧ hb_kind b = Unlink ∧ hb_name b = n).

Lemma inv_ext L L' s :
  (∀ m, lf_maps L' m ↔ lf_maps L m) → (∀ m, lf_pins L' m ↔ lf_pins L m) → (∀ n, lf_names L' n ↔ lf_names L n) → inv L s → inv L' s.
Proof.
  intros Hm Hp Hn []. split; try done.
  - intros m. by rewrite Hm.
  - intros m. by rewrite Hp.
  - intros n. by rewrite Hn.
  - intros i b m Hx. rewrite Hm, Hp, Hn. by eapply iv_left0.
  - intros m. rewrite Hp. apply iv_pin_next0.
Qed.

(** An event that closes no open buffer leaves nothing more. *)
Lemma inv_after L s s' e : (∀ i v u k b m, e = EClose i v u k → ¬ open_at s i b m) → inv L s' → inv (after L s e) s'.
Proof.
  intros Hno. apply inv_ext; simpl.
  - intros m. split; [intros [?|(i & u & k & b & He & Hx)]; [done|]|by left]. by apply (Hno i true u k b m) in He.
  - intros m. split; [intros [?|(i & u & k & b & He & Hx & _)]; [done|]|by left]. by apply (Hno i u false k b m) in He.
  - intros n. split; [intros [?|(i & v & u & b & m & He & Hx & _)]; [done|]|by left]. by apply (Hno i v u false b m) in He.
Qed.

Lemma leaves_after L s i v u k : leaves s L (after L s (EClose i v u k)) i v u k.
Proof.
  split; [|split]; simpl.
  - intros m. apply or_iff_compat_l. split; [intros (? & ? & ? & b & [= <- -> <- <-] & Hx); eauto|intros (b & Hx & ->); eauto 8].
  - intros m. apply or_iff_compat_l. split; [intros (? & ? & ? & b & [= <- <- -> <-] & Hx & Hr); eauto|intros (b & Hx & -> & Hr); eauto 9].
  - intros n. apply or_iff_compat_l.
    split; [intros (? & ? & ? & b & m & [= <- <- <- ->] & Hx & Hr); eauto|intros (b & m & Hx & -> & Hr); eauto 9].
Qed.

Lemma close_kept L s i v u k :
  inv L s → inv (after L s (EClose i v u k)) (sys_step s (EClose i v u k)) ∧
  ∀ j b m, open_at s j b m → j ≠ i →
    open_at (sys_step s (EClose i v u k)) j b m ∧ os_maps (sys_os (sys_step s (EClose i v u k))) !! m = os_maps (sys_os s) !! m.
Proof.
  intros Hinv. simpl. destruct (sys_bufs s !! i) as [b0|] eqn:Hb0.
  2: { split; [apply inv_after; [|done]|done]. intros i' v' u' k' b m [= <- _ _ _] (Hb & _). congruence. }
  destruct (hb_closed b0) eqn:Hc0.
  { rewrite close_closed, list_insert_id by done. replace (Sys (sys_os s) (sys_bufs s)) with s by by destruct s.
    split; [apply inv_after; [|done]|done]. intros i' v' u' k' b m [= <- _ _ _] (Hb & Hc & _). congruence. }
  destruct (iv_open L s Hinv i b0 Hb0 Hc0) as (_ & m0 & _ & _ & Hs0 & _). assert (open_at s i b0 m0) as Hx0 by done.
  destruct (host_close v u k b0 (sys_os s)) as [b' st'] eqn:Hcl. pose proof (leaves_after L s i v u k) as HL.
  split; [by apply (inv_close L _ s i v u k b0 m0 b' st')|]. intros j b m Hx Hne.
  split; [by apply (close_open s i v u k b0 m0 b' st' Hx0 Hcl)|].
  by eapply close_maps_other.
Qed.

(** One step: the invariant holds again, and a buffer the step does not close
    keeps its mapping. *)
Lemma step_inv L s e :
  inv L s → inv (after L s e) (sys_step s e) ∧
  ∀ i b m, open_at s i b m → closes e ≠ Some i →
    open_at (sys_step s e) i b m ∧ os_maps (sys_os (sys_step s e)) !! m = os_maps (sys_os s) !! m.
Proof.
  intros Hinv. pose proof Hinv as []. destruct iv_next0 as [Hm Hbk].
  assert (∀ st', same_os (sys_os s) st' → inv L (Sys st' (sys_bufs s)) ∧ ∀ i b m, open_at s i b m →
    open_at (Sys st' (sys_bufs s)) i b m ∧ os_maps st' !! m = os_maps (sys_os s) !! m) as Hfail.
  { intros st' Hs. split; [by apply inv_same|]. intros i b m Hx. split; [done|]. by rewrite (so_maps _ _ Hs). }
  assert (∀ st' b m k bytes, adds (sys_os s) st' m k b bytes → ∀ i b0 m0, open_at s i b0 m0 →
    open_at (Sys st' (sys_bufs s ++ [b])) i b0 m0 ∧ os_maps st' !! m0 = os_maps (sys_os s) !! m0) as Hkeep.
  { intros st' b m k bytes [] i b0 m0 Hx. destruct ad_buffer0 as (Hsb & Hcb & _).
    split; [apply open_at_snoc with (m:=m); [done..|by left]|].
    rewrite ad_maps0, lookup_insert_ne; [done|]. intros ->.
    destruct (proj2 (iv_maps0 m0)) as [k0 Hk0]; [left; by exists i, b0|]. apply Hm in Hk0. lia. }
  destruct e as [nbytes name auto register reg_err|h register reg_err|i0 v u k|i0 off bytes];
    [..|split; [apply inv_after; [done|]|]]; cbn [sys_step].
  - destruct (host_create _ _ _ _ _ _ _ _) as [st' r] eqn:Hr.
    pose proof (create_cases _ _ _ _ _ _ _ _ Hm Hr) as Hc. destruct r as [b|e].
    + destruct Hc as (m & bytes & Had & Hk & _ & Hno & Hnm). simpl. split.
      * apply inv_after; [done|]. eapply inv_add; [done..| |by right]. intros k' Hk'. apply (ad_blocks _ _ _ _ _ _ Had).
        intros ->. apply Hbk in Hk'. lia.
      * intros i b0 m0 Hx _. by eapply Hkeep.
    + simpl. destruct (Hfail st' Hc) as [? Hf]. split; [by apply inv_after|]. intros i b m Hx _. by apply Hf.
  - destruct (host_attach _ _ _ _ _) as [st' r] eqn:Hr.
    pose proof (attach_cases _ _ _ _ _ _ Hm Hbk Hr) as Hc. destruct r as [b|e].
    + destruct Hc as (m & k & bytes & Had & Hk & _ & _ & _ & Hnm & Hbl). simpl. split.
      * apply inv_after; [done|]. eapply inv_add; [done..| |by left]. intros k' _. by rewrite Hbl.
      * intros i b0 m0 Hx _. by eapply Hkeep.
    + simpl. destruct (Hfail st' Hc) as [? Hf]. split; [by apply inv_after|]. intros i b m Hx _. by apply Hf.
  - destruct (close_kept L s i0 v u k Hinv) as [Hi Hk]. split; [exact Hi|]. intros i b m Hx Hne. apply Hk; [done|]. simpl in Hne. congruence.
  - destruct (sys_bufs s !! i0) as [b0|] eqn:Hb0; [|done]. destruct (hb_closed b0) eqn:Hc0; [done|]. destruct (hb_shm b0) as [m0|] eqn:Hs0; [|done].
    by apply (inv_write L s i0 off bytes b0 m0).
  - intros i b m Hx _. destruct (sys_bufs s !! i0) as [b0|]; [|done]. destruct (hb_closed b0); [done|]. destruct (hb_shm b0) as [m0|]; [|done].
    split; [done|]. simpl. unfold shm_write. by destruct (os_maps (sys_os s) !! m0).
Qed.

Lemma closed_in_snoc es e v u k b m :
  closed_in (es ++ [e]) v u k b m ↔ closed_in es v u k b m ∨ ∃ i, e = EClose i v u k ∧ open_at (ipc_run es) i b m.
Proof.
  split.
  - intros (es1 & i & es2 & He & Hx). destruct es2 as [|e2 es2 _] using rev_ind.
    + apply app_inj_tail in He as [-> ->]. right. by exists i.
    + rewrite app_comm_cons, app_assoc in He. apply app_inj_tail in He as [-> _]. left. by exists es1, i, es2.
  - intros [(es1 & i & es2 & -> & Hx)|(i & -> & Hx)]; [exists es1, i, (es2 ++ [e]); by rewrite <- app_assoc|by exists es, i, []].
Qed.

Lemma left_by_snoc es e (L := after (left_by es) (ipc_run es) e) :
  (∀ m, lf_maps (left_by (es ++ [e])) m ↔ lf_maps L m) ∧ (∀ m, lf_pins (left_by (es ++ [e])) m ↔ lf_pins L m) ∧
  (∀ n, lf_names (left_by (es ++ [e])) n ↔ lf_names L n).
Proof. unfold L. simpl. setoid_rewrite closed_in_snoc. split; [|split]; intros; split; naive_solver. Qed.

Lemma run_inv es : inv (left_by es) (ipc_run es).
Proof.
  induction es as [|e es IH] using rev_ind; [exact inv_start|]. destruct (left_by_snoc es e) as (Hm & Hp & Hn).
  apply (inv_ext _ _ _ Hm Hp Hn). unfold ipc_run. rewrite foldl_app. by apply step_inv.
Qed.

Lemma steps_inv es L s : inv L s → ∃ L', inv L' (foldl sys_step s es).
Proof. revert L s; induction es as [|e es IH]; intros L s Hs; [by exists L|]. simpl. by eapply IH, step_inv. Qed.

Lemma open_stable es L s i b m :
  inv L s → open_at s i b m → Forall (λ e, closes e ≠ Some i) es →
  open_at (foldl sys_step s es) i b m ∧ os_maps (sys_os (foldl sys_step s es)) !! m = os_maps (sys_os s) !! m.
Proof.
  revert L s; induction es as [|e es IH]; intros L s Hinv Hx Hne; [done|]. simpl. apply Forall_cons in Hne as [He Hne].
  destruct (step_inv L s e Hinv) as [Hinv' Hkeep]. destruct (Hkeep i b m Hx He) as [Hx' Hm'].
  destruct (IH _ _ Hinv' Hx' Hne) as [Hx2 Hm2]. split; [done|]. by rewrite Hm2.
Qed.




(** A creation or an attachment that fails, for whatever reason and at
    whatever point (a bad size, a name that is taken or unknown, a block that
    is too small, a driver that refuses to register), leaves the names, the
    mappings, the registrations and every existing block as they were. *)
Theorem host_failure_leaves_nothing es st' e :
  let st := sys_os (ipc_run es) in
  ((∃ nbytes name auto register reg_err,
      host_create page os_size nbytes name auto register reg_err st = (st', Err e)) ∨
   (∃ h register reg_err, host_attach page h register reg_err st = (st', Err e))) →
  os_names st' = os_names st ∧ os_maps st' = os_maps st ∧ os_pinned st' = os_pinned st ∧
  ∀ k, is_Some (os_blocks st !! k) → os_blocks st' !! k = os_blocks st !! k.
Proof.
  intros st Hfail. pose proof (run_inv es) as Hinv. pose proof Hinv as []. destruct iv_next0 as [Hm Hb].
  assert (same_os st st') as [].
  { destruct Hfail as [(nbytes & name & auto & register & reg_err & Hr)|(h & register & reg_err & Hr)].
    - by apply (create_cases _ _ _ _ _ _ _ _ Hm Hr).
    - by apply (attach_cases _ _ _ _ _ _ Hm Hb Hr). }
  do 3 (split; [done|]). intros k Hk. apply so_blocks0. by apply Hb.
Qed.

(** A handle leads to the creator's bytes: attaching through the handle of
    an open creator succeeds, and from then on, whatever any process does, as
    long as neither of the two is closed both see the same bytes, at least as
    many as the handle says, and what is written through one is read through
    the other. *)
Theorem handle_shares_memory es i b m h :
  open_at (ipc_run es) i b m → hb_kind b = Unlink → host_handle b = Ok h →
  ∃ st' b' m', host_attach page h false 0 (sys_os (ipc_run es)) = (st', Ok b') ∧ hb_nbytes b' = hb_nbytes b ∧
    ∀ es2, let j := List.length (sys_bufs (ipc_run es)) in
      let s2 := ipc_run (es ++ EAttach h false 0 :: es2) in
      Forall (λ e, closes e ≠ Some i ∧ closes e ≠ Some j) es2 →
      open_at s2 i b m ∧ open_at s2 j b' m' ∧
      shm_bytes (sys_os s2) m = shm_bytes (sys_os s2) m' ∧ hb_nbytes b <= shm_size (sys_os s2) m ∧
      ∀ off bytes, shm_bytes (sys_os (sys_step s2 (EWrite j off bytes))) m = list_inserts off bytes (shm_bytes (sys_os s2) m) ∧
        shm_bytes (sys_os (sys_step s2 (EWrite i off bytes))) m' = list_inserts off bytes (shm_bytes (sys_os s2) m').
Proof.
  intros Hx Hkind Hh. pose proof (run_inv es) as Hinv. pose proof Hinv as []. destruct iv_next0 as [Hm Hbk].
  destruct Hx as (Hb & Hc & Hs). unfold host_handle in Hh. rewrite Hc in Hh. simpl in Hh. injection Hh as <-.
  destruct (iv_open0 i b Hb Hc) as (Hn & m0 & k & bytes & Hs0 & Hmk & Hk & Hl & Hnm).
  assert (m0 = m) as -> by congruence. specialize (Hnm Hkind).
  set (st := sys_os (ipc_run es)) in *. set (h := HostShmHandle (hb_name b) (hb_nbytes b)).
  destruct (host_attach page h false 0 st) as [st' r] eqn:Hr.
  assert (∃ b', r = Ok b') as [b' ->].
  { unfold host_attach, shm_open in Hr. simpl in Hr. rewrite Hnm in Hr.
    destruct (Z.leb_spec (hb_nbytes b) 0); [lia|]. unfold shm_size, shm_bytes in Hr. simpl in Hr.
    rewrite lookup_insert_eq in Hr. simpl in Hr. rewrite Hk in Hr. simpl in Hr.
    destruct (Z.ltb_spec (Z.of_nat (List.length bytes)) (hb_nbytes b)); [lia|]. injection Hr as _ <-. by eexists. }
  destruct (attach_cases _ _ _ _ _ _ Hm Hbk Hr)
    as (m' & k' & bytes' & Had & _ & Hnb & _ & Hname & _ & Hbl).
  exists st', b', m'. split; [done|]. split; [done|]. intros es2 j s2 [Hi2 Hj2]%Forall_and.
  set (s1 := Sys st' (sys_bufs (ipc_run es) ++ [b'])).
  assert (s2 = foldl sys_step s1 es2) as ->.
  { unfold s2, ipc_run. rewrite foldl_app. simpl. fold (ipc_run es). fold st. by rewrite Hr. }
  set (L1 := after (left_by es) (ipc_run es) (EAttach h false 0)).
  assert (inv L1 s1 ∧ open_at s1 i b m ∧ os_maps (sys_os s1) !! m = Some k) as (Hinv1 & Hi1 & Hmk1).
  { destruct (step_inv _ (ipc_run es) (EAttach h false 0) Hinv) as [Hi1 Hkeep]. fold L1 in Hi1. simpl in Hi1, Hkeep. fold st in Hi1, Hkeep.
    rewrite Hr in Hi1, Hkeep. destruct (Hkeep i b m) as [? Hmm]; [done..|]. split; [done|]. split; [done|].
    by rewrite <- Hmk. }
  pose proof (ad_buffer _ _ _ _ _ _ Had) as (Hsb & Hcb & Hpos).
  assert (open_at s1 j b' m') as Hj1 by (apply open_at_snoc with (m:=m'); [done..|by right]).
  assert (os_maps (sys_os s1) !! m' = Some k) as Hmk1'.
  { simpl. rewrite (ad_maps _ _ _ _ _ _ Had), lookup_insert_eq. simpl in Hname. congruence. }
  destruct (open_stable es2 L1 s1 i b m Hinv1 Hi1 Hi2) as [Hi3 Hm3].
  destruct (open_stable es2 L1 s1 j b' m' Hinv1 Hj1 Hj2) as [Hj3 Hm3'].
  set (s3 := foldl sys_step s1 es2) in *. split; [done|]. split; [done|].
  assert (os_maps (sys_os s3) !! m = os_maps (sys_os s3) !! m') as Heq by by rewrite Hm3, Hm3', Hmk1, Hmk1'.
  assert (is_Some (os_maps (sys_os s3) !! m)) as Hsome by (rewrite Hm3, Hmk1; by eexists).
  split; [unfold shm_bytes; by rewrite Heq|]. split.
  - destruct (steps_inv es2 L1 s1 Hinv1) as [L3 Hinv3]. fold s3 in Hinv3.
    destruct Hi3 as (Hb3 & Hc3 & Hs3). destruct (iv_open _ _ Hinv3 i b Hb3 Hc3) as (_ & m0 & k0 & bytes0 & ? & Hm0 & Hk0 & ? & _).
    assert (m0 = m) as -> by congruence. unfold shm_size, shm_bytes. rewrite Hm0. simpl. by rewrite Hk0.
  - intros off by0. destruct Hi3 as (Hb3 & Hc3 & Hs3), Hj3 as (Hb3' & Hc3' & Hs3'). simpl.
    rewrite Hb3, Hb3', Hc3, Hc3', Hs3, Hs3'. simpl. rewrite !shm_bytes_write.
    rewrite !decide_True; [done|split; [by symmetry|done]|split; [done|by rewrite <- Heq]].
Qed.

(** Registering is not each side's own choice: when the creator did not
    register and the page size does not divide the size, an attachment that
    asks for registration is always refused, whatever the driver says. *)
Theorem attach_registration_refused nbytes name auto reg_err reg_err' st st1 b h :
  (∀ n, os_size n = n) → ¬ (page | nbytes) →
  (∀ m k, os_maps st !! m = Some k → (m < os_next st)%nat) →
  host_create page os_size nbytes name auto false reg_err st = (st1, Ok b) → host_handle b = Ok h →
  (host_attach page h true reg_err' st1).2 = Err ValueError ∧ ∃ b', (host_attach page h false reg_err' st1).2 = Ok b'.
Proof.
  intros Hexact Hdiv Hm. unfold host_create. destruct (Z.leb_spec nbytes 0) as [Hn|Hn]; [done|].
  set (chosen := match name with Some n => if String.eqb n "" then auto else n | None => auto end).
  unfold shm_create. destruct (os_names st !! chosen); [done|]. unfold shm_write. simpl. rewrite lookup_insert_eq.
  intros [= <- <-] [= <-]. unfold host_attach, shm_open. simpl. destruct (Z.leb_spec nbytes 0); [lia|].
  rewrite lookup_insert_eq. set (k := os_next st).
  unfold do_cuda_host_register, shm_size, shm_bytes. simpl. rewrite !lookup_insert_eq. simpl.
  rewrite lookup_alter_eq, lookup_insert_eq. simpl. rewrite length_inserts, length_replicate, Hexact, Z2Nat.id by lia.
  rewrite Z.ltb_irrefl. split; [|by eexists].
  assert (nbytes < page_align_nbytes page nbytes) as Hlt.
  { pose proof (page_align_ge nbytes ltac:(lia)). assert (nbytes ≠ page_align_nbytes page nbytes); [|lia].
    intros Heq. apply Hdiv. rewrite Heq. unfold page_align_nbytes. apply Z.divide_factor_r. }
  by replace (nbytes <? page_align_nbytes page nbytes) with true by lia.
Qed.

Lemma product_nonneg s : Forall (Z.le 0) s → 0 <= product s.
Proof.
  unfold product. assert (∀ a, 0 <= a → Forall (Z.le 0) s → 0 <= foldl Z.mul a s) as Hgen; [|by apply Hgen].
  induction s as [|z s IH]; intros a Ha Hs; [done|]. apply Forall_cons in Hs as [Hz Hs]. simpl. apply IH; [nia|done].
Qed.

(** A view stays inside its buffer: the shape of a tensor view has no
    negative size and needs at most the bytes of the buffer, so with the
    mapping it lies on; the default shape covers the buffer exactly. *)
Theorem views_in_bounds es i b m dtype shape s :
  open_at (ipc_run es) i b m → as_tensor b dtype shape = Ok s →
  Forall (Z.le 0) s ∧ 0 <= product s * element_size dtype <= hb_nbytes b ∧
  product s * element_size dtype <= shm_size (sys_os (ipc_run es)) m ∧
  (shape = None → product s * element_size dtype = hb_nbytes b).
Proof.
  intros Hx Hv. assert (0 < hb_nbytes b <= shm_size (sys_os (ipc_run es)) m) as [Hpos Hsize].
  { pose proof (run_inv es) as []. destruct Hx as (Hb & Hc & Hs).
    destruct (iv_open0 i b Hb Hc) as (Hn & m0 & k & bytes & Hs0 & Hm & Hk & Hl & _).
    assert (m0 = m) as -> by congruence. unfold shm_size, shm_bytes. rewrite Hm. simpl. by rewrite Hk. }
  destruct Hx as (_ & Hc & Hs).
  assert (∀ n, 0 < n → as_numpy b n shape = Ok s → Forall (Z.le 0) s ∧ 0 <= product s * n <= hb_nbytes b ∧
            (shape = None → product s * n = hb_nbytes b)) as Hnp.
  { intros n Hn. unfold as_numpy. rewrite Hc, Hs. intros Hnp. apply bind_ok in Hnp as (s0 & Hs0 & Hnp).
    apply bind_ok in Hnp as ([] & Hfit & Hnp). apply bind_ok in Hnp as ([] & Hge & [= ->]).
    apply ensure_ok in Hfit, Hge. apply negb_true_iff, Z.ltb_ge in Hfit.
    assert (Forall (Z.le 0) s) as Hall.
    { apply Forall_forall. intros z Hz. rewrite forallb_forall in Hge. apply Z.leb_le, Hge. by apply list_elem_of_In. }
    split; [done|]. split; [split; [|done]; apply Z.mul_nonneg_nonneg; [by apply product_nonneg|lia]|].
    intros ->. apply bind_ok in Hs0 as ([] & Hmod & [= <-]). apply ensure_ok, Z.eqb_eq in Hmod.
    unfold product. simpl. rewrite Z.mul_1_l, Z.mul_comm. symmetry. by apply Z_div_exact_2; [lia|]. }
  assert (∃ n, 0 < n ∧ n = element_size dtype ∧ as_numpy b n shape = Ok s) as (n & Hn & <- & Hok).
  { unfold as_tensor in Hv. destruct dtype; simpl in Hv; try done; eexists; (split; [|split; [reflexivity|exact Hv]]); done. }
  destruct (Hnp n Hn Hok) as (? & ? & ?). split; [done|]. split; [done|]. split; [lia|done].
Qed.
End host.

(** ** CUDA buffers *)

(** A CUDA buffer gives back what it took: closing a created buffer frees
    its allocation and closing an attached one its mapping and nothing else;
    closing twice is closing once; and a creation whose second or third driver
    call fails raises after the allocation was made, which no buffer owns and
    nothing frees. *)
Theorem cuda_release nbytes device ptr memset_err handle_err raw (st : device_state) :
  0 < nbytes → dv_available st = true → ptr ≠ 0 → ptr ∉ dv_allocs st → ptr ∉ dv_opened st →
  (∀ b st1, cuda_create nbytes device 0 ptr 0 0 raw st = (st1, Ok b) →
     ∃ b', cuda_close true true b st1 = (b', st) ∧ ∀ r c, cuda_close r c b' st = (b', st)) ∧
  (∀ h len dev b st1, cuda_attach h len dev 0 ptr st = (st1, Ok b) →
     dv_allocs st1 = dv_allocs st ∧ ∃ b', cuda_close true true b st1 = (b', st)) ∧
  (memset_err ≠ 0 ∨ handle_err ≠ 0 →
     ∃ st1, cuda_create nbytes device 0 ptr memset_err handle_err raw st = (st1, Err RuntimeError) ∧
       dv_allocs st1 = {[ptr]} ∪ dv_allocs st).
Proof.
  intros Hn Hav Hptr Hna Hno. unfold cuda_create. replace (nbytes <=? 0) with false by lia. rewrite Hav. simpl.
  destruct st as [av al op]. simpl in *. subst av. split; [|split].
  - intros b st1 [= <- <-]. unfold cuda_close. simpl. rewrite (proj2 (Z.eqb_neq ptr 0) Hptr). simpl.
    exists (CudaIpcBuffer nbytes device device 0 raw CloseFree true). split; [|done]. do 2 f_equal. set_solver.
  - intros h len dev b st1. unfold cuda_attach. simpl. destruct (_ <=? 0); [done|]. destruct (negb _); [done|].
    intros [= <- <-]. split; [done|]. unfold cuda_close. simpl. rewrite (proj2 (Z.eqb_neq ptr 0) Hptr). simpl.
    exists (CudaIpcBuffer (ch_nbytes h) (default (ch_device h) dev) (ch_device h) 0 (ch_bytes h) CloseIpc true).
    do 2 f_equal. set_solver.
  - intros Herr. destruct (Z.eqb_spec memset_err 0); simpl; [|by eexists].
    destruct (Z.eqb_spec handle_err 0); simpl; [|by eexists]. by destruct Herr.
Qed.

(** ** Examples *)

Definition demo_create : ipc_event := ECreate 20 None "a" false 0.
Definition demo_open : list ipc_event :=
  [demo_create; ECreate 20 (Some "a"%string) "x" true 0; ECreate 30 (Some ""%string) "b" true 0;
   EAttach (HostShmHandle "b" 40) false 0; EAttach (HostShmHandle "b" 30) true 0; EWrite 1 2 [7; 8]].

Lemma id_ge n : 0 < n → n <= n.
Proof. lia. Qed.



(** A registration the driver refuses. *)
Definition demo_failed : os_state :=
  (host_create 16 id 50 (Some "c"%string) "x" true 7 (sys_os (ipc_run 16 id demo_open))).1.

Lemma demo_failed_run :
  host_create 16 id 50 (Some "c"%string) "x" true 7 (sys_os (ipc_run 16 id demo_open)) = (demo_failed, Err RuntimeError).
Proof.
  assert ((host_create 16 id 50 (Some "c"%string) "x" true 7 (sys_os (ipc_run 16 id demo_open))).2 = Err RuntimeError) as Hr
    by (vm_compute; reflexivity).
  revert Hr. unfold demo_failed. destruct (host_create _ _ _ _ _ _ _ _) as [st r]. simpl. by intros ->.
Qed.

Lemma host_failure_leaves_nothing_witness :
  let st := sys_os (ipc_run 16 id demo_open) in
  os_names demo_failed = os_names st ∧ os_maps demo_failed = os_maps st ∧ os_pinned demo_failed = os_pinned st ∧
  ∀ k, is_Some (os_blocks st !! k) → os_blocks demo_failed !! k = os_blocks st !! k.
Proof.
  refine (host_failure_leaves_nothing 16 id _ id_ge demo_open demo_failed RuntimeError _); [reflexivity|].
  left. exists 50, (Some "c"%string), "x"%string, true, 7. exact demo_failed_run.
Defined.

Definition demo_buffer : host_buffer := HostShmBuffer 20 "a" (Some 1%nat) Unlink false false false.

Lemma demo_open_at : open_at (ipc_run 16 id demo_open) 0 demo_buffer 1.
Proof. split; [vm_compute; reflexivity|]. by split. Qed.

Lemma handle_shares_memory_witness :
  ∃ st' b' m', host_attach 16 (HostShmHandle "a" 20) false 0 (sys_os (ipc_run 16 id demo_open)) = (st', Ok b') ∧
    hb_nbytes b' = 20 ∧
    ∀ es2, let j := List.length (sys_bufs (ipc_run 16 id demo_open)) in
      let s2 := ipc_run 16 id (demo_open ++ EAttach (HostShmHandle "a" 20) false 0 :: es2) in
      Forall (λ e, closes e ≠ Some 0%nat ∧ closes e ≠ Some j) es2 →
      open_at s2 0 demo_buffer 1 ∧ open_at s2 j b' m' ∧
      shm_bytes (sys_os s2) 1 = shm_bytes (sys_os s2) m' ∧ 20 <= shm_size (sys_os s2) 1 ∧
      ∀ off bytes, shm_bytes (sys_os (sys_step 16 id s2 (EWrite j off bytes))) 1 = list_inserts off bytes (shm_bytes (sys_os s2) 1) ∧
        shm_bytes (sys_os (sys_step 16 id s2 (EWrite 0 off bytes))) m' = list_inserts off bytes (shm_bytes (sys_os s2) m').
Proof.
  refine (handle_shares_memory 16 id _ id_ge demo_open 0 demo_buffer 1 (HostShmHandle "a" 20) demo_open_at eq_refl eq_refl).
  reflexivity.
Defined.

Definition demo_st1 : os_state := (host_create 16 id 20 None "a" false 0 (sys_os start)).1.

Lemma attach_registration_refused_witness :
  (host_attach 16 (HostShmHandle "a" 20) true 0 demo_st1).2 = Err ValueError ∧
  ∃ b', (host_attach 16 (HostShmHandle "a" 20) false 0 demo_st1).2 = Ok b'.
Proof.
  refine (attach_registration_refused 16 id _ 20 None "a" 0 0 (sys_os start) demo_st1
    (HostShmBuffer 20 "a" (Some 1%nat) Unlink false false false) (HostShmHandle "a" 20) _ _ _ _ eq_refl).
  - reflexivity.
  - reflexivity.
  - intros [q Hq]. lia.
  - intros m k. simpl. by rewrite lookup_empty.
  - reflexivity.
Defined.

Lemma views_in_bounds_witness :
  Forall (Z.le 0) [2; 5] ∧ 0 <= product [2; 5] * element_size bfloat16 <= 20 ∧
  product [2; 5] * element_size bfloat16 <= shm_size (sys_os (ipc_run 16 id demo_open)) 1 ∧
  (Some [2; 5] = None → product [2; 5] * element_size bfloat16 = 20).
Proof.
  refine (views_in_bounds 16 id _ id_ge demo_open 0 demo_buffer 1 bfloat16 (Some [2; 5]) [2; 5] demo_open_at eq_refl).
  reflexivity.
Defined.

Lemma cuda_release_witness :
  let st := Device true {[5]} {[6]} in
  (∀ b st1, cuda_create 100 0 0 9 0 0 [1; 2] st = (st1, Ok b) →
     ∃ b', cuda_close true true b st1 = (b', st) ∧ ∀ r c, cuda_close r c b' st = (b', st)) ∧
  (∀ h len dev b st1, cuda_attach h len dev 0 9 st = (st1, Ok b) →
     dv_allocs st1 = dv_allocs st ∧ ∃ b', cuda_close true true b st1 = (b', st)) ∧
  (2 ≠ 0 ∨ 0 ≠ 0 →
     ∃ st1, cuda_create 100 0 0 9 2 0 [1; 2] st = (st1, Err RuntimeError) ∧ dv_allocs st1 = {[9]} ∪ dv_allocs st).
Proof.
  apply (cuda_release 100 0 9 2 0 [1; 2] (Device true {[5]} {[6]})); [lia|reflexivity|lia|set_solver|set_solver].
Defined.
