(* ===== verification/VisualTokens.v ===== *)
(** * Visual-token generation ([models/xiaomi_u0/logits_processor_unis.py])

    The state machine that constrains which token may come next while images
    are generated: boundaries, the dimension header, rows, and the histories
    of the unconditional branches.  The values of the scores are floats of
    torch and are left out: a score mask is the set of tokens it leaves
    finite.  The tokenizer and the model are parameters. *)

From Stdlib Require Import Ascii.
From S2P Require Import Prelude PyStr.
Open Scope Z_scope.

Definition BOS : Z := 151849.
Definition EOS : Z := 151850.
Definition IMG : Z := 151851.
Definition BOI : Z := 151852.
Definition EOI : Z := 151853.
Definition EOL : Z := 151846.
Definition EOF : Z := 151847.
Definition BOV : Z := 151854.

(** The tokenizer, without special tokens; it may refuse a text. *)
Class Tokenizer := {
  tk_encode : string → res (list Z);
  tk_decode : list Z → res string;
}.

(** What a mask leaves: some tokens, the visual ones, or the others. *)
Inductive score_mask : Type :=
  | Only (tokens : list Z)
  | FromToken (lo : Z)
  | BelowToken (hi : Z).

Definition permits (a : score_mask) (t : Z) : bool :=
  match a with
  | Only ts => bool_decide (t ∈ ts)
  | FromToken lo => lo <=? t
  | BelowToken hi => t <? hi
  end.

(** [seq[-i]] *)
Definition from_end (l : list Z) (i : nat) : res Z :=
  of_option IndexError (if Nat.leb i (List.length l) then l !! (List.length l - i)%nat else None).

(** [find_last_token_index], [find_first_token_index] *)
Fixpoint find_last (seq : list Z) (token_id : Z) : Z :=
  match seq with
  | [] => -1
  | t :: seq' =>
      let i := find_last seq' token_id in
      if 0 <=? i then i + 1 else if t =? token_id then 0 else -1
  end.

Fixpoint find_first (seq : list Z) (token_id : Z) : Z :=
  match seq with
  | [] => -1
  | t :: seq' => if t =? token_id then 0 else let i := find_first seq' token_id in if 0 <=? i then i + 1 else -1
  end.

(** [s.split("*")] into exactly two parts, or [ValueError]. *)
Definition split_star (s : string) : res (string * string) :=
  let '(h, found, w) := partition "*" s in
  if found && negb (sexists (Ascii.eqb "*"%char) w) then Ok (h, w) else Err ValueError.

Section processor.
Context `{Tokenizer} {C : Type} (model : list Z → list Z → bool → option C → option C).

(** The history of an unconditional branch. *)
Record context : Type := Context {
  cx_ids : list Z;
  cx_mask : list Z;
  cx_default_ids : list Z;
  cx_default_mask : list Z;
  cx_first_pass : bool;
  cx_cache : option C;
}.

(** One forward of the model: the ids, the attention mask, [use_cache] and the
    cache it is given. *)
Record model_call : Type := ModelCall { mc_ids : list Z; mc_mask : list Z; mc_use_cache : bool; mc_cache : option C }.

Record processor : Type := Processor {
  lp_type : string;
  lp_use_cache : bool;
  lp_force_same : bool;
  lp_decay : string;
  lp_max_digits : Z;
  lp_digits : list Z;
  lp_star : Z;
  lp_unc : context;
  lp_full : context;
  lp_calls : list model_call;
  lp_first_in_image : bool;
  lp_in_image : bool;
  lp_in_visual : bool;
  lp_image_nums : Z;
  lp_height : option Z;
  lp_width : option Z;
  lp_hw_tokens : option (list Z);
  lp_text_segment : Z;
}.

Definition set_contexts (p : processor) (unc full : context) (calls : list model_call) : processor :=
  Processor (lp_type p) (lp_use_cache p) (lp_force_same p) (lp_decay p) (lp_max_digits p) (lp_digits p) (lp_star p)
    unc full calls (lp_first_in_image p) (lp_in_image p) (lp_in_visual p) (lp_image_nums p) (lp_height p) (lp_width p)
    (lp_hw_tokens p) (lp_text_segment p).

Definition set_flags (p : processor) (first in_image in_visual : bool) (nums : Z) : processor :=
  Processor (lp_type p) (lp_use_cache p) (lp_force_same p) (lp_decay p) (lp_max_digits p) (lp_digits p) (lp_star p)
    (lp_unc p) (lp_full p) (lp_calls p) first in_image in_visual nums (lp_height p) (lp_width p)
    (lp_hw_tokens p) (lp_text_segment p).

Definition set_size (p : processor) (height width : option Z) (hw : option (list Z)) : processor :=
  Processor (lp_type p) (lp_use_cache p) (lp_force_same p) (lp_decay p) (lp_max_digits p) (lp_digits p) (lp_star p)
    (lp_unc p) (lp_full p) (lp_calls p) (lp_first_in_image p) (lp_in_image p) (lp_in_visual p) (lp_image_nums p)
    height width hw (lp_text_segment p).

Definition next_segment (p : processor) : processor :=
  Processor (lp_type p) (lp_use_cache p) (lp_force_same p) (lp_decay p) (lp_max_digits p) (lp_digits p) (lp_star p)
    (lp_unc p) (lp_full p) (lp_calls p) (lp_first_in_image p) (lp_in_image p) (lp_in_visual p) (lp_image_nums p)
    (lp_height p) (lp_width p) (lp_hw_tokens p) (lp_text_segment p + 1).

(** ** The unconditional branches *)

(** [update_unconditional_context] on one history. *)
Definition update_context (input_ids : list Z) (c : context) : context :=
  let newest := match last input_ids with Some t => [t] | None => [] end in
  Context (cx_ids c ++ newest) (cx_mask c ++ ((λ _, 1) <$> newest)) (cx_default_ids c) (cx_default_mask c)
    (cx_first_pass c) (cx_cache c).

(** The ids a forward is given, and the history with its first pass noted. *)
Definition forward_ids (use_cache : bool) (c : context) : list Z * context :=
  if use_cache && negb (cx_first_pass c)
  then (match last (cx_ids c) with Some t => [t] | None => [] end, c)
  else (cx_ids c, Context (cx_ids c) (cx_mask c) (cx_default_ids c) (cx_default_mask c) false (cx_cache c)).

Definition call_of (use_cache : bool) (ids : list Z) (c : context) : model_call :=
  ModelCall ids (cx_mask c) use_cache (cx_cache c).

Definition store_cache (use_cache : bool) (out : option C) (c : context) : context :=
  if use_cache
  then Context (cx_ids c) (cx_mask c) (cx_default_ids c) (cx_default_mask c) (cx_first_pass c) out
  else c.

(** [get_unconditional_logits].  Both histories store the cache of [out], the
    output of the first forward. *)
Definition get_unconditional_logits (input_ids : list Z) (p : processor) : processor :=
  let unc := update_context input_ids (lp_unc p) in
  let '(ids, unc) := forward_ids (lp_use_cache p) unc in
  let call := call_of (lp_use_cache p) ids unc in
  let out := model ids (cx_mask unc) (lp_use_cache p) (cx_cache unc) in
  let p := set_contexts p (store_cache (lp_use_cache p) out unc) (lp_full p) (lp_calls p ++ [call]) in
  if String.eqb (lp_type p) "no_text_img_cfg" then
    let full := update_context input_ids (lp_full p) in
    let '(ids, full) := forward_ids (lp_use_cache p) full in
    set_contexts p (lp_unc p) (store_cache (lp_use_cache p) out full)
      (lp_calls p ++ [call_of (lp_use_cache p) ids full])
  else p.

(** [set_unconditional_context] *)
Definition set_unconditional_context (p : processor) : processor * res unit :=
  let p := set_flags p (lp_first_in_image p) true (lp_in_visual p) (lp_image_nums p) in
  if String.eqb (lp_type p) "no_text" || String.eqb (lp_type p) "uncondition_tokens" then (p, Ok ())
  else if String.eqb (lp_type p) "no_text_img_cfg" then
    let c := lp_full p in
    (set_contexts p (lp_unc p)
       (Context (cx_default_ids c) (cx_default_mask c) (cx_default_ids c) (cx_default_mask c) true None) (lp_calls p), Ok ())
  else (p, Err ValueError).

(** [exit_image] *)
Definition exit_image (input_ids : list Z) (p : processor) : processor :=
  get_unconditional_logits input_ids (set_flags p (lp_first_in_image p) false false (lp_image_nums p)).

(** What [current_guidance_scale] and [apply_cfg] raise. *)
Definition guidance_error (p : processor) : res unit :=
  _ ← ensure (bool_decide (lp_decay p ∈ [""; "none"; "linear"; "cosine"]%string)) ValueError;
  ensure (bool_decide (lp_type p ∈ ["no_text"; "no_text_img_cfg"]%string)) NotImplementedError.

(** ** Dimension headers *)

(** [parse_hw]; [hw_tokens] is kept even when the text does not parse. *)
Definition parse_hw (input_ids : list Z) (p : processor) : processor * res unit :=
  match lp_height p, lp_width p, lp_force_same p with
  | Some _, Some _, true => (p, Ok ())
  | _, _, _ =>
      let img := find_last input_ids IMG in
      let boi := find_last input_ids BOI in
      if (img <? 0) || (boi <? 0) then (p, Err IndexError)
      else
        let hw := take (Z.to_nat (img - (boi + 1))) (drop (Z.to_nat (boi + 1)) input_ids) in
        let p := set_size p (lp_height p) (lp_width p) (Some hw) in
        match text ← tk_decode hw; split_star text with
        | Err e => (p, Err e)
        | Ok (h, w) =>
            match py_int_of_string h with
            | None => (p, Err ValueError)
            | Some height =>
                let p := set_size p (Some height) (lp_width p) (lp_hw_tokens p) in
                match py_int_of_string w with
                | None => (p, Err ValueError)
                | Some width => (set_size p (lp_height p) (Some width) (lp_hw_tokens p), Ok ())
                end
            end
        end
  end.

Definition star_position (l : list Z) (t : Z) : nat := Z.to_nat (find_first l t).

(** [allowed_auto_hw_tokens] *)
Definition allowed_auto_hw_tokens (input_ids : list Z) (p : processor) : list Z :=
  let boi_idx := find_last input_ids BOI in
  let hw_tokens := drop (Z.to_nat (boi_idx + 1)) input_ids in
  let nonzero := drop 1 (lp_digits p) in
  if bool_decide (lp_star p ∉ hw_tokens) then
    let height_digits := Z.of_nat (List.length hw_tokens) in
    if height_digits =? 0 then nonzero
    else if height_digits <? lp_max_digits p then lp_digits p ++ [lp_star p]
    else [lp_star p]
  else
    let star_idx := star_position hw_tokens (lp_star p) in
    let width_digits := Z.of_nat (List.length hw_tokens) - Z.of_nat star_idx - 1 in
    if width_digits =? 0 then nonzero
    else if width_digits <? lp_max_digits p then lp_digits p ++ [IMG]
    else [IMG].

(** The token of a sized header after [hw_idx - 1] of its tokens. *)
Definition forced_token (hw_tokens : list Z) (hw_idx : Z) : score_mask :=
  match if hw_idx <=? Z.of_nat (List.length hw_tokens) then hw_tokens !! Z.to_nat (hw_idx - 1) else None with
  | Some t => Only [t]
  | None => Only [IMG]
  end.

(** ** The processor *)

Definition in_image_logits_processor (input_ids : list Z) (p : processor) : processor * res score_mask :=
  let p := get_unconditional_logits input_ids p in
  let n := Z.of_nat (List.length input_ids) in
  let visual p := (p, _ ← guidance_error p; Ok (FromToken BOV)) in
  if lp_in_visual p then
    let vis_idx := n - find_last input_ids IMG in
    match lp_height p, lp_width p with
    | Some height, Some width =>
        if vis_idx =? height * (width + 1) then (p, Ok (Only [EOI]))
        else if width + 1 =? 0 then (p, Err ZeroDivisionError)
        else if vis_idx mod (width + 1) =? 0 then (p, Ok (Only [EOL]))
        else visual p
    | _, _ => (p, Err TypeError)
    end
  else
    match from_end input_ids 1 with
    | Err e => (p, Err e)
    | Ok newest =>
        if newest =? IMG then
          let p := set_flags p (lp_first_in_image p) (lp_in_image p) true (lp_image_nums p + 1) in
          if lp_first_in_image p || negb (lp_force_same p) then
            let '(p, r) := match lp_height p, lp_width p with
                           | Some _, Some _ => (p, Ok ())
                           | _, _ => parse_hw input_ids p
                           end in
            match r with
            | Err e => (p, Err e)
            | Ok _ => visual (set_flags p false (lp_in_image p) (lp_in_visual p) (lp_image_nums p))
            end
          else visual p
        else
          let hw_idx := n - find_last input_ids BOI in
          match lp_height p, lp_width p with
          | Some height, Some width =>
              (p, hw_tokens ← tk_encode (z_to_string height +:+ "*" +:+ z_to_string width);
                  Ok (forced_token hw_tokens hw_idx))
          | _, _ =>
              if lp_first_in_image p || negb (lp_force_same p)
              then (p, Ok (Only (allowed_auto_hw_tokens input_ids p)))
              else match lp_hw_tokens p with
                   | None => (p, Err TypeError)
                   | Some hw => (p, Ok (forced_token hw hw_idx))
                   end
          end
    end.

Definition in_text_logits_processor (p : processor) : processor * res score_mask := (p, Ok (BelowToken BOV)).

(** [__call__] *)
Definition call (input_ids : list Z) (p : processor) : processor * res score_mask :=
  match from_end input_ids 1 with
  | Err e => (p, Err e)
  | Ok newest =>
      let '(p, r) := if newest =? BOI then set_unconditional_context p else (p, Ok ()) in
      match r with
      | Err e => (p, Err e)
      | Ok _ =>
          let p := if newest =? EOI then exit_image input_ids p else p in
          match (if newest =? BOI then Ok false
                 else before ← from_end input_ids 2; Ok (before =? EOI)) with
          | Err e => (p, Err e)
          | Ok after_image =>
              let p := if after_image then next_segment p else p in
              if lp_in_image p then in_image_logits_processor input_ids p else in_text_logits_processor p
          end
      end
  end.

(** The constructor. *)
Definition processor_init (type : string) (use_cache force_same : bool) (decay : string) (max_hw_digits : Z)
    (target_height target_width : option Z) (unc_ids : list Z) (unc_mask : option (list Z))
    (full_ids full_mask : option (list Z)) : res processor :=
  let ones := (λ _, 1) <$> unc_ids in
  let first text := tokens ← tk_encode text; of_option IndexError (head tokens) in
  digits ← rmap (λ d, first (z_to_string (Z.of_nat d))) (seq 0 10);
  star ← first "*"%string;
  let unc := Context unc_ids (default ones unc_mask) unc_ids (default ones unc_mask) true None in
  let full := Context (default unc_ids full_ids) (default ones unc_mask) (default unc_ids full_ids)
                (match full_mask with Some m => m | None => default ones unc_mask end) true None in
  let p := Processor type use_cache force_same (lower decay) (Z.max 1 max_hw_digits) digits star unc full []
             true false false 0 target_height target_width None 0 in
  if force_same && bool_decide (IMG ∈ unc_ids) then
    let '(p, r) := parse_hw unc_ids p in
    _ ← r; Ok (set_flags p false (lp_in_image p) (lp_in_visual p) (lp_image_nums p))
  else Ok p.
End processor.

(** ** Generation *)

Section generation.
Context `{Tokenizer} {C : Type} (model : list Z → list Z → bool → option C → option C).

(** Sampling picks a token the mask leaves; [n] steps of it. *)
Fixpoint generate (pick : list Z → score_mask → Z) (n : nat) (ids : list Z) (p : processor (C:=C))
    : processor (C:=C) * list Z * res unit :=
  match n with
  | O => (p, ids, Ok ())
  | S n' =>
      match call model ids p with
      | (p', Err e) => (p', ids, Err e)
      | (p', Ok a) => generate pick n' (ids ++ [pick ids a]) p'
      end
  end.
End generation.
