(* ===== verification/VisualProps.v ===== *)
(** * Properties of visual-token generation

    Every image that is started is finished, with a well-formed header and
    body, whatever the sampler picks; and later images have the
    size of the first. *)

From Stdlib Require Import Ascii DecimalString.
From S2P Require Import Prelude PyStr VisualTokens.
Open Scope Z_scope.

(** ** Searching *)

Lemma find_last_range l t : -1 <= find_last l t < Z.of_nat (List.length l).
Proof.
  induction l as [|x l IH]; simpl; [lia|]. destruct (Z.leb_spec 0 (find_last l t)); [lia|].
  destruct (x =? t); lia.
Qed.

Lemma find_last_absent l t : t ∉ l → find_last l t = -1.
Proof.
  induction l as [|x l IH]; [done|]. intros [Hx Hl]%not_elem_of_cons. simpl. rewrite (IH Hl). simpl.
  by destruct (Z.eqb_spec x t).
Qed.

Lemma find_last_app l k t : t ∉ k → find_last (l ++ t :: k) t = Z.of_nat (List.length l).
Proof.
  intros Hk. induction l as [|x l IH]; simpl.
  - rewrite (find_last_absent _ _ Hk). simpl. by rewrite Z.eqb_refl.
  - rewrite IH. destruct (Z.leb_spec 0 (Z.of_nat (List.length l))); lia.
Qed.

Lemma find_last_start l t : t ∉ l → find_last (t :: l) t = 0.
Proof. intros Hl. by apply (find_last_app [] l t). Qed.

Lemma find_first_app l k t : t ∉ l → find_first (l ++ t :: k) t = Z.of_nat (List.length l).
Proof.
  induction l as [|x l IH]; simpl; [by rewrite Z.eqb_refl|]. intros [Hx Hl]%not_elem_of_cons.
  destruct (Z.eqb_spec x t); [done|]. rewrite (IH Hl). destruct (Z.leb_spec 0 (Z.of_nat (List.length l))); lia.
Qed.

Lemma from_end_snoc l t : from_end (l ++ [t]) 1 = Ok t.
Proof.
  unfold from_end. rewrite length_app, (proj2 (Nat.leb_le _ _)) by (simpl; lia). cbn [List.length].
  replace (List.length l + 1 - 1)%nat with (List.length l) by lia. by rewrite list_lookup_middle.
Qed.

Lemma from_end_second l s t : from_end (l ++ [s; t]) 2 = Ok s.
Proof.
  unfold from_end. rewrite length_app, (proj2 (Nat.leb_le _ _)) by (simpl; lia). cbn [List.length].
  replace (List.length l + 2 - 2)%nat with (List.length l) by lia. by rewrite list_lookup_middle.
Qed.

(** ** Decimal text *)

Lemma digits_to_uint s : sforall is_digit s = true → ∃ d, NilEmpty.uint_of_string s = Some d.
Proof.
  induction s as [|c s IH]; [by eexists|]. simpl. intros [Hc Hs]%andb_prop. destruct (IH Hs) as [d ->]. simpl.
  unfold is_digit in Hc. destruct c as [[] [] [] [] [] [] [] []]; try done; by eexists.
Qed.

(** Digits without a leading zero. *)
Definition numeral (s : string) : Prop :=
  sforall is_digit s = true ∧ match s with String c _ => c ≠ "0"%char | EmptyString => False end.

Lemma numeral_value s : numeral s → ∃ z, py_int_of_string s = Some z ∧ 1 <= z.
Proof.
  intros [Hd Hhd]. destruct s as [|c s]; [done|]. unfold py_int_of_string.
  rewrite strip_nonspace by by eapply sforall_impl; [apply digit_nonspace|].
  destruct (digits_head _ _ Hd) as [-> ->]. rewrite (drop_underscores_digits _ _ Hd). simpl.
  unfold digits_to_Z, NilZero.uint_of_string. simpl in Hd. apply andb_prop in Hd as [Hc Hs].
  destruct (digits_to_uint s Hs) as [d Hd]. simpl. rewrite Hd.
  unfold is_digit in Hc. destruct c as [[] [] [] [] [] [] [] []]; try done; simpl; eexists; (split; [reflexivity|]);
    unfold Z.of_uint; simpl; lia.
Qed.

Lemma split_star_spec h w :
  sforall is_digit h = true → sforall is_digit w = true → split_star (h +:+ "*" +:+ w) = Ok (h, w).
Proof.
  intros Hh Hw. unfold split_star. assert (partition "*" (h +:+ "*" +:+ w) = (h, true, w)) as ->.
  { induction h as [|c h IH]; [done|]. simpl in *. apply andb_prop in Hh as [Hc Hh].
    destruct (Ascii.eqb_spec c "*") as [->|_]; [done|]. by rewrite (IH Hh). }
  simpl. assert (sexists (Ascii.eqb "*"%char) w = false) as ->; [|done].
  clear Hh. induction w as [|c w IH]; [done|]. cbn [sexists sforall] in *. apply andb_prop in Hw as [Hc Hw].
  assert (Ascii.eqb "*"%char c = false) as ->; [|by apply IH].
  unfold is_digit in Hc. by destruct c as [[] [] [] [] [] [] [] []].
Qed.

(** ** What a call changes *)

Section generation.
Context `{Tokenizer} {C : Type} (model : list Z → list Z → bool → option C → option C).

(** The same settings and image state, up to the histories and the count of
    text segments. *)
Record steady (p q : processor (C:=C)) : Prop := {
  sm_type : lp_type q = lp_type p;
  sm_force : lp_force_same q = lp_force_same p;
  sm_decay : lp_decay q = lp_decay p;
  sm_max : lp_max_digits q = lp_max_digits p;
  sm_digits : lp_digits q = lp_digits p;
  sm_star : lp_star q = lp_star p;
  sm_first : lp_first_in_image q = lp_first_in_image p;
  sm_image : lp_in_image q = lp_in_image p;
  sm_visual : lp_in_visual q = lp_in_visual p;
  sm_height : lp_height q = lp_height p;
  sm_width : lp_width q = lp_width p;
  sm_hw : lp_hw_tokens q = lp_hw_tokens p;
}.

Lemma same_refl p : steady p p.
Proof. by split. Qed.

Lemma same_trans p q r : steady p q → steady q r → steady p r.
Proof. intros [] []. split; congruence. Qed.

Lemma same_next_segment p : steady p (next_segment p).
Proof. by split. Qed.

Lemma same_uncond ids p : steady p (get_unconditional_logits model ids p).
Proof.
  unfold get_unconditional_logits. destruct (forward_ids _ _) as [i u]. destruct (String.eqb _ _); [|by split].
  destruct (forward_ids _ _) as [i2 u2]. by split.
Qed.

(** A supported configuration. *)
Definition supported (p : processor (C:=C)) : Prop :=
  (lp_type p = "no_text"%string ∨ lp_type p = "no_text_img_cfg"%string) ∧
  lp_decay p ∈ [""; "none"; "linear"; "cosine"]%string.

Lemma supported_ok p : supported p → guidance_error p = Ok ().
Proof.
  intros [Ht Hd]. unfold guidance_error.
  rewrite (bool_decide_eq_true_2 _ Hd). simpl. destruct Ht as [-> | ->]; reflexivity.
Qed.

(** A token at which an image neither starts nor ends. *)
Definition inner (t : Z) : Prop := t ≠ BOI ∧ t ≠ EOI.

(** A call inside an image. *)
Lemma call_inner pre s t p :
  lp_in_image p = true → inner t →
  ∃ q, steady p q ∧ call model (pre ++ [s; t]) p = in_image_logits_processor model (pre ++ [s; t]) q.
Proof.
  intros Hin [Hb He]. unfold call. replace (pre ++ [s; t]) with ((pre ++ [s]) ++ [t]) by by rewrite <- app_assoc.
  rewrite from_end_snoc. replace ((pre ++ [s]) ++ [t]) with (pre ++ [s; t]) by by rewrite <- app_assoc.
  rewrite (proj2 (Z.eqb_neq t BOI) Hb), (proj2 (Z.eqb_neq t EOI) He), from_end_second. simpl.
  destruct (s =? EOI).
  - exists (next_segment p). split; [apply same_next_segment|]. simpl. by rewrite Hin.
  - exists p. split; [apply same_refl|]. by rewrite Hin.
Qed.

(** A call right after the token that starts an image. *)
Lemma call_start pre p :
  supported p → ∃ q, steady (set_flags p (lp_first_in_image p) true (lp_in_visual p) (lp_image_nums p)) q ∧
    call model (pre ++ [BOI]) p = in_image_logits_processor model (pre ++ [BOI]) q.
Proof.
  intros [Ht _]. unfold call. rewrite from_end_snoc. simpl. unfold set_unconditional_context.
  destruct Ht as [Ht|Ht]; simpl; rewrite Ht; simpl; eexists; (split; [|reflexivity]); by split.
Qed.

(** ** The header *)

Definition header_text (hs ws : string) : string := hs +:+ "*" +:+ ws.

(** The tokens of a text, one per character. *)
Context (tok : ascii → Z).
Fixpoint toks (s : string) : list Z :=
  match s with EmptyString => [] | String c s' => tok c :: toks s' end.

Lemma toks_app s t : toks (s +:+ t) = toks s ++ toks t.
Proof. induction s as [|c s IH]; [done|]. simpl. by rewrite IH. Qed.

Lemma toks_length s : List.length (toks s) = String.length s.
Proof. induction s as [|c s IH]; [done|]. simpl. by rewrite IH. Qed.

Definition digit_chars : list ascii := ["0"; "1"; "2"; "3"; "4"; "5"; "6"; "7"; "8"; "9"]%char.

Lemma is_digit_chars c : is_digit c = true ↔ c ∈ digit_chars.
Proof.
  split; [|by intros Hc; unfold digit_chars in Hc; repeat (apply elem_of_cons in Hc as [->|Hc]; [done|]); apply elem_of_nil in Hc].
  intros Hc. apply (bool_decide_unpack _). revert Hc. by destruct c as [[] [] [] [] [] [] [] []].
Qed.

(** A tokenizer with one token for each digit and the star, none of them a
    boundary token, whose decoding is the inverse. *)
Record char_tokens (p : processor (C:=C)) : Prop := {
  ct_digits : lp_digits p = tok <$> digit_chars;
  ct_star : lp_star p = tok "*"%char;
  ct_inj c d : (is_digit c = true ∨ c = "*"%char) → (is_digit d = true ∨ d = "*"%char) → tok c = tok d → c = d;
  ct_inner c : is_digit c = true ∨ c = "*"%char → inner (tok c) ∧ tok c ≠ IMG;
  ct_decode hs ws : sforall is_digit hs = true → sforall is_digit ws = true →
    tk_decode (toks (header_text hs ws)) = Ok (header_text hs ws);
}.

Lemma toks_inner p s t : char_tokens p → sforall is_digit s = true → t ∈ toks s → inner t ∧ t ≠ IMG ∧ t ≠ tok "*"%char.
Proof.
  intros [] . induction s as [|c s IH]; simpl; [by intros _ ?%elem_of_nil|].
  intros [Hc Hs]%andb_prop [->|Hin]%elem_of_cons; [|by apply IH].
  destruct (ct_inner0 c); [by left|]. split; [done|]. split; [done|]. intros Heq.
  apply ct_inj0 in Heq; [|by left|by right]. by subst.
Qed.

(** The processor in an image that has just started. *)
Definition started (p : processor (C:=C)) : processor (C:=C) :=
  set_flags p (lp_first_in_image p) true (lp_in_visual p) (lp_image_nums p).

(** What the header may continue with after some of its tokens. *)
Definition header_mask (p : processor (C:=C)) (hw : list Z) : res score_mask :=
  let idx := Z.of_nat (List.length hw) + 1 in
  match lp_height p, lp_width p with
  | Some h, Some w =>
      hw_tokens ← tk_encode (z_to_string h +:+ "*" +:+ z_to_string w); Ok (forced_token hw_tokens idx)
  | _, _ =>
      if lp_first_in_image p || negb (lp_force_same p) then Ok (Only (allowed_auto_hw_tokens (BOI :: hw) p))
      else match lp_hw_tokens p with
           | None => Err TypeError
           | Some known => Ok (forced_token known idx)
           end
  end.

Definition plain (hw : list Z) : Prop := ∀ t, t ∈ hw → inner t ∧ t ≠ IMG.

Lemma plain_BOI hw : plain hw → BOI ∉ hw.
Proof. intros Hp Hin. destruct (Hp _ Hin) as [[? _] _]. done. Qed.

Lemma auto_prefix pre hw (p : processor (C:=C)) :
  plain hw → allowed_auto_hw_tokens (pre ++ BOI :: hw) p = allowed_auto_hw_tokens (BOI :: hw) p.
Proof.
  intros Hp. unfold allowed_auto_hw_tokens.
  rewrite (find_last_app pre hw BOI) by by apply plain_BOI.
  rewrite (find_last_start hw BOI (plain_BOI _ Hp)).
  replace (Z.to_nat (Z.of_nat (List.length pre) + 1)) with (List.length pre + 1)%nat by lia.
  rewrite drop_app_add'; done.
Qed.

Lemma header_mask_same p q hw : steady (started p) q → header_mask q hw = header_mask p hw.
Proof.
  intros []. unfold header_mask, allowed_auto_hw_tokens. simpl in *. by rewrite sm_height0, sm_width0, sm_first0, sm_force0, sm_hw0, sm_star0, sm_digits0, sm_max0.
Qed.

Lemma header_processor pre hw q :
  plain hw → lp_in_visual q = false →
  ∃ r, steady q r ∧ in_image_logits_processor model (pre ++ BOI :: hw) q = (r, header_mask q hw).
Proof.
  intros Hp Hv. unfold in_image_logits_processor. pose proof (same_uncond (pre ++ BOI :: hw) q) as Hs.
  set (r := get_unconditional_logits model _ q) in *. pose proof Hs as []. rewrite sm_visual0, Hv.
  assert (∃ t, from_end (pre ++ BOI :: hw) 1 = Ok t ∧ t ≠ IMG) as (t & -> & Ht).
  { destruct hw as [|x hw' _] using rev_ind; [exists BOI; split; [apply from_end_snoc|done]|].
    exists x. split; [|apply Hp; set_solver]. rewrite app_comm_cons, app_assoc. apply from_end_snoc. }
  rewrite (proj2 (Z.eqb_neq t IMG) Ht). exists r. split; [done|].
  rewrite find_last_app by by apply plain_BOI. rewrite length_app. simpl.
  replace (Z.of_nat (List.length pre + S (List.length hw)) - Z.of_nat (List.length pre))
    with (Z.of_nat (List.length hw) + 1) by lia.
  unfold header_mask. rewrite (auto_prefix pre hw r Hp). unfold allowed_auto_hw_tokens.
  rewrite sm_height0, sm_width0, sm_first0, sm_force0, sm_hw0, sm_star0, sm_digits0, sm_max0.
  destruct (lp_height q), (lp_width q); try done; destruct (_ || _); try done; by destruct (lp_hw_tokens q).
Qed.

Lemma header_call pre hw p0 p :
  supported p0 → lp_in_visual p0 = false → plain hw →
  (hw = [] ∧ p = p0 ∨ steady (started p0) p) →
  ∃ q, steady (started p0) q ∧ call model (pre ++ BOI :: hw) p = (q, header_mask p0 hw).
Proof.
  intros Hsup Hv Hp Hstart.
  assert (∃ q0, steady (started p0) q0 ∧ call model (pre ++ BOI :: hw) p = in_image_logits_processor model (pre ++ BOI :: hw) q0)
    as (q0 & Hq0 & ->).
  { destruct hw as [|t hw' _] using rev_ind.
    - destruct Hstart as [[_ ->]|Hs]; [by apply call_start|].
      destruct (call_start pre p) as (q0 & Hq0 & Hc).
      { destruct Hs. destruct Hsup. split; [by rewrite sm_type0|by rewrite sm_decay0]. }
      exists q0. split; [|done]. eapply same_trans; [exact Hs|]. eapply same_trans; [|exact Hq0].
      split; simpl; try done. symmetry. apply (sm_image _ _ Hs).
    - destruct Hstart as [[Hnil _]|Hs]; [by destruct hw'|].
      destruct (Hp t) as [Ht _]; [set_solver|].
      assert (∃ pre' s, pre ++ BOI :: hw' ++ [t] = pre' ++ [s; t]) as (pre' & s & ->).
      { destruct hw' as [|s hw'' _] using rev_ind; [exists pre, BOI; done|].
        exists (pre ++ BOI :: hw''), s. by rewrite <- (app_assoc hw'' [s] [t]), <- (app_assoc pre). }
      destruct (call_inner pre' s t p) as (q0 & Hq0 & Hc); [by apply (sm_image _ _ Hs)|done|].
      exists q0. split; [|done]. by eapply same_trans. }
  destruct (header_processor pre hw q0 Hp) as (r & Hr & ->); [by rewrite (sm_visual _ _ Hq0)|].
  exists r. split; [by eapply same_trans|]. by rewrite (header_mask_same p0 q0).
Qed.

(** ** Running a phase *)

(** A sampler that picks what the mask leaves. *)
Definition legal (pick : list Z → score_mask → Z) : Prop :=
  ∀ ids a, (∃ t, permits a t = true) → permits a (pick ids a) = true.

Lemma generate_app pick n m ids (p : processor (C:=C)) :
  generate model pick (n + m) ids p =
  match generate model pick n ids p with
  | (p', ids', Ok _) => generate model pick m ids' p'
  | failed => failed
  end.
Proof.
  revert ids p; induction n as [|n IH]; intros ids p; [done|]. simpl.
  destruct (call model ids p) as [p' [a|e]]; [apply IH|done].
Qed.

(** A phase: a state predicate over the tokens emitted so far, each of which
    is extended by any legal pick until a last token ends it. *)
Lemma run_phase pick base (St : list Z → processor (C:=C) → Prop) (Q : list Z → processor (C:=C) → Prop) (fin : Z) (B : nat) :
  legal pick →
  (∀ l p, St l p → (List.length l ≤ B)%nat ∧
     ∃ q a, call model (base ++ l) p = (q, Ok a) ∧ (∃ t, permits a t = true) ∧
       ∀ t, permits a t = true → (t = fin ∧ Q l q) ∨ St (l ++ [t]) q) →
  ∀ l p, St l p →
    ∃ n l' q, generate model pick (S n) (base ++ l) p = (q, base ++ (l ++ l') ++ [fin], Ok ()) ∧
      Q (l ++ l') q ∧ n = List.length l'.
Proof.
  intros Hpick Hstep. assert (∀ m l p, (B - List.length l < m)%nat → St l p →
    ∃ n l' q, generate model pick (S n) (base ++ l) p = (q, base ++ (l ++ l') ++ [fin], Ok ()) ∧
      Q (l ++ l') q ∧ n = List.length l') as Hgen.
  { induction m as [|m IH]; intros l p Hm Hst; [lia|].
    destruct (Hstep l p Hst) as (Hlen & q & a & Hcall & Hex & Hnext).
    pose proof (Hpick (base ++ l) a Hex) as Hp. destruct (Hnext _ Hp) as [[Hfin HQ]|Hst'].
    - exists 0%nat, [], q. simpl. rewrite Hcall, Hfin, app_nil_r, <- app_assoc. done.
    - destruct (Hstep _ _ Hst') as [Hlen' _]. rewrite length_app in Hlen'. simpl in Hlen'.
      destruct (IH (l ++ [pick (base ++ l) a]) q) as (n & l' & q' & Hg & HQ & Hn); [rewrite length_app; simpl; lia|exact Hst'|].
      exists (S n), (pick (base ++ l) a :: l'), q'.
      change (generate model pick (S (S n)) (base ++ l) p) with
        (match call model (base ++ l) p with
         | (p', Err e) => (p', base ++ l, Err e)
         | (p', Ok a) => generate model pick (S n) ((base ++ l) ++ [pick (base ++ l) a]) p' end).
      assert ((l ++ [pick (base ++ l) a]) ++ l' = l ++ pick (base ++ l) a :: l') as Heq by by rewrite <- app_assoc.
      rewrite Heq in Hg, HQ. rewrite Hcall, <- app_assoc, Hg. split; [done|]. split; [done|]. simpl. by rewrite Hn. }
  intros l p. by apply (Hgen (S (B - List.length l))); lia.
Qed.

(** ** The body of an image *)

(** The mask after [k] tokens of the body of an [h] by [w] image. *)
Definition body_mask (h w : Z) (k : Z) : score_mask :=
  if k + 1 =? h * (w + 1) then Only [EOI]
  else if (k + 1) mod (w + 1) =? 0 then Only [EOL] else FromToken BOV.

(** A body so far: at the end of each row but the last an end-of-line token,
    visual tokens elsewhere. *)
Definition body_part (h w : Z) (body : list Z) : Prop :=
  Z.of_nat (List.length body) <= h * (w + 1) - 1 ∧
  ∀ k t, body !! k = Some t →
    if (Z.of_nat k + 1) mod (w + 1) =? 0 then t = EOL else BOV <= t.

Definition body_ok (h w : Z) (body : list Z) : Prop :=
  Z.of_nat (List.length body) = h * (w + 1) - 1 ∧ body_part h w body.

Lemma body_plain h w body t : body_part h w body → t ∈ body → inner t ∧ t ≠ IMG.
Proof.
  intros [_ Hb] [k Hk]%list_elem_of_lookup. specialize (Hb k t Hk). unfold inner, EOL, BOV, BOI, EOI, IMG in *.
  destruct (_ =? 0); lia.
Qed.

Lemma body_next h w body t :
  1 <= h → 1 <= w → body_part h w body → permits (body_mask h w (Z.of_nat (List.length body))) t = true →
  (t = EOI ∧ body_ok h w body) ∨ body_part h w (body ++ [t]).
Proof.
  intros Hh Hw Hb. pose proof Hb as [Hl Hall]. unfold body_mask.
  destruct (Z.eqb_spec (Z.of_nat (List.length body) + 1) (h * (w + 1))) as [He|Hne].
  { simpl. intros ->%bool_decide_eq_true%list_elem_of_singleton. left. split; [done|]. split; [lia|done]. }
  intros Ht. right. split; [rewrite length_app; simpl; lia|]. intros k t' Hk.
  apply lookup_snoc_Some in Hk as [[_ Hk]|[-> <-]]; [by apply Hall|].
  destruct (_ =? 0); simpl in Ht; [by apply bool_decide_eq_true, list_elem_of_singleton in Ht|lia].
Qed.

Lemma body_mask_inhabited h w k : ∃ t, permits (body_mask h w k) t = true.
Proof.
  unfold body_mask. destruct (_ =? _); [exists EOI; by apply bool_decide_eq_true, list_elem_of_singleton|].
  destruct (_ =? 0); [exists EOL; by apply bool_decide_eq_true, list_elem_of_singleton|exists BOV; done].
Qed.

(** The state while the body is generated. *)
Record imaging (p0 : processor (C:=C)) (h w : Z) (q : processor (C:=C)) : Prop := {
  im_type : lp_type q = lp_type p0;
  im_force : lp_force_same q = lp_force_same p0;
  im_decay : lp_decay q = lp_decay p0;
  im_max : lp_max_digits q = lp_max_digits p0;
  im_digits : lp_digits q = lp_digits p0;
  im_star : lp_star q = lp_star p0;
  im_first : lp_first_in_image q = false;
  im_image : lp_in_image q = true;
  im_visual : lp_in_visual q = true;
  im_height : lp_height q = Some h;
  im_width : lp_width q = Some w;
}.

Lemma imaging_same p0 h w q r : imaging p0 h w q → steady q r → imaging p0 h w r.
Proof. intros [] []. split; congruence. Qed.

Lemma imaging_supported p0 h w q : supported p0 → imaging p0 h w q → supported q.
Proof. intros [? ?] []. split; congruence. Qed.

Lemma body_call pre s body p0 h w p :
  supported p0 → 1 <= h → 1 <= w → body ≠ [] → body_part h w body → imaging p0 h w p →
  ∃ q, imaging p0 h w q ∧
    call model (pre ++ s :: IMG :: body) p = (q, Ok (body_mask h w (Z.of_nat (List.length body)))).
Proof.
  intros Hsup Hh Hw Hne Hb Him. destruct body as [|t body' _] using rev_ind; [done|].
  destruct (body_plain h w _ t Hb) as [Ht Hti]; [set_solver|].
  assert (∃ pre' x, pre ++ s :: IMG :: body' ++ [t] = pre' ++ [x; t]) as (pre' & x & Heq).
  { destruct body' as [|x body'' _] using rev_ind; [exists (pre ++ [s]), IMG; by rewrite <- app_assoc|].
    exists (pre ++ s :: IMG :: body''), x. by rewrite <- (app_assoc body'' [x] [t]), <- (app_assoc pre). }
  destruct (call_inner pre' x t p) as (q0 & Hq0 & Hc); [by apply (im_image _ _ _ _ Him)|done|].
  rewrite Heq, Hc, <- Heq. unfold in_image_logits_processor.
  pose proof (same_uncond (pre ++ s :: IMG :: body' ++ [t]) q0) as Hs.
  set (r := get_unconditional_logits model _ q0) in *.
  assert (imaging p0 h w r) as Hr by (eapply imaging_same; [by eapply imaging_same|exact Hs]).
  exists r. split; [done|]. rewrite (im_visual _ _ _ _ Hr), (im_height _ _ _ _ Hr), (im_width _ _ _ _ Hr).
  replace (pre ++ s :: IMG :: body' ++ [t]) with ((pre ++ [s]) ++ IMG :: (body' ++ [t])) by by rewrite <- app_assoc.
  rewrite find_last_app.
  2:{ intros Hin. by destruct (body_plain h w _ _ Hb Hin) as [_ ?]. }
  rewrite (length_app (pre ++ [s])). cbn [List.length].
  replace (Z.of_nat (List.length (pre ++ [s]) + S (List.length (body' ++ [t]))) - Z.of_nat (List.length (pre ++ [s])))
    with (Z.of_nat (List.length (body' ++ [t])) + 1) by lia.
  unfold body_mask. destruct (_ =? h * (w + 1)); [done|].
  replace (w + 1 =? 0) with false by lia. destruct (_ mod _ =? 0); [done|].
  rewrite supported_ok; [done|]. by eapply imaging_supported.
Qed.

(** The first token of the body is visual. *)
Lemma body_mask_first h w : 1 <= h → 1 <= w → body_mask h w 0 = FromToken BOV.
Proof.
  intros. unfold body_mask. destruct (Z.eqb_spec (0 + 1) (h * (w + 1))); [nia|].
  rewrite (Z.mod_small (0 + 1)) by lia. done.
Qed.

(** The phase from the token that opens the body to the one that closes it. *)
Lemma body_phase pick pre s p0 h w p q :
  legal pick → supported p0 → 1 <= h → 1 <= w →
  call model (pre ++ [s; IMG]) p = (q, Ok (FromToken BOV)) → imaging p0 h w q →
  ∃ n body r, generate model pick n (pre ++ [s; IMG]) p = (r, pre ++ [s; IMG] ++ body ++ [EOI], Ok ()) ∧
    body_ok h w body ∧ imaging p0 h w r ∧ n = S (List.length body).
Proof.
  intros Hpick Hsup Hh Hw Hcall Hq.
  set (St := λ (l : list Z) r, l = [] ∧ r = p ∨ l ≠ [] ∧ body_part h w l ∧ imaging p0 h w r).
  destruct (run_phase pick (pre ++ [s; IMG]) St (λ l r, body_ok h w l ∧ imaging p0 h w r) EOI (Z.to_nat (h * (w + 1)))
              Hpick) with (l := @nil Z) (p := p) as (n & body & r & Hg & [Hb Hr] & Hn); [|by left|].
  - intros l r Hst.
    assert (body_part h w l) as Hb.
    { destruct Hst as [[-> _]|(_ & ? & _)]; [|done]. split; [simpl; nia|]. intros k t. by rewrite lookup_nil. }
    split; [destruct Hb; lia|].
    assert (∃ q', imaging p0 h w q' ∧
      call model ((pre ++ [s; IMG]) ++ l) r = (q', Ok (body_mask h w (Z.of_nat (List.length l))))) as (q' & Hq' & Hc).
    { destruct Hst as [[-> ->]|(Hne & _ & Him)].
      - exists q. split; [done|]. simpl. rewrite app_nil_r, body_mask_first; done.
      - rewrite <- app_assoc. simpl. by eapply body_call. }
    exists q', (body_mask h w (Z.of_nat (List.length l))). split; [done|]. split; [apply body_mask_inhabited|].
    intros t Ht. destruct (body_next h w l t Hh Hw Hb Ht) as [[-> Hok]|Hpart]; [by left|].
    right. right. split; [by destruct l|done].
  - exists (S n), body, r. rewrite app_nil_r in Hg. simpl app in Hg. rewrite Hg, <- !app_assoc. subst. done.
Qed.

(** ** The header of an image of unknown size *)

(** The size of the next image is not known yet. *)
Definition unsized (p : processor (C:=C)) : Prop :=
  (lp_height p = None ∨ lp_width p = None) ∧ (lp_first_in_image p = true ∨ lp_force_same p = false).

(** A height or a width under way: some digits without a leading zero. *)
Definition partial_numeral (M : Z) (s : string) : Prop :=
  (s = "" ∨ numeral s) ∧ Z.of_nat (String.length s) <= M.

Inductive partial_header (M : Z) : list Z → Prop :=
  | partial_height s : partial_numeral M s → partial_header M (toks s)
  | partial_width hs s : numeral hs → Z.of_nat (String.length hs) <= M → partial_numeral M s →
      partial_header M (toks (header_text hs s)).

Definition full_header (M : Z) (hw : list Z) : Prop :=
  ∃ hs ws, hw = toks (header_text hs ws) ∧ numeral hs ∧ numeral ws ∧
    Z.of_nat (String.length hs) <= M ∧ Z.of_nat (String.length ws) <= M.

Lemma numeral_digits s : numeral s → sforall is_digit s = true.
Proof. by intros []. Qed.

Lemma partial_digits M s : partial_numeral M s → sforall is_digit s = true.
Proof. intros [[->|Hn] _]; [done|by apply numeral_digits]. Qed.

Lemma sforall_snoc f s c : sforall f (s +:+ String c "") = sforall f s && f c.
Proof. induction s as [|d s IH]; simpl; [by rewrite andb_true_r|]. by rewrite IH, andb_assoc. Qed.

Lemma numeral_snoc s c : numeral s → is_digit c = true → numeral (s +:+ String c "").
Proof. intros [Hd Hh] Hc. split; [by rewrite sforall_snoc, Hd, Hc|]. by destruct s. Qed.

Lemma numeral_snoc_length s c : Z.of_nat (String.length (s +:+ String c "")) = Z.of_nat (String.length s) + 1.
Proof. induction s as [|d s IH]; [done|]. simpl. lia. Qed.

(** The next digit of a number. *)
Lemma partial_next (M : Z) s t (p : processor (C:=C)) :
  char_tokens p → partial_numeral M s → 1 <= M →
  t ∈ (if Z.of_nat (String.length s) =? 0 then drop 1 (lp_digits p)
       else if Z.of_nat (String.length s) <? M then lp_digits p else []) →
  ∃ c, t = tok c ∧ partial_numeral M (s +:+ String c "") ∧ numeral (s +:+ String c "").
Proof.
  intros Hct [Hs Hl] HM Ht. rewrite (ct_digits _ Hct) in Ht.
  destruct (Z.eqb_spec (Z.of_nat (String.length s)) 0) as [H0|H0].
  - assert (s = "") as -> by (destruct s; [done|simpl in H0; lia]).
    assert (∃ c, t = tok c ∧ is_digit c = true ∧ c ≠ "0"%char) as (c & -> & Hc & Hz).
    { simpl in Ht. repeat (apply elem_of_cons in Ht as [->|Ht]; [by eexists|]). by apply elem_of_nil in Ht. }
    exists c. split; [done|]. simpl. assert (numeral (String c "")) by (split; [simpl; by rewrite Hc|done]).
    split; [|done]. split; [by right|simpl; lia].
  - destruct Hs as [->|Hs]; [done|]. destruct (Z.ltb_spec (Z.of_nat (String.length s)) M); [|by apply elem_of_nil in Ht].
    apply list_elem_of_fmap in Ht as (c & -> & Hc%is_digit_chars). exists c. split; [done|].
    pose proof (numeral_snoc s c Hs Hc). split; [|done]. split; [by right|]. rewrite numeral_snoc_length. lia.
Qed.

Lemma toks_snoc s c : toks (s +:+ String c "") = toks s ++ [tok c].
Proof. by rewrite toks_app. Qed.

Lemma header_toks hs s : toks (header_text hs s) = toks hs ++ tok "*"%char :: toks s.
Proof. unfold header_text. by rewrite toks_app. Qed.

Lemma header_snoc hs s c : toks (header_text hs (s +:+ String c "")) = toks (header_text hs s) ++ [tok c].
Proof. by rewrite !header_toks, toks_snoc, <- app_assoc. Qed.

Lemma partial_header_plain M hw (p : processor (C:=C)) : char_tokens p → partial_header M hw → plain hw.
Proof.
  intros Hct Hph t Ht. assert (t = tok "*"%char ∨ inner t ∧ t ≠ IMG) as [->|?]; [|by apply (ct_inner _ Hct); right|done].
  destruct Hph as [s Hs|hs s Hh _ Hs].
  - right. by destruct (toks_inner p s t Hct (partial_digits _ _ Hs) Ht) as (? & ? & ?).
  - rewrite header_toks in Ht. apply elem_of_app in Ht as [Ht|[->|Ht]%elem_of_cons]; [|by left|].
    + right. by destruct (toks_inner p hs t Hct (numeral_digits _ Hh) Ht) as (? & ? & ?).
    + right. by destruct (toks_inner p s t Hct (partial_digits _ _ Hs) Ht) as (? & ? & ?).
Qed.

(** The mask while the height is under way. *)
Lemma auto_height s (p : processor (C:=C)) :
  char_tokens p → sforall is_digit s = true →
  allowed_auto_hw_tokens (BOI :: toks s) p =
  let n := Z.of_nat (String.length s) in
  if n =? 0 then drop 1 (lp_digits p) else if n <? lp_max_digits p then lp_digits p ++ [lp_star p] else [lp_star p].
Proof.
  intros Hct Hd. unfold allowed_auto_hw_tokens.
  rewrite (find_last_start (toks s) BOI) by by intros Hin; destruct (toks_inner p s BOI Hct Hd Hin) as [[? _] _].
  change (drop (Z.to_nat (0 + 1)) (BOI :: toks s)) with (toks s). cbv zeta.
  rewrite bool_decide_eq_true_2; [by rewrite toks_length|]. rewrite (ct_star _ Hct). intros Hin.
  by destruct (toks_inner p s _ Hct Hd Hin) as (_ & _ & ?).
Qed.

(** The mask while the width is. *)
Lemma auto_width hs s (p : processor (C:=C)) :
  char_tokens p → sforall is_digit hs = true → sforall is_digit s = true →
  allowed_auto_hw_tokens (BOI :: toks (header_text hs s)) p =
  let n := Z.of_nat (String.length s) in
  if n =? 0 then drop 1 (lp_digits p) else if n <? lp_max_digits p then lp_digits p ++ [IMG] else [IMG].
Proof.
  intros Hct Hh Hd. rewrite header_toks. unfold allowed_auto_hw_tokens. rewrite (ct_star _ Hct).
  assert (tok "*"%char ∉ toks hs) as Hstar.
  { intros Hin. by destruct (toks_inner p hs _ Hct Hh Hin) as (_ & _ & ?). }
  rewrite (find_last_start (toks hs ++ tok "*"%char :: toks s) BOI).
  2:{ intros [Hin|[Heq|Hin]%elem_of_cons]%elem_of_app.
      - by destruct (toks_inner p hs BOI Hct Hh Hin) as [[? _] _].
      - destruct (ct_inner _ Hct "*"%char) as [[? _] _]; [by right|]. by rewrite <- Heq in *.
      - by destruct (toks_inner p s BOI Hct Hd Hin) as [[? _] _]. }
  change (drop (Z.to_nat (0 + 1)) (BOI :: ?l)) with l. cbv zeta.
  rewrite bool_decide_eq_false_2; [|intros Hn; apply Hn; set_solver].
  unfold star_position. rewrite (find_first_app _ _ _ Hstar), length_app. simpl. rewrite !toks_length.
  replace (Z.of_nat (String.length hs + S (String.length s)) -
    Z.of_nat (Z.to_nat (Z.of_nat (String.length hs))) - 1) with (Z.of_nat (String.length s)) by lia. done.
Qed.

Lemma auto_next M hw (p : processor (C:=C)) t :
  char_tokens p → lp_max_digits p = M → 1 <= M → partial_header M hw →
  t ∈ allowed_auto_hw_tokens (BOI :: hw) p → (t = IMG ∧ full_header M hw) ∨ partial_header M (hw ++ [t]).
Proof.
  intros Hct HM HM1 Hph Ht. destruct Hph as [s Hs|hs s Hh Hl Hs].
  - rewrite (auto_height _ _ Hct (partial_digits _ _ Hs)), HM in Ht. cbv zeta in Ht. right.
    assert (t = lp_star p ∧ numeral s ∨ t ∈ (if Z.of_nat (String.length s) =? 0 then drop 1 (lp_digits p)
       else if Z.of_nat (String.length s) <? M then lp_digits p else [])) as [[-> Hn]|Hd].
    { destruct Hs as [[->|Hs] _]; [by right|]. destruct (Z.eqb_spec (Z.of_nat (String.length s)) 0); [by right|].
      destruct (_ <? M); [apply elem_of_app in Ht as [Ht|Ht]; [by right|]|]; left; by apply list_elem_of_singleton in Ht. }
    + rewrite (ct_star _ Hct). replace (toks s ++ [tok "*"%char]) with (toks (header_text s "")) by by rewrite header_toks.
      destruct Hs. constructor; [done|done|]. split; [by left|simpl; lia].
    + destruct (partial_next M s t p Hct Hs HM1 Hd) as (c & -> & Hp & _). rewrite <- toks_snoc. by constructor.
  - rewrite (auto_width _ _ _ Hct (numeral_digits _ Hh) (partial_digits _ _ Hs)), HM in Ht. cbv zeta in Ht.
    assert (t = IMG ∧ numeral s ∨ t ∈ (if Z.of_nat (String.length s) =? 0 then drop 1 (lp_digits p)
       else if Z.of_nat (String.length s) <? M then lp_digits p else [])) as [[-> Hn]|Hd].
    { destruct Hs as [[->|Hs] _]; [by right|]. destruct (Z.eqb_spec (Z.of_nat (String.length s)) 0); [by right|].
      destruct (_ <? M); [apply elem_of_app in Ht as [Ht|Ht]; [by right|]|]; left; by apply list_elem_of_singleton in Ht. }
    + left. split; [done|]. destruct Hs. by exists hs, s.
    + right. destruct (partial_next M s t p Hct Hs HM1 Hd) as (c & -> & Hp & _). rewrite <- header_snoc.
      by constructor.
Qed.

Lemma auto_inhabited M hw (p : processor (C:=C)) :
  char_tokens p → partial_header M hw → ∃ t, t ∈ allowed_auto_hw_tokens (BOI :: hw) p.
Proof.
  intros Hct Hph. destruct Hph as [s Hs|hs s Hh Hl Hs].
  - rewrite (auto_height _ _ Hct (partial_digits _ _ Hs)), (ct_digits _ Hct). simpl.
    destruct (_ =? 0); [|destruct (_ <? _)]; simpl; eexists; apply elem_of_cons; by left.
  - rewrite (auto_width _ _ _ Hct (numeral_digits _ Hh) (partial_digits _ _ Hs)), (ct_digits _ Hct). simpl.
    destruct (_ =? 0); [|destruct (_ <? _)]; simpl; eexists; apply elem_of_cons; by left.
Qed.

Lemma partial_length M hw : 0 <= M → partial_header M hw → (List.length hw ≤ Z.to_nat (2 * M + 1))%nat.
Proof.
  intros HM [s [_ Hs]|hs s _ Hh [_ Hs]]; rewrite ?header_toks, ?length_app; simpl; rewrite !toks_length; lia.
Qed.

(** The phase of a header of unknown size, from the token that starts the
    image to the one that starts its body. *)
Lemma header_phase_auto pick pre p :
  legal pick → supported p → lp_in_visual p = false → char_tokens p → unsized p → 1 <= lp_max_digits p →
  ∃ n hw q, generate model pick n (pre ++ [BOI]) p = (q, pre ++ [BOI] ++ hw ++ [IMG], Ok ()) ∧
    full_header (lp_max_digits p) hw ∧ steady (started p) q ∧ n = S (List.length hw).
Proof.
  intros Hpick Hsup Hv Hct Hun HM. set (M := lp_max_digits p).
  set (St := λ l q, partial_header M l ∧ (l = [] ∧ q = p ∨ steady (started p) q)).
  destruct (run_phase pick (pre ++ [BOI]) St (λ l q, full_header M l ∧ steady (started p) q) IMG (Z.to_nat (2 * M + 1)) Hpick)
    with (l := @nil Z) (p := p) as (n & hw & q & Hg & [Hf Hq] & Hn).
  - intros l r [Hph Hstart]. split; [by apply partial_length; [lia|]|].
    destruct (header_call pre l p r Hsup Hv (partial_header_plain _ _ p Hct Hph) Hstart) as (q & Hq & Hc).
    rewrite <- app_assoc. simpl app.
    assert (header_mask p l = Ok (Only (allowed_auto_hw_tokens (BOI :: l) p))) as Hmask.
    { unfold header_mask. destruct Hun as [Hsz Hff].
      assert (lp_first_in_image p || negb (lp_force_same p) = true) as ->
        by (destruct Hff as [->| ->]; [done|apply orb_true_r]).
      destruct (lp_height p), (lp_width p); try done. by destruct Hsz. }
    rewrite Hmask in Hc. exists q, (Only (allowed_auto_hw_tokens (BOI :: l) p)). split; [done|]. split.
    { destruct (auto_inhabited M l p Hct Hph) as [t Ht]. exists t. by apply bool_decide_eq_true. }
    intros t Ht%bool_decide_eq_true. destruct (auto_next M l p t Hct eq_refl HM Hph Ht) as [[-> Hf]|Hph'].
    + left. done.
    + right. split; [done|by right].
  - split; [|by left]. apply (partial_height M ""). split; [by left|simpl; lia].
  - exists (S n), hw, q. rewrite app_nil_r in Hg. simpl app in Hg. rewrite Hg, <- !app_assoc. subst. done.
Qed.

(** ** From the header to the body *)

(** Where the size of an image comes from: it is known, or its header says it. *)
Inductive size_from (p : processor (C:=C)) (hw : list Z) (h w : Z) : Prop :=
  | size_known : lp_height p = Some h → lp_width p = Some w → size_from p hw h w
  | size_parsed hs ws : unsized p → (text ← tk_decode hw; split_star text) = Ok (hs, ws) →
      py_int_of_string hs = Some h → py_int_of_string ws = Some w → size_from p hw h w.

Lemma parse_header pre hw (p : processor (C:=C)) hs ws h w :
  plain hw → lp_height p = None ∨ lp_width p = None → (text ← tk_decode hw; split_star text) = Ok (hs, ws) →
  py_int_of_string hs = Some h → py_int_of_string ws = Some w →
  parse_hw (pre ++ BOI :: hw ++ [IMG]) p = (set_size p (Some h) (Some w) (Some hw), Ok ()).
Proof.
  intros Hp Hun Hsplit Hh Hw. unfold parse_hw.
  rewrite (app_comm_cons hw [IMG] BOI), (app_assoc pre (BOI :: hw) [IMG]), (find_last_app (pre ++ BOI :: hw) [] IMG)
    by apply not_elem_of_nil.
  rewrite <- (app_assoc pre), <- app_comm_cons, (find_last_app pre (hw ++ [IMG]) BOI).
  2:{ rewrite not_elem_of_app. split; [by apply plain_BOI|]. by intros ?%list_elem_of_singleton. }
  rewrite length_app. cbn [List.length].
  rewrite (proj2 (Z.ltb_ge _ 0)), (proj2 (Z.ltb_ge _ 0)) by lia. simpl orb.
  replace (Z.to_nat (Z.of_nat (List.length pre) + 1)) with (List.length pre + 1)%nat by lia.
  rewrite drop_app_add'; [|done]. change (drop 1 (BOI :: ?l)) with l.
  replace (Z.to_nat _) with (List.length hw) by lia. rewrite take_app_length.
  rewrite Hsplit, Hh, Hw. destruct Hun as [Hn|Hn]; rewrite Hn; [done|]. by destruct (lp_height p).
Qed.

Lemma img_call pre hw p0 p h w :
  supported p0 → lp_in_visual p0 = false → plain hw → steady (started p0) p → size_from p0 hw h w →
  ∃ q, call model (pre ++ BOI :: hw ++ [IMG]) p = (q, Ok (FromToken BOV)) ∧ imaging p0 h w q.
Proof.
  intros Hsup Hv Hp Hs Hsize.
  assert (∃ pre' x, pre ++ BOI :: hw ++ [IMG] = pre' ++ [x; IMG]) as (pre' & x & Heq).
  { destruct hw as [|x hw' _] using rev_ind; [by exists pre, BOI|].
    exists (pre ++ BOI :: hw'), x. by rewrite <- (app_assoc hw' [x] [IMG]), <- (app_assoc pre). }
  destruct (call_inner pre' x IMG p) as (q0 & Hq0 & Hc); [by apply (sm_image _ _ Hs)|done|].
  rewrite Heq, Hc. unfold in_image_logits_processor. pose proof (same_uncond (pre' ++ [x; IMG]) q0) as Hs2.
  set (r := get_unconditional_logits model _ q0) in *.
  assert (steady (started p0) r) as Hr by (eapply same_trans; [exact Hs|]; by eapply same_trans).
  clearbody r. clear Hs Hq0 Hs2 Hc q0 p. pose proof Hr as []. simpl in *. rewrite sm_visual0, Hv.
  replace (from_end (pre' ++ [x; IMG]) 1) with (Ok IMG)
    by (replace (pre' ++ [x; IMG]) with ((pre' ++ [x]) ++ [IMG]) by (by rewrite <- app_assoc); by rewrite from_end_snoc).
  rewrite Z.eqb_refl. rewrite <- Heq. cbv zeta. cbn [set_flags lp_first_in_image lp_force_same lp_height lp_width].
  rewrite sm_first0, sm_force0, sm_height0, sm_width0.
  assert (supported r) as Hr' by (destruct Hsup; split; congruence).
  destruct Hsize as [Hh Hw|hs ws Hun Hsplit Hh Hw].
  - rewrite Hh, Hw. destruct (lp_first_in_image p0 || negb (lp_force_same p0)) eqn:Hff; cbv beta iota.
    + rewrite supported_ok by exact Hr'. eexists. split; [reflexivity|]. by split; simpl; rewrite ?sm_height0, ?sm_width0.
    + rewrite supported_ok by exact Hr'. eexists. split; [reflexivity|]. apply orb_false_iff in Hff as [Hff _].
      split; simpl; rewrite ?sm_height0, ?sm_width0, ?sm_first0; done.
  - destruct Hun as [Hsz Hff].
    assert (lp_first_in_image p0 || negb (lp_force_same p0) = true) as ->
      by (destruct Hff as [->| ->]; [done|apply orb_true_r]).
    rewrite (parse_header pre hw _ hs ws h w Hp); [|by cbn [set_flags lp_height lp_width]; rewrite sm_height0, sm_width0|done..].
    destruct (lp_height p0), (lp_width p0); try (by destruct Hsz); cbv beta iota;
      (rewrite supported_ok by exact Hr'; eexists; split; [reflexivity|by split]).
Qed.

(** ** Images of known size *)

(** The header that is forced. *)
Definition known_header (h w : Z) (hw : list Z) : Prop :=
  tk_encode (z_to_string h +:+ "*" +:+ z_to_string w) = Ok hw ∧ plain hw.

Lemma forced_next known hw t :
  hw `prefix_of` known → permits (forced_token known (Z.of_nat (List.length hw) + 1)) t = true →
  (t = IMG ∧ hw = known) ∨ hw ++ [t] `prefix_of` known.
Proof.
  intros [k ->] Ht. unfold forced_token in Ht. rewrite length_app in Ht. destruct k as [|x k].
  - rewrite app_nil_r in *. simpl List.length in Ht. rewrite (proj2 (Z.leb_gt _ _)) in Ht by lia.
    left. by apply bool_decide_eq_true, list_elem_of_singleton in Ht.
  - rewrite (proj2 (Z.leb_le _ _)) in Ht by (simpl; lia).
    replace (Z.to_nat (Z.of_nat (List.length hw) + 1 - 1)) with (List.length hw) in Ht by lia.
    rewrite list_lookup_middle in Ht by done. apply bool_decide_eq_true, list_elem_of_singleton in Ht as ->.
    right. exists k. by rewrite <- app_assoc.
Qed.

Lemma forced_inhabited known i : ∃ t, permits (forced_token known i) t = true.
Proof.
  unfold forced_token. destruct (if _ <=? _ then _ else _) as [t|]; [exists t|exists IMG];
    by apply bool_decide_eq_true, list_elem_of_singleton.
Qed.

Lemma header_phase_forced pick pre p h w known :
  legal pick → supported p → lp_in_visual p = false → lp_height p = Some h → lp_width p = Some w →
  known_header h w known →
  ∃ q, generate model pick (S (List.length known)) (pre ++ [BOI]) p =
    (q, pre ++ [BOI] ++ known ++ [IMG], Ok ()) ∧ steady (started p) q.
Proof.
  intros Hpick Hsup Hv Hh Hw [Henc Hplain].
  set (St := λ l q, l `prefix_of` known ∧ (l = [] ∧ q = p ∨ steady (started p) q)).
  destruct (run_phase pick (pre ++ [BOI]) St (λ l q, l = known ∧ steady (started p) q) IMG
              (List.length known) Hpick) with (l := @nil Z) (p := p) as (n & hw & q & Hg & [Hf Hq] & Hn).
  - intros l r [Hl Hstart]. split; [by apply prefix_length|].
    destruct (header_call pre l p r Hsup Hv) as (q & Hq & Hc); [|done|].
    { intros t Ht. apply Hplain. destruct Hl as [k ->]. set_solver. }
    unfold header_mask in Hc. rewrite Hh, Hw, Henc in Hc. cbn in Hc. rewrite <- app_assoc. simpl app.
    eexists q, _. split; [exact Hc|]. split; [apply forced_inhabited|]. intros t Ht.
    destruct (forced_next _ l t Hl Ht) as [[-> Hf]|Hl']; [left; done|right]. split; [done|by right].
  - split; [apply prefix_nil|by left].
  - exists q. rewrite app_nil_r in Hg. simpl app in Hg, Hf. subst. rewrite Hg, <- !app_assoc. done.
Qed.

(** A whole image from its opening token, given its header phase. *)
Lemma image_phase pick pre p h w n hw q :
  legal pick → supported p → lp_in_visual p = false → 1 <= h → 1 <= w → plain hw → size_from p hw h w →
  generate model pick n (pre ++ [BOI]) p = (q, pre ++ [BOI] ++ hw ++ [IMG], Ok ()) → steady (started p) q →
  ∃ m body r,
    generate model pick (n + m) (pre ++ [BOI]) p = (r, pre ++ [BOI] ++ hw ++ [IMG] ++ body ++ [EOI], Ok ()) ∧
    body_ok h w body ∧ imaging p h w r ∧ m = S (List.length body).
Proof.
  intros Hpick Hsup Hv Hh Hw Hplain Hsize Hgen Hq.
  destruct (img_call pre hw p q h w Hsup Hv Hplain Hq Hsize) as (q1 & Hc & Him).
  assert (∃ pre' s, pre ++ BOI :: hw ++ [IMG] = pre' ++ [s; IMG]) as (pre' & s & Heq).
  { destruct hw as [|x hw' _] using rev_ind; [by exists pre, BOI|].
    exists (pre ++ BOI :: hw'), x. by rewrite <- (app_assoc hw' [x] [IMG]), <- (app_assoc pre). }
  rewrite Heq in Hc. destruct (body_phase pick pre' s p h w q q1 Hpick Hsup Hh Hw Hc Him) as (m & body & r & Hg & Hb & Hr & Hm).
  exists m, body, r. split; [|done]. rewrite generate_app, Hgen. simpl app. rewrite Heq, Hg.
  f_equal. f_equal. change (pre' ++ [s; IMG] ++ body ++ [EOI]) with (pre' ++ s :: IMG :: body ++ [EOI]).
  replace (pre' ++ s :: IMG :: body ++ [EOI]) with ((pre' ++ [s; IMG]) ++ body ++ [EOI]) by by rewrite <- app_assoc.
  rewrite <- Heq. by rewrite <- !app_assoc, <- !app_comm_cons, <- !app_assoc.
Qed.

(** ** Between images *)

(** The state between images, the size of the last one known. *)
Record settled (p0 : processor (C:=C)) (h w : Z) (q : processor (C:=C)) : Prop := {
  st_type : lp_type q = lp_type p0;
  st_decay : lp_decay q = lp_decay p0;
  st_image : lp_in_image q = false;
  st_visual : lp_in_visual q = false;
  st_height : lp_height q = Some h;
  st_width : lp_width q = Some w;
}.

Lemma settled_supported p0 h w q : supported p0 → settled p0 h w q → supported q.
Proof. intros [] []. split; congruence. Qed.

(** The call at the token that ends an image. *)
Lemma close_call pre s p0 h w p :
  imaging p0 h w p → ∃ q, settled p0 h w q ∧ call model (pre ++ [s; EOI]) p = (q, Ok (BelowToken BOV)).
Proof.
  intros []. unfold call. replace (pre ++ [s; EOI]) with ((pre ++ [s]) ++ [EOI]) by by rewrite <- app_assoc.
  rewrite from_end_snoc. replace ((pre ++ [s]) ++ [EOI]) with (pre ++ [s; EOI]) by by rewrite <- app_assoc.
  simpl. rewrite from_end_second. simpl. unfold exit_image.
  pose proof (same_uncond (pre ++ [s; EOI]) (set_flags p (lp_first_in_image p) false false (lp_image_nums p))) as Hs.
  set (r := get_unconditional_logits model _ _) in *. clearbody r. destruct Hs. simpl in *.
  destruct (s =? EOI); simpl; rewrite sm_image0; eexists; (split; [|reflexivity]); split; simpl; congruence.
Qed.

Lemma text_call pre s t p0 h w p :
  inner t → settled p0 h w p → ∃ q, settled p0 h w q ∧ call model (pre ++ [s; t]) p = (q, Ok (BelowToken BOV)).
Proof.
  intros [Hb He] []. unfold call. replace (pre ++ [s; t]) with ((pre ++ [s]) ++ [t]) by by rewrite <- app_assoc.
  rewrite from_end_snoc. replace ((pre ++ [s]) ++ [t]) with (pre ++ [s; t]) by by rewrite <- app_assoc.
  rewrite (proj2 (Z.eqb_neq t BOI) Hb), (proj2 (Z.eqb_neq t EOI) He), from_end_second. simpl.
  destruct (s =? EOI); simpl; rewrite st_image0; eexists; (split; [|reflexivity]); by split.
Qed.

Lemma generate_extends pick n ids (p q : processor (C:=C)) ids' :
  generate model pick n ids p = (q, ids', Ok ()) → ∃ l, ids' = ids ++ l ∧ List.length l = n.
Proof.
  revert ids p. induction n as [|n IH]; intros ids p; simpl.
  { intros [= -> ->]. exists []. by rewrite app_nil_r. }
  destruct (call model ids p) as [p' [a|e]]; [|done]. intros (l & -> & Hl)%IH.
  exists (pick ids a :: l). split; [by rewrite <- app_assoc|simpl; by rewrite Hl].
Qed.

(** Text up to the token that starts the next image. *)
Lemma text_phase pick text n pre s t p0 h w (p q : processor (C:=C)) r0 :
  (∀ x, x ∈ text → inner x) →
  call model (pre ++ [s; t]) p = (r0, Ok (BelowToken BOV)) → settled p0 h w r0 →
  generate model pick n (pre ++ [s; t]) p = (q, pre ++ [s; t] ++ text ++ [BOI], Ok ()) → settled p0 h w q.
Proof.
  revert n pre s t p r0. induction text as [|x text IH]; intros n pre s t p r0 Hin Hcall Hr Hg.
  - pose proof (generate_extends _ _ _ _ _ _ Hg) as (l & Hl & Hn). rewrite app_assoc in Hl. apply app_inv_head in Hl.
    subst. simpl in Hg. rewrite Hcall in Hg. by injection Hg as <- _.
  - pose proof (generate_extends _ _ _ _ _ _ Hg) as (l & Hl & Hn). rewrite app_assoc in Hl. apply app_inv_head in Hl.
    destruct n as [|n]; [by subst|]. simpl in Hg. rewrite Hcall in Hg.
    pose proof (generate_extends _ _ _ _ _ _ Hg) as (k & Hk & _).
    replace (pre ++ s :: t :: x :: text ++ [BOI]) with ((pre ++ [s; t]) ++ x :: text ++ [BOI]) in Hk by by rewrite <- app_assoc.
    rewrite <- (app_assoc (pre ++ [s; t]) [_] k) in Hk. apply app_inv_head in Hk. simpl in Hk. injection Hk as Hx Hk. rewrite <- Hx in Hg.
    assert ((pre ++ [s; t]) ++ [x] = (pre ++ [s]) ++ [t; x]) as Heq by by rewrite <- !app_assoc. rewrite Heq in Hg.
    destruct (text_call (pre ++ [s]) t x p0 h w r0) as (r1 & Hr1 & Hc1); [apply Hin; set_solver|done|].
    eapply (IH n (pre ++ [s]) t x r0 r1); [intros y Hy; apply Hin; set_solver|exact Hc1|exact Hr1|].
    rewrite Hg. by rewrite <- !app_assoc.
Qed.

(** ** Theorems *)

(** C5: Whatever a sampler picks among what the masks leave, an image of unknown
    size that is started is finished: a header of two decimal numbers without
    leading zeros and of at most [max_hw_digits] digits, then rows of visual
    tokens of the width the header says, as many as the height it says. *)
Theorem image_completes_auto pick pre p :
  legal pick → supported p → lp_in_visual p = false → char_tokens p → unsized p → 1 <= lp_max_digits p →
  ∃ n hs ws h w body q,
    generate model pick n (pre ++ [BOI]) p =
      (q, pre ++ [BOI] ++ toks (header_text hs ws) ++ [IMG] ++ body ++ [EOI], Ok ()) ∧
    numeral hs ∧ numeral ws ∧
    Z.of_nat (String.length hs) <= lp_max_digits p ∧ Z.of_nat (String.length ws) <= lp_max_digits p ∧
    py_int_of_string hs = Some h ∧ py_int_of_string ws = Some w ∧ 1 <= h ∧ 1 <= w ∧
    body_ok h w body ∧ lp_height q = Some h ∧ lp_width q = Some w.
Proof.
  intros Hpick Hsup Hv Hct Hun HM.
  destruct (header_phase_auto pick pre p Hpick Hsup Hv Hct Hun HM) as (n & hw & q & Hg & (hs & ws & -> & Hh & Hw & Hlh & Hlw) & Hq & _).
  destruct (numeral_value _ Hh) as (h & Heh & Hh1), (numeral_value _ Hw) as (w & Hew & Hw1).
  pose proof (numeral_digits _ Hh). pose proof (numeral_digits _ Hw).
  destruct (image_phase pick pre p h w n (toks (header_text hs ws)) q) as (m & body & r & Hg2 & Hb & Hr & _); try done.
  - apply (partial_header_plain (lp_max_digits p) _ p Hct). constructor; [done|done|]. split; [by right|done].
  - eapply size_parsed; [done| |exact Heh|exact Hew]. rewrite (ct_decode _ Hct) by done. simpl. by apply split_star_spec.
  - exists (n + m)%nat, hs, ws, h, w, body, r. destruct Hr. done.
Qed.

(** An image of known size takes exactly [h * (w + 1)] steps after its header,
    which repeats the known size. *)
Theorem image_completes_known pick pre p h w known :
  legal pick → supported p → lp_in_visual p = false → lp_height p = Some h → lp_width p = Some w →
  1 <= h → 1 <= w → known_header h w known →
  ∃ body q,
    generate model pick (List.length known + 1 + Z.to_nat (h * (w + 1))) (pre ++ [BOI]) p =
      (q, pre ++ [BOI] ++ known ++ [IMG] ++ body ++ [EOI], Ok ()) ∧ body_ok h w body.
Proof.
  intros Hpick Hsup Hv Hh Hw Hh1 Hw1 Hknown. pose proof Hknown as [_ Hplain].
  destruct (header_phase_forced pick pre p h w known Hpick Hsup Hv Hh Hw Hknown) as (q & Hg & Hq).
  destruct (image_phase pick pre p h w _ _ q Hpick Hsup Hv Hh1 Hw1 Hplain (size_known _ _ _ _ Hh Hw) Hg Hq)
    as (m & body & r & Hg2 & Hb & Hr & Hm).
  exists body, r. split; [|done]. rewrite <- Hg2. f_equal. destruct Hb. lia.
Qed.

(** Once an image was finished, every later image of the request has its size:
    whenever the sampler starts one after some text, its header is the one of
    the first, and so are its rows.  This does not depend on
    [force_same_image_size]. *)
Theorem later_images_keep_size pick pre s p0 h w known p text n q :
  legal pick → supported p0 → 1 <= h → 1 <= w → known_header h w known → imaging p0 h w p →
  (∀ x, x ∈ text → inner x) →
  generate model pick n (pre ++ [s; EOI]) p = (q, pre ++ [s; EOI] ++ text ++ [BOI], Ok ()) →
  ∃ m body r,
    generate model pick m (pre ++ [s; EOI] ++ text ++ [BOI]) q =
      (r, (pre ++ [s; EOI] ++ text) ++ [BOI] ++ known ++ [IMG] ++ body ++ [EOI], Ok ()) ∧
    body_ok h w body.
Proof.
  intros Hpick Hsup Hh Hw Hknown Him Htext Hg. pose proof Hknown as [_ Hplain].
  destruct (close_call pre s p0 h w p Him) as (r0 & Hr0 & Hc).
  pose proof (text_phase pick text n pre s EOI p0 h w p q r0 Htext Hc Hr0 Hg) as Hq.
  pose proof (settled_supported _ _ _ _ Hsup Hq) as Hsq. destruct Hq.
  replace (pre ++ [s; EOI] ++ text ++ [BOI]) with ((pre ++ [s; EOI] ++ text) ++ [BOI]) by by rewrite <- !app_assoc.
  destruct (header_phase_forced pick (pre ++ [s; EOI] ++ text) q h w known Hpick Hsq st_visual0 st_height0 st_width0 Hknown)
    as (q2 & Hg2 & Hq2).
  destruct (image_phase pick _ q h w _ _ q2 Hpick Hsq st_visual0 Hh Hw Hplain (size_known _ _ _ _ st_height0 st_width0) Hg2 Hq2)
    as (m & body & r & Hg3 & Hb & _).
  by eexists _, body, r.
Qed.
End generation.

(** ** A concrete tokenizer and sampler *)

Definition demo_tok (c : ascii) : Z := if Ascii.eqb c "*" then 9 else Z.of_nat (nat_of_ascii c) - 33.
Definition demo_char (t : Z) : ascii := if t =? 9 then "*"%char else ascii_of_nat (Z.to_nat (t + 33)).

#[local] Instance demo_tokenizer : Tokenizer := {|
  tk_encode s := Ok (toks demo_tok s);
  tk_decode ts := Ok (foldr String "" (demo_char <$> ts));
|}.

Definition demo_model (ids mask : list Z) (use_cache : bool) (cache : option unit) : option unit := Some ().

(** Takes the last token a mask lists. *)
Definition demo_pick (ids : list Z) (a : score_mask) : Z :=
  match a with
  | Only ts => default 0 (last ts)
  | FromToken lo => lo
  | BelowToken hi => if BOI <? hi then BOI else hi - 1
  end.

Lemma demo_pick_legal : legal demo_pick.
Proof.
  intros ids [ts|lo|hi] [t Ht]; simpl in *; [|lia|destruct (Z.ltb_spec BOI hi); lia].
  apply bool_decide_eq_true in Ht. apply bool_decide_eq_true.
  destruct ts as [|x ts _] using rev_ind; [by apply elem_of_nil in Ht|]. rewrite last_snoc. simpl. set_solver.
Qed.

Definition demo_processor (height width : option Z) : processor (C:=unit) :=
  match processor_init "no_text" true false "none" 3 height width [7; 8] None None None with Ok p => p | Err _ =>
    Processor "" false false "" 0 [] 0 (Context [] [] [] [] true None) (Context [] [] [] [] true None) [] false false
      false 0 None None None 0 end.

Lemma demo_round s : sforall (λ c, is_digit c || Ascii.eqb c "*") s = true → foldr String "" (demo_char <$> toks demo_tok s) = s.
Proof.
  induction s as [|c s IH]; [done|]. cbn [sforall]. intros [Hc Hs]%andb_prop.
  change (foldr _ _ _) with (String (demo_char (demo_tok c)) (foldr String "" (demo_char <$> toks demo_tok s))).
  rewrite (IH Hs). f_equal. clear IH Hs. unfold is_digit in Hc. by destruct c as [[] [] [] [] [] [] [] []].
Qed.

Lemma demo_chars height width : char_tokens demo_tok (demo_processor height width).
Proof.
  assert (∀ c, is_digit c = true ∨ c = "*"%char → demo_char (demo_tok c) = c) as Hinv.
  { intros c [Hc| ->]; [|done]. unfold is_digit in Hc. by destruct c as [[] [] [] [] [] [] [] []]. }
  split; [reflexivity|reflexivity|..].
  - intros c d Hc Hd Heq. by rewrite <- (Hinv c Hc), <- (Hinv d Hd), Heq.
  - intros c [Hc| ->]; [|done]. unfold is_digit in Hc. unfold inner. by destruct c as [[] [] [] [] [] [] [] []].
  - intros hs ws Hh Hw. change (tk_decode ?ts) with (Ok (foldr String "" (demo_char <$> ts))). f_equal. apply demo_round. unfold header_text.
    assert (∀ s, sforall is_digit s = true → sforall (λ c, is_digit c || Ascii.eqb c "*") s = true) as Himp.
    { intros s Hs. eapply sforall_impl; [|exact Hs]. intros c ->. done. }
    pose proof (Himp _ Hh) as H1. pose proof (Himp _ Hw) as H2. clear Hh Hw Himp.
    induction hs as [|c hs IH]; [done|]. apply andb_prop in H1 as [Hc H1]. by apply andb_true_intro; split; [|apply IH].
Qed.

Lemma demo_supported height width : supported (demo_processor height width).
Proof. split; [by left|]. change (lp_decay _) with "none"%string. set_solver. Qed.

Lemma image_completes_auto_witness :
  ∃ n hs ws h w body q,
    generate demo_model demo_pick n ([1; 2] ++ [BOI]) (demo_processor None None) =
      (q, [1; 2] ++ [BOI] ++ toks demo_tok (header_text hs ws) ++ [IMG] ++ body ++ [EOI], Ok ()) ∧
    numeral hs ∧ numeral ws ∧ Z.of_nat (String.length hs) <= 3 ∧ Z.of_nat (String.length ws) <= 3 ∧
    py_int_of_string hs = Some h ∧ py_int_of_string ws = Some w ∧ 1 <= h ∧ 1 <= w ∧
    body_ok h w body ∧ lp_height q = Some h ∧ lp_width q = Some w.
Proof.
  apply (image_completes_auto demo_model demo_tok demo_pick [1; 2] (demo_processor None None));
    [apply demo_pick_legal|apply demo_supported|reflexivity|apply demo_chars| |reflexivity || (vm_compute; discriminate)].
  split; left; reflexivity.
Defined.

Lemma demo_header_known : known_header 2 3 [17; 9; 18].
Proof.
  split; [reflexivity|]. intros t Ht. unfold inner, BOI, EOI, IMG.
  repeat (apply elem_of_cons in Ht as [->|Ht]; [lia|]). by apply elem_of_nil in Ht.
Qed.

Lemma image_completes_known_witness :
  ∃ body q, generate demo_model demo_pick (List.length [17; 9; 18] + 1 + Z.to_nat (2 * (3 + 1))) ([1] ++ [BOI]) (demo_processor (Some 2) (Some 3)) =
    (q, [1] ++ [BOI] ++ [17; 9; 18] ++ [IMG] ++ body ++ [EOI], Ok ()) ∧ body_ok 2 3 body.
Proof.
  apply (image_completes_known demo_model demo_pick [1] (demo_processor (Some 2) (Some 3)) 2 3 [17; 9; 18]);
    [apply demo_pick_legal|apply demo_supported|reflexivity|reflexivity|reflexivity|lia|lia|apply demo_header_known].
Defined.

(** A processor in an image of two by three. *)
Definition demo_imaging : processor (C:=unit) :=
  (generate demo_model demo_pick 12 ([1] ++ [BOI]) (demo_processor (Some 2) (Some 3))).1.1.

Definition demo_between : processor (C:=unit) := (generate demo_model demo_pick 1 ([1] ++ [BOV; EOI]) demo_imaging).1.1.

Lemma later_images_keep_size_witness :
  ∃ m body r,
    generate demo_model demo_pick m ([1] ++ [BOV; EOI] ++ [] ++ [BOI]) demo_between =
      (r, ([1] ++ [BOV; EOI] ++ []) ++ [BOI] ++ [17; 9; 18] ++ [IMG] ++ body ++ [EOI], Ok ()) ∧ body_ok 2 3 body.
Proof.
  apply (later_images_keep_size demo_model demo_pick [1] BOV (demo_processor (Some 2) (Some 3)) 2 3 [17; 9; 18] demo_imaging [] 1);
    [apply demo_pick_legal|apply demo_supported|lia|lia|apply demo_header_known|split; vm_compute; reflexivity| |
     vm_compute; reflexivity].
  intros x Hx. by apply elem_of_nil in Hx.
Defined.
