(* ===== verification/UnisScheduler.v ===== *)
(** * Generation of one image over two cached branches
      ([models/xiaomi_u0/scheduler_unis.py], [models/xiaomi_u0/model_runner_unis.py])

    A runner plans one forward at a time over a pool of key/value slots; a
    branch keeps the history of one runner and serves as the processor's
    model; the scheduler drives both branches, the processor and the sampler.
    The decoder, the attention backend and the numerics of the scores are
    parameters; a slot of the pool is represented by the token whose keys and
    values it holds. *)

From stdpp Require Import gmap.
From S2P Require Import Prelude PyStr VisualTokens.
Open Scope Z_scope.

(** ** The header tokenizer *)

Inductive mapped : Type := Ints (l : list Z) | OtherValue.

Definition expected_header : list (string * list Z) :=
  ((λ i : nat, (z_to_string (Z.of_nat i), [15 + Z.of_nat i])) <$> seq 0 10) ++
  [("*", [9]); ("64*64", [21; 19; 9; 21; 19])]%string.

Definition header_tokenizer : Type := list (string * list Z).

(** [_HeaderTokenizer.__init__] *)
Definition header_init (mapping : gmap string mapped) : res header_tokenizer :=
  _ ← rmap (λ '(key, values),
        ensure (match mapping !! key with Some (Ints l) => bool_decide (l = values) | _ => false end) ValueError)
        expected_header;
  Ok expected_header.

(** [encode], without special tokens, and [decode] *)
Definition header_encode (t : header_tokenizer) (text : string) : res (list Z) :=
  of_option KeyError (snd <$> find (λ e, String.eqb e.1 text) t).

Definition header_decode (t : header_tokenizer) (tokens : list Z) : res string :=
  match List.filter (λ e, bool_decide (e.2 = tokens)) t with [e] => Ok e.1 | _ => Err ValueError end.

Definition header_tokens (t : header_tokenizer) : Tokenizer :=
  {| tk_encode := header_encode t; tk_decode := header_decode t |}.

(** ** The runner *)

(** The metadata of one forward: a ragged prefill or decode suffix of one
    sequence. *)
Record metadata : Type := Metadata {
  md_prefill : bool;
  md_batch : Z;
  md_ragged : bool;
  md_query : Z;
  md_visible : list Z;
  md_writes : list Z;
  md_positions : list Z;
}.

Definition zrange (start stop : Z) : list Z := seqZ start (stop - start).

(** [_metadata] *)
Definition make_metadata (start stop : Z) : metadata :=
  Metadata (start =? 0) 1 true (stop - start) (zrange 0 stop) (zrange start stop) (zrange start stop).

Record runner : Type := Runner {
  rn_capacity : Z;
  rn_up : bool;
  rn_meta : option metadata;
  rn_slots : gmap Z Z;
}.

Section runner.
(** The backend's [init_forward_metadata], and the decoder: the tokens, their
    positions and the slots it reads. *)
Context {L : Type} (plan : metadata → res unit) (decoder : list Z → list Z → gmap Z Z → res L).
Context (max_position : Z) (select_backend : res unit).

(** [UNISModelRunner.__init__] *)
Definition runner_init (capacity : Z) (paged_backend : string) : res runner :=
  _ ← ensure (negb ((capacity <=? 0) || (max_position <? capacity))) ValueError;
  _ ← ensure (String.eqb paged_backend "flashinfer") ValueError;
  Ok (Runner capacity false None ∅).

(** [setup]: the backend is selected and seeded with a plan at capacity. *)
Definition runner_setup (r : runner) : res runner :=
  _ ← ensure (negb (rn_up r)) RuntimeError;
  _ ← select_backend;
  _ ← plan (make_metadata 0 (rn_capacity r));
  Ok (Runner (rn_capacity r) true (rn_meta r) (rn_slots r)).

(** [plan_inference] *)
Definition plan_inference (meta : metadata) (r : runner) : res runner :=
  _ ← ensure (rn_up r) RuntimeError;
  _ ← ensure ((md_batch meta =? 1) && md_ragged meta) ValueError;
  _ ← ensure ((0 <? md_query meta) && (md_query meta <=? rn_capacity r)) ValueError;
  _ ← ensure (Z.of_nat (List.length (md_writes meta)) =? md_query meta) ValueError;
  _ ← ensure (Z.of_nat (List.length (md_visible meta)) <=? rn_capacity r) ValueError;
  _ ← plan meta;
  Ok (Runner (rn_capacity r) (rn_up r) (Some meta) (rn_slots r)).

(** The keys and values of the tokens at the planned slots. *)
Fixpoint write_slots (slots ids : list Z) (pool : gmap Z Z) : gmap Z Z :=
  match slots, ids with
  | s :: slots', t :: ids' => write_slots slots' ids' (<[s := t]> pool)
  | _, _ => pool
  end.

(** [forward]: the plan is consumed before the decoder runs. *)
Definition runner_forward (ids positions : list Z) (r : runner) : runner * res L :=
  match rn_meta r with
  | None => (r, Err RuntimeError)
  | Some meta =>
      if negb (rn_up r) then (r, Err RuntimeError)
      else if negb (Z.of_nat (List.length ids) =? md_query meta) then (r, Err ValueError)
      else if negb (Nat.eqb (List.length positions) (List.length ids)) then (r, Err ValueError)
      else if negb (bool_decide (positions = md_positions meta)) then (r, Err ValueError)
      else
        let pool := write_slots (md_writes meta) ids (rn_slots r) in
        let visible := filter (λ e, e.1 ∈ md_visible meta) pool in
        (Runner (rn_capacity r) (rn_up r) None pool, decoder ids positions visible)
  end.

(** [reset] zeroes the pool; [close] releases it. *)
Definition runner_reset (r : runner) : res runner :=
  _ ← ensure (rn_up r) RuntimeError; Ok (Runner (rn_capacity r) true None ∅).

Definition runner_close (r : runner) : runner := Runner (rn_capacity r) false None ∅.

(** ** Branches *)

Record branch : Type := Branch { br_runner : runner; br_history : option (list Z); br_logits : option L }.

Definition branch_new (r : runner) : branch := Branch r None None.

Definition history_length (b : branch) : Z :=
  match br_history b with None => 0 | Some h => Z.of_nat (List.length h) end.

(** [_Branch.forward] *)
Definition branch_forward (ids : list Z) (b : branch) : branch * res L :=
  let start := history_length b in
  let history := if start =? 0 then ids else default [] (br_history b) ++ ids in
  let stop := Z.of_nat (List.length history) in
  match plan_inference (make_metadata start stop) (br_runner b) with
  | Err e => (Branch (br_runner b) (Some history) (br_logits b), Err e)
  | Ok r =>
      match runner_forward ids (zrange start stop) r with
      | (r, Err e) => (Branch r (Some history) (br_logits b), Err e)
      | (r, Ok logits) => (Branch r (Some history) (Some logits), Ok logits)
      end
  end.

(** [_Branch.__call__]; the cache handle is the branch itself, [Some tt]. *)
Definition branch_call (c : model_call (C:=unit)) (b : branch) : branch * res unit :=
  if negb (mc_use_cache c) || negb (forallb (Z.eqb 1) (mc_mask c)) then (b, Err ValueError)
  else
    let refused := match br_history b, mc_cache c with
                   | None, Some _ => true
                   | None, None => false
                   | Some _, Some _ => negb (Nat.eqb (List.length (mc_ids c)) 1)
                   | Some _, None => true
                   end in
    if refused then (b, Err ValueError)
    else match branch_forward (mc_ids c) b with
         | (b, Err e) => (b, Err e)
         | (b, Ok _) => (b, ensure (Z.of_nat (List.length (mc_mask c)) =? history_length b) ValueError)
         end.

(** The calls the processor made, in order. *)
Fixpoint branch_calls (cs : list (model_call (C:=unit))) (b : branch) : branch * res unit :=
  match cs with
  | [] => (b, Ok ())
  | c :: cs' => match branch_call c b with (b, Err e) => (b, Err e) | (b, Ok _) => branch_calls cs' b end
  end.
End runner.

(** ** The scheduler *)

Definition IMAGE_TOKEN_COUNT : nat := 4169.
Definition IMAGE_TRAILER : list Z := [EOI; 151747].

(** [_image_trailer_ready] *)
Definition image_trailer_ready (generated : list Z) : bool :=
  Nat.eqb (List.length generated) (IMAGE_TOKEN_COUNT - 1) &&
  bool_decide (drop (List.length generated - 2) generated = IMAGE_TRAILER).

(** [UNISGenerationRequest]; the sequences are unpadded and tokenized. *)
Record request : Type := Request {
  rq_input_ids : list Z;
  rq_unconditional_ids : list Z;
  rq_max_new_tokens : Z;
  rq_seed : Z;
  rq_replay_ids : option (list Z);
  rq_capture_steps : list Z;
}.

(** [UNISGenerationResult]; of a trace, its step. *)
Record generated : Type := Generated {
  gn_ids : list Z;
  gn_stop_reason : string;
  gn_replay : bool;
  gn_conditional_cached : Z;
  gn_unconditional_cached : Z;
  gn_traces : list Z;
}.

Record scheduler : Type := Scheduler {
  sc_capacity : Z;
  sc_tokenizer : header_tokenizer;
  sc_conditional : runner;
  sc_unconditional : runner;
  sc_ready : bool;
}.

Section scheduler.
Context {L : Type} (plan : metadata → res unit) (decoder : list Z → list Z → gmap Z Z → res L).
Context (max_position vocabulary : Z) (select_backend : res unit).
(** The numerics of sampling: whether the processed scores hold no NaN and
    some finite value, and the draw from the scores that remain, with [EOS]
    masked or not; and whether seeding accepts the device. *)
Context (scores_ok : L → score_mask → bool) (draw : nat → Z → L → score_mask → bool → res Z) (seed_request : Z → res unit).

(** [UNISGenerationScheduler.__init__] *)
Definition scheduler_init (capacity : Z) (mapping : gmap string mapped) (paged_backend : string) : res scheduler :=
  tokenizer ← header_init mapping;
  conditional ← runner_init max_position capacity paged_backend;
  unconditional ← runner_init max_position capacity paged_backend;
  Ok (Scheduler capacity tokenizer conditional unconditional false).

(** [close] *)
Definition scheduler_close (s : scheduler) : scheduler :=
  Scheduler (sc_capacity s) (sc_tokenizer s) (runner_close (sc_conditional s)) (runner_close (sc_unconditional s)) false.

(** [setup]: both runners, or neither. *)
Definition scheduler_setup (s : scheduler) : scheduler * res unit :=
  if sc_ready s then (s, Err RuntimeError)
  else match runner_setup plan select_backend (sc_conditional s) with
       | Err e => (scheduler_close s, Err e)
       | Ok conditional =>
           match runner_setup plan select_backend (sc_unconditional s) with
           | Err e => (scheduler_close s, Err e)
           | Ok unconditional =>
               (Scheduler (sc_capacity s) (sc_tokenizer s) conditional unconditional true, Ok ())
           end
       end.

Definition in_vocabulary (ids : list Z) : bool := forallb (λ t, (0 <=? t) && (t <? vocabulary)) ids.

(** What [step] requires of a request before it touches a runner. *)
Definition validate_request (s : scheduler) (rq : request) : res unit :=
  _ ← rmap (λ ids,
        _ ← ensure (Nat.leb 2 (List.length ids)) ValueError;
        ensure (in_vocabulary ids) ValueError) [rq_input_ids rq; rq_unconditional_ids rq];
  _ ← ensure (0 <? rq_max_new_tokens rq) ValueError;
  let longest := Z.max (Z.of_nat (List.length (rq_input_ids rq))) (Z.of_nat (List.length (rq_unconditional_ids rq))) in
  _ ← ensure (longest + rq_max_new_tokens rq <=? sc_capacity s) ValueError;
  _ ← match rq_replay_ids rq with
      | None => Ok ()
      | Some replay =>
          _ ← ensure (rq_max_new_tokens rq <=? Z.of_nat (List.length replay)) ValueError;
          ensure (in_vocabulary replay) ValueError
      end;
  ensure (forallb (λ step, (0 <=? step) && (step <? rq_max_new_tokens rq)) (rq_capture_steps rq)) ValueError.

(** The state of one generation. *)
Record generation : Type := Generation {
  g_conditional : branch (L:=L);
  g_unconditional : branch (L:=L);
  g_processor : processor (C:=unit);
  g_generated : list Z;
  g_query : list Z;
  g_traces : list Z;
}.

(** One prediction: the conditional forward, the processor over the whole
    history (its model calls go to the unconditional branch), the draw.  The
    token is returned with the state; [EOS] ends the loop. *)
Definition predict (tokenizer : header_tokenizer) (rq : request) (g : generation) : generation * res Z :=
  let step := List.length (g_generated g) in
  let with_branches cond unc p traces := Generation cond unc p (g_generated g) (g_query g) traces in
  match branch_forward plan decoder (g_query g) (g_conditional g) with
  | (cond, Err e) => (with_branches cond (g_unconditional g) (g_processor g) (g_traces g), Err e)
  | (cond, Ok raw) =>
      let '(p, r) := @call (header_tokens tokenizer) unit (λ _ _ _ _, Some ()) (default [] (br_history cond)) (g_processor g) in
      let '(unc, served) := branch_calls plan decoder (drop (List.length (lp_calls (g_processor g))) (lp_calls p)) (g_unconditional g) in
      let ready := image_trailer_ready (g_generated g) in
      let traces := if bool_decide (Z.of_nat step ∈ rq_capture_steps rq) then g_traces g ++ [Z.of_nat step] else g_traces g in
      (with_branches cond unc p traces,
       _ ← served;
       a ← r;
       _ ← ensure (scores_ok raw a) RuntimeError;
       token ← match rq_replay_ids rq with
               | None => draw step (rq_seed rq) raw a ready
               | Some replay => of_option RuntimeError (replay !! step)
               end;
       _ ← ensure (negb ((token =? EOS) && negb ready)) ValueError;
       Ok token)
  end.

Definition append_token (t : Z) (g : generation) : generation :=
  Generation (g_conditional g) (g_unconditional g) (g_processor g) (g_generated g ++ [t]) [t] (g_traces g).

(** The loop of [step], for at most [n] more predictions. *)
Fixpoint predict_loop (tokenizer : header_tokenizer) (rq : request) (n : nat) (g : generation) : generation * res string :=
  match n with
  | O => (g, Ok "length"%string)
  | S n' =>
      match predict tokenizer rq g with
      | (g, Err e) => (g, Err e)
      | (g, Ok t) =>
          let g := append_token t g in
          if t =? EOS then (g, Ok "eos"%string) else predict_loop tokenizer rq n' g
      end
  end.

(** The fixed settings of the processor: two 64-by-64 headers, no text in the
    unconditional branch. *)
Definition make_processor (tokenizer : header_tokenizer) (unconditional_ids : list Z) : res (processor (C:=unit)) :=
  @processor_init (header_tokens tokenizer) unit "no_text" true true "none" 3 (Some 64) (Some 64) unconditional_ids None None None.

Definition set_runners (s : scheduler) (conditional unconditional : runner) : scheduler :=
  Scheduler (sc_capacity s) (sc_tokenizer s) conditional unconditional (sc_ready s).

(** [step] *)
Definition scheduler_step (rq : request) (s : scheduler) : scheduler * res generated :=
  if negb (sc_ready s) then (s, Err RuntimeError)
  else match validate_request s rq with
  | Err e => (s, Err e)
  | Ok _ =>
      match runner_reset (sc_conditional s) with
      | Err e => (s, Err e)
      | Ok conditional =>
          let s := set_runners s conditional (sc_unconditional s) in
          match runner_reset (sc_unconditional s) with
          | Err e => (s, Err e)
          | Ok unconditional =>
              let s := set_runners s conditional unconditional in
              match p ← make_processor (sc_tokenizer s) (rq_unconditional_ids rq); _ ← seed_request (rq_seed rq); Ok p with
              | Err e => (s, Err e)
              | Ok p =>
                  let g := Generation (branch_new conditional) (branch_new unconditional) p [] (rq_input_ids rq) [] in
                  let '(g, reason) := predict_loop (sc_tokenizer s) rq (Z.to_nat (rq_max_new_tokens rq)) g in
                  (set_runners s (br_runner (g_conditional g)) (br_runner (g_unconditional g)),
                   reason ← reason;
                   Ok (Generated (g_generated g) reason (bool_decide (rq_replay_ids rq ≠ None))
                         (history_length (g_conditional g)) (history_length (g_unconditional g)) (g_traces g)))
              end
          end
      end
  end.
End scheduler.
