(* ===== verification/UnisProps.v ===== *)
(** * Properties of image generation

    The branch accepts every call the processor makes; the slots of a runner
    hold the tokens of its branch; a generation ends as its request says, and
    a request that fails leaves a scheduler that serves the next one. *)

From stdpp Require Import gmap.
From S2P Require Import Prelude PyStr VisualTokens VisualProps UnisScheduler.
Open Scope Z_scope.

(** ** Ranges and slots *)

Lemma zrange_cons s e : s < e → zrange s e = s :: zrange (s + 1) e.
Proof. intros. unfold zrange. rewrite seqZ_cons by lia. f_equal. f_equal; lia. Qed.

Lemma zrange_length s e : s ≤ e → Z.of_nat (List.length (zrange s e)) = e - s.
Proof. intros. unfold zrange. rewrite length_seqZ. lia. Qed.

(** Writing consecutive slots. *)
Lemma write_slots_outside ids : ∀ s pool (i : Z),
  (i < s ∨ s + Z.of_nat (List.length ids) <= i) →
  write_slots (zrange s (s + Z.of_nat (List.length ids))) ids pool !! i = pool !! i.
Proof.
  induction ids as [|t ids IH]; intros s pool i Hi; [by destruct (zrange _ _)|].
  rewrite zrange_cons by (simpl; lia). cbn [write_slots].
  replace (s + Z.of_nat (List.length (t :: ids))) with (s + 1 + Z.of_nat (List.length ids)) in * by (simpl; lia).
  rewrite IH by lia. apply lookup_insert_ne. lia.
Qed.

Lemma write_slots_inside ids : ∀ s pool (k : nat),
  (k < List.length ids)%nat →
  write_slots (zrange s (s + Z.of_nat (List.length ids))) ids pool !! (s + Z.of_nat k) = ids !! k.
Proof.
  induction ids as [|t ids IH]; intros s pool k Hk; [simpl in Hk; lia|].
  rewrite zrange_cons by (simpl; lia). cbn [write_slots].
  replace (s + Z.of_nat (List.length (t :: ids))) with (s + 1 + Z.of_nat (List.length ids)) by (simpl; lia).
  destruct k as [|k].
  - rewrite write_slots_outside by lia. rewrite Z.add_0_r. apply lookup_insert_eq.
  - replace (s + Z.of_nat (S k)) with (s + 1 + Z.of_nat k) by lia. rewrite IH by (simpl in Hk; lia). done.
Qed.

Section branches.
Context {L : Type} (plan : metadata → res unit) (decoder : list Z → list Z → gmap Z Z → res L).

Definition history (b : branch (L:=L)) : list Z := default [] (br_history b).

(** The slots of a branch's runner hold its history. *)
Definition synced (b : branch (L:=L)) : Prop :=
  (br_history b = Some [] → False) ∧
  ∀ i : nat, rn_slots (br_runner b) !! Z.of_nat i = history b !! i.

Lemma history_length_history b : history_length b = Z.of_nat (List.length (history b)).
Proof. unfold history_length, history. by destruct (br_history b). Qed.

Lemma next_history ids b :
  (if history_length b =? 0 then ids else default [] (br_history b) ++ ids) = history b ++ ids.
Proof.
  rewrite history_length_history. destruct (Z.eqb_spec (Z.of_nat (List.length (history b))) 0) as [H0|_]; [|done].
  by rewrite (nil_length_inv (history b)) by lia.
Qed.

(** What a runner keeps. *)
Definition same_runner (r r' : runner) : Prop := rn_capacity r' = rn_capacity r ∧ rn_up r' = rn_up r.

Lemma plan_runner meta r r' : plan_inference plan meta r = Ok r' →
  same_runner r r' ∧ rn_slots r' = rn_slots r ∧ rn_meta r' = Some meta ∧
  Z.of_nat (List.length (md_visible meta)) <= rn_capacity r.
Proof. unfold plan_inference. intros Hp. inv_bind. split; [done|]. split; [done|]. split; [done|]. by apply Z.leb_le. Qed.

Lemma forward_runner ids positions r r' (x : res L) : runner_forward decoder ids positions r = (r', x) → same_runner r r'.
Proof.
  unfold runner_forward. destruct (rn_meta r) as [m|]; [|by intros [= <- <-]].
  repeat (case_match; [by intros [= <- _]|]). by intros [= <- _].
Qed.

Lemma forward_slots ids positions r r' (l : L) meta :
  rn_meta r = Some meta → runner_forward decoder ids positions r = (r', Ok l) →
  rn_slots r' = write_slots (md_writes meta) ids (rn_slots r).
Proof. unfold runner_forward. intros ->. repeat (case_match; [done|]). by intros [= <- _]. Qed.

Lemma branch_forward_runner ids b b' x :
  branch_forward plan decoder ids b = (b', x) → same_runner (br_runner b) (br_runner b').
Proof.
  unfold branch_forward. destruct (plan_inference _ _ _) as [r|e] eqn:Hp; [|by intros [= <- <-]].
  destruct (plan_runner _ _ _ Hp) as ([Hc Hu] & _). destruct (runner_forward _ _ _ _) as [r2 [l|e]] eqn:Hf;
    pose proof (forward_runner _ _ _ _ _ Hf) as [Hc2 Hu2]; intros [= <- <-]; split; simpl; congruence.
Qed.

Lemma branch_call_runner c b b' x :
  branch_call plan decoder c b = (b', x) → same_runner (br_runner b) (br_runner b').
Proof.
  unfold branch_call. destruct (branch_forward plan decoder (mc_ids c) b) as [b2 y] eqn:Hf.
  apply branch_forward_runner in Hf. repeat case_match; intros [= <- _]; done.
Qed.

Lemma branch_calls_runner cs : ∀ b b' x,
  branch_calls plan decoder cs b = (b', x) → same_runner (br_runner b) (br_runner b').
Proof.
  induction cs as [|c cs IH]; intros b b' x; simpl; [by intros [= <- <-]|].
  destruct (branch_call _ _ _ _) as [b2 [l|e]] eqn:Hc; pose proof (branch_call_runner _ _ _ _ Hc) as [Ha Hb];
    [intros [Hc2 Hd]%IH|intros [= <- <-]]; split; congruence.
Qed.

(** A forward appends its tokens to the history and to the slots. *)
Lemma branch_forward_ok ids b b' l :
  ids ≠ [] → synced b → branch_forward plan decoder ids b = (b', Ok l) →
  synced b' ∧ br_history b' = Some (history b ++ ids) ∧
  Z.of_nat (List.length (history b ++ ids)) <= rn_capacity (br_runner b).
Proof.
  intros Hne [Hnone Hs]. unfold branch_forward.
  rewrite next_history, history_length_history. set (st := Z.of_nat (List.length (history b))).
  set (en := Z.of_nat (List.length (history b ++ ids))).
  assert (en = st + Z.of_nat (List.length ids)) as Hen by (unfold en, st; rewrite length_app; lia).
  assert (0 < Z.of_nat (List.length ids)) by (destruct ids; [done|simpl; lia]).
  destruct (plan_inference _ _ _) as [r|e] eqn:Hp; [|done].
  destruct (plan_runner _ _ _ Hp) as (_ & Hslots & Hmeta & Hvis). simpl in Hvis. rewrite zrange_length in Hvis by lia.
  destruct (runner_forward _ _ _ _) as [r2 [l2|e]] eqn:Hf; [|done]. intros [= <- _].
  pose proof (forward_slots _ _ _ _ _ _ Hmeta Hf) as Hw. simpl in Hw.
  split; [|split; [done|lia]].
  - split; [by destruct (history b); [destruct ids|]|]. intros i. change (history (Branch ?a (Some ?h) ?c)) with h. simpl br_runner.
    rewrite Hw, Hslots, Hen. destruct (decide (i < List.length (history b))%nat) as [Hi|Hi].
    + rewrite write_slots_outside by (unfold st; lia). rewrite Hs. by rewrite lookup_app_l.
    + destruct (decide (i < List.length (history b) + List.length ids)%nat) as [Hi2|Hi2].
      * replace (Z.of_nat i) with (st + Z.of_nat (i - List.length (history b))) by (unfold st; lia).
        rewrite write_slots_inside by lia. by rewrite lookup_app_r by lia.
      * rewrite write_slots_outside by (unfold st; lia). rewrite Hs, lookup_ge_None_2 by lia.
        symmetry. apply lookup_ge_None_2. rewrite length_app. lia.
Qed.

(** A forward that fits succeeds when the backend and the decoder do. *)
Lemma branch_forward_total ids b :
  (∀ s e, 0 <= s < e → e <= rn_capacity (br_runner b) → plan (make_metadata s e) = Ok ()) →
  (∀ i p v, is_ok (decoder i p v) = true) →
  rn_up (br_runner b) = true → ids ≠ [] →
  Z.of_nat (List.length (history b ++ ids)) <= rn_capacity (br_runner b) →
  ∃ b' l, branch_forward plan decoder ids b = (b', Ok l).
Proof.
  intros Hplan Hdec Hup Hne Hcap. unfold branch_forward.
  rewrite next_history, history_length_history. set (st := Z.of_nat (List.length (history b))).
  set (en := Z.of_nat (List.length (history b ++ ids))) in *.
  assert (en = st + Z.of_nat (List.length ids)) as Hen by (unfold en, st; rewrite length_app; lia).
  assert (0 < Z.of_nat (List.length ids)) by (destruct ids; [done|simpl; lia]). assert (0 <= st) by (unfold st; lia).
  unfold plan_inference. rewrite Hup, (Hplan st en) by lia. simpl.
  rewrite !zrange_length by lia. rewrite Z.eqb_refl.
  rewrite (proj2 (Z.ltb_lt 0 (en - st))), (proj2 (Z.leb_le (en - st) _)), (proj2 (Z.leb_le (en - 0) _)) by lia. simpl.
  unfold runner_forward. simpl.
  rewrite (proj2 (Z.eqb_eq (Z.of_nat (List.length ids)) (en - st))) by lia. simpl.
  rewrite (proj2 (Nat.eqb_eq (List.length (zrange st en)) _)).
  2:{ pose proof (zrange_length st en). lia. }
  rewrite bool_decide_eq_true_2 by done. simpl.
  match goal with |- context [decoder ?i ?p ?v] => pose proof (Hdec i p v); destruct (decoder i p v) as [l|e] end;
    [by eexists _, l|done].
Qed.
End branches.

(** ** The processor and its branch *)

Section processor.
Context `{Tokenizer} {L : Type} (plan : metadata → res unit) (decoder : list Z → list Z → gmap Z Z → res L).

Abbreviation handle := (λ (_ _ : list Z) (_ : bool) (_ : option unit), Some ()).

(** What the unconditional branch sees of the processor. *)
Definition unc_view (p : processor (C:=unit)) := (lp_type p, lp_use_cache p, lp_unc p, lp_calls p).

(** One forward of a cached branch without text. *)
Definition next_context (ids : list Z) (c : context (C:=unit)) : context * list Z :=
  let '(query, c) := forward_ids true (update_context ids c) in (store_cache true (Some ()) c, query).

Lemma view_uncond ids p :
  lp_type p = "no_text"%string → lp_use_cache p = true →
  unc_view (get_unconditional_logits handle ids p) =
  let '(c, query) := next_context ids (lp_unc p) in
  ("no_text"%string, true, c,
   lp_calls p ++ [call_of true query (forward_ids true (update_context ids (lp_unc p))).2]).
Proof.
  intros Ht Hu. unfold unc_view, next_context, get_unconditional_logits. rewrite Hu.
  destruct (forward_ids true _) as [i c] eqn:Hf. cbn [set_contexts lp_type lp_unc]. rewrite Ht. simpl. by rewrite Ht, Hu.
Qed.

Lemma parse_view ids p q r : parse_hw ids p = (q, r) → unc_view q = unc_view p.
Proof. unfold parse_hw. intros Hp. repeat (case_match; simplify_eq; try done). Qed.

Lemma in_image_view ids p q r :
  in_image_logits_processor handle ids p = (q, r) → unc_view q = unc_view (get_unconditional_logits handle ids p).
Proof.
  unfold in_image_logits_processor. set (g := get_unconditional_logits _ _ _). clearbody g.
  destruct (lp_in_visual g); [intros Hq; repeat (case_match; simplify_eq; try done)|].
  destruct (from_end ids 1) as [t|e]; [|by intros [= <- <-]].
  destruct (t =? IMG); [|intros Hq; repeat (case_match; simplify_eq; try done)].
  destruct (lp_first_in_image _ || _); [|by intros [= <- <-]].
  destruct (match lp_height _ with Some _ => _ | None => _ end) as [g2 r2] eqn:Hp.
  assert (unc_view g2 = unc_view g) as Hg.
  { revert Hp. repeat case_match; try (by intros [= <- <-]); intros Hp%parse_view; by rewrite Hp. }
  destruct r2; intros [= <- <-]; exact Hg.
Qed.

(** A call makes no forward, or one. *)
Lemma call_view ids p q r :
  lp_type p = "no_text"%string → call handle ids p = (q, r) →
  unc_view q = unc_view p ∨ ∃ p1, unc_view p1 = unc_view p ∧ unc_view q = unc_view (get_unconditional_logits handle ids p1).
Proof.
  intros Ht. unfold call. destruct (from_end ids 1) as [t|e]; [|intros [= <- <-]; by left].
  destruct (t =? BOI) eqn:Hb.
  - unfold set_unconditional_context. cbn [set_flags lp_type]. rewrite Ht. simpl.
    apply Z.eqb_eq in Hb as ->. simpl. intros Hq%in_image_view. right. eexists. split; [|exact Hq]. done.
  - destruct (t =? EOI).
    + set (g := exit_image handle ids p).
      assert (lp_in_image g = false) as Hi.
      { unfold g, exit_image. destruct (same_uncond handle ids (set_flags p (lp_first_in_image p) false false (lp_image_nums p))).
        by rewrite sm_image. }
      assert (unc_view g = unc_view (get_unconditional_logits handle ids (set_flags p (lp_first_in_image p) false false (lp_image_nums p)))) as Hg by done.
      intros Hc. right. exists (set_flags p (lp_first_in_image p) false false (lp_image_nums p)). split; [done|].
      rewrite <- Hg. clearbody g. destruct (from_end ids 2) as [b|e]; simpl in Hc; [|by injection Hc as <- _].
      destruct (b =? EOI); simpl in Hc; rewrite Hi in Hc; by injection Hc as <- _.
    + destruct (from_end ids 2) as [b|e]; simpl; [|intros [= <- <-]; by left].
      destruct (b =? EOI); simpl; destruct (lp_in_image p); try (intros [= <- <-]; by left);
        intros Hq%in_image_view; right; (eexists; split; [|exact Hq]; done).
Qed.

(** A processor whose unconditional history is the branch's. *)
Record serves (p : processor (C:=unit)) (b : branch (L:=L)) : Prop := {
  sv_type : lp_type p = "no_text"%string;
  sv_cached : lp_use_cache p = true;
  sv_ones : forallb (Z.eqb 1) (cx_mask (lp_unc p)) = true;
  sv_mask : List.length (cx_mask (lp_unc p)) = List.length (cx_ids (lp_unc p));
  sv_history : match br_history b with
               | None => cx_first_pass (lp_unc p) = true ∧ cx_cache (lp_unc p) = None
               | Some h => h = cx_ids (lp_unc p) ∧ cx_first_pass (lp_unc p) = false ∧ cx_cache (lp_unc p) = Some ()
               end;
}.

Lemma serves_view p q b : unc_view q = unc_view p → serves p b → serves q b.
Proof. intros [= Ht Hu Hc _] []. split; by rewrite ?Ht, ?Hu, ?Hc. Qed.

(** The branch's checks all hold of the call of a forward. *)
Lemma serves_call ids p b c :
  serves p b → synced b → ids ≠ [] → c = update_context ids (lp_unc p) →
  branch_call plan decoder (call_of true (forward_ids true c).1 (forward_ids true c).2) b =
  match branch_forward plan decoder (forward_ids true c).1 b with
  | (b', Err e) => (b', Err e)
  | (b', Ok _) => (b', ensure (Z.of_nat (List.length (cx_mask c)) =? history_length b') ValueError)
  end ∧
  history b ++ (forward_ids true c).1 = cx_ids c ∧ (forward_ids true c).1 ≠ [] ∧
  List.length (cx_mask c) = List.length (cx_ids c) ∧ forallb (Z.eqb 1) (cx_mask c) = true ∧
  List.length (cx_ids c) = S (List.length (cx_ids (lp_unc p))).
Proof.
  intros [] [Hsn _] Hne ->. unfold update_context.
  assert (∃ t, last ids = Some t) as [t ->].
  { destruct (last ids) as [t|] eqn:Hl; [by exists t|]. by apply last_None in Hl. }
  unfold forward_ids, branch_call, history. cbn [cx_first_pass cx_ids cx_mask cx_cache].
  assert (forallb (Z.eqb 1) (cx_mask (lp_unc p) ++ ((λ _, 1) <$> [t])) = true) as Hones.
  { rewrite forallb_app, sv_ones0. done. }
  destruct (br_history b) as [h|].
  - destruct sv_history0 as (-> & Hf & Hc). rewrite Hf. cbn [negb andb fst snd call_of mc_use_cache mc_mask mc_cache mc_ids cx_mask cx_cache].
    rewrite Hones, Hc, last_snoc. cbn. rewrite !length_app, sv_mask0. simpl. split_and!; try done; lia.
  - destruct sv_history0 as (Hf & Hc). rewrite Hf. cbn [negb andb fst snd call_of mc_use_cache mc_mask mc_cache mc_ids cx_mask cx_cache cx_ids].
    rewrite Hones, Hc. cbn. rewrite !length_app, sv_mask0. simpl. split_and!; try done; [by destruct (cx_ids _)|lia].
Qed.

(** What one call of the processor asks of the branch. *)
Lemma call_serves ids p q r b :
  ids ≠ [] → call handle ids p = (q, r) → serves p b → synced b →
  let new := drop (List.length (lp_calls p)) (lp_calls q) in
  (∃ k, cx_ids (lp_unc q) = cx_ids (lp_unc p) ++ k ∧ (List.length k ≤ 1)%nat) ∧
  (∀ b', branch_calls plan decoder new b = (b', Ok ()) → serves q b' ∧ synced b') ∧
  ((∀ s e, 0 <= s < e → e <= rn_capacity (br_runner b) → plan (make_metadata s e) = Ok ()) →
   (∀ i p v, is_ok (decoder i p v) = true) → rn_up (br_runner b) = true →
   Z.of_nat (List.length (cx_ids (lp_unc q))) <= rn_capacity (br_runner b) →
   ∃ b', branch_calls plan decoder new b = (b', Ok ())).
Proof.
  intros Hne Hcall Hs Hsync new. destruct (call_view ids p q r (sv_type _ _ Hs) Hcall) as [Hv|(p1 & Hv1 & Hv)].
  { pose proof Hv as [= _ _ Hu Hc]. assert (new = []) as -> by (unfold new; by rewrite Hc, drop_all).
    split; [|split].
    - exists []. rewrite Hu, app_nil_r. split; [done|simpl; lia].
    - intros b' [= <-]. split; [by eapply serves_view|done].
    - intros. by exists b. }
  pose proof (serves_view _ _ _ Hv1 Hs) as Hs1. pose proof Hv1 as [= _ _ Hu1 Hc1].
  destruct (serves_call ids p1 b _ Hs1 Hsync Hne eq_refl) as (Hbc & Hh & Hq & Hlen & Hones & Hgrow).
  rewrite (view_uncond ids p1 (sv_type _ _ Hs1) (sv_cached _ _ Hs1)) in Hv. unfold next_context in Hv.
  set (c := update_context ids (lp_unc p1)) in *.
  destruct (forward_ids true c) as [query c2] eqn:Hf. cbn [fst snd] in *.
  assert (cx_ids c2 = cx_ids c ∧ cx_mask c2 = cx_mask c ∧ cx_first_pass c2 = false) as (Hi2 & Hm2 & Hf2).
  { unfold forward_ids in Hf. destruct (cx_first_pass c) eqn:Hfp; simpl in Hf; by injection Hf as <- <-. }
  injection Hv as Ht Hu Hun Hca. assert (new = [call_of true query c2]) as ->.
  { unfold new. rewrite Hca, Hc1. apply drop_app_length. }
  cbn [branch_calls]. rewrite Hbc. split; [|split].
  - exists (match last ids with Some t => [t] | None => [] end). rewrite Hun. simpl. rewrite Hi2. unfold c. simpl.
    rewrite Hu1. split; [done|]. destruct (last ids); simpl; lia.
  - intros b'. destruct (branch_forward _ _ _ _) as [b2 [l|e]] eqn:Hbf; [|done].
    destruct (branch_forward_ok _ _ _ _ _ _ Hq Hsync Hbf) as (Hsync2 & Hhist & _). rewrite Hh in Hhist.
    destruct (ensure _ _) as [u|e]; [|done]. intros [= <-]. split; [|done].
    split; rewrite ?Ht, ?Hu, ?Hun; simpl; rewrite ?Hm2, ?Hi2; try done. by rewrite Hhist.
  - intros Hplan Hdec Hup Hcap. rewrite Hun in Hcap. simpl in Hcap. rewrite Hi2, <- Hh in Hcap.
    destruct (branch_forward_total plan decoder query b Hplan Hdec Hup Hq Hcap) as (b2 & l & Hbf).
    rewrite Hbf. destruct (branch_forward_ok _ _ _ _ _ _ Hq Hsync Hbf) as (_ & Hhist & _).
    rewrite history_length_history. unfold history. rewrite Hhist, Hlen. simpl. fold (history b). rewrite Hh, Z.eqb_refl. by exists b2.
Qed.

(** With the sizes known every call leaves something to sample. *)
Definition sized (h w : Z) (p : processor (C:=unit)) : Prop :=
  supported p ∧ lp_height p = Some h ∧ lp_width p = Some w.

Lemma fixed_same h w p q : steady p q → sized h w p → sized h w q.
Proof. intros [] ([] & ? & ?). split; [split|split]; congruence. Qed.

Lemma in_image_fixed ids h w p hw :
  (1 ≤ List.length ids)%nat → 0 <= w → tk_encode (z_to_string h +:+ "*" +:+ z_to_string w) = Ok hw → EOS ∉ hw → sized h w p →
  ∃ q a, in_image_logits_processor handle ids p = (q, Ok a) ∧ sized h w q ∧ ∃ t, permits a t = true ∧ t ≠ EOS.
Proof.
  intros Hlen Hw Henc Heos Hfix. unfold in_image_logits_processor. pose proof (same_uncond handle ids p) as Hs.
  set (g := get_unconditional_logits _ _ _) in *. pose proof (fixed_same _ _ _ _ Hs Hfix) as Hg. clearbody g. clear Hs Hfix p.
  pose proof Hg as (Hsup & Hh & Hwd). rewrite Hh, Hwd.
  assert (∃ t, permits (FromToken BOV) t = true ∧ t ≠ EOS) as Hvis by (by exists BOV).
  assert (∀ t, t ≠ EOS → ∃ x, permits (Only [t]) x = true ∧ x ≠ EOS) as Honly
    by (intros t Ht; exists t; split; [by apply bool_decide_eq_true, list_elem_of_singleton|done]).
  destruct (lp_in_visual g).
  - destruct (_ =? _); [eexists _, _; split; [done|]; split; [done|by apply Honly]|]. rewrite (proj2 (Z.eqb_neq (w + 1) 0)) by lia.
    destruct (_ =? 0); [eexists _, _; split; [done|]; split; [done|by apply Honly]|]. rewrite (supported_ok g Hsup). simpl. by eexists _, _.
  - assert (∃ t, from_end ids 1 = Ok t) as [t ->].
    { destruct ids as [|t ids' _] using rev_ind; [simpl in Hlen; lia|]. exists t. apply from_end_snoc. }
    destruct (t =? IMG).
    + destruct (lp_first_in_image _ || _); cbn [set_flags lp_height lp_width lp_first_in_image lp_force_same]; rewrite ?Hh, ?Hwd;
        rewrite supported_ok by exact Hsup; by eexists _, _.
    + rewrite Henc. simpl. eexists _, _. split; [done|]. split; [done|]. unfold forced_token.
      destruct (if _ <=? _ then _ else _) as [x|] eqn:Hx; apply Honly; [|done].
      intros ->. destruct (_ <=? _); [|done]. apply Heos. by eapply list_elem_of_lookup_2.
Qed.

Lemma call_fixed ids h w p hw :
  (2 ≤ List.length ids)%nat → 0 <= w → tk_encode (z_to_string h +:+ "*" +:+ z_to_string w) = Ok hw → EOS ∉ hw → sized h w p →
  ∃ q a, call handle ids p = (q, Ok a) ∧ sized h w q ∧ ∃ t, permits a t = true ∧ t ≠ EOS.
Proof.
  intros Hlen Hw Henc Heos Hfix. unfold call.
  assert (∃ s t, from_end ids 1 = Ok t ∧ from_end ids 2 = Ok s) as (s & t & -> & Hs2).
  { destruct ids as [|t ids' _] using rev_ind; [simpl in Hlen; lia|].
    destruct ids' as [|s ids'' _] using rev_ind; [simpl in Hlen; lia|]. exists s, t. split; [apply from_end_snoc|].
    rewrite <- app_assoc. apply from_end_second. }
  rewrite Hs2. pose proof Hfix as (Hsup & Hh & Hwd). assert (∃ x, permits (BelowToken BOV) x = true ∧ x ≠ EOS) as Htext by (by exists 0).
  destruct (t =? BOI) eqn:Hb.
  - apply Z.eqb_eq in Hb as ->. unfold set_unconditional_context. cbn [set_flags lp_type].
    destruct Hsup as [[Ht|Ht] Hd]; rewrite Ht; simpl; (eapply in_image_fixed; [lia|done|done|done|]); (split; [|done]);
      split; simpl; auto.
  - destruct (t =? EOI); simpl.
    + unfold exit_image. set (f := set_flags p _ false false _).
      pose proof (fixed_same h w _ _ (same_uncond handle ids f)) as Hf.
      pose proof (sm_image _ _ (same_uncond handle ids f)) as Hi. change (lp_in_image f) with false in Hi.
      specialize (Hf Hfix). set (g := get_unconditional_logits _ _ _) in *.
      destruct (s =? EOI); simpl; rewrite Hi; by eexists _, _.
    + destruct (s =? EOI); simpl; (destruct (lp_in_image p); [by eapply in_image_fixed; [lia|done|done|done|]|by eexists _, _]).
Qed.
End processor.

(** ** One generation *)

Section scheduler.
Context {L : Type} (plan : metadata → res unit) (decoder : list Z → list Z → gmap Z Z → res L).
Context (vocabulary : Z).
Context (scores_ok : L → score_mask → bool) (draw : nat → Z → L → score_mask → bool → res Z) (seed_request : Z → res unit).

#[local] Instance header : Tokenizer := header_tokens expected_header.

Abbreviation predict := (predict plan decoder scores_ok draw expected_header).
Abbreviation predict_loop := (predict_loop plan decoder scores_ok draw expected_header).
Abbreviation step := (scheduler_step plan decoder vocabulary scores_ok draw seed_request).

(** The sequence the conditional branch works through. *)
Definition sequence (rq : request) (g : generation (L:=L)) : list Z := rq_input_ids rq ++ g_generated g.

Record live (rq : request) (g : generation (L:=L)) : Prop := {
  lv_conditional : synced (g_conditional g);
  lv_unconditional : synced (g_unconditional g);
  lv_serves : serves (g_processor g) (g_unconditional g);
  lv_fixed : sized 64 64 (g_processor g);
  lv_sequence : history (g_conditional g) ++ g_query g = sequence rq g;
  lv_input : (2 ≤ List.length (rq_input_ids rq))%nat;
  lv_query : g_query g ≠ [];
  lv_last : g_generated g = [] ∨ List.length (g_query g) = 1%nat;
  lv_grown : ∃ k, cx_ids (lp_unc (g_processor g)) = rq_unconditional_ids rq ++ k ∧
    (List.length k ≤ List.length (g_generated g))%nat;
  lv_replay : match rq_replay_ids rq with None => True | Some l => g_generated g `prefix_of` l end;
}.

Lemma header_known : tk_encode (z_to_string 64 +:+ "*" +:+ z_to_string 64) = Ok [21; 19; 9; 21; 19].
Proof. by vm_compute. Qed.

(** What a prediction keeps. *)
Definition same_runners (g g' : generation (L:=L)) : Prop :=
  same_runner (br_runner (g_conditional g)) (br_runner (g_conditional g')) ∧
  same_runner (br_runner (g_unconditional g)) (br_runner (g_unconditional g')).

Lemma same_runners_trans g1 g2 g3 : same_runners g1 g2 → same_runners g2 g3 → same_runners g1 g3.
Proof. intros [[] []] [[] []]. split; split; congruence. Qed.

Lemma predict_runners rq g g' x : predict rq g = (g', x) → same_runners g g'.
Proof.
  unfold UnisScheduler.predict. destruct (branch_forward _ _ _ _) as [c [raw|e]] eqn:Hf.
  - destruct (call _ _ _) as [p r]. destruct (branch_calls _ _ _ _) as [u served] eqn:Hb. intros [= <- _].
    split; [by eapply branch_forward_runner|by eapply branch_calls_runner].
  - intros [= <- _]. split; [by eapply branch_forward_runner|done].
Qed.

Lemma predict_loop_runners rq n : ∀ g g' x, predict_loop rq n g = (g', x) → same_runners g g'.
Proof.
  induction n as [|n IH]; intros g g' x; cbn; [by intros [= <- _]|].
  destruct (UnisScheduler.predict _ _ _ _ _ _ _) as [g1 [t|e]] eqn:Hp; pose proof (predict_runners _ _ _ _ Hp) as Hs;
    [|by intros [= <- _]].
  destruct (t =? EOS); [intros [= <- _]|intros Hl%IH]; (eapply same_runners_trans; [exact Hs|done]).
Qed.

(** A prediction that succeeds. *)
Lemma predict_live rq g g' t :
  live rq g → predict rq g = (g', Ok t) →
  live rq (append_token t g') ∧ g_generated g' = g_generated g ∧ (t = EOS → image_trailer_ready (g_generated g) = true).
Proof.
  intros Hlive. unfold UnisScheduler.predict. destruct (branch_forward _ _ _ _) as [c [raw|e]] eqn:Hf; [|done].
  destruct (branch_forward_ok _ _ _ _ _ _ (lv_query _ _ Hlive) (lv_conditional _ _ Hlive) Hf) as (Hsync & Hh & _).
  rewrite Hh. cbn [default id]. rewrite (lv_sequence _ _ Hlive).
  assert (2 ≤ List.length (sequence rq g))%nat as Hlen
    by (unfold sequence; rewrite length_app; pose proof (lv_input _ _ Hlive); lia).
  destruct (call_fixed (sequence rq g) 64 64 (g_processor g) [21; 19; 9; 21; 19]) as (p & a & Hcall & Hfix & _);
    [done|lia|apply header_known|by vm_compute; set_solver|apply Hlive|].
  change (@call (header_tokens expected_header)) with (@call header). rewrite Hcall.
  assert (sequence rq g ≠ []) as Hne by (destruct (sequence rq g); [simpl in Hlen; lia|done]).
  destruct (call_serves plan decoder _ _ _ _ _ Hne Hcall (lv_serves _ _ Hlive) (lv_unconditional _ _ Hlive))
    as ((k & Hk & Hk1) & Hserve & _).
  destruct (branch_calls _ _ _ _) as [u served] eqn:Hb. intros Heq. injection Heq as <- Ht.
  destruct served as [[]|e]; [|done]. inv_bind.
  destruct (Hserve _ eq_refl) as [Hsv Hsu]. cbn [append_token g_generated].
  split; [|split; [done|]].
  - split; cbn; try done.
    + unfold history at 1. rewrite Hh. cbn. rewrite (lv_sequence _ _ Hlive). unfold sequence. by rewrite <- app_assoc.
    + apply Hlive.
    + by right.
    + destruct (lv_grown _ _ Hlive) as (k0 & Hk0 & Hlk). exists (k0 ++ k). rewrite Hk, Hk0, <- app_assoc, !length_app.
      split; [done|simpl; lia].
    + pose proof (lv_replay _ _ Hlive) as Hr. destruct (rq_replay_ids rq) as [l|]; [|done]. destruct Hr as [z ->].
      assert (z !! 0%nat = Some t) as Hz.
      { match goal with Hr : of_option _ _ = Ok _ |- _ =>
          rewrite lookup_app_r, Nat.sub_diag in Hr by done; by destruct (z !! 0%nat); [injection Hr as ->|] end. }
      destruct z as [|z0 z]; [done|]. injection Hz as ->. exists z. by rewrite <- app_assoc.
  - intros ->. match goal with Hn : negb _ = true |- _ => simpl in Hn; by destruct (image_trailer_ready _) end.
Qed.

(** How a generation ended. *)
Definition ended (rq : request) (gen : list Z) (reason : string) : Prop :=
  reason = "length"%string ∧ Z.of_nat (List.length gen) = rq_max_new_tokens rq ∧ EOS ∉ gen ∨
  reason = "eos"%string ∧ List.length gen = IMAGE_TOKEN_COUNT ∧ ∃ l, gen = l ++ [EOI; 151747; EOS] ∧ EOS ∉ l.

Lemma trailer_eos gen :
  image_trailer_ready gen = true → EOS ∉ gen →
  List.length (gen ++ [EOS]) = IMAGE_TOKEN_COUNT ∧ ∃ l, gen ++ [EOS] = l ++ [EOI; 151747; EOS] ∧ EOS ∉ l.
Proof.
  unfold image_trailer_ready. intros [Hl%Nat.eqb_eq Ht%bool_decide_eq_true]%andb_prop Hno.
  split; [rewrite length_app, Hl; reflexivity|]. exists (take (List.length gen - 2) gen).
  rewrite <- (take_drop (List.length gen - 2) gen) at 1. rewrite Ht, <- app_assoc. split; [done|].
  intros Hin. apply Hno. by eapply elem_of_take in Hin as (i & Hi & _); eapply list_elem_of_lookup_2.
Qed.

Lemma loop_live rq n : ∀ g g' reason,
  live rq g → EOS ∉ g_generated g → (n = 0%nat → g_generated g ≠ []) →
  Z.of_nat (List.length (g_generated g)) + Z.of_nat n = rq_max_new_tokens rq →
  predict_loop rq n g = (g', Ok reason) →
  live rq g' ∧ g_generated g' ≠ [] ∧ ended rq (g_generated g') reason ∧
  Z.of_nat (List.length (g_generated g')) <= rq_max_new_tokens rq.
Proof.
  induction n as [|n IH]; intros g g' reason Hlive Hno Hne Hmax; cbn.
  { intros [= <- <-]. split; [done|]. split; [by apply Hne|]. split; [left; split_and!; [done|lia|done]|lia]. }
  destruct (UnisScheduler.predict _ _ _ _ _ _ _) as [g1 [t|e]] eqn:Hp; [|done].
  destruct (predict_live _ _ _ _ Hlive Hp) as (Hl & Hg & Heos).
  destruct (Z.eqb_spec t EOS) as [->|Ht].
  - intros [= <- <-]. cbn. rewrite Hg. split; [done|]. split; [by destruct (g_generated g)|].
    destruct (trailer_eos _ (Heos eq_refl) Hno) as (H1 & H2). split; [right; done|]. rewrite length_app. simpl. lia.
  - intros Hloop. apply (IH (append_token t g1)) in Hloop; cbn in *; rewrite ?Hg in *; try done.
    + rewrite not_elem_of_app. split; [done|]. by intros ?%list_elem_of_singleton.
    + intros _. by destruct (g_generated g).
    + rewrite length_app. simpl. lia.
Qed.

(** The parameters do not fail within the capacity, and a draw takes a token
    the scores leave, [EOS] only when it is allowed. *)
Record serviceable (cap : Z) : Prop := {
  sb_plan s e : 0 <= s < e → e <= cap → plan (make_metadata s e) = Ok ();
  sb_decoder i p v : is_ok (decoder i p v) = true;
  sb_scores raw a : (∃ t, permits a t = true ∧ t ≠ EOS) → scores_ok raw a = true;
  sb_draw step seed raw a ready : (∃ t, permits a t = true ∧ t ≠ EOS) →
    ∃ t, draw step seed raw a ready = Ok t ∧ permits a t = true ∧ (t = EOS → ready = true);
  sb_seed seed : seed_request seed = Ok ();
}.

Definition fits (cap : Z) (rq : request) (g : generation (L:=L)) : Prop :=
  rn_up (br_runner (g_conditional g)) = true ∧ rn_up (br_runner (g_unconditional g)) = true ∧
  rn_capacity (br_runner (g_conditional g)) = cap ∧ rn_capacity (br_runner (g_unconditional g)) = cap.

Lemma fits_same cap rq g g' : same_runners g g' → fits cap rq g → fits cap rq g'.
Proof. intros [[] []] (? & ? & ? & ?). split_and!; congruence. Qed.

Lemma predict_total cap rq g :
  serviceable cap → live rq g → fits cap rq g → rq_replay_ids rq = None →
  Z.max (Z.of_nat (List.length (rq_input_ids rq))) (Z.of_nat (List.length (rq_unconditional_ids rq))) +
    Z.of_nat (List.length (g_generated g)) + 1 <= cap →
  ∃ g' t, predict rq g = (g', Ok t).
Proof.
  intros [] Hlive (Hu1 & Hu2 & Hc1 & Hc2) Hreplay Hroom. unfold UnisScheduler.predict.
  destruct (branch_forward_total plan decoder (g_query g) (g_conditional g)) as (c & raw & Hf);
    [by rewrite Hc1|done|done|by apply lv_query with rq|rewrite (lv_sequence _ _ Hlive), Hc1; unfold sequence; rewrite length_app; lia|].
  rewrite Hf. destruct (branch_forward_ok _ _ _ _ _ _ (lv_query _ _ Hlive) (lv_conditional _ _ Hlive) Hf) as (Hsync & Hh & _).
  rewrite Hh. cbn [default id]. rewrite (lv_sequence _ _ Hlive).
  assert (2 ≤ List.length (sequence rq g))%nat as Hlen
    by (unfold sequence; rewrite length_app; pose proof (lv_input _ _ Hlive); lia).
  destruct (call_fixed (sequence rq g) 64 64 (g_processor g) [21; 19; 9; 21; 19]) as (p & a & Hcall & Hfix & Hex);
    [done|lia|apply header_known|by vm_compute; set_solver|apply Hlive|].
  change (@call (header_tokens expected_header)) with (@call header). rewrite Hcall.
  assert (sequence rq g ≠ []) as Hne by (destruct (sequence rq g); [simpl in Hlen; lia|done]).
  destruct (call_serves plan decoder _ _ _ _ _ Hne Hcall (lv_serves _ _ Hlive) (lv_unconditional _ _ Hlive))
    as ((k & Hk & Hk1) & _ & Hb).
  destruct (lv_grown _ _ Hlive) as (k0 & Hk0 & Hlk).
  destruct Hb as (u & Hb); [by rewrite Hc2|done|done|rewrite Hk, Hk0, Hc2, !length_app; lia|].
  rewrite Hb, Hreplay. destruct (sb_draw0 (List.length (g_generated g)) (rq_seed rq) raw a (image_trailer_ready (g_generated g)) Hex)
    as (t & Ht & _ & Heos). eexists _, t. cbn. rewrite (sb_scores0 raw a Hex). cbn. rewrite Ht. cbn.
  f_equal. destruct (Z.eqb_spec t EOS) as [->|Hn]; [|done]. by rewrite (Heos eq_refl).
Qed.

Lemma loop_total cap rq n : ∀ g,
  serviceable cap → live rq g → fits cap rq g → rq_replay_ids rq = None →
  Z.max (Z.of_nat (List.length (rq_input_ids rq))) (Z.of_nat (List.length (rq_unconditional_ids rq))) +
    Z.of_nat (List.length (g_generated g)) + Z.of_nat n <= cap →
  ∃ g' reason, predict_loop rq n g = (g', Ok reason).
Proof.
  induction n as [|n IH]; intros g Hsb Hlive Hfits Hreplay Hroom; cbn [UnisScheduler.predict_loop]; [by eexists _, _|].
  destruct (predict_total cap rq g) as (g1 & t & Hp); try done; [lia|]. rewrite Hp.
  destruct (t =? EOS); [by eexists _, _|].
  destruct (predict_live _ _ _ _ Hlive Hp) as (Hl & Hg & _).
  apply IH; try done; [|cbn; rewrite Hg, length_app; simpl; lia].
  apply (fits_same cap rq g1); [done|]. eapply fits_same; [by eapply predict_runners|done].
Qed.

(** ** The scheduler *)

(** A scheduler that was built: its tokenizer is the fixed one, and when it is
    ready both runners are up at its capacity. *)
Definition prepared (s : scheduler) : Prop :=
  sc_tokenizer s = expected_header ∧ rn_capacity (sc_conditional s) = sc_capacity s ∧
  rn_capacity (sc_unconditional s) = sc_capacity s ∧
  (sc_ready s = true → rn_up (sc_conditional s) = true ∧ rn_up (sc_unconditional s) = true).

Lemma prepared_init max_position capacity mapping backend s :
  scheduler_init max_position capacity mapping backend = Ok s → prepared s.
Proof.
  unfold scheduler_init, header_init, runner_init. intros Hi.
  inv_bind. by split_and!.
Qed.

Lemma runner_setup_keeps select_backend r r' :
  runner_setup plan select_backend r = Ok r' → rn_capacity r' = rn_capacity r ∧ rn_up r' = true.
Proof. unfold runner_setup. intros Hr. by inv_bind. Qed.

Lemma prepared_close s : prepared s → prepared (scheduler_close s).
Proof. by intros (? & ? & ? & _). Qed.

Lemma prepared_setup select_backend s s' x :
  prepared s → scheduler_setup plan select_backend s = (s', x) → prepared s' ∧ (x = Ok () → sc_ready s' = true).
Proof.
  intros Hs. unfold scheduler_setup. destruct (sc_ready s); [by intros [= <- <-]|].
  pose proof (prepared_close s Hs) as Hclose. destruct Hs as (Ht & Hc & Hu & _).
  destruct (runner_setup _ _ (sc_conditional s)) as [r1|e] eqn:H1; [|by intros [= <- <-]].
  destruct (runner_setup _ _ (sc_unconditional s)) as [r2|e] eqn:H2; intros [= <- <-]; [|done].
  destruct (runner_setup_keeps _ _ _ H1), (runner_setup_keeps _ _ _ H2). split; [|done]. split_and!; simpl; [done|congruence|congruence|done].
Qed.

(** The processor and the branches a generation starts from. *)
Lemma make_processor_ok unc :
  ∃ p, make_processor expected_header unc = Ok p ∧ lp_unc p = Context unc ((λ _, 1) <$> unc) unc ((λ _, 1) <$> unc) true None ∧
    lp_type p = "no_text"%string ∧ lp_use_cache p = true ∧ sized 64 64 p.
Proof.
  unfold make_processor, processor_init.
  assert (supported (Processor (C:=unit) "no_text" true true "none" 3 [] 0 (Context [] [] [] [] true None)
    (Context [] [] [] [] true None) [] true false false 0 None None None 0)) as Hsup.
  { split; [by left|]. by set_solver. }
  cbn -[bool_decide]. destruct (bool_decide (IMG ∈ unc)); eexists; (split; [reflexivity|]); split_and!; try done;
    (split; [exact Hsup|done]).
Qed.

(** The start of a valid request on a prepared scheduler. *)
Lemma step_starts rq s :
  prepared s → sc_ready s = true → validate_request vocabulary s rq = Ok () →
  ∃ g, live rq g ∧ g_generated g = [] ∧ fits (sc_capacity s) rq g ∧
    step rq s =
    match seed_request (rq_seed rq) with
    | Err e => (set_runners s (br_runner (g_conditional g)) (br_runner (g_unconditional g)), Err e)
    | Ok _ =>
        let '(g, reason) := predict_loop rq (Z.to_nat (rq_max_new_tokens rq)) g in
        (set_runners s (br_runner (g_conditional g)) (br_runner (g_unconditional g)),
         reason ← reason;
         Ok (Generated (g_generated g) reason (bool_decide (rq_replay_ids rq ≠ None))
               (history_length (g_conditional g)) (history_length (g_unconditional g)) (g_traces g)))
    end.
Proof.
  intros (Ht & Hc & Hu & Hup) Hr Hv. destruct (Hup Hr) as [Hup1 Hup2]. unfold scheduler_step. rewrite Hr, Hv.
  unfold runner_reset. rewrite Hup1. cbn [negb ensure mbind res_bind].
  cbn [set_runners sc_tokenizer sc_capacity sc_conditional sc_unconditional]. rewrite Hup2.
  cbn [negb ensure mbind res_bind set_runners sc_tokenizer].
  destruct (make_processor_ok (rq_unconditional_ids rq)) as (p & Hp & Hunc & Hty & Huse & Hfix).
  rewrite Ht, Hp. cbn [mbind res_bind].
  set (b r := branch_new (L:=L) (Runner (rn_capacity r) true None ∅)).
  exists (Generation (b (sc_conditional s)) (b (sc_unconditional s)) p [] (rq_input_ids rq) []).
  assert (2 ≤ List.length (rq_input_ids rq))%nat as Hlen.
  { unfold validate_request in Hv. cbn [rmap] in Hv. inv_bind. by apply Nat.leb_le. }
  split; [|split; [done|split; [done|by destruct (seed_request _)]]].
  split; cbn; try done.
  - split; simpl; rewrite ?Hunc; simpl; try done; [by apply forallb_forall; intros x (y & -> & _)%list_elem_of_In%list_elem_of_fmap|by rewrite length_fmap].
  - unfold sequence. simpl. by rewrite app_nil_r.
  - intros He. rewrite He in Hlen. simpl in Hlen. lia.
  - by left.
  - exists []. rewrite Hunc, app_nil_r. done.
  - destruct (rq_replay_ids rq); [apply prefix_nil|done].
Qed.

Lemma prepared_step rq s s' x : prepared s → step rq s = (s', x) → prepared s' ∧ sc_ready s' = sc_ready s ∧ sc_capacity s' = sc_capacity s.
Proof.
  intros Hs Hstep. destruct (sc_ready s) eqn:Hr.
  2:{ unfold scheduler_step in Hstep. rewrite Hr in Hstep. by injection Hstep as <- _. }
  destruct (validate_request vocabulary s rq) as [[]|e] eqn:Hv.
  2:{ unfold scheduler_step in Hstep. rewrite Hr, Hv in Hstep. by injection Hstep as <- _. }
  destruct (step_starts rq s Hs Hr Hv) as (g & _ & _ & Hfits & Heq). rewrite Heq in Hstep.
  assert (∃ g', same_runners g g' ∧ s' = set_runners s (br_runner (g_conditional g')) (br_runner (g_unconditional g')))
    as (g' & Hg' & ->).
  { destruct (seed_request _); [|injection Hstep as <- _; exists g; by split; [split; split|]].
    destruct (predict_loop _ _ _) as [g' r] eqn:Hl. injection Hstep as <- _. exists g'. split; [|done].
    by eapply predict_loop_runners. }
  destruct (fits_same _ _ _ _ Hg' Hfits) as (H1 & H2 & H3 & H4). destruct Hs as (Ht & _). by split_and!.
Qed.

(** C17: What a generation that succeeds returns and leaves: at least one token and
    no more than requested; stopped by the length, with no [EOS] among the
    tokens, or by an [EOS] at the one place a finished image allows it; the
    slots of the conditional runner hold the prompt and every token but the
    last, those of the unconditional runner the unconditional prompt and at
    most one token for each prediction; a replay returns its own tokens. *)
Theorem generation_outcome rq s s' out :
  prepared s → step rq s = (s', Ok out) →
  let n := List.length (gn_ids out) in
  (0 < n)%nat ∧ Z.of_nat n <= rq_max_new_tokens rq ∧
  ended rq (gn_ids out) (gn_stop_reason out) ∧
  gn_conditional_cached out = Z.of_nat (List.length (rq_input_ids rq)) + Z.of_nat n - 1 ∧
  (∀ i : nat, rn_slots (sc_conditional s') !! Z.of_nat i =
     take (Z.to_nat (gn_conditional_cached out)) (rq_input_ids rq ++ gn_ids out) !! i) ∧
  (∃ held k, (held = [] ∨ held = rq_unconditional_ids rq ++ k) ∧ (List.length k ≤ n)%nat ∧
     gn_unconditional_cached out = Z.of_nat (List.length held) ∧
     ∀ i : nat, rn_slots (sc_unconditional s') !! Z.of_nat i = held !! i) ∧
  match rq_replay_ids rq with None => True | Some replay => gn_ids out `prefix_of` replay end.
Proof.
  intros Hs Hstep n. destruct (sc_ready s) eqn:Hr; [|unfold scheduler_step in Hstep; by rewrite Hr in Hstep].
  destruct (validate_request vocabulary s rq) as [[]|e] eqn:Hv;
    [|unfold scheduler_step in Hstep; by rewrite Hr, Hv in Hstep].
  destruct (step_starts rq s Hs Hr Hv) as (g & Hlive & Hnil & _ & Heq). rewrite Heq in Hstep.
  destruct (seed_request _); [|done]. destruct (predict_loop _ _ _) as [g' [reason|e]] eqn:Hl; [|done].
  injection Hstep as <- <-. cbn in n |- *.
  assert (0 < rq_max_new_tokens rq) as Hmax by (unfold validate_request in Hv; inv_bind; by apply Z.ltb_lt).
  destruct (loop_live rq (Z.to_nat (rq_max_new_tokens rq)) g g' reason Hlive) as (Hl' & Hne & Hend & Hle); [rewrite Hnil; apply not_elem_of_nil|lia|rewrite Hnil; simpl; lia|done|].
  destruct (lv_last _ _ Hl') as [?|Hq]; [done|]. pose proof (lv_sequence _ _ Hl') as Hseq. unfold sequence in Hseq.
  assert (0 < n)%nat as Hn by (unfold n; destruct (g_generated g'); [done|simpl; lia]).
  assert (history_length (g_conditional g') = Z.of_nat (List.length (rq_input_ids rq)) + Z.of_nat n - 1) as Hcached.
  { rewrite history_length_history. apply (f_equal List.length) in Hseq. rewrite !length_app in Hseq. fold n in Hseq. lia. }
  split_and!; try done.
  - intros i. rewrite <- Hseq, history_length_history, Nat2Z.id, take_app_length. apply (lv_conditional _ _ Hl').
  - destruct (lv_grown _ _ Hl') as (k & Hk & Hlk). exists (history (g_unconditional g')), k.
    split; [|split; [done|split; [by rewrite history_length_history|apply (lv_unconditional _ _ Hl')]]].
    pose proof (sv_history _ _ (lv_serves _ _ Hl')) as Hh. unfold history. destruct (br_history _) as [h|]; [|by left].
    right. destruct Hh as (-> & _). exact Hk.
  - apply (lv_replay _ _ Hl').
Qed.

(** C16: A request that fails does not stop the scheduler from serving the next: as
    long as the backend, the decoder and the draws do not fail, a valid
    request that samples is generated, whatever request came before it. *)
Theorem generation_serves_again rq1 rq2 s s1 x :
  prepared s → sc_ready s = true → serviceable (sc_capacity s) →
  step rq1 s = (s1, x) →
  validate_request vocabulary s1 rq2 = Ok () → rq_replay_ids rq2 = None →
  ∃ s2 out, step rq2 s1 = (s2, Ok out).
Proof.
  intros Hs Hr Hsb H1 Hv Hreplay. destruct (prepared_step _ _ _ _ Hs H1) as (Hs1 & Hr1 & Hc1). rewrite Hr in Hr1.
  destruct (step_starts rq2 s1 Hs1 Hr1 Hv) as (g & Hlive & Hnil & Hfits & ->). rewrite Hc1 in Hfits.
  rewrite (sb_seed _ Hsb). unfold validate_request in Hv. inv_bind.
  destruct (loop_total (sc_capacity s) rq2 (Z.to_nat (rq_max_new_tokens rq2)) g) as (g' & reason & ->); try done.
  - rewrite Hnil, <- Hc1. simpl List.length.
    repeat match goal with Hb : (_ <? _) = true |- _ => apply Z.ltb_lt in Hb | Hb : (_ <=? _) = true |- _ => apply Z.leb_le in Hb end.
    lia.
  - by eexists _, _.
Qed.
End scheduler.

(** ** A concrete decoder and sampler *)

Definition demo_decoder (ids positions : list Z) (slots : gmap Z Z) : res unit := Ok ().
Definition demo_plan (meta : metadata) : res unit := Ok ().
Definition demo_draw (step : nat) (seed : Z) (raw : unit) (a : score_mask) (ready : bool) : res Z :=
  Ok (match a with
      | Only ts => default 0 (head (List.filter (λ t, negb (t =? EOS)) ts))
      | FromToken lo => if lo =? EOS then lo + 1 else lo
      | BelowToken hi => if hi - 1 =? EOS then hi - 2 else hi - 1
      end).

Definition demo_mapping : gmap string mapped := list_to_map ((λ e, (e.1, Ints e.2)) <$> expected_header).

Definition demo_scheduler : scheduler :=
  match scheduler_init 100 40 demo_mapping "flashinfer" with
  | Ok s => (scheduler_setup demo_plan (Ok ()) s).1
  | Err _ => Scheduler 0 [] (Runner 0 false None ∅) (Runner 0 false None ∅) false
  end.

Definition demo_step := scheduler_step demo_plan demo_decoder 200000 (λ _ _, true) demo_draw (λ _, Ok ()).

Lemma demo_prepared : prepared demo_scheduler ∧ sc_ready demo_scheduler = true.
Proof. split; [split; [|split; [|split]]|]; try (vm_compute; reflexivity). intros _. by split; vm_compute. Qed.

Lemma demo_serviceable : serviceable demo_plan demo_decoder (λ _ _, true) demo_draw (λ _, Ok ()) 40.
Proof.
  split; try done. intros step seed raw a ready (t & Ht & Hne). eexists. split; [reflexivity|].
  destruct a as [ts|lo|hi]; simpl in *.
  - apply bool_decide_eq_true in Ht. destruct (List.filter (λ t, negb (t =? EOS)) ts) as [|x l] eqn:Hf.
    + assert (In t (List.filter (λ t, negb (t =? EOS)) ts)) as Hin.
      { apply filter_In. split; [by apply list_elem_of_In|by destruct (Z.eqb_spec t EOS)]. }
      by rewrite Hf in Hin.
    + assert (In x (List.filter (λ t, negb (t =? EOS)) ts)) as [Hin Hx]%filter_In by (rewrite Hf; by left).
      simpl. split; [by apply bool_decide_eq_true, list_elem_of_In|]. intros ->. done.
  - destruct (Z.eqb_spec lo EOS); split; try lia.
  - destruct (Z.eqb_spec (hi - 1) EOS); split; try lia.
Qed.

(** A prompt that ends with the token that starts an image, and a replay that
    ends a text too early. *)
Definition demo_request : request := Request [1; BOI] [5; 6] 9 42 None [0].
Definition demo_bad_request : request := Request [1; 2] [5; 6] 9 42 (Some (repeat EOS 9)) [].

Definition demo_out : scheduler * res generated := demo_step demo_request demo_scheduler.
Definition demo_generated : generated :=
  match demo_out.2 with Ok g => g | Err _ => Generated [] "" false 0 0 [] end.

Lemma generation_outcome_witness :
  gn_ids demo_generated = [21; 19; 9; 21; 19; IMG; BOV; BOV; BOV] ∧
  ended demo_request (gn_ids demo_generated) (gn_stop_reason demo_generated) ∧
  gn_conditional_cached demo_generated = 10 ∧ gn_unconditional_cached demo_generated = 11.
Proof.
  split; [vm_compute; reflexivity|]. split; [|split; vm_compute; reflexivity].
  assert (step_eq : demo_step demo_request demo_scheduler = (demo_out.1, Ok demo_generated)) by (vm_compute; reflexivity).
  apply (generation_outcome _ _ _ _ _ _ _ _ _ _ (proj1 demo_prepared) step_eq).
Defined.

Lemma generation_serves_again_witness :
  is_ok (demo_step demo_bad_request demo_scheduler).2 = false ∧
  ∃ s2 out, demo_step demo_request (demo_step demo_bad_request demo_scheduler).1 = (s2, Ok out).
Proof.
  split; [vm_compute; reflexivity|].
  apply (generation_serves_again demo_plan demo_decoder 200000 (λ _ _, true) demo_draw (λ _, Ok ())
           demo_bad_request demo_request demo_scheduler _ (demo_step demo_bad_request demo_scheduler).2);
    [exact (proj1 demo_prepared)|exact (proj2 demo_prepared)|exact demo_serviceable|apply surjective_pairing|
     vm_compute; reflexivity|reflexivity].
Defined.
