(* ===== verification/Attention.v ===== *)
(** * Attention without a cache ([layers/attention/mask.py], [layers/attention/common.py],
      [layers/attention/nocache])

    Declarative masks and their lowerings, the eager reference, the SDPA and
    FlashInfer backends with the plan a FlashInfer wrapper holds, and the layer
    that checks its input, builds a context and runs the backend.  A query, key
    or value vector of one head is a row; the numbers inside rows are left to a
    class, in which a masked entry has no weight. *)

From S2P Require Import Prelude.
Open Scope Z_scope.

(** ** Numbers *)

(** [q . k * scale], [cap * tanh (x / cap)], an additive bias, and the softmax
    of a row of logits times the values; a masked logit is [None]. *)
Class Numerics (F S R : Type) := {
  logit : F → R → R → S;
  soft_cap : F → S → S;
  add_bias : S → S → S;
  attend : list (option S * R) → R;
  zero_row : R;
}.

(** A masked entry has weight zero; no entry at all gives the zero row. *)
Class NumericsLaws (F S R : Type) `{Numerics F S R} : Prop := {
  attend_masked l : attend l = attend (filter (λ e, is_Some e.1) l);
  attend_nil : attend [] = zero_row;
}.

(** Rows indexed by three of the dimensions of a tensor. *)
Record head_rows (R : Type) : Type := Rows { d0 : nat; d1 : nat; d2 : nat; at3 : nat → nat → nat → R }.
Arguments Rows {R}. Arguments d0 {R}. Arguments d1 {R}. Arguments d2 {R}. Arguments at3 {R}.

Definition transpose12 {R} (t : head_rows R) : head_rows R := Rows (d0 t) (d2 t) (d1 t) (λ a b c, at3 t a c b).

(** A token of a packed tensor: a row for each head. *)
Notation token R := (nat → R) (only parsing).

(** ** Masks *)

Definition in_window (sliding_window : option Z) (distance : Z) : bool :=
  match sliding_window with None => true | Some w => distance <? w end.

(** [causal_block_mask] *)
Definition causal_block_mask (S_q S_kv : nat) (causal : bool) (sliding_window : option Z) : option (nat → nat → bool) :=
  if negb causal && bool_decide (sliding_window = None) then None
  else Some (λ i j, let q_pos := Z.of_nat i + (Z.of_nat S_kv - Z.of_nat S_q) in
                    (Z.of_nat j <=? q_pos) && in_window sliding_window (q_pos - Z.of_nat j)).

Fixpoint cumsum (acc : Z) (l : list Z) : list Z :=
  match l with [] => [] | x :: l' => (acc + x) :: cumsum (acc + x) l' end.

(** The [ar] flags of a sequence: one on the first token of a flagged segment. *)
Fixpoint segment_flags (segments : list (Z * bool)) (start : Z) (ar : list Z) : list Z :=
  match segments with
  | [] => ar
  | (length, flag) :: segments' =>
      segment_flags segments' (start + length) (if flag : bool then <[Z.to_nat start := 1]> ar else ar)
  end.

(** [_segments_block_mask] *)
Definition segments_block_mask (segments : list (Z * bool)) (S_q S_kv : nat) : nat → nat → bool :=
  let blocks := cumsum 0 (segment_flags segments 0 (replicate S_kv 0)) in
  λ i j, nth j blocks 0 <=? nth (S_kv - S_q + i) blocks 0.

Record key_set : Type := KeySet { ks_batch : nat; ks_len : nat; ks_at : nat → nat → bool }.

(** [AttnMask] *)
Record attn_mask : Type := AttnMask {
  am_segments : option (list (Z * bool));
  am_lengths : option (list Z);
  am_keys : option key_set;
}.

(** [__post_init__]; the dimensions and dtypes of the tensors are those of
    their types here. *)
Definition attn_mask_init (segments : option (list (Z * bool))) (seq_lens_kv : option (list Z))
    (key_mask : option key_set) : res attn_mask :=
  _ ← ensure (bool_decide (is_Some segments) || bool_decide (is_Some seq_lens_kv) ||
              match key_mask with Some _ => true | None => false end) ValueError;
  _ ← ensure (negb (bool_decide (is_Some seq_lens_kv) && match key_mask with Some _ => true | None => false end)) ValueError;
  _ ← match segments with
      | None => Ok ()
      | Some l => ensure (negb (bool_decide (l = [])) && forallb (λ s, 0 <? s.1) l) ValueError
      end;
  Ok (AttnMask segments seq_lens_kv key_mask).

(** [kind] *)
Definition mask_kind_of (m : attn_mask) : string :=
  match am_segments m, am_keys m with
  | Some _, _ => "segments"
  | None, Some _ => "keys"
  | None, None => "lengths"
  end.

(** [kv_valid] *)
Definition kv_valid (m : attn_mask) (batch_size S_kv : nat) : res (option (nat → nat → bool)) :=
  match am_keys m, am_lengths m with
  | Some k, _ =>
      _ ← ensure (Nat.eqb (ks_batch k) batch_size && Nat.eqb (ks_len k) S_kv) ValueError;
      Ok (Some (ks_at k))
  | None, Some lens =>
      _ ← ensure (Nat.eqb (List.length lens) batch_size) ValueError;
      Ok (Some (λ b j, Z.of_nat j <? nth b lens 0))
  | None, None => Ok None
  end.

Definition segments_total (segments : list (Z * bool)) : Z := foldr Z.add 0 segments.*1.

(** [dense]: by batch row, query and key. *)
Definition dense (m : attn_mask) (S_q S_kv batch_size : nat) (causal : bool) (sliding_window : option Z)
    : res (option (nat → nat → nat → bool)) :=
  block ← match am_segments m with
          | Some segments =>
              _ ← ensure (segments_total segments =? Z.of_nat S_kv) ValueError;
              _ ← ensure (Nat.leb S_q S_kv) ValueError;
              Ok (Some (segments_block_mask segments S_q S_kv))
          | None => Ok (causal_block_mask S_q S_kv causal sliding_window)
          end;
  valid ← kv_valid m batch_size S_kv;
  Ok match block, valid with
     | Some block, None => Some (λ _ i j, block i j)
     | None, None => None
     | Some block, Some valid => Some (λ b i j, block i j && valid b j)
     | None, Some valid => Some (λ b _ j, valid b j)
     end.

(** ** Packing *)

(** The positions of a padded batch, row by row. *)
Definition positions2 (B S : nat) : list (nat * nat) := mjoin ((λ b, (λ i, (b, i)) <$> seq 0 S) <$> seq 0 B).

Definition kept (valid : nat → nat → bool) (B S : nat) : list (nat * nat) :=
  filter (λ p, valid p.1 p.2 = true) (positions2 B S).

Definition row_count (valid : nat → nat → bool) (S b : nat) : Z := Z.of_nat (List.length (filter (λ i, valid b i = true) (seq 0 S))).

(** [counts], cumulated *)
Definition packed_offsets (valid : nat → nat → bool) (B S : nat) : list Z :=
  0 :: cumsum 0 (row_count valid S <$> seq 0 B).

(** [pack_rows]: the offsets, the index of every kept row in the flattened
    batch, and the packed tensors. *)
Definition pack_rows {R} (valid : nat → nat → bool) (B S : nat) (tensors : list (head_rows R))
    : res (list Z * list nat * list (list (token R))) :=
  _ ← ensure (forallb (λ t, Nat.eqb (d0 t) B && Nat.eqb (d1 t) S) tensors) ValueError;
  Ok (packed_offsets valid B S, (λ p, (p.1 * S + p.2)%nat) <$> kept valid B S,
      (λ t, (λ p, at3 t p.1 p.2) <$> kept valid B S) <$> tensors).

(** [t.reshape(B * S, H, D)] and back *)
Definition flatten_rows {R} (t : head_rows R) : list (token R) := (λ p, at3 t p.1 p.2) <$> positions2 (d0 t) (d1 t).

Definition unflatten_rows {R} (zero : R) (B S H : nat) (l : list (token R)) : head_rows R :=
  Rows B S H (λ b i, nth (b * S + i) l (λ _, zero)).

(** [out.index_copy_(0, index, source)] *)
Fixpoint index_copy {A} (out : list A) (index : list nat) (source : list A) : list A :=
  match index, source with
  | i :: index', x :: source' => index_copy (<[i := x]> out) index' source'
  | _, _ => out
  end.

(** ** Layers *)

Section attention.
Context {F S R : Type} `{Numerics F S R}.

(** The configuration a backend reads off a layer. *)
Record attn_layer : Type := AttnLayer {
  ly_heads : Z;
  ly_kv_heads : Z;
  ly_head_dim : Z;
  ly_scale : F;
  ly_causal : bool;
  ly_window : option Z;
  ly_cap : option F;
}.

(** [Attention.__init__]; [default_scale] is [1 / sqrt(head_dim)]. *)
Definition attention_init (default_scale : Z → F) (num_heads head_dim : Z) (num_kv_heads : option Z) (scale : option F)
    (causal : bool) (sliding_window : option Z) (logits_soft_cap : option F) : res attn_layer :=
  let num_kv_heads := default num_heads num_kv_heads in
  _ ← ensure (negb ((num_kv_heads <=? 0) || negb (num_heads mod num_kv_heads =? 0))) ValueError;
  _ ← match sliding_window with
      | None => Ok ()
      | Some w => _ ← ensure (0 <? w) ValueError; ensure causal ValueError
      end;
  Ok (AttnLayer num_heads num_kv_heads head_dim (default (default_scale head_dim) scale) causal sliding_window
        logits_soft_cap).

(** A bias, already broadcast: by batch row, head, query and key. *)
Definition bias_fn : Type := nat → nat → nat → nat → S.

(** ** Eager attention *)

(** [repeat_kv], heads in the second dimension *)
Definition repeat_kv (x : head_rows R) (num_heads num_kv_heads : Z) : head_rows R :=
  if num_heads =? num_kv_heads then x
  else let rep := Z.to_nat (num_heads / num_kv_heads) in
       Rows (d0 x) (d1 x * rep) (d2 x) (λ b h s, at3 x b (h / rep)%nat s).

Definition capped (cap : option F) (s : S) : S := match cap with None => s | Some c => soft_cap c s end.
Definition biased (bias : option bias_fn) (b h i j : nat) (s : S) : S :=
  match bias with None => s | Some f => add_bias s (f b h i j) end.

(** [eager_attn] on [(B, H, S)] rows *)
Definition eager_attn (scale : F) (causal : bool) (sliding_window : option Z) (cap : option F)
    (mask : option (nat → nat → nat → bool)) (bias : option bias_fn) (q k v : head_rows R) : head_rows R :=
  let mask := match mask with
              | Some m => Some m
              | None => (λ block _ i j, block i j) <$> causal_block_mask (d2 q) (d2 k) causal sliding_window
              end in
  Rows (d0 q) (d1 q) (d2 q) (λ b h i,
    attend ((λ j,
      (match mask with
       | Some m => if m b i j then Some (biased bias b h i j (capped cap (logit scale (at3 q b h i) (at3 k b h j)))) else None
       | None => Some (biased bias b h i j (capped cap (logit scale (at3 q b h i) (at3 k b h j))))
       end, at3 v b h j)) <$> seq 0 (d2 k))).

(** ** SDPA *)

(** [F.scaled_dot_product_attention] with no mask, a boolean one or an
    additive one ([None] is minus infinity), [is_causal] and [enable_gqa]. *)
Inductive sdpa_mask : Type :=
  | NoMask
  | BoolMask (m : nat → nat → nat → bool)
  | BiasMask (m : nat → nat → nat → nat → option S).

Class Sdpa : Type := {
  sdpa : head_rows R → head_rows R → head_rows R → sdpa_mask → bool → F → bool → head_rows R;
}.

Definition sdpa_entry (m : sdpa_mask) (is_causal : bool) (b h i j : nat) (s : S) : option S :=
  match m with
  | NoMask => if is_causal && negb (Nat.leb j i) then None else Some s
  | BoolMask m => if m b i j then Some s else None
  | BiasMask m => (λ x, add_bias s x) <$> m b h i j
  end.

(** Documented: the result has the shape of the queries; with [enable_gqa]
    each key head serves consecutive query heads; [is_causal] aligns the first
    query with the first key.  A row in which everything is masked is not
    specified. *)
Class SdpaLaws `{Sdpa} : Prop := {
  sdpa_shape q k v m c scale gqa :
    let o := sdpa q k v m c scale gqa in d0 o = d0 q ∧ d1 o = d1 q ∧ d2 o = d2 q;
  sdpa_row q k v m c scale gqa b h i :
    (b < d0 q)%nat → (h < d1 q)%nat → (i < d2 q)%nat → (m = NoMask ∨ c = false) →
    let kv_head := if gqa : bool then (h / (d1 q / d1 k))%nat else h in
    let entry j := sdpa_entry m c b h i j (logit scale (at3 q b h i) (at3 k b kv_head j)) in
    (∃ j, (j < d2 k)%nat ∧ is_Some (entry j)) →
    at3 (sdpa q k v m c scale gqa) b h i = attend ((λ j, (entry j, at3 v b kv_head j)) <$> seq 0 (d2 k));
}.

Context `{Sdpa}.

(** [_sdpa_attn]: keys and values keep their own heads. *)
Definition sdpa_attn (l : attn_layer) (mask : option (nat → nat → nat → bool)) (bias : option bias_fn) (q k v : head_rows R) : head_rows R :=
  let enable_gqa := negb (ly_heads l =? ly_kv_heads l) in
  let S_q := d2 q in
  let S_kv := d2 k in
  let block := (λ block (_ : nat) i j, block i j) <$> causal_block_mask S_q S_kv (ly_causal l) (ly_window l) in
  match ly_cap l, bias, mask with
  | Some cap, _, _ =>
      eager_attn (ly_scale l) (ly_causal l) (ly_window l) (Some cap) mask bias q
        (repeat_kv k (ly_heads l) (ly_kv_heads l)) (repeat_kv v (ly_heads l) (ly_kv_heads l))
  | None, Some f, _ =>
      let mask := match mask with Some m => Some m | None => block end in
      let combined := match mask with
                      | None => λ b h i j, Some (f b h i j)
                      | Some m => λ b h i j, if m b i j then Some (f b h i j) else None
                      end in
      sdpa q k v (BiasMask combined) false (ly_scale l) enable_gqa
  | None, None, Some m => sdpa q k v (BoolMask m) false (ly_scale l) enable_gqa
  | None, None, None =>
      if negb (ly_causal l) && bool_decide (ly_window l = None) then sdpa q k v NoMask false (ly_scale l) enable_gqa
      else if ly_causal l && bool_decide (ly_window l = None) && Nat.eqb S_q S_kv then
        sdpa q k v NoMask true (ly_scale l) enable_gqa
      else match block with
           | Some m => sdpa q k v (BoolMask m) false (ly_scale l) enable_gqa
           | None => sdpa q k v NoMask false (ly_scale l) enable_gqa
           end
  end.

(** ** FlashInfer *)

(** The arguments of a ragged wrapper's [plan]; [window_left] counts the
    earlier keys that stay visible, and is negative without a window. *)
Record fi_plan : Type := FiPlan {
  fp_cu_q : list Z;
  fp_cu_kv : list Z;
  fp_heads : Z;
  fp_kv_heads : Z;
  fp_head_dim : Z;
  fp_causal : bool;
  fp_scale : F;
  fp_window_left : Z;
  fp_cap : option F;
}.

(** [wrapper.run] under a plan, and [single_prefill_with_kv_cache]. *)
Class FlashInfer : Type := {
  fi_run : fi_plan → list (token R) → list (token R) → list (token R) → list (token R);
  fi_single : bool → F → Z → option F → Z → Z → list (token R) → list (token R) → list (token R) → list (token R);
}.

(** Whether a query [i] of [q_len] sees a key [j] of [kv_len]: queries are
    aligned with the last keys. *)
Definition fi_visible (causal : bool) (window_left : Z) (q_len kv_len i j : Z) : bool :=
  let q_pos := i + (kv_len - q_len) in
  (negb causal || (j <=? q_pos)) && ((window_left <? 0) || (q_pos - j <=? window_left)).

Definition ragged_entry (scale : F) (cap : option F) (visible : Z → Z → bool) (q : token R) (k v : list (token R))
    (kv_head h : nat) (i j : nat) : option (option S * R) :=
  kj ← k !! j; vj ← v !! j;
  Some (if visible (Z.of_nat i) (Z.of_nat j) then Some (capped cap (logit scale (q h) (kj kv_head))) else None, vj kv_head).

(** One row of one sequence. *)
Definition ragged_row (scale : F) (cap : option F) (visible : Z → Z → bool) (q : token R) (k v : list (token R))
    (kv_head h i : nat) : R :=
  attend (omap (ragged_entry scale cap visible q k v kv_head h i) (seq 0 (List.length k))).

Definition slice {A} (l : list A) (start stop : Z) : list A :=
  take (Z.to_nat (stop - start)) (drop (Z.to_nat start) l).

(** Documented: offsets ascend, sequence [n] lies between two consecutive ones;
    rows that see no key are not specified. *)
Class FlashInferLaws `{FlashInfer} : Prop := {
  fi_run_row p q k v n qs qe ks ke (i : nat) (h : nat) t :
    StronglySorted Z.le (fp_cu_q p) →
    fp_cu_q p !! n = Some qs → fp_cu_q p !! Datatypes.S n = Some qe →
    fp_cu_kv p !! n = Some ks → fp_cu_kv p !! Datatypes.S n = Some ke →
    0 <= qs <= qe → qe <= Z.of_nat (List.length q) → 0 <= ks <= ke → ke <= Z.of_nat (List.length k) →
    List.length v = List.length k →
    slice q qs qe !! i = Some t → Z.of_nat h < fp_heads p →
    let visible := fi_visible (fp_causal p) (fp_window_left p) (qe - qs) (ke - ks) in
    (∃ j, 0 <= j < ke - ks ∧ visible (Z.of_nat i) j = true) →
    ∃ o, fi_run p q k v !! (Z.to_nat qs + i)%nat = Some o ∧
      o h = ragged_row (fp_scale p) (fp_cap p) visible t (slice k ks ke) (slice v ks ke)
              (h / Z.to_nat (fp_heads p / fp_kv_heads p))%nat h i;
  fi_single_row causal scale window cap heads kv_heads q k v (i : nat) (h : nat) t :
    q !! i = Some t → Z.of_nat h < heads → List.length v = List.length k →
    let visible := fi_visible causal window (Z.of_nat (List.length q)) (Z.of_nat (List.length k)) in
    (∃ j, 0 <= j < Z.of_nat (List.length k) ∧ visible (Z.of_nat i) j = true) →
    ∃ o, fi_single causal scale window cap heads kv_heads q k v !! i = Some o ∧
      o h = ragged_row scale cap visible t k v (h / Z.to_nat (heads / kv_heads))%nat h i;
}.

Context `{FlashInfer}.

(** [_fi_window_left] *)
Definition fi_window_left (sliding_window : option Z) : Z :=
  match sliding_window with None => -1 | Some w => w - 1 end.

(** ** Metadata, plans and contexts *)

(** A bias tensor: its shape, whether its device and dtype suit the queries,
    and its entries once broadcast. *)
Record attn_bias : Type := AttnBias { ab_shape : list Z; ab_suits : bool; ab_at : bias_fn }.

(** [AttnMetadata] *)
Record attn_metadata : Type := AttnMetadata {
  md_idle : bool;
  md_padded : bool;
  md_batch_size : Z;
  md_num_query_tokens : Z;
  md_cu_q : option (list Z);
  md_cu_kv : option (list Z);
  md_layer : option attn_layer;
  md_q_dtype : option string;
  md_mask : option attn_mask;
  md_bias : option attn_bias;
}.

(** [__post_init__] *)
Definition metadata_init (m : attn_metadata) : res attn_metadata :=
  _ ← ensure (negb ((md_batch_size m <? 0) || (md_num_query_tokens m <? 0))) ValueError;
  _ ← ensure (md_idle m || md_padded m || bool_decide (is_Some (md_cu_q m))) ValueError;
  Ok m.

(** The plan handles; a FlashInfer handle refers to the wrapper of its backend,
    or to none. *)
Inductive plan_handle : Type := EagerPlan | SdpaPlan | FlashPlan (wrapper : bool).

(** A FlashInfer backend: whether single sequences take the direct call, and
    the wrapper with the last plan made on it. *)
Record flash_backend : Type := FlashBackend { fb_single : bool; fb_wrapper : option (option fi_plan) }.

Inductive backend : Type := BEager | BSdpa | BFlash (f : flash_backend).

Record attn_ctx : Type := AttnCtx {
  cx_plan : plan_handle;
  cx_idle : bool;
  cx_padded : bool;
  cx_cu_q : option (list Z);
  cx_cu_kv : option (list Z);
  cx_mask : option attn_mask;
  cx_bias : option attn_bias;
}.

(** What the library itself refuses in [wrapper.plan], and whether a graph is
    being captured. *)
Context (plan_check : fi_plan → res unit) (capturing : bool).

(** [FlashInferAttentionBackend.__init__], without a workspace of its own *)
Definition flash_init (prefill_backend : option string) : flash_backend :=
  let kernel := match prefill_backend with None => "auto" | Some s => if String.eqb s "" then "auto" else s end%string in
  FlashBackend (bool_decide (kernel ∈ ["auto"; "fa2"; "fa3"]%string)) None.

(** [FlashInferAttentionBackend.init_forward_metadata] *)
Definition flash_plan (m : attn_metadata) (f : flash_backend) : flash_backend * res plan_handle :=
  match md_mask m with
  | Some (AttnMask (Some _) _ _) => (f, Err NotImplementedError)
  | mask =>
      if (match mask with None => (md_batch_size m <=? 1) && fb_single f | Some _ => false end) || md_idle m
      then (f, Ok (FlashPlan false))
      else match md_cu_q m with
      | None => (f, Err ValueError)
      | Some cu_q =>
          if capturing then (f, Err RuntimeError)
          else match md_layer m with
          | None => (f, Err ValueError)
          | Some l =>
              let f := FlashBackend (fb_single f) (match fb_wrapper f with None => Some None | Some w => Some w end) in
              match md_q_dtype m with
              | None => (f, Err ValueError)
              | Some _ =>
                  let p := FiPlan cu_q (default cu_q (md_cu_kv m)) (ly_heads l) (ly_kv_heads l) (ly_head_dim l)
                             (ly_causal l) (ly_scale l) (fi_window_left (ly_window l)) (ly_cap l) in
                  match plan_check p with
                  | Err e => (f, Err e)
                  | Ok _ => (FlashBackend (fb_single f) (Some (Some p)), Ok (FlashPlan true))
                  end
              end
          end
      end
  end.

(** [init_forward_metadata] *)
Definition init_forward_metadata (m : attn_metadata) (b : backend) : backend * res plan_handle :=
  match b with
  | BEager => (b, Ok EagerPlan)
  | BSdpa => (b, Ok SdpaPlan)
  | BFlash f => let '(f, r) := flash_plan m f in (BFlash f, r)
  end.

(** ** The forward passes *)

(** Packed tensors of [(N, heads, D)] and padded ones of [(B, S, heads, D)]. *)
Record packed : Type := Packed { pk_heads : nat; pk_rows : list (token R) }.

Definition padded_mask (l : attn_layer) (mask : option attn_mask) (q k : head_rows R) : res (option (nat → nat → nat → bool)) :=
  match mask with
  | None => Ok None
  | Some m => dense m (d1 q) (d1 k) (d0 q) (ly_causal l) (ly_window l)
  end.

(** [EagerAttentionBackend._forward_padded] *)
Definition eager_padded (l : attn_layer) (q k v : head_rows R) (c : attn_ctx) : res (head_rows R) :=
  mask ← padded_mask l (cx_mask c) q k;
  Ok (transpose12 (eager_attn (ly_scale l) (ly_causal l) (ly_window l) (ly_cap l) mask (ab_at <$> cx_bias c)
        (transpose12 q) (repeat_kv (transpose12 k) (ly_heads l) (ly_kv_heads l))
        (repeat_kv (transpose12 v) (ly_heads l) (ly_kv_heads l)))).

(** [SdpaAttentionBackend._forward_padded] *)
Definition sdpa_padded (l : attn_layer) (q k v : head_rows R) (c : attn_ctx) : res (head_rows R) :=
  mask ← padded_mask l (cx_mask c) q k;
  Ok (transpose12 (sdpa_attn l mask (ab_at <$> cx_bias c) (transpose12 q) (transpose12 k) (transpose12 v))).

(** A packed slice as a batch of one, heads first, and back. *)
Definition as_batch (t : packed) : head_rows R :=
  Rows 1 (pk_heads t) (List.length (pk_rows t)) (λ _ h i, nth i (pk_rows t) (λ _, zero_row) h).

Definition of_batch (t : head_rows R) : list (token R) := (λ i h, at3 t 0%nat h i) <$> seq 0 (d2 t).

(** The offsets of the sequences: [range(len(cu_q) - 1)] *)
Definition sequences (cu_q cu_kv : list Z) : res (list (Z * Z * Z * Z)) :=
  rmap (λ b, qs ← of_option IndexError (cu_q !! b); qe ← of_option IndexError (cu_q !! Datatypes.S b);
             ks ← of_option IndexError (cu_kv !! b); ke ← of_option IndexError (cu_kv !! Datatypes.S b);
             Ok (qs, qe, ks, ke)) (seq 0 (List.length cu_q - 1)).

(** [EagerAttentionBackend._forward_ragged]; [torch.cat] refuses no tensors. *)
Definition eager_ragged (l : attn_layer) (q k v : packed) (c : attn_ctx) : res (list (token R)) :=
  match cx_cu_q c with
  | None => Err ValueError
  | Some cu_q =>
      ss ← sequences cu_q (default cu_q (cx_cu_kv c));
      _ ← ensure (negb (bool_decide (ss = []))) RuntimeError;
      Ok (mjoin ((λ '(qs, qe, ks, ke),
        of_batch (eager_attn (ly_scale l) (ly_causal l) (ly_window l) (ly_cap l) None None
          (as_batch (Packed (pk_heads q) (slice (pk_rows q) qs qe)))
          (repeat_kv (as_batch (Packed (pk_heads k) (slice (pk_rows k) ks ke))) (ly_heads l) (ly_kv_heads l))
          (repeat_kv (as_batch (Packed (pk_heads v) (slice (pk_rows v) ks ke))) (ly_heads l) (ly_kv_heads l)))) <$> ss))
  end.

(** The wrapper a FlashInfer plan leads to. *)
Definition run_wrapper (f : flash_backend) (plan : plan_handle) (q k v : list (token R)) : res (list (token R)) :=
  match plan with
  | FlashPlan true =>
      match fb_wrapper f with Some (Some p) => Ok (fi_run p q k v) | _ => Err OtherError end
  | _ => Err ValueError
  end.

Definition run_single (l : attn_layer) (q k v : list (token R)) : list (token R) :=
  fi_single (ly_causal l) (ly_scale l) (fi_window_left (ly_window l)) (ly_cap l) (ly_heads l) (ly_kv_heads l) q k v.

(** [FlashInferAttentionBackend._forward_padded_masked] *)
Definition flash_padded_masked (l : attn_layer) (q k v : head_rows R) (m : attn_mask) (c : attn_ctx) (f : flash_backend)
    : res (head_rows R) :=
  let B := d0 q in let S_q := d1 q in let S_kv := d1 k in
  valid ← kv_valid m B S_kv;
  _ ← match cx_plan c with FlashPlan true => Ok () | _ => Err ValueError end;
  if negb (ly_causal l) then
    match valid with
    | None => Err OtherError
    | Some valid =>
        '(_, _, packs) ← pack_rows valid B S_kv [k; v];
        match packs with
        | [k'; v'] => out ← run_wrapper f (cx_plan c) (flatten_rows q) k' v'; Ok (unflatten_rows zero_row B S_q (d2 q) out)
        | _ => Err OtherError
        end
    end
  else
    match am_keys m with
    | Some _ => Err NotImplementedError
    | None =>
        if negb (Nat.eqb S_q S_kv) then Err ValueError
        else match valid with
        | None => Err OtherError
        | Some valid =>
            '(_, index, packs) ← pack_rows valid B S_kv [q; k; v];
            match packs with
            | [q'; k'; v'] =>
                out ← run_wrapper f (cx_plan c) q' k' v';
                Ok (unflatten_rows zero_row B S_q (d2 q)
                      (index_copy (replicate (B * S_q) (λ _, zero_row)) index out))
            | _ => Err OtherError
            end
        end
    end.

(** [FlashInferAttentionBackend._forward_padded] *)
Definition flash_padded (l : attn_layer) (q k v : head_rows R) (c : attn_ctx) (f : flash_backend) : res (head_rows R) :=
  match cx_mask c with
  | Some m => flash_padded_masked l q k v m c f
  | None =>
      out ← (if Nat.eqb (d0 q) 1 && fb_single f
             then Ok (run_single l (flatten_rows q) (flatten_rows k) (flatten_rows v))
             else run_wrapper f (cx_plan c) (flatten_rows q) (flatten_rows k) (flatten_rows v));
      Ok (unflatten_rows zero_row (d0 q) (d1 q) (d2 q) out)
  end.

(** [FlashInferAttentionBackend._forward_ragged] *)
Definition flash_ragged (l : attn_layer) (q k v : packed) (c : attn_ctx) (f : flash_backend) : res (list (token R)) :=
  match cx_cu_q c with
  | None => Err ValueError
  | Some cu_q =>
      if Nat.eqb (List.length cu_q) 2 && fb_single f then Ok (run_single l (pk_rows q) (pk_rows k) (pk_rows v))
      else run_wrapper f (cx_plan c) (pk_rows q) (pk_rows k) (pk_rows v)
  end.

(** [forward] of a backend, on either layout *)
Definition zeros (q : head_rows R) : head_rows R := Rows (d0 q) (d1 q) (d2 q) (λ _ _ _, zero_row).

Definition backend_padded (b : backend) (l : attn_layer) (q k v : head_rows R) (c : attn_ctx) : res (head_rows R) :=
  if cx_idle c then Ok (zeros q)
  else match b with
       | BEager => eager_padded l q k v c
       | BSdpa => sdpa_padded l q k v c
       | BFlash f => match cx_bias c with Some _ => Err ValueError | None => flash_padded l q k v c f end
       end.

Definition backend_ragged (b : backend) (l : attn_layer) (q k v : packed) (c : attn_ctx) : res (list (token R)) :=
  if cx_idle c then Ok (replicate (List.length (pk_rows q)) (λ _, zero_row))
  else match b with
       | BEager => match cx_bias c with Some _ => Err ValueError | None => eager_ragged l q k v c end
       | BSdpa => Err NotImplementedError
       | BFlash f => match cx_bias c with Some _ => Err ValueError | None => flash_ragged l q k v c f end
       end.

(** ** The layer *)

(** [_check_attn_bias] *)
Definition check_bias (l : attn_layer) (q k : head_rows R) (b : attn_bias) : res unit :=
  let n := List.length (ab_shape b) in
  _ ← ensure (bool_decide (n ∈ [2; 3; 4]%nat)) ValueError;
  _ ← ensure (ab_suits b) ValueError;
  ensure (forallb (λ p, (p.1 =? 1) || (p.1 =? p.2))
            (zip (replicate (4 - n) 1 ++ ab_shape b)
                 [Z.of_nat (d0 q); ly_heads l; Z.of_nat (d1 q); Z.of_nat (d1 k)])) ValueError.

(** [_check_padded]; [dq], [dk], [dv] are the last dimensions. *)
Definition check_padded (l : attn_layer) (q k v : head_rows R) (dq dk dv : Z) : res unit :=
  _ ← ensure (Nat.eqb (d0 k) (d0 v) && Nat.eqb (d1 k) (d1 v) && Nat.eqb (d2 k) (d2 v) && (dk =? dv)) ValueError;
  _ ← ensure ((Z.of_nat (d2 q) =? ly_heads l) && (dq =? ly_head_dim l)) ValueError;
  ensure (Nat.eqb (d0 k) (d0 q) && (Z.of_nat (d2 k) =? ly_kv_heads l) && (dk =? dq)) ValueError.

(** [_check_ragged] *)
Definition check_ragged (l : attn_layer) (q k v : packed) (dq dk dv : Z) : res unit :=
  _ ← ensure (Nat.eqb (List.length (pk_rows k)) (List.length (pk_rows v)) && Nat.eqb (pk_heads k) (pk_heads v) && (dk =? dv))
        ValueError;
  ensure ((Z.of_nat (pk_heads q) =? ly_heads l) && (dq =? ly_head_dim l) && (Z.of_nat (pk_heads k) =? ly_kv_heads l))
    ValueError.

(** [torch.arange(0, (B + 1) * n, n)], which refuses a step of zero *)
Definition uniform_offsets (B n : nat) : res (list Z) :=
  if Nat.eqb n 0 then Err RuntimeError else Ok ((λ b, Z.of_nat (b * n)) <$> seq 0 (B + 1)).

(** [_build_default_ctx] on padded input, with the backend [_ensure_backend]
    chose. *)
Definition default_ctx_padded (dtype : string) (l : attn_layer) (q k : head_rows R) (cu_q cu_kv : option (list Z))
    (mask : option attn_mask) (bias : option attn_bias) (b : backend) : backend * res attn_ctx :=
  let B := d0 q in
  let meta :=
    packed ← (match mask with
              | None => Ok None
              | Some m => match kv_valid m B (d1 k) with
                          | Err e => Err e
                          | Ok valid => Ok ((λ valid, packed_offsets valid B (d1 k)) <$> valid)
                          end
              end : res (option (list Z)));
    let cu_kv := match packed with Some p => Some p | None => cu_kv end in
    let cu_q := match packed with Some p => if ly_causal l then Some p else cu_q | None => cu_q end in
    cu_q ← match cu_q with Some c => Ok c | None => uniform_offsets B (d1 q) end;
    cu_kv ← match cu_kv with Some c => Ok c | None => uniform_offsets B (d1 k) end;
    metadata_init (AttnMetadata false true (Z.of_nat B) (Z.of_nat (B * d1 q)) (Some cu_q) (Some cu_kv) (Some l)
                     (Some dtype) mask bias) in
  match meta with
  | Err e => (b, Err e)
  | Ok m =>
      match init_forward_metadata m b with
      | (b, Err e) => (b, Err e)
      | (b, Ok plan) => (b, Ok (AttnCtx plan false true (md_cu_q m) (md_cu_kv m) mask bias))
      end
  end.

(** [_build_default_ctx] on packed input *)
Definition default_ctx_ragged (dtype : string) (l : attn_layer) (q : packed) (cu_q cu_kv : option (list Z))
    (bias : option attn_bias) (b : backend) : backend * res attn_ctx :=
  let B := match cu_q with Some c => Z.of_nat (List.length c) - 1 | None => 1 end in
  match metadata_init (AttnMetadata false false B (Z.of_nat (List.length (pk_rows q))) cu_q cu_kv (Some l) (Some dtype)
                         None bias) with
  | Err e => (b, Err e)
  | Ok m =>
      match init_forward_metadata m b with
      | (b, Err e) => (b, Err e)
      | (b, Ok plan) => (b, Ok (AttnCtx plan false false cu_q cu_kv None bias))
      end
  end.

(** What [forward] requires before it looks at the layout. *)
Definition check_call (l : attn_layer) (ctx : option attn_ctx) (mask : option attn_mask) (bias : option attn_bias)
    (bias_ok : attn_bias → res unit) : res unit :=
  _ ← ensure (negb (bool_decide (is_Some ctx) && match bias with Some _ => true | None => false end)) ValueError;
  _ ← match (match ctx with None => bias | Some c => cx_bias c end) with None => Ok () | Some f => bias_ok f end;
  match mask with
  | None => Ok ()
  | Some m =>
      _ ← ensure (match ctx with None => true | Some _ => false end) ValueError;
      ensure (negb (bool_decide (is_Some (am_segments m)) && ly_causal l)) ValueError
  end.

(** [Attention.forward] on padded input *)
Definition forward_padded (dtype : string) (l : attn_layer) (q k v : head_rows R) (dq dk dv : Z) (ctx : option attn_ctx)
    (cu_q cu_kv : option (list Z)) (mask : option attn_mask) (bias : option attn_bias) (b : backend)
    : backend * res (head_rows R) :=
  match _ ← check_call l ctx mask bias (check_bias l q k); check_padded l q k v dq dk dv with
  | Err e => (b, Err e)
  | Ok _ =>
      let '(b, c) := match ctx with
                     | Some c => (b, Ok c)
                     | None => default_ctx_padded dtype l q k cu_q cu_kv mask bias b
                     end in
      (b, c ← c; backend_padded b l q k v c)
  end.

(** [Attention.forward] on packed input *)
Definition forward_ragged (dtype : string) (l : attn_layer) (q k v : packed) (dq dk dv : Z) (ctx : option attn_ctx)
    (cu_q cu_kv : option (list Z)) (mask : option attn_mask) (bias : option attn_bias) (b : backend)
    : backend * res (list (token R)) :=
  match _ ← check_call l ctx mask bias (λ _, Err ValueError);
        _ ← ensure (match mask with None => true | Some _ => false end) ValueError;
        _ ← ensure (match ctx with Some _ => true | None => bool_decide (is_Some cu_q) end) ValueError;
        check_ragged l q k v dq dk dv with
  | Err e => (b, Err e)
  | Ok _ =>
      let '(b, c) := match ctx with
                     | Some c => (b, Ok c)
                     | None => default_ctx_ragged dtype l q cu_q cu_kv bias b
                     end in
      (b, c ← c; backend_ragged b l q k v c)
  end.
End attention.
Arguments attn_layer : clear implicits.
Arguments fi_plan : clear implicits.
Arguments sdpa_mask : clear implicits.
