(* ===== verification/AttentionProps.v ===== *)
(** * Properties of attention without a cache

    The lowerings of a mask mean what the mask declares, packing and offsets
    fit together, and every backend that can serve a call computes the same
    rows. *)

From S2P Require Import Prelude Attention.
Open Scope Z_scope.

(** ** Joined lists and offsets *)

Lemma cumsum_lookup acc l n x :
  cumsum acc l !! n = Some x ↔ (n < List.length l)%nat ∧ x = acc + foldr Z.add 0 (take (S n) l).
Proof.
  revert acc n. induction l as [|y l IH]; intros acc n; simpl.
  { rewrite lookup_nil. split; [done|lia]. }
  destruct n as [|n]; simpl.
  - split; [intros [= <-]; lia|intros [_ ->]; f_equal; lia].
  - rewrite IH. simpl. split; intros [? ->]; split; lia.
Qed.

Lemma cumsum_length acc l : List.length (cumsum acc l) = List.length l.
Proof. revert acc. induction l as [|y l IH]; intros acc; [done|]. simpl. by rewrite IH. Qed.

Definition lengths_of {A} (ls : list (list A)) : list Z := (λ l, Z.of_nat (List.length l)) <$> ls.

Definition offsets {A} (ls : list (list A)) : list Z := 0 :: cumsum 0 (lengths_of ls).

Lemma sum_lengths {A} (ls : list (list A)) : foldr Z.add 0 (lengths_of ls) = Z.of_nat (List.length (mjoin ls)).
Proof. induction ls as [|l ls IH]; [done|]. simpl. rewrite length_app, IH. lia. Qed.

Lemma offsets_lookup {A} (ls : list (list A)) n :
  (n ≤ List.length ls)%nat → offsets ls !! n = Some (Z.of_nat (List.length (mjoin (take n ls)))).
Proof.
  intros Hn. destruct n as [|n]; [by rewrite take_0|]. unfold offsets. cbn [lookup list_lookup].
  change ((cumsum 0 (lengths_of ls)) !! n = Some (Z.of_nat (List.length (mjoin (take (S n) ls))))).
  apply cumsum_lookup. unfold lengths_of at 1. rewrite length_fmap. split; [lia|].
  unfold lengths_of. rewrite <- fmap_take. fold (lengths_of (take (S n) ls)). by rewrite sum_lengths.
Qed.

Lemma join_middle {A} (ls : list (list A)) n l : ls !! n = Some l → mjoin ls = mjoin (take n ls) ++ l ++ mjoin (drop (S n) ls).
Proof. intros Hl. rewrite <- (take_drop_middle ls n l Hl) at 1. rewrite join_app. done. Qed.

Lemma cumsum_sorted acc l : Forall (λ x, 0 <= x) l → StronglySorted Z.le (acc :: cumsum acc l).
Proof.
  intros Hl. revert acc. induction Hl as [|x l Hx Hl IH]; intros acc; [repeat constructor|]. specialize (IH (acc + x)).
  constructor; [done|]. simpl. apply StronglySorted_inv in IH as [_ Hle].
  constructor; [lia|]. eapply Forall_impl; [exact Hle|]. simpl. lia.
Qed.

Lemma offsets_sorted {A} (ls : list (list A)) : StronglySorted Z.le (offsets ls).
Proof. apply cumsum_sorted. apply Forall_fmap, Forall_true. intros l. simpl. lia. Qed.

(** The offsets up to a position, of ascending ones. *)
Lemma filter_below (cu : list Z) (t : Z) : Forall (λ c, t < c) cu → filter (λ c : Z, (c <= t)%Z) cu = [].
Proof. induction 1 as [|c cu Hc _ IH]; [done|]. rewrite filter_cons, decide_False by lia. done. Qed.

Lemma below_length cu n s e t :
  StronglySorted Z.le cu → cu !! n = Some s → cu !! S n = Some e → s <= t < e →
  List.length (filter (λ c : Z, (c <= t)%Z) cu) = S n.
Proof.
  intros Hs. revert n. induction Hs as [|c cu Hs IH Hle]; intros [|n]; simpl; try done; intros Hn Hn1 Ht.
  - injection Hn as ->. rewrite filter_cons, decide_True by lia. simpl. rewrite filter_below; [done|].
    destruct cu as [|c cu]; [done|]. injection Hn1 as ->. apply StronglySorted_inv in Hs as [_ Hge].
    constructor; [lia|]. eapply Forall_impl; [exact Hge|]. simpl. lia.
  - rewrite Forall_forall in Hle. pose proof (Hle s (list_elem_of_lookup_2 _ _ _ Hn)).
    rewrite filter_cons, decide_True by lia. simpl. by rewrite (IH n).
Qed.

(** The pieces between consecutive offsets are the lists that were joined. *)
Lemma slice_join {A} (ls : list (list A)) n l :
  ls !! n = Some l →
  let s := Z.of_nat (List.length (mjoin (take n ls))) in
  let e := Z.of_nat (List.length (mjoin (take (S n) ls))) in
  offsets ls !! n = Some s ∧ offsets ls !! S n = Some e ∧ 0 <= s <= e ∧ e <= Z.of_nat (List.length (mjoin ls)) ∧
  e - s = Z.of_nat (List.length l) ∧ slice (mjoin ls) s e = l.
Proof.
  intros Hl s e. pose proof (lookup_lt_Some _ _ _ Hl) as Hn.
  pose proof (join_middle ls n l Hl) as Hj.
  assert (mjoin (take (S n) ls) = mjoin (take n ls) ++ l) as He.
  { rewrite (take_S_r _ _ _ Hl), join_app. simpl. by rewrite app_nil_r. }
  assert (e = s + Z.of_nat (List.length l)) as Hes by (unfold e, s; rewrite He, length_app; lia).
  split; [apply offsets_lookup; lia|]. split; [apply offsets_lookup; lia|].
  split; [lia|]. split; [rewrite Hj, !length_app; fold s; lia|]. split; [lia|].
  unfold slice. rewrite Hj. unfold s at 2. rewrite Nat2Z.id, drop_app_length.
  replace (Z.to_nat (e - s)) with (List.length l) by lia. apply take_app_length.
Qed.

Lemma join_lookup {A} (ls : list (list A)) n l i :
  ls !! n = Some l → (i < List.length l)%nat →
  mjoin ls !! (List.length (mjoin (take n ls)) + i)%nat = l !! i.
Proof.
  intros Hl Hi. rewrite (join_middle ls n l Hl), lookup_app_r by lia.
  replace (_ + i - _)%nat with i by lia. by rewrite lookup_app_l.
Qed.

Lemma join_fmap {A B} (f : A → B) (ls : list (list A)) : f <$> mjoin ls = mjoin ((fmap f : list A → list B) <$> ls).
Proof. induction ls as [|l ls IH]; [done|]. simpl. by rewrite fmap_app, IH. Qed.

Lemma join_filter {A} (P : A → Prop) `{∀ x, Decision (P x)} (ls : list (list A)) :
  filter P (mjoin ls) = mjoin (filter P <$> ls).
Proof. induction ls as [|l ls IH]; [done|]. simpl. by rewrite filter_app, IH. Qed.

Lemma join_uniform_length {A} (ls : list (list A)) n : (∀ l, l ∈ ls → List.length l = n) → List.length (mjoin ls) = (List.length ls * n)%nat.
Proof.
  induction ls as [|l ls IH]; intros Hn; [done|]. simpl. rewrite length_app, IH, (Hn l); [done|by left|].
  intros l' Hl'. apply Hn. by right.
Qed.

(** ** Rows of a batch *)

Section rows.
Context {R : Type}.

Definition row_tokens (t : head_rows R) (b : nat) : list (token R) := (λ i, at3 t b i) <$> seq 0 (d1 t).

Lemma flatten_join (t : head_rows R) : flatten_rows t = mjoin (row_tokens t <$> seq 0 (d0 t)).
Proof.
  unfold flatten_rows, positions2. rewrite join_fmap. f_equal. rewrite <- list_fmap_compose. apply list_fmap_ext.
  intros ? b _. unfold compose, row_tokens. rewrite <- list_fmap_compose. done.
Qed.

(** The kept entries of row [b], under any reading [f] of a position. *)
Definition kept_rows {A} (f : nat → nat → A) (valid : nat → nat → bool) (S b : nat) : list A :=
  f b <$> filter (λ i, valid b i = true) (seq 0 S).

Lemma kept_join {A} (f : nat → nat → A) valid B S :
  (λ p : nat * nat, f p.1 p.2) <$> kept valid B S = mjoin (kept_rows f valid S <$> seq 0 B).
Proof.
  unfold kept, positions2. rewrite join_filter, join_fmap. f_equal. rewrite <- !list_fmap_compose. apply list_fmap_ext.
  intros ? b _. unfold compose, kept_rows. induction (seq 0 S) as [|x l IH]; [done|]. simpl. rewrite !filter_cons. simpl.
  destruct (decide (valid b x = true)); simpl; [by f_equal|done].
Qed.

Lemma packed_offsets_join {A} (f : nat → nat → A) valid B S :
  packed_offsets valid B S = offsets (kept_rows f valid S <$> seq 0 B).
Proof.
  unfold packed_offsets, offsets, lengths_of. f_equal. f_equal. rewrite <- list_fmap_compose. apply list_fmap_ext.
  intros ? b _. unfold compose, row_count, kept_rows. by rewrite length_fmap.
Qed.

Lemma take_seq_rows {A} (f : nat → list A) B b : (b ≤ B)%nat → take b (f <$> seq 0 B) = f <$> seq 0 b.
Proof. intros Hb. rewrite <- fmap_take, take_seq. by replace (b `min` B)%nat with b by lia. Qed.

Lemma row_lookup {A} (f : nat → list A) B b : (b < B)%nat → (f <$> seq 0 B) !! b = Some (f b).
Proof. intros Hb. by rewrite list_lookup_fmap, lookup_seq_lt. Qed.

Lemma row_tokens_length (t : head_rows R) b : List.length (row_tokens t b) = d1 t.
Proof. unfold row_tokens. by rewrite length_fmap, length_seq. Qed.

Lemma flatten_prefix (t : head_rows R) b : (b ≤ d0 t)%nat →
  List.length (mjoin (take b (row_tokens t <$> seq 0 (d0 t)))) = (b * d1 t)%nat.
Proof.
  intros Hb. rewrite take_seq_rows by done. rewrite (join_uniform_length _ (d1 t)); [by rewrite length_fmap, length_seq|].
  intros l (b' & -> & _)%list_elem_of_fmap. apply row_tokens_length.
Qed.

Lemma uniform_offsets_join (t : head_rows R) os :
  uniform_offsets (d0 t) (d1 t) = Ok os → os = offsets (row_tokens t <$> seq 0 (d0 t)).
Proof.
  unfold uniform_offsets. destruct (Nat.eqb_spec (d1 t) 0); [done|]. intros [= <-]. apply list_eq. intros m.
  destruct (decide (m ≤ d0 t)%nat) as [Hn|Hn].
  - rewrite offsets_lookup by (rewrite length_fmap, length_seq; lia). rewrite flatten_prefix by done.
    rewrite list_lookup_fmap, lookup_seq_lt by lia. done.
  - rewrite !lookup_ge_None_2; [done|..].
    + unfold offsets, lengths_of. simpl. rewrite cumsum_length, !length_fmap, length_seq. lia.
    + rewrite length_fmap, length_seq. lia.
Qed.
End rows.

(** ** Scattering packed rows back *)

Lemma NoDup_fmap_filter {A B} (f : A → B) (P : A → Prop) `{∀ x, Decision (P x)} (l : list A) :
  NoDup (f <$> l) → NoDup (f <$> filter P l).
Proof.
  induction l as [|x l IH]; [done|]. simpl. intros [Hx Hl]%NoDup_cons. rewrite filter_cons. destruct (decide (P x)); [|auto].
  simpl. apply NoDup_cons. split; [|auto]. intros (y & Hy & [_ Hin]%list_elem_of_filter)%list_elem_of_fmap.
  apply Hx. apply list_elem_of_fmap. eauto.
Qed.

Lemma positions2_seq B S : (λ p : nat * nat, (p.1 * S + p.2)%nat) <$> positions2 B S = seq 0 (B * S).
Proof.
  unfold positions2. rewrite join_fmap. rewrite <- list_fmap_compose. induction B as [|B IH]; [done|].
  rewrite seq_S, fmap_app, join_app, IH. simpl. rewrite app_nil_r, (Nat.add_comm S), seq_app. f_equal.
  rewrite <- list_fmap_compose. simpl. apply list_eq. intros i. rewrite list_lookup_fmap.
  destruct (decide (i < S)%nat) as [Hi|Hi].
  - rewrite !lookup_seq_lt by lia. done.
  - rewrite !lookup_seq_ge by lia. done.
Qed.

Lemma kept_index_nodup valid B S : NoDup ((λ p : nat * nat, (p.1 * S + p.2)%nat) <$> kept valid B S).
Proof. apply NoDup_fmap_filter. rewrite positions2_seq. apply NoDup_seq. Qed.

Lemma index_copy_length {A} (out : list A) index source : List.length (index_copy out index source) = List.length out.
Proof. revert out source. induction index as [|i index IH]; intros out [|x source]; simpl; try done. by rewrite IH, length_insert. Qed.

Lemma index_copy_frame {A} (out : list A) index source p : p ∉ index → index_copy out index source !! p = out !! p.
Proof.
  revert out source. induction index as [|i index IH]; intros out [|x source]; simpl; try done.
  intros [Hi Hp]%not_elem_of_cons. rewrite IH by done. by rewrite list_lookup_insert_ne by congruence.
Qed.

Lemma index_copy_lookup {A} (out : list A) index source n p x :
  NoDup index → index !! n = Some p → source !! n = Some x → (p < List.length out)%nat →
  index_copy out index source !! p = Some x.
Proof.
  revert out source n. induction index as [|i index IH]; intros out [|y source] [|n]; try done; simpl.
  - intros [Hi _]%NoDup_cons [= ->] [= ->] Hp. rewrite index_copy_frame by done. rewrite list_lookup_insert_eq; done.
  - intros [_ Hd]%NoDup_cons Hn Hx Hp. eapply IH; try done. by rewrite length_insert.
Qed.

(** ** What a mask allows *)

(** The segment a position lies in, and the number of flagged segments up to
    and including it. *)
Fixpoint segment_of (segments : list (Z * bool)) (p : Z) : nat :=
  match segments with
  | [] => 0
  | (length, _) :: segments' => if p <? length then 0 else Datatypes.S (segment_of segments' (p - length))
  end.

Definition group (segments : list (Z * bool)) (p : Z) : Z :=
  Z.of_nat (List.length (filter (λ s : Z * bool, s.2 = true) (take (Datatypes.S (segment_of segments p)) segments))).

Definition positive_segments (segments : list (Z * bool)) : Prop := Forall (λ s : Z * bool, 0 < s.1) segments.

(** One segment's [ar] flags. *)
Definition segment_ar (s : Z * bool) : list Z := (if s.2 : bool then 1 else 0) :: replicate (Z.to_nat s.1 - 1) 0.

Lemma segment_ar_length s : 0 < s.1 → List.length (segment_ar s) = Z.to_nat s.1.
Proof. intros Hs. unfold segment_ar. simpl. rewrite length_replicate. lia. Qed.

Lemma segments_total_nonneg segments : positive_segments segments → 0 <= segments_total segments.
Proof.
  induction 1 as [|[n f] segments Hn _ IH]; [done|]. change (0 <= n + segments_total segments). simpl in Hn. lia.
Qed.

Lemma segment_flags_join segments pre start :
  positive_segments segments → start = Z.of_nat (List.length pre) →
  segment_flags segments start (pre ++ replicate (Z.to_nat (segments_total segments)) 0) = pre ++ mjoin (segment_ar <$> segments).
Proof.
  intros Hp. revert pre start. induction Hp as [|[n f] segments Hn Hp IH]; intros pre start ->; [done|]. simpl in Hn.
  pose proof (segments_total_nonneg _ Hp) as Ht.
  change (segments_total ((n, f) :: segments)) with (n + segments_total segments).
  replace (Z.to_nat (n + segments_total segments))
    with (Z.to_nat n + Z.to_nat (segments_total segments))%nat by lia.
  rewrite replicate_add. simpl.
  assert (replicate (Z.to_nat n) 0 = 0 :: replicate (Z.to_nat n - 1) 0) as ->.
  { replace (Z.to_nat n) with (Datatypes.S (Z.to_nat n - 1)) at 1 by lia. done. }
  rewrite Nat2Z.id. assert ((if f then <[List.length pre := 1]> (pre ++ (0 :: replicate (Z.to_nat n - 1) 0)
      ++ replicate (Z.to_nat (segments_total segments)) 0)
    else pre ++ (0 :: replicate (Z.to_nat n - 1) 0) ++ replicate (Z.to_nat (segments_total segments)) 0)
    = (pre ++ segment_ar (n, f)) ++ replicate (Z.to_nat (segments_total segments)) 0) as ->.
  { rewrite <- app_assoc. destruct f; [|done]. rewrite insert_app_r_alt by lia. by rewrite Nat.sub_diag. }
  rewrite IH; [by rewrite <- app_assoc|]. rewrite length_app, segment_ar_length by done. simpl. lia.
Qed.

Lemma cumsum_app acc l l' : cumsum acc (l ++ l') = cumsum acc l ++ cumsum (acc + foldr Z.add 0 l) l'.
Proof. revert acc. induction l as [|x l IH]; intros acc; simpl; [by rewrite Z.add_0_r|]. by rewrite IH, Z.add_assoc. Qed.

Lemma cumsum_zeros acc n : cumsum acc (replicate n 0) = replicate n acc.
Proof. revert acc. induction n as [|n IH]; intros acc; simpl; [done|]. by rewrite Z.add_0_r, IH. Qed.

Lemma sum_zeros n : foldr Z.add 0 (replicate n 0) = 0.
Proof. by induction n. Qed.

Lemma group_cons n f segments p :
  group ((n, f) :: segments) p = (if f : bool then 1 else 0) + (if p <? n then 0 else group segments (p - n)).
Proof.
  unfold group. cbn [segment_of]. destruct (p <? n); simpl; rewrite filter_cons; simpl; destruct f; simpl; rewrite ?take_0; try done; lia.
Qed.

Lemma cumsum_group acc segments p :
  positive_segments segments → (p < Z.to_nat (segments_total segments))%nat →
  nth p (cumsum acc (mjoin (segment_ar <$> segments))) 0 = acc + group segments (Z.of_nat p).
Proof.
  intros Hp. revert acc p. induction Hp as [|[n f] segments Hn Hp IH]; intros acc p Hlt; [change (p < 0)%nat in Hlt; lia|]. simpl in Hn.
  change (segments_total ((n, f) :: segments)) with (n + segments_total segments) in Hlt.
  pose proof (segments_total_nonneg _ Hp) as Ht.
  change (mjoin (segment_ar <$> (n, f) :: segments)) with (segment_ar (n, f) ++ mjoin (segment_ar <$> segments)). rewrite cumsum_app, group_cons.
  assert (cumsum acc (segment_ar (n, f)) = replicate (Z.to_nat n) (acc + if f then 1 else 0)) as ->.
  { unfold segment_ar. simpl. rewrite cumsum_zeros. replace (Z.to_nat n) with (Datatypes.S (Z.to_nat n - 1)) at 2 by lia. done. }
  assert (foldr Z.add 0 (segment_ar (n, f)) = if f then 1 else 0) as ->.
  { unfold segment_ar. simpl. rewrite sum_zeros. destruct f; lia. }
  destruct (Z.ltb_spec (Z.of_nat p) n).
  - rewrite app_nth1 by (rewrite length_replicate; lia). rewrite nth_lookup, lookup_replicate_2 by lia. simpl. lia.
  - rewrite app_nth2 by (rewrite length_replicate; lia). rewrite length_replicate, IH by lia.
    replace (Z.of_nat (p - Z.to_nat n)) with (Z.of_nat p - n) by lia. lia.
Qed.

Lemma segments_block_group segments S_q S_kv i j :
  positive_segments segments → segments_total segments = Z.of_nat S_kv → (S_q ≤ S_kv)%nat → (i < S_q)%nat → (j < S_kv)%nat →
  segments_block_mask segments S_q S_kv i j = (group segments (Z.of_nat j) <=? group segments (Z.of_nat i + (Z.of_nat S_kv - Z.of_nat S_q))).
Proof.
  intros Hp Ht Hle Hi Hj. unfold segments_block_mask.
  pose proof (segment_flags_join segments [] 0 Hp eq_refl) as Hf. simpl in Hf. rewrite Ht, Nat2Z.id in Hf. rewrite Hf.
  rewrite !cumsum_group by (done || lia). rewrite !Z.add_0_l. do 2 f_equal. lia.
Qed.

(** The keys of a row that a mask declares valid. *)
Definition key_ok (m : option attn_mask) (b j : nat) : bool :=
  match m with
  | None => true
  | Some m => match am_keys m, am_lengths m with
              | Some ks, _ => ks_at ks b j
              | None, Some lens => Z.of_nat j <? nth b lens 0
              | None, None => true
              end
  end.

(** A query may attend a key: the declared blocks, else the causal order and
    the window, queries aligned with the last keys; and the key is valid. *)
Definition allowed (causal : bool) (window : option Z) (m : option attn_mask) (S_q S_kv b i j : nat) : bool :=
  let q_pos := Z.of_nat i + (Z.of_nat S_kv - Z.of_nat S_q) in
  match m ≫= am_segments with
  | Some segments => group segments (Z.of_nat j) <=? group segments q_pos
  | None => (negb causal || (Z.of_nat j <=? q_pos)) && in_window window (q_pos - Z.of_nat j)
  end && key_ok m b j.

Definition mask_ok (m : option attn_mask) : Prop :=
  match m with
  | None => True
  | Some m => (is_Some (am_segments m) ∨ is_Some (am_lengths m) ∨ is_Some (am_keys m)) ∧
              match am_segments m with Some segments => positive_segments segments | None => True end
  end.

Lemma attn_mask_init_ok segments lens keys m : attn_mask_init segments lens keys = Ok m → mask_ok (Some m).
Proof.
  unfold attn_mask_init. intros ([] & Hsome%ensure_ok & Hr)%bind_ok. apply bind_ok in Hr as (_ & _ & Hr).
  apply bind_ok in Hr as ([] & Hs & [= <-]). unfold mask_ok. simpl.
  split; [destruct segments, lens, keys; naive_solver|]. destruct segments as [l|]; [|done].
  apply ensure_ok in Hs. apply andb_prop in Hs as [_ Hs]. apply Forall_forall. intros s Hin.
  rewrite forallb_forall in Hs. apply list_elem_of_In in Hin. specialize (Hs s Hin). simpl in Hs. lia.
Qed.

Lemma causal_block_visible causal window S_q S_kv i j :
  (∀ w, window = Some w → causal = true) →
  match causal_block_mask S_q S_kv causal window with Some block => block i j | None => true end =
  allowed causal window None S_q S_kv 0 i j.
Proof.
  intros Hw. unfold causal_block_mask, allowed. simpl. rewrite andb_true_r. destruct causal; simpl; [done|].
  destruct window as [w|]; [by discriminate (Hw w)|]. done.
Qed.

Lemma kv_valid_spec m B S_kv v b j :
  kv_valid m B S_kv = Ok v → (match v with Some f => f b j | None => true end) = key_ok (Some m) b j.
Proof.
  unfold kv_valid, key_ok. destruct (am_keys m) as [ks|].
  - by intros (_ & _ & [= <-])%bind_ok.
  - destruct (am_lengths m) as [lens|]; [by intros (_ & _ & [= <-])%bind_ok|by intros [= <-]].
Qed.

Lemma dense_visible m S_q S_kv B causal window d b i j :
  mask_ok (Some m) → (∀ w, window = Some w → causal = true) →
  dense m S_q S_kv B causal window = Ok d → (i < S_q)%nat → (j < S_kv)%nat →
  match d with Some f => f b i j | None => true end = allowed causal window (Some m) S_q S_kv b i j.
Proof.
  intros Hm Hw. unfold dense. intros (block & Hb & Hr)%bind_ok Hi Hj. apply bind_ok in Hr as (v & Hv & [= <-]).
  pose proof (kv_valid_spec m B S_kv v b j Hv) as Hk. unfold allowed. rewrite <- Hk.
  assert (match block with Some f => f i j | None => true end =
    match Some m ≫= am_segments with
    | Some segments => group segments (Z.of_nat j) <=? group segments (Z.of_nat i + (Z.of_nat S_kv - Z.of_nat S_q))
    | None => (negb causal || (Z.of_nat j <=? Z.of_nat i + (Z.of_nat S_kv - Z.of_nat S_q)))
              && in_window window (Z.of_nat i + (Z.of_nat S_kv - Z.of_nat S_q) - Z.of_nat j)
    end) as <-.
  { apply proj2 in Hm. simpl in *. destruct (am_segments m) as [segments|].
    - apply bind_ok in Hb as ([] & Ht%ensure_ok & Hb). apply bind_ok in Hb as ([] & Hle%ensure_ok & [= <-]).
      apply segments_block_group; try done; [lia|]. by apply Nat.leb_le.
    - injection Hb as <-. rewrite causal_block_visible by done. unfold allowed. simpl. by rewrite andb_true_r. }
  destruct block, v; simpl; by rewrite ?andb_true_r.
Qed.

(** ** The reference rows *)

Section reference.
Context {F S R : Type} `{Num : Numerics F S R} {NumLaws : NumericsLaws F S R}.

(** What [Attention.__init__] establishes of a layer. *)
Record layer_ok (l : attn_layer F) : Prop := {
  lo_kv : 0 < ly_kv_heads l;
  lo_heads : ly_heads l mod ly_kv_heads l = 0;
  lo_window w : ly_window l = Some w → ly_causal l = true ∧ 0 < w;
}.

Lemma attention_init_ok scale heads dim kv sc causal window cap l :
  attention_init scale heads dim kv sc causal window cap = Ok l → layer_ok l.
Proof.
  unfold attention_init. intros ([] & Hh & Hr)%bind_ok. apply bind_ok in Hr as ([] & Hw & [= <-]).
  apply ensure_ok, negb_true_iff, orb_false_iff in Hh as [Hk Hm]. apply Z.leb_gt in Hk.
  apply negb_false_iff, Z.eqb_eq in Hm. split; simpl; [done|done|]. intros w ->.
  apply bind_ok in Hw as ([] & Hpos%ensure_ok & Hc%ensure_ok). split; [done|lia].
Qed.

(** The key head that serves query head [h]. *)
Definition kv_head (l : attn_layer F) (h : nat) : nat := (h / Z.to_nat (ly_heads l / ly_kv_heads l))%nat.

Definition score (l : attn_layer F) (bias : option (bias_fn (S:=S))) (q k : head_rows R) (b h i j : nat) : S :=
  biased bias b h i j (capped (ly_cap l) (logit (ly_scale l) (at3 q b i h) (at3 k b j (kv_head l h)))).

Definition visible_keys (l : attn_layer F) (m : option attn_mask) (S_q S_kv b i : nat) : list nat :=
  filter (λ j, allowed (ly_causal l) (ly_window l) m S_q S_kv b i j = true) (seq 0 S_kv).

(** Query [i] of row [b] attends, in head [h], exactly the keys it may. *)
Definition ref_row (l : attn_layer F) (m : option attn_mask) (bias : option (bias_fn (S:=S))) (q k v : head_rows R)
    (b i h : nat) : R :=
  attend ((λ j, (Some (score l bias q k b h i j), at3 v b j (kv_head l h))) <$> visible_keys l m (d1 q) (d1 k) b i).

Lemma filter_fmap_rows (P : option S * R → Prop) `{∀ x, Decision (P x)} {A} (f : A → option S * R) (l : list A) :
  filter P (f <$> l) = f <$> filter (λ a, P (f a)) l.
Proof. induction l as [|a l IH]; [done|]. rewrite fmap_cons, !filter_cons. case_decide; simpl; by rewrite IH. Qed.

(** Masked keys can be left out. *)
Lemma attend_visible (visible : nat → bool) (s : nat → S) (r : nat → R) js :
  attend ((λ j, (if visible j then Some (s j) else None, r j)) <$> js) =
  attend ((λ j, (Some (s j), r j)) <$> filter (λ j, visible j = true) js).
Proof.
  rewrite attend_masked, (attend_masked (_ <$> filter _ js)). f_equal. rewrite !filter_fmap_rows.
  induction js as [|j js IH]; [done|]. rewrite !filter_cons. simpl.
  destruct (visible j) eqn:E; simpl.
  - rewrite E. f_equal. apply IH.
  - apply IH.
Qed.

Lemma repeat_kv_at (x : head_rows R) heads kv b h s :
  0 < kv → at3 (repeat_kv x heads kv) b h s = at3 x b (h / Z.to_nat (heads / kv))%nat s.
Proof.
  intros Hk. unfold repeat_kv. destruct (Z.eqb_spec heads kv) as [->|]; [|done].
  rewrite Z_div_same by lia. change (Z.to_nat 1) with 1%nat. by rewrite Nat.div_1_r.
Qed.

Lemma repeat_kv_d2 (x : head_rows R) heads kv : d2 (repeat_kv x heads kv) = d2 x.
Proof. unfold repeat_kv. by destruct (heads =? kv). Qed.

(** The meaning of a lowered mask, for the rows of a call. *)
Definition lowered (l : attn_layer F) (m : option attn_mask) (S_q S_kv : nat) (d : option (nat → nat → nat → bool)) : Prop :=
  ∀ b i j, (i < S_q)%nat → (j < S_kv)%nat →
  match d with Some f => f b i j
  | None => match causal_block_mask S_q S_kv (ly_causal l) (ly_window l) with Some block => block i j | None => true end
  end = allowed (ly_causal l) (ly_window l) m S_q S_kv b i j.

Lemma padded_mask_lowered l m (q k : head_rows R) d :
  layer_ok l → mask_ok m → padded_mask l m q k = Ok d → lowered l m (d1 q) (d1 k) d.
Proof.
  intros Hl Hm Hd b i j Hi Hj. assert (∀ w, ly_window l = Some w → ly_causal l = true) as Hw by (intros w Hw; by apply (lo_window l Hl w)).
  destruct m as [m|]; simpl in Hd; [|injection Hd as <-; by apply causal_block_visible].
  pose proof (dense_visible m _ _ _ _ _ d b i j Hm Hw Hd Hi Hj) as Hv. destruct d as [f|]; [done|].
  (* nothing was masked at all *)
  unfold dense in Hd. apply bind_ok in Hd as (block & Hb & Hd). apply bind_ok in Hd as (v & Hk & Hd).
  destruct block as [block|], v as [v|]; try done. clear Hd.
  destruct (am_segments m); [by inv_bind|]. injection Hb as ->. done.
Qed.

Lemma eager_row l m bias (q k v : head_rows R) d b i h :
  layer_ok l → lowered l m (d1 q) (d1 k) d → (i < d1 q)%nat →
  at3 (eager_attn (ly_scale l) (ly_causal l) (ly_window l) (ly_cap l) d bias (transpose12 q)
        (repeat_kv (transpose12 k) (ly_heads l) (ly_kv_heads l))
        (repeat_kv (transpose12 v) (ly_heads l) (ly_kv_heads l))) b h i = ref_row l m bias q k v b i h.
Proof.
  intros Hl Hd Hi. pose proof (lo_kv l Hl) as Hk. unfold eager_attn, ref_row, visible_keys. cbn [at3 d2]. rewrite repeat_kv_d2.
  cbn [d2 transpose12].
  rewrite <- (attend_visible (λ j, allowed (ly_causal l) (ly_window l) m (d1 q) (d1 k) b i j)).
  f_equal. apply list_fmap_ext. intros j ? [-> Hj]%lookup_seq. change (0 + j)%nat with j. rewrite !repeat_kv_at by done.
  rewrite <- (Hd b i j Hi Hj). f_equal. unfold score, kv_head. cbn [transpose12 at3].
  destruct d as [f|]; [done|]. simpl. destruct (causal_block_mask _ _ _ _); done.
Qed.

(** *** SDPA *)

Context `{Fused : @Sdpa F S R} {FusedLaws : SdpaLaws}.

(** A row of a fused call whose entries are masked as the reference's. *)
Lemma sdpa_entry_row l m bias (q k v : head_rows R) M c b i h :
  layer_ok l → ly_heads l = Z.of_nat (d2 q) → ly_kv_heads l = Z.of_nat (d2 k) → ly_cap l = None →
  (b < d0 q)%nat → (h < d2 q)%nat → (i < d1 q)%nat → (M = NoMask ∨ c = false) →
  (∀ j x, (j < d1 k)%nat → sdpa_entry M c b h i j x =
     if allowed (ly_causal l) (ly_window l) m (d1 q) (d1 k) b i j then Some (biased bias b h i j x) else None) →
  (∃ j, (j < d1 k)%nat ∧ allowed (ly_causal l) (ly_window l) m (d1 q) (d1 k) b i j = true) →
  at3 (sdpa (transpose12 q) (transpose12 k) (transpose12 v) M c (ly_scale l) (negb (ly_heads l =? ly_kv_heads l))) b h i =
  ref_row l m bias q k v b i h.
Proof.
  intros Hl Hq Hk Hcap Hb Hh Hi HM Hentry (j0 & Hj0 & Hv0).
  set (gqa := negb (ly_heads l =? ly_kv_heads l)).
  assert ((if gqa then (h / (d2 q / d2 k))%nat else h) = kv_head l h) as Hkv.
  { unfold kv_head, gqa. rewrite Hq, Hk. destruct (Z.eqb_spec (Z.of_nat (d2 q)) (Z.of_nat (d2 k))) as [->|]; simpl.
    - pose proof (lo_kv l Hl). rewrite Z_div_same by lia. change (Z.to_nat 1) with 1%nat. by rewrite Nat.div_1_r.
    - by rewrite <- Nat2Z.inj_div, Nat2Z.id. }
  rewrite (sdpa_row (transpose12 q) (transpose12 k) (transpose12 v) M c (ly_scale l) gqa b h i); simpl; try done.
  - rewrite Hkv. unfold ref_row, visible_keys.
    rewrite <- (attend_visible (λ j, allowed (ly_causal l) (ly_window l) m (d1 q) (d1 k) b i j)).
    f_equal. apply list_fmap_ext. intros j ? [-> Hj]%lookup_seq. change (0 + j)%nat with j.
    rewrite Hentry by done. unfold score. by rewrite Hcap.
  - exists j0. split; [done|]. rewrite Hentry, Hv0 by done. by eexists.
Qed.

Lemma allowed_plain causal window S_q S_kv b i j :
  (∀ w, window = Some w → causal = true) →
  allowed causal window None S_q S_kv b i j =
  match causal_block_mask S_q S_kv causal window with Some block => block i j | None => true end.
Proof. intros Hw. rewrite causal_block_visible by done. done. Qed.

Lemma sdpa_attn_row l m bias (q k v : head_rows R) d b i h :
  layer_ok l → ly_heads l = Z.of_nat (d2 q) → ly_kv_heads l = Z.of_nat (d2 k) → lowered l m (d1 q) (d1 k) d →
  (b < d0 q)%nat → (h < d2 q)%nat → (i < d1 q)%nat →
  (∃ j, (j < d1 k)%nat ∧ allowed (ly_causal l) (ly_window l) m (d1 q) (d1 k) b i j = true) →
  at3 (sdpa_attn l d bias (transpose12 q) (transpose12 k) (transpose12 v)) b h i = ref_row l m bias q k v b i h.
Proof.
  intros Hl Hq Hk Hd Hb Hh Hi Hv. unfold sdpa_attn. destruct (ly_cap l) as [cap|] eqn:Hcap.
  { rewrite <- Hcap. by apply eager_row. }
  cbn [d2 transpose12].
  destruct bias as [f|].
  { apply (sdpa_entry_row l m (Some f)); try done; [by right|]. intros j x Hj. rewrite <- (Hd b i j Hi Hj).
    destruct d as [g|]; simpl; [by destruct (g b i j)|].
    destruct (causal_block_mask _ _ _ _) as [g|]; simpl; [by destruct (g i j)|done]. }
  destruct d as [g|].
  { apply (sdpa_entry_row l m None); try done; [by right|]. intros j x Hj. by rewrite <- (Hd b i j Hi Hj). }
  destruct (negb (ly_causal l) && bool_decide (ly_window l = None)) eqn:Hfull.
  { apply (sdpa_entry_row l m None); try done; [by left|]. intros j x Hj. rewrite <- (Hd b i j Hi Hj).
    unfold causal_block_mask. by rewrite Hfull. }
  destruct (ly_causal l && bool_decide (ly_window l = None) && Nat.eqb (d1 q) (d1 k)) eqn:Hsq.
  { apply (sdpa_entry_row l m None); try done; [by left|]. intros j x Hj. rewrite <- (Hd b i j Hi Hj).
    apply andb_prop in Hsq as [[Hc Hw%bool_decide_eq_true]%andb_prop Heq%Nat.eqb_eq].
    unfold causal_block_mask. rewrite Hc, Hw, Heq. simpl. rewrite andb_true_r, Z.sub_diag, Z.add_0_r.
    destruct (Nat.leb_spec j i), (Z.leb_spec (Z.of_nat j) (Z.of_nat i)); done || lia. }
  destruct (causal_block_mask (d1 q) (d1 k) (ly_causal l) (ly_window l)) as [g|] eqn:Hg; simpl.
  - apply (sdpa_entry_row l m None); try done; [by right|]. intros j x Hj. rewrite <- (Hd b i j Hi Hj). by rewrite Hg.
  - unfold causal_block_mask in Hg. by rewrite Hfull in Hg.
Qed.

(** *** FlashInfer *)

Context `{Kernels : @FlashInfer F R} {KernelLaws : FlashInferLaws}.

Lemma omap_seq_imap {A B C} (f : A → B) (g : A → B) (e : nat → B → B → C) (js : list A) (n : nat) (pre : list B) (pre' : list B) :
  List.length pre = n → List.length pre' = n →
  omap (λ i, x ← (pre ++ (f <$> js)) !! i; y ← (pre' ++ (g <$> js)) !! i; Some (e i x y)) (seq n (List.length js)) =
  imap (λ i j, e (n + i)%nat (f j) (g j)) js.
Proof.
  revert n pre pre'. induction js as [|j js IH]; intros n pre pre' Hp Hp'; [done|]. simpl.
  rewrite !lookup_app_r by lia. rewrite Hp, Hp', Nat.sub_diag. simpl. f_equal; [by rewrite Nat.add_0_r|].
  specialize (IH (Datatypes.S n) (pre ++ [f j]) (pre' ++ [g j])). rewrite <- !app_assoc in IH. simpl in IH.
  etrans; [apply IH; rewrite length_app; simpl; lia|]. apply imap_ext. intros i x _. unfold compose. f_equal. lia.
Qed.

(** A row over the kept keys of a batch row is the reference row. *)
Lemma ragged_row_ref l m (q k v : head_rows R) (valid : nat → bool) (visible : Z → Z → bool) b i i' h :
  let js := filter (λ j, valid j = true) (seq 0 (d1 k)) in
  (∀ n j, js !! n = Some j → visible (Z.of_nat i') (Z.of_nat n) =
     allowed (ly_causal l) (ly_window l) m (d1 q) (d1 k) b i j) →
  (∀ j, valid j = false → allowed (ly_causal l) (ly_window l) m (d1 q) (d1 k) b i j = false) →
  ragged_row (ly_scale l) (ly_cap l) visible (at3 q b i) (at3 k b <$> js) (at3 v b <$> js) (kv_head l h) h i' =
  ref_row l m None q k v b i h.
Proof.
  intros js Hvis Hinv. unfold ragged_row, ref_row, visible_keys. rewrite length_fmap.
  set (a j := allowed (ly_causal l) (ly_window l) m (d1 q) (d1 k) b i j).
  pose proof (omap_seq_imap (at3 k b) (at3 v b)
    (λ n kj vj, (if visible (Z.of_nat i') (Z.of_nat n)
       then Some (capped (ly_cap l) (logit (ly_scale l) (at3 q b i h) (kj (kv_head l h)))) else None, vj (kv_head l h)))
    js 0 [] [] eq_refl eq_refl) as Ho. simpl in Ho. unfold ragged_entry. rewrite Ho. clear Ho.
  transitivity (attend ((λ j, (if a j then Some (score l None q k b h i j) else None, at3 v b j (kv_head l h))) <$> js)).
  { f_equal. apply list_eq. intros n. rewrite list_lookup_imap, list_lookup_fmap.
    destruct (js !! n) as [j|] eqn:Hj; [|done]. simpl. by rewrite (Hvis n j Hj). }
  rewrite attend_visible. unfold js. rewrite list_filter_filter. f_equal. f_equal. apply list_filter_iff.
  intros j. unfold a. destruct (valid j) eqn:E; [naive_solver|]. rewrite (Hinv j E). naive_solver.
Qed.

(** A planned run on joined lists, where the plan holds their offsets. *)
Lemma fi_run_joined p (qs ks vs : list (list (token R))) n ql kl vl i t h :
  fp_cu_q p = offsets qs → fp_cu_kv p = offsets ks → lengths_of vs = lengths_of ks →
  qs !! n = Some ql → ks !! n = Some kl → vs !! n = Some vl → ql !! i = Some t → Z.of_nat h < fp_heads p →
  let visible := fi_visible (fp_causal p) (fp_window_left p) (Z.of_nat (List.length ql)) (Z.of_nat (List.length kl)) in
  (∃ j, (j < List.length kl)%nat ∧ visible (Z.of_nat i) (Z.of_nat j) = true) →
  ∃ o, fi_run p (mjoin qs) (mjoin ks) (mjoin vs) !! (List.length (mjoin (take n qs)) + i)%nat = Some o ∧
    o h = ragged_row (fp_scale p) (fp_cap p) visible t kl vl (h / Z.to_nat (fp_heads p / fp_kv_heads p))%nat h i.
Proof.
  intros Hcq Hck Hlen Hq Hk Hv Ht Hh visible (j & Hj & Hvis).
  destruct (slice_join _ _ _ Hq) as (Hq1 & Hq2 & Hq3 & Hq4 & Hq5 & Hq6).
  destruct (slice_join _ _ _ Hk) as (Hk1 & Hk2 & Hk3 & Hk4 & Hk5 & Hk6).
  destruct (slice_join _ _ _ Hv) as (Hv1 & Hv2 & _ & _ & _ & Hv6).
  assert (offsets vs = offsets ks) as Hoff by (unfold offsets; by rewrite Hlen).
  rewrite Hoff, Hk1 in Hv1. rewrite Hoff, Hk2 in Hv2. injection Hv1 as Hv1. injection Hv2 as Hv2.
  rewrite <- Hv1, <- Hv2 in Hv6.
  rewrite <- Hcq in Hq1, Hq2. rewrite <- Hck in Hk1, Hk2.
  assert (StronglySorted Z.le (fp_cu_q p)) as Hsorted by (rewrite Hcq; apply offsets_sorted).
  destruct (fi_run_row p (mjoin qs) (mjoin ks) (mjoin vs) n _ _ _ _ i h t Hsorted Hq1 Hq2 Hk1 Hk2 Hq3 Hq4 Hk3 Hk4) as (o & Ho & Hr).
  - apply Nat2Z.inj. by rewrite <- !sum_lengths, Hlen.
  - by rewrite Hq6.
  - done.
  - rewrite Hq5, Hk5. exists (Z.of_nat j). split; [lia|done].
  - exists o. rewrite Nat2Z.id in Ho. split; [done|]. rewrite Hr, Hq5, Hk5, Hk6, Hv6. done.
Qed.

Lemma row_tokens_kept (t : head_rows R) b : row_tokens t b = kept_rows (at3 t) (λ _ _, true) (d1 t) b.
Proof. unfold row_tokens, kept_rows. by rewrite filter_all by (by apply Forall_true). Qed.

Lemma row_tokens_lookup (t : head_rows R) b i : (i < d1 t)%nat → row_tokens t b !! i = Some (at3 t b i).
Proof. intros Hi. unfold row_tokens. by rewrite list_lookup_fmap, lookup_seq_lt. Qed.

Lemma fi_visible_plain l S_q S_kv b i j :
  layer_ok l → fi_visible (ly_causal l) (fi_window_left (ly_window l)) (Z.of_nat S_q) (Z.of_nat S_kv) (Z.of_nat i) (Z.of_nat j)
               = allowed (ly_causal l) (ly_window l) None S_q S_kv b i j.
Proof.
  intros Hl. unfold fi_visible, allowed, in_window, fi_window_left. simpl. rewrite andb_true_r. f_equal.
  destruct (ly_window l) as [w|] eqn:Hw; [|done]. destruct (lo_window l Hl w Hw) as [_ Hpos].
  destruct (Z.ltb_spec (w - 1) 0); [lia|]. simpl. destruct (Z.leb_spec (Z.of_nat i + (Z.of_nat S_kv - Z.of_nat S_q) - Z.of_nat j) (w - 1)),
    (Z.ltb_spec (Z.of_nat i + (Z.of_nat S_kv - Z.of_nat S_q) - Z.of_nat j) w); done || lia.
Qed.

(** The plan of a padded call. *)
Definition plan_on (l : attn_layer F) (cu_q cu_kv : list Z) : fi_plan F :=
  FiPlan cu_q cu_kv (ly_heads l) (ly_kv_heads l) (ly_head_dim l) (ly_causal l) (ly_scale l) (fi_window_left (ly_window l)) (ly_cap l).

Lemma nth_out (l : list (token R)) n o h (zero : R) : l !! n = Some o → nth n l (λ _, zero) h = o h.
Proof. intros Ho. by rewrite nth_lookup, Ho. Qed.

(** No mask: uniform offsets on both sides. *)
Lemma fi_uniform_row l (q k v : head_rows R) b i h :
  layer_ok l → ly_heads l = Z.of_nat (d2 q) → d0 k = d0 q → d0 v = d0 q → d1 v = d1 k →
  (b < d0 q)%nat → (h < d2 q)%nat → (i < d1 q)%nat →
  (∃ j, (j < d1 k)%nat ∧ allowed (ly_causal l) (ly_window l) None (d1 q) (d1 k) b i j = true) →
  let out := fi_run (plan_on l (offsets (row_tokens q <$> seq 0 (d0 q))) (offsets (row_tokens k <$> seq 0 (d0 q))))
               (flatten_rows q) (flatten_rows k) (flatten_rows v) in
  nth (b * d1 q + i) out (λ _, zero_row) h = ref_row l None None q k v b i h.
Proof.
  intros Hl Hq Hk Hv Hv1 Hb Hh Hi (j & Hj & Hvis) out. unfold out. rewrite !flatten_join, Hk, Hv.
  destruct (fi_run_joined (plan_on l (offsets (row_tokens q <$> seq 0 (d0 q))) (offsets (row_tokens k <$> seq 0 (d0 q))))
    (row_tokens q <$> seq 0 (d0 q)) (row_tokens k <$> seq 0 (d0 q)) (row_tokens v <$> seq 0 (d0 q))
    b (row_tokens q b) (row_tokens k b) (row_tokens v b) i (at3 q b i) h) as (o & Ho & Hr); try done.
  - unfold lengths_of. rewrite <- !list_fmap_compose. apply list_fmap_ext. intros ? b' _. unfold compose. by rewrite !row_tokens_length, Hv1.
  - by apply row_lookup.
  - by apply row_lookup.
  - by apply row_lookup.
  - by apply row_tokens_lookup.
  - simpl. lia.
  - rewrite !row_tokens_length. exists j. split; [done|]. simpl. by rewrite (fi_visible_plain l _ _ b).
  - rewrite flatten_prefix in Ho by lia. rewrite (nth_out _ _ _ _ _ Ho), Hr, !row_tokens_length, !row_tokens_kept.
    unfold kept_rows. rewrite Hv1. simpl. apply (ragged_row_ref l None q k v (λ _, true)); [|done].
    intros n j' Hn. rewrite filter_all in Hn by (by apply Forall_true). apply lookup_seq in Hn as [-> _]. by apply fi_visible_plain.
Qed.

(** One sequence, without a plan. *)
Lemma fi_single_row_ref l (q k v : head_rows R) i h :
  layer_ok l → ly_heads l = Z.of_nat (d2 q) → d0 q = 1%nat → d0 k = 1%nat → d0 v = 1%nat → d1 v = d1 k →
  (h < d2 q)%nat → (i < d1 q)%nat →
  (∃ j, (j < d1 k)%nat ∧ allowed (ly_causal l) (ly_window l) None (d1 q) (d1 k) 0 i j = true) →
  nth i (run_single l (flatten_rows q) (flatten_rows k) (flatten_rows v)) (λ _, zero_row) h = ref_row l None None q k v 0 i h.
Proof.
  intros Hl Hq Hq0 Hk0 Hv0 Hv1 Hh Hi (j & Hj & Hvis). rewrite !flatten_join, Hq0, Hk0, Hv0.
  change (seq 0 1) with [0%nat]. cbn [fmap list_fmap mjoin list_join]. rewrite !app_nil_r.
  destruct (fi_single_row (ly_causal l) (ly_scale l) (fi_window_left (ly_window l)) (ly_cap l) (ly_heads l) (ly_kv_heads l)
    (row_tokens q 0) (row_tokens k 0) (row_tokens v 0) i h (at3 q 0 i)) as (o & Ho & Hr).
  - by apply row_tokens_lookup.
  - lia.
  - by rewrite !row_tokens_length.
  - rewrite !row_tokens_length. exists (Z.of_nat j). split; [lia|]. by rewrite (fi_visible_plain l _ _ 0).
  - unfold run_single. rewrite (nth_out _ _ _ _ _ Ho), Hr, !row_tokens_length, !row_tokens_kept.
    unfold kept_rows. rewrite Hv1. apply (ragged_row_ref l None q k v (λ _, true)); [|done].
    intros n j' Hn. rewrite filter_all in Hn by (by apply Forall_true). apply lookup_seq in Hn as [-> _]. by apply fi_visible_plain.
Qed.

(** Without causality every kept key is visible, and only those are allowed. *)
Lemma noncausal_visible l m S_q S_kv len i n :
  layer_ok l → ly_causal l = false → am_segments m = None →
  fi_visible (ly_causal l) (fi_window_left (ly_window l)) (Z.of_nat S_q) len i n = true ∧
  ∀ b i j, allowed (ly_causal l) (ly_window l) (Some m) S_q S_kv b i j = key_ok (Some m) b j.
Proof.
  intros Hl Hc Hm. assert (ly_window l = None) as ->.
  { destruct (ly_window l) as [w|] eqn:Hw; [|done]. destruct (lo_window l Hl w Hw). congruence. }
  rewrite Hc. split; [done|]. intros b i' j. unfold allowed. simpl. by rewrite Hm.
Qed.

Lemma kept_rows_lookup {A} (f : nat → nat → A) valid T b n j :
  filter (λ i, valid b i = true) (seq 0 T) !! n = Some j → kept_rows f valid T b !! n = Some (f b j).
Proof. intros Hn. unfold kept_rows. by rewrite list_lookup_fmap, Hn. Qed.

Lemma kept_lengths {A B} (f : nat → nat → A) (g : nat → nat → B) valid T n :
  lengths_of (kept_rows f valid T <$> seq 0 n) = lengths_of (kept_rows g valid T <$> seq 0 n).
Proof.
  unfold lengths_of. rewrite <- !list_fmap_compose. apply list_fmap_ext. intros ? b _. unfold compose, kept_rows.
  by rewrite !length_fmap.
Qed.

(** A mask on a layer that is not causal: the keys and values are packed. *)
Lemma fi_masked_row l m valid (q k v : head_rows R) b i h :
  layer_ok l → ly_causal l = false → am_segments m = None → (∀ b j, valid b j = key_ok (Some m) b j) →
  ly_heads l = Z.of_nat (d2 q) → d0 k = d0 q →
  (b < d0 q)%nat → (h < d2 q)%nat → (i < d1 q)%nat →
  (∃ j, (j < d1 k)%nat ∧ allowed (ly_causal l) (ly_window l) (Some m) (d1 q) (d1 k) b i j = true) →
  let out := fi_run (plan_on l (offsets (row_tokens q <$> seq 0 (d0 q))) (packed_offsets valid (d0 q) (d1 k)))
               (flatten_rows q) ((λ p, at3 k p.1 p.2) <$> kept valid (d0 q) (d1 k))
               ((λ p, at3 v p.1 p.2) <$> kept valid (d0 q) (d1 k)) in
  nth (b * d1 q + i) out (λ _, zero_row) h = ref_row l (Some m) None q k v b i h.
Proof.
  intros Hl Hc Hm Hvalid Hq Hk Hb Hh Hi (j & Hj & Hvis) out. unfold out. rewrite flatten_join, !kept_join.
  pose proof (λ len n, noncausal_visible l m (d1 q) (d1 k) len (Z.of_nat i) n Hl Hc Hm) as Hall.
  assert (∀ b i j, allowed (ly_causal l) (ly_window l) (Some m) (d1 q) (d1 k) b i j = valid b j) as Hallowed.
  { intros b' i' j'. rewrite Hvalid. by apply (Hall 0 0). }
  rewrite Hallowed in Hvis.
  assert (j ∈ filter (λ j, valid b j = true) (seq 0 (d1 k))) as [n Hn]%list_elem_of_lookup_1.
  { apply list_elem_of_filter. split; [done|]. apply elem_of_seq. lia. }
  destruct (fi_run_joined (plan_on l (offsets (row_tokens q <$> seq 0 (d0 q))) (packed_offsets valid (d0 q) (d1 k)))
    (row_tokens q <$> seq 0 (d0 q)) (kept_rows (at3 k) valid (d1 k) <$> seq 0 (d0 q)) (kept_rows (at3 v) valid (d1 k) <$> seq 0 (d0 q))
    b (row_tokens q b) (kept_rows (at3 k) valid (d1 k) b) (kept_rows (at3 v) valid (d1 k) b) i (at3 q b i) h) as (o & Ho & Hr); try done.
  - simpl. apply packed_offsets_join.
  - apply kept_lengths.
  - by apply row_lookup.
  - by apply row_lookup.
  - by apply row_lookup.
  - by apply row_tokens_lookup.
  - simpl. lia.
  - exists n. split; [eapply lookup_lt_Some; by apply (kept_rows_lookup (at3 k))|]. simpl. rewrite row_tokens_length. apply Hall.
  - rewrite flatten_prefix in Ho by lia. rewrite (nth_out _ _ _ _ _ Ho), Hr, row_tokens_length. simpl.
    apply (ragged_row_ref l (Some m) q k v (valid b)).
    + intros n' j' Hn'. rewrite Hallowed. apply list_elem_of_lookup_2, list_elem_of_filter in Hn' as [-> _]. apply Hall.
    + intros j' Hj'. by rewrite Hallowed.
Qed.

Definition length_valid (lens : list Z) (b j : nat) : bool := Z.of_nat j <? nth b lens 0.

Lemma filter_lengths lens b T :
  filter (λ i, length_valid lens b i = true) (seq 0 T) = seq 0 (Z.to_nat (nth b lens 0) `min` T).
Proof.
  unfold length_valid. induction T as [|T IH]; [by rewrite Nat.min_0_r|].
  rewrite seq_S, filter_app, IH, filter_cons. simpl. rewrite filter_nil.
  destruct (Z.ltb_spec (Z.of_nat T) (nth b lens 0)).
  - rewrite decide_True by done. rewrite !Nat.min_r by lia. by rewrite seq_S.
  - rewrite decide_False by done. rewrite !Nat.min_l by lia. by rewrite app_nil_r.
Qed.

Lemma prefix_kept {A} (f : nat → nat → A) valid T B b :
  (b ≤ B)%nat → packed_offsets valid B T !! b = Some (Z.of_nat (List.length (mjoin (take b (kept_rows f valid T <$> seq 0 B))))).
Proof. intros Hb. rewrite (packed_offsets_join f), offsets_lookup; [done|]. by rewrite length_fmap, length_seq. Qed.

(** Where the packed row of a position is, under any reading of the rows. *)
Lemma kept_index {A} (f : nat → nat → A) valid T B b n i :
  (b < B)%nat → filter (λ i, valid b i = true) (seq 0 T) !! n = Some i →
  ((λ p : nat * nat, (p.1 * T + p.2)%nat) <$> kept valid B T)
    !! (List.length (mjoin (take b (kept_rows f valid T <$> seq 0 B))) + n)%nat = Some (b * T + i)%nat.
Proof.
  intros Hb Hn. set (g b i := (b * T + i)%nat). change ((λ p : nat * nat, (p.1 * T + p.2)%nat)) with (λ p : nat * nat, g p.1 p.2).
  rewrite (kept_join g). pose proof (prefix_kept f valid T B b ltac:(lia)) as Hp.
  rewrite (prefix_kept g) in Hp by lia. injection Hp as <-%Nat2Z.inj.
  rewrite (join_lookup _ _ (kept_rows g valid T b)); [by apply (kept_rows_lookup g)|by apply row_lookup|].
  eapply lookup_lt_Some. by apply (kept_rows_lookup g).
Qed.

(** Lengths on a causal layer: queries, keys and values are packed alike, and
    the result is scattered back. *)
Lemma fi_causal_row l m lens (q k v : head_rows R) b i h :
  layer_ok l → ly_causal l = true → am_segments m = None → am_keys m = None → am_lengths m = Some lens →
  ly_heads l = Z.of_nat (d2 q) → d0 k = d0 q → d1 q = d1 k →
  (b < d0 q)%nat → (h < d2 q)%nat → (i < d1 q)%nat → Z.of_nat i < nth b lens 0 →
  let valid := length_valid lens in
  let offs := packed_offsets valid (d0 q) (d1 k) in
  let index := (λ p : nat * nat, (p.1 * d1 k + p.2)%nat) <$> kept valid (d0 q) (d1 k) in
  let pack (t : head_rows R) := (λ p, at3 t p.1 p.2) <$> kept valid (d0 q) (d1 k) in
  let out := index_copy (replicate (d0 q * d1 q) (λ _, zero_row)) index (fi_run (plan_on l offs offs) (pack q) (pack k) (pack v)) in
  nth (b * d1 q + i) out (λ _, zero_row) h = ref_row l (Some m) None q k v b i h.
Proof.
  intros Hl Hc Hseg Hkeys Hlens Hq Hk Hsq Hb Hh Hi Hlen valid offs index pack out.
  assert (∀ j, allowed (ly_causal l) (ly_window l) (Some m) (d1 q) (d1 k) b i j =
    fi_visible true (fi_window_left (ly_window l)) 0 0 (Z.of_nat i) (Z.of_nat j) && valid b j) as Hallowed.
  { intros j. pose proof (fi_visible_plain l 0 0 b i j Hl) as Hp. rewrite Hc in Hp.
    change (Z.of_nat 0) with 0 in Hp. rewrite Hp, Hc.
    unfold allowed, key_ok. simpl. rewrite Hseg, Hkeys, Hlens, Hsq, Z.sub_diag, andb_true_r. done. }
  assert (filter (λ j, valid b j = true) (seq 0 (d1 k)) !! i = Some i) as Hfi.
  { unfold valid. rewrite filter_lengths. apply lookup_seq. split; [done|lia]. }
  destruct (fi_run_joined (plan_on l offs offs)
    (kept_rows (at3 q) valid (d1 k) <$> seq 0 (d0 q)) (kept_rows (at3 k) valid (d1 k) <$> seq 0 (d0 q))
    (kept_rows (at3 v) valid (d1 k) <$> seq 0 (d0 q))
    b (kept_rows (at3 q) valid (d1 k) b) (kept_rows (at3 k) valid (d1 k) b) (kept_rows (at3 v) valid (d1 k) b)
    i (at3 q b i) h) as (o & Ho & Hr);
    [apply packed_offsets_join|apply packed_offsets_join|apply kept_lengths|by apply row_lookup|by apply row_lookup
    |by apply row_lookup|by apply kept_rows_lookup|simpl; lia|..].
  - exists i. split; [eapply lookup_lt_Some; by apply (kept_rows_lookup (at3 k))|]. simpl. unfold kept_rows. rewrite !length_fmap, Hc.
    unfold fi_visible. rewrite Z.sub_diag, Z.add_0_r. simpl. rewrite Z.leb_refl. simpl. rewrite Z.sub_diag.
    unfold fi_window_left. destruct (ly_window l) as [w|] eqn:Hw; [|done]. destruct (lo_window l Hl w Hw).
    apply orb_true_iff. right. lia.
  - assert (index_copy (replicate (d0 q * d1 q) (λ _, zero_row)) index (fi_run (plan_on l offs offs) (pack q) (pack k) (pack v))
      !! (b * d1 q + i)%nat = Some o) as Hcopy.
    { eapply (index_copy_lookup _ _ _ (List.length (mjoin (take b (kept_rows (at3 q) valid (d1 k) <$> seq 0 (d0 q)))) + i)%nat).
      - apply kept_index_nodup.
      - unfold index. rewrite Hsq. by apply (kept_index (at3 q)).
      - unfold pack. rewrite !kept_join. exact Ho.
      - rewrite length_replicate. nia. }
    unfold out. rewrite (nth_out _ _ _ _ _ Hcopy), Hr. simpl.
    apply (ragged_row_ref l (Some m) q k v (valid b)).
    + intros n' j' Hn'. rewrite Hallowed. unfold valid in Hn'. pose proof Hn' as Hin.
      apply list_elem_of_lookup_2, list_elem_of_filter in Hin as [Hv' _]. unfold valid. rewrite Hv', andb_true_r.
      rewrite filter_lengths in Hn'. apply lookup_seq in Hn' as [-> _]. unfold fi_visible, kept_rows. rewrite !length_fmap, Hc.
      by rewrite !Z.sub_diag.
    + intros j' Hj'. rewrite Hallowed. by apply andb_false_intro2.
Qed.

(** *** Calls *)

Context (plan_check : fi_plan F → res unit) (capturing : bool) (dtype : string).

Lemma uniform_offsets_rows (t : head_rows R) B :
  d0 t = B → (0 < d1 t)%nat → uniform_offsets B (d1 t) = Ok (offsets (row_tokens t <$> seq 0 B)).
Proof.
  intros <- Ht. destruct (uniform_offsets (d0 t) (d1 t)) as [os|e] eqn:E; [by rewrite (uniform_offsets_join _ _ E)|].
  unfold uniform_offsets in E. destruct (Nat.eqb_spec (d1 t) 0); [lia|done].
Qed.

(** The validity a call's mask lowers to, and the offsets planned for it. *)
Definition validity (m : option attn_mask) (B T : nat) : res (option (nat → nat → bool)) :=
  match m with None => Ok None | Some m => kv_valid m B T end.

Definition plan_cu_q (l : attn_layer F) (valid : option (nat → nat → bool)) (q k : head_rows R) : list Z :=
  match valid with
  | Some valid => if ly_causal l then packed_offsets valid (d0 q) (d1 k) else offsets (row_tokens q <$> seq 0 (d0 q))
  | None => offsets (row_tokens q <$> seq 0 (d0 q))
  end.

Definition plan_cu_kv (valid : option (nat → nat → bool)) (q k : head_rows R) : list Z :=
  match valid with
  | Some valid => packed_offsets valid (d0 q) (d1 k)
  | None => offsets (row_tokens k <$> seq 0 (d0 q))
  end.

Definition padded_meta (l : attn_layer F) (q k : head_rows R) m (bias : option (attn_bias (S:=S))) valid : attn_metadata :=
  AttnMetadata false true (Z.of_nat (d0 q)) (Z.of_nat (d0 q * d1 q)) (Some (plan_cu_q l valid q k)) (Some (plan_cu_kv valid q k))
    (Some l) (Some dtype) m bias.

Definition padded_ctx (l : attn_layer F) (q k : head_rows R) m (bias : option (attn_bias (S:=S))) valid (plan : plan_handle) : attn_ctx :=
  AttnCtx plan false true (Some (plan_cu_q l valid q k)) (Some (plan_cu_kv valid q k)) m bias.

Lemma default_ctx_meta l (q k : head_rows R) m (bias : option (attn_bias (S:=S))) valid (b : backend) :
  validity m (d0 q) (d1 k) = Ok valid → d0 k = d0 q → (0 < d1 q)%nat → (0 < d1 k)%nat →
  default_ctx_padded plan_check capturing dtype l q k None None m bias b =
  let '(b, r) := init_forward_metadata plan_check capturing (padded_meta l q k m bias valid) b in
  (b, plan ← r; Ok (padded_ctx l q k m bias valid plan)).
Proof.
  intros Hv Hk Hq1 Hk1. unfold default_ctx_padded.
  pose proof (uniform_offsets_rows q (d0 q) eq_refl Hq1) as Huq. pose proof (uniform_offsets_rows k (d0 q) Hk Hk1) as Huk.
  assert (metadata_init (padded_meta l q k m bias valid) = Ok (padded_meta l q k m bias valid)) as Hi.
  { unfold metadata_init, padded_meta. cbn [md_cu_q md_batch_size md_num_query_tokens md_idle md_padded].
    destruct (Z.ltb_spec (Z.of_nat (d0 q)) 0); [lia|]. destruct (Z.ltb_spec (Z.of_nat (d0 q * d1 q)) 0); [lia|done]. }
  destruct m as [m|]; simpl in Hv.
  - rewrite Hv. unfold padded_meta, padded_ctx, plan_cu_q, plan_cu_kv in *.
    destruct valid as [valid|]; simpl in *; [destruct (ly_causal l); simpl in *|]; rewrite ?Huq, ?Huk; simpl; rewrite Hi; simpl;
      by destruct (init_forward_metadata _ _ _ _) as [? []].
  - injection Hv as <-. simpl in *. rewrite Huq, Huk. simpl. unfold padded_meta, padded_ctx in *. simpl in *. rewrite Hi. simpl.
    by destruct (init_forward_metadata _ _ _ _) as [? []].
Qed.

Definition no_mask (m : option attn_mask) : bool := match m with None => true | Some _ => false end.

Lemma init_flash l (q k : head_rows R) m (bias : option (attn_bias (S:=S))) valid f :
  capturing = false → (∀ p, plan_check p = Ok ()) → m ≫= am_segments = None →
  init_forward_metadata plan_check capturing (padded_meta l q k m bias valid) (BFlash f) =
  if no_mask m && (Z.of_nat (d0 q) <=? 1) && fb_single f then (BFlash f, Ok (FlashPlan false))
  else (BFlash (FlashBackend (fb_single f) (Some (Some (plan_on l (plan_cu_q l valid q k) (plan_cu_kv valid q k))))), Ok (FlashPlan true)).
Proof.
  intros Hcap Hplan Hseg. unfold init_forward_metadata, flash_plan, padded_meta.
  cbn [md_mask md_batch_size md_idle md_cu_q md_cu_kv md_layer md_q_dtype default].
  rewrite Hcap. destruct m as [[segs lens keys]|]; simpl in Hseg; [subst segs|]; simpl.
  - by rewrite Hplan.
  - rewrite orb_false_r. destruct (_ && fb_single f); [done|]. by rewrite Hplan.
Qed.

(** What the checks of a padded call establish. *)
Lemma check_padded_ok (l : attn_layer F) (q k v : head_rows R) dq dk dv :
  check_padded l q k v dq dk dv = Ok () →
  d0 k = d0 q ∧ d0 v = d0 q ∧ d1 v = d1 k ∧ ly_heads l = Z.of_nat (d2 q) ∧ ly_kv_heads l = Z.of_nat (d2 k).
Proof. unfold check_padded. intros Hc. inv_bind. repeat match goal with H : _ && _ = true |- _ => apply andb_prop in H as [? ?] end. repeat match goal with H : Nat.eqb _ _ = true |- _ => apply Nat.eqb_eq in H end. lia. Qed.

(** The calls FlashInfer takes, and the rows it computes of them. *)
Definition flash_fits (l : attn_layer F) (m : option attn_mask) (q k : head_rows R) : Prop :=
  match m with
  | None => True
  | Some m => am_segments m = None ∧ (ly_causal l = true → am_keys m = None ∧ d1 q = d1 k)
  end.

Definition flash_computes (l : attn_layer F) (m : option attn_mask) (b i : nat) : Prop :=
  match m with
  | Some m => ly_causal l = true → match am_lengths m with Some lens => Z.of_nat i < nth b lens 0 | None => True end
  | None => True
  end.

(** A row that sees at least one key. *)
Definition seen (l : attn_layer F) (m : option attn_mask) (q k : head_rows R) (b i : nat) : Prop :=
  ∃ j, (j < d1 k)%nat ∧ allowed (ly_causal l) (ly_window l) m (d1 q) (d1 k) b i j = true.

(** The shape and the rows of a result, on the rows [P]. *)
Definition computes (l : attn_layer F) (m : option attn_mask) bias (q k v o : head_rows R) (P : nat → nat → Prop) : Prop :=
  d0 o = d0 q ∧ d1 o = d1 q ∧ d2 o = d2 q ∧
  ∀ b i h, (b < d0 q)%nat → (i < d1 q)%nat → (h < d2 q)%nat → P b i → at3 o b i h = ref_row l m bias q k v b i h.

Lemma flash_unmasked (l : attn_layer F) (q k v : head_rows R) (c : attn_ctx (S:=S)) (f f' : flash_backend (F:=F)) dq dk dv :
  layer_ok l → check_padded l q k v dq dk dv = Ok () → (0 < d0 q)%nat → cx_mask c = None →
  fb_single f' = fb_single f →
  (if (Z.of_nat (d0 q) <=? 1) && fb_single f then True
   else cx_plan c = FlashPlan true ∧ fb_wrapper f' = Some (Some (plan_on l (plan_cu_q l None q k) (plan_cu_kv None q k)))) →
  ∃ o, flash_padded l q k v c f' = Ok o ∧ computes l None None q k v o (seen l None q k).
Proof.
  intros Hl (Hk0 & Hv0 & Hv1 & Hh & _)%check_padded_ok Hq0 Hm Hs Hplan. unfold flash_padded. rewrite Hm, Hs.
  destruct (Nat.eqb (d0 q) 1 && fb_single f) eqn:E.
  - eexists. split; [reflexivity|]. apply andb_prop in E as [E%Nat.eqb_eq _]. split_and!; try done. intros b i h Hb Hi Hh' Hseen.
    simpl. assert (b = 0)%nat as -> by lia. apply fi_single_row_ref; (done || congruence).
  - assert ((Z.of_nat (d0 q) <=? 1) && fb_single f = false) as Eb.
    { rewrite <- E. f_equal. destruct (Nat.eqb_spec (d0 q) 1), (Z.leb_spec (Z.of_nat (d0 q)) 1); done || lia. }
    rewrite Eb in Hplan. destruct Hplan as [Hp Hw]. unfold run_wrapper. rewrite Hp, Hw. eexists. split; [reflexivity|].
    split_and!; try done. intros b i h Hb Hi Hh' Hseen. by apply fi_uniform_row.
Qed.

Lemma kv_valid_at m B T v : kv_valid m B T = Ok (Some v) → ∀ b j, v b j = key_ok (Some m) b j.
Proof. intros Hv b j. by rewrite <- (kv_valid_spec _ _ _ _ b j Hv). Qed.

(** A mask that is neither segments nor empty restricts the keys. *)
Lemma kv_valid_some m B T v : mask_ok (Some m) → am_segments m = None → kv_valid m B T = Ok v → ∃ f, v = Some f.
Proof.
  intros [Hm _] Hs. unfold kv_valid. destruct (am_keys m), (am_lengths m); intros Hv; inv_bind; eauto.
  rewrite Hs in Hm. destruct Hm as [[? ?]|[[? ?]|[? ?]]]; done.
Qed.

Lemma pack_rows_ok valid B T (ts : list (head_rows R)) :
  (∀ t, t ∈ ts → d0 t = B ∧ d1 t = T) →
  pack_rows valid B T ts = Ok (packed_offsets valid B T, (λ p, (p.1 * T + p.2)%nat) <$> kept valid B T,
    (λ t, (λ p, at3 t p.1 p.2) <$> kept valid B T) <$> ts).
Proof.
  intros Hts. unfold pack_rows. assert (forallb (λ t, Nat.eqb (d0 t) B && Nat.eqb (d1 t) T) ts = true) as ->; [|done].
  apply forallb_forall. intros t Ht%list_elem_of_In. destruct (Hts t Ht) as [-> ->]. by rewrite !Nat.eqb_refl.
Qed.

Lemma flash_masked (l : attn_layer F) m (q k v : head_rows R) (c : attn_ctx (S:=S)) valid (f : flash_backend (F:=F)) dq dk dv :
  layer_ok l → mask_ok (Some m) → check_padded l q k v dq dk dv = Ok () →
  kv_valid m (d0 q) (d1 k) = Ok (Some valid) → flash_fits l (Some m) q k → cx_mask c = Some m →
  cx_plan c = FlashPlan true → fb_wrapper f = Some (Some (plan_on l (plan_cu_q l (Some valid) q k) (plan_cu_kv (Some valid) q k))) →
  ∃ o, flash_padded l q k v c f = Ok o ∧
    computes l (Some m) None q k v o (λ b i, seen l (Some m) q k b i ∧ flash_computes l (Some m) b i).
Proof.
  intros Hl Hm (Hk0 & Hv0 & Hv1 & Hh & _)%check_padded_ok Hvalid [Hseg Hcausal] Hcm Hp Hw.
  unfold flash_padded. rewrite Hcm. unfold flash_padded_masked. rewrite Hvalid. simpl. rewrite Hp. simpl.
  unfold run_wrapper. destruct (ly_causal l) eqn:Hc; simpl.
  - destruct (Hcausal eq_refl) as [Hkeys Hsq]. rewrite Hkeys, Hsq, Nat.eqb_refl. simpl.
    rewrite pack_rows_ok by (intros t Ht; repeat (apply elem_of_cons in Ht as [->|Ht]); [lia|lia|lia|by apply elem_of_nil in Ht]).
    simpl. rewrite Hw. eexists. split; [reflexivity|]. split_and!; simpl; try done.
    intros b i h Hb Hi Hh' [_ Hlen]. unfold flash_computes in Hlen. specialize (Hlen eq_refl).
    unfold kv_valid in Hvalid. rewrite Hkeys in Hvalid. destruct (am_lengths m) as [lens|] eqn:Hlens; [|done].
    inv_bind. unfold plan_cu_q. simpl. rewrite Hc.
    pose proof (fi_causal_row l m lens q k v b i h) as Hr. simpl in Hr. rewrite Hsq in Hr. apply Hr; try done. lia.
  - rewrite pack_rows_ok by (intros t Ht; repeat (apply elem_of_cons in Ht as [->|Ht]); [lia|lia|by apply elem_of_nil in Ht]).
    simpl. rewrite Hw. eexists. split; [reflexivity|]. split_and!; simpl; try done.
    intros b i h Hb Hi Hh' [Hseen _]. unfold plan_cu_q. rewrite Hc.
    apply fi_masked_row; try done. by apply (kv_valid_at m _ _ _ Hvalid).
Qed.

(** The rows a backend computes: the eager one all; a row that sees no key is
    left open by the others. *)
Definition rows_of (b : backend (F:=F)) (l : attn_layer F) (m : option attn_mask) (q k : head_rows R) (n i : nat) : Prop :=
  match b with
  | BEager => True
  | BSdpa => seen l m q k n i
  | BFlash _ => seen l m q k n i ∧ flash_computes l m n i
  end.

Lemma padded_mask_validity (l : attn_layer F) m (q k : head_rows R) d :
  padded_mask l m q k = Ok d → ∃ valid, validity m (d0 q) (d1 k) = Ok valid.
Proof.
  destruct m as [m|]; simpl; [|eauto]. unfold dense. intros (block & _ & Hd)%bind_ok. apply bind_ok in Hd as (v & Hv & _). eauto.
Qed.

(** The dense backends, under any context that carries the mask and the bias. *)
Lemma dense_computes (b : backend (F:=F)) (l : attn_layer F) m (bias : option (attn_bias (S:=S))) (q k v : head_rows R) d plan valid dq dk dv :
  layer_ok l → mask_ok m → check_padded l q k v dq dk dv = Ok () → padded_mask l m q k = Ok d →
  match b with BFlash _ => False | _ => True end →
  ∃ o, backend_padded b l q k v (padded_ctx l q k m bias valid plan) = Ok o ∧
    computes l m (ab_at <$> bias) q k v o (rows_of b l m q k).
Proof.
  intros Hl Hm (Hk0 & Hv0 & Hv1 & Hh & Hkv)%check_padded_ok Hd Hb.
  pose proof (padded_mask_lowered l m q k d Hl Hm Hd) as Hlow. destruct b as [| |f]; [| |done]; unfold backend_padded; simpl.
  - unfold eager_padded. simpl. rewrite Hd. eexists. split; [reflexivity|]. split_and!; simpl; try done.
    intros n i h Hn Hi Hh' _. by apply eager_row.
  - unfold sdpa_padded. simpl. rewrite Hd. simpl. eexists. split; [reflexivity|].
    assert (let o := sdpa_attn l d (ab_at <$> bias) (transpose12 q) (transpose12 k) (transpose12 v) in
      d0 o = d0 q ∧ d1 o = d2 q ∧ d2 o = d1 q) as (H0 & H1 & H2).
    { unfold sdpa_attn. repeat case_match; simpl; try (by apply (sdpa_shape (transpose12 q))); done. }
    split_and!; simpl; try done. intros n i h Hn Hi Hh' Hseen. by apply sdpa_attn_row.
Qed.

(** A padded call of a dense backend. *)
Lemma dense_call (l : attn_layer F) (q k v : head_rows R) dq dk dv m (bias : option (attn_bias (S:=S))) b d :
  layer_ok l → mask_ok m → check_call l None m bias (check_bias l q k) = Ok () →
  check_padded l q k v dq dk dv = Ok () → padded_mask l m q k = Ok d → (0 < d1 q)%nat → (0 < d1 k)%nat →
  match b with BFlash _ => False | _ => True end →
  ∃ b' o, forward_padded plan_check capturing dtype l q k v dq dk dv None None None m bias b = (b', Ok o) ∧
    computes l m (ab_at <$> bias) q k v o (rows_of b l m q k).
Proof.
  intros Hl Hm Hcall Hpad Hd Hq1 Hk1 Hb. destruct (padded_mask_validity l m q k d Hd) as [valid Hvalid].
  pose proof (check_padded_ok l q k v dq dk dv Hpad) as (Hk0 & _).
  unfold forward_padded. rewrite Hcall. simpl. rewrite Hpad. rewrite (default_ctx_meta l q k m bias valid) by done.
  destruct (dense_computes b l m bias q k v d (match b with BEager => EagerPlan | _ => SdpaPlan end) valid dq dk dv)
    as (o & Ho & Hc); try done. destruct b as [| |f]; [| |done]; eexists _, o; (split; [f_equal; exact Ho|done]).
Qed.

(** A call FlashInfer is given: no bias, no segments, and on a causal layer no key
    sets and as many keys as queries where there are lengths. *)
Lemma flash_call (l : attn_layer F) (q k v : head_rows R) dq dk dv m f valid :
  layer_ok l → mask_ok m → check_padded l q k v dq dk dv = Ok () → validity m (d0 q) (d1 k) = Ok valid →
  (0 < d0 q)%nat → (0 < d1 q)%nat → (0 < d1 k)%nat → flash_fits l m q k →
  capturing = false → (∀ p, plan_check p = Ok ()) →
  ∃ b' o, forward_padded (S:=S) plan_check capturing dtype l q k v dq dk dv None None None m None (BFlash f) = (b', Ok o) ∧
    computes l m None q k v o (rows_of (BFlash f) l m q k).
Proof.
  intros Hl Hm Hpad Hvalid Hq0 Hq1 Hk1 Hfits Hcap Hplan.
  assert (check_call l None m (None : option (attn_bias (S:=S))) (check_bias l q k) = Ok ()) as Hcall.
  { destruct m as [m|]; [|done]. destruct Hfits as [Hs _]. unfold check_call. simpl. by rewrite Hs. }
  pose proof (check_padded_ok l q k v dq dk dv Hpad) as (Hk0 & _).
  unfold forward_padded. rewrite Hcall. simpl. rewrite Hpad. rewrite (default_ctx_meta l q k m None valid) by done.
  rewrite init_flash; [|done|done|by destruct m as [m|]; [apply Hfits|]].
  destruct m as [m|].
  - simpl. destruct (kv_valid_some m (d0 q) (d1 k) valid) as [g ->]; [done|by apply Hfits|done|].
    destruct (flash_masked l m q k v (padded_ctx l q k (Some m) None (Some g) (FlashPlan true)) g
      (FlashBackend (fb_single f) (Some (Some (plan_on l (plan_cu_q l (Some g) q k) (plan_cu_kv (Some g) q k))))) dq dk dv)
      as (o & Ho & Hc); try done. eexists _, o. split; [f_equal; exact Ho|done].
  - injection Hvalid as <-. cbn [no_mask andb]. destruct ((Z.of_nat (d0 q) <=? 1) && fb_single f) eqn:E; simpl.
    + destruct (flash_unmasked l q k v (padded_ctx l q k None None None (FlashPlan false)) f f dq dk dv) as (o & Ho & Hc);
        try done; [by rewrite E|]. eexists _, o. split; [f_equal; exact Ho|]. destruct Hc as (? & ? & ? & Hr). split_and!; try done.
      intros n i h ? ? ? [? _]. by apply Hr.
    + destruct (flash_unmasked l q k v (padded_ctx l q k None None None (FlashPlan true)) f
        (FlashBackend (fb_single f) (Some (Some (plan_on l (plan_cu_q l None q k) (plan_cu_kv None q k))))) dq dk dv) as (o & Ho & Hc);
        try done; [by rewrite E|]. eexists _, o. split; [f_equal; exact Ho|]. destruct Hc as (? & ? & ? & Hr). split_and!; try done.
      intros n i h ? ? ? [? _]. by apply Hr.
Qed.

(** C8: Any backend that can take a padded call returns a result of the
    queries' shape whose rows are the reference ones: query [i] of row [b]
    attends, in each head, exactly the keys the mask, the causal order and the
    window allow.  The eager backend computes every row, SDPA those that see
    a key, FlashInfer those within the given lengths; it takes no bias, no
    segments and, on a causal layer, no key sets and as many keys as queries.
    So the backends agree wherever they are specified, whatever lowering each
    chose. *)
Theorem backends_agree (l : attn_layer F) (q k v : head_rows R) dq dk dv m (bias : option (attn_bias (S:=S))) b d :
  layer_ok l → mask_ok m → check_call l None m bias (check_bias l q k) = Ok () →
  check_padded l q k v dq dk dv = Ok () → padded_mask l m q k = Ok d →
  (0 < d0 q)%nat → (0 < d1 q)%nat → (0 < d1 k)%nat →
  match b with
  | BFlash _ => bias = None ∧ flash_fits l m q k ∧ capturing = false ∧ ∀ p, plan_check p = Ok ()
  | _ => True
  end →
  ∃ b' o, forward_padded plan_check capturing dtype l q k v dq dk dv None None None m bias b = (b', Ok o) ∧
    computes l m (ab_at <$> bias) q k v o (rows_of b l m q k).
Proof.
  intros Hl Hm Hcall Hpad Hd Hq0 Hq1 Hk1 Hb. destruct b as [| |f]; [by eapply dense_call|by eapply dense_call|].
  destruct (padded_mask_validity l m q k d Hd) as [valid Hvalid]. destruct Hb as (-> & Hfits & Hcap & Hplan).
  by eapply flash_call.
Qed.

(** *** Packed calls *)

(** A sequence of tokens as a batch of one. *)
Definition seq_rows (heads : nat) (ts : list (token R)) : head_rows R :=
  Rows 1 (List.length ts) heads (λ _ i h, nth i ts (λ _, zero_row) h).

Lemma seq_rows_tokens heads (ts : list (token R)) :
  at3 (seq_rows heads ts) 0 <$> filter (λ _, true = true) (seq 0 (List.length ts)) = ts.
Proof.
  rewrite filter_all by (by apply Forall_true). apply list_eq. intros n. rewrite list_lookup_fmap.
  destruct (decide (n < List.length ts)%nat) as [Hn|Hn].
  - rewrite lookup_seq_lt by done. destruct (lookup_lt_is_Some_2 ts n Hn) as [t Ht]. simpl. rewrite Ht. simpl. f_equal.
    change (nth n ts (λ _, zero_row) = t). by rewrite nth_lookup, Ht.
  - rewrite lookup_seq_ge by lia. symmetry. apply lookup_ge_None_2. lia.
Qed.

(** A packed row over a whole sequence is the reference row. *)
Lemma sequence_row l (ql kl vl : list (token R)) hq hk i h t :
  layer_ok l → List.length vl = List.length kl → ql !! i = Some t →
  ragged_row (ly_scale l) (ly_cap l)
    (fi_visible (ly_causal l) (fi_window_left (ly_window l)) (Z.of_nat (List.length ql)) (Z.of_nat (List.length kl)))
    t kl vl (kv_head l h) h i = ref_row l None None (seq_rows hq ql) (seq_rows hk kl) (seq_rows hk vl) 0 i h.
Proof.
  intros Hl Hlen Ht. rewrite <- (ragged_row_ref l None _ _ _ (λ _, true)
    (fi_visible (ly_causal l) (fi_window_left (ly_window l)) (Z.of_nat (List.length ql)) (Z.of_nat (List.length kl))) 0 i i h).
  - change (d1 (seq_rows hk kl)) with (List.length kl). cbn beta. rewrite (seq_rows_tokens hk kl), <- Hlen, (seq_rows_tokens hk vl), Hlen.
    f_equal.
    change (t = nth i ql (λ _, zero_row)). by rewrite nth_lookup, Ht.
  - intros n j Hn. rewrite filter_all in Hn by (by apply Forall_true). apply lookup_seq in Hn as [-> _]. by apply fi_visible_plain.
  - done.
Qed.

Lemma offsets_length {A} (ls : list (list A)) : List.length (offsets ls) = Datatypes.S (List.length ls).
Proof. unfold offsets, lengths_of. simpl. by rewrite cumsum_length, length_fmap. Qed.

Definition offset {A} (ls : list (list A)) (n : nat) : Z := Z.of_nat (List.length (mjoin (take n ls))).

Lemma sequences_offsets {A B} (qs : list (list A)) (ks : list (list B)) :
  List.length ks = List.length qs →
  sequences (offsets qs) (offsets ks) =
  Ok ((λ n, (offset qs n, offset qs (Datatypes.S n), offset ks n, offset ks (Datatypes.S n))) <$> seq 0 (List.length qs)).
Proof.
  intros Hk. unfold sequences. rewrite offsets_length. replace (Datatypes.S (List.length qs) - 1)%nat with (List.length qs) by lia.
  apply rmap_ok, Forall2_fmap_r. apply Forall_Forall2_diag, Forall_forall. intros n [_ Hn]%elem_of_seq.
  rewrite !offsets_lookup by lia. done.
Qed.

Lemma prefix_lengths {A B} (ls : list (list A)) (ls' : list (list B)) n :
  lengths_of ls = lengths_of ls' → List.length (mjoin (take n ls)) = List.length (mjoin (take n ls')).
Proof.
  intros Hl. apply Nat2Z.inj. rewrite <- !sum_lengths. unfold lengths_of in *. by rewrite !fmap_take, Hl.
Qed.
(** One sequence of an eager packed call. *)
Lemma eager_sequence l (ql kl vl : list (token R)) hq hk i h :
  layer_ok l → (i < List.length ql)%nat →
  let out := of_batch (eager_attn (ly_scale l) (ly_causal l) (ly_window l) (ly_cap l) None None (as_batch (Packed hq ql))
    (repeat_kv (as_batch (Packed hk kl)) (ly_heads l) (ly_kv_heads l))
    (repeat_kv (as_batch (Packed hk vl)) (ly_heads l) (ly_kv_heads l))) in
  List.length out = List.length ql ∧
  ∃ o, out !! i = Some o ∧ o h = ref_row l None None (seq_rows hq ql) (seq_rows hk kl) (seq_rows hk vl) 0 i h.
Proof.
  intros Hl Hi out. unfold out, of_batch. rewrite length_fmap, length_seq. split; [done|].
  rewrite list_lookup_fmap, lookup_seq_lt by done. eexists. split; [reflexivity|]. cbn [Nat.add].
  change (as_batch (Packed hq ql)) with (transpose12 (seq_rows hq ql)).
  change (as_batch (Packed hk kl)) with (transpose12 (seq_rows hk kl)).
  change (as_batch (Packed hk vl)) with (transpose12 (seq_rows hk vl)).
  apply eager_row; [done| |done]. by apply (padded_mask_lowered l None).
Qed.

(** What a packed result holds for every sequence. *)
Definition computes_sequences (l : attn_layer F) hq hk (qs ks vs : list (list (token R))) (out : list (token R))
    (P : nat → nat → nat → Prop) : Prop :=
  ∀ n ql kl vl i h, qs !! n = Some ql → ks !! n = Some kl → vs !! n = Some vl → (i < List.length ql)%nat → (h < hq)%nat →
    P (List.length ql) (List.length kl) i →
    ∃ o, out !! (List.length (mjoin (take n qs)) + i)%nat = Some o ∧
      o h = ref_row l None None (seq_rows hq ql) (seq_rows hk kl) (seq_rows hk vl) 0 i h.

Lemma eager_ragged_rows l hq hk (qs ks vs : list (list (token R))) (c : attn_ctx (S:=S)) :
  layer_ok l → qs ≠ [] → List.length ks = List.length qs → lengths_of vs = lengths_of ks →
  cx_cu_q c = Some (offsets qs) → cx_cu_kv c = Some (offsets ks) →
  ∃ out, eager_ragged l (Packed hq (mjoin qs)) (Packed hk (mjoin ks)) (Packed hk (mjoin vs)) c = Ok out ∧
    computes_sequences l hq hk qs ks vs out (λ _ _ _, True).
Proof.
  intros Hl Hne Hk Hv Hcq Hck. unfold eager_ragged. rewrite Hcq, Hck. simpl. rewrite sequences_offsets by done. simpl.
  rewrite bool_decide_eq_false_2 by (destruct qs; simpl; done). simpl. eexists. split; [reflexivity|].
  rewrite <- list_fmap_compose.
  set (pieces := (_ <$> seq 0 (List.length qs)) : list (list (token R))).
  assert (∀ n ql kl vl, qs !! n = Some ql → ks !! n = Some kl → vs !! n = Some vl → pieces !! n =
    Some (of_batch (eager_attn (ly_scale l) (ly_causal l) (ly_window l) (ly_cap l) None None (as_batch (Packed hq ql))
    (repeat_kv (as_batch (Packed hk kl)) (ly_heads l) (ly_kv_heads l))
    (repeat_kv (as_batch (Packed hk vl)) (ly_heads l) (ly_kv_heads l))))) as Hpieces.
  { intros n ql kl vl Hq Hkn Hvn. unfold pieces. rewrite list_lookup_fmap, lookup_seq_lt by by eapply lookup_lt_Some. simpl.
    destruct (slice_join _ _ _ Hq) as (_ & _ & _ & _ & _ & Hsq). destruct (slice_join _ _ _ Hkn) as (_ & _ & _ & _ & _ & Hsk).
    destruct (slice_join _ _ _ Hvn) as (_ & _ & _ & _ & _ & Hsv).
    unfold offset. rewrite Hsq, Hsk. rewrite !(prefix_lengths vs ks) in Hsv by done. by rewrite Hsv. }
  assert (lengths_of pieces = lengths_of qs) as Hlen.
  { apply list_eq. intros n. unfold lengths_of. rewrite !list_lookup_fmap.
    destruct (qs !! n) as [ql|] eqn:Hq.
    - pose proof (lookup_lt_Some _ _ _ Hq) as Hn. destruct (lookup_lt_is_Some_2 ks n ltac:(lia)) as [kl Hkl].
      assert (List.length vs = List.length ks) as Hvl by (pose proof (f_equal List.length Hv) as E; unfold lengths_of in E; by rewrite !length_fmap in E).
      destruct (lookup_lt_is_Some_2 vs n ltac:(lia)) as [vl Hvl']. rewrite (Hpieces n ql kl vl) by done. simpl.
      unfold of_batch. by rewrite length_fmap, length_seq.
    - apply lookup_ge_None in Hq. rewrite lookup_ge_None_2; [done|]. unfold pieces. by rewrite length_fmap, length_seq. }
  intros n ql kl vl i h Hq Hkn Hvn Hi Hh _.
  destruct (eager_sequence l ql kl vl hq hk i h Hl Hi) as [Hol (o & Ho & Hr)]. exists o. split; [|done].
  rewrite <- (prefix_lengths pieces qs n Hlen). rewrite (join_lookup pieces n _ i (Hpieces n ql kl vl Hq Hkn Hvn)); [done|].
  by rewrite Hol.
Qed.
(** A query [i] of a sequence that sees a key. *)
Definition sequence_seen (l : attn_layer F) (q_len kv_len i : nat) : Prop :=
  ∃ j, (j < kv_len)%nat ∧ allowed (ly_causal l) (ly_window l) None q_len kv_len 0 i j = true.

Lemma flash_ragged_rows l hq hk (qs ks vs : list (list (token R))) (c : attn_ctx (S:=S)) (f : flash_backend (F:=F)) :
  layer_ok l → Z.of_nat hq = ly_heads l → List.length ks = List.length qs → lengths_of vs = lengths_of ks →
  cx_cu_q c = Some (offsets qs) →
  (if Nat.eqb (List.length qs) 1 && fb_single f then True
   else cx_plan c = FlashPlan true ∧ fb_wrapper f = Some (Some (plan_on l (offsets qs) (offsets ks)))) →
  ∃ out, flash_ragged l (Packed hq (mjoin qs)) (Packed hk (mjoin ks)) (Packed hk (mjoin vs)) c f = Ok out ∧
    computes_sequences l hq hk qs ks vs out (sequence_seen l).
Proof.
  intros Hl Hh Hk Hv Hcq Hplan. unfold flash_ragged. rewrite Hcq, offsets_length. simpl.
  assert (∀ n kl vl, ks !! n = Some kl → vs !! n = Some vl → List.length vl = List.length kl) as Hlen.
  { intros n kl vl Hkn Hvn. pose proof (f_equal (lookup n) Hv) as E. unfold lengths_of in E.
    rewrite !list_lookup_fmap, Hkn, Hvn in E. injection E as E. lia. }
  destruct (Nat.eqb (List.length qs) 1 && fb_single f) eqn:E.
  - apply andb_prop in E as [E%Nat.eqb_eq _]. eexists. split; [reflexivity|].
    intros n ql kl vl i h Hq Hkn Hvn Hi Hh' (j & Hj & Hvis).
    pose proof (lookup_lt_Some _ _ _ Hq). assert (n = 0%nat) as -> by lia. rewrite take_0. simpl.
    destruct qs as [|ql' [|]]; try done. injection Hq as ->. destruct ks as [|kl' [|]]; try done. injection Hkn as ->.
    assert (vs = [vl]) as -> by (destruct vs as [|? [|]]; try done; by injection Hvn as ->). simpl. rewrite !app_nil_r.
    destruct (lookup_lt_is_Some_2 ql i Hi) as [t Ht]. unfold run_single.
    destruct (fi_single_row (ly_causal l) (ly_scale l) (fi_window_left (ly_window l)) (ly_cap l) (ly_heads l) (ly_kv_heads l)
      ql kl vl i h t) as (o & Ho & Hr); [done|lia|by apply (Hlen 0%nat)| |].
    + exists (Z.of_nat j). split; [lia|]. by rewrite (fi_visible_plain l _ _ 0).
    + exists o. split; [done|]. rewrite Hr. apply sequence_row; [done|by apply (Hlen 0%nat)|done].
  - destruct Hplan as [Hp Hw]. unfold run_wrapper. rewrite Hp, Hw. simpl. eexists. split; [reflexivity|].
    intros n ql kl vl i h Hq Hkn Hvn Hi Hh' (j & Hj & Hvis). destruct (lookup_lt_is_Some_2 ql i Hi) as [t Ht].
    destruct (fi_run_joined (plan_on l (offsets qs) (offsets ks)) qs ks vs n ql kl vl i t h) as (o & Ho & Hr);
      try done; [simpl; lia| |].
    + exists j. split; [done|]. simpl. by rewrite (fi_visible_plain l _ _ 0).
    + exists o. split; [done|]. rewrite Hr. apply sequence_row; [done|by apply (Hlen n)|done].
Qed.

(** What the checks of a packed call establish. *)
Lemma check_ragged_heads (l : attn_layer F) (q k v : packed (R:=R)) dq dk dv :
  check_ragged l q k v dq dk dv = Ok () → Z.of_nat (pk_heads q) = ly_heads l.
Proof. unfold check_ragged. intros Hc. inv_bind. repeat match goal with H : _ && _ = true |- _ => apply andb_prop in H as [? ?] end. lia. Qed.

Lemma metadata_init_ok (m : attn_metadata (F:=F) (S:=S)) :
  0 <= md_batch_size m → 0 <= md_num_query_tokens m → md_idle m || md_padded m || bool_decide (is_Some (md_cu_q m)) = true →
  metadata_init m = Ok m.
Proof.
  intros Hb Hn Hc. unfold metadata_init. rewrite Hc. destruct (Z.ltb_spec (md_batch_size m) 0); [lia|].
  by destruct (Z.ltb_spec (md_num_query_tokens m) 0); [lia|].
Qed.

(** A packed call by offsets: the eager backend and FlashInfer, through
    its wrapper or, for one sequence, the direct call, compute for every
    sequence the reference rows of that sequence alone. *)
Theorem ragged_backends_agree l hq hk (qs ks vs : list (list (token R))) dq dk dv (b : backend (F:=F)) :
  layer_ok l → qs ≠ [] → List.length ks = List.length qs → lengths_of vs = lengths_of ks →
  check_ragged l (Packed hq (mjoin qs)) (Packed hk (mjoin ks)) (Packed hk (mjoin vs)) dq dk dv = Ok () →
  match b with BSdpa => False | BEager => True | BFlash _ => capturing = false ∧ ∀ p, plan_check p = Ok () end →
  ∃ b' out, forward_ragged plan_check capturing dtype l (Packed hq (mjoin qs)) (Packed hk (mjoin ks)) (Packed hk (mjoin vs))
      dq dk dv None (Some (offsets qs)) (Some (offsets ks)) None None b = (b', Ok out) ∧
    computes_sequences l hq hk qs ks vs out (match b with BEager => λ _ _ _, True | _ => sequence_seen l end).
Proof.
  intros Hl Hne Hk Hv Hcheck Hb. pose proof (check_ragged_heads _ _ _ _ _ _ _ Hcheck) as Hh. simpl in Hh.
  unfold forward_ragged. simpl. rewrite ?bool_decide_eq_true_2 by (by eexists). simpl.
  rewrite Hcheck. unfold default_ctx_ragged. cbn [pk_rows]. rewrite metadata_init_ok by (rewrite ?offsets_length; simpl; auto with lia).
  destruct b as [| |f]; [|done|].
  - simpl. destruct (eager_ragged_rows l hq hk qs ks vs (AttnCtx EagerPlan false false (Some (offsets qs)) (Some (offsets ks)) None None))
      as (out & Ho & Hc); try done. eexists _, out. by split; [f_equal; exact Ho|].
  - destruct Hb as [Hcap Hplan]. cbn [init_forward_metadata]. unfold flash_plan. cbn [md_mask md_batch_size md_idle md_cu_q md_cu_kv md_layer md_q_dtype default]. rewrite Hcap.
    assert ((Z.of_nat (List.length (offsets qs)) - 1 <=? 1) = Nat.eqb (List.length qs) 1) as Hone.
    { rewrite offsets_length. destruct qs as [|q0 qs']; [done|]. simpl List.length.
      destruct (Z.leb_spec (Z.of_nat (Datatypes.S (Datatypes.S (List.length qs'))) - 1) 1),
        (Nat.eqb_spec (Datatypes.S (List.length qs')) 1); done || lia. }
    rewrite Hone, orb_false_r. destruct (Nat.eqb (List.length qs) 1 && fb_single f) eqn:E; simpl.
    + destruct (flash_ragged_rows l hq hk qs ks vs (AttnCtx (FlashPlan false) false false (Some (offsets qs)) (Some (offsets ks)) None None) f)
        as (out & Ho & Hc); try done; [by rewrite E|]. eexists _, out. by split; [f_equal; exact Ho|].
    + rewrite Hplan. simpl. destruct (flash_ragged_rows l hq hk qs ks vs (AttnCtx (FlashPlan true) false false (Some (offsets qs)) (Some (offsets ks)) None None)
        (FlashBackend (fb_single f) (Some (Some (plan_on l (offsets qs) (offsets ks))))))
        as (out & Ho & Hc); try done; [cbn [fb_single]; by rewrite E|]. eexists _, out. by split; [f_equal; exact Ho|].
Qed.
(** The plan of a FlashInfer context lives on the wrapper its backend
    reuses: once a second context of the same backend is planned, running
    the first one runs the second one's plan.  A context is good until the
    next planning of its backend. *)
Theorem last_plan_wins (l : attn_layer F) (qa qb : packed (R:=R)) cu_a cu_b f (b1 b2 : backend (F:=F)) (ca cb : attn_ctx (S:=S))
    (q k v : packed (R:=R)) :
  default_ctx_ragged plan_check capturing dtype l qa (Some cu_a) None None (BFlash f) = (b1, Ok ca) →
  default_ctx_ragged plan_check capturing dtype l qb (Some cu_b) None None b1 = (b2, Ok cb) →
  (2 < List.length cu_a)%nat → (2 < List.length cu_b)%nat →
  backend_ragged b2 l q k v ca = Ok (fi_run (plan_on l cu_b cu_b) (pk_rows q) (pk_rows k) (pk_rows v)) ∧
  backend_ragged b2 l q k v cb = Ok (fi_run (plan_on l cu_b cu_b) (pk_rows q) (pk_rows k) (pk_rows v)).
Proof.
  assert (∀ f (q : packed (R:=R)) cu (b : backend (F:=F)) (c : attn_ctx (S:=S)),
    default_ctx_ragged plan_check capturing dtype l q (Some cu) None None (BFlash f) = (b, Ok c) → (2 < List.length cu)%nat →
    b = BFlash (FlashBackend (fb_single f) (Some (Some (plan_on l cu cu)))) ∧
    c = AttnCtx (FlashPlan true) false false (Some cu) None None None) as Hplan.
  { intros f0 q0 cu b c Hd Hcu. unfold default_ctx_ragged in Hd. rewrite metadata_init_ok in Hd by (simpl; auto with lia).
    cbn [init_forward_metadata] in Hd. unfold flash_plan in Hd.
    cbn [md_mask md_batch_size md_idle md_cu_q md_cu_kv md_layer md_q_dtype default] in Hd.
    assert (Z.of_nat (List.length cu) - 1 <=? 1 = false) as Hb by (apply Z.leb_gt; lia). rewrite Hb in Hd. simpl in Hd.
    destruct capturing; [done|]. destruct (plan_check _); [|done]. by injection Hd as <- <-. }
  intros H1 H2 Hca Hcb. destruct (Hplan _ _ _ _ _ H1 Hca) as [-> ->]. destruct (Hplan _ _ _ _ _ H2 Hcb) as [-> ->].
  assert (∀ cu cu', (2 < List.length cu)%nat → backend_ragged (BFlash (FlashBackend (fb_single f) (Some (Some (plan_on l cu' cu'))))) l q k v
    (AttnCtx (FlashPlan true) false false (Some cu) None None None) =
    Ok (fi_run (plan_on l cu' cu') (pk_rows q) (pk_rows k) (pk_rows v))) as Hrun; [|by split; apply Hrun].
  intros cu cu' Hcu. unfold backend_ragged. simpl. unfold flash_ragged. simpl.
  destruct (Nat.eqb_spec (List.length cu) 2); [lia|done].
Qed.
(** A causal layer with lengths and more keys than queries: FlashInfer plans
    the call and refuses to run it. *)
Lemma flash_rectangular l lens m (q k v : head_rows R) dq dk dv f :
  ly_causal l = true → am_segments m = None → am_keys m = None → am_lengths m = Some lens → List.length lens = d0 q →
  check_padded l q k v dq dk dv = Ok () → d1 q ≠ d1 k → (0 < d1 q)%nat → (0 < d1 k)%nat →
  capturing = false → (∀ p, plan_check p = Ok ()) →
  ∃ b', forward_padded plan_check capturing dtype l q k v dq dk dv None None None (Some m) None (BFlash f) = (b', Err ValueError).
Proof.
  intros Hc Hseg Hkeys Hlens Hlen Hpad Hsq Hq1 Hk1 Hcap Hplan. pose proof (check_padded_ok _ _ _ _ _ _ _ Hpad) as (Hk0 & _).
  assert (validity (Some m) (d0 q) (d1 k) = Ok (Some (λ b j, Z.of_nat j <? nth b lens 0))) as Hv.
  { simpl. unfold kv_valid. by rewrite Hkeys, Hlens, Hlen, Nat.eqb_refl. }
  unfold forward_padded. unfold check_call. simpl. rewrite Hseg. simpl. rewrite Hpad.
  rewrite (default_ctx_meta l q k (Some m) None _ _ Hv Hk0 Hq1 Hk1), init_flash by done. simpl in Hv. simpl. eexists. f_equal.
  unfold backend_padded. cbn [cx_idle padded_ctx cx_bias]. unfold flash_padded. cbn [cx_mask padded_ctx].
  unfold flash_padded_masked. rewrite Hv. simpl. rewrite Hc, Hkeys. simpl.
  destruct (Nat.eqb_spec (d1 q) (d1 k)); [by destruct Hsq|done].
Qed.
End reference.

(** The dense lowering of a declared mask is the boolean table its
    documentation gives: blocks by cumulated segment flags, else the causal
    order and the window, queries aligned with the last keys, and the
    validity of the key; [None] means every key of every row. *)
Theorem dense_means segments lens keys m S_q S_kv B causal window d b i j :
  attn_mask_init segments lens keys = Ok m → (∀ w, window = Some w → causal = true) →
  dense m S_q S_kv B causal window = Ok d → (i < S_q)%nat → (j < S_kv)%nat →
  match d with Some f => f b i j | None => true end = allowed causal window (Some m) S_q S_kv b i j.
Proof. intros Hm%attn_mask_init_ok. by apply dense_visible. Qed.

(** ** Exact arithmetic

    The laws hold of exact sums, and of kernels that compute each row from its
    own sequence. *)

Section models.
Context {F S R : Type} `{Num : Numerics F S R}.

Definition row_sdpa : @Sdpa F S R := {|
  sdpa q k v m c scale gqa :=
    Rows (d0 q) (d1 q) (d2 q) (λ b h i,
      let kv_head := if gqa then (h / (d1 q / d1 k))%nat else h in
      attend ((λ j, (sdpa_entry m c b h i j (logit scale (at3 q b h i) (at3 k b kv_head j)), at3 v b kv_head j)) <$> seq 0 (d2 k)));
|}.

Lemma row_sdpa_laws : SdpaLaws (H0:=row_sdpa).
Proof. split; [done|]. intros. done. Qed.

(** The sequence a packed row lies in. *)
Definition locate (cu : list Z) (t : Z) : nat := (List.length (filter (λ c : Z, (c <= t)%Z) cu) - 1)%nat.

Lemma locate_between cu n s e t :
  StronglySorted Z.le cu → cu !! n = Some s → cu !! Datatypes.S n = Some e → s <= t < e → locate cu t = n.
Proof. intros Hs Hn He Ht. unfold locate. rewrite (below_length cu n s e t) by done. lia. Qed.

(** A row of a run: the sequence it lies in, its place there, and the slices
    [f] of the keys and values. *)
Definition run_rows (cu_q cu_kv : list Z) (f : nat → token R → Z → Z → Z → Z → token R) (q : list (token R)) : list (token R) :=
  imap (λ n t,
    let b := locate cu_q (Z.of_nat n) in
    let qs := nth b cu_q 0 in
    f (n - Z.to_nat qs)%nat t qs (nth (Datatypes.S b) cu_q 0) (nth b cu_kv 0) (nth (Datatypes.S b) cu_kv 0)) q.

Lemma run_rows_lookup cu_q cu_kv f q n qs qe ks ke (i : nat) t :
  StronglySorted Z.le cu_q → cu_q !! n = Some qs → cu_q !! Datatypes.S n = Some qe →
  cu_kv !! n = Some ks → cu_kv !! Datatypes.S n = Some ke → 0 <= qs <= qe → slice q qs qe !! i = Some t →
  run_rows cu_q cu_kv f q !! (Z.to_nat qs + i)%nat = Some (f i t qs qe ks ke).
Proof.
  intros Hs Hq Hq1 Hk Hk1 Hqs Ht. unfold run_rows.
  assert (qs + Z.of_nat i < qe) as Hi.
  { apply lookup_lt_Some in Ht. unfold slice in Ht. rewrite length_take in Ht. lia. }
  rewrite list_lookup_imap. unfold slice in Ht. rewrite lookup_take_Some, lookup_drop in Ht.
  destruct Ht as [Ht _]. rewrite Ht. simpl. rewrite (locate_between _ n qs qe) by (done || lia).
  rewrite !nth_lookup, Hq, Hq1, Hk, Hk1. simpl. by rewrite Nat.add_comm, Nat.add_sub.
Qed.

Definition row_kernels : @FlashInfer F R := {|
  fi_run p q k v := run_rows (fp_cu_q p) (fp_cu_kv p) (λ i t qs qe ks ke h,
    ragged_row (fp_scale p) (fp_cap p) (fi_visible (fp_causal p) (fp_window_left p) (qe - qs) (ke - ks)) t (slice k ks ke)
      (slice v ks ke) (h / Z.to_nat (fp_heads p / fp_kv_heads p))%nat h i) q;
  fi_single causal scale window cap heads kv_heads q k v := imap (λ n t h,
    ragged_row scale cap (fi_visible causal window (Z.of_nat (List.length q)) (Z.of_nat (List.length k))) t k v
      (h / Z.to_nat (heads / kv_heads))%nat h n) q;
|}.

Lemma row_kernels_laws : FlashInferLaws (H1:=row_kernels).
Proof.
  split.
  - intros p q k v n qs qe ks ke i h t Hs Hq Hq1 Hk Hk1 Hqs Hqe Hks Hke Hlen Ht Hh visible Hvis. cbn [fi_run row_kernels].
    eexists. split; [by eapply run_rows_lookup|]. done.
  - intros causal scale window cap heads kv_heads q k v i h t Ht Hh Hlen visible Hvis. cbn [fi_single row_kernels].
    rewrite list_lookup_imap, Ht. simpl. eexists. split; [reflexivity|]. done.
Qed.
End models.

Module Exact.
#[local] Instance numbers : Numerics Z Z Z := {|
  logit s q k := s * q * k;
  soft_cap c s := Z.min c s;
  add_bias := Z.add;
  attend l := foldr (λ e acc, match e.1 with Some s => s * e.2 + acc | None => acc end) 0 l;
  zero_row := 0;
|}.

#[local] Instance numbers_laws : NumericsLaws Z Z Z.
Proof.
  split; [|done]. intros l. unfold attend. simpl. induction l as [|[[s|] r] l IH]; [done|..]; rewrite filter_cons; simpl.
  - by rewrite IH.
  - exact IH.
Qed.

#[local] Instance exact_fused : @Sdpa Z Z Z := row_sdpa.
#[local] Instance exact_fused_laws : SdpaLaws := row_sdpa_laws.
#[local] Instance kernels : @FlashInfer Z Z := row_kernels.
#[local] Instance kernels_laws : FlashInferLaws := row_kernels_laws.
End Exact.

(** A causal layer with a window and grouped heads, on a batch of two rows of
    three tokens of which the second has two. *)
Module AttentionDemo.
Import Exact.

Definition lyr : attn_layer Z := AttnLayer 4 2 8 1 true (Some 2) None.
Definition qs : head_rows Z := Rows 2 3 4 (λ b i h, Z.of_nat (b + 2 * i + 3 * h)).
Definition ks : head_rows Z := Rows 2 3 2 (λ b i h, Z.of_nat (1 + b + i + h)).
Definition vs : head_rows Z := Rows 2 3 2 (λ b i h, Z.of_nat (5 + b * i + h)).
Definition lens : attn_mask := AttnMask None (Some [3; 2]) None.
Definition fi : backend (F:=Z) := BFlash (flash_init None).
End AttentionDemo.
Import Exact AttentionDemo.
#[local] Existing Instances numbers numbers_laws exact_fused exact_fused_laws kernels kernels_laws.

Definition demo_dense : option (nat → nat → nat → bool) :=
  match padded_mask lyr (Some lens) qs ks with Ok d => d | Err _ => None end.

Lemma demo_layer_ok : layer_ok lyr.
Proof. by apply (attention_init_ok (λ _, 1) 4 8 (Some 2) (Some 1) true (Some 2) None). Qed.

Lemma backends_agree_witness :
  ∃ b' o, forward_padded (λ _, Ok ()) false "bf16" lyr qs ks vs 8 8 8 None None None (Some lens) None fi = (b', Ok o) ∧
    computes lyr (Some lens) None qs ks vs o (rows_of fi lyr (Some lens) qs ks).
Proof.
  refine (backends_agree (λ _, Ok ()) false "bf16" lyr qs ks vs 8 8 8 (Some lens) None fi demo_dense
    demo_layer_ok _ _ _ _ _ _ _ _).
  - split; [right; left; eexists; reflexivity|exact I].
  - reflexivity.
  - reflexivity.
  - reflexivity.
  - simpl. lia.
  - simpl. lia.
  - simpl. lia.
  - split; [reflexivity|]. split; [split; [reflexivity|intros _; split; reflexivity]|]. split; [reflexivity|]. intros p. reflexivity.
Defined.

(** The reference row is not vacuous: the last query of the second row sees
    its last valid key only, the others two keys at most. *)
Example demo_visible : visible_keys lyr (Some lens) 3 3 1 2 = [1%nat] ∧ visible_keys lyr (Some lens) 3 3 0 2 = [1; 2]%nat.
Proof. by vm_compute. Qed.

(** A prefix of three tokens, a token that opens a group, and two actions. *)
Definition pi0_segments : list (Z * bool) := [(3, false); (1, true); (2, true)].
Definition pi0_mask : attn_mask := AttnMask (Some pi0_segments) (Some [6; 5]) None.
Definition pi0_dense : option (nat → nat → nat → bool) :=
  match dense pi0_mask 3 6 2 false None with Ok d => d | Err _ => None end.

Lemma dense_means_witness :
  match pi0_dense with Some f => f 1%nat 2%nat 4%nat | None => true end = allowed false None (Some pi0_mask) 3 6 1 2 4.
Proof.
  apply (dense_means (Some pi0_segments) (Some [6; 5]) None pi0_mask 3 6 2 false None pi0_dense 1 2 4).
  - reflexivity.
  - intros w Hw. discriminate Hw.
  - reflexivity.
  - lia.
  - lia.
Defined.

(** The last query sees its own group and the earlier ones, less the padding. *)
Example pi0_rows : visible_keys (AttnLayer 4 2 8 1 false None None) (Some pi0_mask) 3 6 1 0 = [0; 1; 2; 3]%nat
  ∧ visible_keys (AttnLayer 4 2 8 1 false None None) (Some pi0_mask) 3 6 1 2 = [0; 1; 2; 3; 4]%nat.
Proof. by vm_compute. Qed.

Definition demo_seqs (n : nat) : list (list (token Z)) :=
  [[λ h, Z.of_nat (n + h); λ h, Z.of_nat (2 * n + h)]; [λ h, Z.of_nat (3 + n + h)]].

Lemma ragged_backends_agree_witness :
  ∃ b' out, forward_ragged (λ _, Ok ()) false "bf16" lyr (Packed 4 (mjoin (demo_seqs 1))) (Packed 2 (mjoin (demo_seqs 2)))
      (Packed 2 (mjoin (demo_seqs 3))) 8 8 8 None (Some (offsets (demo_seqs 1))) (Some (offsets (demo_seqs 2))) None None fi
      = (b', Ok out) ∧
    computes_sequences lyr 4 2 (demo_seqs 1) (demo_seqs 2) (demo_seqs 3) out (sequence_seen lyr).
Proof.
  refine (ragged_backends_agree (λ _, Ok ()) false "bf16" lyr 4 2 (demo_seqs 1) (demo_seqs 2) (demo_seqs 3) 8 8 8 fi
    demo_layer_ok _ _ _ _ _).
  - discriminate.
  - reflexivity.
  - reflexivity.
  - reflexivity.
  - split; [reflexivity|]. intros p. reflexivity.
Defined.

Definition plan_a := default_ctx_ragged (S:=Z) (λ _, Ok ()) false "bf16" lyr (Packed 4 (mjoin (demo_seqs 1))) (Some [0; 2; 3]) None None fi.
Definition plan_b := default_ctx_ragged (S:=Z) (λ _, Ok ()) false "bf16" lyr (Packed 4 (mjoin (demo_seqs 1))) (Some [0; 1; 3]) None None plan_a.1.
Definition ctx_of (r : res (attn_ctx (S:=Z))) : attn_ctx (S:=Z) :=
  match r with Ok c => c | Err _ => AttnCtx EagerPlan true true None None None None end.

Lemma last_plan_wins_witness :
  let q := Packed 4 (mjoin (demo_seqs 1)) in
  backend_ragged plan_b.1 lyr q q q (ctx_of plan_a.2) = Ok (fi_run (plan_on lyr [0; 1; 3] [0; 1; 3]) (pk_rows q) (pk_rows q) (pk_rows q)) ∧
  backend_ragged plan_b.1 lyr q q q (ctx_of plan_b.2) = Ok (fi_run (plan_on lyr [0; 1; 3] [0; 1; 3]) (pk_rows q) (pk_rows q) (pk_rows q)).
Proof.
  refine (last_plan_wins (λ _, Ok ()) false "bf16" lyr (Packed 4 (mjoin (demo_seqs 1))) (Packed 4 (mjoin (demo_seqs 1)))
    [0; 2; 3] [0; 1; 3] (flash_init None) plan_a.1 plan_b.1 (ctx_of plan_a.2) (ctx_of plan_b.2) _ _ _ _ _ _ _).
  - reflexivity.
  - reflexivity.
  - simpl. lia.
  - simpl. lia.
Defined.
