(* ===== verification/AttentionRow.v ===== *)
(** * The catalog row of FlashInfer and the calls it can serve

    [Attention._ensure_backend] asks the kernel catalog for a backend by the
    facts of the call.  The row [FLASHINFER_ATTENTION] of [kernel/ops/attention.py]
    guards FlashInfer: what its acceptance says of the mask and the bias, that
    a backend it hands out then serves the call, and the one case it leaves
    out, in which the backend refuses a call the dense backends serve. *)

From S2P Require Import Prelude Ops OpsProps Attention AttentionProps.
From Stdlib Require Import String.
Open Scope Z_scope.

(** ** The facts of a call *)

Section facts.
Context {F S R handle device : Type} (cap_value : F → value) (profile_of : device → device_profile).

(** [Attention.__init__], the [CallSite] of a layer *)
Definition attention_site (role : string) (prefer : list string) (l : attn_layer F) : call_site (handle:=handle) (device:=device) :=
  mk_site "attention" role prefer
    [("heads", OVal (VInt (ly_heads l))); ("kv_heads", OVal (VInt (ly_kv_heads l)));
     ("head_dim", OVal (VInt (ly_head_dim l)))]
    [("causal", OVal (VBool (ly_causal l)));
     ("sliding_window", OVal (match ly_window l with Some w => VInt w | None => VNone end));
     ("logits_soft_cap", OVal (match ly_cap l with Some c => cap_value c | None => VNone end))].

(** [token_count] of a padded tensor *)
Definition token_count (t : head_rows R) : Z := Z.of_nat (d0 t * d1 t).

(** The arguments [_ensure_backend] selects with, on padded input;
    [attention_dtypes] are those of the three tensors. *)
Definition attention_call (dev : device) (dtype_q dtype_k dtype_v : string) (q k : head_rows R) (m : option attn_mask)
    (bias : option (attn_bias (S:=S))) (mode : option string) : site_call (device:=device) :=
  SiteCall (Some dev) [("input", dtype_q); ("output", dtype_q); ("key", dtype_k); ("value", dtype_v)] None
    [("tokens", OVal (VInt (token_count q))); ("kv_tokens", OVal (VInt (token_count k)))]
    [("layout", OVal (VStr "padded")); ("mask_kind", OVal (match m with None => VNone | Some m => VStr (mask_kind_of m) end));
     ("has_attn_bias", OVal (VBool (match bias with Some _ => true | None => false end)))] mode.

(** The attributes of a query are the ones its site and its call gave. *)
Lemma call_attr role prefer l dev tq tk tv q k m bias mode how query opt names imp n :
  call_query profile_of (attention_site role prefer l) (attention_call dev tq tk tv q k m bias mode) how = Ok query →
  is_Some (dget (dupdate (st_attrs (attention_site role prefer l)) (ca_attrs (attention_call dev tq tk tv q k m bias mode))) n) →
  lookup_fact (facts_from_query query opt (library_facts imp names)) ("attrs." +:+ n) =
  freeze <$> dget (dupdate (st_attrs (attention_site role prefer l)) (ca_attrs (attention_call dev tq tk tv q k m bias mode))) n.
Proof.
  intros Hq Hn. unfold call_query, build_query in Hq. apply bind_ok in Hq as (sh & Hsh & Hq).
  apply shape_of_ints in Hsh as (_ & Hs & _);
    [|repeat constructor; eauto|apply (bool_decide_unpack _); by vm_compute].
  injection Hq as <-. rewrite facts_segments. cbv beta zeta.
  assert (update ∅ ((λ x : string * bool, (x.1, VBool x.2)) <$> library_facts imp names) !! ("attrs." +:+ n) = None) as ->.
  { rewrite update_lookup_ne; [done|]. intros [p v] Hp. apply list_elem_of_fmap in Hp as ([p' v'] & [= -> ->] & Hp).
    unfold library_facts in Hp. by apply list_elem_of_fmap in Hp as (x & [= -> _] & _). }
  unfold attr_items. cbn [q_shape q_attrs mk_query]. rewrite Hs. cbn [app].
  match goal with |- context [freeze_pairs ?d] => set (D := d) end.
  assert (NoDup (dkeys D)) as HD by (apply (bool_decide_unpack _); by vm_compute).
  destruct (stored_attrs D HD) as [Hnd Hget]. rewrite seg_prefixed, Hget by done.
  change (is_Some (dget D n)) in Hn.
  match goal with |- _ = freeze <$> ?d => change d with (dget D n) end. by destruct Hn as [v ->].
Qed.
End facts.

(** ** The row *)

(** The predicate of the row, as the catalog holds it. *)
Definition row_pred : predicate := match Ops.Attention.FLASHINFER_ATTENTION with Ok p => p | Err _ => FALSE end.

Lemma row_pred_ok : Ops.Attention.FLASHINFER_ATTENTION = Ok row_pred.
Proof. by vm_compute. Qed.

Lemma sat_all_true ts : sat_all ts = Ok true ↔ Forall (λ t, t = Ok true) ts.
Proof.
  induction ts as [|t ts IH]; simpl; [split; [constructor|done]|]. rewrite Forall_cons, <- IH.
  destruct t as [[]|]; simpl; naive_solver.
Qed.

(** What the row asks of the hardware and the tensors, and of the attributes. *)
Definition device_part : list predicate := match row_pred with And cs => take 6 cs | _ => [] end.
Definition attr_part : list predicate := match row_pred with And cs => drop 6 cs | _ => [] end.

Lemma row_parts fs : eval row_pred fs = Ok None ↔
  sat (And device_part) fs = Ok true ∧ sat (And attr_part) fs = Ok true.
Proof.
  rewrite eval_none_sat. change row_pred with (And (device_part ++ attr_part)). cbn [sat].
  rewrite map_app, !sat_all_true. apply Forall_app.
Qed.

(** The facts the catalog sees of an attention call. *)
Record call_facts {F S} (l : attn_layer F) (m : option attn_mask) (bias : option (attn_bias (S:=S))) (fs : facts) : Prop := {
  cf_causal : lookup_fact fs "attrs.causal" = Some (VBool (ly_causal l));
  cf_mask : lookup_fact fs "attrs.mask_kind" = Some (match m with None => VNone | Some m => VStr (mask_kind_of m) end);
  cf_bias : lookup_fact fs "attrs.has_attn_bias" = Some (VBool (match bias with Some _ => true | None => false end));
}.

Lemma attention_call_facts {F S R handle device} cap_value profile_of role prefer (l : attn_layer F) (dev : device) tq tk tv
    (q k : head_rows R) m (bias : option (attn_bias (S:=S))) mode how query opt names imp :
  call_query profile_of (attention_site (handle:=handle) cap_value role prefer l) (attention_call dev tq tk tv q k m bias mode) how = Ok query →
  call_facts l m bias (facts_from_query query opt (library_facts imp names)).
Proof.
  intros Hq. split.
  - rewrite (call_attr _ _ _ _ _ _ _ _ _ _ _ _ _ _ _ _ _ _ _ "causal" Hq) by (by eexists). reflexivity.
  - rewrite (call_attr _ _ _ _ _ _ _ _ _ _ _ _ _ _ _ _ _ _ _ "mask_kind" Hq) by (by eexists). by destruct m.
  - rewrite (call_attr _ _ _ _ _ _ _ _ _ _ _ _ _ _ _ _ _ _ _ "has_attn_bias" Hq) by (by eexists). reflexivity.
Qed.

(** On a call's facts the attributes are accepted exactly without a bias,
    without segments, and on a causal layer with lengths at most. *)
Definition attrs_accepted {F S} (l : attn_layer F) (m : option attn_mask) (bias : option (attn_bias (S:=S))) : bool :=
  match bias with Some _ => false | None => true end &&
  match m with
  | None => true
  | Some m => negb (bool_decide (is_Some (am_segments m))) && (negb (ly_causal l) || match am_keys m with Some _ => false | None => true end)
  end.

Lemma attr_part_sat {F S} (l : attn_layer F) m (bias : option (attn_bias (S:=S))) fs :
  call_facts l m bias fs → sat (And attr_part) fs = Ok (attrs_accepted l m bias).
Proof.
  intros [Hc Hm Hb]. let p := eval vm_compute in attr_part in change attr_part with p.
  cbn [sat map sat_all sat_any]. unfold sat_leaf. cbn [f_path f_kind]. rewrite Hb, Hm, Hc. unfold attrs_accepted.
  destruct bias as [?|], m as [[[?|] [?|] [?|]]|], (ly_causal l); reflexivity.
Qed.

(** A causal layer with lengths, where the keys are more or fewer than the
    queries. *)
Definition rectangular {F R} (l : attn_layer F) (m : option attn_mask) (q k : head_rows R) : Prop :=
  ly_causal l = true ∧ m ≠ None ∧ d1 q ≠ d1 k.

Section serves.
Context {F S R : Type} `{Num : Numerics F S R} {NumLaws : NumericsLaws F S R}.
Context `{Fused : @Sdpa F S R} {FusedLaws : SdpaLaws} `{Kernels : @FlashInfer F R} {KernelLaws : FlashInferLaws}.
Context (plan_check : fi_plan F → res unit) (capturing : bool) (dtype : string).

(** C23: When the catalog's FlashInfer row accepts the facts that an attention
    call selects with, the FlashInfer backend serves the call: whatever it
    planned before, the forward pass of a well-formed padded call succeeds and
    its rows are the reference ones wherever a query sees a key within the given
    lengths.  The one exception is a causal layer with lengths whose keys are not
    as many as its queries.  The plan is made outside a graph capture and the
    library accepts it; the tensors have the layer's shapes and the mask the
    batch's. *)
Theorem row_guards {handle device : Type} cap_value profile_of role prefer (l : attn_layer F) (dev : device) tq tk tv
    (q k v : head_rows R) dq dk dv m (bias : option (attn_bias (S:=S))) mode how query opt names imp f valid :
  call_query profile_of (attention_site (handle:=handle) cap_value role prefer l) (attention_call dev tq tk tv q k m bias mode) how
    = Ok query →
  eval row_pred (facts_from_query query opt (library_facts imp names)) = Ok None →
  ¬ rectangular l m q k →
  layer_ok l → mask_ok m → check_padded l q k v dq dk dv = Ok () → validity m (d0 q) (d1 k) = Ok valid →
  (0 < d0 q)%nat → (0 < d1 q)%nat → (0 < d1 k)%nat → capturing = false → (∀ p, plan_check p = Ok ()) →
  ∃ b' o, forward_padded plan_check capturing dtype l q k v dq dk dv None None None m bias (BFlash f) = (b', Ok o) ∧
    computes l m None q k v o (rows_of (BFlash f) l m q k).
Proof.
  intros Hq%(attention_call_facts _ _ _ _ _ _ _ _ _ _ _ _ _ _ _ _ opt names imp) [_ Ha]%row_parts Hrect
    Hl Hmok Hpad Hvalid Hq0 Hq1 Hk1 Hcap Hplan.
  rewrite (attr_part_sat _ _ _ _ Hq) in Ha. injection Ha as Ha. unfold attrs_accepted in Ha. apply andb_prop in Ha as [Hb Hm].
  destruct bias; [done|]. eapply flash_call; try done. destruct m as [m|]; [|done]. apply andb_prop in Hm as [Hs Hk].
  destruct (am_segments m) eqn:Eseg; [done|]. split; [done|]. intros Hc. rewrite Hc in Hk. simpl in Hk.
  split; [by destruct (am_keys m)|]. destruct (decide (d1 q = d1 k)) as [|Hne]; [done|]. by destruct Hrect.
Qed.

(** C32: The gap of that row.  For a causal layer with lengths whose keys are
    not as many as its queries, the mask plays no part in the row's decision:
    it accepts whatever its conditions on the device and the tensors accept.
    FlashInfer then plans the call and raises [ValueError], while SDPA, which
    the catalog ranks below, computes the reference rows. *)
Theorem row_overaccepts (l : attn_layer F) lens m (q k v : head_rows R) dq dk dv :
  layer_ok l → ly_causal l = true → attn_mask_init None (Some lens) None = Ok m → List.length lens = d0 q →
  check_padded l q k v dq dk dv = Ok () → d1 q ≠ d1 k → (0 < d1 q)%nat → (0 < d1 k)%nat →
  capturing = false → (∀ p, plan_check p = Ok ()) →
  (∀ fs, call_facts (S:=S) l (Some m) None fs → eval row_pred fs = Ok None ↔ sat (And device_part) fs = Ok true) ∧
  (∀ f, ∃ b', forward_padded plan_check capturing dtype l q k v dq dk dv None None None (Some m) None (BFlash f)
      = (b', Err ValueError)) ∧
  ∃ b' o, forward_padded plan_check capturing dtype l q k v dq dk dv None None None (Some m) None BSdpa = (b', Ok o) ∧
    computes l (Some m) None q k v o (seen l (Some m) q k).
Proof.
  intros Hl Hc Hm Hlen Hpad Hne Hq1 Hk1 Hcap Hplan. pose proof (attn_mask_init_ok _ _ _ _ Hm) as Hmok. injection Hm as <-.
  split; [|split].
  - intros fs Hfs. rewrite row_parts, (attr_part_sat _ _ _ _ Hfs). unfold attrs_accepted. simpl. rewrite Hc. naive_solver.
  - intros f. by eapply (flash_rectangular plan_check capturing dtype l lens).
  - assert (∃ d, padded_mask l (Some (AttnMask None (Some lens) None)) q k = Ok d) as [d Hd].
    { unfold padded_mask, dense. simpl. unfold kv_valid. simpl. rewrite Hlen, Nat.eqb_refl. simpl. eauto. }
    apply (dense_call plan_check capturing dtype l q k v dq dk dv _ None BSdpa d); done.
Qed.
End serves.

(** ** A layer on a Hopper GPU *)

Import Exact.
#[local] Existing Instances numbers numbers_laws exact_fused exact_fused_laws kernels kernels_laws.

Definition row_layer : attn_layer Z := AttnLayer 4 2 128 1 true (Some 2) None.
Definition row_q : head_rows Z := Rows 2 2 4 (λ b i h, Z.of_nat (b + 2 * i + 3 * h)).
Definition row_k : head_rows Z := Rows 2 3 2 (λ b i h, Z.of_nat (1 + b + i + h)).
Definition row_lens : attn_mask := AttnMask None (Some [3; 2]) None.
Definition hopper : device_profile := DeviceProfile "nvidia" (Some "sm90a") (Some 0).
Definition row_site : call_site (handle:=unit) (device:=device_profile) :=
  attention_site VInt "vision" [] row_layer.
Definition row_call : site_call (device:=device_profile) :=
  attention_call (S:=Z) hopper "torch.bfloat16" "torch.bfloat16" "torch.bfloat16" row_k row_k (Some row_lens) None None.
Definition row_query : kernel_query :=
  match call_query id row_site row_call "eager" with
  | Ok q => q
  | Err _ => mk_query "" "" None default_model [] None (ShapeFacts [] []) EAGER []
  end.

(** The row accepts the call, through the facts of the query. *)
Example row_accepts :
  eval row_pred (facts_from_query row_query ∅ (library_facts (λ _, true) {["flashinfer"%string]})) = Ok None.
Proof. vm_compute. reflexivity. Qed.

Definition row_self : head_rows Z := Rows 2 3 4 (λ b i h, Z.of_nat (b + 2 * i + 3 * h)).
Definition row_self_call : site_call (device:=device_profile) :=
  attention_call (S:=Z) hopper "torch.bfloat16" "torch.bfloat16" "torch.bfloat16" row_self row_k (Some row_lens) None None.
Definition row_self_query : kernel_query :=
  match call_query id row_site row_self_call "eager" with
  | Ok q => q
  | Err _ => mk_query "" "" None default_model [] None (ShapeFacts [] []) EAGER []
  end.
Definition row_valid : option (nat → nat → bool) :=
  match validity (Some row_lens) 2 3 with Ok v => v | Err _ => None end.

Lemma row_guards_witness :
  ∃ b' o, forward_padded (S:=Z) (λ _, Ok ()) false "bf16" row_layer row_self row_k row_k 128 128 128 None None None (Some row_lens) None
      (BFlash (flash_init None)) = (b', Ok o) ∧
    computes row_layer (Some row_lens) None row_self row_k row_k o
      (rows_of (BFlash (flash_init None)) row_layer (Some row_lens) row_self row_k).
Proof.
  refine (row_guards (handle:=unit) (λ _, Ok ()) false "bf16" VInt id "vision" [] row_layer hopper "torch.bfloat16" "torch.bfloat16"
    "torch.bfloat16" row_self row_k row_k 128 128 128 (Some row_lens) None None "eager" row_self_query ∅ {["flashinfer"%string]} (λ _, true)
    (flash_init None) row_valid _ _ _ _ _ _ _ _ _ _ _ _).
  - vm_compute. reflexivity.
  - vm_compute. reflexivity.
  - intros (_ & _ & Hne). apply Hne. reflexivity.
  - apply (attention_init_ok (λ _, 1) 4 128 (Some 2) (Some 1) true (Some 2) None). reflexivity.
  - split; [right; left; eexists; reflexivity|exact I].
  - reflexivity.
  - reflexivity.
  - simpl. lia.
  - simpl. lia.
  - simpl. lia.
  - reflexivity.
  - intros p. reflexivity.
Defined.

Lemma row_overaccepts_witness :
  let forward := forward_padded (S:=Z) (λ _, Ok ()) false "bf16" row_layer row_q row_k row_k 128 128 128 None None None (Some row_lens) None in
  ((∃ b', forward (BFlash (flash_init None)) = (b', Err ValueError)) ∧
   ∃ b' o, forward BSdpa = (b', Ok o) ∧ computes row_layer (Some row_lens) None row_q row_k row_k o (seen row_layer (Some row_lens) row_q row_k)).
Proof.
  refine (let H := row_overaccepts (λ _, Ok ()) false "bf16" row_layer [3; 2] row_lens row_q row_k row_k 128 128 128 _ _ _ _ _ _ _ _ _ _ in
    conj (proj1 (proj2 H) (flash_init None)) (proj2 (proj2 H))).
  - apply (attention_init_ok (λ _, 1) 4 128 (Some 2) (Some 1) true (Some 2) None). reflexivity.
  - reflexivity.
  - reflexivity.
  - reflexivity.
  - reflexivity.
  - discriminate.
  - simpl. lia.
  - simpl. lia.
  - reflexivity.
  - intros p. reflexivity.
Defined.
