(* ===== verification/Paged.v ===== *)
(** * Attention over the K/V pool ([layers/attention/paged])

    The builders of slot indices, the layer, and its two backends: SDPA, which
    gathers the visible slots and runs one call per sequence, and FlashInfer,
    whose wrapper reads the pool by page.  A row is the vector of one head; the
    pool is the one of [KvCache]. *)

From S2P Require Import Prelude Tensor KvCache Attention.
Open Scope Z_scope.

(** ** Slot indices *)

(** [.to(torch.int32)] *)
Definition to_int32 (z : Z) : Z := (z + 2 ^ 31) mod 2 ^ 32 - 2 ^ 31.

(** [cu[0] = 0; cu[1:] = cumsum(lens)] *)
Definition cu_of (lens : list Z) : list Z := 0 :: cumsum 0 lens.

(** [padded_write_indices] *)
Definition padded_write_indices (real_lens : list Z) (n_per_sample slot_base sentinel_slot : Z) : res (list Z) :=
  _ ← ensure (0 <=? n_per_sample) RuntimeError;
  let cu_real := cu_of real_lens in
  Ok (mjoin ((λ '(b, real), (λ j, if Z.of_nat j <? real then slot_base + nth b cu_real 0 + Z.of_nat j else sentinel_slot)
                <$> seq 0 (Z.to_nat n_per_sample)) <$> zip (seq 0 (List.length real_lens)) real_lens)).

(** [suffix_pos_ids] *)
Definition suffix_pos_ids (real_lens : list Z) (count offset : Z) : res (list Z) :=
  _ ← ensure (0 <=? count) RuntimeError;
  Ok (mjoin ((λ real, (λ j, to_int32 (real + offset + Z.of_nat j)) <$> seq 0 (Z.to_nat count)) <$> real_lens)).

(** [torch.searchsorted(l, x, right=True)] on an ascending [l] *)
Definition searchsorted_right (l : list Z) (x : Z) : nat := List.length (filter (λ c, (c <= x)%Z) l).

(** [visibility_indices]; indexing past the last sample raises. *)
Definition visibility_indices (real_lens : list Z) (prefix_slot_base suffix_slot_base suffix_stride suffix_visible : Z)
    (n_full : option Z) : res (list Z) :=
  _ ← ensure (negb ((suffix_visible <? 0) || (suffix_stride <? suffix_visible))) ValueError;
  let cu_p := cu_of real_lens in
  let cu_full := cu_of ((λ real, real + suffix_visible) <$> real_lens) in
  let n_full := match n_full with Some n => n | None => List.last cu_full 0 end in
  _ ← ensure (0 <=? n_full) RuntimeError;
  rmap (λ x, let x := Z.of_nat x in
    let seg_id := searchsorted_right (drop 1 cu_full) x in
    real_at_seg ← of_option IndexError (real_lens !! seg_id);
    let pos_within := x - nth seg_id cu_full 0 in
    Ok (to_int32 (if pos_within <? real_at_seg then prefix_slot_base + nth seg_id cu_p 0 + pos_within
                  else suffix_slot_base + Z.of_nat seg_id * suffix_stride + (pos_within - real_at_seg))))
    (seq 0 (Z.to_nat n_full)).

(** ** Layers and metadata *)

Section paged.
Context {F S E T : Type} `{TorchIndex E T} `{!Numerics F S (list E)}.

Record paged_layer : Type := PagedLayer {
  pl_heads : Z;
  pl_kv_heads : Z;
  pl_head_dim : Z;
  pl_scale : F;
  pl_causal : bool;
  pl_layer_id : Z;
}.

(** [PagedAttention.__init__] *)
Definition paged_init (default_scale : Z → F) (num_heads head_dim layer_id : Z) (causal : bool) (num_kv_heads : option Z)
    (scale : option F) : res paged_layer :=
  let num_kv_heads := default num_heads num_kv_heads in
  _ ← ensure (negb ((num_kv_heads <=? 0) || negb (num_heads mod num_kv_heads =? 0))) ValueError;
  _ ← ensure (0 <=? layer_id) ValueError;
  Ok (PagedLayer num_heads num_kv_heads head_dim (default (default_scale head_dim) scale) causal layer_id).

(** A tensor of page indices: its shape, its dtype, its values in order. *)
Record index_tensor : Type := IndexTensor { ix_shape : list Z; ix_dtype : string; ix_values : list Z }.

Record paged_meta : Type := PagedMeta {
  pm_idle : bool;
  pm_ragged : bool;
  pm_batch_size : Z;
  pm_num_query_tokens : Z;
  pm_cu_q : option (list Z);
  pm_kv_indptr : option (list Z);
  pm_kv_indices : option index_tensor;
  pm_last_page_len : option (list Z);
  pm_write_indices : option (list Z);
  pm_position_ids : option (list Z);
}.

(** [PagedAttnMetadata.__post_init__] *)
Definition paged_meta_init (m : paged_meta) : res paged_meta :=
  _ ← ensure (negb ((pm_batch_size m <? 0) || (pm_num_query_tokens m <? 0))) ValueError;
  _ ← ensure (pm_idle m || negb (pm_ragged m) || bool_decide (is_Some (pm_cu_q m))) ValueError;
  Ok m.

(** ** Rows of tensors *)

(** The tokens of a [(N, H, D)] tensor, and the token in a slot of a pool
    buffer. *)
Definition tokens_of (t : T) : list (token (list E)) :=
  match t_shape t with
  | [n; _; d] => (λ i h, (λ c, t_get t [Z.of_nat i; Z.of_nat h; Z.of_nat c]) <$> seq 0 (Z.to_nat d)) <$> seq 0 (Z.to_nat n)
  | _ => []
  end.

Definition slot_token (d : Z) (t : T) (s : Z) : token (list E) :=
  λ h, (λ c, t_get t [s; 0; Z.of_nat h; Z.of_nat c]) <$> seq 0 (Z.to_nat d).

Definition zero_tokens (n : nat) : list (token (list E)) := replicate n (λ _, zero_row).

(** ** SDPA *)

Record sdpa_plan : Type := SdpaPagedPlan {
  sp_q_offsets : list Z;
  sp_kv_offsets : list Z;
  sp_indices : index_tensor;
  sp_masks : list (option (nat → nat → bool));
}.

(** Consecutive pairs: [zip(l, l[1:])] *)
Definition pairs {A} (l : list A) : list (A * A) := zip l (drop 1 l).

Definition offsets_ok (batch_size : Z) (offsets : list Z) : bool :=
  (Z.of_nat (List.length offsets) =? batch_size + 1) && bool_decide (offsets !! 0%nat = Some 0) &&
  forallb (λ p, p.1 <=? p.2) (pairs offsets).

(** [SdpaPagedBackend._offsets] *)
Definition sdpa_offsets (m : paged_meta) : res (list Z * list Z) :=
  match pm_ragged m, pm_cu_q m, pm_kv_indptr m, pm_kv_indices m with
  | true, Some q_offsets, Some kv_offsets, Some indices =>
      _ ← ensure (offsets_ok (pm_batch_size m) q_offsets && offsets_ok (pm_batch_size m) kv_offsets) ValueError;
      _ ← ensure ((List.last q_offsets 0 =? pm_num_query_tokens m) &&
                  (List.last kv_offsets 0 =? Z.of_nat (List.length (ix_values indices)))) ValueError;
      Ok (q_offsets, kv_offsets)
  | _, _, _, _ => Err ValueError
  end.

(** [torch.ones(q_len, kv_len).tril(kv_len - q_len)] for a causal layer with
    fewer queries than keys *)
Definition segment_mask (causal : bool) (q_len kv_len : Z) : option (nat → nat → bool) :=
  if causal && (q_len <? kv_len) then Some (λ i j, Z.of_nat j <=? Z.of_nat i + (kv_len - q_len)) else None.

(** [init_forward_metadata], under the layer prototype of
    [init_cuda_graph_state] *)
Definition sdpa_paged_plan (proto : option paged_layer) (m : paged_meta) : res sdpa_plan :=
  match proto with
  | None => Err RuntimeError
  | Some proto =>
      '(q_offsets, kv_offsets) ← sdpa_offsets m;
      match pm_kv_indices m with
      | None => Err OtherError
      | Some indices =>
          _ ← ensure (Nat.eqb (List.length (ix_shape indices)) 1 && bool_decide (ix_dtype indices ∈ ["int32"; "int64"]%string))
                ValueError;
          Ok (SdpaPagedPlan q_offsets kv_offsets indices
                ((λ '((qs, qe), (ks, ke)), segment_mask (pl_causal proto) (qe - qs) (ke - ks))
                   <$> zip (pairs q_offsets) (pairs kv_offsets)))
      end
  end.

(** [replay_metadata]: the plan keeps its identity, its indices are
    overwritten. *)
Definition sdpa_paged_replay (p : sdpa_plan) (m : paged_meta) : res sdpa_plan :=
  offs ← sdpa_offsets m;
  _ ← ensure (bool_decide (offs = (sp_q_offsets p, sp_kv_offsets p))) ValueError;
  match pm_kv_indices m with
  | None => Err OtherError
  | Some indices =>
      _ ← ensure (bool_decide (ix_shape indices = ix_shape (sp_indices p)) && String.eqb (ix_dtype indices) (ix_dtype (sp_indices p)))
            ValueError;
      Ok (SdpaPagedPlan (sp_q_offsets p) (sp_kv_offsets p) indices (sp_masks p))
  end.

Context `{!Sdpa (F:=F) (S:=S) (R:=list E)}.

(** One sequence of the loop of [SdpaPagedBackend.forward] *)
Definition sdpa_segment (l : paged_layer) (q keys values : list (token (list E))) (qs qe ks ke : Z)
    (mask : option (nat → nat → bool)) : list (token (list E)) :=
  let query := slice q qs qe in
  if (qe =? qs) || (ke =? ks) then zero_tokens (List.length query)
  else
    let run query :=
      of_batch (sdpa (as_batch (Packed (Z.to_nat (pl_heads l)) query))
        (as_batch (Packed (Z.to_nat (pl_kv_heads l)) (slice keys ks ke)))
        (as_batch (Packed (Z.to_nat (pl_kv_heads l)) (slice values ks ke)))
        (match mask with None => NoMask | Some m => BoolMask (λ _, m) end)
        (pl_causal l && match mask with None => true | Some _ => false end)
        (pl_scale l) (negb (pl_heads l =? pl_kv_heads l))) in
    if pl_causal l && (ke - ks <? qe - qs) then
      let masked_rows := Z.to_nat ((qe - qs) - (ke - ks)) in
      zero_tokens (List.length (take masked_rows query)) ++ run (drop masked_rows query)
    else run query.

(** ** FlashInfer *)

Record page_plan : Type := PagePlan {
  pp_cu_q : list Z;
  pp_kv_indptr : list Z;
  pp_kv_indices : list Z;
  pp_last_page_len : list Z;
  pp_heads : Z;
  pp_kv_heads : Z;
  pp_head_dim : Z;
  pp_causal : bool;
  pp_scale : F;
}.

(** [wrapper.run(q, (k_cache, v_cache))] under a plan with pages of one slot *)
Class FlashInferPaged : Type := {
  fip_run : page_plan → list (token (list E)) → T → T → list (token (list E));
}.

(** Documented: a sequence with some pages has all their slots but those of the
    last page past [last_page_len]; a page is one slot here. *)
Definition page_kv_len (pages last_page_len : Z) : Z := Z.max 0 (pages - 1) + last_page_len.

(** Documented: the keys of sequence [n] are the first [page_kv_len] slots its
    span of the index array names; rows that see no key are not specified. *)
Class FlashInferPagedLaws `{FlashInferPaged} : Prop := {
  fip_run_row p q k v slots n qs qe ks ke last (i h : nat) t :
    t_shape k = [slots; 1; pp_kv_heads p; pp_head_dim p] → t_shape v = t_shape k →
    Forall (λ s, 0 <= s < slots) (pp_kv_indices p) →
    StronglySorted Z.le (pp_cu_q p) →
    pp_cu_q p !! n = Some qs → pp_cu_q p !! Datatypes.S n = Some qe →
    pp_kv_indptr p !! n = Some ks → pp_kv_indptr p !! Datatypes.S n = Some ke →
    0 <= qs <= qe → qe <= Z.of_nat (List.length q) → 0 <= ks <= ke → ke <= Z.of_nat (List.length (pp_kv_indices p)) →
    pp_last_page_len p !! n = Some last → 0 <= last <= 1 → page_kv_len (ke - ks) last <= ke - ks →
    slice q qs qe !! i = Some t → Z.of_nat h < pp_heads p →
    let kv_len := page_kv_len (ke - ks) last in
    let visible := fi_visible (pp_causal p) (-1) (qe - qs) kv_len in
    (∃ j, 0 <= j < kv_len ∧ visible (Z.of_nat i) j = true) →
    let cached b := slot_token (pp_head_dim p) b <$> slice (pp_kv_indices p) ks (ks + kv_len) in
    ∃ o, fip_run p q k v !! (Z.to_nat qs + i)%nat = Some o ∧
      o h = ragged_row (pp_scale p) None visible t (cached k) (cached v) (h / Z.to_nat (pp_heads p / pp_kv_heads p))%nat h i;
}.

Context `{FlashInferPaged}.
Context (plan_check : page_plan → res unit).

(** The backend: its layer prototype and wrapper, both set by
    [init_cuda_graph_state], and the wrapper's last plan. *)
Record page_backend : Type := PageBackend { pb_proto : option paged_layer; pb_wrapper : option (option page_plan) }.

(** [FlashInferPagedBackend.init_cuda_graph_state]: a second call does
    nothing. *)
Definition page_init_state (proto : paged_layer) (b : page_backend) : page_backend :=
  match pb_wrapper b with Some _ => b | None => PageBackend (Some proto) (Some None) end.

(** [_plan_into_static_buffers]; a plan the library refuses leaves the last
    one. *)
Definition page_plan_into (m : paged_meta) (b : page_backend) : page_backend * res unit :=
  match pb_wrapper b, pb_proto b with
  | Some _, Some proto =>
      match pm_cu_q m, pm_kv_indptr m, pm_kv_indices m, pm_last_page_len m with
      | Some cu_q, Some indptr, Some indices, Some last_page =>
          let p := PagePlan (to_int32 <$> cu_q) (to_int32 <$> indptr) (to_int32 <$> ix_values indices) (to_int32 <$> last_page)
                     (pl_heads proto) (pl_kv_heads proto) (pl_head_dim proto) (pl_causal proto) (pl_scale proto) in
          match plan_check p with
          | Err e => (b, Err e)
          | Ok _ => (PageBackend (Some proto) (Some (Some p)), Ok ())
          end
      | _, _, _, _ => (b, Err ValueError)
      end
  | _, _ => (b, Err RuntimeError)
  end.

(** ** The forward passes *)

Inductive paged_backend : Type := PSdpa (proto : option paged_layer) | PFlash (b : page_backend).

(** [init_cuda_graph_state] of a backend *)
Definition paged_init_state (proto : paged_layer) (b : paged_backend) : paged_backend :=
  match b with PSdpa _ => PSdpa (Some proto) | PFlash f => PFlash (page_init_state proto f) end.

Inductive paged_handle : Type := HSdpa (p : sdpa_plan) | HFlash.

(** [init_forward_metadata] of a backend *)
Definition paged_plan (m : paged_meta) (b : paged_backend) : paged_backend * res paged_handle :=
  match b with
  | PSdpa proto => (b, p ← sdpa_paged_plan proto m; Ok (HSdpa p))
  | PFlash f => let '(f, r) := page_plan_into m f in (PFlash f, _ ← r; Ok HFlash)
  end.

(** [replay_metadata] of a backend, with the handle after it *)
Definition paged_replay (h : paged_handle) (m : paged_meta) (b : paged_backend) : paged_backend * res paged_handle :=
  match b with
  | PSdpa _ => (b, match h with HSdpa p => p ← sdpa_paged_replay p m; Ok (HSdpa p) | HFlash => Err TypeError end)
  | PFlash f => let '(f, r) := page_plan_into m f in (PFlash f, _ ← r; Ok h)
  end.

Record paged_ctx : Type := PagedCtx { pc_handle : paged_handle; pc_idle : bool; pc_write : slot_tensor }.

(** [SdpaPagedBackend.forward] *)
Definition sdpa_paged_forward (l : paged_layer) (q k v : T) (c : paged_ctx) (pool : kv_pool (T:=T))
    : kv_pool (T:=T) * res (list (token (list E))) :=
  let n := default 0 (t_shape q !! 0%nat) in
  if pc_idle c then (pool, Ok (zero_tokens (Z.to_nat n)))
  else match pc_handle c with
  | HFlash => (pool, Err TypeError)
  | HSdpa p =>
      if negb (n =? List.last (sp_q_offsets p) 0) then (pool, Err ValueError)
      else if negb (kp_page pool =? 1) then (pool, Err NotImplementedError)
      else match write_kv pool (pl_layer_id l) (pc_write c) k v with
      | (pool, Err e) => (pool, Err e)
      | (pool, Ok _) =>
          if n =? 0 then (pool, Ok [])
          else match gather_kv pool (pl_layer_id l) (SlotTensor (ix_shape (sp_indices p)) true (ix_values (sp_indices p))) None with
          | Err e => (pool, Err e)
          | Ok (keys, values) =>
              (pool, Ok (mjoin ((λ '((qs, qe), (ks, ke), mask),
                  sdpa_segment l (tokens_of q) (tokens_of keys) (tokens_of values) qs qe ks ke mask)
                <$> zip (zip (pairs (sp_q_offsets p)) (pairs (sp_kv_offsets p))) (sp_masks p))))
          end
      end
  end.

(** [FlashInferPagedBackend.forward] *)
Definition page_forward (f : page_backend) (l : paged_layer) (q k v : T) (c : paged_ctx) (pool : kv_pool (T:=T))
    : kv_pool (T:=T) * res (list (token (list E))) :=
  if pc_idle c then (pool, Ok (zero_tokens (Z.to_nat (default 0 (t_shape q !! 0%nat)))))
  else match pc_handle c with
  | HSdpa _ => (pool, Err TypeError)
  | HFlash =>
      match write_kv pool (pl_layer_id l) (pc_write c) k v with
      | (pool, Err e) => (pool, Err e)
      | (pool, Ok _) =>
          match kv_buffer pool (pl_layer_id l) with
          | Err e => (pool, Err e)
          | Ok (k_cache, v_cache) =>
              match pb_wrapper f with
              | Some (Some p) => (pool, Ok (fip_run p (tokens_of q) k_cache v_cache))
              | _ => (pool, Err OtherError)
              end
          end
      end
  end.

(** [PagedAttention.forward] *)
Definition paged_forward (b : paged_backend) (l : paged_layer) (q k v : T) (c : paged_ctx) (pool : kv_pool (T:=T))
    : kv_pool (T:=T) * res (list (token (list E))) :=
  match t_shape q, t_shape k, t_shape v with
  | [_; q_heads; q_dim], [k_rows; k_heads; k_dim], [_; _; _] =>
      if negb ((q_heads =? pl_heads l) && (q_dim =? pl_head_dim l)) then (pool, Err ValueError)
      else if negb ((k_heads =? pl_kv_heads l) && (k_dim =? pl_head_dim l) && bool_decide (t_shape k = t_shape v))
      then (pool, Err ValueError)
      else if negb (k_rows =? default 0 (sx_shape (pc_write c) !! 0%nat)) then (pool, Err ValueError)
      else match b with
      | PSdpa _ => sdpa_paged_forward l q k v c pool
      | PFlash f => page_forward f l q k v c pool
      end
  | _, _, _ => (pool, Err ValueError)
  end.
End paged.
Arguments paged_layer : clear implicits.
Arguments page_plan : clear implicits.
