(* ===== verification/PagedProps.v ===== *)
(** * Properties of attention over the K/V pool

    The index builders name the slots they promise, and both backends compute
    the reference rows over the slots their metadata makes visible, after the
    step's own rows are written. *)

From S2P Require Import Prelude Tensor KvCache KvProps Attention AttentionProps Paged.
Open Scope Z_scope.

(** ** Consecutive offsets *)

Lemma pairs_lookup {A} (l : list A) n a b : pairs l !! n = Some (a, b) ↔ l !! n = Some a ∧ l !! S n = Some b.
Proof. unfold pairs. rewrite lookup_zip_Some. rewrite lookup_drop. done. Qed.

Lemma pairs_length {A} (l : list A) : List.length (pairs l) = (List.length l - 1)%nat.
Proof. unfold pairs. rewrite length_zip_with, length_drop. lia. Qed.

(** Pieces whose lengths are the differences of offsets start at them. *)
Lemma offsets_prefix {A} (os : list Z) (pieces : list (list A)) :
  os !! 0%nat = Some 0 →
  (∀ n a b, pairs os !! n = Some (a, b) → ∃ p, pieces !! n = Some p ∧ Z.of_nat (List.length p) = b - a) →
  ∀ n o, os !! n = Some o → Z.of_nat (List.length (mjoin (take n pieces))) = o.
Proof.
  intros H0 Hp n. induction n as [|n IH]; intros o Ho.
  - rewrite H0 in Ho. by injection Ho as <-.
  - destruct (lookup_lt_is_Some_2 os n) as [a Ha]; [apply lookup_lt_Some in Ho; lia|].
    destruct (Hp n a o) as (p & Hpn & Hlen); [by apply pairs_lookup|].
    rewrite (take_S_r _ _ _ Hpn), join_app, length_app, Nat2Z.inj_add, (IH a Ha). simpl. rewrite app_nil_r. lia.
Qed.

Lemma offsets_ok_spec bs os :
  offsets_ok bs os = true → os !! 0%nat = Some 0 ∧ (∀ n a b, pairs os !! n = Some (a, b) → a <= b) ∧ StronglySorted Z.le os.
Proof.
  unfold offsets_ok. intros [[_ H0%bool_decide_eq_true]%andb_prop Hle]%andb_prop.
  assert (∀ n a b, pairs os !! n = Some (a, b) → a <= b) as Hpairs.
  { intros n a b Hn. rewrite forallb_forall in Hle. apply list_elem_of_lookup_2, list_elem_of_In in Hn.
    specialize (Hle _ Hn). simpl in Hle. lia. }
  split; [done|]. split; [done|]. clear H0 Hle. induction os as [|a os IH]; [constructor|].
  assert (StronglySorted Z.le os) as Hs.
  { apply IH. intros n x y [Hx Hy]%pairs_lookup. apply (Hpairs (S n)). by apply pairs_lookup. }
  constructor; [done|]. destruct os as [|b os]; [constructor|].
  assert (a <= b) as Hab by (apply (Hpairs 0%nat); by apply pairs_lookup).
  apply StronglySorted_inv in Hs as [_ Hb]. constructor; [done|]. eapply Forall_impl; [exact Hb|]. simpl. lia.
Qed.

Lemma last_lookup_max (os : list Z) n o : StronglySorted Z.le os → os !! n = Some o → o <= List.last os 0.
Proof.
  revert n o. induction os as [|a os IH]; intros n o Hs Hn; [done|]. apply StronglySorted_inv in Hs as [Hs Ha].
  destruct os as [|b os]; [destruct n; [by injection Hn as ->|done]|].
  change (List.last (a :: b :: os) 0) with (List.last (b :: os) 0). destruct n as [|n]; [|by apply (IH n o)].
  injection Hn as <-. transitivity b; [by apply Forall_inv in Ha|]. by apply (IH 0%nat b).
Qed.

(** The span of sequence [n] lies within the offsets' range. *)
Lemma span_ok bs os n a b :
  offsets_ok bs os = true → pairs os !! n = Some (a, b) → 0 <= a <= b ∧ b <= List.last os 0.
Proof.
  intros (H0 & Hp & Hs)%offsets_ok_spec Hn. pose proof (Hp _ _ _ Hn). apply pairs_lookup in Hn as [Ha Hb].
  split; [|by eapply last_lookup_max]. split; [|done].
  destruct os as [|x os]; [done|]. injection H0 as ->. destruct n as [|n]; [by injection Ha as <-|].
  apply StronglySorted_inv in Hs as [_ Hle]. rewrite Forall_forall in Hle. apply Hle. by eapply list_elem_of_lookup_2.
Qed.

Lemma slice_length {A} (l : list A) a b : 0 <= a <= b → b <= Z.of_nat (List.length l) → Z.of_nat (List.length (slice l a b)) = b - a.
Proof. intros Ha Hb. unfold slice. rewrite length_take, length_drop. lia. Qed.

Lemma slice_fmap {A B} (f : A → B) l a b : slice (f <$> l) a b = f <$> slice l a b.
Proof. unfold slice. by rewrite <- fmap_drop, <- fmap_take. Qed.

(** ** Rows *)

Section rows.
Context {F S R : Type} `{Num : Numerics F S R} {NumLaws : NumericsLaws F S R}.

(** Tokens with the same rows in the first heads. *)
Definition same_tokens (heads : nat) (ts ts' : list (token R)) : Prop :=
  Forall2 (λ t t', ∀ h, (h < heads)%nat → t h = t' h) ts ts'.

Lemma same_tokens_length heads ts ts' : same_tokens heads ts ts' → List.length ts = List.length ts'.
Proof. apply Forall2_length. Qed.

Lemma same_tokens_slice heads ts ts' a b : same_tokens heads ts ts' → same_tokens heads (slice ts a b) (slice ts' a b).
Proof. intros Ht. unfold slice. by apply Forall2_take, Forall2_drop. Qed.

Lemma same_tokens_nth heads ts ts' j h (d : token R) :
  same_tokens heads ts ts' → (h < heads)%nat → (j < List.length ts)%nat → nth j ts d h = nth j ts' d h.
Proof.
  intros Ht Hh Hj. destruct (lookup_lt_is_Some_2 ts j Hj) as [t Htj].
  destruct (Forall2_lookup_l _ _ _ _ _ Ht Htj) as (t' & Htj' & Heq). rewrite !nth_lookup, Htj, Htj'. by apply Heq.
Qed.

(** The reference row of a sequence reads only the key head of the query. *)
Lemma ref_row_same (l : attn_layer F) hq hk ql kl kl' vl vl' i h :
  same_tokens hk kl kl' → same_tokens hk vl vl' → List.length vl = List.length kl → (kv_head l h < hk)%nat →
  ref_row l None None (seq_rows hq ql) (seq_rows hk kl) (seq_rows hk vl) 0 i h =
  ref_row l None None (seq_rows hq ql) (seq_rows hk kl') (seq_rows hk vl') 0 i h.
Proof.
  intros Hk Hv Hlen Hh. unfold ref_row, visible_keys. cbn [d1 seq_rows]. rewrite <- (same_tokens_length _ _ _ Hk).
  f_equal. apply Forall_fmap_ext. apply Forall_forall. intros j [_ [_ Hj]%elem_of_seq]%list_elem_of_filter.
  unfold score. cbn [at3 seq_rows biased]. rewrite (same_tokens_nth _ _ _ _ _ _ Hk Hh) by lia.
  by rewrite (same_tokens_nth _ _ _ _ _ _ Hv Hh) by lia.
Qed.

(** A query that sees no key has the zero row. *)
Lemma ref_row_unseen (l : attn_layer F) (q k v : head_rows R) b i h :
  visible_keys l None (d1 q) (d1 k) b i = [] → ref_row l None None q k v b i h = zero_row.
Proof. intros Hv. unfold ref_row. rewrite Hv. apply attend_nil. Qed.

(** Dropping leading queries moves the others up: queries are aligned with
    the last keys. *)
Lemma ref_row_drop (l : attn_layer F) hq hk n ql kl vl i h :
  (n + i < List.length ql)%nat →
  ref_row l None None (seq_rows hq (drop n ql)) (seq_rows hk kl) (seq_rows hk vl) 0 i h =
  ref_row l None None (seq_rows hq ql) (seq_rows hk kl) (seq_rows hk vl) 0 (n + i) h.
Proof.
  intros Hi. unfold ref_row, visible_keys. cbn [d1 seq_rows].
  assert (∀ j, allowed (ly_causal l) (ly_window l) None (List.length (drop n ql)) (List.length kl) 0 i j =
    allowed (ly_causal l) (ly_window l) None (List.length ql) (List.length kl) 0 (n + i) j) as Ha.
  { intros j. unfold allowed. simpl. rewrite length_drop.
    replace (Z.of_nat i + (Z.of_nat (List.length kl) - Z.of_nat (List.length ql - n)))
      with (Z.of_nat (n + i) + (Z.of_nat (List.length kl) - Z.of_nat (List.length ql))) by lia. done. }
  f_equal. rewrite (list_filter_iff _ (λ j, allowed (ly_causal l) (ly_window l) None (List.length ql) (List.length kl) 0 (n + i) j = true))
    by (intros j; by rewrite Ha).
  apply list_fmap_ext. intros ? j _. unfold score. cbn [at3 seq_rows biased]. f_equal. f_equal. f_equal. f_equal.
  by rewrite !nth_lookup, lookup_drop.
Qed.
End rows.

Section paged_props.
Context {F S E T : Type} `{TorchIndexLaws E T} `{Num : !Numerics F S (list E)} {NumLaws : NumericsLaws F S (list E)}.
Context `{Fused : !@Sdpa F S (list E)} {FusedLaws : SdpaLaws}.

(** A paged layer as a layer without window or cap. *)
Definition as_attn (l : paged_layer F) : attn_layer F :=
  AttnLayer (pl_heads l) (pl_kv_heads l) (pl_head_dim l) (pl_scale l) (pl_causal l) None None.

Record paged_layer_ok (l : paged_layer F) : Prop := {
  po_attn : layer_ok (as_attn l);
  po_heads : 0 <= pl_heads l;
}.

Lemma paged_init_ok scale heads dim id causal kv sc l :
  paged_init scale heads dim id causal kv sc = Ok l → 0 <= heads → paged_layer_ok l.
Proof.
  unfold paged_init. intros ([] & Hh & Hr)%bind_ok Hpos. apply bind_ok in Hr as ([] & _ & [= <-]).
  apply ensure_ok, negb_true_iff, orb_false_iff in Hh as [Hk Hm]. apply Z.leb_gt in Hk.
  apply negb_false_iff, Z.eqb_eq in Hm. split; [|done]. split; simpl; try done.
Qed.

(** The row that a paged layer promises of a query of a sequence. *)
Definition paged_row (l : paged_layer F) (ql kl vl : list (token (list E))) (i h : nat) : list E :=
  ref_row (as_attn l) None None (seq_rows (Z.to_nat (pl_heads l)) ql) (seq_rows (Z.to_nat (pl_kv_heads l)) kl)
    (seq_rows (Z.to_nat (pl_kv_heads l)) vl) 0 i h.

Lemma paged_kv_head l h : paged_layer_ok l → (h < Z.to_nat (pl_heads l))%nat → (kv_head (as_attn l) h < Z.to_nat (pl_kv_heads l))%nat.
Proof.
  intros [[Hk Hm _] Hh] Hlt. unfold kv_head. simpl in *.
  apply Z_div_exact_full_2 in Hm; [|lia]. assert (0 < pl_heads l / pl_kv_heads l) by nia.
  apply Nat.Div0.div_lt_upper_bound. nia.
Qed.

Lemma sdpa_call_length hq hk ql kl vl M c (scale : F) gqa :
  List.length (of_batch (sdpa (as_batch (Packed hq ql)) (as_batch (Packed hk kl)) (as_batch (Packed hk vl)) M c scale gqa)) = List.length ql.
Proof. unfold of_batch. rewrite length_fmap, length_seq. by apply (sdpa_shape (as_batch (Packed hq ql))). Qed.

(** One fused call of a sequence in which the queries are not more than the
    keys under a causal layer. *)
Lemma sdpa_call_row l ql kl vl i h :
  paged_layer_ok l → kl ≠ [] → (pl_causal l = true → (List.length ql ≤ List.length kl)%nat) →
  (i < List.length ql)%nat → (h < Z.to_nat (pl_heads l))%nat →
  let mask := segment_mask (pl_causal l) (Z.of_nat (List.length ql)) (Z.of_nat (List.length kl)) in
  let out := of_batch (sdpa (as_batch (Packed (Z.to_nat (pl_heads l)) ql)) (as_batch (Packed (Z.to_nat (pl_kv_heads l)) kl))
    (as_batch (Packed (Z.to_nat (pl_kv_heads l)) vl)) (match mask with None => NoMask | Some m => BoolMask (λ _, m) end)
    (pl_causal l && match mask with None => true | Some _ => false end) (pl_scale l) (negb (pl_heads l =? pl_kv_heads l))) in
  ∃ o, out !! i = Some o ∧ o h = paged_row l ql kl vl i h.
Proof.
  intros Hl Hne Hle Hi Hh mask out. destruct Hl as [Hl Hpos].
  unfold out, of_batch. rewrite list_lookup_fmap, lookup_seq_lt.
  2: { by rewrite (proj2 (proj2 (sdpa_shape (as_batch (Packed (Z.to_nat (pl_heads l)) ql)) _ _ _ _ _ _))). }
  eexists. split; [reflexivity|]. cbn [Nat.add].
  apply (sdpa_entry_row (as_attn l) None None (seq_rows (Z.to_nat (pl_heads l)) ql) (seq_rows (Z.to_nat (pl_kv_heads l)) kl)
    (seq_rows (Z.to_nat (pl_kv_heads l)) vl)); simpl; try done; try lia.
  - destruct Hl as [Hk _ _]. simpl in Hk. lia.
  - unfold mask, segment_mask. destruct (pl_causal l && (Z.of_nat (List.length ql) <? Z.of_nat (List.length kl))); [right; by rewrite andb_false_r|by left].
  - intros j x Hj. unfold mask, segment_mask, allowed. simpl. destruct (pl_causal l) eqn:Hc; simpl; [|done].
    specialize (Hle eq_refl). destruct (Z.ltb_spec (Z.of_nat (List.length ql)) (Z.of_nat (List.length kl))); simpl; [by rewrite !andb_true_r|].
    rewrite !andb_true_r. destruct (Nat.leb_spec j i), (Z.leb_spec (Z.of_nat j) (Z.of_nat i + (Z.of_nat (List.length kl) - Z.of_nat (List.length ql))));
      done || lia.
  - exists 0%nat. split; [destruct kl; simpl in *; [done|lia]|]. unfold allowed. simpl. rewrite !andb_true_r.
    destruct (pl_causal l) eqn:Hc; simpl; [|done]. specialize (Hle eq_refl). apply Z.leb_le. lia.
Qed.

Lemma zero_tokens_length n : List.length (zero_tokens (F:=F) (S:=S) (E:=E) n) = n.
Proof. apply length_replicate. Qed.

Lemma paged_row_unseen l ql kl vl i h :
  (∀ j, (j < List.length kl)%nat → allowed (pl_causal l) None None (List.length ql) (List.length kl) 0 i j = false) →
  paged_row l ql kl vl i h = zero_row.
Proof.
  intros Hn. apply ref_row_unseen. apply filter_none. intros j [_ Hj]%elem_of_seq. cbn [d1 seq_rows as_attn ly_causal ly_window] in *.
  by rewrite Hn.
Qed.

(** One sequence of the loop: every row, those that see nothing included. *)
Lemma sdpa_segment_rows l q keys values qs qe ks ke i h :
  paged_layer_ok l → 0 <= qs <= qe → qe <= Z.of_nat (List.length q) → 0 <= ks <= ke → ke <= Z.of_nat (List.length keys) →
  let out := sdpa_segment l q keys values qs qe ks ke (segment_mask (pl_causal l) (qe - qs) (ke - ks)) in
  Z.of_nat (List.length out) = qe - qs ∧
  (Z.of_nat i < qe - qs → (h < Z.to_nat (pl_heads l))%nat →
   ∃ o, out !! i = Some o ∧ o h = paged_row l (slice q qs qe) (slice keys ks ke) (slice values ks ke) i h).
Proof.
  intros Hl Hq Hqe Hk Hke out. pose proof (slice_length q qs qe Hq Hqe) as Hql. pose proof (slice_length keys ks ke Hk Hke) as Hkl.
  unfold out, sdpa_segment. destruct ((qe =? qs) || (ke =? ks)) eqn:Eempty.
  { rewrite zero_tokens_length, Hql. split; [done|]. intros Hi Hh. apply orb_prop in Eempty.
    exists (λ _, zero_row). split; [apply lookup_replicate_2; lia|]. symmetry. apply paged_row_unseen. intros j Hj. lia. }
  apply orb_false_iff in Eempty as [Hqne%Z.eqb_neq Hkne%Z.eqb_neq].
  assert (slice keys ks ke ≠ []) as Hne by (intros E0; rewrite E0 in Hkl; simpl in Hkl; lia).
  destruct (pl_causal l && (ke - ks <? qe - qs)) eqn:Ec.
  - apply andb_prop in Ec as [Hc Hlt]. set (n := Z.to_nat ((qe - qs) - (ke - ks))).
    assert (segment_mask (pl_causal l) (qe - qs) (ke - ks) = segment_mask (pl_causal l)
      (Z.of_nat (List.length (drop n (slice q qs qe)))) (Z.of_nat (List.length (slice keys ks ke)))) as ->.
    { unfold segment_mask. rewrite length_drop, Hc. destruct (Z.ltb_spec (qe - qs) (ke - ks)); [lia|].
      destruct (Z.ltb_spec (Z.of_nat (List.length (slice q qs qe) - n)) (Z.of_nat (List.length (slice keys ks ke)))); [lia|done]. }
    rewrite length_app, zero_tokens_length, length_take. split.
    + rewrite sdpa_call_length, length_drop. lia.
    + intros Hi Hh. destruct (decide (i < n)%nat) as [Hin|Hin].
      * exists (λ _, zero_row). rewrite lookup_app_l by (rewrite zero_tokens_length; lia).
        split; [apply lookup_replicate_2; lia|]. symmetry. apply paged_row_unseen. intros j Hj. unfold allowed. simpl.
        rewrite Hc. simpl. rewrite !andb_true_r. apply Z.leb_gt. lia.
      * destruct (sdpa_call_row l (drop n (slice q qs qe)) (slice keys ks ke) (slice values ks ke) (i - n) h Hl Hne) as (o & Ho & Hr);
          [rewrite length_drop; lia|rewrite length_drop; lia|done|].
        exists o. rewrite lookup_app_r by (rewrite zero_tokens_length; lia). rewrite zero_tokens_length.
        replace (i - n `min` List.length (slice q qs qe))%nat with (i - n)%nat by lia. split; [done|]. rewrite Hr.
        unfold paged_row. rewrite ref_row_drop by lia. by replace (n + (i - n))%nat with i by lia.
  - rewrite <- Hql, <- Hkl, sdpa_call_length. split; [done|]. intros Hi Hh. apply sdpa_call_row; try done; [|lia].
    intros Hc. rewrite Hc in Ec. simpl in Ec. lia.
Qed.

(** *** Reading the pool *)

Lemma gather_tokens p layer l t tv ids :
  pool_ok p → py_item (kp_k p) layer = Ok (l, t) → kp_v p !! l = Some tv → Forall (λ i, 0 <= i < kp_slots p) ids →
  ∃ k v, gather_kv p layer (slots_1d ids) None = Ok (k, v) ∧
    same_tokens (Z.to_nat (kp_heads p)) (tokens_of k) (slot_token (kp_dim p) t <$> ids) ∧
    same_tokens (Z.to_nat (kp_heads p)) (tokens_of v) (slot_token (kp_dim p) tv <$> ids).
Proof.
  intros Hok Hl Hv Hids. destruct (gather_kv_spec p layer l t ids Hok Hl Hids) as (k & v & Hg & Hsk & Hsv & Hget).
  exists k, v. split; [done|]. apply py_item_ok in Hl.
  assert (∀ (x y : T), (∀ q s c h, ids !! q = Some s → (h < Z.to_nat (kp_heads p))%nat → (c < Z.to_nat (kp_dim p))%nat →
      t_get x [Z.of_nat q; Z.of_nat h; Z.of_nat c] = t_get y [s; 0; Z.of_nat h; Z.of_nat c]) →
    t_shape x = [Z.of_nat (List.length ids); kp_heads p; kp_dim p] →
    same_tokens (Z.to_nat (kp_heads p)) (tokens_of x) (slot_token (kp_dim p) y <$> ids)) as Hsame.
  { intros x y Hxy Hx. unfold tokens_of. rewrite Hx, Nat2Z.id. apply Forall2_fmap, Forall2_lookup. intros q.
    destruct (decide (q < List.length ids)%nat) as [Hq|Hq].
    - rewrite lookup_seq_lt by done. destruct (lookup_lt_is_Some_2 ids q Hq) as [s Hs]. rewrite Hs. constructor.
      intros h Hh. unfold slot_token. apply list_fmap_ext. intros ? c [-> Hc]%lookup_seq. by apply Hxy.
    - rewrite lookup_seq_ge, lookup_ge_None_2 by lia. constructor. }
  assert (∀ q s c h, ids !! q = Some s → (h < Z.to_nat (kp_heads p))%nat → (c < Z.to_nat (kp_dim p))%nat →
    t_get k [Z.of_nat q; Z.of_nat h; Z.of_nat c] = t_get t [s; 0; Z.of_nat h; Z.of_nat c] ∧
    t_get v [Z.of_nat q; Z.of_nat h; Z.of_nat c] = t_get tv [s; 0; Z.of_nat h; Z.of_nat c]) as Hboth.
  { intros q s c h Hq Hh Hc. apply (Hget q s (λ ix, t_get t (s :: 0 :: ix)) (λ ix, t_get tv (s :: 0 :: ix))); [done| |].
    - split; eexists; split; try done.
    - repeat constructor; lia. }
  split; apply Hsame; try done; intros; by apply Hboth.
Qed.

Lemma to_int32_id z : 0 <= z < 2 ^ 31 → to_int32 z = z.
Proof. intros Hz. unfold to_int32. rewrite Z.mod_small; lia. Qed.

Lemma to_int32_list l : Forall (λ z, 0 <= z < 2 ^ 31) l → to_int32 <$> l = l.
Proof. induction 1 as [|z l Hz _ IH]; [done|]. rewrite fmap_cons, to_int32_id, IH; done. Qed.

Lemma tokens_of_length (t : T) n h d : t_shape t = [n; h; d] → List.length (tokens_of t) = Z.to_nat n.
Proof. intros Ht. unfold tokens_of. by rewrite Ht, length_fmap, length_seq. Qed.

Lemma sdpa_offsets_ok m qo ko :
  sdpa_offsets m = Ok (qo, ko) → ∃ idx, pm_kv_indices m = Some idx ∧ pm_cu_q m = Some qo ∧ pm_kv_indptr m = Some ko ∧
    offsets_ok (pm_batch_size m) qo = true ∧ offsets_ok (pm_batch_size m) ko = true ∧
    List.last qo 0 = pm_num_query_tokens m ∧ List.last ko 0 = Z.of_nat (List.length (ix_values idx)).
Proof.
  unfold sdpa_offsets. destruct (pm_ragged m), (pm_cu_q m), (pm_kv_indptr m), (pm_kv_indices m) as [idx|]; try done.
  intros ([] & Ho%ensure_ok & Hr)%bind_ok. apply bind_ok in Hr as ([] & Hl%ensure_ok & [= -> ->]).
  apply andb_prop in Ho as [? ?]. apply andb_prop in Hl as [? ?]. exists idx. split_and!; try done; lia.
Qed.

Lemma offsets_range bs os : offsets_ok bs os = true → Forall (λ z, 0 <= z <= List.last os 0) os.
Proof.
  intros Ho. pose proof Ho as (H0' & _ & Hs)%offsets_ok_spec. apply Forall_lookup. intros n o Hn. split; [|by eapply last_lookup_max].
  destruct os as [|x os]; [done|]. injection H0' as ->. destruct n as [|n]; [by injection Hn as <-|].
  apply StronglySorted_inv in Hs as [_ Hle]. by eapply Forall_lookup_1 in Hle.
Qed.

(** *** The backends *)

Context `{Pages : !@FlashInferPaged F E T} {PageLaws : FlashInferPagedLaws}.
Context (plan_check : page_plan F → res unit).

(** The layer a backend was set up with and the layer it runs differ at most
    in the pool layer they use. *)
Definition same_geometry (proto l : paged_layer F) : Prop :=
  pl_heads proto = pl_heads l ∧ pl_kv_heads proto = pl_kv_heads l ∧ pl_head_dim proto = pl_head_dim l ∧
  pl_scale proto = pl_scale l ∧ pl_causal proto = pl_causal l.

(** The parts of the metadata of a step; every sequence that has pages fills its
    last one. *)
Record paged_step (m : paged_meta) (qo ko : list Z) (idx : index_tensor) : Prop := {
  ps_offsets : sdpa_offsets m = Ok (qo, ko);
  ps_indices : pm_kv_indices m = Some idx;
  ps_shape : ix_shape idx = [Z.of_nat (List.length (ix_values idx))];
  ps_fits : List.last qo 0 < 2 ^ 31 ∧ List.last ko 0 < 2 ^ 31;
  ps_last : ∃ last_page, pm_last_page_len m = Some last_page ∧
    ∀ n ks ke, pairs ko !! n = Some (ks, ke) → ks < ke → last_page !! n = Some 1;
}.

(** With one slot per page and a filled last page the keys are the whole span. *)
Lemma page_kv_len_full ks ke : ks < ke → page_kv_len (ke - ks) 1 = ke - ks.
Proof. unfold page_kv_len. lia. Qed.

(** What a result holds for the queries [P] of every sequence: the reference
    row over the slots of the sequence in the buffers [tk] and [tv]. *)
Definition computes_paged (l : paged_layer F) (q tk tv : T) (qo ko ids : list Z) (out : list (token (list E)))
    (P : Z → Z → Z → Prop) : Prop :=
  ∀ n qs qe ks ke i h, pairs qo !! n = Some (qs, qe) → pairs ko !! n = Some (ks, ke) →
    Z.of_nat i < qe - qs → (h < Z.to_nat (pl_heads l))%nat → P (qe - qs) (ke - ks) (Z.of_nat i) →
    ∃ o, out !! (Z.to_nat qs + i)%nat = Some o ∧
      o h = paged_row l (slice (tokens_of q) qs qe) (slot_token (pl_head_dim l) tk <$> slice ids ks ke)
              (slot_token (pl_head_dim l) tv <$> slice ids ks ke) i h.

Lemma zip_masks {M} (qo ko : list Z) (g : (Z * Z) * (Z * Z) → M) n qs qe ks ke :
  pairs qo !! n = Some (qs, qe) → pairs ko !! n = Some (ks, ke) →
  zip (zip (pairs qo) (pairs ko)) (g <$> zip (pairs qo) (pairs ko)) !! n = Some ((qs, qe), (ks, ke), g ((qs, qe), (ks, ke))).
Proof.
  intros Hq Hk. assert (zip (pairs qo) (pairs ko) !! n = Some ((qs, qe), (ks, ke))) as Hz by (by apply lookup_zip_Some).
  apply lookup_zip_Some. split; [done|]. by rewrite list_lookup_fmap, Hz.
Qed.

(** The loop of [SdpaPagedBackend.forward]. *)
Lemma segments_rows l (qt keys values : list (token (list E))) bs qo ko :
  paged_layer_ok l → offsets_ok bs qo = true → offsets_ok bs ko = true →
  List.last qo 0 = Z.of_nat (List.length qt) → List.last ko 0 = Z.of_nat (List.length keys) →
  let out := mjoin ((λ '((qs, qe), (ks, ke), mask), sdpa_segment l qt keys values qs qe ks ke mask)
    <$> zip (zip (pairs qo) (pairs ko))
          ((λ '((qs, qe), (ks, ke)), segment_mask (pl_causal l) (qe - qs) (ke - ks)) <$> zip (pairs qo) (pairs ko))) in
  ∀ n qs qe ks ke i h, pairs qo !! n = Some (qs, qe) → pairs ko !! n = Some (ks, ke) →
    Z.of_nat i < qe - qs → (h < Z.to_nat (pl_heads l))%nat →
    ∃ o, out !! (Z.to_nat qs + i)%nat = Some o ∧ o h = paged_row l (slice qt qs qe) (slice keys ks ke) (slice values ks ke) i h.
Proof.
  intros Hl Hqo Hko Hqlast Hklast out. unfold out. match goal with |- context [mjoin ?p] => set (pieces := p) end.
  assert (List.length qo = List.length ko) as Hlen.
  { unfold offsets_ok in Hqo, Hko. apply andb_prop in Hqo as [[? _]%andb_prop _]. apply andb_prop in Hko as [[? _]%andb_prop _]. lia. }
  assert (∀ n qs qe ks ke, pairs qo !! n = Some (qs, qe) → pairs ko !! n = Some (ks, ke) → pieces !! n =
    Some (sdpa_segment l qt keys values qs qe ks ke (segment_mask (pl_causal l) (qe - qs) (ke - ks)))) as Hpieces.
  { intros n qs qe ks ke Hqn Hkn. unfold pieces. by rewrite list_lookup_fmap, (zip_masks qo ko _ n qs qe ks ke). }
  assert (∀ n qs qe ks ke, pairs qo !! n = Some (qs, qe) → pairs ko !! n = Some (ks, ke) →
    0 <= qs <= qe ∧ qe <= Z.of_nat (List.length qt) ∧ 0 <= ks <= ke ∧ ke <= Z.of_nat (List.length keys)) as Hspan.
  { intros n qs qe ks ke Hqn Hkn. destruct (span_ok _ _ _ _ _ Hqo Hqn), (span_ok _ _ _ _ _ Hko Hkn). lia. }
  intros n qs qe ks ke i h Hqn Hkn Hi Hh. destruct (Hspan _ _ _ _ _ Hqn Hkn) as (? & ? & ? & ?).
  destruct (sdpa_segment_rows l qt keys values qs qe ks ke i h Hl) as [Hpl Hrow]; try done.
  destruct (Hrow Hi Hh) as (o & Ho & Hr). exists o. split; [|done].
  assert (Z.of_nat (List.length (mjoin (take n pieces))) = qs) as Hpre.
  { apply (offsets_prefix qo); [by apply (offsets_ok_spec _ _ Hqo)| |by apply pairs_lookup in Hqn as [? _]].
    intros n' a b Hab. destruct (lookup_lt_is_Some_2 (pairs ko) n') as [[a' b'] Hab'].
    { apply lookup_lt_Some in Hab. rewrite pairs_length in *. lia. }
    eexists. split; [by apply Hpieces|]. destruct (Hspan _ _ _ _ _ Hab Hab') as (? & ? & ? & ?).
    by apply (sdpa_segment_rows l qt keys values a b a' b' 0 0 Hl). }
  replace (Z.to_nat qs) with (List.length (mjoin (take n pieces))) by lia.
  rewrite (join_lookup pieces n _ i (Hpieces n qs qe ks ke Hqn Hkn)); [done|lia].
Qed.

Lemma sdpa_paged_rows l proto m qo ko idx plan q k v ids pool pool' lay tk tv :
  same_geometry proto l → paged_layer_ok l → paged_step m qo ko idx → sdpa_paged_plan (Some proto) m = Ok plan →
  pool_ok pool' → kp_page pool = 1 → kp_heads pool' = pl_kv_heads l → kp_dim pool' = pl_head_dim l →
  t_shape q = [List.last qo 0; pl_heads l; pl_head_dim l] → Forall (λ s, 0 <= s < kp_slots pool') (ix_values idx) →
  write_kv pool (pl_layer_id l) (slots_1d ids) k v = (pool', Ok ()) →
  py_item (kp_k pool') (pl_layer_id l) = Ok (lay, tk) → kp_v pool' !! lay = Some tv →
  ∃ out, sdpa_paged_forward l q k v (PagedCtx (HSdpa plan) false (slots_1d ids)) pool = (pool', Ok out) ∧
    computes_paged l q tk tv qo ko (ix_values idx) out (λ _ _ _, True).
Proof.
  intros (_ & _ & _ & _ & Hcausal) Hl [Hoff Hidx Hshape _ _] Hplan Hok Hpage Hheads Hdim Hq Hids Hw Hlk Hlv.
  destruct (sdpa_offsets_ok m qo ko Hoff) as (idx' & Hidx' & _ & _ & Hqo & Hko & _ & Hlast). rewrite Hidx in Hidx'. injection Hidx' as <-.
  unfold sdpa_paged_plan in Hplan. rewrite Hoff in Hplan. simpl in Hplan. rewrite Hidx in Hplan.
  apply bind_ok in Hplan as ([] & _ & [= <-]). rewrite Hcausal.
  unfold sdpa_paged_forward. cbn [pc_idle pc_handle pc_write sp_q_offsets sp_kv_offsets sp_indices sp_masks].
  rewrite Hq. cbn [lookup list_lookup default from_option]. unfold id. rewrite Z.eqb_refl, Hpage. simpl negb. cbn iota. rewrite Hw.
  assert (0 <= List.last qo 0) as Hpos.
  { pose proof (offsets_ok_spec _ _ Hqo) as (H0' & _ & Hs). by apply (last_lookup_max qo 0). }
  destruct (Z.eqb_spec (List.last qo 0) 0) as [Hz|Hz].
  { eexists. split; [reflexivity|]. intros n qs qe ks ke i h Hqn _ Hi. destruct (span_ok _ _ _ _ _ Hqo Hqn). lia. }
  rewrite Hshape. change (SlotTensor [Z.of_nat (List.length (ix_values idx))] true (ix_values idx)) with (slots_1d (ix_values idx)).
  destruct (gather_tokens pool' _ lay tk tv (ix_values idx) Hok Hlk Hlv Hids) as (keys & values & -> & Hkeys & Hvalues).
  eexists. split; [reflexivity|]. rewrite Hheads, Hdim in Hkeys, Hvalues.
  assert (List.length (tokens_of keys) = List.length (ix_values idx) ∧ List.length (tokens_of values) = List.length (ix_values idx)) as [Hkl Hvl].
  { by rewrite (same_tokens_length _ _ _ Hvalues), (same_tokens_length _ _ _ Hkeys), !length_fmap. }
  intros n qs qe ks ke i h Hqn Hkn Hi Hh _.
  destruct (segments_rows l (tokens_of q) (tokens_of keys) (tokens_of values) _ qo ko Hl Hqo Hko) with n qs qe ks ke i h
    as (o & Ho & Hr); try done; [rewrite (tokens_of_length q _ _ _ Hq); lia|by rewrite Hkl|].
  exists o. split; [done|]. rewrite Hr. unfold paged_row. rewrite <- !slice_fmap. destruct (span_ok _ _ _ _ _ Hko Hkn).
  apply ref_row_same; [by apply same_tokens_slice|by apply same_tokens_slice| |by apply paged_kv_head].
  apply Nat2Z.inj. rewrite !slice_length; rewrite ?Hkl, ?Hvl; try done; lia.
Qed.

Definition page_plan_of (l : paged_layer F) (qo ko last_page : list Z) (idx : index_tensor) : page_plan F :=
  PagePlan qo ko (ix_values idx) last_page (pl_heads l) (pl_kv_heads l) (pl_head_dim l) (pl_causal l) (pl_scale l).

(** A query that sees a key under the alignment with the last ones. *)
Definition sees (l : paged_layer F) (q_len kv_len i : Z) : Prop :=
  0 < kv_len ∧ (pl_causal l = true → 0 <= i + (kv_len - q_len)).

Lemma sees_visible l q_len kv_len i :
  sees l q_len kv_len i → ∃ j, 0 <= j < kv_len ∧ fi_visible (pl_causal l) (-1) q_len kv_len i j = true.
Proof.
  intros [Hk Hc]. exists 0. split; [lia|]. unfold fi_visible. simpl. rewrite andb_true_r.
  destruct (pl_causal l); simpl; [|done]. apply Z.leb_le. auto with lia.
Qed.

Lemma page_rows l m qo ko idx last_page f q k v ids pool pool' lay tk tv :
  paged_layer_ok l → paged_step m qo ko idx →
  (∀ n ks ke, pairs ko !! n = Some (ks, ke) → ks < ke → last_page !! n = Some 1) →
  pb_wrapper f = Some (Some (page_plan_of l qo ko last_page idx)) →
  pool_ok pool' → kp_heads pool' = pl_kv_heads l → kp_dim pool' = pl_head_dim l →
  t_shape q = [List.last qo 0; pl_heads l; pl_head_dim l] → Forall (λ s, 0 <= s < kp_slots pool') (ix_values idx) →
  write_kv pool (pl_layer_id l) (slots_1d ids) k v = (pool', Ok ()) →
  py_item (kp_k pool') (pl_layer_id l) = Ok (lay, tk) → kp_v pool' !! lay = Some tv → py_item (kp_v pool') (pl_layer_id l) = Ok (lay, tv) →
  ∃ out, page_forward f l q k v (PagedCtx HFlash false (slots_1d ids)) pool = (pool', Ok out) ∧
    computes_paged l q tk tv qo ko (ix_values idx) out (sees l).
Proof.
  intros Hl [Hoff Hidx Hshape _ _] Hlast_page Hplan Hok Hheads Hdim Hq Hids Hw Hlk Hlv Hlv'.
  destruct (sdpa_offsets_ok m qo ko Hoff) as (idx' & Hidx' & _ & _ & Hqo & Hko & _ & Hlast). rewrite Hidx in Hidx'. injection Hidx' as <-.
  unfold page_forward. cbn [pc_idle pc_handle pc_write]. rewrite Hw. unfold kv_buffer, k_buffer, v_buffer. rewrite Hlk, Hlv'. simpl.
  rewrite Hplan. eexists. split; [reflexivity|]. intros n qs qe ks ke i h Hqn Hkn Hi Hh Hsees.
  destruct Hok as (_ & _ & _ & Hsk & Hsv). destruct (span_ok _ _ _ _ _ Hqo Hqn), (span_ok _ _ _ _ _ Hko Hkn).
  pose proof (tokens_of_length q _ _ _ Hq) as Hql. pose proof Hqn as [Hq1 Hq2]%pairs_lookup. pose proof Hkn as [Hk1 Hk2]%pairs_lookup.
  destruct (lookup_lt_is_Some_2 (slice (tokens_of q) qs qe) i) as [t Ht].
  { apply Nat2Z.inj_lt. rewrite slice_length; lia. }
  apply py_item_ok in Hlk. assert (t_shape tk = pool_shape pool') as Htk by (by apply Hsk, (list_elem_of_lookup_2 _ lay)).
  assert (t_shape tv = pool_shape pool') as Htv by (by apply Hsv, (list_elem_of_lookup_2 _ lay)).
  destruct (fip_run_row (page_plan_of l qo ko last_page idx) (tokens_of q) tk tv (kp_slots pool') n qs qe ks ke 1 i h t) as (o & Ho & Hr);
    simpl; rewrite ?(page_kv_len_full ks ke) by (destruct Hsees; lia); try done; try lia.
  - by rewrite Htk, <- Hheads, <- Hdim.
  - congruence.
  - by apply (offsets_ok_spec _ _ Hqo).
  - apply (Hlast_page n ks ke Hkn). destruct Hsees. lia.
  - by apply sees_visible.
  - exists o. split; [done|]. rewrite Hr. simpl. rewrite (page_kv_len_full ks ke) by (destruct Hsees; lia).
    replace (ks + (ke - ks)) with ke by lia. unfold paged_row.
    assert (qe - qs = Z.of_nat (List.length (slice (tokens_of q) qs qe))) as -> by (rewrite slice_length; lia).
    assert (ke - ks = Z.of_nat (List.length (slot_token (pl_head_dim l) tk <$> slice (ix_values idx) ks ke))) as ->
      by (rewrite length_fmap, slice_length; lia).
    apply (sequence_row (as_attn l)); [apply Hl|by rewrite !length_fmap|done].
Qed.

(** A backend set up with a layer, whatever it planned since. *)
Definition set_up (proto : paged_layer F) (b : paged_backend (F:=F)) : Prop :=
  b = PSdpa (Some proto) ∨ ∃ w, b = PFlash (PageBackend (Some proto) (Some w)).

Lemma init_set_up proto : set_up proto (paged_init_state proto (PSdpa None)) ∧ set_up proto (paged_init_state proto (PFlash (PageBackend None None))).
Proof. split; [by left|by right; eexists]. Qed.

Lemma plan_set_up proto m b b' r : set_up proto b → paged_plan plan_check m b = (b', r) → set_up proto b'.
Proof.
  intros [-> | [w ->]]; simpl; [by intros [= <- _]; left|]. unfold page_plan_into. cbn [pb_wrapper pb_proto].
  intros Hp. right. repeat case_match; simplify_eq; eauto.
Qed.

Definition queries_of (l : paged_layer F) (b : paged_backend (F:=F)) : Z → Z → Z → Prop :=
  match b with PSdpa _ => λ _ _ _, True | PFlash _ => sees l end.

(** C24: Attention over the pool.  The metadata are well-formed when their
    offsets and indices agree, fit in 32 bits, and give every sequence that has
    pages a filled last page.  A backend set up with a layer of the same
    geometry and planned, whatever it planned before, with well-formed metadata, run on any such layer,
    first writes the step's keys and values to their slots, and then gives
    for every query of every sequence the reference row over the slots the
    metadata makes visible to that sequence, in the buffers of the layer
    after the write; SDPA for all queries, those that see nothing included,
    FlashInfer for those that see a slot. *)
Theorem paged_backends_exact l proto b0 b m hdl qo ko idx q k v ids pool pool' :
  set_up proto b0 → same_geometry proto l → paged_layer_ok l → paged_step m qo ko idx →
  paged_plan plan_check m b0 = (b, Ok hdl) →
  pool_ok pool → kp_heads pool = pl_kv_heads l → kp_dim pool = pl_head_dim l → kp_slots pool <= 2 ^ 31 →
  t_shape q = [List.last qo 0; pl_heads l; pl_head_dim l] →
  Forall (λ s, 0 <= s < kp_slots pool) (ix_values idx) → Forall (λ s, 0 <= s < kp_slots pool) ids →
  write_kv pool (pl_layer_id l) (slots_1d ids) k v = (pool', Ok ()) →
  ∃ out lay tk tv, paged_forward b l q k v (PagedCtx hdl false (slots_1d ids)) pool = (pool', Ok out) ∧
    py_item (kp_k pool') (pl_layer_id l) = Ok (lay, tk) ∧ kp_v pool' !! lay = Some tv ∧
    computes_paged l q tk tv qo ko (ix_values idx) out (queries_of l b).
Proof.
  intros Hset Hgeo Hl Hstep Hplan Hok Hheads Hdim Hslots Hq Hidx Hids Hw.
  destruct (write_kv_spec pool _ ids k v pool' Hok Hids Hw) as (lay & t & Hlay & Hok' & Hs' & Hh' & Hd' & Hlen' & Hk & Hv & _).
  destruct (py_item_length (kp_k pool) (kp_k pool') _ lay t (eq_sym Hlen') Hlay) as [tk Htk].
  pose proof Hok' as (_ & _ & Hkv & _). destruct (py_item_length (kp_k pool') (kp_v pool') _ lay tk Hkv Htk) as [tv Htv].
  rewrite <- Hs' in Hidx. pose proof (py_item_ok _ _ _ _ Htv) as Htv'.
  unfold paged_forward. rewrite Hq, Hk, Hv, Hheads, Hdim, !Z.eqb_refl, bool_decide_eq_true_2 by done. simpl negb. cbn iota.
  cbn [pc_write]. destruct Hset as [-> | [w ->]].
  - simpl in Hplan. injection Hplan as <- Hplan. apply bind_ok in Hplan as (plan & Hplan & [= <-]).
    destruct (sdpa_paged_rows l proto m qo ko idx plan q k v ids pool pool' lay tk tv) as (out & Ho & Hc); try done.
    { by apply Hok. } { congruence. } { congruence. } exists out, lay, tk, tv. done.
  - pose proof Hstep as [Hoff Hind _ [Hfq Hfk] (lp & Hlp & Hlast)].
    destruct (sdpa_offsets_ok m qo ko Hoff) as (idx' & Hidx' & Hcq & Hck & Hqo & Hko & _ & _). rewrite Hind in Hidx'. injection Hidx' as <-.
    destruct Hgeo as (G1 & G2 & G3 & G4 & G5). unfold paged_plan, page_plan_into in Hplan.
    cbn [pb_wrapper pb_proto] in Hplan. rewrite Hcq, Hck, Hind, Hlp, G1, G2, G3, G4, G5 in Hplan.
    rewrite !to_int32_list in Hplan by (eapply Forall_impl; [first [exact Hidx|by eapply offsets_range]|simpl; lia]).
    destruct (plan_check _); [|done]. injection Hplan as <- <-.
    destruct (page_rows l m qo ko idx (to_int32 <$> lp) (PageBackend (Some proto) (Some (Some (page_plan_of l qo ko (to_int32 <$> lp) idx))))
      q k v ids pool pool' lay tk tv) as (out & Ho & Hc); try done; [|congruence|congruence|].
    { intros n ks ke Hn Hlt. by rewrite list_lookup_fmap, (Hlast n ks ke Hn Hlt). }
    exists out, lay, tk, tv. done.
Qed.

(** A replay that succeeds leaves the backend and the handle that a fresh
    planning with the new metadata would: the graph captured with the first
    handle then computes the new step. *)
Theorem replay_equals_plan m m' b b1 b2 hdl hdl' :
  paged_plan plan_check m b = (b1, Ok hdl) → paged_replay plan_check hdl m' b1 = (b2, Ok hdl') →
  paged_plan plan_check m' b1 = (b2, Ok hdl').
Proof.
  destruct b as [proto|f]; simpl.
  - intros [= <- Hp] [= <- Hr]. apply bind_ok in Hp as (p & Hp & [= <-]). apply bind_ok in Hr as (p' & Hr & [= <-]). simpl.
    destruct proto as [proto|]; [|done]. unfold sdpa_paged_plan in *. unfold sdpa_paged_replay in Hr.
    apply bind_ok in Hp as ([qo ko] & _ & Hp). destruct (pm_kv_indices m) as [idx|]; [|done].
    apply bind_ok in Hp as ([] & Hidx%ensure_ok & [= <-]). apply bind_ok in Hr as (offs & -> & Hr).
    apply bind_ok in Hr as ([] & Heq%ensure_ok & Hr). apply bool_decide_eq_true in Heq as ->. simpl in *.
    destruct (pm_kv_indices m') as [idx'|]; [|done]. apply bind_ok in Hr as ([] & Hs%ensure_ok & [= <-]).
    apply andb_prop in Hs as [Hs%bool_decide_eq_true Hd%String.eqb_eq]. by rewrite Hs, Hd, Hidx.
  - destruct (page_plan_into plan_check m f) as [f1 r] eqn:Ef. intros [= <- Hr]. destruct r; [|done]. injection Hr as <-. simpl.
    destruct (page_plan_into plan_check m' f1) as [f2 r']. intros [= <- Hr']. destruct r'; [|done]. by injection Hr' as <-.
Qed.
End paged_props.

(** ** Slot indices *)

Definition nonneg (lens : list Z) : Prop := Forall (λ z, 0 <= z) lens.

Lemma cu_of_lookup lens n : (n ≤ List.length lens)%nat → cu_of lens !! n = Some (foldr Z.add 0 (take n lens)).
Proof.
  intros Hn. destruct n as [|n]; [by rewrite take_0|]. change (cumsum 0 lens !! n = Some (foldr Z.add 0 (take (S n) lens))).
  apply cumsum_lookup. split; [lia|]. by rewrite Z.add_0_l.
Qed.

Lemma cu_of_nth lens n : (n ≤ List.length lens)%nat → nth n (cu_of lens) 0 = foldr Z.add 0 (take n lens).
Proof. intros Hn. by rewrite nth_lookup, cu_of_lookup. Qed.

Lemma sum_nonneg lens : nonneg lens → 0 <= foldr Z.add 0 lens.
Proof. induction 1 as [|z lens Hz _ IH]; simpl; lia. Qed.

(** The slots of sample [b]: its prefix rows, then its visible suffix rows. *)
Definition prefix_slots (real_lens : list Z) (base : Z) (b : nat) (real : Z) : list Z :=
  (λ j, base + foldr Z.add 0 (take b real_lens) + Z.of_nat j) <$> seq 0 (Z.to_nat real).
Definition suffix_slots (base stride visible : Z) (b : nat) : list Z :=
  (λ j, base + Z.of_nat b * stride + Z.of_nat j) <$> seq 0 (Z.to_nat visible).

(** [searchsorted] finds the sequence a position lies in. *)
Lemma searchsorted_segment lens n x :
  nonneg lens → (n < List.length lens)%nat →
  foldr Z.add 0 (take n lens) <= x < foldr Z.add 0 (take (S n) lens) → searchsorted_right (drop 1 (cu_of lens)) x = n.
Proof.
  intros Hl Hn Hx. pose proof (cumsum_sorted 0 lens Hl) as Hs. fold (cu_of lens) in Hs.
  pose proof (below_length (cu_of lens) n _ _ x Hs (cu_of_lookup lens n ltac:(lia)) (cu_of_lookup lens (S n) ltac:(lia)) Hx) as Hc.
  assert (0 <= x) as H0.
  { assert (nonneg (take n lens)) as Ht by (by apply Forall_take). pose proof (sum_nonneg _ Ht). lia. }
  unfold searchsorted_right. change (drop 1 (cu_of lens)) with (cumsum 0 lens). unfold cu_of in Hc.
  rewrite filter_cons, decide_True in Hc by lia. simpl in Hc. lia.
Qed.

Lemma join_index {A} (ls : list (list A)) x :
  (x < List.length (mjoin ls))%nat →
  ∃ n l i, ls !! n = Some l ∧ (i < List.length l)%nat ∧ x = (List.length (mjoin (take n ls)) + i)%nat.
Proof.
  revert x. induction ls as [|l ls IH]; intros x Hx; [simpl in Hx; lia|]. simpl in Hx. rewrite length_app in Hx.
  destruct (decide (x < List.length l)%nat) as [Hl|Hl]; [by exists 0%nat, l, x|].
  destruct (IH (x - List.length l)%nat) as (n & l' & i & Hn & Hi & Heq); [lia|].
  exists (S n), l', i. split; [done|]. split; [done|]. simpl. rewrite length_app. lia.
Qed.

Definition full_lens (real_lens : list Z) (visible : Z) : list Z := (λ real, real + visible) <$> real_lens.

Definition slot_pieces (real_lens : list Z) (prefix_base suffix_base stride visible : Z) : list (list Z) :=
  (λ '(b, real), prefix_slots real_lens prefix_base b real ++ suffix_slots suffix_base stride visible b)
    <$> zip (seq 0 (List.length real_lens)) real_lens.

Lemma slot_pieces_lookup lens pb sb st vis n real :
  lens !! n = Some real → slot_pieces lens pb sb st vis !! n = Some (prefix_slots lens pb n real ++ suffix_slots sb st vis n).
Proof.
  intros Hn. unfold slot_pieces. rewrite list_lookup_fmap.
  assert (zip (seq 0 (List.length lens)) lens !! n = Some (n, real)) as ->; [|done].
  apply lookup_zip_Some. split; [|done]. apply lookup_seq. split; [done|by eapply lookup_lt_Some].
Qed.

Lemma slot_pieces_length lens pb sb st vis : List.length (slot_pieces lens pb sb st vis) = List.length lens.
Proof. unfold slot_pieces. rewrite length_fmap, length_zip_with, length_seq. lia. Qed.

Lemma slot_pieces_prefix lens pb sb st vis n :
  nonneg lens → 0 <= vis → (n ≤ List.length lens)%nat →
  Z.of_nat (List.length (mjoin (take n (slot_pieces lens pb sb st vis)))) = foldr Z.add 0 (take n (full_lens lens vis)).
Proof.
  intros Hl Hv Hn. apply (offsets_prefix (cu_of (full_lens lens vis))); [done| |].
  - intros n' a b [Ha Hb]%pairs_lookup. pose proof (lookup_lt_Some _ _ _ Hb) as Hlt.
    unfold cu_of, full_lens in Hlt. simpl in Hlt. rewrite cumsum_length, length_fmap in Hlt.
    destruct (lookup_lt_is_Some_2 lens n' ltac:(lia)) as [real Hr].
    rewrite cu_of_lookup in Ha, Hb by (unfold full_lens; rewrite length_fmap; lia). injection Ha as <-. injection Hb as <-.
    eexists. split; [by apply slot_pieces_lookup|].
    rewrite (take_S_r _ n' (real + vis)) by (unfold full_lens; by rewrite list_lookup_fmap, Hr).
    rewrite foldr_app, length_app. unfold prefix_slots, suffix_slots. rewrite !length_fmap, !length_seq. simpl.
    pose proof (Forall_lookup_1 _ _ _ _ Hl Hr). simpl in *.
    assert (∀ acc l, foldr Z.add acc l = foldr Z.add 0 l + acc) as Hacc.
    { intros acc l. induction l as [|z l IH]; simpl; lia. }
    rewrite Hacc. lia.
  - apply cu_of_lookup. unfold full_lens. by rewrite length_fmap.
Qed.

Definition visible_slots lens pb sb st vis : list Z := mjoin (slot_pieces lens pb sb st vis).

Lemma visible_slots_length lens pb sb st vis :
  nonneg lens → 0 <= vis → Z.of_nat (List.length (visible_slots lens pb sb st vis)) = foldr Z.add 0 (full_lens lens vis).
Proof.
  intros Hl Hv. pose proof (slot_pieces_prefix lens pb sb st vis (List.length lens) Hl Hv (le_n _)) as Hp.
  rewrite firstn_all2 in Hp by (by rewrite slot_pieces_length). rewrite firstn_all2 in Hp by (unfold full_lens; by rewrite length_fmap).
  exact Hp.
Qed.

(** One position of the list, as the code computes it. *)
Lemma visible_slot_at lens pb sb st vis x :
  nonneg lens → 0 <= vis → (x < List.length (visible_slots lens pb sb st vis))%nat →
  let cu_full := cu_of (full_lens lens vis) in
  let seg := searchsorted_right (drop 1 cu_full) (Z.of_nat x) in
  ∃ real, lens !! seg = Some real ∧
    visible_slots lens pb sb st vis !! x = Some (let pos := Z.of_nat x - nth seg cu_full 0 in
      if pos <? real then pb + nth seg (cu_of lens) 0 + pos else sb + Z.of_nat seg * st + (pos - real)).
Proof.
  intros Hl Hv Hx cu_full seg. destruct (join_index _ x Hx) as (n & l & i & Hn & Hi & Heq).
  pose proof (lookup_lt_Some _ _ _ Hn) as Hlt. rewrite slot_pieces_length in Hlt.
  destruct (lookup_lt_is_Some_2 lens n Hlt) as [real Hr]. rewrite (slot_pieces_lookup lens pb sb st vis n real Hr) in Hn. injection Hn as <-.
  pose proof (slot_pieces_prefix lens pb sb st vis n Hl Hv ltac:(lia)) as Hp. pose proof (Forall_lookup_1 _ _ _ _ Hl Hr) as Hpos. simpl in Hpos.
  assert (nonneg (full_lens lens vis)) as Hfl.
  { apply Forall_fmap. eapply Forall_impl; [exact Hl|]. simpl. lia. }
  pose proof (slot_pieces_prefix lens pb sb st vis (S n) Hl Hv ltac:(lia)) as Hp'.
  rewrite (take_S_r _ n _ (slot_pieces_lookup lens pb sb st vis n real Hr)), join_app, length_app in Hp'. simpl in Hp'.
  rewrite app_nil_r in Hp'.
  assert (seg = n) as ->.
  { apply searchsorted_segment; [done|by unfold full_lens; rewrite length_fmap|]. rewrite <- Hp, <- Hp'. lia. }
  exists real. split; [done|]. unfold cu_full. rewrite !cu_of_nth by (unfold full_lens; rewrite ?length_fmap; lia).
  rewrite Heq. unfold visible_slots. rewrite (join_lookup _ n _ i (slot_pieces_lookup lens pb sb st vis n real Hr) Hi).
  replace (Z.of_nat (List.length (mjoin (take n (slot_pieces lens pb sb st vis))) + i) - foldr Z.add 0 (take n (full_lens lens vis)))
    with (Z.of_nat i) by lia.
  unfold prefix_slots, suffix_slots in Hi |- *. rewrite length_app, !length_fmap, !length_seq in Hi.
  destruct (Z.ltb_spec (Z.of_nat i) real).
  - rewrite lookup_app_l by (rewrite length_fmap, length_seq; lia). rewrite list_lookup_fmap, lookup_seq_lt by lia. done.
  - rewrite lookup_app_r by (rewrite length_fmap, length_seq; lia). rewrite length_fmap, length_seq, list_lookup_fmap, lookup_seq_lt by lia.
    simpl. f_equal. lia.
Qed.

Lemma last_cumsum acc l d : List.last (acc :: cumsum acc l) d = acc + foldr Z.add 0 l.
Proof.
  revert acc. induction l as [|x l IH]; intros acc; [simpl; lia|].
  change (List.last ((acc + x) :: cumsum (acc + x) l) d = acc + (x + foldr Z.add 0 l)). rewrite IH. lia.
Qed.

Lemma last_cu lens : List.last (cu_of lens) 0 = foldr Z.add 0 lens.
Proof. apply last_cumsum. Qed.

(** The slots of an attention pass.  For lengths that are not negative
    and a visible suffix within its stride, the list is, sample by sample, the
    packed prefix rows of the sample and then the first rows of its suffix
    block, each as a 32-bit integer; the total the caller may supply changes
    nothing.  A visible suffix beyond its stride is refused. *)
Theorem visibility_exact lens pb sb st vis n_full :
  nonneg lens → n_full = None ∨ n_full = Some (foldr Z.add 0 (full_lens lens vis)) →
  visibility_indices lens pb sb st vis n_full =
  if (vis <? 0) || (st <? vis) then Err ValueError else Ok (to_int32 <$> visible_slots lens pb sb st vis).
Proof.
  intros Hl Hn. unfold visibility_indices. destruct ((vis <? 0) || (st <? vis)) eqn:E; [done|].
  apply orb_false_iff in E as [Hv%Z.ltb_ge _]. simpl negb. cbn [ensure]. fold (full_lens lens vis).
  pose proof (visible_slots_length lens pb sb st vis Hl Hv) as Hlen.
  assert (match n_full with Some n => n | None => List.last (cu_of (full_lens lens vis)) 0 end = Z.of_nat (List.length (visible_slots lens pb sb st vis))) as Htot.
  { rewrite Hlen, last_cu. by destruct Hn as [-> | ->]. }
  cbn [mbind res_bind]. rewrite Htot. destruct (Z.leb_spec 0 (Z.of_nat (List.length (visible_slots lens pb sb st vis)))); [|lia].
  cbn [ensure mbind res_bind]. rewrite Nat2Z.id. apply rmap_ok, Forall2_lookup. intros x.
  destruct (decide (x < List.length (visible_slots lens pb sb st vis))%nat) as [Hx|Hx].
  - rewrite lookup_seq_lt by done. destruct (visible_slot_at lens pb sb st vis x Hl Hv Hx) as (real & Hr & Hs).
    rewrite list_lookup_fmap, Hs. constructor. cbv beta zeta. change (0 + x)%nat with x. by rewrite Hr.
  - rewrite lookup_seq_ge, lookup_ge_None_2 by (rewrite ?length_fmap; lia). constructor.
Qed.

Lemma sum_take_mono lens b b' : nonneg lens → (b ≤ b')%nat → foldr Z.add 0 (take b lens) <= foldr Z.add 0 (take b' lens).
Proof.
  intros Hl Hb. replace (take b' lens) with (take b lens ++ take (b' - b) (drop b lens)).
  2: { rewrite <- (take_drop b (take b' lens)). f_equal; [rewrite take_take; f_equal; lia|].
       rewrite take_drop_commute. by replace (b + (b' - b))%nat with b' by lia. }
  rewrite foldr_app. assert (nonneg (take (b' - b) (drop b lens))) as Hn by (by apply Forall_take, Forall_drop).
  pose proof (sum_nonneg _ Hn) as Hs. generalize dependent (foldr Z.add 0 (take (b' - b) (drop b lens))). intros c Hc.
  induction (take b lens) as [|z l IH]; simpl; lia.
Qed.

Lemma sum_take_S lens b real : lens !! b = Some real → foldr Z.add 0 (take (S b) lens) = foldr Z.add 0 (take b lens) + real.
Proof.
  intros Hb. rewrite (take_S_r _ _ _ Hb), foldr_app. simpl. generalize (take b lens). intros l. rewrite Z.add_0_r.
  induction l as [|z l IH]; simpl; lia.
Qed.

Lemma elem_prefix_slots lens base b real s :
  s ∈ prefix_slots lens base b real ↔ base + foldr Z.add 0 (take b lens) <= s < base + foldr Z.add 0 (take b lens) + real.
Proof.
  unfold prefix_slots. rewrite list_elem_of_fmap. split.
  - intros (j & -> & [_ Hj]%elem_of_seq). lia.
  - intros Hs. exists (Z.to_nat (s - (base + foldr Z.add 0 (take b lens)))). split; [lia|]. apply elem_of_seq. lia.
Qed.

Lemma elem_suffix_slots base st vis b s :
  s ∈ suffix_slots base st vis b ↔ base + Z.of_nat b * st <= s < base + Z.of_nat b * st + vis.
Proof.
  unfold suffix_slots. rewrite list_elem_of_fmap. split.
  - intros (j & -> & [_ Hj]%elem_of_seq). lia.
  - intros Hs. exists (Z.to_nat (s - (base + Z.of_nat b * st))). split; [lia|]. apply elem_of_seq. lia.
Qed.

(** The slots of two samples do not meet. *)
Lemma pieces_apart lens pb sb st vis b b' x x' s :
  nonneg lens → 0 <= vis <= st → pb + foldr Z.add 0 lens <= sb → (b < b')%nat →
  slot_pieces lens pb sb st vis !! b = Some x → slot_pieces lens pb sb st vis !! b' = Some x' → s ∈ x → s ∉ x'.
Proof.
  intros Hl Hv Hsb Hb Hx Hx'. pose proof (lookup_lt_Some _ _ _ Hx') as Hlt. rewrite slot_pieces_length in Hlt.
  destruct (lookup_lt_is_Some_2 lens b ltac:(lia)) as [r Hr], (lookup_lt_is_Some_2 lens b' Hlt) as [r' Hr'].
  rewrite (slot_pieces_lookup _ _ _ _ _ _ _ Hr) in Hx. rewrite (slot_pieces_lookup _ _ _ _ _ _ _ Hr') in Hx'.
  injection Hx as <-. injection Hx' as <-. rewrite !elem_of_app, !elem_prefix_slots, !elem_suffix_slots.
  pose proof (sum_take_mono lens (S b) b' Hl Hb) as M1. rewrite (sum_take_S _ _ _ Hr) in M1.
  pose proof (sum_take_mono lens (S b') (List.length lens) Hl Hlt) as M2. rewrite (sum_take_S _ _ _ Hr'), firstn_all in M2.
  pose proof (Forall_lookup_1 _ _ _ _ Hl Hr). pose proof (Forall_lookup_1 _ _ _ _ Hl Hr'). simpl in *.
  assert (0 <= foldr Z.add 0 (take b lens)) by (apply sum_nonneg; by apply Forall_take).
  assert (Z.of_nat b * st + st <= Z.of_nat b' * st) by nia. nia.
Qed.

Lemma padded_write_lookup lens n base sentinel ws b real j :
  padded_write_indices lens n base sentinel = Ok ws → lens !! b = Some real → (j < Z.to_nat n)%nat →
  ws !! (b * Z.to_nat n + j)%nat =
  Some (if Z.of_nat j <? real then base + foldr Z.add 0 (take b lens) + Z.of_nat j else sentinel).
Proof.
  unfold padded_write_indices. intros ([] & _ & [= <-])%bind_ok Hb Hj. pose proof (lookup_lt_Some _ _ _ Hb) as Hlt.
  match goal with |- mjoin ?p !! _ = _ => set (pieces := p) end.
  assert (pieces !! b = Some ((λ j, if Z.of_nat j <? real then base + nth b (cu_of lens) 0 + Z.of_nat j else sentinel)
    <$> seq 0 (Z.to_nat n))) as Hp.
  { unfold pieces. rewrite list_lookup_fmap. assert (zip (seq 0 (List.length lens)) lens !! b = Some (b, real)) as ->; [|done].
    apply lookup_zip_Some. split; [by apply lookup_seq|done]. }
  assert (List.length (mjoin (take b pieces)) = b * Z.to_nat n)%nat as Hpre.
  { rewrite (join_uniform_length _ (Z.to_nat n)).
    - rewrite length_take. unfold pieces. rewrite length_fmap, length_zip_with, length_seq. lia.
    - intros l Hin. apply list_elem_of_lookup_1 in Hin as [m Hm]. apply lookup_take_Some in Hm as [Hm _]. unfold pieces in Hm.
      rewrite list_lookup_fmap in Hm. destruct (zip _ lens !! m) as [[? ?]|]; [|done]. injection Hm as <-. by rewrite length_fmap, length_seq. }
  rewrite <- Hpre, (join_lookup pieces b _ j Hp) by (by rewrite length_fmap, length_seq).
  by rewrite list_lookup_fmap, lookup_seq_lt, cu_of_nth by lia.
Qed.

(** The part of [l] that belongs to sequence [b] under the offsets [os] *)
Definition span_of {A} (os : list Z) (l : list A) (b : nat) : list A := slice l (nth b os 0) (nth (S b) os 0).

Lemma cut_pieces_join {A} (pieces : list (list A)) n p :
  pieces !! n = Some p →
  slice (mjoin pieces) (Z.of_nat (List.length (mjoin (take n pieces)))) (Z.of_nat (List.length (mjoin (take n pieces)) + List.length p)) = p.
Proof.
  intros Hp. rewrite <- (take_drop_middle pieces n p Hp) at 1. unfold slice. rewrite join_app, Nat2Z.id.
  replace (Z.to_nat (Z.of_nat (List.length (mjoin (take n pieces)) + List.length p) - Z.of_nat (List.length (mjoin (take n pieces)))))
    with (List.length p) by lia.
  rewrite drop_app_length. simpl. by rewrite take_app_length.
Qed.

(** The span of a sample in the slots of a pass is its piece. *)
Lemma span_visible lens pb sb st vis b len :
  nonneg lens → 0 <= vis → lens !! b = Some len →
  span_of (cu_of (full_lens lens vis)) (visible_slots lens pb sb st vis) b = prefix_slots lens pb b len ++ suffix_slots sb st vis b.
Proof.
  intros Hl Hv Hb. pose proof (lookup_lt_Some _ _ _ Hb) as Hlt. pose proof (slot_pieces_lookup lens pb sb st vis b len Hb) as Hp.
  unfold span_of. rewrite !cu_of_nth by (unfold full_lens; rewrite length_fmap; lia).
  rewrite <- (slot_pieces_prefix lens pb sb st vis b Hl Hv) by lia. rewrite <- (slot_pieces_prefix lens pb sb st vis (S b) Hl Hv) by lia.
  rewrite (take_S_r _ b _ Hp), join_app, length_app. simpl (mjoin [_]). rewrite app_nil_r. by apply cut_pieces_join.
Qed.

Lemma span_past_prefix lens base sb st vis b real j :
  (j < Z.to_nat vis)%nat → 0 <= real →
  (prefix_slots lens base b real ++ suffix_slots sb st vis b) !! (Z.to_nat real + j)%nat
  = Some (sb + Z.of_nat b * st + Z.of_nat j).
Proof.
  intros Hj Hr. unfold prefix_slots, suffix_slots. rewrite lookup_app_r by (rewrite length_fmap, length_seq; lia).
  rewrite length_fmap, length_seq, list_lookup_fmap.
  replace (Z.to_nat real + j - Z.to_nat real)%nat with j by lia. by rewrite lookup_seq_lt.
Qed.

Lemma visible_slots_int32 lens base sb st vis :
  nonneg lens → 0 <= vis <= st → 0 <= base → base + foldr Z.add 0 lens <= sb →
  sb + Z.of_nat (List.length lens) * st <= 2 ^ 31 →
  to_int32 <$> visible_slots lens base sb st vis = visible_slots lens base sb st vis.
Proof.
  intros Hl Hv Hb Hsb Hfit. apply to_int32_list, Forall_forall. intros s Hs.
  unfold visible_slots in Hs. apply list_elem_of_join in Hs as (p & Hs & Hp).
  apply list_elem_of_lookup_1 in Hp as [n Hn]. pose proof (lookup_lt_Some _ _ _ Hn) as Hlt.
  rewrite slot_pieces_length in Hlt. destruct (lookup_lt_is_Some_2 lens n Hlt) as [r Hr].
  rewrite (slot_pieces_lookup _ _ _ _ _ _ _ Hr) in Hn. injection Hn as <-.
  rewrite elem_of_app, elem_prefix_slots, elem_suffix_slots in Hs.
  pose proof (sum_take_mono lens (S n) (List.length lens) Hl ltac:(lia)) as Hm.
  rewrite (sum_take_S _ _ _ Hr), firstn_all in Hm.
  assert (0 <= foldr Z.add 0 (take n lens)) by (by apply sum_nonneg, Forall_take).
  assert (0 <= Z.of_nat n * st) by nia. assert (Z.of_nat n * st + st <= Z.of_nat (List.length lens) * st) by nia.
  pose proof (sum_nonneg _ Hl). destruct Hs as [Hs|Hs]; nia.
Qed.

(** C31: Writes and passes meet.  [visibility_indices] succeeds on the lengths of
    a batch, and in its result the span of every sample holds first the slots
    [padded_write_indices] gave to the sample's real tokens, in order, and then
    the first slots of the sample's suffix block, while the padding of the sample
    goes to the sentinel and no pass of another sample sees a slot the sample
    wrote.  The suffix blocks lie after the prefix, and all slots fit in 32
    bits. *)
Theorem passes_see_their_sample lens n base sentinel ws sb st vis n_full :
  padded_write_indices lens n base sentinel = Ok ws → nonneg lens → Forall (λ r, r <= n) lens → 0 <= vis <= st →
  0 <= base → base + foldr Z.add 0 lens <= sb → sb + Z.of_nat (List.length lens) * st <= 2 ^ 31 →
  n_full = None ∨ n_full = Some (foldr Z.add 0 (full_lens lens vis)) →
  ∃ vs, visibility_indices lens base sb st vis n_full = Ok vs ∧
    Z.of_nat (List.length vs) = foldr Z.add 0 (full_lens lens vis) ∧
    ∀ b real, lens !! b = Some real →
      let span := span_of (cu_of (full_lens lens vis)) vs in
      Z.of_nat (List.length (span b)) = real + vis ∧
      (∀ j, Z.of_nat j < real → ∃ s, ws !! (b * Z.to_nat n + j)%nat = Some s ∧ span b !! j = Some s ∧
         ∀ b', (b' < List.length lens)%nat → b' ≠ b → s ∉ span b') ∧
      (∀ j, Z.of_nat j < vis → span b !! (Z.to_nat real + j)%nat = Some (sb + Z.of_nat b * st + Z.of_nat j)) ∧
      (∀ j, real <= Z.of_nat j < n → ws !! (b * Z.to_nat n + j)%nat = Some sentinel).
Proof.
  intros Hw Hl Hn Hv Hb0 Hsb Hfit Hfull. exists (visible_slots lens base sb st vis). split; [|split].
  { rewrite visibility_exact, visible_slots_int32 by done.
    by destruct (Z.ltb_spec vis 0), (Z.ltb_spec st vis); try lia. }
  { apply visible_slots_length; [done|lia]. }
  intros b real Hb span. pose proof (Forall_lookup_1 _ _ _ _ Hn Hb) as Hrn. simpl in Hrn.
  pose proof (Forall_lookup_1 _ _ _ _ Hl Hb) as Hr0. simpl in Hr0.
  assert (∀ b r, lens !! b = Some r → span b = prefix_slots lens base b r ++ suffix_slots sb st vis b) as Hspan
    by (intros; apply span_visible; [done|lia|done]).
  split; [|split; [|split]].
  - rewrite (Hspan _ _ Hb). unfold prefix_slots, suffix_slots. rewrite length_app, !length_fmap, !length_seq. lia.
  - intros j Hj. exists (base + foldr Z.add 0 (take b lens) + Z.of_nat j).
    rewrite (padded_write_lookup _ _ _ _ _ _ _ j Hw Hb) by lia. destruct (Z.ltb_spec (Z.of_nat j) real); [|lia].
    assert (span b !! j = Some (base + foldr Z.add 0 (take b lens) + Z.of_nat j)) as Hpj.
    { rewrite (Hspan _ _ Hb). unfold prefix_slots. rewrite lookup_app_l by (rewrite length_fmap, length_seq; lia).
      by rewrite list_lookup_fmap, lookup_seq_lt by lia. }
    split; [done|]. split; [done|]. intros b' Hlt Hne. pose proof (list_elem_of_lookup_2 _ _ _ Hpj) as Hin.
    destruct (lookup_lt_is_Some_2 lens b' Hlt) as [r' Hr']. rewrite (Hspan _ _ Hb) in Hin. rewrite (Hspan _ _ Hr').
    pose proof (slot_pieces_lookup lens base sb st vis b real Hb) as P.
    pose proof (slot_pieces_lookup lens base sb st vis b' r' Hr') as P'.
    destruct (decide (b < b')%nat); [by eapply (pieces_apart lens base sb st vis b b')|]. intros Hin'.
    by eapply (pieces_apart lens base sb st vis b' b _ _ _ Hl Hv Hsb ltac:(lia) P' P Hin').
  - intros j Hj. rewrite (Hspan _ _ Hb). apply span_past_prefix; lia.
  - intros j Hj. rewrite (padded_write_lookup _ _ _ _ _ _ _ j Hw Hb) by lia. by destruct (Z.ltb_spec (Z.of_nat j) real); [lia|].
Qed.

(** ** Examples *)

Module ExactRows.
(** Rows of integers under exact arithmetic. *)
Fixpoint add_rows (x y : list Z) : list Z :=
  match x, y with
  | [], _ => y
  | _, [] => x
  | a :: x', b :: y' => (a + b) :: add_rows x' y'
  end.

#[local] Instance row_numbers : Numerics Z Z (list Z) := {|
  logit s q k := s * foldr Z.add 0 (zip_with Z.mul q k);
  soft_cap c s := Z.min c s;
  add_bias := Z.add;
  attend l := foldr (λ e acc, match e.1 with Some s => add_rows ((Z.mul s) <$> e.2) acc | None => acc end) [] l;
  zero_row := [];
|}.

#[local] Instance row_numbers_laws : NumericsLaws Z Z (list Z).
Proof.
  split; [|done]. intros l. unfold attend. simpl. induction l as [|[[s|] r] l IH]; [done|..]; rewrite filter_cons; simpl.
  - by rewrite IH.
  - exact IH.
Qed.

#[local] Instance row_fused : @Sdpa Z Z (list Z) := row_sdpa.
#[local] Instance row_fused_laws : SdpaLaws := row_sdpa_laws.

(** A row of a run, in the sequence [n]: the keys are cut at the length of the
    sequence's pages. *)
Definition run_page_row (p : page_plan Z) (k v : ftensor Z) (t : token (list Z)) (x n : nat) : token (list Z) :=
  let qs := nth n (pp_cu_q p) 0 in
  let qe := nth (Datatypes.S n) (pp_cu_q p) 0 in
  let ks := nth n (pp_kv_indptr p) 0 in
  let len := page_kv_len (nth (Datatypes.S n) (pp_kv_indptr p) 0 - ks) (nth n (pp_last_page_len p) 0) in
  let cached b := slot_token (pp_head_dim p) b <$> slice (pp_kv_indices p) ks (ks + len) in
  λ h, ragged_row (pp_scale p) None (fi_visible (pp_causal p) (-1) (qe - qs) len) t (cached k) (cached v)
         (h / Z.to_nat (pp_heads p / pp_kv_heads p))%nat h (x - Z.to_nat qs)%nat.

#[local] Instance pages : @FlashInferPaged Z Z (ftensor Z) := {|
  fip_run p q k v := imap (λ x t, run_page_row p k v t x (locate (pp_cu_q p) (Z.of_nat x))) q;
|}.

#[local] Instance pages_laws : FlashInferPagedLaws.
Proof.
  split. intros p q k v slots n qs qe ks ke last i h t _ _ _ Hs Hq Hq1 Hk Hk1 Hqs _ _ _ Hlast _ _ Ht _ kv_len visible _ cached.
  cbn [fip_run pages].
  assert (qs + Z.of_nat i < qe) as Hi.
  { apply lookup_lt_Some in Ht. unfold slice in Ht. rewrite length_take in Ht. lia. }
  unfold slice in Ht. rewrite lookup_take_Some, lookup_drop in Ht. destruct Ht as [Ht _].
  eexists. rewrite list_lookup_imap, Ht. cbn [fmap option_fmap option_map]. split; [reflexivity|].
  rewrite (locate_between _ n qs qe) by (done || lia). unfold run_page_row.
  rewrite !nth_lookup, Hq, Hq1, Hk, Hk1, Hlast. cbn [default from_option id].
  by replace (Z.to_nat qs + i - Z.to_nat qs)%nat with i by lia.
Qed.
End ExactRows.
Import ExactRows.
#[local] Existing Instances row_numbers row_numbers_laws row_fused row_fused_laws pages pages_laws.

(** Two sequences over the demonstration pool: two queries that see their own
    two new slots and an old one, and a query that sees one new slot. *)
Definition paged_lyr : paged_layer Z := PagedLayer 2 1 2 1 true 1.
Definition paged_proto : paged_layer Z := PagedLayer 2 1 2 1 true 0.
Definition paged_idx : index_tensor := IndexTensor [4] "int32" [5; 4; 2; 7].
Definition paged_md : paged_meta := PagedMeta false true 2 3 (Some [0; 2; 3]) (Some [0; 3; 4]) (Some paged_idx) (Some [1; 1]) None None.
Definition paged_q : ftensor Z := FTensor [3; 2; 2] (λ ix, coord ix 0 + coord ix 1 + coord ix 2).
Definition paged_b0 : paged_backend (F:=Z) := paged_init_state paged_proto (PFlash (PageBackend None None)).
Definition paged_planned := paged_plan (λ _, Ok ()) paged_md paged_b0.
Definition paged_pool' := (write_kv demo_pool 1 (slots_1d [4; 2; 7]) (row2 5 3) (row2 7 3)).1.

Lemma paged_step_demo : paged_step paged_md [0; 2; 3] [0; 3; 4] paged_idx.
Proof.
  split; [by vm_compute|done|done|simpl; lia|]. exists [1; 1]. split; [done|].
  intros [|[|n]] ks ke Hn _; [done|done|]. by destruct n.
Qed.

Lemma paged_lyr_ok : paged_layer_ok paged_lyr.
Proof. by apply (paged_init_ok (λ _, 1) 2 2 1 true (Some 1) (Some 1)). Qed.

Lemma paged_backends_exact_witness :
  ∃ out lay tk tv,
    paged_forward paged_planned.1 paged_lyr paged_q (row2 5 3) (row2 7 3) (PagedCtx HFlash false (slots_1d [4; 2; 7])) demo_pool
      = (paged_pool', Ok out) ∧
    py_item (kp_k paged_pool') 1 = Ok (lay, tk) ∧ kp_v paged_pool' !! lay = Some tv ∧
    computes_paged paged_lyr paged_q tk tv [0; 2; 3] [0; 3; 4] [5; 4; 2; 7] out (queries_of paged_lyr paged_planned.1).
Proof.
  refine (paged_backends_exact (λ _, Ok ()) paged_lyr paged_proto paged_b0 paged_planned.1 paged_md HFlash [0; 2; 3] [0; 3; 4] paged_idx
    paged_q (row2 5 3) (row2 7 3) [4; 2; 7] demo_pool paged_pool' _ _ paged_lyr_ok paged_step_demo _ demo_pool_ok _ _ _ _ _ _ _).
  - right. eexists. reflexivity.
  - repeat split; reflexivity.
  - vm_compute. reflexivity.
  - reflexivity.
  - reflexivity.
  - simpl. lia.
  - reflexivity.
  - repeat (constructor; [simpl; lia|]). constructor.
  - repeat (constructor; [simpl; lia|]). constructor.
  - reflexivity.
Defined.

Definition paged_md' : paged_meta :=
  PagedMeta false true 2 3 (Some [0; 2; 3]) (Some [0; 3; 4]) (Some (IndexTensor [4] "int32" [1; 3; 6; 8])) (Some [1; 1]) None None.
Definition sdpa_demo : paged_backend (F:=Z) := PSdpa (Some paged_proto).
Definition sdpa_handle (m : paged_meta) : paged_handle :=
  match (paged_plan (λ _, Ok ()) m sdpa_demo).2 with Ok h => h | Err _ => HFlash end.

Lemma replay_equals_plan_witness :
  paged_plan (λ _, Ok ()) paged_md' sdpa_demo = (sdpa_demo, Ok (sdpa_handle paged_md')).
Proof.
  refine (replay_equals_plan (λ _, Ok ()) paged_md paged_md' sdpa_demo sdpa_demo sdpa_demo (sdpa_handle paged_md) (sdpa_handle paged_md') _ _).
  - reflexivity.
  - reflexivity.
Defined.

Lemma visibility_exact_witness :
  visibility_indices [3; 0; 2] 1 100 4 2 None = Ok (to_int32 <$> visible_slots [3; 0; 2] 1 100 4 2) ∧
  visible_slots [3; 0; 2] 1 100 4 2 = [1; 2; 3; 100; 101; 104; 105; 4; 5; 108; 109].
Proof.
  split; [|reflexivity]. refine (visibility_exact [3; 0; 2] 1 100 4 2 None _ _); [|left; reflexivity].
  repeat (constructor; [simpl; lia|]). constructor.
Defined.

Lemma passes_see_their_sample_witness :
  let ws := [1; 2; 3; 0; 0; 0; 4; 5; 0] in
  ∃ vs, visibility_indices [3; 0; 2] 1 100 4 2 None = Ok vs ∧ Z.of_nat (List.length vs) = 11 ∧
    ∀ b real, [3; 0; 2] !! b = Some real →
      let span := span_of [0; 5; 7; 11] vs in
      Z.of_nat (List.length (span b)) = real + 2 ∧
      (∀ j, Z.of_nat j < real → ∃ s, ws !! (b * 3 + j)%nat = Some s ∧ span b !! j = Some s ∧
         ∀ b', (b' < 3)%nat → b' ≠ b → s ∉ span b') ∧
      (∀ j, Z.of_nat j < 2 → span b !! (Z.to_nat real + j)%nat = Some (100 + Z.of_nat b * 4 + Z.of_nat j)) ∧
      (∀ j, real <= Z.of_nat j < 3 → ws !! (b * 3 + j)%nat = Some 0).
Proof.
  refine (passes_see_their_sample [3; 0; 2] 3 1 0 [1; 2; 3; 0; 0; 0; 4; 5; 0] 100 4 2 None _ _ _ _ _ _ _ _).
  - reflexivity.
  - repeat (constructor; [simpl; lia|]). constructor.
  - repeat (constructor; [simpl; lia|]). constructor.
  - lia.
  - lia.
  - simpl. lia.
  - simpl. lia.
  - left. reflexivity.
Defined.
