(* ===== verification/PiConfig.v ===== *)
(** * Configurations of pi0 and pi0.5
      ([models/pi0/configuration_pi0.py], [models/pi05/configuration_pi05.py])

    The integer fields of the nested configurations, their checks, and the
    geometry read off them.  The numbers that only scale activations are left
    out. *)

From S2P Require Import Prelude.
Open Scope Z_scope.

(** [a % b] and [a // b] of Python integers *)
Definition py_mod (a b : Z) : res Z := _ ← ensure (negb (b =? 0)) ZeroDivisionError; Ok (a mod b).
Definition py_div (a b : Z) : res Z := _ ← ensure (negb (b =? 0)) ZeroDivisionError; Ok (a / b).

Definition divides_or (a b : Z) : res unit := r ← py_mod a b; ensure (r =? 0) ValueError.

(** ** Components *)

Record vision_config : Type := VisionConfig {
  vc_hidden : Z;
  vc_layers : Z;
  vc_heads : Z;
  vc_intermediate : Z;
  vc_image : Z;
  vc_patch : Z;
  vc_channels : Z;
  vc_projection : Z;
}.

(** [SiglipVisionConfig.__post_init__] *)
Definition vision_init (c : vision_config) : res vision_config :=
  _ ← divides_or (vc_image c) (vc_patch c);
  _ ← divides_or (vc_hidden c) (vc_heads c);
  Ok c.

(** [num_patches] and [head_dim] *)
Definition num_patches (c : vision_config) : Z := (vc_image c / vc_patch c) ^ 2.
Definition vision_head_dim (c : vision_config) : Z := vc_hidden c / vc_heads c.

(** The text side and the action expert have the same geometry fields. *)
Record stack_config : Type := StackConfig {
  st_hidden : Z;
  st_layers : Z;
  st_heads : Z;
  st_kv_heads : Z;
  st_head_dim : Z;
  st_intermediate : Z;
  st_positions : Z;
}.

(** [PaliGemmaTextConfig.__post_init__] *)
Definition text_init (c : stack_config) : res stack_config :=
  _ ← divides_or (st_heads c) (st_kv_heads c);
  _ ← ensure (negb ((st_head_dim c <=? 0) || negb (st_head_dim c mod 2 =? 0))) ValueError;
  Ok c.

Definition joint_attention_dim (c : stack_config) : Z := st_heads c * st_head_dim c.

Record expert_config : Type := ExpertConfig {
  xc_stack : stack_config;
  xc_use_adarms : bool;
  xc_adarms_cond_dim : option Z;
}.

(** [GemmaExpertConfig.__post_init__] *)
Definition expert_init (c : expert_config) : res expert_config :=
  _ ← text_init (xc_stack c);
  _ ← ensure (negb (xc_use_adarms c && negb (bool_decide (xc_adarms_cond_dim c = Some (st_hidden (xc_stack c)))))) ValueError;
  Ok c.

(** The checks both models make on their parts. *)
Definition joint_checks (v : vision_config) (t : stack_config) (x : expert_config) : res unit :=
  let e := xc_stack x in
  _ ← ensure (vc_projection v =? st_hidden t) ValueError;
  _ ← ensure (joint_attention_dim t =? joint_attention_dim e) ValueError;
  _ ← ensure (st_head_dim t =? st_head_dim e) ValueError;
  _ ← ensure (st_kv_heads t =? st_kv_heads e) ValueError;
  ensure (st_layers t =? st_layers e) ValueError.

(** ** pi0.5 *)

Record pi05_config : Type := PI05Config {
  c5_vision : vision_config;
  c5_text : stack_config;
  c5_expert : expert_config;
  c5_chunk : Z;
  c5_action_dim : Z;
  c5_steps : Z;
  c5_tokenizer_max : Z;
  c5_value_head : bool;
  c5_value_after_vlm : bool;
  c5_value_sizes : list Z;
  c5_critic_chunk : option Z;
}.

(** [PI05Config.__post_init__] *)
Definition pi05_config_init (c : pi05_config) : res pi05_config :=
  _ ← joint_checks (c5_vision c) (c5_text c) (c5_expert c);
  _ ← ensure (0 <? c5_chunk c) ValueError;
  _ ← ensure (0 <? c5_steps c) ValueError;
  _ ← ensure (match c5_critic_chunk c with None => true | Some n => (1 <=? n) && (n <=? c5_chunk c) end) ValueError;
  _ ← ensure (negb (bool_decide (c5_value_sizes c = []) || existsb (λ w, w <=? 0) (c5_value_sizes c))) ValueError;
  Ok c.

(** ** pi0 *)

Record pi0_config : Type := PI0Config {
  c0_vision : vision_config;
  c0_text : stack_config;
  c0_expert : expert_config;
  c0_chunk : Z;
  c0_state_dim : Z;
  c0_action_dim : Z;
  c0_steps : Z;
  c0_tokenizer_max : Z;
  c0_empty_cameras : Z;
}.

(** [PI0Config.__post_init__] *)
Definition pi0_config_init (c : pi0_config) : res pi0_config :=
  _ ← joint_checks (c0_vision c) (c0_text c) (c0_expert c);
  _ ← ensure (negb (xc_use_adarms (c0_expert c))) ValueError;
  _ ← ensure (0 <? c0_chunk c) ValueError;
  _ ← ensure (0 <? c0_state_dim c) ValueError;
  _ ← ensure (0 <? c0_action_dim c) ValueError;
  _ ← ensure (0 <? c0_steps c) ValueError;
  _ ← ensure (0 <? c0_tokenizer_max c) ValueError;
  _ ← ensure ((c0_empty_cameras c =? 0) || (c0_empty_cameras c =? 1)) ValueError;
  Ok c.

(** [suffix_len] and [num_images] *)
Definition suffix_len (c : pi0_config) : Z := 1 + c0_chunk c.
Definition pi0_num_images (c : pi0_config) : Z := 3 - c0_empty_cameras c.

(** The public checkpoints *)
Definition siglip : vision_config := VisionConfig 1152 27 16 4304 224 14 3 2048.
Definition gemma_2b : stack_config := StackConfig 2048 18 8 1 256 16384 8192.
Definition gemma_300m : stack_config := StackConfig 1024 18 8 1 256 4096 8192.
Definition pi05_base : pi05_config :=
  PI05Config siglip gemma_2b (ExpertConfig gemma_300m true (Some 1024)) 50 32 10 200 false true [1024; 512; 256] None.
Definition pi0_base : pi0_config :=
  PI0Config siglip gemma_2b (ExpertConfig gemma_300m false None) 50 32 32 10 48 0.

Example base_configurations_valid :
  pi05_config_init pi05_base = Ok pi05_base ∧ pi0_config_init pi0_base = Ok pi0_base ∧ num_patches siglip = 256.
Proof. done. Qed.
