(* ===== verification/Pi05Runners.v ===== *)
(** * The runners of pi0.5 ([models/pi05/model_runner_pi05.py])

    The language runner writes the keys and values of a prefix into the pool,
    the expert runner integrates the action flow over it.  Both keep a planned
    attention backend and, with CUDA graphs, what they captured.  The networks
    are parameters: an embedding row is a [V], a suffix feature an [Ft], and an
    action chunk a list of exact numbers. *)

From Stdlib Require Export QArith.QArith QArith.Qcanon.
From S2P Require Import Prelude Tensor KvCache Attention Paged PiConfig.
Open Scope Z_scope.

Abbreviation chunk := (list Qc).

(** [torch.arange(0, (n + 1) * step, step)], which refuses a step of zero *)
Definition arange_steps (n step : Z) : res (list Z) :=
  _ ← ensure (negb (step =? 0)) RuntimeError; Ok ((Z.mul step) <$> seqZ 0 (n + 1)).

Definition int32_indices (l : list Z) : index_tensor := IndexTensor [Z.of_nat (List.length l)] "int32" (to_int32 <$> l).

(** The metadata of a prefill step over ragged sequences. *)
Definition prefill_meta (batch tokens : Z) (cu_q indptr : list Z) (indices : index_tensor) (last_page : list Z)
    (write position : option (list Z)) : res paged_meta :=
  paged_meta_init (PagedMeta false true batch tokens (Some cu_q) (Some indptr) (Some indices) (Some last_page) write position).

(** The two [_capture_seed_metadata]: [q] queries and [kv] keys for every
    sample, the keys in the first slots. *)
Definition seed_metadata (batch q kv : Z) (write : list Z) : res paged_meta :=
  cu_q ← arange_steps batch q;
  kv_indptr ← arange_steps batch kv;
  prefill_meta batch (batch * q) (to_int32 <$> cu_q) (to_int32 <$> kv_indptr) (int32_indices (arange 0 (batch * kv)))
    (replicate (Z.to_nat batch) 1) (Some write) None.

(** Exact arithmetic with the functions that leave the rationals. *)
Class Numbers := { q_sqrt : Qc → Qc; q_log : Qc → Qc; q_two_pi : Qc }.

(** [torch.linspace(start, stop, n)] *)
Definition linspace (start stop : Qc) (n : nat) : list Qc :=
  (λ i, start + Q2Qc (inject_Z (Z.of_nat i)) * ((stop - start) / Q2Qc (inject_Z (Z.of_nat n - 1))))%Qc <$> seq 0 n.

(** [torch.stack(steps, dim=1)] of tensors with [n] rows *)
Definition stack_steps {A} (n : nat) (steps : list (list A)) : list (list A) :=
  (λ b, omap (λ s, s !! b) steps) <$> seq 0 n.

Section runners.
Context {F E T : Type} `{TorchIndex E T}.
Context (plan_check : page_plan F → res unit).
(** The weights, the rows of embeddings, the rows of the time table, the
    modulation of one step and the suffix features. *)
Context {W V TE M Ft : Type} (v_zero : V).
Context (paligemma_lm : W → list V → list Z → paged_backend (F:=F) → paged_ctx → kv_pool (T:=T) → kv_pool (T:=T) * res (list V)).
Context (modulation : W → list TE → list M).
Context (expert_net : W → M → list chunk → list Z → paged_backend (F:=F) → paged_ctx → kv_pool (T:=T) →
  kv_pool (T:=T) * res (list chunk * list Ft)).
Context (value_head : W → option Z → Ft → Qc).

Abbreviation pool := (kv_pool (T:=T)).
Abbreviation backend := (paged_backend (F:=F)).

(** [attn_backend.replay_metadata(plan, meta)]; the handle may be missing. *)
Definition replay_handle (h : option paged_handle) (m : paged_meta) (b : backend) : backend * res (option paged_handle) :=
  match h with
  | Some h => let '(b, r) := paged_replay plan_check h m b in (b, h ← r; Ok (Some h))
  | None => match b with
            | PSdpa _ => (b, Err TypeError)
            | PFlash f => let '(f, r) := page_plan_into plan_check m f in (PFlash f, _ ← r; Ok None)
            end
  end.

(** [plan_inference] of a runner with the backend [b] and the handle [h] *)
Definition stage_plan (use_graph : bool) (m : paged_meta) (h : option paged_handle) (b : backend)
    : backend * option paged_handle * res unit :=
  let '(b, r) := if use_graph then replay_handle h m b
                 else let '(b, r) := paged_plan plan_check m b in (b, h ← r; Ok (Some h)) in
  match r with Ok h => (b, h, Ok ()) | Err e => (b, h, Err e) end.

(** [CudaGraph().capture(fn, example)]: three warm-up calls, then one that is
    recorded and has no effect. *)
Definition capture_runs {St A} (fn : act St A) : act St unit :=
  _ ← repeat_act 3 fn; peek (λ s, _ ← (fn s).2; Ok ()).

(** ** The language runner *)

Record llm_runner : Type := LLMRunner {
  lr_batch : Z;
  lr_n : Z;
  lr_max_indices : Z;
  lr_proto : paged_layer F;
  lr_use_graph : bool;
  lr_backend : backend;
  lr_plan : option paged_handle;
  lr_graphs : list Z;
}.

(** [_ar_attn_proto] and [_diffusion_attn_proto] *)
Definition attn_proto (layers : list (paged_layer F)) : res (paged_layer F) :=
  match layers with [] => Err ValueError | l :: _ => Ok l end.

(** [PI05LLMRunner.__init__] with the backend the catalog selected *)
Definition llm_init (layers : list (paged_layer F)) (b : backend) (batch_size n_per_sample : Z) (use_cuda_graph cuda : bool)
    (max_paged_kv_indices : option Z) : res llm_runner :=
  proto ← attn_proto layers;
  Ok (LLMRunner batch_size n_per_sample (default (batch_size * n_per_sample) max_paged_kv_indices) proto
        (use_cuda_graph && cuda) b None []).

Definition lr_planned (b : backend) (h : option paged_handle) (r : llm_runner) : llm_runner :=
  LLMRunner (lr_batch r) (lr_n r) (lr_max_indices r) (lr_proto r) (lr_use_graph r) b h (lr_graphs r).
Definition lr_captured (graphs : list Z) (r : llm_runner) : llm_runner :=
  LLMRunner (lr_batch r) (lr_n r) (lr_max_indices r) (lr_proto r) (lr_use_graph r) (lr_backend r) (lr_plan r) graphs.

(** [_capture_seed_metadata] *)
Definition llm_seed (r : llm_runner) (n_per_sample : Z) : res paged_meta :=
  q ← py_div (lr_max_indices r) (lr_batch r);
  seed_metadata (lr_batch r) n_per_sample (Z.min n_per_sample q) (replicate (Z.to_nat (lr_batch r * n_per_sample)) 0).

(** [_fwd]; a missing plan is refused by the attention of the first layer. *)
Definition llm_fwd (w : W) (r : llm_runner) (hidden : list V) (position write : list Z) : act pool (list V) := λ p,
  match lr_plan r with
  | None => (p, Err TypeError)
  | Some h => paligemma_lm w hidden position (lr_backend r) (PagedCtx h false (slots_1d write)) p
  end.

(** [plan_inference] *)
Definition llm_plan (m : paged_meta) : act llm_runner unit := λ r,
  let '(b, h, o) := stage_plan (lr_use_graph r) m (lr_plan r) (lr_backend r) in (lr_planned b h r, o).

(** A call that returns the new handle and stores it. *)
Definition llm_init_capture (m : paged_meta) : act llm_runner unit := λ r,
  let '(b, o) := paged_plan plan_check m (lr_backend r) in
  match o with Ok h => (lr_planned b (Some h) r, Ok ()) | Err e => (lr_planned b (lr_plan r) r, Err e) end.

Abbreviation llm_state := (llm_runner * pool)%type.

Definition on_runner {R A} (m : act R A) : act (R * pool) A := zoom fst (λ r s, (r, s.2)) m.

(** [_capture_graph] and its registration under the bucket *)
Definition llm_capture (w : W) (n : Z) : act llm_state unit := λ s,
  let rows := Z.to_nat (lr_batch s.1 * n) in
  match capture_runs (llm_fwd w s.1 (replicate rows v_zero) (replicate rows 0) (replicate rows 0)) s.2 with
  | (p, Ok _) => ((lr_captured (lr_graphs s.1 ++ [n]) s.1, p), Ok ())
  | (p, Err e) => ((s.1, p), Err e)
  end.

(** [sorted(set(buckets or [n]))] *)
Definition capture_buckets (buckets : option (list Z)) (n : Z) : list Z :=
  py_sorted Z.le (remove_dups (match buckets with Some (b :: bs) => b :: bs | _ => [n] end)).

(** [setup] *)
Definition llm_setup (w : W) (buckets : option (list Z)) : act llm_state unit :=
  _ ← on_runner (modify (λ r, lr_planned (paged_init_state (lr_proto r) (lr_backend r)) (lr_plan r) r));
  r ← gets fst;
  if negb (lr_use_graph r) then mret ()
  else
    let buckets := capture_buckets buckets (lr_n r) in
    _ ← lift (ensure (negb ((lr_n r <? List.last buckets 0) || (default 0 (buckets !! 0%nat) <=? 0))) ValueError);
    seed ← lift (llm_seed r (lr_n r));
    _ ← on_runner (llm_init_capture seed);
    each_act (λ n, seed ← lift (llm_seed r n); _ ← on_runner (llm_plan seed); llm_capture w n) buckets.

(** [forward] at a bucket: the captured graph of the bucket, whose buffers
    have its size, or the call itself. *)
Definition llm_forward (w : W) (hidden : list V) (position write : list Z) (n_per_sample : option Z) : act llm_state (list V) :=
  λ s, let '(r, p) := s in
  let run := let '(p, o) := llm_fwd w r hidden position write p in ((r, p), o) in
  if lr_use_graph r && negb (bool_decide (lr_graphs r = [])) then
    let n := default (lr_n r) n_per_sample in
    if negb (bool_decide (n ∈ lr_graphs r)) then (s, Err ValueError)
    else if negb (forallb (λ l, Z.of_nat l =? lr_batch r * n) [List.length hidden; List.length position; List.length write])
    then (s, Err CudaGraphError)
    else run
  else run.

(** ** The expert runner *)

Record schedule : Type := Schedule { es_table : list TE; es_timesteps : list Qc; es_dt : Qc; es_steps : Z }.

(** What a graph of the loop has baked in: the schedule, and which modulation
    tables it reads. *)
Record baked : Type := Baked { bk_schedule : schedule; bk_tables : nat }.

Record expert_runner : Type := ExpertRunner {
  er_batch : Z;
  er_chunk : Z;
  er_max_indices : Z;
  er_proto : paged_layer F;
  er_use_graph : bool;
  er_capture_rollout : bool;
  er_value_head : bool;
  er_critic_chunk : option Z;
  er_backend : backend;
  er_plan : option paged_handle;
  er_positions : list Z;
  er_writes : list Z;
  er_schedule : option schedule;
  er_tables : list (list M);
  er_graph : option baked;
  er_rollout_graph : option baked;
}.

(** [PI05ExpertRunner.__init__] *)
Definition expert_runner_init (layers : list (paged_layer F)) (b : backend) (batch_size chunk_size : Z)
    (suffix_value_head : bool) (critic_action_chunk : option Z) (use_cuda_graph cuda capture_rollout : bool)
    (max_paged_kv_indices : option Z) : res expert_runner :=
  proto ← attn_proto layers;
  let rows := replicate (Z.to_nat (batch_size * chunk_size)) 0 in
  Ok (ExpertRunner batch_size chunk_size (default (batch_size * chunk_size * 32) max_paged_kv_indices) proto
        (use_cuda_graph && cuda) capture_rollout suffix_value_head critic_action_chunk b None rows rows None [] None None).

Definition er_planned (b : backend) (h : option paged_handle) (positions : list Z) (r : expert_runner) : expert_runner :=
  ExpertRunner (er_batch r) (er_chunk r) (er_max_indices r) (er_proto r) (er_use_graph r) (er_capture_rollout r)
    (er_value_head r) (er_critic_chunk r) b h positions (er_writes r) (er_schedule r) (er_tables r) (er_graph r) (er_rollout_graph r).
Definition er_written (ws : list Z) (r : expert_runner) : expert_runner :=
  ExpertRunner (er_batch r) (er_chunk r) (er_max_indices r) (er_proto r) (er_use_graph r) (er_capture_rollout r)
    (er_value_head r) (er_critic_chunk r) (er_backend r) (er_plan r) (er_positions r) ws (er_schedule r) (er_tables r)
    (er_graph r) (er_rollout_graph r).
Definition er_bound (sch : schedule) (tables : list (list M)) (r : expert_runner) : expert_runner :=
  ExpertRunner (er_batch r) (er_chunk r) (er_max_indices r) (er_proto r) (er_use_graph r) (er_capture_rollout r)
    (er_value_head r) (er_critic_chunk r) (er_backend r) (er_plan r) (er_positions r) (er_writes r) (Some sch) tables
    (er_graph r) (er_rollout_graph r).
Definition er_graphs (g rg : option baked) (r : expert_runner) : expert_runner :=
  ExpertRunner (er_batch r) (er_chunk r) (er_max_indices r) (er_proto r) (er_use_graph r) (er_capture_rollout r)
    (er_value_head r) (er_critic_chunk r) (er_backend r) (er_plan r) (er_positions r) (er_writes r) (er_schedule r)
    (er_tables r) g rg.

(** [set_write_indices] *)
Definition set_write_indices (ws : list Z) : act expert_runner unit := λ r,
  if negb (Nat.eqb (List.length ws) (List.length (er_writes r))) then (r, Err ValueError) else (er_written ws r, Ok ()).

(** [_build_modulation_tables]: tables of the same size are copied into the
    current ones, which a captured graph may read; others are new. *)
Definition store_tables (new : list M) (tables : list (list M)) : list (list M) :=
  match last tables with
  | Some old => if Nat.eqb (List.length old) (List.length new) then <[pred (List.length tables) := new]> tables else tables ++ [new]
  | None => tables ++ [new]
  end.

(** [bind_euler_schedule] *)
Definition bind_euler_schedule (w : W) (table : list TE) (dt : Qc) (num_steps : Z) : act expert_runner unit := λ r,
  if negb (Z.of_nat (List.length table) =? num_steps) then (r, Err ValueError)
  else if num_steps =? 0 then (r, Err ZeroDivisionError)
  else
    let ts := linspace 1%Qc (1 / Q2Qc (inject_Z num_steps))%Qc (Z.to_nat num_steps) ++ [0%Qc] in
    (er_bound (Schedule table ts dt num_steps) (store_tables (modulation w table) (er_tables r)) r, Ok ()).

(** [_capture_seed_metadata] *)
Definition expert_seed (r : expert_runner) : res paged_meta :=
  q ← py_div (er_max_indices r) (er_batch r);
  seed_metadata (er_batch r) (er_chunk r) (Z.min (er_chunk r * 4) q) (er_writes r).

(** [plan_inference] *)
Definition expert_plan (m : paged_meta) : act expert_runner unit := λ r,
  match pm_position_ids m with
  | None => (r, Err ValueError)
  | Some pos =>
      if negb (Nat.eqb (List.length pos) (List.length (er_positions r))) then (r, Err RuntimeError)
      else let '(b, h, o) := stage_plan (er_use_graph r) m (er_plan r) (er_backend r) in
           (er_planned b h (to_int32 <$> pos) r, o)
  end.

Definition expert_init_capture (m : paged_meta) : act expert_runner unit := λ r,
  let '(b, o) := paged_plan plan_check m (er_backend r) in
  match o with
  | Ok h => (er_planned b (Some h) (er_positions r) r, Ok ())
  | Err e => (er_planned b (er_plan r) (er_positions r) r, Err e)
  end.

(** [_one_step]: the velocity of every sample and its suffix features *)
Definition one_step (w : W) (r : expert_runner) (tables : list M) (x : list chunk) (step : nat)
    : act pool (list chunk * list Ft) := λ p,
  match er_plan r, tables !! step with
  | None, _ => (p, Err TypeError)
  | _, None => (p, Err IndexError)
  | Some h, Some m => expert_net w m x (er_positions r) (er_backend r) (PagedCtx h false (slots_1d (er_writes r))) p
  end.

(** [x_t + dt * v_t] *)
Definition euler (dt : Qc) (x v : list chunk) : list chunk := zip_with (zip_with (λ a b, a + dt * b)%Qc) x v.

(** [_fwd_loop] *)
Fixpoint fwd_loop (w : W) (r : expert_runner) (tables : list M) (dt : Qc) (steps : list nat) (x : list chunk) : act pool (list chunk) :=
  match steps with
  | [] => mret x
  | step :: steps' => '(v, _) ← one_step w r tables x step; fwd_loop w r tables dt steps' (euler dt x v)
  end.

Context `{Numbers}.

(** One element of an update of [_fwd_rollout_loop]: the next state and the
    log-probability of the transition *)
Definition rollout_element (t delta sigma x v noise : Qc) : Qc * Qc :=
  let x0_pred := (x - v * t)%Qc in
  let x1_pred := (x + v * (1 - t))%Qc in
  let x0_weight := (1 - (t - delta))%Qc in
  let x1_weight := (t - delta - sigma * sigma * delta / ((1 + 1) * t))%Qc in
  let mean := (x0_pred * x0_weight + x1_pred * x1_weight)%Qc in
  let std := (sigma * q_sqrt delta)%Qc in
  let sample := (mean + noise * std)%Qc in
  let square a := (a * a)%Qc in
  (sample, if decide (std = 0%Qc) then 0%Qc
           else (- q_log std - (1 / (1 + 1)) * q_log q_two_pi - (1 / (1 + 1)) * square ((sample - mean) / std))%Qc).

Fixpoint rollout_chunk (t delta sigma : Qc) (x v noise : chunk) : chunk * chunk :=
  match x, v, noise with
  | a :: x', b :: v', c :: noise' =>
      let '(s, l) := rollout_element t delta sigma a b c in
      let '(ss, ls) := rollout_chunk t delta sigma x' v' noise' in (s :: ss, l :: ls)
  | _, _, _ => ([], [])
  end.

(** The update of every sample at one step; a sample has its noises and sigmas
    by step. *)
Fixpoint rollout_batch (t delta : Qc) (step : nat) (x v : list chunk) (noise : list (list chunk)) (sigmas : list (list Qc))
    : list (chunk * chunk) :=
  match x, v, noise, sigmas with
  | a :: x', b :: v', c :: noise', s :: sigmas' =>
      rollout_chunk t delta (default 0%Qc (s !! step)) a b (default [] (c !! step)) :: rollout_batch t delta step x' v' noise' sigmas'
  | _, _, _, _ => []
  end.

(** [_compute_suffix_value] *)
Definition suffix_value (w : W) (r : expert_runner) (features : list Ft) : list Qc :=
  if er_value_head r then value_head w (er_critic_chunk r) <$> features else replicate (Z.to_nat (er_batch r)) 0%Qc.

Record trajectory : Type := Trajectory {
  tj_actions : list chunk;
  tj_chains : list (list chunk);
  tj_logprobs : list (list chunk);
  tj_values : list (list Qc);
}.

(** [_fwd_rollout_loop]: the states, the log-probabilities and the values of
    the steps that are left *)
Fixpoint rollout_loop (w : W) (r : expert_runner) (tables : list M) (timesteps : list Qc) (noise : list (list chunk))
    (sigmas : list (list Qc)) (steps : list nat) (x : list chunk)
    : act pool (list chunk * list (list chunk) * list (list chunk) * list (list Qc)) :=
  match steps with
  | [] => mret (x, [], [], [])
  | step :: steps' =>
      '(t, t') ← lift (t ← of_option IndexError (timesteps !! step); t' ← of_option IndexError (timesteps !! S step); Ok (t, t'));
      '(v, features) ← one_step w r tables x step;
      let next := rollout_batch t (t - t')%Qc step x v noise sigmas in
      '(final, chains, logprobs, values) ← rollout_loop w r tables timesteps noise sigmas steps' (next.*1);
      mret (final, (next.*1) :: chains, (next.*2) :: logprobs, suffix_value w r features :: values)
  end.

(** The modulation tables a run reads: the current ones, or those a graph has
    baked in. *)
Definition current_tables (r : expert_runner) : nat := pred (List.length (er_tables r)).

Definition bake (r : expert_runner) (sch : schedule) : baked := Baked sch (current_tables r).

Definition run_loop (w : W) (r : expert_runner) (b : baked) (noise : list chunk) : act pool (list chunk) :=
  tables ← lift (of_option AssertionError (er_tables r !! bk_tables b));
  fwd_loop w r tables (es_dt (bk_schedule b)) (seq 0 (Z.to_nat (es_steps (bk_schedule b)))) noise.

Definition run_rollout (w : W) (r : expert_runner) (b : baked) (noise : list chunk) (step_noise : list (list chunk))
    (sigmas : list (list Qc)) : act pool trajectory :=
  tables ← lift (of_option AssertionError (er_tables r !! bk_tables b));
  '(final, chains, logprobs, values) ←
    rollout_loop w r tables (es_timesteps (bk_schedule b)) step_noise sigmas (seq 0 (Z.to_nat (es_steps (bk_schedule b)))) noise;
  let n := List.length noise in
  mret (Trajectory final (stack_steps n (noise :: chains)) (stack_steps n logprobs) (stack_steps n values)).

(** What an eager run would bake. *)
Definition eager (r : expert_runner) : res baked := sch ← of_option AssertionError (er_schedule r); Ok (bake r sch).

Abbreviation expert_state := (expert_runner * pool)%type.

Definition on_pool {R A} (m : R → act pool A) : act (R * pool) A := λ s,
  let '(p, o) := m s.1 s.2 in ((s.1, p), o).

(** [_capture_graph] and [_capture_rollout_graph] on inputs of zeros *)
Definition capture_loop (w : W) (action_dim : Z) : act expert_state unit :=
  b ← peek (λ s, eager s.1);
  _ ← on_pool (λ r, let zero := replicate (Z.to_nat (er_chunk r * action_dim)) 0%Qc in
                    capture_runs (run_loop w r b (replicate (Z.to_nat (er_batch r)) zero)));
  on_runner (modify (λ r, er_graphs (Some b) (er_rollout_graph r) r)).

Definition capture_rollout_loop (w : W) (action_dim : Z) : act expert_state unit :=
  b ← peek (λ s, eager s.1);
  _ ← on_pool (λ r, let zero := replicate (Z.to_nat (er_chunk r * action_dim)) 0%Qc in
                    let n := Z.to_nat (er_batch r) in let k := Z.to_nat (es_steps (bk_schedule b)) in
                    capture_runs (run_rollout w r b (replicate n zero) (replicate n (replicate k zero)) (replicate n (replicate k 0%Qc))));
  on_runner (modify (λ r, er_graphs (er_graph r) (Some b) r)).

(** [setup] *)
Definition expert_setup (w : W) (action_dim : Z) : act expert_state unit :=
  r ← gets fst;
  _ ← lift (ensure (match er_schedule r with Some sch => 0 <? es_steps sch | None => false end) RuntimeError);
  _ ← on_runner (modify (λ r, er_planned (paged_init_state (er_proto r) (er_backend r)) (er_plan r) (er_positions r) r));
  if negb (er_use_graph r) then mret ()
  else
    seed ← lift (expert_seed r);
    _ ← on_runner (expert_init_capture seed);
    if er_capture_rollout r then capture_rollout_loop w action_dim else capture_loop w action_dim.

(** [recapture_after_weight_update]: the graphs that were there are dropped and
    captured again, on a plan of the seed. *)
Definition recapture (w : W) (action_dim : Z) (g rg : option baked) : act expert_state unit :=
  _ ← on_runner (modify (er_graphs None None));
  r ← gets fst;
  seed ← lift (expert_seed r);
  _ ← on_runner (expert_init_capture seed);
  _ ← match g with Some _ => capture_loop w action_dim | None => mret () end;
  match rg with Some _ => capture_rollout_loop w action_dim | None => mret () end.

Definition recapture_after_weight_update (w : W) (action_dim : Z) : act expert_state bool :=
  r ← gets fst;
  match er_graph r, er_rollout_graph r with
  | None, None => mret false
  | g, rg => _ ← recapture w action_dim g rg; mret true
  end.

(** [forward] and [forward_rollout]: a replay of the graph, whose buffers hold
    a full batch, or an eager run *)
Definition expert_forward (w : W) (noise : list chunk) : act expert_state (list chunk) :=
  on_pool (λ r,
    match er_graph r with
    | Some b => _ ← lift (ensure (Z.of_nat (List.length noise) =? er_batch r) CudaGraphError); run_loop w r b noise
    | None => b ← lift (eager r); run_loop w r b noise
    end).

Definition expert_forward_rollout (w : W) (noise : list chunk) (step_noise : list (list chunk)) (sigmas : list (list Qc))
    : act expert_state trajectory :=
  on_pool (λ r,
    match er_rollout_graph r with
    | Some b => _ ← lift (ensure (Z.of_nat (List.length noise) =? er_batch r) CudaGraphError); run_rollout w r b noise step_noise sigmas
    | None => b ← lift (eager r); run_rollout w r b noise step_noise sigmas
    end).
End runners.
