(* ===== verification/Pi05Scheduler.v ===== *)
(** * The scheduler of pi0.5 ([models/pi05/scheduler_pi05.py])

    One replica that runs requests of up to [max_batch_size] samples at the
    fixed shapes of its runners.  The layout of a request depends on its
    lengths only; layouts are remembered, and the runners are planned again
    only when the layout changes. *)

From S2P Require Import Prelude Tensor KvCache Attention Paged PiConfig Pi05Runners.
Open Scope Z_scope.

(** The key of a layout: the batch size and the language lengths. *)
Abbreviation layout_key := (Z * list Z)%type.

(** [_PI05Layout] *)
Record layout : Type := Layout {
  lo_n_real_total : Z;
  lo_n_per_sample : Z;
  lo_positions : list Z;
  lo_writes : list Z;
  lo_lang_mask : list (list bool);
  lo_prefix_mask : list (list bool);
  lo_prefix_meta : paged_meta;
  lo_joint_meta : paged_meta;
}.

(** [_lang_buckets]: the sorted set of the shorter buckets and the maximum *)
Definition lang_buckets (tok_max : Z) : list Z := List.filter (λ b, (0 <? b) && (b <? tok_max)) [16; 48; 112] ++ [tok_max].

(** The batch geometry of a scheduler *)
Record geometry : Type := Geometry { gm_max_b : Z; gm_n_img : Z; gm_tok_max : Z; gm_chunk : Z }.

Definition gm_n (g : geometry) : Z := gm_n_img g + gm_tok_max g.
Definition sentinel_slot : Z := 0.
Definition prefix_base : Z := 1.
Definition prefix_capacity (g : geometry) : Z := gm_max_b g * gm_n g.
Definition suffix_capacity (g : geometry) : Z := gm_max_b g * gm_chunk g.
Definition suffix_base (g : geometry) : Z := prefix_base + prefix_capacity g.
Definition total_slots (g : geometry) : Z := 1 + prefix_capacity g + suffix_capacity g.

(** [_bucket_n_per_sample] *)
Definition bucket_n_per_sample (g : geometry) (max_lang : Z) : Z :=
  gm_n_img g + default (gm_tok_max g) (find (λ b, max_lang <=? b) (lang_buckets (gm_tok_max g))).

(** [max(lens, default=0)] *)
Definition max_default (lens : list Z) : Z := match lens with [] => 0 | l :: ls => foldr Z.max l ls end.

Definition fits_int32 (z : Z) : bool := (- 2 ^ 31 <=? z) && (z <? 2 ^ 31).

(** The lengths of all rows of the batch: those of the request, then zeros. *)
Definition padded_lens (max_b actual_b : Z) (lens : list Z) (extra : Z) : res (list Z) :=
  _ ← ensure (actual_b <=? max_b) IndexError;
  heads ← rmap (λ b : nat, of_option IndexError (lens !! b)) (seq 0 (Z.to_nat actual_b));
  Ok ((Z.add extra <$> heads) ++ replicate (Z.to_nat (max_b - actual_b)) 0).

(** [_build_layout] *)
Definition build_layout (g : geometry) (actual_b : Z) (lens : list Z) (n_ps : Z) : res layout :=
  let max_b := gm_max_b g in let chunk := gm_chunk g in
  let lang_bucket := n_ps - gm_n_img g in
  lang_list ← padded_lens max_b actual_b lens 0;
  real_list ← padded_lens max_b actual_b lens (gm_n_img g);
  let n_real_total := foldr Z.add 0 real_list in
  _ ← ensure (forallb fits_int32 real_list) RuntimeError;
  _ ← ensure (0 <=? lang_bucket) RuntimeError;
  let lang_mask := (λ len, (λ j, Z.of_nat j <? len) <$> seq 0 (Z.to_nat lang_bucket)) <$> lang_list in
  let prefix_mask := (λ '(b, mask), replicate (Z.to_nat (gm_n_img g)) (Z.of_nat b <? actual_b) ++ mask)
                       <$> zip (seq 0 (List.length lang_mask)) lang_mask in
  cu_q_prefix ← arange_steps max_b n_ps;
  _ ← ensure (0 <=? n_real_total) RuntimeError;
  write_indices ← padded_write_indices real_list n_ps prefix_base sentinel_slot;
  let position_ids := mjoin (replicate (Z.to_nat max_b) (arange 0 n_ps)) in
  prefix_meta ← prefill_meta max_b (max_b * n_ps) (to_int32 <$> cu_q_prefix) (to_int32 <$> cu_of real_list)
    (int32_indices (arange prefix_base n_real_total)) ((λ z, if 0 <? z then 1 else 0) <$> real_list)
    (Some write_indices) (Some position_ids);
  pos_ids_suffix ← suffix_pos_ids real_list chunk 0;
  cu_q_suffix ← arange_steps max_b chunk;
  let n_full := n_real_total + max_b * chunk in
  full ← visibility_indices real_list prefix_base (suffix_base g) chunk chunk (Some n_full);
  joint_meta ← prefill_meta max_b (max_b * chunk) (to_int32 <$> cu_q_suffix)
    (to_int32 <$> cu_of ((λ z, z + chunk) <$> real_list)) (IndexTensor [Z.of_nat (List.length full)] "int32" full)
    (replicate (Z.to_nat max_b) 1) None (Some pos_ids_suffix);
  Ok (Layout n_real_total n_ps position_ids write_indices lang_mask prefix_mask prefix_meta joint_meta).

Section scheduler.
Context {F E T : Type} `{TorchIndex E T}.
Context (plan_check : page_plan F → res unit).
(** The cameras of a sample, and the types of the runners. *)
Context {P W V TE M Ft : Type} (v_zero : V).
Context (vision_tower : W → P → res (list V)) (embed_lang : W → list Z → list V) (embed_time : W → list Qc → list TE).
Context (paligemma_lm : W → list V → list Z → paged_backend (F:=F) → paged_ctx → kv_pool (T:=T) → kv_pool (T:=T) * res (list V)).
Context (modulation : W → list TE → list M).
Context (expert_net : W → M → list chunk → list Z → paged_backend (F:=F) → paged_ctx → kv_pool (T:=T) →
  kv_pool (T:=T) * res (list chunk * list Ft)).
Context (value_head : W → option Z → Ft → Qc) (prefix_value : W → list V → list bool → Qc).
Context (randn : nat → Z → list chunk) `{Numbers}.

(** [PI05Request] and [PI05RolloutRequest]: a tensor is its shape and its
    rows. *)
Record request : Type := Request {
  rq_pixel_shape : list Z;
  rq_pixels : list P;
  rq_ids_shape : list Z;
  rq_ids : list (list Z);
  rq_lens_shape : list Z;
  rq_lens : list Z;
  rq_noise : option (list Z * list chunk);
}.

Record rollout_request : Type := RolloutRequest {
  rr_request : request;
  rr_step_noise : option (list Z * list (list chunk));
  rr_sigmas : option (list Z * list (list Qc));
  rr_compute_values : bool;
}.

(** [PI05RolloutOutput] *)
Record rollout_output : Type := RolloutOutput {
  ro_actions : list chunk;
  ro_chains : list (list chunk);
  ro_logprobs : list (list chunk);
  ro_values : option (list (list Qc));
}.

Record scheduler : Type := Pi05Scheduler {
  sd_cfg : pi05_config;
  sd_max_b : Z;
  sd_num_images : Z;
  sd_vision_graph : bool;
  sd_pool : kv_pool (T:=T);
  sd_prefix : static_cache;
  sd_suffix : static_cache;
  sd_llm : llm_runner (F:=F);
  sd_expert : expert_runner (F:=F) (TE:=TE) (M:=M);
  sd_time : option (list TE);
  sd_cache : dict layout_key layout;
  sd_last : option layout_key;
}.

Definition image_token_count (cfg : pi05_config) (num_images : Z) : Z := num_patches (c5_vision cfg) * num_images.

Definition sd_geometry (cfg : pi05_config) (max_b num_images : Z) : geometry :=
  Geometry max_b (image_token_count cfg num_images) (c5_tokenizer_max cfg) (c5_chunk cfg).

Definition geometry_of (s : scheduler) : geometry := sd_geometry (sd_cfg s) (sd_max_b s) (sd_num_images s).

(** [PI05Scheduler.__init__] with the backends the catalog selected for the
    two paged runners *)
Definition scheduler_init (cfg : pi05_config) (llm_layers expert_layers : list (paged_layer F)) (llm_b expert_b : paged_backend (F:=F))
    (max_b num_images : Z) (use_cuda_graph cuda capture_rollout : bool) : res scheduler :=
  _ ← ensure (0 <? max_b) ValueError;
  _ ← ensure (0 <? num_images) ValueError;
  let g := sd_geometry cfg max_b num_images in
  pool ← pool_init (st_layers (c5_text cfg)) (total_slots g) (st_kv_heads (c5_text cfg)) (st_head_dim (c5_text cfg)) 1;
  prefix ← static_init pool prefix_base (prefix_capacity g);
  suffix ← static_init pool (suffix_base g) (suffix_capacity g);
  llm ← llm_init llm_layers llm_b max_b (gm_n g) use_cuda_graph cuda (Some (max_b * gm_n g));
  expert ← expert_runner_init expert_layers expert_b max_b (c5_chunk cfg) (c5_value_head cfg && negb (c5_value_after_vlm cfg))
    (c5_critic_chunk cfg) use_cuda_graph cuda capture_rollout (Some (max_b * (gm_n g + c5_chunk cfg)));
  Ok (Pi05Scheduler cfg max_b num_images false pool prefix suffix llm expert None [] None).

Definition with_runners (llm : llm_runner) (expert : expert_runner) (pool : kv_pool) (s : scheduler) : scheduler :=
  Pi05Scheduler (sd_cfg s) (sd_max_b s) (sd_num_images s) (sd_vision_graph s) pool (sd_prefix s) (sd_suffix s) llm expert
    (sd_time s) (sd_cache s) (sd_last s).
Definition with_caches (prefix suffix : static_cache) (s : scheduler) : scheduler :=
  Pi05Scheduler (sd_cfg s) (sd_max_b s) (sd_num_images s) (sd_vision_graph s) (sd_pool s) prefix suffix (sd_llm s) (sd_expert s)
    (sd_time s) (sd_cache s) (sd_last s).
Definition with_layouts (cache : dict layout_key layout) (last : option layout_key) (s : scheduler) : scheduler :=
  Pi05Scheduler (sd_cfg s) (sd_max_b s) (sd_num_images s) (sd_vision_graph s) (sd_pool s) (sd_prefix s) (sd_suffix s) (sd_llm s)
    (sd_expert s) (sd_time s) cache last.
Definition with_setup (vision_graph : bool) (time : option (list TE)) (s : scheduler) : scheduler :=
  Pi05Scheduler (sd_cfg s) (sd_max_b s) (sd_num_images s) vision_graph (sd_pool s) (sd_prefix s) (sd_suffix s) (sd_llm s)
    (sd_expert s) time (sd_cache s) (sd_last s).

Definition on_llm {A} (m : act (llm_runner * kv_pool) A) : act scheduler A :=
  zoom (λ s, (sd_llm s, sd_pool s)) (λ c s, with_runners c.1 (sd_expert s) c.2 s) m.
Definition on_expert {A} (m : act (expert_runner * kv_pool) A) : act scheduler A :=
  zoom (λ s, (sd_expert s, sd_pool s)) (λ c s, with_runners (sd_llm s) c.1 c.2 s) m.

Abbreviation llm_setup := (llm_setup plan_check v_zero paligemma_lm).
Abbreviation expert_setup := (expert_setup plan_check expert_net value_head).

(** The flow-matching times and the step size *)
Definition step_times (n : Z) : list Qc := linspace 1%Qc (1 / Q2Qc (inject_Z n))%Qc (Z.to_nat n).
Definition step_size (n : Z) : Qc := (- (1) / Q2Qc (inject_Z n))%Qc.

(** [setup] *)
Definition scheduler_setup (w : W) : act scheduler unit :=
  s ← gets id;
  let g := geometry_of s in
  let steps := c5_steps (sd_cfg s) in
  _ ← modify (λ s, with_setup (lr_use_graph (sd_llm s)) (sd_time s) s);
  _ ← on_llm (llm_setup w (Some ((Z.add (gm_n_img g)) <$> lang_buckets (gm_tok_max g))));
  let table := embed_time w (step_times steps) in
  _ ← modify (λ s, with_setup (sd_vision_graph s) (Some table) s);
  _ ← on_expert (on_runner (bind_euler_schedule modulation w table (step_size steps) steps));
  _ ← on_expert (on_runner (set_write_indices (arange (suffix_base g) (suffix_capacity g))));
  on_expert (expert_setup w (c5_action_dim (sd_cfg s))).

(** [refresh_weight_dependent_state] *)
Definition refresh_weight_dependent_state (w : W) : act scheduler unit :=
  s ← gets id;
  let steps := c5_steps (sd_cfg s) in
  let table := embed_time w (step_times steps) in
  _ ← modify (λ s, with_setup (sd_vision_graph s) (Some table) s);
  _ ← on_expert (on_runner (bind_euler_schedule modulation w table (step_size steps) steps));
  _ ← on_expert (recapture_after_weight_update plan_check expert_net value_head w (c5_action_dim (sd_cfg s)));
  mret ().

(** [_validate] *)
Definition actual_batch (rq : request) : Z := default 0 (rq_pixel_shape rq !! 0%nat).

Definition validate (s : scheduler) (rq : request) : res unit :=
  let cfg := sd_cfg s in
  let image := vc_image (c5_vision cfg) in
  match rq_pixel_shape rq with
  | [b; n; _; h; w] =>
      _ ← ensure ((1 <=? b) && (b <=? sd_max_b s)) ValueError;
      _ ← ensure (n =? sd_num_images s) ValueError;
      _ ← ensure ((h =? image) && (w =? image)) ValueError;
      _ ← ensure (bool_decide (rq_ids_shape rq = [b; c5_tokenizer_max cfg])) ValueError;
      _ ← ensure (bool_decide (rq_lens_shape rq = [b])) ValueError;
      ensure (match rq_noise rq with Some (sh, _) => bool_decide (sh = [b; c5_chunk cfg; c5_action_dim cfg]) | None => true end)
        ValueError
  | _ => Err ValueError
  end.

(** [_validate_rollout] *)
Definition validate_rollout (s : scheduler) (rr : rollout_request) (actual_b : Z) : res (list (list Qc)) :=
  let cfg := sd_cfg s in
  sigmas ← of_option ValueError (rr_sigmas rr);
  _ ← ensure (negb (rr_compute_values rr && negb (c5_value_head cfg))) ValueError;
  _ ← ensure (match rr_step_noise rr with
              | Some (sh, _) => bool_decide (sh = [actual_b; c5_steps cfg; c5_chunk cfg; c5_action_dim cfg])
              | None => true
              end) ValueError;
  _ ← ensure (bool_decide (sigmas.1 = [actual_b; c5_steps cfg])) ValueError;
  Ok sigmas.2.

(** [_pack_prefix]: the image rows, then the language rows of the bucket with
    those past the length zeroed *)
Definition pack_prefix (n_img : Z) (image_embs lang_embs : list (list V)) (lo : layout) : res (list V) :=
  _ ← ensure (forallb (λ e, Z.of_nat (List.length e) =? n_img) image_embs) RuntimeError;
  let bucket := Z.to_nat (lo_n_per_sample lo - n_img) in
  let langs := zip_with (zip_with (λ v (real : bool), if real then v else v_zero)) (take bucket <$> lang_embs) (lo_lang_mask lo) in
  Ok (mjoin (zip_with app image_embs langs)).

(** [vision_runner.forward] on the cameras of one sample: a graph takes inputs
    of its own shape only. *)
Definition vision_forward (s : scheduler) (w : W) (rq : request) (b : nat) : res (list V) :=
  let v := c5_vision (sd_cfg s) in
  _ ← ensure (negb (sd_vision_graph s) ||
              bool_decide (drop 1 (rq_pixel_shape rq) = [sd_num_images s; vc_channels v; vc_image v; vc_image v])) CudaGraphError;
  cameras ← of_option IndexError (rq_pixels rq !! b);
  vision_tower w cameras.

(** The layout of a request, from the cache or built and remembered *)
Definition request_layout (key : layout_key) (n_ps : Z) : act scheduler layout :=
  s ← gets id;
  match dget (sd_cache s) key with
  | Some lo => mret lo
  | None =>
      lo ← lift (build_layout (geometry_of s) key.1 key.2 n_ps);
      _ ← modify (λ s, with_layouts (dset (sd_cache s) key lo) (sd_last s) s);
      mret lo
  end.

(** The slots a plan claims: both allocators start over. *)
Definition allocate_slots (n_real_total n_suffix : Z) : act scheduler unit :=
  _ ← modify (λ s, with_caches (reset (sd_prefix s)) (reset (sd_suffix s)) s);
  _ ← zoom sd_prefix (λ c s, with_caches c (sd_suffix s) s) (λ c, allocate c n_real_total);
  _ ← zoom sd_suffix (λ c s, with_caches (sd_prefix s) c s) (λ c, allocate c n_suffix);
  mret ().

(** [_prepare_prefix] *)
Definition prepare_prefix (w : W) (rq : request) : act scheduler (list V * layout) :=
  s ← gets id;
  let g := geometry_of s in
  let b := actual_batch rq in
  let key := (b, rq_lens rq) in
  let n_ps := bucket_n_per_sample g (max_default (rq_lens rq)) in
  lo ← request_layout key n_ps;
  let plan_changed := negb (bool_decide (sd_last s = Some key)) in
  images ← lift (rmap (vision_forward s w rq) (seq 0 (Z.to_nat b)));
  let pad {A} (x : A) (l : list A) := l ++ replicate (Z.to_nat (gm_max_b g - b)) x in
  let image_embs := pad (replicate (Z.to_nat (gm_n_img g)) v_zero) images in
  let lang_embs := embed_lang w <$> pad (replicate (Z.to_nat (gm_tok_max g)) 0) (rq_ids rq) in
  packed ← lift (pack_prefix (gm_n_img g) image_embs lang_embs lo);
  _ ← (if plan_changed then
         _ ← allocate_slots (lo_n_real_total lo) (suffix_capacity g);
         on_llm (on_runner (llm_plan plan_check (lo_prefix_meta lo)))
       else mret ());
  out ← on_llm (llm_forward paligemma_lm w packed (lo_positions lo) (lo_writes lo) (Some (lo_n_per_sample lo)));
  _ ← (if plan_changed then on_expert (on_runner (expert_plan plan_check (lo_joint_meta lo))) else mret ());
  _ ← modify (λ s, with_layouts (sd_cache s) (Some key) s);
  mret (out, lo).

(** The rows of a tensor placed into zeros of the full batch *)
Definition pad_batch {A} (max_b : Z) (zero : A) (rows : list A) : list A :=
  rows ++ replicate (Z.to_nat (max_b - Z.of_nat (List.length rows))) zero.

Definition zero_chunk (cfg : pi05_config) : chunk := replicate (Z.to_nat (c5_chunk cfg * c5_action_dim cfg)) 0%Qc.

(** [step] *)
Definition step (w : W) (rq : request) : act scheduler (list chunk) :=
  s ← gets id;
  _ ← lift (validate s rq);
  _ ← prepare_prefix w rq;
  _ ← lift (of_option RuntimeError (sd_time s));
  let noise := match rq_noise rq with
               | None => randn 0 (sd_max_b s)
               | Some (_, rows) => pad_batch (sd_max_b s) (zero_chunk (sd_cfg s)) rows
               end in
  x ← on_expert (expert_forward expert_net w noise);
  mret (take (Z.to_nat (actual_batch rq)) x).

(** [value_from_prefix] of the samples of the request *)
Definition prefix_values (w : W) (actual_b : Z) (out : list V) (lo : layout) : list Qc :=
  let n := Z.to_nat (lo_n_per_sample lo) in
  (λ b, prefix_value w (take n (drop (b * n) out)) (default [] (lo_prefix_mask lo !! b))) <$> seq 0 (Z.to_nat actual_b).

(** [rollout_step] *)
Definition rollout_step (w : W) (rr : rollout_request) : act scheduler rollout_output :=
  let rq := rr_request rr in
  s ← gets id;
  let cfg := sd_cfg s in
  let b := actual_batch rq in
  let steps := Z.to_nat (c5_steps cfg) in
  _ ← lift (validate s rq);
  sigmas ← lift (validate_rollout s rr b);
  '(out, lo) ← prepare_prefix w rq;
  let noise := match rq_noise rq with None => randn 0 b | Some (_, rows) => rows end in
  let first := match rq_noise rq with None => 1%nat | Some _ => 0%nat end in
  let step_noise := match rr_step_noise rr with
                    | None => stack_steps (Z.to_nat b) ((λ k, randn (first + k) b) <$> seq 0 steps)
                    | Some (_, rows) => rows
                    end in
  tj ← on_expert (expert_forward_rollout expert_net value_head w (pad_batch (sd_max_b s) (zero_chunk cfg) noise)
         (pad_batch (sd_max_b s) (replicate steps (zero_chunk cfg)) step_noise)
         (pad_batch (sd_max_b s) (replicate steps 0%Qc) sigmas));
  let cut {A} (l : list A) := take (Z.to_nat b) l in
  mret (RolloutOutput (cut (tj_actions tj)) (cut (tj_chains tj)) (cut (tj_logprobs tj))
    (if rr_compute_values rr then
       Some (if c5_value_after_vlm cfg then (λ v, [v]) <$> prefix_values w b out lo else cut (tj_values tj))
     else None)).
End scheduler.
