(* ===== verification/Pi05Props.v ===== *)
(** * Properties of the pi0.5 scheduler: layouts

    Every accepted batch gets a layout both backends can run, in which a
    sample sees its own slots and nothing else. *)

From S2P Require Import Prelude Tensor KvCache KvProps Attention AttentionProps Paged PagedProps PiConfig Pi05Runners Pi05Scheduler.
Open Scope Z_scope.

(** ** Offsets and spans *)

Lemma sum_replicate n z : foldr Z.add 0 (replicate n z) = Z.of_nat n * z.
Proof. induction n as [|n IH]; [done|]. rewrite replicate_S. simpl. rewrite IH. lia. Qed.

Lemma steps_cu (n : nat) z : Z.mul z <$> seqZ 0 (Z.of_nat n + 1) = cu_of (replicate n z).
Proof.
  assert (List.length (cu_of (replicate n z)) = S n) as Hlen by (unfold cu_of; simpl; by rewrite cumsum_length, length_replicate).
  apply list_eq. intros i. destruct (decide (i ≤ n)%nat) as [Hi|Hi].
  - rewrite cu_of_lookup by (by rewrite length_replicate). rewrite take_replicate, sum_replicate, list_lookup_fmap, lookup_seqZ_lt by lia.
    simpl. f_equal. rewrite Nat.min_l by done. lia.
  - rewrite !lookup_ge_None_2; [done|rewrite ?length_fmap, ?length_seqZ; lia..].
Qed.

Lemma cu_length lens : List.length (cu_of lens) = S (List.length lens).
Proof. unfold cu_of. simpl. by rewrite cumsum_length. Qed.

Lemma cu_offsets_ok lens : nonneg lens → offsets_ok (Z.of_nat (List.length lens)) (cu_of lens) = true.
Proof.
  intros Hl. unfold offsets_ok. rewrite cu_length. replace (Z.of_nat (S (List.length lens))) with (Z.of_nat (List.length lens) + 1) by lia.
  rewrite Z.eqb_refl, bool_decide_true by done. simpl andb. apply forallb_forall. intros [a b] Hin.
  apply list_elem_of_In, list_elem_of_lookup_1 in Hin as [n [Ha Hb]%pairs_lookup]. simpl.
  pose proof (lookup_lt_Some _ _ _ Hb) as Hn. rewrite cu_length in Hn.
  rewrite cu_of_lookup in Ha, Hb by lia. injection Ha as <-. injection Hb as <-. apply Z.leb_le, sum_take_mono; [done|lia].
Qed.

Lemma cu_int32 lens : nonneg lens → foldr Z.add 0 lens < 2 ^ 31 → to_int32 <$> cu_of lens = cu_of lens.
Proof.
  intros Hl Hs. apply to_int32_list. apply Forall_lookup. intros n o Ho. pose proof (lookup_lt_Some _ _ _ Ho) as Hn. rewrite cu_length in Hn.
  rewrite cu_of_lookup in Ho by lia. injection Ho as <-. pose proof (sum_take_mono lens n (List.length lens) Hl ltac:(lia)) as Hm.
  rewrite firstn_all in Hm. split; [by apply sum_nonneg, Forall_take|lia].
Qed.

(** Metadata made of lengths is well-formed. *)
Lemma prefill_meta_step ql kl idx lp w p :
  nonneg ql → nonneg kl → List.length ql = List.length kl → foldr Z.add 0 ql < 2 ^ 31 → foldr Z.add 0 kl < 2 ^ 31 →
  ix_shape idx = [Z.of_nat (List.length (ix_values idx))] → Z.of_nat (List.length (ix_values idx)) = foldr Z.add 0 kl →
  (∀ n k, kl !! n = Some k → 0 < k → lp !! n = Some 1) →
  let m := PagedMeta false true (Z.of_nat (List.length ql)) (foldr Z.add 0 ql) (Some (cu_of ql)) (Some (cu_of kl)) (Some idx) (Some lp) w p in
  prefill_meta (Z.of_nat (List.length ql)) (foldr Z.add 0 ql) (to_int32 <$> cu_of ql) (to_int32 <$> cu_of kl) idx lp w p = Ok m ∧
  paged_step m (cu_of ql) (cu_of kl) idx.
Proof.
  intros Hq Hk Hlen Hsq Hsk Hsh Hv Hlp m. pose proof (sum_nonneg _ Hq). rewrite !cu_int32 by done. split.
  - unfold prefill_meta, paged_meta_init. simpl. destruct (Z.ltb_spec (Z.of_nat (List.length ql)) 0); [lia|].
    by destruct (Z.ltb_spec (foldr Z.add 0 ql) 0); [lia|].
  - split; [|done|done|by rewrite !last_cu|].
    2: { exists lp. split; [done|]. intros n ks ke [Hks Hke]%pairs_lookup Hlt.
         pose proof (lookup_lt_Some _ _ _ Hke) as Hn. rewrite cu_length in Hn.
         destruct (lookup_lt_is_Some_2 kl n ltac:(lia)) as [k Hkn]. apply (Hlp n k Hkn).
         rewrite cu_of_lookup in Hks, Hke by lia. rewrite (sum_take_S _ _ _ Hkn) in Hke. simplify_eq. lia. }
    unfold sdpa_offsets, m.
    cbn [pm_ragged pm_cu_q pm_kv_indptr pm_kv_indices pm_batch_size pm_num_query_tokens].
    rewrite cu_offsets_ok by done. rewrite Hlen, cu_offsets_ok by done. cbn [andb ensure mbind res_bind].
    by rewrite !last_cu, Hv, !Z.eqb_refl.
Qed.

Lemma full_lens_0 lens : full_lens lens 0 = lens.
Proof. unfold full_lens. rewrite <- (list_fmap_id lens) at 2. apply list_fmap_ext. intros ? z _. simpl. lia. Qed.

(** The prefix rows of all samples are consecutive. *)
Lemma arange_visible lens pb sb st : nonneg lens → arange pb (foldr Z.add 0 lens) = visible_slots lens pb sb st 0.
Proof.
  intros Hl. pose proof (visible_slots_length lens pb sb st 0 Hl ltac:(lia)) as Hlen. rewrite full_lens_0 in Hlen.
  apply list_eq. intros x. unfold arange. destruct (decide (x < List.length (visible_slots lens pb sb st 0))%nat) as [Hx|Hx].
  - rewrite list_lookup_fmap, lookup_seq_lt by lia. simpl. destruct (join_index _ x Hx) as (n & l & i & Hn & Hi & ->).
    pose proof (lookup_lt_Some _ _ _ Hn) as Hlt. rewrite slot_pieces_length in Hlt. destruct (lookup_lt_is_Some_2 lens n Hlt) as [real Hr].
    unfold visible_slots. rewrite (join_lookup _ n _ i Hn Hi). rewrite (slot_pieces_lookup lens pb sb st 0 n real Hr) in Hn. injection Hn as <-.
    unfold prefix_slots, suffix_slots in Hi |- *. rewrite app_nil_r in Hi |- *. rewrite length_fmap, length_seq in Hi.
    rewrite list_lookup_fmap, lookup_seq_lt by lia. simpl. f_equal.
    pose proof (slot_pieces_prefix lens pb sb st 0 n Hl ltac:(lia) ltac:(lia)) as Hp. rewrite full_lens_0 in Hp. lia.
  - rewrite !lookup_ge_None_2; [done|rewrite ?length_fmap, ?length_seq; lia..].
Qed.

(** The span of a row in pieces of one length is its piece. *)
Lemma span_pieces {A} (pieces : list (list A)) n b p :
  0 <= n → (∀ l, l ∈ pieces → List.length l = Z.to_nat n) → pieces !! b = Some p →
  span_of (cu_of (replicate (List.length pieces) n)) (mjoin pieces) b = p.
Proof.
  intros Hn Hlen Hb. pose proof (lookup_lt_Some _ _ _ Hb) as Hlt.
  pose proof (Hlen p (list_elem_of_lookup_2 _ _ _ Hb)) as Hp.
  assert (List.length (mjoin (take b pieces)) = b * Z.to_nat n)%nat as Ht.
  { rewrite (join_uniform_length _ (Z.to_nat n)), length_take; [lia|].
    intros l Hl. apply Hlen. eapply elem_of_sublist; [exact Hl|apply sublist_take]. }
  unfold span_of. rewrite !cu_of_nth by (rewrite length_replicate; lia).
  rewrite !take_replicate, !sum_replicate, !Nat.min_l by lia.
  etrans; [|exact (cut_pieces_join pieces b p Hb)]. rewrite Ht, Hp. f_equal; lia.
Qed.

(** ** Batches *)

(** The real prefix lengths of the rows of a batch *)
Definition real_lens (g : geometry) (lens : list Z) : list Z :=
  (Z.add (gm_n_img g) <$> lens) ++ replicate (Z.to_nat (gm_max_b g) - List.length lens) 0.

(** A batch within the geometry, whose slots fit in 32 bits *)
Record batch_ok (g : geometry) (lens : list Z) : Prop := {
  bo_some : lens ≠ [];
  bo_size : Z.of_nat (List.length lens) <= gm_max_b g;
  bo_lens : Forall (λ l, 0 <= l <= gm_tok_max g) lens;
  bo_img : 0 < gm_n_img g;
  bo_chunk : 0 < gm_chunk g;
  bo_slots : total_slots g < 2 ^ 31;
}.

Lemma max_default_spec lens l : l ∈ lens → l <= max_default lens.
Proof.
  destruct lens as [|x lens]; [by intros ?%not_elem_of_nil|]. simpl. induction lens as [|y lens IH]; simpl.
  - intros ->%list_elem_of_singleton. lia.
  - intros [-> | [-> | Hin]%elem_of_cons]%elem_of_cons; [|lia|].
    + etransitivity; [apply IH; by left|lia].
    + etransitivity; [apply IH; by right|lia].
Qed.

Lemma max_default_in lens : lens ≠ [] → max_default lens ∈ lens.
Proof.
  destruct lens as [|x lens]; [done|]. intros _. simpl. induction lens as [|y lens IH]; simpl; [by left|].
  destruct (Z.max_spec y (foldr Z.max x lens)) as [[_ ->] | [_ ->]]; [|by right; left].
  apply elem_of_cons in IH as [-> | IH]; [by left|by right; right].
Qed.

(** The bucket covers the longest prompt and is the smallest that does. *)
Lemma bucket_spec g l :
  l <= gm_tok_max g →
  ∃ b, bucket_n_per_sample g l = gm_n_img g + b ∧ b ∈ lang_buckets (gm_tok_max g) ∧ l <= b <= gm_tok_max g ∧
    ∀ b', b' ∈ lang_buckets (gm_tok_max g) → l <= b' → b <= b'.
Proof.
  intros Hl. unfold bucket_n_per_sample, lang_buckets. simpl. set (t := gm_tok_max g) in *.
  destruct (Z.ltb_spec 16 t), (Z.ltb_spec 48 t), (Z.ltb_spec 112 t); simpl; try lia;
    repeat match goal with |- context [l <=? ?b] => destruct (Z.leb_spec l b); simpl end; try lia;
    (eexists; split; [reflexivity|]; split; [set_solver|]; split; [lia|]);
    intros b' Hb' ?; repeat (apply elem_of_cons in Hb' as [-> | Hb']; [lia|]); by apply not_elem_of_nil in Hb'.
Qed.

Section batch.
Context (g : geometry) (lens : list Z) (Hok : batch_ok g lens).

Abbreviation n_ps := (bucket_n_per_sample g (max_default lens)).
Abbreviation real := (real_lens g lens).

Lemma max_lang_bound : 0 <= max_default lens <= gm_tok_max g.
Proof. destruct Hok as [Hne _ Hl _ _ _]. by apply (proj1 (Forall_forall _ _) Hl), max_default_in. Qed.

Lemma n_ps_bound : gm_n_img g + max_default lens <= n_ps <= gm_n g.
Proof. destruct (bucket_spec g (max_default lens)) as (b & -> & _ & Hb & _); [apply max_lang_bound|]. unfold gm_n. lia. Qed.

Lemma real_length : List.length real = Z.to_nat (gm_max_b g).
Proof. unfold real_lens. rewrite length_app, length_fmap, length_replicate. pose proof (bo_size _ _ Hok). lia. Qed.

Lemma real_bound : Forall (λ r, 0 <= r <= n_ps) real.
Proof.
  pose proof n_ps_bound. pose proof max_lang_bound. destruct Hok as [_ _ Hl ? _ _]. apply Forall_app. split.
  - apply Forall_fmap, Forall_forall. intros l Hin. pose proof (proj1 (Forall_forall _ _) Hl l Hin). pose proof (max_default_spec _ _ Hin).
    simpl in *. lia.
  - apply Forall_replicate. lia.
Qed.

Lemma real_nonneg : nonneg real.
Proof. eapply Forall_impl; [apply real_bound|]. simpl. lia. Qed.

Lemma real_sum : foldr Z.add 0 real <= gm_max_b g * n_ps.
Proof.
  pose proof real_bound as Hb. assert (∀ l n, Forall (λ r, 0 <= r <= n) l → foldr Z.add 0 l <= Z.of_nat (List.length l) * n) as Hs.
  { intros l n. induction 1 as [|z l Hz _ IH]; simpl; [lia|]. nia. }
  pose proof (Hs _ _ Hb) as Hs'. rewrite real_length in Hs'. pose proof (bo_size _ _ Hok). by rewrite Z2Nat.id in Hs' by lia.
Qed.

Lemma sum_full c l : foldr Z.add 0 (full_lens l c) = foldr Z.add 0 l + Z.of_nat (List.length l) * c.
Proof. unfold full_lens. induction l as [|z l IH]; [done|]. rewrite fmap_cons. cbn [foldr List.length]. rewrite IH. lia. Qed.

Lemma batch_positive : 0 < gm_max_b g ∧ 0 < n_ps.
Proof.
  destruct Hok as [Hne Hs _ Hi _ _]. pose proof n_ps_bound. pose proof max_lang_bound. destruct lens; [done|]. simpl in *. lia.
Qed.

Lemma padded_lens_ok extra :
  padded_lens (gm_max_b g) (Z.of_nat (List.length lens)) lens extra =
  Ok ((Z.add extra <$> lens) ++ replicate (Z.to_nat (gm_max_b g) - List.length lens) 0).
Proof.
  unfold padded_lens. pose proof (bo_size _ _ Hok). destruct (Z.leb_spec (Z.of_nat (List.length lens)) (gm_max_b g)); [|lia].
  cbn [ensure mbind res_bind]. rewrite Nat2Z.id. assert (rmap (λ b : nat, of_option IndexError (lens !! b)) (seq 0 (List.length lens)) = Ok lens) as ->.
  { apply rmap_ok, Forall2_lookup. intros i. destruct (decide (i < List.length lens)%nat) as [Hi|Hi].
    - destruct (lookup_lt_is_Some_2 lens i Hi) as [x Hx]. rewrite lookup_seq_lt by done. rewrite Hx. constructor. simpl. by rewrite Hx.
    - rewrite !lookup_ge_None_2; [constructor|rewrite ?length_seq; lia..]. }
  simpl. do 3 f_equal. lia.
Qed.

Lemma arange_steps_ok step : 0 < step → arange_steps (gm_max_b g) step = Ok (cu_of (replicate (Z.to_nat (gm_max_b g)) step)).
Proof.
  intros Hs. pose proof batch_positive. unfold arange_steps. destruct (Z.eqb_spec step 0); [lia|]. simpl.
  by rewrite <- steps_cu, Z2Nat.id by lia.
Qed.

(** A metadata of the batch: the same number of queries for every sample *)
Lemma batch_meta q kl idx lp w p :
  0 < q → gm_max_b g * q < 2 ^ 31 → nonneg kl → List.length kl = Z.to_nat (gm_max_b g) → foldr Z.add 0 kl < 2 ^ 31 →
  ix_shape idx = [Z.of_nat (List.length (ix_values idx))] → Z.of_nat (List.length (ix_values idx)) = foldr Z.add 0 kl →
  (∀ n k, kl !! n = Some k → 0 < k → lp !! n = Some 1) →
  ∃ m, prefill_meta (gm_max_b g) (gm_max_b g * q) (to_int32 <$> cu_of (replicate (Z.to_nat (gm_max_b g)) q)) (to_int32 <$> cu_of kl)
         idx lp w p = Ok m ∧ paged_step m (cu_of (replicate (Z.to_nat (gm_max_b g)) q)) (cu_of kl) idx
    ∧ pm_last_page_len m = Some lp ∧ pm_write_indices m = w ∧ pm_position_ids m = p.
Proof.
  intros Hq Hb Hk Hlen Hs Hsh Hv Hlp. pose proof batch_positive. set (B := Z.to_nat (gm_max_b g)) in *.
  assert (gm_max_b g = Z.of_nat (List.length (replicate B q))) as Hg by (rewrite length_replicate; lia).
  assert (gm_max_b g * q = foldr Z.add 0 (replicate B q)) as Hqs by (rewrite sum_replicate; lia).
  assert (nonneg (replicate B q)) as Hn by (apply Forall_replicate; lia).
  destruct (prefill_meta_step (replicate B q) kl idx lp w p Hn Hk) as [Hm Hst]; [by rewrite length_replicate|lia..|done|done|exact Hlp|].
  rewrite <- Hqs, <- Hg in Hm, Hst. eexists. split; [exact Hm|]. done.
Qed.

Lemma slots_bound : gm_max_b g * gm_n g < 2 ^ 31 ∧ gm_max_b g * gm_chunk g < 2 ^ 31 ∧ foldr Z.add 0 real <= prefix_capacity g.
Proof.
  pose proof batch_positive. pose proof real_sum. pose proof n_ps_bound. pose proof max_lang_bound.
  destruct Hok as [_ _ _ ? ? Hs]. unfold total_slots, prefix_capacity, suffix_capacity, gm_n in *. split; [nia|split; nia].
Qed.

(** Every slot of a pass lies in the pool, past the sentinel. *)
Lemma piece_in_pool b len s :
  real !! b = Some len → s ∈ prefix_slots real prefix_base b len ++ suffix_slots (suffix_base g) (gm_chunk g) (gm_chunk g) b →
  1 <= s < total_slots g.
Proof.
  intros Hb. pose proof (lookup_lt_Some _ _ _ Hb) as Hlt. rewrite real_length in Hlt. pose proof (bo_chunk _ _ Hok).
  destruct slots_bound as (_ & _ & Hc). pose proof (sum_take_mono real (S b) (List.length real) real_nonneg ltac:(rewrite real_length; lia)) as Hm.
  rewrite firstn_all, (sum_take_S _ _ _ Hb) in Hm. pose proof (Forall_lookup_1 _ _ _ _ real_bound Hb) as Hl. simpl in Hl.
  assert (0 <= foldr Z.add 0 (take b real)) by (apply sum_nonneg, Forall_take, real_nonneg).
  assert (0 <= prefix_capacity g) by (pose proof (sum_nonneg _ real_nonneg); lia).
  unfold total_slots, suffix_capacity. unfold suffix_base, prefix_base in *.
  rewrite elem_of_app, elem_prefix_slots, elem_suffix_slots. intros [Hs|Hs]; [nia|]. 
  assert (Z.of_nat b + 1 <= gm_max_b g) by lia. nia.
Qed.

Lemma slots_in_pool vis : 0 <= vis <= gm_chunk g →
  Forall (λ s, 1 <= s < total_slots g) (visible_slots real prefix_base (suffix_base g) (gm_chunk g) vis).
Proof.
  intros Hv. apply Forall_forall. intros s Hs. unfold visible_slots in Hs. apply list_elem_of_join in Hs as (p & Hs & Hp).
  apply list_elem_of_lookup_1 in Hp as [b Hb]. pose proof (lookup_lt_Some _ _ _ Hb) as Hlt. rewrite slot_pieces_length in Hlt.
  destruct (lookup_lt_is_Some_2 real b Hlt) as [len Hl]. rewrite (slot_pieces_lookup _ _ _ _ _ _ _ Hl) in Hb. injection Hb as <-.
  apply (piece_in_pool b len s Hl). rewrite elem_of_app in Hs |- *. destruct Hs as [Hs|Hs]; [by left|right].
  rewrite elem_suffix_slots in Hs |- *. lia.
Qed.

(** The slots of the two passes of a layout *)
Abbreviation prefix_pass := (arange prefix_base (foldr Z.add 0 real)).
Abbreviation joint_pass := (visible_slots real prefix_base (suffix_base g) (gm_chunk g) (gm_chunk g)).

Lemma int32_pass l : Forall (λ s, 1 <= s < total_slots g) l → to_int32 <$> l = l.
Proof. intros Hl. apply to_int32_list. eapply Forall_impl; [exact Hl|]. pose proof (bo_slots _ _ Hok). simpl. lia. Qed.

Lemma prefix_pass_visible : prefix_pass = visible_slots real prefix_base (suffix_base g) (gm_chunk g) 0.
Proof. apply arange_visible, real_nonneg. Qed.

Lemma prefix_pass_int32 : to_int32 <$> prefix_pass = prefix_pass.
Proof. apply int32_pass. rewrite prefix_pass_visible. apply slots_in_pool. pose proof (bo_chunk _ _ Hok). lia. Qed.

Lemma real_fits : forallb fits_int32 real = true.
Proof.
  apply forallb_forall. intros r Hr%list_elem_of_In. pose proof (proj1 (Forall_forall _ _) real_bound r Hr) as Hb. simpl in Hb.
  pose proof batch_positive. pose proof n_ps_bound. destruct slots_bound as (? & _). unfold fits_int32.
  apply andb_true_intro. split; [apply Z.leb_le; lia|apply Z.ltb_lt; nia].
Qed.

(** The masks of a batch: which tokens of a row are real *)
Definition row_mask (len n : Z) : list bool := (λ j : nat, Z.of_nat j <? len) <$> seq 0 (Z.to_nat n).

Lemma row_mask_split len n m : 0 <= n → 0 <= m →
  row_mask len (n + m) = row_mask len n ++ row_mask (len - n) m.
Proof.
  intros Hn Hm. unfold row_mask. rewrite Z2Nat.inj_add, seq_app, fmap_app by done. f_equal. simpl.
  replace (seq (Z.to_nat n) (Z.to_nat m)) with (Nat.add (Z.to_nat n) <$> seq 0 (Z.to_nat m)) by (rewrite fmap_add_seq; f_equal; lia).
  rewrite <- list_fmap_compose. apply list_fmap_ext. intros ? j _. simpl.
  destruct (Z.ltb_spec (Z.of_nat (Z.to_nat n + j)) len), (Z.ltb_spec (Z.of_nat j) (len - n)); done || lia.
Qed.

Lemma row_mask_all len n : n <= len → row_mask len n = replicate (Z.to_nat n) true.
Proof.
  intros Hn. apply list_eq. intros i. unfold row_mask. destruct (decide (i < Z.to_nat n)%nat) as [Hi|Hi].
  - rewrite list_lookup_fmap, lookup_seq_lt, lookup_replicate_2 by done. simpl. f_equal. apply Z.ltb_lt. lia.
  - rewrite !lookup_ge_None_2; [done|rewrite ?length_replicate, ?length_fmap, ?length_seq; lia..].
Qed.

Lemma row_mask_none len n : len <= 0 → row_mask len n = replicate (Z.to_nat n) false.
Proof.
  intros Hn. apply list_eq. intros i. unfold row_mask. destruct (decide (i < Z.to_nat n)%nat) as [Hi|Hi].
  - rewrite list_lookup_fmap, lookup_seq_lt, lookup_replicate_2 by done. simpl. f_equal. apply Z.ltb_ge. lia.
  - rewrite !lookup_ge_None_2; [done|rewrite ?length_replicate, ?length_fmap, ?length_seq; lia..].
Qed.

(** The rows of a batch: those of the request, then rows without tokens. *)
Lemma real_row b len : real !! b = Some len →
  (∃ l, lens !! b = Some l ∧ 0 <= l ∧ len = gm_n_img g + l) ∨ (List.length lens ≤ b)%nat ∧ len = 0.
Proof.
  unfold real_lens. intros [Hb|[Hb Hl]]%lookup_app_Some.
  - left. rewrite list_lookup_fmap in Hb. destruct (lens !! b) as [l|] eqn:El; [|done]. injection Hb as <-.
    exists l. split; [done|]. split; [|done]. pose proof (Forall_lookup_1 _ _ _ _ (bo_lens _ _ Hok) El). simpl in *. lia.
  - right. rewrite length_fmap in Hb. apply lookup_replicate in Hl as [<- _]. done.
Qed.

(** The prefix mask the code builds for row [b] from the language mask. *)
Lemma prefix_mask_row b len bucket : real !! b = Some len → 0 <= bucket →
  replicate (Z.to_nat (gm_n_img g)) (Z.of_nat b <? Z.of_nat (List.length lens)) ++ row_mask (len - gm_n_img g) bucket
  = row_mask len (gm_n_img g + bucket).
Proof.
  intros Hb Hbk. pose proof (bo_img _ _ Hok). rewrite row_mask_split by lia. f_equal.
  destruct (real_row b len Hb) as [(l & Hl & H0 & ->)|[Hge ->]].
  - apply lookup_lt_Some in Hl. destruct (Z.ltb_spec (Z.of_nat b) (Z.of_nat (List.length lens))); [|lia].
    by rewrite row_mask_all by lia.
  - destruct (Z.ltb_spec (Z.of_nat b) (Z.of_nat (List.length lens))); [lia|]. by rewrite row_mask_none by lia.
Qed.

(** What is built besides the slots: the positions, the last pages and the
    masks. *)
Record layout_rows (lo : layout) : Prop := {
  lr_writes : padded_write_indices real n_ps prefix_base sentinel_slot = Ok (lo_writes lo);
  lr_total : lo_n_real_total lo = foldr Z.add 0 real;
  lr_per_sample : lo_n_per_sample lo = n_ps;
  lr_positions : lo_positions lo = mjoin (replicate (Z.to_nat (gm_max_b g)) (arange 0 n_ps));
  lr_prefix : pm_position_ids (lo_prefix_meta lo) = Some (lo_positions lo) ∧
    pm_write_indices (lo_prefix_meta lo) = Some (lo_writes lo);
  lr_joint : pm_position_ids (lo_joint_meta lo) = Some (mjoin ((λ len, arange len (gm_chunk g)) <$> real)) ∧
    pm_write_indices (lo_joint_meta lo) = None;
  lr_mask b len : real !! b = Some len →
    lo_prefix_mask lo !! b = Some (row_mask len n_ps) ∧
    lo_lang_mask lo !! b = Some (row_mask (len - gm_n_img g) (n_ps - gm_n_img g));
}.

Lemma suffix_positions : suffix_pos_ids real (gm_chunk g) 0 = Ok (mjoin ((λ len, arange len (gm_chunk g)) <$> real)).
Proof.
  pose proof (bo_chunk _ _ Hok). pose proof batch_positive. pose proof n_ps_bound. pose proof max_lang_bound.
  pose proof (bo_slots _ _ Hok) as Hs. unfold total_slots, prefix_capacity, suffix_capacity in Hs.
  unfold suffix_pos_ids. destruct (Z.leb_spec 0 (gm_chunk g)); [|lia]. cbn [ensure mbind res_bind].
  do 2 f_equal. apply list_fmap_ext. intros i len Hl. pose proof (Forall_lookup_1 _ _ _ _ real_bound Hl) as Hb. simpl in Hb.
  unfold arange. apply list_fmap_ext. intros ? j [-> Hj]%lookup_seq. rewrite Z.add_0_r. apply to_int32_id. nia.
Qed.

Lemma mask_rows (lang_list := (Z.add 0 <$> lens) ++ replicate (Z.to_nat (gm_max_b g) - List.length lens) 0) bucket b len :
  0 <= bucket → real !! b = Some len →
  let lang_mask := (λ len, (λ j : nat, Z.of_nat j <? len) <$> seq 0 (Z.to_nat bucket)) <$> lang_list in
  ((λ '(b, mask), replicate (Z.to_nat (gm_n_img g)) (Z.of_nat b <? Z.of_nat (List.length lens)) ++ mask)
     <$> zip (seq 0 (List.length lang_mask)) lang_mask) !! b = Some (row_mask len (gm_n_img g + bucket)) ∧
  lang_mask !! b = Some (row_mask (len - gm_n_img g) bucket).
Proof.
  intros Hbk Hb lang_mask. pose proof (bo_img _ _ Hok).
  assert (lang_mask !! b = Some (row_mask (len - gm_n_img g) bucket)) as Hm.
  { unfold lang_mask, lang_list. rewrite list_lookup_fmap.
    destruct (real_row b len Hb) as [(l & Hl & H0 & ->)|[Hge ->]].
    - rewrite lookup_app_l by (rewrite length_fmap; by eapply lookup_lt_Some). rewrite list_lookup_fmap, Hl. simpl. unfold row_mask. by replace (gm_n_img g + l - gm_n_img g) with l by lia.
    - pose proof (lookup_lt_Some _ _ _ Hb) as Hlt. rewrite real_length in Hlt.
      rewrite lookup_app_r by (rewrite length_fmap; lia). rewrite length_fmap, lookup_replicate_2 by lia. simpl. f_equal. fold (row_mask 0 bucket). by rewrite !row_mask_none by lia. }
  split; [|done]. rewrite list_lookup_fmap.
  assert (zip (seq 0 (List.length lang_mask)) lang_mask !! b = Some (b, row_mask (len - gm_n_img g) bucket)) as ->.
  { apply lookup_zip_Some. split; [|done]. apply lookup_seq. split; [done|by eapply lookup_lt_Some]. }
  simpl. f_equal. by apply prefix_mask_row.
Qed.

(** The layout that is built, with its metadata *)
Lemma layout_built :
  ∃ lo, build_layout g (Z.of_nat (List.length lens)) lens n_ps = Ok lo ∧
    paged_step (lo_prefix_meta lo) (cu_of (replicate (Z.to_nat (gm_max_b g)) n_ps)) (cu_of real) (int32_indices prefix_pass) ∧
    paged_step (lo_joint_meta lo) (cu_of (replicate (Z.to_nat (gm_max_b g)) (gm_chunk g))) (cu_of (full_lens real (gm_chunk g)))
      (IndexTensor [Z.of_nat (List.length joint_pass)] "int32" joint_pass) ∧
    layout_rows lo.
Proof.
  destruct slots_bound as (Hb1 & Hb2 & Hc). unfold prefix_capacity in Hc. pose proof batch_positive as [Hb Hn]. pose proof (bo_chunk _ _ Hok) as Hch.
  pose proof n_ps_bound as Hnb. pose proof max_lang_bound as Hml. pose proof (sum_nonneg _ real_nonneg) as Hs0. pose proof real_length as Hrl.
  unfold build_layout. rewrite !padded_lens_ok. cbn [mbind res_bind]. fold (real_lens g lens). rewrite real_fits.
  destruct (Z.leb_spec 0 (n_ps - gm_n_img g)); [|lia]. cbn [ensure mbind res_bind]. rewrite (arange_steps_ok n_ps) by done.
  cbn [ensure mbind res_bind]. destruct (Z.leb_spec 0 (foldr Z.add 0 real)); [|lia]. cbn [ensure mbind res_bind].
  destruct (padded_write_indices real n_ps prefix_base sentinel_slot) as [ws|] eqn:Hws;
    [|unfold padded_write_indices in Hws; destruct (Z.leb_spec 0 n_ps); [done|lia]]. cbn [mbind res_bind].
  match goal with |- context [prefill_meta _ _ _ (to_int32 <$> cu_of real) ?idx ?lp ?w ?p] =>
    destruct (batch_meta n_ps real idx lp w p) as (pm & Hpm & Hps & _ & Hpw & Hpp) end;
    [done|nia|apply real_nonneg|done|nia|unfold int32_indices; cbn [ix_shape ix_values]; by rewrite length_fmap| | |].
  { unfold int32_indices, arange. cbn [ix_values]. rewrite !length_fmap, length_seq. lia. }
  { intros n k Hk Hpos. rewrite list_lookup_fmap, Hk. simpl. by destruct (Z.ltb_spec 0 k); [|lia]. }
  rewrite Hpm, suffix_positions. cbn [ensure mbind res_bind].
  rewrite (arange_steps_ok (gm_chunk g)) by done. cbn [mbind res_bind].
  rewrite visibility_exact by (first [apply real_nonneg|right; rewrite sum_full; f_equal; lia]).
  destruct (Z.ltb_spec (gm_chunk g) 0); [lia|]. rewrite Z.ltb_irrefl. cbn [orb mbind res_bind]. rewrite (int32_pass joint_pass) by (apply slots_in_pool; lia).
  pose proof (visible_slots_length real prefix_base (suffix_base g) (gm_chunk g) (gm_chunk g) real_nonneg ltac:(lia)) as Hjl.
  assert (foldr Z.add 0 (full_lens real (gm_chunk g)) < 2 ^ 31) as Hfs.
  { rewrite sum_full, Hrl, Z2Nat.id by lia. pose proof (bo_slots _ _ Hok) as Ht. unfold total_slots, prefix_capacity, suffix_capacity in Ht. lia. }
  match goal with |- context [prefill_meta _ _ _ (to_int32 <$> cu_of _) (IndexTensor _ _ joint_pass) ?lp ?w ?p] =>
    destruct (batch_meta (gm_chunk g) (full_lens real (gm_chunk g)) (IndexTensor [Z.of_nat (List.length joint_pass)] "int32" joint_pass) lp w p)
      as (jm & Hjm & Hjs & _ & Hjw & Hjp) end;
    [done|nia|apply Forall_fmap; eapply Forall_impl; [apply real_nonneg|simpl; lia]|unfold full_lens; by rewrite length_fmap|done|done|done| |].
  { intros n k Hk%lookup_lt_Some _. unfold full_lens in Hk. rewrite length_fmap in Hk. apply lookup_replicate_2. lia. }
  change ((λ z : Z, z + gm_chunk g) <$> real) with (full_lens real (gm_chunk g)). rewrite Hjm. cbn [mbind res_bind].
  eexists. split; [reflexivity|]. cbn [lo_prefix_meta lo_joint_meta]. split; [done|]. split; [done|].
  split; try done. intros b len Hbl. cbn [lo_prefix_mask lo_lang_mask]. 
  replace (row_mask len n_ps) with (row_mask len (gm_n_img g + (n_ps - gm_n_img g))) by (f_equal; lia).
  apply mask_rows; [lia|done].
Qed.

(** The slots of two rows do not meet. *)
Lemma rows_apart b b' len len' s : b' ≠ b → real !! b = Some len → real !! b' = Some len' →
  s ∈ prefix_slots real prefix_base b len ++ suffix_slots (suffix_base g) (gm_chunk g) (gm_chunk g) b →
  s ∉ prefix_slots real prefix_base b' len' ++ suffix_slots (suffix_base g) (gm_chunk g) (gm_chunk g) b'.
Proof.
  intros Hne Hb Hb' Hs Hs'. pose proof slots_bound as (_ & _ & Hc). pose proof (bo_chunk _ _ Hok) as Hch.
  pose proof real_nonneg as Hr0. destruct (decide (b < b')%nat) as [Hlt|Hge].
  - eapply (pieces_apart real prefix_base (suffix_base g) (gm_chunk g) (gm_chunk g) b b'); try by apply slot_pieces_lookup.
    all: try done; unfold suffix_base; lia.
  - eapply (pieces_apart real prefix_base (suffix_base g) (gm_chunk g) (gm_chunk g) b' b); try by apply slot_pieces_lookup.
    all: try done; unfold suffix_base; lia.
Qed.
End batch.

Lemma lookup_slice {A} (l : list A) a b i : 0 <= a → Z.of_nat i < b - a → slice l a b !! i = l !! (Z.to_nat a + i)%nat.
Proof. intros Ha Hi. unfold slice. rewrite lookup_take_lt by lia. by rewrite lookup_drop. Qed.

Lemma span_writes lens n base sentinel ws b real :
  padded_write_indices lens n base sentinel = Ok ws → 0 <= real <= n → lens !! b = Some real →
  span_of (cu_of (replicate (List.length lens) n)) ws b = prefix_slots lens base b real ++ replicate (Z.to_nat (n - real)) sentinel.
Proof.
  intros Hw Hr Hb. pose proof (lookup_lt_Some _ _ _ Hb) as Hlt. unfold span_of.
  rewrite !cu_of_nth by (rewrite length_replicate; lia). rewrite !take_replicate, !sum_replicate, !Nat.min_l by lia.
  assert (∀ i, (i < Z.to_nat n)%nat → slice ws (Z.of_nat b * n) (Z.of_nat (S b) * n) !! i =
    Some (if Z.of_nat i <? real then base + foldr Z.add 0 (take b lens) + Z.of_nat i else sentinel)) as Hi.
  { intros i Hi. rewrite lookup_slice by lia. rewrite <- (padded_write_lookup _ _ _ _ _ _ _ i Hw Hb Hi). f_equal. nia. }
  apply list_eq. intros i. destruct (decide (i < Z.to_nat n)%nat) as [Hin|Hin].
  - rewrite Hi by done. unfold prefix_slots. destruct (Z.ltb_spec (Z.of_nat i) real).
    + rewrite lookup_app_l by (rewrite length_fmap, length_seq; lia). by rewrite list_lookup_fmap, lookup_seq_lt by lia.
    + rewrite lookup_app_r by (rewrite length_fmap, length_seq; lia). rewrite length_fmap, length_seq. symmetry. apply lookup_replicate. lia.
  - rewrite !lookup_ge_None_2; [done|unfold prefix_slots; rewrite length_app, length_fmap, length_seq, length_replicate; lia|].
    unfold slice. rewrite length_take. lia.
Qed.

(** C10: The layout of a batch.  A batch of at most [max_batch_size] prompts no
    longer than the tokenizer's maximum always gets a layout.  Its metadata
    are well-formed for both backends (offsets, indices and last pages), its real
    tokens fit the prefix allocator, and for every row of the batch: its tokens
    are written to its own slots in order and its padding to the sentinel, at the
    positions 0, 1, ...; the prefix pass reads exactly these slots; the joint
    pass reads them and then the row's own chunk of the suffix, whose tokens have
    the positions that follow the prefix; the masks hold exactly for its real
    tokens; and these slots lie in the pool past the sentinel, apart from those
    of every other row. *)
Theorem layout_exact g lens :
  batch_ok g lens →
  let n_ps := bucket_n_per_sample g (max_default lens) in let real := real_lens g lens in let B := Z.to_nat (gm_max_b g) in
  ∃ lo pidx jidx ppos jpos, build_layout g (Z.of_nat (List.length lens)) lens n_ps = Ok lo ∧
    paged_step (lo_prefix_meta lo) (cu_of (replicate B n_ps)) (cu_of real) pidx ∧
    paged_step (lo_joint_meta lo) (cu_of (replicate B (gm_chunk g))) (cu_of (full_lens real (gm_chunk g))) jidx ∧
    pm_write_indices (lo_prefix_meta lo) = Some (lo_writes lo) ∧
    pm_position_ids (lo_prefix_meta lo) = Some ppos ∧ lo_positions lo = ppos ∧
    pm_position_ids (lo_joint_meta lo) = Some jpos ∧
    lo_n_per_sample lo = n_ps ∧ lo_n_real_total lo = foldr Z.add 0 real ∧ lo_n_real_total lo <= prefix_capacity g ∧
    ∀ b len, real !! b = Some len →
      let own b len := prefix_slots real prefix_base b len in
      let fresh b := suffix_slots (suffix_base g) (gm_chunk g) (gm_chunk g) b in
      span_of (cu_of (replicate B n_ps)) (lo_writes lo) b = own b len ++ replicate (Z.to_nat (n_ps - len)) sentinel_slot ∧
      span_of (cu_of (replicate B n_ps)) ppos b = arange 0 n_ps ∧
      span_of (cu_of (replicate B (gm_chunk g))) jpos b = arange len (gm_chunk g) ∧
      span_of (cu_of real) (ix_values pidx) b = own b len ∧
      span_of (cu_of (full_lens real (gm_chunk g))) (ix_values jidx) b = own b len ++ fresh b ∧
      lo_prefix_mask lo !! b = Some (row_mask len n_ps) ∧
      lo_lang_mask lo !! b = Some (row_mask (len - gm_n_img g) (n_ps - gm_n_img g)) ∧
      ∀ s, s ∈ own b len ++ fresh b → 1 <= s < total_slots g ∧
        ∀ b' len', b' ≠ b → real !! b' = Some len' → s ∉ own b' len' ++ fresh b'.
Proof.
  intros Hok n_ps real B. destruct (layout_built g lens Hok) as (lo & Hlo & Hp & Hj & [Hw Hn Hps Hpos [Hpp Hpw] [Hjp _] Hmask]).
  pose proof (slots_bound g lens Hok) as (_ & _ & Hc). pose proof (bo_chunk _ _ Hok) as Hch. pose proof (real_nonneg g lens Hok) as Hr0.
  pose proof (real_length g lens Hok) as Hrl. pose proof (batch_positive g lens Hok) as [_ Hn0].
  eexists lo, _, _, _, _. split; [done|]. split; [done|]. split; [done|]. split; [done|]. split; [exact Hpp|].
  split; [done|]. split; [exact Hjp|]. split; [done|]. split; [done|]. split; [by rewrite Hn|]. intros b len Hb own fresh.
  pose proof (lookup_lt_Some _ _ _ Hb) as Hlt. fold real B in Hrl. rewrite Hrl in Hlt.
  pose proof (Forall_lookup_1 _ _ _ _ (real_bound g lens Hok) Hb) as Hlen. simpl in Hlen.
  split; [|split; [|split; [|split; [|split; [|split; [|split]]]]]].
  - rewrite <- Hrl. by apply span_writes.
  - rewrite Hpos. fold n_ps B. rewrite <- (length_replicate B (arange 0 n_ps)) at 1.
    apply span_pieces; [lia| |by apply lookup_replicate_2]. intros l [-> _]%elem_of_replicate. apply arange_length.
  - rewrite <- Hrl, <- (length_fmap (λ len, arange len (gm_chunk g)) real).
    apply span_pieces; [lia| |rewrite list_lookup_fmap; fold real; by rewrite Hb]. intros l (r & -> & _)%list_elem_of_fmap. apply arange_length.
  - cbn [int32_indices ix_values]. rewrite prefix_pass_int32, (prefix_pass_visible g lens Hok) by done.
    rewrite <- (full_lens_0 real) at 1. unfold real. rewrite (span_visible _ _ _ _ 0 b len) by (done || lia).
    unfold suffix_slots. simpl. by rewrite app_nil_r.
  - cbn [ix_values]. by apply span_visible; [|lia|].
  - by apply Hmask.
  - by apply Hmask.
  - intros s Hs. split; [by apply (piece_in_pool g lens Hok b len)|]. intros b' len' Hne Hb' Hs'.
    by apply (rows_apart g lens Hok b b' len len' s Hne Hb Hb' Hs).
Qed.

(** The bucket of a prompt is among those [setup] captures. *)
Lemma bucket_captured g l :
  l <= gm_tok_max g →
  bucket_n_per_sample g l ∈ capture_buckets (Some ((Z.add (gm_n_img g)) <$> lang_buckets (gm_tok_max g))) (gm_n g).
Proof.
  intros Hl. destruct (bucket_spec g l Hl) as (b & Hb & Hin & _).
  unfold capture_buckets. destruct (Z.add (gm_n_img g) <$> lang_buckets (gm_tok_max g)) as [|x xs] eqn:E.
  { apply fmap_nil_inv in E. rewrite E in Hin. by apply not_elem_of_nil in Hin. }
  rewrite py_sorted_elem, elem_of_remove_dups, <- E, Hb. by apply list_elem_of_fmap_2.
Qed.

Definition pi05_demo_geometry : geometry := Geometry 2 4 20 3.

Lemma demo_batch : batch_ok pi05_demo_geometry [5].
Proof. by split; [|simpl; lia|repeat (constructor; [simpl; lia|]); constructor| | |]. Qed.

Lemma layout_exact_witness :
  ∃ lo pidx jidx ppos jpos, build_layout pi05_demo_geometry 1 [5] 20 = Ok lo ∧
    paged_step (lo_prefix_meta lo) [0; 20; 40] [0; 9; 9] pidx ∧ paged_step (lo_joint_meta lo) [0; 3; 6] [0; 12; 15] jidx ∧
    pm_write_indices (lo_prefix_meta lo) = Some (lo_writes lo) ∧
    pm_position_ids (lo_prefix_meta lo) = Some ppos ∧ lo_positions lo = ppos ∧
    pm_position_ids (lo_joint_meta lo) = Some jpos ∧
    lo_n_per_sample lo = 20 ∧ lo_n_real_total lo = 9 ∧ lo_n_real_total lo <= 48 ∧
    ∀ b len, [9; 0] !! b = Some len →
      let own b len := prefix_slots [9; 0] prefix_base b len in
      let fresh b := suffix_slots 49 3 3 b in
      span_of [0; 20; 40] (lo_writes lo) b = own b len ++ replicate (Z.to_nat (20 - len)) sentinel_slot ∧
      span_of [0; 20; 40] ppos b = arange 0 20 ∧
      span_of [0; 3; 6] jpos b = arange len 3 ∧
      span_of [0; 9; 9] (ix_values pidx) b = own b len ∧
      span_of [0; 12; 15] (ix_values jidx) b = own b len ++ fresh b ∧
      lo_prefix_mask lo !! b = Some (row_mask len 20) ∧
      lo_lang_mask lo !! b = Some (row_mask (len - 4) 16) ∧
      ∀ s, s ∈ own b len ++ fresh b → 1 <= s < 55 ∧
        ∀ b' len', b' ≠ b → [9; 0] !! b' = Some len' → s ∉ own b' len' ++ fresh b'.
Proof. exact (layout_exact pi05_demo_geometry [5] demo_batch). Defined.

(** ** A small model *)

Definition ok_pair {A B} (x : A * res B) (b : B) : x.2 = Ok b → x = (x.1, Ok b).
Proof. destruct x. by intros [= ->]. Defined.

Module Pi05Demo.
(** Two cameras of one patch each, prompts of at most twenty tokens, chunks of
    two actions, two Euler steps. *)
Definition cfg : pi05_config :=
  let stack := StackConfig 2 1 2 1 2 4 64 in
  PI05Config (VisionConfig 2 1 1 2 1 1 3 2) stack (ExpertConfig stack true (Some 2)) 2 1 2 20 true true [4] None.

Definition proto : paged_layer Z := PagedLayer 2 1 2 1 false 0.

(** Networks that let the plan show: the velocity of every action is the sum
    of the slots the wrapper reads, times the weight. *)
Definition vision_tower (w : Z) (cameras : list Z) : res (list Z) := Ok cameras.
Definition embed_lang (w : Z) (ids : list Z) : list Z := ids.
Definition embed_time (w : Z) (ts : list Qc) : list Qc := ts.
Definition paligemma_lm (w : Z) (hidden positions : list Z) (b : paged_backend (F:=Z)) (c : paged_ctx)
    (p : kv_pool (T:=ftensor Z)) : kv_pool (T:=ftensor Z) * res (list Z) := (p, Ok hidden).
Definition modulation (w : Z) (ts : list Qc) : list Qc := ts.
Definition slots_of (b : paged_backend (F:=Z)) : list Z :=
  match b with PFlash (PageBackend _ (Some (Some p))) => pp_kv_indices p | _ => [] end.
Definition expert_net (w : Z) (m : Qc) (x : list chunk) (positions : list Z) (b : paged_backend (F:=Z)) (c : paged_ctx)
    (p : kv_pool (T:=ftensor Z)) : kv_pool (T:=ftensor Z) * res (list chunk * list Qc) :=
  let v := Q2Qc (inject_Z (w * foldr Z.add 0 (slots_of b))) in
  (p, Ok ((λ c : chunk, (λ _ : Qc, v) <$> c) <$> x, (λ _ : chunk, v) <$> x)).
Definition value_head (w : Z) (n : option Z) (f : Qc) : Qc := f.
Definition prefix_value (w : Z) (rows : list Z) (mask : list bool) : Qc := Q2Qc (inject_Z (foldr Z.add 0 rows)).
Definition randn (draw : nat) (n : Z) : list chunk := replicate (Z.to_nat n) [1%Qc; 1%Qc].

#[local] Instance numbers : Numbers := {| q_sqrt x := x; q_log x := x; q_two_pi := 1%Qc |}.

Definition scheduler : Type := scheduler (F:=Z) (T:=ftensor Z) (TE:=Qc) (M:=Qc).

(** Two samples per batch; both runners on the backend [b] *)
Definition created (b : paged_backend (F:=Z)) : res scheduler := scheduler_init cfg [proto] [proto] b b 2 2 true true false.

Definition blank : scheduler :=
  match created (PFlash (PageBackend None None)) with Ok s => s | Err _ =>
    Pi05Scheduler cfg 0 0 false (KVCachePool 0 0 0 0 0 [] []) (StaticCache 0 0 0) (StaticCache 0 0 0)
      (LLMRunner 0 0 0 proto false (PSdpa None) None []) (ExpertRunner 0 0 0 proto false false false None (PSdpa None) None [] [] None [] None None)
      None [] None end.

Definition setup := scheduler_setup (λ _, Ok ()) 0 embed_time paligemma_lm modulation expert_net value_head (F:=Z) (T:=ftensor Z).
Definition ready : scheduler := (setup 1 blank).1.

Definition ask (lens : list Z) : request (P:=list Z) :=
  let b := Z.of_nat (List.length lens) in
  Request [b; 2; 3; 1; 1] (replicate (List.length lens) [7; 8]) [b; 20] (replicate (List.length lens) (replicate 20 5)) [b] lens None.

Definition bad : request (P:=list Z) := Request [3; 2; 3; 1; 1] [] [3; 20] [] [3] [1; 1; 1] None.
Definition step := step (λ _, Ok ()) 0 vision_tower embed_lang paligemma_lm expert_net randn (F:=Z) (T:=ftensor Z) (TE:=Qc) (M:=Qc).
End Pi05Demo.
