(* ===== verification/Pi05Steps.v ===== *)
(** * Properties of the pi0.5 scheduler: planning across requests

    A scheduler that remembers layouts and skips plans serves every clean run
    of requests as one that builds and plans anew for each; what breaks that
    is a change of the plan behind its back. *)

From S2P Require Import Prelude Tensor KvCache Attention AttentionProps Paged PagedProps PiConfig Pi05Runners Pi05Scheduler Pi05Props.
Open Scope Z_scope.

(** ** Planning twice *)

Section plans.
Context {F E T : Type} `{TorchIndex E T}.
Context (plan_check : page_plan F → res unit).
Context {TE M : Type}.

Lemma page_plan_idem m (f f' : page_backend (F:=F)) :
  page_plan_into plan_check m f = (f', Ok tt) → page_plan_into plan_check m f' = (f', Ok tt).
Proof.
  unfold page_plan_into. destruct f as [[proto|] [w|]]; try done. simpl.
  destruct (pm_cu_q m) as [q|]; [|done]. destruct (pm_kv_indptr m) as [k|]; [|done]. destruct (pm_kv_indices m) as [i|]; [|done].
  destruct (pm_last_page_len m) as [l|]; [|done]. destruct (plan_check _) as [u|e] eqn:Ec; [|done]. intros [= <-]. simpl. by rewrite Ec.
Qed.

Lemma replay_idem m h h' (b b' : paged_backend (F:=F)) :
  paged_replay plan_check h m b = (b', Ok h') → paged_replay plan_check h' m b' = (b', Ok h').
Proof.
  destruct b as [proto|f]; simpl.
  - intros [= <- Hr]. simpl. destruct h as [p|]; [|done]. apply bind_ok in Hr as (p' & Hp & [= <-]). f_equal.
    unfold sdpa_paged_replay in *. apply bind_ok in Hp as (offs & Ho & Hp). apply bind_ok in Hp as ([] & He & Hp).
    destruct (pm_kv_indices m) as [idx|] eqn:Hm; [|done]. apply bind_ok in Hp as ([] & Hi & [= <-]).
    rewrite Ho. simpl. rewrite He. simpl. rewrite bool_decide_true by done. by rewrite String.eqb_refl.
  - destruct (page_plan_into plan_check m f) as [f1 [[]|e]] eqn:Ef; simpl; [|done]. intros [= <- <-].
    simpl. by rewrite (page_plan_idem _ _ _ Ef).
Qed.

Lemma stage_plan_idem ug m h h' (b b' : paged_backend (F:=F)) :
  stage_plan plan_check ug m h b = (b', h', Ok tt) → stage_plan plan_check ug m h' b' = (b', h', Ok tt).
Proof.
  unfold stage_plan. destruct ug.
  - destruct h as [h|]; simpl.
    + destruct (paged_replay plan_check h m b) as [b1 [h1|e]] eqn:Er; simpl; [|done]. intros [= <- <-]. simpl.
      by rewrite (replay_idem _ _ _ _ _ Er).
    + destruct b as [proto|f]; [done|]. destruct (page_plan_into plan_check m f) as [f1 [[]|e]] eqn:Ef; simpl; [|done].
      intros [= <- <-]. simpl. by rewrite (page_plan_idem _ _ _ Ef).
  - destruct b as [proto|f]; simpl.
    + destruct (sdpa_paged_plan proto m) as [p|e] eqn:Ep; simpl; [|done]. intros [= <- <-]. simpl. by rewrite Ep.
    + destruct (page_plan_into plan_check m f) as [f1 [[]|e]] eqn:Ef; simpl; [|done]. intros [= <- <-]. simpl.
      by rewrite (page_plan_idem _ _ _ Ef).
Qed.

Lemma llm_plan_idem m (r r' : llm_runner (F:=F)) : llm_plan plan_check m r = (r', Ok tt) → llm_plan plan_check m r' = (r', Ok tt).
Proof.
  unfold llm_plan. destruct (stage_plan plan_check (lr_use_graph r) m (lr_plan r) (lr_backend r)) as [[b h] o] eqn:Es. intros [= <- ->].
  simpl. by rewrite (stage_plan_idem _ _ _ _ _ _ Es).
Qed.

Lemma to_int32_idem z : to_int32 (to_int32 z) = to_int32 z.
Proof.
  unfold to_int32. set (n := 2 ^ 32). assert (n ≠ 0) by done. f_equal. replace ((z + 2 ^ 31) mod n - 2 ^ 31 + 2 ^ 31) with ((z + 2 ^ 31) mod n) by lia.
  by apply Zmod_mod.
Qed.

Lemma expert_plan_idem m (r r' : expert_runner (F:=F) (TE:=TE) (M:=M)) :
  expert_plan plan_check m r = (r', Ok tt) → expert_plan plan_check m r' = (r', Ok tt).
Proof.
  unfold expert_plan. destruct (pm_position_ids m) as [pos|]; [|done].
  destruct (Nat.eqb_spec (List.length pos) (List.length (er_positions r))) as [Hl|]; [|done]. simpl.
  destruct (stage_plan plan_check (er_use_graph r) m (er_plan r) (er_backend r)) as [[b h] o] eqn:Es. intros [= <- ->].
  simpl. rewrite length_fmap, Nat.eqb_refl. simpl. by rewrite (stage_plan_idem _ _ _ _ _ _ Es).
Qed.
End plans.

(** ** Schedulers up to what they remember *)

Section steps.
Context {F E T : Type} `{TorchIndex E T}.
Context (plan_check : page_plan F → res unit).
Context {P W V TE M Ft : Type} (v_zero : V).
Context (vision_tower : W → P → res (list V)) (embed_lang : W → list Z → list V) (embed_time : W → list Qc → list TE).
Context (paligemma_lm : W → list V → list Z → paged_backend (F:=F) → paged_ctx → kv_pool (T:=T) → kv_pool (T:=T) * res (list V)).
Context (modulation : W → list TE → list M).
Context (expert_net : W → M → list chunk → list Z → paged_backend (F:=F) → paged_ctx → kv_pool (T:=T) →
  kv_pool (T:=T) * res (list chunk * list Ft)).
Context (value_head : W → option Z → Ft → Qc) (prefix_value : W → list V → list bool → Qc).
Context (randn : nat → Z → list chunk) `{Numbers}.

Abbreviation scheduler := (scheduler (F:=F) (T:=T) (TE:=TE) (M:=M)).
Abbreviation request := (request (P:=P)).
Abbreviation prepare_prefix := (prepare_prefix plan_check v_zero vision_tower embed_lang paligemma_lm (P:=P) (TE:=TE) (M:=M)).
Abbreviation step := (step plan_check v_zero vision_tower embed_lang paligemma_lm expert_net randn (P:=P) (TE:=TE) (M:=M)).
Abbreviation rollout_step := (rollout_step plan_check v_zero vision_tower embed_lang paligemma_lm expert_net value_head prefix_value randn
  (P:=P) (TE:=TE) (M:=M)).

(** The scheduler without its layouts, so that the next request builds and
    plans. *)
Definition forget (s : scheduler) : scheduler := with_layouts [] None s.

(** Results that differ at most in what is remembered. *)
Definition agree {A} (x y : scheduler * res A) : Prop := forget x.1 = forget y.1 ∧ x.2 = y.2.

(** A computation that does not look at what is remembered. *)
Definition blind {A} (m : act scheduler A) : Prop := ∀ s f, forget s = forget f → agree (m s) (m f).

Lemma agree_bind {A B} (m m' : act scheduler A) (k k' : A → act scheduler B) s f :
  agree (m s) (m' f) → (∀ a s1 f1, m s = (s1, Ok a) → forget s1 = forget f1 → agree (k a s1) (k' a f1)) →
  agree ((m ≫= k) s) ((m' ≫= k') f).
Proof.
  unfold agree, mbind, act_bind. destruct (m s) as [s1 [a|e]], (m' f) as [f1 [a'|e']]; simpl; intros [Hf Ho] Hk; try done.
  - injection Ho as <-. by apply Hk.
  - injection Ho as <-. done.
Qed.

Lemma blind_bind {A B} (m : act scheduler A) (k : A → act scheduler B) : blind m → (∀ a, blind (k a)) → blind (m ≫= k).
Proof. intros Hm Hk s f Hf. apply agree_bind; [by apply Hm|]. intros a s1 f1 _ Hf1. by apply Hk. Qed.

Lemma blind_lift {A} (r : res A) : blind (lift r).
Proof. intros s f Hf. done. Qed.

Lemma blind_ret {A} (a : A) : blind (mret a).
Proof. intros s f Hf. done. Qed.

(** Two schedulers that agree differ in their layouts only. *)
Lemma forget_eq (s f : scheduler) : forget s = forget f → s = with_layouts (sd_cache s) (sd_last s) f.
Proof. destruct s, f. unfold forget, with_layouts. simpl. by intros [= -> -> -> -> -> -> -> -> -> ->]. Qed.

Lemma blind_on_llm {A} (m : act (llm_runner * kv_pool) A) : blind (on_llm m).
Proof.
  intros s f ->%forget_eq. unfold on_llm, zoom, agree. destruct f. simpl. by destruct (m _) as [[r p] o].
Qed.

Lemma blind_on_expert {A} (m : act (expert_runner * kv_pool) A) : blind (on_expert m).
Proof.
  intros s f ->%forget_eq. unfold on_expert, zoom, agree. destruct f. simpl. by destruct (m _) as [[r p] o].
Qed.

Lemma blind_allocate n k : blind (allocate_slots (F:=F) (T:=T) (TE:=TE) (M:=M) n k).
Proof.
  intros s f ->%forget_eq. unfold allocate_slots, zoom, modify, agree, mbind, act_bind. destruct f. simpl.
  destruct (allocate _ n) as [c [x|e]]; simpl; [|done]. by destruct (allocate _ k) as [c' [y|e']].
Qed.

(** [prepare_prefix] after the layout is known *)
Abbreviation key_of rq := (actual_batch rq, rq_lens rq).
Abbreviation n_ps_of s rq := (bucket_n_per_sample (geometry_of s) (max_default (rq_lens rq))).

Definition plan_prefix (changed : bool) (g : geometry) (lo : layout) : act scheduler unit :=
  if changed then
    _ ← allocate_slots (lo_n_real_total lo) (suffix_capacity g);
    on_llm (on_runner (llm_plan plan_check (lo_prefix_meta lo)))
  else mret ().

Definition plan_joint (changed : bool) (lo : layout) : act scheduler unit :=
  if changed then on_expert (on_runner (expert_plan plan_check (lo_joint_meta lo))) else mret ().

Definition prepare_body (s : scheduler) (w : W) (rq : request) (changed : bool) (lo : layout) : act scheduler (list V * layout) :=
  let g := geometry_of s in
  let b := actual_batch rq in
  images ← lift (rmap (vision_forward vision_tower s w rq) (seq 0 (Z.to_nat b)));
  let pad {A} (x : A) (l : list A) := l ++ replicate (Z.to_nat (gm_max_b g - b)) x in
  let image_embs := pad (replicate (Z.to_nat (gm_n_img g)) v_zero) images in
  let lang_embs := embed_lang w <$> pad (replicate (Z.to_nat (gm_tok_max g)) 0) (rq_ids rq) in
  packed ← lift (pack_prefix v_zero (gm_n_img g) image_embs lang_embs lo);
  _ ← plan_prefix changed g lo;
  out ← on_llm (llm_forward paligemma_lm w packed (lo_positions lo) (lo_writes lo) (Some (lo_n_per_sample lo)));
  _ ← plan_joint changed lo;
  _ ← modify (λ s, with_layouts (sd_cache s) (Some (key_of rq)) s);
  mret (out, lo).

Lemma prepare_unfold w rq s :
  prepare_prefix w rq s =
  (request_layout (key_of rq) (n_ps_of s rq) ≫= prepare_body s w rq (negb (bool_decide (sd_last s = Some (key_of rq))))) s.
Proof. reflexivity. Qed.

Lemma prepare_body_forget s w rq changed lo : prepare_body (forget s) w rq changed lo = prepare_body s w rq changed lo.
Proof. by destruct s. Qed.

Lemma blind_plan_prefix changed g lo : blind (plan_prefix changed g lo).
Proof. destruct changed; [|apply blind_ret]. apply blind_bind; [apply blind_allocate|]. intros _. apply blind_on_llm. Qed.

Lemma blind_plan_joint changed lo : blind (plan_joint changed lo).
Proof. destruct changed; [apply blind_on_expert|apply blind_ret]. Qed.

(** Two acts related up to what is remembered, without a look at the outcome *)
Lemma blind_set_last k : blind (modify (λ s, with_layouts (sd_cache s) k s)).
Proof. intros s f Hf. split; [|done]. by rewrite (forget_eq _ _ Hf). Qed.

Lemma blind_prepare_body s w rq changed lo : blind (prepare_body s w rq changed lo).
Proof.
  unfold prepare_body. repeat (apply blind_bind; [first [apply blind_lift|apply blind_plan_prefix|apply blind_on_llm|apply blind_plan_joint|
    apply blind_set_last]|intros ?]). apply blind_ret.
Qed.

(** A layout for which planning again changes nothing *)
Record steady (s : scheduler) (lo : layout) : Prop := {
  sy_slots : allocate (reset (sd_prefix s)) (lo_n_real_total lo) =
    (sd_prefix s, (allocate (reset (sd_prefix s)) (lo_n_real_total lo)).2) ∧ is_ok (allocate (reset (sd_prefix s)) (lo_n_real_total lo)).2;
  sy_suffix : allocate (reset (sd_suffix s)) (suffix_capacity (geometry_of s)) =
    (sd_suffix s, (allocate (reset (sd_suffix s)) (suffix_capacity (geometry_of s))).2) ∧
    is_ok (allocate (reset (sd_suffix s)) (suffix_capacity (geometry_of s))).2;
  sy_llm : llm_plan plan_check (lo_prefix_meta lo) (sd_llm s) = (sd_llm s, Ok tt);
  sy_expert : expert_plan plan_check (lo_joint_meta lo) (sd_expert s) = (sd_expert s, Ok tt);
}.

Lemma steady_forget s s' lo : forget s = forget s' → steady s lo → steady s' lo.
Proof. intros ->%forget_eq [Hp Hs Hl He]. destruct s'. by split. Qed.

Lemma forward_keeps_expert {A} (m : act (llm_runner * kv_pool) A) (s s' : scheduler) o :
  on_llm m s = (s', o) → sd_expert s' = sd_expert s ∧ sd_cache s' = sd_cache s ∧ sd_last s' = sd_last s ∧
    sd_prefix s' = sd_prefix s ∧ sd_suffix s' = sd_suffix s ∧ geometry_of s' = geometry_of s.
Proof. unfold on_llm, zoom. destruct (m _) as [[r p] o']. intros [= <- <-]. done. Qed.

(** The two runners, changed alone *)
Lemma on_expert_runner {A} (m : act expert_runner A) (s : scheduler) :
  on_expert (on_runner m) s = (with_runners (sd_llm s) (m (sd_expert s)).1 (sd_pool s) s, (m (sd_expert s)).2).
Proof. unfold on_expert, on_runner, zoom. simpl. by destruct (m (sd_expert s)). Qed.

Lemma on_llm_runner {A} (m : act llm_runner A) (s : scheduler) :
  on_llm (on_runner m) s = (with_runners (m (sd_llm s)).1 (sd_expert s) (sd_pool s) s, (m (sd_llm s)).2).
Proof. unfold on_llm, on_runner, zoom. simpl. by destruct (m (sd_llm s)). Qed.

Lemma with_same_runners (s : scheduler) : with_runners (sd_llm s) (sd_expert s) (sd_pool s) s = s.
Proof. by destruct s. Qed.

Lemma plan_joint_fixed lo (s : scheduler) :
  plan_joint true lo s = (s, Ok tt) ↔ expert_plan plan_check (lo_joint_meta lo) (sd_expert s) = (sd_expert s, Ok tt).
Proof.
  unfold plan_joint. rewrite on_expert_runner. destruct (expert_plan _ _ _) as [e o]. simpl. split.
  - intros [= Hs ->]. f_equal. by rewrite <- Hs.
  - intros [= -> ->]. by rewrite with_same_runners.
Qed.

Lemma plan_joint_expert lo (s s' : scheduler) :
  sd_expert s' = sd_expert s → plan_joint true lo s = (s, Ok tt) → plan_joint true lo s' = (s', Ok tt).
Proof. rewrite !plan_joint_fixed. by intros ->. Qed.

(** Slots that were allocated stay so when both allocators start over. *)
Lemma allocate_reset (c c' : static_cache) n x :
  allocate (reset c) n = (c', Ok x) → allocate (reset c') n = (c', Ok x).
Proof.
  unfold allocate, reset. simpl. destruct (n <? 0) eqn:E1; [done|]. rewrite !Z.add_0_l.
  destruct (sc_capacity c <? n) eqn:E2; [done|]. intros [= <- <-]. simpl. by rewrite E2.
Qed.

Lemma allocate_slots_ok n k (s s' : scheduler) :
  allocate_slots n k s = (s', Ok tt) ↔
  ∃ p x q y, allocate (reset (sd_prefix s)) n = (p, Ok x) ∧ allocate (reset (sd_suffix s)) k = (q, Ok y) ∧ s' = with_caches p q s.
Proof.
  unfold allocate_slots, zoom, modify, mbind, act_bind. simpl. destruct (allocate (reset (sd_prefix s)) n) as [p [x|e]]; simpl.
  - destruct (allocate (reset (sd_suffix s)) k) as [q [y|e]]; simpl.
    + split; [intros [= <-]; by eexists _, _, _, _|]. by intros (? & ? & ? & ? & [= <- <-] & [= <- <-] & ->).
    + split; [done|]. by intros (? & ? & ? & ? & ? & [=] & ?).
  - split; [done|]. by intros (? & ? & ? & ? & [=] & ?).
Qed.

Lemma steady_plan_prefix s lo : steady s lo → plan_prefix true (geometry_of s) lo s = (s, Ok tt).
Proof.
  intros [[Hp Hpo] [Hs Hso] Hl _]. unfold plan_prefix.
  assert (allocate_slots (lo_n_real_total lo) (suffix_capacity (geometry_of s)) s = (s, Ok tt)) as Ha.
  { apply allocate_slots_ok. destruct (allocate _ (lo_n_real_total lo)) as [p [x|]]; [|done].
    destruct (allocate _ (suffix_capacity _)) as [q [y|]]; [|done]. injection Hp as ->. injection Hs as ->.
    eexists _, _, _, _. split; [done|]. split; [done|]. by destruct s. }
  unfold mbind, act_bind. rewrite Ha, on_llm_runner, Hl. simpl. by rewrite with_same_runners.
Qed.

(** Skipping the plans of a steady layout changes nothing. *)
Lemma skip_plans s0 s w rq lo : steady s lo → geometry_of s0 = geometry_of s →
  agree (prepare_body s0 w rq false lo s) (prepare_body s0 w rq true lo s).
Proof.
  intros Hst Hg. pose proof (steady_plan_prefix _ _ Hst) as Hp. pose proof (proj2 (plan_joint_fixed lo s) (sy_expert _ _ Hst)) as Hj.
  unfold prepare_body. apply agree_bind; [done|]. intros images s1 f1 [-> _]%lift_ok Hf.
  apply agree_bind; [by split|]. intros packed s2 f2 [-> _]%lift_ok Hf2. rewrite Hg.
  apply agree_bind.
  { destruct (blind_plan_prefix true (geometry_of s) lo s f2 Hf2) as [Ha Hb]. rewrite Hp in Ha, Hb. by split. }
  intros [] s3 f3 [= <-] Hf3. apply agree_bind; [by apply blind_on_llm|]. intros out s4 f4 Hm Hf4.
  apply forward_keeps_expert in Hm as (He & _). apply agree_bind.
  { destruct (blind_plan_joint true lo s4 f4 Hf4) as [Ha Hb]. rewrite (plan_joint_expert lo s s4 He Hj) in Ha, Hb. by split. }
  intros [] s5 f5 [= <-] Hf5. apply agree_bind; [by apply blind_set_last|]. intros [] s6 f6 _ Hf6. by split.
Qed.

(** ** What is remembered is right *)

(** Every layout is the one of its key, and the runners are planned for the
    last one. *)
Record remembers (s : scheduler) : Prop := {
  rm_layouts key lo : dget (sd_cache s) key = Some lo →
    build_layout (geometry_of s) key.1 key.2 (bucket_n_per_sample (geometry_of s) (max_default key.2)) = Ok lo;
  rm_planned key : sd_last s = Some key → ∃ lo, dget (sd_cache s) key = Some lo ∧ steady s lo;
}.

Lemma remembers_nothing s : remembers (forget s).
Proof. by split. Qed.

Lemma fresh_remembers s : sd_last s = None → sd_cache s = [] → remembers s.
Proof. intros Hl Hc. split; [by rewrite Hc|by rewrite Hl]. Qed.

(** The layout of a request is the one built for it. *)
Lemma request_layout_spec s (rq : request) : remembers s →
  match build_layout (geometry_of s) (actual_batch rq) (rq_lens rq) (n_ps_of s rq) with
  | Ok lo => ∃ s1, request_layout (key_of rq) (n_ps_of s rq) s = (s1, Ok lo) ∧ forget s1 = forget s ∧ sd_last s1 = sd_last s ∧
               dget (sd_cache s1) (key_of rq) = Some lo ∧ remembers s1
  | Err e => request_layout (key_of rq) (n_ps_of s rq) s = (s, Err e)
  end.
Proof.
  intros Hr. unfold request_layout, gets, mbind, act_bind. simpl. destruct (dget (sd_cache s) (key_of rq)) as [lo|] eqn:Hd.
    pose proof (rm_layouts _ Hr _ _ Hd) as Hb. cbn [fst snd] in Hb. rewrite Hb. by exists s.
  - unfold lift. destruct (build_layout _ _ _ _) as [lo|e] eqn:Hb; [|done]. simpl. eexists. split; [reflexivity|]. split; [done|]. split; [done|].
    split; [simpl; by rewrite dget_dset_eq|]. split.
    + intros key lo'. simpl. rewrite dget_dset. destruct (decide (key_of rq = key)) as [<-|]; [|apply (rm_layouts _ Hr)].
      by intros [= <-].
    + intros key Hlast. destruct (rm_planned _ Hr key Hlast) as (lo' & Hd' & Hst). exists lo'. simpl. split.
      * rewrite dget_dset_ne; [done|]. intros <-. by rewrite Hd in Hd'.
      * by apply (steady_forget s).
Qed.

Lemma agree_trans {A} (x y z : scheduler * res A) : agree x y → agree y z → agree x z.
Proof. intros [Ha Hb] [Hc Hd]. split; congruence. Qed.

Lemma act_bind_step {St A B} (m : act St A) (k : A → act St B) s s1 a : m s = (s1, Ok a) → (m ≫= k) s = k a s1.
Proof. unfold mbind, act_bind. by intros ->. Qed.

Lemma act_bind_stop {St A B} (m : act St A) (k : A → act St B) s s1 e : m s = (s1, Err e) → (m ≫= k) s = (s1, Err e).
Proof. unfold mbind, act_bind. by intros ->. Qed.

(** The layout remembered for the last key is the one the request gets. *)
Lemma last_is_steady s (rq : request) lo :
  remembers s → sd_last s = Some (key_of rq) → build_layout (geometry_of s) (actual_batch rq) (rq_lens rq) (n_ps_of s rq) = Ok lo → steady s lo.
Proof.
  intros Hr Hl Hb. destruct (rm_planned _ Hr _ Hl) as (lo' & Hd & Hst). pose proof (rm_layouts _ Hr _ _ Hd) as Hb'. cbn [fst snd] in Hb'.
  rewrite Hb in Hb'. by injection Hb' as ->.
Qed.

Lemma prepare_agrees w rq s : remembers s → agree (prepare_prefix w rq s) (prepare_prefix w rq (forget s)).
Proof.
  intros Hr. rewrite !prepare_unfold. pose proof (request_layout_spec s rq Hr) as Hs.
  pose proof (request_layout_spec (forget s) rq (remembers_nothing s)) as Hf. change (geometry_of (forget s)) with (geometry_of s) in *.
  destruct (build_layout _ _ _ _) as [lo|e] eqn:Hb.
  - destruct Hs as (s1 & Hs1 & Hfs & Hlast & Hd & _), Hf as (f1 & Hf1 & Hff & _).
    rewrite (act_bind_step _ _ _ _ _ Hs1), (act_bind_step _ _ _ _ _ Hf1), prepare_body_forget. cbn [forget with_layouts sd_last].
    rewrite (bool_decide_false (None = _)) by done. simpl negb. assert (forget s1 = forget f1) as Heq by (rewrite Hfs, Hff; by destruct s).
    case_bool_decide as Hk; simpl negb; [|by apply blind_prepare_body].
    eapply agree_trans; [|by apply (blind_prepare_body s w rq true lo s1 f1)]. apply skip_plans.
    + apply (steady_forget s); [done|]. by apply (last_is_steady s rq).
    + by rewrite (forget_eq _ _ Hfs).
  - rewrite (act_bind_stop _ _ _ _ _ Hs), (act_bind_stop _ _ _ _ _ Hf). by destruct s.
Qed.

(** A plan that was made is steady. *)
Lemma plan_prefix_made g lo s s' :
  plan_prefix true g lo s = (s', Ok tt) →
  ∃ p x q y r, allocate (reset (sd_prefix s)) (lo_n_real_total lo) = (p, Ok x) ∧ allocate (reset (sd_suffix s)) (suffix_capacity g) = (q, Ok y) ∧
    llm_plan plan_check (lo_prefix_meta lo) (sd_llm s) = (r, Ok tt) ∧ s' = with_runners r (sd_expert s) (sd_pool s) (with_caches p q s).
Proof.
  unfold plan_prefix. intros (s1 & [] & (p & x & q & y & Hp & Hq & ->)%allocate_slots_ok & Hl)%act_bind_ok. rewrite on_llm_runner in Hl.
  simpl in Hl. destruct (llm_plan _ _ _) as [r o]. injection Hl as <- ->. by exists p, x, q, y, r.
Qed.

Lemma plan_joint_made lo s s' :
  plan_joint true lo s = (s', Ok tt) →
  ∃ e, expert_plan plan_check (lo_joint_meta lo) (sd_expert s) = (e, Ok tt) ∧ s' = with_runners (sd_llm s) e (sd_pool s) s.
Proof. unfold plan_joint. rewrite on_expert_runner. destruct (expert_plan _ _ _) as [e o]. intros [= <- ->]. by exists e. Qed.

(** The forward of the language runner touches the pool only. *)
Lemma llm_forward_frame w hidden pos ws n (s : scheduler) s' o :
  on_llm (llm_forward paligemma_lm w hidden pos ws n) s = (s', o) → s' = with_runners (sd_llm s) (sd_expert s) (sd_pool s') s.
Proof.
  unfold on_llm, zoom. intros Hm. destruct (llm_forward _ _ _ _ _ _ _) as [[r p] o'] eqn:Ef. injection Hm as <- <-.
  simpl. f_equal. revert Ef. unfold llm_forward. repeat case_match; by intros [= <- <- <-].
Qed.

(** What a prefix leaves, once its layout [lo] is known in [s1]: the layouts
    of [s1] and a steady plan. *)
Lemma body_steady s0 s1 w rq changed lo s' out lo' :
  prepare_body s0 w rq changed lo s1 = (s', Ok (out, lo')) → geometry_of s0 = geometry_of s1 → (changed = false → steady s1 lo) →
  lo' = lo ∧ steady s' lo ∧ sd_cache s' = sd_cache s1 ∧ sd_last s' = Some (key_of rq) ∧ geometry_of s' = geometry_of s1.
Proof.
  unfold prepare_body. intros (? & images & [-> _]%lift_ok & Hm)%act_bind_ok Hg Hst.
  apply act_bind_ok in Hm as (? & packed & [-> _]%lift_ok & Hm). apply act_bind_ok in Hm as (s2 & [] & Hp & Hm).
  apply act_bind_ok in Hm as (s3 & o & Hf%llm_forward_frame & Hm). apply act_bind_ok in Hm as (s4 & [] & Hj & Hm).
  apply act_bind_ok in Hm as (s5 & [] & [= <-] & [= <- <- <-]). split; [done|]. destruct changed.
  - apply plan_prefix_made in Hp as (p & x & q & y & r & Hpx & Hqy & Hr & ->). apply plan_joint_made in Hj as (e & He & ->).
    rewrite Hf in He. rewrite Hf. simpl in He. rewrite Hg in Hqy. destruct s1. split; [|done]. split; simpl.
    + by rewrite (allocate_reset _ _ _ _ Hpx).
    + unfold geometry_of in *. simpl in *. by rewrite (allocate_reset _ _ _ _ Hqy).
    + by eapply llm_plan_idem.
    + by eapply expert_plan_idem.
  - injection Hp as <-. injection Hj as <-. rewrite Hf. destruct s1. split; [|done]. destruct (Hst eq_refl) as [H1' H2' H3' H4']. by split.
Qed.

Lemma prepare_remembers w rq s s' out lo :
  prepare_prefix w rq s = (s', Ok (out, lo)) → remembers s → remembers s' ∧ sd_last s' = Some (key_of rq).
Proof.
  rewrite prepare_unfold. intros Hm Hr. pose proof (request_layout_spec s rq Hr) as Hs.
  destruct (build_layout _ _ _ _) as [lo0|e] eqn:Hb; [|by rewrite (act_bind_stop _ _ _ _ _ Hs) in Hm].
  destruct Hs as (s1 & Hs1 & Hfs & Hlast & Hd & Hr1). rewrite (act_bind_step _ _ _ _ _ Hs1) in Hm.
  assert (geometry_of s = geometry_of s1) as Hg by (by rewrite (forget_eq _ _ (eq_sym Hfs))).
  destruct (body_steady _ _ _ _ _ _ _ _ _ Hm Hg) as (-> & Hst & Hc & Hl & Hg').
  { intros Hk%negb_false_iff%bool_decide_eq_true. apply (steady_forget s); [done|]. by apply (last_is_steady s rq). }
  split; [|done]. split.
  - intros key lo'. rewrite Hc, Hg'. apply (rm_layouts _ Hr1).
  - intros key. rewrite Hl, Hc. intros [= <-]. by exists lo0.
Qed.

(** ** Runs of requests *)

(** A request of either kind, and what it returns *)
Definition call : Type := request + rollout_request (P:=P).
Definition reply : Type := list chunk + rollout_output.

Definition serve_call (w : W) (c : call) : act scheduler reply :=
  match c with
  | inl rq => x ← step w rq; mret (inl x)
  | inr rr => o ← rollout_step w rr; mret (inr o)
  end.

(** Requests in order; a refused one does not stop the next. *)
Fixpoint serve (w : W) (cs : list call) (s : scheduler) : scheduler * list (res reply) :=
  match cs with
  | [] => (s, [])
  | c :: cs' => let '(s, o) := serve_call w c s in let '(s, os) := serve w cs' s in (s, o :: os)
  end.

(** The reference: layouts are built and the runners planned for every
    request. *)
Fixpoint serve_afresh (w : W) (cs : list call) (s : scheduler) : scheduler * list (res reply) :=
  match cs with
  | [] => (s, [])
  | c :: cs' => let '(s, o) := serve_call w c (forget s) in let '(s, os) := serve_afresh w cs' s in (s, o :: os)
  end.

(** A request the validation refuses *)
Definition refused (s : scheduler) (c : call) : bool :=
  match c with
  | inl rq => negb (is_ok (validate s rq))
  | inr rr => negb (is_ok (_ ← validate s (rr_request rr); validate_rollout s rr (actual_batch (rr_request rr))))
  end.

(** A run in which every request succeeds or is refused *)
Fixpoint clean (w : W) (cs : list call) (s : scheduler) : Prop :=
  match cs with
  | [] => True
  | c :: cs' => let '(s', o) := serve_call w c s in (is_ok o ∨ refused s c) ∧ clean w cs' s'
  end.

(** [step] and [rollout_step], with the state they read at their start *)
Definition step_from (s : scheduler) (w : W) (rq : request) : act scheduler (list chunk) :=
  _ ← lift (validate s rq);
  _ ← prepare_prefix w rq;
  _ ← lift (of_option RuntimeError (sd_time s));
  let noise := match rq_noise rq with
               | None => randn 0 (sd_max_b s)
               | Some (_, rows) => pad_batch (sd_max_b s) (zero_chunk (sd_cfg s)) rows
               end in
  x ← on_expert (expert_forward expert_net w noise);
  mret (take (Z.to_nat (actual_batch rq)) x).

Lemma step_unfold w rq s : step w rq s = step_from s w rq s ∧ step w rq (forget s) = step_from s w rq (forget s).
Proof. by destruct s. Qed.

Definition rollout_from (s : scheduler) (w : W) (rr : rollout_request) : act scheduler rollout_output :=
  let rq := rr_request rr in
  let cfg := sd_cfg s in
  let b := actual_batch rq in
  let steps := Z.to_nat (c5_steps cfg) in
  _ ← lift (validate s rq);
  sigmas ← lift (validate_rollout s rr b);
  '(out, lo) ← prepare_prefix w rq;
  let noise := match rq_noise rq with None => randn 0 b | Some (_, rows) => rows end in
  let first := match rq_noise rq with None => 1%nat | Some _ => 0%nat end in
  let step_noise := match rr_step_noise rr with
                    | None => stack_steps (Z.to_nat b) ((λ k, randn (first + k) b) <$> seq 0 steps)
                    | Some (_, rows) => rows
                    end in
  tj ← on_expert (expert_forward_rollout expert_net value_head w (pad_batch (sd_max_b s) (zero_chunk cfg) noise)
         (pad_batch (sd_max_b s) (replicate steps (zero_chunk cfg)) step_noise)
         (pad_batch (sd_max_b s) (replicate steps 0%Qc) sigmas));
  let cut {A} (l : list A) := take (Z.to_nat b) l in
  mret (RolloutOutput (cut (tj_actions tj)) (cut (tj_chains tj)) (cut (tj_logprobs tj))
    (if rr_compute_values rr then
       Some (if c5_value_after_vlm cfg then (λ v, [v]) <$> prefix_values prefix_value w b out lo else cut (tj_values tj))
     else None)).

Lemma rollout_unfold w rr s : rollout_step w rr s = rollout_from s w rr s ∧ rollout_step w rr (forget s) = rollout_from s w rr (forget s).
Proof. by destruct s. Qed.

Lemma lift_bind {St A B} (r : res A) (k : A → act St B) s :
  (lift r ≫= k) s = match r with Ok a => k a s | Err e => (s, Err e) end.
Proof. by destruct r. Qed.

Lemma agree_stop {A} (s : scheduler) e : agree (A:=A) (s, Err e) (forget s, Err e).
Proof. split; [by destruct s|done]. Qed.

Lemma agree_serve_call w c s : remembers s → agree (serve_call w c s) (serve_call w c (forget s)).
Proof.
  intros Hr. destruct c as [rq|rr]; (apply agree_bind; [|intros; by split]).
  - destruct (step_unfold w rq s) as [-> ->]. unfold step_from. rewrite !lift_bind.
    destruct (validate s rq); [|apply agree_stop]. apply agree_bind; [by apply prepare_agrees|].
    intros _ s1 f1 _ Hf. rewrite !lift_bind. destruct (of_option _ _); [|by split]. apply agree_bind; [by apply blind_on_expert|].
    intros x s2 f2 _ Hf2. by split.
  - destruct (rollout_unfold w rr s) as [-> ->]. unfold rollout_from. rewrite !lift_bind.
    destruct (validate s (rr_request rr)); [|apply agree_stop]. rewrite ?lift_bind.
    destruct (validate_rollout s rr _); [|apply agree_stop]. apply agree_bind; [by apply prepare_agrees|].
    intros [out lo] s1 f1 _ Hf. apply agree_bind; [by apply blind_on_expert|]. intros x s2 f2 _ Hf2. by split.
Qed.

(** The expert's forwards touch the pool only. *)
Lemma on_pool_frame {A} (m : expert_runner → act (kv_pool (T:=T)) A) (s s' : scheduler) o :
  on_expert (on_pool m) s = (s', o) → s' = with_runners (sd_llm s) (sd_expert s) (sd_pool s') s.
Proof. unfold on_expert, zoom, on_pool. simpl. destruct (m _ _) as [p o']. by intros [= <- <-]. Qed.

Lemma remembers_pool p s : remembers s → remembers (with_runners (sd_llm s) (sd_expert s) p s).
Proof.
  intros [Hl Hp]. split; [exact Hl|]. intros key Hk. destruct (Hp key Hk) as (lo & Hd & [H1' H2' H3' H4']). exists lo. split; [done|]. by split.
Qed.

(** A refused request leaves all as it was. *)
Lemma serve_call_refused w c s : refused s c → (serve_call w c s).1 = s.
Proof.
  destruct c as [rq|rr]; cbn [serve_call refused]; intros Hr.
  - destruct (step_unfold w rq s) as [He _]. unfold step_from in He. rewrite lift_bind in He. destruct (validate s rq) as [[]|e]; [done|].
    by rewrite (act_bind_stop _ _ _ _ _ He).
  - destruct (rollout_unfold w rr s) as [He _]. unfold rollout_from in He. rewrite lift_bind in He.
    destruct (validate s (rr_request rr)) as [[]|e]; [|by rewrite (act_bind_stop _ _ _ _ _ He)]. simpl in Hr. rewrite lift_bind in He.
    destruct (validate_rollout s rr _); [done|]. by rewrite (act_bind_stop _ _ _ _ _ He).
Qed.

(** A request that succeeds leaves what is remembered right. *)
Lemma serve_call_remembers w c s s' o : serve_call w c s = (s', Ok o) → remembers s → remembers s'.
Proof.
  intros Hc Hr. destruct c as [rq|rr]; cbn [serve_call] in Hc; apply act_bind_ok in Hc as (s1 & x & Hc & [= <- _]).
  - destruct (step_unfold w rq s) as [He _]. rewrite He in Hc. unfold step_from in Hc.
    apply act_bind_ok in Hc as (? & [] & [-> _]%lift_ok & Hc). apply act_bind_ok in Hc as (s2 & [out lo] & Hp & Hc).
    apply act_bind_ok in Hc as (? & ? & [-> _]%lift_ok & Hc). apply act_bind_ok in Hc as (s3 & y & Hf & [= <- _]).
    unfold expert_forward in Hf. rewrite (on_pool_frame _ _ _ _ Hf). apply remembers_pool. by apply (prepare_remembers _ _ _ _ _ _ Hp).
  - destruct (rollout_unfold w rr s) as [He _]. rewrite He in Hc. unfold rollout_from in Hc.
    apply act_bind_ok in Hc as (? & [] & [-> _]%lift_ok & Hc). apply act_bind_ok in Hc as (? & ? & [-> _]%lift_ok & Hc).
    apply act_bind_ok in Hc as (s2 & [out lo] & Hp & Hc). apply act_bind_ok in Hc as (s3 & y & Hf & [= <- _]).
    unfold expert_forward_rollout in Hf. rewrite (on_pool_frame _ _ _ _ Hf). apply remembers_pool. by apply (prepare_remembers _ _ _ _ _ _ Hp).
Qed.

(** C9: Skipping plans is sound.  A scheduler that remembers layouts and plans
    its runners only when the layout changes answers every run of requests
    and rollouts, each of which succeeds or is refused by the validation, as
    the scheduler that forgets everything before each request. *)
Theorem skipped_plans_sound w cs s :
  remembers s → clean w cs s →
  (serve w cs s).2 = (serve_afresh w cs s).2 ∧ forget (serve w cs s).1 = forget (serve_afresh w cs s).1.
Proof.
  intros Hr. assert (forget s = forget s) as Hf by done. revert Hr Hf. generalize s at 3 6 8 as f. revert s.
  induction cs as [|c cs IH]; intros s f Hr Hf Hc; [done|]. cbn [serve serve_afresh clean] in *.
  pose proof (agree_serve_call w c s Hr) as [Hs Ho]. rewrite Hf in Hs, Ho. destruct (serve_call w c s) as [s1 o] eqn:E1.
  destruct (serve_call w c (forget f)) as [f1 o'] eqn:E2. simpl in Hs, Ho. subst o'. destruct Hc as [Hok Hc].
  assert (remembers s1) as Hr1.
  { destruct o as [o|e]; [by apply (serve_call_remembers _ _ _ _ _ E1)|]. destruct Hok as [|Hok]; [done|].
    pose proof (serve_call_refused w c s Hok) as Hs1. rewrite E1 in Hs1. simpl in Hs1. by rewrite Hs1. }
  destruct (IH s1 f1 Hr1 Hs Hc) as [Ha Hb].
  destruct (serve w cs s1) as [s2 os], (serve_afresh w cs f1) as [f2 os']. simpl in *. by rewrite Ha.
Qed.
End steps.

(** A run of five requests: two with one layout, one with another, one that is
    refused, and the first layout again. *)
Import Pi05Demo.
#[local] Existing Instance numbers.

Definition demo_calls : list (call (P:=list Z)) := inl <$> [ask [5; 3]; ask [5; 3]; ask [7]; bad; ask [5; 3]].

Abbreviation demo_serve := (serve (λ _, Ok ()) 0 vision_tower embed_lang paligemma_lm expert_net value_head prefix_value randn).
Abbreviation demo_afresh := (serve_afresh (λ _, Ok ()) 0 vision_tower embed_lang paligemma_lm expert_net value_head prefix_value randn).

Lemma skipped_plans_sound_witness :
  (demo_serve 1 demo_calls ready).2 = (demo_afresh 1 demo_calls ready).2 ∧
  forget (demo_serve 1 demo_calls ready).1 = forget (demo_afresh 1 demo_calls ready).1.
Proof.
  refine (skipped_plans_sound (λ _, Ok ()) 0 vision_tower embed_lang paligemma_lm expert_net value_head prefix_value randn 1 demo_calls ready _ _).
  - apply fresh_remembers; vm_compute; reflexivity.
  - vm_compute. repeat first [exact I|split; [first [left; exact I|right; exact I]|]].
Defined.
