(* ===== verification/Pi05Updates.v ===== *)
(** * Properties of pi0.5: set-up and weight updates

    Which graphs a set-up captures, what a hot weight update does to the plan
    of the expert, and which backend can be captured at all. *)

From S2P Require Import Prelude Tensor KvCache Attention AttentionProps Paged PagedProps PiConfig Pi05Runners Pi05Scheduler Pi05Props Pi05Steps.
Open Scope Z_scope.

Section updates.
Context {F E T : Type} `{TorchIndex E T}.
Context (plan_check : page_plan F → res unit).
Context {P W V TE M Ft : Type} (v_zero : V).
Context (vision_tower : W → P → res (list V)) (embed_lang : W → list Z → list V) (embed_time : W → list Qc → list TE).
Context (paligemma_lm : W → list V → list Z → paged_backend (F:=F) → paged_ctx → kv_pool (T:=T) → kv_pool (T:=T) * res (list V)).
Context (modulation : W → list TE → list M).
Context (expert_net : W → M → list chunk → list Z → paged_backend (F:=F) → paged_ctx → kv_pool (T:=T) →
  kv_pool (T:=T) * res (list chunk * list Ft)).
Context (value_head : W → option Z → Ft → Qc) `{Numbers}.

Abbreviation scheduler := (scheduler (F:=F) (T:=T) (TE:=TE) (M:=M)).
Abbreviation expert_runner := (expert_runner (F:=F) (TE:=TE) (M:=M)).
Abbreviation request := (request (P:=P)).
Abbreviation prepare_prefix := (prepare_prefix plan_check v_zero vision_tower embed_lang paligemma_lm (P:=P) (TE:=TE) (M:=M)).
Abbreviation refresh := (refresh_weight_dependent_state plan_check embed_time modulation expert_net value_head).

(** ** The plan of the wrapper *)

(** The slots a FlashInfer backend is planned to read *)
Definition planned_slots (b : paged_backend (F:=F)) : option (list Z) :=
  match b with PFlash f => match pb_wrapper f with Some (Some p) => Some (pp_kv_indices p) | _ => None end | PSdpa _ => None end.

Lemma page_plan_slots m (f f' : page_backend (F:=F)) :
  page_plan_into plan_check m f = (f', Ok tt) →
  ∃ idx, pm_kv_indices m = Some idx ∧ planned_slots (PFlash f') = Some (to_int32 <$> ix_values idx).
Proof.
  unfold page_plan_into. destruct f as [[proto|] [w|]]; try done. simpl.
  destruct (pm_cu_q m) as [q|]; [|done]. destruct (pm_kv_indptr m) as [k|]; [|done]. destruct (pm_kv_indices m) as [i|]; [|done].
  destruct (pm_last_page_len m) as [l|]; [|done]. destruct (plan_check _) as [u|e]; [|done]. intros [= <-]. by exists i.
Qed.

(** A backend stays of its kind. *)
Lemma stage_flash ug m h h' f (b' : paged_backend (F:=F)) :
  stage_plan plan_check ug m h (PFlash f) = (b', h', Ok tt) → ∃ f', b' = PFlash f' ∧ page_plan_into plan_check m f = (f', Ok tt).
Proof.
  unfold stage_plan, replay_handle, paged_replay, paged_plan. destruct ug; [destruct h as [h|]|];
    destruct (page_plan_into plan_check m f) as [f' [[]|e]]; simpl; try done; intros [= <- <-]; by exists f'.
Qed.

Lemma expert_seed_slots (r : expert_runner) m :
  expert_seed r = Ok m →
  pm_kv_indices m = Some (int32_indices (arange 0 (er_batch r * Z.min (er_chunk r * 4) (er_max_indices r / er_batch r)))).
Proof.
  unfold expert_seed, py_div, seed_metadata, prefill_meta, paged_meta_init. intros Hm.
  repeat (apply bind_ok in Hm as (? & ? & Hm); simplify_eq). inv_bind. done.
Qed.

(** ** What a graph capture leaves alone *)

Lemma capture_loop_backend w d (r r' : expert_runner) (p p' : kv_pool (T:=T)) o :
  capture_loop expert_net w d (r, p) = ((r', p'), o) → er_backend r' = er_backend r.
Proof.
  unfold capture_loop, mbind, act_bind, peek. cbn [fst snd]. destruct (eager r) as [b|e]; [|by intros [= <- <- <-]].
  unfold on_pool. simpl. destruct (capture_runs _ _) as [p1 [[]|e]]; unfold on_runner, zoom, modify; by intros [= <- <- <-].
Qed.

Lemma capture_rollout_backend w d (r r' : expert_runner) (p p' : kv_pool (T:=T)) o :
  capture_rollout_loop expert_net value_head w d (r, p) = ((r', p'), o) → er_backend r' = er_backend r.
Proof.
  unfold capture_rollout_loop, mbind, act_bind, peek. cbn [fst snd]. destruct (eager r) as [b|e]; [|by intros [= <- <- <-]].
  unfold on_pool. simpl. destruct (capture_runs _ _) as [p1 [[]|e]]; unfold on_runner, zoom, modify; by intros [= <- <- <-].
Qed.

(** ** Hot weight updates *)

Lemma recapture_backend w d g rg (r r' : expert_runner) (p p' : kv_pool (T:=T)) :
  recapture plan_check expert_net value_head w d g rg (r, p) = ((r', p'), Ok tt) →
  ∃ seed h, expert_seed r = Ok seed ∧ paged_plan plan_check seed (er_backend r) = (er_backend r', Ok h).
Proof.
  unfold recapture. intros (s1 & [] & [= <-] & (s2 & r1 & [= <- <-] & Hm)%act_bind_ok)%act_bind_ok.
  apply act_bind_ok in Hm as (s3 & seed & [-> Hs]%lift_ok & Hm). apply act_bind_ok in Hm as ([r4 p4] & [] & Hi & Hm).
  exists seed. unfold on_runner, zoom, expert_init_capture in Hi. cbn [fst snd] in Hi.
  destruct (paged_plan _ _ _) as [b [h|e]] eqn:Hp in Hi; [|done]. injection Hi as <- <-. exists h. split; [exact Hs|].
  apply act_bind_ok in Hm as ([r5 p5] & [] & Hg & Hr). cbn [er_backend er_graphs] in Hp. rewrite Hp.
  assert (er_backend r5 = b) as H5 by (destruct g; [by rewrite (capture_loop_backend _ _ _ _ _ _ _ Hg)|by injection Hg as <- <-]).
  assert (er_backend r' = er_backend r5) as H6 by (destruct rg; [by rewrite (capture_rollout_backend _ _ _ _ _ _ _ Hr)|by injection Hr as <- <-]).
  by rewrite H6, H5.
Qed.

(** After an update the wrapper of a captured expert holds the seed plan. *)
Lemma refresh_plans_seed w s s1 f :
  refresh w s = (s1, Ok tt) → er_backend (sd_expert s) = PFlash f →
  is_Some (er_graph (sd_expert s)) ∨ is_Some (er_rollout_graph (sd_expert s)) →
  let r := sd_expert s in
  sd_last s1 = sd_last s ∧ sd_cache s1 = sd_cache s ∧ geometry_of s1 = geometry_of s ∧
  planned_slots (er_backend (sd_expert s1)) =
    Some (to_int32 <$> (to_int32 <$> arange 0 (er_batch r * Z.min (er_chunk r * 4) (er_max_indices r / er_batch r)))).
Proof.
  intros Hm Hb Hg r. unfold refresh_weight_dependent_state in Hm. apply act_bind_ok in Hm as (? & ? & [= <- <-] & Hm).
  apply act_bind_ok in Hm as (s2 & [] & [= <-] & Hm). apply act_bind_ok in Hm as (s3 & [] & Hbind & Hm).
  apply act_bind_ok in Hm as (s4 & b & Hrec & [= <-]). rewrite on_expert_runner in Hbind. unfold bind_euler_schedule in Hbind.
  destruct (negb _); [done|]. destruct (_ =? 0); [done|]. injection Hbind as <-. unfold on_expert, zoom in Hrec. cbn in Hrec.
  destruct (recapture_after_weight_update _ _ _ _ _ _) as [[e p] o] eqn:Er in Hrec. injection Hrec as <- ->. cbn.
  split; [done|]. split; [done|]. split; [done|]. unfold recapture_after_weight_update in Er.
  apply act_bind_ok in Er as (? & ? & [= <- <-] & Er). cbn [fst er_graph er_rollout_graph er_bound] in Er.
  assert (∃ g rg sch tb, recapture plan_check expert_net value_head w (c5_action_dim (sd_cfg s)) g rg
      (er_bound sch tb (sd_expert s), sd_pool s) = ((e, p), Ok tt)) as (g & rg & sch & tb & Hr).
  { destruct (er_graph (sd_expert s)), (er_rollout_graph (sd_expert s));
      [| | |by destruct Hg as [[? ?]|[? ?]]]; apply act_bind_ok in Er as (? & [] & Er & [= -> _]); by eexists _, _, _, _. }
  apply recapture_backend in Hr as (seed & h & Hs & Hp). cbn [er_backend er_bound] in Hp. rewrite Hb in Hp. unfold paged_plan in Hp.
  destruct (page_plan_into _ _ _) as [f' [[]|]] eqn:Hpl; [|done]. injection Hp as <- _.
  apply page_plan_slots in Hpl as (idx & Hidx & ->). rewrite (expert_seed_slots _ _ Hs) in Hidx. by injection Hidx as <-.
Qed.

(** ** The plan a request runs under *)

Lemma request_layout_frame key n (s s1 : scheduler) lo :
  request_layout key n s = (s1, Ok lo) → sd_expert s1 = sd_expert s ∧ sd_llm s1 = sd_llm s.
Proof.
  unfold request_layout. intros (? & ? & [= <- <-] & Hm)%act_bind_ok. unfold id in Hm. destruct (dget _ _); [by injection Hm as <- _|].
  apply act_bind_ok in Hm as (? & ? & [-> _]%lift_ok & Hm). by apply act_bind_ok in Hm as (? & ? & [= <- _] & [= <- _]).
Qed.

(** A request with the last key runs under the plans there are. *)
Lemma prepare_same_key w (rq : request) s s' x :
  sd_last s = Some (actual_batch rq, rq_lens rq) → prepare_prefix w rq s = (s', Ok x) →
  sd_expert s' = sd_expert s ∧ sd_llm s' = sd_llm s.
Proof.
  intros Hl. rewrite (prepare_unfold plan_check v_zero vision_tower embed_lang paligemma_lm w rq s).
  rewrite (bool_decide_true (sd_last s = _)) by done. simpl negb.
  intros (s1 & lo & [He Hll]%request_layout_frame & Hm)%act_bind_ok. rewrite <- He, <- Hll. unfold prepare_body in Hm.
  apply act_bind_ok in Hm as (? & ? & [-> _]%lift_ok & Hm). apply act_bind_ok in Hm as (? & ? & [-> _]%lift_ok & Hm).
  apply act_bind_ok in Hm as (? & ? & [= <- _] & Hm). apply act_bind_ok in Hm as (s3 & o & Hf%llm_forward_frame & Hm).
  apply act_bind_ok in Hm as (? & ? & [= <- _] & Hm). apply act_bind_ok in Hm as (? & ? & [= <- _] & [= <- _]). by rewrite Hf.
Qed.

(** A request with another key plans the joint pass of its own layout. *)
Lemma prepare_new_key w (rq : request) s s' x f :
  sd_last s ≠ Some (actual_batch rq, rq_lens rq) → er_backend (sd_expert s) = PFlash f → prepare_prefix w rq s = (s', Ok x) →
  ∃ idx, pm_kv_indices (lo_joint_meta x.2) = Some idx ∧ planned_slots (er_backend (sd_expert s')) = Some (to_int32 <$> ix_values idx).
Proof.
  intros Hl Hb. rewrite (prepare_unfold plan_check v_zero vision_tower embed_lang paligemma_lm w rq s).
  rewrite (bool_decide_false (sd_last s = _)) by done. simpl negb.
  intros (s1 & lo & [He _]%request_layout_frame & Hm)%act_bind_ok. rewrite <- He in Hb. unfold prepare_body in Hm.
  apply act_bind_ok in Hm as (? & ? & [-> _]%lift_ok & Hm). apply act_bind_ok in Hm as (? & ? & [-> _]%lift_ok & Hm).
  apply act_bind_ok in Hm as (s2 & [] & (p & x0 & q & y & r & _ & _ & _ & ->)%plan_prefix_made & Hm).
  apply act_bind_ok in Hm as (s3 & o & Hf%llm_forward_frame & Hm). apply act_bind_ok in Hm as (s4 & [] & (e & Hj & ->)%plan_joint_made & Hm).
  apply act_bind_ok in Hm as (? & ? & [= <- _] & [= <- <-]). rewrite Hf in Hj. simpl in Hj |- *. unfold expert_plan in Hj.
  destruct (pm_position_ids _); [|done]. destruct (negb _); [done|]. rewrite Hb in Hj.
  destruct (stage_plan _ _ _ _ _) as [[b h] o'] eqn:Es. injection Hj as <- ->. apply stage_flash in Es as (f' & -> & Hp). by eapply page_plan_slots.
Qed.

(** C33: A hot weight update leaves the expert on the seed plan.  When the
    expert runs FlashInfer under a captured graph, [finish_weight_update] plans
    the wrapper for the capture seed and leaves the key of the last layout: the
    next request with that key is not planned again, so its expert attends the
    first slots of the pool, the sentinel among them, in place of the slots of
    its own layout, which a scheduler without memory plans. *)
Theorem hot_update_reads_seed w (rq : request) s s1 s2 x f :
  refresh w s = (s1, Ok tt) → er_backend (sd_expert s) = PFlash f →
  is_Some (er_graph (sd_expert s)) ∨ is_Some (er_rollout_graph (sd_expert s)) →
  sd_last s = Some (actual_batch rq, rq_lens rq) → prepare_prefix w rq s1 = (s2, Ok x) →
  let r := sd_expert s in let seen := er_batch r * Z.min (er_chunk r * 4) (er_max_indices r / er_batch r) in
  planned_slots (er_backend (sd_expert s2)) = Some (to_int32 <$> arange 0 seen) ∧
  ∀ s3 y, prepare_prefix w rq (forget s1) = (s3, Ok y) →
    ∃ idx, pm_kv_indices (lo_joint_meta y.2) = Some idx ∧ planned_slots (er_backend (sd_expert s3)) = Some (to_int32 <$> ix_values idx).
Proof.
  intros Hr Hb Hg Hl Hp r seen. destruct (refresh_plans_seed _ _ _ _ Hr Hb Hg) as (Hl1 & _ & _ & Hs). rewrite Hl in Hl1.
  destruct (prepare_same_key w rq s1 s2 x Hl1 Hp) as [He _]. split.
  - rewrite He, Hs. f_equal. rewrite <- list_fmap_compose. apply list_fmap_ext. intros ? z _. apply to_int32_idem.
  - intros s3 y H3. destruct (er_backend (sd_expert s1)) as [b|f1] eqn:Hb1; [done|].
    by apply (prepare_new_key w rq (forget s1) s3 y f1).
Qed.

(** ** Set-up *)

Abbreviation setup := (scheduler_setup plan_check v_zero embed_time paligemma_lm modulation expert_net value_head).
Abbreviation llm_setup := (llm_setup plan_check v_zero paligemma_lm).

Lemma llm_plan_graphs m (r r' : llm_runner (F:=F)) o : llm_plan plan_check m r = (r', o) → lr_graphs r' = lr_graphs r ∧ lr_batch r' = lr_batch r.
Proof. unfold llm_plan. destruct (stage_plan _ _ _ _ _) as [[b h] o']. by intros [= <- <-]. Qed.

(** The loop over the buckets captures each of them. *)
Lemma capture_all w buckets (r r' : llm_runner (F:=F)) (p : kv_pool (T:=T)) s' :
  each_act (λ n, seed ← lift (llm_seed r n); _ ← on_runner (llm_plan plan_check seed); llm_capture v_zero paligemma_lm w n) buckets (r', p)
    = (s', Ok tt) →
  lr_graphs s'.1 = lr_graphs r' ++ buckets.
Proof.
  revert r' p. induction buckets as [|n ns IH]; intros r' p; cbn [each_act]; [intros [= <-]; by rewrite app_nil_r|].
  intros ([r2 p2] & [] & Hc & Hm)%act_bind_ok. rewrite (IH _ _ Hm). clear IH Hm.
  apply act_bind_ok in Hc as (? & seed & [-> _]%lift_ok & Hc). apply act_bind_ok in Hc as ([r3 p3] & [] & Hp & Hc).
  unfold on_runner, zoom in Hp. cbn [fst snd] in Hp. destruct (llm_plan _ _ _) as [r4 o] eqn:Hl. injection Hp as -> <- ->.
  apply llm_plan_graphs in Hl as [Hl _]. unfold llm_capture in Hc. cbn [fst snd] in Hc. destruct (capture_runs _ _) as [p5 [[]|]]; [|done].
  injection Hc as <- <-. cbn [lr_graphs lr_captured]. by rewrite Hl, <- app_assoc.
Qed.

Lemma llm_setup_graphs w bs (r : llm_runner (F:=F)) (p : kv_pool (T:=T)) s' :
  llm_setup w bs (r, p) = (s', Ok tt) → lr_use_graph r = true → lr_graphs s'.1 = lr_graphs r ++ capture_buckets bs (lr_n r).
Proof.
  unfold Pi05Runners.llm_setup. intros (s1 & [] & [= <-] & Hm)%act_bind_ok Hg.
  apply act_bind_ok in Hm as (? & ? & [= <- <-] & Hm). cbn [fst lr_use_graph lr_planned] in Hm. rewrite Hg in Hm. simpl negb in Hm. cbv iota in Hm.
  apply act_bind_ok in Hm as (? & [] & [-> _]%lift_ok & Hm). apply act_bind_ok in Hm as (? & seed & [-> _]%lift_ok & Hm).
  apply act_bind_ok in Hm as ([r2 p2] & [] & Hi & Hm). apply capture_all in Hm. rewrite Hm. f_equal.
  unfold on_runner, zoom, llm_init_capture in Hi. cbn [fst snd] in Hi. destruct (paged_plan _ _ _) as [b [h|]]; [|done]. by injection Hi as <- <-.
Qed.

Lemma on_expert_llm {A} (m : act (expert_runner * kv_pool) A) (s s' : scheduler) o : on_expert m s = (s', o) → sd_llm s' = sd_llm s.
Proof. unfold on_expert, zoom. destruct (m _) as [[e p] o']. by intros [= <- _]. Qed.

(** The seed of a capture is well-formed. *)
Lemma seed_step (B : nat) q kv ws :
  0 < q → 0 < kv → Z.of_nat B * q < 2 ^ 31 → Z.of_nat B * kv < 2 ^ 31 →
  ∃ m, seed_metadata (Z.of_nat B) q kv ws = Ok m ∧
    paged_step m (cu_of (replicate B q)) (cu_of (replicate B kv)) (int32_indices (arange 0 (Z.of_nat B * kv))).
Proof.
  intros Hq Hk Hbq Hbk. unfold seed_metadata, arange_steps. destruct (Z.eqb_spec q 0); [lia|]. destruct (Z.eqb_spec kv 0); [lia|].
  cbn [negb ensure mbind res_bind]. rewrite !steps_cu, Nat2Z.id.
  destruct (prefill_meta_step (replicate B q) (replicate B kv) (int32_indices (arange 0 (Z.of_nat B * kv))) (replicate B 1) (Some ws) None)
    as [Hm Hst]; rewrite ?length_replicate, ?sum_replicate; try done; try (apply Forall_replicate; lia).
  - unfold int32_indices. cbn [ix_shape ix_values]. by rewrite length_fmap.
  - unfold int32_indices, arange. cbn [ix_values]. rewrite !length_fmap, length_seq. lia.
  - intros i k [_ Hi]%lookup_replicate _. by apply lookup_replicate_2.
  - rewrite length_replicate, sum_replicate in Hm. rewrite Hm. eexists. split; [done|]. by rewrite length_replicate, sum_replicate in Hst.
Qed.

(** SDPA keeps the offsets it was planned with. *)
Lemma sdpa_replay_offsets proto p m qo ko idx :
  paged_step m qo ko idx → (qo, ko) ≠ (sp_q_offsets p, sp_kv_offsets p) →
  paged_replay plan_check (HSdpa p) m (PSdpa proto) = (PSdpa proto, Err ValueError).
Proof.
  intros Hst Hne. unfold paged_replay, sdpa_paged_replay. rewrite (ps_offsets _ _ _ _ Hst). cbn [mbind res_bind].
  by rewrite bool_decide_false.
Qed.

Lemma sdpa_plan_offsets proto m qo ko idx :
  paged_step m qo ko idx → ix_dtype idx = "int32"%string →
  ∃ p, paged_plan plan_check m (PSdpa (Some proto)) = (PSdpa (Some proto), Ok (HSdpa p)) ∧ sp_q_offsets p = qo ∧ sp_kv_offsets p = ko.
Proof.
  intros Hst Hd. unfold paged_plan, sdpa_paged_plan. rewrite (ps_offsets _ _ _ _ Hst). cbn [mbind res_bind].
  rewrite (ps_indices _ _ _ _ Hst), (ps_shape _ _ _ _ Hst), Hd. simpl. by eexists.
Qed.

(** The first bucket that is captured is shorter than the longest. *)
Lemma first_bucket g : 16 < gm_tok_max g →
  ∃ x rest, capture_buckets (Some ((Z.add (gm_n_img g)) <$> lang_buckets (gm_tok_max g))) (gm_n g) = x :: rest ∧ x < gm_n g.
Proof.
  intros Ht. assert (gm_n_img g + 16 ∈ capture_buckets (Some ((Z.add (gm_n_img g)) <$> lang_buckets (gm_tok_max g))) (gm_n g)) as Hin.
  { unfold capture_buckets. destruct (Z.add (gm_n_img g) <$> lang_buckets (gm_tok_max g)) as [|x xs] eqn:El.
    { apply fmap_nil_inv in El. by apply app_nil in El as [_ ?]. }
    rewrite py_sorted_elem, elem_of_remove_dups, <- El. apply list_elem_of_fmap_2. unfold lang_buckets. simpl.
    destruct (Z.ltb_spec 16 (gm_tok_max g)); [|lia]. simpl. by left. }
  revert Hin. unfold capture_buckets. match goal with |- context [py_sorted Z.le ?l] => pose proof (py_sorted_sorted Z.le l) as Hs;
    destruct (py_sorted Z.le l) as [|x rest] end; [by intros ?%not_elem_of_nil|].
  intros Hin. exists x, rest. split; [done|]. unfold gm_n. apply StronglySorted_inv in Hs as [_ Hall].
  apply elem_of_cons in Hin as [<- | Hin]; [lia|]. pose proof (proj1 (Forall_forall _ _) Hall _ Hin). simpl in *. lia.
Qed.

(** C34: Every request finds its graph.  After a set-up with CUDA graphs, the
    language runner holds a captured graph for the prefix length of every
    request whose prompts are within the tokenizer's maximum, and that length
    is the shortest of the buckets that covers its longest prompt. *)
Theorem graphs_cover_requests cfg ll el lb eb mb ni cr s w s' lens :
  scheduler_init cfg ll el lb eb mb ni true true cr = Ok s → setup w s = (s', Ok tt) → max_default lens <= c5_tokenizer_max cfg →
  let g := sd_geometry cfg mb ni in
  ∃ b, bucket_n_per_sample g (max_default lens) = gm_n_img g + b ∧
    bucket_n_per_sample g (max_default lens) ∈ lr_graphs (sd_llm s') ∧
    max_default lens <= b <= c5_tokenizer_max cfg ∧ ∀ b', b' ∈ lang_buckets (c5_tokenizer_max cfg) → max_default lens <= b' → b <= b'.
Proof.
  intros Hi Hs Hl g. destruct (bucket_spec g _ Hl) as (b & Hb & _ & Hr & Hmin). exists b. split; [done|]. split; [|done].
  unfold scheduler_init in Hi. repeat (apply bind_ok in Hi as (? & ? & Hi)). injection Hi as <-.
  unfold llm_init in *. inv_bind. unfold scheduler_setup in Hs. apply act_bind_ok in Hs as (? & ? & [= <- <-] & Hs).
  apply act_bind_ok in Hs as (s1 & [] & [= <-] & Hs). apply act_bind_ok in Hs as (s2 & [] & Hll & Hs).
  apply act_bind_ok in Hs as (s3 & [] & [= <-] & Hs). apply act_bind_ok in Hs as (s4 & [] & Hx4%on_expert_llm & Hs).
  apply act_bind_ok in Hs as (s5 & [] & Hx5%on_expert_llm & Hs). apply on_expert_llm in Hs. rewrite Hs, Hx5, Hx4. clear Hs Hx5 Hx4.
  unfold on_llm, zoom in Hll. destruct (Pi05Runners.llm_setup _ _ _ _ _ _) as [rp o] eqn:El in Hll. injection Hll as <- ->. cbn.
  rewrite (llm_setup_graphs _ _ _ _ _ El) by done. cbn [lr_graphs app]. by apply (bucket_captured g).
Qed.

Lemma act_bind_raises {St A B} (m : act St A) (k : A → act St B) s e : (m s).2 = Err e → ((m ≫= k) s).2 = Err e.
Proof. unfold mbind, act_bind. destruct (m s) as [s' [a|e']]; simpl; [done|]. by intros [= ->]. Qed.

Lemma llm_seed_step g (r : llm_runner (F:=F)) n (B := Z.to_nat (gm_max_b g)) :
  lr_batch r = gm_max_b g → lr_max_indices r = gm_max_b g * gm_n g → 0 < gm_max_b g → gm_max_b g * gm_n g < 2 ^ 31 → 0 < n <= gm_n g →
  ∃ m idx, llm_seed r n = Ok m ∧ paged_step m (cu_of (replicate B n)) (cu_of (replicate B n)) idx ∧ ix_dtype idx = "int32"%string.
Proof.
  intros Hb Hm HB Hbound Hn. unfold llm_seed, py_div. rewrite Hb, Hm. destruct (Z.eqb_spec (gm_max_b g) 0); [lia|]. simpl.
  rewrite (Z.mul_comm (gm_max_b g) (gm_n g)), Z.div_mul, Z.min_l by lia. assert (gm_max_b g = Z.of_nat B) as -> by lia.
  destruct (seed_step B n n (replicate (Z.to_nat (Z.of_nat B * n)) 0)) as (m & Hs & Hst); [lia|lia|nia|nia|]. by eexists m, _.
Qed.

Lemma llm_setup_sdpa w (r : llm_runner (F:=F)) (p : kv_pool (T:=T)) (g : geometry) b0 :
  lr_use_graph r = true → lr_backend r = PSdpa b0 → lr_batch r = gm_max_b g → lr_n r = gm_n g → lr_max_indices r = gm_max_b g * gm_n g →
  0 < gm_max_b g → 0 < gm_n_img g → 16 < gm_tok_max g → gm_max_b g * gm_n g < 2 ^ 31 →
  (llm_setup w (Some ((Z.add (gm_n_img g)) <$> lang_buckets (gm_tok_max g))) (r, p)).2 = Err ValueError.
Proof.
  intros Hg Hb Hbatch Hn Hmax HB Hi Ht Hbound. destruct (first_bucket g Ht) as (x & rest & Hbs & Hx).
  assert (0 < gm_n g) as Hn0 by (unfold gm_n; lia).
  unfold Pi05Runners.llm_setup. erewrite act_bind_step by reflexivity. erewrite act_bind_step by reflexivity.
  cbn [fst snd lr_use_graph lr_planned lr_n]. rewrite Hg, Hn, Hbs. cbn [negb]. rewrite lift_bind.
  destruct (Z.ltb_spec (gm_n g) (List.last (x :: rest) 0)); [done|]. change (default 0 ((x :: rest) !! 0%nat)) with x.
  destruct (Z.leb_spec x 0) as [|Hx0]; [done|]. cbn [orb negb ensure].
  destruct (llm_seed_step g (lr_planned (paged_init_state (lr_proto r) (lr_backend r)) (lr_plan r) r) (gm_n g)) as (m & idx & Hm & Hst & Hd);
    [done|done|done|done|lia|].
  rewrite lift_bind, Hm. destruct (sdpa_plan_offsets (lr_proto r) m _ _ idx Hst Hd) as (sp & Hp & Hqo & _).
  unfold on_runner, zoom, llm_init_capture. cbn [fst snd lr_backend lr_planned]. rewrite Hb. cbn [paged_init_state].
  erewrite act_bind_step by (cbn [fst snd lr_backend lr_planned]; rewrite Hp; reflexivity).
  cbn [each_act]. destruct (llm_seed_step g (lr_planned (PSdpa (Some (lr_proto r))) (lr_plan r) r) x) as (mx & idx' & Hmx & Hsx & _); [done|done|done|done|lia|].
  apply act_bind_raises. rewrite lift_bind, Hmx. apply act_bind_raises.
  unfold llm_plan, stage_plan, replay_handle. cbn [fst snd lr_backend lr_planned lr_plan lr_use_graph]. rewrite Hg.
  erewrite sdpa_replay_offsets; [done|exact Hsx|]. rewrite Hqo. intros Hc%(f_equal fst). cbn [fst] in Hc.
  set (B := Z.to_nat (gm_max_b g)) in *. assert (cu_of (replicate B x) !! 1%nat = cu_of (replicate B (gm_n g)) !! 1%nat) as Hc1 by (by rewrite Hc).
  rewrite !cu_of_lookup in Hc1 by (rewrite length_replicate; lia). destruct B as [|B'] eqn:HBe; [lia|]. simpl in Hc1. injection Hc1. lia.
Qed.

(** C35: SDPA cannot be captured.  The catalog offers the SDPA row for paged
    attention under capture, and the backend says it supports capture; but its
    replay refuses other offsets than those it was planned with, so the set-up
    of a scheduler with CUDA graphs fails with [ValueError] at its first
    bucket, whatever the networks do. *)
Theorem sdpa_capture_refused cfg ll el b0 eb mb ni cr s w :
  scheduler_init cfg ll el (PSdpa b0) eb mb ni true true cr = Ok s →
  0 < image_token_count cfg ni → 16 < c5_tokenizer_max cfg → total_slots (sd_geometry cfg mb ni) < 2 ^ 31 → 0 <= c5_chunk cfg →
  (setup w s).2 = Err ValueError.
Proof.
  intros Hi Himg Htok Hslots Hch. unfold scheduler_init in Hi. repeat (apply bind_ok in Hi as (? & ? & Hi)). injection Hi as <-.
  unfold llm_init in *. inv_bind. unfold scheduler_setup. erewrite act_bind_step by reflexivity. erewrite act_bind_step by reflexivity.
  apply act_bind_raises. unfold on_llm, zoom. cbn. set (g := sd_geometry cfg mb ni).
  match goal with |- context [Pi05Runners.llm_setup _ _ _ _ _ (?r, ?p)] => pose proof (llm_setup_sdpa w r p g b0) as Hl end.
  change (geometry_of _) with g. change (c5_tokenizer_max cfg) with (gm_tok_max g).
  destruct (Pi05Runners.llm_setup _ _ _ _ _ _) as [c o] eqn:Ec. cbn.
  assert (0 < mb) by (by apply Z.ltb_lt). apply Hl; try done.
  unfold total_slots, prefix_capacity, suffix_capacity, gm_n in *. cbn in *. nia.
Qed.
End updates.

(** ** Examples *)

Import Pi05Demo.
#[local] Existing Instance numbers.

(** A served request, then an update to other weights *)
Definition served : Pi05Demo.scheduler := (Pi05Demo.step 1 (ask [5; 3]) ready).1.
Abbreviation demo_refresh := (refresh_weight_dependent_state (T:=ftensor Z) (λ _, Ok ()) embed_time modulation expert_net value_head 2).
Definition updated : Pi05Demo.scheduler := (demo_refresh served).1.

Abbreviation demo_prepare := (prepare_prefix (λ _, Ok ()) 0 vision_tower embed_lang paligemma_lm).

(** The same request answers otherwise once its plan is made again. *)
Example update_changes_answer :
  match (Pi05Demo.step 2 (ask [5; 3]) updated).2, (Pi05Demo.step 2 (ask [5; 3]) (forget updated)).2 with
  | Ok a, Ok b => a ≠ b
  | _, _ => False
  end.
Proof. vm_compute. discriminate. Qed.

Definition wrapper_of (b : paged_backend (F:=Z)) : page_backend (F:=Z) := match b with PFlash f => f | PSdpa _ => PageBackend None None end.

Lemma demo_refresh_ok : demo_refresh served = (updated, Ok tt).
Proof. vm_compute. reflexivity. Qed.

Lemma hot_update_reads_seed_witness :
  planned_slots (er_backend (sd_expert (demo_prepare 2 (ask [5; 3]) updated).1)) = Some (to_int32 <$> arange 0 16) ∧
  ∃ x, (demo_prepare 2 (ask [5; 3]) updated).2 = Ok x.
Proof.
  assert (∃ x, (demo_prepare 2 (ask [5; 3]) updated).2 = Ok x) as [x Hx] by (eexists; vm_compute; reflexivity).
  split; [|by exists x].
  refine (proj1 (hot_update_reads_seed (λ _, Ok ()) 0 vision_tower embed_lang embed_time paligemma_lm modulation expert_net value_head
    2 (ask [5; 3]) served updated (demo_prepare 2 (ask [5; 3]) updated).1 x (wrapper_of (er_backend (sd_expert served))) _ _ _ _ _)).
  - exact demo_refresh_ok.
  - vm_compute. reflexivity.
  - left. vm_compute. eexists. reflexivity.
  - vm_compute. reflexivity.
  - exact (ok_pair (demo_prepare 2 (ask [5; 3]) updated) x Hx).
Defined.

Lemma demo_setup_ok :
  scheduler_setup (T:=ftensor Z) (λ _, Ok ()) 0 embed_time paligemma_lm modulation expert_net value_head 1 blank = (ready, Ok tt).
Proof. vm_compute. reflexivity. Qed.

Lemma graphs_cover_requests_witness :
  let g := sd_geometry cfg 2 2 in
  ∃ b, bucket_n_per_sample g (max_default [5; 3]) = gm_n_img g + b ∧ bucket_n_per_sample g (max_default [5; 3]) ∈ lr_graphs (sd_llm ready) ∧
    max_default [5; 3] <= b <= 20 ∧ ∀ b', b' ∈ lang_buckets 20 → max_default [5; 3] <= b' → b <= b'.
Proof.
  refine (graphs_cover_requests (λ _, Ok ()) 0 embed_time paligemma_lm modulation expert_net value_head cfg [proto] [proto]
    (PFlash (PageBackend None None)) (PFlash (PageBackend None None)) 2 2 false blank 1 ready [5; 3] _ _ _).
  - vm_compute. reflexivity.
  - exact demo_setup_ok.
  - vm_compute. discriminate.
Defined.

Definition sdpa_blank : Pi05Demo.scheduler := match created (PSdpa None) with Ok s => s | Err _ => blank end.

Lemma sdpa_capture_refused_witness : (Pi05Demo.setup 1 sdpa_blank).2 = Err ValueError.
Proof.
  refine (sdpa_capture_refused (λ _, Ok ()) 0 embed_time paligemma_lm modulation expert_net value_head cfg [proto] [proto] None (PSdpa None)
    2 2 false sdpa_blank 1 _ _ _ _ _).
  - vm_compute. reflexivity.
  - vm_compute. reflexivity.
  - vm_compute. reflexivity.
  - vm_compute. reflexivity.
  - vm_compute. discriminate.
Defined.
