(* ===== verification/Pi05Rollout.v ===== *)
(** * Rollouts and the plain flow ([models/pi05/model_runner_pi05.py])

    A rollout adds noise to the flow of a chunk, scaled by a sigma for every
    sample and step.  With sigmas of zero it is the plain Euler loop. *)

From S2P Require Import Prelude Tensor KvCache Attention Paged PiConfig Pi05Runners Pi05Scheduler Pi05Props.
Open Scope Z_scope.

(** ** The schedule *)

Abbreviation of_Z z := (Q2Qc (inject_Z z)).

Lemma of_Z_sub a b : of_Z (a - b) = (of_Z a - of_Z b)%Qc.
Proof. apply Qc_is_canon. simpl. rewrite !Qred_correct. unfold Z.sub. rewrite inject_Z_plus, inject_Z_opp. reflexivity. Qed.

Lemma of_Z_nonzero z : z ≠ 0 → of_Z z ≠ 0%Qc.
Proof. intros Hz He. apply (f_equal this) in He. apply Hz. simpl in He. pose proof (Qred_correct (inject_Z z)) as Hq.
  rewrite He in Hq. unfold Qeq in Hq. simpl in Hq. lia. Qed.

(** The times that a schedule of [n] steps goes through *)
Definition times (n : nat) : list Qc := step_times (Z.of_nat n) ++ [0%Qc].

Lemma times_lookup n i : (0 < n)%nat → (i <= n)%nat → times n !! i = Some (1 - of_Z (Z.of_nat i) / of_Z (Z.of_nat n))%Qc.
Proof.
  intros Hn Hi. pose proof (of_Z_nonzero (Z.of_nat n) ltac:(lia)) as Hz. unfold times, step_times, linspace.
  destruct (decide (i < n)%nat) as [Hl|Hl].
  - rewrite lookup_app_l by (rewrite length_fmap, length_seq; lia). rewrite list_lookup_fmap, lookup_seq_lt by lia. simpl. f_equal.
    rewrite Nat2Z.id. destruct (decide (n = 1)%nat) as [->|H1].
    + assert (i = 0)%nat as -> by lia. apply Qc_is_canon. reflexivity.
    + rewrite of_Z_sub. change (of_Z 1) with 1%Qc. assert (of_Z (Z.of_nat n) - 1 ≠ 0)%Qc.
      { change 1%Qc with (of_Z 1). rewrite <- of_Z_sub. apply of_Z_nonzero. lia. }
      field. done.
  - rewrite lookup_app_r by (rewrite length_fmap, length_seq; lia). rewrite length_fmap, length_seq.
    assert (i = n) as -> by lia. rewrite Nat2Z.id, Nat.sub_diag. simpl. f_equal. field. done.
Qed.

Lemma times_delta n i t t' :
  (i < n)%nat → times n !! i = Some t → times n !! S i = Some t' → (t - t')%Qc = (- step_size (Z.of_nat n))%Qc.
Proof.
  intros Hi. rewrite !times_lookup by lia. intros [= <-] [= <-]. pose proof (of_Z_nonzero (Z.of_nat n) ltac:(lia)).
  unfold step_size. replace (Z.of_nat (S i)) with (Z.of_nat i - (-1)) by lia. rewrite of_Z_sub.
  change (of_Z (-1)) with (- (1))%Qc. field. done.
Qed.

(** ** One update *)

Section elements.
Context `{Numbers}.

(** Without noise the mixture of the two predictions is the Euler update. *)
Lemma rollout_element_zero t delta x v noise : (rollout_element t delta 0 x v noise).1 = (x - delta * v)%Qc.
Proof. unfold rollout_element, Qcdiv. simpl. ring. Qed.

Lemma rollout_chunk_zero dt t delta x v noise :
  delta = (- dt)%Qc → (List.length x <= List.length noise)%nat →
  (rollout_chunk t delta 0 x v noise).1 = zip_with (λ a b, a + dt * b)%Qc x v.
Proof.
  intros ->. revert v noise. induction x as [|a x IH]; intros [|b v] [|c noise] Hl; cbn [rollout_chunk zip_with length fst] in *; try done; try lia.
  specialize (IH v noise ltac:(lia)). pose proof (rollout_element_zero t (- dt) a b c) as He.
  destruct (rollout_element t (- dt) 0 a b c) as [s l]. destruct (rollout_chunk t (- dt) 0 x v noise) as [ss ls]. cbn [fst] in *.
  rewrite He, IH. f_equal. ring.
Qed.

(** The noise that covers a batch: at every step, as many numbers as the
    chunks of the batch have. *)
Definition covers (steps : nat) (x : list chunk) (noise : list (list chunk)) : Prop :=
  ∀ b a, x !! b = Some a → ∃ c, noise !! b = Some c ∧ ∀ k, (k < steps)%nat → (List.length a <= List.length (default [] (c !! k)))%nat.

Definition zero_sigmas (rows steps : nat) : list (list Qc) := replicate rows (replicate steps 0%Qc).

Lemma covers_euler steps dt x v noise : covers steps x noise → covers steps (euler dt x v) noise.
Proof.
  intros Hc b a Ha. unfold euler in Ha. rewrite lookup_zip_with in Ha. destruct (x !! b) as [xa|] eqn:Hx; [|done].
  destruct (v !! b) as [vb|]; [|done]. simpl in Ha. injection Ha as <-. destruct (Hc b xa Hx) as (c & Hcb & Hlen).
  exists c. split; [done|]. intros k Hk. specialize (Hlen k Hk). rewrite length_zip_with. lia.
Qed.

Lemma covers_cons steps a x noise : covers steps (a :: x) noise →
  ∃ c noise', noise = c :: noise' ∧ (∀ k, (k < steps)%nat → (List.length a <= List.length (default [] (c !! k)))%nat) ∧ covers steps x noise'.
Proof.
  intros Hc. destruct (Hc 0%nat a eq_refl) as (c & Hn & Hl). destruct noise as [|c' noise']; [done|]. injection Hn as ->.
  exists c, noise'. split; [done|]. split; [done|]. intros b a' Hb. exact (Hc (S b) a' Hb).
Qed.

Lemma rollout_batch_zero dt t delta steps k x v noise rows :
  delta = (- dt)%Qc → (k < steps)%nat → covers steps x noise → (List.length x <= rows)%nat →
  (rollout_batch t delta k x v noise (zero_sigmas rows steps)).*1 = euler dt x v.
Proof.
  intros Hd Hk. revert v noise rows. induction x as [|a x IH]; intros v noise rows Hc Hr; [by destruct v|].
  destruct v as [|b v]; [done|]. destruct (covers_cons _ _ _ _ Hc) as (c & noise' & -> & Hl & Hc'). destruct rows as [|rows]; [simpl in Hr; lia|].
  simpl in Hr. simpl. rewrite lookup_replicate_2 by done. simpl. rewrite (rollout_chunk_zero dt) by auto. unfold euler. simpl. f_equal.
  apply IH; [done|lia].
Qed.
End elements.

(** ** The loops *)

(** The result of a run that only differs in what it reports *)
Definition reporting {St A B} (f : A → B) (o : St * res A) : St * res B := (o.1, a ← o.2; Ok (f a)).

Section loops.
Context {F E T : Type} `{TorchIndex E T} `{Numbers} {W TE M Ft : Type}.
Context (modulation : W → list TE → list M).
Context (expert_net : W → M → list chunk → list Z → paged_backend (F:=F) → paged_ctx → kv_pool (T:=T) →
  kv_pool (T:=T) * res (list chunk * list Ft)).
Context (value_head : W → option Z → Ft → Qc).
Implicit Types (r : expert_runner (F:=F) (TE:=TE) (M:=M)) (p : kv_pool (T:=T)).

Lemma rollout_loop_zero w r tables n noise rows steps x p :
  Forall (λ k, (k < n)%nat) steps → covers n x noise → (List.length x <= rows)%nat →
  fwd_loop expert_net w r tables (step_size (Z.of_nat n)) steps x p =
  reporting (λ o, o.1.1.1) (rollout_loop expert_net value_head w r tables (times n) noise (zero_sigmas rows n) steps x p).
Proof.
  intros Hs. revert x p. induction Hs as [|k steps Hk Hs IH]; intros x p Hc Hr; [done|].
  cbn [fwd_loop rollout_loop]. unfold lift at 1.
  destruct (times n !! k) as [t|] eqn:Et; [|rewrite times_lookup in Et by lia; done].
  destruct (times n !! S k) as [t'|] eqn:Et'; [|rewrite times_lookup in Et' by lia; done].
  cbn. unfold mbind, act_bind at 1 2 3. cbn. destruct (one_step expert_net w r tables x k p) as [p' [[v fs]|e]]; [|done].
  cbn. pose proof (times_delta n k t t' Hk Et Et') as Hd.
  rewrite (rollout_batch_zero (step_size (Z.of_nat n)) t (t - t')%Qc n k x v noise rows Hd Hk Hc Hr).
  rewrite IH; [|by apply covers_euler|unfold euler; rewrite length_zip_with; lia].
  unfold act_bind. destruct (rollout_loop _ _ _ _ _ _ _ _ _ _ _) as [p'' [[[[f cs] ls] vs]|e]]; done.
Qed.

Lemma bind_euler_shape w table dt n r r' :
  bind_euler_schedule modulation w table dt n r = (r', Ok tt) →
  0 < n ∧ er_schedule r' = Some (Schedule table (step_times n ++ [0%Qc]) dt n) ∧
  er_graph r' = er_graph r ∧ er_rollout_graph r' = er_rollout_graph r.
Proof.
  unfold bind_euler_schedule. destruct (Z.eqb_spec (Z.of_nat (List.length table)) n) as [Hl|]; [|done]. simpl.
  destruct (Z.eqb_spec n 0) as [|Hn]; [done|]. intros [= <-]. split; [lia|]. done.
Qed.

(** C11: A rollout without noise is the plain flow.  Over the schedule the
    scheduler binds, and whatever noise it is given, a rollout with sigmas of
    zero reads and writes the pool as the Euler loop does, ends in the same
    actions and fails where it fails. *)
Theorem zero_sigma_is_ode w table n r0 r p x noise rows :
  bind_euler_schedule modulation w table (step_size n) n r0 = (r, Ok tt) → er_graph r0 = None → er_rollout_graph r0 = None →
  covers (Z.to_nat n) x noise → (List.length x <= rows)%nat →
  expert_forward expert_net w x (r, p) =
  reporting tj_actions (expert_forward_rollout expert_net value_head w x noise (zero_sigmas rows (Z.to_nat n)) (r, p)).
Proof.
  intros (Hn & Hsch & Hg & Hrg)%bind_euler_shape Hg0 Hrg0 Hc Hr. rewrite <- (Z2Nat.id n) in Hsch |- * by lia.
  set (k := Z.to_nat n) in *. unfold expert_forward, expert_forward_rollout, on_pool. cbn [fst snd]. rewrite Hg, Hrg, Hg0, Hrg0.
  unfold eager. rewrite Hsch. unfold mbind, act_bind, lift. cbn. unfold run_loop, run_rollout, mbind, act_bind, lift. cbn.
  destruct (er_tables r !! _) as [tables|]; [|done]. cbn. rewrite Nat2Z.id.
  change (step_times (Z.of_nat k) ++ [0%Qc]) with (times k).
  rewrite (rollout_loop_zero w r tables k noise rows); [|apply Forall_forall; intros j [_ ?]%elem_of_seq; lia|done|done].
  destruct (rollout_loop _ _ _ _ _ _ _ _ _ _ _) as [p' [[[[f cs] ls] vs]|e]]; done.
Qed.
End loops.

(** ** An example: a served runner without graphs *)

Import Pi05Demo.
#[local] Existing Instance numbers.

Definition eager_blank : Pi05Demo.scheduler :=
  match scheduler_init cfg [proto] [proto] (PFlash (PageBackend None None)) (PFlash (PageBackend None None)) 2 2 false true false with
  | Ok s => s | Err _ => blank end.
Definition eager_served : Pi05Demo.scheduler := (Pi05Demo.step 1 (ask [5; 3]) (Pi05Demo.setup 1 eager_blank).1).1.
Definition eager_table : list Qc := embed_time 1 (step_times 2).
Definition eager_bound : expert_runner (F:=Z) (TE:=Qc) (M:=Qc) :=
  (bind_euler_schedule modulation 1 eager_table (step_size 2) 2%Z (sd_expert eager_served)).1.
Definition demo_noise : list (list chunk) := replicate 2 (replicate 2 [of_Z 3; of_Z (-2)]).

Abbreviation demo_rollout sigmas :=
  (expert_forward_rollout expert_net value_head 1 (randn 0 2) demo_noise sigmas (eager_bound, sd_pool (T:=ftensor Z) eager_served)).

(** With other sigmas the actions move. *)
Example sigma_moves_actions :
  match (demo_rollout (zero_sigmas 2 2)).2, (demo_rollout (replicate 2 [1%Qc; 1%Qc])).2 with
  | Ok a, Ok b => bool_decide (tj_actions a = tj_actions b)
  | _, _ => true
  end = false.
Proof. vm_compute. reflexivity. Qed.

Lemma zero_sigma_is_ode_witness :
  expert_forward expert_net 1 (randn 0 2) (eager_bound, sd_pool eager_served) = reporting tj_actions (demo_rollout (zero_sigmas 2 2)).
Proof.
  refine (zero_sigma_is_ode modulation expert_net value_head 1 eager_table 2%Z (sd_expert eager_served) eager_bound
    (sd_pool eager_served) (randn 0 2) demo_noise 2 _ _ _ _ _).
  - vm_compute. reflexivity.
  - vm_compute. reflexivity.
  - vm_compute. reflexivity.
  - intros b a Ha. exists (replicate 2 [of_Z 3; of_Z (-2)]). destruct b as [|[|b]]; simpl in Ha; [| |done]; injection Ha as <-;
      (split; [done|]); intros [|[|k]] Hk; simpl; lia.
  - simpl. lia.
Defined.
