(* ===== verification/PyFloat.v ===== *)
(** * Binary floats

    The quotients of Python floats: a number is rounded to the nearest number
    of 53 bits, ties to even.  Exponents are not bounded, since the numbers
    here are quotients of sizes. *)

From Stdlib Require Export QArith.QArith QArith.Qcanon.
From Stdlib Require Import QArith.Qpower Lqa.
From S2P Require Import Prelude.
Open Scope Z_scope.

Definition q_of_Z (z : Z) : Qc := Q2Qc (inject_Z z).

(** [int(q)] *)
Definition q_trunc (q : Qc) : Z := Z.quot (Qnum q) (Zpos (Qden q)).

(** [n / d] in units of [2 ^ e], as a numerator and a denominator *)
Definition in_units (e n d : Z) : Z * Z := if e <=? 0 then (n * 2 ^ (- e), d) else (n, d * 2 ^ e).

(** The exponent of the last of the 53 bits of [n / d] *)
Definition last_bit (n d : Z) : Z :=
  let e := Z.log2 n - Z.log2 d - 52 in
  let '(n', d') := in_units e n d in
  if n' <? 2 ^ 52 * d' then e - 1 else e.

(** The integer nearest to [n / d], the even one of two *)
Definition nearest_even (n d : Z) : Z :=
  let m := n / d in let r := n mod d in
  if (2 * r <? d) || ((2 * r =? d) && Z.even m) then m else m + 1.

Definition round_ratio (n d : Z) : Qc :=
  let e := last_bit n d in
  let '(n', d') := in_units e n d in
  (q_of_Z (nearest_even n' d') * Q2Qc (Qpower 2 e))%Qc.

(** The float nearest to a number *)
Definition b64 (q : Qc) : Qc :=
  match Qnum q with
  | Z0 => 0%Qc
  | Zpos n => round_ratio (Zpos n) (Zpos (Qden q))
  | Zneg n => (- round_ratio (Zpos n) (Zpos (Qden q)))%Qc
  end.

(** [a / b] *)
Definition py_divide (a b : Qc) : res Qc := _ ← ensure (negb (bool_decide (b = 0%Qc))) ZeroDivisionError; Ok (b64 (a / b)%Qc).

(** ** The rounding error *)

#[local] Instance Qle_transitive : Transitive Qle := Qle_trans.

(** [y] is [x] up to a part [u] of it. *)
Definition near (u x y : Q) : Prop := ((1 - u) * x <= y /\ y <= (1 + u) * x)%Q.

#[export] Instance near_proper : Proper (Qeq ==> Qeq ==> Qeq ==> iff) near.
Proof. intros u u' Hu x x' Hx y y' Hy. unfold near. by rewrite Hu, Hx, Hy. Qed.

(** Half of a unit in the last of 53 bits *)
Definition half_ulp : Q := 1 # (2 ^ 53).

Lemma pos_nonzero (q : Q) : (0 < q)%Q → ¬ (q == 0)%Q.
Proof. intros Hq He. rewrite He in Hq. by apply Qlt_irrefl in Hq. Qed.

Lemma q_of_Z_Q z : (q_of_Z z == inject_Z z)%Q.
Proof. unfold q_of_Z. simpl. apply Qred_correct. Qed.

Lemma units_pos e : (0 < Qpower 2 e)%Q.
Proof. by apply Qpower_0_lt. Qed.

Lemma inject_pow2 k : 0 <= k → (inject_Z (2 ^ k) == Qpower 2 k)%Q.
Proof. intros Hk. by rewrite Zpower_Qpower. Qed.

Lemma in_units_den e n d : 0 < d → 0 < (in_units e n d).2.
Proof. intros Hd. unfold in_units. destruct (Z.leb_spec e 0); simpl; [done|]. pose proof (Z.pow_pos_nonneg 2 e). nia. Qed.

Lemma in_units_value e n d (u := in_units e n d) : 0 < d →
  (inject_Z u.1 * Qpower 2 e * inject_Z d == inject_Z n * inject_Z u.2)%Q.
Proof.
  intros Hd. subst u. unfold in_units. destruct (Z.leb_spec e 0); simpl; rewrite inject_Z_mult, inject_pow2 by lia; [|ring].
  assert (Qpower 2 (- e) * Qpower 2 e == 1)%Q as He by (rewrite <- Qpower_plus by done; by rewrite Z.add_opp_diag_l).
  transitivity (inject_Z n * inject_Z d * (Qpower 2 (- e) * Qpower 2 e))%Q; [ring|]. rewrite He. ring.
Qed.

Lemma units_ge k e n d (u := in_units e n d) : 0 < d → k * u.2 <= u.1 →
  (inject_Z k * Qpower 2 e * inject_Z d <= inject_Z n)%Q.
Proof.
  intros Hd Hk. pose proof (in_units_den e n d Hd) as Hu. pose proof (in_units_value e n d Hd) as Hv. fold u in Hu, Hv.
  rewrite Zle_Qle, inject_Z_mult in Hk. assert (0 < inject_Z u.2)%Q as Hu' by (by rewrite <- (Zlt_Qlt 0)).
  assert (0 < inject_Z d)%Q as Hd' by (by rewrite <- (Zlt_Qlt 0)). pose proof (units_pos e) as Hp.
  apply (Qmult_le_r _ _ (inject_Z u.2) Hu'). rewrite <- Hv.
  transitivity ((inject_Z k * inject_Z u.2) * (Qpower 2 e * inject_Z d))%Q; [apply Qle_lteq; right; ring|].
  transitivity (inject_Z u.1 * (Qpower 2 e * inject_Z d))%Q; [|apply Qle_lteq; right; ring].
  apply Qmult_le_compat_r; [done|]. apply Qlt_le_weak. by apply Qmult_lt_0_compat.
Qed.

(** There are 53 bits: the quotient has at least 2 ^ 52 units of its last. *)
Lemma last_bit_spec n d : 0 < n → 0 < d → (inject_Z (2 ^ 52) * Qpower 2 (last_bit n d) * inject_Z d <= inject_Z n)%Q.
Proof.
  intros Hn Hd. unfold last_bit. set (e := Z.log2 n - Z.log2 d - 52). destruct (in_units e n d) as [n' d'] eqn:Hu.
  destruct (Z.ltb_spec n' (2 ^ 52 * d')) as [Hlt|Hge]; [|apply units_ge; [done|by rewrite Hu]].
  assert (inject_Z (2 ^ 51) * Qpower 2 e * inject_Z d <= inject_Z n)%Q as H51.
  { apply units_ge; [done|]. unfold in_units. pose proof (Z.log2_spec n Hn) as [Hln _]. pose proof (Z.log2_spec d Hd) as [_ Hld].
    pose proof (Z.log2_nonneg n). pose proof (Z.log2_nonneg d). rewrite Z.pow_succ_r in Hld by lia. destruct (Z.leb_spec e 0); simpl.
    - assert (2 ^ Z.log2 n * 2 ^ (- e) = 2 ^ 52 * 2 ^ Z.log2 d) as Hp by (rewrite <- !Z.pow_add_r by lia; f_equal; lia).
      change (2 ^ 52) with (2 ^ 51 * 2) in Hp. pose proof (Z.pow_pos_nonneg 2 (- e)). nia.
    - assert (2 ^ Z.log2 n = 2 ^ 52 * 2 ^ Z.log2 d * 2 ^ e) as Hp by (rewrite <- !Z.pow_add_r by lia; f_equal; lia).
      change (2 ^ 52) with (2 ^ 51 * 2) in Hp. pose proof (Z.pow_pos_nonneg 2 e). nia. }
  replace e with (1 + (e - 1)) in H51 by lia. rewrite Qpower_plus in H51 by done. etransitivity; [|exact H51]. apply Qle_lteq; right.
  change (2 ^ 52) with (2 ^ 51 * 2). rewrite inject_Z_mult. change (Qpower 2 1) with (inject_Z 2). ring.
Qed.

Lemma nearest_even_spec n d (m := nearest_even n d) : 0 < d → 0 <= n → -d <= 2 * (n - d * m) <= d.
Proof.
  intros Hd Hn. subst m. unfold nearest_even. pose proof (Z.div_mod n d ltac:(lia)) as Hdm. pose proof (Z.mod_pos_bound n d Hd).
  destruct (Z.ltb_spec (2 * (n mod d)) d), (Z.eqb_spec (2 * (n mod d)) d), (Z.even (n / d)); simpl; lia.
Qed.

Lemma round_ratio_near n d : 0 < n → 0 < d → near half_ulp (inject_Z n / inject_Z d) (round_ratio n d).
Proof.
  intros Hn Hd. pose proof (last_bit_spec n d Hn Hd) as Hbits. unfold round_ratio. set (e := last_bit n d) in *. clearbody e.
  pose proof (in_units_den e n d Hd) as Hu. pose proof (in_units_value e n d Hd) as Hv.
  assert (0 <= (in_units e n d).1) as Hn'.
  { unfold in_units. destruct (Z.leb_spec e 0); simpl; [|lia]. pose proof (Z.pow_pos_nonneg 2 (- e)). nia. }
  destruct (in_units e n d) as [n' d']. cbn [fst snd] in *. pose proof (nearest_even_spec n' d' Hu Hn') as [Hlo Hhi].
  set (m := nearest_even n' d') in *. clearbody m. pose proof (units_pos e) as Hp. set (p := Qpower 2 e) in *.
  assert ((q_of_Z m * Q2Qc p)%Qc == inject_Z m * p)%Q as Hval.
  { unfold Qcmult. simpl. rewrite !Qred_correct. reflexivity. }
  clearbody p. unfold near, half_ulp. rewrite Hval. set (x := (inject_Z n / inject_Z d)%Q).
  assert (0 < inject_Z d)%Q as Hd' by (by rewrite <- (Zlt_Qlt 0)). assert (0 < inject_Z d')%Q as Hu' by (by rewrite <- (Zlt_Qlt 0)).
  assert (inject_Z n == x * inject_Z d)%Q as Hx by (unfold x; field; by apply pos_nonzero). clearbody x.
  assert (inject_Z n' * p == x * inject_Z d')%Q as Hx'.
  { apply (Qmult_inj_r _ _ (inject_Z d)); [by apply pos_nonzero|]. rewrite Hv, Hx. ring. }
  assert (inject_Z (2 ^ 52) * p <= x)%Q as Hxb by (apply (Qmult_le_r _ _ (inject_Z d) Hd'); by rewrite <- Hx).
  assert (- p <= 2 * (x - inject_Z m * p) <= p)%Q as [H1 H2].
  { assert (inject_Z (2 * (n' - d' * m)) == 2 * (inject_Z n' - inject_Z d' * inject_Z m))%Q as He.
    { unfold Z.sub. rewrite inject_Z_mult, inject_Z_plus, inject_Z_opp, inject_Z_mult. reflexivity. }
    rewrite Zle_Qle, He in Hlo, Hhi. rewrite inject_Z_opp in Hlo.
    apply (Qmult_le_compat_r _ _ p) in Hlo, Hhi; [|lra..]. split; apply (Qmult_le_r _ _ (inject_Z d') Hu'); lra. }
  change (inject_Z (2 ^ 52)) with (4503599627370496 # 1) in Hxb. change (1 # 2 ^ 53) with (1 # 9007199254740992). split; lra.
Qed.

(** Rounding a positive number changes it by at most half a unit in its last
    place. *)
Lemma b64_near (q : Qc) : (0 < q)%Q → near half_ulp q (b64 q).
Proof.
  intros Hq. unfold b64. destruct q as [[n d] Hc]. unfold Qlt in Hq. simpl in *. destruct n as [|n|n]; [lia| |lia].
  pose proof (round_ratio_near (Zpos n) (Zpos d) ltac:(lia) ltac:(lia)) as Hr.
  assert (inject_Z (Zpos n) / inject_Z (Zpos d) == Zpos n # d)%Q as He by (by rewrite Qmake_Qdiv).
  unfold near in *. by rewrite He in Hr.
Qed.

(** ** Truncated quotients *)

Lemma q_of_Z_nonzero z : z ≠ 0 → q_of_Z z ≠ 0%Qc.
Proof. intros Hz He. apply (f_equal this) in He. pose proof (q_of_Z_Q z) as Hq. rewrite He in Hq. unfold Qeq in Hq. simpl in Hq. lia. Qed.

Lemma q_trunc_unique (q : Qc) n : 0 <= n → (inject_Z n <= q)%Q → (q < inject_Z (n + 1))%Q → q_trunc q = n.
Proof.
  intros Hn Hle Hlt. unfold q_trunc, Qle, Qlt in *. simpl in *. symmetry.
  apply (Z.quot_unique _ _ _ (Qnum q - n * Zpos (Qden q))); nia.
Qed.

Lemma inject_pos z : 0 < z → (0 < inject_Z z)%Q.
Proof. intros Hz. by rewrite <- (Zlt_Qlt 0). Qed.

(** [int] of a number close to a quotient: the whole part of the quotient, or,
    when the quotient is whole, possibly one less *)
Definition trunc_of (n d r : Z) : Prop := r = n / d ∨ (n mod d = 0 ∧ r = n / d - 1).

Lemma trunc_near n d (v : Qc) : 0 < n < 2 ^ 50 → 0 < d → near (1 # 2 ^ 51) (inject_Z n / inject_Z d) v → trunc_of n d (q_trunc v).
Proof.
  unfold trunc_of. intros [Hn Hb] Hd [Hlo Hhi]. pose proof (inject_pos d Hd) as Hd'. set (x := (inject_Z n / inject_Z d)%Q) in *.
  assert (x * inject_Z d == inject_Z n)%Q as Hx by (unfold x; field; by apply pos_nonzero). clearbody x.
  pose proof (Z.div_mod n d ltac:(lia)) as Hdm. pose proof (Z.mod_pos_bound n d Hd) as Hm.
  assert (0 <= n / d) as Hq by (apply Z.div_pos; lia). set (q := n / d) in *. set (r := n mod d) in *. clearbody q r.
  assert (inject_Z n == inject_Z d * inject_Z q + inject_Z r)%Q as Hdq by (by rewrite Hdm, inject_Z_plus, inject_Z_mult).
  assert (inject_Z n < inject_Z (2 ^ 50))%Q as Hb' by (by rewrite <- Zlt_Qlt). pose proof (inject_pos n Hn) as Hn'.
  change (inject_Z (2 ^ 50)) with (1125899906842624 # 1) in Hb'. change (1 # 2 ^ 51) with (1 # 2251799813685248) in Hlo, Hhi.
  assert (- (1 # 2) <= (v - x) * inject_Z d <= 1 # 2)%Q as [H1 H2].
  { apply (Qmult_le_compat_r _ _ (inject_Z d)) in Hlo, Hhi; [|lra..]. split; lra. }
  assert (inject_Z r + 1 <= inject_Z d)%Q as Hr1 by (change 1%Q with (inject_Z 1); rewrite <- inject_Z_plus, <- Zle_Qle; lia).
  assert (∀ k, (0 <= (v - inject_Z k) * inject_Z d)%Q → (inject_Z k <= v)%Q) as Hge.
  { intros k Hk. apply (Qmult_le_r _ _ (inject_Z d) Hd'). lra. }
  assert (∀ k, ((v - inject_Z k) * inject_Z d < 0)%Q → (v < inject_Z k)%Q) as Hlt.
  { intros k Hk. apply (Qmult_lt_r _ _ (inject_Z d) Hd'). lra. }
  assert (v < inject_Z (q + 1))%Q as Hup by (apply Hlt; rewrite inject_Z_plus; change (inject_Z 1) with 1%Q; lra).
  destruct (Z.eq_dec r 0) as [Hr|Hr].
  - rewrite Hr in Hdq. change (inject_Z 0) with 0%Q in Hdq. destruct (Qlt_le_dec v (inject_Z q)) as [Hv|Hv]; [|left; by apply q_trunc_unique].
    right. split; [done|]. assert (1 <= q) by nia. apply q_trunc_unique; [lia| |by replace (q - 1 + 1) with q by lia].
    apply Hge. unfold Z.sub. rewrite inject_Z_plus. change (inject_Z (- (1))) with (- (1))%Q.
    assert (1 <= inject_Z d)%Q by (change 1%Q with (inject_Z 1); rewrite <- Zle_Qle; lia). lra.
  - left. apply q_trunc_unique; [done| |done]. apply Hge.
    assert (1 <= inject_Z r)%Q by (change 1%Q with (inject_Z 1); rewrite <- Zle_Qle; lia). lra.
Qed.

(** The errors of a quotient of rounded numbers *)
Lemma near_quotient (h x h' y v : Q) :
  (0 < h)%Q → (0 < x)%Q → near half_ulp h h' → near half_ulp x y → near half_ulp (h' / y) v → near (1 # 2 ^ 51) (h / x) v.
Proof.
  intros Hh Hx [Ha1 Ha2] [Hb1 Hb2] [Hc1 Hc2]. unfold half_ulp in *. change (1 # 2 ^ 53) with (1 # 9007199254740992) in *.
  unfold near. change (1 # 2 ^ 51) with (1 # 2251799813685248).
  assert (0 < y)%Q as Hy by lra. set (f := (h / x)%Q) in *. set (g := (h' / y)%Q) in *.
  assert (f * x == h)%Q as Hf by (unfold f; field; by apply pos_nonzero). assert (g * y == h')%Q as Hg by (unfold g; field; by apply pos_nonzero).
  assert (0 < f)%Q as Hf0 by (unfold f; apply Qlt_shift_div_l; lra). assert (0 < g)%Q as Hg0 by (unfold g; apply Qlt_shift_div_l; lra).
  clearbody f g.
  assert (g * (1 - (1 # 9007199254740992)) <= f * (1 + (1 # 9007199254740992)))%Q as H1.
  { apply (Qmult_le_r _ _ x Hx). apply (Qmult_le_compat_r _ _ g) in Hb1; lra. }
  assert (f * (1 - (1 # 9007199254740992)) <= g * (1 + (1 # 9007199254740992)))%Q as H2.
  { apply (Qmult_le_r _ _ x Hx). apply (Qmult_le_compat_r _ _ g) in Hb2; lra. }
  split; lra.
Qed.

Lemma Qc_div_Q (a b : Qc) : ((a / b)%Qc == a / b)%Q.
Proof. unfold Qcdiv, Qcmult, Qcinv. simpl. by rewrite !Qred_correct. Qed.

Example third : py_divide (q_of_Z 1) (q_of_Z 3) = Ok (Q2Qc (6004799503160661 # 18014398509481984)).
Proof. by vm_compute. Qed.

(** [int(9 / (9 / 224))] is 223. *)
Example ninth : (r ← py_divide (q_of_Z 9) (q_of_Z 224); q_trunc <$> py_divide (q_of_Z 9) r) = Ok 223.
Proof. by vm_compute. Qed.
