(* ===== verification/Transition.v ===== *)
(** * Transitions of the processing pipelines
      ([src/phyai-utils-tools/src/phyai_utils_tools/processing]:
      [transition.py], [types.py], [ops/image_ops.py])

    The dictionary that processor steps pass on, with the tensors it holds: a
    tensor is its shape, its element type, its device and the number at each
    index.  The numbers of tensors are exact, and a conversion of the element
    type changes the label only; quotients of sizes are Python floats. *)

From Stdlib Require Import Ascii String.
From S2P Require Import Prelude PyStr.
From S2P Require Export PyFloat.
Open Scope string_scope.
Open Scope Z_scope.

(** ** Tensors *)

Inductive dtype : Type := Uint8 | Int64 | Float16 | BFloat16 | Float32 | Float64.

#[export] Instance dtype_eq_dec : EqDecision dtype.
Proof. solve_decision. Defined.

Definition is_floating (d : dtype) : bool := match d with Uint8 | Int64 => false | _ => true end.

(** [torch.promote_types] *)
Definition promote_types (a b : dtype) : dtype :=
  if decide (a = b) then a
  else match is_floating a, is_floating b with
       | true, false => a
       | false, true => b
       | false, false => Int64
       | true, true => if decide (a = Float64 ∨ b = Float64) then Float64 else Float32
       end.

Record tensor : Type := NdArray { t_shape : list Z; t_dtype : dtype; t_device : string; t_at : list Z → Qc }.

Definition ndim (t : tensor) : nat := List.length (t_shape t).

(** The indices of a shape, and tensors that agree on all of them *)
Definition in_shape (shape idx : list Z) : Prop := Forall2 (λ d i, 0 <= i < d) shape idx.

Definition same_tensor (x y : tensor) : Prop :=
  t_shape x = t_shape y ∧ t_dtype x = t_dtype y ∧ t_device x = t_device y ∧ ∀ idx, in_shape (t_shape x) idx → t_at x idx = t_at y idx.

(** Shapes are aligned at their last dimension; a dimension of one stretches. *)
Definition broadcast_dim (a b : Z) : res Z :=
  if a =? b then Ok a else if a =? 1 then Ok b else if b =? 1 then Ok a else Err RuntimeError.

Fixpoint broadcast_rev (a b : list Z) : res (list Z) :=
  match a, b with
  | [], _ => Ok b
  | _, [] => Ok a
  | x :: a', y :: b' => d ← broadcast_dim x y; r ← broadcast_rev a' b'; Ok (d :: r)
  end.

Definition broadcast (a b : list Z) : res (list Z) := r ← broadcast_rev (reverse a) (reverse b); Ok (reverse r).

(** The index an operand of the given shape is read at *)
Definition view_index (shape idx : list Z) : list Z :=
  zip_with (λ d i, if d =? 1 then 0 else i) shape (drop (List.length idx - List.length shape) idx).

(** Operands share a device; a tensor without dimensions on the CPU may join
    one on another device. *)
Definition common_device (x y : tensor) : res string :=
  if String.eqb (t_device x) (t_device y) then Ok (t_device x)
  else if Nat.eqb (ndim y) 0 && String.eqb (t_device y) "cpu" then Ok (t_device x)
  else if Nat.eqb (ndim x) 0 && String.eqb (t_device x) "cpu" then Ok (t_device y)
  else Err RuntimeError.

(** [torch.result_type]: a tensor without dimensions does not widen another of
    its category. *)
Definition result_type (x y : tensor) : dtype :=
  let dx := t_dtype x in let dy := t_dtype y in
  if Bool.eqb (Nat.eqb (ndim x) 0) (Nat.eqb (ndim y) 0) then promote_types dx dy
  else
    let big := if Nat.eqb (ndim x) 0 then dy else dx in
    let small := if Nat.eqb (ndim x) 0 then dx else dy in
    if is_floating small && negb (is_floating big) then small else big.

Definition pointwise (f : Qc → Qc → Qc) (x y : tensor) : res tensor :=
  dev ← common_device x y;
  shape ← broadcast (t_shape x) (t_shape y);
  Ok (NdArray shape (result_type x y) dev (λ idx, f (t_at x (view_index (t_shape x) idx)) (t_at y (view_index (t_shape y) idx)))).

(** An operation with a Python float *)
Definition with_float (f : Qc → Qc) (x : tensor) : tensor :=
  NdArray (t_shape x) (if is_floating (t_dtype x) then t_dtype x else Float32) (t_device x) (λ idx, f (t_at x idx)).

Definition to_dtype (d : dtype) (x : tensor) : tensor := NdArray (t_shape x) d (t_device x) (t_at x).
Definition to_device (d : string) (x : tensor) : tensor := NdArray (t_shape x) (t_dtype x) d (t_at x).

(** [x.unsqueeze(0)] *)
Definition unsqueeze0 (x : tensor) : tensor := NdArray (1 :: t_shape x) (t_dtype x) (t_device x) (λ idx, t_at x (drop 1 idx)).

(** The length of [l[:k]] for a list of length [n] *)
Definition sliced_dim (n k : Z) : Z := if 0 <=? k then Z.min k n else Z.max 0 (n + k).

(** [x[..., :k]] *)
Definition slice_last (k : Z) (x : tensor) : res tensor :=
  match last (t_shape x) with
  | None => Err IndexError
  | Some n => Ok (NdArray (removelast (t_shape x) ++ [sliced_dim n k]) (t_dtype x) (t_device x) (t_at x))
  end.

(** [x[:, i]] of a stacked camera tensor *)
Definition camera (x : tensor) (i : Z) : tensor :=
  NdArray (match t_shape x with b :: _ :: s => b :: s | s => s end) (t_dtype x) (t_device x)
    (λ idx, match idx with b :: r => t_at x (b :: i :: r) | [] => 0%Qc end).

(** [torch.stack(xs, dim=0).transpose(0, 1)] *)
Definition stack_cameras (xs : list tensor) : res tensor :=
  match xs with
  | [] => Err RuntimeError
  | x :: xs' =>
      _ ← ensure (forallb (λ y, bool_decide (t_shape y = t_shape x) && String.eqb (t_device y) (t_device x)) xs') RuntimeError;
      Ok (NdArray (match t_shape x with b :: s => b :: Z.of_nat (List.length xs) :: s | [] => [Z.of_nat (List.length xs)] end)
            (foldl promote_types (t_dtype x) (t_dtype <$> xs')) (t_device x)
            (λ idx, match idx with
                    | b :: i :: r => match xs !! Z.to_nat i with Some y => t_at y (b :: r) | None => 0%Qc end
                    | _ => 0%Qc
                    end))
  end.

(** ** Image operations ([ops/image_ops.py]) *)

(** [max(a, b)] *)
Definition q_max (a b : Qc) : Qc := if decide (a <= b)%Qc then b else a.

(** [F.pad(x, (left, right, top, bottom), value=value)] of images; negative
    amounts crop. *)
Definition pad_images (left right top bottom : Z) (value : Qc) (x : tensor) : res tensor :=
  match t_shape x with
  | [b; c; h; w] =>
      let h' := top + h + bottom in let w' := left + w + right in
      _ ← ensure ((0 <=? h') && (0 <=? w')) RuntimeError;
      Ok (NdArray [b; c; h'; w'] (t_dtype x) (t_device x) (λ idx,
            match idx with
            | [i; j; y; z] => if (top <=? y) && (y <? top + h) && (left <=? z) && (z <? left + w)
                              then t_at x [i; j; y - top; z - left] else value
            | _ => value
            end))
  | _ => Err NotImplementedError
  end.

Definition clamp (lo hi v : Qc) : Qc := if decide (v <= lo)%Qc then lo else if decide (hi <= v)%Qc then hi else v.

Section images.
(** [F.interpolate] to a height and a width, and [torch.round] *)
Context (interpolate : tensor → Z → Z → res tensor) (q_round : Qc → Qc).

(** [resize_with_pad]; the ratio and the quotients by it are Python floats *)
Definition resize_with_pad (target_h target_w : Z) (pad_value : Qc) (images : tensor) : res tensor :=
  match t_shape images with
  | [_; _; cur_h; cur_w] =>
      if (cur_h =? target_h) && (cur_w =? target_w) then Ok images
      else
        rw ← py_divide (q_of_Z cur_w) (q_of_Z target_w);
        rh ← py_divide (q_of_Z cur_h) (q_of_Z target_h);
        let ratio := q_max rw rh in
        resized_h ← q_trunc <$> py_divide (b64 (q_of_Z cur_h)) ratio;
        resized_w ← q_trunc <$> py_divide (b64 (q_of_Z cur_w)) ratio;
        resized ← interpolate images resized_h resized_w;
        resized ← (match t_dtype images with
                   | Uint8 => Ok (to_dtype Uint8 (NdArray (t_shape resized) (t_dtype resized) (t_device resized)
                                                    (λ idx, clamp 0%Qc (q_of_Z 255) (q_round (t_at resized idx)))))
                   | Int64 => Err ValueError
                   | _ => Ok resized
                   end);
        let pad_h0 := (target_h - resized_h) / 2 in
        let pad_h1 := pad_h0 + (target_h - resized_h) mod 2 in
        let pad_w0 := (target_w - resized_w) / 2 in
        let pad_w1 := pad_w0 + (target_w - resized_w) mod 2 in
        pad_images pad_w0 pad_w1 pad_h0 pad_h1 pad_value resized
  | _ => Err ValueError
  end.
End images.

(** [normalize_pixels] *)
Definition normalize_pixels (images : tensor) : tensor := with_float (λ v, v * q_of_Z 2 - 1)%Qc images.

(** ** Transitions *)

Definition IMAGES := "images".
Definition STATE := "state".
Definition TASK := "task".
Definition PROMPT := "prompt".
Definition PIXEL_VALUES := "pixel_values".
Definition INPUT_IDS := "input_ids".
Definition LANG_LENS := "lang_lens".
Definition ACTION := "action".

Inductive entry : Type :=
  | ETensor (t : tensor)
  | ETensors (ts : list tensor)
  | EText (s : string)
  | ETexts (l : list string).

Abbreviation transition := (dict string entry).

(** [transition[key]], and its use as a tensor *)
Definition item (t : transition) (key : string) : res entry := of_option KeyError (dget t key).
Definition as_tensor (e : entry) : res tensor := match e with ETensor t => Ok t | _ => Err TypeError end.
(** The task descriptions: a bare string is one task. *)
Definition as_texts (e : entry) : res (list string) :=
  match e with EText s => Ok [s] | ETexts l => Ok l | _ => Err TypeError end.

(** ** Feature buckets and modes ([types.py]) *)

Inductive feature_type : Type := FT_STATE | FT_VISUAL | FT_ENV | FT_ACTION | FT_REWARD | FT_LANGUAGE.
Inductive normalization_mode : Type := MIN_MAX | MEAN_STD | IDENTITY | QUANTILES | QUANTILE10.

#[export] Instance feature_type_eq_dec : EqDecision feature_type.
Proof. solve_decision. Defined.
#[export] Instance normalization_mode_eq_dec : EqDecision normalization_mode.
Proof. solve_decision. Defined.

(** [FeatureType(...)], [NormalizationMode(...)] and their [value]s *)
Definition feature_types : list (string * feature_type) :=
  [("STATE", FT_STATE); ("VISUAL", FT_VISUAL); ("ENV", FT_ENV); ("ACTION", FT_ACTION); ("REWARD", FT_REWARD); ("LANGUAGE", FT_LANGUAGE)].
Definition normalization_modes : list (string * normalization_mode) :=
  [("MIN_MAX", MIN_MAX); ("MEAN_STD", MEAN_STD); ("IDENTITY", IDENTITY); ("QUANTILES", QUANTILES); ("QUANTILE10", QUANTILE10)].

Definition feature_type_of (s : string) : res feature_type := of_option ValueError (dget feature_types s).
Definition mode_of (s : string) : res normalization_mode := of_option ValueError (dget normalization_modes s).

Definition feature_type_value (f : feature_type) : string :=
  match f with
  | FT_STATE => "STATE" | FT_VISUAL => "VISUAL" | FT_ENV => "ENV" | FT_ACTION => "ACTION" | FT_REWARD => "REWARD" | FT_LANGUAGE => "LANGUAGE"
  end.
Definition mode_value (m : normalization_mode) : string :=
  match m with
  | MIN_MAX => "MIN_MAX" | MEAN_STD => "MEAN_STD" | IDENTITY => "IDENTITY" | QUANTILES => "QUANTILES" | QUANTILE10 => "QUANTILE10"
  end.

Record policy_feature : Type := PolicyFeature { pf_type : feature_type; pf_shape : list Z }.

Lemma feature_type_round f : feature_type_of (feature_type_value f) = Ok f.
Proof. by destruct f. Qed.
Lemma mode_round m : mode_of (mode_value m) = Ok m.
Proof. by destruct m. Qed.
