(* ===== verification/ProcessorSteps.v ===== *)
(** * Processor steps
      ([src/phyai-utils-tools/src/phyai_utils_tools]: [processing/steps/*.py],
      [models/pi05/{ops,steps}_pi05.py], [models/pi0/steps_pi0.py])

    What each registered step does to a transition, the configuration and the
    tensors it saves, and how it is made from keyword arguments.  The
    tokenizer and the interpolation of images are parameters. *)

From Stdlib Require Import Ascii String.
From S2P Require Import Prelude PyStr Transition.
Open Scope string_scope.
Open Scope Z_scope.

(** JSON values, and the arguments of a constructor: JSON values and objects
    that only exist at run time. *)
Inductive json : Type :=
  | JNull
  | JBool (b : bool)
  | JInt (z : Z)
  | JFloat (q : Qc)
  | JStr (s : string)
  | JList (l : list json)
  | JObj (d : dict string json).

Inductive arg {Tok : Type} : Type :=
  | AJson (j : json)
  | ATokenizer (k : Tok)
  | ADtype (d : dtype).
Arguments arg : clear implicits.

(** ** Normalization ([normalize_steps.py]) *)

Abbreviation stats := (dict string (dict string tensor)).

Definition stat (s : dict string tensor) (k : string) : res tensor := of_option KeyError (dget s k).

Definition spread (lo hi : string) (s : dict string tensor) (eps : Qc) : res tensor :=
  h ← stat s hi; l ← stat s lo; d ← pointwise Qcminus h l; Ok (with_float (λ v, v + eps)%Qc d).

(** [_normalize_field] *)
Definition normalize_field (x : tensor) (mode : normalization_mode) (s : dict string tensor) (eps : Qc) : res tensor :=
  let ranged lo hi :=
    l ← stat s lo; n ← pointwise Qcminus x l; d ← spread lo hi s eps; q ← pointwise Qcdiv n d;
    Ok (with_float (λ v, v * q_of_Z 2 - 1)%Qc q) in
  match mode with
  | MEAN_STD => m ← stat s "mean"; n ← pointwise Qcminus x m; d ← stat s "std"; pointwise Qcdiv n (with_float (λ v, v + eps)%Qc d)
  | MIN_MAX => ranged "min" "max"
  | QUANTILES => ranged "q01" "q99"
  | QUANTILE10 => ranged "q10" "q90"
  | IDENTITY => Ok x
  end.

(** [_unnormalize_field] *)
Definition unnormalize_field (x : tensor) (mode : normalization_mode) (s : dict string tensor) (eps : Qc) : res tensor :=
  let ranged lo hi :=
    d ← spread lo hi s eps; p ← pointwise Qcmult (with_float (λ v, (v + 1) / q_of_Z 2)%Qc x) d; l ← stat s lo; pointwise Qcplus p l in
  match mode with
  | MEAN_STD => d ← stat s "std"; p ← pointwise Qcmult x (with_float (λ v, v + eps)%Qc d); m ← stat s "mean"; pointwise Qcplus p m
  | MIN_MAX => ranged "min" "max"
  | QUANTILES => ranged "q01" "q99"
  | QUANTILE10 => ranged "q10" "q90"
  | IDENTITY => Ok x
  end.

Record normalizer : Type := Normalizer {
  nz_features : dict string policy_feature;
  nz_norm_map : dict feature_type normalization_mode;
  nz_stats : stats;
  nz_explicit : bool;
  nz_device : option string;
  nz_dtype : dtype;
  nz_eps : Qc;
}.

(** [torch.as_tensor(value, dtype=..., device=...)] and [tensor.to(...)] *)
Definition place (d : dtype) (device : option string) (t : tensor) : tensor :=
  to_dtype d (match device with Some v => to_device v t | None => t end).

(** [_NormalizeBase.__post_init__]; statistics given as lists are tensors on
    the CPU. *)
Definition normalizer_init (features : dict string policy_feature) (norm_map : dict feature_type normalization_mode)
    (given : option stats) (device : option string) (d : dtype) (eps : Qc) : normalizer :=
  let given := default [] given in
  Normalizer features norm_map (prod_map id (λ sub : dict string tensor, prod_map id (place d device) <$> sub) <$> given)
    (negb (bool_decide (given.*1 = []))) device d eps.

(** [_TYPE_TO_FIELD] *)
Definition field_of (f : feature_type) : option string :=
  match f with FT_STATE => Some STATE | FT_ACTION => Some ACTION | FT_VISUAL => Some PIXEL_VALUES | _ => None end.

(** One feature of [_apply] *)
Definition apply_feature (n : normalizer) (inverse : bool) (name : string) (feat : policy_feature) (out : transition) : res transition :=
  let mode := default IDENTITY (dget (nz_norm_map n) (pf_type feat)) in
  if decide (mode = IDENTITY) then Ok out
  else match field_of (pf_type feat) with
       | None => Ok out
       | Some field =>
           match dget out field, dget (nz_stats n) name with
           | Some e, Some (p :: s) =>
               x ← as_tensor e;
               y ← (if inverse then unnormalize_field else normalize_field) x mode (p :: s) (nz_eps n);
               Ok (dset out field (ETensor y))
           | _, _ => Ok out
           end
       end.

(** [_apply] *)
Fixpoint apply_features (n : normalizer) (inverse : bool) (features : dict string policy_feature) (out : transition) : res transition :=
  match features with
  | [] => Ok out
  | (name, feat) :: features' => out ← apply_feature n inverse name feat out; apply_features n inverse features' out
  end.

Definition normalizer_call (n : normalizer) (inverse : bool) (t : transition) : res transition :=
  apply_features n inverse (nz_features n) t.

(** [get_config] *)
Definition normalizer_config (n : normalizer) : dict string json :=
  [("eps", JFloat (nz_eps n));
   ("features", JObj ((λ '(name, f), (name, JObj [("type", JStr (feature_type_value (pf_type f))); ("shape", JList (JInt <$> pf_shape f))]))
                        <$> nz_features n));
   ("norm_map", JObj ((λ '(k, v), (feature_type_value k, JStr (mode_value v))) <$> nz_norm_map n))].

Definition dot : ascii := ascii_of_N 46.
Definition flat_key (name st : string) : string := name +:+ String dot st.

(** [state_dict] *)
Definition normalizer_state (n : normalizer) : dict string tensor :=
  foldl (λ flat '(name, sub), foldl (λ flat '(st, t), dset flat (flat_key name st) (to_device "cpu" t)) flat sub) [] (nz_stats n).

(** [s.rsplit(".", 1)] into two parts *)
Fixpoint rsplit_dot (s : string) : option (string * string) :=
  match s with
  | EmptyString => None
  | String c s' =>
      match rsplit_dot s' with
      | Some (a, b) => Some (String c a, b)
      | None => if Ascii.eqb c dot then Some (EmptyString, s') else None
      end
  end.

Fixpoint nest_stats (d : dtype) (device : option string) (flat : dict string tensor) (nested : stats) : res stats :=
  match flat with
  | [] => Ok nested
  | (key, t) :: flat' =>
      '(name, st) ← of_option ValueError (rsplit_dot key);
      nest_stats d device flat' (dset nested name (dset (default [] (dget nested name)) st (place d device t)))
  end.

(** [load_state_dict]: statistics given to the constructor stay. *)
Definition normalizer_load (n : normalizer) (flat : dict string tensor) : res normalizer :=
  if nz_explicit n then Ok n
  else
    nested ← nest_stats (nz_dtype n) (nz_device n) flat [];
    Ok (Normalizer (nz_features n) (nz_norm_map n) nested (nz_explicit n) (nz_device n) (nz_dtype n) (nz_eps n)).

(** ** Prompts ([ops_pi05.py], [steps_pi05.py], [steps_pi0.py]) *)

(** The lower edge of a bin: [np.linspace(-1.0, 1.0, n + 1)[i]] *)
Definition bin_edge (n i : Z) : Qc := (- (1) + q_of_Z 2 * q_of_Z i / q_of_Z n)%Qc.

(** [np.digitize(x, bins) - 1] *)
Definition bin_of (n : Z) (x : Qc) : Z := Z.of_nat (List.length (filter (λ i, (bin_edge n i <= x)%Qc) (seqZ 0 n))) - 1.

(** [discretize_state] of a tensor: the bin at each index *)
Definition discretize_state (state : tensor) (num_bins : Z) : res (list Z → Z) :=
  _ ← ensure (-1 <=? num_bins) ValueError; Ok (λ idx, bin_of num_bins (t_at state idx)).

Definition cleaned (task : string) : string := replace_char newline " "%char (replace_char "_"%char " "%char (strip task)).

Definition tail_text : string := ";" +:+ String newline "Action: ".

(** [build_prompts] of bins of the given shape; bins of more than two
    dimensions would print as nested arrays. *)
Definition build_prompts (tasks : list string) (shape : list Z) (bins : list Z → Z) : res (list string) :=
  match shape with
  | [] => Err TypeError
  | b :: rest =>
      _ ← ensure (Z.of_nat (List.length tasks) =? b) ValueError;
      match rest, tasks with
      | [d], _ =>
          Ok ((λ '(i, task), "Task: " +:+ cleaned task +:+ ", State: " +:+
                 join " " ((λ j, z_to_string (bins [i; j])) <$> seqZ 0 d) +:+ tail_text) <$> zip (seqZ 0 b) tasks)
      | _, [] => Ok []
      | [], _ => Err TypeError
      | _, _ => Err OtherError
      end
  end.

(** [StateTokenizerPrepareStep.__call__] *)
Definition prepare_state_call (num_bins : Z) (t : transition) : res transition :=
  e ← of_option ValueError (dget t TASK);
  tasks ← as_texts e;
  match dget t STATE with
  | Some s =>
      state ← of_option OtherError (match s with ETensor x => Some x | _ => None end);
      bins ← discretize_state state num_bins;
      prompts ← build_prompts tasks (t_shape state) bins;
      Ok (dset t PROMPT (ETexts prompts))
  | None => Ok (dset t PROMPT (ETexts ((λ task, "Task: " +:+ cleaned task +:+ tail_text) <$> tasks)))
  end.

(** [Pi0PromptPrepareStep.__call__] *)
Definition ends_with_newline (s : string) : bool := String.eqb (slast s) (String newline EmptyString).
Definition with_newline (s : string) : string := if ends_with_newline s then s else s +:+ String newline EmptyString.

Definition prompt_call (t : transition) : res transition :=
  e ← of_option ValueError (dget t TASK);
  tasks ← as_texts e;
  Ok (dset t PROMPT (ETexts (with_newline <$> tasks))).

(** [PadStateStep.__call__] *)
Definition pad_state_call (max_state_dim : Z) (t : transition) : res transition :=
  e ← of_option ValueError (dget t STATE);
  state ← as_tensor e;
  let state := if Nat.eqb (ndim state) 1 then unsqueeze0 state else state in
  match t_shape state with
  | [b; d] =>
      _ ← ensure (d <=? max_state_dim) ValueError;
      let padded := if d =? max_state_dim then state
                    else NdArray [b; max_state_dim] (t_dtype state) (t_device state)
                           (λ idx, match idx with [i; j] => if j <? d then t_at state [i; j] else 0%Qc | _ => 0%Qc end) in
      Ok (dset t STATE (ETensor padded))
  | _ => Err ValueError
  end.

(** ** Devices, actions, batches, names
       ([device_steps.py], [action_steps.py], [batch_steps.py], [rename_steps.py]) *)

Definition moved_fields : list string := [PIXEL_VALUES; INPUT_IDS; LANG_LENS; STATE; ACTION].

(** [_DTYPE_BY_NAME], and [str(dtype)] without its prefix *)
Definition dtype_names : list (string * dtype) :=
  [("float16", Float16); ("half", Float16); ("bfloat16", BFloat16); ("float32", Float32); ("float", Float32);
   ("float64", Float64); ("double", Float64)].

Definition dtype_text (d : dtype) : string :=
  match d with
  | Uint8 => "uint8" | Int64 => "int64" | Float16 => "float16" | BFloat16 => "bfloat16" | Float32 => "float32" | Float64 => "float64"
  end.

(** [_resolve_dtype] *)
Definition resolve_dtype (s : string) : res dtype := of_option ValueError (dget dtype_names (delete_all "torch." 0 s)).

(** [DeviceStep.__call__] *)
Definition device_call (device : string) (float_dtype : option dtype) (t : transition) : transition :=
  foldl (λ out name,
    match dget out name with
    | Some (ETensor x) =>
        let x := to_device device x in
        dset out name (ETensor (match float_dtype with
                                | Some d => if is_floating (t_dtype x) then to_dtype d x else x
                                | None => x
                                end))
    | _ => out
    end) t moved_fields.

(** [str(device).replace("torch.device", "").strip("()'" and a double quote)] *)
Definition is_quoting (c : ascii) : bool := existsb (Ascii.eqb c) ["("%char; ")"%char; squote; dquote].
Definition strip_quoting (s : string) : string :=
  let lstrip s := (sspan is_quoting s).2 in String.rev (lstrip (String.rev (lstrip s))).
Definition device_text (device : string) : string := strip_quoting (delete_all "torch.device" 0 device).

(** [SliceActionStep.__call__] *)
Definition slice_call (action_dim : option Z) (t : transition) : res transition :=
  match action_dim with
  | None => Ok t
  | Some k =>
      e ← of_option ValueError (dget t ACTION);
      x ← as_tensor e;
      y ← slice_last k x;
      Ok (dset t ACTION (ETensor y))
  end.

(** [AddBatchDimensionStep.__call__] *)
Definition batched (e : entry) : entry :=
  match e with ETensor x => if Nat.eqb (ndim x) 1 then ETensor (unsqueeze0 x) else e | _ => e end.

Definition add_batch_call (t : transition) : transition :=
  let on key f (t : transition) := match dget t key with Some e => dset t key (f e) | None => t end in
  on TASK (λ e, match e with EText s => ETexts [s] | _ => e end) (on ACTION batched (on STATE batched t)).

(** [RenameObservationsStep.__call__] *)
Definition rename_call (names : dict string string) (t : transition) : transition :=
  match names with
  | [] => t
  | _ => foldl (λ out '(k, v), dset out (default k (dget names k)) v) [] t
  end.

(** ** Images ([image_steps.py]) *)

Section steps.
Context {Tok : Type} (interpolate : tensor → Z → Z → res tensor) (q_round : Qc → Qc).
(** [tokenizer(prompts, max_length, padding, padding_side, truncation)]: the
    ids and the attention mask *)
Context (encode : Tok → list string → Z → string → string → bool → res (tensor * tensor)).

Definition resize_camera (target_size num_channels : Z) (pad_value : Qc) (cam : tensor) : res tensor :=
  match t_shape cam with
  | [_; c; _; _] =>
      _ ← ensure (c =? num_channels) ValueError;
      resize_with_pad interpolate q_round target_size target_size pad_value cam
  | _ => Err ValueError
  end.

(** The cameras of [IMAGES]: a stacked tensor or one tensor per camera *)
Definition cameras (num_images : Z) (images : entry) : res (list tensor) :=
  match images with
  | ETensor x =>
      match t_shape x with
      | [_; n; _; _; _] => _ ← ensure (n =? num_images) ValueError; Ok (camera x <$> seqZ 0 num_images)
      | _ => Err ValueError
      end
  | ETensors xs => _ ← ensure (Z.of_nat (List.length xs) =? num_images) ValueError; Ok xs
  | EText _ | ETexts _ => Err OtherError
  end.

(** [ResizeWithPadStep.__call__] *)
Definition resize_call (target_size num_images num_channels : Z) (pad_value : Qc) (t : transition) : res transition :=
  images ← item t IMAGES;
  per_camera ← cameras num_images images;
  processed ← rmap (resize_camera target_size num_channels pad_value) per_camera;
  stacked ← stack_cameras processed;
  Ok (dset t PIXEL_VALUES (ETensor stacked)).

(** [NormalizeImageStep.__call__] *)
Definition normalize_image_call (t : transition) : res transition :=
  e ← item t PIXEL_VALUES;
  x ← as_tensor e;
  Ok (dset t PIXEL_VALUES (ETensor (normalize_pixels x))).

(** ** Tokens ([text_steps.py]) *)

Record tokenizer_step : Type := TokenizerStep {
  tk_tokenizer : option Tok;
  tk_max_length : Z;
  tk_name : option string;
  tk_task_key : string;
  tk_padding_side : string;
  tk_padding : string;
  tk_truncation : bool;
}.

(** [mask.sum(dim=-1)] *)
Definition sum_last (x : tensor) : tensor :=
  NdArray (removelast (t_shape x)) (if is_floating (t_dtype x) then t_dtype x else Int64) (t_device x)
    (λ idx, foldr Qcplus 0%Qc ((λ j, t_at x (idx ++ [j])) <$> seqZ 0 (default 0 (last (t_shape x))))).

(** [TokenizerStep.__call__] *)
Definition tokenizer_call (k : tokenizer_step) (t : transition) : res transition :=
  tok ← of_option ValueError (tk_tokenizer k);
  e ← of_option ValueError (match dget t PROMPT with Some e => Some e | None => dget t TASK end);
  prompts ← as_texts e;
  '(ids, mask) ← encode tok prompts (tk_max_length k) (tk_padding k) (tk_padding_side k) (tk_truncation k);
  Ok (dset (dset t INPUT_IDS (ETensor (to_dtype Int64 ids))) LANG_LENS (ETensor (to_dtype Int64 (sum_last mask)))).

Definition opt_json {A} (f : A → json) (o : option A) : json := match o with Some a => f a | None => JNull end.

Definition tokenizer_config (k : tokenizer_step) : dict string json :=
  [("max_length", JInt (tk_max_length k)); ("task_key", JStr (tk_task_key k)); ("padding_side", JStr (tk_padding_side k));
   ("padding", JStr (tk_padding k)); ("truncation", JBool (tk_truncation k)); ("tokenizer_name", opt_json JStr (tk_name k))].

(** ** All steps *)

Inductive step_class : Type :=
  | CResize | CNormalizeImage | CNormalizer | CUnnormalizer | CPrepareState | CTokenizer | CDevice | CSlice | CAddBatch
  | CRename | CPrompt | CNewLine | CPadState.

Inductive step : Type :=
  | SResize (target_size num_images num_channels : Z) (pad_value : Qc)
  | SNormalizeImage
  | SNormalizer (inverse : bool) (n : normalizer)
  | SPrepareState (num_bins max_state_dim : Z)
  | STokenizer (k : tokenizer_step)
  | SDevice (device : string) (float_dtype : option dtype)
  | SSlice (action_dim : option Z)
  | SAddBatch
  | SRename (names : dict string string)
  | SPrompt (new_line : bool)
  | SPadState (max_state_dim : Z).

(** [type(step)], and the name it is registered under *)
Definition class_of (s : step) : step_class :=
  match s with
  | SResize _ _ _ _ => CResize | SNormalizeImage => CNormalizeImage
  | SNormalizer false _ => CNormalizer | SNormalizer true _ => CUnnormalizer
  | SPrepareState _ _ => CPrepareState | STokenizer _ => CTokenizer | SDevice _ _ => CDevice | SSlice _ => CSlice
  | SAddBatch => CAddBatch | SRename _ => CRename
  | SPrompt false => CPrompt | SPrompt true => CNewLine | SPadState _ => CPadState
  end.

Definition registry_name (c : step_class) : string :=
  match c with
  | CResize => "resize_with_pad_step" | CNormalizeImage => "normalize_image_step"
  | CNormalizer => "normalizer_processor" | CUnnormalizer => "unnormalizer_processor"
  | CPrepareState => "pi05_prepare_state_tokenizer_processor_step" | CTokenizer => "tokenizer_processor"
  | CDevice => "device_processor" | CSlice => "slice_action_step" | CAddBatch => "to_batch_processor"
  | CRename => "rename_observations_processor" | CPrompt => "pi0_prompt_prepare_step" | CNewLine => "pi0_new_line_processor"
  | CPadState => "pad_state_step"
  end.

(** [step(transition)] *)
Definition step_call (s : step) (t : transition) : res transition :=
  match s with
  | SResize size n c pad => resize_call size n c pad t
  | SNormalizeImage => normalize_image_call t
  | SNormalizer inverse n => normalizer_call n inverse t
  | SPrepareState bins _ => prepare_state_call bins t
  | STokenizer k => tokenizer_call k t
  | SDevice device d => Ok (device_call device d t)
  | SSlice k => slice_call k t
  | SAddBatch => Ok (add_batch_call t)
  | SRename names => Ok (rename_call names t)
  | SPrompt _ => prompt_call t
  | SPadState d => pad_state_call d t
  end.

(** [step.get_config()] *)
Definition step_config (s : step) : dict string json :=
  match s with
  | SResize size n c pad => [("target_size", JInt size); ("num_images", JInt n); ("num_channels", JInt c); ("pad_value", JFloat pad)]
  | SNormalizer _ n => normalizer_config n
  | STokenizer k => tokenizer_config k
  | SDevice device d => [("device", JStr (device_text device)); ("float_dtype", opt_json (λ d, JStr (dtype_text d)) d)]
  | SSlice k => [("action_dim", opt_json JInt k)]
  | SRename names => [("rename_map", JObj (prod_map id JStr <$> names))]
  | SPadState d => [("max_state_dim", JInt d)]
  | SNormalizeImage | SPrepareState _ _ | SAddBatch | SPrompt _ => []
  end.

(** [step.state_dict()] and [step.load_state_dict(...)] *)
Definition step_state (s : step) : dict string tensor := match s with SNormalizer _ n => normalizer_state n | _ => [] end.

Definition step_load (s : step) (state : dict string tensor) : res step :=
  match s with SNormalizer inverse n => n ← normalizer_load n state; Ok (SNormalizer inverse n) | _ => Ok s end.
End steps.
Arguments tokenizer_step : clear implicits.
Arguments step : clear implicits.
