(* ===== verification/Pipeline.v ===== *)
(** * Processor pipelines
      ([src/phyai-utils-tools/src/phyai_utils_tools/processing/pipeline.py])

    The registry of steps, pipelines, and their form on disk: a JSON file that
    lists steps with their configurations, and a file of tensors for each step
    that has some.  A directory is a map from file names; reading a JSON file
    gives back the value that was written, reading a tensor file its tensors in
    the order of the library. *)

From Stdlib Require Import Ascii String.
From S2P Require Import Prelude PyStr Transition ProcessorSteps.
Open Scope string_scope.
Open Scope Z_scope.

Inductive file : Type := FJson (j : json) | FTensors (d : dict string tensor).
Abbreviation directory := (gmap string file).

(** What [Path(src)] is: a directory, a file in one, or neither, and then the
    name of a repository. *)
Inductive place_of : Type := InDirectory (d : directory) | AsFile (d : directory) (name : string) | OnHub (repo : string).

Section pipelines.
Context {Tok : Type} (interpolate : tensor → Z → Z → res tensor) (q_round : Qc → Qc).
Context (encode : Tok → list string → Z → string → string → bool → res (tensor * tensor)).
(** [hf_hub_download], the files next to a downloaded one, and the order in
    which [load_file] lists tensors *)
Context (hub : string → string → res file) (snapshot : string → directory).
Context (file_order : dict string tensor → dict string tensor).

Abbreviation step := (step Tok).
Abbreviation arg := (arg Tok).

(** ** The registry *)

Abbreviation registry := (dict string step_class).

(** [ProcessorStepRegistry.register] under the name of the class, [get],
    [list] and [unregister] *)
Definition register (r : registry) (c : step_class) : registry * res unit :=
  match dget r (registry_name c) with
  | Some _ => (r, Err ValueError)
  | None => (dset r (registry_name c) c, Ok ())
  end.
Definition registry_get (r : registry) (name : string) : res step_class := of_option KeyError (dget r name).
Definition registry_list (r : registry) : list string := py_sorted String.leb (dkeys r).
Definition unregister (r : registry) (name : string) : registry := ddel r name.

(** ** Construction from keyword arguments

    A class called with keyword arguments: unknown and missing names are refused.  An argument
    of another type than the field is refused too; the dataclass would keep it
    until the step uses it. *)

Abbreviation kwargs := (dict string arg).

Definition only (names : list string) (k : kwargs) : res unit := ensure (forallb (λ n, bool_decide (n ∈ names)) (dkeys k)) TypeError.
Definition required {A} (k : kwargs) (name : string) (dec : arg → res A) : res A := a ← of_option TypeError (dget k name); dec a.
Definition optional {A} (k : kwargs) (name : string) (dec : arg → res A) (default : A) : res A :=
  match dget k name with Some a => dec a | None => Ok default end.

Definition d_int (a : arg) : res Z := match a with AJson (JInt z) => Ok z | _ => Err TypeError end.
Definition d_float (a : arg) : res Qc :=
  match a with AJson (JFloat q) => Ok q | AJson (JInt z) => Ok (q_of_Z z) | _ => Err TypeError end.
Definition d_str (a : arg) : res string := match a with AJson (JStr s) => Ok s | _ => Err TypeError end.
Definition d_bool (a : arg) : res bool := match a with AJson (JBool b) => Ok b | _ => Err TypeError end.
Definition d_opt {A} (dec : arg → res A) (a : arg) : res (option A) :=
  match a with AJson JNull => Ok None | _ => x ← dec a; Ok (Some x) end.
Definition d_tokenizer (a : arg) : res Tok := match a with ATokenizer k => Ok k | AJson _ | ADtype _ => Err TypeError end.
Definition d_dtype (a : arg) : res dtype := match a with ADtype d => Ok d | _ => Err TypeError end.
(** A [float_dtype]: an element type or its name *)
Definition d_float_dtype (a : arg) : res dtype :=
  match a with ADtype d => Ok d | AJson (JStr s) => resolve_dtype s | _ => Err TypeError end.
Definition d_object {A} (dec : json → res A) (a : arg) : res (dict string A) :=
  match a with
  | AJson (JObj d) => rmap (λ '(k, j), x ← dec j; Ok (k, x)) d
  | _ => Err TypeError
  end.

Definition j_str (j : json) : res string := match j with JStr s => Ok s | _ => Err TypeError end.
Definition j_int (j : json) : res Z := match j with JInt z => Ok z | _ => Err TypeError end.

(** One entry of [features] *)
Definition j_feature (j : json) : res policy_feature :=
  match j with
  | JObj d =>
      type ← of_option KeyError (dget d "type");
      name ← j_str type;
      f ← feature_type_of name;
      match dget d "shape" with
      | None => Ok (PolicyFeature f [])
      | Some (JList l) => s ← rmap j_int l; Ok (PolicyFeature f s)
      | Some _ => Err TypeError
      end
  | _ => Err TypeError
  end.

Definition d_norm_map (a : arg) : res (dict feature_type normalization_mode) :=
  d ← d_object j_str a;
  l ← rmap (λ '(k, v), f ← feature_type_of k; m ← mode_of v; Ok (f, m)) d;
  Ok (foldl (λ out '(f, m), dset out f m) [] l).

Definition default_eps : Qc := Q2Qc (1 # 100000000).

(** The [_NormalizeBase] classes; statistics are no JSON arguments. *)
Definition instantiate_normalizer (k : kwargs) : res normalizer :=
  _ ← only ["features"; "norm_map"; "device"; "dtype"; "eps"] k;
  features ← optional k "features" (d_object j_feature) [];
  norm_map ← optional k "norm_map" d_norm_map [];
  device ← optional k "device" (d_opt d_str) None;
  d ← optional k "dtype" d_dtype Float32;
  eps ← optional k "eps" d_float default_eps;
  Ok (normalizer_init features norm_map None device d eps).

Definition instantiate_tokenizer (k : kwargs) : res (tokenizer_step Tok) :=
  _ ← only ["tokenizer"; "max_length"; "tokenizer_name"; "task_key"; "padding_side"; "padding"; "truncation"] k;
  tok ← optional k "tokenizer" (d_opt d_tokenizer) None;
  len ← optional k "max_length" d_int 200;
  name ← optional k "tokenizer_name" (d_opt d_str) None;
  key ← optional k "task_key" d_str "task";
  side ← optional k "padding_side" d_str "right";
  padding ← optional k "padding" d_str "max_length";
  truncation ← optional k "truncation" d_bool true;
  Ok (TokenizerStep tok len name key side padding truncation).

Definition instantiate (c : step_class) (k : kwargs) : res step :=
  match c with
  | CResize =>
      _ ← only ["target_size"; "num_images"; "num_channels"; "pad_value"] k;
      size ← required k "target_size" d_int; n ← required k "num_images" d_int; ch ← required k "num_channels" d_int;
      pad ← optional k "pad_value" d_float 0%Qc;
      Ok (SResize size n ch pad)
  | CNormalizeImage => _ ← only [] k; Ok SNormalizeImage
  | CNormalizer => n ← instantiate_normalizer k; Ok (SNormalizer false n)
  | CUnnormalizer => n ← instantiate_normalizer k; Ok (SNormalizer true n)
  | CPrepareState =>
      _ ← only ["num_bins"; "max_state_dim"] k;
      bins ← optional k "num_bins" d_int 256; d ← optional k "max_state_dim" d_int 32;
      Ok (SPrepareState bins d)
  | CTokenizer => s ← instantiate_tokenizer k; Ok (STokenizer s)
  | CDevice =>
      _ ← only ["device"; "float_dtype"] k;
      device ← optional k "device" d_str "cpu"; d ← optional k "float_dtype" (d_opt d_float_dtype) None;
      Ok (SDevice device d)
  | CSlice => _ ← only ["action_dim"] k; d ← optional k "action_dim" (d_opt d_int) None; Ok (SSlice d)
  | CAddBatch => _ ← only [] k; Ok SAddBatch
  | CRename => _ ← only ["rename_map"] k; m ← optional k "rename_map" (d_object j_str) []; Ok (SRename m)
  | CPrompt => _ ← only [] k; Ok (SPrompt false)
  | CNewLine => _ ← only [] k; Ok (SPrompt true)
  | CPadState => _ ← only ["max_state_dim"] k; d ← optional k "max_state_dim" d_int 32; Ok (SPadState d)
  end.

(** ** Pipelines *)

Record pipeline {I O : Type} : Type := Pipeline {
  pl_steps : list step;
  pl_name : string;
  pl_in : I → res transition;
  pl_out : transition → res O;
}.
Arguments pipeline : clear implicits.

Fixpoint run_steps (steps : list step) (t : transition) : res transition :=
  match steps with
  | [] => Ok t
  | s :: steps' => t ← step_call interpolate q_round encode s t; run_steps steps' t
  end.

(** [ProcessorPipeline.__call__] *)
Definition run {I O} (p : pipeline I O) (data : I) : res O :=
  t ← pl_in p data; t ← run_steps (pl_steps p) t; pl_out p t.

(** [step_through]: the transitions it yields, and how it ends *)
Fixpoint through (steps : list step) (t : transition) : list transition * res unit :=
  match steps with
  | [] => ([t], Ok ())
  | s :: steps' =>
      match step_call interpolate q_round encode s t with
      | Ok t' => let '(l, r) := through steps' t' in (t :: l, r)
      | Err e => ([t], Err e)
      end
  end.

Definition step_through {I O} (p : pipeline I O) (data : I) : list transition * res unit :=
  match pl_in p data with Ok t => through (pl_steps p) t | Err e => ([], Err e) end.

(** [get_config] *)
Definition step_entry (s : step) : dict string json :=
  [("registry_name", JStr (registry_name (class_of s))); ("config", JObj (step_config s))].
Definition pipeline_config {I O} (p : pipeline I O) : json :=
  JObj [("name", JStr (pl_name p)); ("steps", JList (JObj ∘ step_entry <$> pl_steps p))].

(** ** Saving *)

Definition is_word (c : ascii) : bool := is_lower c || is_upper c || is_digit c || Ascii.eqb c "_"%char.
Definition sanitized (name : string) : string := smap (λ c, if is_word c then c else "_"%char) (lower name).
Definition state_filename (base : string) (i : Z) (c : step_class) : string :=
  base +:+ "_step_" +:+ z_to_string i +:+ "_" +:+ registry_name c +:+ ".safetensors".

(** The loop of [save_pretrained]: the sidecars written, and the entries *)
Fixpoint save_steps (base : string) (i : Z) (steps : list step) (dir : directory) : directory * list json :=
  match steps with
  | [] => (dir, [])
  | s :: steps' =>
      let state := step_state s in
      let name := state_filename base i (class_of s) in
      match state with
      | [] => let '(dir, l) := save_steps base (i + 1) steps' dir in (dir, JObj (step_entry s) :: l)
      | _ => let '(dir, l) := save_steps base (i + 1) steps' (<[name := FTensors state]> dir) in
             (dir, JObj (step_entry s ++ [("state_file", JStr name)]) :: l)
      end
  end.

(** [save_pretrained] *)
Definition save_pretrained {I O} (p : pipeline I O) (config_filename : option string) (dir : directory) : directory * string :=
  let base := sanitized (pl_name p) in
  let config_filename := default (base +:+ ".json") config_filename in
  let '(dir, entries) := save_steps base 0 (pl_steps p) dir in
  (<[config_filename := FJson (JObj [("name", JStr (pl_name p)); ("steps", JList entries)])]> dir, config_filename).

(** ** Loading *)

Definition read_json (f : file) : res json := match f with FJson j => Ok j | FTensors _ => Err ValueError end.
Definition read_tensors (f : file) : res (dict string tensor) := match f with FTensors d => Ok (file_order d) | FJson _ => Err OtherError end.

(** [_load_config]: the configuration, and the directory of its sidecars *)
Definition load_config (src : place_of) (config_filename : string) : res (json * directory) :=
  match src with
  | InDirectory d => f ← of_option FileNotFoundError (d !! config_filename); j ← read_json f; Ok (j, d)
  | AsFile d name => f ← of_option FileNotFoundError (d !! name); j ← read_json f; Ok (j, d)
  | OnHub repo => f ← hub repo config_filename; j ← read_json f; Ok (j, snapshot repo)
  end.

Definition merge {A} (d e : dict string A) : dict string A := foldl (λ out '(k, v), dset out k v) d e.

Definition config_of (entry : dict string json) : res kwargs :=
  match dget entry "config" with
  | None => Ok []
  | Some (JObj d) => Ok (prod_map id AJson <$> d)
  | Some _ => Err TypeError
  end.

(** [_build_step] *)
Definition build_step (r : registry) (overrides step_kwargs : dict string kwargs) (src : place_of) (base : directory)
    (entry : dict string json) : res step :=
  name ← (match dget entry "registry_name" with
          | Some (JStr s) => Ok s
          | None | Some JNull => Err ProcessorStepError
          | Some (JList _) | Some (JObj _) => Err TypeError
          | Some _ => Err ProcessorStepError
          end);
  c ← (match registry_get r name with Ok c => Ok c | Err _ => Err ProcessorStepError end);
  config ← config_of entry;
  let merged := merge (merge config (default [] (dget overrides name))) (default [] (dget step_kwargs name)) in
  s ← (match instantiate c merged with Ok s => Ok s | Err _ => Err ProcessorStepError end);
  match dget entry "state_file" with
  | Some (JStr file_name) =>
      if sempty file_name then Ok s
      else
        f ← (match base !! file_name, src with
             | Some f, _ => Ok f
             | None, OnHub repo => hub repo file_name
             | None, _ => Err FileNotFoundError
             end);
        state ← read_tensors f;
        step_load s state
  | None | Some JNull | Some (JBool false) | Some (JInt 0) | Some (JList []) | Some (JObj []) => Ok s
  | Some (JFloat q) => if bool_decide (q = 0%Qc) then Ok s else Err TypeError
  | Some _ => Err TypeError
  end.

Definition entry_of (j : json) : res (dict string json) := match j with JObj d => Ok d | _ => Err OtherError end.

(** [from_pretrained] *)
Definition from_pretrained {I O} (r : registry) (src : place_of) (config_filename : string) (name : option string)
    (overrides step_kwargs : dict string kwargs) (to_transition : I → res transition) (to_output : transition → res O)
    : res (pipeline I O) :=
  '(config, base) ← load_config src config_filename;
  d ← entry_of config;
  entries ← (match dget d "steps" with None => Ok [] | Some (JList l) => Ok l | Some _ => Err TypeError end);
  steps ← rmap (λ j, e ← entry_of j; build_step r overrides step_kwargs src base e) entries;
  saved ← (match dget d "name" with None => Ok "ProcessorPipeline" | Some (JStr s) => Ok s | Some _ => Err TypeError end);
  Ok (Pipeline I O steps (match name with Some n => if sempty n then saved else n | None => saved end) to_transition to_output).
End pipelines.
Arguments pipeline : clear implicits.
