(* ===== verification/Processors.v ===== *)
(** * The processors of pi0 and pi0.5
      ([src/phyai-utils-tools/src/phyai_utils_tools/models]:
      [pi05/processor_pi05.py], [pi0/processor_pi0.py])

    A processor holds the pipeline that makes model inputs and the one that
    turns model outputs into actions; it is built from arguments or from the
    files of a checkpoint. *)

From Stdlib Require Import Ascii String.
From S2P Require Import Prelude PyStr Transition ProcessorSteps Pipeline.
Open Scope string_scope.
Open Scope Z_scope.

Definition STATE_FEATURE := "observation.state".
Definition ACTION_FEATURE := "action".
Definition PRE_CONFIG_FILENAME := "policy_preprocessor.json".
Definition POST_CONFIG_FILENAME := "policy_postprocessor.json".

Definition PI05_NORM_MAP : dict feature_type normalization_mode :=
  [(FT_VISUAL, IDENTITY); (FT_STATE, QUANTILES); (FT_ACTION, QUANTILES)].
Definition PI0_NORM_MAP : dict feature_type normalization_mode :=
  [(FT_VISUAL, IDENTITY); (FT_STATE, MEAN_STD); (FT_ACTION, MEAN_STD)].

(** [PI05ProcessedInputs] and [PI0ProcessedInputs] *)
Record pi05_inputs : Type := PI05Inputs { i5_pixel_values : entry; i5_input_ids : entry; i5_lang_lens : entry }.
Record pi0_inputs : Type := PI0Inputs { i0_pixel_values : entry; i0_input_ids : entry; i0_lang_lens : entry; i0_state : entry }.

(** [_features_for_stats] *)
Definition features_for_stats (given : option stats) : dict string policy_feature :=
  match given with
  | None | Some [] => []
  | Some s =>
      (if bool_decide (STATE_FEATURE ∈ dkeys s) then [(STATE_FEATURE, PolicyFeature FT_STATE [])] else []) ++
      (if bool_decide (ACTION_FEATURE ∈ dkeys s) then [(ACTION_FEATURE, PolicyFeature FT_ACTION [])] else [])
  end.

(** [_validate_num_images] of pi0 *)
Definition validate_num_images (n : Z) : res Z := _ ← ensure ((n =? 2) || (n =? 3)) ValueError; Ok n.

(** [_to_inputs], [_action_to_transition], [_transition_to_action] *)
Definition to_inputs5 (t : transition) : res pi05_inputs :=
  p ← item t PIXEL_VALUES; i ← item t INPUT_IDS; l ← item t LANG_LENS; Ok (PI05Inputs p i l).
Definition to_inputs0 (t : transition) : res pi0_inputs :=
  p ← item t PIXEL_VALUES; i ← item t INPUT_IDS; l ← item t LANG_LENS; s ← item t STATE; Ok (PI0Inputs p i l s).
Definition action_to_transition (action : tensor) : res transition := Ok [(ACTION, ETensor action)].
Definition transition_to_action (t : transition) : res entry := item t ACTION.

Section processors.
Context {Tok : Type} (get_tokenizer : string → res Tok).
Context (hub : string → string → res file) (snapshot : string → directory).
Context (file_order : dict string tensor → dict string tensor).

Abbreviation step := (step Tok).

(** The arguments of the two constructors; pi0.5 ignores [pa_max_state_dim]. *)
Record processor_args : Type := ProcessorArgs {
  pa_image_size : Z;
  pa_num_channels : Z;
  pa_num_images : Z;
  pa_max_length : Z;
  pa_max_state_dim : Z;
  pa_action_dim : option Z;
  pa_tokenizer_name : string;
  pa_tokenizer : option Tok;
  pa_stats : option stats;
  pa_normalize_pixels : bool;
  pa_pad_value : Qc;
  pa_device : string;
  pa_params_dtype : dtype;
}.

Record processor {Inputs : Type} : Type := Processor {
  pr_pre : pipeline Tok transition Inputs;
  pr_post : pipeline Tok tensor entry;
  pr_max_length : Z;
  pr_max_state_dim : Z;
}.
Arguments processor : clear implicits.

Definition tokenizer_of (a : processor_args) : res Tok :=
  match pa_tokenizer a with Some k => Ok k | None => get_tokenizer (pa_tokenizer_name a) end.

(** [_vision_steps] *)
Definition vision_steps (a : processor_args) : list step :=
  SResize (pa_image_size a) (pa_num_images a) (pa_num_channels a) (pa_pad_value a) ::
  (if pa_normalize_pixels a then [SNormalizeImage] else []).

Definition stats_step (a : processor_args) (norm_map : dict feature_type normalization_mode) (inverse : bool) : step :=
  SNormalizer inverse (normalizer_init (features_for_stats (pa_stats a)) norm_map (pa_stats a) (Some (pa_device a)) Float32 default_eps).

Definition tokenizer_step_of (a : processor_args) (tok : Tok) : step :=
  STokenizer (TokenizerStep (Some tok) (pa_max_length a) (Some (pa_tokenizer_name a)) "task" "right" "max_length" true).

(** [PI05Processor.build_preprocessor] and [build_postprocessor] *)
Definition pi05_pre_steps (a : processor_args) (tok : Tok) : list step :=
  [stats_step a PI05_NORM_MAP false; SPrepareState 256 32; tokenizer_step_of a tok; SDevice (pa_device a) (Some (pa_params_dtype a))].
Definition pi05_post_steps (a : processor_args) : list step :=
  [stats_step a PI05_NORM_MAP true; SSlice (pa_action_dim a); SDevice "cpu" None].

(** [PI05Processor.__init__] *)
Definition pi05_processor (a : processor_args) : res (processor pi05_inputs) :=
  tok ← tokenizer_of a;
  Ok (Processor pi05_inputs
        (Pipeline transition pi05_inputs (vision_steps a ++ pi05_pre_steps a tok) "pi05_preprocessor" Ok to_inputs5)
        (Pipeline tensor entry (pi05_post_steps a) "pi05_postprocessor" action_to_transition transition_to_action)
        (pa_max_length a) 32).

(** [PI0Processor.build_preprocessor] and [build_postprocessor] *)
Definition pi0_pre_steps (a : processor_args) (tok : Tok) : list step :=
  [stats_step a PI0_NORM_MAP false; SPadState (pa_max_state_dim a); SPrompt false; tokenizer_step_of a tok;
   SDevice (pa_device a) (Some (pa_params_dtype a))].
Definition pi0_post_steps (a : processor_args) : list step :=
  [SSlice (pa_action_dim a); stats_step a PI0_NORM_MAP true; SDevice "cpu" None].

(** [PI0Processor.__init__] *)
Definition pi0_processor (a : processor_args) : res (processor pi0_inputs) :=
  _ ← validate_num_images (pa_num_images a);
  tok ← tokenizer_of a;
  Ok (Processor pi0_inputs
        (Pipeline transition pi0_inputs (vision_steps a ++ pi0_pre_steps a tok) "pi0_preprocessor" Ok to_inputs0)
        (Pipeline tensor entry (pi0_post_steps a) "pi0_postprocessor" action_to_transition transition_to_action)
        (pa_max_length a) (pa_max_state_dim a)).

(** ** Saving *)

(** [_is_vision_glue] *)
Definition is_vision_glue (s : step) : bool := match s with SResize _ _ _ _ | SNormalizeImage => true | _ => false end.
Definition is_slice (s : step) : bool := match s with SSlice _ => true | _ => false end.

Definition core (steps : list step) (name : string) : pipeline Tok transition transition :=
  Pipeline transition transition steps name Ok Ok.

Definition save_both (pre post : list step) (dir : directory) : directory :=
  let dir := (save_pretrained (core pre "policy_preprocessor") (Some PRE_CONFIG_FILENAME) dir).1 in
  (save_pretrained (core post "policy_postprocessor") (Some POST_CONFIG_FILENAME) dir).1.

(** [PI05Processor.save_pretrained] and [PI0Processor.save_pretrained] *)
Definition pi05_save (p : processor pi05_inputs) : directory → directory :=
  save_both (List.filter (λ s, negb (is_vision_glue s)) (pl_steps (pr_pre p)))
            (List.filter (λ s, negb (is_slice s)) (pl_steps (pr_post p))).
Definition pi0_save (p : processor pi0_inputs) : directory → directory :=
  save_both (List.filter (λ s, negb (is_vision_glue s)) (pl_steps (pr_pre p))) (pl_steps (pr_post p)).

(** ** Loading *)

Definition load_core (r : dict string step_class) (src : place_of) (config_filename : string)
    (step_kwargs : dict string (dict string (arg Tok))) : res (pipeline Tok transition transition) :=
  from_pretrained hub snapshot file_order r src config_filename None [] step_kwargs Ok Ok.

Definition device_arg (a : processor_args) : dict string (arg Tok) := [("device", AJson (JStr (pa_device a)))].

(** [next((s.max_length for s in steps if isinstance(s, TokenizerStep)), default)] *)
Fixpoint loaded_max_length (steps : list step) (default : Z) : Z :=
  match steps with [] => default | STokenizer k :: _ => tk_max_length k | _ :: steps' => loaded_max_length steps' default end.
Fixpoint loaded_max_state_dim (steps : list step) (default : Z) : Z :=
  match steps with [] => default | SPadState d :: _ => d | _ :: steps' => loaded_max_state_dim steps' default end.

(** [PI05Processor.from_pretrained] *)
Definition pi05_from_pretrained (r : dict string step_class) (src : place_of) (a : processor_args) : res (processor pi05_inputs) :=
  tok ← tokenizer_of a;
  pre ← load_core r src PRE_CONFIG_FILENAME [("tokenizer_processor", [("tokenizer", ATokenizer tok)]); ("device_processor", device_arg a)];
  post ← load_core r src POST_CONFIG_FILENAME [("unnormalizer_processor", device_arg a)];
  Ok (Processor pi05_inputs
        (Pipeline transition pi05_inputs (vision_steps a ++ pl_steps pre) "pi05_preprocessor" Ok to_inputs5)
        (Pipeline tensor entry (pl_steps post ++ [SSlice (pa_action_dim a)]) "pi05_postprocessor" action_to_transition transition_to_action)
        (loaded_max_length (pl_steps pre) 200) 32).

(** Where [PadStateStep] goes: after the last normalizer, or else before the
    first prompt or tokenizer step, or else at the end *)
Fixpoint after_last_normalizer (steps : list step) (i : nat) : option nat :=
  match steps with
  | [] => None
  | s :: steps' =>
      match after_last_normalizer steps' (S i), s with
      | Some j, _ => Some j
      | None, SNormalizer false _ => Some (S i)
      | None, _ => None
      end
  end.
Definition is_prompt_or_tokenizer (s : step) : bool := match s with SPrompt _ | STokenizer _ => true | _ => false end.
Fixpoint first_prompt (steps : list step) : nat :=
  match steps with [] => 0 | s :: steps' => if is_prompt_or_tokenizer s then 0 else S (first_prompt steps') end.

Definition is_pad_state (s : step) : bool := match s with SPadState _ => true | _ => false end.

Definition with_pad_state (d : Z) (steps : list step) : list step :=
  if existsb is_pad_state steps then steps
  else let i := default (first_prompt steps) (after_last_normalizer steps 0) in take i steps ++ SPadState d :: drop i steps.

(** [PI0Processor.from_pretrained] *)
Definition pi0_from_pretrained (r : dict string step_class) (src : place_of) (a : processor_args) : res (processor pi0_inputs) :=
  tok ← tokenizer_of a;
  pre ← load_core r src PRE_CONFIG_FILENAME
          [("tokenizer_processor", [("tokenizer", ATokenizer tok)]);
           ("device_processor", (device_arg a ++ [("float_dtype", ADtype (pa_params_dtype a))])%list);
           ("normalizer_processor", device_arg a)];
  let slice_kwargs := match pa_action_dim a with
                      | Some k => [("slice_action_step", [("action_dim", AJson (JInt k))])] | None => [] end in
  post ← load_core r src POST_CONFIG_FILENAME (("unnormalizer_processor", device_arg a) :: slice_kwargs);
  _ ← validate_num_images (pa_num_images a);
  let max_state_dim := loaded_max_state_dim (pl_steps pre) (pa_max_state_dim a) in
  let pre_steps := with_pad_state max_state_dim (vision_steps a ++ List.filter (λ s, negb (is_vision_glue s)) (pl_steps pre)) in
  let post_steps := if existsb is_slice (pl_steps post) then pl_steps post else SSlice (pa_action_dim a) :: pl_steps post in
  Ok (Processor pi0_inputs
        (Pipeline transition pi0_inputs pre_steps "pi0_preprocessor" Ok to_inputs0)
        (Pipeline tensor entry post_steps "pi0_postprocessor" action_to_transition transition_to_action)
        (loaded_max_length (pl_steps pre) 48) max_state_dim).
End processors.
Arguments processor : clear implicits.
Arguments processor_args : clear implicits.
