(* ===== verification/PipelineProps.v ===== *)
(** * Saved pipelines come back ([processing/pipeline.py])

    A pipeline that is written to a directory and read from it does to every
    input what the original does, when the arguments that a file cannot hold
    are given again. *)

From Stdlib Require Import Ascii String.
From S2P Require Import Prelude PyStr Transition ProcessorSteps Pipeline.
Open Scope string_scope.
Open Scope Z_scope.

(** ** Strings *)

Definition dotless (s : string) : bool := sforall (λ c, negb (Ascii.eqb c dot)) s.

Lemma rsplit_dotless s : dotless s = true → rsplit_dot s = None.
Proof.
  induction s as [|c s IH]; [done|]. unfold dotless in *. simpl. intros [Hc Hs]%andb_prop. rewrite (IH Hs).
  by destruct (Ascii.eqb c dot).
Qed.

Lemma rsplit_flat_key name st : dotless st = true → rsplit_dot (flat_key name st) = Some (name, st).
Proof.
  intros Hst. unfold flat_key. induction name as [|c name IH].
  - simpl. by rewrite (rsplit_dotless st Hst).
  - change (String c name +:+ String dot st) with (String c (name +:+ String dot st)). cbn [rsplit_dot]. by rewrite IH.
Qed.

Lemma flat_key_inj n1 s1 n2 s2 : dotless s1 = true → dotless s2 = true → flat_key n1 s1 = flat_key n2 s2 → n1 = n2 ∧ s1 = s2.
Proof. intros H1 H2 He. apply (f_equal rsplit_dot) in He. rewrite !rsplit_flat_key in He by done. by injection He. Qed.

(** ** Statistics *)

(** A statistic by the name of its feature and its own *)
Definition lookup2 (s : stats) (name st : string) : option tensor := dget s name ≫= λ sub, dget sub st.

Definition filled (s : stats) : Prop := Forall (λ p : string * dict string tensor, p.2 ≠ []) s.

Lemma dset_nonempty {V} (d : dict string V) k v : dset d k v ≠ [].
Proof. by destruct d as [|[k' v'] d]; simpl; [|case_decide]. Qed.

Lemma dset_filled s name sub : filled s → sub ≠ [] → filled (dset s name sub).
Proof.
  intros Hf Hs. induction Hf as [|[k v] s Hk Hf IH]; simpl; [by repeat constructor|]. case_decide; by constructor.
Qed.

Lemma lookup2_dset s name st t name' st' :
  lookup2 (dset s name (dset (default [] (dget s name)) st t)) name' st' =
  if decide (name = name' ∧ st = st') then Some t else lookup2 s name' st'.
Proof.
  unfold lookup2. rewrite dget_dset. destruct (decide (name = name')) as [<-|Hn].
  - simpl. rewrite dget_dset. destruct (decide (st = st')) as [<-|Hs]; [by rewrite decide_True|].
    rewrite decide_False by naive_solver. by destruct (dget s name).
  - by rewrite decide_False by naive_solver.
Qed.

(** A flat dictionary whose keys all split into a name and a statistic *)
Definition well_keyed (flat : dict string tensor) : Prop :=
  ∀ k t, (k, t) ∈ flat → ∃ name st, dotless st = true ∧ k = flat_key name st.

Definition all_dotless (s : stats) : Prop := ∀ name st t, lookup2 s name st = Some t → dotless st = true.

Lemma nest_stats_spec d device flat nested :
  NoDup (dkeys flat) → well_keyed flat → filled nested → all_dotless nested →
  ∃ out, nest_stats d device flat nested = Ok out ∧ filled out ∧ all_dotless out ∧
    ∀ name st, dotless st = true → lookup2 out name st =
      match dget flat (flat_key name st) with Some t => Some (place d device t) | None => lookup2 nested name st end.
Proof.
  revert nested. induction flat as [|[k t] flat IH]; intros nested Hnd Hk Hf Hdot; [by exists nested|].
  unfold dkeys in Hnd. rewrite fmap_cons in Hnd. apply NoDup_cons in Hnd as [Hkin Hnd].
  destruct (Hk k t) as (name & st & Hst & ->); [by left|]. cbn [nest_stats]. rewrite rsplit_flat_key by done. simpl.
  edestruct IH as (out & Ho & Hfo & Hdo & Hl); [exact Hnd| |apply dset_filled; [exact Hf|apply dset_nonempty]| |].
  { intros k' t' Hin. apply (Hk k' t'). by right. }
  { intros name' st' t'. rewrite lookup2_dset. destruct (decide _) as [[_ <-]|]; [done|apply Hdot]. }
  exists out. split; [exact Ho|]. split; [done|]. split; [done|]. intros name' st' Hst'. rewrite Hl by done. rewrite lookup2_dset.
  destruct (decide (flat_key name' st' = flat_key name st)) as [He|Hne].
  - apply flat_key_inj in He as [-> ->]; [|done..]. rewrite (proj2 (dget_None flat _)) by done. by rewrite decide_True.
  - destruct (dget flat _); [done|]. rewrite decide_False; [done|]. by intros [-> ->].
Qed.

(** Statistics as a dictionary of dictionaries with statistics that can be told
    from the names of their features *)
Definition stats_wf (s : stats) : Prop :=
  NoDup (dkeys s) ∧ ∀ name sub, (name, sub) ∈ s → NoDup (dkeys sub) ∧ ∀ st t, (st, t) ∈ sub → dotless st = true.

Definition flat_step (name : string) (flat : dict string tensor) (p : string * tensor) : dict string tensor :=
  dset flat (flat_key name p.1) (to_device "cpu" p.2).

Lemma flatten_sub name sub flat :
  NoDup (dkeys sub) → (∀ st t, (st, t) ∈ sub → dotless st = true) → NoDup (dkeys flat) → well_keyed flat →
  let out := foldl (flat_step name) flat sub in
  NoDup (dkeys out) ∧ well_keyed out ∧ ∀ name' st', dotless st' = true →
    dget out (flat_key name' st') = if decide (name' = name ∧ is_Some (dget sub st')) then to_device "cpu" <$> dget sub st' else dget flat (flat_key name' st').
Proof.
  intros Hnd Hdot. revert flat. induction sub as [|[st t] sub IH]; intros flat Hf Hw; simpl.
  { split; [done|]. split; [done|]. intros ? ? ?. rewrite decide_False; [done|]. by intros [_ [? ?]]. }
  unfold dkeys in Hnd. rewrite fmap_cons in Hnd. apply NoDup_cons in Hnd as [Hst Hnd].
  assert (dotless st = true) as Hd by (apply (Hdot st t); by left).
  destruct (IH Hnd ltac:(intros s' t' Hin; apply (Hdot s' t'); by right) (flat_step name flat (st, t))) as (Hf' & Hw' & Hl).
  { by apply dset_NoDup. }
  { intros k v Hin. destruct (decide (k = flat_key name st)) as [->|Hne]; [by eauto|]. apply (Hw k v).
    apply dget_elem. rewrite <- (dget_dset_ne flat (flat_key name st) k (to_device "cpu" t)) by done. apply elem_dget; [by apply dset_NoDup|done]. }
  split; [done|]. split; [done|]. intros name' st' Hst'. rewrite Hl by done. unfold flat_step. simpl. rewrite dget_dset.
  destruct (decide (st' = st)) as [->|Hne].
  - rewrite (proj2 (dget_None sub st)) by done. rewrite decide_False by (by intros [_ [? ?]]).
    destruct (decide (name' = name)) as [->|Hn]; [by rewrite !decide_True by eauto|].
    rewrite !decide_False; [done|by intros [? _]|]. intros He. by apply flat_key_inj in He as [? _].
  - destruct (decide (name' = name ∧ is_Some (dget sub st'))); [done|]. rewrite decide_False; [done|].
    intros He. apply flat_key_inj in He as [_ ?]; [|done..]. congruence.
Qed.

Lemma flatten_all s flat :
  stats_wf s → NoDup (dkeys flat) → well_keyed flat → (∀ name st, dotless st = true → name ∈ dkeys s → dget flat (flat_key name st) = None) →
  let out := foldl (λ flat p, foldl (flat_step p.1) flat p.2) flat s in
  NoDup (dkeys out) ∧ well_keyed out ∧ ∀ name st, dotless st = true →
    dget out (flat_key name st) = if decide (name ∈ dkeys s) then to_device "cpu" <$> lookup2 s name st else dget flat (flat_key name st).
Proof.
  intros [Hnd Hs]. revert flat. induction s as [|[name sub] s IH]; intros flat Hf Hw Hfresh; simpl.
  { split; [done|]. split; [done|]. intros n' st Hst. by destruct (decide (n' ∈ dkeys (@nil (string * dict string tensor)))) as [?%not_elem_of_nil|]. }
  unfold dkeys in Hnd. rewrite fmap_cons in Hnd. apply NoDup_cons in Hnd as [Hname Hnd].
  destruct (Hs name sub) as [Hsub Hdot]; [by left|]. destruct (flatten_sub name sub flat Hsub Hdot Hf Hw) as (Hf1 & Hw1 & Hl1).
  destruct (IH Hnd ltac:(intros n' s' Hin; apply (Hs n' s'); by right) (foldl (flat_step name) flat sub) Hf1 Hw1) as (Hf2 & Hw2 & Hl2).
  { intros n' st Hst Hin. rewrite Hl1 by done. rewrite decide_False by (by intros [-> _]).
    apply Hfresh; [done|]. unfold dkeys. rewrite fmap_cons. by right. }
  split; [done|]. split; [done|]. intros n' st Hst. rewrite Hl2 by done. unfold lookup2. simpl. fold (dkeys s).
  destruct (decide (n' = name)) as [->|Hne].
  - rewrite (decide_False (P := name ∈ dkeys s)) by done. rewrite (decide_True (P := name ∈ name :: dkeys s)) by left. simpl.
    rewrite Hl1 by done. destruct (dget sub st) eqn:Hg; [by rewrite decide_True by (split; [done|by eexists])|].
    rewrite decide_False by (by intros [_ [? ?]]). apply Hfresh; [done|]. unfold dkeys. rewrite fmap_cons. by left.
  - destruct (decide (n' ∈ dkeys s)) as [Hin|Hin].
    + by rewrite (decide_True (P := n' ∈ name :: dkeys s)) by (by right).
    + rewrite (decide_False (P := n' ∈ name :: dkeys s)) by (by intros [?|?]%elem_of_cons).
      rewrite Hl1 by done. by rewrite decide_False by (by intros [? _]).
Qed.

Lemma state_foldl n : normalizer_state n = foldl (λ flat p, foldl (flat_step p.1) flat p.2) [] (nz_stats n).
Proof.
  unfold normalizer_state. generalize (@nil (string * tensor)) as flat. induction (nz_stats n) as [|[name sub] s IH]; intros flat; [done|].
  simpl. rewrite IH. f_equal. revert flat. induction sub as [|[st t] sub IHs]; intros flat; [done|]. simpl. apply IHs.
Qed.

Lemma state_lookup n (flat := normalizer_state n) :
  stats_wf (nz_stats n) → NoDup (dkeys flat) ∧ well_keyed flat ∧
  ∀ name st, dotless st = true → dget flat (flat_key name st) = to_device "cpu" <$> lookup2 (nz_stats n) name st.
Proof.
  intros Hw. subst flat. rewrite state_foldl. destruct (flatten_all (nz_stats n) [] Hw) as (Hnd & Hk & Hl); [constructor|by intros ? ? ?%not_elem_of_nil|done|].
  split; [done|]. split; [done|]. intros name st Hst. rewrite Hl by done. destruct (decide _) as [|Hn]; [done|].
  unfold lookup2. by rewrite (proj2 (dget_None (nz_stats n) name)).
Qed.

(** ** Steps that do the same *)

(** Normalizers that agree on everything a call reads *)
Definition same_normalizer (n m : normalizer) : Prop :=
  nz_features n = nz_features m ∧ nz_norm_map n = nz_norm_map m ∧ nz_eps n = nz_eps m ∧
  ∀ name, match dget (nz_stats n) name, dget (nz_stats m) name with
          | Some (p :: s), Some (q :: u) => ∀ st, dget (p :: s) st = dget (q :: u) st
          | (None | Some []), (None | Some []) => True
          | _, _ => False
          end.

Lemma spread_ext lo hi s u eps : (∀ st, dget s st = dget u st) → spread lo hi s eps = spread lo hi u eps.
Proof. intros He. unfold spread, stat. by rewrite !He. Qed.

Lemma normalize_ext x mode s u eps : (∀ st, dget s st = dget u st) → normalize_field x mode s eps = normalize_field x mode u eps.
Proof. intros He. destruct mode; cbn [normalize_field]; unfold stat; rewrite ?He, ?(spread_ext _ _ _ _ eps He); done. Qed.

Lemma unnormalize_ext x mode s u eps : (∀ st, dget s st = dget u st) → unnormalize_field x mode s eps = unnormalize_field x mode u eps.
Proof. intros He. destruct mode; cbn [unnormalize_field]; unfold stat; rewrite ?He, ?(spread_ext _ _ _ _ eps He); done. Qed.

Lemma apply_feature_ext n m inverse name f out : same_normalizer n m → apply_feature n inverse name f out = apply_feature m inverse name f out.
Proof.
  intros (_ & Hm & He & Hs). unfold apply_feature. rewrite Hm, He. destruct (decide _); [done|].
  destruct (field_of _) as [field|]; [|done]. destruct (dget out field) as [e|]; [|done]. specialize (Hs name).
  destruct (dget (nz_stats n) name) as [[|p s]|], (dget (nz_stats m) name) as [[|q u]|]; try done.
  destruct (as_tensor e) as [x|]; [|done]. simpl. destruct inverse; [by rewrite (unnormalize_ext x _ (p :: s) (q :: u))|by rewrite (normalize_ext x _ (p :: s) (q :: u))].
Qed.

Lemma normalizer_call_ext n m inverse t : same_normalizer n m → normalizer_call n inverse t = normalizer_call m inverse t.
Proof.
  intros Hs. unfold normalizer_call. rewrite (proj1 Hs). revert t. induction (nz_features m) as [|[name f] fs IH]; intros t; [done|].
  simpl. rewrite (apply_feature_ext n m) by done. destruct (apply_feature m inverse name f t); simpl; [apply IH|done].
Qed.

(** Reloading the statistics of a normalizer into one without any gives the
    same normalizer. *)
Definition with_stats (n : normalizer) (s : stats) (device : option string) : normalizer :=
  Normalizer (nz_features n) (nz_norm_map n) s false device (nz_dtype n) (nz_eps n).

(** Statistics as [_to_tensor_stats] places them; without a device, on the CPU *)
Definition placed (n : normalizer) : Prop :=
  ∀ name st t, lookup2 (nz_stats n) name st = Some t → t_dtype t = nz_dtype n ∧ t_device t = default "cpu" (nz_device n).

Lemma place_back D device t :
  t_dtype t = D → t_device t = default "cpu" device → place D device (to_device "cpu" t) = t.
Proof. intros Hd Hv. destruct t as [sh d v at_]. simpl in *. subst d v. by destruct device. Qed.

Lemma reload_same n device flat' :
  stats_wf (nz_stats n) → placed n → device = nz_device n ∨ device = None ∧ nz_device n = Some "cpu" →
  Permutation flat' (normalizer_state n) →
  ∃ s, nest_stats (nz_dtype n) device flat' [] = Ok s ∧ same_normalizer n (with_stats n s device).
Proof.
  intros Hw Hp Hdev Hperm. destruct (state_lookup n Hw) as (Hnd & Hk & Hl).
  assert (NoDup (dkeys flat')) as Hnd' by (unfold dkeys; by rewrite Hperm).
  destruct (nest_stats_spec (nz_dtype n) device flat' []) as (s & Hs & Hfill & Hdot' & Hl'); [done| |constructor|done|].
  { intros k t Hin. apply (Hk k t). by rewrite <- Hperm. }
  exists s. split; [exact Hs|]. repeat split; try done. intros name. simpl.
  assert (∀ st, dotless st = true → lookup2 s name st = lookup2 (nz_stats n) name st) as He.
  { intros st Hst. rewrite Hl' by done. assert (dget flat' (flat_key name st) = dget (normalizer_state n) (flat_key name st)) as ->.
    { destruct (dget (normalizer_state n) _) as [t|] eqn:Hg.
      - apply elem_dget; [done|]. rewrite Hperm. by apply dget_elem.
      - apply dget_None. unfold dkeys. rewrite Hperm. by apply dget_None. }
    rewrite Hl by done. destruct (lookup2 (nz_stats n) name st) as [t|] eqn:Ht; [|done]. simpl. f_equal.
    destruct (Hp _ _ _ Ht) as [Hd Hv]. apply place_back; [done|]. destruct Hdev as [->|[-> Hdev]]; [done|]. by rewrite Hv, Hdev. }
  assert (∀ st t, lookup2 (nz_stats n) name st = Some t → dotless st = true) as Hdot.
  { intros st t. unfold lookup2. destruct (dget (nz_stats n) name) as [sub|] eqn:Hg; [|done]. simpl. intros Ht.
    by apply (proj2 (proj2 Hw name sub (dget_elem _ _ _ Hg)) st t), dget_elem. }
  assert (∀ st, lookup2 s name st = lookup2 (nz_stats n) name st) as Heq.
  { intros st. destruct (dotless st) eqn:Hd; [by apply He|]. destruct (lookup2 s name st) eqn:Ha; [by rewrite (Hdot' _ _ _ Ha) in Hd|].
    destruct (lookup2 (nz_stats n) name st) eqn:Hb; [by rewrite (Hdot _ _ Hb) in Hd|done]. }
  unfold lookup2 in Heq. destruct (dget s name) as [[|q u]|] eqn:Hq.
  - exfalso. apply dget_elem in Hq. by apply (proj1 (Forall_forall _ _) Hfill _ Hq).
  - specialize (Heq q.1) as Hq1. destruct q as [st t]. simpl in Hq1. rewrite decide_True in Hq1 by done.
    destruct (dget (nz_stats n) name) as [[|p v]|]; simpl in Hq1; try done. intros st'. symmetry. exact (Heq st').
  - destruct (dget (nz_stats n) name) as [[|[st t] v]|]; try done. specialize (Heq st). simpl in Heq. by rewrite decide_True in Heq by done.
Qed.

Lemma no_state_same n device :
  stats_wf (nz_stats n) → normalizer_state n = [] → same_normalizer n (with_stats n [] device).
Proof.
  intros Hw He. repeat split; try done. intros name. simpl. destruct (dget (nz_stats n) name) as [[|[st t] v]|] eqn:Hg; try done.
  assert (dotless st = true) as Hd by (apply (proj2 (proj2 Hw name _ (dget_elem _ _ _ Hg)) st t); by left).
  pose proof (proj2 (proj2 (state_lookup n Hw)) name st Hd) as Hl. rewrite He in Hl. unfold lookup2 in Hl. rewrite Hg in Hl. simpl in Hl.
  by rewrite decide_True in Hl.
Qed.

(** ** Constructors on saved configurations *)

(** Look up closed keys. *)
Ltac closed_keys :=
  repeat match goal with
  | |- context [@decide (@eq string ?a ?b) _] =>
      first [rewrite (decide_True (P:=a = b)) by reflexivity | rewrite (decide_False (P:=a = b)) by discriminate]
  | |- context [bool_decide (?a ∈ ?l)] => rewrite (bool_decide_true (a ∈ l)) by (repeat first [left; reflexivity | right])
  end.
Ltac py_keys := closed_keys; simpl.

Lemma rmap_fmap {A B C} (f : B → res C) (g : A → B) (h : A → C) l : (∀ x, f (g x) = Ok (h x)) → rmap f (g <$> l) = Ok (h <$> l).
Proof. intros He. induction l as [|x l IH]; [done|]. rewrite fmap_cons. simpl. by rewrite He, IH. Qed.

Lemma rmap_fmap_id {A B} (f : B → res A) (g : A → B) l : (∀ x, f (g x) = Ok x) → rmap f (g <$> l) = Ok l.
Proof. intros He. rewrite (rmap_fmap f g id) by done. by rewrite list_fmap_id. Qed.

Lemma feature_round f : j_feature (JObj [("type", JStr (feature_type_value (pf_type f))); ("shape", JList (JInt <$> pf_shape f))]) = Ok f.
Proof. unfold j_feature. simpl. rewrite feature_type_round. simpl. rewrite rmap_fmap_id by done. by destruct f. Qed.

Lemma dset_fresh {K V} `{EqDecision K} (d : dict K V) k v : k ∉ dkeys d → dset d k v = (d ++ [(k, v)])%list.
Proof.
  unfold dkeys. induction d as [|[k' v'] d IH]; [done|]. rewrite fmap_cons. intros [Hne Hk]%not_elem_of_cons. simpl in *.
  rewrite decide_False by done. by rewrite IH.
Qed.

Lemma foldl_dset {K V} `{EqDecision K} (l out : dict K V) :
  NoDup (dkeys (out ++ l)%list) → foldl (λ out '(k, v), dset out k v) out l = (out ++ l)%list.
Proof.
  revert out. induction l as [|[k v] l IH]; intros out Hnd; [by rewrite app_nil_r|]. simpl.
  rewrite dset_fresh.
  - rewrite IH by (by rewrite <- app_assoc). by rewrite <- app_assoc.
  - unfold dkeys in *. rewrite fmap_app, fmap_cons in Hnd. apply NoDup_app in Hnd as (_ & Hd & _). intros Hin. apply (Hd _ Hin). by left.
Qed.

Section reload.
Context {Tok : Type}.
Implicit Types (s : step Tok) (kw : dict string (arg Tok)).

Lemma norm_map_round (m : dict feature_type normalization_mode) : NoDup (dkeys m) →
  d_norm_map (Tok:=Tok) (AJson (JObj ((λ '(k, v), (feature_type_value k, JStr (mode_value v))) <$> m))) = Ok m.
Proof.
  intros Hnd. unfold d_norm_map, d_object.
  rewrite (rmap_fmap _ _ (λ '(k, v), (feature_type_value k, mode_value v))) by (by intros [k v]). simpl.
  rewrite (rmap_fmap_id _ (λ '(k, v), (feature_type_value k, mode_value v)));
    [|by intros [k v]; rewrite feature_type_round; simpl; rewrite mode_round]. simpl. by rewrite foldl_dset.
Qed.

(** The arguments of a step that no file holds: the live tokenizer, the device
    and the element type of statistics, the bins of a prepared state.  What the
    constructor would choose by itself may be left out, and so may the device
    and the type of a device step, which its file holds, when reading their
    text gives them back. *)
Definition kw_for (s : step Tok) (kw : dict string (arg Tok)) : Prop :=
  match s with
  | STokenizer k => kw = match tk_tokenizer k with Some tok => [("tokenizer", ATokenizer tok)] | None => [] end
  | SDevice dv d =>
      (kw = [] ∧ device_text dv = dv ∨ kw = [("device", AJson (JStr dv))]) ∧ from_option is_floating true d = true ∨
      ∃ dt, d = Some dt ∧ kw = [("device", AJson (JStr dv)); ("float_dtype", ADtype dt)]
  | SSlice k => kw = [] ∨ ∃ z, k = Some z ∧ kw = [("action_dim", AJson (JInt z))]
  | SPrepareState bins d =>
      kw = [] ∧ bins = 256 ∧ d = 32 ∨ kw = [("num_bins", AJson (JInt bins)); ("max_state_dim", AJson (JInt d))]
  | SNormalizer _ n =>
      ∃ placing typing, kw = (placing ++ typing)%list ∧
        (placing = match nz_device n with Some d => [("device", AJson (JStr d))] | None => [] end ∨ placing = [] ∧ nz_device n = Some "cpu") ∧
        (typing = [] ∧ nz_dtype n = Float32 ∨ typing = [("dtype", ADtype (nz_dtype n))])
  | _ => kw = []
  end.

(** The device of a normalizer of 32-bit floats is all it must be given. *)
Lemma kw_for_device i n d : nz_device n = Some d → nz_dtype n = Float32 → kw_for (SNormalizer i n) [("device", AJson (JStr d))].
Proof. intros Hv Hd. exists [("device", AJson (JStr d))], []. rewrite Hv. split; [done|]. split; left; done. Qed.

(** What a file can hold of a step: statistics are a dictionary of
    dictionaries, placed as the constructor places them, and their own names
    have no dot. *)
Definition saved_whole (s : step Tok) : Prop :=
  match s with
  | SNormalizer _ n => NoDup (dkeys (nz_norm_map n)) ∧ stats_wf (nz_stats n) ∧ placed n
  | _ => True
  end.

Definition same_step (s u : step Tok) : Prop :=
  s = u ∨ ∃ i n m, s = SNormalizer i n ∧ u = SNormalizer i m ∧ same_normalizer n m.

Definition merged (s : step Tok) kw : dict string (arg Tok) := merge (merge (prod_map id AJson <$> step_config s) []) kw.

Lemma instantiate_normalizer_round n placing typing device :
  NoDup (dkeys (nz_norm_map n)) →
  (placing = [] ∧ device = None ∨ ∃ d, placing = [("device", AJson (JStr d))] ∧ device = Some d) →
  (typing = [] ∧ nz_dtype n = Float32 ∨ typing = [("dtype", ADtype (nz_dtype n))]) →
  instantiate_normalizer (Tok:=Tok) (merge (merge (prod_map id AJson <$> normalizer_config n) []) (placing ++ typing)%list) = Ok (with_stats n [] device).
Proof.
  unfold with_stats. intros Hnd [[-> ->]|(d & -> & ->)] [[-> ->]| ->]; unfold instantiate_normalizer; simpl; py_keys; unfold only; simpl; py_keys;
    unfold optional, merge; simpl; py_keys;
    (rewrite (rmap_fmap_id _ (λ '(name, f), (name, JObj [("type", JStr (feature_type_value (pf_type f))); ("shape", JList (JInt <$> pf_shape f))])));
      [|by intros [name f]; rewrite feature_round]); simpl; by rewrite norm_map_round.
Qed.

Lemma rebuild_normalizer i n kw :
  kw_for (SNormalizer i n) kw → saved_whole (SNormalizer i n) →
  ∃ device, (device = nz_device n ∨ device = None ∧ nz_device n = Some "cpu") ∧
    instantiate (class_of (Tok:=Tok) (SNormalizer i n)) (merged (SNormalizer i n) kw) = Ok (SNormalizer i (with_stats n [] device)).
Proof.
  intros (placing & typing & -> & Hk & Ht) (Hnd & _).
  assert (∃ device, (device = nz_device n ∨ device = None ∧ nz_device n = Some "cpu") ∧
    (placing = [] ∧ device = None ∨ ∃ d, placing = [("device", AJson (JStr d))] ∧ device = Some d)) as (device & Hdev & Hkw).
  { destruct Hk as [->|[-> Hcpu]]; [|exists None; split; [by right|by left]].
    exists (nz_device n). split; [by left|]. destruct (nz_device n) as [d|]; [right; by exists d|by left]. }
  exists device. split; [done|]. unfold merged. destruct i; cbn [class_of step_config instantiate]; by rewrite (instantiate_normalizer_round n placing typing device).
Qed.

Lemma rebuild_plain s kw :
  kw_for s kw → saved_whole s → (∀ i n, s ≠ SNormalizer i n) → instantiate (class_of s) (merged s kw) = Ok s.
Proof.
  unfold merged. destruct s as [size n c pad| |i n|bins d|k|dv d|k| |names|nl|d]; intros Hk Hs Hn; simpl in Hk, Hs.
  - subst kw. simpl. py_keys. unfold only. simpl. py_keys. unfold required, optional. simpl. by py_keys.
  - by subst kw.
  - by destruct (Hn i n).
  - destruct Hk as [(-> & -> & ->)| ->]; unfold merge; simpl; py_keys; unfold only; simpl; py_keys; unfold optional; simpl; by py_keys.
  - subst kw. destruct k as [[t|] len [name|] key side padding tr];
      unfold merge; simpl; py_keys; unfold instantiate_tokenizer, only; simpl; py_keys; unfold optional; simpl; by py_keys.
  - destruct Hk as [[Hk Hf]|(dt & -> & ->)].
    + assert (device_text dv = dv ∨ kw ≠ []) as Hdv by (destruct Hk as [[_ ?]|Hk]; [by left|by right; rewrite Hk]).
      destruct Hk as [[-> Hdt]|Hk]; [|subst kw]; destruct d as [d|]; simpl in *; unfold merge; simpl; py_keys; unfold only; simpl; py_keys;
        unfold optional; simpl; py_keys; rewrite ?Hdt; try done; by destruct d.
    + unfold merge; simpl; py_keys; unfold only; simpl; py_keys; unfold optional; simpl; by py_keys.
  - destruct Hk as [->|(z & -> & ->)]; [destruct k|]; unfold merge; simpl; py_keys; unfold only; simpl; py_keys; unfold optional; simpl; by py_keys.
  - by subst kw.
  - subst kw. unfold merge. simpl. py_keys. unfold only. simpl. py_keys. unfold optional. simpl. py_keys.
    rewrite (rmap_fmap_id _ (prod_map id JStr)) by (by intros [a b]). done.
  - subst kw. by destruct nl.
  - subst kw. unfold merge. simpl. py_keys. unfold only. simpl. py_keys. unfold optional. simpl. by py_keys.
Qed.
End reload.

(** ** File names *)

Lemma sapp_cancel a b c : a +:+ b = a +:+ c → b = c.
Proof. induction a as [|x a IH]; [done|]. intros [= He]. by apply IH. Qed.

Lemma state_filename_index base i j c d : 0 <= i → 0 <= j → state_filename base i c = state_filename base j d → i = j.
Proof.
  intros Hi Hj He. unfold state_filename in He. apply sapp_cancel, (sapp_cancel "_step_") in He.
  apply (f_equal (sspan is_digit)) in He.
  assert (∀ z, 0 <= z → sforall is_digit (z_to_string z) = true) as Hd.
  { intros z (u & -> & _)%z_to_string_nonneg. apply uint_text_digits. }
  erewrite !sspan_app in He by (try reflexivity; by apply Hd). apply (f_equal fst) in He. by apply z_to_string_inj.
Qed.

Lemma sapp_nonempty a c s : sempty (a +:+ String c s) = false.
Proof. by destruct a. Qed.

Lemma state_filename_nonempty base i c : sempty (state_filename base i c) = false.
Proof. unfold state_filename. apply sapp_nonempty. Qed.

(** A name that does not end like the tensor files is none of them. *)
Lemma slast_app a b : sempty b = false → slast (a +:+ b) = slast b.
Proof.
  intros Hb. induction a as [|x a IH]; [done|]. change (String x a +:+ b) with (String x (a +:+ b)). cbn [slast].
  destruct (a +:+ b) eqn:He; [|exact IH]. destruct a; [|done]. change ("" +:+ b) with b in He. by rewrite He in Hb.
Qed.

Lemma json_no_state_file base i c f : slast f = "n" → f ≠ state_filename base i c.
Proof.
  intros Hl ->. unfold state_filename in Hl.
  assert (sempty (registry_name c +:+ ".safetensors") = false) as Hr by (by destruct c).
  rewrite (slast_app base) in Hl by done. rewrite (slast_app "_step_") in Hl by (apply sapp_nonempty).
  rewrite (slast_app (z_to_string i)) in Hl by done. rewrite (slast_app "_") in Hl by done. by rewrite slast_app in Hl.
Qed.

(** ** The round trip *)

Lemma ok_bind {A B} (a : A) (f : A → res B) : Ok a ≫= f = f a.
Proof. done. Qed.

Section round_trip.
Context {Tok : Type} (interpolate : tensor → Z → Z → res tensor) (q_round : Qc → Qc).
Context (encode : Tok → list string → Z → string → string → bool → res (tensor * tensor)).
Context (hub : string → string → res file) (snapshot : string → directory).
Context (file_order : dict string tensor → dict string tensor) (order_perm : ∀ d, Permutation (file_order d) d).
Implicit Types (s : step Tok) (steps : list (step Tok)).

(** What [save_pretrained] leaves for a step *)
Definition entry_for (base : string) (dir : directory) (s : step Tok) (j : json) : Prop :=
  match step_state s with
  | [] => j = JObj (step_entry s)
  | state => ∃ k c, j = JObj (step_entry s ++ [("state_file", JStr (state_filename base k c))])%list ∧
               dir !! state_filename base k c = Some (FTensors state)
  end.

Lemma save_steps_spec base i steps dir dir' l :
  0 <= i → save_steps base i steps dir = (dir', l) →
  Forall2 (entry_for base dir') steps l ∧ ∀ name, (∀ j c, i <= j → name ≠ state_filename base j c) → dir' !! name = dir !! name.
Proof.
  revert i dir dir' l. induction steps as [|s steps IH]; intros i dir dir' l Hi; simpl; [by intros [= <- <-]|].
  destruct (step_state s) as [|p state] eqn:Hst.
  - destruct (save_steps base (i + 1) steps dir) as [d1 l1] eqn:Hs. intros [= <- <-].
    destruct (IH (i + 1) _ _ _ ltac:(lia) Hs) as [Hf Hd]. split.
    + constructor; [|done]. unfold entry_for. by rewrite Hst.
    + intros name Hn. apply Hd. intros j c Hj. apply Hn. lia.
  - destruct (save_steps base (i + 1) steps _) as [d1 l1] eqn:Hs. intros [= <- <-].
    destruct (IH (i + 1) _ _ _ ltac:(lia) Hs) as [Hf Hd]. split.
    + constructor; [|done]. unfold entry_for. rewrite Hst. exists i, (class_of s). split; [done|].
      rewrite Hd, lookup_insert_eq; [done|]. intros j c Hj He. apply state_filename_index in He; lia.
    + intros name Hn. rewrite Hd; [|intros j c Hj; apply Hn; lia]. apply lookup_insert_ne. intros He. by apply (Hn i (class_of s)).
Qed.

Ltac entry_simpl Hr :=
  unfold build_step, step_entry; cbn [app dget entry_of mbind res_bind]; py_keys; rewrite Hr; cbn [mbind res_bind];
  unfold config_of; cbn [app dget]; py_keys; cbn [dget default from_option id mbind res_bind].

Lemma rebuild_step r kws base dir s j :
  entry_for base dir s j → registry_get r (registry_name (class_of s)) = Ok (class_of s) →
  kw_for s (default [] (dget kws (registry_name (class_of s)))) → saved_whole s →
  ∃ u, (e ← entry_of j; build_step hub file_order r [] kws (InDirectory dir) dir e) = Ok u ∧ same_step s u.
Proof.
  intros Hj Hr Hk Hw. set (kw := default [] (dget kws (registry_name (class_of s)))) in *.
  assert (∃ s0, instantiate (class_of s) (merged s kw) = Ok s0 ∧ (step_state s = [] → same_step s s0) ∧
    ∀ flat, Permutation flat (step_state s) → ∃ u, step_load s0 flat = Ok u ∧ (step_state s ≠ [] → same_step s u)) as (s0 & Hi & H0 & Hl).
  { assert ((∃ i n, s = SNormalizer i n) ∨ ∀ i n, s ≠ SNormalizer i n) as [(i & n & ->)|Hn] by (destruct s; naive_solver).
    - destruct (rebuild_normalizer i n kw Hk Hw) as (device & Hdev & Hi). exists (SNormalizer i (with_stats n [] device)).
      destruct Hw as (_ & Hst & Hp). split; [exact Hi|]. split.
      + intros He. right. exists i, n, (with_stats n [] device). split; [done|]. split; [done|]. by apply no_state_same.
      + intros flat Hperm. destruct (reload_same n device flat Hst Hp Hdev Hperm) as (st & Hs & Hsame). simpl. unfold normalizer_load. simpl.
        rewrite Hs. simpl. eexists. split; [done|]. intros _. right. by exists i, n, (with_stats n st device).
    - exists s. split; [by apply rebuild_plain|]. split; [by left|]. intros flat _. exists s. split; [|by left].
      destruct s; try done. by destruct (Hn inverse n). }
  change (instantiate (class_of s) (merge (prod_map id AJson <$> step_config s) kw) = Ok s0) in Hi.
  unfold entry_for in Hj. destruct (step_state s) as [|p state] eqn:Hst.
  - subst j. exists s0. split; [|by apply H0]. entry_simpl Hr. fold kw. by rewrite Hi.
  - destruct Hj as (k & c & -> & Hf). destruct (Hl (file_order (p :: state))) as (u & Hu & Hsame); [apply order_perm|].
    exists u. split; [|by apply Hsame]. entry_simpl Hr. fold kw. rewrite Hi. simpl. rewrite state_filename_nonempty, Hf. simpl. exact Hu.
Qed.

Lemma rebuild_all r kws base dir steps l :
  Forall2 (entry_for base dir) steps l →
  (∀ s, s ∈ steps → registry_get r (registry_name (class_of s)) = Ok (class_of s) ∧
    kw_for s (default [] (dget kws (registry_name (class_of s)))) ∧ saved_whole s) →
  ∃ us, rmap (λ j, e ← entry_of j; build_step hub file_order r [] kws (InDirectory dir) dir e) l = Ok us ∧ Forall2 same_step steps us.
Proof.
  intros He. induction He as [|s j ss l Hj He IH]; intros Hok; [by exists []|]. destruct (Hok s) as (Hr & Hk & Hw); [by left|].
  destruct IH as (us & Hus & Hsame); [intros s' Hin; apply Hok; by right|].
  destruct (rebuild_step r kws base dir s j) as (u & Hu & Hsu); [done..|]. exists (u :: us). split; [|by constructor].
  cbn [rmap]. rewrite Hu. simpl. by rewrite Hus.
Qed.

Lemma same_step_call s u t : same_step s u → step_call interpolate q_round encode s t = step_call interpolate q_round encode u t.
Proof. intros [->|(i & n & m & -> & -> & Hs)]; [done|]. simpl. by apply normalizer_call_ext. Qed.

Lemma same_steps_run steps us t : Forall2 same_step steps us → run_steps interpolate q_round encode steps t = run_steps interpolate q_round encode us t.
Proof.
  intros Hs. revert t. induction Hs as [|s u steps us Hsu Hs IH]; intros t; [done|]. simpl. rewrite (same_step_call _ _ _ Hsu).
  destruct (step_call _ _ _ u t); simpl; [apply IH|done].
Qed.

(** The files of a saved pipeline, in a directory that may hold others *)
Definition holds (dir : directory) (f base name : string) (steps : list (step Tok)) : Prop :=
  ∃ l, dir !! f = Some (FJson (JObj [("name", JStr name); ("steps", JList l)])) ∧ Forall2 (entry_for base dir) steps l.

Lemma save_holds {I O} (p : pipeline Tok I O) config_filename dir dir' f :
  save_pretrained p config_filename dir = (dir', f) → (∀ i c, f ≠ state_filename (sanitized (pl_name p)) i c) →
  f = default (sanitized (pl_name p) +:+ ".json") config_filename ∧ holds dir' f (sanitized (pl_name p)) (pl_name p) (pl_steps p) ∧
  ∀ name, name ≠ f → (∀ i c, name ≠ state_filename (sanitized (pl_name p)) i c) → dir' !! name = dir !! name.
Proof.
  unfold save_pretrained. set (base := sanitized (pl_name p)). destruct (save_steps base 0 (pl_steps p) dir) as [d1 l] eqn:Hs.
  intros [= <- <-]. set (f := default _ config_filename). intros Hf. destruct (save_steps_spec base 0 (pl_steps p) dir d1 l ltac:(lia) Hs) as [He Hd].
  split; [done|]. split.
  - exists l. split; [apply lookup_insert_eq|]. eapply Forall2_impl; [exact He|]. intros s j. unfold entry_for. destruct (step_state s); [done|].
    intros (k & c & -> & Hk). exists k, c. split; [done|]. rewrite lookup_insert_ne; [done|]. apply Hf.
  - intros name Hn Hst. rewrite lookup_insert_ne by done. apply Hd. intros i c _. apply Hst.
Qed.

Lemma holds_ext dir dir' f base name steps :
  holds dir f base name steps → dir' !! f = dir !! f → (∀ i c, dir' !! state_filename base i c = dir !! state_filename base i c) →
  holds dir' f base name steps.
Proof.
  intros (l & Hf & He) Hdf Hds. exists l. split; [by rewrite Hdf|]. eapply Forall2_impl; [exact He|]. intros s j. unfold entry_for.
  destruct (step_state s); [done|]. intros (k & c & -> & Hk). exists k, c. by rewrite Hds.
Qed.

(** Each step can be made again from its file and the given arguments. *)
Definition remakes (r : dict string step_class) (kws : dict string (dict string (arg Tok))) (s : step Tok) : Prop :=
  registry_get r (registry_name (class_of s)) = Ok (class_of s) ∧ kw_for s (default [] (dget kws (registry_name (class_of s)))) ∧ saved_whole s.

Lemma load_held {I O} r kws dir f base name steps (i : I → res transition) (o : transition → res O) :
  holds dir f base name steps → Forall (remakes r kws) steps →
  ∃ us, from_pretrained hub snapshot file_order r (InDirectory dir) f None [] kws i o = Ok (Pipeline I O us name i o) ∧ Forall2 same_step steps us.
Proof.
  intros (l & Hf & He) Hok. destruct (rebuild_all r kws base dir steps l) as (us & Hus & Hsame); [done|by apply Forall_forall|].
  exists us. split; [|done]. unfold from_pretrained, load_config. rewrite Hf. set (d := [("name", JStr name); ("steps", JList l)]).
  change (of_option FileNotFoundError (Some (FJson (JObj d)))) with (Ok (FJson (JObj d))). rewrite ok_bind.
  change (read_json (FJson (JObj d))) with (Ok (JObj d)). rewrite !ok_bind. change (entry_of (JObj d)) with (Ok d). rewrite ok_bind.
  subst d. cbn [dget]. closed_keys. by rewrite ok_bind, Hus.
Qed.

(** C12: Saving and loading keep the behaviour.  A pipeline is written with
    [save_pretrained], to a file that is none of its tensor files, and read back
    with [from_pretrained] from the same directory.  Its classes are registered
    under their names; what its files do not hold is given again as step
    arguments: the tokenizer of a tokenizer step, the bins and the width of a
    prepared state and the device and element type of a normalizer unless they
    are the constructor's defaults, the device and type of a device step unless
    reading their text gives them back; and statistics have names without dots
    and are placed as the constructor places them.  Then it loads without
    error, has its name, and answers every input as the original, whatever else
    the directory held and in whatever order tensor files list their
    tensors. *)
Theorem pipeline_round_trip {I O} (p : pipeline Tok I O) r kws config_filename dir dir' f :
  save_pretrained p config_filename dir = (dir', f) → (∀ i c, f ≠ state_filename (sanitized (pl_name p)) i c) →
  Forall (remakes r kws) (pl_steps p) →
  ∃ q, from_pretrained hub snapshot file_order r (InDirectory dir') f None [] kws (pl_in p) (pl_out p) = Ok q ∧ pl_name q = pl_name p ∧
    ∀ data, run interpolate q_round encode q data = run interpolate q_round encode p data.
Proof.
  intros Hs Hf Hok. destruct (save_holds p config_filename dir dir' f Hs Hf) as (_ & Hh & _).
  destruct (load_held r kws dir' f _ _ _ (pl_in p) (pl_out p) Hh Hok) as (us & Hl & Hsame). eexists. split; [exact Hl|]. split; [done|].
  intros data. unfold run. simpl. destruct (pl_in p data) as [t|]; [|done]. simpl. by rewrite (same_steps_run _ _ t Hsame).
Qed.
End round_trip.

(** ** An instance *)

Definition registry_of (cs : list step_class) : dict string step_class := (λ c, (registry_name c, c)) <$> cs.
Definition zero_ids (texts : list string) (len : Z) : tensor := NdArray [Z.of_nat (List.length texts); len] Int64 "cpu" (λ _, 0%Qc).
Definition encode_zeros (_ : unit) (texts : list string) (len : Z) (_ _ : string) (_ : bool) : res (tensor * tensor) :=
  Ok (zero_ids texts len, zero_ids texts len).
Definition no_interpolation (_ : tensor) (_ _ : Z) : res tensor := Err RuntimeError.
Definition no_hub (_ _ : string) : res file := Err FileNotFoundError.
Definition no_snapshot (_ : string) : directory := ∅.

Definition one_stat (q : Qc) : tensor := NdArray [1] Float32 "cpu" (λ _, q).
Definition kept_stats : stats := [("action", [("mean", one_stat 1); ("std", one_stat 2)])]%Qc.
Definition kept_normalizer : normalizer :=
  normalizer_init [("action", PolicyFeature FT_ACTION [])] [(FT_ACTION, MEAN_STD)] (Some kept_stats) (Some "cuda:0") BFloat16 default_eps.
Definition kept_tokenizer : tokenizer_step unit := TokenizerStep (Some tt) 48 None "task" "right" "max_length" true.
Definition kept_pipeline : pipeline unit transition transition :=
  Pipeline transition transition [SAddBatch; SNormalizer false kept_normalizer; SPrepareState 128 14; STokenizer kept_tokenizer] "my pipeline" Ok Ok.
Definition kept_kwargs : dict string (dict string (arg unit)) := [("tokenizer_processor", [("tokenizer", ATokenizer tt)]);
   ("normalizer_processor", [("device", AJson (JStr "cuda:0")); ("dtype", ADtype BFloat16)]);
   (registry_name CPrepareState, [("num_bins", AJson (JInt 128)); ("max_state_dim", AJson (JInt 14))])].
Definition kept_registry : dict string step_class := registry_of [CNormalizer; CPrepareState; CTokenizer; CAddBatch].
Abbreviation kept := (save_pretrained kept_pipeline None ∅).

Lemma kept_whole : stats_wf (nz_stats kept_normalizer) ∧ placed kept_normalizer.
Proof.
  split.
  - split; [by apply (bool_decide_unpack _)|]. intros name sub [= -> ->]%list_elem_of_singleton.
    split; [by apply (bool_decide_unpack _)|]. intros st t Hin. repeat (apply elem_of_cons in Hin as [[= -> _]|Hin]; [done|]). by apply not_elem_of_nil in Hin.
  - intros name st t. unfold lookup2. simpl. destruct (decide _); [|done]. simpl. destruct (decide _); [by intros [= <-]|].
    destruct (decide _); [by intros [= <-]|done].
Qed.

Lemma kept_remakes : Forall (remakes kept_registry kept_kwargs) (pl_steps kept_pipeline).
Proof.
  destruct kept_whole as [Hs Hp]. repeat (constructor; [split; [reflexivity|split]|]); [done|done| | |by right|done|done|done|constructor].
  - exists [("device", AJson (JStr "cuda:0"))], [("dtype", ADtype BFloat16)]. split; [done|]. split; [by left|by right].
  - split; [by apply (bool_decide_unpack _)|]. by split.
Qed.

Lemma pipeline_round_trip_witness :
  ∃ q, from_pretrained no_hub no_snapshot reverse kept_registry (InDirectory kept.1) kept.2 None [] kept_kwargs Ok Ok = Ok q ∧ pl_name q = "my pipeline" ∧
    ∀ data, run no_interpolation id encode_zeros q data = run no_interpolation id encode_zeros kept_pipeline data.
Proof.
  refine (pipeline_round_trip no_interpolation id encode_zeros no_hub no_snapshot reverse (@reverse_Permutation _) kept_pipeline
    kept_registry kept_kwargs None ∅ kept.1 kept.2 _ _ kept_remakes).
  - apply surjective_pairing.
  - intros i c. by apply json_no_state_file.
Defined.
