(* ===== verification/StepProps.v ===== *)
(** * What the steps do ([processing/steps/], [processing/ops/])

    Unnormalizing undoes normalizing; images are resized to their target
    without distortion; states fall into their bins. *)

From Stdlib Require Import Ascii String.
From S2P Require Import Prelude PyStr Transition ProcessorSteps.
Open Scope string_scope.
Open Scope Z_scope.

(** ** Broadcasting *)

Lemma broadcast_dim_id d : broadcast_dim d d = Ok d.
Proof. unfold broadcast_dim. by rewrite Z.eqb_refl. Qed.

Lemma broadcast_rev_id a : broadcast_rev a a = Ok a.
Proof. induction a as [|d a IH]; [done|]. simpl. rewrite broadcast_dim_id. simpl. by rewrite IH. Qed.

Lemma broadcast_id a : broadcast a a = Ok a.
Proof. unfold broadcast. rewrite broadcast_rev_id. simpl. by rewrite reverse_involutive. Qed.

(** An operand of shape [b] stretches to [a]. *)
Definition fits (b a : list Z) : Prop := broadcast a b = Ok a.

Lemma view_index_id shape idx : in_shape shape idx → view_index shape idx = idx.
Proof.
  intros Hi. unfold view_index. rewrite (Forall2_length _ _ _ Hi), Nat.sub_diag, drop_0.
  induction Hi as [|d i shape idx Hd Hi IH]; [done|]. simpl. rewrite IH. destruct (Z.eqb_spec d 1); [|done]. f_equal. lia.
Qed.

Lemma view_index_twice shape idx : view_index shape (view_index shape idx) = view_index shape idx.
Proof.
  unfold view_index at 1.
  assert (List.length (view_index shape idx) - List.length shape = 0)%nat as -> by (unfold view_index; rewrite length_zip_with; lia).
  rewrite drop_0. unfold view_index. generalize (drop (List.length idx - List.length shape) idx) as l.
  induction shape as [|d s IH]; intros [|i l]; [done..|]. simpl. rewrite IH. by destruct (d =? 1).
Qed.

(** ** Normalization *)

Definition mode_stats (mode : normalization_mode) : list string :=
  match mode with
  | MEAN_STD => ["mean"; "std"] | MIN_MAX => ["min"; "max"] | QUANTILES => ["q01"; "q99"] | QUANTILE10 => ["q10"; "q90"] | IDENTITY => []
  end.

Definition stat_at (s : dict string tensor) (k : string) (v : list Z) : Qc := match dget s k with Some t => t_at t v | None => 0%Qc end.

(** What a mode divides by *)
Definition divisor (mode : normalization_mode) (s : dict string tensor) (eps : Qc) (v : list Z) : Qc :=
  match mode with
  | MEAN_STD => stat_at s "std" v + eps
  | MIN_MAX => stat_at s "max" v - stat_at s "min" v + eps
  | QUANTILES => stat_at s "q99" v - stat_at s "q01" v + eps
  | QUANTILE10 => stat_at s "q90" v - stat_at s "q10" v + eps
  | IDENTITY => 1
  end%Qc.

(** Statistics of one element type that stretch over a tensor, on its device *)
Definition operand (D : dtype) (x : tensor) (sh : list Z) (t : tensor) : Prop := t_shape t = sh ∧ t_dtype t = D ∧ t_device t = t_device x.

Definition has_stats (D : dtype) (x : tensor) (sh : list Z) (mode : normalization_mode) (s : dict string tensor) : Prop :=
  is_floating D = true ∧ fits sh (t_shape x) ∧ Forall (λ k, ∃ t, dget s k = Some t ∧ operand D x sh t) (mode_stats mode).

(** The element type of an operation on a tensor of type [dx] and shape
    [shape] and an operand of type [D] and shape [sh] *)
Definition widened (D dx : dtype) (shape sh : list Z) : dtype :=
  match shape, sh with
  | _ :: _, [] => if is_floating D && negb (is_floating dx) then D else dx
  | _, _ => promote_types dx D
  end.

Lemma widened_refl D shape sh : widened D D shape sh = D.
Proof. by destruct D, shape, sh. Qed.

Lemma widened_twice D dx shape sh : widened D (widened D dx shape sh) shape sh = widened D dx shape sh.
Proof. by destruct D, dx, shape, sh. Qed.

Lemma widened_floating D dx shape sh : is_floating D = true → is_floating (widened D dx shape sh) = true.
Proof. by destruct D, dx, shape, sh. Qed.

Lemma widened_cases D dx shape sh : is_floating D = true → is_floating dx = true →
  widened D dx shape sh = dx ∨ widened D dx shape sh = promote_types dx D.
Proof. intros HD Hx. destruct shape, sh; cbn [widened]; [by right..| |by right]. rewrite HD, Hx. by left. Qed.

Lemma pointwise_operand f D x sh t :
  operand D x sh t → fits sh (t_shape x) →
  pointwise f x t = Ok (NdArray (t_shape x) (widened D (t_dtype x) (t_shape x) sh) (t_device x)
    (λ idx, f (t_at x (view_index (t_shape x) idx)) (t_at t (view_index sh idx)))).
Proof.
  intros (Hs & Hd & Hv) Hf. unfold pointwise, common_device. rewrite Hv, String.eqb_refl. simpl. rewrite Hs, Hf. simpl.
  unfold result_type, ndim. rewrite Hd, Hs. do 2 f_equal. destruct (t_shape x) as [|a xs], sh as [|b sh]; try done.
  unfold fits, broadcast in Hf. apply bind_ok in Hf as (u & Hu & [= Hr]). apply (f_equal reverse) in Hr. rewrite reverse_involutive in Hr. subst u.
  destruct (reverse (b :: sh)) eqn:Hb; [|discriminate]. apply (f_equal reverse) in Hb. by rewrite reverse_involutive in Hb.
Qed.

Lemma has_stats_pair D x sh mode s lo hi :
  has_stats D x sh mode s → mode_stats mode = [lo; hi] →
  ∃ l h, dget s lo = Some l ∧ dget s hi = Some h ∧ operand D x sh l ∧ operand D x sh h.
Proof.
  intros (_ & _ & Hf) Hm. rewrite Hm in Hf. apply Forall_cons in Hf as [(l & ? & ?) Hf]. apply Forall_cons in Hf as [(h & ? & ?) _].
  by exists l, h.
Qed.

(** The spread of two statistics, as an operand of [x] *)
Lemma spread_operand D x sh s lo hi l h eps :
  is_floating D = true → dget s lo = Some l → dget s hi = Some h → operand D x sh l → operand D x sh h →
  ∃ d, spread lo hi s eps = Ok d ∧ operand D x sh d ∧ ∀ idx, t_at d (view_index sh idx) = (t_at h (view_index sh idx) - t_at l (view_index sh idx) + eps)%Qc.
Proof.
  intros HD Hl Hh Hul (Hs & Hd & Hv). unfold spread, stat. rewrite Hl, Hh. simpl. rewrite (pointwise_operand _ D h sh l).
  - simpl. rewrite Hd, widened_refl. unfold with_float. cbn [t_dtype]. rewrite HD. eexists. split; [done|]. split; [done|]. intros idx. simpl. by rewrite Hs, !view_index_twice.
  - destruct Hul as (? & ? & Hlv). split; [done|]. split; [done|]. by rewrite Hlv, Hv.
  - unfold fits. rewrite Hs. apply broadcast_id.
Qed.

Section normalize.
Context (D : dtype) (x : tensor) (sh : list Z) (s : dict string tensor) (eps : Qc).

(** The value a field normalizes to at an index *)
Definition normalized_at (mode : normalization_mode) (idx : list Z) : Qc :=
  let v := view_index sh idx in
  let scaled lo := ((t_at x idx - stat_at s lo v) / divisor mode s eps v * q_of_Z 2 - 1)%Qc in
  match mode with
  | MEAN_STD => (t_at x idx - stat_at s "mean" v) / divisor mode s eps v
  | MIN_MAX => scaled "min"
  | QUANTILES => scaled "q01"
  | QUANTILE10 => scaled "q10"
  | IDENTITY => t_at x idx
  end%Qc.

(** The element type the field has after an operation with a statistic *)
Definition wide : dtype := widened D (t_dtype x) (t_shape x) sh.

(** A tensor of the field's shape and device with the given values *)
Definition valued (y : tensor) (f : list Z → Qc) : Prop :=
  t_shape y = t_shape x ∧ t_device y = t_device x ∧ ∀ idx, in_shape (t_shape x) idx → t_at y idx = f idx.

Definition like (y : tensor) (f : list Z → Qc) : Prop := valued y f ∧ t_dtype y = wide.

Lemma valued_self : valued x (t_at x).
Proof. by repeat split. Qed.

Lemma valued_operand y f t : valued y f → operand D x sh t → operand D y sh t.
Proof. intros (_ & Hv & _) (? & ? & ?). repeat split; try done. by rewrite Hv. Qed.

(** An operation on the field, or a tensor like it, and a statistic *)
Lemma pointwise_like g y f t h :
  valued y f → t_dtype y = t_dtype x ∨ t_dtype y = wide → operand D x sh t → fits sh (t_shape x) →
  (∀ idx, t_at t (view_index sh idx) = h (view_index sh idx)) →
  ∃ z, pointwise g y t = Ok z ∧ like z (λ idx, g (f idx) (h (view_index sh idx))).
Proof.
  intros Hy Hty Ht Hf Hh. pose proof (valued_operand y f t Hy Ht) as Hu. destruct Hy as (Hs & Hv & Ha).
  rewrite (pointwise_operand g D y sh t) by (rewrite ?Hs; done). eexists. split; [done|]. split.
  - split; [done|]. split; [done|]. intros idx Hi. simpl. rewrite Hs, view_index_id by done. by rewrite Ha, Hh.
  - simpl. rewrite Hs. unfold wide in *. destruct Hty as [-> | ->]; [done|apply widened_twice].
Qed.

Lemma with_float_like g y f : is_floating D = true → like y f → like (with_float g y) (λ idx, g (f idx)).
Proof.
  intros HD [(Hs & Hv & Ha) Hd]. split; [repeat split; [done|done|]; intros idx Hi; simpl; by rewrite Ha|].
  simpl. unfold wide in *. by rewrite Hd, widened_floating.
Qed.

Lemma like_ext y f g : like y f → (∀ idx, in_shape (t_shape x) idx → f idx = g idx) → like y g.
Proof. intros [(Hs & Hv & Ha) Hd] He. split; [|done]. repeat split; try done. intros idx Hi. by rewrite Ha, He. Qed.

(** A statistic plus a number stays an operand. *)
Lemma with_float_operand g t : is_floating D = true → operand D x sh t → operand D x sh (with_float g t).
Proof. intros HD (Hs & Hd & Hv). repeat split; [done|simpl; by rewrite Hd, HD|done]. Qed.

Lemma stat_at_get k t v : dget s k = Some t → stat_at s k v = t_at t v.
Proof. unfold stat_at. by intros ->. Qed.

(** The ranged modes, by the names of their two statistics *)
Lemma normalize_ranged lo hi l h :
  is_floating D = true → fits sh (t_shape x) → dget s lo = Some l → dget s hi = Some h → operand D x sh l → operand D x sh h →
  ∃ y, (l ← stat s lo; n ← pointwise Qcminus x l; d ← spread lo hi s eps; q ← pointwise Qcdiv n d; Ok (with_float (λ v, v * q_of_Z 2 - 1)%Qc q)) = Ok y ∧
    like y (λ idx, let v := view_index sh idx in
      ((t_at x idx - stat_at s lo v) / (stat_at s hi v - stat_at s lo v + eps) * q_of_Z 2 - 1)%Qc).
Proof.
  intros HD Hf Hl Hh Hul Huh. unfold stat at 1. rewrite Hl. simpl.
  destruct (pointwise_like Qcminus x (t_at x) l (stat_at s lo) valued_self) as (n & -> & Hn & Hn'); [by left|done|done|intros idx; symmetry; by apply stat_at_get|]. simpl.
  destruct (spread_operand D x sh s lo hi l h eps HD Hl Hh Hul Huh) as (d & -> & Hud & Hd). simpl.
  destruct (pointwise_like Qcdiv n _ d (λ v, stat_at s hi v - stat_at s lo v + eps)%Qc Hn (or_intror Hn') Hud Hf) as (q & -> & Hq).
  { intros idx. by rewrite Hd, (stat_at_get hi h), (stat_at_get lo l). }
  simpl. eexists. split; [done|]. exact (with_float_like (λ v, v * q_of_Z 2 - 1)%Qc q _ HD Hq).
Qed.

Lemma unnormalize_ranged y f lo hi l h :
  is_floating D = true → like y f → fits sh (t_shape x) → dget s lo = Some l → dget s hi = Some h → operand D x sh l → operand D x sh h →
  ∃ z, (d ← spread lo hi s eps; p ← pointwise Qcmult (with_float (λ v, (v + 1) / q_of_Z 2)%Qc y) d; l ← stat s lo; pointwise Qcplus p l) = Ok z ∧
    like z (λ idx, let v := view_index sh idx in
      ((f idx + 1) / q_of_Z 2 * (stat_at s hi v - stat_at s lo v + eps) + stat_at s lo v)%Qc).
Proof.
  intros HD Hy Hf Hl Hh Hul Huh. destruct (spread_operand D x sh s lo hi l h eps HD Hl Hh Hul Huh) as (d & -> & Hud & Hd). simpl.
  destruct (with_float_like (λ v, (v + 1) / q_of_Z 2)%Qc y f HD Hy) as [Hy1 Hy2].
  destruct (pointwise_like Qcmult _ _ d (λ v, stat_at s hi v - stat_at s lo v + eps)%Qc Hy1 (or_intror Hy2) Hud Hf) as (p & -> & Hp & Hp').
  { intros idx. by rewrite Hd, (stat_at_get hi h), (stat_at_get lo l). }
  simpl. unfold stat. rewrite Hl. simpl.
  destruct (pointwise_like Qcplus p _ l (stat_at s lo) Hp (or_intror Hp') Hul Hf) as (z & -> & Hz); [intros idx; symmetry; by apply stat_at_get|]. by exists z.
Qed.

Lemma normalize_mean : has_stats D x sh MEAN_STD s → ∃ y, normalize_field x MEAN_STD s eps = Ok y ∧ like y (normalized_at MEAN_STD).
Proof.
  intros Hst. destruct (has_stats_pair D x sh MEAN_STD s "mean" "std" Hst eq_refl) as (m & d & Hm & Hd & Hum & Hud). destruct Hst as (HD & Hf & _).
  cbn [normalize_field]. unfold stat. rewrite Hm. simpl.
  destruct (pointwise_like Qcminus x (t_at x) m (stat_at s "mean") valued_self) as (n & -> & Hn & Hn'); [by left|done|done|intros idx; symmetry; by apply stat_at_get|].
  simpl. rewrite Hd. simpl.
  destruct (pointwise_like Qcdiv n _ (with_float (λ v, v + eps)%Qc d) (divisor MEAN_STD s eps) Hn (or_intror Hn')) as (q & Hq & Hlq);
    [by apply with_float_operand|done| |by exists q].
  intros idx. simpl. by rewrite (stat_at_get "std" d).
Qed.

Lemma unnormalize_mean y f :
  has_stats D x sh MEAN_STD s → like y f →
  ∃ z, unnormalize_field y MEAN_STD s eps = Ok z ∧
    like z (λ idx, f idx * divisor MEAN_STD s eps (view_index sh idx) + stat_at s "mean" (view_index sh idx))%Qc.
Proof.
  intros Hst [Hy Hy']. destruct (has_stats_pair D x sh MEAN_STD s "mean" "std" Hst eq_refl) as (m & d & Hm & Hd & Hum & Hud). destruct Hst as (HD & Hf & _).
  cbn [unnormalize_field]. unfold stat. rewrite Hd. simpl.
  destruct (pointwise_like Qcmult y f (with_float (λ v, v + eps)%Qc d) (divisor MEAN_STD s eps) Hy (or_intror Hy')) as (p & -> & Hp & Hp');
    [by apply with_float_operand|done| |].
  - intros idx. simpl. by rewrite (stat_at_get "std" d).
  - simpl. rewrite Hm. simpl.
    destruct (pointwise_like Qcplus p _ m (stat_at s "mean") Hp (or_intror Hp') Hum Hf) as (z & -> & Hz); [intros idx; symmetry; by apply stat_at_get|]. by exists z.
Qed.

Lemma normalize_field_like mode : mode ≠ IDENTITY →
  has_stats D x sh mode s → ∃ y, normalize_field x mode s eps = Ok y ∧ like y (normalized_at mode).
Proof.
  intros Hm Hst. pose proof Hst as (HD & Hf & _). destruct mode; [|by apply normalize_mean|done| |];
    (destruct (has_stats_pair D x sh _ s _ _ Hst eq_refl) as (l & h & Hl & Hh & Hul & Huh));
    destruct (normalize_ranged _ _ l h HD Hf Hl Hh Hul Huh) as (y & Hy & Hly); exists y; (split; [exact Hy|exact Hly]).
Qed.

(** Unnormalizing what a field normalizes to gives the field's values back. *)
Lemma unnormalize_field_like mode y : mode ≠ IDENTITY →
  has_stats D x sh mode s → (∀ idx, in_shape (t_shape x) idx → divisor mode s eps (view_index sh idx) ≠ 0%Qc) →
  like y (normalized_at mode) → ∃ z, unnormalize_field y mode s eps = Ok z ∧ like z (t_at x).
Proof.
  intros Hm Hst Hne Hy. pose proof Hst as (HD & Hf & _).
  destruct mode; [|destruct (unnormalize_mean y _ Hst Hy) as (z & Hz & Hlz)|done| |];
    try (destruct (has_stats_pair D x sh _ s _ _ Hst eq_refl) as (l & h & Hl & Hh & Hul & Huh);
         destruct (unnormalize_ranged y _ _ _ l h HD Hy Hf Hl Hh Hul Huh) as (z & Hz & Hlz));
    (exists z; split; [exact Hz|]; apply (like_ext z _ _ Hlz); intros idx Hi; specialize (Hne idx Hi); simpl in *; field; done).
Qed.
End normalize.

(** ** A normalizer and its inverse *)

(** An entry that came back: a tensor has its shape, device and values, and an
    element type that is its own or the one it takes together with type [D];
    everything else is equal. *)
Definition restored (D : dtype) (x y : tensor) : Prop :=
  t_shape x = t_shape y ∧ t_device x = t_device y ∧ (∀ idx, in_shape (t_shape x) idx → t_at x idx = t_at y idx) ∧
  (t_dtype x = t_dtype y ∨ t_dtype x = promote_types (t_dtype y) D).

Definition came_back (D : dtype) (a b : option entry) : Prop :=
  match a, b with Some (ETensor x), Some (ETensor y) => restored D x y | _, _ => a = b end.

Lemma came_back_refl D a : came_back D a a.
Proof. destruct a as [[]|]; try done. repeat split; by left. Qed.

Definition mode_for (n : normalizer) (feat : policy_feature) : normalization_mode := default IDENTITY (dget (nz_norm_map n) (pf_type feat)).

(** A feature that can be normalized in [t]: its statistics, if there are any,
    have the normalizer's element type and stretch over the field, which is of
    a floating type, and none of its divisors vanishes. *)
Definition ready (n : normalizer) (t : transition) (name : string) (feat : policy_feature) : Prop :=
  match field_of (pf_type feat), dget (nz_stats n) name with
  | Some field, Some (p :: s) =>
      mode_for n feat = IDENTITY ∨
      match dget t field with
      | None => True
      | Some e => ∃ x sh, e = ETensor x ∧ is_floating (t_dtype x) = true ∧ has_stats (nz_dtype n) x sh (mode_for n feat) (p :: s) ∧
                    ∀ idx, in_shape (t_shape x) idx → divisor (mode_for n feat) (p :: s) (nz_eps n) (view_index sh idx) ≠ 0%Qc
      end
  | _, _ => True
  end.

Lemma field_of_inj f g k : field_of f = Some k → field_of g = Some k → f = g.
Proof. destruct f, g; intros Hf Hg; try done; rewrite <- Hf in Hg; by vm_compute in Hg. Qed.

Definition touches (feat : policy_feature) (key : string) : Prop := field_of (pf_type feat) = Some key.

Lemma feature_undone n name feat out :
  ready n out name feat →
  ∃ out1, apply_feature n false name feat out = Ok out1 ∧ (∀ key, ¬ touches feat key → dget out1 key = dget out key) ∧
    ∀ back, (∀ key, touches feat key → dget back key = dget out1 key) →
      ∃ back1, apply_feature n true name feat back = Ok back1 ∧ (∀ key, ¬ touches feat key → dget back1 key = dget back key) ∧
        ∀ key, touches feat key → came_back (nz_dtype n) (dget back1 key) (dget out key).
Proof.
  unfold ready, touches, apply_feature. fold (mode_for n feat). intros Hr.
  assert (∀ back, (∀ key, field_of (pf_type feat) = Some key → dget back key = dget out key) →
    ∀ key, field_of (pf_type feat) = Some key → came_back (nz_dtype n) (dget back key) (dget out key)) as Hid.
  { intros back Hb key Hk. rewrite (Hb key Hk). apply came_back_refl. }
  destruct (decide (mode_for n feat = IDENTITY)) as [Hm|Hm]; [exists out; split; [done|]; split; [done|]; intros back Hb; exists back; eauto|].
  destruct (field_of (pf_type feat)) as [field|] eqn:Hfield; [|exists out; split; [done|]; split; [done|]; intros back Hb; exists back; eauto].
  destruct (dget (nz_stats n) name) as [[|p s]|].
  1, 3: exists out; split; [by destruct (dget out field)|]; split; [done|]; intros back Hb; exists back; split; [by destruct (dget back field)|]; eauto.
  destruct Hr as [|Hr]; [done|]. destruct (dget out field) as [e|] eqn:He.
  2: { exists out. split; [done|]. split; [done|]. intros back Hb. exists back. rewrite (Hb field), He by done. eauto. }
  destruct Hr as (x & sh & -> & Hx & Hst & Hne). cbn [as_tensor mbind res_bind].
  destruct (normalize_field_like (nz_dtype n) x sh (p :: s) (nz_eps n) (mode_for n feat) Hm Hst) as (y & -> & Hy). cbn [mbind res_bind].
  eexists. split; [done|]. split; [intros key Hk; apply dget_dset_ne; congruence|].
  intros back Hb. rewrite (Hb field), dget_dset_eq by done. cbn [as_tensor mbind res_bind].
  destruct (unnormalize_field_like (nz_dtype n) x sh (p :: s) (nz_eps n) (mode_for n feat) y Hm Hst Hne Hy) as (z & -> & Hz). cbn [mbind res_bind].
  eexists. split; [done|]. split; [intros key Hk; apply dget_dset_ne; congruence|].
  intros key [= <-]. rewrite dget_dset_eq, He. simpl. destruct Hz as [(Hs & Hv & Ha) Hd], Hst as (HD & _).
  repeat split; [done|done|intros idx; rewrite Hs; apply Ha|]. rewrite Hd. by apply widened_cases.
Qed.

Lemma ready_ext n t t' name feat : (∀ key, touches feat key → dget t' key = dget t key) → ready n t name feat → ready n t' name feat.
Proof.
  unfold ready, touches. intros He. destruct (field_of (pf_type feat)) as [field|]; [|done]. by rewrite (He field).
Qed.

Definition untouched (fs : dict string policy_feature) (key : string) : Prop := Forall (λ p : string * policy_feature, ¬ touches p.2 key) fs.

Lemma features_undone n fs out :
  NoDup (pf_type ∘ snd <$> fs) → Forall (λ p, ready n out p.1 p.2) fs →
  ∃ out1, apply_features n false fs out = Ok out1 ∧ (∀ key, untouched fs key → dget out1 key = dget out key) ∧
    ∀ back, (∀ key, ¬ untouched fs key → dget back key = dget out1 key) →
      ∃ back1, apply_features n true fs back = Ok back1 ∧ (∀ key, untouched fs key → dget back1 key = dget back key) ∧
        ∀ key, ¬ untouched fs key → came_back (nz_dtype n) (dget back1 key) (dget out key).
Proof.
  revert out. induction fs as [|[name feat] fs IH]; intros out Hnd Hr.
  { exists out. split; [done|]. split; [done|]. intros back _. exists back. split; [done|]. split; [done|]. intros key []. constructor. }
  rewrite fmap_cons in Hnd. apply NoDup_cons in Hnd as [Hin Hnd]. apply Forall_cons in Hr as [Hr Hrs]. simpl in Hr.
  destruct (feature_undone n name feat out Hr) as (outa & Ha & Hfra & Hback).
  assert (∀ key, touches feat key → untouched fs key) as Hother.
  { intros key Hk. apply Forall_forall. intros [n' f'] Hp Hk'. apply Hin. apply list_elem_of_fmap. exists (n', f'). split; [|done].
    simpl. by apply (field_of_inj _ _ key). }
  destruct (IH outa Hnd) as (out1 & H1 & Hfr1 & Hback1).
  { apply Forall_forall. intros [n' f'] Hp. apply (ready_ext n out); [|by apply (proj1 (Forall_forall _ _) Hrs (n', f'))].
    intros key Hk. apply Hfra. intros Hk'. by apply (proj1 (Forall_forall _ _) (Hother key Hk') (n', f')). }
  exists out1. cbn [apply_features]. rewrite Ha. split; [exact H1|]. split.
  { intros key [Hk Hks]%Forall_cons. rewrite Hfr1 by done. by apply Hfra. }
  intros back Hb. destruct (Hback back) as (backa & -> & Hfb & Hsame).
  { intros key Hk. rewrite Hb by (by intros [? _]%Forall_cons). apply Hfr1. by apply Hother. }
  cbn [mbind res_bind]. destruct (Hback1 backa) as (back1 & -> & Hfb1 & Hsame1).
  { intros key Hk. rewrite Hfb; [apply Hb; by intros [_ ?]%Forall_cons|]. intros Ht. apply Hk. by apply Hother. }
  exists back1. split; [done|]. split.
  { intros key [Hk Hks]%Forall_cons. rewrite Hfb1 by done. by apply Hfb. }
  intros key Hk. destruct (decide (field_of (pf_type feat) = Some key)) as [Ht|Ht].
  - rewrite Hfb1 by (by apply Hother). by apply Hsame.
  - rewrite <- (Hfra key Ht). apply Hsame1. intros Hu. apply Hk. by constructor.
Qed.

(** C13: Unnormalizing undoes normalizing, in exact arithmetic, for a
    normalizer whose features are of distinct types.  When the statistics of
    each feature stretch over its field, which is of any floating type, and
    none of the divisors vanishes, the normalizer succeeds, the unnormalizer
    with the same configuration succeeds on its result, and every entry of the
    transition has its value back; a tensor keeps its shape and its device, and
    its element type is its own or its own promoted with the statistics'. *)
Theorem unnormalizer_inverts n t :
  NoDup (pf_type ∘ snd <$> nz_features n) → Forall (λ p, ready n t p.1 p.2) (nz_features n) →
  ∃ t1 t2, normalizer_call n false t = Ok t1 ∧ normalizer_call n true t1 = Ok t2 ∧ ∀ key, came_back (nz_dtype n) (dget t2 key) (dget t key).
Proof.
  intros Hnd Hr. destruct (features_undone n _ t Hnd Hr) as (t1 & H1 & Hf1 & Hb). destruct (Hb t1) as (t2 & H2 & Hf2 & Hs); [done|].
  exists t1, t2. split; [done|]. split; [done|]. intros key.
  assert (untouched (nz_features n) key ∨ ¬ untouched (nz_features n) key) as [Hu|Hu].
  { unfold untouched. destruct (decide (Forall (λ p : string * policy_feature, field_of (pf_type p.2) ≠ Some key) (nz_features n))); [by left|by right]. }
  - rewrite Hf2, Hf1 by done. apply came_back_refl.
  - by apply Hs.
Qed.

(** ** Instances *)

Definition row (n : Z) (f : Z → Z) : tensor := NdArray [n] Float32 "cpu" (λ idx, match idx with [i] => q_of_Z (f i) | _ => 0%Qc end).
Definition demo_stats : stats := [("action", [("mean", row 2 id); ("std", row 2 (λ _, 3)); ("q01", row 2 (λ _, -1)); ("q99", row 2 id)])].
Definition demo_normalizer : normalizer :=
  normalizer_init [("action", PolicyFeature FT_ACTION [])] [(FT_ACTION, MEAN_STD)] (Some demo_stats) (Some "cpu") Float32 (Q2Qc (1 # 100000000)).
Definition demo_action : tensor := NdArray [1; 2] BFloat16 "cpu" (λ idx, match idx with [_; i] => q_of_Z (10 + i) | _ => 0%Qc end).

Lemma demo_ready : Forall (λ p, ready demo_normalizer [(ACTION, ETensor demo_action)] p.1 p.2) (nz_features demo_normalizer).
Proof.
  constructor; [|constructor]. right. exists demo_action, [2]. split; [done|]. split; [done|]. split.
  - split; [done|]. split; [done|]. repeat constructor; eexists; done.
  - intros idx Hi. inversion Hi as [|? i ? idx1 H1 Hi1]; subst. inversion Hi1 as [|? j ? idx2 H2 Hi2]; subst. inversion Hi2; subst.
    apply (proj1 (bool_decide_eq_false _)). vm_compute. done.
Qed.

Lemma unnormalizer_inverts_witness :
  ∃ t1 t2, normalizer_call demo_normalizer false [(ACTION, ETensor demo_action)] = Ok t1 ∧ normalizer_call demo_normalizer true t1 = Ok t2 ∧
    ∀ key, came_back Float32 (dget t2 key) (dget [(ACTION, ETensor demo_action)] key).
Proof. apply (unnormalizer_inverts demo_normalizer [(ACTION, ETensor demo_action)]); [by apply (bool_decide_unpack _)|exact demo_ready]. Defined.
