(* ===== verification/ImageProps.v ===== *)
(** * Images and state bins
      ([processing/ops/image_ops.py], [models/pi05/ops_pi05.py])

    Images are fitted into their target and centred; a state falls into the bin
    that contains it. *)

From Stdlib Require Import QArith.Qround Lqa Ascii String.
From S2P Require Import Prelude PyStr Transition ProcessorSteps.
Open Scope string_scope.
Open Scope Z_scope.

(** ** Fitting *)

(** The side that limits the scale and the target it is scaled to: the width
    when the image is no taller for its width than the target *)
Definition limiting (h w th tw : Z) : Z * Z := if h * tw <=? w * th then (w, tw) else (h, th).

(** The size an image is resized to: each side is the whole part of the side
    times the scale; where that product is a whole number, as it always is on
    the limiting side, rounding may make it one less. *)
Definition fitted (h w th tw rh rw : Z) : Prop :=
  let '(a, b) := limiting h w th tw in trunc_of (h * b) a rh ∧ trunc_of (w * b) a rw.

Lemma trunc_of_self a b r : 0 < a → trunc_of (a * b) a r → b - 1 <= r <= b.
Proof. intros Ha. unfold trunc_of. rewrite Z.mul_comm, Z.div_mul by lia. lia. Qed.

Lemma trunc_of_le n d r m : 0 < d → n <= m * d → trunc_of n d r → r <= m.
Proof. intros Hd Hn. unfold trunc_of. assert (n / d <= m) by (apply Z.div_le_upper_bound; lia). lia. Qed.

Lemma trunc_of_ge n d r : 0 < n → 0 < d → trunc_of n d r → 0 <= r.
Proof.
  intros Hn Hd. unfold trunc_of. assert (0 <= n / d) by (apply Z.div_pos; lia). intros [->|[Hm ->]]; [done|].
  pose proof (Z.div_mod n d ltac:(lia)). nia.
Qed.

Lemma fitted_bounds h w th tw rh rw :
  0 < h → 0 < w → 0 < th → 0 < tw → fitted h w th tw rh rw →
  0 <= rh <= th ∧ 0 <= rw <= tw ∧ (th - 1 <= rh ∨ tw - 1 <= rw).
Proof.
  intros Hh Hw Hth Htw. unfold fitted, limiting. destruct (Z.leb_spec (h * tw) (w * th)); intros [H1 H2].
  - pose proof (trunc_of_self w tw rw Hw H2). pose proof (trunc_of_le (h * tw) w rh th Hw ltac:(lia) H1). pose proof (trunc_of_ge (h * tw) w rh ltac:(nia) Hw H1). lia.
  - pose proof (trunc_of_self h th rh Hh H1). pose proof (trunc_of_le (w * th) h rw tw Hh ltac:(lia) H2). pose proof (trunc_of_ge (w * th) h rw ltac:(nia) Hh H2). lia.
Qed.

Section resize.
Context (interpolate : tensor → Z → Z → res tensor) (q_round : Qc → Qc).

(** [F.interpolate] gives images of the requested size and refuses an empty
    one. *)
Definition interpolates : Prop := ∀ x b c h w h' w', t_shape x = [b; c; h; w] →
  if (0 <? h') && (0 <? w')
  then ∃ y, interpolate x h' w' = Ok y ∧ t_shape y = [b; c; h'; w'] ∧ t_dtype y = t_dtype x ∧ t_device y = t_device x
  else interpolate x h' w' = Err RuntimeError.

Lemma py_divide_near (a b : Qc) : (0 < a)%Q → (0 < b)%Q → ∃ v, py_divide a b = Ok v ∧ (0 < v)%Q ∧ near half_ulp (a / b) v.
Proof.
  intros Ha Hb. exists (b64 (a / b)%Qc). assert (0 < a / b)%Q as Hq by (apply Qlt_shift_div_l; [done|]; by rewrite Qmult_0_l).
  assert (0 < (a / b)%Qc)%Q as Hq' by (by rewrite Qc_div_Q). pose proof (b64_near _ Hq') as Hn. rewrite Qc_div_Q in Hn.
  split; [|split; [|done]].
  - unfold py_divide. rewrite bool_decide_false; [done|]. intros ->. by apply Qlt_irrefl in Hb.
  - destruct Hn as [Hn _]. unfold half_ulp in Hn. change (1 # 2 ^ 53) with (1 # 9007199254740992) in Hn. lra.
Qed.

Lemma q_of_Z_pos z : 0 < z → (0 < q_of_Z z)%Q.
Proof. intros Hz. rewrite q_of_Z_Q. by apply inject_pos. Qed.

(** The larger of the two rounded ratios is that of the limiting side: they
    are not rounded to the same float. *)
Lemma ratio_near h w th tw (rw rh : Qc) (ab := limiting h w th tw) :
  0 < h → 0 < w → 0 < th → 0 < tw → h * tw < 2 ^ 50 → w * th < 2 ^ 50 →
  near half_ulp (inject_Z w / inject_Z tw) rw → near half_ulp (inject_Z h / inject_Z th) rh →
  near half_ulp (inject_Z ab.1 / inject_Z ab.2) (q_max rw rh).
Proof.
  intros Hh Hw Hth Htw Hb1 Hb2 Hrw Hrh. pose proof (inject_pos th Hth). pose proof (inject_pos tw Htw).
  set (x := (inject_Z w / inject_Z tw)%Q) in *. set (y := (inject_Z h / inject_Z th)%Q) in *.
  assert (x * inject_Z tw == inject_Z w)%Q as Hx by (unfold x; field; by apply pos_nonzero).
  assert (y * inject_Z th == inject_Z h)%Q as Hy by (unfold y; field; by apply pos_nonzero).
  assert (∀ (p q : Q) (a b : Qc) m n, (p * (inject_Z tw * inject_Z th) == inject_Z m)%Q → (q * (inject_Z tw * inject_Z th) == inject_Z n)%Q →
    m < n → n < 2 ^ 50 → near half_ulp p a → near half_ulp q b → (a < b)%Q) as Hlt.
  { intros p q a b m n Hp Hq Hmn Hn [_ Ha] [Hb _]. unfold half_ulp in *. change (1 # 2 ^ 53) with (1 # 9007199254740992) in *.
    assert (inject_Z m + 1 <= inject_Z n)%Q by (change 1%Q with (inject_Z 1); rewrite <- inject_Z_plus, <- Zle_Qle; lia).
    assert (inject_Z n < inject_Z (2 ^ 50))%Q as Hn' by (by rewrite <- Zlt_Qlt). change (inject_Z (2 ^ 50)) with (1125899906842624 # 1) in Hn'.
    assert (0 < inject_Z tw * inject_Z th)%Q as Hpos by (by apply Qmult_lt_0_compat). set (k := (inject_Z tw * inject_Z th)%Q) in *. clearbody k.
    apply (Qmult_lt_r _ _ k Hpos). apply (Qmult_le_compat_r _ _ k) in Ha, Hb; [|lra..]. lra. }
  assert (x * (inject_Z tw * inject_Z th) == inject_Z (w * th))%Q as Hxk by (rewrite inject_Z_mult, <- Hx; ring).
  assert (y * (inject_Z tw * inject_Z th) == inject_Z (h * tw))%Q as Hyk by (rewrite inject_Z_mult, <- Hy; ring).
  subst ab. unfold limiting, q_max, Qcle. destruct (Z.leb_spec (h * tw) (w * th)) as [Hle|Hgt]; cbn [fst snd]; fold x y.
  - destruct (decide _) as [Hd|]; [|done]. destruct (Z.eq_dec (h * tw) (w * th)) as [He|].
    + assert (x == y)%Q as ->; [|done]. apply (Qmult_inj_r _ _ (inject_Z tw * inject_Z th)); [apply pos_nonzero; by apply Qmult_lt_0_compat|].
      rewrite Hxk, Hyk. by rewrite He.
    + exfalso. eapply Qlt_not_le; [|exact Hd]. by apply (Hlt y x rh rw (h * tw) (w * th) Hyk Hxk ltac:(lia)).
  - destruct (decide _) as [|Hd]; [done|]. exfalso. apply Hd, Qlt_le_weak. by apply (Hlt x y rw rh (w * th) (h * tw) Hxk Hyk).
Qed.

(** The quotient by a rounded ratio, truncated *)
Lemma scaled_trunc s a b (ratio : Qc) n d :
  0 < s → 0 < a → 0 < b → 0 < n < 2 ^ 50 → 0 < d → s * b * d = n * a → near half_ulp (inject_Z a / inject_Z b) ratio →
  ∃ r, q_trunc <$> py_divide (b64 (q_of_Z s)) ratio = Ok r ∧ trunc_of n d r.
Proof.
  intros Hs Ha Hb Hn Hd He Hr. pose proof (inject_pos s Hs). pose proof (inject_pos a Ha). pose proof (inject_pos b Hb). pose proof (inject_pos d Hd).
  pose proof (b64_near _ (q_of_Z_pos s Hs)) as Hs'. rewrite q_of_Z_Q in Hs'.
  assert (0 < inject_Z a / inject_Z b)%Q as Hab by (apply Qlt_shift_div_l; [done|]; by rewrite Qmult_0_l).
  assert (0 < b64 (q_of_Z s))%Q as Hs0.
  { destruct Hs' as [Hs' _]. unfold half_ulp in Hs'. change (1 # 2 ^ 53) with (1 # 9007199254740992) in Hs'. lra. }
  assert (0 < ratio)%Q as Hr0.
  { destruct Hr as [Hr' _]. unfold half_ulp in Hr'. change (1 # 2 ^ 53) with (1 # 9007199254740992) in Hr'. lra. }
  destruct (py_divide_near _ _ Hs0 Hr0) as (v & -> & _ & Hv). exists (q_trunc v). split; [done|]. apply trunc_near; [done..|].
  pose proof (near_quotient _ _ _ _ _ H Hab Hs' Hr Hv) as Hq.
  assert (inject_Z s / (inject_Z a / inject_Z b) == inject_Z n / inject_Z d)%Q as <-; [|done].
  assert (inject_Z s * inject_Z b * inject_Z d == inject_Z n * inject_Z a)%Q as He' by (rewrite <- !inject_Z_mult; by rewrite He).
  apply (Qmult_inj_r _ _ (inject_Z a * inject_Z d)); [apply pos_nonzero; by apply Qmult_lt_0_compat|].
  transitivity (inject_Z s * inject_Z b * inject_Z d)%Q; [|rewrite He']; field; repeat split; by apply pos_nonzero.
Qed.

(** The code's resized sizes fit. *)
Lemma resized_sizes h w th tw :
  0 < h → 0 < w → 0 < th → 0 < tw → h * tw < 2 ^ 50 → w * th < 2 ^ 50 →
  ∃ rh rw, fitted h w th tw rh rw ∧ ∀ A (k : Z → Z → res A),
    (rw ← py_divide (q_of_Z w) (q_of_Z tw); rh ← py_divide (q_of_Z h) (q_of_Z th);
     let ratio := q_max rw rh in
     resized_h ← q_trunc <$> py_divide (b64 (q_of_Z h)) ratio; resized_w ← q_trunc <$> py_divide (b64 (q_of_Z w)) ratio; k resized_h resized_w) =
    k rh rw.
Proof.
  intros Hh Hw Hth Htw Hb1 Hb2.
  destruct (py_divide_near (q_of_Z w) (q_of_Z tw)) as (qw & Hqw & _ & Hnw); [by apply q_of_Z_pos..|]. rewrite !q_of_Z_Q in Hnw.
  destruct (py_divide_near (q_of_Z h) (q_of_Z th)) as (qh & Hqh & _ & Hnh); [by apply q_of_Z_pos..|]. rewrite !q_of_Z_Q in Hnh.
  pose proof (ratio_near h w th tw qw qh Hh Hw Hth Htw Hb1 Hb2 Hnw Hnh) as Hr.
  assert (∃ rh rw, q_trunc <$> py_divide (b64 (q_of_Z h)) (q_max qw qh) = Ok rh ∧ q_trunc <$> py_divide (b64 (q_of_Z w)) (q_max qw qh) = Ok rw ∧
    fitted h w th tw rh rw) as (rh & rw & H1 & H2 & Hf).
  { unfold fitted. unfold limiting in *. destruct (Z.leb_spec (h * tw) (w * th)); cbn [fst snd] in Hr.
    - destruct (scaled_trunc h w tw _ (h * tw) w Hh Hw Htw ltac:(nia) Hw ltac:(lia) Hr) as (rh & H1 & Ht1).
      destruct (scaled_trunc w w tw _ tw 1 Hw Hw Htw ltac:(nia) ltac:(lia) ltac:(lia) Hr) as (rw & H2 & Ht2).
      exists rh, rw. split; [done|]. split; [done|]. split; [done|]. revert Ht2. unfold trunc_of. rewrite (Z.mul_comm w), Z.div_mul, Z.mod_mul, Z.div_1_r by lia. lia.
    - destruct (scaled_trunc w h th _ (w * th) h Hw Hh Hth ltac:(nia) Hh ltac:(lia) Hr) as (rw & H2 & Ht2).
      destruct (scaled_trunc h h th _ th 1 Hh Hh Hth ltac:(nia) ltac:(lia) ltac:(lia) Hr) as (rh & H1 & Ht1).
      exists rh, rw. split; [done|]. split; [done|]. split; [|done]. revert Ht1. unfold trunc_of. rewrite (Z.mul_comm h), Z.div_mul, Z.mod_mul, Z.div_1_r by lia. lia. }
  exists rh, rw. split; [done|]. intros A k. rewrite Hqw. cbn [mbind res_bind]. rewrite Hqh. cbn [mbind res_bind]. rewrite H1, H2. done.
Qed.

(** Outside the fitted image, which sits in the middle *)
Definition in_border (th tw rh rw y x : Z) : Prop :=
  let top := (th - rh) / 2 in let left := (tw - rw) / 2 in y < top ∨ top + rh <= y ∨ x < left ∨ left + rw <= x.

Lemma pad_images_exact b c rh rw th tw value z :
  t_shape z = [b; c; rh; rw] → 0 <= th → 0 <= tw →
  ∃ y, pad_images ((tw - rw) / 2) ((tw - rw) / 2 + (tw - rw) mod 2) ((th - rh) / 2) ((th - rh) / 2 + (th - rh) mod 2) value z = Ok y ∧
    t_shape y = [b; c; th; tw] ∧ t_dtype y = t_dtype z ∧ t_device y = t_device z ∧
    ∀ i j p q, t_at y [i; j; p; q] = (if decide (in_border th tw rh rw p q) then value else t_at z [i; j; p - (th - rh) / 2; q - (tw - rw) / 2]).
Proof.
  intros Hs Hth Htw. unfold pad_images. rewrite Hs.
  pose proof (Z.div_mod (th - rh) 2 ltac:(lia)). pose proof (Z.div_mod (tw - rw) 2 ltac:(lia)).
  replace ((th - rh) / 2 + rh + ((th - rh) / 2 + (th - rh) mod 2)) with th by lia.
  replace ((tw - rw) / 2 + rw + ((tw - rw) / 2 + (tw - rw) mod 2)) with tw by lia.
  destruct (Z.leb_spec 0 th); [|lia]. destruct (Z.leb_spec 0 tw); [|lia]. simpl. eexists. split; [done|]. repeat split; try done.
  intros i j p q. simpl. set (top := (th - rh) / 2). set (left := (tw - rw) / 2). unfold in_border. fold top left.
  destruct (decide _) as [Hd|Hd]; destruct (Z.leb_spec top p), (Z.ltb_spec p (top + rh)), (Z.leb_spec left q), (Z.ltb_spec q (left + rw));
    simpl; try done; exfalso; lia.
Qed.

(** What a pixel of the interpolated images becomes: 8-bit pixels are rounded
    and clamped. *)
Definition pixel (d : dtype) (v : Qc) : Qc := match d with Uint8 => clamp 0%Qc (q_of_Z 255) (q_round v) | _ => v end.

(** C28: Resizing with padding.  Images of the target size are returned as
    they are.  Images of another positive size come out at the target size,
    whatever their aspect: each side is scaled by the ratio of the side that
    limits it and truncated, which float rounding makes one pixel less in some
    cases where the exact product is whole (the code resizes 9 pixels to 223 of
    224), never more; the result holds the pixels of the image interpolated to
    that size, rounded and clamped for 8-bit images, at the offset that centres
    them, and the given value outside.  Images of which a side vanishes are
    refused as the interpolation refuses them.  Products of a side and the
    other target are below 2 ^ 50. *)
Theorem resize_exact images b c h w th tw pad_value :
  interpolates → t_shape images = [b; c; h; w] → 0 < h → 0 < w → 0 < th → 0 < tw → h * tw < 2 ^ 50 → w * th < 2 ^ 50 → t_dtype images ≠ Int64 →
  let result := resize_with_pad interpolate q_round th tw pad_value images in
  ((h, w) = (th, tw) → result = Ok images) ∧
  ((h, w) ≠ (th, tw) → ∃ rh rw, fitted h w th tw rh rw ∧
    (0 <= rh <= th ∧ 0 <= rw <= tw ∧ (th - 1 <= rh ∨ tw - 1 <= rw)) ∧
    if (0 <? rh) && (0 <? rw)
    then ∃ z y, interpolate images rh rw = Ok z ∧ result = Ok y ∧ t_shape y = [b; c; th; tw] ∧
           t_dtype y = t_dtype images ∧ t_device y = t_device images ∧
           ∀ i j p q, t_at y [i; j; p; q] =
             if decide (in_border th tw rh rw p q) then pad_value
             else pixel (t_dtype images) (t_at z [i; j; p - (th - rh) / 2; q - (tw - rw) / 2])
    else result = Err RuntimeError).
Proof.
  intros Hint Hs Hh Hw Hth Htw Hb1 Hb2 Hd result. unfold result, resize_with_pad. rewrite Hs. split; [intros [= -> ->]; by rewrite !Z.eqb_refl|].
  intros Hne. destruct ((h =? th) && (w =? tw)) eqn:He.
  { exfalso. apply andb_prop in He as [->%Z.eqb_eq ->%Z.eqb_eq]. done. }
  destruct (resized_sizes h w th tw Hh Hw Hth Htw Hb1 Hb2) as (rh & rw & Hf & Hk). exists rh, rw. split; [done|].
  split; [by apply (fitted_bounds h w)|]. rewrite Hk. clear Hk. pose proof (Hint images b c h w rh rw Hs) as Hi.
  destruct ((0 <? rh) && (0 <? rw)); [|by rewrite Hi].
  destruct Hi as (z & Hz & Hzs & Hzd & Hzv). rewrite Hz. cbn [mbind res_bind].
  assert (∃ z', (match t_dtype images with
                 | Uint8 => Ok (to_dtype Uint8 (NdArray (t_shape z) (t_dtype z) (t_device z) (λ idx, clamp 0%Qc (q_of_Z 255) (q_round (t_at z idx)))))
                 | Int64 => Err ValueError
                 | _ => Ok z end) = Ok z' ∧ t_shape z' = [b; c; rh; rw] ∧ t_dtype z' = t_dtype images ∧ t_device z' = t_device images ∧
                 ∀ idx, t_at z' idx = pixel (t_dtype images) (t_at z idx)) as (z' & -> & Hs' & Hd' & Hv' & Ha).
  { destruct (t_dtype images); try done; eexists; (split; [reflexivity|]); repeat split; done. }
  cbn [mbind res_bind]. destruct (pad_images_exact b c rh rw th tw pad_value z' Hs') as (y & Hy & Hys & Hyd & Hyv & Hyp); [lia..|].
  exists z, y. split; [done|]. split; [exact Hy|]. split; [done|]. split; [by rewrite Hyd|]. split; [by rewrite Hyv|]. intros i j p q. by rewrite Hyp, Ha.
Qed.
End resize.

(** ** State bins *)

Lemma bin_edge_Q n i : (bin_edge n i == inject_Z 2 * inject_Z i / inject_Z n - 1)%Q.
Proof. unfold bin_edge, Qcplus, Qcopp, Qcdiv, Qcmult, Qcinv. simpl. rewrite !Qred_correct. unfold Qdiv. ring. Qed.

(** The last edge at or below [x], were there bins on both sides of the range *)
Definition edge_index (n : Z) (x : Qc) : Z := Qfloor ((x + 1) * inject_Z n / 2).

Lemma bin_edge_le n i x : 0 < n → (bin_edge n i <= x)%Qc ↔ i <= edge_index n x.
Proof.
  intros Hn. unfold Qcle. rewrite bin_edge_Q. assert (0 < inject_Z n)%Q as Hq by (unfold Qlt; simpl; lia).
  assert (¬ inject_Z n == 0)%Q as Hz by (intros He; rewrite He in Hq; by apply Qlt_irrefl in Hq).
  trans (inject_Z i <= (x + 1) * inject_Z n / 2)%Q.
  - split; intros Hle.
    + apply Qle_shift_div_l; [done|]. apply (Qplus_le_compat _ _ 1 1) in Hle; [|apply Qle_refl].
      apply (Qmult_le_compat_r _ _ (inject_Z n)) in Hle; [|by apply Qlt_le_weak].
      assert ((inject_Z 2 * inject_Z i / inject_Z n - 1 + 1) * inject_Z n == inject_Z i * 2)%Q as He by (field; done). by rewrite He in Hle.
    + apply (Qmult_le_compat_r _ _ (2 / inject_Z n)) in Hle; [|apply Qlt_le_weak, Qlt_shift_div_l; [done|by rewrite Qmult_0_l]].
      assert ((x + 1) * inject_Z n / 2 * (2 / inject_Z n) == x + 1)%Q as He by (field; done). rewrite He in Hle.
      apply (Qplus_le_compat _ _ (-1) (-1)) in Hle; [|apply Qle_refl].
      assert (inject_Z i * (2 / inject_Z n) + -1 == inject_Z 2 * inject_Z i / inject_Z n - 1)%Q as He2 by (unfold inject_Z at 3; field; done).
      rewrite He2 in Hle. assert (x + 1 + -1 == x)%Q as He3 by ring. by rewrite He3 in Hle.
  - unfold edge_index. split; intros Hle.
    + apply (Qfloor_resp_le) in Hle. by rewrite Qfloor_Z in Hle.
    + eapply Qle_trans; [|apply Qfloor_le]. by rewrite <- Zle_Qle.
Qed.

Lemma count_le n k : 0 <= n → Z.of_nat (List.length (filter (λ i, i <= k) (seqZ 0 n))) = Z.max 0 (Z.min n (k + 1)).
Proof.
  intros Hn. rewrite <- (Z2Nat.id n) at 1 2 by done. generalize (Z.to_nat n) as m. clear n Hn. intros m.
  induction m as [|m IH]; [simpl; lia|]. rewrite Nat2Z.inj_succ, <- Z.add_1_r, seqZ_app by lia. rewrite filter_app, length_app, Nat2Z.inj_add, IH.
  assert (seqZ (0 + Z.of_nat m) 1 = [Z.of_nat m]) as -> by (unfold seqZ; simpl; f_equal; lia). rewrite filter_cons. destruct (decide _); simpl; lia.
Qed.

Lemma bin_of_index n x : 0 < n → bin_of n x = Z.max 0 (Z.min n (edge_index n x + 1)) - 1.
Proof.
  intros Hn. unfold bin_of. rewrite <- (count_le n (edge_index n x)) by lia. do 3 f_equal.
  apply list_filter_iff. intros i. by apply bin_edge_le.
Qed.

(** C29: A state in range falls into the bin that contains it.  From -1 on the
    bin is one of the bins, its lower edge is at or below the state, and the
    next edge, if there is one, above; the last bin also takes everything
    above the range.  Below -1 the bin is -1, which is none of them. *)
Theorem bins_exact n x (b := bin_of n x) :
  0 < n →
  ((- (1) <= x)%Qc ∧ 0 <= b < n ∧ (bin_edge n b <= x)%Qc ∧ (b < n - 1 → (x < bin_edge n (b + 1))%Qc)) ∨
  ((x < - (1))%Qc ∧ b = -1).
Proof.
  intros Hn. assert (bin_edge n 0 = - (1))%Qc as H0.
  { unfold bin_edge. change (q_of_Z 0) with 0%Qc. unfold Qcdiv. ring. }
  pose proof (bin_edge_le n 0 x Hn) as Hlo. rewrite H0 in Hlo. subst b. rewrite bin_of_index by done. set (k := edge_index n x) in *.
  destruct (Z.leb_spec 0 k) as [Hk|Hk].
  - left. split; [by apply Hlo|]. split; [lia|]. split; [apply bin_edge_le; [done|]; fold k; lia|]. intros Hb. apply Qcnot_le_lt.
    rewrite bin_edge_le by done. fold k. lia.
  - right. split; [apply Qcnot_le_lt; rewrite Hlo; lia|lia].
Qed.

(** ** Instances *)

(** Nearest-neighbour images *)
Definition nearest (x : tensor) (h' w' : Z) : res tensor :=
  match t_shape x with
  | [b; c; h; w] =>
      _ ← ensure ((0 <? h') && (0 <? w')) RuntimeError;
      Ok (NdArray [b; c; h'; w'] (t_dtype x) (t_device x)
            (λ idx, match idx with [i; j; p; q] => t_at x [i; j; p * h / h'; q * w / w'] | _ => 0%Qc end))
  | _ => Err RuntimeError
  end.

Lemma nearest_interpolates : interpolates nearest.
Proof.
  intros x b c h w h' w' Hs. unfold nearest. rewrite Hs. destruct ((0 <? h') && (0 <? w')); [|done]. eexists. split; [done|]. done.
Qed.

Definition wide_image : tensor := NdArray [1; 3; 9; 18] Uint8 "cpu" (λ idx, match idx with [_; _; p; q] => q_of_Z (18 * p + q) | _ => 0%Qc end).

(** Nine rows are fitted to 223 of 448 by 224. *)
Lemma resize_exact_witness :
  let result := resize_with_pad nearest id 224 224 0%Qc wide_image in
  ((9, 18) = (224, 224) → result = Ok wide_image) ∧
  ((9, 18) ≠ (224, 224) → ∃ rh rw, fitted 9 18 224 224 rh rw ∧
    (0 <= rh <= 224 ∧ 0 <= rw <= 224 ∧ (223 <= rh ∨ 223 <= rw)) ∧
    if (0 <? rh) && (0 <? rw)
    then ∃ z y, nearest wide_image rh rw = Ok z ∧ result = Ok y ∧ t_shape y = [1; 3; 224; 224] ∧ t_dtype y = Uint8 ∧ t_device y = "cpu" ∧
           ∀ i j p q, t_at y [i; j; p; q] =
             if decide (in_border 224 224 rh rw p q) then 0%Qc
             else pixel id Uint8 (t_at z [i; j; p - (224 - rh) / 2; q - (224 - rw) / 2])
    else result = Err RuntimeError).
Proof. apply (resize_exact nearest id wide_image 1 3 9 18 224 224 0%Qc nearest_interpolates); first [reflexivity | discriminate]. Defined.

Lemma bins_exact_witness :
  ((- (1) <= q_of_Z 0)%Qc ∧ 0 <= 128 < 256 ∧ (bin_edge 256 128 <= q_of_Z 0)%Qc ∧ (128 < 256 - 1 → (q_of_Z 0 < bin_edge 256 (128 + 1))%Qc)) ∨
  ((q_of_Z 0 < - (1))%Qc ∧ 128 = -1).
Proof. replace 128 with (bin_of 256 (q_of_Z 0)) by (vm_compute; reflexivity). apply (bins_exact 256 (q_of_Z 0)). reflexivity. Defined.
