(* ===== verification/ProcessorProps.v ===== *)
(** * The processors of pi0 and pi0.5 ([models/pi0], [models/pi05] of the tools)

    A processor that is saved and loaded again processes as before; and what
    the order of the postprocessing steps means for narrow statistics. *)

From Stdlib Require Import Ascii String.
From S2P Require Import Prelude PyStr Transition ProcessorSteps Pipeline Processors PipelineProps StepProps.
Open Scope string_scope.
Open Scope Z_scope.

(** ** Statistics given to a constructor *)

Lemma dget_prod_map {V W} (f : V → W) (d : dict string V) k : dget (prod_map id f <$> d) k = f <$> dget d k.
Proof. induction d as [|[k' v] d IH]; [done|]. simpl. destruct (decide (k = k')); [done|exact IH]. Qed.

Lemma dkeys_prod_map {V W} (f : V → W) (d : dict string V) : dkeys (prod_map id f <$> d) = dkeys d.
Proof. unfold dkeys. rewrite <- list_fmap_compose. by apply list_fmap_ext. Qed.

Definition given_stats (d : dtype) (device : option string) (s : stats) : stats :=
  prod_map id (λ sub : dict string tensor, prod_map id (place d device) <$> sub) <$> s.

Lemma given_wf d device s : stats_wf s → stats_wf (given_stats d device s).
Proof.
  intros [Hnd Hs]. split; [unfold given_stats; by rewrite dkeys_prod_map|]. intros name sub Hin.
  apply list_elem_of_fmap in Hin as ([n' sub'] & [= -> ->] & Hin). destruct (Hs _ _ Hin) as [Hn Hd].
  split; [by rewrite dkeys_prod_map|]. intros st t Hin'. apply list_elem_of_fmap in Hin' as ([st' t'] & [= -> _] & Hin'). by apply (Hd st' t').
Qed.

Lemma given_placed features m s device eps :
  placed (normalizer_init features m s (Some device) Float32 eps).
Proof.
  intros name st t. unfold lookup2, normalizer_init. simpl. rewrite (dget_prod_map (λ sub : dict string tensor, prod_map id (place Float32 (Some device)) <$> sub)).
  destruct (dget _ name) as [sub|]; [|done]. simpl. rewrite dget_prod_map. destruct (dget sub st) as [x|]; [|done]. intros [= <-]. done.
Qed.

Section processors.
Context {Tok : Type} (interpolate : tensor → Z → Z → res tensor) (q_round : Qc → Qc).
Context (encode : Tok → list string → Z → string → string → bool → res (tensor * tensor)).
Context (get_tokenizer : string → res Tok) (hub : string → string → res file) (snapshot : string → directory).
Context (file_order : dict string tensor → dict string tensor) (order_perm : ∀ d, Permutation (file_order d) d).
Implicit Types (a : processor_args Tok).

Abbreviation runs := (run interpolate q_round encode).

(** ** Saving both pipelines *)

Lemma names_apart i c j d : state_filename "policy_preprocessor" i c ≠ state_filename "policy_postprocessor" j d.
Proof. by unfold state_filename. Qed.

Lemma save_both_holds (pre post : list (step Tok)) dir (dir' := save_both pre post dir) :
  holds dir' PRE_CONFIG_FILENAME "policy_preprocessor" "policy_preprocessor" pre ∧
  holds dir' POST_CONFIG_FILENAME "policy_postprocessor" "policy_postprocessor" post.
Proof.
  subst dir'. unfold save_both.
  destruct (save_pretrained (core pre "policy_preprocessor") (Some PRE_CONFIG_FILENAME) dir) as [d1 f1] eqn:H1. cbn [fst].
  destruct (save_pretrained (core post "policy_postprocessor") (Some POST_CONFIG_FILENAME) d1) as [d2 f2] eqn:H2. cbn [fst].
  assert (f1 = PRE_CONFIG_FILENAME) as -> by (unfold save_pretrained in H1; destruct (save_steps _ _ _ _); by injection H1).
  assert (f2 = POST_CONFIG_FILENAME) as -> by (unfold save_pretrained in H2; destruct (save_steps _ _ _ _); by injection H2).
  destruct (save_holds _ _ _ _ _ H1) as (_ & Hpre & _); [intros i c; by apply json_no_state_file|].
  destruct (save_holds _ _ _ _ _ H2) as (_ & Hpost & Hkeep); [intros i c; by apply json_no_state_file|].
  split; [|exact Hpost]. apply (holds_ext _ _ _ _ _ _ Hpre).
  - apply Hkeep; [done|]. intros i c. by apply json_no_state_file.
  - intros i c. apply Hkeep; [|intros j d; apply names_apart]. intros He. by apply (json_no_state_file "policy_preprocessor" i c POST_CONFIG_FILENAME).
Qed.

Definition registered (r : dict string step_class) (cs : list step_class) : Prop := Forall (λ c, registry_get r (registry_name c) = Ok c) cs.

(** What must hold of the statistics to be saved *)
Definition storable a : Prop := stats_wf (default [] (pa_stats a)).

Lemma stats_step_whole a m inverse : storable a → NoDup (dkeys m) → saved_whole (stats_step a m inverse).
Proof. intros Hs Hm. split; [done|]. split; [exact (given_wf Float32 (Some (pa_device a)) _ Hs)|apply given_placed]. Qed.
Lemma stats_step_kw a m inverse : kw_for (stats_step a m inverse) (device_arg a).
Proof. by apply (kw_for_device inverse (normalizer_init _ _ _ (Some (pa_device a)) Float32 _)). Qed.
Lemma stats_step_cpu a m inverse : pa_device a = "cpu" → kw_for (stats_step a m inverse) [].
Proof. intros Hv. exists [], []. split; [done|]. split; [right; split; [done|]; simpl; by rewrite Hv|by left]. Qed.
Lemma pi0_map_nodup : NoDup (dkeys PI0_NORM_MAP).
Proof. apply (bool_decide_unpack _). by vm_compute. Qed.
Lemma pi05_map_nodup : NoDup (dkeys PI05_NORM_MAP).
Proof. apply (bool_decide_unpack _). by vm_compute. Qed.

(** ** pi0 *)

Definition pi0_classes : list step_class := [CNormalizer; CPadState; CPrompt; CTokenizer; CDevice; CSlice; CUnnormalizer].

Lemma pi0_pre_remakes r a tok (kws := [("tokenizer_processor", [("tokenizer", ATokenizer tok)]);
    ("device_processor", (device_arg a ++ [("float_dtype", ADtype (pa_params_dtype a))])%list); ("normalizer_processor", device_arg a)]) :
  registered r pi0_classes → storable a → Forall (remakes r kws) (pi0_pre_steps a tok).
Proof.
  intros Hr Hs. repeat (apply Forall_cons in Hr as [? Hr]). unfold pi0_pre_steps, remakes. repeat (constructor; [split; [done|split]|]); [..|constructor].
  all: unfold kws; cbn [class_of stats_step registry_name dget tokenizer_step_of]; py_keys; try done.
  - exact (stats_step_kw a PI0_NORM_MAP false).
  - exact (stats_step_whole a PI0_NORM_MAP false Hs pi0_map_nodup).
  - right. by exists (pa_params_dtype a).
Qed.

Definition slice_kwargs a : dict string (dict string (arg Tok)) :=
  match pa_action_dim a with Some k => [("slice_action_step", [("action_dim", AJson (JInt k))])] | None => [] end.

Lemma pi0_post_remakes r a :
  registered r pi0_classes → storable a → Forall (remakes r (("unnormalizer_processor", device_arg a) :: slice_kwargs a)) (pi0_post_steps a).
Proof.
  intros Hr Hs. repeat (apply Forall_cons in Hr as [? Hr]). unfold pi0_post_steps, remakes, slice_kwargs.
  repeat (constructor; [split; [done|split]|]); [..|constructor].
  all: destruct (pa_action_dim a); cbn [class_of stats_step registry_name dget]; py_keys; try done.
  all: try exact (stats_step_kw a PI0_NORM_MAP true); try (by left; vm_compute); try (by right; eexists).
  all: try exact (stats_step_whole a PI0_NORM_MAP true Hs pi0_map_nodup).
  all: left; split; [by left; split; vm_compute|done].
Qed.
Lemma same_step_plain (s u : step Tok) : (∀ i n, s ≠ SNormalizer i n) → same_step s u → u = s.
Proof. intros Hn [->|(i & n & m & -> & _)]; [done|]. by destruct (Hn i n). Qed.

Lemma same_step_stats (i : bool) n (u : step Tok) : same_step (SNormalizer i n) u → ∃ m, u = SNormalizer i m.
Proof. intros [<-|(j & n' & m & [= -> ->] & -> & _)]; eauto. Qed.

(** Pipelines that differ in steps that do the same *)
Lemma runs_same {I O} (steps us : list (step Tok)) n1 n2 (i : I → res transition) (o : transition → res O) data :
  Forall2 same_step steps us →
  runs (Pipeline I O us n1 i o) data = runs (Pipeline I O steps n2 i o) data.
Proof.
  intros Hs. unfold run. simpl. destruct (i data) as [t|]; [|done]. simpl. by rewrite (same_steps_run interpolate q_round encode _ _ t Hs).
Qed.

Lemma same_steps_refl (steps : list (step Tok)) : Forall2 same_step steps steps.
Proof. induction steps; constructor; [by left|done]. Qed.

(** Processors that answer every input alike *)
Definition same_processor {I} (q p : processor Tok I) : Prop :=
  (∀ t, runs (pr_pre q) t = runs (pr_pre p) t) ∧ (∀ x, runs (pr_post q) x = runs (pr_post p) x) ∧
  pr_max_length q = pr_max_length p ∧ pr_max_state_dim q = pr_max_state_dim p.

(** A pi0 processor comes back. *)
Lemma pi0_reloads a p r dir :
  pi0_processor get_tokenizer a = Ok p → registered r pi0_classes → storable a →
  ∃ q, pi0_from_pretrained get_tokenizer hub snapshot file_order r (InDirectory (pi0_save p dir)) a = Ok q ∧
    same_processor q p.
Proof.
  unfold pi0_processor. intros Hp Hr Hs. apply bind_ok in Hp as (images & Himg & Hp). apply bind_ok in Hp as (tok & Htok & [= <-]).
  match goal with |- context [pi0_save ?p dir] => assert (pi0_save p dir = save_both (pi0_pre_steps a tok) (pi0_post_steps a) dir) as -> end.
  { unfold pi0_save, vision_steps. by destruct (pa_normalize_pixels a). }
  destruct (save_both_holds (pi0_pre_steps a tok) (pi0_post_steps a) dir) as [Hpre Hpost]. set (dir' := save_both _ _ _) in *.
  destruct (load_held q_round hub snapshot file_order order_perm r _ dir' _ _ _ _ Ok Ok Hpre (pi0_pre_remakes r a tok Hr Hs)) as (us & Hl1 & Hsame1).
  destruct (load_held q_round hub snapshot file_order order_perm r _ dir' _ _ _ _ Ok Ok Hpost (pi0_post_remakes r a Hr Hs)) as (vs & Hl2 & Hsame2).
  unfold pi0_from_pretrained, load_core. rewrite Htok. cbn [mbind res_bind]. rewrite Hl1. cbn [mbind res_bind]. fold (slice_kwargs a).
  rewrite Hl2. cbn [mbind res_bind]. rewrite Himg. cbn [mbind res_bind pl_steps].
  pose proof Hsame1 as Epre. unfold pi0_pre_steps in Epre. repeat (apply Forall2_cons_inv_l in Epre as (? & ? & ? & Epre & ->)). apply Forall2_nil_inv_l in Epre as ->.
  pose proof Hsame2 as Epost. unfold pi0_post_steps in Epost. repeat (apply Forall2_cons_inv_l in Epost as (? & ? & ? & Epost & ->)). apply Forall2_nil_inv_l in Epost as ->.
  repeat match goal with H : same_step _ ?u |- _ => is_var u; first [apply same_step_plain in H; [|done]; subst u | apply same_step_stats in H as [? ->]] end.
  eexists. split; [done|]. unfold same_processor. cbn [pr_pre pr_post pr_max_length pr_max_state_dim pl_steps]. split; [|split; [|done]].
  - intros t. match type of Hsame1 with Forall2 _ _ ?us =>
      match goal with |- context [with_pad_state ?d ?l] => assert (with_pad_state d l = vision_steps a ++ us)%list as -> end end.
    { unfold with_pad_state, vision_steps. destruct (pa_normalize_pixels a); reflexivity. }
    apply runs_same. exact (Forall2_app (same_steps_refl (vision_steps a)) Hsame1).
  - intros x. by apply runs_same.
Qed.

(** ** pi0.5 *)

Definition pi05_classes : list step_class := [CNormalizer; CPrepareState; CTokenizer; CDevice; CUnnormalizer].

Lemma pi05_pre_remakes r a tok (kws := [("tokenizer_processor", [("tokenizer", ATokenizer tok)]); ("device_processor", device_arg a)]) :
  registered r pi05_classes → storable a → pa_device a = "cpu" → is_floating (pa_params_dtype a) = true → Forall (remakes r kws) (pi05_pre_steps a tok).
Proof.
  intros Hr Hs Hv Hd. repeat (apply Forall_cons in Hr as [? Hr]). unfold pi05_pre_steps, remakes. repeat (constructor; [split; [done|split]|]); [..|constructor].
  all: unfold kws; cbn [class_of stats_step registry_name dget tokenizer_step_of]; py_keys; try done.
  - exact (stats_step_cpu a PI05_NORM_MAP false Hv).
  - exact (stats_step_whole a PI05_NORM_MAP false Hs pi05_map_nodup).
  - by left.
  - left. split; [by right|done].
Qed.

Lemma pi05_post_remakes r a :
  registered r pi05_classes → storable a →
  Forall (remakes r [("unnormalizer_processor", device_arg a)]) [stats_step a PI05_NORM_MAP true; SDevice "cpu" None].
Proof.
  intros Hr Hs. repeat (apply Forall_cons in Hr as [? Hr]). unfold remakes. repeat (constructor; [split; [done|split]|]); [..|constructor].
  all: cbn [class_of stats_step registry_name dget]; py_keys; try done.
  - exact (stats_step_kw a PI05_NORM_MAP true).
  - exact (stats_step_whole a PI05_NORM_MAP true Hs pi05_map_nodup).
  - left; split; [by left; split; vm_compute|done].
Qed.

(** A transition with an action only has one after it is normalized. *)
Lemma normalizer_call_action n inverse x t : normalizer_call n inverse [(ACTION, ETensor x)] = Ok t → ∃ y, t = [(ACTION, ETensor y)].
Proof.
  unfold normalizer_call. revert x. induction (nz_features n) as [|[name f] fs IH]; intros x; cbn [apply_features]; [intros [= <-]; eauto|].
  intros (u & Hu & Ht)%bind_ok. assert (∃ y, u = [(ACTION, ETensor y)]) as [y ->]; [|by apply (IH y)]. unfold apply_feature in Hu.
  destruct (decide _); [injection Hu as <-; eauto|]. destruct (field_of _) as [field|]; [|injection Hu as <-; eauto].
  cbn [dget] in Hu. destruct (decide (field = ACTION)) as [->|]; [|injection Hu as <-; eauto].
  destruct (dget _ name) as [[|p s]|]; [injection Hu as <-; eauto| |injection Hu as <-; eauto]. cbn [as_tensor mbind res_bind] in Hu.
  apply bind_ok in Hu as (y & _ & [= <-]). exists y. by destruct inverse.
Qed.

(** Slicing and moving to a device commute. *)
Lemma slice_device k d y steps :
  run_steps interpolate q_round encode (SDevice d None :: SSlice k :: steps) [(ACTION, ETensor y)] =
  run_steps interpolate q_round encode (SSlice k :: SDevice d None :: steps) [(ACTION, ETensor y)].
Proof.
  assert (∀ z, device_call d None [(ACTION, ETensor z)] = [(ACTION, ETensor (to_device d z))]) as Hd by done.
  assert (∀ k z, slice_call (Some k) [(ACTION, ETensor z)] = (u ← slice_last k z; Ok [(ACTION, ETensor u)])) as Hk by done.
  cbn [run_steps step_call]. rewrite Hd. cbn [mbind res_bind]. destruct k as [k|]; [|cbn [slice_call mbind res_bind]; by rewrite Hd].
  rewrite !Hk. unfold slice_last. cbn [to_device t_shape t_dtype t_at]. destruct (last (t_shape y)) as [n|]; [|done].
  cbn [mbind res_bind]. by rewrite Hd.
Qed.

(** A pi0.5 processor on the CPU comes back. *)
Lemma pi05_reloads a p r dir :
  pi05_processor get_tokenizer a = Ok p → registered r pi05_classes → storable a → pa_device a = "cpu" → is_floating (pa_params_dtype a) = true →
  ∃ q, pi05_from_pretrained get_tokenizer hub snapshot file_order r (InDirectory (pi05_save p dir)) a = Ok q ∧
    same_processor q p.
Proof.
  unfold pi05_processor. intros Hp Hr Hs Hcpu Hfl. apply bind_ok in Hp as (tok & Htok & [= <-]).
  match goal with |- context [pi05_save ?p dir] =>
    assert (pi05_save p dir = save_both (pi05_pre_steps a tok) [stats_step a PI05_NORM_MAP true; SDevice "cpu" None] dir) as -> end.
  { unfold pi05_save, vision_steps. by destruct (pa_normalize_pixels a). }
  destruct (save_both_holds (pi05_pre_steps a tok) [stats_step a PI05_NORM_MAP true; SDevice "cpu" None] dir) as [Hpre Hpost]. set (dir' := save_both _ _ _) in *.
  destruct (load_held q_round hub snapshot file_order order_perm r _ dir' _ _ _ _ Ok Ok Hpre (pi05_pre_remakes r a tok Hr Hs Hcpu Hfl)) as (us & Hl1 & Hsame1).
  destruct (load_held q_round hub snapshot file_order order_perm r _ dir' _ _ _ _ Ok Ok Hpost (pi05_post_remakes r a Hr Hs)) as (vs & Hl2 & Hsame2).
  unfold pi05_from_pretrained, load_core. rewrite Htok. cbn [mbind res_bind]. rewrite Hl1. cbn [mbind res_bind].
  rewrite Hl2. cbn [mbind res_bind pl_steps].
  pose proof Hsame1 as Epre. unfold pi05_pre_steps in Epre. repeat (apply Forall2_cons_inv_l in Epre as (? & ? & ? & Epre & ->)). apply Forall2_nil_inv_l in Epre as ->.
  repeat match goal with H : same_step _ ?u |- _ => is_var u; first [apply same_step_plain in H; [|done]; subst u | apply same_step_stats in H as [? ->]] end.
  eexists. split; [done|]. unfold same_processor. cbn [pr_pre pr_post pr_max_length pr_max_state_dim pl_steps]. split; [|split; [|done]].
  - intros t. apply runs_same. exact (Forall2_app (same_steps_refl (vision_steps a)) Hsame1).
  - intros x. rewrite (runs_same _ _ _ "policy_postprocessor" _ _ x (Forall2_app Hsame2 (same_steps_refl [SSlice (pa_action_dim a)]))).
    unfold run, pi05_post_steps. cbn [pl_in pl_out pl_steps action_to_transition mbind res_bind app]. cbn [run_steps].
    destruct (step_call _ _ _ (stats_step a PI05_NORM_MAP true) _) as [t|] eqn:Ht; [|done]. apply normalizer_call_action in Ht as [y ->].
    cbn [mbind res_bind]. exact (f_equal (λ r, t ← r; transition_to_action t) (slice_device (pa_action_dim a) "cpu" y [])).
Qed.

(** C14: Processors come back.  A pi0 processor that is saved to a directory and
    loaded from it with the same arguments, with any statistics that can be
    stored and on any device, preprocesses and postprocesses every input as
    before, with the same prompt length and state width; so does a pi0.5
    processor on the CPU, although its slicing step is not stored but appended,
    after the move to the CPU instead of before. *)
Theorem processors_reload a dir :
  storable a →
  (∀ p r, pi0_processor get_tokenizer a = Ok p → registered r pi0_classes →
    ∃ q, pi0_from_pretrained get_tokenizer hub snapshot file_order r (InDirectory (pi0_save p dir)) a = Ok q ∧
      same_processor q p) ∧
  (∀ p r, pi05_processor get_tokenizer a = Ok p → registered r pi05_classes → pa_device a = "cpu" → is_floating (pa_params_dtype a) = true →
    ∃ q, pi05_from_pretrained get_tokenizer hub snapshot file_order r (InDirectory (pi05_save p dir)) a = Ok q ∧
      same_processor q p).
Proof. intros Hs. split; intros p r; intros; [by apply pi0_reloads|by apply pi05_reloads]. Qed.

(** ** Narrow statistics *)

(** The statistics of the action, as a constructor places them *)
Lemma action_stats a m inverse sub x mode :
  (default [] (pa_stats a) : stats) ≠ [] → dget (default [] (pa_stats a)) ACTION_FEATURE = Some sub → sub ≠ [] → dget m FT_ACTION = Some mode → mode ≠ IDENTITY →
  step_call interpolate q_round encode (stats_step a m inverse) [(ACTION, ETensor x)] =
  (y ← (if inverse then unnormalize_field else normalize_field) x mode (prod_map id (place Float32 (Some (pa_device a))) <$> sub) default_eps;
   Ok [(ACTION, ETensor y)]).
Proof.
  intros Hne Hget Hsub Hm Hmode. unfold stats_step. cbn [step_call]. unfold normalizer_call, normalizer_init. cbn [nz_features].
  destruct (pa_stats a) as [[|p s]|]; [done| |done]. cbn [default from_option id] in *. unfold features_for_stats.
  assert (ACTION_FEATURE ∈ dkeys (p :: s)) as Hin by (unfold dkeys; apply list_elem_of_fmap; exists (ACTION_FEATURE, sub); split; [done|by apply dget_elem]).
  assert (∀ n, apply_feature n inverse STATE_FEATURE (PolicyFeature FT_STATE []) [(ACTION, ETensor x)] = Ok [(ACTION, ETensor x)]) as Hst.
  { intros n. unfold apply_feature. destruct (decide _); [done|]. simpl. by destruct (dget (nz_stats n) STATE_FEATURE). }
  rewrite (bool_decide_true (ACTION_FEATURE ∈ _)) by done.
  destruct (bool_decide (STATE_FEATURE ∈ _)); cbn [app apply_features]; rewrite ?Hst; cbn [mbind res_bind]; unfold apply_feature; cbn [nz_norm_map pf_type nz_stats field_of nz_eps];
    rewrite Hm; cbn [default from_option id]; rewrite decide_False by done;
    rewrite (dget_prod_map (λ sub : dict string tensor, prod_map id (place Float32 (Some (pa_device a))) <$> sub)), Hget;
    (destruct sub as [|q sub]; [done|]); cbn [fmap option_fmap option_map list_fmap dget decide_rel as_tensor mbind res_bind];
    rewrite decide_True by done; cbn [as_tensor mbind res_bind dset];
    destruct inverse; cbv zeta; rewrite ?decide_True by done; by destruct (_ x mode _ default_eps).
Qed.

Lemma fits_last (lead : list Z) k : fits [k] (lead ++ [k]).
Proof.
  unfold fits, broadcast. rewrite reverse_app. change (reverse [k]) with [k]. cbn [app broadcast_rev]. rewrite broadcast_dim_id. cbn [mbind res_bind].
  assert (broadcast_rev (reverse lead) [] = Ok (reverse lead)) as -> by (by destruct (reverse lead)).
  cbn [mbind res_bind]. by rewrite reverse_cons, reverse_involutive.
Qed.

Lemma unfit_last (lead : list Z) m k : m ≠ k → m ≠ 1 → k ≠ 1 → broadcast (lead ++ [m]) [k] = Err RuntimeError.
Proof.
  intros Hmk Hm Hk. unfold broadcast. rewrite reverse_app. change (reverse [m]) with [m]. change (reverse [k]) with [k]. cbn [app broadcast_rev]. unfold broadcast_dim.
  destruct (Z.eqb_spec m k); [done|]. destruct (Z.eqb_spec m 1); [done|]. by destruct (Z.eqb_spec k 1).
Qed.

(** A statistic of an action with [k] coordinates *)
Definition narrow (sub : dict string tensor) (k : Z) (st : string) : Prop := ∃ t, dget sub st = Some t ∧ t_shape t = [k].

Lemma narrow_operand a sub k st x : narrow sub k st → t_device x = pa_device a →
  ∃ t, dget (prod_map id (place Float32 (Some (pa_device a))) <$> sub) st = Some t ∧ operand Float32 x [k] t.
Proof.
  intros (t & Hg & Hs) Hv. exists (place Float32 (Some (pa_device a)) t). rewrite dget_prod_map, Hg. split; [done|]. by repeat split.
Qed.

Lemma quantiles_unfit a sub k m (lead : list Z) x :
  narrow sub k "q01" → narrow sub k "q99" → t_shape x = (lead ++ [m])%list → t_device x = pa_device a → m ≠ k → m ≠ 1 → k ≠ 1 →
  unnormalize_field x QUANTILES (prod_map id (place Float32 (Some (pa_device a))) <$> sub) default_eps = Err RuntimeError.
Proof.
  intros Hl Hh Hs Hv Hmk Hm Hk. destruct (narrow_operand a sub k "q01" x Hl Hv) as (l & Hgl & Hul), (narrow_operand a sub k "q99" x Hh Hv) as (h & Hgh & Huh).
  destruct (spread_operand Float32 x [k] _ "q01" "q99" l h default_eps eq_refl Hgl Hgh Hul Huh) as (d & Hd & (Hsd & _ & Hvd) & _).
  cbn [unnormalize_field]. rewrite Hd. cbn [mbind res_bind]. unfold pointwise, common_device. cbn [with_float t_device t_shape].
  rewrite Hvd, String.eqb_refl. cbn [mbind res_bind]. by rewrite Hs, Hsd, unfit_last.
Qed.

Lemma stat_at_placed d device sub k v : stat_at (prod_map id (place d device) <$> sub) k v = stat_at sub k v.
Proof. unfold stat_at. rewrite dget_prod_map. by destruct (dget sub k), device. Qed.

Lemma slice_last_spec (lead : list Z) m k x : t_shape x = (lead ++ [m])%list → 0 <= k <= m →
  slice_last k x = Ok (NdArray (lead ++ [k]) (t_dtype x) (t_device x) (t_at x)).
Proof.
  intros Hs Hk. unfold slice_last. rewrite Hs, last_snoc, removelast_last. unfold sliced_dim. destruct (Z.leb_spec 0 k); [|lia].
  by rewrite Z.min_l by lia.
Qed.

(** C30: Narrow statistics.  When the statistics of the action have the [k]
    coordinates of the robot and the model's action is wider, the postprocessor
    of pi0 gives the first [k] coordinates, unnormalized by mean and deviation
    and on the CPU; the postprocessor of pi0.5, which slices after it
    unnormalizes, fails on every action. *)
Theorem narrow_statistics a sub k m (lead : list Z) x :
  dget (default [] (pa_stats a)) ACTION_FEATURE = Some sub → Forall (narrow sub k) ["q01"; "q99"; "mean"; "std"] →
  pa_action_dim a = Some k → 1 < k < m →
  t_shape x = (lead ++ [m])%list → t_dtype x = Float32 → t_device x = pa_device a →
  (∀ p, pi05_processor get_tokenizer a = Ok p → runs (pr_post p) x = Err RuntimeError) ∧
  (∀ p, pi0_processor get_tokenizer a = Ok p → ∃ y, runs (pr_post p) x = Ok (ETensor y) ∧ t_shape y = (lead ++ [k])%list ∧ t_device y = "cpu" ∧
     ∀ idx, in_shape (t_shape y) idx → let v := view_index [k] idx in
       t_at y idx = (t_at x idx * (stat_at sub "std" v + default_eps) + stat_at sub "mean" v)%Qc).
Proof.
  intros Hsub Hn Hdim Hk Hs Hd Hv. apply Forall_cons in Hn as [Hq1 Hn]. repeat (apply Forall_cons in Hn as [? Hn]).
  assert (sub ≠ []) as Hne by (intros ->; destruct Hq1 as (t & Hg & _); discriminate Hg).
  assert ((default [] (pa_stats a) : stats) ≠ []) as Hne' by (intros He; by rewrite He in Hsub).
  split; intros p Hp.
  - unfold pi05_processor in Hp. apply bind_ok in Hp as (tok & _ & [= <-]). unfold run. cbn [pr_post pl_in pl_steps action_to_transition mbind res_bind pi05_post_steps run_steps].
    rewrite (action_stats a _ true sub x QUANTILES) by done. by rewrite (quantiles_unfit a sub k m lead x) by (done || lia).
  - unfold pi0_processor in Hp. apply bind_ok in Hp as (? & _ & Hp). apply bind_ok in Hp as (tok & _ & [= <-]).
    unfold run. cbn [pr_post pl_in pl_steps action_to_transition mbind res_bind pi0_post_steps run_steps].
    cbn [step_call]. rewrite Hdim. cbn [slice_call dget]. rewrite decide_True by done. cbn [of_option mbind res_bind as_tensor].
    rewrite (slice_last_spec lead m k x) by (done || lia). set (xs := NdArray (lead ++ [k]) _ _ _). cbn [mbind res_bind dset]. rewrite decide_True by done.
    pose proof (action_stats a PI0_NORM_MAP true sub xs MEAN_STD Hne' Hsub Hne eq_refl ltac:(done)) as Hstep. cbn [step_call] in Hstep.
    cbn [mbind res_bind] in *. rewrite Hstep.
    set (s := prod_map id (place Float32 (Some (pa_device a))) <$> sub) in *.
    assert (has_stats Float32 xs [k] MEAN_STD s) as Hst.
    { split; [done|]. split; [apply fits_last|]. repeat constructor; by apply narrow_operand. }
    destruct (unnormalize_mean Float32 xs [k] s default_eps xs (t_at xs) Hst) as (z & -> & (Hzs & _ & Hz) & _);
      [split; [apply valued_self|]; unfold wide; cbn [xs t_dtype]; by rewrite Hd, widened_refl|].
    cbn [mbind res_bind]. eexists. split; [reflexivity|]. split; [exact Hzs|]. split; [done|].
    intros idx Hi. cbn [to_device t_at t_shape] in *. rewrite Hzs in Hi. rewrite Hz by done. unfold divisor, s. by rewrite !stat_at_placed.
Qed.
End processors.

(** ** An instance *)

Definition robot_stat (q : Qc) : tensor := NdArray [2] Float32 "cpu" (λ _, q).
Definition robot_action : dict string tensor :=
  [("q01", robot_stat (- (1))%Qc); ("q99", robot_stat 1%Qc); ("mean", robot_stat 0%Qc); ("std", robot_stat 1%Qc)].
Definition robot_stats : stats := [("observation.state", [("mean", robot_stat 0%Qc); ("std", robot_stat 1%Qc)]); ("action", robot_action)].
Definition robot_args : processor_args unit :=
  ProcessorArgs 224 3 2 48 32 (Some 2) "google/paligemma-3b-pt-224" (Some tt) (Some robot_stats) true (- (1))%Qc "cpu" BFloat16.
Definition no_tokenizer (_ : string) : res unit := Err FileNotFoundError.
Definition robot0 : res (processor unit pi0_inputs) := pi0_processor no_tokenizer robot_args.
Definition robot5 : res (processor unit pi05_inputs) := pi05_processor no_tokenizer robot_args.
Definition wide_action : tensor := NdArray [1; 50; 32] Float32 "cpu" (λ idx, match idx with [_; i; j] => q_of_Z (i + j) | _ => 0%Qc end).

Lemma robot_storable : storable robot_args.
Proof.
  split; [by apply (bool_decide_unpack _)|]. intros name sub Hin.
  repeat (apply elem_of_cons in Hin as [[= -> ->]|Hin]; [|]); [..|by apply not_elem_of_nil in Hin].
  all: split; [by apply (bool_decide_unpack _)|]; intros st t Hst; repeat (apply elem_of_cons in Hst as [[= -> _]|Hst]; [done|]); by apply not_elem_of_nil in Hst.
Qed.

Lemma processors_reload_witness :
  (∃ p q, robot0 = Ok p ∧
     pi0_from_pretrained no_tokenizer no_hub no_snapshot reverse (registry_of pi0_classes) (InDirectory (pi0_save p ∅)) robot_args = Ok q ∧
     same_processor no_interpolation id encode_zeros q p) ∧
  (∃ p q, robot5 = Ok p ∧
     pi05_from_pretrained no_tokenizer no_hub no_snapshot reverse (registry_of pi05_classes) (InDirectory (pi05_save p ∅)) robot_args = Ok q ∧
     same_processor no_interpolation id encode_zeros q p).
Proof.
  destruct (processors_reload no_interpolation id encode_zeros no_tokenizer no_hub no_snapshot reverse (@reverse_Permutation _)
    robot_args ∅ robot_storable) as [H0 H5].
  split; [destruct robot0 as [p|] eqn:Hp; [|discriminate]; edestruct (H0 p) as (q & Hq & Hs)
         |destruct robot5 as [p|] eqn:Hp; [|discriminate]; edestruct (H5 p) as (q & Hq & Hs)].
  all: try exact Hp; try reflexivity; try (exists p, q; split; [reflexivity|]; split; [exact Hq|exact Hs]).
  all: repeat constructor.
Defined.

Lemma narrow_statistics_witness :
  (∃ p, robot5 = Ok p ∧ run no_interpolation id encode_zeros (pr_post p) wide_action = Err RuntimeError) ∧
  (∃ p y, robot0 = Ok p ∧ run no_interpolation id encode_zeros (pr_post p) wide_action = Ok (ETensor y) ∧ t_shape y = [1; 50; 2] ∧ t_device y = "cpu").
Proof.
  destruct (narrow_statistics no_interpolation id encode_zeros no_tokenizer robot_args robot_action 2 32 [1; 50] wide_action) as [H5 H0];
    [reflexivity|repeat constructor; eexists; split; reflexivity|reflexivity|lia|reflexivity..|].
  split; [destruct robot5 as [p|] eqn:Hp; [|discriminate]; exists p; split; [reflexivity|by apply H5]|].
  destruct robot0 as [p|] eqn:Hp; [|discriminate]. destruct (H0 p Hp) as (y & Hy & Hs & Hd & _). exists p, y. done.
Defined.
